(* ===== verification/_CoqProject ===== *)
-Q . S2P
Prelude.v
Slots.v
Ring.v
Queue.v
State.v
Table.v
Types.v
UserMem.v
Bytes.v
Ext2.v
Ext2Props.v
FsService.v
FsModule.v
FsModuleProps.v
KmodFs.v
Mem.v
Elf.v
ExecStack.v
Frame.v
Paging.v
PageTree.v
PageTables.v
Segment.v
SegmentProps.v
UserTable.v
UserCopy.v
Fifo.v
FdTable.v
FdSyscalls.v
Pipe.v
PipeSyscalls.v
Thread.v
KStack.v
Scheduler.v
Ipc.v
IpcSyscalls.v
Signal.v
Process.v
Futex.v
Kernel.v
SigSyscalls.v
SignalProps.v
Paths.v
PathsProps.v
Exec.v
ExecProps.v
Execve.v
Term.v
TermDraw.v
TermGrid.v
TermProps.v
TermChunks.v
Input.v
Tty.v
TtyProps.v
Sleep.v
Pgroup.v
PgroupProps.v
Mapper.v
UserPages.v
HeapMap.v
MemCalls.v
MemProps.v
PhysCalls.v
PhysProps.v
PortIo.v
Fork.v
ForkProps.v
ForkCall.v
NetDriver.v
NetProps.v
Hid.v
AtaBus.v
DiskService.v
DiskProps.v
ModuleAta.v
Kmod.v
KmodProps.v
SpinLock.v
Io.v
