(* ===== verification/Prelude.v ===== *)
(** * SwiftCore: a verification of the kernel

    SwiftCore is an x86-64 kernel in Rust ([src/core]) with user-space services
    above it.  A process calls the kernel through numbered system calls
    ([syscall/types.rs]); the handlers work on global tables (processes,
    threads, mailboxes, pipes, the futex queue, the frame allocator), each
    behind a lock, and reach user memory through page-table walks.  Files live
    in a user-space file service that the kernel calls by messages.

    This library models the kernel's own state and the handlers that change it,
    the terminal of the shell, and the drivers of network cards, USB keyboards and
    disks, and proves what makes them correct.  Paths below are relative to
    [src/src/core] unless they start with [src].

    ** Foundations

    - [Prelude]: results and the [let?] notation, 64-bit arithmetic with its
      wrap-around, checked and saturating forms, page arithmetic.
    - [Slots], [Ring], [Queue], [Table]: arrays of optional slots, ring buffers,
      the bounded-queue interface (a class with its laws) and its list
      semantics, and keyed slot tables as finite maps.
    - [State]: a state monad in which [None] is undefined behaviour or a panic,
      with the [?] operator.
    - [Types]: system-call numbers, errno values and kernel errors
      ([syscall/types.rs], [result.rs]).
    - [UserMem]: the class [UserMemory], what a handler may assume of user
      memory; [UserCopy] gives the instance built on page tables, and a flat
      memory serves to run handlers on concrete inputs.

    ** Memory ([mem/])

    - [Mem], [Frame]: physical memory as bytes, and the frame allocator with its
      bump pointer and the free list threaded through freed frames ([frame.rs]).
      No frame is held twice; allocation fails only when memory is exhausted;
      the MMIO policy is characterised; with the direct map at offset 0, as the
      boot loader sets it up, no frame is ever reused.
    - [Paging]: the page-table walkers with huge pages ([paging.rs]).
    - [PageTree], [PageTables]: paths and walks in the tree of tables;
      [map_page_in_table], [unmap_page_in_table] and the destruction of a user
      table.  Mapping and unmapping are updates of one page of the translation
      function and disturb no other frame; unmapping inside a huge page clears
      data.
    - [Segment], [SegmentProps]: the segment loader of [paging.rs] with its
      temporary kernel mapping.  A load onto vacant pages gives exactly the
      bytes of the file, zeroes after them and the requested permissions; a load
      that runs out of frames blocks every later one; when a page becomes
      writable and executable is characterised.
    - [Mapper]: what the page-table mapper of the x86_64 crate promises, as a
      class, and a mapper that keeps it.  [UserPages], [HeapMap]: single pages of
      a user's view, and zeroed memory over pages that may be there already.
    - [MemCalls], [MemProps]: [brk], [mmap], [munmap] and [mprotect]
      ([syscall/process.rs], [syscall/pgroup.rs], [paging.rs]).  Each changes the
      pages of its range and no others, in the memory and in the page tables;
      taking all permissions from a page loses it.
    - [PhysCalls], [PhysProps]: frames shared between processes and device memory
      ([syscall/privileged.rs], [syscall/mmio.rs]).  Only privileged callers reach
      them; sharing is all or nothing; device mappings avoid ordinary memory.
    - [UserTable]: creating an address space: it lives in new frames and shows
      user mode nothing.
    - [UserCopy]: the chunked user copies equal byte-wise reference copies,
      never write outside user pages, and round-trip ([paging.rs], [user.rs],
      [syscall/mod.rs]).

    ** Files and pipes

    - [Fifo]: the interrupt-safe ring buffer refines a bounded queue
      ([util/fifo.rs]).
    - [FdTable], [FdSyscalls]: descriptor tables of raw pointers with a heap of
      handles and shared counters of remote files ([task/fd_table.rs],
      [syscall/fs.rs], [syscall/exec.rs], [syscall/process.rs]).  No history of
      opens, closes, duplications, forks and execs frees a handle twice or uses
      a freed one; a remote file is closed exactly when its last handle goes;
      exec closes the close-on-exec descriptors only; fork copies; a full table
      makes open close its file twice.
    - [Bytes], [Ext2], [Ext2Props]: byte strings, and the readers of the boot
      images ([init/fs.rs]).  On any image and any path they return, without a
      panic or an endless loop; a file's bytes are those of its blocks; listing
      a directory agrees with looking names up.
    - [FsModule], [FsModuleProps]: the file-system module ([src/src/modules/fs])
      with its block, inode and path caches over a device of sectors.  The
      caches never change an answer; a read returns the bytes of the file.
      [ModuleAta]: its sector input through the ports delivers what [FsModule]
      assumes of a device.  [KmodFs]: the kernel's side ([kmod/fs.rs]): whole files are read exactly,
      unless they are larger than the module can map.
    - [FsService]: both ends of the file-service protocol ([syscall/fs.rs],
      [src/src/services/fs]).  [Paths], [PathsProps]: path resolution as walking
      names, the working directory, [stat] and its relatives.
    - [Pipe], [PipeSyscalls]: pipes carry bytes in order and without loss;
      [pipe2] is sound, but a reader never sees the end of file, and a table
      with one free descriptor leaks the read end ([syscall/pipe.rs]).

    ** Tasks

    - [Thread]: thread records and the 64-slot queue with generations refine a
      finite map, and a handle (slot, generation) never denotes two threads
      ([task/thread.rs]).
    - [KStack]: kernel stacks of one size are disjoint; reuse with mixed sizes
      is not ([task/thread.rs]).
    - [Scheduler]: after every step at most the current thread is running; the
      round robin reaches every ready thread within one turn of the queue; a
      wakeup that precedes the sleep is lost ([task/scheduler.rs]).
    - [Process]: the process table, search by name and reaping
      ([task/process.rs]).
    - [Ipc], [IpcSyscalls]: mailboxes with their slot ring and free stack refine
      lists of messages; a thread receives what was accepted for it, once and
      in order, across thread death and slot reuse; receiving from a chosen
      sender reorders the others ([syscall/ipc.rs]).
    - [Signal], [Kernel], [SigSyscalls], [SignalProps]: signal state, sending,
      delivery, frames and return, process exit, waiting and futexes on a joint
      state of processes, threads, scheduler and futex queue
      ([task/signal.rs], [syscall/signal.rs], [syscall/process.rs]).  SIGKILL
      and SIGSTOP cannot be blocked or caught; only a Core process signals
      another; delivery and return restore the interrupted context, but return
      trusts the flags on the user stack; a round of [wait] reaps exactly one
      matching child.
    - [Futex]: [FUTEX_WAKE] takes the first waiters on an address, of whatever
      process ([syscall/process.rs]).

    - [Sleep]: the clock, the timer interrupt and sleepers: a sleeper is woken by
      the first tick at or after its time ([syscall/time.rs],
      [interrupt/timer.rs]).
    - [Pgroup], [PgroupProps]: process groups, terminal control, [poll] and
      [pselect6] over descriptors and the console ([syscall/pgroup.rs]).
    - [Io]: [read], [write], [readv], [writev] and [log] over console,
      pipes and messages to the parent ([syscall/io.rs]).  A vector of buffers
      written to the terminal is one write of their concatenation.  File access
      is the class [FileIO].

    ** Programs ([elf/loader.rs], [syscall/exec.rs])

    - [Elf]: the header parsers accept exactly the encodings of headers.
    - [ExecStack]: address randomisation and the start-up stack: the regions
      never meet, and a program that reads its stack by the System V rules finds
      what was put there.
    - [Exec], [ExecProps]: every call that starts a program, on the joint state
      of [Kernel] with memory.  Starting is all or nothing; the privilege of the
      new process is bounded by the caller's.
    - [Execve]: replacing the calling program keeps the identity of the process
      and closes its close-on-exec descriptors, or changes nothing.
    - [Fork], [ForkProps], [ForkCall]: cloning an address space page by page and
      the system call ([paging.rs], [syscall/process.rs]).  The child sees the
      memory of the parent in frames of its own; child, descriptors and thread
      appear together or the tables are as they were.

    - [Kmod], [KmodProps]: kernel modules ([kmod/mod.rs], [kmod/disk.rs],
      [src/builders/modules.rs]).  The kernel accepts exactly the files that are
      the layout of a module, among them all that the builder writes; loading a
      relocatable module changes only the memory it was given, so modules never
      overlap.  The page table is the class [KernelPages].

    ** Locks

    - [SpinLock]: the interrupt-safe lock ([interrupt/spinlock.rs]) on any number
      of processors, with interrupts between any two accesses: one holder at a
      time, which is running with interrupts disabled; guards that are dropped out
      of order break this.

    ** Terminals and input

    - [Input]: the queues of the PS/2 keyboard and mouse, their interrupts and
      system calls ([util/ps2kbd.rs], [util/ps2mouse.rs], [syscall/keyboard.rs],
      [syscall/mouse.rs]).
    - [Tty], [TtyProps]: the kernel's console: the cursor, escape sequences, keys
      into bytes, settings ([syscall/tty.rs]).
    - [Term], [TermDraw], [TermGrid], [TermProps], [TermChunks]: the terminal of
      the shell ([src/services/shell/src/char.rs]).  Any output keeps it well
      formed and its frame buffer in step with its cells; each editing operation
      is a function on grids of cells; output may be cut anywhere.

    ** Drivers and services

    - [PortIo]: the system calls on processor ports ([syscall/io_port.rs]).  The
      class [Ports] is the processor's [in] and [out] with a device behind them;
      the drivers below are written against it.
    - [NetDriver], [NetProps]: the virtio network driver ([src/drivers/net]), with
      PCI probing, queues, ARP and ICMP; the calls for memory are the class
      [PageCalls].  The card works between any two steps of the driver, as a
      relation that lets it return buffers and nothing more; the rings are never
      overrun, the transmit buffer is never written while the card has it,
      checksums verify.
    - [Hid]: keyboards and mice on USB ([src/drivers/usb/src/hid.rs],
      [src/user/input.rs]).  The scan codes that the driver gives to the kernel
      tell exactly the keys that the last report held.
    - [AtaBus]: what a host may rely on of an ATA bus and its drives, as a
      transition relation and the class [AtaBuses]; the class [TolerantBuses] adds
      two things the disk service needs and the standard does not promise.
      [AtaSim] is a pair of buses that keeps to both.
    - [DiskService], [DiskProps]: the disk service ([src/services/disk]).  It
      refines four arrays of sectors, whatever the speed of the drives; only
      privileged threads reach them; a write that the drive fails is reported as
      a success.

    ** Conventions

    Integers are [Z] with the width written out; [usize] indices into fixed
    arrays are [nat].  A body run under a lock or with interrupts off is one
    step; a blocking call is its start plus one round of its loop, and the
    theorems quantify over histories of such steps.  Loops that are not
    structural take fuel: a copy loop of [n] bytes takes [n + 1] rounds (each
    round copies a byte or stops), a mailbox scan as many as there are messages,
    the frame search one per frame up to the end of memory, a page-range check
    one per page, a directory scan two per byte of the directory, a symbol search one per byte of the image; a loop
    over pages one per page.  Loops whose bound is in the code keep it: polling a ring
    64 times, 64 probes for pages, one round per symbol of a module up to the size of
    the file (a lemma shows that more would find nothing), 1000000 and 200000 status reads of a drive; three
    rounds fold the carries of a checksum of a packet.  Where running out of fuel is a result of its own, a lemma
    shows that the amount given is enough; elsewhere the theorems are about the
    result itself.  Code outside the repository is a parameter: the file
    service's answers, the clock, the page mapper of a received message.
    Log output, TLB flushes and memory barriers are left out.

    ** Not modelled

    The boot loader and the rest of start-up, which are firmware calls; assembly (context
    switch, system-call entry), descriptor tables, control registers and interrupt
    controllers, which have no meaning short of a model of the processor; the table
    that sends a system-call number to its handler; text output and logging; the
    xHCI controller of the USB driver and the DMA path of the file-system module,
    which share memory with hardware whose specification is not in the repository;
    the command loop of the shell, the utilities, the user library beyond the calls
    named above, and the build scripts. *)

From Stdlib Require Import ZArith Lia.
From stdpp Require Import base list numbers option.

Local Open Scope Z_scope.

Create HintDb kernel.

(** ** Results, as the kernel's [Result<T, E>] *)

Inductive result (A E : Type) : Type :=
| Ok (a : A)
| Err (e : E).
Arguments Ok {A E} a.
Arguments Err {A E} e.

#[export] Instance result_eq_dec {A E} `{EqDecision A, EqDecision E} : EqDecision (result A E).
Proof. solve_decision. Defined.

Definition ok_or {A E} (o : option A) (e : E) : result A E :=
  match o with Some a => Ok a | None => Err e end.

Definition is_ok {A E} (r : result A E) : bool :=
  match r with Ok _ => true | Err _ => false end.

Declare Scope kernel_scope.
Delimit Scope kernel_scope with kernel.

Notation "'let?' x ':=' e 'in' k" :=
  (match e with Ok x => k | Err err => Err err end)
  (at level 10, x pattern, e at level 100, k at level 200)
  : kernel_scope.

(** ** Machine integers

    A [u64] (and a [usize], the kernel being x86-64 only) is a [Z] with the
    width written out at each operation that can leave the range. *)

Definition U64_MODULUS : Z := 18446744073709551616.
Definition U64_MAX : Z := 18446744073709551615.

Definition is_u64 (x : Z) : Prop := 0 <= x < U64_MODULUS.

Definition wrap64 (x : Z) : Z := x mod U64_MODULUS.
Definition wrapping_add64 (a b : Z) : Z := wrap64 (a + b).
Definition wrapping_sub64 (a b : Z) : Z := wrap64 (a - b).
Definition wrapping_mul64 (a b : Z) : Z := wrap64 (a * b).

Definition checked_add64 (a b : Z) : option Z :=
  if a + b <? U64_MODULUS then Some (a + b) else None.
Definition checked_sub64 (a b : Z) : option Z :=
  if b <=? a then Some (a - b) else None.
Definition checked_mul64 (a b : Z) : option Z :=
  if a * b <? U64_MODULUS then Some (a * b) else None.

Definition saturating_add64 (a b : Z) : Z := Z.min (a + b) U64_MAX.
Definition saturating_sub64 (a b : Z) : Z := Z.max (a - b) 0.
Definition saturating_mul64 (a b : Z) : Z := Z.min (a * b) U64_MAX.

(** The value of a [u64] read as an [i64] ([x as i64]). *)
Definition as_i64 (x : Z) : Z := if x <? 9223372036854775808 then x else x - U64_MODULUS.
(** The bits of an [i64] as a [u64] ([x as u64]). *)
Definition i64_as_u64 (x : Z) : Z := wrap64 x.

(** [x & !0xfff] on a [u64]. *)
Definition page_down (x : Z) : Z := Z.land x (Z.lnot 4095).

Ltac unfold_u64 :=
  unfold checked_add64, checked_sub64, checked_mul64, saturating_add64, saturating_sub64,
    saturating_mul64, wrapping_add64, wrapping_sub64, wrapping_mul64, wrap64, is_u64,
    U64_MODULUS, U64_MAX in *.

(** Case analysis on the boolean tests of a goal or of the hypotheses, with the
    arithmetic reading of each test. *)
Ltac case_test :=
  match goal with
  | |- context [ (?a <? ?b)%Z ] => destruct (Z.ltb_spec a b)
  | |- context [ (?a <=? ?b)%Z ] => destruct (Z.leb_spec a b)
  | |- context [ (?a =? ?b)%Z ] => destruct (Z.eqb_spec a b)
  | H : context [ (?a <? ?b)%Z ] |- _ => destruct (Z.ltb_spec a b)
  | H : context [ (?a <=? ?b)%Z ] |- _ => destruct (Z.leb_spec a b)
  | H : context [ (?a =? ?b)%Z ] |- _ => destruct (Z.eqb_spec a b)
  end.

Ltac case_tests := repeat (case_test; cbn [andb orb negb] in *; try lia; try discriminate).

Lemma checked_add64_Some a b c :
  checked_add64 a b = Some c <-> c = a + b /\ a + b < U64_MODULUS.
Proof. unfold checked_add64. case_test; split; [intros [= <-]; lia | intros [-> ?]; done | done | lia]. Qed.

Lemma checked_sub64_Some a b c :
  checked_sub64 a b = Some c <-> c = a - b /\ b <= a.
Proof. unfold checked_sub64. case_test; split; [intros [= <-]; lia | intros [-> ?]; done | done | lia]. Qed.

Lemma page_down_spec x : page_down x = x - x mod 4096.
Proof.
  unfold page_down. change 4095 with (Z.ones 12).
  rewrite <-Z.ldiff_land, Z.ldiff_ones_r by lia.
  rewrite Z.shiftr_div_pow2, Z.shiftl_mul_pow2 by lia.
  change (2 ^ 12) with 4096. pose proof (Z.div_mod x 4096). lia.
Qed.

Lemma page_down_le x : page_down x <= x.
Proof. rewrite page_down_spec. pose proof (Z.mod_pos_bound x 4096). lia. Qed.

Lemma page_down_aligned x : page_down x mod 4096 = 0.
Proof.
  rewrite page_down_spec, Zminus_mod_idemp_r, Z.sub_diag. reflexivity.
Qed.

Lemma land_4095 x : Z.land x 4095 = x mod 4096.
Proof. change 4095 with (Z.ones 12). now rewrite Z.land_ones by lia. Qed.

Lemma Forall_elem {A} (P : A -> Prop) (l : list A) : Forall P l <-> forall x, x ∈ l -> P x.
Proof. rewrite List.Forall_forall. by setoid_rewrite list_elem_of_In. Qed.

(** ** Loops

    A loop body either goes on with a new state or ends with a result; [loop]
    runs at most [p] rounds.  [loop_rule] is its total-correctness rule. *)

Fixpoint loop {A B : Type} (p : positive) (f : A -> A + B) (a : A) : A + B :=
  match p with
  | xH => f a
  | xO p => match loop p f a with inl a => loop p f a | inr b => inr b end
  | xI p =>
      match f a with
      | inl a => match loop p f a with inl a => loop p f a | inr b => inr b end
      | inr b => inr b
      end
  end.

Lemma loop_steps {A B} (I : A -> Prop) (m : A -> Z) (Q : B -> Prop) (f : A -> A + B) (p : positive) (a : A) :
  (forall a, I a -> match f a with inl a' => I a' /\ m a' < m a | inr b => Q b end) ->
  I a -> match loop p f a with inl a' => I a' /\ m a' + Zpos p <= m a | inr b => Q b end.
Proof.
  intros Hf. revert a. induction p as [p IH|p IH|]; intros a Ha; cbn [loop].
  - pose proof (Hf a Ha) as H. destruct (f a) as [a1|b]; [|done]. destruct H as [H1 M1].
    pose proof (IH a1 H1) as H. destruct (loop p f a1) as [a2|b]; [|done]. destruct H as [H2 M2].
    pose proof (IH a2 H2) as H. destruct (loop p f a2) as [a3|b]; [|done]. destruct H as [H3 M3]. split; [done|lia].
  - pose proof (IH a Ha) as H. destruct (loop p f a) as [a1|b]; [|done]. destruct H as [H1 M1].
    pose proof (IH a1 H1) as H. destruct (loop p f a1) as [a2|b]; [|done]. destruct H as [H2 M2]. split; [done|lia].
  - pose proof (Hf a Ha) as H. destruct (f a) as [a1|b]; [|done]. destruct H as [H1 M1]. split; [done|lia].
Qed.

Lemma loop_rule {A B} (I : A -> Prop) (m : A -> Z) (Q : B -> Prop) (f : A -> A + B) (p : positive) (a : A) :
  (forall a, I a -> 0 <= m a /\ match f a with inl a' => I a' /\ m a' < m a | inr b => Q b end) ->
  I a -> m a < Zpos p -> exists b, loop p f a = inr b /\ Q b.
Proof.
  intros Hf Ha Hm. pose proof (loop_steps I m Q f p a (fun a Ha => proj2 (Hf a Ha)) Ha) as H.
  destruct (loop p f a) as [a'|b]; [|by exists b]. destruct H as [H1 M1]. pose proof (proj1 (Hf a' H1)). lia.
Qed.
