(* ===== verification/Slots.v ===== *)
(** Slot tables.

    The kernel keeps threads, processes, pipes, futex waiters and sleepers in
    fixed arrays [[Option<T>; N]] that are searched from index 0.  This file has
    the searches those tables share ([iter().position(..)], the loop for the
    first [None], [iter().filter_map(|s| s.as_ref())]) and their lemmas. *)

From Stdlib Require Import Lia.
From stdpp Require Import base list option.
From S2P Require Import Prelude.

Local Open Scope nat_scope.

Section slots.
Context {A : Type}.
Implicit Types (l : list (option A)) (P : A -> bool) (i j : nat) (a b : A).

(** The index of the first empty slot. *)
Fixpoint first_free l : option nat :=
  match l with
  | [] => None
  | None :: _ => Some 0
  | Some _ :: l' => S <$> first_free l'
  end.

(** The index and contents of the first occupied slot that satisfies [P]. *)
Fixpoint find_slot P l : option (nat * A) :=
  match l with
  | [] => None
  | Some a :: l' =>
      if P a then Some (0, a) else prod_map S id <$> find_slot P l'
  | None :: l' => prod_map S id <$> find_slot P l'
  end.

(** The occupied slots in index order: [iter().filter_map(|s| s.as_ref())]. *)
Definition live l : list A := omap id l.

(** [*slot = f(slot)] on slot [i], when it is occupied. *)
Definition alter_slot (f : A -> A) i l : list (option A) :=
  alter (fmap f) i l.

Lemma first_free_Some l i : first_free l = Some i -> l !! i = Some None.
Proof.
  revert i; induction l as [|[a|] l IH]; intros i; simpl; try done.
  - destruct (first_free l) as [k|]; simpl; [|done]. intros [= <-]. simpl. auto.
  - intros [= <-]. done.
Qed.

Lemma first_free_lt l i : first_free l = Some i -> i < length l.
Proof. intros H%first_free_Some. by apply lookup_lt_Some in H. Qed.

Lemma first_free_minimal l i j :
  first_free l = Some i -> j < i -> exists a, l !! j = Some (Some a).
Proof.
  revert i j; induction l as [|[a|] l IH]; intros i j; simpl; try done.
  - destruct (first_free l) as [k|] eqn:E; simpl; [|done]. intros [= <-] Hj.
    destruct j; simpl; eauto. eapply IH; [done|lia].
  - intros [= <-]. lia.
Qed.

Lemma first_free_None l : first_free l = None <-> forall i, i < length l -> exists a, l !! i = Some (Some a).
Proof.
  induction l as [|[a|] l IH]; simpl.
  - split; [lia|done].
  - destruct (first_free l) as [k|] eqn:E; simpl; split; try done.
    + intros H. exfalso. assert (Some k = None); [|done]. apply IH.
      intros i Hi. apply (H (S i)). lia.
    + intros _ [|i] Hi; simpl; eauto. apply IH; [done|lia].
  - split; [done|]. intros H. destruct (H 0) as [? ?]; [lia|done].
Qed.

Lemma find_slot_Some P l i a :
  find_slot P l = Some (i, a) ->
  l !! i = Some (Some a) /\ P a = true /\
  (forall j b, j < i -> l !! j = Some (Some b) -> P b = false).
Proof.
  revert i; induction l as [|[b|] l IH]; intros i; simpl; try done.
  - destruct (P b) eqn:E.
    + intros [= <- <-]. repeat split; auto. lia.
    + destruct (find_slot P l) as [[k c]|]; simpl; [|done]. intros [= <- <-].
      destruct (IH _ eq_refl) as (? & ? & Hmin). repeat split; auto.
      intros [|j] d; simpl; [naive_solver|]. intros ?. apply Hmin. lia.
  - destruct (find_slot P l) as [[k c]|]; simpl; [|done]. intros [= <- <-].
    destruct (IH _ eq_refl) as (? & ? & Hmin). repeat split; auto.
    intros [|j] d; simpl; [done|]. intros ?. apply Hmin. lia.
Qed.

Lemma find_slot_None P l :
  find_slot P l = None <-> forall i a, l !! i = Some (Some a) -> P a = false.
Proof.
  induction l as [|[b|] l IH]; simpl.
  - split; [done|done].
  - destruct (P b) eqn:E.
    + split; [done|]. intros H. specialize (H 0 b eq_refl). congruence.
    + destruct (find_slot P l) as [[k c]|]; simpl; split; try done.
      * intros H. destruct (IH) as [_ IH2]. exfalso. assert (Some (k, c) = None); [|done].
        apply IH2. intros i a. apply (H (S i)).
      * intros _ [|i] a; simpl; [congruence|]. by apply IH.
  - destruct (find_slot P l) as [[k c]|]; simpl; split; try done.
    + intros H. destruct (IH) as [_ IH2]. exfalso. assert (Some (k, c) = None); [|done].
      apply IH2. intros i a. apply (H (S i)).
    + intros _ [|i] a; simpl; [done|]. by apply IH.
Qed.

Lemma find_slot_is_Some P l i a :
  l !! i = Some (Some a) -> P a = true -> is_Some (find_slot P l).
Proof.
  intros Hl HP. destruct (find_slot P l) eqn:E; [eauto|].
  rewrite find_slot_None in E. rewrite (E i a Hl) in HP. done.
Qed.

Lemma elem_of_live l a : a ∈ live l <-> exists i, l !! i = Some (Some a).
Proof.
  unfold live. rewrite list_elem_of_omap. setoid_rewrite list_elem_of_lookup. simpl.
  naive_solver.
Qed.

Lemma live_cons o l : live (o :: l) = match o with Some a => a :: live l | None => live l end.
Proof. by destruct o. Qed.

Lemma live_app l1 l2 : live (l1 ++ l2) = live l1 ++ live l2.
Proof. apply omap_app. Qed.

Lemma live_take_drop l i o :
  l !! i = Some o -> live l = live (take i l) ++ live [o] ++ live (drop (S i) l).
Proof.
  intros H. rewrite <-(take_drop_middle l i o H) at 1. rewrite live_app. by destruct o.
Qed.

Lemma live_insert l i o :
  i < length l -> live (<[i:=o]> l) = live (take i l) ++ live [o] ++ live (drop (S i) l).
Proof. intros H. rewrite insert_take_drop by done. rewrite live_app. by destruct o. Qed.

Lemma live_fill l i a : l !! i = Some None -> live (<[i:=Some a]> l) ≡ₚ a :: live l.
Proof.
  intros H. rewrite live_insert by (by eapply lookup_lt_Some).
  rewrite (live_take_drop l i None H). simpl. by rewrite Permutation_middle.
Qed.

Lemma live_clear l i a : l !! i = Some (Some a) -> live l ≡ₚ a :: live (<[i:=None]> l).
Proof.
  intros H. rewrite live_insert by (by eapply lookup_lt_Some).
  rewrite (live_take_drop l i (Some a) H). simpl. by rewrite Permutation_middle.
Qed.

Lemma live_length_le l : length (live l) <= length l.
Proof. induction l as [|[a|] l IH]; simpl; unfold live in *; simpl in *; lia. Qed.

Lemma live_length_all l : Forall is_Some l -> length (live l) = length l.
Proof. induction 1 as [|o l [x ->] _ IH]; [done|]. rewrite live_cons. simpl. by rewrite IH. Qed.

Lemma live_length_fill l i a :
  l !! i = Some None -> length (live (<[i:=Some a]> l)) = S (length (live l)).
Proof. intros H. by rewrite (live_fill l i a H). Qed.

Lemma live_length_clear l i a :
  l !! i = Some (Some a) -> length (live l) = S (length (live (<[i:=None]> l))).
Proof. intros H. by rewrite (live_clear l i a H). Qed.

Lemma first_free_is_Some l : length (live l) < length l -> is_Some (first_free l).
Proof.
  induction l as [|[a|] l IH]; simpl; unfold live in *; simpl in *; [lia| |eauto].
  intros H. destruct IH as [k ->]; [lia|]. eauto.
Qed.

Lemma first_free_full l : first_free l = None -> length (live l) = length l.
Proof.
  intros H. pose proof (live_length_le l). destruct (decide (length (live l) < length l)) as [Hlt|]; [|lia].
  apply first_free_is_Some in Hlt as [? ?]. congruence.
Qed.

Lemma live_alter_slot (f : A -> A) l i a :
  l !! i = Some (Some a) -> live l ≡ₚ a :: live (<[i:=None]> l) /\
  live (alter_slot f i l) ≡ₚ f a :: live (<[i:=None]> l).
Proof.
  intros H. split; [by apply live_clear|]. unfold alter_slot.
  assert (alter (fmap f) i l = <[i:=Some (f a)]> l) as ->.
  { apply list_eq. intros j. destruct (decide (i = j)) as [->|Hne].
    - rewrite list_lookup_alter_eq, H. simpl.
      rewrite list_lookup_insert_eq by (by eapply lookup_lt_Some). done.
    - by rewrite list_lookup_alter_ne, list_lookup_insert_ne. }
  rewrite !live_insert by (by eapply lookup_lt_Some). simpl.
  by rewrite Permutation_middle.
Qed.

Lemma length_alter_slot f i l : length (alter_slot f i l) = length l.
Proof. apply length_alter. Qed.

Lemma live_map_key {K} (key : A -> K) (f : A -> A) l i :
  (forall a, key (f a) = key a) -> key <$> live (alter_slot f i l) = key <$> live l.
Proof.
  intros Hf. unfold alter_slot. revert i.
  induction l as [|[a|] l IH]; intros [|i]; simpl; try done; unfold live in *; simpl.
  - by rewrite Hf.
  - f_equal. apply IH.
  - apply IH.
Qed.
End slots.
#[global] Arguments live : simpl never.

#[export] Hint Resolve first_free_Some first_free_lt : kernel.
