(* ===== verification/Ring.v ===== *)
(** Ring buffers.

    The kernel's FIFO, its pipe buffer and its mailboxes are arrays read from
    an index [r] modulo the length.  [ring_view data r n] is the sequence of the
    [n] elements such a buffer holds, oldest first; the lemmas give the effect
    on that sequence of the three writes the code does (append, drop the head,
    overwrite a cell outside the live window). *)

From Stdlib Require Import Lia.
From stdpp Require Import base list option numbers.
From S2P Require Import Prelude.

Local Open Scope nat_scope.

Section ring.
Context {A : Type} `{!Inhabited A}.
Implicit Types (data : list A) (r n i : nat).

Definition ring_view data r n : list A :=
  (fun i => data !!! ((r + i) mod length data)) <$> seq 0 n.

Lemma ring_view_length data r n : length (ring_view data r n) = n.
Proof. unfold ring_view. by rewrite length_fmap, length_seq. Qed.

Lemma ring_view_nil data r : ring_view data r 0 = [].
Proof. done. Qed.

(** Two offsets of a window no longer than the array never meet. *)
Lemma ring_index_inj (N r i j : nat) :
  i < N -> j < N -> (r + i) mod N = (r + j) mod N -> i = j.
Proof.
  intros Hi Hj Heq.
  pose proof (Nat.div_mod (r + i) N ltac:(lia)) as E1.
  pose proof (Nat.div_mod (r + j) N ltac:(lia)) as E2.
  rewrite Heq in E1.
  assert ((r + i) / N = (r + j) / N) by nia.
  nia.
Qed.

Lemma ring_succ_index (N r i : nat) : N <> 0 -> (S r mod N + i) mod N = (r + S i) mod N.
Proof.
  intros. rewrite Nat.Div0.add_mod_idemp_l. f_equal. lia.
Qed.

Lemma ring_view_cons data r n :
  0 < length data -> r < length data ->
  ring_view data r (S n) = data !!! r :: ring_view data (S r mod length data) n.
Proof.
  intros H0 Hr. unfold ring_view. cbn [seq fmap list_fmap]. rewrite Nat.add_0_r, Nat.mod_small by done.
  f_equal. rewrite <-(fmap_S_seq 0 n), <-list_fmap_compose. apply list_fmap_ext.
  intros i x _. unfold compose. by rewrite ring_succ_index by lia.
Qed.

Lemma ring_view_snoc data r n :
  ring_view data r (S n) = ring_view data r n ++ [data !!! ((r + n) mod length data)].
Proof. unfold ring_view. by rewrite seq_S, fmap_app. Qed.

(** A write at an index outside the live window does not change the view. *)
Lemma ring_view_insert_other data r n k x :
  (forall i, i < n -> (r + i) mod length data <> k) ->
  ring_view (<[k:=x]> data) r n = ring_view data r n.
Proof.
  intros H. unfold ring_view. apply list_fmap_ext. intros i j Hj.
  apply lookup_seq in Hj as [-> Hi]. rewrite length_insert, list_lookup_total_insert_ne; [done|].
  intros E. apply (H (0 + i)); [lia|done].
Qed.

(** Appending: writing at [(r + n) mod N] when the buffer is not full. *)
Lemma ring_view_push data r n x :
  n < length data ->
  ring_view (<[(r + n) mod length data := x]> data) r (S n) = ring_view data r n ++ [x].
Proof.
  intros Hn. rewrite ring_view_snoc, length_insert.
  rewrite ring_view_insert_other.
  - rewrite list_lookup_total_insert_eq; [done|]. apply Nat.mod_upper_bound. lia.
  - intros i Hi E. apply ring_index_inj in E; lia.
Qed.

(** Clearing the cell at the head after it was taken out. *)
Lemma ring_view_pop_clear data r n x :
  r < length data -> S n <= length data ->
  ring_view (<[r:=x]> data) (S r mod length data) n = ring_view data (S r mod length data) n.
Proof.
  intros Hr Hn. apply ring_view_insert_other. intros i Hi E.
  rewrite ring_succ_index in E by lia.
  rewrite <-(Nat.mod_small r (length data)) in E at 2 by done.
  rewrite <-(Nat.add_0_r r) in E at 2. apply ring_index_inj in E; lia.
Qed.

Lemma ring_view_lookup data r n i :
  i < n -> ring_view data r n !! i = Some (data !!! ((r + i) mod length data)).
Proof. intros Hi. unfold ring_view. by rewrite list_lookup_fmap, lookup_seq_lt. Qed.
End ring.
#[global] Arguments ring_view : simpl never.
