(* ===== verification/Queue.v ===== *)
(** The bounded FIFO queue as an interface.

    [BoundedQueue] states what the interrupt-side producers (keyboard, mouse)
    and the system-call-side consumers rely on; [Fifo.v] discharges it for the
    ring buffer of [src/core/util/fifo.rs] and [Input.v] is proved against it. *)

From Stdlib Require Import Lia.
From stdpp Require Import base list option.
From S2P Require Import Prelude.

Local Open Scope nat_scope.

Class BoundedQueue (Q A : Type) := {
  bq_new : Q;
  bq_push : A -> Q -> result unit A * Q;
  bq_pop : Q -> option A * Q;
  bq_len : Q -> nat;
  bq_capacity : nat;
  bq_inv : Q -> Prop;
  bq_view : Q -> list A;
  bq_new_inv : bq_inv bq_new;
  bq_new_view : bq_view bq_new = [];
  bq_len_view q : bq_inv q -> bq_len q = length (bq_view q);
  bq_bounded q : bq_inv q -> length (bq_view q) <= bq_capacity;
  bq_push_inv a q : bq_inv q -> bq_inv (bq_push a q).2;
  bq_push_room a q : bq_inv q -> length (bq_view q) < bq_capacity ->
    (bq_push a q).1 = Ok tt /\ bq_view (bq_push a q).2 = bq_view q ++ [a];
  bq_push_full a q : bq_inv q -> length (bq_view q) = bq_capacity ->
    bq_push a q = (Err a, q);
  bq_pop_inv q : bq_inv q -> bq_inv (bq_pop q).2;
  bq_pop_view q : bq_inv q ->
    (bq_pop q).1 = head (bq_view q) /\ bq_view (bq_pop q).2 = tail (bq_view q);
}.

#[export] Hint Resolve bq_new_inv bq_push_inv bq_pop_inv : kernel.

(** The operations a client can issue, and what it observes of each. *)
Inductive queue_op (A : Type) := Push (a : A) | Pop | Len.
Arguments Push {A} a.
Arguments Pop {A}.
Arguments Len {A}.

Inductive queue_obs (A : Type) := Pushed (r : result unit A) | Popped (o : option A) | Length (n : nat).
Arguments Pushed {A} r.
Arguments Popped {A} o.
Arguments Length {A} n.

(** The abstract queue: a list and a capacity. *)
Definition spec_step {A} (cap : nat) (o : queue_op A) (l : list A) : queue_obs A * list A :=
  match o with
  | Push a => if decide (length l < cap) then (Pushed (Ok tt), l ++ [a]) else (Pushed (Err a), l)
  | Pop => (Popped (head l), tail l)
  | Len => (Length (length l), l)
  end.

Fixpoint spec_run {A} (cap : nat) (ops : list (queue_op A)) (l : list A) : list (queue_obs A) :=
  match ops with
  | [] => []
  | o :: ops => let '(r, l') := spec_step cap o l in r :: spec_run cap ops l'
  end.

Section client.
Context {Q A : Type} `{!BoundedQueue Q A}.
Implicit Types q : Q.

Definition impl_step (o : queue_op A) (q : Q) : queue_obs A * Q :=
  match o with
  | Push a => let '(r, q') := bq_push a q in (Pushed r, q')
  | Pop => let '(r, q') := bq_pop q in (Popped r, q')
  | Len => (Length (bq_len (A:=A) q), q)
  end.

Fixpoint impl_run (ops : list (queue_op A)) (q : Q) : list (queue_obs A) :=
  match ops with
  | [] => []
  | o :: ops => let '(r, q') := impl_step o q in r :: impl_run ops q'
  end.

Lemma impl_step_sim o q :
  bq_inv q ->
  bq_inv (impl_step o q).2 /\
  (impl_step o q).1 = (spec_step bq_capacity o (bq_view q)).1 /\
  bq_view (impl_step o q).2 = (spec_step bq_capacity o (bq_view q)).2.
Proof.
  intros Hq. destruct o as [a| |]; simpl.
  - pose proof (bq_push_inv a q Hq). case_decide as Hlt.
    + destruct (bq_push_room a q Hq Hlt) as [Hr Hv].
      destruct (bq_push a q) as [r q']; simpl in *. by subst.
    + pose proof (bq_bounded q Hq).
      rewrite (bq_push_full a q Hq) by lia. done.
  - pose proof (bq_pop_inv q Hq). destruct (bq_pop_view q Hq) as [Hr Hv].
    destruct (bq_pop q) as [r q']; simpl in *. by subst.
  - by rewrite bq_len_view.
Qed.

Lemma impl_run_sim ops q :
  bq_inv q -> impl_run ops q = spec_run bq_capacity ops (bq_view q).
Proof.
  revert q. induction ops as [|o ops IH]; intros q Hq; simpl; [done|].
  destruct (impl_step_sim o q Hq) as (Hi & Hr & Hv).
  destruct (impl_step o q) as [r q'], (spec_step bq_capacity o (bq_view q)) as [r' l'].
  simpl in *. subst. f_equal. by apply IH.
Qed.
End client.
