(* ===== verification/State.v ===== *)
(** A state monad with undefined behaviour.

    Operations on raw pointers ([Box::from_raw], [&*ptr]) are state
    transformers that return [None] where the Rust program would have undefined
    behaviour (a pointer that is not the address of a live allocation).  A
    theorem that such an operation returns [Some] is a memory-safety theorem. *)

From stdpp Require Import base option list.
From S2P Require Import Prelude.

Definition ST (S A : Type) : Type := S -> option (A * S).

#[export] Instance ST_ret {S} : MRet (ST S) := fun A a s => Some (a, s).
#[export] Instance ST_bind {S} : MBind (ST S) := fun A B f m s =>
  match m s with Some (a, s') => f a s' | None => None end.
#[export] Instance ST_fmap {S} : FMap (ST S) := fun A B f m s =>
  match m s with Some (a, s') => Some (f a, s') | None => None end.

Definition sget {S} : ST S S := fun s => Some (s, s).
Definition sput {S} (s' : S) : ST S unit := fun _ => Some (tt, s').
Definition smodify {S} (f : S -> S) : ST S unit := fun s => Some (tt, f s).
Definition undefined {S A} : ST S A := fun _ => None.
(** A partial read: undefined behaviour when there is nothing there. *)
Definition sderef {S A} (f : S -> option A) : ST S A := fun s =>
  match f s with Some a => Some (a, s) | None => None end.

(** [for x in l { f(x) }] *)
Fixpoint sfor {S A} (l : list A) (f : A -> ST S unit) : ST S unit :=
  match l with
  | [] => mret tt
  | x :: l => f x ≫= fun _ => sfor l f
  end.

(** The [?] operator: an error ends the function. *)
Definition try_bind {S A B E} (m : ST S (result A E)) (f : A -> ST S (result B E)) : ST S (result B E) :=
  m ≫= fun r => match r with Ok a => f a | Err e => mret (Err e) end.
Notation "x '←?' m ; k" := (try_bind m (fun x => k))
  (at level 20, m at level 100, k at level 200, right associativity) : kernel_scope.

Section st_lemmas.
Context {S : Type}.

Lemma try_bind_ok {A B E} (m : ST S (result A E)) (f : A -> ST S (result B E)) s a s' :
  m s = Some (Ok a, s') -> try_bind m f s = f a s'.
Proof. intros H. unfold try_bind, mbind, ST_bind. by rewrite H. Qed.

Lemma try_bind_err {A B E} (m : ST S (result A E)) (f : A -> ST S (result B E)) s e s' :
  m s = Some (Err e, s') -> try_bind m f s = Some (Err e, s').
Proof. intros H. unfold try_bind, mbind, ST_bind. by rewrite H. Qed.

Lemma st_bind_Some {A B} (m : ST S A) (f : A -> ST S B) s r :
  (m ≫= f) s = Some r <-> exists a s', m s = Some (a, s') /\ f a s' = Some r.
Proof.
  unfold mbind, ST_bind. destruct (m s) as [[a s']|].
  - split; [eauto|]. intros (? & ? & [= <- <-] & ?). done.
  - split; [done|]. intros (? & ? & ? & ?). done.
Qed.

Lemma st_bind_eq {A B} (m : ST S A) (f : A -> ST S B) s a s' :
  m s = Some (a, s') -> (m ≫= f) s = f a s'.
Proof. intros H. unfold mbind, ST_bind. by rewrite H. Qed.

(** An invariant that every iteration keeps (and no iteration has undefined
    behaviour) holds after the loop. *)
Lemma sfor_inv {A} (I : list A -> S -> Prop) (f : A -> ST S unit) l s :
  I l s ->
  (forall x l s, I (x :: l) s -> exists s', f x s = Some (tt, s') /\ I l s') ->
  exists s', sfor l f s = Some (tt, s') /\ I [] s'.
Proof.
  intros HI Hstep. revert s HI. induction l as [|x l IH]; intros s HI; simpl; [eauto|].
  destruct (Hstep x l s HI) as (s1 & E & HI1). rewrite (st_bind_eq _ _ _ _ _ E). by apply IH.
Qed.

Lemma sfor_ext {A} (f g : A -> ST S unit) l s : (forall x s, f x s = g x s) -> sfor l f s = sfor l g s.
Proof.
  intros H. revert s. induction l as [|x l IH]; intros s; [done|]. cbn [sfor]. unfold mbind, ST_bind. rewrite H.
  destruct (g x s) as [[[] s']|]; [apply IH|done].
Qed.
End st_lemmas.
