(* ===== verification/Table.v ===== *)
(** Slot tables keyed by an identifier.

    The thread queue and the process table are arrays of optional entries that
    are searched by the entry's identifier.  This file relates such an array to
    the finite map from identifiers to entries it stands for. *)

From Stdlib Require Import ZArith Lia.
From stdpp Require Import base list option numbers gmap fin_maps.
From S2P Require Import Prelude Slots.

Section table.
Context {A : Type} (key : A -> Z).
Implicit Types (l : list (option A)) (a : A) (i : nat) (k : Z).

(** [|t| t.id() == id] *)
Definition by_key k : A -> bool := fun a => (key a =? k)%Z.

(** Identifiers are unique in the table. *)
Definition keys_unique l : Prop := NoDup (key <$> live l).

Definition entries l : gmap Z A := list_to_map ((fun a => (key a, a)) <$> live l).

Lemma entries_keys l : ((fun a => (key a, a)) <$> live l).*1 = key <$> live l.
Proof. rewrite <-list_fmap_compose. by apply list_fmap_ext. Qed.

Lemma entries_Some l k a : keys_unique l -> entries l !! k = Some a <-> a ∈ live l /\ key a = k.
Proof.
  intros Hu. unfold entries. rewrite <-elem_of_list_to_map by by rewrite entries_keys.
  rewrite list_elem_of_fmap. split.
  - intros (b & [= -> ->] & Hb). done.
  - intros [Ha <-]. eauto.
Qed.

Lemma entries_None l k : keys_unique l -> entries l !! k = None <-> forall a, a ∈ live l -> key a <> k.
Proof.
  intros Hu. split.
  - intros Hn a Ha <-. assert (entries l !! key a = Some a) by by apply entries_Some. congruence.
  - intros H. destruct (entries l !! k) as [a|] eqn:E; [|done]. apply entries_Some in E as [Ha Hk]; [|done].
    by destruct (H a Ha).
Qed.

(** Equal keys are in the same slot. *)
Lemma slot_unique l i j a b :
  keys_unique l -> l !! i = Some (Some a) -> l !! j = Some (Some b) -> key a = key b -> i = j.
Proof.
  intros Hu Hi Hj Hk. destruct (decide (i = j)) as [|Hne]; [done|]. exfalso.
  unfold keys_unique in Hu. rewrite (live_clear l i a Hi) in Hu. cbn in Hu.
  apply list.NoDup_cons in Hu as [Hn _]. apply Hn. apply list_elem_of_fmap. exists b. split; [done|].
  apply elem_of_live. exists j. by rewrite list_lookup_insert_ne.
Qed.

(** The search by identifier is the lookup in the map. *)
Lemma find_by_key l k : keys_unique l -> snd <$> find_slot (by_key k) l = entries l !! k.
Proof.
  intros Hu. destruct (find_slot (by_key k) l) as [[i a]|] eqn:E; simpl; symmetry.
  - apply find_slot_Some in E as (Hi & Hk & _). apply Z.eqb_eq in Hk. apply entries_Some; [done|].
    split; [|done]. apply elem_of_live. eauto.
  - apply entries_None; [done|]. intros a Ha Hk. apply elem_of_live in Ha as [i Hi].
    pose proof (proj1 (find_slot_None _ _) E i a Hi) as Hf. unfold by_key in Hf. apply Z.eqb_neq in Hf. done.
Qed.

Lemma find_by_key_Some l k i a :
  find_slot (by_key k) l = Some (i, a) -> l !! i = Some (Some a) /\ key a = k.
Proof. intros (H1 & H2 & _)%find_slot_Some. split; [done|]. by apply Z.eqb_eq. Qed.

Lemma find_by_key_intro l i a : keys_unique l -> l !! i = Some (Some a) -> find_slot (by_key (key a)) l = Some (i, a).
Proof.
  intros Hu Hi. destruct (find_slot (by_key (key a)) l) as [[j b]|] eqn:E.
  - apply find_by_key_Some in E as [Hj Hk]. assert (i = j) as <- by (by eapply slot_unique). congruence.
  - pose proof (proj1 (find_slot_None _ _) E i a Hi) as Hf. unfold by_key in Hf. apply Z.eqb_neq in Hf. done.
Qed.

Lemma keys_unique_fill l i a :
  keys_unique l -> l !! i = Some None -> entries l !! key a = None -> keys_unique (<[i:=Some a]> l).
Proof.
  intros Hu Hi Hn. unfold keys_unique. rewrite (live_fill l i a Hi). cbn. apply list.NoDup_cons. split; [|done].
  intros (b & Hk & Hb)%list_elem_of_fmap. pose proof (proj1 (entries_None _ _ Hu) Hn b Hb). congruence.
Qed.

Lemma keys_unique_clear l i : keys_unique l -> keys_unique (<[i:=None]> l).
Proof.
  intros Hu. destruct (l !! i) as [[a|]|] eqn:Hi.
  - unfold keys_unique in *. rewrite (live_clear l i a Hi) in Hu. cbn in Hu. by apply list.NoDup_cons in Hu as [_ ?].
  - by rewrite list_insert_id.
  - by rewrite list_insert_ge by by apply lookup_ge_None_1.
Qed.

Lemma keys_unique_alter f l i : (forall a, key (f a) = key a) -> keys_unique l -> keys_unique (alter_slot f i l).
Proof. intros Hf. unfold keys_unique. by rewrite live_map_key. Qed.

Lemma entries_fill l i a :
  keys_unique l -> l !! i = Some None -> entries l !! key a = None ->
  entries (<[i:=Some a]> l) = <[key a:=a]> (entries l).
Proof.
  intros Hu Hi Hn. unfold entries.
  assert (keys_unique (<[i:=Some a]> l)) as Hu' by by apply keys_unique_fill.
  rewrite (list_to_map_proper _ ((fun a => (key a, a)) <$> a :: live l)); [done| |].
  - by rewrite entries_keys.
  - by rewrite (live_fill l i a Hi).
Qed.

Lemma entries_clear l i a :
  keys_unique l -> l !! i = Some (Some a) -> entries (<[i:=None]> l) = delete (key a) (entries l).
Proof.
  intros Hu Hi. pose proof (keys_unique_clear l i Hu) as Hu'.
  assert (entries (<[i:=None]> l) !! key a = None) as Hn.
  { apply entries_None; [done|]. intros b Hb Hk. unfold keys_unique in Hu. rewrite (live_clear l i a Hi) in Hu.
    cbn in Hu. apply list.NoDup_cons in Hu as [Hn _]. apply Hn. apply list_elem_of_fmap. eauto. }
  assert (entries l = <[key a:=a]> (entries (<[i:=None]> l))) as ->.
  { rewrite <-(entries_fill (<[i:=None]> l) i a); [|done| |done].
    - by rewrite list_insert_insert_eq, list_insert_id.
    - apply list_lookup_insert_eq. by eapply lookup_lt_Some. }
  by rewrite delete_insert_id.
Qed.

Lemma entries_alter f l i a :
  (forall b, key (f b) = key b) -> keys_unique l -> l !! i = Some (Some a) ->
  entries (alter_slot f i l) = <[key a:=f a]> (entries l).
Proof.
  intros Hf Hu Hi.
  assert (alter_slot f i l = <[i:=Some (f a)]> (<[i:=None]> l)) as ->.
  { rewrite list_insert_insert_eq. unfold alter_slot. symmetry. apply list_eq. intros j. destruct (decide (i = j)) as [<-|Hne].
    - rewrite list_lookup_insert_eq by (by eapply lookup_lt_Some). by rewrite list_lookup_alter_eq, Hi.
    - by rewrite list_lookup_insert_ne, list_lookup_alter_ne. }
  rewrite entries_fill.
  - rewrite (entries_clear l i a) by done. rewrite Hf. by rewrite insert_delete_eq.
  - by apply keys_unique_clear.
  - apply list_lookup_insert_eq. by eapply lookup_lt_Some.
  - rewrite (entries_clear l i a) by done. rewrite Hf. apply lookup_delete_eq.
Qed.

Lemma entries_size l : keys_unique l -> size (entries l) = length (live l).
Proof.
  intros Hu. unfold entries.
  assert (forall ps : list (Z * A), NoDup ps.*1 -> size (list_to_map ps : gmap Z A) = length ps) as H.
  { induction ps as [|[k a] ps IH]; intros Hd; [by rewrite list_to_map_nil, map_size_empty|].
    cbn in Hd. apply list.NoDup_cons in Hd as [Hn Hd]. cbn. rewrite map_size_insert_None.
    - by rewrite IH.
    - by apply not_elem_of_list_to_map_1. }
  rewrite H by by rewrite entries_keys. by rewrite length_fmap.
Qed.
End table.
