(* ===== verification/Types.v ===== *)
(** System-call numbers, error codes and kernel errors:
    [src/core/syscall/types.rs] and [src/core/result.rs]. *)

From Stdlib Require Import ZArith Lia.
From stdpp Require Import base list numbers.
From S2P Require Import Prelude.

Local Open Scope Z_scope.

Module Sys.
Inductive SyscallNumber :=
  | Read | Write | Readv | Writev | Open | Close | Stat | Fstat | Poll | Lseek | Mmap | Munmap
  | Brk | RtSigaction | RtSigreturn | RtSigprocmask | Clone | Fork | Execve | Wait | GetPid
  | GetTid | ArchPrctl | ClockGettime | Futex | Exit | ExitGroup | Kill | Tkill | Tgkill
  | Getcwd | Truncate | Ftruncate | GetPpid | Sigaltstack | Statfs | Setpgid | Getpgid | Setsid
  | Getsid | Ioctl | Access | Select | Getuid | Getgid | Geteuid | Getegid | Lstat | Readlink
  | Unlink | Fcntl | Fsync | Fdatasync | Pipe | Dup | Dup2 | Mprotect | Nanosleep | Uname
  | Getrlimit | SetTidAddress | Openat | Getdents64 | Prlimit64 | Pipe2 | Newfstatat | Unlinkat
  | Faccessat | Pselect6 | Ppoll | SetRobustList | Readlinkat | Getrandom | Yield | GetTicks
  | IpcSend | IpcRecv | Exec | Sleep | FindProcessByName | Log | PortIn | PortOut | Mkdir
  | Rmdir | Readdir | Chdir | KeyboardRead | GetThreadPrivilege | GetFramebufferInfo
  | MapFramebuffer | ExecFromBuffer | SetConsoleCursor | GetConsoleCursor | IpcRecvWait
  | KeyboardReadTap | MouseRead | MapPhysicalRange | VirtToPhys | PortInWords | PortOutWords
  | KeyboardInject | MouseInject | ExecFromBufferNamed | ExecFromBufferNamedArgs
  | ExecFromBufferNamedArgsWithRequester | ExecFromFsStream | MapPhysicalPages
  | GetPhysicalAddr | AllocSharedPages | UnmapPages | IpcSendPages | MouseReadWait
  | ListProcesses.

(** [SyscallNumber::X as u64] *)
Definition as_u64 (n : SyscallNumber) : Z :=
  match n with
  | Read => 0 | Write => 1 | Readv => 19 | Writev => 20 | Open => 2 | Close => 3 | Stat => 4
  | Fstat => 5 | Poll => 7 | Lseek => 8 | Mmap => 9 | Munmap => 11 | Brk => 12
  | RtSigaction => 13 | RtSigreturn => 15 | RtSigprocmask => 14 | Clone => 56 | Fork => 57
  | Execve => 59 | Wait => 61 | GetPid => 39 | GetTid => 186 | ArchPrctl => 158
  | ClockGettime => 228 | Futex => 202 | Exit => 60 | ExitGroup => 231 | Kill => 62
  | Tkill => 200 | Tgkill => 234 | Getcwd => 79 | Truncate => 76 | Ftruncate => 77
  | GetPpid => 110 | Sigaltstack => 131 | Statfs => 137 | Setpgid => 109 | Getpgid => 121
  | Setsid => 112 | Getsid => 124 | Ioctl => 16 | Access => 21 | Select => 23 | Getuid => 102
  | Getgid => 104 | Geteuid => 107 | Getegid => 108 | Lstat => 6 | Readlink => 89
  | Unlink => 87 | Fcntl => 72 | Fsync => 74 | Fdatasync => 75 | Pipe => 22 | Dup => 32
  | Dup2 => 33 | Mprotect => 10 | Nanosleep => 35 | Uname => 63 | Getrlimit => 97
  | SetTidAddress => 218 | Openat => 257 | Getdents64 => 217 | Prlimit64 => 302 | Pipe2 => 293
  | Newfstatat => 262 | Unlinkat => 263 | Faccessat => 269 | Pselect6 => 270 | Ppoll => 271
  | SetRobustList => 273 | Readlinkat => 267 | Getrandom => 318 | Yield => 512
  | GetTicks => 513 | IpcSend => 514 | IpcRecv => 515 | Exec => 516 | Sleep => 517
  | FindProcessByName => 518 | Log => 519 | PortIn => 520 | PortOut => 521 | Mkdir => 522
  | Rmdir => 523 | Readdir => 524 | Chdir => 525 | KeyboardRead => 526
  | GetThreadPrivilege => 527 | GetFramebufferInfo => 528 | MapFramebuffer => 529
  | ExecFromBuffer => 530 | SetConsoleCursor => 531 | GetConsoleCursor => 532
  | IpcRecvWait => 533 | KeyboardReadTap => 534 | MouseRead => 535 | MapPhysicalRange => 536
  | VirtToPhys => 537 | PortInWords => 538 | PortOutWords => 539 | KeyboardInject => 540
  | MouseInject => 541 | ExecFromBufferNamed => 542 | ExecFromBufferNamedArgs => 543
  | ExecFromBufferNamedArgsWithRequester => 544 | ExecFromFsStream => 545
  | MapPhysicalPages => 546 | GetPhysicalAddr => 547 | AllocSharedPages => 548
  | UnmapPages => 549 | IpcSendPages => 550 | MouseReadWait => 551 | ListProcesses => 552
  end.

Definition all_syscalls : list SyscallNumber :=
  [Read; Write; Readv; Writev; Open; Close; Stat; Fstat; Poll; Lseek; Mmap; Munmap; Brk;
   RtSigaction; RtSigreturn; RtSigprocmask; Clone; Fork; Execve; Wait; GetPid; GetTid;
   ArchPrctl; ClockGettime; Futex; Exit; ExitGroup; Kill; Tkill; Tgkill; Getcwd; Truncate;
   Ftruncate; GetPpid; Sigaltstack; Statfs; Setpgid; Getpgid; Setsid; Getsid; Ioctl; Access;
   Select; Getuid; Getgid; Geteuid; Getegid; Lstat; Readlink; Unlink; Fcntl; Fsync; Fdatasync;
   Pipe; Dup; Dup2; Mprotect; Nanosleep; Uname; Getrlimit; SetTidAddress; Openat; Getdents64;
   Prlimit64; Pipe2; Newfstatat; Unlinkat; Faccessat; Pselect6; Ppoll; SetRobustList;
   Readlinkat; Getrandom; Yield; GetTicks; IpcSend; IpcRecv; Exec; Sleep; FindProcessByName;
   Log; PortIn; PortOut; Mkdir; Rmdir; Readdir; Chdir; KeyboardRead; GetThreadPrivilege;
   GetFramebufferInfo; MapFramebuffer; ExecFromBuffer; SetConsoleCursor; GetConsoleCursor;
   IpcRecvWait; KeyboardReadTap; MouseRead; MapPhysicalRange; VirtToPhys; PortInWords;
   PortOutWords; KeyboardInject; MouseInject; ExecFromBufferNamed; ExecFromBufferNamedArgs;
   ExecFromBufferNamedArgsWithRequester; ExecFromFsStream; MapPhysicalPages; GetPhysicalAddr;
   AllocSharedPages; UnmapPages; IpcSendPages; MouseReadWait; ListProcesses].

(** The discriminant read back. *)
Definition from_u64 (x : Z) : option SyscallNumber :=
  List.find (fun n => as_u64 n =? x) all_syscalls.

Lemma from_as_u64 n : from_u64 (as_u64 n) = Some n.
Proof. destruct n; reflexivity. Qed.

Lemma from_u64_Some x n : from_u64 x = Some n <-> as_u64 n = x.
Proof.
  split; [|intros <-; apply from_as_u64]. intros [_ H]%List.find_some. lia.
Qed.

(** Discriminants are pairwise distinct, so no arm of [dispatch] shadows another. *)
#[export] Instance as_u64_inj : Inj eq eq as_u64.
Proof. intros n m E. apply (f_equal from_u64) in E. rewrite !from_as_u64 in E. congruence. Qed.

#[export] Instance SyscallNumber_eq_dec : EqDecision SyscallNumber.
Proof. refine (fun n m => cast_if (decide (as_u64 n = as_u64 m))); [by apply (inj as_u64)|congruence]. Defined.
End Sys.

Definition SUCCESS : Z := 0.
Definition EPERM : Z := i64_as_u64 (-1).
Definition ENOENT : Z := i64_as_u64 (-2).
Definition ENOTDIR : Z := i64_as_u64 (-20).
Definition ESRCH : Z := i64_as_u64 (-3).
Definition EIO : Z := i64_as_u64 (-5).
Definition EBADF : Z := i64_as_u64 (-9).
Definition EFAULT : Z := i64_as_u64 (-14).
Definition ENXIO : Z := i64_as_u64 (-6).
Definition EINVAL : Z := i64_as_u64 (-22).
Definition ENOSYS : Z := i64_as_u64 (-38).
Definition ENODATA : Z := i64_as_u64 (-61).
Definition EAGAIN : Z := i64_as_u64 (-11).
Definition ENOMEM : Z := i64_as_u64 (-12).
Definition EEXIST : Z := i64_as_u64 (-17).
Definition ENOTTY : Z := i64_as_u64 (-25).
Definition ERANGE : Z := i64_as_u64 (-34).
Definition ENOTSUP : Z := i64_as_u64 (-95).
Definition EPIPE : Z := i64_as_u64 (-32).
Definition EMFILE : Z := i64_as_u64 (-24).

Definition errno_constants : list Z :=
  [EPERM; ENOENT; ENOTDIR; ESRCH; EIO; EBADF; EFAULT; ENXIO; EINVAL; ENOSYS; ENODATA; EAGAIN; ENOMEM; EEXIST; ENOTTY; ERANGE; ENOTSUP; EPIPE; EMFILE].

(** ** Kernel errors.  The source's [Memory::OutOfMemory] is [Memory_OutOfMemory]. *)

Module Result.
Inductive Memory :=
  | Memory_OutOfMemory | Memory_InvalidAddress | Memory_PermissionDenied | Memory_AlreadyMapped
  | Memory_NotMapped | Memory_AlignmentError.
Inductive Service :=
  | Service_NotFound | Service_StartFailure | Service_StopFailure | Service_NoResponse
  | Service_InsufficientPrivilege | Service_InvalidState | Service_Conflict
  | Service_Unregistered.
Inductive Process :=
  | Process_InvalidPid | Process_ProcessNotFound | Process_ZombieProcess
  | Process_MaxProcessesReached | Process_InsufficientPrivilege | Process_IpcError
  | Process_Timeout | Process_RogueProcessDetected | Process_Service (e : Service)
  | Process_CreationOk.
Inductive Elf :=
  | Elf_InvalidFormat | Elf_UnsupportedType | Elf_SegmentLoadFailure
  | Elf_SymbolResolutionFailure | Elf_InsufficientLength.
Inductive Device :=
  | Device_Busy | Device_HardwareFailure | Device_Timeout | Device_InvalidOperation
  | Device_DeviceNotFound | Device_DriverLoadFailure | Device_Disconnected | Device_Unsupported
  | Device_CommunicationLost | Device_ResourceUnavailable.
Inductive Kernel :=
  | KMemory (e : Memory) | KProcess (e : Process) | KDevice (e : Device) | KElf (e : Elf)
  | InvalidParam | NotImplemented.

#[export] Instance Memory_eq_dec : EqDecision Memory.
Proof. solve_decision. Defined.
#[export] Instance Service_eq_dec : EqDecision Service.
Proof. solve_decision. Defined.
#[export] Instance Process_eq_dec : EqDecision Process.
Proof. solve_decision. Defined.
#[export] Instance Elf_eq_dec : EqDecision Elf.
Proof. solve_decision. Defined.
#[export] Instance Device_eq_dec : EqDecision Device.
Proof. solve_decision. Defined.
#[export] Instance Kernel_eq_dec : EqDecision Kernel.
Proof. solve_decision. Defined.

Definition is_fatal (k : Kernel) : bool :=
  match k with
  | KMemory Memory_OutOfMemory | KDevice Device_HardwareFailure => true
  | _ => false
  end.

Definition is_retryable (k : Kernel) : bool :=
  match k with
  | KDevice Device_Busy | KDevice Device_Timeout => true
  | _ => false
  end.

(** No error is both: a retry loop never spins on an error the kernel treats as
    unrecoverable. *)
Lemma fatal_not_retryable k : is_fatal k = true -> is_retryable k = false.
Proof. destruct k as [[]|[]|[]|[]| |]; done. Qed.
End Result.

(** A system call's return value is an error when it lies in the top 4096 values,
    the Linux convention the errno constants follow. *)
Definition is_errno (r : Z) : bool := U64_MODULUS - 4096 <=? r.

Lemma errno_constants_spec :
  Forall (fun e => is_errno e = true /\ 0 <= e < U64_MODULUS) errno_constants /\ NoDup errno_constants.
Proof. apply (bool_decide_unpack _). vm_compute. exact I. Qed.
