(* ===== verification/UserMem.v ===== *)
(** User memory as the system calls see it.

    [UserMemory] is what [syscall/mod.rs] promises to the system-call handlers
    ([validate_user_ptr], [copy_from_user], [copy_to_user] for the current
    process).  [UserCopy.v] discharges it with the page-table walker; the
    handlers of the other files are proved against the interface alone. *)

From Stdlib Require Import ZArith Lia.
From stdpp Require Import base list.
From S2P Require Import Prelude Types.

Local Open Scope Z_scope.

Class UserMemory (M : Type) := {
  validate_user_ptr : M -> Z -> Z -> bool;
  copy_from_user : M -> Z -> nat -> result (list Z) Z;
  copy_to_user : Z -> list Z -> M -> result unit Z * M;
  copy_from_user_err m p n e : copy_from_user m p n = Err e -> e = EFAULT;
  copy_from_user_length m p n bs : copy_from_user m p n = Ok bs -> length bs = n;
  copy_to_user_err p bs m e : (copy_to_user p bs m).1 = Err e -> e = EFAULT;
  copy_to_user_nil p m : copy_to_user p [] m = (Ok tt, m);
}.

(** [v.to_ne_bytes()] and [from_ne_bytes] of an [n]-byte integer (little endian,
    the kernel being x86-64 only). *)
Fixpoint to_le_bytes (n : nat) (v : Z) : list Z :=
  match n with
  | O => []
  | S n => v mod 256 :: to_le_bytes n (v / 256)
  end.

Fixpoint from_le_bytes (bs : list Z) : Z :=
  match bs with
  | [] => 0
  | b :: bs => b + 256 * from_le_bytes bs
  end.

Lemma to_le_bytes_length n v : length (to_le_bytes n v) = n.
Proof. revert v. induction n; intros; simpl; auto. Qed.

Lemma from_to_le_bytes n v : from_le_bytes (to_le_bytes n v) = v mod 256 ^ Z.of_nat n.
Proof.
  revert v. induction n as [|n IH]; intros v.
  - simpl. by rewrite Z.mod_1_r.
  - cbn [to_le_bytes from_le_bytes]. rewrite IH, Nat2Z.inj_succ, Z.pow_succ_r by lia.
    rewrite Z.rem_mul_r by lia. lia.
Qed.

Definition is_byte (b : Z) : Prop := 0 <= b < 256.

Lemma to_le_bytes_byte n v : Forall is_byte (to_le_bytes n v).
Proof.
  revert v. induction n; intros v; constructor; auto. apply Z.mod_pos_bound. lia.
Qed.

Lemma from_le_bytes_range bs : Forall is_byte bs -> 0 <= from_le_bytes bs < 256 ^ Z.of_nat (length bs).
Proof.
  induction 1 as [|b bs [Hb1 Hb2] _ IH]; [simpl; lia|].
  cbn [from_le_bytes length]. rewrite Nat2Z.inj_succ, Z.pow_succ_r by lia. lia.
Qed.

Lemma to_from_le_bytes bs : Forall is_byte bs -> to_le_bytes (length bs) (from_le_bytes bs) = bs.
Proof.
  induction 1 as [|b bs [Hb1 Hb2] _ IH]; [done|]. cbn [length to_le_bytes from_le_bytes].
  f_equal.
  - rewrite (Z.mul_comm 256), Z_mod_plus_full. by apply Z.mod_small.
  - rewrite (Z.mul_comm 256), Z.div_add, Z.div_small, Z.add_0_l by lia. done.
Qed.

Section typed_access.
Context {M : Type} `{!UserMemory M}.

Definition read_user_uint (m : M) (n : nat) (ptr : Z) : result Z Z :=
  match copy_from_user m ptr n with Ok bs => Ok (from_le_bytes bs) | Err e => Err e end.
Definition read_user_u64 (m : M) (ptr : Z) : result Z Z := read_user_uint m 8 ptr.
Definition read_user_u32 (m : M) (ptr : Z) : result Z Z := read_user_uint m 4 ptr.
Definition read_user_u16 (m : M) (ptr : Z) : result Z Z := read_user_uint m 2 ptr.
Definition read_user_i64 (m : M) (ptr : Z) : result Z Z :=
  match read_user_u64 m ptr with Ok v => Ok (as_i64 v) | Err e => Err e end.
Definition write_user_u64 (ptr v : Z) (m : M) : result unit Z * M := copy_to_user ptr (to_le_bytes 8 v) m.
Definition write_user_u32 (ptr v : Z) (m : M) : result unit Z * M := copy_to_user ptr (to_le_bytes 4 v) m.
Definition write_user_u16 (ptr v : Z) (m : M) : result unit Z * M := copy_to_user ptr (to_le_bytes 2 v) m.
End typed_access.

(** A flat user memory in which every non-null range is valid: the instance used
    to run the handlers on concrete inputs. *)
Definition flat_store (m : Z -> Z) (p : Z) (bs : list Z) : Z -> Z := fun a =>
  if (p <=? a) && (a <? p + Z.of_nat (length bs)) then bs !!! Z.to_nat (a - p) else m a.

Definition flat_from (m : Z -> Z) (p : Z) (n : nat) : result (list Z) Z :=
  if (p =? 0) && negb (Nat.eqb n 0) then Err EFAULT else Ok ((fun i => m (p + Z.of_nat i)) <$> seq 0 n).

Definition flat_to (p : Z) (bs : list Z) (m : Z -> Z) : result unit Z * (Z -> Z) :=
  match bs with
  | [] => (Ok tt, m)
  | _ => if p =? 0 then (Err EFAULT, m) else (Ok tt, flat_store m p bs)
  end.

#[export] Instance flat_memory : UserMemory (Z -> Z).
Proof.
  refine {| validate_user_ptr _ p _ := negb (p =? 0); copy_from_user := flat_from; copy_to_user := flat_to |}.
  - intros m p n e. unfold flat_from. destruct (_ && _); congruence.
  - intros m p n bs. unfold flat_from. destruct (_ && _); intros [= <-]. by rewrite length_fmap, length_seq.
  - intros p bs m e. unfold flat_to. destruct bs; [done|]. destruct (p =? 0); simpl; congruence.
  - done.
Defined.

(** Memory that keeps what is written to it: what a handler needs that reads back its
    own writes.  It holds of user memory in which no two addresses share a byte. *)
Class PlainMemory (M : Type) `{!UserMemory M} := {
  byte_at : M -> Z -> Z;
  readable : M -> Z -> nat -> Prop;
  writable : M -> Z -> nat -> Prop;
  plain_read m p n : readable m p n -> copy_from_user m p n = Ok ((fun i => byte_at m (p + Z.of_nat i)) <$> seq 0 n);
  plain_write p bs m : writable m p (length bs) ->
    exists m', copy_to_user p bs m = (Ok tt, m') /\
      (forall a, byte_at m' a = if decide (p <= a < p + Z.of_nat (length bs)) then bs !!! Z.to_nat (a - p) else byte_at m a) /\
      (forall q n, readable m' q n <-> readable m q n) /\ (forall q n, writable m' q n <-> writable m q n) /\
      (forall q n, validate_user_ptr m' q n = validate_user_ptr m q n);
}.

#[export] Instance flat_plain : PlainMemory (Z -> Z).
Proof.
  refine {| byte_at m a := m a; readable _ p _ := p <> 0; writable _ p _ := p <> 0 |}.
  - intros m p n Hp. cbn. unfold flat_from. by rewrite (proj2 (Z.eqb_neq _ _) Hp).
  - intros p bs m Hp. cbn. unfold flat_to. destruct bs as [|b bs].
    + exists m. split; [done|]. split; [|done]. intros a. cbn. destruct (decide _); [lia|done].
    + rewrite (proj2 (Z.eqb_neq _ _) Hp). eexists. split; [done|]. split; [|done]. intros a. unfold flat_store.
      destruct (Z.leb_spec p a), (Z.ltb_spec a (p + Z.of_nat (length (b :: bs)))); cbn [andb]; destruct (decide _); try lia; done.
Defined.
