(* ===== verification/Bytes.v ===== *)
(** Byte strings: bounds-checked reads, UTF-8, splitting and joining.

    Rust's [&[u8]] and [&str] are lists of bytes (as [Z]); offsets into them are
    [Z], so that a read at any 64-bit offset is defined. *)

From Stdlib Require Import ZArith Lia.
From stdpp Require Import base list option numbers.
From S2P Require Import Prelude Types UserMem.

Local Open Scope Z_scope.

Module Bytes.
Notation bytes := (list Z).

Definition blen (b : bytes) : Z := Z.of_nat (length b).

(** [b.get(off..off + n)] *)
Definition get_range (b : bytes) (off n : Z) : option bytes :=
  if (0 <=? off) && (0 <=? n) && (off + n <=? blen b) then Some (take (Z.to_nat n) (drop (Z.to_nat off) b)) else None.

(** [b.get(i)] *)
Definition get (b : bytes) (i : Z) : option Z := if 0 <=? i then b !! Z.to_nat i else None.

Lemma get_range_Some b off n r :
  get_range b off n = Some r <->
  0 <= off /\ 0 <= n /\ off + n <= blen b /\ r = take (Z.to_nat n) (drop (Z.to_nat off) b).
Proof.
  unfold get_range. destruct (Z.leb_spec 0 off), (Z.leb_spec 0 n), (Z.leb_spec (off + n) (blen b)); cbn;
    (split; [try done; intros [= <-]; done|intros (? & ? & ? & ->); done || lia]).
Qed.

Lemma get_range_length b off n r : get_range b off n = Some r -> blen r = n.
Proof.
  intros (H1 & H2 & H3 & ->)%get_range_Some. unfold blen in *. rewrite length_take, length_drop. lia.
Qed.

Lemma get_range_lookup b off n r i :
  get_range b off n = Some r -> (Z.of_nat i < n) -> r !! i = b !! (Z.to_nat off + i)%nat.
Proof. intros (H1 & H2 & H3 & ->)%get_range_Some Hi. rewrite lookup_take_lt by lia. by rewrite lookup_drop. Qed.

Lemma get_range_in b off n : 0 <= off -> 0 <= n -> off + n <= blen b -> is_Some (get_range b off n).
Proof. intros. eexists. by apply get_range_Some. Qed.

Lemma get_range_bytes b off n r : Forall is_byte b -> get_range b off n = Some r -> Forall is_byte r.
Proof. intros Hb (_ & _ & _ & ->)%get_range_Some. by apply Forall_take, Forall_drop. Qed.

(** [buf\[off..off + bs.len()\].copy_from_slice(bs)], inside the buffer *)
Definition put (buf : bytes) (off : nat) (bs : bytes) : bytes := take off buf ++ bs ++ drop (off + length bs) buf.

Lemma put_length buf off bs : (off + length bs <= length buf)%nat -> length (put buf off bs) = length buf.
Proof. intros. unfold put. rewrite !length_app, length_take, length_drop. lia. Qed.

(** ** UTF-8, as [core::str::from_utf8] accepts it *)

Definition in_range (lo hi b : Z) : bool := (lo <=? b) && (b <=? hi).
Definition cont (b : Z) : bool := in_range 128 191 b.

(** The second byte's range after a first byte of three or four. *)
Definition second3 (b0 : Z) : option (Z * Z) :=
  if b0 =? 224 then Some (160, 191) else if b0 =? 237 then Some (128, 159)
  else if in_range 225 239 b0 then Some (128, 191) else None.
Definition second4 (b0 : Z) : option (Z * Z) :=
  if b0 =? 240 then Some (144, 191) else if b0 =? 244 then Some (128, 143)
  else if in_range 241 243 b0 then Some (128, 191) else None.

Fixpoint utf8 (b : bytes) : bool :=
  match b with
  | [] => true
  | b0 :: r =>
      if b0 <=? 127 then utf8 r
      else if in_range 194 223 b0 then
        match r with b1 :: r => cont b1 && utf8 r | _ => false end
      else
        match second3 b0, second4 b0 with
        | Some (lo, hi), _ =>
            match r with b1 :: b2 :: r => in_range lo hi b1 && cont b2 && utf8 r | _ => false end
        | None, Some (lo, hi) =>
            match r with b1 :: b2 :: b3 :: r => in_range lo hi b1 && cont b2 && cont b3 && utf8 r | _ => false end
        | None, None => false
        end
  end.

Lemma utf8_ascii b : Forall (fun x => 0 <= x <= 127) b -> utf8 b = true.
Proof. induction 1 as [|x b Hx _ IH]; [done|]. cbn [utf8]. by rewrite (proj2 (Z.leb_le x 127)) by lia. Qed.

(** ** Splitting and joining *)

(** [s.split(c)] *)
Fixpoint split (c : Z) (s : bytes) : list bytes :=
  match s with
  | [] => [[]]
  | x :: s =>
      if x =? c then [] :: split c s
      else match split c s with
           | w :: ws => (x :: w) :: ws
           | [] => [[x]]
           end
  end.

(** [parts.join(c)] *)
Fixpoint join (c : Z) (parts : list bytes) : bytes :=
  match parts with
  | [] => []
  | [w] => w
  | w :: ws => w ++ c :: join c ws
  end.

Definition starts_with (p s : bytes) : bool := bool_decide (take (length p) s = p).
Definition ends_with (p s : bytes) : bool := bool_decide (drop (length s - length p) s = p) && Nat.leb (length p) (length s).

(** [s.trim_end_matches(c)], [s.trim_matches(c)] *)
Fixpoint trim_start (c : Z) (s : bytes) : bytes :=
  match s with
  | x :: s' => if x =? c then trim_start c s' else s
  | [] => []
  end.
Definition trim_end (c : Z) (s : bytes) : bytes := rev (trim_start c (rev s)).
Definition trim (c : Z) (s : bytes) : bytes := trim_end c (trim_start c s).

Lemma split_nonempty c s : split c s <> [].
Proof. destruct s as [|x s]; cbn; [done|]. destruct (x =? c); [done|]. by destruct (split c s). Qed.

Lemma split_app c s1 s2 : split c (s1 ++ c :: s2) = split c s1 ++ split c s2.
Proof.
  induction s1 as [|x s1 IH]; cbn [app split]; [by rewrite Z.eqb_refl|].
  destruct (x =? c); [by rewrite IH|]. rewrite IH.
  destruct (split c s1) eqn:E; [by destruct (split_nonempty c s1)|done].
Qed.

Lemma split_none c w : c ∉ w -> split c w = [w].
Proof.
  induction w as [|x w IH]; cbn; [done|]. intros Hn. apply not_elem_of_cons in Hn as [Hx Hw].
  destruct (Z.eqb_spec x c); [congruence|]. by rewrite IH.
Qed.

Lemma split_join c ws : ws <> [] -> Forall (fun w => c ∉ w) ws -> split c (join c ws) = ws.
Proof.
  induction ws as [|w ws IH]; [done|]. intros _ [Hw Hws]%list.Forall_cons. destruct ws as [|w2 ws].
  - cbn. by apply split_none.
  - change (join c (w :: w2 :: ws)) with (w ++ c :: join c (w2 :: ws)). rewrite split_app, (split_none c w), IH by done. done.
Qed.

Lemma split_free c s : Forall (fun w => c ∉ w) (split c s).
Proof.
  induction s as [|x s IH]; cbn.
  - constructor; [apply not_elem_of_nil|done].
  - destruct (Z.eqb_spec x c) as [->|Hx]; [constructor; [apply not_elem_of_nil|done]|].
    destruct (split c s) as [|w ws]; [constructor; [by apply not_elem_of_cons; split; [congruence|apply not_elem_of_nil]|done]|].
    apply list.Forall_cons in IH as [Hw Hws]. constructor; [|done]. apply not_elem_of_cons. split; [congruence|done].
Qed.
End Bytes.
