(* ===== verification/Ext2.v ===== *)
(** The boot file systems: [src/core/init/fs.rs].

    A read-only ext2 reader over an image in memory.  The image is an arbitrary
    byte string: nothing about it is trusted.  [Panic] is what a Rust panic
    would be (an index out of range, a division by zero, an overflow of a
    [usize]), [Stop] is [None], and [Diverge] is a loop that was given too few
    rounds. *)

From Stdlib Require Import ZArith Lia.
From stdpp Require Import base list option numbers.
From S2P Require Import Prelude Types UserMem Bytes.
Import Bytes.

Local Open Scope Z_scope.

Module Ext2.

Inductive outcome (A : Type) : Type :=
| Panic
| Diverge
| Stop
| Val (a : A).
Arguments Panic {A}.
Arguments Diverge {A}.
Arguments Stop {A}.
Arguments Val {A} a.

#[global] Instance outcome_ret : MRet outcome := fun A a => Val a.
#[global] Instance outcome_bind : MBind outcome := fun A B f m =>
  match m with Panic => Panic | Diverge => Diverge | Stop => Stop | Val a => f a end.

Definition of_option {A} (o : option A) : outcome A := match o with Some a => Val a | None => Stop end.

(** [usize] arithmetic *)
Definition uadd (a b : Z) : outcome Z := if a + b <? U64_MODULUS then Val (a + b) else Panic.
Definition umul (a b : Z) : outcome Z := if a * b <? U64_MODULUS then Val (a * b) else Panic.
Definition usub (a b : Z) : outcome Z := if b <=? a then Val (a - b) else Panic.
Definition udiv (a b : Z) : outcome Z := if b =? 0 then Panic else Val (a / b).
Definition urem (a b : Z) : outcome Z := if b =? 0 then Panic else Val (a mod b).

Definition EXT2_MAGIC : Z := 61267.

Record Superblock := mkSb { block_size : Z; inode_size : Z; inodes_per_group : Z }.
Record Inode := mkInode { mode : Z; size : Z; blocks : list Z }.

(** [image.get(offset..offset + n)?] and the little-endian value *)
Definition read_le (n : Z) (image : bytes) (offset : Z) : outcome Z :=
  _ ← uadd offset n;
  b ← of_option (get_range image offset n);
  Val (from_le_bytes b).
Definition read_u16 : bytes -> Z -> outcome Z := read_le 2.
Definition read_u32 : bytes -> Z -> outcome Z := read_le 4.

(** [1024u32.checked_shl(n)]: bits shifted out are lost, only [n >= 32] fails. *)
Definition checked_shl32 (x n : Z) : outcome Z :=
  if n <? 32 then Val (Z.shiftl x n mod 2 ^ 32) else Stop.

Definition superblock (image : bytes) : outcome Superblock :=
  if blen image <? 2048 then Stop
  else
    magic ← read_u16 image 1080;
    if negb (magic =? EXT2_MAGIC) then Stop
    else
      log_block_size ← read_u32 image 1048;
      bs ← checked_shl32 1024 log_block_size;
      isz ← read_u16 image 1112;
      ipg ← read_u32 image 1064;
      Val (mkSb bs isz ipg).

(** The block number of the inode table of a group. *)
Definition group_desc (image : bytes) (sb : Superblock) (group : Z) : outcome Z :=
  let gdt_off := if block_size sb =? 1024 then block_size sb * 2 else block_size sb in
  g ← umul group 32;
  desc_off ← uadd gdt_off g;
  o ← uadd desc_off 8;
  read_u32 image o.

Fixpoint read_blocks (image : bytes) (off : Z) (n : nat) : outcome (list Z) :=
  match n with
  | O => Val []
  | S n => b ← read_u32 image off; o ← uadd off 4; r ← read_blocks image o n; Val (b :: r)
  end.

Definition inode (image : bytes) (sb : Superblock) (inode_num : Z) : outcome Inode :=
  if inode_num =? 0 then Stop
  else if inodes_per_group sb =? 0 then Stop
  else
    group ← udiv (inode_num - 1) (inodes_per_group sb);
    index ← urem (inode_num - 1) (inodes_per_group sb);
    gd ← group_desc image sb group;
    inode_table ← umul gd (block_size sb);
    i ← umul index (inode_size sb);
    inode_off ← uadd inode_table i;
    m ← read_u16 image inode_off;
    o4 ← uadd inode_off 4;
    s ← read_u32 image o4;
    blocks_off ← uadd inode_off 40;
    bl ← read_blocks image blocks_off 15;
    Val (mkInode m s bl).

Definition is_dir (m : Z) : bool := negb (Z.land m 16384 =? 0).

Definition block_slice (image : bytes) (bs block : Z) : outcome bytes :=
  if block =? 0 then Stop
  else
    start ← umul block bs;
    e ← uadd start bs;
    of_option (get_range image start bs).

(** [blocks\[i\]] *)
Definition block_ref (ino : Inode) (i : Z) : outcome Z :=
  match get (blocks ino) i with Some b => Val b | None => Panic end.

Definition data_block_number (image : bytes) (sb : Superblock) (ino : Inode) (block_index : Z) : outcome Z :=
  if block_size sb =? 0 then Stop
  else
    let entries_per_block := block_size sb / 4 in
    if block_index <? 12 then block_ref ino block_index
    else
      let idx := block_index - 12 in
      if idx <? entries_per_block then
        indirect ← block_ref ino 12;
        if indirect =? 0 then Stop
        else
          block ← block_slice image (block_size sb) indirect;
          o ← umul idx 4;
          read_u32 block o
      else
        let idx2 := idx - entries_per_block in
        n2 ← umul entries_per_block entries_per_block;
        if idx2 <? n2 then
          dindirect ← block_ref ino 13;
          if dindirect =? 0 then Stop
          else
            l1 ← block_slice image (block_size sb) dindirect;
            l1_idx ← udiv idx2 entries_per_block;
            o1 ← umul l1_idx 4;
            l1_entry ← read_u32 l1 o1;
            if l1_entry =? 0 then Stop
            else
              l2 ← block_slice image (block_size sb) l1_entry;
              l2_idx ← urem idx2 entries_per_block;
              o2 ← umul l2_idx 4;
              read_u32 l2 o2
        else Stop.

(** The loop of [read_inode_data] from block [block_idx] on, [n] blocks to go. *)
Fixpoint read_data_loop (image : bytes) (sb : Superblock) (ino : Inode) (n : nat) (block_idx : Z) (buf : bytes) :
    outcome bytes :=
  match n with
  | O => Val buf
  | S n =>
      block_num ← data_block_number image sb ino block_idx;
      left ← usub (size ino) (blen buf);
      chunk ← (if block_num =? 0 then Val (replicate (Z.to_nat (Z.min (block_size sb) left)) 0)
               else
                 block ← block_slice image (block_size sb) block_num;
                 Val (take (Z.to_nat (Z.min (blen block) left)) block));
      let buf' := buf ++ chunk in
      if size ino <=? blen buf' then Val buf' else read_data_loop image sb ino n (block_idx + 1) buf'
  end.

(** [size.div_ceil(n)] *)
Definition div_ceil (a b : Z) : outcome Z := if b =? 0 then Panic else Val ((a + b - 1) / b).

Definition read_inode_data (image : bytes) (sb : Superblock) (inode_num : Z) : outcome bytes :=
  ino ← inode image sb inode_num;
  if is_dir (mode ino) then Val []
  else if size ino =? 0 then Val []
  else
    blocks_needed ← div_ceil (size ino) (block_size sb);
    read_data_loop image sb ino (Z.to_nat blocks_needed) 0 [].

(** ** Directories *)

(** The cursor of a scan: [block_idx], [offset], [remaining_bytes]. *)
Record cursor := mkCur { block_idx : Z; offset : Z; remaining : Z }.

(** What one round of the scanning loops finds: no more blocks, a move to the
    next block, a record of length 0, a deleted entry, or an entry. *)
Inductive event :=
| NoBlock
| NextBlock (c : cursor)
| BadRecord
| Deleted (c : cursor)
| Entry (ino : Z) (name : bytes) (c : cursor).

(** The body the three scanning loops share. *)
Definition dir_round (image : bytes) (sb : Superblock) (dir : Inode) (c : cursor) : outcome event :=
  block ← data_block_number image sb dir (block_idx c);
  if block =? 0 then Val NoBlock
  else
    data ← block_slice image (block_size sb) block;
    if blen data <=? offset c then
      b' ← uadd (block_idx c) 1;
      Val (NextBlock (mkCur b' 0 (remaining c)))
    else
      let base := offset c in
      ino ← read_u32 data base;
      b4 ← uadd base 4;
      rec_len ← read_u16 data b4;
      b6 ← uadd base 6;
      name_len ← of_option (get data b6);
      if rec_len =? 0 then Val BadRecord
      else
        o' ← uadd (offset c) rec_len;
        let c' := mkCur (block_idx c) o' (saturating_sub64 (remaining c) rec_len) in
        if ino =? 0 then Val (Deleted c')
        else
          b8 ← uadd base 8;
          _ ← uadd b8 name_len;
          name ← of_option (get_range data b8 name_len);
          if utf8 name then Val (Entry ino name c') else Stop.

Definition dir_start (dir : Inode) : cursor := mkCur 0 0 (size dir).

(** Each round but a move to the next block uses up at least one byte, and a
    move is followed by a round that is not one. *)
Definition dir_fuel (dir : Inode) : nat := Z.to_nat (2 * size dir + 2).

Fixpoint find_loop (fuel : nat) (image : bytes) (sb : Superblock) (dir : Inode) (name : bytes) (c : cursor) : outcome Z :=
  match fuel with
  | O => Diverge
  | S fuel =>
      if remaining c =? 0 then Stop
      else
        e ← dir_round image sb dir c;
        match e with
        | NoBlock | BadRecord => Stop
        | NextBlock c' | Deleted c' => find_loop fuel image sb dir name c'
        | Entry ino entry_name c' =>
            if bool_decide (entry_name = name) then Val ino else find_loop fuel image sb dir name c'
        end
  end.

Definition find_inode_in_dir (image : bytes) (sb : Superblock) (dir : Inode) (name : bytes) : outcome Z :=
  if negb (is_dir (mode dir)) then Stop
  else find_loop (dir_fuel dir) image sb dir name (dir_start dir).

Definition DOT : bytes := [46].
Definition DOTDOT : bytes := [46; 46].
Definition SLASH : Z := 47.

Definition is_dot (name : bytes) : bool := bool_decide (name = DOT) || bool_decide (name = DOTDOT).

Fixpoint readdir_loop (fuel : nat) (image : bytes) (sb : Superblock) (dir : Inode) (names : list bytes) (c : cursor) :
    outcome (list bytes) :=
  match fuel with
  | O => Diverge
  | S fuel =>
      if remaining c =? 0 then Val names
      else
        e ← dir_round image sb dir c;
        match e with
        | NoBlock | BadRecord => Val names
        | NextBlock c' | Deleted c' => readdir_loop fuel image sb dir names c'
        | Entry ino name c' =>
            readdir_loop fuel image sb dir (if is_dot name then names else names ++ [name]) c'
        end
  end.

(** [FsEntries::next]: the entry with its data, and the cursor behind it. *)
Fixpoint next_loop (fuel : nat) (image : bytes) (sb : Superblock) (dir : Inode) (c : cursor) :
    outcome (bytes * bytes * cursor) :=
  match fuel with
  | O => Diverge
  | S fuel =>
      if remaining c =? 0 then Stop
      else
        e ← dir_round image sb dir c;
        match e with
        | NoBlock | BadRecord => Stop
        | NextBlock c' | Deleted c' => next_loop fuel image sb dir c'
        | Entry ino name c' =>
            match read_inode_data image sb ino with
            | Panic => Panic
            | Diverge => Diverge
            | Stop => Val (name, [], c')
            | Val d => Val (name, d, c')
            end
        end
  end.

Definition next (image : bytes) (sb : Superblock) (dir : Inode) (c : cursor) : outcome (bytes * bytes * cursor) :=
  next_loop (Z.to_nat (2 * remaining c + 2)) image sb dir c.

(** ** Paths *)

(** [path.split('/').filter(|p| !p.is_empty())] *)
Definition components (path : bytes) : list bytes := List.filter (fun p => negb (bool_decide (p = []))) (split SLASH path).

Definition is_root_path (normalized : bytes) : bool := bool_decide (normalized = []) || bool_decide (normalized = DOT).

(** The loop of [file_metadata_in]. *)
Fixpoint metadata_loop (image : bytes) (sb : Superblock) (current : Inode) (parts : list bytes) : outcome (Z * Z) :=
  match parts with
  | [] => Stop
  | part :: rest =>
      if is_dot part then metadata_loop image sb current rest
      else
        inode_num ← find_inode_in_dir image sb current part;
        nxt ← inode image sb inode_num;
        match rest with
        | [] => Val (mode nxt, size nxt)
        | _ => metadata_loop image sb nxt rest
        end
  end.

Definition file_metadata_in (image : bytes) (path : bytes) : outcome (Z * Z) :=
  sb ← superblock image;
  let normalized := trim SLASH path in
  if is_root_path normalized then
    root ← inode image sb 2;
    Val (mode root, 0)
  else
    current ← inode image sb 2;
    metadata_loop image sb current (components normalized).

(** The loop of [resolve_dir_inode_in]. *)
Fixpoint resolve_loop (image : bytes) (sb : Superblock) (current_num : Z) (current : Inode) (parts : list bytes) : outcome Z :=
  match parts with
  | [] => if is_dir (mode current) then Val current_num else Stop
  | part :: rest =>
      if is_dot part then resolve_loop image sb current_num current rest
      else if negb (is_dir (mode current)) then Stop
      else
        next_num ← find_inode_in_dir image sb current part;
        nxt ← inode image sb next_num;
        resolve_loop image sb next_num nxt rest
  end.

Definition resolve_dir_inode_in (image : bytes) (path : bytes) : outcome Z :=
  sb ← superblock image;
  let normalized := trim SLASH path in
  if is_root_path normalized then
    root ← inode image sb 2;
    if is_dir (mode root) then Val 2 else Stop
  else
    current ← inode image sb 2;
    resolve_loop image sb 2 current (components normalized).

Definition readdir_path_in (image : bytes) (path : bytes) : outcome (list bytes) :=
  sb ← superblock image;
  dir_num ← resolve_dir_inode_in image path;
  dir ← inode image sb dir_num;
  readdir_loop (dir_fuel dir) image sb dir [] (dir_start dir).

(** The loop of [read_path_in]. *)
Fixpoint read_path_loop (image : bytes) (sb : Superblock) (current : Inode) (parts : list bytes) : outcome bytes :=
  match parts with
  | [] => Stop
  | part :: rest =>
      if is_dot part then Stop
      else
        inode_num ← find_inode_in_dir image sb current part;
        next_inode ← inode image sb inode_num;
        match rest with
        | [] => if is_dir (mode next_inode) then Stop else read_inode_data image sb inode_num
        | _ => if negb (is_dir (mode next_inode)) then Stop else read_path_loop image sb next_inode rest
        end
  end.

Definition read_path_in (image : bytes) (path : bytes) : outcome bytes :=
  sb ← superblock image;
  current ← inode image sb 2;
  read_path_loop image sb current (components path).

(** ** The two images: the root file system first, then the boot image *)

Section images.
Context (rootfs initfs : bytes).

Definition or_else {A} (m : outcome A) (k : outcome A) : outcome A :=
  match m with Stop => k | m => m end.

Definition fallback {A} (f : bytes -> bytes -> outcome A) (path : bytes) : outcome A :=
  if bool_decide (rootfs = []) then f initfs path else or_else (f rootfs path) (f initfs path).

Definition read : bytes -> outcome bytes := fallback read_path_in.
Definition file_metadata : bytes -> outcome (Z * Z) := fallback file_metadata_in.
Definition readdir_path : bytes -> outcome (list bytes) := fallback readdir_path_in.

(** [resolve_dir_inode_in(..).is_some()] *)
Definition is_directory (path : bytes) : outcome bool :=
  match fallback resolve_dir_inode_in path with
  | Val _ => Val true
  | Stop => Val false
  | Panic => Panic
  | Diverge => Diverge
  end.

(** [entries()]: the cursor at the start of the root directory. *)
Definition entries : outcome (Superblock * Inode * cursor) :=
  sb ← or_else (superblock initfs) (Val (mkSb 1024 128 0));
  root ← or_else (inode initfs sb 2) (Val (mkInode 0 0 (replicate 15 0)));
  Val (sb, root, dir_start root).
End images.
End Ext2.
