(* ===== verification/Ext2Props.v ===== *)
(** The ext2 reader on arbitrary images: no panic, no endless loop; what reading
    a file returns; that listing and lookup agree. *)

From Stdlib Require Import ZArith Lia.
From stdpp Require Import base list option numbers.
From S2P Require Import Prelude Types UserMem Bytes Ext2.
Import Bytes Ext2.

Local Open Scope Z_scope.

Module Ext2Props.

(** ** Weakest preconditions

    [wp m Q]: [m] neither panics nor diverges, and a value it returns satisfies
    [Q]. *)
Definition wp {A} (m : outcome A) (Q : A -> Prop) : Prop :=
  match m with Panic | Diverge => False | Stop => True | Val a => Q a end.

Lemma wp_bind {A B} (m : outcome A) (f : A -> outcome B) Q : wp m (fun a => wp (f a) Q) -> wp (m ≫= f) Q.
Proof. by destruct m. Qed.

Lemma wp_mono {A} (m : outcome A) (Q R : A -> Prop) : wp m Q -> (forall a, Q a -> R a) -> wp m R.
Proof. destruct m; cbn; auto. Qed.

Lemma wp_val {A} (m : outcome A) Q a : wp m Q -> m = Val a -> Q a.
Proof. by intros H ->. Qed.

Lemma wp_of_option {A} (o : option A) (Q : A -> Prop) : (forall a, o = Some a -> Q a) -> wp (of_option o) Q.
Proof. destruct o; cbn; auto. Qed.

Lemma wp_uadd a b (Q : Z -> Prop) : a + b < U64_MODULUS -> Q (a + b) -> wp (uadd a b) Q.
Proof. intros H HQ. unfold uadd. by rewrite (proj2 (Z.ltb_lt _ _) H). Qed.

Lemma wp_umul a b (Q : Z -> Prop) : a * b < U64_MODULUS -> Q (a * b) -> wp (umul a b) Q.
Proof. intros H HQ. unfold umul. by rewrite (proj2 (Z.ltb_lt _ _) H). Qed.

Lemma wp_usub a b (Q : Z -> Prop) : b <= a -> Q (a - b) -> wp (usub a b) Q.
Proof. intros H HQ. unfold usub. by rewrite (proj2 (Z.leb_le _ _) H). Qed.

Lemma wp_udiv a b (Q : Z -> Prop) : b <> 0 -> Q (a / b) -> wp (udiv a b) Q.
Proof. intros H HQ. unfold udiv. by rewrite (proj2 (Z.eqb_neq _ _) H). Qed.

Lemma wp_urem a b (Q : Z -> Prop) : b <> 0 -> Q (a mod b) -> wp (urem a b) Q.
Proof. intros H HQ. unfold urem. by rewrite (proj2 (Z.eqb_neq _ _) H). Qed.

(** One step of a computation in the goal. *)
Ltac wstep :=
  match goal with
  | |- wp (_ ≫= _) _ => apply wp_bind
  | |- wp (uadd _ _) _ => apply wp_uadd
  | |- wp (umul _ _) _ => apply wp_umul
  | |- wp (usub _ _) _ => apply wp_usub
  | |- wp (of_option _) _ => apply wp_of_option; intros ? ?
  end.

(** ** Values read from an image *)

Definition u16 (x : Z) : Prop := 0 <= x < 65536.
Definition u32 (x : Z) : Prop := 0 <= x < 2 ^ 32.

(** The block size is 0 (the shift lost its bit) or a power of two of at least
    1024; no more is used of it. *)
Record sb_wf (sb : Superblock) : Prop := {
  sb_bs : block_size sb = 0 \/ 1024 <= block_size sb <= 2 ^ 31;
  sb_is : u16 (inode_size sb);
  sb_ipg : u32 (inodes_per_group sb);
}.

Record inode_wf (ino : Inode) : Prop := {
  in_size : u32 (size ino);
  in_len : length (blocks ino) = 15%nat;
  in_blocks : Forall u32 (blocks ino);
}.

Section image.
Context (image : bytes) (Himage : Forall is_byte image).

Lemma wp_read_le (n : Z) (b : bytes) off (Q : Z -> Prop) :
  Forall is_byte b -> 0 <= n -> off + n < U64_MODULUS -> (forall v, 0 <= v < 256 ^ n -> Q v) -> wp (read_le n b off) Q.
Proof.
  intros Hb Hn Ho HQ. unfold read_le. wstep. wstep; [done|]. wstep. wstep. cbn. apply HQ.
  match goal with H : get_range _ _ _ = Some ?r |- _ => pose proof (get_range_length _ _ _ _ H) as Hl;
    pose proof (from_le_bytes_range r (get_range_bytes _ _ _ _ Hb H)) as Hr end.
  unfold blen in Hl. by rewrite Hl in Hr.
Qed.

Lemma wp_read_u16 (b : bytes) off (Q : Z -> Prop) :
  Forall is_byte b -> off + 2 < U64_MODULUS -> (forall v, u16 v -> Q v) -> wp (read_u16 b off) Q.
Proof. intros. by apply wp_read_le. Qed.

Lemma wp_read_u32 (b : bytes) off (Q : Z -> Prop) :
  Forall is_byte b -> off + 4 < U64_MODULUS -> (forall v, u32 v -> Q v) -> wp (read_u32 b off) Q.
Proof. intros. by apply wp_read_le. Qed.

Lemma checked_shl32_wp n : 0 <= n -> wp (checked_shl32 1024 n) (fun bs => bs = 0 \/ 1024 <= bs <= 2 ^ 31).
Proof.
  intros Hn. unfold checked_shl32. destruct (Z.ltb_spec n 32) as [H|]; [|done]. cbn.
  rewrite Z.shiftl_mul_pow2 by done. change 1024 with (2 ^ 10). rewrite <-Z.pow_add_r by lia.
  destruct (decide (10 + n < 32)) as [Hl|Hl].
  - right. rewrite Z.mod_small; [split; [apply Z.pow_le_mono_r; lia|apply (Z.pow_le_mono_r 2 (10 + n) 31); lia]|].
    split; [apply Z.pow_nonneg; lia|apply Z.pow_lt_mono_r; lia].
  - left. replace (10 + n) with (32 + (n - 22)) by lia. rewrite Z.pow_add_r by lia. rewrite Z.mul_comm. apply Z_mod_mult.
Qed.

Lemma superblock_wp : wp (superblock image) sb_wf.
Proof.
  unfold superblock. destruct (blen image <? 2048); [done|].
  wstep. apply wp_read_u16; [done|done|]. intros magic _. destruct (negb _); [done|].
  wstep. apply wp_read_u32; [done|done|]. intros log Hlog. wstep. apply wp_mono with (1 := checked_shl32_wp log (proj1 Hlog)).
  intros bs Hbs. wstep. apply wp_read_u16; [done|done|]. intros isz His. wstep. apply wp_read_u32; [done|done|]. intros ipg Hipg. done.
Qed.

Lemma read_blocks_wp n off :
  0 <= off -> off + 4 * Z.of_nat n + 4 < U64_MODULUS ->
  wp (read_blocks image off n) (fun l => length l = n /\ Forall u32 l).
Proof.
  revert off. induction n as [|n IH]; intros off H1 H2; cbn [read_blocks]; [done|].
  wstep. apply wp_read_u32; [done|lia|]. intros b Hb. wstep. wstep; [lia|]. wstep.
  eapply wp_mono; [apply IH; lia|]. intros l [Hl Hf]. split; cbn; [by f_equal|by constructor].
Qed.

Section superblock.
Context (sb : Superblock) (Hsb : sb_wf sb).

Lemma bs_bound : 0 <= block_size sb <= 2 ^ 31.
Proof. destruct (sb_bs _ Hsb); lia. Qed.

Lemma inode_wp n : u32 n -> wp (inode image sb n) inode_wf.
Proof.
  intros Hn. pose proof bs_bound as Hbs. destruct Hsb as [_ His Hipg]. unfold u32, u16 in *. unfold inode.
  destruct (Z.eqb_spec n 0); [done|]. destruct (Z.eqb_spec (inodes_per_group sb) 0) as [|Hp]; [done|].
  set (q := (n - 1) / inodes_per_group sb). set (r := (n - 1) mod inodes_per_group sb).
  assert (0 <= q < 2 ^ 32) as Hq.
  { split; [apply Z.div_pos; lia|]. apply Z.div_lt_upper_bound; nia. }
  assert (0 <= r < 2 ^ 32) as Hr by (pose proof (Z.mod_pos_bound (n - 1) (inodes_per_group sb)); lia).
  wstep. apply wp_udiv; [done|]. fold q. wstep. apply wp_urem; [done|]. fold r. wstep.
  unfold group_desc. set (g := if block_size sb =? 1024 then _ else _).
  assert (0 <= g <= 2 ^ 32) as Hg by (unfold g; destruct (block_size sb =? 1024); lia).
  wstep. wstep; [unfold U64_MODULUS; lia|]. wstep. wstep; [unfold U64_MODULUS; lia|]. wstep. wstep; [unfold U64_MODULUS; lia|].
  apply wp_read_u32; [done|unfold U64_MODULUS; lia|]. intros gd [Hg1 Hg2].
  assert (0 <= gd * block_size sb <= 2 ^ 63) by nia. assert (0 <= r * inode_size sb <= 2 ^ 48) by nia.
  wstep. wstep; [unfold U64_MODULUS; lia|]. wstep. wstep; [unfold U64_MODULUS; lia|]. wstep. wstep; [unfold U64_MODULUS; lia|].
  wstep. apply wp_read_u16; [done|unfold U64_MODULUS; lia|]. intros m Hm.
  wstep. wstep; [unfold U64_MODULUS; lia|]. wstep. apply wp_read_u32; [done|unfold U64_MODULUS; lia|]. intros s Hs.
  wstep. wstep; [unfold U64_MODULUS; lia|]. wstep.
  eapply wp_mono; [apply read_blocks_wp; unfold U64_MODULUS; lia|]. intros l [Hl Hf]. done.
Qed.

Lemma block_slice_wp b : 0 <= b < 2 ^ 32 -> wp (block_slice image (block_size sb) b) (fun d => blen d = block_size sb /\ Forall is_byte d).
Proof.
  intros Hb. pose proof bs_bound as Hbs. unfold block_slice. destruct (b =? 0); [done|].
  wstep. wstep; [unfold U64_MODULUS; nia|]. wstep. wstep; [unfold U64_MODULUS; nia|]. wstep.
  match goal with H : get_range _ _ _ = Some ?r |- _ => split; [by eapply get_range_length|by eapply get_range_bytes] end.
Qed.

Section inode.
Context (ino : Inode) (Hino : inode_wf ino).

Lemma block_ref_wp i : 0 <= i < 15 -> wp (block_ref ino i) u32.
Proof.
  intros Hi. destruct Hino as [_ Hl Hf]. unfold block_ref, get. rewrite (proj2 (Z.leb_le 0 i)) by lia.
  destruct (blocks ino !! Z.to_nat i) as [b|] eqn:E; [|apply lookup_ge_None in E; lia].
  cbn. rewrite Forall_lookup in Hf. by eapply Hf.
Qed.

(** A block number comes only with a block size that is not 0, and for an index
    the three levels can reach. *)
Lemma data_block_number_wp i :
  0 <= i -> wp (data_block_number image sb ino i) (fun b => u32 b /\ 1024 <= block_size sb /\ i < 2 ^ 60).
Proof.
  intros Hi. pose proof (sb_bs _ Hsb) as Hbs. unfold data_block_number.
  destruct (Z.eqb_spec (block_size sb) 0) as [|Hz]; [done|]. assert (1024 <= block_size sb <= 2 ^ 31) as Hb by lia.
  set (n := block_size sb / 4).
  assert (256 <= n <= 2 ^ 29) as Hn.
  { split; [apply Z.div_le_lower_bound; lia|]. apply Z.div_le_upper_bound; lia. }
  destruct (Z.ltb_spec i 12) as [H12|H12].
  { eapply wp_mono; [apply block_ref_wp; lia|]. intros b Hu. split; [done|]. lia. }
  destruct (Z.ltb_spec (i - 12) n) as [Hi1|Hi1].
  { wstep. eapply wp_mono; [apply block_ref_wp; lia|]. intros b Hu. destruct (b =? 0); [done|].
    wstep. eapply wp_mono; [by apply block_slice_wp|]. intros d [_ Hd]. wstep. wstep; [unfold U64_MODULUS; lia|].
    apply wp_read_u32; [done|unfold U64_MODULUS; lia|]. intros v Hv. split; [done|]. lia. }
  wstep. wstep; [unfold U64_MODULUS; nia|]. destruct (Z.ltb_spec (i - 12 - n) (n * n)) as [Hi2|]; [|done].
  wstep. eapply wp_mono; [apply block_ref_wp; lia|]. intros b Hu. destruct (b =? 0); [done|].
  wstep. eapply wp_mono; [by apply block_slice_wp|]. intros d [_ Hd].
  assert (0 <= (i - 12 - n) / n < 2 ^ 29 + 1) as Hq.
  { split; [apply Z.div_pos; lia|]. apply Z.div_lt_upper_bound; nia. }
  pose proof (Z.mod_pos_bound (i - 12 - n) n ltac:(lia)) as Hm.
  wstep. apply wp_udiv; [lia|]. wstep. wstep; [unfold U64_MODULUS; lia|].
  wstep. apply wp_read_u32; [done|unfold U64_MODULUS; lia|]. intros e He. destruct (e =? 0); [done|].
  wstep. eapply wp_mono; [by apply block_slice_wp|]. intros d2 [_ Hd2].
  wstep. apply wp_urem; [lia|]. wstep. wstep; [unfold U64_MODULUS; lia|].
  apply wp_read_u32; [done|unfold U64_MODULUS; lia|]. intros v Hv. split; [done|]. nia.
Qed.

(** ** One round of a directory scan *)

Record cursor_wf (c : cursor) : Prop := {
  cu_block : 0 <= block_idx c;
  cu_offset : 0 <= offset c;
  cu_remaining : 0 <= remaining c;
}.

(** The bound on the rounds left. *)
Definition rounds (c : cursor) : Z := 2 * remaining c + (if offset c =? 0 then 0 else 1).

Definition event_ok (c : cursor) (e : event) : Prop :=
  1024 <= block_size sb /\
  match e with
  | NoBlock | BadRecord => True
  | NextBlock c' | Deleted c' => cursor_wf c' /\ rounds c' < rounds c
  | Entry n _ c' => u32 n /\ cursor_wf c' /\ rounds c' < rounds c
  end.

Lemma record_rounds c o rl :
  cursor_wf c -> 0 < remaining c -> 0 < rl -> 0 <= o ->
  let c' := mkCur (block_idx c) o (saturating_sub64 (remaining c) rl) in cursor_wf c' /\ rounds c' < rounds c.
Proof.
  intros [H1 H2 H3] Hr Hrl Ho. unfold rounds, saturating_sub64. cbn. split; [split; cbn; lia|].
  destruct (o =? 0), (offset c =? 0); lia.
Qed.

Lemma dir_round_wp c : cursor_wf c -> 0 < remaining c -> wp (dir_round image sb ino c) (event_ok c).
Proof.
  intros Hc Hr. destruct (Hc) as [H1 H2 H3]. unfold dir_round. wstep. eapply wp_mono; [by apply data_block_number_wp|].
  intros b (Hb & Hbs & Hi). pose proof bs_bound as Hbs'. destruct (b =? 0); [done|].
  wstep. eapply wp_mono; [by apply block_slice_wp|]. intros data [Hlen Hd].
  destruct (Z.leb_spec (blen data) (offset c)) as [Hof|Hof].
  { wstep. wstep; [unfold U64_MODULUS; lia|]. cbn. split; [done|]. split; [split; cbn; lia|].
    unfold rounds. cbn. rewrite (proj2 (Z.eqb_neq (offset c) 0)) by lia. lia. }
  wstep. apply wp_read_u32; [done|unfold U64_MODULUS; lia|]. intros n Hn.
  wstep. wstep; [unfold U64_MODULUS; lia|]. wstep. apply wp_read_u16; [done|unfold U64_MODULUS; lia|]. intros rl [Hrl1 Hrl2].
  wstep. wstep; [unfold U64_MODULUS; lia|]. wstep. apply wp_of_option. intros nl Hnl.
  destruct (Z.eqb_spec rl 0) as [|Hrl]; [done|].
  wstep. wstep; [unfold U64_MODULUS; lia|].
  destruct (record_rounds c (offset c + rl) rl Hc Hr ltac:(lia) ltac:(lia)) as [Hw Hm].
  destruct (n =? 0); [done|].
  assert (0 <= nl < 256) as Hnlb.
  { unfold get in Hnl. destruct (0 <=? offset c + 6); [|done]. rewrite Forall_lookup in Hd. by apply (Hd _ _ Hnl). }
  wstep. wstep; [unfold U64_MODULUS; lia|]. wstep. wstep; [unfold U64_MODULUS; lia|]. wstep. apply wp_of_option. intros name _.
  by destruct (utf8 name).
Qed.

(** ** The scanning loops *)

Lemma find_loop_wp name fuel c :
  cursor_wf c -> rounds c < Z.of_nat fuel -> wp (find_loop fuel image sb ino name c) (fun n => u32 n /\ 1024 <= block_size sb).
Proof.
  revert c. induction fuel as [|fuel IH]; intros c Hc Hf.
  { destruct Hc as [_ _ H]. unfold rounds in Hf. destruct (offset c =? 0); lia. }
  cbn [find_loop]. destruct (Z.eqb_spec (remaining c) 0) as [|Hr]; [done|].
  wstep. eapply wp_mono; [apply dir_round_wp; [done|destruct Hc; lia]|]. intros e [Hbs He]. destruct e as [|c'| |c'|n nm c'].
  - done.
  - destruct He. apply IH; [done|lia].
  - done.
  - destruct He. apply IH; [done|lia].
  - destruct He as (Hn & Hw & Hm). destruct (bool_decide (nm = name)); [done|]. apply IH; [done|lia].
Qed.

Lemma readdir_loop_wp names fuel c :
  cursor_wf c -> rounds c < Z.of_nat fuel -> wp (readdir_loop fuel image sb ino names c) (fun _ => True).
Proof.
  revert names c. induction fuel as [|fuel IH]; intros names c Hc Hf.
  { destruct Hc as [_ _ H]. unfold rounds in Hf. destruct (offset c =? 0); lia. }
  cbn [readdir_loop]. destruct (Z.eqb_spec (remaining c) 0) as [|Hr]; [done|].
  wstep. eapply wp_mono; [apply dir_round_wp; [done|destruct Hc; lia]|]. intros e [Hbs He]. destruct e as [|c'| |c'|n nm c'].
  - done.
  - destruct He. apply IH; [done|lia].
  - done.
  - destruct He. apply IH; [done|lia].
  - destruct He as (Hn & Hw & Hm). apply IH; [done|lia].
Qed.

Lemma dir_start_wf : cursor_wf (dir_start ino) /\ rounds (dir_start ino) < Z.of_nat (dir_fuel ino).
Proof.
  destruct Hino as [[H1 H2] _ _]. split; [split; cbn; lia|]. unfold rounds, dir_fuel. cbn. lia.
Qed.

Lemma find_inode_wp name : wp (find_inode_in_dir image sb ino name) (fun n => u32 n /\ 1024 <= block_size sb).
Proof.
  unfold find_inode_in_dir. destruct (negb _); [done|]. destruct dir_start_wf. by apply find_loop_wp.
Qed.

(** ** Reading a file *)

(** The byte at position [k] of a file: 0 in a hole, else the byte of its block. *)
Definition file_byte (k : nat) (x : Z) : Prop :=
  exists b, data_block_number image sb ino (Z.of_nat k / block_size sb) = Val b /\
    if b =? 0 then x = 0
    else image !! Z.to_nat (b * block_size sb + Z.of_nat k mod block_size sb) = Some x.

Lemma block_slice_val b d :
  0 <= b -> block_slice image (block_size sb) b = Val d -> b <> 0 /\ get_range image (b * block_size sb) (block_size sb) = Some d.
Proof.
  intros Hb. unfold block_slice. destruct (Z.eqb_spec b 0) as [|Hn]; [done|].
  unfold umul, uadd. destruct (_ <? _); [|done]. cbn. destruct (_ <? _); [|done]. cbn.
  destruct (get_range _ _ _); [|done]. by intros [= <-].
Qed.

Lemma chunk_byte i b chunk k x :
  1024 <= block_size sb -> 0 <= i -> u32 b -> data_block_number image sb ino i = Val b ->
  (if b =? 0 then chunk = replicate (length chunk) 0
   else exists d, block_slice image (block_size sb) b = Val d /\ chunk = take (length chunk) d) ->
  Z.of_nat (length chunk) <= block_size sb ->
  chunk !! k = Some x -> file_byte (Z.to_nat (i * block_size sb) + k) x.
Proof.
  intros Hbs Hi Hb Hdb Hc Hlen Hk. pose proof (lookup_lt_Some _ _ _ Hk) as Hkl. set (B := block_size sb) in *.
  assert ((Z.of_nat (Z.to_nat (i * B) + k)) / B = i) as Hdiv.
  { rewrite Nat2Z.inj_add, Z2Nat.id by nia. rewrite Z.div_add_l by lia. rewrite Z.div_small; lia. }
  assert ((Z.of_nat (Z.to_nat (i * B) + k)) mod B = Z.of_nat k) as Hmod.
  { rewrite Nat2Z.inj_add, Z2Nat.id by nia. rewrite Z.add_comm, Z_mod_plus_full. rewrite Z.mod_small; lia. }
  exists b. fold B. rewrite Hdiv, Hmod. split; [done|]. destruct (Z.eqb_spec b 0) as [|Hb0].
  - rewrite Hc in Hk. by apply lookup_replicate in Hk as [-> _].
  - destruct Hc as (d & Hd & Hc). destruct (block_slice_val b d (proj1 Hb) Hd) as [_ Hg]. fold B in Hg.
    rewrite Hc, lookup_take_lt in Hk by done. rewrite (get_range_lookup _ _ _ _ _ Hg) in Hk by (fold B; lia).
    destruct Hb. rewrite Z2Nat.inj_add, Nat2Z.id by nia. done.
Qed.

Lemma read_data_loop_wp n i buf :
  1024 <= block_size sb -> 0 <= i -> blen buf = i * block_size sb -> blen buf < size ino ->
  size ino <= (i + Z.of_nat n) * block_size sb -> (forall k x, buf !! k = Some x -> file_byte k x) ->
  wp (read_data_loop image sb ino n i buf) (fun r => blen r = size ino /\ forall k x, r !! k = Some x -> file_byte k x).
Proof.
  revert i buf. induction n as [|n IH]; intros i buf Hbs Hi Hlen Hlt Hle Hbuf; [lia|]. cbn [read_data_loop].
  destruct (data_block_number image sb ino i) as [| | |b] eqn:Hdb; pose proof (data_block_number_wp i Hi) as Hw; rewrite Hdb in Hw; try done.
  destruct Hw as (Hb & _ & _). wstep. cbn [wp]. wstep. wstep; [lia|]. wstep.
  apply wp_mono with (Q := fun chunk => blen chunk = Z.min (block_size sb) (size ino - blen buf) /\
    if b =? 0 then chunk = replicate (length chunk) 0 else exists d, block_slice image (block_size sb) b = Val d /\ chunk = take (length chunk) d).
  { destruct (b =? 0) eqn:Eb.
    - cbn [wp]. unfold blen at 1. rewrite length_replicate. split; [lia|done].
    - pose proof (block_slice_wp b Hb) as Hs. destruct (block_slice image (block_size sb) b) as [| | |d] eqn:Ed; try done.
      destruct Hs as [Hdl _]. cbn. rewrite Hdl. unfold blen in Hdl. unfold blen at 1. rewrite length_take.
      split; [lia|]. exists d. split; [done|]. f_equal. lia. }
  intros chunk [Hcl Hc]. unfold blen in *.
  assert (forall k x, (buf ++ chunk) !! k = Some x -> file_byte k x) as Hall.
  { intros k x Hk. apply lookup_app_Some in Hk as [Hk|[Hk1 Hk2]]; [by apply Hbuf|].
    replace k with (Z.to_nat (i * block_size sb) + (k - length buf))%nat by lia.
    apply (chunk_byte i b chunk); try done; lia. }
  destruct (Z.leb_spec (size ino) (Z.of_nat (length (buf ++ chunk)))) as [Hd|Hd]; rewrite length_app in Hd.
  - cbn. rewrite length_app. split; [lia|done].
  - apply IH; unfold blen; rewrite ?length_app; try done; try lia; nia.
Qed.
End inode.

Lemma read_inode_data_wp n :
  u32 n -> 1024 <= block_size sb ->
  wp (read_inode_data image sb n) (fun r => exists ino, inode image sb n = Val ino /\
    if is_dir (mode ino) then r = [] else blen r = size ino /\ forall k x, r !! k = Some x -> file_byte ino k x).
Proof.
  intros Hn Hbs. unfold read_inode_data. pose proof (inode_wp n Hn) as Hw.
  destruct (inode image sb n) as [| | |ino]; try done. cbn [wp] in Hw. wstep. cbn [wp].
  destruct (is_dir (mode ino)) eqn:Ed; [by exists ino; rewrite Ed|].
  destruct (Z.eqb_spec (size ino) 0) as [E0|Hn0]; [exists ino; rewrite Ed, E0; cbn; split; [done|split; [done|intros ? ?; by rewrite lookup_nil]]|].
  destruct (in_size _ Hw) as [Hs1 Hs2]. wstep. unfold div_ceil. rewrite (proj2 (Z.eqb_neq (block_size sb) 0)) by lia. cbn [wp].
  pose proof (Z.div_mod (size ino + block_size sb - 1) (block_size sb) ltac:(lia)) as Hdm.
  pose proof (Z.mod_pos_bound (size ino + block_size sb - 1) (block_size sb) ltac:(lia)) as Hmb.
  apply wp_mono with (Q := fun r => blen r = size ino /\ forall k x, r !! k = Some x -> file_byte ino k x).
  - apply (read_data_loop_wp ino Hw); change (blen []) with 0; try lia.
    intros ? ?. by rewrite lookup_nil.
  - intros r Hr. exists ino. by rewrite Ed.
Qed.

(** ** The path loops *)

Lemma metadata_loop_wp parts cur : inode_wf cur -> wp (metadata_loop image sb cur parts) (fun _ => True).
Proof.
  revert cur. induction parts as [|part rest IH]; intros cur Hc; cbn [metadata_loop]; [done|].
  destruct (is_dot part); [by apply IH|]. wstep. eapply wp_mono; [by apply find_inode_wp|]. intros n [Hn _].
  wstep. eapply wp_mono; [by apply inode_wp|]. intros nxt Hnx. destruct rest; [done|by apply IH].
Qed.

Lemma resolve_loop_wp parts num cur : u32 num -> inode_wf cur -> wp (resolve_loop image sb num cur parts) u32.
Proof.
  revert num cur. induction parts as [|part rest IH]; intros num cur Hnum Hc; cbn [resolve_loop]; [by destruct (is_dir _)|].
  destruct (is_dot part); [by apply IH|]. destruct (negb _); [done|]. wstep. eapply wp_mono; [by apply find_inode_wp|]. intros n [Hn _].
  wstep. eapply wp_mono; [by apply inode_wp|]. intros nxt Hnx. by apply IH.
Qed.

Lemma read_path_loop_wp parts cur : inode_wf cur -> wp (read_path_loop image sb cur parts) (fun _ => True).
Proof.
  revert cur. induction parts as [|part rest IH]; intros cur Hc; cbn [read_path_loop]; [done|].
  destruct (is_dot part); [done|]. wstep. eapply wp_mono; [by apply find_inode_wp|]. intros n [Hn Hbs].
  wstep. eapply wp_mono; [by apply inode_wp|]. intros nxt Hnx. destruct rest.
  - destruct (is_dir _); [done|]. eapply wp_mono; [by apply read_inode_data_wp|done].
  - destruct (negb _); [done|]. by apply IH.
Qed.

Lemma next_loop_wp dir fuel c :
  inode_wf dir -> cursor_wf c -> rounds c < Z.of_nat fuel -> wp (next_loop fuel image sb dir c) (fun _ => True).
Proof.
  intros Hdir. revert c. induction fuel as [|fuel IH]; intros c Hc Hf.
  { destruct Hc as [_ _ H]. unfold rounds in Hf. destruct (offset c =? 0); lia. }
  cbn [next_loop]. destruct (Z.eqb_spec (remaining c) 0) as [|Hr]; [done|].
  wstep. eapply wp_mono; [apply (dir_round_wp dir Hdir); [done|destruct Hc; lia]|]. intros e [Hbs He]. destruct e as [|c'| |c'|n nm c'].
  - done.
  - destruct He. apply IH; [done|lia].
  - done.
  - destruct He. apply IH; [done|lia].
  - destruct He as (Hn & _ & _). pose proof (read_inode_data_wp n Hn Hbs) as Hw. by destruct (read_inode_data _ _ _).
Qed.
End superblock.

Lemma root_inode : u32 2.
Proof. split; [lia|done]. Qed.

Lemma file_metadata_in_wp path : wp (file_metadata_in image path) (fun _ => True).
Proof.
  unfold file_metadata_in. wstep. eapply wp_mono; [apply superblock_wp|]. intros sb Hsb.
  destruct (is_root_path _); wstep; (eapply wp_mono; [apply inode_wp; [done|apply root_inode]|]); intros r Hr; [done|].
  by apply metadata_loop_wp.
Qed.

Lemma resolve_dir_inode_in_wp path : wp (resolve_dir_inode_in image path) u32.
Proof.
  unfold resolve_dir_inode_in. wstep. eapply wp_mono; [apply superblock_wp|]. intros sb Hsb.
  destruct (is_root_path _); wstep; (eapply wp_mono; [apply inode_wp; [done|apply root_inode]|]); intros r Hr.
  - by destruct (is_dir _).
  - apply resolve_loop_wp; [done|apply root_inode|done].
Qed.

Lemma readdir_path_in_wp path : wp (readdir_path_in image path) (fun _ => True).
Proof.
  unfold readdir_path_in. wstep. eapply wp_mono; [apply superblock_wp|]. intros sb Hsb.
  wstep. eapply wp_mono; [apply resolve_dir_inode_in_wp|]. intros n Hn.
  wstep. eapply wp_mono; [by apply inode_wp|]. intros d Hd. destruct (dir_start_wf d Hd). by apply readdir_loop_wp.
Qed.

Lemma read_path_in_wp path : wp (read_path_in image path) (fun _ => True).
Proof.
  unfold read_path_in. wstep. eapply wp_mono; [apply superblock_wp|]. intros sb Hsb.
  wstep. eapply wp_mono; [apply inode_wp; [done|apply root_inode]|]. intros r Hr. by apply read_path_loop_wp.
Qed.
End image.

Lemma fallback_wp {A} (f : bytes -> bytes -> outcome A) rootfs initfs path (Q : A -> Prop) :
  wp (f rootfs path) Q -> wp (f initfs path) Q -> wp (fallback rootfs initfs f path) Q.
Proof.
  intros H1 H2. unfold fallback. destruct (bool_decide (rootfs = [])); [done|]. by destruct (f rootfs path).
Qed.


(** Reading a file returns its contents.  For a path that resolves to a
    regular file, [read_inode_data] returns exactly as many bytes as the inode
    says, and byte [k] is the byte at offset [k mod block_size] of the block that
    the direct, indirect or doubly indirect table gives for index
    [k / block_size], or 0 in a hole. *)
Theorem read_inode_data_contents (image : bytes) (sb : Superblock) (n : Z) (ino : Inode) (r : bytes) :
  Forall is_byte image -> superblock image = Val sb -> 1024 <= block_size sb -> u32 n ->
  inode image sb n = Val ino -> is_dir (mode ino) = false -> read_inode_data image sb n = Val r ->
  blen r = size ino /\ forall k x, r !! k = Some x -> file_byte image sb ino k x.
Proof.
  intros Hi Hs Hbs Hn Hino Hd Hr. pose proof (wp_val _ _ _ (superblock_wp image Hi) Hs) as Hsb.
  destruct (wp_val _ _ _ (read_inode_data_wp image Hi sb Hsb n Hn Hbs) Hr) as (ino' & Hino' & H).
  rewrite Hino in Hino'. injection Hino' as <-. by rewrite Hd in H.
Qed.

(** ** Listing and lookup *)

Lemma readdir_find_loop image sb dir name fuel names c r :
  is_dot name = false -> readdir_loop fuel image sb dir names c = Val r ->
  name ∈ r <-> name ∈ names \/ exists n, find_loop fuel image sb dir name c = Val n.
Proof.
  intros Hd. revert names c. induction fuel as [|fuel IH]; intros names c; cbn [readdir_loop find_loop]; [done|].
  destruct (remaining c =? 0).
  { intros [= <-]. split; [by left|]. intros [H|(n & H)]; done. }
  destruct (dir_round image sb dir c) as [| | |e]; try done. cbn [mbind outcome_bind]. destruct e as [|c'| |c'|n nm c'].
  - intros [= <-]. split; [by left|]. intros [H|(n & H)]; done.
  - apply IH.
  - intros [= <-]. split; [by left|]. intros [H|(n & H)]; done.
  - apply IH.
  - intros Hr%IH. rewrite Hr. destruct (bool_decide_reflect (nm = name)) as [->|Hne].
    + rewrite Hd. rewrite elem_of_app, list_elem_of_singleton. split; [|by intros _; left; right].
      intros _. right. by exists n.
    + destruct (is_dot nm); [done|]. rewrite elem_of_app, list_elem_of_singleton. split; [|tauto].
      intros [[H|H]|H]; [by left|congruence|by right].
Qed.

(** Listing and lookup agree.  When a directory can be listed, a name other
    than [.] and [..] is in the listing exactly when looking it up in that
    directory finds an inode; deleted entries are in neither. *)
Theorem readdir_agrees_with_lookup (image : bytes) (sb : Superblock) (dir : Inode) (names : list bytes) (name : bytes) :
  is_dir (mode dir) = true -> is_dot name = false ->
  readdir_loop (dir_fuel dir) image sb dir [] (dir_start dir) = Val names ->
  name ∈ names <-> exists n, find_inode_in_dir image sb dir name = Val n.
Proof.
  intros Hdir Hd Hr. rewrite (readdir_find_loop _ _ _ _ _ _ _ _ Hd Hr). unfold find_inode_in_dir. rewrite Hdir. cbn [negb].
  split; [intros [H|H]; [by apply not_elem_of_nil in H|done]|by right].
Qed.

(** ** A small image: the file [hi] with the contents [abc] *)

Definition demo_bytes : list (Z * Z) :=
  [(1064, 16); (1080, 83); (1081, 239); (1112, 128); (2056, 3);
   (3200, 237); (3201, 65); (3205, 4); (3240, 5);
   (3328, 164); (3329, 129); (3332, 3); (3368, 6);
   (5120, 3); (5125, 4); (5126, 2); (5127, 1); (5128, 104); (5129, 105);
   (6144, 97); (6145, 98); (6146, 99)].

Definition demo_image : bytes :=
  (fun z => default 0 (snd <$> List.find (fun p => p.1 =? z) demo_bytes)) <$> seqZ 0 7168.

Definition demo_sb : Superblock := mkSb 1024 128 16.
Definition demo_root : Inode := mkInode 16877 1024 (5 :: replicate 14 0).
Definition demo_file : Inode := mkInode 33188 3 (6 :: replicate 14 0).

Lemma demo_image_bytes : Forall is_byte demo_image.
Proof.
  assert (Forall (fun p => is_byte p.2) demo_bytes) as Hd by (repeat constructor; cbn; lia).
  apply Forall_elem. intros x (i & -> & _)%list_elem_of_fmap.
  destruct (List.find _ demo_bytes) as [p|] eqn:E; cbn; [|unfold is_byte; lia].
  apply List.find_some in E as [Hp _]. rewrite List.Forall_forall in Hd. by apply Hd.
Qed.


Lemma read_inode_data_contents_witness :
  superblock demo_image = Val demo_sb /\ inode demo_image demo_sb 3 = Val demo_file /\
  blen [97; 98; 99] = size demo_file /\ file_byte demo_image demo_sb demo_file 1 98.
Proof.
  assert (superblock demo_image = Val demo_sb) as Hs by (vm_compute; reflexivity).
  assert (inode demo_image demo_sb 3 = Val demo_file) as Hi by (vm_compute; reflexivity).
  split; [exact Hs|]. split; [exact Hi|].
  destruct (read_inode_data_contents demo_image demo_sb 3 demo_file [97; 98; 99]) as [H1 H2].
  - exact demo_image_bytes.
  - exact Hs.
  - vm_compute. discriminate.
  - split; vm_compute; [discriminate|reflexivity].
  - exact Hi.
  - reflexivity.
  - vm_compute. reflexivity.
  - split; [exact H1|]. exact (H2 1%nat 98 eq_refl).
Defined.

Lemma readdir_agrees_with_lookup_witness :
  readdir_loop (dir_fuel demo_root) demo_image demo_sb demo_root [] (dir_start demo_root) = Val [[104; 105]] /\
  ([104; 105] ∈ [[104; 105]] <-> exists n, find_inode_in_dir demo_image demo_sb demo_root [104; 105] = Val n).
Proof.
  assert (readdir_loop (dir_fuel demo_root) demo_image demo_sb demo_root [] (dir_start demo_root) = Val [[104; 105]]) as Hr
    by (vm_compute; reflexivity).
  split; [exact Hr|]. exact (readdir_agrees_with_lookup demo_image demo_sb demo_root [[104; 105]] [104; 105] eq_refl eq_refl Hr).
Defined.
End Ext2Props.
