(* ===== verification/FsService.v ===== *)
(** The file-service protocol, both ends.

    [Client] is the kernel's end ([src/core/syscall/fs.rs]): requests and answers
    as the bytes of their [repr(C)] structures, and one function per request.
    [Server] is the service of the repository ([src/services/fs/src/main.rs] and
    [common/vfs.rs]): its handle table, its loop body, and path resolution over
    the [FileSystem] trait. *)

From Stdlib Require Import ZArith Lia.
From stdpp Require Import base list option numbers.
From S2P Require Import Prelude Types UserMem Bytes.
Import Bytes.

Local Open Scope Z_scope.

Module Client.
Definition FS_PATH_MAX : nat := 512.
Definition FS_DATA_MAX : nat := 4096.
Definition IPC_MAX_MSG_SIZE : Z := 65536.

Definition OP_OPEN : Z := 1.
Definition OP_READ : Z := 2.
Definition OP_CLOSE : Z := 4.
Definition OP_STAT : Z := 6.
Definition OP_FSTAT : Z := 7.
Definition OP_READDIR : Z := 8.
Definition OP_EXEC_STREAM : Z := 9.

Record FsRequest := mkReq { op : Z; arg1 : Z; arg2 : Z; req_path : bytes }.
Record FsResponse := mkResp { status : Z; resp_len : Z; data : bytes }.

(** The structures as memory: [size_of::<FsRequest>()] is 536 and
    [size_of::<FsResponse>()] is 4112. *)
Definition request_bytes (r : FsRequest) : bytes :=
  to_le_bytes 8 (op r) ++ to_le_bytes 8 (arg1 r) ++ to_le_bytes 8 (arg2 r) ++ req_path r.
Definition RESPONSE_SIZE : nat := 16 + FS_DATA_MAX.
Definition response_bytes (r : FsResponse) : bytes :=
  to_le_bytes 8 (i64_as_u64 (status r)) ++ to_le_bytes 8 (resp_len r) ++ data r.
Definition response_of (b : bytes) : FsResponse :=
  mkResp (as_i64 (from_le_bytes (take 8 b))) (from_le_bytes (take 8 (drop 8 b))) (take FS_DATA_MAX (drop 16 b)).

Definition no_path : bytes := replicate FS_PATH_MAX 0.

Definition encode_fs_path (path : bytes) : result bytes Z :=
  if Nat.eqb (length path) 0 || Nat.leb FS_PATH_MAX (length path) then Err EINVAL
  else if bool_decide (0 ∈ path) then Err EINVAL
  else Ok (path ++ replicate (FS_PATH_MAX - length path) 0).

Section client.
(** [fs_service_tid()] found a thread; a message sent to it and the bytes the
    timed receive stored, or its error. *)
Context (service_up : bool) (exchange : bytes -> result bytes Z).

Definition fs_service_request (req : FsRequest) : result FsResponse Z :=
  match exchange (request_bytes req) with
  | Err e => Err e
  | Ok b => if Nat.ltb (length b) RESPONSE_SIZE then Err EIO else Ok (response_of b)
  end.

(** [if resp.status < 0 { return Err((-resp.status) as u64) }] *)
Definition checked (req : FsRequest) : result FsResponse Z :=
  match fs_service_request req with
  | Err e => Err e
  | Ok resp => if status resp <? 0 then Err (wrap64 (- status resp)) else Ok resp
  end.

(** A request that carries a path, and one that does not. *)
Definition path_request (o flags : Z) (path : bytes) : result FsResponse Z :=
  if negb service_up then Err ESRCH
  else match encode_fs_path path with Err e => Err e | Ok p => checked (mkReq o 0 flags p) end.
Definition fd_request (o fd_remote arg : Z) : result FsResponse Z :=
  if negb service_up then Err ESRCH else checked (mkReq o fd_remote arg no_path).

Definition open_via_fs_service (path : bytes) (flags : Z) : result Z Z :=
  match path_request OP_OPEN flags path with Err e => Err e | Ok resp => Ok (status resp) end.

(** The bytes stored in [out\[..n\]]. *)
Definition read_via_fs_service (fd_remote out_len : Z) : result bytes Z :=
  match fd_request OP_READ fd_remote out_len with
  | Err e => Err e
  | Ok resp => Ok (take (Z.to_nat (Z.min (resp_len resp) (Z.min out_len (blen (data resp))))) (data resp))
  end.

Definition close_via_fs_service (fd_remote : Z) : Z :=
  match fd_request OP_CLOSE fd_remote 0 with Ok _ => SUCCESS | Err e => e end.

(** The status is the mode, as [u16]; the length is the size. *)
Definition mode_and_size (r : result FsResponse Z) : result (Z * Z) Z :=
  match r with Err e => Err e | Ok resp => Ok (status resp mod 65536, resp_len resp) end.
Definition stat_path_via_fs_service (path : bytes) : result (Z * Z) Z := mode_and_size (path_request OP_STAT 0 path).
Definition fstat_via_fs_service (fd_remote : Z) : result (Z * Z) Z := mode_and_size (fd_request OP_FSTAT fd_remote 0).

Definition U32_MAX : Z := 4294967295.

(** The bytes of the chunk and the next index. *)
Definition readdir_chunk_via_fs_service (fd_remote start_index out_len : Z) : result (bytes * Z) Z :=
  let max_bytes := Z.min (Z.min out_len (Z.of_nat FS_DATA_MAX)) U32_MAX in
  let start := Z.min start_index U32_MAX in
  match fd_request OP_READDIR fd_remote (Z.lor (Z.shiftl start 32) max_bytes) with
  | Err e => Err e
  | Ok resp =>
      Ok (take (Z.to_nat (Z.min (resp_len resp) (Z.min out_len (blen (data resp))))) (data resp), status resp)
  end.

(** [fs_service_request_stream] after the request: [recv k n] is what the timed
    receive number [k] stores in a buffer of [n] bytes. *)
Context (recv : nat -> Z -> result bytes Z).

Definition STREAM_MAX : Z := 8388608.

(** The [while received < total] loop.  Every round that goes on adds a byte. *)
Fixpoint stream_loop (rounds k : nat) (total : Z) (out : bytes) : result bytes Z :=
  if total <=? blen out then Ok out
  else
    match rounds with
    | O => Err EIO
    | S rounds =>
        match recv k (Z.min (total - blen out) IPC_MAX_MSG_SIZE) with
        | Err e => Err e
        | Ok b => if Nat.eqb (length b) 0 then Err EIO else stream_loop rounds (S k) total (out ++ b)
        end
    end.

Definition fs_service_request_stream (req : FsRequest) : result bytes Z :=
  match checked req with
  | Err e => Err e
  | Ok header =>
      let total := resp_len header in
      if total =? 0 then Ok []
      else if STREAM_MAX <? total then Err EINVAL
      else stream_loop (Z.to_nat total) 0 total []
  end.

Definition exec_image_via_fs (path : bytes) : result bytes Z :=
  if negb service_up then Err ESRCH
  else match encode_fs_path path with
       | Err e => Err e
       | Ok p => fs_service_request_stream (mkReq OP_EXEC_STREAM 0 0 p)
       end.
End client.
End Client.

Module Server.
Definition MAX_HANDLES : nat := 16.
Definition PATH_LEN : nat := 128.
Definition DATA_LEN : nat := 128.
Definition REQUEST_SIZE : nat := 24 + PATH_LEN.
Definition RECV_BUF : nat := 256.

Inductive VfsError :=
| NotFound | PermissionDenied | AlreadyExists | IsDirectory | NotDirectory | InvalidArgument
| IoError | OutOfSpace | ReadOnlyFs | TooManyOpenFiles | FileTooBig | NotSupported.

Definition vfs_error_to_errno (e : VfsError) : Z :=
  match e with
  | NotFound => -2 | PermissionDenied => -13 | AlreadyExists => -17 | IsDirectory => -21 | NotDirectory => -20
  | InvalidArgument => -22 | IoError => -5 | OutOfSpace => -28 | ReadOnlyFs => -30 | TooManyOpenFiles => -24
  | FileTooBig => -27 | NotSupported => -38
  end.

(** The part of the [FileSystem] trait that the service calls; [read] returns
    the bytes stored in a buffer of the given length. *)
Class FileSystem (F : Type) := {
  root_inode : F -> Z;
  is_directory : F -> Z -> result bool VfsError;
  lookup_name : F -> Z -> bytes -> result Z VfsError;
  read_at : F -> Z -> Z -> Z -> result bytes VfsError;
  read_at_fits fs ino off n b : read_at fs ino off n = Ok b -> blen b <= Z.max 0 n;
}.

Definition split_path (path : bytes) : list bytes := filter (fun w => w <> []) (split 47 path).

Section server.
Context {F : Type} `{!FileSystem F}.
Implicit Types fs : F.

Fixpoint resolve_components fs (current : Z) (components : list bytes) : result Z VfsError :=
  match components with
  | [] => Ok current
  | c :: rest =>
      match is_directory fs current with
      | Err e => Err e
      | Ok false => Err NotDirectory
      | Ok true =>
          match lookup_name fs current c with
          | Err e => Err e
          | Ok next => resolve_components fs next rest
          end
      end
  end.

Definition resolve_path fs (path : bytes) : result Z VfsError := resolve_components fs (root_inode fs) (split_path path).

Record OpenFile := mkOpen { used : bool; inode : Z; offset : Z }.
Definition Handles := list OpenFile.
Definition handles_init : Handles := replicate MAX_HANDLES (mkOpen false 0 0).

Record Reply := mkReply { r_status : Z; r_len : Z; r_data : bytes }.
Definition no_reply : Reply := mkReply (-1) 0 (replicate DATA_LEN 0).
Definition reply_status (z : Z) : Reply := mkReply z 0 (replicate DATA_LEN 0).
Definition reply_bytes (r : Reply) : bytes :=
  to_le_bytes 8 (i64_as_u64 (r_status r)) ++ to_le_bytes 8 (r_len r) ++ r_data r.

(** The bytes of a path up to the first NUL. *)
Fixpoint until_nul (b : bytes) : bytes :=
  match b with
  | x :: b => if x =? 0 then [] else x :: until_nul b
  | [] => []
  end.

Definition first_free (hs : Handles) : option nat := fst <$> list_find (fun h => used h = false) hs.

Definition op_open (mounted : option F) (path : bytes) (hs : Handles) : Reply * Handles :=
  let path_str := until_nul path in
  if utf8 path_str then
    match mounted with
    | None => (no_reply, hs)
    | Some fs =>
        match resolve_path fs path_str with
        | Err e => (reply_status (vfs_error_to_errno e), hs)
        | Ok ino =>
            match first_free hs with
            | None => (reply_status (-1), hs)
            | Some i => (reply_status (Z.of_nat i), <[i:=mkOpen true ino 0]> hs)
            end
        end
    end
  else (no_reply, hs).

(** [fd < MAX_HANDLES && HANDLES\[fd\].used] *)
Definition handle (fd : Z) (hs : Handles) : option OpenFile :=
  match hs !! Z.to_nat fd with Some h => if used h then Some h else None | None => None end.

Definition op_read (mounted : option F) (fd read_len : Z) (hs : Handles) : Reply * Handles :=
  match handle fd hs with
  | None => (reply_status (-9), hs)
  | Some h =>
      match mounted with
      | None => (no_reply, hs)
      | Some fs =>
          match read_at fs (inode h) (offset h) (Z.min read_len (Z.of_nat DATA_LEN)) with
          | Err e => (reply_status (vfs_error_to_errno e), hs)
          | Ok b =>
              (mkReply (blen b) (blen b) (put (replicate DATA_LEN 0) 0 b),
               <[Z.to_nat fd:=mkOpen true (inode h) (offset h + blen b)]> hs)
          end
      end
  end.

Definition op_close (fd : Z) (hs : Handles) : Reply * Handles :=
  match handle fd hs with
  | None => (reply_status (-9), hs)
  | Some h => (reply_status 0, <[Z.to_nat fd:=mkOpen false (inode h) (offset h)]> hs)
  end.

(** The body of the main loop for one message: the answer, if one is sent.  The
    receive keeps the first 256 bytes of the message. *)
Definition serve (mounted : option F) (message : bytes) (hs : Handles) : option bytes * Handles :=
  let buf := take RECV_BUF message in
  if Nat.leb REQUEST_SIZE (length buf) then
    let op := from_le_bytes (take 8 buf) in
    let arg1 := from_le_bytes (take 8 (drop 8 buf)) in
    let arg2 := from_le_bytes (take 8 (drop 16 buf)) in
    let path := take PATH_LEN (drop 24 buf) in
    let answer r := (Some (reply_bytes r.1), r.2) in
    if op =? 1 then answer (op_open mounted path hs)
    else if op =? 2 then answer (op_read mounted arg1 arg2 hs)
    else if op =? 3 then answer (reply_status (vfs_error_to_errno NotSupported), hs)
    else if op =? 4 then answer (op_close arg1 hs)
    else (None, hs)
  else (None, hs).

Lemma reply_status_length z : length (reply_bytes (reply_status z)) = 144%nat.
Proof. unfold reply_bytes. by rewrite !length_app, !to_le_bytes_length. Qed.

Lemma serve_length mounted msg hs b hs' : serve mounted msg hs = (Some b, hs') -> length b = 144%nat.
Proof.
  unfold serve. destruct (Nat.leb _ _); [|done]. cbv zeta. repeat (case_match; try done); intros [= <- _].
  - unfold op_open, no_reply. repeat case_match; apply reply_status_length.
  - unfold op_read, no_reply. destruct (handle _ hs) as [h|]; [|apply reply_status_length].
    destruct mounted as [fs|]; [|apply reply_status_length].
    destruct (read_at _ _ _ _) as [d|] eqn:E; [|apply reply_status_length].
    unfold reply_bytes. cbn [r_status r_len r_data fst]. rewrite !length_app, !to_le_bytes_length, put_length, length_replicate; [done|].
    apply read_at_fits in E. unfold blen, DATA_LEN in *. rewrite length_replicate. lia.
  - apply reply_status_length.
  - unfold op_close. repeat case_match; apply reply_status_length.
Qed.
End server.
End Server.

Module FsService.
Import Client.

(** The answer has the size of the structure and its fields come back. *)
Lemma response_roundtrip r :
  length (data r) = FS_DATA_MAX -> - 2 ^ 63 <= status r < 2 ^ 63 -> 0 <= resp_len r < 2 ^ 64 ->
  length (response_bytes r) = RESPONSE_SIZE /\ response_of (response_bytes r) = r.
Proof.
  intros Hd Hs Hl. destruct r as [st ln d]. cbn [status resp_len data] in *. unfold response_bytes, response_of. cbn [status resp_len data].
  split; [by rewrite !length_app, !to_le_bytes_length, Hd|].
  rewrite take_app_length' by done. rewrite drop_app_length' by done.
  rewrite take_app_length' by done.
  rewrite app_assoc, drop_app_length' by done.
  rewrite take_ge by lia. rewrite !from_to_le_bytes. change (256 ^ Z.of_nat 8) with (2 ^ 64).
  f_equal; [|by rewrite Z.mod_small].
  unfold as_i64, i64_as_u64. unfold_u64. case_test; pose proof (Z.mod_pos_bound st (2 ^ 64)); change (2^64) with 18446744073709551616 in *; rewrite Zmod_mod in *.
  - destruct (Z.leb_spec 0 st); [by rewrite Z.mod_small by lia|].
    rewrite <-(Z_mod_plus_full st 1), Z.mod_small in * by lia. lia.
  - destruct (Z.leb_spec 0 st); [rewrite Z.mod_small in * by lia; lia|].
    rewrite <-(Z_mod_plus_full st 1), Z.mod_small in * by lia. lia.
Qed.

(** What a sender of a message to the service gets back: its answer, cut to the
    response buffer, or the error of the timed receive. *)
Definition exchange_with {F} `{!Server.FileSystem F} (mounted : option F) (hs : Server.Handles) (msg : bytes) : result bytes Z :=
  match (Server.serve mounted msg hs).1 with
  | Some b => Ok (take RESPONSE_SIZE b)
  | None => Err EIO
  end.

Lemma service_request_rejected {F} `{!Server.FileSystem F} (mounted : option F) hs req :
  fs_service_request (exchange_with mounted hs) req = Err EIO.
Proof.
  unfold fs_service_request, exchange_with. destruct (Server.serve _ _ _) as [[b|] hs'] eqn:E; cbn [fst]; [|done].
  apply Server.serve_length in E. rewrite length_take, E. done.
Qed.

(** The stream loop: enough rounds, and exactly the announced bytes. *)
Lemma stream_loop_total recv rounds k total out :
  (forall i n b, recv i n = Ok b -> blen b <= n) -> blen out <= total -> total - blen out <= Z.of_nat rounds ->
  match stream_loop recv rounds k total out with
  | Ok r => blen r = total /\ take (length out) r = out
  | Err _ => True
  end.
Proof.
  intros Hr. revert k out. induction rounds as [|rounds IH]; intros k out Ho Hn; cbn [stream_loop]; case_test; try lia.
  - split; [lia|]. by rewrite take_ge.
  - split; [lia|]. by rewrite take_ge.
  - destruct (recv k _) as [b|] eqn:E; [|done]. destruct (Nat.eqb_spec (length b) 0); [done|].
    apply Hr in E. unfold IPC_MAX_MSG_SIZE in E.
    assert (blen (out ++ b) = blen out + blen b) as Hl by (unfold blen; rewrite length_app; lia).
    specialize (IH (S k) (out ++ b)). rewrite Hl in IH.
    destruct (stream_loop _ _ _ _ _) as [r|]; [|done].
    destruct IH as [? Ht]; [unfold blen in *; lia|unfold blen in *; lia|]. split; [done|].
    rewrite <-(take_app_length out b) at 2. rewrite <-Ht, take_take. f_equal. rewrite length_app. lia.
Qed.
End FsService.
