(* ===== verification/FsModule.v ===== *)
(** The file-system module: [src/modules/fs/src/main.rs].

    A read-only ext2 driver over an ATA disk, with caches of blocks, inodes and
    resolved paths.  The disk and the DMA engine are parameters: what a read of a
    sector (or of a block) delivers.  Operations are state transformers over the
    module's statics; [None] is a panic (a slice index out of range).  The module
    is built in release mode, so [u32] sums wrap.  The tests for null pointers at
    the entry points are left out: the kernel passes addresses of its own. *)

From Stdlib Require Import ZArith Lia.
From stdpp Require Import base list option numbers.
From S2P Require Import Prelude State Types UserMem Bytes.
Import Bytes.

Local Open Scope Z_scope.

Module FsModule.

Definition EXT2_MAGIC : Z := 61267.
Definition BLOCK_CACHE_SLOTS : nat := 64.
Definition INODE_CACHE_SLOTS : nat := 128.
Definition PATH_CACHE_SLOTS : nat := 128.
Definition PATH_CACHE_MAX : nat := 192.

Definition wrap32 (x : Z) : Z := x mod 2 ^ 32.
Definition saturating32 (x : Z) : Z := Z.min x (2 ^ 32 - 1).

(** [\[0u8; n\]] *)
Definition zeros (n : Z) : bytes := replicate (Z.to_nat n) 0.

Record FsMount := mkMount {
  drive : Z;
  block_size : Z;
  sectors_per_block : Z;
  inode_size : Z;
  inodes_per_group : Z;
  gdt_block : Z;
}.

Record BlockCacheEntry := mkBlock { b_valid : bool; b_drive : Z; b_num : Z; b_data : bytes }.
Record InodeCacheEntry := mkInode { i_valid : bool; i_drive : Z; i_num : Z; i_data : bytes }.
Record PathCacheEntry := mkPath { p_valid : bool; p_drive : Z; p_len : nat; p_hash : Z; p_inode : Z; p_path : bytes }.

Definition empty_block : BlockCacheEntry := mkBlock false 0 0 (zeros 4096).
Definition empty_inode : InodeCacheEntry := mkInode false 0 0 (zeros 256).
Definition empty_path : PathCacheEntry := mkPath false 0 0 0 0 (zeros (Z.of_nat PATH_CACHE_MAX)).

(** The statics.  Of the shared buffers only [READ_INODE_IBLK] can be read past
    what the last block read stored in it; the others are local here. *)
Record FsState := mkState {
  mount : option FsMount;
  blocks : list BlockCacheEntry;
  block_cursor : nat;
  inodes : list InodeCacheEntry;
  inode_cursor : nat;
  paths : list PathCacheEntry;
  path_cursor : nat;
  iblk : bytes;
}.

Definition boot : FsState :=
  mkState None (replicate BLOCK_CACHE_SLOTS empty_block) 0 (replicate INODE_CACHE_SLOTS empty_inode) 0
    (replicate PATH_CACHE_SLOTS empty_path) 0 (zeros 4096).

Definition FM := ST FsState.

(** FNV-1a *)
Definition path_hash (b : bytes) : Z := foldl (fun h x => wrapping_mul64 (Z.lxor h x) 1099511628211) 14695981039346656037 b.

Definition reset_caches (s : FsState) : FsState :=
  mkState (mount s)
    ((fun e => mkBlock false (b_drive e) (b_num e) (b_data e)) <$> blocks s) 0
    ((fun e => mkInode false (i_drive e) (i_num e) (i_data e)) <$> inodes s) 0
    ((fun e => mkPath false (p_drive e) (p_len e) (p_hash e) (p_inode e) (p_path e)) <$> paths s) 0 (iblk s).

(** [dst\[..n\].copy_from_slice(&src\[..n\])] panics when either is shorter. *)
Definition copy_prefix {S} (n : Z) (src dst : bytes) : ST S bytes :=
  if (n <=? blen src) && (n <=? blen dst) then mret (put dst 0 (take (Z.to_nat n) src)) else undefined.

(** ** The caches *)

Definition set_blocks (l : list BlockCacheEntry) (c : nat) (s : FsState) : FsState :=
  mkState (mount s) l c (inodes s) (inode_cursor s) (paths s) (path_cursor s) (iblk s).
Definition set_inodes (l : list InodeCacheEntry) (c : nat) (s : FsState) : FsState :=
  mkState (mount s) (blocks s) (block_cursor s) l c (paths s) (path_cursor s) (iblk s).
Definition set_paths (l : list PathCacheEntry) (c : nat) (s : FsState) : FsState :=
  mkState (mount s) (blocks s) (block_cursor s) (inodes s) (inode_cursor s) l c (iblk s).
Definition set_iblk (b : bytes) (s : FsState) : FsState :=
  mkState (mount s) (blocks s) (block_cursor s) (inodes s) (inode_cursor s) (paths s) (path_cursor s) b.

Definition block_hit (d n : Z) (e : BlockCacheEntry) : bool := b_valid e && (b_drive e =? d) && (b_num e =? n).

(** [Some out] is [true] with the block copied to [out]. *)
Definition block_cache_lookup (d n : Z) (out : bytes) (bs : Z) : FM (option bytes) := fun s =>
  match List.find (block_hit d n) (blocks s) with
  | Some e => (Some <$> copy_prefix bs (b_data e) out) s
  | None => Some (None, s)
  end.

Definition block_cache_insert (d n : Z) (data : bytes) (bs : Z) : FM unit := fun s =>
  let slot := (block_cursor s mod BLOCK_CACHE_SLOTS)%nat in
  let cursor := ((block_cursor s + 1) mod BLOCK_CACHE_SLOTS)%nat in
  match blocks s !! slot with
  | None => None
  | Some ent =>
      match copy_prefix bs data (b_data ent) s with
      | None => None
      | Some (new, _) => Some (tt, set_blocks (<[slot:=mkBlock true d n new]> (blocks s)) cursor s)
      end
  end.

Definition inode_hit (d n : Z) (e : InodeCacheEntry) : bool := i_valid e && (i_drive e =? d) && (i_num e =? n).

Definition inode_cache_lookup (d n : Z) (out : bytes) (isz : Z) : FM (option bytes) := fun s =>
  match List.find (inode_hit d n) (inodes s) with
  | Some e => (Some <$> copy_prefix isz (i_data e) out) s
  | None => Some (None, s)
  end.

Definition inode_cache_insert (d n : Z) (ino : bytes) (isz : Z) : FM unit := fun s =>
  let slot := (inode_cursor s mod INODE_CACHE_SLOTS)%nat in
  let cursor := ((inode_cursor s + 1) mod INODE_CACHE_SLOTS)%nat in
  match inodes s !! slot with
  | None => None
  | Some ent =>
      match copy_prefix isz ino (i_data ent) s with
      | None => None
      | Some (new, _) => Some (tt, set_inodes (<[slot:=mkInode true d n new]> (inodes s)) cursor s)
      end
  end.

Definition path_hit (d : Z) (path : bytes) (e : PathCacheEntry) : bool :=
  p_valid e && (p_drive e =? d) && (p_hash e =? path_hash path) &&
  Nat.eqb (p_len e) (length path) && bool_decide (take (p_len e) (p_path e) = path).

Definition path_cache_lookup (d : Z) (path : bytes) : FM (option Z) := fun s =>
  if Nat.ltb PATH_CACHE_MAX (length path) then Some (None, s)
  else Some (p_inode <$> List.find (path_hit d path) (paths s), s).

Definition path_cache_insert (d : Z) (path : bytes) (ino : Z) : FM unit := fun s =>
  if Nat.ltb PATH_CACHE_MAX (length path) then Some (tt, s)
  else
    let slot := (path_cursor s mod PATH_CACHE_SLOTS)%nat in
    let cursor := ((path_cursor s + 1) mod PATH_CACHE_SLOTS)%nat in
    match paths s !! slot with
    | None => None
    | Some ent =>
        match copy_prefix (blen path) path (p_path ent) s with
        | None => None
        | Some (new, _) =>
            Some (tt, set_paths (<[slot:=mkPath true d (length path) (path_hash path) ino new]> (paths s)) cursor s)
        end
    end.

(** ** The disk *)

(** The command registers of a read: drive and head, then the address bytes. *)
Record TaskFile := mkTask { head : Z; lba_low : Z; lba_mid : Z; lba_high : Z }.
Definition task_file (d lba : Z) : TaskFile :=
  mkTask (Z.lor (Z.lor 224 (Z.shiftl (Z.land d 1) 4)) (Z.land (Z.shiftr lba 24) 15))
    (Z.land lba 255) (Z.land (Z.shiftr lba 8) 255) (Z.land (Z.shiftr lba 16) 255).

(** What the hardware does with a command: the words of a sector read by port
    input, or the bytes of a block read by DMA; [None] when it fails (for DMA also
    when there is no bus master or no usable buffer). *)
Record Device := mkDevice {
  pio_words : TaskFile -> option (nat -> Z);
  dma_bytes : TaskFile -> Z -> option (nat -> Z);
}.

Section device.
Context (dev : Device).

Definition read_sector_ata (d lba : Z) : option bytes :=
  match pio_words dev (task_file d lba) with
  | Some w => Some (seq 0 256 ≫= fun i => to_le_bytes 2 (w i))
  | None => None
  end.

Definition read_fs_block_dma (m : FsMount) (n bs : Z) : option bytes :=
  if (sectors_per_block m =? 0) || (8 <? sectors_per_block m) then None
  else
    let lba := saturating32 (n * sectors_per_block m) in
    match dma_bytes dev (task_file (drive m) lba) (sectors_per_block m) with
    | Some f => Some (f <$> seq 0 (Z.to_nat bs))
    | None => None
    end.

(** The sector loop of [read_fs_block]: [false] and what was stored so far when a
    sector cannot be read. *)
Fixpoint read_sectors (m : FsMount) (n : Z) (i k : nat) (out : bytes) : bool * bytes :=
  match k with
  | O => (true, out)
  | S k =>
      let lba := saturating32 (saturating32 (n * sectors_per_block m) + Z.of_nat i) in
      match read_sector_ata (drive m) lba with
      | None => (false, out)
      | Some sec => read_sectors m n (S i) k (put out (i * 512) sec)
      end
  end.

Definition read_fs_block (m : FsMount) (n : Z) (out : bytes) : FM (bool * bytes) :=
  let bs := block_size m in
  if blen out <? bs then mret (false, out)
  else
    hit ← block_cache_lookup (drive m) n out bs;
    match hit with
    | Some out => mret (true, out)
    | None =>
        match read_fs_block_dma m n bs with
        | Some b =>
            out ← copy_prefix bs b out;
            block_cache_insert (drive m) n out bs ≫= fun _ => mret (true, out)
        | None =>
            let '(ok, out) := read_sectors m n 0 (Z.to_nat (sectors_per_block m)) out in
            if ok then block_cache_insert (drive m) n out bs ≫= fun _ => mret (true, out)
            else mret (false, out)
        end
    end.

(** A block read to a buffer of its own: what it holds below [block_size]. *)
Definition fs_block (m : FsMount) (n : Z) : FM (option bytes) :=
  '(ok, out) ← read_fs_block m n (zeros 4096);
  mret (if (ok : bool) then Some (take (Z.to_nat (block_size m)) out) else None).

(** [read_u16], [read_u32] *)
Definition read_u16 (b : bytes) (off : Z) : option Z := from_le_bytes <$> get_range b off 2.
Definition read_u32 (b : bytes) (off : Z) : option Z := from_le_bytes <$> get_range b off 4.

Definition probe_ext2_drive (d : Z) : option FsMount :=
  match read_sector_ata d 2, read_sector_ata d 3 with
  | Some s2, Some s3 =>
      let sb := s2 ++ s3 in
      magic ← read_u16 sb 56;
      if negb (magic =? EXT2_MAGIC) then None
      else
        log_block_size ← read_u32 sb 24;
        if 2 <? log_block_size then None
        else
          let bs := Z.shiftl 1024 log_block_size in
          if (bs <? 1024) || negb (bs mod 512 =? 0) then None
          else
            let isz := default 128 (read_u16 sb 88) in
            ipg ← read_u32 sb 40;
            if ipg =? 0 then None
            else Some (mkMount d bs (bs / 512) isz ipg (if bs =? 1024 then 2 else 1))
  | _, _ => None
  end.

(** ** Inodes *)

(** [read_inode] after a miss: the descriptor of the group, then the inode in its
    table; [out] is the caller's zeroed buffer. *)
Definition load_inode (m : FsMount) (n : Z) : FM (option bytes) :=
  let isz := inode_size m in
  let bs := block_size m in
  let group := (n - 1) / inodes_per_group m in
  let index := (n - 1) mod inodes_per_group m in
  let gdt_entry_off := group * 32 in
  gdt ← fs_block m (wrap32 (gdt_block m + wrap32 (gdt_entry_off / bs)));
  match gdt with
  | None => mret None
  | Some gdt =>
      match read_u32 gdt (gdt_entry_off mod bs + 8) with
      | None => mret None
      | Some inode_table =>
          let inode_off := index * isz in
          let off := inode_off mod bs in
          old ← (fun s => Some (iblk s, s));
          '(ok, buf) ← read_fs_block m (wrap32 (inode_table + wrap32 (inode_off / bs))) old;
          smodify (set_iblk buf) ≫= fun _ =>
          if negb ok then mret None
          else if (blen buf <? off + isz) || (256 <? isz) then mret None
          else mret (Some (put (zeros 256) 0 (take (Z.to_nat isz) (drop (Z.to_nat off) buf))))
      end
  end.

Definition read_inode (m : FsMount) (n : Z) : FM (option bytes) :=
  if (n =? 0) || (inodes_per_group m =? 0) then mret None
  else
    hit ← inode_cache_lookup (drive m) n (zeros 256) (inode_size m);
    match hit with
    | Some ino => mret (Some ino)
    | None =>
        r ← load_inode m n;
        match r with
        | None => mret None
        | Some ino => inode_cache_insert (drive m) n ino (inode_size m) ≫= fun _ => mret (Some ino)
        end
    end.

Definition inode_mode (ino : bytes) : Z := default 0 (read_u16 ino 0).
Definition inode_length (ino : bytes) : Z := default 0 (read_u32 ino 4).
Definition inode_block (ino : bytes) (i : Z) : Z := default 0 (read_u32 ino (40 + i * 4)).
Definition is_dir (mode : Z) : bool := Z.land mode 61440 =? 16384.

Definition read_data_block_num (m : FsMount) (ino : bytes) (block_idx : Z) : FM (option Z) :=
  let some n := if n =? 0 then None else Some n in
  if block_idx <? 12 then mret (some (inode_block ino block_idx))
  else
    let idx := block_idx - 12 in
    if block_size m / 4 <=? idx then mret None
    else
      let indirect := inode_block ino 12 in
      if indirect =? 0 then mret None
      else
        b ← fs_block m indirect;
        mret (match b with
              | None => None
              | Some b => match read_u32 b (idx * 4) with None => None | Some n => some n end
              end).

(** ** Directories *)

(** The [while off + 8 <= block_size] loop of [lookup_child].  Every round that goes
    on moves [off] forward, so a block of [bs] bytes takes at most [bs] rounds. *)
Fixpoint lookup_scan (fuel : nat) (blk : bytes) (bs : Z) (name : bytes) (off : Z) : option (option Z) :=
  match fuel with
  | O => Some None
  | S fuel =>
      if off + 8 <=? bs then
        ino ← read_u32 blk off;
        rec_len ← read_u16 blk (off + 4);
        nlen ← get blk (off + 6);
        if (rec_len =? 0) || (bs <? off + rec_len) then Some None
        else if negb (ino =? 0) && (0 <? nlen) && (off + 8 + nlen <=? bs) &&
                bool_decide (get_range blk (off + 8) nlen = Some name)
        then Some (Some ino)
        else lookup_scan fuel blk bs name (off + rec_len)
      else Some None
  end.

Fixpoint lookup_blocks (m : FsMount) (ino name : bytes) (bi : Z) (k : nat) : FM (option Z) :=
  match k with
  | O => mret None
  | S k =>
      bnum ← read_data_block_num m ino bi;
      match bnum with
      | None => mret None
      | Some bnum =>
          blk ← fs_block m bnum;
          match blk with
          | None => mret None
          | Some blk =>
              match lookup_scan (Z.to_nat (block_size m)) blk (block_size m) name 0 with
              | None => mret None
              | Some (Some n) => mret (Some n)
              | Some None => lookup_blocks m ino name (bi + 1) k
              end
          end
      end
  end.

(** [dir_size.div_ceil(block_size)] *)
Definition block_count (m : FsMount) (ino : bytes) : nat :=
  Z.to_nat ((inode_length ino + block_size m - 1) / block_size m).

Definition lookup_child (m : FsMount) (dir : Z) (name : bytes) : FM (option Z) :=
  r ← read_inode m dir;
  match r with
  | None => mret None
  | Some ino => if is_dir (inode_mode ino) then lookup_blocks m ino name 0 (block_count m ino) else mret None
  end.

(** ** Paths *)

Definition DOT : bytes := [46].
Definition DOTDOT : bytes := [46; 46].

(** The bytes before the next slash. *)
Fixpoint until_slash (b : bytes) : bytes :=
  match b with
  | x :: b => if x =? 47 then [] else x :: until_slash b
  | [] => []
  end.

(** The loop of [resolve_path_inode]: slashes are skipped, then a segment taken. *)
Fixpoint resolve_loop (fuel : nat) (m : FsMount) (cur : Z) (rest : bytes) : FM (option Z) :=
  match fuel with
  | O => mret (Some cur)
  | S fuel =>
      let rest := trim_start 47 rest in
      match rest with
      | [] => mret (Some cur)
      | _ =>
          let seg := until_slash rest in
          let rest := drop (length seg) rest in
          if bool_decide (seg = []) || bool_decide (seg = DOT) || bool_decide (seg = DOTDOT)
          then resolve_loop fuel m cur rest
          else
            next ← lookup_child m cur seg;
            match next with
            | None => mret None
            | Some cur => resolve_loop fuel m cur rest
            end
      end
  end.

Definition walk_path (m : FsMount) (path : bytes) : FM (option Z) := resolve_loop (length path) m 2 path.

Definition resolve_path_inode (m : FsMount) (path : bytes) : FM (option Z) :=
  hit ← path_cache_lookup (drive m) path;
  match hit with
  | Some ino => mret (Some ino)
  | None =>
      r ← walk_path m path;
      match r with
      | None => mret None
      | Some cur => path_cache_insert (drive m) path cur ≫= fun _ => mret (Some cur)
      end
  end.

(** ** File contents *)

(** The [while done < to_read] loop: each round stores at least a byte. *)
Fixpoint range_loop (fuel : nat) (m : FsMount) (ino : bytes) (offset to_read : Z) (acc : bytes) : FM (option bytes) :=
  match fuel with
  | O => mret (Some acc)
  | S fuel =>
      if blen acc <? to_read then
        let file_off := offset + blen acc in
        let boff := file_off mod block_size m in
        bnum ← read_data_block_num m ino (file_off / block_size m);
        match bnum with
        | None => mret None
        | Some bnum =>
            blk ← fs_block m bnum;
            match blk with
            | None => mret None
            | Some blk =>
                let n := Z.min (block_size m - boff) (to_read - blen acc) in
                range_loop fuel m ino offset to_read (acc ++ take (Z.to_nat n) (drop (Z.to_nat boff) blk))
            end
        end
      else mret (Some acc)
  end.

(** The bytes stored in a buffer of [len] bytes. *)
Definition read_inode_range (m : FsMount) (n offset len : Z) : FM (option bytes) :=
  r ← read_inode m n;
  match r with
  | None => mret None
  | Some ino =>
      let size := inode_length ino in
      if size <=? offset then mret (Some [])
      else
        let to_read := Z.min len (size - offset) in
        range_loop (Z.to_nat to_read) m ino offset to_read []
  end.

(** ** The operations offered to the kernel *)

Definition the_mount : FM (option FsMount) := fun s => Some (mount s, s).

(** One leading slash is dropped. *)
Definition strip_slash (raw : bytes) : bytes := match raw with x :: b => if x =? 47 then b else raw | [] => [] end.

Definition read_path_inode (path : bytes) : FM (option Z) :=
  m ← the_mount;
  match m with
  | None => mret None
  | Some m => resolve_path_inode m (strip_slash path)
  end.

(** The result of an operation: its code, and what it stored. *)
Definition with_inode {A} (path : bytes) (nothing : A) (f : FsMount -> Z -> FM (Z * A)) : FM (Z * A) :=
  r ← read_path_inode path;
  m ← the_mount;
  match r, m with
  | None, Some _ => mret (-2, nothing)
  | None, None => mret (-5, nothing)
  | Some _, None => mret (-5, nothing)
  | Some n, Some m => f m n
  end.

Definition fs_read (path : bytes) (offset len : Z) : FM (Z * bytes) :=
  with_inode path [] (fun m n =>
    r ← read_inode_range m n offset len;
    mret (match r with Some b => (0, b) | None => (-5, []) end)).

Definition fs_stat (path : bytes) : FM (Z * (Z * Z)) :=
  with_inode path (0, 0) (fun m n =>
    r ← read_inode m n;
    mret (match r with Some ino => (0, (inode_mode ino, inode_length ino)) | None => (-5, (0, 0)) end)).

(** The record loop of [fs_readdir]: [inl] when the buffer is full and the call
    ends, [inr] with what is written so far at the end of the block. *)
Fixpoint readdir_scan (fuel : nat) (blk : bytes) (bs cap off : Z) (out : bytes) : bytes + bytes :=
  match fuel with
  | O => inr out
  | S fuel =>
      if off + 8 <=? bs then
        match read_u32 blk off, read_u16 blk (off + 4), get blk (off + 6) with
        | Some ino, Some rec_len, Some nlen =>
            if (rec_len =? 0) || (bs <? off + rec_len) then inr out
            else
              let nm := default [] (get_range blk (off + 8) nlen) in
              if negb (ino =? 0) && (0 <? nlen) && (off + 8 + nlen <=? bs) && negb (bool_decide (nm = DOT)) && negb (bool_decide (nm = DOTDOT))
              then
                let need := nlen + (if blen out =? 0 then 0 else 1) in
                if cap <? blen out + need then inl out
                else
                  let out := if blen out =? 0 then out else out ++ [10] in
                  readdir_scan fuel blk bs cap (off + rec_len) (out ++ nm)
              else readdir_scan fuel blk bs cap (off + rec_len) out
        | _, _, _ => inr out
        end
      else inr out
  end.

Fixpoint readdir_blocks (m : FsMount) (ino : bytes) (cap bi : Z) (k : nat) (out : bytes) : FM (Z * bytes) :=
  match k with
  | O => mret (0, out)
  | S k =>
      bnum ← read_data_block_num m ino bi;
      match bnum with
      | None => mret (-5, [])
      | Some bnum =>
          blk ← fs_block m bnum;
          match blk with
          | None => mret (-5, [])
          | Some blk =>
              match readdir_scan (Z.to_nat (block_size m)) blk (block_size m) cap 0 out with
              | inl out => mret (0, out)
              | inr out => readdir_blocks m ino cap (bi + 1) k out
              end
          end
      end
  end.

Definition fs_readdir (path : bytes) (cap : Z) : FM (Z * bytes) :=
  with_inode path [] (fun m n =>
    r ← read_inode m n;
    match r with
    | None => mret (-5, [])
    | Some ino =>
        if negb (is_dir (inode_mode ino)) then mret (-20, [])
        else readdir_blocks m ino cap 0 (block_count m ino) []
    end).
End device.

Definition set_mount (m : FsMount) (s : FsState) : FsState :=
  mkState (Some m) (blocks s) (block_cursor s) (inodes s) (inode_cursor s) (paths s) (path_cursor s) (iblk s).

(** [fs_mount]: the disks as they are at each of the 16 attempts; the slave first. *)
Fixpoint mount_loop (attempts : list Device) : FM Z :=
  match attempts with
  | [] => mret (-5)
  | dev :: rest =>
      match probe_ext2_drive dev 1 with
      | Some m => smodify (fun s => set_mount m (reset_caches s)) ≫= fun _ => mret 0
      | None =>
          match probe_ext2_drive dev 0 with
          | Some m => smodify (fun s => set_mount m (reset_caches s)) ≫= fun _ => mret 0
          | None => mount_loop rest
          end
      end
  end.

Definition fs_mount (dev_at : nat -> Device) : FM Z := mount_loop (dev_at <$> seq 0 16).
End FsModule.
