(* ===== verification/FsModuleProps.v ===== *)
(** The caches of the file-system module are transparent, and reads return the
    contents of files. *)

From Stdlib Require Import ZArith Lia.
From stdpp Require Import base list option numbers.
From S2P Require Import Prelude State Types UserMem Bytes FsModule.
Import Bytes FsModule.

Local Open Scope Z_scope.

Module FsModuleProps.

Create HintDb det.

(** ** Buffers *)

Lemma zeros_length n : 0 <= n -> blen (zeros n) = n.
Proof. intros. unfold blen, zeros. rewrite length_replicate. lia. Qed.
#[local] Hint Resolve zeros_length : core.
#[local] Opaque zeros.

Lemma put_0 dst bs : put dst 0 bs = bs ++ drop (length bs) dst.
Proof. unfold put. by rewrite take_0. Qed.

Lemma take_put dst n bs : length bs = n -> take n (put dst 0 bs) = bs.
Proof. intros <-. rewrite put_0. by rewrite take_app_length. Qed.

Lemma blen_put (dst bs : bytes) : blen bs <= blen dst -> blen (put dst 0 bs) = blen dst.
Proof. intros. unfold blen in *. rewrite put_length; lia. Qed.

Lemma copy_prefix_ok {S} n src dst (s : S) :
  0 <= n -> n <= blen src -> n <= blen dst ->
  copy_prefix n src dst s = Some (put dst 0 (take (Z.to_nat n) src), s).
Proof. intros. unfold copy_prefix. by rewrite !(proj2 (Z.leb_le _ _)) by done. Qed.

Lemma put_take_length n (src dst : bytes) :
  0 <= n -> n <= blen src -> n <= blen dst -> blen (put dst 0 (take (Z.to_nat n) src)) = blen dst.
Proof. intros. unfold blen in *. rewrite put_length; [done|]. rewrite length_take. lia. Qed.

Lemma take_put_take n (src dst : bytes) :
  0 <= n -> n <= blen src -> take (Z.to_nat n) (put dst 0 (take (Z.to_nat n) src)) = take (Z.to_nat n) src.
Proof. intros. unfold blen in *. apply take_put. rewrite length_take. lia. Qed.

(** ** What the disk holds *)

Section mounted.
Context (dev : Device) (m : FsMount).
Notation bs := (block_size m).

(** The geometry that [probe_ext2_drive] establishes, and inodes that do not
    straddle blocks, as ext2 requires. *)
Record mount_wf : Prop := {
  wf_bs : bs = 1024 \/ bs = 2048 \/ bs = 4096;
  wf_spb : sectors_per_block m * 512 = bs;
  wf_isz : 0 < inode_size m;
  wf_fit : inode_size m <= 256 -> bs mod inode_size m = 0;
}.

Definition block_val (n : Z) : option bytes :=
  match read_fs_block_dma dev m n bs with
  | Some b => Some b
  | None =>
      let '(ok, out) := read_sectors dev m n 0 (Z.to_nat (sectors_per_block m)) (zeros 4096) in
      if ok then Some (take (Z.to_nat bs) out) else None
  end.

Definition fresh : FsState := set_mount m boot.

(** The value of an operation when nothing is cached. *)
Definition value {A} (f : FM (option A)) : option A := match f fresh with Some (r, _) => r | None => None end.

Definition inode_val (n : Z) : option bytes := value (load_inode dev m n).
Definition path_val (p : bytes) : option Z := value (walk_path dev m p).

Lemma sector_length d lba b : read_sector_ata dev d lba = Some b -> length b = 512%nat.
Proof.
  unfold read_sector_ata. destruct (pio_words _ _) as [w|]; [|done]. intros [= <-]. reflexivity.
Qed.

Lemma put_sector out i (sec : bytes) :
  length sec = 512%nat -> ((i + 1) * 512 <= length out)%nat ->
  take ((i + 1) * 512) (put out (i * 512) sec) = take (i * 512) out ++ sec.
Proof.
  intros Hs Hl. unfold put. rewrite app_assoc. rewrite take_app_length'; [done|]. rewrite length_app, length_take, Hs. lia.
Qed.

(** The sector loop fills the block, whatever the buffer held before. *)
Lemma read_sectors_spec n k i out1 out2 :
  length out1 = length out2 -> ((i + k) * 512 <= length out1)%nat -> take (i * 512) out1 = take (i * 512) out2 ->
  let '(ok1, r1) := read_sectors dev m n i k out1 in
  let '(ok2, r2) := read_sectors dev m n i k out2 in
  ok1 = ok2 /\ length r1 = length out1 /\ (ok1 = true -> take ((i + k) * 512) r1 = take ((i + k) * 512) r2).
Proof.
  revert i out1 out2. induction k as [|k IH]; intros i out1 out2 Hl Hb Heq; cbn [read_sectors].
  - rewrite Nat.add_0_r in *. done.
  - destruct (read_sector_ata _ _ _) as [sec|] eqn:Es; [|done]. apply sector_length in Es as Hs.
    pose proof (put_sector out1 i sec Hs) as T1. pose proof (put_sector out2 i sec Hs) as T2.
    specialize (IH (S i) (put out1 (i * 512) sec) (put out2 (i * 512) sec)).
    rewrite !put_length in IH by lia. replace (S i + k)%nat with (i + S k)%nat in IH by lia.
    apply IH; [done|done|]. replace (S i * 512)%nat with ((i + 1) * 512)%nat by lia. by rewrite T1, T2, Heq by lia.
Qed.

(** ** Coherent caches *)

Definition block_ok (e : BlockCacheEntry) : Prop :=
  blen (b_data e) = 4096 /\
  (b_valid e = true -> b_drive e = drive m -> block_val (b_num e) = Some (take (Z.to_nat bs) (b_data e))).

Definition inode_ok (e : InodeCacheEntry) : Prop :=
  blen (i_data e) = 256 /\
  (i_valid e = true -> i_drive e = drive m ->
   inode_size m <= 256 /\ inode_val (i_num e) = Some (put (zeros 256) 0 (take (Z.to_nat (inode_size m)) (i_data e)))).

Definition path_ok (e : PathCacheEntry) : Prop :=
  length (p_path e) = PATH_CACHE_MAX /\
  (p_valid e = true -> p_drive e = drive m -> path_val (take (p_len e) (p_path e)) = Some (p_inode e)).

Record coherent (s : FsState) : Prop := {
  coh_mount : mount s = Some m;
  coh_blocks : Forall block_ok (blocks s);
  coh_inodes : Forall inode_ok (inodes s);
  coh_paths : Forall path_ok (paths s);
  coh_nblocks : length (blocks s) = BLOCK_CACHE_SLOTS;
  coh_ninodes : length (inodes s) = INODE_CACHE_SLOTS;
  coh_npaths : length (paths s) = PATH_CACHE_SLOTS;
  coh_iblk : blen (iblk s) = 4096;
}.

Lemma coherent_fresh : coherent fresh.
Proof.
  split; try done; try apply length_replicate; try apply zeros_length; apply Forall_replicate; split; try done; apply zeros_length.
Qed.

(** [f] has the result [a] in every coherent state, and leaves a coherent one. *)
Definition computes {A} (f : FM A) (a : A) : Prop := forall s, coherent s -> exists s', f s = Some (a, s') /\ coherent s'.
Definition det {A} (f : FM A) : Prop := exists a, computes f a.

Lemma computes_ret {A} (a : A) : computes (mret a) a.
Proof. intros s Hs. by exists s. Qed.

Lemma computes_bind {A B} (f : FM A) (k : A -> FM B) a b : computes f a -> computes (k a) b -> computes (f ≫= k) b.
Proof.
  intros Hf Hk s Hs. destruct (Hf s Hs) as (s1 & E & H1). destruct (Hk s1 H1) as (s2 & E2 & H2).
  exists s2. by rewrite (st_bind_eq _ _ _ _ _ E).
Qed.

Lemma det_ret {A} (a : A) : det (mret a).
Proof. eexists. apply computes_ret. Qed.

Lemma det_bind {A B} (f : FM A) (k : A -> FM B) : det f -> (forall a, det (k a)) -> det (f ≫= k).
Proof. intros [a Hf] Hk. destruct (Hk a) as [b Hb]. exists b. by eapply computes_bind. Qed.

Lemma computes_unique {A} (f : FM A) a b : computes f a -> computes f b -> a = b.
Proof.
  intros Ha Hb. destruct (Ha fresh coherent_fresh) as (s1 & E1 & _), (Hb fresh coherent_fresh) as (s2 & E2 & _). congruence.
Qed.

Lemma det_value {A} (f : FM (option A)) : det f -> computes f (value f).
Proof.
  intros [a Ha]. assert (value f = a) as ->; [|done]. unfold value.
  by destruct (Ha fresh coherent_fresh) as (s' & -> & _).
Qed.

Ltac det_step :=
  match goal with
  | |- det (mret _) => apply det_ret
  | |- det (mbind _ _) => apply det_bind; [|intros ?]
  | |- det (match ?x with _ => _ end) => destruct x
  | |- det (let _ := _ in _) => cbv zeta
  end.
Ltac solve_det := repeat det_step; eauto with det.

(** ** Blocks *)

Context (Hwf : mount_wf).

Lemma sectors_val n out :
  blen out = 4096 ->
  let '(ok, r) := read_sectors dev m n 0 (Z.to_nat (sectors_per_block m)) out in
  let '(ok0, r0) := read_sectors dev m n 0 (Z.to_nat (sectors_per_block m)) (zeros 4096) in
  ok = ok0 /\ blen r = 4096 /\ (ok = true -> take (Z.to_nat bs) r = take (Z.to_nat bs) r0).
Proof.
  intros Hl. destruct Hwf as [Hb Hs _ _].
  pose proof (zeros_length 4096 ltac:(lia)) as Hz.
  pose proof (read_sectors_spec n (Z.to_nat (sectors_per_block m)) 0 out (zeros 4096)) as H.
  destruct (read_sectors _ _ _ _ _ out) as [ok r], (read_sectors _ _ _ _ _ _) as [ok0 r0].
  replace ((0 + Z.to_nat (sectors_per_block m)) * 512)%nat with (Z.to_nat bs) in H by lia.
  unfold blen in *. destruct H as (-> & Hr & Ht); [lia|lia|done|]. split; [done|]. split; [lia|done].
Qed.

Lemma block_val_length n b : block_val n = Some b -> blen b = bs.
Proof.
  destruct Hwf as [Hb Hs _ _]. unfold block_val. destruct (read_fs_block_dma _ _ _ _) as [d|] eqn:E.
  - intros [= <-]. revert E. unfold read_fs_block_dma, blen. destruct (_ || _); [done|]. destruct (dma_bytes _ _ _); [|done].
    intros [= <-]. rewrite length_fmap, length_seq. lia.
  - pose proof (sectors_val n (zeros 4096) (zeros_length 4096 ltac:(lia))) as H. destruct (read_sectors _ _ _ _ _ _) as [ok r].
    destruct H as (_ & Hl & _). destruct ok; [|done]. intros [= <-]. unfold blen in *. rewrite length_take. lia.
Qed.

Lemma find_In {A} (f : A -> bool) (P : A -> Prop) l x : List.find f l = Some x -> Forall P l -> f x = true /\ P x.
Proof. intros [Hin Hf]%List.find_some Hp. split; [done|]. rewrite List.Forall_forall in Hp. by apply Hp. Qed.

Lemma slot_some {A} (l : list A) n c : length l = n -> (n <> 0)%nat -> exists x, l !! (c mod n)%nat = Some x.
Proof. intros Hl Hn. apply lookup_lt_is_Some. rewrite Hl. by apply Nat.mod_upper_bound. Qed.

Lemma block_insert n data s :
  coherent s -> blen data = 4096 -> block_val n = Some (take (Z.to_nat bs) data) ->
  exists s', block_cache_insert (drive m) n data bs s = Some (tt, s') /\ coherent s' /\ iblk s' = iblk s.
Proof.
  intros Hs Hd Hv. destruct Hwf as [Hb _ _ _]. unfold block_cache_insert.
  destruct (slot_some (blocks s) BLOCK_CACHE_SLOTS (block_cursor s)) as [e He]; [apply Hs|done|]. rewrite He.
  assert (block_ok e) as [Hl _] by (eapply Forall_lookup_1; [apply Hs|exact He]).
  rewrite copy_prefix_ok by (unfold blen in *; lia). eexists. split; [done|]. split; [|done].
  destruct Hs. split; cbn [mount blocks inodes paths iblk set_blocks]; try done; [|by rewrite length_insert].
  apply Forall_insert; [done|]. split; cbn [b_data b_valid b_drive b_num].
  - rewrite put_take_length by (unfold blen in *; lia). done.
  - intros _ _. rewrite take_put_take by (unfold blen in *; lia). done.
Qed.

Lemma read_fs_block_spec n out s :
  coherent s -> blen out = 4096 ->
  exists out' s', read_fs_block dev m n out s = Some ((bool_decide (is_Some (block_val n)), out'), s') /\
    coherent s' /\ iblk s' = iblk s /\ blen out' = 4096 /\
    (forall b, block_val n = Some b -> take (Z.to_nat bs) out' = b).
Proof.
  intros Hs Hl. destruct Hwf as [Hb _ _ _]. unfold read_fs_block. rewrite (proj2 (Z.ltb_ge _ _)) by (unfold blen in *; lia).
  unfold block_cache_lookup. destruct (List.find (block_hit (drive m) n) (blocks s)) as [e|] eqn:Ef.
  - destruct (find_In _ block_ok _ _ Ef (coh_blocks _ Hs)) as [Hh [He Hv]].
    unfold block_hit in Hh. rewrite !andb_true_iff, !Z.eqb_eq in Hh. destruct Hh as [[H1 H2] H3]. subst n. specialize (Hv H1 H2).
    unfold mbind, ST_bind, fmap, ST_fmap. rewrite Ef.
    rewrite copy_prefix_ok by (unfold blen in *; lia). rewrite Hv, bool_decide_true by eauto.
    do 2 eexists. split; [done|]. split; [done|]. split; [done|]. split; [rewrite put_take_length by (unfold blen in *; lia); done|].
    intros b [= <-]. apply take_put_take; unfold blen in *; lia.
  - unfold mbind at 1, ST_bind at 1. rewrite Ef. unfold block_val. destruct (read_fs_block_dma _ _ _ _) as [d|] eqn:Ed.
    + assert (blen d = bs) as Hdl by (apply (block_val_length n); unfold block_val; by rewrite Ed).
      unfold mbind at 1, ST_bind at 1. rewrite copy_prefix_ok by (unfold blen in *; lia).
      rewrite take_ge by (unfold blen in *; lia).
      destruct (block_insert n (put out 0 d) s) as (s' & E & H1 & H2); [done|rewrite blen_put by lia; done| |].
      { unfold block_val. rewrite Ed. f_equal. rewrite take_put; [done|]. unfold blen in *. lia. }
      rewrite (st_bind_eq _ _ _ _ _ E), bool_decide_true by eauto. do 2 eexists. split; [done|]. split; [done|]. split; [done|].
      split; [rewrite blen_put by lia; done|]. intros b [= <-]. apply take_put. unfold blen in *. lia.
    + pose proof (sectors_val n out Hl) as H. destruct (read_sectors _ _ _ _ _ out) as [ok r].
      destruct (read_sectors _ _ _ _ _ _) as [ok0 r0] eqn:E0. destruct H as (<- & Hr & Ht). destruct ok.
      * destruct (block_insert n r s) as (s' & E & H1 & H2); [done|done| |].
        { unfold block_val. rewrite Ed, E0. f_equal. symmetry. by apply Ht. }
        rewrite (st_bind_eq _ _ _ _ _ E), bool_decide_true by eauto. do 2 eexists. split; [done|]. split; [done|]. split; [done|].
        split; [done|]. intros b [= <-]. by apply Ht.
      * rewrite bool_decide_false by (intros [? ?]; done). do 2 eexists. split; [done|]. split; [done|]. split; [done|]. by split.
Qed.

Lemma computes_block n : computes (fs_block dev m n) (block_val n).
Proof.
  intros s Hs. destruct (read_fs_block_spec n (zeros 4096) s Hs (zeros_length 4096 ltac:(lia))) as (out & s' & E & H1 & _ & _ & H4).
  exists s'. split; [|done]. unfold fs_block. rewrite (st_bind_eq _ _ _ _ _ E). unfold mret, ST_ret. do 2 f_equal.
  case_bool_decide as Hv; [destruct Hv as [b Hb]; rewrite (H4 b Hb); done|]. by destruct (block_val n); [destruct Hv; eauto|].
Qed.

(** ** Inodes *)

Lemma inode_fits i : inode_size m <= 256 -> 0 <= (i * inode_size m) mod bs /\ (i * inode_size m) mod bs + inode_size m <= bs.
Proof.
  intros Hi. destruct Hwf as [Hb _ Hz Hf]. specialize (Hf Hi). split; [apply Z.mod_pos_bound; lia|].
  apply Z.mod_divide in Hf as [q Hq]; [|lia]. assert (0 < q) by nia. rewrite Hq.
  rewrite Z.mul_mod_distr_r by lia. pose proof (Z.mod_pos_bound i q). nia.
Qed.

Lemma take_drop_prefix n off k (l : bytes) : (off + n <= k)%nat -> take n (drop off (take k l)) = take n (drop off l).
Proof. intros. rewrite !take_drop_commute, take_take. do 2 f_equal. lia. Qed.

(** What is left of a block's inode. *)
Definition inode_of (off : Z) (b : bytes) : option bytes :=
  if 256 <? inode_size m then None
  else Some (put (zeros 256) 0 (take (Z.to_nat (inode_size m)) (drop (Z.to_nat off) b))).

Lemma coherent_iblk b s : coherent s -> blen b = 4096 -> coherent (set_iblk b s).
Proof. intros [] Hb. by split. Qed.

Lemma computes_load n : computes (load_inode dev m n) (inode_val n).
Proof.
  apply det_value. unfold load_inode. apply det_bind; [eexists; apply computes_block|]. intros [gdt|]; [|apply det_ret].
  destruct (read_u32 gdt _) as [tbl|]; [|apply det_ret]. set (off := ((n - 1) mod inodes_per_group m * inode_size m) mod bs).
  set (k := wrap32 (tbl + _)). exists (block_val k ≫= inode_of off). intros s Hs.
  unfold mbind at 1, ST_bind at 1. destruct (read_fs_block_spec k (iblk s) s Hs (coh_iblk _ Hs)) as (buf & s1 & E & H1 & _ & H3 & H4).
  rewrite (st_bind_eq _ _ _ _ _ E). exists (set_iblk buf s1). split; [|by apply coherent_iblk].
  unfold mbind at 1, ST_bind at 1, smodify. case_bool_decide as Hv; cbn [negb].
  - destruct Hv as [b Hb]. specialize (H4 b Hb). rewrite Hb. cbn [mbind option_bind]. unfold inode_of.
    destruct (Z.ltb_spec 256 (inode_size m)) as [Hi|Hi]; [by rewrite orb_true_r|].
    destruct (inode_fits ((n - 1) mod inodes_per_group m) Hi) as [F1 F2]. fold off in F1, F2. destruct Hwf as [Hbs _ Hz _].
    rewrite (proj2 (Z.ltb_ge _ _)) by lia. cbn [orb]. unfold mret, ST_ret. do 4 f_equal.
    rewrite <-H4, take_drop_prefix by lia. done.
  - by destruct (block_val k); [destruct Hv; eauto|].
Qed.

Lemma inode_val_shape n ino :
  inode_val n = Some ino ->
  inode_size m <= 256 /\ blen ino = 256 /\ ino = put (zeros 256) 0 (take (Z.to_nat (inode_size m)) ino).
Proof.
  destruct Hwf as [Hbs _ Hz _]. unfold inode_val, value. intros H. destruct (load_inode dev m n fresh) as [[r s']|] eqn:E; [|done]. subst r.
  revert E. unfold load_inode. intros (gdt & s1 & E1 & E)%st_bind_Some. destruct gdt as [gdt|]; [|done].
  destruct (read_u32 gdt _) as [tbl|]; [|done].
  apply st_bind_Some in E as (old & s2 & E2 & E). apply st_bind_Some in E as ([ok buf] & s3 & E3 & E).
  apply st_bind_Some in E as ([] & s4 & E4 & E). destruct ok; [|done]. cbn [negb] in E.
  destruct ((_ <? _) || _) eqn:Ho; [done|]. apply orb_false_iff in Ho as [Ho1 Ho2]. injection E as <- _.
  apply Z.ltb_ge in Ho1, Ho2. set (x := drop _ buf) in *.
  assert (inode_size m <= blen x) as Hx.
  { subst x. unfold blen in *. rewrite length_drop.
    pose proof (Z.mod_pos_bound ((n - 1) mod inodes_per_group m * inode_size m) bs ltac:(lia)). lia. }
  split; [done|]. pose proof (zeros_length 256 ltac:(lia)).
  split; [rewrite put_take_length by lia; done|]. by rewrite take_put_take by lia.
Qed.

Definition rd (n : Z) : option bytes := if (n =? 0) || (inodes_per_group m =? 0) then None else inode_val n.

Lemma computes_read_inode n : computes (read_inode dev m n) (rd n).
Proof.
  unfold read_inode, rd. destruct (_ || _); [apply computes_ret|]. intros s Hs. destruct Hwf as [_ _ Hz _].
  pose proof (zeros_length 256 ltac:(lia)) as Hzl.
  unfold inode_cache_lookup at 1. unfold mbind at 1, ST_bind at 1.
  destruct (List.find (inode_hit (drive m) n) (inodes s)) as [e|] eqn:Ef.
  - destruct (find_In _ inode_ok _ _ Ef (coh_inodes _ Hs)) as [Hh [He Hv]].
    unfold inode_hit in Hh. rewrite !andb_true_iff, !Z.eqb_eq in Hh. destruct Hh as [[H1 H2] H3]. subst n.
    destruct (Hv H1 H2) as [Hi Hv']. unfold fmap, ST_fmap. rewrite copy_prefix_ok by lia. rewrite Hv'. by exists s.
  - destruct (computes_load n s Hs) as (s1 & E & H1). rewrite (st_bind_eq _ _ _ _ _ E).
    destruct (inode_val n) as [ino|] eqn:Ei; [|by exists s1]. destruct (inode_val_shape n ino Ei) as (Hi & Hl & Hino).
    unfold mbind, ST_bind. unfold inode_cache_insert.
    destruct (slot_some (inodes s1) INODE_CACHE_SLOTS (inode_cursor s1)) as [e He]; [apply H1|done|]. rewrite He.
    assert (inode_ok e) as [Hle _] by (eapply Forall_lookup_1; [apply H1|exact He]).
    rewrite copy_prefix_ok by lia. eexists. split; [done|].
    destruct H1. split; cbn [mount blocks inodes paths iblk set_inodes]; try done; [|by rewrite length_insert].
    apply Forall_insert; [done|]. split; cbn [i_data i_valid i_drive i_num].
    + rewrite put_take_length by lia. done.
    + intros _ _. split; [done|]. rewrite take_put_take by lia. by rewrite <-Hino.
Qed.

(** ** Everything above inodes *)

Lemma det_block n : det (fs_block dev m n).
Proof. eexists. apply computes_block. Qed.
Lemma det_inode n : det (read_inode dev m n).
Proof. eexists. apply computes_read_inode. Qed.
#[local] Hint Resolve det_block det_inode : det.

Lemma det_data_block ino i : det (read_data_block_num dev m ino i).
Proof. unfold read_data_block_num. solve_det. Qed.
#[local] Hint Resolve det_data_block : det.

Lemma det_lookup_blocks ino name k bi : det (lookup_blocks dev m ino name bi k).
Proof. revert bi. induction k as [|k IH]; intros bi; cbn [lookup_blocks]; solve_det. Qed.
#[local] Hint Resolve det_lookup_blocks : det.

Lemma det_lookup_child dir name : det (lookup_child dev m dir name).
Proof. unfold lookup_child. solve_det. Qed.
#[local] Hint Resolve det_lookup_child : det.

Lemma det_resolve_loop fuel cur rest : det (resolve_loop dev fuel m cur rest).
Proof. revert cur rest. induction fuel as [|fuel IH]; intros cur rest; cbn [resolve_loop]; solve_det. Qed.

Lemma computes_walk p : computes (walk_path dev m p) (path_val p).
Proof. unfold path_val. apply det_value. unfold walk_path. apply det_resolve_loop. Qed.

Lemma path_insert p n s :
  coherent s -> path_val p = Some n -> exists s', path_cache_insert (drive m) p n s = Some (tt, s') /\ coherent s'.
Proof.
  intros Hs Hv. unfold path_cache_insert. destruct (Nat.ltb_spec PATH_CACHE_MAX (length p)); [by exists s|].
  destruct (slot_some (paths s) PATH_CACHE_SLOTS (path_cursor s)) as [e He]; [apply Hs|done|]. rewrite He.
  assert (path_ok e) as [Hl _] by (eapply Forall_lookup_1; [apply Hs|exact He]).
  rewrite copy_prefix_ok by (unfold blen in *; lia). eexists. split; [done|].
  replace (take (Z.to_nat (blen p)) p) with p by (symmetry; apply take_ge; unfold blen; lia).
  destruct Hs. split; cbn [mount blocks inodes paths iblk set_paths]; try done; [|by rewrite length_insert].
  apply Forall_insert; [done|]. split; cbn [p_path p_valid p_drive p_len p_inode].
  - rewrite put_length by lia. done.
  - intros _ _. by rewrite take_put.
Qed.

Lemma computes_resolve p : computes (resolve_path_inode dev m p) (path_val p).
Proof.
  intros s Hs. unfold resolve_path_inode.
  assert (exists o, path_cache_lookup (drive m) p s = Some (o, s) /\ (o = None \/ o = path_val p)) as (o & E & Ho).
  { unfold path_cache_lookup. destruct (Nat.ltb _ _); [eauto|]. destruct (List.find _ (paths s)) as [e|] eqn:Ef; [|eauto].
    destruct (find_In _ path_ok _ _ Ef (coh_paths _ Hs)) as [Hh [He Hv]].
    unfold path_hit in Hh. rewrite !andb_true_iff, !Z.eqb_eq, bool_decide_eq_true in Hh. destruct Hh as [[[[H1 H2] H3] H4] H5].
    eexists. split; [done|]. right. cbn. rewrite <-(Hv H1 H2), H5. done. }
  rewrite (st_bind_eq _ _ _ _ _ E). destruct o as [n|].
  - destruct Ho as [Ho|Ho]; [done|]. rewrite <-Ho. by exists s.
  - destruct (computes_walk p s Hs) as (s1 & E1 & H1). rewrite (st_bind_eq _ _ _ _ _ E1).
    destruct (path_val p) as [n|] eqn:Ep; [|by exists s1]. destruct (path_insert p n s1 H1 Ep) as (s2 & E2 & H2).
    rewrite (st_bind_eq _ _ _ _ _ E2). by exists s2.
Qed.

Lemma computes_mount : computes the_mount (Some m).
Proof. intros s Hs. exists s. split; [|done]. unfold the_mount. by rewrite (coh_mount _ Hs). Qed.

Lemma computes_path p : computes (read_path_inode dev p) (path_val (strip_slash p)).
Proof. unfold read_path_inode. eapply computes_bind; [apply computes_mount|]. apply computes_resolve. Qed.

Lemma det_with_inode {A} p (a : A) f : (forall n, det (f m n)) -> det (with_inode dev p a f).
Proof.
  intros Hf. unfold with_inode. apply det_bind; [eexists; apply computes_path|]. intros r.
  destruct r as [n|].
  - destruct (Hf n) as [b Hb]. exists b. by eapply computes_bind; [apply computes_mount|].
  - eexists. eapply computes_bind; [apply computes_mount|apply computes_ret].
Qed.

Lemma det_range_loop fuel ino off n acc : det (range_loop dev fuel m ino off n acc).
Proof. revert acc. induction fuel as [|fuel IH]; intros acc; cbn [range_loop]; solve_det. Qed.
#[local] Hint Resolve det_range_loop : det.

Lemma det_readdir_blocks ino cap bi k out : det (readdir_blocks dev m ino cap bi k out).
Proof. revert bi out. induction k as [|k IH]; intros bi out; cbn [readdir_blocks]; solve_det. Qed.
#[local] Hint Resolve det_readdir_blocks : det.

Lemma det_fs_read p off n : det (fs_read dev p off n).
Proof. apply det_with_inode. intros k. unfold read_inode_range. solve_det. Qed.
Lemma det_fs_stat p : det (fs_stat dev p).
Proof. apply det_with_inode. intros k. solve_det. Qed.
Lemma det_fs_readdir p cap : det (fs_readdir dev p cap).
Proof. apply det_with_inode. intros k. solve_det. Qed.

(** ** Contents *)

(** The number of the data block [i] of a file, and the byte at a position. *)
Definition dbn (ino : bytes) (i : Z) : option Z := value (read_data_block_num dev m ino i).
Definition file_byte (ino : bytes) (k : Z) : option Z :=
  bn ← dbn ino (k / bs); b ← block_val bn; b !! Z.to_nat (k mod bs).

Lemma computes_dbn ino i : computes (read_data_block_num dev m ino i) (dbn ino i).
Proof. apply det_value, det_data_block. Qed.

Definition nonzero (n : Z) : option Z := if n =? 0 then None else Some n.

Lemma dbn_eq ino i :
  dbn ino i =
    if i <? 12 then nonzero (inode_block ino i)
    else if bs / 4 <=? i - 12 then None
    else bn ← nonzero (inode_block ino 12); b ← block_val bn; n ← read_u32 b ((i - 12) * 4); nonzero n.
Proof.
  apply (computes_unique (read_data_block_num dev m ino i)); [apply computes_dbn|]. unfold read_data_block_num, nonzero.
  destruct (i <? 12); [apply computes_ret|]. destruct (_ <=? _); [apply computes_ret|].
  destruct (inode_block ino 12 =? 0); [apply computes_ret|]. cbn [mbind option_bind].
  eapply computes_bind; [apply computes_block|]. destruct (block_val _) as [b|]; [|apply computes_ret].
  cbn [mbind option_bind]. destruct (read_u32 b _); apply computes_ret.
Qed.

(** Blocks 0 to 11 and those of one indirect block are all a file can have. *)
Lemma dbn_limit ino i : 12 + bs / 4 <= i -> dbn ino i = None.
Proof.
  intros Hi. destruct Hwf as [Hb _ _ _]. pose proof (Z.div_pos bs 4). rewrite dbn_eq.
  rewrite (proj2 (Z.ltb_ge i 12)), (proj2 (Z.leb_le (bs / 4) (i - 12))) by lia. done.
Qed.

Lemma file_byte_block ino k bn b j :
  dbn ino (k / bs) = Some bn -> block_val bn = Some b -> 0 <= k -> 0 <= j < bs - k mod bs ->
  file_byte ino (k + j) = b !! Z.to_nat (k mod bs + j).
Proof.
  intros H1 H2 Hk Hj. destruct Hwf as [Hb _ _ _]. pose proof (Z.mod_pos_bound k bs). unfold file_byte.
  replace ((k + j) / bs) with (k / bs).
  2:{ symmetry. rewrite (Z.div_mod k bs) at 1 by lia. rewrite <-Z.add_assoc, Z.mul_comm, Z.div_add_l, (Z.div_small (_ + _)) by lia. lia. }
  replace ((k + j) mod bs) with (k mod bs + j).
  2:{ symmetry. rewrite (Z.div_mod k bs) at 1 by lia.
      replace (bs * (k / bs) + k mod bs + j) with (k mod bs + j + (k / bs) * bs) by lia. rewrite Z_mod_plus_full. apply Z.mod_small. lia. }
  rewrite H1. cbn [mbind option_bind]. by rewrite H2.
Qed.

(** The bytes from [off] on, when all are there. *)
Definition range_ok (ino : bytes) (off n : Z) (from : Z) (r : option bytes) : Prop :=
  match r with
  | Some b => blen b = n /\ forall k, from <= k < n -> b !! Z.to_nat k = file_byte ino (off + k)
  | None => exists k, from <= k < n /\ file_byte ino (off + k) = None
  end.

Lemma range_loop_reads fuel ino off n acc :
  0 <= off -> blen acc <= n -> n - blen acc <= Z.of_nat fuel ->
  exists r, computes (range_loop dev fuel m ino off n acc) r /\ range_ok ino off n (blen acc) r /\
    (forall b, r = Some b -> take (length acc) b = acc).
Proof.
  intros Ho. destruct Hwf as [Hb _ _ _]. revert acc. induction fuel as [|fuel IH]; intros acc Hn Hf.
  - exists (Some acc). split; [apply computes_ret|]. split; [split; [lia|]; intros; lia|]. intros b [= <-]. by apply take_ge.
  - cbn [range_loop]. destruct (Z.ltb_spec (blen acc) n) as [Hlt|Hge].
    2:{ exists (Some acc). split; [apply computes_ret|]. split; [split; [lia|]; intros; lia|]. intros b [= <-]. by apply take_ge. }
    set (p := off + blen acc). assert (0 <= p) as Hp by (unfold p, blen; lia). pose proof (Z.mod_pos_bound p bs).
    assert (forall r, r = None -> file_byte ino p = None -> range_ok ino off n (blen acc) r) as Hnone.
    { intros r -> Hr. exists (blen acc). split; [lia|done]. }
    destruct (dbn ino (p / bs)) as [bn|] eqn:Ed.
    2:{ exists None. split; [eapply computes_bind; [apply computes_dbn|]; rewrite Ed; apply computes_ret|].
        split; [apply Hnone; [done|]; unfold file_byte; by rewrite Ed|done]. }
    destruct (block_val bn) as [blk|] eqn:Eb.
    2:{ exists None. split; [eapply computes_bind; [apply computes_dbn|]; rewrite Ed; eapply computes_bind; [apply computes_block|]; rewrite Eb; apply computes_ret|].
        split; [apply Hnone; [done|]; unfold file_byte; rewrite Ed; cbn [mbind option_bind]; by rewrite Eb|done]. }
    pose proof (block_val_length bn blk Eb) as Hbl. set (k := Z.min (bs - p mod bs) (n - blen acc)).
    set (new := take (Z.to_nat k) (drop (Z.to_nat (p mod bs)) blk)).
    assert (blen new = k) as Hnew by (unfold new, blen in *; rewrite length_take, length_drop; lia).
    assert (blen (acc ++ new) = blen acc + k) as Hl by (unfold blen in *; rewrite length_app; lia).
    destruct (IH (acc ++ new)) as (r & Hc & Hr & Ht); [lia|lia|]. exists r. split.
    { eapply computes_bind; [apply computes_dbn|]. rewrite Ed. eapply computes_bind; [apply computes_block|]. rewrite Eb. exact Hc. }
    split.
    + rewrite Hl in Hr. destruct r as [b|]; [|destruct Hr as (j & Hj & Hr); exists j; split; [lia|done]].
      destruct Hr as [Hr1 Hr2]. split; [done|]. intros j Hj. destruct (Z.le_gt_cases (blen acc + k) j); [apply Hr2; lia|].
      replace (off + j) with (p + (j - blen acc)) by (unfold p; lia).
      rewrite (file_byte_block ino p bn blk) by (done || lia). specialize (Ht b eq_refl).
      rewrite <-(lookup_take_lt b (length (acc ++ new))) by (unfold blen in *; lia). rewrite Ht.
      rewrite lookup_app_r by (unfold blen in *; lia). unfold new. rewrite lookup_take_lt, lookup_drop by (unfold blen in *; lia).
      f_equal. unfold blen in *. lia.
    + intros b Hbr. specialize (Ht b Hbr). rewrite <-(take_app_length acc new) at 2. rewrite <-Ht, take_take. f_equal. rewrite length_app. lia.
Qed.

Lemma read_range_spec n ino off len :
  rd n = Some ino -> 0 <= off ->
  exists r, computes (read_inode_range dev m n off len) r /\
    range_ok ino off (Z.max 0 (Z.min len (inode_length ino - off))) 0 r.
Proof.
  intros Hn Ho. set (w := Z.min len (inode_length ino - off)).
  destruct (range_loop_reads (Z.to_nat w) ino off (Z.max 0 w) []) as (r & Hc & Hr & _); [done|unfold blen; cbn [length]; lia|unfold blen; cbn [length]; lia|].
  destruct (Z.leb_spec (inode_length ino) off) as [Hs|Hs].
  - exists (Some []). split; [|split; [unfold blen; cbn [length]; lia|lia]]. eapply computes_bind; [apply computes_read_inode|]. rewrite Hn. cbv beta iota zeta.
    rewrite (proj2 (Z.leb_le _ _) Hs). apply computes_ret.
  - exists r. split; [|done]. eapply computes_bind; [apply computes_read_inode|]. rewrite Hn. cbv beta iota zeta. rewrite (proj2 (Z.leb_gt _ _) Hs).
    fold w. destruct (Z.le_gt_cases 0 w); [by rewrite Z.max_r in Hc by lia|].
    replace (Z.to_nat w) with 0%nat in * by lia. exact Hc.
Qed.

Lemma computes_fs_read p n ino off len :
  path_val (strip_slash p) = Some n -> rd n = Some ino -> 0 <= off ->
  exists r, computes (fs_read dev p off len) (match r with Some b => (0, b) | None => (-5, []) end) /\
    range_ok ino off (Z.max 0 (Z.min len (inode_length ino - off))) 0 r.
Proof.
  intros Hp Hn Ho. destruct (read_range_spec n ino off len Hn Ho) as (r & Hc & Hr). exists r. split; [|done].
  unfold fs_read, with_inode. eapply computes_bind; [apply computes_path|]. rewrite Hp.
  eapply computes_bind; [apply computes_mount|]. eapply computes_bind; [exact Hc|]. apply computes_ret.
Qed.
End mounted.

(** ** Histories *)

Inductive fs_op :=
| OpMount
| OpRead (path : bytes) (offset len : Z)
| OpStat (path : bytes)
| OpReaddir (path : bytes) (cap : Z).

Inductive fs_result :=
| RCode (rc : Z)
| RBytes (rc : Z) (b : bytes)
| RStat (rc mode size : Z).

Definition run_op (dev : Device) (o : fs_op) : FM fs_result :=
  match o with
  | OpMount => RCode <$> fs_mount (fun _ => dev)
  | OpRead p off n => (fun r => RBytes r.1 r.2) <$> fs_read dev p off n
  | OpStat p => (fun r => RStat r.1 r.2.1 r.2.2) <$> fs_stat dev p
  | OpReaddir p cap => (fun r => RBytes r.1 r.2) <$> fs_readdir dev p cap
  end.

(** The states that any sequence of operations on a disk leads to. *)
Inductive history (dev : Device) : FsState -> Prop :=
| history_boot : history dev boot
| history_step s o r s' : history dev s -> run_op dev o s = Some (r, s') -> history dev s'.

(** A disk formatted as ext2 requires: an inode does not straddle two blocks. *)
Definition disk_ok (dev : Device) : Prop :=
  forall d m, probe_ext2_drive dev d = Some m ->
    0 < inode_size m /\ (inode_size m <= 256 -> block_size m mod inode_size m = 0).

Lemma probe_wf dev d m : disk_ok dev -> probe_ext2_drive dev d = Some m -> mount_wf m.
Proof.
  intros Hd Hp. destruct (Hd d m Hp) as [Hz Hf]. revert Hp. unfold probe_ext2_drive.
  destruct (read_sector_ata dev d 2) as [s2|]; [|done]. destruct (read_sector_ata dev d 3) as [s3|]; [|done]. cbv zeta.
  destruct (read_u16 _ 56) as [mg|]; [|done]. cbn [mbind option_bind]. destruct (negb _); [done|].
  destruct (read_u32 _ 24) as [lb|]; [|done]. cbn [mbind option_bind]. destruct (Z.ltb_spec 2 lb) as [|Hl]; [done|].
  destruct (_ || _) eqn:Hb; [done|]. apply orb_false_iff in Hb as [Hb1 Hb2]. apply Z.ltb_ge in Hb1. apply negb_false_iff, Z.eqb_eq in Hb2.
  destruct (read_u32 _ 40) as [ipg|]; [|done]. cbn [mbind option_bind]. destruct (ipg =? 0); [done|]. intros [= <-].
  cbn [inode_size block_size sectors_per_block] in *. split; cbn [inode_size block_size sectors_per_block]; try done.
  - destruct (Z.le_gt_cases 0 lb).
    + assert (lb = 0 \/ lb = 1 \/ lb = 2) as [-> | [-> | ->]] by lia; [left|right; left|right; right]; reflexivity.
    + exfalso. rewrite Z.shiftl_div_pow2 in Hb1 by lia. assert (2 <= 2 ^ (- lb)) by (apply (Z.pow_le_mono_r 2 1); lia).
      assert (1024 / 2 ^ (- lb) < 1024) by (apply Z.div_lt_upper_bound; lia). lia.
  - apply Z.div_exact in Hb2; [|lia]. lia.
Qed.

Record raw (s : FsState) : Prop := {
  raw_blocks : Forall (fun e => blen (b_data e) = 4096) (blocks s);
  raw_inodes : Forall (fun e => blen (i_data e) = 256) (inodes s);
  raw_paths : Forall (fun e => length (p_path e) = PATH_CACHE_MAX) (paths s);
  raw_nblocks : length (blocks s) = BLOCK_CACHE_SLOTS;
  raw_ninodes : length (inodes s) = INODE_CACHE_SLOTS;
  raw_npaths : length (paths s) = PATH_CACHE_SLOTS;
  raw_iblk : blen (iblk s) = 4096;
}.

Lemma coherent_raw dev m s : coherent dev m s -> raw s.
Proof.
  intros [_ Hb Hi Hp ? ? ? ?]. split; try done.
  - eapply Forall_impl; [|exact Hb]. by intros ? [].
  - eapply Forall_impl; [|exact Hi]. by intros ? [].
  - eapply Forall_impl; [|exact Hp]. by intros ? [].
Qed.

Lemma raw_boot : raw boot.
Proof.
  split; try apply length_replicate; try (apply zeros_length; lia); apply Forall_replicate; try (apply zeros_length; lia).
  pose proof (zeros_length (Z.of_nat PATH_CACHE_MAX) ltac:(lia)). unfold blen in *. cbn [p_path empty_path]. lia.
Qed.

Lemma coherent_reset dev m s : raw s -> coherent dev m (set_mount m (reset_caches s)).
Proof.
  intros [Hb Hi Hp ? ? ? ?]. split; cbn [mount blocks inodes paths iblk set_mount reset_caches]; try done; try by rewrite length_fmap.
  - apply Forall_fmap. eapply Forall_impl; [|exact Hb]. by intros.
  - apply Forall_fmap. eapply Forall_impl; [|exact Hi]. by intros.
  - apply Forall_fmap. eapply Forall_impl; [|exact Hp]. by intros.
Qed.

Definition inv (dev : Device) (s : FsState) : Prop :=
  (mount s = None /\ raw s) \/ exists m, mount_wf m /\ coherent dev m s.

Lemma inv_raw dev s : inv dev s -> raw s.
Proof. intros [[_ H]|(m & _ & H)]; [done|]. by eapply coherent_raw. Qed.

Lemma mount_loop_cases dev devs :
  Forall (eq dev) devs ->
  (forall s, mount_loop devs s = Some (-5, s)) \/
  exists d m, probe_ext2_drive dev d = Some m /\ forall s, mount_loop devs s = Some (0, set_mount m (reset_caches s)).
Proof.
  induction 1 as [|x devs <- _ IH]; [by left|]. cbn [mount_loop].
  destruct (probe_ext2_drive dev 1) as [m|] eqn:E1; [right; by exists 1, m|].
  destruct (probe_ext2_drive dev 0) as [m|] eqn:E0; [right; by exists 0, m|]. done.
Qed.

Lemma fs_mount_cases dev :
  (forall s, fs_mount (fun _ => dev) s = Some (-5, s)) \/
  exists d m, probe_ext2_drive dev d = Some m /\ forall s, fs_mount (fun _ => dev) s = Some (0, set_mount m (reset_caches s)).
Proof. apply mount_loop_cases. apply Forall_fmap, Forall_true. done. Qed.

Definition unmounted_result (o : fs_op) : fs_result :=
  match o with OpMount => RCode (-5) | OpStat _ => RStat (-5) 0 0 | _ => RBytes (-5) [] end.

Lemma op_unmounted dev o s : mount s = None -> o <> OpMount -> run_op dev o s = Some (unmounted_result o, s).
Proof.
  intros Hm Ho. assert (the_mount s = Some (None, s)) as Ht by (unfold the_mount; by rewrite Hm).
  assert (forall p, read_path_inode dev p s = Some (None, s)) as Hp.
  { intros p. unfold read_path_inode. by rewrite (st_bind_eq _ _ _ _ _ Ht). }
  assert (forall A p (a : A) f, with_inode dev p a f s = Some ((-5, a), s)) as Hw.
  { intros. unfold with_inode. rewrite (st_bind_eq _ _ _ _ _ (Hp p)). by rewrite (st_bind_eq _ _ _ _ _ Ht). }
  destruct o; try done; cbn [run_op]; unfold fmap, ST_fmap, fs_read, fs_stat, fs_readdir; by rewrite Hw.
Qed.

Lemma computes_fmap dev m {A B} (f : A -> B) (g : FM A) a : computes dev m g a -> computes dev m (f <$> g) (f a).
Proof. intros H s Hs. destruct (H s Hs) as (s' & E & H'). exists s'. unfold fmap, ST_fmap. by rewrite E. Qed.

Lemma op_computes dev m o : mount_wf m -> o <> OpMount -> exists r, computes dev m (run_op dev o) r.
Proof.
  intros Hw Ho. destruct o as [|p off n|p|p cap]; [done|..]; cbn [run_op].
  - destruct (det_fs_read dev m Hw p off n) as [r Hr]. eexists. by apply computes_fmap.
  - destruct (det_fs_stat dev m Hw p) as [r Hr]. eexists. by apply computes_fmap.
  - destruct (det_fs_readdir dev m Hw p cap) as [r Hr]. eexists. by apply computes_fmap.
Qed.

Definition uncached (s : FsState) : FsState := match mount s with Some m => fresh m | None => boot end.

#[global] Instance fs_op_eq_mount o : Decision (o = OpMount).
Proof. destruct o; [by left|right..]; done. Defined.

Lemma op_inv dev o s :
  disk_ok dev -> inv dev s ->
  exists r s1 s2, run_op dev o s = Some (r, s1) /\ run_op dev o (uncached s) = Some (r, s2) /\ inv dev s1.
Proof.
  intros Hd Hi. destruct (decide (o = OpMount)) as [->|Ho].
  - cbn [run_op]. unfold fmap, ST_fmap. destruct (fs_mount_cases dev) as [H|(d & m & Hp & H)]; rewrite !H.
    + do 3 eexists. by split; [|split].
    + do 3 eexists. split; [done|]. split; [done|]. right. exists m. split; [by eapply probe_wf|].
      apply coherent_reset. by eapply inv_raw.
  - destruct Hi as [[Hm Hr]|(m & Hw & Hc)].
    + unfold uncached. rewrite Hm, !op_unmounted by done. do 3 eexists. split; [done|]. split; [done|]. by left.
    + unfold uncached. rewrite (coh_mount _ _ _ Hc). destruct (op_computes dev m o Hw Ho) as [r Hr].
      destruct (Hr s Hc) as (s1 & E1 & H1). destruct (Hr (fresh m) (coherent_fresh dev m)) as (s2 & E2 & _).
      exists r, s1, s2. split; [done|]. split; [done|]. right. by exists m.
Qed.

Lemma history_inv dev s : disk_ok dev -> history dev s -> inv dev s.
Proof.
  intros Hd. induction 1 as [|s o r s' _ IH E]; [left; split; [done|apply raw_boot]|].
  destruct (op_inv dev o s Hd IH) as (r' & s1 & s2 & E1 & _ & H1). congruence.
Qed.

(** C3. The caches of the file-system module cannot be seen.  After any sequence
    of mounts, reads, stats and listings on a disk, every operation returns (it
    does not panic), with the result it has when no block, inode or path is
    cached. *)
Theorem fs_caches_transparent (dev : Device) (s : FsState) (o : fs_op) :
  disk_ok dev -> history dev s ->
  exists r s1 s2, run_op dev o s = Some (r, s1) /\ run_op dev o (uncached s) = Some (r, s2).
Proof.
  intros Hd Hh. destruct (op_inv dev o s Hd (history_inv dev s Hd Hh)) as (r & s1 & s2 & E1 & E2 & _). by exists r, s1, s2.
Qed.

Lemma history_mounted dev s m :
  disk_ok dev -> history dev s -> mount s = Some m -> mount_wf m /\ coherent dev m s.
Proof.
  intros Hd Hh Hm. destruct (history_inv dev s Hd Hh) as [[? _]|(m' & Hw & Hc)]; [congruence|].
  rewrite (coh_mount _ _ _ Hc) in Hm. injection Hm as <-. done.
Qed.

(** [fs_read] is exact.  For a path that leads to an inode, the bytes from
    [offset] up to the end of the file or of the buffer are returned if the disk
    holds all of them, each being the byte of the data block that the inode
    assigns to its position; if one is missing the result is EIO. *)
Theorem fs_read_contents (dev : Device) (s : FsState) (m : FsMount) (path : bytes) (n offset len : Z) (ino : bytes) :
  disk_ok dev -> history dev s -> mount s = Some m ->
  path_val dev m (strip_slash path) = Some n -> rd dev m n = Some ino -> 0 <= offset ->
  let count := Z.max 0 (Z.min len (inode_length ino - offset)) in
  exists rc b s', fs_read dev path offset len s = Some ((rc, b), s') /\
    ((rc = 0 /\ blen b = count /\ forall k, 0 <= k < count -> b !! Z.to_nat k = file_byte dev m ino (offset + k)) \/
     (rc = -5 /\ b = [] /\ exists k, 0 <= k < count /\ file_byte dev m ino (offset + k) = None)).
Proof.
  intros Hd Hh Hm Hp Hn Ho count. destruct (history_mounted dev s m Hd Hh Hm) as [Hw Hc].
  destruct (computes_fs_read dev m Hw path n ino offset len Hp Hn Ho) as (r & Hr & Hok). destruct (Hr s Hc) as (s' & E & _).
  destruct r as [b|]; do 3 eexists; (split; [exact E|]); [left|right]; done.
Qed.
(** ** Two small disks

    Both hold a file [hi]: three bytes on the first disk; 300000 bytes on the
    second, whose blocks, direct and indirect, are all the block 6. *)

Definition word_at (byte : Z -> Z) (tf : TaskFile) (i : nat) : Z :=
  let a := (lba_low tf + 256 * lba_mid tf + 65536 * lba_high tf) * 512 + 2 * Z.of_nat i in byte a + 256 * byte (a + 1).
Definition demo_device (byte : Z -> Z) : Device := mkDevice (fun tf => Some (word_at byte tf)) (fun _ _ => None).

Definition assoc_byte (l : list (Z * Z)) (z : Z) : Z := default 0 (snd <$> List.find (fun p => p.1 =? z) l).

Definition common_bytes : list (Z * Z) :=
  [(1064, 16); (1080, 83); (1081, 239); (1112, 128); (2056, 3); (3200, 237); (3201, 65); (3205, 4); (3240, 5);
   (3328, 164); (3329, 129); (3368, 6); (5120, 3); (5125, 4); (5126, 2); (5127, 1); (5128, 104); (5129, 105);
   (6144, 97); (6145, 98); (6146, 99)].

Definition small_disk : Device := demo_device (assoc_byte ((3332, 3) :: common_bytes)).

Definition large_bytes : list (Z * Z) :=
  [(3332, 224); (3333, 147); (3334, 4); (3416, 7)] ++ ((fun i => (3368 + 4 * i, 6)) <$> seqZ 1 11) ++ common_bytes.
Definition large_disk : Device :=
  demo_device (fun z => if (7168 <=? z) && (z <? 8192) then (if z mod 4 =? 0 then 6 else 0) else assoc_byte large_bytes z).

Definition demo_mount (d : Z) : FsMount := mkMount d 1024 2 128 16 2.
Definition mounted_state : FsState := set_mount (demo_mount 1) (reset_caches boot).

Lemma small_probe d : probe_ext2_drive small_disk d = Some (demo_mount d).
Proof. vm_compute. reflexivity. Qed.
Lemma large_probe d : probe_ext2_drive large_disk d = Some (demo_mount d).
Proof. vm_compute. reflexivity. Qed.

Lemma demo_disk_ok dev : (forall d, probe_ext2_drive dev d = Some (demo_mount d)) -> disk_ok dev.
Proof. intros H d m. rewrite H. intros [= <-]. cbn. split; [lia|done]. Qed.

Lemma demo_mounts dev :
  (forall d, probe_ext2_drive dev d = Some (demo_mount d)) -> run_op dev OpMount boot = Some (RCode 0, mounted_state).
Proof. intros H. cbn [run_op]. unfold fmap, ST_fmap, fs_mount. cbn [seq list_fmap fmap mount_loop]. by rewrite H. Qed.

Lemma demo_history dev : (forall d, probe_ext2_drive dev d = Some (demo_mount d)) -> history dev mounted_state.
Proof. intros H. eapply history_step; [apply history_boot|]. by apply demo_mounts. Qed.

Lemma fs_caches_transparent_witness :
  exists s r s1 s2, history small_disk s /\ run_op small_disk (OpStat [47; 104; 105]) s = Some (r, s1) /\
    run_op small_disk (OpStat [47; 104; 105]) (uncached s) = Some (r, s2).
Proof.
  destruct (fs_caches_transparent small_disk mounted_state (OpStat [47; 104; 105]) (demo_disk_ok _ small_probe) (demo_history _ small_probe))
    as (r & s1 & s2 & E1 & E2).
  destruct (fs_caches_transparent small_disk s1 (OpStat [47; 104; 105]) (demo_disk_ok _ small_probe)
    (history_step _ _ _ _ _ (demo_history _ small_probe) E1)) as (r' & s3 & s4 & E3 & E4).
  exists s1, r', s3, s4. split; [exact (history_step _ _ _ _ _ (demo_history _ small_probe) E1)|]. split; [exact E3|exact E4].
Defined.

Definition demo_ino (dev : Device) : bytes := default [] (rd dev (demo_mount 1) 3).

Lemma small_inode :
  path_val small_disk (demo_mount 1) [104; 105] = Some 3 /\ rd small_disk (demo_mount 1) 3 = Some (demo_ino small_disk) /\
  inode_length (demo_ino small_disk) = 3.
Proof. split; [vm_compute; reflexivity|]. split; vm_compute; reflexivity. Qed.

Lemma small_bytes k : 0 <= k < 3 -> file_byte small_disk (demo_mount 1) (demo_ino small_disk) k = Some (97 + k).
Proof. intros H. assert (k = 0 \/ k = 1 \/ k = 2) as [-> | [-> | ->]] by lia; vm_compute; reflexivity. Qed.

Lemma fs_read_contents_witness :
  exists b s', fs_read small_disk [47; 104; 105] 1 8 mounted_state = Some ((0, b), s') /\ blen b = 2 /\ b !! 0%nat = Some 98.
Proof.
  destruct small_inode as (H1 & H2 & H3).
  destruct (fs_read_contents small_disk mounted_state (demo_mount 1) [47; 104; 105] 3 1 8 (demo_ino small_disk)
    (demo_disk_ok _ small_probe) (demo_history _ small_probe) eq_refl H1 H2 ltac:(lia)) as (rc & b & s' & E & H).
  rewrite H3 in H. change (Z.max 0 (Z.min 8 (3 - 1))) with 2 in H.
  destruct H as [(-> & Hl & Hb)|(_ & _ & k & Hk & Hn)].
  - exists b, s'. split; [exact E|]. split; [exact Hl|]. specialize (Hb 0 ltac:(lia)). rewrite small_bytes in Hb by lia. exact Hb.
  - rewrite small_bytes in Hn by lia. discriminate.
Defined.
End FsModuleProps.
