(* ===== verification/KmodFs.v ===== *)
(** The kernel's end of the file-system module: [src/core/kmod/fs.rs].

    [McxFsOps] is the table of functions a module hands to the kernel, here a
    record of state transformers over the module's own state; [fs_ops] is the
    table of [FsModule].  Before a module is registered the kernel reads the boot
    images of [Ext2]. *)

From Stdlib Require Import ZArith Lia.
From stdpp Require Import base list option numbers.
From S2P Require Import Prelude State Types UserMem Bytes Ext2 FsModule FsModuleProps.
Import Bytes.

Local Open Scope Z_scope.

Module KmodFs.

Definition MODULE_MAX_READ_BYTES : Z := 67108864.
Definition READDIR_BUF : Z := 16384.

(** [read] returns its code, the count it reports and the bytes it stored, which
    fit the buffer; [readdir] likewise; [stat] its code, the mode and the size. *)
Record McxFsOps (S : Type) := mkOps {
  op_mount : Z -> ST S Z;
  op_read : bytes -> Z -> Z -> ST S (Z * Z * bytes);
  op_stat : bytes -> ST S (Z * Z * Z);
  op_readdir : bytes -> Z -> ST S (Z * Z * bytes);
}.
Arguments mkOps {S} _ _ _ _.
Arguments op_mount {S} _ _.
Arguments op_read {S} _ _ _ _.
Arguments op_stat {S} _ _.
Arguments op_readdir {S} _ _ _.

(** The statics [FS_OPS_PTR], [LOADED] and [MOUNTED]. *)
Record Kmod (S : Type) := mkKmod { ops : option (McxFsOps S); loaded : bool; mounted : bool }.
Arguments mkKmod {S} _ _ _.
Arguments ops {S} _.
Arguments loaded {S} _.
Arguments mounted {S} _.

Section kmod.
Context {S : Type}.
Context (rootfs initfs : bytes).

(** [register]: a null table, or one with a null function, is refused. *)
Definition register (table : option (McxFsOps S)) (complete : bool) (k : Kmod S) : bool * Kmod S :=
  match table with
  | Some o => if complete then (true, mkKmod (Some o) true (mounted k)) else (false, k)
  | None => (false, k)
  end.

Definition do_mount (device_id : Z) (k : Kmod S) : ST S (Z * Kmod S) :=
  match ops k with
  | None => mret (-38, k)
  | Some o =>
      rc ← op_mount o device_id;
      mret (rc, if rc =? 0 then mkKmod (ops k) (loaded k) true else k)
  end.

Definition boot_read (path : bytes) : option bytes :=
  match Ext2.read rootfs initfs path with Ext2.Val b => Some b | _ => None end.

(** One round of the loop of [read_all]: the bytes so far, the offset and the
    4096-byte chunk.  [None] as a result of the loop is a panic of the module. *)
Definition read_round (o : McxFsOps S) (path : bytes) (st : bytes * Z * bytes * S) :
    (bytes * Z * bytes * S) + option (option bytes * S) :=
  let '(out, offset, chunk, s) := st in
  match op_read o path offset (blen chunk) s with
  | None => inr None
  | Some ((rc, nread, stored), s) =>
      let chunk := put chunk 0 stored in
      if negb (rc =? 0) then
        inr (Some (if rc =? -2 then None else if blen out =? 0 then boot_read path else Some out, s))
      else if nread =? 0 then inr (Some (Some out, s))
      else if blen chunk <? nread then inr (Some (None, s))
      else
        let out := out ++ take (Z.to_nat nread) chunk in
        let offset := saturating_add64 offset nread in
        if MODULE_MAX_READ_BYTES <? blen out then inr (Some (None, s)) else inl (out, offset, chunk, s)
  end.

(** Each round that goes on adds a byte, and no more than the maximum may be
    read: the number of rounds is bounded by it. *)
Definition READ_ROUNDS : positive := 67108866.

Definition read_all (k : Kmod S) (path : bytes) : ST S (option bytes) := fun s =>
  match ops k with
  | None => Some (boot_read path, s)
  | Some o =>
      match loop READ_ROUNDS (read_round o path) ([], 0, FsModule.zeros 4096, s) with
      | inr r => r
      | inl _ => None
      end
  end.

Definition file_metadata (k : Kmod S) (path : bytes) : ST S (option (Z * Z)) :=
  match ops k with
  | None => mret None
  | Some o => '(rc, mode, size) ← op_stat o path; mret (if negb (rc =? 0) then None else Some (mode, size))
  end.

Definition is_directory (k : Kmod S) (path : bytes) : ST S bool :=
  r ← file_metadata k path;
  mret (match r with Some (mode, _) => Z.land mode 61440 =? 16384 | None => false end).

Definition readdir_path (k : Kmod S) (path : bytes) : ST S (option (list bytes)) :=
  match ops k with
  | None => mret None
  | Some o =>
      '(rc, out_len, stored) ← op_readdir o path READDIR_BUF;
      mret (if negb (rc =? 0) || (READDIR_BUF <? out_len) then None
            else
              let b := take (Z.to_nat out_len) (put (FsModule.zeros READDIR_BUF) 0 stored) in
              Some (List.filter (fun w => negb (bool_decide (w = [])) && utf8 w) (split 10 b)))
  end.
End kmod.

(** ** The table of the file-system module *)

Definition fs_ops (dev : FsModule.Device) : McxFsOps FsModule.FsState :=
  mkOps (fun _ => FsModule.fs_mount (fun _ => dev))
    (fun path offset len => '(rc, b) ← FsModule.fs_read dev path offset len; mret (rc, blen b, b))
    (fun path => '(rc, (mode, size)) ← FsModule.fs_stat dev path; mret (rc, mode, size))
    (fun path cap => '(rc, b) ← FsModule.fs_readdir dev path cap; mret (rc, blen b, b)).

Section read_all.
Import FsModule FsModuleProps.
Context (rootfs initfs : bytes) (dev : Device) (m : FsMount) (Hwf : mount_wf m).
Context (path ino : bytes) (n : Z).
Context (Hpath : path_val dev m (strip_slash path) = Some n) (Hino : rd dev m n = Some ino).
Notation size := (inode_length ino).
Notation byte_at := (file_byte dev m ino).

(** [b] is the first [len] bytes of the file. *)
Definition prefix_of (b : bytes) (len : Z) : Prop := blen b = len /\ forall k, 0 <= k < len -> b !! Z.to_nat k = byte_at k.

(** Where reading stops: at the end of the file, or at the first chunk with a
    byte that the disk does not give. *)
Record stops_at (len : Z) : Prop := {
  stop_range : 0 <= len <= MODULE_MAX_READ_BYTES;
  stop_present : forall k, 0 <= k < len -> is_Some (byte_at k);
  stop_why : len = size \/
    (0 < len < size /\ len mod 4096 = 0 /\ exists k, len <= k < Z.min size (len + 4096) /\ byte_at k = None);
}.

Lemma read_once s off :
  coherent dev m s -> 0 <= off ->
  exists r s', op_read (fs_ops dev) path off 4096 s =
      Some (match r with Some b => (0, blen b, b) | None => (-5, 0, []) end, s') /\
    coherent dev m s' /\ range_ok dev m ino off (Z.max 0 (Z.min 4096 (size - off))) 0 r.
Proof.
  intros Hs Ho. destruct (computes_fs_read dev m Hwf path n ino off 4096 Hpath Hino Ho) as (r & Hc & Hr).
  destruct (Hc s Hs) as (s' & E & H'). exists r, s'. split; [|done]. cbn [op_read fs_ops]. rewrite (st_bind_eq _ _ _ _ _ E).
  by destruct r.
Qed.

Definition round_inv (len : Z) (st : bytes * Z * bytes * FsState) : Prop :=
  let '(out, off, chunk, s) := st in
  coherent dev m s /\ blen chunk = 4096 /\ off = blen out /\ blen out <= len /\
  (blen out = len \/ blen out mod 4096 = 0) /\ prefix_of out (blen out).

Lemma read_round_spec len st :
  stops_at len -> round_inv len st ->
  0 <= len - blen st.1.1.1 /\
  match read_round rootfs initfs (fs_ops dev) path st with
  | inl st' => round_inv len st' /\ len - blen st'.1.1.1 < len - blen st.1.1.1
  | inr r => exists b s', r = Some (Some b, s') /\ coherent dev m s' /\ prefix_of b len
  end.
Proof.
  intros [Hr Hp Hw]. destruct st as [[[out off] chunk] s]. cbn [fst]. intros (Hs & Hc & -> & Hle & Hal & Hout).
  split; [lia|]. unfold read_round. rewrite Hc. destruct (read_once s (blen out) Hs) as (r & s' & E & Hs' & Hok); [unfold blen; lia|].
  rewrite E. clear E. unfold MODULE_MAX_READ_BYTES in *. destruct (decide (blen out = len)) as [Heq|Hne].
  - assert (r = Some [] \/ r = None /\ 0 < len) as [-> | [-> ?]].
    { destruct Hw as [Hsz|(Hlt & Hm & k & Hk & Hb)].
      - left. destruct r as [b|]; [|destruct Hok as (k & Hk & _); lia]. destruct Hok as [Hl _].
        f_equal. apply length_zero_iff_nil. unfold blen in *. lia.
      - right. split; [|lia]. destruct r as [b|]; [|done]. exfalso. destruct Hok as [Hl Hok]. specialize (Hok (k - blen out)).
        replace (blen out + (k - blen out)) with k in Hok by lia. rewrite Hb in Hok.
        assert (is_Some (b !! Z.to_nat (k - blen out))) as [x Hx] by (apply lookup_lt_is_Some; unfold blen in *; lia).
        rewrite Hok in Hx by lia. done. }
    + cbn. exists out, s'. rewrite <-Heq. done.
    + cbn [negb Z.eqb]. rewrite (proj2 (Z.eqb_neq (blen out) 0)) by lia. exists out, s'. rewrite <-Heq. done.
  - set (w := Z.min 4096 (size - blen out)). assert (0 < w /\ blen out + w <= len /\ (blen out + w = len \/ (blen out + w) mod 4096 = 0)) as (Hw0 & Hwl & Hwa).
    { destruct Hal as [|Hal]; [lia|]. destruct Hw as [->|(Hlt & Hm & _)].
      - split; [lia|]. split; [lia|]. unfold w. destruct (Z.le_gt_cases 4096 (size - blen out)); [right|left; lia].
        rewrite Z.min_l by lia. rewrite <-Z.add_mod_idemp_l, Hal by lia. done.
      - apply Z.mod_divide in Hal as [a Ha], Hm as [c Hcc]; [|lia..]. assert (w = 4096) as -> by (unfold w; lia).
        split; [lia|]. split; [lia|]. right. rewrite Ha. replace (a * 4096 + 4096) with ((a + 1) * 4096) by lia. apply Z.mod_mul. lia. }
    fold w in Hok. rewrite Z.max_r in Hok by lia. destruct r as [b|].
    2:{ exfalso. destruct Hok as (k & Hk & Hb). destruct (Hp (blen out + k)) as [x Hx]; [unfold blen in *; lia|]. congruence. }
    destruct Hok as [Hl Hok]. cbn [negb Z.eqb]. rewrite (proj2 (Z.eqb_neq (blen b) 0)) by lia.
    rewrite (proj2 (Z.ltb_ge (blen (put chunk 0 b)) (blen b))) by (rewrite blen_put; lia).
    assert (take (Z.to_nat (blen b)) (put chunk 0 b) = b) as -> by (apply take_put; unfold blen; lia).
    assert (blen (out ++ b) = blen out + w) as Hl2 by (unfold blen in *; rewrite length_app; lia).
    rewrite Hl2, (proj2 (Z.ltb_ge 67108864 (blen out + w))) by lia. cbn [fst].
    split; [|lia]. split; [done|]. split; [rewrite blen_put; lia|]. split; [unfold saturating_add64, U64_MAX; lia|].
    rewrite Hl2. split; [lia|]. split; [done|]. split; [done|]. intros k Hk. destruct (Z.lt_ge_cases k (blen out)).
    + rewrite lookup_app_l by (unfold blen in *; lia). apply Hout. lia.
    + rewrite lookup_app_r by (unfold blen in *; lia). replace (Z.to_nat k - length out)%nat with (Z.to_nat (k - blen out)) by (unfold blen in *; lia).
      rewrite Hok by lia. f_equal. lia.
Qed.

Lemma read_all_prefix len s :
  stops_at len -> coherent dev m s ->
  exists b s', read_all rootfs initfs (mkKmod (Some (fs_ops dev)) true true) path s = Some (Some b, s') /\ prefix_of b len.
Proof.
  intros Hst Hs. unfold read_all. cbn [ops].
  destruct (loop_rule (round_inv len) (fun st => len - blen st.1.1.1)
    (fun r => exists b s', r = Some (Some b, s') /\ coherent dev m s' /\ prefix_of b len)
    (read_round rootfs initfs (fs_ops dev) path) READ_ROUNDS ([], 0, zeros 4096, s)) as (r & -> & b & s' & -> & _ & Hb).
  - intros st Hi. by apply read_round_spec.
  - split; [done|]. split; [by apply zeros_length|]. split; [done|]. split; [apply Hst|]. split; [by right|]. split; [done|]. intros k Hk. unfold blen in Hk. cbn [length] in Hk. lia.
  - destruct Hst as [Hr _ _]. unfold MODULE_MAX_READ_BYTES, READ_ROUNDS in *. unfold blen. cbn [fst length]. lia.
  - by exists b, s'.
Qed.

(** All the file, or the part before the limit of the block map. *)
Lemma whole_file_stops :
  size <= MODULE_MAX_READ_BYTES -> 0 <= size -> (forall k, 0 <= k < size -> is_Some (byte_at k)) -> stops_at size.
Proof. intros. split; [lia|done|by left]. Qed.

Definition MAPPED : Z := (12 + block_size m / 4) * block_size m.

Lemma large_file_stops :
  MAPPED < size -> (forall k, 0 <= k < MAPPED -> is_Some (byte_at k)) -> stops_at MAPPED.
Proof.
  intros Hs Hp. assert (byte_at MAPPED = None) as Hn.
  { unfold file_byte. rewrite dbn_limit; [done|done|]. unfold MAPPED. destruct (wf_bs m Hwf) as [-> | [-> | ->]]; done. }
  unfold MODULE_MAX_READ_BYTES. assert (0 < MAPPED <= 67108864 /\ MAPPED mod 4096 = 0) as [? ?].
  { unfold MAPPED. destruct (wf_bs m Hwf) as [-> | [-> | ->]]; vm_compute; done. }
  split; [unfold MODULE_MAX_READ_BYTES; lia|done|]. right. split; [lia|]. split; [done|]. exists MAPPED. split; [lia|done].
Qed.
End read_all.

Section theorems.
Import FsModule FsModuleProps.

(** Reading a file through the module returns the file.  Whatever was done on
    the disk before, for a file of at most 64 MiB whose bytes are all on the disk
    the kernel gets exactly its bytes; the number of rounds of the read loop is
    enough. *)
Theorem read_all_returns_file (rootfs initfs : bytes) (dev : Device) (s : FsState) (m : FsMount) (path ino : bytes) (n : Z) :
  disk_ok dev -> history dev s -> mount s = Some m ->
  path_val dev m (strip_slash path) = Some n -> rd dev m n = Some ino ->
  0 <= inode_length ino <= MODULE_MAX_READ_BYTES ->
  (forall k, 0 <= k < inode_length ino -> is_Some (file_byte dev m ino k)) ->
  exists b s', read_all rootfs initfs (mkKmod (Some (fs_ops dev)) true true) path s = Some (Some b, s') /\
    blen b = inode_length ino /\ forall k, 0 <= k < inode_length ino -> b !! Z.to_nat k = file_byte dev m ino k.
Proof.
  intros Hd Hh Hm Hp Hi Hs Hb. destruct (history_mounted dev s m Hd Hh Hm) as [Hw Hc].
  apply (read_all_prefix rootfs initfs dev m Hw path ino n Hp Hi _ s); [|done]. apply whole_file_stops; [lia|lia|done].
Qed.

(** A file larger than its block map reaches is cut silently.  The module
    knows the direct blocks and one indirect block; a read past them fails, and
    the kernel then returns the bytes read so far as if they were the file: the
    first [(12 + block_size / 4) * block_size] bytes (268 KiB with 1 KiB
    blocks). *)
Theorem read_all_cuts_large_files (rootfs initfs : bytes) (dev : Device) (s : FsState) (m : FsMount) (path ino : bytes) (n : Z) :
  disk_ok dev -> history dev s -> mount s = Some m ->
  path_val dev m (strip_slash path) = Some n -> rd dev m n = Some ino ->
  MAPPED m < inode_length ino -> (forall k, 0 <= k < MAPPED m -> is_Some (file_byte dev m ino k)) ->
  exists b s', read_all rootfs initfs (mkKmod (Some (fs_ops dev)) true true) path s = Some (Some b, s') /\ blen b = MAPPED m.
Proof.
  intros Hd Hh Hm Hp Hi Hs Hb. destruct (history_mounted dev s m Hd Hh Hm) as [Hw Hc].
  destruct (read_all_prefix rootfs initfs dev m Hw path ino n Hp Hi (MAPPED m) s) as (b & s' & E & H & _);
    [by apply large_file_stops|done|]. by exists b, s'.
Qed.

Lemma read_all_returns_file_witness :
  exists b s', read_all [] [] (mkKmod (Some (fs_ops small_disk)) true true) [47; 104; 105] mounted_state = Some (Some b, s') /\
    blen b = 3 /\ b !! 2%nat = Some 99.
Proof.
  destruct small_inode as (H1 & H2 & H3).
  destruct (read_all_returns_file [] [] small_disk mounted_state (demo_mount 1) [47; 104; 105] (demo_ino small_disk) 3
    (demo_disk_ok _ small_probe) (demo_history _ small_probe) eq_refl H1 H2) as (b & s' & E & Hl & Hb).
  - rewrite H3. vm_compute. split; discriminate.
  - rewrite H3. intros k Hk. rewrite small_bytes by lia. eauto.
  - rewrite H3 in Hl, Hb. exists b, s'. split; [exact E|]. split; [exact Hl|]. specialize (Hb 2 ltac:(lia)).
    rewrite small_bytes in Hb by lia. exact Hb.
Defined.

(** The two blocks of the large disk that its file uses. *)
Definition large_block (n : Z) : bytes := default [] (block_val large_disk (demo_mount 1) n).

Lemma large_blocks n : n = 6 \/ n = 7 -> block_val large_disk (demo_mount 1) n = Some (large_block n).
Proof. intros [-> | ->]; vm_compute; reflexivity. Qed.

Definition direct_six (ino : bytes) : bool := forallb (fun i => bool_decide (inode_block ino i = 6)) (seqZ 0 12).
Definition entries_six (b : bytes) : bool := forallb (fun i => bool_decide (read_u32 b (i * 4) = Some 6)) (seqZ 0 256).

Lemma direct_six_spec ino i : direct_six ino = true -> 0 <= i < 12 -> inode_block ino i = 6.
Proof.
  unfold direct_six. rewrite forallb_forall. intros H Hi. specialize (H i). rewrite bool_decide_eq_true in H.
  apply H, list_elem_of_In, elem_of_seqZ. lia.
Qed.

Lemma entries_six_spec b i : entries_six b = true -> 0 <= i < 256 -> read_u32 b (i * 4) = Some 6.
Proof.
  unfold entries_six. rewrite forallb_forall. intros H Hi. specialize (H i). rewrite bool_decide_eq_true in H.
  apply H, list_elem_of_In, elem_of_seqZ. lia.
Qed.

Lemma large_block_map :
  direct_six (demo_ino large_disk) = true /\ inode_block (demo_ino large_disk) 12 = 7 /\
  blen (large_block 6) = 1024 /\ entries_six (large_block 7) = true.
Proof. repeat split; vm_compute; reflexivity. Qed.

Lemma demo_mount_wf : mount_wf (demo_mount 1).
Proof. split; cbn; [by left|lia|lia|done]. Qed.

Lemma large_dbn i : 0 <= i < 268 -> dbn large_disk (demo_mount 1) (demo_ino large_disk) i = Some 6.
Proof.
  intros Hi. destruct large_block_map as (H1 & H2 & _ & H4).
  rewrite (dbn_eq _ _ demo_mount_wf), H2. cbn [block_size demo_mount]. change (1024 / 4) with 256.
  destruct (Z.ltb_spec i 12) as [Hlt|Hge].
  - by rewrite (direct_six_spec _ i H1) by lia.
  - rewrite (proj2 (Z.leb_gt 256 (i - 12))) by lia. cbn [nonzero Z.eqb mbind option_bind]. rewrite large_blocks by auto.
    cbn [mbind option_bind]. by rewrite (entries_six_spec _ (i - 12) H4) by lia.
Qed.

Lemma large_byte k : 0 <= k < 274432 -> is_Some (file_byte large_disk (demo_mount 1) (demo_ino large_disk) k).
Proof.
  intros Hk. unfold file_byte. cbn [block_size demo_mount].
  rewrite large_dbn by (split; [apply Z.div_pos; lia|apply Z.div_lt_upper_bound; lia]).
  cbn [mbind option_bind]. rewrite large_blocks by auto. cbn [mbind option_bind]. apply lookup_lt_is_Some.
  destruct large_block_map as (_ & _ & Hb & _). unfold blen in Hb. pose proof (Z.mod_pos_bound k 1024). lia.
Qed.

Lemma read_all_cuts_large_files_witness :
  inode_length (demo_ino large_disk) = 300000 /\
  exists b s', read_all [] [] (mkKmod (Some (fs_ops large_disk)) true true) [47; 104; 105] mounted_state = Some (Some b, s') /\
    blen b = 274432.
Proof.
  assert (inode_length (demo_ino large_disk) = 300000) as H3 by (vm_compute; reflexivity). split; [exact H3|].
  assert (path_val large_disk (demo_mount 1) [104; 105] = Some 3) as H1 by (vm_compute; reflexivity).
  assert (rd large_disk (demo_mount 1) 3 = Some (demo_ino large_disk)) as H2 by (vm_compute; reflexivity).
  apply (read_all_cuts_large_files [] [] large_disk mounted_state (demo_mount 1) [47; 104; 105] (demo_ino large_disk) 3
    (demo_disk_ok _ large_probe) (demo_history _ large_probe) eq_refl H1 H2).
  - rewrite H3. reflexivity.
  - exact large_byte.
Defined.
End theorems.
End KmodFs.
