(* ===== verification/Mem.v ===== *)
(** Physical memory.

    Memory is a function from byte addresses to bytes.  The kernel reaches a
    physical address [p] through the direct map at [p + phys_off]; a dereference
    of such a pointer is an access to [p] here. *)

From Stdlib Require Import ZArith Lia.
From stdpp Require Import base list option numbers.
From S2P Require Import Prelude UserMem.

Local Open Scope Z_scope.

Module Mem.
Definition mem : Type := Z -> Z.

Definition load (m : mem) (a : Z) (n : nat) : list Z := (fun i => m (a + Z.of_nat i)) <$> seq 0 n.
Definition store (m : mem) (a : Z) (bs : list Z) : mem := flat_store m a bs.

Definition read_u64 (m : mem) (a : Z) : Z := from_le_bytes (load m a 8).
Definition write_u64 (m : mem) (a v : Z) : mem := store m a (to_le_bytes 8 v).

(** [core::ptr::write_bytes(p, 0, n)] *)
Definition zero (m : mem) (a : Z) (n : nat) : mem := store m a (replicate n 0).

Definition mem_wf (m : mem) : Prop := forall a, is_byte (m a).

#[global] Arguments load : simpl never.
#[global] Arguments store : simpl never.
#[global] Arguments to_le_bytes : simpl never.

Lemma store_out m a bs x : x < a \/ a + Z.of_nat (length bs) <= x -> store m a bs x = m x.
Proof.
  intros H. unfold store, flat_store.
  destruct (Z.leb_spec a x), (Z.ltb_spec x (a + Z.of_nat (length bs))); simpl; done || lia.
Qed.

Lemma store_in m a bs i b : bs !! i = Some b -> store m a bs (a + Z.of_nat i) = b.
Proof.
  intros H. pose proof (lookup_lt_Some _ _ _ H). unfold store, flat_store.
  rewrite (proj2 (Z.leb_le _ _)), (proj2 (Z.ltb_lt _ _)) by lia. cbn.
  replace (Z.to_nat (a + Z.of_nat i - a)) with i by lia. by apply list_lookup_total_correct.
Qed.

Lemma load_length m a n : length (load m a n) = n.
Proof. unfold load. by rewrite length_fmap, length_seq. Qed.

Lemma load_lookup m a n i : (i < n)%nat -> load m a n !! i = Some (m (a + Z.of_nat i)).
Proof. intros H. unfold load. by rewrite list_lookup_fmap, lookup_seq_lt. Qed.

Lemma load_ext m1 m2 a n :
  (forall i, (i < n)%nat -> m1 (a + Z.of_nat i) = m2 (a + Z.of_nat i)) -> load m1 a n = load m2 a n.
Proof.
  intros H. unfold load. apply list_fmap_ext. intros i x Hx. apply lookup_seq in Hx as [-> Hi].
  simpl. by apply H.
Qed.

(** What was stored is loaded back. *)
Lemma load_store_same m a bs : load (store m a bs) a (length bs) = bs.
Proof.
  apply list_eq. intros i. destruct (decide (i < length bs)%nat) as [Hi|Hi].
  - rewrite load_lookup by done. destruct (lookup_lt_is_Some_2 bs i Hi) as [b Hb].
    by rewrite (store_in _ _ _ _ _ Hb).
  - rewrite !lookup_ge_None_2; rewrite ?load_length; done || lia.
Qed.

Lemma load_store_other m a bs b n :
  b + Z.of_nat n <= a \/ a + Z.of_nat (length bs) <= b -> load (store m a bs) b n = load m b n.
Proof. intros H. apply load_ext. intros i Hi. apply store_out. lia. Qed.

Lemma read_write_u64 m a v : is_u64 v -> read_u64 (write_u64 m a v) a = v.
Proof.
  intros Hv. unfold read_u64, write_u64.
  rewrite <-(to_le_bytes_length 8 v) at 2. rewrite load_store_same, from_to_le_bytes.
  apply Z.mod_small. exact Hv.
Qed.

Lemma read_write_u64_other m a b v :
  b + 8 <= a \/ a + 8 <= b -> read_u64 (write_u64 m a v) b = read_u64 m b.
Proof.
  intros H. unfold read_u64, write_u64. rewrite load_store_other; [done|].
  rewrite to_le_bytes_length. lia.
Qed.

Lemma read_u64_store_other m a b bs :
  b + 8 <= a \/ a + Z.of_nat (length bs) <= b -> read_u64 (store m a bs) b = read_u64 m b.
Proof. intros H. unfold read_u64. by rewrite load_store_other. Qed.

Lemma load_zero m a n : load (zero m a n) a n = replicate n 0.
Proof. unfold zero. rewrite <-(length_replicate n 0) at 2. apply load_store_same. Qed.

(** A word inside a zeroed range reads 0. *)
Lemma read_u64_zero m a n b :
  a <= b -> b + 8 <= a + Z.of_nat n -> read_u64 (zero m a n) b = 0.
Proof.
  intros H1 H2. unfold read_u64. assert (load (zero m a n) b 8 = replicate 8 0) as ->; [|reflexivity].
  apply list_eq. intros i. destruct (decide (i < 8)%nat) as [Hi|Hi].
  - rewrite load_lookup, lookup_replicate_2 by done. f_equal. unfold zero.
    replace (b + Z.of_nat i) with (a + Z.of_nat (Z.to_nat (b - a) + i)) by lia.
    apply store_in. apply lookup_replicate_2. lia.
  - rewrite !lookup_ge_None_2; rewrite ?load_length, ?length_replicate; done || lia.
Qed.

Lemma mem_wf_store m a bs : mem_wf m -> Forall is_byte bs -> mem_wf (store m a bs).
Proof.
  intros Hm Hb x. destruct (decide (a <= x < a + Z.of_nat (length bs))) as [Hin|Hout].
  - replace x with (a + Z.of_nat (Z.to_nat (x - a))) by lia.
    destruct (lookup_lt_is_Some_2 bs (Z.to_nat (x - a))) as [b E]; [lia|].
    rewrite (store_in _ _ _ _ _ E). rewrite Forall_lookup in Hb. eauto.
  - rewrite store_out by lia. apply Hm.
Qed.

Lemma read_u64_range m a : mem_wf m -> is_u64 (read_u64 m a).
Proof.
  intros Hm. unfold read_u64.
  assert (Forall is_byte (load m a 8)) as Hb.
  { apply Forall_lookup. intros i b Hb. unfold load in Hb. apply list_lookup_fmap_Some in Hb as (? & -> & _). apply Hm. }
  pose proof (from_le_bytes_range _ Hb) as H. rewrite load_length in H. exact H.
Qed.
End Mem.
