(* ===== verification/Elf.v ===== *)
(** ELF images: [src/core/elf/loader.rs].

    The headers are parsed field by field at fixed offsets; a header is parsed
    exactly when its bytes are the little-endian layout of its fields. *)

From Stdlib Require Import ZArith Lia.
From stdpp Require Import base list option numbers.
From S2P Require Import Prelude Types UserMem Bytes.
Import Bytes.

Local Open Scope Z_scope.

Module Elf.

Record Elf64Ehdr := mkEhdr {
  e_ident : bytes;
  e_type : Z;
  e_machine : Z;
  e_version : Z;
  e_entry : Z;
  e_phoff : Z;
  e_shoff : Z;
  e_flags : Z;
  e_ehsize : Z;
  e_phentsize : Z;
  e_phnum : Z;
  e_shentsize : Z;
  e_shnum : Z;
  e_shstrndx : Z;
}.

Record Elf64Phdr := mkPhdr {
  p_type : Z;
  p_flags : Z;
  p_offset : Z;
  p_vaddr : Z;
  p_paddr : Z;
  p_filesz : Z;
  p_memsz : Z;
  p_align : Z;
}.

Definition PT_LOAD : Z := 1.
Definition EM_X86_64 : Z := 62.
Definition ELFMAG : bytes := [127; 69; 76; 70].

(** [uN::from_le_bytes(data\[off..off + n\].try_into().ok()?)] *)
Definition field (data : bytes) (off n : Z) : option Z := from_le_bytes <$> get_range data off n.

Definition parse_elf_header (data : bytes) : option Elf64Ehdr :=
  if blen data <? 64 then None
  else
    ident ← get_range data 0 16;
    if negb (bool_decide (take 4 ident = ELFMAG)) then None
    else
      ty ← field data 16 2;
      machine ← field data 18 2;
      if negb (machine =? EM_X86_64) then None
      else
        version ← field data 20 4;
        entry ← field data 24 8;
        phoff ← field data 32 8;
        shoff ← field data 40 8;
        flags ← field data 48 4;
        ehsize ← field data 52 2;
        phentsize ← field data 54 2;
        phnum ← field data 56 2;
        shentsize ← field data 58 2;
        shnum ← field data 60 2;
        shstrndx ← field data 62 2;
        Some (mkEhdr ident ty machine version entry phoff shoff flags ehsize phentsize phnum shentsize shnum shstrndx).

(** For offsets whose [offset + 56] does not overflow; [Kmod] says what happens at the
    others. *)
Definition parse_phdr (data : bytes) (offset : Z) : option Elf64Phdr :=
  if blen data <? offset + 56 then None
  else
    ty ← field data offset 4;
    flags ← field data (offset + 4) 4;
    off ← field data (offset + 8) 8;
    vaddr ← field data (offset + 16) 8;
    paddr ← field data (offset + 24) 8;
    filesz ← field data (offset + 32) 8;
    memsz ← field data (offset + 40) 8;
    align ← field data (offset + 48) 8;
    Some (mkPhdr ty flags off vaddr paddr filesz memsz align).

Definition entry_point (data : bytes) : option Z := e_entry <$> parse_elf_header data.

(** ** Layouts *)

(** A sequence of integers with their widths in bytes. *)
Definition width (cs : list (nat * Z)) : Z := foldr (fun c w => Z.of_nat c.1 + w) 0 cs.
Definition enc (cs : list (nat * Z)) : bytes := concat ((fun c => to_le_bytes c.1 c.2) <$> cs).
Definition fits (c : nat * Z) : Prop := 0 <= c.2 < 256 ^ Z.of_nat c.1.

Fixpoint fields_at (data : bytes) (off : Z) (cs : list (nat * Z)) : Prop :=
  match cs with
  | [] => True
  | (n, v) :: cs => field data off (Z.of_nat n) = Some v /\ fields_at data (off + Z.of_nat n) cs
  end.

Lemma width_nonneg cs : 0 <= width cs.
Proof. induction cs as [|[n v] cs IH]; [done|]. unfold width in *. cbn [foldr fst]. lia. Qed.

Lemma get_range_app d off n m a b :
  0 <= n -> get_range d off n = Some a -> get_range d (off + n) m = Some b -> get_range d off (n + m) = Some (a ++ b).
Proof.
  intros Hn (H1 & _ & H3 & ->)%get_range_Some (H4 & H5 & H6 & ->)%get_range_Some. apply get_range_Some.
  split; [done|]. split; [lia|]. split; [lia|]. rewrite !Z2Nat.inj_add by lia.
  rewrite <-drop_drop, take_take_drop. done.
Qed.

Lemma get_range_split d off n m r :
  0 <= n -> 0 <= m -> get_range d off (n + m) = Some r ->
  get_range d off n = Some (take (Z.to_nat n) r) /\ get_range d (off + n) m = Some (drop (Z.to_nat n) r).
Proof.
  intros Hn Hm (H1 & H2 & H3 & ->)%get_range_Some. rewrite Z2Nat.inj_add by lia. split; apply get_range_Some.
  - split; [done|]. split; [done|]. split; [lia|]. by rewrite take_take, Nat.min_l by lia.
  - split; [lia|]. split; [done|]. split; [lia|]. rewrite Z2Nat.inj_add, <-drop_drop by lia.
    by rewrite (skipn_firstn_comm (Z.to_nat n)), Nat.add_comm, Nat.add_sub.
Qed.

Lemma field_spec data off n v :
  Forall is_byte data -> field data off (Z.of_nat n) = Some v <->
  fits (n, v) /\ get_range data off (Z.of_nat n) = Some (to_le_bytes n v).
Proof.
  intros Hd. unfold field, fits. cbn [fst snd]. split.
  - intros (r & Hr & ->)%fmap_Some. pose proof (get_range_length _ _ _ _ Hr) as Hl. unfold blen in Hl. apply Nat2Z.inj in Hl.
    pose proof (get_range_bytes _ _ _ _ Hd Hr) as Hb. rewrite <-Hl. split; [by apply from_le_bytes_range|].
    by rewrite to_from_le_bytes, Hl.
  - intros [Hf ->]. cbn. f_equal. rewrite from_to_le_bytes. by apply Z.mod_small.
Qed.

Lemma fields_spec data off cs :
  Forall is_byte data -> 0 <= off <= blen data ->
  fields_at data off cs <-> Forall fits cs /\ get_range data off (width cs) = Some (enc cs).
Proof.
  intros Hd. revert off. induction cs as [|[n v] cs IH]; intros off Hoff.
  - cbn. split; [|done]. intros _. split; [done|]. apply get_range_Some. cbn. split; [lia|]. split; [done|]. split; [lia|]. done.
  - cbn [fields_at]. change (width ((n, v) :: cs)) with (Z.of_nat n + width cs). change (enc ((n, v) :: cs)) with (to_le_bytes n v ++ enc cs).
    rewrite list.Forall_cons, field_spec by done. pose proof (width_nonneg cs) as Hw. split.
    + intros [[Hf Hr] H]. pose proof Hr as (_ & _ & Hle & _)%get_range_Some. apply IH in H as [Hfs Hrs]; [|lia].
      split; [done|]. apply get_range_app; [lia|done|done].
    + intros [[Hf Hfs] Hr]. pose proof Hr as (_ & _ & Hle & _)%get_range_Some.
      apply get_range_split in Hr as [H1 H2]; [|lia|lia]. rewrite Nat2Z.id in H1, H2.
      rewrite take_app_length' in H1 by (by rewrite to_le_bytes_length). rewrite drop_app_length' in H2 by (by rewrite to_le_bytes_length).
      split; [done|]. apply IH; [lia|done].
Qed.

(** ** The two headers *)

Definition ehdr_fields (h : Elf64Ehdr) : list (nat * Z) :=
  [(2%nat, e_type h); (2%nat, e_machine h); (4%nat, e_version h); (8%nat, e_entry h); (8%nat, e_phoff h); (8%nat, e_shoff h);
   (4%nat, e_flags h); (2%nat, e_ehsize h); (2%nat, e_phentsize h); (2%nat, e_phnum h); (2%nat, e_shentsize h);
   (2%nat, e_shnum h); (2%nat, e_shstrndx h)].

Definition ehdr_bytes (h : Elf64Ehdr) : bytes := e_ident h ++ enc (ehdr_fields h).

(** A 64-bit x86-64 header whose fields have their widths. *)
Definition ehdr_wf (h : Elf64Ehdr) : Prop :=
  blen (e_ident h) = 16 /\ take 4 (e_ident h) = ELFMAG /\ e_machine h = EM_X86_64 /\ Forall fits (ehdr_fields h).

Definition phdr_fields (p : Elf64Phdr) : list (nat * Z) :=
  [(4%nat, p_type p); (4%nat, p_flags p); (8%nat, p_offset p); (8%nat, p_vaddr p); (8%nat, p_paddr p); (8%nat, p_filesz p);
   (8%nat, p_memsz p); (8%nat, p_align p)].

Definition phdr_bytes (p : Elf64Phdr) : bytes := enc (phdr_fields p).

(** Reads the fields of a parse off its bind chain. *)
Ltac parse_steps H :=
  repeat match type of H with
    | (_ ← ?m; _) = Some _ => let E := fresh "E" in destruct m eqn:E; [|discriminate H]; cbn [mbind option_bind] in H
    | (if ?b then _ else _) = Some _ => let E := fresh "B" in destruct b eqn:E; try discriminate H
    end.

(** Rewrites with the fields that are known, up to computation of their offsets. *)
Ltac use_fields :=
  repeat match goal with
    | F : field ?data _ _ = Some _ |- context [field ?data ?o ?n] => rewrite (F : field data o n = Some _); clear F
    end;
  cbn [mbind option_bind].

Lemma parse_phdr_spec data off p :
  Forall is_byte data -> 0 <= off ->
  parse_phdr data off = Some p <-> Forall fits (phdr_fields p) /\ get_range data off 56 = Some (phdr_bytes p).
Proof.
  intros Hd Hoff. split.
  - intros H. unfold parse_phdr in H. parse_steps H. apply Z.ltb_ge in B. injection H as <-.
    apply (fields_spec data off (phdr_fields _) Hd ltac:(lia)). cbn [fields_at phdr_fields p_type p_flags p_offset p_vaddr p_paddr p_filesz p_memsz p_align].
    rewrite <-!Z.add_assoc. by repeat split.
  - intros [Hf Hr]. pose proof Hr as (_ & _ & Hle & _)%get_range_Some.
    pose proof (proj2 (fields_spec data off (phdr_fields p) Hd ltac:(lia)) (conj Hf Hr)) as H.
    cbn [fields_at phdr_fields] in H. rewrite <-!Z.add_assoc in H.
    destruct H as (F1 & F2 & F3 & F4 & F5 & F6 & F7 & F8 & _). unfold parse_phdr. rewrite (proj2 (Z.ltb_ge _ _)) by lia.
    use_fields. by destruct p.
Qed.

(** ELF headers are parsed exactly.  The parser returns a header if and only if
    the first 64 bytes of the file are the layout of that header (for x86-64, with
    the magic number), and a program header if and only if the 56 bytes at the
    offset are its layout; so what a linker writes is what the kernel reads. *)
Theorem elf_headers_roundtrip (data : bytes) :
  Forall is_byte data ->
  (forall h, parse_elf_header data = Some h <-> ehdr_wf h /\ get_range data 0 64 = Some (ehdr_bytes h)) /\
  (forall off p, 0 <= off ->
     parse_phdr data off = Some p <-> Forall fits (phdr_fields p) /\ get_range data off 56 = Some (phdr_bytes p)).
Proof.
  intros Hd. split; [|intros; by apply parse_phdr_spec]. intros h. split.
  - intros H. unfold parse_elf_header in H. parse_steps H. apply Z.ltb_ge in B. injection H as <-.
    apply negb_false_iff, bool_decide_eq_true in B0. apply negb_false_iff, Z.eqb_eq in B1.
    pose proof (get_range_length _ _ _ _ E) as Hl.
    destruct (proj1 (fields_spec data 16 (ehdr_fields (mkEhdr l z z0 z1 z2 z3 z4 z5 z6 z7 z8 z9 z10 z11)) Hd ltac:(lia))) as [Hf Hr].
    { by repeat split. }
    split; [done|]. by apply (get_range_app data 0 16 48).
  - intros ((Hl & Hm & Hx & Hf) & Hr). pose proof Hr as (_ & _ & Hle & _)%get_range_Some.
    apply (get_range_split data 0 16 48) in Hr as [R1 R2]; [|lia|lia]. unfold ehdr_bytes in R1, R2.
    assert (length (e_ident h) = Z.to_nat 16) as Hl' by (unfold blen in Hl; lia).
    rewrite take_app_length' in R1 by done. rewrite drop_app_length' in R2 by done.
    pose proof (proj2 (fields_spec data 16 (ehdr_fields h) Hd ltac:(lia)) (conj Hf R2)) as H.
    cbn [fields_at ehdr_fields] in H.
    destruct H as (F1 & F2 & F3 & F4 & F5 & F6 & F7 & F8 & F9 & F10 & F11 & F12 & F13 & _). unfold parse_elf_header.
    rewrite (proj2 (Z.ltb_ge _ _)) by lia. rewrite R1. cbn [mbind option_bind]. rewrite bool_decide_true by done. cbn [negb].
    use_fields. rewrite Hx, Z.eqb_refl. cbn [negb]. use_fields. rewrite <-Hx. by destruct h.
Qed.

(** A header with one program header behind it. *)
Definition demo_ehdr : Elf64Ehdr :=
  mkEhdr (ELFMAG ++ [2; 1; 1; 0; 0; 0; 0; 0; 0; 0; 0; 0]) 2 62 1 8388608 64 0 0 64 56 1 0 0 0.
Definition demo_phdr : Elf64Phdr := mkPhdr 1 5 120 8388608 8388608 4 4 4096.
Definition demo_elf : bytes := ehdr_bytes demo_ehdr ++ phdr_bytes demo_phdr ++ [235; 254; 144; 144].

Lemma demo_elf_bytes : Forall is_byte demo_elf.
Proof. unfold is_byte. repeat apply list.Forall_cons_2; try apply list.Forall_nil_2; vm_compute; done. Qed.

Lemma elf_headers_roundtrip_witness :
  parse_elf_header demo_elf = Some demo_ehdr /\ parse_phdr demo_elf 64 = Some demo_phdr.
Proof.
  destruct (elf_headers_roundtrip demo_elf demo_elf_bytes) as [H1 H2]. split.
  - apply H1. split; [|vm_compute; reflexivity]. repeat split; vm_compute; try reflexivity; repeat constructor; done.
  - apply H2; [done|]. split; [repeat constructor; vm_compute; done|vm_compute; reflexivity].
Defined.
End Elf.
