(* ===== verification/ExecStack.v ===== *)
(** The first stack of a program: address-space randomisation and
    [build_initial_user_stack] of [src/core/syscall/exec.rs].

    The kernel writes one page: the argument count, the argument and environment
    pointers, the auxiliary vector and, above them, the strings.  [startup] reads
    that page as the start code of a C program does; the two are inverse. *)

From Stdlib Require Import ZArith Lia.
From stdpp Require Import base list option numbers.
From S2P Require Import Prelude Types UserMem Bytes Mem.
Import Bytes Mem Sys.

Local Open Scope Z_scope.

Module ExecStack.

(** ** Randomisation *)

Definition STACK_TOP_BASE : Z := 140737487306752.
Definition STACK_ASLR_MAX_PAGES : Z := 4096.
Definition USER_STACK_SIZE_PAGES : Z := 32.
Definition TLS_BASE_MIN : Z := 805306368.
Definition TLS_ASLR_MAX_PAGES : Z := 16384.
Definition INITIAL_TLS_SIZE : Z := 4096.
Definition HEAP_BASE_MIN : Z := 1073741824.
Definition HEAP_ASLR_MAX_PAGES : Z := 32768.
Definition HEAP_MAP_SIZE : Z := 8192.

Definition aslr_mix64 (x : Z) : Z :=
  let x := Z.lxor x (Z.shiftr x 30) in
  let x := wrapping_mul64 x 13787848793156543929 in
  let x := Z.lxor x (Z.shiftr x 27) in
  let x := wrapping_mul64 x 10723151780598845931 in
  Z.lxor x (Z.shiftr x 31).

Definition aslr_offset_pages (seed max_pages : Z) : Z := if max_pages =? 0 then 0 else aslr_mix64 seed mod max_pages.

Definition rotate_left (x n : Z) : Z := wrap64 (Z.lor (Z.shiftl x n) (Z.shiftr x (64 - n))).

(** [next_aslr_seed]: [counter] is [EXEC_ASLR_COUNTER]; the boot entropy, the
    ticks, the thread and the hardware generator are read from outside.  Returns
    the seed and the counter afterwards. *)
Definition next_aslr_seed (boot ticks : Z) (tid hw : option Z) (tag : bytes) (counter : Z) : Z * Z :=
  let hash := foldl (fun h b => wrapping_mul64 (Z.lxor h b) 1099511628211) 14695981039346656037 tag in
  let init := Z.lxor boot 8956110944432397085 in
  let counter := if counter =? 0 then if init =? 0 then 1 else init else counter in
  (aslr_mix64 (Z.lxor (Z.lxor (Z.lxor (Z.lxor (Z.lxor hash counter) (rotate_left ticks 17)) (rotate_left (default 0 tid) 7))
     (rotate_left (default 0 hw) 29)) boot),
   wrapping_add64 counter 11400714819323198485).

Definition stack_end_of (seed : Z) : Z :=
  saturating_sub64 STACK_TOP_BASE (aslr_offset_pages (Z.lxor seed 1403592237) STACK_ASLR_MAX_PAGES * 4096).
Definition stack_base_of (seed : Z) : Z := stack_end_of seed - USER_STACK_SIZE_PAGES * 4096.
Definition heap_base_of (seed : Z) : Z :=
  saturating_add64 HEAP_BASE_MIN (aslr_offset_pages (Z.lxor seed 1242655580) HEAP_ASLR_MAX_PAGES * 4096).
Definition tls_base_of (seed : Z) : Z :=
  saturating_add64 TLS_BASE_MIN (aslr_offset_pages (Z.lxor seed 433536106) TLS_ASLR_MAX_PAGES * 4096).

(** ** The page *)

Record InitialUserStack := mkStack {
  stack_base_vaddr : Z;
  stack_end_vaddr : Z;
  initial_rsp : Z;
  page_data : bytes;
}.

Definition word (v : Z) : bytes := to_le_bytes 8 v.
Definition words (vs : list Z) : bytes := concat (word <$> vs).
Definition pad (n : Z) : bytes := replicate (Z.to_nat n) 0.
Definition zlen {A} (l : list A) : Z := Z.of_nat (length l).

(** A string and its terminator are appended; where it starts is noted. *)
Definition push_string (st : list Z * bytes) (s : bytes) : list Z * bytes := (st.1 ++ [blen st.2], st.2 ++ s ++ [0]).

Definition lcg (x : Z) : Z := wrapping_add64 (wrapping_mul64 x 6364136223846793005) 1442695040888963407.

Fixpoint random_bytes (n : nat) (rng : Z) : bytes :=
  match n with
  | O => []
  | S n => let rng := lcg rng in Z.shiftr rng 33 mod 256 :: random_bytes n rng
  end.

Definition AT_RANDOM : Z := 25.
Definition AT_EXECFN : Z := 31.

Definition resolve_aux (random_addr execfn_addr : Z) (kv : Z * Z) : Z * Z :=
  (kv.1, if kv.1 =? AT_RANDOM then random_addr else if kv.1 =? AT_EXECFN then execfn_addr else kv.2).

Definition build_initial_user_stack (aslr_seed : Z) (argv envp : list bytes) (execfn : bytes) (auxv_entries : list (Z * Z)) :
    result InitialUserStack Z :=
  let stack_end := stack_end_of aslr_seed in
  let '(argv_offsets, block) := foldl push_string ([], []) argv in
  let '(envp_offsets, block) := foldl push_string ([], block) envp in
  let random_offset := blen block in
  let block := block ++ random_bytes 16 (lcg aslr_seed) in
  let execfn_offset := blen block in
  let string_block := block ++ execfn ++ [0] in
  let string_area_len := blen string_block in
  let pointers_bytes := 8 + zlen argv * 8 + 8 + zlen envp * 8 + 8 + zlen auxv_entries * 16 in
  let total_data_needed := string_area_len + pointers_bytes in
  let padding_len := (16 - total_data_needed mod 16) mod 16 in
  let total_size := total_data_needed + padding_len in
  if 4096 <? total_size then Err EINVAL
  else
    let string_area_base := stack_end - string_area_len in
    let page_offset := total_size mod 4096 in
    let unused_space := if page_offset =? 0 then 0 else 4096 - page_offset in
    let aux := resolve_aux (string_area_base + random_offset) (string_area_base + execfn_offset) <$> auxv_entries in
    let data :=
      pad unused_space ++
      word (zlen argv) ++
      words ((fun off => string_area_base + off) <$> argv_offsets) ++ word 0 ++
      words ((fun off => string_area_base + off) <$> envp_offsets) ++ word 0 ++
      words (concat ((fun kv => [kv.1; kv.2]) <$> aux)) ++
      pad padding_len ++
      string_block in
    if negb (blen data =? 4096) then Err EINVAL
    else Ok (mkStack (stack_base_of aslr_seed) stack_end (stack_end - total_size) data).

(** ** Reading the page *)

(** Words up to a zero word, bytes up to a zero byte, pairs up to a zero key. *)
Fixpoint read_vector (n : nat) (m : mem) (a : Z) : list Z :=
  match n with
  | O => []
  | S n => if read_u64 m a =? 0 then [] else read_u64 m a :: read_vector n m (a + 8)
  end.

Fixpoint read_cstr (n : nat) (m : mem) (a : Z) : bytes :=
  match n with
  | O => []
  | S n => if m a =? 0 then [] else m a :: read_cstr n m (a + 1)
  end.

Fixpoint read_aux (n : nat) (m : mem) (a : Z) : list (Z * Z) :=
  match n with
  | O => []
  | S n => if read_u64 m a =? 0 then [] else (read_u64 m a, read_u64 m (a + 8)) :: read_aux n m (a + 16)
  end.

Record Startup := mkStartup { s_argc : Z; s_argv : list bytes; s_envp : list bytes; s_auxv : list (Z * Z) }.

(** What the start code finds at the stack pointer. *)
Definition startup (m : mem) (rsp : Z) : Startup :=
  let argc := read_u64 m rsp in
  let argv := read_vector 512 m (rsp + 8) in
  let envp_at := rsp + 8 + 8 * (argc + 1) in
  let envp := read_vector 512 m envp_at in
  mkStartup argc (read_cstr 4096 m <$> argv) (read_cstr 4096 m <$> envp) (read_aux 256 m (envp_at + 8 * (zlen envp + 1))).

(** ** Memory that holds given bytes *)

Definition holds (m : mem) (a : Z) (bs : bytes) : Prop := forall i b, bs !! i = Some b -> m (a + Z.of_nat i) = b.

Lemma holds_app m a x y : holds m a (x ++ y) <-> holds m a x /\ holds m (a + blen x) y.
Proof.
  unfold holds, blen. split.
  - intros H. split; intros i b Hb.
    + apply H. by apply lookup_app_l_Some.
    + rewrite <-Z.add_assoc, <-Nat2Z.inj_add. apply H. rewrite lookup_app_r by lia. rewrite <-Hb. f_equal. lia.
  - intros [H1 H2] i b [Hb|[Hi Hb]]%lookup_app_Some; [by apply H1|].
    replace (a + Z.of_nat i) with (a + Z.of_nat (length x) + Z.of_nat (i - length x)) by lia. by apply H2.
Qed.

Lemma holds_store m a bs : holds (store m a bs) a bs.
Proof. intros i b Hb. by apply store_in. Qed.

Lemma blen_app (x y : bytes) : blen (x ++ y) = blen x + blen y.
Proof. unfold blen. rewrite length_app. lia. Qed.

Lemma blen_word v : blen (word v) = 8.
Proof. unfold blen, word. by rewrite to_le_bytes_length. Qed.

Lemma blen_words vs : blen (words vs) = 8 * zlen vs.
Proof.
  unfold zlen, words. induction vs as [|v vs IH]; [done|]. cbn [fmap list_fmap concat]. rewrite blen_app, blen_word, IH. cbn [length]. lia.
Qed.

Lemma read_word m a v : is_u64 v -> holds m a (word v) -> read_u64 m a = v.
Proof.
  intros Hv H. unfold read_u64.
  assert (load m a 8 = word v) as ->.
  { apply list_eq. intros i. destruct (decide (i < 8)%nat) as [Hi|Hi].
    - rewrite load_lookup by done. destruct (lookup_lt_is_Some_2 (word v) i) as [b Hb]; [by unfold word; rewrite to_le_bytes_length|].
      rewrite Hb. f_equal. by apply H.
    - rewrite !lookup_ge_None_2; [done|unfold word; rewrite to_le_bytes_length; lia|rewrite load_length; lia]. }
  unfold word. rewrite from_to_le_bytes. apply Z.mod_small. exact Hv.
Qed.

Lemma words_cons v vs : words (v :: vs) = word v ++ words vs.
Proof. done. Qed.

Lemma holds_word_cons m a v rest : is_u64 v -> holds m a (word v ++ rest) -> read_u64 m a = v /\ holds m (a + 8) rest.
Proof. intros Hv [H1 H2]%holds_app. rewrite blen_word in H2. split; [by apply read_word|done]. Qed.

Lemma read_vector_spec n m a vs rest :
  Forall (fun v => v <> 0 /\ is_u64 v) vs -> (length vs < n)%nat -> holds m a (words vs ++ word 0 ++ rest) -> read_vector n m a = vs.
Proof.
  intros Hv. revert n a. induction Hv as [|v vs [Hnz Hu] _ IH]; intros n a Hn H; (destruct n as [|n]; [cbn in Hn; lia|]); cbn [read_vector].
  - apply holds_word_cons in H as [-> _]; [done|split; [lia|done]].
  - rewrite words_cons, <-app_assoc in H. apply holds_word_cons in H as [-> H]; [|done].
    rewrite (proj2 (Z.eqb_neq _ _) Hnz). f_equal. apply IH; [cbn in Hn; lia|done].
Qed.

Lemma read_cstr_spec n m a s rest : 0 ∉ s -> (length s < n)%nat -> holds m a (s ++ 0 :: rest) -> read_cstr n m a = s.
Proof.
  revert n a. induction s as [|b s IH]; intros n a Hs Hn H; (destruct n as [|n]; [cbn in Hn; lia|]); cbn [read_cstr].
  - assert (m a = 0) as -> by (rewrite <-(Z.add_0_r a); by apply (H 0%nat)). done.
  - apply not_elem_of_cons in Hs as [Hb Hs]. assert (m a = b) as -> by (rewrite <-(Z.add_0_r a); by apply (H 0%nat)).
    rewrite (proj2 (Z.eqb_neq b 0)) by done. f_equal. apply IH; [done|cbn in Hn; lia|].
    intros i c Hc. rewrite <-(H (S i) c) by done. f_equal. lia.
Qed.

Definition aux_words (aux : list (Z * Z)) : bytes := words (concat ((fun kv => [kv.1; kv.2]) <$> aux)).

Definition aux_ok (kv : Z * Z) : Prop := kv.1 <> 0 /\ is_u64 kv.1 /\ is_u64 kv.2.

Lemma read_aux_spec n m a aux v0 rest :
  Forall aux_ok aux -> (length aux < n)%nat -> holds m a (aux_words (aux ++ [(0, v0)]) ++ rest) -> read_aux n m a = aux.
Proof.
  unfold aux_words. intros Hv. revert n a. induction Hv as [|[k v] aux (Hnz & Hk & Hu) _ IH]; intros n a Hn H;
    (destruct n as [|n]; [cbn in Hn; lia|]); cbn [read_aux].
  - cbn [app fmap list_fmap concat fst snd] in H. rewrite words_cons, <-app_assoc in H. apply holds_word_cons in H as [-> _]; [done|split; [lia|done]].
  - cbn [app fmap list_fmap concat fst snd] in *. rewrite !words_cons, <-!app_assoc in H.
    apply holds_word_cons in H as [-> H]; [|done]. apply holds_word_cons in H as [-> H]; [|done].
    rewrite (proj2 (Z.eqb_neq _ _) Hnz). f_equal. apply IH; [cbn in Hn; lia|]. by rewrite <-Z.add_assoc in H.
Qed.

(** ** The string block *)

Definition strings (ss : list bytes) : bytes := concat ((fun s => s ++ [0]) <$> ss).

Fixpoint offsets (b : Z) (ss : list bytes) : list Z :=
  match ss with
  | [] => []
  | s :: ss => b :: offsets (b + blen s + 1) ss
  end.

Lemma push_strings offs blk ss :
  foldl push_string (offs, blk) ss = (offs ++ offsets (blen blk) ss, blk ++ strings ss).
Proof.
  revert offs blk. induction ss as [|s ss IH]; intros offs blk; cbn [foldl offsets].
  - unfold strings. cbn. by rewrite !app_nil_r.
  - unfold push_string at 2. cbn [fst snd]. rewrite IH. rewrite <-app_assoc. cbn [app].
    rewrite !blen_app. change (blen [0]) with 1. rewrite Z.add_assoc. f_equal. unfold strings. cbn [fmap list_fmap concat]. by rewrite <-!app_assoc.
Qed.

Lemma length_offsets b ss : length (offsets b ss) = length ss.
Proof. revert b. induction ss; intros b; cbn; auto. Qed.

Lemma offsets_range b ss x : x ∈ offsets b ss -> b <= x <= b + blen (strings ss).
Proof.
  revert b. induction ss as [|s ss IH]; intros b; cbn [offsets]; [by intros ?%elem_of_nil|].
  unfold strings. cbn [fmap list_fmap concat]. rewrite !blen_app. change (blen [0]) with 1. fold (strings ss).
  assert (forall l : bytes, 0 <= blen l) as Hp by (intros; unfold blen; lia). pose proof (Hp s). pose proof (Hp (strings ss)).
  intros [->|H']%elem_of_cons; [lia|]. apply IH in H'. lia.
Qed.

Lemma read_strings n m base b ss rest :
  Forall (fun s => 0 ∉ s) ss -> blen (strings ss) <= Z.of_nat n -> holds m (base + b) (strings ss ++ rest) ->
  read_cstr n m <$> ((fun off => base + off) <$> offsets b ss) = ss.
Proof.
  intros Hs. revert b. induction Hs as [|s ss H0 _ IH]; intros b Hn H; [done|].
  unfold strings in *. cbn [offsets fmap list_fmap concat] in *. rewrite !blen_app in Hn. change (blen [0]) with 1 in Hn.
  rewrite <-!app_assoc in H. fold (strings ss) in *. assert (0 <= blen (strings ss)) by (unfold blen; lia). f_equal.
  - apply (read_cstr_spec _ _ _ _ (strings ss ++ rest)); [done|unfold blen in *; lia|done].
  - apply IH; [unfold blen in *; lia|]. apply holds_app in H as [_ H]. apply (holds_app _ _ [0]) in H as [_ H].
    change (blen [0]) with 1 in H. replace (base + (b + blen s + 1)) with (base + b + blen s + 1) by lia. done.
Qed.

(** ** Sizes and addresses *)

Lemma aslr_offset_range seed max : 0 < max -> 0 <= aslr_offset_pages seed max < max.
Proof. intros H. unfold aslr_offset_pages. rewrite (proj2 (Z.eqb_neq _ _)) by lia. by apply Z.mod_pos_bound. Qed.

Lemma stack_end_range seed :
  STACK_TOP_BASE - 4095 * 4096 <= stack_end_of seed <= STACK_TOP_BASE /\ stack_end_of seed mod 4096 = 0.
Proof.
  unfold stack_end_of, saturating_sub64. set (o := aslr_offset_pages _ _).
  assert (0 <= o < STACK_ASLR_MAX_PAGES) as Ho by (apply aslr_offset_range; done). unfold STACK_ASLR_MAX_PAGES in Ho.
  unfold STACK_TOP_BASE. rewrite Z.max_l by lia. split; [lia|].
  replace (140737487306752 - o * 4096) with ((34359738112 - o) * 4096) by lia. apply Z_mod_mult.
Qed.

(** The bytes a stack needs, before and after rounding to 16. *)
Definition stack_bytes (argv envp : list bytes) (execfn : bytes) (n_aux : Z) : Z :=
  blen (strings argv) + blen (strings envp) + 16 + blen execfn + 1 + (8 + zlen argv * 8 + 8 + zlen envp * 8 + 8 + n_aux * 16).

Definition round16 (n : Z) : Z := n + (16 - n mod 16) mod 16.

Lemma round16_spec n : round16 n mod 16 = 0 /\ n <= round16 n < n + 16.
Proof.
  unfold round16. pose proof (Z.mod_pos_bound (16 - n mod 16) 16 ltac:(lia)) as H. split; [|lia].
  rewrite Zplus_mod_idemp_r. rewrite Z.add_sub_assoc, Z.add_comm, <-Z.add_sub_assoc, Zplus_mod, Zminus_mod_idemp_r, Z.sub_diag. done.
Qed.

Lemma length_random n x : length (random_bytes n x) = n.
Proof. revert x. induction n as [|n IH]; intros x; [done|]. cbn [random_bytes length]. by rewrite IH. Qed.

Lemma blen_pad n : 0 <= n -> blen (pad n) = n.
Proof. intros H. unfold blen, pad. rewrite length_replicate. lia. Qed.

Lemma length_aux_words (aux : list (Z * Z)) : length (concat ((fun kv => [kv.1; kv.2]) <$> aux)) = (2 * length aux)%nat.
Proof. induction aux as [|kv aux IH]; [done|]. cbn [fmap list_fmap concat app length]. rewrite IH. lia. Qed.

Lemma zlen_map {A B} (f : A -> B) l : zlen (f <$> l) = zlen l.
Proof. unfold zlen. by rewrite length_fmap. Qed.

(** The page, from the stack pointer up. *)
Definition frame (base : Z) (argv envp : list bytes) (execfn rnd : bytes) (aux : list (Z * Z)) (padding : Z) : bytes :=
  word (zlen argv) ++
  words ((fun off => base + off) <$> offsets 0 argv) ++ word 0 ++
  words ((fun off => base + off) <$> offsets (blen (strings argv)) envp) ++ word 0 ++
  aux_words aux ++ pad padding ++ (strings argv ++ strings envp ++ rnd ++ execfn ++ [0]).

Lemma build_shape seed argv envp execfn auxv :
  let size := round16 (stack_bytes argv envp execfn (zlen auxv)) in
  let base := stack_end_of seed - (blen (strings argv) + blen (strings envp) + 16 + blen execfn + 1) in
  let rnd := random_bytes 16 (lcg seed) in
  let ra := base + blen (strings argv) + blen (strings envp) in
  let fr := frame base argv envp execfn rnd (resolve_aux ra (ra + 16) <$> auxv) (size - stack_bytes argv envp execfn (zlen auxv)) in
  blen fr = size /\
  build_initial_user_stack seed argv envp execfn auxv =
  if 4096 <? size then Err EINVAL
  else Ok (mkStack (stack_base_of seed) (stack_end_of seed) (stack_end_of seed - size) (pad (4096 - size) ++ fr)).
Proof.
  intros size base rnd ra fr. pose proof (round16_spec (stack_bytes argv envp execfn (zlen auxv))) as [_ Hsz]. fold size in Hsz.
  assert (blen rnd = 16) as Hrnd by (unfold blen, rnd; by rewrite length_random).
  assert (forall l : bytes, 0 <= blen l) as Hp by (intros; unfold blen; lia).
  assert (forall A (l : list A), 0 <= zlen l) as Hz by (intros; unfold zlen; lia).
  assert (blen fr = size) as Hfr.
  { unfold fr, frame, aux_words. rewrite !blen_app, !blen_words, !blen_word, !zlen_map, Hrnd.
    rewrite blen_pad by lia. change (blen [0]) with 1. unfold size, round16, stack_bytes, zlen.
    rewrite !length_offsets, length_aux_words, length_fmap. lia. }
  split; [done|]. unfold build_initial_user_stack. rewrite push_strings. cbn beta iota. rewrite push_strings. cbn beta iota. rewrite !app_nil_l.
  fold rnd. set (sb := ((strings argv ++ strings envp) ++ rnd) ++ execfn ++ [0]).
  assert (blen sb = blen (strings argv) + blen (strings envp) + 16 + blen execfn + 1) as Hsb.
  { unfold sb. rewrite !blen_app, Hrnd. change (blen [0]) with 1. lia. }
  assert (blen ((strings argv ++ strings envp) ++ rnd) = blen (strings argv) + blen (strings envp) + 16) as ->.
  { rewrite !blen_app, Hrnd. lia. }
  assert (blen (strings argv ++ strings envp) = blen (strings argv) + blen (strings envp)) as -> by apply blen_app.
  rewrite Hsb. change (blen []) with 0.
  fold base. fold (stack_bytes argv envp execfn (zlen auxv)).
  fold (round16 (stack_bytes argv envp execfn (zlen auxv))). fold size. destruct (Z.ltb_spec 4096 size) as [|Hle]; [done|].
  assert (0 < size) as Hpos.
  { unfold stack_bytes in Hsz. pose proof (Hp (strings argv)). pose proof (Hp (strings envp)). pose proof (Hp execfn).
    pose proof (Hz _ argv). pose proof (Hz _ envp). pose proof (Hz _ auxv). lia. }
  assert ((if size mod 4096 =? 0 then 0 else 4096 - size mod 4096) = 4096 - size) as ->.
  { destruct (decide (size = 4096)) as [->|]; [done|]. rewrite Z.mod_small by lia. rewrite (proj2 (Z.eqb_neq _ _)) by lia. done. }
  replace (base + (blen (strings argv) + blen (strings envp))) with ra by (unfold ra; lia).
  replace (base + (blen (strings argv) + blen (strings envp) + 16)) with (ra + 16) by (unfold ra; lia).
  replace ((16 - stack_bytes argv envp execfn (zlen auxv) mod 16) mod 16) with (size - stack_bytes argv envp execfn (zlen auxv)) by (unfold size, round16; lia).
  assert (sb = strings argv ++ strings envp ++ rnd ++ execfn ++ [0]) as -> by (unfold sb; by rewrite <-!app_assoc).
  match goal with |- context [pad (4096 - size) ++ ?f] => change f with fr end. rewrite blen_app, blen_pad, Hfr by lia. by replace (4096 - size + size) with 4096 by lia.
Qed.

Lemma zlen_offsets b ss : zlen (offsets b ss) = zlen ss.
Proof. unfold zlen. by rewrite length_offsets. Qed.

(** The start code reads a frame back. *)
Lemma startup_frame m rsp base argv envp execfn rnd aux v0 padding :
  Forall (fun s => 0 ∉ s) argv -> Forall (fun s => 0 ∉ s) envp -> 0 ∉ execfn -> Forall aux_ok aux ->
  0 < base -> base + 4096 < U64_MODULUS -> 0 <= padding ->
  blen (frame base argv envp execfn rnd (aux ++ [(0, v0)]) padding) <= 4096 ->
  rsp + blen (frame base argv envp execfn rnd (aux ++ [(0, v0)]) padding) =
    base + blen (strings argv ++ strings envp ++ rnd ++ execfn ++ [0]) ->
  holds m rsp (frame base argv envp execfn rnd (aux ++ [(0, v0)]) padding) ->
  startup m rsp = mkStartup (zlen argv) argv envp aux /\
  read_cstr 4096 m (base + blen (strings argv) + blen (strings envp) + blen rnd) = execfn.
Proof.
  intros Ha He Hx Haux Hb Hb' Hpad Hlen Hbase H. unfold frame in Hlen, Hbase, H. rewrite !blen_app, !blen_words, !blen_word, !zlen_map in Hlen, Hbase.
  assert (forall A (l : list A), 0 <= zlen l) as Hz by (intros; unfold zlen; lia).
  assert (forall l : bytes, 0 <= blen l) as Hp by (intros; unfold blen; lia).
  assert (blen (aux_words (aux ++ [(0, v0)])) = 16 * zlen aux + 16) as Hal.
  { unfold aux_words, zlen. rewrite blen_words. unfold zlen. rewrite length_aux_words, length_app. cbn [length]. lia. }
  rewrite Hal, !zlen_offsets in Hlen, Hbase.
  rewrite (blen_pad padding) in Hlen, Hbase by done. change (blen [0]) with 1 in Hlen, Hbase.
  pose proof (Hz _ argv). pose proof (Hz _ envp). pose proof (Hz _ aux). pose proof (Hp (strings argv)). pose proof (Hp (strings envp)).
  pose proof (Hp rnd). pose proof (Hp execfn).
  assert (forall b ss, 0 <= b -> b + blen (strings ss) <= 4096 ->
    Forall (fun v => v <> 0 /\ is_u64 v) ((fun off => base + off) <$> offsets b ss)) as Hoff.
  { intros b ss Hb0 Hb1. apply Forall_elem. intros v (off & -> & Hin)%list_elem_of_fmap. apply offsets_range in Hin. unfold is_u64. lia. }
  apply holds_word_cons in H as [Eargc H]; [|unfold is_u64, U64_MODULUS; lia].
  pose proof H as Hargv. apply holds_app in H as [_ H]. rewrite blen_words, zlen_map, zlen_offsets in H.
  apply holds_word_cons in H as [_ H]; [|split; [lia|done]].
  pose proof H as Henvp. apply holds_app in H as [_ H]. rewrite blen_words, zlen_map, zlen_offsets in H.
  apply holds_word_cons in H as [_ H]; [|split; [lia|done]].
  pose proof H as Hauxw. apply holds_app in H as [_ H]. rewrite Hal in H. apply holds_app in H as [_ H]. rewrite blen_pad in H by done.
  replace (rsp + 8 + 8 * zlen argv + 8 + 8 * zlen envp + 8 + (16 * zlen aux + 16) + padding) with (base + 0) in H by lia.
  pose proof H as Hs1. apply holds_app in H as [_ H]. rewrite Z.add_0_r in H. pose proof H as Hs2. apply holds_app in H as [_ H]. apply holds_app in H as [_ H].
  assert (read_vector 512 m (rsp + 8) = (fun off => base + off) <$> offsets 0 argv) as Ev.
  { eapply read_vector_spec; [apply Hoff; lia| |exact Hargv]. rewrite length_fmap, length_offsets. unfold zlen in *. lia. }
  assert (read_vector 512 m (rsp + 8 + 8 * (zlen argv + 1)) = (fun off => base + off) <$> offsets (blen (strings argv)) envp) as Ee.
  { eapply read_vector_spec; [apply Hoff; lia| |]. { rewrite length_fmap, length_offsets. unfold zlen in *. lia. }
    replace (rsp + 8 + 8 * (zlen argv + 1)) with (rsp + 8 + 8 * zlen argv + 8) by lia. exact Henvp. }
  split.
  - unfold startup. rewrite Eargc, Ev, Ee, zlen_map, zlen_offsets. f_equal.
    + eapply read_strings; [done|unfold blen in *; lia|exact Hs1].
    + eapply read_strings; [done|unfold blen in *; lia|exact Hs2].
    + eapply read_aux_spec; [done|unfold zlen in *; lia|].
      replace (rsp + 8 + 8 * (zlen argv + 1) + 8 * (zlen envp + 1)) with (rsp + 8 + 8 * zlen argv + 8 + 8 * zlen envp + 8) by lia. exact Hauxw.
  - eapply read_cstr_spec; [done|unfold blen in *; lia|exact H].
Qed.

Lemma resolve_aux_ok ra ea kv : is_u64 ra -> is_u64 ea -> aux_ok kv -> aux_ok (resolve_aux ra ea kv).
Proof. intros Hr He (H1 & H2 & H3). unfold aux_ok, resolve_aux. cbn [fst snd]. split; [done|]. split; [done|]. by repeat case_match. Qed.

(** C16. A program receives its arguments.  [build_initial_user_stack] succeeds
    exactly when the frame, rounded to 16 bytes, fits one page.  Then the stack
    pointer is aligned to 16 bytes and lies in the page below the end of the
    stack, and the start code that reads any memory holding that page finds the
    argument count, the arguments, the environment and the auxiliary vector that
    were passed in, with [AT_RANDOM] and [AT_EXECFN] pointing at sixteen bytes of
    the page and at the path of the program. *)
Theorem initial_stack_roundtrip (seed : Z) (argv envp : list bytes) (execfn : bytes) (aux : list (Z * Z)) (v0 : Z) :
  Forall (fun s => 0 ∉ s) argv -> Forall (fun s => 0 ∉ s) envp -> 0 ∉ execfn -> Forall aux_ok aux ->
  match build_initial_user_stack seed argv envp execfn (aux ++ [(0, v0)]) with
  | Ok st =>
      blen (page_data st) = 4096 /\ initial_rsp st mod 16 = 0 /\
      stack_end_vaddr st - 4096 <= initial_rsp st < stack_end_vaddr st /\
      forall m, holds m (stack_end_vaddr st - 4096) (page_data st) ->
        exists ra ea,
          startup m (initial_rsp st) = mkStartup (zlen argv) argv envp (resolve_aux ra ea <$> aux) /\
          read_cstr 4096 m ea = execfn /\ initial_rsp st <= ra /\ ra + 16 <= stack_end_vaddr st
  | Err e => e = EINVAL /\ 4096 < round16 (stack_bytes argv envp execfn (zlen aux + 1))
  end.
Proof.
  intros Ha He Hx Haux. pose proof (build_shape seed argv envp execfn (aux ++ [(0, v0)])) as Hshape.
  cbv zeta in Hshape. rewrite fmap_app in Hshape. destruct Hshape as [Hlen ->].
  assert (zlen (aux ++ [(0, v0)]) = zlen aux + 1) as Hz by (unfold zlen; rewrite length_app; cbn [length]; lia). rewrite Hz in *.
  set (size := round16 _) in *. set (base := stack_end_of seed - _) in *. set (rnd := random_bytes _ _) in *.
  set (ra := base + _ + _) in *. set (fr := frame _ _ _ _ _ _ _) in *.
  destruct (round16_spec (stack_bytes argv envp execfn (zlen aux + 1))) as [Hr16 Hsz]. fold size in Hr16, Hsz.
  destruct (Z.ltb_spec 4096 size) as [Hgt|Hle]; [done|]. cbn [page_data initial_rsp stack_end_vaddr].
  destruct (stack_end_range seed) as [Hse Hsm]. unfold STACK_TOP_BASE in Hse.
  assert (forall l : bytes, 0 <= blen l) as Hp by (intros; unfold blen; lia).
  assert (forall A (l : list A), 0 <= zlen l) as Hzp by (intros; unfold zlen; lia).
  pose proof (Hp (strings argv)). pose proof (Hp (strings envp)). pose proof (Hp execfn). pose proof (Hzp _ argv). pose proof (Hzp _ envp). pose proof (Hzp _ aux).
  unfold stack_bytes in Hsz. assert (blen rnd = 16) as Hrnd by (unfold blen, rnd; by rewrite length_random).
  split; [rewrite blen_app, blen_pad, Hlen by lia; lia|]. split.
  { rewrite Zminus_mod, Hr16. rewrite (Z.div_mod (stack_end_of seed) 4096), Hsm, Z.add_0_r by lia.
    replace (4096 * (stack_end_of seed / 4096)) with ((256 * (stack_end_of seed / 4096)) * 16) by lia. by rewrite Z_mod_mult. }
  split; [lia|]. intros m Hm. apply holds_app in Hm as [_ Hm]. rewrite blen_pad in Hm by lia.
  replace (stack_end_of seed - 4096 + (4096 - size)) with (stack_end_of seed - size) in Hm by lia.
  exists ra, (ra + 16).
  destruct (startup_frame m (stack_end_of seed - size) base argv envp execfn rnd (resolve_aux ra (ra + 16) <$> aux) (snd (resolve_aux ra (ra + 16) (0, v0)))
    (size - stack_bytes argv envp execfn (zlen aux + 1))) as [E1 E2]; [done|done|done| |unfold base; lia|unfold base, U64_MODULUS; lia|unfold stack_bytes; lia|change (blen fr <= 4096); lia| |exact Hm|].
  - apply Forall_fmap. eapply Forall_impl; [|exact Haux]. intros kv. cbn. apply resolve_aux_ok; unfold is_u64, U64_MODULUS, ra, base; lia.
  - change (frame _ _ _ _ _ _ _) with fr. rewrite Hlen, !blen_app, Hrnd. change (blen [0]) with 1. unfold base. lia.
  - rewrite Hrnd in E2. split; [done|]. split; [done|]. unfold ra, base. lia.
Qed.

(** Two arguments, one environment string, two auxiliary entries. *)
Lemma initial_stack_roundtrip_witness :
  exists st ra ea, build_initial_user_stack 7 [[108; 115]; [45; 97]] [[72; 61; 47]] [47; 108; 115] [(6, 4096); (31, 0); (0, 0)] = Ok st /\
    startup (store (fun _ => 0) (stack_end_vaddr st - 4096) (page_data st)) (initial_rsp st) =
      mkStartup 2 [[108; 115]; [45; 97]] [[72; 61; 47]] (resolve_aux ra ea <$> [(6, 4096); (31, 0)]).
Proof.
  assert (forall l : bytes, Forall (fun b => b <> 0) l -> 0 ∉ l) as Hn.
  { intros l Hl Hin. rewrite Forall_elem in Hl. by apply (Hl 0). }
  pose proof (initial_stack_roundtrip 7 [[108; 115]; [45; 97]] [[72; 61; 47]] [47; 108; 115] [(6, 4096); (31, 0)] 0
    ltac:(repeat constructor; apply Hn; repeat constructor; done) ltac:(repeat constructor; apply Hn; repeat constructor; done)
    ltac:(apply Hn; repeat constructor; done) ltac:(repeat constructor; cbn; done)) as H.
  cbn [app] in H. destruct (build_initial_user_stack 7 _ _ _ _) as [st|e] eqn:E; [|vm_compute in E; discriminate].
  destruct H as (_ & _ & _ & H). destruct (H _ (holds_store (fun _ => 0) _ _)) as (ra & ea & H' & _). exists st, ra, ea. split; [reflexivity|exact H'].
Defined.

(** C17. The randomised regions never meet.  For every seed the thread-local block,
    the two heap pages, the stack and the page for the start stub are page
    aligned, lie in this order without overlap, and end below the end of user
    space; so the addresses the loader computes need no check against one
    another. *)
Theorem exec_layout_disjoint (seed : Z) :
  TLS_BASE_MIN <= tls_base_of seed /\ tls_base_of seed + INITIAL_TLS_SIZE <= HEAP_BASE_MIN /\
  HEAP_BASE_MIN <= heap_base_of seed /\ heap_base_of seed + HEAP_MAP_SIZE <= stack_base_of seed /\
  stack_end_of seed = stack_base_of seed + USER_STACK_SIZE_PAGES * 4096 /\ stack_end_of seed + 8192 < 2 ^ 47 /\
  tls_base_of seed mod 4096 = 0 /\ heap_base_of seed mod 4096 = 0 /\ stack_base_of seed mod 4096 = 0.
Proof.
  destruct (stack_end_range seed) as [Hse Hsm]. unfold STACK_TOP_BASE in Hse.
  unfold tls_base_of, heap_base_of, stack_base_of, saturating_add64. set (o := aslr_offset_pages _ TLS_ASLR_MAX_PAGES). set (h := aslr_offset_pages _ HEAP_ASLR_MAX_PAGES).
  assert (0 <= o < TLS_ASLR_MAX_PAGES) as Ho by (apply aslr_offset_range; done).
  assert (0 <= h < HEAP_ASLR_MAX_PAGES) as Hh by (apply aslr_offset_range; done).
  unfold TLS_BASE_MIN, TLS_ASLR_MAX_PAGES, HEAP_BASE_MIN, HEAP_ASLR_MAX_PAGES, INITIAL_TLS_SIZE, HEAP_MAP_SIZE, USER_STACK_SIZE_PAGES in *.
  assert (U64_MAX = 18446744073709551615) as Hmax by reflexivity. rewrite !Z.min_l by lia.
  repeat (split; [lia|]). split; [|split].
  - replace (805306368 + o * 4096) with ((196608 + o) * 4096) by lia. apply Z_mod_mult.
  - replace (1073741824 + h * 4096) with ((262144 + h) * 4096) by lia. apply Z_mod_mult.
  - rewrite Zminus_mod, Hsm. done.
Qed.
End ExecStack.
