(* ===== verification/Frame.v ===== *)
(** The physical frame allocator, [src/core/mem/frame.rs].

    A bump pointer over the usable regions of the boot memory map and a free
    list threaded through the first eight bytes of the freed frames themselves,
    in physical memory. *)

From Stdlib Require Import ZArith Lia.
From stdpp Require Import base list option numbers sets.
From S2P Require Import Prelude Types UserMem Mem.
Import Mem Result.

Local Open Scope Z_scope.

Module Frame.

Inductive MemoryType :=
  | Usable | Reserved | AcpiReclaimable | AcpiNvs | BadMemory | BootloaderReclaimable
  | KernelStack | PageTable | Framebuffer.

#[export] Instance MemoryType_eq_dec : EqDecision MemoryType.
Proof. solve_decision. Defined.

Record MemoryRegion := mkRegion { start : Z; len : Z; region_type : MemoryType }.

Record BitmapFrameAllocator := mkAllocator {
  memory_map : list MemoryRegion;
  next_frame : Z;
  free_list_head : Z;
  phys_offset : Z;
}.

Definition new (mm : list MemoryRegion) (off : Z) : BitmapFrameAllocator :=
  {| memory_map := mm; next_frame := 1048576 / 4096; free_list_head := 0; phys_offset := off |}.

Definition region_end (r : MemoryRegion) : Z := wrapping_add64 (start r) (len r).

Definition usable_in (phys_addr : Z) (r : MemoryRegion) : bool :=
  bool_decide (region_type r = Usable) && (start r <=? phys_addr) && (phys_addr <? region_end r).

Definition is_usable_frame_addr (a : BitmapFrameAllocator) (phys_addr : Z) : bool :=
  existsb (usable_in phys_addr) (memory_map a).

Definition set_free_list_head (a : BitmapFrameAllocator) (h : Z) : BitmapFrameAllocator :=
  mkAllocator (memory_map a) (next_frame a) h (phys_offset a).
Definition set_next_frame (a : BitmapFrameAllocator) (f : Z) : BitmapFrameAllocator :=
  mkAllocator (memory_map a) f (free_list_head a) (phys_offset a).

(** [BitmapFrameAllocator::deallocate_frame]: [phys_addr] is the frame's start. *)
Definition deallocate (phys_addr : Z) (a : BitmapFrameAllocator) (m : mem) :
    bool * BitmapFrameAllocator * mem :=
  if negb (Z.land phys_addr 4095 =? 0) || negb (is_usable_frame_addr a phys_addr) then (false, a, m)
  else if phys_offset a =? 0 then (false, a, m)
  else (true, set_free_list_head a phys_addr, write_u64 m phys_addr (free_list_head a)).

Definition usable_memory (a : BitmapFrameAllocator) : Z :=
  foldr (fun r acc => if bool_decide (region_type r = Usable) then len r + acc else acc) 0 (memory_map a).

Definition usable_frames (a : BitmapFrameAllocator) : Z := usable_memory a / 4096.

Definition max_frame (a : BitmapFrameAllocator) : Z :=
  foldr (fun r acc => Z.max (region_end r / 4096) acc) 0 (memory_map a).

(** The [while f <= max_frame] loop; [fuel] bounds the iterations. *)
Fixpoint bump_search (fuel : nat) (f : Z) (a : BitmapFrameAllocator) : option Z :=
  match fuel with
  | O => None
  | S fuel =>
      if f <=? max_frame a then
        if is_usable_frame_addr a (f * 4096) then Some f else bump_search fuel (f + 1) a
      else None
  end.

(** Enough iterations for every frame up to [max_frame]. *)
Definition bump_fuel (a : BitmapFrameAllocator) : nat := Z.to_nat (max_frame a - next_frame a + 1).

Definition allocate (a : BitmapFrameAllocator) (m : mem) : option Z * BitmapFrameAllocator * mem :=
  if negb (free_list_head a =? 0) && negb (phys_offset a =? 0) then
    let phys := free_list_head a in
    let a' := set_free_list_head a (read_u64 m phys) in
    (Some (page_down phys), a', write_u64 m phys 0)
  else
    match bump_search (bump_fuel a) (next_frame a) a with
    | Some f => (Some (f * 4096), set_next_frame a (f + 1), m)
    | None => (None, a, m)
    end.

(** ** The global allocator *)

Definition init (mm : list MemoryRegion) : option BitmapFrameAllocator := Some (new mm 0).

Definition set_phys_offset (off : Z) (g : option BitmapFrameAllocator) : option BitmapFrameAllocator :=
  (fun a => mkAllocator (memory_map a) (next_frame a) (free_list_head a) off) <$> g.

Definition allocate_frame (g : option BitmapFrameAllocator) (m : mem) :
    result Z Kernel * option BitmapFrameAllocator * mem :=
  match g with
  | None => (Err (KMemory Memory_OutOfMemory), g, m)
  | Some a =>
      let '(o, a', m') := allocate a m in
      (ok_or o (KMemory Memory_OutOfMemory), Some a', m')
  end.

Definition deallocate_frame (frame : Z) (g : option BitmapFrameAllocator) (m : mem) :
    result unit Kernel * option BitmapFrameAllocator * mem :=
  match g with
  | None => (Err (KMemory Memory_OutOfMemory), g, m)
  | Some a =>
      let '(b, a', m') := deallocate frame a m in
      (if b then Ok tt else Err (KMemory Memory_InvalidAddress), Some a', m')
  end.

Definition get_memory_info (g : option BitmapFrameAllocator) : option (Z * Z) :=
  (fun a => (usable_memory a, usable_frames a)) <$> g.

Definition is_usable_physical_address (g : option BitmapFrameAllocator) (phys_addr : Z) : bool :=
  match g with None => false | Some a => is_usable_frame_addr a phys_addr end.

Definition ALLOW_RECLAIMABLE_MMIO : bool := false.

Definition mmio_region_type_allowed (t : MemoryType) : bool :=
  match t with
  | BadMemory => false
  | Reserved | AcpiNvs | Framebuffer => true
  | AcpiReclaimable | BootloaderReclaimable => ALLOW_RECLAIMABLE_MMIO
  | _ => false
  end.

(** The loop of [is_allowed_mmio_range]: [None] is the early [return false],
    otherwise the two flags. *)
Fixpoint mmio_scan (rs : list MemoryRegion) (start_phys end_phys : Z) (flags : bool * bool) : option (bool * bool) :=
  match rs with
  | [] => Some flags
  | r :: rs =>
      if len r =? 0 then mmio_scan rs start_phys end_phys flags
      else
        match checked_add64 (start r) (len r - 1) with
        | None => mmio_scan rs start_phys end_phys flags
        | Some r_end =>
            if negb ((start_phys <=? r_end) && (start r <=? end_phys)) then mmio_scan rs start_phys end_phys flags
            else if negb (mmio_region_type_allowed (region_type r)) then None
            else mmio_scan rs start_phys end_phys
                   (true, flags.2 || ((start r <=? start_phys) && (end_phys <=? r_end)))
        end
  end.

Definition is_allowed_mmio_range (g : option BitmapFrameAllocator) (start_phys size : Z) : bool :=
  if size =? 0 then false
  else
    match checked_add64 start_phys (size - 1) with
    | None => false
    | Some end_phys =>
        match g with
        | None => false
        | Some a =>
            match mmio_scan (memory_map a) start_phys end_phys (false, false) with
            | None => false
            | Some (overlaps_any, contained) => if contained then true else negb overlaps_any
            end
        end
    end.

(** ** The allocator invariant *)

(** [chain m h fl]: the free list that starts at [h] is [fl]. *)
Fixpoint chain (m : mem) (h : Z) (fl : list Z) : Prop :=
  match fl with
  | [] => h = 0
  | p :: fl => h = p /\ p <> 0 /\ chain m (read_u64 m p) fl
  end.

Definition is_frame (a : BitmapFrameAllocator) (p : Z) : Prop :=
  p mod 4096 = 0 /\ is_usable_frame_addr a p = true /\ 1048576 <= p < next_frame a * 4096.

(** [fl] is the free list, [al] the frames handed out and not returned. *)
Record alloc_inv (a : BitmapFrameAllocator) (m : mem) (fl al : list Z) : Prop := {
  ai_chain : chain m (free_list_head a) fl;
  ai_nodup : NoDup (fl ++ al);
  ai_frames : Forall (is_frame a) (fl ++ al);
  ai_next : 256 <= next_frame a;
  ai_off : fl <> [] -> phys_offset a <> 0;
}.

(** Regions of a sane boot memory map end below 2^64. *)
Definition map_wf (mm : list MemoryRegion) : Prop :=
  Forall (fun r => 0 <= start r /\ 0 <= len r /\ start r + len r < U64_MODULUS) mm.

Lemma region_end_wf r : 0 <= start r -> 0 <= len r -> start r + len r < U64_MODULUS -> region_end r = start r + len r.
Proof. intros. unfold region_end. unfold_u64. apply Z.mod_small. lia. Qed.

Lemma is_usable_iff a p :
  map_wf (memory_map a) ->
  is_usable_frame_addr a p = true <->
  exists r, r ∈ memory_map a /\ region_type r = Usable /\ start r <= p < start r + len r.
Proof.
  intros Hw. unfold is_usable_frame_addr. rewrite existsb_exists. setoid_rewrite <-list_elem_of_In.
  apply exist_proper. intros r. split; intros [Hr H].
  - unfold map_wf in Hw. rewrite Forall_elem in Hw. specialize (Hw r Hr). unfold usable_in in H.
    rewrite region_end_wf in H by lia. apply andb_prop in H as [[H1%bool_decide_eq_true H2]%andb_prop H3].
    split; [done|]. split; [done|]. lia.
  - unfold map_wf in Hw. rewrite Forall_elem in Hw. specialize (Hw r Hr). split; [done|]. unfold usable_in.
    rewrite region_end_wf by lia. destruct H as (-> & H). rewrite bool_decide_true by done. lia.
Qed.

Lemma chain_store m h fl x bs :
  Forall (fun p => p + 8 <= x \/ x + Z.of_nat (length bs) <= p) fl ->
  chain m h fl -> chain (store m x bs) h fl.
Proof.
  revert h. induction fl as [|p fl IH]; intros h Hall; simpl; [done|].
  apply list.Forall_cons in Hall as [Hp Hall]. intros (-> & Hp0 & Hc). split; [done|]. split; [done|].
  rewrite read_u64_store_other by done. by apply IH.
Qed.

(** Distinct frames do not overlap. *)
Lemma frame_disjoint a p q : is_frame a p -> is_frame a q -> p <> q -> p + 4096 <= q \/ q + 4096 <= p.
Proof.
  intros (Hp & _) (Hq & _) Hne.
  pose proof (Z.div_mod p 4096 ltac:(lia)). pose proof (Z.div_mod q 4096 ltac:(lia)). lia.
Qed.

Lemma is_frame_next a p f : is_frame a p -> next_frame a <= f -> is_frame (set_next_frame a f) p.
Proof. intros (H1 & H2 & H3) Hf. split; [done|]. split; [done|]. cbn. lia. Qed.

Lemma bump_search_Some fuel f a g :
  bump_search fuel f a = Some g -> f <= g /\ is_usable_frame_addr a (g * 4096) = true /\
    g <= max_frame a /\ forall k, f <= k < g -> is_usable_frame_addr a (k * 4096) = false.
Proof.
  revert f. induction fuel as [|fuel IH]; intros f; simpl; [done|].
  destruct (Z.leb_spec f (max_frame a)); [|done]. destruct (is_usable_frame_addr a (f * 4096)) eqn:E.
  - intros [= <-]. repeat split; auto; lia.
  - intros (H1 & H2 & H3 & H4)%IH. repeat split; auto; try lia. intros k Hk.
    destruct (decide (k = f)) as [->|]; [done|]. apply H4. lia.
Qed.

Lemma bump_search_None fuel f a :
  bump_search fuel f a = None -> Z.to_nat (max_frame a - f + 1) = fuel ->
  forall k, f <= k <= max_frame a -> is_usable_frame_addr a (k * 4096) = false.
Proof.
  revert f. induction fuel as [|fuel IH]; intros f; simpl; [lia|].
  destruct (Z.leb_spec f (max_frame a)); [|lia]. destruct (is_usable_frame_addr a (f * 4096)) eqn:E; [done|].
  intros Hn Hf k Hk. destruct (decide (k = f)) as [->|]; [done|]. apply (IH (f + 1)); [done|lia|lia].
Qed.

(** Allocation hands out a usable frame nobody holds and touches no other frame. *)
Lemma allocate_sound a m fl al p a' m' :
  alloc_inv a m fl al -> allocate a m = (Some p, a', m') ->
  p ∉ al /\ is_frame a' p /\ (exists fl', alloc_inv a' m' fl' (p :: al)) /\
  (forall x, x < p \/ p + 4096 <= x -> m' x = m x) /\ memory_map a' = memory_map a.
Proof.
  intros [Hc Hnd Hfr Hn Hoff]. unfold allocate.
  destruct (negb (free_list_head a =? 0) && negb (phys_offset a =? 0)) eqn:Et.
  - apply andb_prop in Et as [Hh%negb_true_iff Ho%negb_true_iff].
    apply Z.eqb_neq in Hh. apply Z.eqb_neq in Ho. intros [= <- <- <-].
    destruct fl as [|q fl]; simpl in Hc; [lia|]. destruct Hc as (Hq & Hq0 & Hc). rewrite Hq in *.
    cbn in Hnd, Hfr. apply list.NoDup_cons in Hnd as [Hni Hnd]. apply list.Forall_cons in Hfr as [Hqf Hfr].
    assert (page_down q = q) as -> by (rewrite page_down_spec; destruct Hqf as [-> _]; lia).
    split; [set_solver|]. split; [exact Hqf|]. split; [|split; [|done]].
    + exists fl. split; cbn.
      * apply chain_store; [|done]. rewrite to_le_bytes_length. apply Forall_elem. intros r Hr.
        rewrite Forall_elem in Hfr. assert (is_frame a r) as Hrf by (apply Hfr; set_solver).
        destruct (frame_disjoint a q r Hqf Hrf); [intros ->; set_solver|lia|lia].
      * rewrite Permutation_app_comm. simpl. rewrite Permutation_app_comm. by apply list.NoDup_cons.
      * rewrite Permutation_app_comm. simpl. rewrite Permutation_app_comm. by apply list.Forall_cons.
      * done.
      * done.
    + intros x Hx. apply store_out. rewrite to_le_bytes_length. lia.
  - destruct (bump_search (bump_fuel a) (next_frame a) a) as [f|] eqn:Eb; [|done]. intros [= <- <- <-].
    apply bump_search_Some in Eb as (Hf & Hu & _ & _).
    assert (is_frame (set_next_frame a (f + 1)) (f * 4096)) as Hff.
    { split; [by rewrite Z.mod_mul by lia|]. split; [done|]. cbn. lia. }
    assert (f * 4096 ∉ fl ++ al) as Hni.
    { intros Hin. rewrite Forall_elem in Hfr. destruct (Hfr _ Hin) as (_ & _ & ?). lia. }
    split; [set_solver|]. split; [done|]. split; [|done].
    exists fl. split; cbn.
    + done.
    + rewrite Permutation_app_comm. simpl. rewrite Permutation_app_comm. by apply list.NoDup_cons.
    + rewrite Permutation_app_comm. simpl. rewrite Permutation_app_comm. apply list.Forall_cons. split; [done|].
      apply (Forall_impl _ _ _ Hfr). intros q Hq. apply is_frame_next; [done|lia].
    + lia.
    + done.
Qed.

(** Returning a frame that is held puts it, alone, back on the free list. *)
Lemma deallocate_sound a m fl al p :
  alloc_inv a m fl (p :: al) -> phys_offset a <> 0 ->
  (forall q, q ∈ fl -> is_u64 q) -> is_u64 p -> 
  exists a' m', deallocate p a m = (true, a', m') /\ alloc_inv a' m' (p :: fl) al /\
    (forall x, x < p \/ p + 4096 <= x -> m' x = m x) /\
    memory_map a' = memory_map a /\ phys_offset a' = phys_offset a.
Proof.
  intros [Hc Hnd Hfr Hn _] Ho Hu Hup. unfold deallocate.
  assert (is_frame a p) as Hp by (rewrite Forall_elem in Hfr; apply Hfr; set_solver).
  destruct Hp as (Hal & Hus & Hrg). rewrite land_4095, Hal, Hus. cbn.
  rewrite (proj2 (Z.eqb_neq _ _) Ho). eexists _, _. split; [reflexivity|]. split; [|split; [|done]].
  - rewrite Permutation_app_comm in Hnd, Hfr. simpl in Hnd, Hfr. rewrite Permutation_app_comm in Hnd, Hfr.
    pose proof (proj1 (list.NoDup_cons _ _) Hnd) as [Hni _].
    pose proof (proj1 (list.Forall_cons _ _ _) Hfr) as [Hpf Hrest].
    assert (is_u64 (free_list_head a)) as Hhu.
    { destruct fl as [|q fl]; simpl in Hc; [rewrite Hc; split; [lia|done]|].
      destruct Hc as (-> & _). apply Hu. left. }
    split; cbn; try done.
    split; [done|]. split; [lia|]. rewrite read_write_u64 by done.
    apply chain_store; [|done]. rewrite to_le_bytes_length. apply Forall_elem. intros r Hr.
    rewrite Forall_elem in Hrest. assert (is_frame a r) as Hrf by (apply Hrest; set_solver).
    destruct (frame_disjoint a p r Hpf Hrf); [intros ->; set_solver|lia|lia].
  - intros x Hx. apply store_out. rewrite to_le_bytes_length. lia.
Qed.

(** A holder may write anywhere inside its frame. *)
Lemma owner_write_sound a m fl al p off bs :
  alloc_inv a m fl al -> p ∈ al -> 0 <= off -> off + Z.of_nat (length bs) <= 4096 ->
  alloc_inv a (store m (p + off) bs) fl al.
Proof.
  intros [Hc Hnd Hfr Hn Hoff] Hp H1 H2. split; try done.
  apply chain_store; [|done]. apply Forall_elem. intros r Hr.
  rewrite Forall_elem in Hfr.
  assert (is_frame a p) as Hpf by (apply Hfr; set_solver).
  assert (is_frame a r) as Hrf by (apply Hfr; set_solver).
  destruct (frame_disjoint a p r Hpf Hrf); [|lia|lia].
  intros ->. apply list.NoDup_app in Hnd as (_ & Hd & _). by apply (Hd r).
Qed.

(** ** Histories *)

Inductive frame_op := Alloc | Free (p : Z) | Write (p off : Z) (bs : list Z).

Record FState := mkF { alloc : BitmapFrameAllocator; memory : mem; held : list Z }.

(** What the kernel may do: allocate, return a frame it holds, write inside one. *)
Inductive fstep : frame_op -> FState -> FState -> Prop :=
  | fstep_alloc a m al p a' m' :
      allocate a m = (Some p, a', m') -> fstep Alloc (mkF a m al) (mkF a' m' (p :: al))
  | fstep_fail a m al a' m' :
      allocate a m = (None, a', m') -> fstep Alloc (mkF a m al) (mkF a' m' al)
  | fstep_free a m al al' p r a' m' :
      al ≡ₚ p :: al' -> deallocate p a m = (r, a', m') -> fstep (Free p) (mkF a m al) (mkF a' m' al')
  | fstep_write a m al p off bs :
      p ∈ al -> 0 <= off -> off + Z.of_nat (length bs) <= 4096 ->
      fstep (Write p off bs) (mkF a m al) (mkF a (store m (p + off) bs) al).

Inductive fsteps (s0 : FState) : FState -> Prop :=
  | fsteps_refl : fsteps s0 s0
  | fsteps_step o s s' : fsteps s0 s -> fstep o s s' -> fsteps s0 s'.

Lemma usable_u64 a p : map_wf (memory_map a) -> is_usable_frame_addr a p = true -> is_u64 p.
Proof.
  intros Hw H. pose proof H as H'. apply is_usable_iff in H' as (r & Hr & _ & Hp); [|done].
  unfold map_wf in Hw. rewrite Forall_elem in Hw. specialize (Hw r Hr). unfold is_u64. lia.
Qed.

Definition good (mm : list MemoryRegion) (s : FState) : Prop :=
  memory_map (alloc s) = mm /\ exists fl, alloc_inv (alloc s) (memory s) fl (held s).

#[export] Instance alloc_inv_proper a m fl : Proper ((≡ₚ) ==> iff) (alloc_inv a m fl).
Proof.
  assert (forall x y, x ≡ₚ y -> alloc_inv a m fl x -> alloc_inv a m fl y) as H.
  { intros x y Hp [H1 H2 H3 H4 H5]. split; try done; by rewrite <-Hp. }
  intros x y Hp. split; apply H; [done|by symmetry].
Qed.

Lemma deallocate_zero_offset p a m : phys_offset a = 0 -> deallocate p a m = (false, a, m).
Proof. intros Ho. unfold deallocate. rewrite Ho. by destruct (_ || _). Qed.

Lemma allocate_None a m a' m' : allocate a m = (None, a', m') -> a' = a /\ m' = m.
Proof.
  unfold allocate. destruct (negb _ && negb _); [done|]. destruct (bump_search _ _ _); [done|]. by intros [= <- <-].
Qed.

Lemma alloc_inv_drop a m fl p al : alloc_inv a m fl (p :: al) -> alloc_inv a m fl al.
Proof.
  intros [H1 H2 H3 H4 H5]. split; try done.
  - rewrite Permutation_app_comm in H2. cbn in H2. rewrite Permutation_app_comm in H2. by apply list.NoDup_cons in H2 as [_ ?].
  - rewrite Permutation_app_comm in H3. cbn in H3. rewrite Permutation_app_comm in H3. by apply list.Forall_cons in H3 as [_ ?].
Qed.

Lemma fstep_good mm o s s' : map_wf mm -> good mm s -> fstep o s s' -> good mm s'.
Proof.
  intros Hw (<- & fl & Hi) Hs. destruct Hs as [a m al p a' m' E|a m al a' m' E|a m al al' p r a' m' Hp E|]; cbn in *.
  - destruct (allocate_sound a m fl al p a' m' Hi E) as (_ & _ & [fl' Hi'] & _ & Hmm). split; [done|]. eauto.
  - apply allocate_None in E as [-> ->]. split; [done|]. eauto.
  - rewrite Hp in Hi. destruct (decide (phys_offset a = 0)) as [Ho|Ho].
    { rewrite deallocate_zero_offset in E by done. injection E as <- <- <-. split; [done|]. exists fl. by eapply alloc_inv_drop. }
    pose proof (ai_frames _ _ _ _ Hi) as Hfr. rewrite Forall_elem in Hfr.
    destruct (deallocate_sound a m fl al' p Hi Ho) as (a1 & m1 & E1 & Hi1 & _ & Hmm & Hof).
    { intros q Hq. destruct (Hfr q) as (_ & Hu & _); [set_solver|]. by apply (usable_u64 a). }
    { destruct (Hfr p) as (_ & Hu & _); [set_solver|]. by apply (usable_u64 a). }
    rewrite E1 in E. injection E as <- <- <-. split; [done|]. eauto.
  - split; [done|]. exists fl. by apply owner_write_sound.
Qed.

Definition initial (mm : list MemoryRegion) (off : Z) (m : mem) : FState := mkF (new mm off) m [].

Lemma initial_good mm off m : good mm (initial mm off m).
Proof. split; [done|]. exists []. split; cbn; try done; try lia; constructor. Qed.

Lemma fsteps_good mm off m s : map_wf mm -> fsteps (initial mm off m) s -> good mm s.
Proof. intros Hw. induction 1; [by apply initial_good|by eapply fstep_good]. Qed.

(** C6. The frame allocator never hands out a frame twice.  After any sequence
    of allocations, returns of held frames and arbitrary writes by the holders
    into their own frames (which is where the free list is threaded), the frames
    held are pairwise distinct, page aligned, inside a usable region of the memory
    map and above the first megabyte; the next allocation returns one that is not
    held and changes no memory outside it. *)
Theorem frame_allocation_exclusive (mm : list MemoryRegion) (off : Z) (m : mem) (s : FState) :
  map_wf mm -> fsteps (initial mm off m) s ->
  NoDup (held s) /\
  (forall p, p ∈ held s -> p mod 4096 = 0 /\ 1048576 <= p /\
     exists r, r ∈ mm /\ region_type r = Usable /\ start r <= p < start r + len r) /\
  (forall p a' m', allocate (alloc s) (memory s) = (Some p, a', m') ->
     p ∉ held s /\ forall x, x < p \/ p + 4096 <= x -> m' x = memory s x).
Proof.
  intros Hw Hs. destruct (fsteps_good _ _ _ _ Hw Hs) as (Hmm & fl & Hi). split; [|split].
  - by apply (ai_nodup _ _ _ _) in Hi as (_ & _ & ?)%list.NoDup_app.
  - intros p Hp. pose proof (ai_frames _ _ _ _ Hi) as Hfr. rewrite Forall_elem in Hfr.
    destruct (Hfr p) as (H1 & H2 & H3 & H4); [set_solver|]. split; [done|]. split; [done|].
    rewrite <-Hmm in *. by apply is_usable_iff.
  - intros p a' m' E. by destruct (allocate_sound _ _ _ _ _ _ _ Hi E) as (? & _ & _ & ? & _).
Qed.

Definition demo_map : list MemoryRegion :=
  [mkRegion 0 1048576 Usable; mkRegion 1048576 8192 Usable; mkRegion 4294967296 4096 Framebuffer].

Lemma demo_map_wf : map_wf demo_map.
Proof. repeat constructor; cbn; unfold U64_MODULUS; lia. Qed.

Lemma frame_allocation_exclusive_witness :
  exists s, NoDup (held s) /\ held s = [1048576] /\
    forall p a' m', allocate (alloc s) (memory s) = (Some p, a', m') -> p ∉ held s.
Proof.
  set (s0 := initial demo_map 4096 (fun _ => 0)).
  assert (exists s, fsteps s0 s /\ held s = [1048576]) as (s & Hs & Hh).
  { eexists. split; [eapply fsteps_step; [apply fsteps_refl|eapply fstep_alloc; reflexivity]|reflexivity]. }
  destruct (frame_allocation_exclusive demo_map 4096 (fun _ => 0) s demo_map_wf Hs)
    as (H1 & _ & H3).
  exists s. split; [exact H1|]. split; [exact Hh|]. intros p a' m' E. exact (proj1 (H3 p a' m' E)).
Defined.

(** ** The free list and the direct-map offset *)

(** With offset 0 nothing but the bump pointer changes. *)
Lemma fstep_zero_offset o s s' :
  phys_offset (alloc s) = 0 -> fstep o s s' ->
  phys_offset (alloc s') = 0 /\ next_frame (alloc s) <= next_frame (alloc s').
Proof.
  intros Ho Hs. destruct Hs as [a m al p a' m' E|a m al a' m' E|a m al al' p r a' m' Hp E|]; cbn in *.
  - revert E. unfold allocate. rewrite Ho, andb_false_r. destruct (bump_search _ _ _) eqn:Eb; [|done].
    apply bump_search_Some in Eb as [? _]. intros [= _ <- _]. cbn. lia.
  - by apply allocate_None in E as [-> ->].
  - rewrite deallocate_zero_offset in E by done. by injection E as <- <- <-.
  - done.
Qed.

Lemma fsteps_zero_offset s s' :
  phys_offset (alloc s) = 0 -> fsteps s s' ->
  phys_offset (alloc s') = 0 /\ next_frame (alloc s) <= next_frame (alloc s').
Proof.
  intros Ho. induction 1 as [|o s1 s2 _ [IH1 IH2] Hs]; [done|].
  destruct (fstep_zero_offset o s1 s2 IH1 Hs). lia.
Qed.

Lemma allocate_zero_offset a m p a' m' :
  phys_offset a = 0 -> allocate a m = (Some p, a', m') ->
  next_frame a * 4096 <= p /\ p < next_frame a' * 4096 /\ phys_offset a' = 0.
Proof.
  intros Ho. unfold allocate. rewrite Ho, andb_false_r. destruct (bump_search _ _ _) eqn:Eb; [|done].
  apply bump_search_Some in Eb as [? _]. intros [= <- <- _]. cbn. lia.
Qed.

(** With a direct map at offset 0 no frame is ever reused.  The allocator
    takes an offset of 0 to mean that the direct map is not there yet, but 0 is
    the offset the boot loader passes to the kernel: every return of a frame is
    refused and changes nothing, and a frame handed out once is not handed out
    again by any later allocation, whatever was returned in between. *)
Theorem zero_offset_never_reuses (a : BitmapFrameAllocator) (m : mem) (al : list Z)
    (p : Z) (a1 : BitmapFrameAllocator) (m1 : mem) (s : FState) :
  phys_offset a = 0 -> allocate a m = (Some p, a1, m1) -> fsteps (mkF a1 m1 (p :: al)) s ->
  (forall q, deallocate_frame q (Some (alloc s)) (memory s) =
     (Err (KMemory Memory_InvalidAddress), Some (alloc s), memory s)) /\
  (forall q a2 m2, allocate (alloc s) (memory s) = (Some q, a2, m2) -> p < q).
Proof.
  intros Ho E Hs. destruct (allocate_zero_offset _ _ _ _ _ Ho E) as (_ & Hp & Ho1).
  destruct (fsteps_zero_offset (mkF a1 m1 (p :: al)) s Ho1 Hs) as [Ho2 Hn]. cbn in Hn. split.
  - intros q. unfold deallocate_frame. by rewrite deallocate_zero_offset.
  - intros q a2 m2 E2. destruct (allocate_zero_offset _ _ _ _ _ Ho2 E2) as [H _]. lia.
Qed.

Lemma zero_offset_never_reuses_witness :
  let a := new demo_map 0 in
  exists a1 m1 a2 m2, allocate a (fun _ => 0) = (Some 1048576, a1, m1) /\
    fsteps (mkF a1 m1 [1048576]) (mkF a1 m1 []) /\ allocate a1 m1 = (Some 1052672, a2, m2) /\ 1048576 < 1052672.
Proof.
  intros a. eexists (set_next_frame a 257), (fun _ => 0), (set_next_frame a 258), (fun _ => 0).
  assert (fsteps (mkF (set_next_frame a 257) (fun _ => 0) [1048576]) (mkF (set_next_frame a 257) (fun _ => 0) [])) as Hs.
  { eapply fsteps_step; [apply fsteps_refl|]. eapply (fstep_free _ _ _ _ 1048576); reflexivity. }
  split; [reflexivity|]. split; [exact Hs|]. split; [reflexivity|].
  refine (proj2 (zero_offset_never_reuses a (fun _ => 0) [] 1048576 _ _ _ eq_refl eq_refl Hs) 1052672 _ _ eq_refl).
Defined.

Lemma max_frame_ge mm a r :
  memory_map a = mm -> r ∈ mm -> region_end r / 4096 <= max_frame a.
Proof.
  intros E. unfold max_frame. rewrite E. clear E. intros Hr. induction Hr as [|? ? ? _ IH]; simpl; lia.
Qed.

(** Allocation fails only when memory is exhausted: if [allocate_frame]
    reports out-of-memory on an allocator with an empty free list then no usable
    frame at or above the bump pointer is left; and the search always ends. *)
Theorem frame_allocation_complete (a : BitmapFrameAllocator) (m m' : mem) (a' : BitmapFrameAllocator) :
  map_wf (memory_map a) -> 0 <= next_frame a -> free_list_head a = 0 ->
  allocate a m = (None, a', m') ->
  a' = a /\ forall p, p mod 4096 = 0 -> next_frame a * 4096 <= p -> is_usable_frame_addr a p = false.
Proof.
  intros Hw Hn Hh. unfold allocate. rewrite Hh. cbn.
  destruct (bump_search (bump_fuel a) (next_frame a) a) eqn:E; [done|]. intros [= <- <-]. split; [done|].
  intros p Hp Hge. destruct (is_usable_frame_addr a p) eqn:Eu; [|done].
  pose proof (Z.div_mod p 4096 ltac:(lia)) as Hdiv. rewrite Hp in Hdiv.
  rewrite <-Eu. replace p with (p / 4096 * 4096) by lia. apply (bump_search_None _ _ _ E eq_refl).
  split; [lia|]. pose proof Eu as Eu'. apply is_usable_iff in Eu as (r & Hr & _ & Hin); [|done].
  unfold map_wf in Hw. rewrite Forall_elem in Hw. specialize (Hw r Hr).
  pose proof (max_frame_ge _ a r eq_refl Hr) as Hmax. rewrite region_end_wf in Hmax by lia.
  etrans; [|exact Hmax]. apply Z.div_le_mono; lia.
Qed.

Lemma frame_allocation_complete_witness :
  exists a', allocate (new [] 4096) (fun _ => 0) = (None, a', fun _ => 0) /\
  forall p, p mod 4096 = 0 -> 1048576 <= p -> is_usable_frame_addr (new [] 4096) p = false.
Proof.
  exists (new [] 4096). split; [reflexivity|].
  apply (frame_allocation_complete (new [] 4096) (fun _ => 0) (fun _ => 0) (new [] 4096));
    [exact (List.Forall_nil _)|vm_compute; discriminate|reflexivity|reflexivity].
Defined.

(** ** MMIO ranges *)

(** The range [s..e] meets region [r], and lies inside it. *)
Definition overlaps (s e : Z) (r : MemoryRegion) : bool :=
  (0 <? len r) && (s <? start r + len r) && (start r <=? e).
Definition contains (s e : Z) (r : MemoryRegion) : bool :=
  (start r <=? s) && (e <? start r + len r).

Lemma mmio_scan_eq rs s e fl :
  map_wf rs ->
  mmio_scan rs s e fl =
  if existsb (fun r => overlaps s e r && negb (mmio_region_type_allowed (region_type r))) rs then None
  else Some (fl.1 || existsb (overlaps s e) rs, fl.2 || existsb (fun r => overlaps s e r && contains s e r) rs).
Proof.
  revert fl. induction rs as [|r rs IH]; intros [f1 f2] Hw; simpl.
  - by rewrite !orb_false_r.
  - apply list.Forall_cons in Hw as [(H1 & H2 & H3) Hw].
    destruct (Z.eqb_spec (len r) 0) as [E0|E0].
    { assert (overlaps s e r = false) as -> by (unfold overlaps; by rewrite E0). by rewrite IH. }
    assert (checked_add64 (start r) (len r - 1) = Some (start r + len r - 1)) as ->
      by (apply checked_add64_Some; lia).
    assert ((s <=? start r + len r - 1) && (start r <=? e) = overlaps s e r) as ->.
    { unfold overlaps. rewrite (proj2 (Z.ltb_lt 0 (len r))) by lia. cbn. f_equal.
      destruct (Z.leb_spec s (start r + len r - 1)), (Z.ltb_spec s (start r + len r)); lia. }
    assert ((start r <=? s) && (e <=? start r + len r - 1) = contains s e r) as ->.
    { unfold contains. f_equal. destruct (Z.leb_spec e (start r + len r - 1)), (Z.ltb_spec e (start r + len r)); lia. }
    destruct (overlaps s e r); simpl; [|by rewrite IH].
    destruct (mmio_region_type_allowed (region_type r)); simpl; [|done].
    rewrite IH by done. cbn. by rewrite orb_true_r, orb_assoc.
Qed.

(** The MMIO filter is exact for a sane memory map: a physical range is
    allowed iff it is non-empty and does not wrap, it meets no region of a
    forbidden type (usable RAM, kernel stacks, page tables, reclaimable or bad
    memory), and it either lies inside one region or meets none at all. *)
Theorem mmio_range_policy (a : BitmapFrameAllocator) (s size : Z) :
  map_wf (memory_map a) -> 0 <= s -> 0 <= size ->
  is_allowed_mmio_range (Some a) s size = true <->
  0 < size /\ s + size <= U64_MODULUS /\
  (forall r, r ∈ memory_map a -> overlaps s (s + size - 1) r = true ->
     mmio_region_type_allowed (region_type r) = true) /\
  ((exists r, r ∈ memory_map a /\ overlaps s (s + size - 1) r = true /\ contains s (s + size - 1) r = true) \/
   (forall r, r ∈ memory_map a -> overlaps s (s + size - 1) r = false)).
Proof.
  intros Hw Hs Hsz. unfold is_allowed_mmio_range.
  destruct (Z.eqb_spec size 0); [split; [done|lia]|]. unfold checked_add64.
  destruct (Z.ltb_spec (s + (size - 1)) U64_MODULUS); [|split; [done|lia]].
  replace (s + (size - 1)) with (s + size - 1) by lia. rewrite mmio_scan_eq by done. cbn.
  set (e := s + size - 1) in *.
  destruct (existsb _ _) eqn:Ebad.
  { split; [done|]. intros (_ & _ & Hall & _). apply existsb_exists in Ebad as (r & Hr & [Ho Hn]%andb_prop).
    apply list_elem_of_In in Hr. rewrite (Hall r Hr Ho) in Hn. done. }
  assert (forall r, r ∈ memory_map a -> overlaps s e r = true -> mmio_region_type_allowed (region_type r) = true) as Hok.
  { intros r Hr Ho. destruct (mmio_region_type_allowed (region_type r)) eqn:E; [done|]. rewrite <-Ebad.
    apply existsb_exists. exists r. rewrite <-list_elem_of_In, Ho, E. done. }
  destruct (existsb (fun r => overlaps s e r && contains s e r) (memory_map a)) eqn:Ec.
  - apply existsb_exists in Ec as (r & Hr & [Ho Hc]%andb_prop). apply list_elem_of_In in Hr.
    split; [|done]. intros _. split; [lia|]. split; [lia|]. split; [done|]. left. eauto.
  - assert (forall r, r ∈ memory_map a -> overlaps s e r = true -> contains s e r = false) as Hnc.
    { intros r Hr Ho. destruct (contains s e r) eqn:E; [|done]. rewrite <-Ec. symmetry.
      apply existsb_exists. exists r. rewrite <-list_elem_of_In, Ho, E. done. }
    rewrite negb_true_iff. destruct (existsb (overlaps s e) (memory_map a)) eqn:Eo.
    + apply existsb_exists in Eo as (r & Hr%list_elem_of_In & Ho). split; [done|].
      intros (_ & _ & _ & [(q & Hq & Hqo & Hqc)|Hnone]); [rewrite (Hnc q Hq Hqo) in Hqc; done|].
      by rewrite (Hnone r Hr) in Ho.
    + split; [|done]. intros _. split; [lia|]. split; [lia|]. split; [done|]. right.
      intros r Hr. destruct (overlaps s e r) eqn:E; [|done]. rewrite <-Eo. symmetry.
      apply existsb_exists. exists r. by rewrite <-list_elem_of_In.
Qed.

Lemma mmio_range_policy_witness :
  is_allowed_mmio_range (Some (new demo_map 4096)) 4294967296 4096 = true <->
  0 < 4096 /\ 4294967296 + 4096 <= U64_MODULUS /\
  (forall r, r ∈ demo_map -> overlaps 4294967296 (4294967296 + 4096 - 1) r = true ->
     mmio_region_type_allowed (region_type r) = true) /\
  ((exists r, r ∈ demo_map /\ overlaps 4294967296 (4294967296 + 4096 - 1) r = true /\
      contains 4294967296 (4294967296 + 4096 - 1) r = true) \/
   (forall r, r ∈ demo_map -> overlaps 4294967296 (4294967296 + 4096 - 1) r = false)).
Proof. apply (mmio_range_policy (new demo_map 4096)); [exact demo_map_wf|lia|lia]. Defined.
End Frame.
