(* ===== verification/Paging.v ===== *)
(** Page tables, [src/core/mem/paging.rs]: the walkers, user copies, and the
    mapping and unmapping of single pages in a given table.

    A table is a frame of 512 little-endian entries in physical memory ([Mem]);
    the walkers read it through the direct map ([phys_off]). *)

From Stdlib Require Import ZArith Lia.
From stdpp Require Import base list option numbers.
From S2P Require Import Prelude Types UserMem Mem Frame.
Import Mem Result.

Local Open Scope Z_scope.
Local Open Scope kernel_scope.

Module Paging.

Definition USER_SPACE_END : Z := 140737488355327.

(** Entries: [PageTableEntry::addr], [flags] and [is_unused] of the x86_64 crate. *)
Definition ADDR_MASK : Z := 4503599627366400.
Definition entry_addr (e : Z) : Z := Z.land e ADDR_MASK.
Definition entry_flags (e : Z) : Z := Z.ldiff e ADDR_MASK.
Definition is_unused (e : Z) : bool := e =? 0.
Definition mk_entry (addr flags : Z) : Z := Z.lor addr flags.

Definition PRESENT : Z := 1.
Definition WRITABLE : Z := 2.
Definition USER_ACCESSIBLE : Z := 4.
Definition HUGE_PAGE : Z := 128.
Definition NO_EXECUTE : Z := 9223372036854775808.

Definition has (flags f : Z) : bool := Z.land flags f =? f.

Definition p4_index (a : Z) : Z := Z.land (Z.shiftr a 39) 511.
Definition p3_index (a : Z) : Z := Z.land (Z.shiftr a 30) 511.
Definition p2_index (a : Z) : Z := Z.land (Z.shiftr a 21) 511.
Definition p1_index (a : Z) : Z := Z.land (Z.shiftr a 12) 511.

Definition read_entry (m : mem) (table i : Z) : Z := read_u64 m (table + 8 * i).
Definition write_entry (m : mem) (table i e : Z) : mem := write_u64 m (table + 8 * i) e.

(** A frame can be reached through the direct map. *)
Definition reachable (phys_off p : Z) : option unit :=
  match checked_add64 p phys_off with Some _ => Some tt | None => None end.

Section walk.
(** [physical_memory_offset()]: [None] until [init] ran. *)
Context (phys_offset : option Z).

Definition translate_addr_in_table (m : mem) (table_phys addr : Z) : option (Z * Z) :=
  off ← phys_offset;
  if negb (Z.land table_phys 4095 =? 0) then None
  else
    _ ← reachable off table_phys;
    let l4e := read_entry m table_phys (p4_index addr) in
    if is_unused l4e || negb (has (entry_flags l4e) PRESENT) then None
    else
      _ ← reachable off (entry_addr l4e);
      let l3e := read_entry m (entry_addr l4e) (p3_index addr) in
      if is_unused l3e || negb (has (entry_flags l3e) PRESENT) then None
      else if has (entry_flags l3e) HUGE_PAGE then
        p ← checked_add64 (entry_addr l3e) (Z.land addr (Z.shiftl 1 30 - 1));
        Some (p, entry_flags l3e)
      else
        _ ← reachable off (entry_addr l3e);
        let l2e := read_entry m (entry_addr l3e) (p2_index addr) in
        if is_unused l2e || negb (has (entry_flags l2e) PRESENT) then None
        else if has (entry_flags l2e) HUGE_PAGE then
          p ← checked_add64 (entry_addr l2e) (Z.land addr (Z.shiftl 1 21 - 1));
          Some (p, entry_flags l2e)
        else
          _ ← reachable off (entry_addr l2e);
          let l1e := read_entry m (entry_addr l2e) (p1_index addr) in
          if is_unused l1e || negb (has (entry_flags l1e) PRESENT) then None
          else
            p ← checked_add64 (entry_addr l1e) (Z.land addr 4095);
            Some (p, entry_flags l1e).

Definition read_u64_in_table (m : mem) (table_phys vaddr : Z) : option Z :=
  off ← phys_offset;
  pf ← translate_addr_in_table m table_phys vaddr;
  _ ← reachable off pf.1;
  Some (read_u64 m pf.1).

Definition user_ok (e : Z) : bool :=
  negb (is_unused e) && has (entry_flags e) PRESENT && has (entry_flags e) USER_ACCESSIBLE.

Definition user_page_flags_in_table (m : mem) (table_phys page_addr : Z) : option Z :=
  off ← phys_offset;
  if negb (Z.land table_phys 4095 =? 0) then None
  else
    _ ← reachable off table_phys;
    if 256 <=? p4_index page_addr then None
    else
      let l4e := read_entry m table_phys (p4_index page_addr) in
      if negb (user_ok l4e) then None
      else
        _ ← reachable off (entry_addr l4e);
        let l3e := read_entry m (entry_addr l4e) (p3_index page_addr) in
        if negb (user_ok l3e) then None
        else if has (entry_flags l3e) HUGE_PAGE then Some (entry_flags l3e)
        else
          _ ← reachable off (entry_addr l3e);
          let l2e := read_entry m (entry_addr l3e) (p2_index page_addr) in
          if negb (user_ok l2e) then None
          else if has (entry_flags l2e) HUGE_PAGE then Some (entry_flags l2e)
          else
            _ ← reachable off (entry_addr l2e);
            let l1e := read_entry m (entry_addr l2e) (p1_index page_addr) in
            if negb (user_ok l1e) then None else Some (entry_flags l1e).

Definition page_is_user_mapped_in_table (m : mem) (table_phys page_addr : Z) : bool :=
  match user_page_flags_in_table m table_phys page_addr with
  | Some f => has f PRESENT && has f USER_ACCESSIBLE
  | None => false
  end.

Definition translate_user_addr_in_table (m : mem) (table_phys addr : Z) (require_writable : bool) :
    option (Z * Z) :=
  if USER_SPACE_END <? addr then None
  else
    let page_base := page_down addr in
    let page_off := Z.land addr 4095 in
    flags ← user_page_flags_in_table m table_phys page_base;
    if negb (has flags PRESENT) || negb (has flags USER_ACCESSIBLE) then None
    else if require_writable && negb (has flags WRITABLE) then None
    else
      pf ← translate_addr_in_table m table_phys addr;
      Some (pf.1, page_off).

(** The checks both copies start with. *)
Definition range_ok (ptr : Z) (len : nat) : bool :=
  match checked_add64 ptr (Z.max (Z.of_nat len - 1) 0) with
  | None => false
  | Some e => negb ((ptr =? 0) || (USER_SPACE_END <? ptr) || (USER_SPACE_END <? e))
  end.

(** The [while copied < dst.len()] loop of [copy_from_user_in_table]: what is left
    to copy is [n] bytes at [cur].  Each iteration copies at least one byte, so
    [n] iterations suffice. *)
Fixpoint copy_from_loop (fuel : nat) (m : mem) (off table_phys cur : Z) (n : nat) : result (list Z) Kernel :=
  match fuel with
  | O => Err (KMemory Memory_InvalidAddress)
  | S fuel =>
      if Nat.eqb n 0 then Ok []
      else
        match translate_user_addr_in_table m table_phys cur false with
        | None => Err (KMemory Memory_InvalidAddress)
        | Some (phys, page_off) =>
            let chunk := Nat.min (Z.to_nat (4096 - page_off)) n in
            match reachable off phys with
            | None => Err (KMemory Memory_InvalidAddress)
            | Some _ =>
                let? rest := copy_from_loop fuel m off table_phys (cur + Z.of_nat chunk) (n - chunk) in
                Ok (load m phys chunk ++ rest)
            end
        end
  end.

Definition copy_from_user_in_table (m : mem) (table_phys src_ptr : Z) (n : nat) : result (list Z) Kernel :=
  if Nat.eqb n 0 then Ok []
  else
    match phys_offset with
    | None => Err (KMemory Memory_NotMapped)
    | Some off =>
        if negb (range_ok src_ptr n) then Err (KMemory Memory_InvalidAddress)
        else copy_from_loop (S n) m off table_phys src_ptr n
    end.

Fixpoint copy_to_loop (fuel : nat) (m : mem) (off table_phys cur : Z) (src : list Z) : result unit Kernel * mem :=
  match fuel with
  | O => (Err (KMemory Memory_InvalidAddress), m)
  | S fuel =>
      match src with
      | [] => (Ok tt, m)
      | _ =>
          match translate_user_addr_in_table m table_phys cur true with
          | None => (Err (KMemory Memory_PermissionDenied), m)
          | Some (phys, page_off) =>
              let chunk := Nat.min (Z.to_nat (4096 - page_off)) (length src) in
              match reachable off phys with
              | None => (Err (KMemory Memory_InvalidAddress), m)
              | Some _ =>
                  copy_to_loop fuel (store m phys (take chunk src)) off table_phys
                    (cur + Z.of_nat chunk) (drop chunk src)
              end
          end
      end
  end.

Definition copy_to_user_in_table (m : mem) (table_phys dst_ptr : Z) (src : list Z) : result unit Kernel * mem :=
  match src with
  | [] => (Ok tt, m)
  | _ =>
      match phys_offset with
      | None => (Err (KMemory Memory_NotMapped), m)
      | Some off =>
          if negb (range_ok dst_ptr (length src)) then (Err (KMemory Memory_InvalidAddress), m)
          else copy_to_loop (S (length src)) m off table_phys dst_ptr src
      end
  end.

(** The page loop of [is_user_range_mapped_in_table]; [fuel] counts pages. *)
Fixpoint range_loop (fuel : nat) (m : mem) (table_phys page_addr end_page : Z) : bool :=
  match fuel with
  | O => false
  | S fuel =>
      if negb (page_is_user_mapped_in_table m table_phys page_addr) then false
      else if page_addr =? end_page then true
      else
        match checked_add64 page_addr 4096 with
        | None => false
        | Some next => range_loop fuel m table_phys next end_page
        end
  end.

Definition is_user_range_mapped_in_table (m : mem) (table_phys addr len : Z) : bool :=
  if USER_SPACE_END <? addr then false
  else if len =? 0 then true
  else
    match checked_add64 addr (Z.max (len - 1) 0) with
    | None => false
    | Some e =>
        if USER_SPACE_END <? e then false
        else
          let first := page_down addr in
          let last := page_down e in
          range_loop (Z.to_nat ((last - first) / 4096 + 1)) m table_phys first last
    end.

(** [VirtAddr::new] panics on an address that is not canonical: [None]. *)
Definition canonical (a : Z) : bool := (a <? 140737488355328) || (18446603336221196288 <=? a).

Definition virt_to_phys_in_table (m : mem) (table_phys virt_addr : Z) : option (option Z) :=
  if canonical virt_addr then Some (fst <$> translate_addr_in_table m table_phys virt_addr) else None.
End walk.

(** ** Address arithmetic *)

Lemma index_range a k : 0 <= Z.land (Z.shiftr a k) 511 < 512.
Proof. change 511 with (Z.ones 9). rewrite Z.land_ones by lia. apply Z.mod_pos_bound. lia. Qed.

Lemma shiftr_page_down a k : 12 <= k -> Z.shiftr (page_down a) k = Z.shiftr a k.
Proof.
  intros Hk. unfold page_down. rewrite Z.shiftr_land.
  replace (Z.shiftr (Z.lnot 4095) k) with (-1); [apply Z.land_m1_r|].
  replace k with (12 + (k - 12)) by lia. rewrite <-Z.shiftr_shiftr by lia.
  change (Z.shiftr (Z.lnot 4095) 12) with (-1). symmetry. apply Z.bits_inj'. intros n Hn.
  rewrite Z.shiftr_spec, !Z.bits_m1 by lia. done.
Qed.

Lemma shiftr_same_page a i k : 12 <= k -> 0 <= i -> a mod 4096 + i < 4096 -> Z.shiftr (a + i) k = Z.shiftr a k.
Proof.
  intros Hk Hi Hp. assert (Z.shiftr (a + i) 12 = Z.shiftr a 12) as E.
  { rewrite !Z.shiftr_div_pow2 by lia. change (2 ^ 12) with 4096.
    pose proof (Z.div_mod a 4096 ltac:(lia)). pose proof (Z.mod_pos_bound a 4096 ltac:(lia)).
    symmetry. apply (Z.div_unique_pos _ _ _ (a mod 4096 + i)); lia. }
  replace k with (12 + (k - 12)) by lia. by rewrite <-!Z.shiftr_shiftr, E by lia.
Qed.

Lemma mod_same_page a i k : 12 <= k -> 0 <= i -> a mod 4096 + i < 4096 -> (a + i) mod 2 ^ k = a mod 2 ^ k + i.
Proof.
  intros Hk Hi Hp. set (N := 2 ^ k).
  assert (N = 4096 * 2 ^ (k - 12)) as HN.
  { unfold N. replace k with (12 + (k - 12)) at 1 by lia. rewrite Z.pow_add_r by lia. done. }
  assert (0 < 2 ^ (k - 12)) by (apply Z.pow_pos_nonneg; lia).
  pose proof (Z.mod_pos_bound a N ltac:(lia)) as Hb. pose proof (Z.div_mod a N ltac:(lia)) as Hd.
  assert ((a mod N) mod 4096 = a mod 4096) as Hm.
  { rewrite HN, Z.rem_mul_r by lia. rewrite Z.mul_comm, Z_mod_plus_full. apply Z.mod_mod. lia. }
  pose proof (Z.div_mod (a mod N) 4096 ltac:(lia)) as Hd2. rewrite Hm in Hd2.
  assert ((a mod N) / 4096 < 2 ^ (k - 12)) by (apply Z.div_lt_upper_bound; lia).
  symmetry. apply (Z.mod_unique_pos _ _ (a / N)); nia.
Qed.

Lemma entry_addr_eq e : entry_addr e = page_down (e mod 2 ^ 52).
Proof.
  unfold entry_addr, page_down. change ADDR_MASK with (Z.land (Z.ones 52) (Z.lnot 4095)).
  by rewrite Z.land_assoc, Z.land_ones by lia.
Qed.

Lemma entry_addr_range e : 0 <= entry_addr e < 2 ^ 52.
Proof.
  rewrite entry_addr_eq, page_down_spec. pose proof (Z.mod_pos_bound e (2 ^ 52) ltac:(lia)).
  pose proof (Z.mod_pos_bound (e mod 2 ^ 52) 4096 ltac:(lia)).
  pose proof (Z.mod_le (e mod 2 ^ 52) 4096 ltac:(lia) ltac:(lia)). lia.
Qed.

Lemma entry_addr_aligned e : entry_addr e mod 4096 = 0.
Proof. rewrite entry_addr_eq. apply page_down_aligned. Qed.

Lemma offset_add e a k :
  0 <= k <= 30 -> checked_add64 (entry_addr e) (Z.land a (Z.ones k)) = Some (entry_addr e + a mod 2 ^ k).
Proof.
  intros Hk. apply checked_add64_Some. rewrite Z.land_ones by lia. split; [done|].
  pose proof (entry_addr_range e). assert (0 < 2 ^ k) by (apply Z.pow_pos_nonneg; lia).
  pose proof (Z.mod_pos_bound a (2 ^ k) ltac:(lia)).
  assert (2 ^ k <= 2 ^ 30) by (apply Z.pow_le_mono_r; lia). unfold U64_MODULUS. lia.
Qed.

(** ** Walks inside one page *)

Section walk_lemmas.
Context (phys_offset : option Z).
Notation translate := (translate_addr_in_table phys_offset).
Notation user_flags := (user_page_flags_in_table phys_offset).
Notation translate_user := (translate_user_addr_in_table phys_offset).

Lemma user_flags_page_down m t a : user_flags m t (page_down a) = user_flags m t a.
Proof.
  unfold user_page_flags_in_table, p4_index, p3_index, p2_index, p1_index.
  by rewrite !shiftr_page_down by lia.
Qed.

(** The leaf entry a walk ends in, with the number of offset bits below it. *)
Definition leaf (m : mem) (t a : Z) : option (Z * Z) :=
  off ← phys_offset;
  if negb (Z.land t 4095 =? 0) then None
  else
    _ ← reachable off t;
    let l4e := read_entry m t (p4_index a) in
    if is_unused l4e || negb (has (entry_flags l4e) PRESENT) then None
    else
      _ ← reachable off (entry_addr l4e);
      let l3e := read_entry m (entry_addr l4e) (p3_index a) in
      if is_unused l3e || negb (has (entry_flags l3e) PRESENT) then None
      else if has (entry_flags l3e) HUGE_PAGE then Some (l3e, 30)
      else
        _ ← reachable off (entry_addr l3e);
        let l2e := read_entry m (entry_addr l3e) (p2_index a) in
        if is_unused l2e || negb (has (entry_flags l2e) PRESENT) then None
        else if has (entry_flags l2e) HUGE_PAGE then Some (l2e, 21)
        else
          _ ← reachable off (entry_addr l2e);
          let l1e := read_entry m (entry_addr l2e) (p1_index a) in
          if is_unused l1e || negb (has (entry_flags l1e) PRESENT) then None else Some (l1e, 12).

(** Follows the same tests on both sides of an equation. *)
Ltac walk_cases :=
  repeat match goal with
  | |- context [ reachable ?o ?p ] => destruct (reachable o p); try reflexivity
  | |- context [ if ?b then _ else _ ] => destruct b; try reflexivity
  end.

Lemma translate_leaf m t a :
  translate m t a = (ek ← leaf m t a; Some (entry_addr ek.1 + a mod 2 ^ ek.2, entry_flags ek.1)).
Proof.
  unfold translate_addr_in_table, leaf.
  change (Z.shiftl 1 30 - 1) with (Z.ones 30). change (Z.shiftl 1 21 - 1) with (Z.ones 21).
  change (Z.land a 4095) with (Z.land a (Z.ones 12)). rewrite !offset_add by lia.
  destruct phys_offset as [off|]; [|done]. cbn [mbind option_bind]. walk_cases.
Qed.

Lemma leaf_bits m t a e k : leaf m t a = Some (e, k) -> 12 <= k <= 30.
Proof.
  unfold leaf. destruct phys_offset as [off|]; [|done]. cbn [mbind option_bind].
  repeat match goal with
  | |- (reachable ?o ?p ≫= _) = Some _ -> _ => destruct (reachable o p); [|discriminate]
  | |- (Some _ ≫= _) = Some _ -> _ => cbn [mbind option_bind]
  | |- (if ?b then _ else _) = Some _ -> _ => destruct b; [try discriminate|try discriminate]
  end; intros [= <- <-]; lia.
Qed.

(** Translation is a translation by a constant inside a 4 KiB page. *)
Lemma translate_same_page m t a i p f :
  0 <= i -> a mod 4096 + i < 4096 -> translate m t a = Some (p, f) -> translate m t (a + i) = Some (p + i, f).
Proof.
  intros Hi Hp. rewrite (translate_leaf m t a), (translate_leaf m t (a + i)).
  assert (leaf m t (a + i) = leaf m t a) as ->.
  { unfold leaf, p4_index, p3_index, p2_index, p1_index. by rewrite !shiftr_same_page by lia. }
  destruct (leaf m t a) as [[e k]|] eqn:El; [|done]. apply leaf_bits in El. cbn.
  intros [= <- <-]. rewrite mod_same_page by lia. do 2 f_equal. lia.
Qed.

Lemma translate_user_same_page m t a i p o w :
  0 <= i -> o + i < 4096 -> a + i <= USER_SPACE_END ->
  translate_user m t a w = Some (p, o) -> translate_user m t (a + i) w = Some (p + i, o + i).
Proof.
  intros Hi Ho Ha. unfold translate_user_addr_in_table. rewrite !user_flags_page_down.
  destruct (Z.ltb_spec USER_SPACE_END a); [done|]. rewrite (proj2 (Z.ltb_ge _ _) Ha).
  rewrite !land_4095.
  intros H'. assert (o = a mod 4096) as ->.
  { destruct (user_flags m t a); [|done]. cbn in H'. repeat (case_match; try done).
    destruct (translate m t a); [|done]. cbn in H'. congruence. }
  assert (user_flags m t (a + i) = user_flags m t a) as ->.
  { unfold user_page_flags_in_table, p4_index, p3_index, p2_index, p1_index. by rewrite !shiftr_same_page by lia. }
  destruct (user_flags m t a) as [f|]; [|done]. cbn in *.
  destruct (negb (has f PRESENT) || negb (has f USER_ACCESSIBLE)); [done|].
  destruct (w && negb (has f WRITABLE)); [done|].
  destruct (translate m t a) as [[q g]|] eqn:Et; [|done]. cbn in *. injection H' as <-.
  rewrite (translate_same_page _ _ _ _ _ _ Hi Ho Et). cbn. do 2 f_equal.
  change 4096 with (2 ^ 12). by rewrite mod_same_page by lia.
Qed.
End walk_lemmas.
End Paging.
