(* ===== verification/PageTree.v ===== *)
(** The tree of page tables below a root.

    A table is reached by the path of entry indices that leads to it from the
    root; [walk] is the hardware's (and the walkers') descent to a leaf entry.
    The lemmas say what a change of memory does to paths and walks when all
    entries but one keep their meaning. *)

From Stdlib Require Import ZArith Lia.
From stdpp Require Import base list option numbers.
From S2P Require Import Prelude Types UserMem Mem Frame Paging.
Import Mem Paging.

Local Open Scope Z_scope.

Module PageTree.

(** ** Entries *)

Definition idx (i : Z) : Prop := 0 <= i < 512.

Definition present (e : Z) : bool := negb (is_unused e) && has (entry_flags e) PRESENT.

(** The table below an entry of a table of level [lvl] (4 is the root); the
    huge-page bit means nothing in a root entry. *)
Definition descend (lvl : nat) (e : Z) : option Z :=
  if present e && (Nat.eqb lvl 4 || negb (has (entry_flags e) HUGE_PAGE)) then Some (entry_addr e) else None.

Lemma descend_present lvl e t : descend lvl e = Some t -> present e = true /\ t = entry_addr e.
Proof. unfold descend. destruct (present e); [|done]. destruct (_ || _); [|done]. cbn. by intros [= <-]. Qed.

Lemma aligned_mask p : p mod 4096 = 0 -> 0 <= p < 2 ^ 52 -> Z.land p ADDR_MASK = p.
Proof.
  intros Ha Hr. pose proof (entry_addr_eq p) as H. unfold entry_addr in H. rewrite H.
  rewrite (Z.mod_small p) by lia. rewrite page_down_spec, Ha. lia.
Qed.

Definition plain_flags (f : Z) : Prop := Z.land f ADDR_MASK = 0.

Lemma mk_entry_addr p f : p mod 4096 = 0 -> 0 <= p < 2 ^ 52 -> plain_flags f -> entry_addr (mk_entry p f) = p.
Proof.
  intros Ha Hr Hf. unfold entry_addr, mk_entry. rewrite Z.land_lor_distr_l, Hf, Z.lor_0_r. by apply aligned_mask.
Qed.

Lemma mk_entry_flags p f : p mod 4096 = 0 -> 0 <= p < 2 ^ 52 -> plain_flags f -> entry_flags (mk_entry p f) = f.
Proof.
  intros Ha Hr Hf. unfold entry_flags, mk_entry. rewrite Z.ldiff_land, Z.land_lor_distr_l, <-!Z.ldiff_land.
  assert (Z.ldiff p ADDR_MASK = 0) as ->.
  { rewrite <-(aligned_mask p) by done. rewrite Z.ldiff_land, <-Z.land_assoc, Z.land_lnot_diag. apply Z.land_0_r. }
  rewrite Z.lor_0_l. rewrite <-(Z.lor_ldiff_and f ADDR_MASK) at 2. unfold plain_flags in Hf. by rewrite Hf, Z.lor_0_r.
Qed.

Lemma plain_entry_flags e : plain_flags (entry_flags e).
Proof. unfold plain_flags, entry_flags. by rewrite Z.ldiff_land, <-Z.land_assoc, (Z.land_comm (Z.lnot _)), Z.land_lnot_diag, Z.land_0_r. Qed.

Lemma plain_lor f g : plain_flags f -> plain_flags g -> plain_flags (Z.lor f g).
Proof. unfold plain_flags. intros Hf Hg. by rewrite Z.land_lor_distr_l, Hf, Hg. Qed.

Lemma u64_land x : is_u64 x <-> Z.land x (Z.ones 64) = x.
Proof.
  rewrite Z.land_ones by lia. unfold is_u64, U64_MODULUS. change 18446744073709551616 with (2 ^ 64). split.
  - apply Z.mod_small.
  - intros <-. apply Z.mod_pos_bound. lia.
Qed.

Lemma lor_u64 a b : is_u64 a -> is_u64 b -> is_u64 (Z.lor a b).
Proof. rewrite !u64_land. intros Ha Hb. by rewrite Z.land_lor_distr_l, Ha, Hb. Qed.

Lemma ldiff_u64 a b : is_u64 a -> is_u64 (Z.ldiff a b).
Proof.
  rewrite !u64_land. intros Ha. rewrite !Z.ldiff_land, <-Z.land_assoc, (Z.land_comm (Z.lnot b)), Z.land_assoc. by rewrite Ha.
Qed.

Lemma has_lor_l f g b : has f b = true -> has (Z.lor f g) b = true.
Proof.
  unfold has. rewrite !Z.eqb_eq. intros H. rewrite Z.land_lor_distr_l, H. apply Z.bits_inj'. intros n Hn.
  rewrite Z.lor_spec, Z.land_spec. destruct (Z.testbit b n), (Z.testbit g n); done.
Qed.

Lemma has_lor_r f b : has (Z.lor f b) b = true.
Proof.
  unfold has. rewrite Z.eqb_eq. apply Z.bits_inj'. intros n Hn.
  rewrite Z.land_spec, Z.lor_spec. destruct (Z.testbit b n), (Z.testbit f n); done.
Qed.

Lemma has_lor_other f g b : Z.land g b = 0 -> has (Z.lor f g) b = has f b.
Proof. unfold has. intros H. by rewrite Z.land_lor_distr_l, H, Z.lor_0_r. Qed.

Lemma mk_entry_used p f : has f PRESENT = true -> is_unused (mk_entry p f) = false.
Proof.
  unfold is_unused, mk_entry, has, PRESENT. rewrite Z.eqb_eq. intros Hf. apply Z.eqb_neq. intros H0.
  apply Z.lor_eq_0_iff in H0 as [_ ->]. done.
Qed.

(** An entry written with [set_addr], read back. *)
Lemma mk_entry_spec p f :
  p mod 4096 = 0 -> 0 <= p < 2 ^ 52 -> plain_flags f -> has f PRESENT = true ->
  entry_addr (mk_entry p f) = p /\ entry_flags (mk_entry p f) = f /\ present (mk_entry p f) = true.
Proof.
  intros H1 H2 H3 H4. unfold present. rewrite mk_entry_addr, mk_entry_flags, mk_entry_used by done. by rewrite H4.
Qed.

(** ** Reading and writing entries *)

Lemma table_entry_disjoint x y i j :
  x mod 4096 = 0 -> y mod 4096 = 0 -> idx i -> idx j -> x <> y \/ i <> j ->
  y + 8 * j + 8 <= x + 8 * i \/ x + 8 * i + 8 <= y + 8 * j.
Proof.
  unfold idx. intros Hx Hy Hi Hj Hn.
  pose proof (Z.div_mod x 4096 ltac:(lia)). pose proof (Z.div_mod y 4096 ltac:(lia)). lia.
Qed.

Lemma read_write_entry m x i e : is_u64 e -> read_entry (write_entry m x i e) x i = e.
Proof. apply read_write_u64. Qed.

Lemma read_write_entry_other m x i e y j :
  x mod 4096 = 0 -> y mod 4096 = 0 -> idx i -> idx j -> x <> y \/ i <> j ->
  read_entry (write_entry m x i e) y j = read_entry m y j.
Proof. intros. apply read_write_u64_other. by apply table_entry_disjoint. Qed.

Lemma write_entry_other m x i e z : idx i -> z < x \/ x + 4096 <= z -> write_entry m x i e z = m z.
Proof. unfold idx. intros Hi Hz. apply store_out. rewrite to_le_bytes_length. lia. Qed.

Lemma read_entry_ext m m' x i :
  idx i -> (forall z, x <= z < x + 4096 -> m' z = m z) -> read_entry m' x i = read_entry m x i.
Proof.
  unfold idx, read_entry, read_u64. intros Hi H. f_equal. apply load_ext. intros k Hk. apply H. lia.
Qed.

Lemma read_zeroed m x i : idx i -> read_entry (zero m x 4096) x i = 0.
Proof. unfold idx. intros Hi. apply read_u64_zero; lia. Qed.

(** ** Paths and walks *)

Fixpoint table_at (lvl : nat) (m : mem) (t : Z) (p : list Z) : option Z :=
  match p with
  | [] => Some t
  | i :: p => t' ← descend lvl (read_entry m t i); table_at (pred lvl) m t' p
  end.

(** The leaf entry an address leads to and the number of offset bits below it. *)
Fixpoint walk (lvl : nat) (m : mem) (t : Z) (path : list Z) : option (Z * Z) :=
  match path with
  | [] => None
  | [i] => let e := read_entry m t i in if present e then Some (e, 12) else None
  | i :: r =>
      let e := read_entry m t i in
      if present e then
        match descend lvl e with
        | Some t' => walk (pred lvl) m t' r
        | None => Some (e, 12 + 9 * (Z.of_nat lvl - 1))
        end
      else None
  end.

Definition addr_path (a : Z) : list Z := [p4_index a; p3_index a; p2_index a; p1_index a].

Lemma addr_path_idx a : Forall idx (addr_path a).
Proof. repeat constructor; apply index_range. Qed.

Lemma table_at_app lvl m t p q :
  table_at lvl m t (p ++ q) = (x ← table_at lvl m t p; table_at (lvl - length p) m x q).
Proof.
  revert lvl t. induction p as [|i p IH]; intros lvl t; cbn; [by rewrite Nat.sub_0_r|].
  destruct (descend lvl _) as [t'|]; [|done]. cbn. rewrite IH. by replace (pred lvl - length p)%nat with (lvl - S (length p))%nat by lia.
Qed.

Lemma walk_app lvl m t p x i r :
  table_at lvl m t p = Some x -> walk lvl m t (p ++ i :: r) = walk (lvl - length p) m x (i :: r).
Proof.
  revert lvl t. induction p as [|j p IH]; intros lvl t; cbn [table_at app length]; [intros [= ->]; by rewrite Nat.sub_0_r|].
  destruct (descend lvl _) as [t'|] eqn:E; [|done]. cbn [mbind option_bind]. intros H%IH.
  destruct (descend_present _ _ _ E) as [Hp _].
  transitivity (walk (pred lvl) m t' (p ++ i :: r)).
  - destruct p; cbn [app walk]; by rewrite Hp, E.
  - rewrite H. by replace (pred lvl - length p)%nat with (lvl - S (length p))%nat by lia.
Qed.

(** A walk that stops above the table of its path, or goes through it. *)
Lemma table_at_aligned lvl m t p x : t mod 4096 = 0 -> table_at lvl m t p = Some x -> x mod 4096 = 0.
Proof.
  revert lvl t. induction p as [|i p IH]; intros lvl t Ht; cbn; [by intros [= <-]|].
  destruct (descend lvl _) as [t'|] eqn:E; [|done]. cbn. apply IH.
  destruct (descend_present _ _ _ E) as [_ ->]. apply entry_addr_aligned.
Qed.

(** Two entries of a table of level [lvl] that lead to the same places. *)
Definition same_meaning (lvl : nat) (e e' : Z) : Prop :=
  e = e' \/ (exists t, lvl <> 1%nat /\ descend lvl e = Some t /\ descend lvl e' = Some t).

Lemma same_meaning_descend lvl e e' : same_meaning lvl e e' -> descend lvl e = descend lvl e'.
Proof. intros [->|(t & _ & -> & ->)]; done. Qed.

Section frame.
Context (m m' : mem) (t : Z) (k : list Z).
(** All entries but the one at [k] keep their meaning. *)
Hypothesis Hsame : forall q y j,
  (length q <= 3)%nat -> Forall idx q -> idx j -> table_at 4 m t q = Some y -> q ++ [j] <> k ->
  same_meaning (4 - length q) (read_entry m y j) (read_entry m' y j).

Lemma table_at_frame_from q y r :
  (length q + length r <= 4)%nat -> Forall idx (q ++ r) -> table_at 4 m t q = Some y -> ~ k `prefix_of` q ++ r ->
  table_at (4 - length q) m' y r = table_at (4 - length q) m y r.
Proof.
  revert q y. induction r as [|j r IH]; intros q y Hl Hi Hy Hk; [done|]. cbn [table_at].
  assert (q ++ [j] <> k) as Hqk. { intros <-. apply Hk. exists r. by rewrite <-app_assoc. }
  pose proof Hi as Hi'. apply Forall_app in Hi' as [Hq Hjr]. apply list.Forall_cons in Hjr as [Hj Hr]. cbn in Hl.
  rewrite <-(same_meaning_descend _ _ _ (Hsame q y j ltac:(lia) Hq Hj Hy Hqk)).
  destruct (descend _ _) as [y'|] eqn:E; [|done]. cbn [mbind option_bind].
  replace (pred (4 - length q)) with (4 - length (q ++ [j]))%nat by (rewrite length_app; cbn; lia).
  apply IH; rewrite <-?app_assoc, ?length_app; cbn; [lia|done| |done].
  rewrite table_at_app, Hy. cbn. by rewrite E.
Qed.

Lemma table_at_frame r :
  (length r <= 4)%nat -> Forall idx r -> ~ k `prefix_of` r -> table_at 4 m' t r = table_at 4 m t r.
Proof. intros. by apply (table_at_frame_from [] t r). Qed.

Lemma walk_frame_from q y r :
  (length q + length r = 4)%nat -> Forall idx (q ++ r) -> table_at 4 m t q = Some y -> ~ k `prefix_of` q ++ r ->
  walk (4 - length q) m' y r = walk (4 - length q) m y r.
Proof.
  revert q y. induction r as [|j r IH]; intros q y Hl Hi Hy Hk; [done|].
  assert (q ++ [j] <> k) as Hqk. { intros <-. apply Hk. exists r. by rewrite <-app_assoc. }
  pose proof Hi as Hi'. apply Forall_app in Hi' as [Hq Hjr]. apply list.Forall_cons in Hjr as [Hj Hr]. cbn in Hl.
  pose proof (Hsame q y j ltac:(lia) Hq Hj Hy Hqk) as Hs.
  destruct r as [|j2 r].
  - cbn [walk]. destruct Hs as [->|(t' & Hn & _)]; [done|]. cbn in Hl. lia.
  - cbn [walk]. destruct Hs as [<-|(t' & _ & E1 & E2)].
    + destruct (present _) eqn:Ep; [|done]. destruct (descend _ _) as [y'|] eqn:E; [|done].
      replace (pred (4 - length q)) with (4 - length (q ++ [j]))%nat by (rewrite length_app; cbn; lia).
      apply IH; rewrite <-?app_assoc, ?length_app; cbn [app length]; [cbn in Hl; lia|done| |done].
      rewrite table_at_app, Hy. cbn. by rewrite E.
    + rewrite E1, E2. rewrite (proj1 (descend_present _ _ _ E1)), (proj1 (descend_present _ _ _ E2)).
      replace (pred (4 - length q)) with (4 - length (q ++ [j]))%nat by (rewrite length_app; cbn; lia).
      apply IH; rewrite <-?app_assoc, ?length_app; cbn [app length]; [cbn in Hl; lia|done| |done].
      rewrite table_at_app, Hy. cbn. by rewrite E1.
Qed.

Lemma walk_frame r :
  length r = 4%nat -> Forall idx r -> ~ k `prefix_of` r -> walk 4 m' t r = walk 4 m t r.
Proof. intros. by apply (walk_frame_from [] t r). Qed.
End frame.

(** Nothing is mapped below a table of zeroes. *)
Lemma walk_zero lvl m x r : (forall j, idx j -> read_entry m x j = 0) -> Forall idx r -> walk lvl m x r = None.
Proof. intros Hz Hr. destruct r as [|i r]; [done|]. apply list.Forall_cons in Hr as [Hi _]. cbn. rewrite Hz by done. by destruct r. Qed.

Lemma table_at_zero lvl m x i r : (forall j, idx j -> read_entry m x j = 0) -> idx i -> table_at lvl m x (i :: r) = None.
Proof. intros Hz Hi. cbn. by rewrite Hz. Qed.

(** ** Addresses and paths *)

Lemma index_div a k : 0 <= k -> Z.land (Z.shiftr a k) 511 = a / 2 ^ k mod 512.
Proof. intros. change 511 with (Z.ones 9). by rewrite Z.land_ones, Z.shiftr_div_pow2 by lia. Qed.

Lemma page_number_path a :
  (a / 4096) mod 2 ^ 36 = p1_index a + 512 * (p2_index a + 512 * (p3_index a + 512 * p4_index a)).
Proof.
  unfold p1_index, p2_index, p3_index, p4_index. rewrite !index_div by lia.
  change (2 ^ 12) with 4096. set (n := a / 4096).
  replace (a / 2 ^ 21) with (n / 512) by (unfold n; rewrite Z.div_div by lia; done).
  replace (a / 2 ^ 30) with (n / 512 / 512) by (unfold n; rewrite !Z.div_div by lia; done).
  replace (a / 2 ^ 39) with (n / 512 / 512 / 512) by (unfold n; rewrite !Z.div_div by lia; done).
  change (2 ^ 36) with (512 * (512 * (512 * 512))).
  rewrite !Z.rem_mul_r by lia. lia.
Qed.

Definition canonical_u64 (a : Z) : Prop := is_u64 a /\ canonical a = true.

(** Canonical addresses with the same path lie on the same page. *)
Lemma addr_path_inj a b : canonical_u64 a -> canonical_u64 b -> addr_path a = addr_path b <-> a / 4096 = b / 4096.
Proof.
  intros [Ha Hca] [Hb Hcb]. split.
  - intros [= E4 E3 E2 E1]. pose proof (page_number_path a) as Pa. pose proof (page_number_path b) as Pb.
    rewrite E1, E2, E3, E4, <-Pb in Pa. unfold is_u64, canonical, U64_MODULUS in *.
    assert (forall x, 0 <= x < 18446744073709551616 -> (x <? 140737488355328) || (18446603336221196288 <=? x) = true ->
      0 <= x / 4096 < 2 ^ 35 \/ 2 ^ 52 - 2 ^ 35 <= x / 4096 < 2 ^ 52) as Hr.
    { intros x Hx [H%Z.ltb_lt|H%Z.leb_le]%orb_true_iff; pose proof (Z.div_mod x 4096 ltac:(lia)); pose proof (Z.mod_pos_bound x 4096 ltac:(lia)); lia. }
    pose proof (Hr a Ha Hca). pose proof (Hr b Hb Hcb). set (na := a / 4096) in *. set (nb := b / 4096) in *.
    pose proof (Z.div_mod na (2 ^ 36) ltac:(lia)). pose proof (Z.div_mod nb (2 ^ 36) ltac:(lia)).
    pose proof (Z.mod_pos_bound na (2 ^ 36) ltac:(lia)). lia.
  - intros E. unfold addr_path, p4_index, p3_index, p2_index, p1_index. rewrite !index_div by lia.
    assert (forall k, 12 <= k -> a / 2 ^ k = b / 2 ^ k) as Hk.
    { intros k Hk. replace k with (12 + (k - 12)) by lia. rewrite Z.pow_add_r by lia.
      rewrite <-!Z.div_div by (try apply Z.pow_pos_nonneg; lia). change (2 ^ 12) with 4096. by rewrite E. }
    by rewrite !Hk by lia.
Qed.

(** The walkers' leaf is the walk, when the direct map covers physical memory. *)
Lemma reachable_entry off e : 0 <= off -> off + 2 ^ 52 <= U64_MODULUS -> reachable off (entry_addr e) = Some tt.
Proof.
  intros H1 H2. unfold reachable. pose proof (entry_addr_range e).
  rewrite (proj2 (checked_add64_Some _ _ (entry_addr e + off))); [done|]. lia.
Qed.

Lemma present_absent e : is_unused e || negb (has (entry_flags e) PRESENT) = negb (present e).
Proof. unfold present. by destruct (is_unused e), (has _ _). Qed.

Lemma leaf_walk off m t a :
  0 <= off -> off + 2 ^ 52 <= U64_MODULUS -> t mod 4096 = 0 -> t < 2 ^ 52 ->
  leaf (Some off) m t a = walk 4 m t (addr_path a).
Proof.
  intros H1 H2 Ht Htr. unfold leaf, addr_path. cbn [mbind option_bind walk]. rewrite land_4095, Ht. cbn [Z.eqb negb].
  assert (reachable off t = Some tt) as ->.
  { unfold reachable. by rewrite (proj2 (checked_add64_Some _ _ (t + off))) by lia. }
  cbn [mbind option_bind].
  rewrite !present_absent, !reachable_entry by done. unfold descend. cbn [pred Nat.eqb orb andb mbind option_bind].
  set (e4 := read_entry m t (p4_index a)). set (e3 := read_entry m (entry_addr e4) (p3_index a)).
  set (e2 := read_entry m (entry_addr e3) (p2_index a)). set (e1 := read_entry m (entry_addr e2) (p1_index a)).
  destruct (present e4); [|done]. cbn [negb andb orb]. fold e3.
  destruct (present e3); [|done]. destruct (has (entry_flags e3) HUGE_PAGE); [done|]. cbn [negb andb orb]. fold e2.
  destruct (present e2); [|done]. destruct (has (entry_flags e2) HUGE_PAGE); [done|]. cbn [negb andb orb]. fold e1.
  by destruct (present e1).
Qed.
End PageTree.
