(* ===== verification/PageTables.v ===== *)
(** Building page tables: [map_page_in_table], [unmap_page_in_table] and the
    destruction of a user page table, [src/core/mem/paging.rs].

    The state is the physical memory and the frame allocator, both of which
    these functions change.  [None] is a panic ([VirtAddr::new] or
    [PhysAddr::new] on an address that is out of range, or an arithmetic
    overflow).

    The tables reachable from a root are addressed by paths of entry indices.
    [pt_inv] says that they form a tree of frames held by the kernel; under it,
    a write to one entry changes the translation of the addresses below that
    entry and of no other address. *)

From Stdlib Require Import ZArith Lia.
From stdpp Require Import base list option numbers sets.
From S2P Require Import Prelude State Types UserMem Mem Frame Paging PageTree.
Import Mem Result Paging PageTree.

Local Open Scope Z_scope.
Local Open Scope kernel_scope.

Module PageTables.

(** Physical memory with the frame allocator that manages it. *)
Record PMem := mkPM { frames : option Frame.BitmapFrameAllocator; ram : mem }.

Definition PT (A : Type) : Type := ST PMem (result A Kernel).

Definition allocate_frame : PT Z := fun s =>
  let '(r, g, m) := Frame.allocate_frame (frames s) (ram s) in Some (r, mkPM g m).

(** [let _ = frame::deallocate_frame(..)]: the result is ignored. *)
Definition release_frame (p : Z) : ST PMem unit := fun s =>
  let '(_, g, m) := Frame.deallocate_frame p (frames s) (ram s) in Some (tt, mkPM g m).

Definition get_entry (table i : Z) : ST PMem Z := fun s => Some (read_entry (ram s) table i, s).

Definition put_entry (table i e : Z) : ST PMem unit :=
  smodify (fun s => mkPM (frames s) (write_entry (ram s) table i e)).

(** [PageTableEntry::set_addr(PhysAddr::new(p), flags)]: panics on an address
    above 52 bits or one that is not page aligned. *)
Definition set_addr (table i p flags : Z) : ST PMem unit :=
  if (p <? 2 ^ 52) && (Z.land p 4095 =? 0) then put_entry table i (mk_entry p flags) else undefined.

Definition set_unused (table i : Z) : ST PMem unit := put_entry table i 0.

Definition zero_page (p : Z) : ST PMem unit :=
  smodify (fun s => mkPM (frames s) (zero (ram s) p 4096)).

(** [p.checked_add(phys_off).ok_or(OutOfMemory)] *)
Definition direct (off p : Z) : PT unit :=
  mret (ok_or (reachable off p) (KMemory Memory_OutOfMemory)).

Definition absent (e : Z) : bool := is_unused e || negb (has (entry_flags e) PRESENT).

Definition table_flags (user_accessible : bool) : Z :=
  Z.lor (Z.lor PRESENT WRITABLE) (if user_accessible then USER_ACCESSIBLE else 0).

Definition page_flags (writable user_accessible : bool) : Z :=
  Z.lor (Z.lor PRESENT (if writable then WRITABLE else 0)) (if user_accessible then USER_ACCESSIBLE else 0).

(** A frame is allocated, its address checked for the direct map, cleared and
    entered as the table below entry [i]. *)
Definition new_table (check : Z -> PT unit) (table i flags : Z) : ST PMem (result Z Kernel) :=
  new ←? allocate_frame;
  _ ←? check new;
  zero_page new ≫= fun _ =>
  set_addr table i new flags ≫= fun _ =>
  mret (Ok new).

(** The table below entry [i] of [table], allocated when it is missing: the block
    [map_page_in_table] repeats for each of the three upper levels. *)
Definition next_table (off table i : Z) (user_accessible : bool) : PT Z :=
  get_entry table i ≫= fun e =>
  if absent e then new_table (direct off) table i (table_flags user_accessible)
  else
    (if user_accessible && negb (has (entry_flags e) USER_ACCESSIBLE)
     then set_addr table i (entry_addr e) (Z.lor (entry_flags e) USER_ACCESSIBLE)
     else mret tt) ≫= fun _ =>
    mret (Ok (entry_addr e)).

(** The test for a huge page before the two lower levels. *)
Definition check_not_huge (table i : Z) : PT unit :=
  get_entry table i ≫= fun e =>
  mret (if negb (is_unused e) && has (entry_flags e) PRESENT && has (entry_flags e) HUGE_PAGE
        then Err (KMemory Memory_AlreadyMapped) else Ok tt).

(** A level below the root. *)
Definition middle_table (off table i : Z) (user_accessible : bool) : PT Z :=
  _ ←? direct off table;
  _ ←? check_not_huge table i;
  next_table off table i user_accessible.

(** The descent to the lowest table, in which the page is entered. *)
Definition ensure_l1 (off table_phys virt_addr : Z) (user_accessible : bool) : PT Z :=
  l3_phys ←? next_table off table_phys (p4_index virt_addr) user_accessible;
  l2_phys ←? middle_table off l3_phys (p3_index virt_addr) user_accessible;
  middle_table off l2_phys (p2_index virt_addr) user_accessible.

Definition fail {A} (e : Kernel) : PT A := mret (Err e).

Definition map_page_in_table (phys_offset : option Z)
    (table_phys virt_addr phys_addr : Z) (writable user_accessible : bool) : PT unit :=
  if negb (Z.land table_phys 4095 =? 0) then fail (KMemory Memory_AlignmentError)
  else if negb (Z.land virt_addr 4095 =? 0) then fail (KMemory Memory_AlignmentError)
  else if negb (Z.land phys_addr 4095 =? 0) then fail (KMemory Memory_AlignmentError)
  else
    match phys_offset with
    | None => fail (KMemory Memory_NotMapped)
    | Some off =>
        _ ←? direct off table_phys;
        if negb (canonical virt_addr) then undefined
        else
          l1_phys ←? ensure_l1 off table_phys virt_addr user_accessible;
          _ ←? direct off l1_phys;
          set_addr l1_phys (p1_index virt_addr) phys_addr (page_flags writable user_accessible) ≫= fun _ =>
          mret (Ok tt)
    end.

(** One level of [unmap_page_in_table]: [None] when the entry is not present, the
    early [return Ok(())]. *)
Definition lower_table (off table i : Z) : PT (option Z) :=
  get_entry table i ≫= fun e =>
  if absent e then mret (Ok None)
  else _ ←? direct off (entry_addr e); mret (Ok (Some (entry_addr e))).

(** The TLB flush at the end is not modelled. *)
Definition unmap_page_in_table (phys_offset : option Z) (table_phys virt_addr : Z) : PT unit :=
  if negb (Z.land table_phys 4095 =? 0) then fail (KMemory Memory_AlignmentError)
  else if negb (Z.land virt_addr 4095 =? 0) then fail (KMemory Memory_AlignmentError)
  else
    match phys_offset with
    | None => fail (KMemory Memory_NotMapped)
    | Some off =>
        _ ←? direct off table_phys;
        if negb (canonical virt_addr) then undefined
        else
          o3 ←? lower_table off table_phys (p4_index virt_addr);
          match o3 with
          | None => mret (Ok tt)
          | Some l3_phys =>
              o2 ←? lower_table off l3_phys (p3_index virt_addr);
              match o2 with
              | None => mret (Ok tt)
              | Some l2_phys =>
                  o1 ←? lower_table off l2_phys (p2_index virt_addr);
                  match o1 with
                  | None => mret (Ok tt)
                  | Some l1_phys => set_unused l1_phys (p1_index virt_addr) ≫= fun _ => mret (Ok tt)
                  end
              end
          end
    end.

(** ** Destroying a user page table *)

(** [PhysAddr::new] panics above 52 bits; [containing_address] rounds down. *)
Definition deallocate_4k_frame_by_phys (frame_phys : Z) : ST PMem unit :=
  if frame_phys <? 2 ^ 52 then release_frame (page_down frame_phys) else undefined.

(** [&mut *((p + phys_off) as *mut PageTable)]: the sum must not overflow. *)
Definition as_table (off p : Z) : ST PMem unit :=
  match reachable off p with Some _ => mret tt | None => undefined end.

Definition indices (n : nat) : list Z := Z.of_nat <$> seq 0 n.

Definition skipped (e : Z) : bool := absent e || negb (has (entry_flags e) USER_ACCESSIBLE).

Definition destroy_user_l1_table (off l1_phys : Z) : ST PMem unit :=
  as_table off l1_phys ≫= fun _ =>
  sfor (indices 512) (fun i =>
    get_entry l1_phys i ≫= fun e =>
    if skipped e then mret tt
    else deallocate_4k_frame_by_phys (entry_addr e) ≫= fun _ => set_unused l1_phys i) ≫= fun _ =>
  deallocate_4k_frame_by_phys l1_phys.

(** The loops over the two middle levels and the root differ in the function they
    call for the table below. *)
Definition destroy_entries (n : nat) (table : Z) (destroy_below : Z -> ST PMem unit) : ST PMem unit :=
  sfor (indices n) (fun i =>
    get_entry table i ≫= fun e =>
    if skipped e then mret tt
    else if has (entry_flags e) HUGE_PAGE then set_unused table i
    else destroy_below (entry_addr e) ≫= fun _ => set_unused table i).

Definition destroy_user_l2_table (off l2_phys : Z) : ST PMem unit :=
  as_table off l2_phys ≫= fun _ =>
  destroy_entries 512 l2_phys (destroy_user_l1_table off) ≫= fun _ =>
  deallocate_4k_frame_by_phys l2_phys.

Definition destroy_user_l3_table (off l3_phys : Z) : ST PMem unit :=
  as_table off l3_phys ≫= fun _ =>
  destroy_entries 512 l3_phys (destroy_user_l2_table off) ≫= fun _ =>
  deallocate_4k_frame_by_phys l3_phys.

Definition destroy_user_page_table (phys_offset : option Z) (table_phys : Z) : PT unit :=
  if (table_phys =? 0) || negb (Z.land table_phys 4095 =? 0) then fail InvalidParam
  else
    match phys_offset with
    | None => fail (KMemory Memory_NotMapped)
    | Some off =>
        as_table off table_phys ≫= fun _ =>
        destroy_entries 256 table_phys (destroy_user_l3_table off) ≫= fun _ =>
        deallocate_4k_frame_by_phys table_phys ≫= fun _ =>
        mret (Ok tt)
    end.

(** ** The invariant of a page table *)

(** Physical memory ends below 2^52, the reach of a page-table entry. *)
Definition below52 (mm : list Frame.MemoryRegion) : Prop :=
  Forall (fun r => 0 <= Frame.start r /\ 0 <= Frame.len r /\ Frame.start r + Frame.len r <= 2 ^ 52) mm.

Definition table_path (p : list Z) : Prop := (length p <= 3)%nat /\ Forall idx p.

(** The tables below [t] are distinct frames among the frames [al] handed out. *)
Record pt_inv (t : Z) (s : PMem) (al : list Z) : Prop := {
  pi_alloc : exists a fl, frames s = Some a /\ Frame.alloc_inv a (ram s) fl al /\ below52 (Frame.memory_map a);
  pi_mem : mem_wf (ram s);
  pi_inj : forall p q x, table_path p -> table_path q ->
    table_at 4 (ram s) t p = Some x -> table_at 4 (ram s) t q = Some x -> p = q;
  pi_held : forall p x, table_path p -> table_at 4 (ram s) t p = Some x -> x ∈ al;
}.

Definition in_frame (x z : Z) : Prop := x <= z < x + 4096.

(** [z] belongs to a frame in use that is not one of the tables of [t]. *)
Definition data_byte (m : mem) (t : Z) (al : list Z) (z : Z) : Prop :=
  (exists b, b ∈ al /\ in_frame b z) /\
  forall p x, table_path p -> table_at 4 m t p = Some x -> ~ in_frame x z.

(** An entry that is empty or leads to a table. *)
Definition fine (lvl : nat) (e : Z) : Prop := e = 0 \/ (lvl <> 1%nat /\ descend lvl e = Some (entry_addr e)).

(** What adding tables keeps: the tables there were, the contents of all other
    frames, and the entries a user access may pass; entries that change lead to
    tables. *)
Record extends (t : Z) (s s' : PMem) (al al' : list Z) : Prop := {
  ex_held : al ⊆ al';
  ex_made : forall x, x ∈ al' -> x ∈ al \/ exists p, table_path p /\ table_at 4 (ram s') t p = Some x;
  ex_tables : forall p x, table_path p -> table_at 4 (ram s) t p = Some x -> table_at 4 (ram s') t p = Some x;
  ex_new : forall p x, table_path p -> table_at 4 (ram s') t p = Some x -> table_at 4 (ram s) t p = Some x \/ x ∉ al;
  ex_data : forall z, data_byte (ram s) t al z -> ram s' z = ram s z;
  ex_user : forall p x j, table_path p -> idx j -> table_at 4 (ram s) t p = Some x ->
    user_ok (read_entry (ram s) x j) = true -> user_ok (read_entry (ram s') x j) = true;
  ex_entries : forall p x j, table_path p -> idx j -> table_at 4 (ram s') t p = Some x ->
    fine (4 - length p) (read_entry (ram s') x j) \/
    table_at 4 (ram s) t p = Some x /\ read_entry (ram s') x j = read_entry (ram s) x j;
}.

(** What an operation keeps that also changes entries of pages: new frames in use are
    new tables. *)
Record grown (t : Z) (s s' : PMem) (al al' : list Z) : Prop := {
  gr_held : al ⊆ al';
  gr_made : forall x, x ∈ al' -> x ∈ al \/ exists p, table_path p /\ table_at 4 (ram s') t p = Some x;
  gr_tables : forall p x, table_path p -> table_at 4 (ram s) t p = Some x -> table_at 4 (ram s') t p = Some x;
  gr_new : forall p x, table_path p -> table_at 4 (ram s') t p = Some x -> table_at 4 (ram s) t p = Some x \/ x ∉ al;
  gr_data : forall z, data_byte (ram s) t al z -> ram s' z = ram s z;
}.

Definition same_walks (t : Z) (s s' : PMem) : Prop :=
  forall r, length r = 4%nat -> Forall idx r -> walk 4 (ram s') t r = walk 4 (ram s) t r.

Lemma table_path_nil : table_path [].
Proof. split; [cbn; lia|done]. Qed.

Lemma table_path_snoc p i : table_path p -> (length p <= 2)%nat -> idx i -> table_path (p ++ [i]).
Proof. intros [_ Hi] Hl Hj. split; [rewrite length_app; cbn; lia|]. apply Forall_app. split; [done|by apply Forall_singleton]. Qed.

(** The allocator and the memory are sound, with the frames [al] handed out. *)
Record sound (s : PMem) (al : list Z) : Prop := {
  so_alloc : exists a fl, frames s = Some a /\ Frame.alloc_inv a (ram s) fl al /\ below52 (Frame.memory_map a);
  so_mem : mem_wf (ram s);
}.

Lemma pt_sound t s al : pt_inv t s al -> sound s al.
Proof. intros [? ? _ _]. by split. Qed.

Lemma sound_frame s al x : sound s al -> x ∈ al -> x mod 4096 = 0 /\ 1048576 <= x < 2 ^ 52.
Proof.
  intros [(a & fl & _ & Ha & Hb) _] Hx. pose proof (Frame.ai_frames _ _ _ _ Ha) as Hf. rewrite Forall_elem in Hf.
  destruct (Hf x) as (H1 & H2 & H3); [set_solver|]. split; [done|]. split; [lia|].
  unfold below52 in Hb. rewrite Forall_elem in Hb.
  apply Frame.is_usable_iff in H2 as (r & Hr & _ & Hx2).
  - specialize (Hb r Hr). lia.
  - apply Forall_elem. intros r Hr. specialize (Hb r Hr). unfold U64_MODULUS. lia.
Qed.

Lemma sound_allocate s al :
  sound s al ->
  allocate_frame s = Some (Err (KMemory Memory_OutOfMemory), s) \/
  exists n s1, allocate_frame s = Some (Ok n, s1) /\ n ∉ al /\ sound s1 (n :: al) /\ (forall z, ~ in_frame n z -> ram s1 z = ram s z).
Proof.
  intros [(a & fl & Ha & Hf & Hb) Hm]. destruct s as [g m]. cbn [frames ram] in *. subst g.
  unfold allocate_frame, Frame.allocate_frame. cbn [frames ram].
  destruct (Frame.allocate a m) as [[[n|] a'] m'] eqn:E.
  - right. destruct (Frame.allocate_sound a m fl al n a' m' Hf E) as (H1 & H2 & (fl' & H3) & H4 & H5).
    exists n, (mkPM (Some a') m'). split; [done|]. split; [done|].
    split; [|intros z Hz; apply H4; unfold in_frame in Hz; lia]. split; [exists a', fl'; cbn [frames ram]; by rewrite H5|].
    revert E. unfold Frame.allocate. destruct (negb _ && negb _).
    + intros [= _ _ <-]. apply mem_wf_store; [done|apply to_le_bytes_byte].
    + destruct (Frame.bump_search _ _ _); intros [= _ _ <-]; done.
  - left. revert E. unfold Frame.allocate. destruct (negb _ && negb _); [done|].
    destruct (Frame.bump_search _ _ _); [done|]. by intros [= <- <-].
Qed.

(** The owner of a frame writes into it. *)
Lemma sound_store s al n o bs :
  sound s al -> n ∈ al -> 0 <= o -> o + Z.of_nat (length bs) <= 4096 -> Forall is_byte bs ->
  sound (mkPM (frames s) (store (ram s) (n + o) bs)) al.
Proof.
  intros [(a & fl & Ha & Hf & Hb) Hm] Hn Ho Hl Hbs. split; [|by apply mem_wf_store].
  exists a, fl. split; [done|]. split; [by apply Frame.owner_write_sound|done].
Qed.

Section tree.
Context (t : Z).

Lemma held_frame s al x : pt_inv t s al -> x ∈ al -> x mod 4096 = 0 /\ 1048576 <= x < 2 ^ 52.
Proof. intros H. apply (sound_frame s al), (pt_sound t s al H). Qed.

Lemma table_frame s al p x :
  pt_inv t s al -> table_path p -> table_at 4 (ram s) t p = Some x -> x mod 4096 = 0 /\ 1048576 <= x < 2 ^ 52.
Proof. intros Hi Hp Hx. apply (held_frame s al); [done|]. by eapply pi_held. Qed.

Lemma root_frame s al : pt_inv t s al -> t mod 4096 = 0 /\ 1048576 <= t < 2 ^ 52.
Proof. intros Hi. apply (table_frame s al [] t Hi table_path_nil). done. Qed.

Lemma frames_apart x y z : x mod 4096 = 0 -> y mod 4096 = 0 -> x <> y -> in_frame x z -> ~ in_frame y z.
Proof.
  unfold in_frame. intros Hx Hy Hn. pose proof (Z.div_mod x 4096 ltac:(lia)). pose proof (Z.div_mod y 4096 ltac:(lia)). lia.
Qed.

Lemma extends_refl s al : extends t s s al al.
Proof. split; try done; intros; [by left|by left|by right]. Qed.

Lemma data_byte_extends s s' al al' z :
  pt_inv t s' al' -> extends t s s' al al' -> data_byte (ram s) t al z -> data_byte (ram s') t al' z.
Proof.
  intros Hi [Hal _ _ Hn _ _ _] [(b & Hb & Hz) Hd]. split; [exists b; split; [by apply Hal|done]|].
  intros p x Hp Hx. destruct (Hn p x Hp Hx) as [Hx'|Hx']; [by apply (Hd p)|].
  destruct (table_frame s' al' p x Hi Hp Hx) as [Hxa _]. destruct (held_frame s' al' b Hi (Hal b Hb)) as [Hba _].
  apply (frames_apart b); [done|done|congruence|done].
Qed.

Lemma extends_trans s1 s2 s3 al1 al2 al3 :
  pt_inv t s2 al2 -> extends t s1 s2 al1 al2 -> extends t s2 s3 al2 al3 -> extends t s1 s3 al1 al3.
Proof.
  intros Hi H12 H23. pose proof (fun z => data_byte_extends s1 s2 al1 al2 z Hi H12) as Hd.
  destruct H12 as [A1 A0 A2 A3 A4 A5 A6], H23 as [B1 B0 B2 B3 B4 B5 B6]. split.
  - by transitivity al2.
  - intros x Hx. destruct (B0 x Hx) as [Hx2|]; [|by right]. destruct (A0 x Hx2) as [|(p & Hp & Hpx)]; [by left|]. right. exists p. split; [done|]. by apply B2.
  - intros p x Hp Hx. by apply B2, A2.
  - intros p x Hp Hx. destruct (B3 p x Hp Hx) as [H|H]; [by apply A3|]. right. intros Hin. by apply H, A1.
  - intros z Hz. rewrite B4 by by apply Hd. by apply A4.
  - intros p x j Hp Hj Hx Hu. apply (B5 p); [done|done|by apply A2|]. by apply (A5 p).
  - intros p x j Hp Hj Hx. destruct (B6 p x j Hp Hj Hx) as [H|[Hx2 ->]]; [by left|]. by apply A6.
Qed.

Lemma extends_grown s s' al al' : extends t s s' al al' -> grown t s s' al al'.
Proof. intros [H1 H2 H3 H4 H5 _ _]. by split. Qed.

Lemma grown_refl s al : grown t s s al al.
Proof. apply extends_grown, extends_refl. Qed.

Lemma data_byte_grown s s' al al' z :
  pt_inv t s' al' -> grown t s s' al al' -> data_byte (ram s) t al z -> data_byte (ram s') t al' z.
Proof.
  intros Hi [Hal _ _ Hn _] [(b & Hb & Hz) Hd]. split; [exists b; split; [by apply Hal|done]|].
  intros p x Hp Hx. destruct (Hn p x Hp Hx) as [Hx'|Hx']; [by apply (Hd p)|].
  destruct (table_frame s' al' p x Hi Hp Hx) as [Hxa _]. destruct (held_frame s' al' b Hi (Hal b Hb)) as [Hba _].
  apply (frames_apart b); [done|done|congruence|done].
Qed.

Lemma grown_trans s1 s2 s3 al1 al2 al3 :
  pt_inv t s2 al2 -> grown t s1 s2 al1 al2 -> grown t s2 s3 al2 al3 -> grown t s1 s3 al1 al3.
Proof.
  intros Hi H12 H23. pose proof (fun z => data_byte_grown s1 s2 al1 al2 z Hi H12) as Hd.
  destruct H12 as [A1 A0 A2 A3 A4], H23 as [B1 B0 B2 B3 B4]. split.
  - by transitivity al2.
  - intros x Hx. destruct (B0 x Hx) as [Hx2|]; [|by right]. destruct (A0 x Hx2) as [|(p & Hp & Hpx)]; [by left|]. right. exists p. split; [done|]. by apply B2.
  - intros p x Hp Hx. by apply B2, A2.
  - intros p x Hp Hx. destruct (B3 p x Hp Hx) as [H|H]; [by apply A3|]. right. intros Hin. by apply H, A1.
  - intros z Hz. rewrite B4 by by apply Hd. by apply A4.
Qed.

(** ** Writing one entry *)

Section write.
Context (s : PMem) (al p : list Z) (x i e : Z).
Context (Hinv : pt_inv t s al) (Hp : table_path p) (Hx : table_at 4 (ram s) t p = Some x) (Hi : idx i) (He : is_u64 e).

Definition written : PMem := mkPM (frames s) (write_entry (ram s) x i e).

Lemma written_other q y j :
  table_path q -> idx j -> table_at 4 (ram s) t q = Some y -> q ++ [j] <> p ++ [i] ->
  read_entry (ram written) y j = read_entry (ram s) y j.
Proof.
  intros Hq Hj Hy Hn. apply read_write_entry_other; try done.
  - apply (table_frame s al p x Hinv Hp Hx).
  - apply (table_frame s al q y Hinv Hq Hy).
  - destruct (decide (x = y)) as [<-|]; [|by left]. right. intros <-. apply Hn.
    by rewrite (pi_inj _ _ _ Hinv q p x Hq Hp Hy Hx).
Qed.

Lemma written_alloc : exists a fl, frames written = Some a /\ Frame.alloc_inv a (ram written) fl al /\ below52 (Frame.memory_map a).
Proof.
  destruct (pi_alloc _ _ _ Hinv) as (a & fl & Ha & Hf & Hb). exists a, fl. split; [done|]. split; [|done].
  unfold written, write_entry, write_u64. cbn [ram]. unfold idx in Hi.
  apply Frame.owner_write_sound; [done|by apply (pi_held _ _ _ Hinv p)|lia|rewrite to_le_bytes_length; lia].
Qed.

Lemma written_mem : mem_wf (ram written).
Proof. apply mem_wf_store; [apply (pi_mem _ _ _ Hinv)|]. apply to_le_bytes_byte. Qed.

Lemma written_data z : data_byte (ram s) t al z -> ram written z = ram s z.
Proof.
  intros [_ Hd]. specialize (Hd p x Hp Hx). unfold in_frame in Hd. apply write_entry_other; [done|lia].
Qed.

Lemma written_same q y j :
  (length q <= 3)%nat -> Forall idx q -> idx j -> table_at 4 (ram s) t q = Some y -> q ++ [j] <> p ++ [i] ->
  same_meaning (4 - length q) (read_entry (ram s) y j) (read_entry (ram written) y j).
Proof. intros. left. symmetry. by apply (written_other q). Qed.

(** A change of flags that keeps where the entry leads. *)
Lemma relabel_entry :
  same_meaning (4 - length p) (read_entry (ram s) x i) e ->
  (user_ok (read_entry (ram s) x i) = true -> user_ok e = true) ->
  pt_inv t written al /\ extends t s written al al /\ same_walks t s written.
Proof.
  intros Hs Hu.
  assert (forall q y j, (length q <= 3)%nat -> Forall idx q -> idx j -> table_at 4 (ram s) t q = Some y -> q ++ [j] <> [-1] ->
    same_meaning (4 - length q) (read_entry (ram s) y j) (read_entry (ram written) y j)) as Hall.
  { intros q y j Hl Hq Hj Hy _. destruct (decide (q ++ [j] = p ++ [i])) as [[-> [= ->]]%app_inj_tail|Hn]; [|by apply written_same].
    assert (y = x) as -> by congruence. unfold written. cbn [ram]. by rewrite read_write_entry. }
  assert (forall r, Forall idx r -> ~ [-1] `prefix_of` r) as Hnp.
  { intros r Hr [k ->]. cbn in Hr. apply list.Forall_cons in Hr as [[Hneg _] _]. lia. }
  assert (forall q, table_path q -> table_at 4 (ram written) t q = table_at 4 (ram s) t q) as Ht.
  { intros q [Hl Hq]. apply (table_at_frame _ _ _ [-1] Hall); [lia|done|by apply Hnp]. }
  split; [|split].
  - split; [apply written_alloc|apply written_mem| |].
    + intros q1 q2 y Hq1 Hq2. rewrite !Ht by done. by apply (pi_inj _ _ _ Hinv).
    + intros q y Hq. rewrite Ht by done. by apply (pi_held _ _ _ Hinv).
  - split; [done|by left| | |apply written_data| |].
    + intros q y Hq Hy. by rewrite Ht.
    + intros q y Hq Hy. left. by rewrite <-Ht.
    + intros q y j Hq Hj Hy Hok. destruct (decide (q ++ [j] = p ++ [i])) as [[-> [= ->]]%app_inj_tail|Hn].
      * assert (y = x) as -> by congruence. unfold written. cbn [ram]. rewrite read_write_entry by done. auto.
      * by rewrite (written_other q).
    + intros q y j Hq Hj Hy. rewrite Ht in Hy by done.
      destruct (decide (q ++ [j] = p ++ [i])) as [[-> [= ->]]%app_inj_tail|Hn]; [|right; by rewrite (written_other q)].
      assert (y = x) as -> by congruence. unfold written. cbn [ram]. rewrite read_write_entry by done.
      destruct Hs as [Hs|(z & Hlv & _ & Hs)]; [by right|]. left. right. split; [done|]. by destruct (descend_present _ _ _ Hs) as [_ <-].
  - intros r Hl Hr. by apply (walk_frame _ _ _ [-1] Hall); [|done|apply Hnp].
Qed.

(** A write to an entry of a lowest-level table. *)
Lemma write_leaf :
  length p = 3%nat ->
  pt_inv t written al /\
  (forall q, table_path q -> table_at 4 (ram written) t q = table_at 4 (ram s) t q) /\
  (forall r, length r = 4%nat -> Forall idx r -> walk 4 (ram written) t r =
     if decide (r = p ++ [i]) then if present e then Some (e, 12) else None else walk 4 (ram s) t r).
Proof.
  intros Hl.
  assert (forall q, table_path q -> table_at 4 (ram written) t q = table_at 4 (ram s) t q) as Ht.
  { intros q [Hlq Hq]. apply (table_at_frame _ _ _ (p ++ [i]) written_same); [lia|done|].
    intros Hpre%prefix_length. rewrite length_app in Hpre. cbn in Hpre. lia. }
  split; [|split; [done|]].
  - split; [apply written_alloc|apply written_mem| |].
    + intros q1 q2 y Hq1 Hq2. rewrite !Ht by done. by apply (pi_inj _ _ _ Hinv).
    + intros q y Hq. rewrite Ht by done. by apply (pi_held _ _ _ Hinv).
  - intros r Hlr Hr. destruct (decide (r = p ++ [i])) as [->|Hn].
    + rewrite (walk_app _ _ _ _ x) by (by rewrite Ht). rewrite Hl. cbn [walk Nat.sub].
      unfold written. cbn [ram]. by rewrite read_write_entry.
    + apply (walk_frame _ _ _ (p ++ [i]) written_same); [done|done|]. intros [k ->]. rewrite !length_app in Hlr. cbn in Hlr.
      destruct k; [|cbn in Hlr; lia]. by rewrite app_nil_r in Hn.
Qed.

(** A new table of zeroes, held and not part of the tree, is linked in. *)
Lemma link_table (n : Z) :
  (length p <= 2)%nat -> present (read_entry (ram s) x i) = false -> descend (4 - length p) e = Some n ->
  n ∈ al -> (forall q, table_path q -> table_at 4 (ram s) t q <> Some n) -> (forall j, idx j -> read_entry (ram s) n j = 0) ->
  pt_inv t written al /\ same_walks t s written /\ table_at 4 (ram written) t (p ++ [i]) = Some n /\
  (forall q y, table_path q -> table_at 4 (ram written) t q = Some y -> table_at 4 (ram s) t q = Some y \/ y = n) /\
  (forall q y, table_path q -> table_at 4 (ram s) t q = Some y -> table_at 4 (ram written) t q = Some y).
Proof.
  intros Hl Habs Hd Hn Hnt Hz. destruct (table_frame s al p x Hinv Hp Hx) as [Hxa _]. destruct (held_frame s al n Hinv Hn) as [Hna _].
  assert (n <> x) as Hne by (intros ->; by apply (Hnt p)).
  assert (forall j, idx j -> read_entry (ram written) n j = 0) as Hz'.
  { intros j Hj. unfold written. cbn [ram]. rewrite read_write_entry_other; try done; [by apply Hz|left; congruence]. }
  assert (forall q, table_path q -> ~ (p ++ [i]) `prefix_of` q -> table_at 4 (ram written) t q = table_at 4 (ram s) t q) as Ht.
  { intros q [Hlq Hq] Hpre. apply (table_at_frame _ _ _ (p ++ [i]) written_same); [lia|done|done]. }
  assert (~ (p ++ [i]) `prefix_of` p) as Hpp.
  { intros Hpre%prefix_length. rewrite length_app in Hpre. cbn in Hpre. lia. }
  assert (descend (4 - length p) (read_entry (ram s) x i) = None) as Hnone by (unfold descend; by rewrite Habs).
  assert (table_at 4 (ram written) t (p ++ [i]) = Some n) as Hlink.
  { rewrite table_at_app, (Ht p Hp Hpp), Hx. cbn [mbind option_bind table_at]. unfold written. cbn [ram].
    rewrite read_write_entry by done. by rewrite Hd. }
  assert (forall k, Forall idx k -> table_at 4 (ram s) t ((p ++ [i]) ++ k) = None) as Hold.
  { intros k Hk. rewrite <-app_assoc, table_at_app, Hx. cbn [mbind option_bind app table_at]. by rewrite Hnone. }
  assert (forall q y, table_path q -> table_at 4 (ram written) t q = Some y ->
    table_at 4 (ram s) t q = Some y \/ (y = n /\ q = p ++ [i])) as Hnew.
  { intros q y Hq Hy. destruct (decide ((p ++ [i]) `prefix_of` q)) as [[k ->]|Hpre]; [|left; by rewrite <-Ht].
    right. rewrite table_at_app, Hlink in Hy. cbn [mbind option_bind] in Hy. destruct k as [|j k]; [rewrite app_nil_r; by injection Hy|].
    destruct Hq as [_ Hq]. apply Forall_app in Hq as [_ Hjk]. apply list.Forall_cons in Hjk as [Hj _].
    by rewrite (table_at_zero _ _ _ _ _ Hz' Hj) in Hy. }
  assert (forall q y, table_path q -> table_at 4 (ram s) t q = Some y -> table_at 4 (ram written) t q = Some y) as Hkeep.
  { intros q y Hq Hy. rewrite Ht; [done|done|]. intros [k ->]. destruct Hq as [_ Hq]. apply Forall_app in Hq as [_ Hk]. by rewrite Hold in Hy. }
  split; [|split; [|split; [done|split; [|done]]]].
  - split; [apply written_alloc|apply written_mem| |].
    + intros q1 q2 y Hq1 Hq2 H1 H2. destruct (Hnew q1 y Hq1 H1) as [H1'|[Ey ->]], (Hnew q2 y Hq2 H2) as [H2'|[Ey' ->]]; try done.
      * by apply (pi_inj _ _ _ Hinv q1 q2 y).
      * subst. by destruct (Hnt q1 Hq1).
      * subst. by destruct (Hnt q2 Hq2).
    + intros q y Hq H. destruct (Hnew q y Hq H) as [H'|[-> _]]; [by apply (pi_held _ _ _ Hinv q)|done].
  - intros r Hlr Hr. destruct (decide ((p ++ [i]) `prefix_of` r)) as [[k ->]|Hpre].
    + destruct k as [|j k]; [rewrite !length_app in Hlr; cbn in Hlr; lia|]. apply Forall_app in Hr as [_ Hr].
      rewrite (walk_app _ _ _ _ n) by done. rewrite walk_zero by done.
      rewrite <-app_assoc. cbn [app]. rewrite (walk_app _ _ _ _ x) by done. cbn [walk]. by rewrite Habs.
    + by apply (walk_frame _ _ _ (p ++ [i]) written_same).
  - intros q y Hq H. destruct (Hnew q y Hq H) as [H'|[-> _]]; [by left|by right].
Qed.
End write.
(** ** A fresh frame *)

(** A change inside a frame that is not a table is invisible to the tables. *)
Lemma outside_frame s al m' n :
  pt_inv t s al -> n mod 4096 = 0 -> (forall q, table_path q -> table_at 4 (ram s) t q <> Some n) ->
  (forall z, ~ in_frame n z -> m' z = ram s z) ->
  (forall q, table_path q -> table_at 4 m' t q = table_at 4 (ram s) t q) /\
  (forall q y j, table_path q -> idx j -> table_at 4 (ram s) t q = Some y -> read_entry m' y j = read_entry (ram s) y j) /\
  same_walks t s (mkPM (frames s) m').
Proof.
  intros Hinv Hn Hni Hm.
  assert (forall q y j, table_path q -> idx j -> table_at 4 (ram s) t q = Some y -> read_entry m' y j = read_entry (ram s) y j) as Hr.
  { intros q y j Hq Hj Hy. apply read_entry_ext; [done|]. intros z Hz. apply Hm.
    destruct (table_frame s al q y Hinv Hq Hy) as [Hya _]. apply (frames_apart y); [done|done| |done].
    intros ->. by apply (Hni q). }
  assert (forall q y j, (length q <= 3)%nat -> Forall idx q -> idx j -> table_at 4 (ram s) t q = Some y -> q ++ [j] <> [-1] ->
    same_meaning (4 - length q) (read_entry (ram s) y j) (read_entry m' y j)) as Hall.
  { intros q y j Hl Hq Hj Hy _. left. symmetry. by apply (Hr q). }
  assert (forall r, Forall idx r -> ~ [-1] `prefix_of` r) as Hnp.
  { intros r Hir [k ->]. cbn in Hir. apply list.Forall_cons in Hir as [[Hneg _] _]. lia. }
  split; [|split; [done|]].
  - intros q [Hl Hq]. apply (table_at_frame _ _ _ [-1] Hall); [lia|done|by apply Hnp].
  - intros r Hl Hir. by apply (walk_frame _ _ _ [-1] Hall); [|done|apply Hnp].
Qed.

Lemma allocate_outcome s al :
  pt_inv t s al ->
  allocate_frame s = Some (Err (KMemory Memory_OutOfMemory), s) \/
  exists n s1, allocate_frame s = Some (Ok n, s1) /\ n ∉ al /\ sound s1 (n :: al) /\ (forall z, ~ in_frame n z -> ram s1 z = ram s z).
Proof. intros H. by apply sound_allocate, (pt_sound t). Qed.

(** The zeroed frame, before it is linked. *)
Lemma fresh_frame s al n s1 :
  pt_inv t s al -> n ∉ al -> sound s1 (n :: al) -> (forall z, ~ in_frame n z -> ram s1 z = ram s z) ->
  let s2 := mkPM (frames s1) (zero (ram s1) n 4096) in
  pt_inv t s2 (n :: al) /\ same_walks t s s2 /\
  (forall q, table_path q -> table_at 4 (ram s2) t q = table_at 4 (ram s) t q) /\
  (forall q y j, table_path q -> idx j -> table_at 4 (ram s) t q = Some y -> read_entry (ram s2) y j = read_entry (ram s) y j) /\
  (forall j, idx j -> read_entry (ram s2) n j = 0) /\
  (forall z, ~ in_frame n z -> ram s2 z = ram s z).
Proof.
  intros Hinv Hni Hso Hm s2. destruct (sound_frame s1 (n :: al) n Hso) as [Hn _]; [left|].
  assert (forall z, ~ in_frame n z -> ram s2 z = ram s z) as Hm2.
  { intros z Hz. unfold s2. cbn [ram]. rewrite <-Hm by done. unfold in_frame in Hz. apply store_out. rewrite length_replicate. lia. }
  destruct (outside_frame s al (ram s2) n Hinv Hn) as (H1 & H2 & H3); [|done|].
  { intros q Hq Hc. by apply Hni, (pi_held _ _ _ Hinv q). }
  assert (sound s2 (n :: al)) as Hs2.
  { unfold s2, zero. replace n with (n + 0) at 1 by lia. apply sound_store; [done|left|done|by rewrite length_replicate|].
    apply Forall_replicate. unfold is_byte. lia. }
  split; [|split; [done|]; split; [done|]; split; [done|]; split; [intros j Hj; by apply read_zeroed|done]]. split.
  - apply Hs2.
  - apply Hs2.
  - intros p q x Hp Hq. rewrite !H1 by done. by apply (pi_inj _ _ _ Hinv).
  - intros p x Hp. rewrite H1 by done. intros Hx. right. by apply (pi_held _ _ _ Hinv p).
Qed.
(** ** One level of the descent *)

Lemma set_addr_written s x i q f :
  q mod 4096 = 0 -> q < 2 ^ 52 -> set_addr x i q f s = Some (tt, written s x i (mk_entry q f)).
Proof. intros Hq Hr. unfold set_addr. by rewrite land_4095, Hq, (proj2 (Z.ltb_lt _ _) Hr). Qed.

Lemma mk_entry_u64 p f : 0 <= p < 2 ^ 52 -> is_u64 f -> is_u64 (mk_entry p f).
Proof. intros Hp Hf. apply lor_u64; [|done]. unfold is_u64, U64_MODULUS. lia. Qed.

Lemma table_flags_facts u : plain_flags (table_flags u) /\ has (table_flags u) PRESENT = true /\
  has (table_flags u) HUGE_PAGE = false /\ is_u64 (table_flags u) /\ (u = true -> has (table_flags u) USER_ACCESSIBLE = true).
Proof. destruct u; repeat split; vm_compute; done. Qed.

Section level.
Context (off : Z) (Hoff : 0 <= off) (Hoff' : off + 2 ^ 52 <= U64_MODULUS).

Lemma direct_ok p s : p < 2 ^ 52 -> direct off p s = Some (Ok tt, s).
Proof.
  intros Hp. unfold direct, reachable. by rewrite (proj2 (checked_add64_Some _ _ (p + off))) by lia.
Qed.

(** A zeroed frame is linked in at a missing entry. *)
Lemma new_table_spec check s al p x i f :
  (forall n s, n < 2 ^ 52 -> check n s = Some (Ok tt, s)) ->
  plain_flags f -> has f PRESENT = true -> has f HUGE_PAGE = false -> is_u64 f ->
  pt_inv t s al -> table_path p -> (length p <= 2)%nat -> table_at 4 (ram s) t p = Some x -> idx i ->
  present (read_entry (ram s) x i) = false ->
  exists r s' al', new_table check x i f s = Some (r, s') /\ pt_inv t s' al' /\ extends t s s' al al' /\ same_walks t s s' /\
    match r with
    | Ok y => table_at 4 (ram s') t (p ++ [i]) = Some y /\ read_entry (ram s') x i = mk_entry y f
    | Err e => e = KMemory Memory_OutOfMemory
    end.
Proof.
  intros Hck Hpl Hpr Hhu Hfu Hinv Hp Hl Hx Hi Habs. unfold new_table.
  destruct (allocate_outcome s al Hinv) as [E|(n & s1 & E & Hni & Hso & Hm)].
  { rewrite (try_bind_err _ _ _ _ _ E). eexists _, s, al. split; [done|]. split; [done|]. split; [apply extends_refl|]. done. }
  rewrite (try_bind_ok _ _ _ _ _ E).
  destruct (fresh_frame s al n s1 Hinv Hni Hso Hm) as (Hinv2 & Hw2 & Ht2 & Hr2 & Hz2 & Hm2).
  set (s2 := mkPM (frames s1) (zero (ram s1) n 4096)) in *.
  destruct (held_frame s2 (n :: al) n Hinv2) as [Hna Hnr]; [left|].
  rewrite (try_bind_ok _ _ _ tt s1) by (apply Hck; lia).
  rewrite (st_bind_eq _ _ _ tt s2) by reflexivity. clearbody s2.
  rewrite (st_bind_eq _ _ _ tt (written s2 x i (mk_entry n f))) by (apply set_addr_written; [done|lia]).
  destruct (mk_entry_spec n f Hna ltac:(lia) Hpl Hpr) as (Ea & Ef & Ep).
  set (e := mk_entry n f) in *.
  assert (is_u64 e) as He by (apply mk_entry_u64; [lia|done]).
  assert (descend (4 - length p) e = Some n) as Hde.
  { unfold descend. rewrite Ep, Ef, Hhu, Ea. cbn [negb andb]. by rewrite orb_true_r. }
  assert (table_at 4 (ram s2) t p = Some x) as Hx2 by (by rewrite Ht2).
  destruct (link_table s2 (n :: al) p x i e Hinv2 Hp Hx2 Hi He n) as (Hinv3 & Hw3 & Hlink & Hnew & Hkeep).
  - done.
  - by rewrite (Hr2 p).
  - done.
  - left.
  - intros q Hq. rewrite Ht2 by done. intros Hc. by apply Hni, (pi_held _ _ _ Hinv q).
  - exact Hz2.
  - assert (forall q y j, table_path q -> idx j -> table_at 4 (ram s) t q = Some y -> q ++ [j] <> p ++ [i] ->
      read_entry (ram (written s2 x i e)) y j = read_entry (ram s) y j) as Hoth.
    { intros q y j Hq Hj Hy Hn. rewrite (written_other s2 (n :: al) p x i e Hinv2 Hp Hx2 Hi q); [|done|done|by rewrite Ht2|done].
      by rewrite (Hr2 q). }
    assert (read_entry (ram (written s2 x i e)) x i = e) as Hself by (by apply read_write_entry).
    eexists (Ok n), _, (n :: al). split; [done|]. split; [exact Hinv3|]. split; [|split; [|split; [done|exact Hself]]].
    + split; [set_solver| | | | | |].
      * intros y [->|Hy]%elem_of_cons; [right; exists (p ++ [i]); split; [by apply table_path_snoc|done]|by left].
      * intros q y Hq Hy. apply Hkeep; [done|]. by rewrite Ht2.
      * intros q y Hq Hy. destruct (Hnew q y Hq Hy) as [H| ->]; [left; by rewrite <-Ht2|by right].
      * intros z Hz. unfold written. cbn [ram]. destruct Hz as [(b & Hb & Hbz) Hd]. pose proof (Hd p x Hp Hx) as Hzx.
        rewrite write_entry_other; [|done|unfold in_frame in Hzx; lia]. apply Hm2.
        destruct (held_frame s al b Hinv Hb) as [Hba _]. apply (frames_apart b); [done|done|congruence|done].
      * intros q y j Hq Hj Hy Hok. destruct (decide (q ++ [j] = p ++ [i])) as [[-> [= ->]]%app_inj_tail|Hn]; [|by rewrite (Hoth q)].
        assert (y = x) as -> by congruence. revert Hok. unfold user_ok. unfold present in Habs. by rewrite Habs.
      * intros q y j Hq Hj Hy. destruct (decide (q ++ [j] = p ++ [i])) as [[-> [= ->]]%app_inj_tail|Hn].
        { assert (y = x) as -> by (specialize (Hkeep p x Hp Hx2); congruence). left. right. split; [lia|]. by rewrite Hself, Ea. }
        destruct (Hnew q y Hq Hy) as [H| ->].
        -- right. rewrite Ht2 in H by done. split; [done|]. by apply (Hoth q).
        -- left. left. unfold written. cbn [ram]. assert (n <> x) by (intros ->; by apply Hni, (pi_held _ _ _ Hinv p)).
           destruct (table_frame s al p x Hinv Hp Hx) as [Hxa _]. rewrite read_write_entry_other; auto.
    + intros r Hlr Hr. rewrite Hw3 by done. by apply Hw2.
Qed.

(** The entry is missing: a zeroed frame is linked in. *)
Lemma next_table_missing s al p x i u :
  pt_inv t s al -> table_path p -> (length p <= 2)%nat -> table_at 4 (ram s) t p = Some x -> idx i ->
  present (read_entry (ram s) x i) = false ->
  exists r s' al', next_table off x i u s = Some (r, s') /\ pt_inv t s' al' /\ extends t s s' al al' /\ same_walks t s s' /\
    match r with
    | Ok y => table_at 4 (ram s') t (p ++ [i]) = Some y /\ (u = true -> user_ok (read_entry (ram s') x i) = true)
    | Err e => e = KMemory Memory_OutOfMemory
    end.
Proof.
  intros Hinv Hp Hl Hx Hi Habs. unfold next_table. rewrite (st_bind_eq _ _ _ (read_entry (ram s) x i) s) by done.
  unfold absent. rewrite present_absent, Habs. cbn [negb]. destruct (table_flags_facts u) as (Hpl & Hpr & Hhu & Hfu & Hus).
  destruct (new_table_spec (direct off) s al p x i (table_flags u)) as (r & s' & al' & E & V & X & W & R); try done; [intros; by apply direct_ok|].
  exists r, s', al'. split; [done|]. split; [done|]. split; [done|]. split; [done|]. destruct r as [y|]; [|done].
  destruct R as [L ->]. split; [done|]. intros Hu. assert (y ∈ al') as Hy by (apply (pi_held _ _ _ V (p ++ [i])); [by apply table_path_snoc|done]).
  destruct (held_frame s' al' y V Hy) as [Hya Hyr].
  destruct (mk_entry_spec y (table_flags u) Hya ltac:(lia) Hpl Hpr) as (_ & Ef & Ep).
  unfold user_ok. unfold present in Ep. rewrite Ep, Ef. by rewrite Hus.
Qed.

(** The entry is there: at most its user bit is set. *)
Lemma next_table_present s al p x i u :
  pt_inv t s al -> table_path p -> (length p <= 2)%nat -> table_at 4 (ram s) t p = Some x -> idx i ->
  descend (4 - length p) (read_entry (ram s) x i) = Some (entry_addr (read_entry (ram s) x i)) ->
  exists s', next_table off x i u s = Some (Ok (entry_addr (read_entry (ram s) x i)), s') /\
    pt_inv t s' al /\ extends t s s' al al /\ same_walks t s s' /\
    (u = true -> user_ok (read_entry (ram s') x i) = true).
Proof.
  intros Hinv Hp Hl Hx Hi Hd. unfold next_table. set (e := read_entry (ram s) x i) in *.
  rewrite (st_bind_eq _ _ _ e s) by done.
  destruct (descend_present _ _ _ Hd) as [Hpres _]. unfold absent. rewrite present_absent, Hpres. cbn [negb].
  destruct (u && negb (has (entry_flags e) USER_ACCESSIBLE)) eqn:Eu.
  - apply andb_prop in Eu as [-> Hnu%negb_true_iff].
    pose proof (entry_addr_range e). pose proof (entry_addr_aligned e).
    set (f := Z.lor (entry_flags e) USER_ACCESSIBLE) in *.
    assert (plain_flags f) as Hpl by (apply plain_lor; [apply plain_entry_flags|done]).
    assert (has f PRESENT = true) as Hpr.
    { apply has_lor_l. unfold present in Hpres. by apply andb_prop in Hpres as [_ ?]. }
    destruct (mk_entry_spec (entry_addr e) f) as (Ea & Ef & Ep); [done|lia|done|done|].
    assert (is_u64 (mk_entry (entry_addr e) f)) as He.
    { apply mk_entry_u64; [lia|]. apply lor_u64; [|done]. apply ldiff_u64. apply read_u64_range. apply (pi_mem _ _ _ Hinv). }
    rewrite (st_bind_eq _ _ _ tt (written s x i (mk_entry (entry_addr e) f))) by (apply set_addr_written; [done|lia]).
    assert (user_ok (mk_entry (entry_addr e) f) = true) as Huok.
    { unfold user_ok. unfold present in Ep. rewrite Ep, Ef. apply has_lor_r. }
    destruct (relabel_entry s al p x i _ Hinv Hp Hx Hi He) as (H1 & H2 & H3).
    + right. exists (entry_addr e). split; [lia|]. split; [done|]. unfold descend in *. rewrite Hpres in Hd. rewrite Ep, Ea, Ef.
      unfold f. rewrite has_lor_other by done. exact Hd.
    + done.
    + eexists. split; [done|]. split; [exact H1|]. split; [exact H2|]. split; [exact H3|].
      intros _. unfold written. cbn [ram]. by rewrite read_write_entry.
  - exists s. split; [done|]. split; [done|]. split; [apply extends_refl|]. split; [done|].
    intros ->. cbn [andb] in Eu. apply negb_false_iff in Eu. unfold user_ok. fold e. unfold present in Hpres. by rewrite Hpres, Eu.
Qed.

(** Both cases: the next table, with nothing else changed. *)
Lemma next_table_spec s al p x i u :
  pt_inv t s al -> table_path p -> (length p <= 2)%nat -> table_at 4 (ram s) t p = Some x -> idx i ->
  (present (read_entry (ram s) x i) = true ->
   descend (4 - length p) (read_entry (ram s) x i) = Some (entry_addr (read_entry (ram s) x i))) ->
  exists r s' al', next_table off x i u s = Some (r, s') /\ pt_inv t s' al' /\ extends t s s' al al' /\ same_walks t s s' /\
    match r with
    | Ok y => table_at 4 (ram s') t (p ++ [i]) = Some y /\ (u = true -> user_ok (read_entry (ram s') x i) = true)
    | Err e => e = KMemory Memory_OutOfMemory
    end.
Proof.
  intros Hinv Hp Hl Hx Hi Hd. destruct (present (read_entry (ram s) x i)) eqn:Ep.
  - destruct (next_table_present s al p x i u) as (s' & E & H1 & H2 & H3 & H4); try done; [by apply Hd|].
    eexists _, s', al. split; [exact E|]. split; [done|]. split; [done|]. split; [done|]. split; [|done].
    apply (ex_tables _ _ _ _ _ H2); [by apply table_path_snoc|].
    rewrite table_at_app, Hx. cbn. by rewrite Hd.
  - by apply next_table_missing.
Qed.

(** The huge-page test. *)
Lemma check_not_huge_spec s (p : list Z) x i :
  (1 <= length p <= 2)%nat -> let e := read_entry (ram s) x i in
  (check_not_huge x i s = Some (Err (KMemory Memory_AlreadyMapped), s) /\ present e = true /\ descend (4 - length p) e = None) \/
  (check_not_huge x i s = Some (Ok tt, s) /\ (present e = true -> descend (4 - length p) e = Some (entry_addr e))).
Proof.
  intros Hl e. unfold check_not_huge. rewrite (st_bind_eq _ _ _ e s) by done. fold (present e). unfold descend.
  assert (Nat.eqb (4 - length p) 4 = false) as -> by (apply Nat.eqb_neq; lia).
  destruct (present e); [|by right]. destruct (has (entry_flags e) HUGE_PAGE); [by left|by right].
Qed.

(** ** Walks as translations *)

Lemma translate_walk s al a :
  pt_inv t s al ->
  translate_addr_in_table (Some off) (ram s) t a =
  (ek ← walk 4 (ram s) t (addr_path a); Some (entry_addr ek.1 + a mod 2 ^ ek.2, entry_flags ek.1)).
Proof.
  intros Hinv. destruct (root_frame s al Hinv) as [H1 H2]. rewrite translate_leaf, leaf_walk; [done|done|done|done|lia].
Qed.

Lemma same_walks_translate s s' al al' a :
  pt_inv t s al -> pt_inv t s' al' -> same_walks t s s' ->
  translate_addr_in_table (Some off) (ram s') t a = translate_addr_in_table (Some off) (ram s) t a.
Proof.
  intros H1 H2 Hw. rewrite (translate_walk s' al'), (translate_walk s al) by done.
  rewrite Hw; [done|done|apply addr_path_idx].
Qed.

(** The entry that stops [check_not_huge] is a huge page. *)
Lemma huge_translate s al p x i r a :
  pt_inv t s al -> addr_path a = p ++ i :: r -> r <> [] -> table_at 4 (ram s) t p = Some x ->
  present (read_entry (ram s) x i) = true -> descend (4 - length p) (read_entry (ram s) x i) = None ->
  exists q f, translate_addr_in_table (Some off) (ram s) t a = Some (q, f) /\ has f HUGE_PAGE = true.
Proof.
  intros Hinv Hpath Hr Hx Hp Hd. rewrite (translate_walk s al) by done. rewrite Hpath, (walk_app _ _ _ _ x) by done.
  destruct r as [|j r]; [done|]. cbn [walk]. rewrite Hp, Hd. cbn. eexists _, _. split; [done|].
  unfold descend in Hd. rewrite Hp in Hd. cbn [andb] in Hd. destruct (has _ _); [done|]. cbn in Hd. by rewrite orb_true_r in Hd.
Qed.

(** A path of user entries to a user leaf. *)
Lemma user_flags_path s al a l3 l2 l1 :
  pt_inv t s al -> p4_index a < 256 ->
  descend 4 (read_entry (ram s) t (p4_index a)) = Some l3 -> user_ok (read_entry (ram s) t (p4_index a)) = true ->
  descend 3 (read_entry (ram s) l3 (p3_index a)) = Some l2 -> user_ok (read_entry (ram s) l3 (p3_index a)) = true ->
  descend 2 (read_entry (ram s) l2 (p2_index a)) = Some l1 -> user_ok (read_entry (ram s) l2 (p2_index a)) = true ->
  user_ok (read_entry (ram s) l1 (p1_index a)) = true ->
  user_page_flags_in_table (Some off) (ram s) t a = Some (entry_flags (read_entry (ram s) l1 (p1_index a))).
Proof.
  intros Hinv Hlow E4 U4 E3 U3 E2 U2 U1. destruct (root_frame s al Hinv) as [Ht1 Ht2].
  destruct (descend_present _ _ _ E4) as [_ A4]. destruct (descend_present _ _ _ E3) as [P3 A3]. destruct (descend_present _ _ _ E2) as [P2 A2].
  unfold user_page_flags_in_table. cbn [mbind option_bind]. rewrite land_4095, Ht1. cbn [Z.eqb negb].
  assert (reachable off t = Some tt) as ->.
  { unfold reachable. by rewrite (proj2 (checked_add64_Some _ _ (t + off))) by lia. }
  cbn [mbind option_bind]. rewrite (proj2 (Z.leb_gt 256 _)) by done.
  rewrite !reachable_entry by done. rewrite U4. cbn [negb mbind option_bind]. rewrite <-A4, U3. cbn [negb].
  assert (has (entry_flags (read_entry (ram s) l3 (p3_index a))) HUGE_PAGE = false) as ->.
  { unfold descend in E3. rewrite P3 in E3. cbn [Nat.eqb orb andb] in E3. by destruct (has _ _). }
  cbn [mbind option_bind]. rewrite <-A3, U2. cbn [negb].
  assert (has (entry_flags (read_entry (ram s) l2 (p2_index a))) HUGE_PAGE = false) as ->.
  { unfold descend in E2. rewrite P2 in E2. cbn [Nat.eqb orb andb] in E2. by destruct (has _ _). }
  cbn [mbind option_bind]. by rewrite <-A2, U1.
Qed.

(** ** The descent *)

Definition huge_at (s : PMem) (a : Z) : Prop :=
  exists q f, translate_addr_in_table (Some off) (ram s) t a = Some (q, f) /\ has f HUGE_PAGE = true.

Definition map_error (s : PMem) (a : Z) (e : Kernel) : Prop :=
  e = KMemory Memory_OutOfMemory \/ e = KMemory Memory_AlreadyMapped /\ huge_at s a.

Lemma middle_table_spec s al p x i r a u :
  pt_inv t s al -> addr_path a = p ++ i :: r -> (1 <= length p <= 2)%nat -> table_at 4 (ram s) t p = Some x ->
  exists r s' al', middle_table off x i u s = Some (r, s') /\ pt_inv t s' al' /\ extends t s s' al al' /\ same_walks t s s' /\
    match r with
    | Ok y => table_at 4 (ram s') t (p ++ [i]) = Some y /\ (u = true -> user_ok (read_entry (ram s') x i) = true)
    | Err e => map_error s a e
    end.
Proof.
  intros Hinv Hpath Hl Hx. pose proof (addr_path_idx a) as Hidx. rewrite Hpath in Hidx.
  apply Forall_app in Hidx as [Hp [Hi _]%list.Forall_cons]. assert (table_path p) as Htp by (split; [lia|done]).
  unfold middle_table. destruct (table_frame s al p x Hinv Htp Hx) as [_ Hxr].
  rewrite (try_bind_ok _ _ _ tt s) by (apply direct_ok; lia).
  destruct (check_not_huge_spec s p x i Hl) as [(E & Hpr & Hd)|(E & Hd)].
  - rewrite (try_bind_err _ _ _ _ _ E). eexists _, s, al. split; [done|]. split; [done|]. split; [apply extends_refl|]. split; [done|].
    right. split; [done|]. apply (huge_translate s al p x i r); try done. intros ->.
    apply (f_equal length) in Hpath. rewrite length_app in Hpath. cbn in Hpath. lia.
  - rewrite (try_bind_ok _ _ _ _ _ E). destruct (next_table_spec s al p x i u) as (r' & s' & al' & H1 & H2 & H3 & H4 & H5); try done; [lia|].
    exists r', s', al'. repeat (split; [done|]). destruct r'; [done|]. by left.
Qed.

Lemma map_error_walks s s' al al' a e :
  pt_inv t s al -> pt_inv t s' al' -> same_walks t s s' -> map_error s' a e -> map_error s a e.
Proof.
  intros H1 H2 Hw [H|(He & q & f & Ht & Hf)]; [by left|]. right. split; [done|]. exists q, f.
  by rewrite <-(same_walks_translate s s' al al').
Qed.

Lemma same_walks_trans s1 s2 s3 : same_walks t s1 s2 -> same_walks t s2 s3 -> same_walks t s1 s3.
Proof. intros H1 H2 r Hl Hr. rewrite H2 by done. by apply H1. Qed.

Definition user_path (s : PMem) (a : Z) : Prop :=
  exists l3 l2, table_at 4 (ram s) t [p4_index a] = Some l3 /\ table_at 4 (ram s) t [p4_index a; p3_index a] = Some l2 /\
    user_ok (read_entry (ram s) t (p4_index a)) = true /\ user_ok (read_entry (ram s) l3 (p3_index a)) = true /\
    user_ok (read_entry (ram s) l2 (p2_index a)) = true.

Lemma ensure_l1_spec s al a u :
  pt_inv t s al ->
  exists r s' al', ensure_l1 off t a u s = Some (r, s') /\ pt_inv t s' al' /\ extends t s s' al al' /\ same_walks t s s' /\
    match r with
    | Ok l1 => table_at 4 (ram s') t [p4_index a; p3_index a; p2_index a] = Some l1 /\ (u = true -> user_path s' a)
    | Err e => map_error s a e
    end.
Proof.
  intros Hinv. unfold ensure_l1. pose proof (addr_path_idx a) as Hidx. unfold addr_path in Hidx.
  apply list.Forall_cons in Hidx as [I4 [I3 [I2 _]%list.Forall_cons]%list.Forall_cons].
  assert (table_path [p4_index a]) as T1 by (split; [cbn; lia|by repeat apply list.Forall_cons_2]).
  assert (table_path [p4_index a; p3_index a]) as T2 by (split; [cbn; lia|by repeat apply list.Forall_cons_2]).
  destruct (next_table_spec s al [] t (p4_index a) u) as (r3 & s3 & al3 & E3 & V3 & X3 & W3 & R3); try done.
  { apply table_path_nil. } { cbn; lia. } { unfold descend. by intros ->. }
  destruct r3 as [l3|e]; [|rewrite (try_bind_err _ _ _ _ _ E3); eexists _, s3, al3; split; [done|]; repeat (split; [done|]); by left].
  rewrite (try_bind_ok _ _ _ _ _ E3). destruct R3 as [L3 U3]. cbn [app] in L3.
  destruct (middle_table_spec s3 al3 [p4_index a] l3 (p3_index a) [p2_index a; p1_index a] a u) as (r2 & s2 & al2 & E2 & V2 & X2 & W2 & R2);
    try done; [cbn; lia|].
  pose proof (extends_trans s s3 s2 al al3 al2 V3 X3 X2) as X32. pose proof (same_walks_trans _ _ _ W3 W2) as W32.
  destruct r2 as [l2|e].
  2:{ rewrite (try_bind_err _ _ _ _ _ E2). eexists _, s2, al2. split; [done|]. repeat (split; [done|]). by apply (map_error_walks s s3 al al3). }
  rewrite (try_bind_ok _ _ _ _ _ E2). destruct R2 as [L2 U2]. cbn [app] in L2.
  destruct (middle_table_spec s2 al2 [p4_index a; p3_index a] l2 (p2_index a) [p1_index a] a u) as (r1 & s1 & al1 & E1 & V1 & X1 & W1 & R1);
    try done; [cbn; lia|].
  pose proof (extends_trans s s2 s1 al al2 al1 V2 X32 X1) as X321. pose proof (same_walks_trans _ _ _ W32 W1) as W321.
  exists r1, s1, al1. split; [done|]. split; [done|]. split; [done|]. split; [done|].
  destruct r1 as [l1|e]; [|by apply (map_error_walks s s2 al al2)]. destruct R1 as [L1 U1]. split; [done|]. intros Hu.
  exists l3, l2. split; [by apply (ex_tables _ _ _ _ _ X1), (ex_tables _ _ _ _ _ X2)|]. split; [by apply (ex_tables _ _ _ _ _ X1)|].
  split; [|split; [|by apply U1]].
  - apply (ex_user _ _ _ _ _ X1 []); [apply table_path_nil|done|done|]. apply (ex_user _ _ _ _ _ X2 []); [apply table_path_nil|done|done|by apply U3].
  - apply (ex_user _ _ _ _ _ X1 [p4_index a]); [done|done| |by apply U2]. by apply (ex_tables _ _ _ _ _ X2).
Qed.

(** ** The leaf entry *)

(** The translation after a write to the leaf entry of the page at [virt]. *)
Lemma leaf_translate s al virt l1 e a :
  pt_inv t s al -> canonical_u64 virt -> canonical_u64 a -> is_u64 e ->
  table_at 4 (ram s) t [p4_index virt; p3_index virt; p2_index virt] = Some l1 ->
  translate_addr_in_table (Some off) (ram (written s l1 (p1_index virt) e)) t a =
  if decide (a / 4096 = virt / 4096) then if present e then Some (entry_addr e + a mod 4096, entry_flags e) else None
  else translate_addr_in_table (Some off) (ram s) t a.
Proof.
  intros Hinv Hv Ha He Hl1.
  assert (table_path [p4_index virt; p3_index virt; p2_index virt]) as Tp.
  { split; [cbn; lia|]. repeat apply list.Forall_cons_2; by try apply index_range. }
  destruct (write_leaf s al _ l1 (p1_index virt) e Hinv Tp Hl1 (index_range _ _) He eq_refl) as (V & _ & Hw).
  rewrite (translate_walk _ al a V), (translate_walk s al a Hinv), Hw; [|done|apply addr_path_idx]. cbn [app]. fold (addr_path virt).
  destruct (decide (addr_path a = addr_path virt)) as [E|E], (decide (a / 4096 = virt / 4096)) as [F|F].
  - by destruct (present e).
  - by apply addr_path_inj in E.
  - by apply addr_path_inj in F.
  - done.
Qed.

Lemma page_flags_facts w u : plain_flags (page_flags w u) /\ has (page_flags w u) PRESENT = true /\
  is_u64 (page_flags w u) /\ (u = true -> has (page_flags w u) USER_ACCESSIBLE = true).
Proof. destruct w, u; repeat split; vm_compute; done. Qed.

Lemma low_half a : 0 <= a -> a <= USER_SPACE_END -> p4_index a < 256.
Proof.
  intros H0 H1. unfold p4_index. rewrite index_div by lia. unfold USER_SPACE_END in H1.
  assert (0 <= a / 2 ^ 39 < 256) by (split; [apply Z.div_pos; lia|apply Z.div_lt_upper_bound; lia]).
  rewrite Z.mod_small; lia.
Qed.

(** After the leaf is written, a user access finds the page. *)
Lemma leaf_user s al virt l1 e :
  pt_inv t s al -> is_u64 e -> 0 <= virt -> virt <= USER_SPACE_END -> user_ok e = true -> user_path s virt ->
  table_at 4 (ram s) t [p4_index virt; p3_index virt; p2_index virt] = Some l1 ->
  user_page_flags_in_table (Some off) (ram (written s l1 (p1_index virt) e)) t virt = Some (entry_flags e).
Proof.
  intros Hinv He H0 Hv Hu (l3 & l2 & L3 & L2 & U4 & U3 & U2) L1.
  assert (forall a k, idx (Z.land (Z.shiftr a k) 511)) as Hidx by (intros; apply index_range).
  assert (table_path [p4_index virt; p3_index virt; p2_index virt]) as T3 by (split; [cbn; lia|]; repeat apply list.Forall_cons_2; by try apply Hidx).
  assert (table_path [p4_index virt; p3_index virt]) as T2 by (split; [cbn; lia|]; repeat apply list.Forall_cons_2; by try apply Hidx).
  assert (table_path [p4_index virt]) as T1 by (split; [cbn; lia|]; repeat apply list.Forall_cons_2; by try apply Hidx).
  destruct (write_leaf s al _ l1 (p1_index virt) e Hinv T3 L1 (Hidx _ _) He eq_refl) as (V & Ht & _).
  set (s' := written s l1 (p1_index virt) e) in *.
  assert (forall q y j, table_path q -> (length q <= 2)%nat -> idx j -> table_at 4 (ram s) t q = Some y ->
    read_entry (ram s') y j = read_entry (ram s) y j) as Hr.
  { intros q y j Hq Hl Hj Hy. apply (written_other s al _ l1 (p1_index virt) e Hinv T3 L1 (Hidx _ _) q); try done.
    intros E%(f_equal length). rewrite !length_app in E. cbn in E. lia. }
  assert (read_entry (ram s') l1 (p1_index virt) = e) as E1 by (by apply read_write_entry).
  assert (descend 4 (read_entry (ram s) t (p4_index virt)) = Some l3) as D4.
  { cbn [table_at] in L3. by destruct (descend 4 _). }
  assert (descend 3 (read_entry (ram s) l3 (p3_index virt)) = Some l2) as D3.
  { cbn [table_at] in L2. rewrite D4 in L2. cbn in L2. by destruct (descend 3 _). }
  assert (descend 2 (read_entry (ram s) l2 (p2_index virt)) = Some l1) as D2.
  { cbn [table_at] in L1. rewrite D4 in L1. cbn in L1. rewrite D3 in L1. cbn in L1. by destruct (descend 2 _). }
  rewrite <-E1. apply (user_flags_path s' al virt l3 l2 l1); [done|by apply low_half|..]; rewrite ?E1; try done.
  all: rewrite ?(Hr [] t), ?(Hr [p4_index virt] l3), ?(Hr [p4_index virt; p3_index virt] l2); try done; try apply Hidx; try (cbn; lia); try apply table_path_nil.
Qed.
End level.
End tree.

(** ** The abstract view: a partial function from pages to frames *)

(** A changed leaf: the tables stay. *)
Lemma leaf_grown off t s al virt l1 e :
  0 <= off -> off + 2 ^ 52 <= U64_MODULUS -> pt_inv t s al -> is_u64 e ->
  table_at 4 (ram s) t [p4_index virt; p3_index virt; p2_index virt] = Some l1 -> grown t s (written s l1 (p1_index virt) e) al al.
Proof.
  intros Ho Ho' Hinv He L1.
  assert (table_path [p4_index virt; p3_index virt; p2_index virt]) as Tp.
  { split; [cbn; lia|]. repeat apply list.Forall_cons_2; by try apply index_range. }
  destruct (write_leaf t s al _ l1 (p1_index virt) _ Hinv Tp L1 (index_range _ _) He eq_refl) as (_ & Ht & _).
  split; [done|by left|intros p x Hp; by rewrite Ht|intros p x Hp; rewrite Ht by done; by left|].
  intros z Hz. by apply (written_data t s al [p4_index virt; p3_index virt; p2_index virt]); [..|apply index_range|].
Qed.

Lemma map_page_spec (off t : Z) (s : PMem) (al : list Z) (virt phys : Z) (w u : bool) :
  0 <= off -> off + 2 ^ 52 <= U64_MODULUS -> pt_inv t s al ->
  canonical_u64 virt -> virt mod 4096 = 0 -> phys mod 4096 = 0 -> 0 <= phys < 2 ^ 52 ->
  exists r s' al',
    map_page_in_table (Some off) t virt phys w u s = Some (r, s') /\ pt_inv t s' al' /\ grown t s s' al al' /\
    match r with
    | Ok _ =>
        (forall a, canonical_u64 a -> translate_addr_in_table (Some off) (ram s') t a =
           if decide (a / 4096 = virt / 4096) then Some (phys + a mod 4096, page_flags w u)
           else translate_addr_in_table (Some off) (ram s) t a) /\
        (u = true -> virt <= USER_SPACE_END ->
           user_page_flags_in_table (Some off) (ram s') t virt = Some (page_flags w u))
    | Err e =>
        map_error t off s virt e /\
        forall a, translate_addr_in_table (Some off) (ram s') t a = translate_addr_in_table (Some off) (ram s) t a
    end.
Proof.
  intros Ho Ho' Hinv Hv Hva Hpa Hpr. destruct (root_frame t s al Hinv) as [Hta Htr].
  unfold map_page_in_table. rewrite !land_4095, Hta, Hva, Hpa. cbn [Z.eqb negb].
  rewrite (try_bind_ok _ _ _ tt s) by (apply direct_ok; lia). rewrite (proj2 Hv). cbn [negb].
  destruct (ensure_l1_spec t off Ho Ho' s al virt u Hinv) as (r & s1 & al1 & E & V & X & W & R).
  destruct r as [l1|e].
  2:{ rewrite (try_bind_err _ _ _ _ _ E). exists (Err e), s1, al1. split; [done|]. split; [done|]. split; [by apply extends_grown|].
      split; [done|]. intros a. by apply (same_walks_translate t off Ho Ho' s s1 al al1). }
  rewrite (try_bind_ok _ _ _ _ _ E). destruct R as [L1 U].
  assert (table_path [p4_index virt; p3_index virt; p2_index virt]) as Tp.
  { split; [cbn; lia|]. repeat apply list.Forall_cons_2; by try apply index_range. }
  destruct (table_frame t s1 al1 _ l1 V Tp L1) as [_ Hl1].
  rewrite (try_bind_ok _ _ _ tt s1) by (apply direct_ok; lia).
  rewrite (st_bind_eq _ _ _ tt (written s1 l1 (p1_index virt) (mk_entry phys (page_flags w u)))) by (apply set_addr_written; [done|lia]).
  destruct (page_flags_facts w u) as (Hpl & Hpres & Hfu & Hus).
  destruct (mk_entry_spec phys (page_flags w u) Hpa Hpr Hpl Hpres) as (Ea & Ef & Ep).
  assert (is_u64 (mk_entry phys (page_flags w u))) as He by (by apply mk_entry_u64).
  destruct (write_leaf t s1 al1 _ l1 (p1_index virt) _ V Tp L1 (index_range _ _) He eq_refl) as (V' & _ & _).
  eexists (Ok tt), _, al1. split; [done|]. split; [exact V'|]. split; [|split].
  - apply (grown_trans t s s1 _ al al1); [done|by apply extends_grown|]. by apply (leaf_grown off t s1 al1 virt l1).
  - intros a Ha. rewrite (leaf_translate t off Ho Ho' s1 al1) by done. rewrite Ep, Ea, Ef.
    destruct (decide _); [done|]. by apply (same_walks_translate t off Ho Ho' s s1 al al1).
  - intros Hu Hlow. rewrite <-Ef at 2. apply (leaf_user t off Ho Ho' s1 al1); try done.
    + destruct Hv as [[? ?] _]. lia.
    + unfold user_ok. unfold present in Ep. rewrite Ep, Ef. by rewrite Hus.
    + by apply U.
Qed.

(** C1. Mapping a page is a function update.  In a page table whose tables are
    distinct frames held by the kernel, [map_page_in_table] of an aligned address
    returns without a panic, keeps that invariant, and changes no byte of any
    frame in use other than the tables themselves.  On success every canonical
    address of the page translates to the given frame with the requested flags
    (and user accesses find the page when it is mapped for the user), and the
    translation of every other address is unchanged; on failure no translation
    changes at all, and the error is exhaustion of frames or a huge page that
    already covers the address. *)
Theorem map_page_refines_update (off t : Z) (s : PMem) (al : list Z) (virt phys : Z) (w u : bool) :
  0 <= off -> off + 2 ^ 52 <= U64_MODULUS -> pt_inv t s al ->
  canonical_u64 virt -> virt mod 4096 = 0 -> phys mod 4096 = 0 -> 0 <= phys < 2 ^ 52 ->
  exists r s' al',
    map_page_in_table (Some off) t virt phys w u s = Some (r, s') /\ pt_inv t s' al' /\ al ⊆ al' /\
    (forall z, data_byte (ram s) t al z -> ram s' z = ram s z) /\
    match r with
    | Ok _ =>
        (forall a, canonical_u64 a -> translate_addr_in_table (Some off) (ram s') t a =
           if decide (a / 4096 = virt / 4096) then Some (phys + a mod 4096, page_flags w u)
           else translate_addr_in_table (Some off) (ram s) t a) /\
        (u = true -> virt <= USER_SPACE_END ->
           user_page_flags_in_table (Some off) (ram s') t virt = Some (page_flags w u))
    | Err e =>
        map_error t off s virt e /\
        forall a, translate_addr_in_table (Some off) (ram s') t a = translate_addr_in_table (Some off) (ram s) t a
    end.
Proof.
  intros Ho Ho' Hinv Hv Hva Hpa Hpr. destruct (map_page_spec off t s al virt phys w u) as (r & s' & al' & E & V & G & R); try done.
  exists r, s', al'. split; [done|]. split; [done|]. split; [apply G|]. split; [apply G|done].
Qed.

(** ** Unmapping *)

Lemma lower_table_spec s al p x i r a off t :
  0 <= off -> off + 2 ^ 52 <= U64_MODULUS -> pt_inv t s al -> ~ huge_at t off s a ->
  addr_path a = p ++ i :: r -> r <> [] -> table_at 4 (ram s) t p = Some x ->
  lower_table off x i s = Some (Ok (table_at 4 (ram s) t (p ++ [i])), s) /\
  (table_at 4 (ram s) t (p ++ [i]) = None -> translate_addr_in_table (Some off) (ram s) t a = None).
Proof.
  intros Ho Ho' Hinv Hnh Hpath Hr Hx. unfold lower_table. set (e := read_entry (ram s) x i).
  rewrite (st_bind_eq _ _ _ e s) by done. unfold absent. rewrite present_absent, table_at_app, Hx.
  cbn [mbind option_bind table_at]. fold e. destruct (present e) eqn:Ep; cbn [negb].
  - destruct (descend (4 - length p) e) as [y|] eqn:Ed.
    + destruct (descend_present _ _ _ Ed) as [_ ->]. rewrite (try_bind_ok _ _ _ tt s); [done|].
      apply direct_ok; [done|]. apply entry_addr_range.
    + destruct Hnh. by apply (huge_translate t off Ho Ho' s al p x i r).
  - assert (descend (4 - length p) e = None) as -> by (unfold descend; by rewrite Ep). split; [done|]. intros _.
    rewrite (translate_walk t off Ho Ho' s al) by done. rewrite Hpath, (walk_app _ _ _ _ x) by done.
    destruct r; [done|]. cbn [walk]. fold e. by rewrite Ep.
Qed.

Lemma unmap_in_table_spec (off t : Z) (s : PMem) (al : list Z) (virt : Z) :
  0 <= off -> off + 2 ^ 52 <= U64_MODULUS -> pt_inv t s al ->
  canonical_u64 virt -> virt mod 4096 = 0 -> ~ huge_at t off s virt ->
  exists s', unmap_page_in_table (Some off) t virt s = Some (Ok tt, s') /\ pt_inv t s' al /\
    grown t s s' al al /\
    (forall a, canonical_u64 a -> translate_addr_in_table (Some off) (ram s') t a =
       if decide (a / 4096 = virt / 4096) then None else translate_addr_in_table (Some off) (ram s) t a).
Proof.
  intros Ho Ho' Hinv Hv Hva Hnh. destruct (root_frame t s al Hinv) as [Hta Htr].
  unfold unmap_page_in_table. rewrite !land_4095, Hta, Hva. cbn [Z.eqb negb].
  rewrite (try_bind_ok _ _ _ tt s) by (apply direct_ok; lia). rewrite (proj2 Hv). cbn [negb].
  assert (translate_addr_in_table (Some off) (ram s) t virt = None -> 
    exists s', Some (Ok tt, s) = Some (@Ok unit Kernel tt, s') /\ pt_inv t s' al /\
    grown t s s' al al /\
    (forall a, canonical_u64 a -> translate_addr_in_table (Some off) (ram s') t a =
       if decide (a / 4096 = virt / 4096) then None else translate_addr_in_table (Some off) (ram s) t a)) as Hdone.
  { intros Hn. exists s. split; [done|]. split; [done|]. split; [apply grown_refl|]. intros a Ha.
    destruct (decide (a / 4096 = virt / 4096)) as [E|]; [|done]. apply (addr_path_inj a virt Ha Hv) in E.
    rewrite (translate_walk t off Ho Ho' s al) in * by done. rewrite E. by destruct (walk _ _ _ _). }
  destruct (lower_table_spec s al [] t (p4_index virt) [p3_index virt; p2_index virt; p1_index virt] virt off t) as [E4 N4]; try done.
  rewrite (try_bind_ok _ _ _ _ _ E4). cbn [app] in *. destruct (table_at 4 (ram s) t [p4_index virt]) as [l3|] eqn:L3; [|by apply Hdone, N4].
  destruct (lower_table_spec s al [p4_index virt] l3 (p3_index virt) [p2_index virt; p1_index virt] virt off t) as [E3 N3]; try done.
  rewrite (try_bind_ok _ _ _ _ _ E3). cbn [app] in *. destruct (table_at 4 (ram s) t [p4_index virt; p3_index virt]) as [l2|] eqn:L2; [|by apply Hdone, N3].
  destruct (lower_table_spec s al [p4_index virt; p3_index virt] l2 (p2_index virt) [p1_index virt] virt off t) as [E2 N2]; try done.
  rewrite (try_bind_ok _ _ _ _ _ E2). cbn [app] in *.
  destruct (table_at 4 (ram s) t [p4_index virt; p3_index virt; p2_index virt]) as [l1|] eqn:L1; [|by apply Hdone, N2].
  assert (table_path [p4_index virt; p3_index virt; p2_index virt]) as Tp.
  { split; [cbn; lia|]. repeat apply list.Forall_cons_2; by try apply index_range. }
  assert (is_u64 0) as H0 by (split; [lia|done]).
  destruct (write_leaf t s al _ l1 (p1_index virt) 0 Hinv Tp L1 (index_range _ _) H0 eq_refl) as (V & _ & _).
  exists (written s l1 (p1_index virt) 0). split; [done|]. split; [done|]. split.
  - by apply (leaf_grown off t s al virt l1).
  - intros a Ha. by rewrite (leaf_translate t off Ho Ho' s al).
Qed.

(** Unmapping a page is a function update too.  Under the same invariant, and
    if no huge page covers the address, [unmap_page_in_table] succeeds, keeps the
    invariant and the contents of every frame that is not a table, and afterwards
    the page has no translation while all others are as before. *)
Theorem unmap_page_refines_delete (off t : Z) (s : PMem) (al : list Z) (virt : Z) :
  0 <= off -> off + 2 ^ 52 <= U64_MODULUS -> pt_inv t s al ->
  canonical_u64 virt -> virt mod 4096 = 0 -> ~ huge_at t off s virt ->
  exists s', unmap_page_in_table (Some off) t virt s = Some (Ok tt, s') /\ pt_inv t s' al /\
    (forall z, data_byte (ram s) t al z -> ram s' z = ram s z) /\
    (forall a, canonical_u64 a -> translate_addr_in_table (Some off) (ram s') t a =
       if decide (a / 4096 = virt / 4096) then None else translate_addr_in_table (Some off) (ram s) t a).
Proof.
  intros Ho Ho' Hinv Hv Hva Hnh. destruct (unmap_in_table_spec off t s al virt) as (s' & E & V & G & R); try done.
  exists s'. split; [done|]. split; [done|]. split; [apply G|done].
Qed.

(** An empty table at 1 MiB in [size] bytes of memory. *)
Definition blank_of (size : Z) : PMem :=
  mkPM (Some (Frame.mkAllocator [Frame.mkRegion 1048576 size Frame.Usable] 257 0 0)) (fun _ => 0).

Definition blank : PMem := blank_of 262144.

Lemma blank_of_inv size : size = 8192 \/ size = 262144 -> pt_inv 1048576 (blank_of size) [1048576].
Proof.
  intros Hsize.
  assert (forall p x, table_path p -> table_at 4 (fun _ => 0) 1048576 p = Some x -> p = [] /\ x = 1048576) as Ht.
  { intros p x [_ Hp]. destruct p as [|i p]; [by intros [= <-]|]. apply list.Forall_cons in Hp as [Hi _].
    rewrite table_at_zero; [done| |done]. intros j Hj. reflexivity. }
  split.
  - eexists _, []. split; [reflexivity|]. split; [|repeat constructor; cbn; lia]. split; cbn; try done; try lia.
    + apply NoDup_singleton.
    + apply Forall_singleton. destruct Hsize as [-> | ->]; repeat split; vm_compute; done.
  - intros z. unfold is_byte. cbn. lia.
  - intros p q x Hp Hq H1 H2. apply Ht in H1 as [-> _]; [|done]. apply Ht in H2 as [-> _]; done.
  - intros p x Hp H. apply Ht in H as [_ ->]; [|done]. left.
Qed.

Lemma blank_inv : pt_inv 1048576 blank [1048576].
Proof. apply blank_of_inv. by right. Qed.

Lemma map_page_refines_update_witness :
  pt_inv 1048576 blank [1048576] /\
  exists s', map_page_in_table (Some 0) 1048576 4194304 2097152 true true blank = Some (Ok tt, s') /\
    translate_addr_in_table (Some 0) (ram s') 1048576 4194309 = Some (2097157, 7) /\
    user_page_flags_in_table (Some 0) (ram s') 1048576 4194304 = Some 7.
Proof.
  split; [exact blank_inv|].
  assert (fst <$> map_page_in_table (Some 0) 1048576 4194304 2097152 true true blank = Some (Ok tt)) as Hr by (vm_compute; reflexivity).
  destruct (map_page_refines_update 0 1048576 blank [1048576] 4194304 2097152 true true)
    as (r & s' & al' & E & _ & _ & _ & H); [done|done|exact blank_inv|by split|done|done|done|].
  rewrite E in Hr. injection Hr as ->. destruct H as [H1 H2]. exists s'. split; [exact E|].
  split; [|apply H2; done]. rewrite H1 by (by split). reflexivity.
Defined.

Lemma unmap_page_refines_delete_witness :
  ~ huge_at 1048576 0 blank 4194304 /\
  exists s', unmap_page_in_table (Some 0) 1048576 4194304 blank = Some (Ok tt, s') /\
    translate_addr_in_table (Some 0) (ram s') 1048576 4194309 = None.
Proof.
  assert (~ huge_at 1048576 0 blank 4194304) as Hn by (intros (q & f & E & _); vm_compute in E; discriminate).
  split; [exact Hn|].
  destruct (unmap_page_refines_delete 0 1048576 blank [1048576] 4194304)
    as (s' & E & _ & _ & H); [done|done|exact blank_inv|by split|done|exact Hn|].
  exists s'. split; [exact E|]. rewrite H by (by split). reflexivity.
Defined.

(** Unmapping inside a huge page corrupts data.  [unmap_page_in_table] does
    not test for huge pages: when a 2 MiB page covers the address it takes the
    page's memory for a table, reports success, and clears eight bytes of the
    page's data; nothing is unmapped. *)
Theorem unmap_in_huge_page_clears_data (off t : Z) (s : PMem) (virt l2 : Z) :
  0 <= off -> off + 2 ^ 52 <= U64_MODULUS -> t mod 4096 = 0 -> 0 <= t < 2 ^ 52 ->
  canonical_u64 virt -> virt mod 4096 = 0 ->
  table_at 4 (ram s) t [p4_index virt; p3_index virt] = Some l2 ->
  let e := read_entry (ram s) l2 (p2_index virt) in
  present e = true -> has (entry_flags e) HUGE_PAGE = true ->
  unmap_page_in_table (Some off) t virt s =
  Some (Ok tt, mkPM (frames s) (write_u64 (ram s) (entry_addr e + 8 * p1_index virt) 0)).
Proof.
  intros Ho Ho' Hta Htr Hv Hva L2 e Hp _. unfold unmap_page_in_table. rewrite !land_4095, Hta, Hva. cbn [Z.eqb negb].
  rewrite (try_bind_ok _ _ _ tt s) by (apply direct_ok; lia). rewrite (proj2 Hv). cbn [negb].
  assert (forall x i, present (read_entry (ram s) x i) = true ->
    lower_table off x i s = Some (Ok (Some (entry_addr (read_entry (ram s) x i))), s)) as Hlow.
  { intros x i Hx. unfold lower_table. rewrite (st_bind_eq _ _ _ (read_entry (ram s) x i) s) by done.
    unfold absent. rewrite present_absent, Hx. cbn [negb].
    rewrite (try_bind_ok _ _ _ tt s); [done|]. apply direct_ok; [done|]. apply entry_addr_range. }
  cbn [table_at] in L2. destruct (descend 4 _) as [l3|] eqn:E4; [|done]. cbn [mbind option_bind] in L2.
  destruct (descend (pred 4) _) as [l2'|] eqn:E3; [|done]. injection L2 as ->.
  apply descend_present in E4 as [P4 ->]. apply descend_present in E3 as [P3 ->].
  rewrite (try_bind_ok _ _ _ _ _ (Hlow _ _ P4)). cbn beta iota. rewrite (try_bind_ok _ _ _ _ _ (Hlow _ _ P3)). cbn beta iota.
  by rewrite (try_bind_ok _ _ _ _ _ (Hlow _ _ Hp)).
Qed.

(** A 2 MiB page at 4 MiB whose frame starts at 2 MiB. *)
Definition huge_demo : PMem :=
  mkPM None (write_u64 (write_u64 (write_u64 (fun _ => 17) 1048576 1052679) 1052672 1056775) 1056784 2097287).

Lemma unmap_in_huge_page_clears_data_witness :
  exists m', unmap_page_in_table (Some 0) 1048576 4198400 huge_demo = Some (Ok tt, mkPM None m') /\
    ram huge_demo 2097160 = 17 /\ m' 2097160 = 0.
Proof.
  eexists. split; [|split].
  - refine (unmap_in_huge_page_clears_data 0 1048576 huge_demo 4198400 1056768 _ _ _ _ _ _ _ _ _);
      try (vm_compute; reflexivity); [done|done|done|by split].
  - reflexivity.
  - vm_compute. reflexivity.
Defined.
End PageTables.
