(* ===== verification/Segment.v ===== *)
(** Loading a segment into a new address space: [map_and_copy_segment_to] and
    [ensure_user_page_table_hierarchy] of [src/core/mem/paging.rs].

    The loader reaches the root of the new table through a mapping at one fixed
    kernel address, which it makes at its start and removes at its end: [temp] is
    what that address maps.  The mapping itself is made by [map_to] of the x86_64
    crate; the frames it may take for tables above the fixed address are not
    counted here.  [None] as an outcome is a panic, or an access through
    an unmapped address. *)

From Stdlib Require Import ZArith Lia.
From stdpp Require Import base list option numbers sets.
From S2P Require Import Prelude State Types UserMem Mem Frame Paging PageTree PageTables.
Import Mem Result Paging PageTree PageTables.

Local Open Scope Z_scope.
Local Open Scope kernel_scope.

Module Segment.

(** ** The upper levels *)

(** [flags | PRESENT | WRITABLE | USER_ACCESSIBLE] without [NO_EXECUTE] *)
Definition relaxed (f : Z) : Z := Z.ldiff (Z.lor f (table_flags true)) NO_EXECUTE.

(** [p + phys_off] is a sum that must not overflow. *)
Definition check_sum (off p : Z) : PT unit := as_table off p ≫= fun _ => mret (Ok tt).

(** One level: an empty entry (at the last level also a huge page) gets a new
    table, another one is opened for the user. *)
Definition user_table (off table i : Z) (replace_huge : bool) : PT Z :=
  get_entry table i ≫= fun e =>
  if is_unused e || (replace_huge && has (entry_flags e) HUGE_PAGE)
  then new_table (check_sum off) table i (table_flags true)
  else set_addr table i (entry_addr e) (relaxed (entry_flags e)) ≫= fun _ => mret (Ok (entry_addr e)).

Definition ensure_user_page_table_hierarchy (off t vaddr : Z) : PT unit :=
  l3_phys ←? user_table off t (p4_index vaddr) false;
  _ ←? check_sum off l3_phys;
  l2_phys ←? user_table off l3_phys (p3_index vaddr) false;
  _ ←? check_sum off l2_phys;
  _ ←? user_table off l2_phys (p2_index vaddr) true;
  mret (Ok tt).

(** ** One page *)

Definition final_flags (writable executable : bool) : Z :=
  Z.lor (Z.lor (Z.lor PRESENT USER_ACCESSIBLE) (if writable then WRITABLE else 0)) (if executable then 0 else NO_EXECUTE).

(** [final_flags & !NO_EXECUTE] *)
Definition with_exec (f : Z) : Z := Z.ldiff f NO_EXECUTE.

(** What happens to the entry of a page: the new frame is entered, the frame that
    is there is kept, or the page would become both writable and executable. *)
Inductive merge := UseNew (flags : Z) | KeepOld (frame flags : Z) | Conflict.

Definition merge_entry (existing flags : Z) : merge :=
  if is_unused existing then UseNew flags
  else
    let ef := entry_flags existing in
    if negb (has ef USER_ACCESSIBLE) then UseNew (if has ef NO_EXECUTE then flags else with_exec flags)
    else
      let existing_exec := negb (has ef NO_EXECUTE) in
      let existing_write := has ef WRITABLE in
      let new_exec := negb (has flags NO_EXECUTE) in
      let new_write := has flags WRITABLE in
      if (existing_exec && new_write) || (existing_write && new_exec) then Conflict
      else KeepOld (entry_addr existing) (if negb (has ef NO_EXECUTE) then with_exec flags else flags).

(** [l3_phys == 0] and the like *)
Definition nonzero_table (p : Z) : PT unit := mret (if p =? 0 then Err (KMemory Memory_InvalidAddress) else Ok tt).

(** The walk from the root to the lowest table, after the hierarchy is there. *)
Definition walk_to_l1 (off t page_addr : Z) : PT Z :=
  get_entry t (p4_index page_addr) ≫= fun e4 =>
  _ ←? nonzero_table (entry_addr e4);
  _ ←? check_sum off (entry_addr e4);
  get_entry (entry_addr e4) (p3_index page_addr) ≫= fun e3 =>
  _ ←? nonzero_table (entry_addr e3);
  _ ←? check_sum off (entry_addr e3);
  get_entry (entry_addr e3) (p2_index page_addr) ≫= fun e2 =>
  _ ←? nonzero_table (entry_addr e2);
  _ ←? check_sum off (entry_addr e2);
  mret (Ok (entry_addr e2)).

(** The part of the file that falls into the page, copied to the frame. *)
Definition copy_part (frame vaddr file_end page_addr : Z) (src : list Z) : ST PMem unit :=
  let copy_start := Z.max page_addr vaddr in
  let copy_end := Z.min (page_addr + 4096) file_end in
  if copy_start <? copy_end then
    smodify (fun s => mkPM (frames s)
      (store (ram s) (frame + (copy_start - page_addr))
         (take (Z.to_nat (copy_end - copy_start)) (drop (Z.to_nat (copy_start - vaddr)) src))))
  else mret tt.

Definition map_one_page (off t vaddr file_end page_addr : Z) (src : list Z) (flags : Z) : PT unit :=
  _ ←? ensure_user_page_table_hierarchy off t page_addr;
  frame ←? allocate_frame;
  _ ←? check_sum off frame;
  zero_page frame ≫= fun _ =>
  l1_phys ←? walk_to_l1 off t page_addr;
  get_entry l1_phys (p1_index page_addr) ≫= fun existing =>
  match merge_entry existing flags with
  | Conflict => release_frame frame ≫= fun _ => mret (Err (KMemory Memory_PermissionDenied))
  | UseNew fl =>
      set_addr l1_phys (p1_index page_addr) frame fl ≫= fun _ =>
      copy_part frame vaddr file_end page_addr src ≫= fun _ => mret (Ok tt)
  | KeepOld old fl =>
      set_addr l1_phys (p1_index page_addr) old fl ≫= fun _ =>
      release_frame frame ≫= fun _ =>
      copy_part old vaddr file_end page_addr src ≫= fun _ => mret (Ok tt)
  end.

(** [while page_addr < end] *)
Fixpoint map_pages (off t vaddr file_end page_addr : Z) (src : list Z) (flags : Z) (n : nat) : PT unit :=
  match n with
  | O => mret (Ok tt)
  | S n =>
      _ ←? map_one_page off t vaddr file_end page_addr src flags;
      map_pages off t vaddr file_end (page_addr + 4096) src flags n
  end.

(** ** The whole call *)

Record LMem := mkLM { pm : PMem; temp : option Z }.

Definition on_pm {A} (f : ST PMem A) : ST LMem A := fun s =>
  match f (pm s) with Some (a, m) => Some (a, mkLM m (temp s)) | None => None end.

(** [map_to] at the fixed address: an error when the address is mapped (or when
    [mapper_fails], for its other errors).  Without a frame allocator nothing is
    mapped. *)
Definition map_temp (mapper_fails : bool) (table_phys : Z) : ST LMem (result unit Kernel) := fun s =>
  match frames (pm s) with
  | None => Some (Ok tt, s)
  | Some _ =>
      if bool_decide (is_Some (temp s)) || mapper_fails then Some (Err (KMemory Memory_InvalidAddress), s)
      else Some (Ok tt, mkLM (pm s) (Some table_phys))
  end.

Definition unmap_temp : ST LMem unit := fun s => Some (tt, mkLM (pm s) None).

(** An access through the fixed address: it must map the table. *)
Definition temp_is (table_phys : Z) : ST LMem unit := fun s =>
  if bool_decide (temp s = Some table_phys) then Some (tt, s) else None.

Definition map_and_copy_segment_to (phys_offset : option Z) (kernel_pt mapper_fails : bool)
    (table_phys vaddr filesz memsz : Z) (src : list Z) (writable executable : bool) : ST LMem (result unit Kernel) :=
  if writable && executable then mret (Err (KMemory Memory_PermissionDenied))
  else
    match phys_offset with
    | None => mret (Err (KMemory Memory_NotMapped))
    | Some off =>
        if memsz =? 0 then mret (if filesz =? 0 then Ok tt else Err InvalidParam)
        else if (memsz <? filesz) || (Z.of_nat (length src) <? filesz) then mret (Err InvalidParam)
        else
          match checked_add64 vaddr filesz, checked_add64 vaddr memsz with
          | Some file_end, Some mem_end =>
              if negb kernel_pt then mret (Err (KMemory Memory_NotMapped))
              else
                _ ←? map_temp mapper_fails table_phys;
                temp_is table_phys ≫= fun _ =>
                _ ←? on_pm (ensure_user_page_table_hierarchy off table_phys vaddr);
                _ ←? on_pm (ensure_user_page_table_hierarchy off table_phys (mem_end - 1));
                match checked_add64 mem_end 4095 with
                | None => mret (Err (KMemory Memory_InvalidAddress))
                | Some e =>
                    let start := page_down vaddr in
                    let n := Z.to_nat ((page_down e - start) / 4096) in
                    _ ←? on_pm (map_pages off table_phys vaddr file_end start src (final_flags writable executable) n);
                    unmap_temp ≫= fun _ => mret (Ok tt)
                end
          | _, _ => mret (Err (KMemory Memory_InvalidAddress))
          end
    end.
End Segment.
