(* ===== verification/SegmentProps.v ===== *)
(** The segment loader builds the address space it is asked for; what its error
    paths leave behind. *)

From Stdlib Require Import ZArith Lia.
From stdpp Require Import base list option numbers sets.
From S2P Require Import Prelude State Types UserMem Mem Frame Paging PageTree PageTables Segment.
Import Mem Result Paging PageTree PageTables Segment.

Local Open Scope Z_scope.
Local Open Scope kernel_scope.

Module SegmentProps.

(** ** Flags *)

Lemma has_ldiff_other f g b : Z.land g b = 0 -> has (Z.ldiff f g) b = has f b.
Proof.
  intros H. unfold has. f_equal. apply Z.bits_inj'. intros k Hk. apply (f_equal (fun z => Z.testbit z k)) in H.
  rewrite !Z.land_spec, Z.ldiff_spec, Z.bits_0 in *. destruct (Z.testbit f k), (Z.testbit g k), (Z.testbit b k); done.
Qed.

Lemma plain_ldiff f g : plain_flags f -> plain_flags (Z.ldiff f g).
Proof.
  unfold plain_flags. intros H. apply Z.bits_inj'. intros k Hk. apply (f_equal (fun z => Z.testbit z k)) in H.
  rewrite !Z.land_spec, Z.ldiff_spec, Z.bits_0 in *. destruct (Z.testbit f k), (Z.testbit g k), (Z.testbit ADDR_MASK k); done.
Qed.

Lemma relaxed_facts f :
  plain_flags f -> is_u64 f ->
  plain_flags (relaxed f) /\ is_u64 (relaxed f) /\ has (relaxed f) PRESENT = true /\ has (relaxed f) USER_ACCESSIBLE = true /\
  has (relaxed f) HUGE_PAGE = has f HUGE_PAGE.
Proof.
  intros Hp Hu. unfold relaxed. split; [apply plain_ldiff, plain_lor; [done|]; by destruct (table_flags_facts true)|].
  split; [apply ldiff_u64, lor_u64; [done|]; by destruct (table_flags_facts true) as (_ & _ & _ & ? & _)|].
  rewrite !has_ldiff_other by done. rewrite (has_lor_other f (table_flags true) HUGE_PAGE) by done.
  assert (forall b, has (table_flags true) b = true -> has (Z.lor f (table_flags true)) b = true) as Hl.
  { intros b Hb. rewrite Z.lor_comm. by apply has_lor_l. }
  split; [by apply Hl|]. split; [by apply Hl|done].
Qed.

(** The byte a segment has at an address: the file's where the file reaches, zero
    elsewhere. *)
Definition image_byte (vaddr file_end : Z) (src : list Z) (a : Z) : Z :=
  if (vaddr <=? a) && (a <? file_end) then src !!! Z.to_nat (a - vaddr) else 0.

Lemma image_part m n vaddr file_end src page k :
  file_end - vaddr <= Z.of_nat (length src) -> 0 <= k < 4096 -> m (n + k) = 0 ->
  let cs := Z.max page vaddr in
  let ce := Z.min (page + 4096) file_end in
  cs < ce ->
  store m (n + (cs - page)) (take (Z.to_nat (ce - cs)) (drop (Z.to_nat (cs - vaddr)) src)) (n + k) =
  image_byte vaddr file_end src (page + k).
Proof.
  intros Hs Hk Hz cs ce Hlt. unfold image_byte. set (bs := take _ _).
  assert (Z.of_nat (length bs) = ce - cs) as Hbs by (unfold bs; rewrite length_take, length_drop; lia).
  destruct (decide (cs <= page + k < ce)) as [Hin|Hout].
  - rewrite (proj2 (Z.leb_le _ _)), (proj2 (Z.ltb_lt _ _)) by lia. cbn [andb].
    destruct (lookup_lt_is_Some_2 src (Z.to_nat (page + k - vaddr))) as [b Hb]; [lia|].
    rewrite (list_lookup_total_correct _ _ _ Hb).
    replace (n + k) with (n + (cs - page) + Z.of_nat (Z.to_nat (page + k - cs))) by lia. apply store_in.
    unfold bs. rewrite lookup_take_lt, lookup_drop by lia. rewrite <-Hb. f_equal. lia.
  - rewrite store_out by lia. rewrite Hz. destruct (Z.leb_spec vaddr (page + k)), (Z.ltb_spec (page + k) file_end); cbn; done || lia.
Qed.

Section loader.
Context (off t : Z) (Hoff : 0 <= off) (Hoff' : off + 2 ^ 52 <= U64_MODULUS).

Lemma check_sum_ok p s : p < 2 ^ 52 -> check_sum off p s = Some (Ok tt, s).
Proof.
  intros Hp. unfold check_sum, as_table, reachable. rewrite (proj2 (checked_add64_Some p off (p + off))) by lia. done.
Qed.

(** ** The upper levels *)

Lemma user_table_spec s al p x i rh :
  pt_inv t s al -> table_path p -> (length p <= 2)%nat -> table_at 4 (ram s) t p = Some x -> idx i ->
  fine (4 - length p) (read_entry (ram s) x i) -> (length p = 0%nat -> rh = false) ->
  exists r s' al', user_table off x i rh s = Some (r, s') /\ pt_inv t s' al' /\ extends t s s' al al' /\ same_walks t s s' /\
    match r with
    | Ok y => table_at 4 (ram s') t (p ++ [i]) = Some y /\ user_ok (read_entry (ram s') x i) = true
    | Err e => e = KMemory Memory_OutOfMemory
    end.
Proof.
  intros Hinv Hp Hl Hx Hi Hfine Hrh. unfold user_table. set (e := read_entry (ram s) x i) in *.
  rewrite (st_bind_eq _ _ _ e s) by done. destruct (table_flags_facts true) as (Tpl & Tpr & Thu & Tu & Tus).
  destruct Hfine as [He0|[Hlv Hd]].
  - assert (is_unused e = true) as -> by (rewrite He0; done). cbn [orb].
    destruct (new_table_spec t off Hoff Hoff' (check_sum off) s al p x i (table_flags true)) as (r & s' & al' & E & V & X & W & R); try done.
    { intros. by apply check_sum_ok. }
    { fold e. by rewrite He0. }
    exists r, s', al'. split; [done|]. split; [done|]. split; [done|]. split; [done|]. destruct r as [y|]; [|done].
    destruct R as [L ->]. split; [done|].
    destruct (held_frame t s' al' y V) as [Hya Hyr]; [apply (pi_held _ _ _ V (p ++ [i])); [by apply table_path_snoc|done]|].
    destruct (mk_entry_spec y (table_flags true) Hya ltac:(lia) Tpl Tpr) as (_ & Ef & Ep).
    unfold user_ok. unfold present in Ep. rewrite Ep, Ef. by rewrite Tus.
  - destruct (descend_present _ _ _ Hd) as [Hpres _]. unfold present in Hpres. apply andb_prop in Hpres as [Hun Hpr].
    apply negb_true_iff in Hun. rewrite Hun. cbn [orb].
    assert (rh && has (entry_flags e) HUGE_PAGE = false) as ->.
    { destruct (decide (length p = 0%nat)) as [H0|H0]; [by rewrite Hrh|]. unfold descend in Hd.
      destruct (present e && _) eqn:Ed; [|done]. apply andb_prop in Ed as [_ Ed].
      rewrite (proj2 (Nat.eqb_neq _ _)) in Ed by lia. cbn in Ed. apply negb_true_iff in Ed. by rewrite Ed, andb_false_r. }
    pose proof (entry_addr_range e). pose proof (entry_addr_aligned e).
    assert (is_u64 (entry_flags e)) as Hfu by (apply ldiff_u64, read_u64_range, (pi_mem _ _ _ Hinv)).
    destruct (relaxed_facts (entry_flags e) (plain_entry_flags e) Hfu) as (Rpl & Ru & Rp & Rus & Rh).
    set (f := relaxed (entry_flags e)) in *.
    destruct (mk_entry_spec (entry_addr e) f) as (Ea & Ef & Ep); [done|lia|done|done|].
    rewrite (st_bind_eq _ _ _ tt (written s x i (mk_entry (entry_addr e) f))) by (apply set_addr_written; [done|lia]).
    assert (descend (4 - length p) (mk_entry (entry_addr e) f) = Some (entry_addr e)) as Hde.
    { unfold descend in *. rewrite Ep, Ea, Ef, Rh. unfold present in Hd. rewrite Hun, Hpr in Hd. exact Hd. }
    assert (user_ok (mk_entry (entry_addr e) f) = true) as Huok.
    { unfold user_ok. unfold present in Ep. by rewrite Ep, Ef. }
    destruct (relabel_entry t s al p x i (mk_entry (entry_addr e) f)) as (H1 & H2 & H3); try done.
    { apply mk_entry_u64; [lia|done]. }
    { right. exists (entry_addr e). by split. }
    eexists (Ok (entry_addr e)), _, al. split; [done|]. split; [exact H1|]. split; [exact H2|]. split; [exact H3|]. split.
    + apply (ex_tables _ _ _ _ _ H2); [by apply table_path_snoc|]. rewrite table_at_app, Hx. cbn. fold e. by rewrite Hd.
    + unfold written. cbn [ram]. rewrite read_write_entry; [done|]. apply mk_entry_u64; [lia|done].
Qed.

(** Nothing is mapped at an address: the entries on the way are empty or lead to
    tables, and at the lowest level (where [fine 1] admits only zero) empty. *)
Definition vacant (s : PMem) (a : Z) : Prop :=
  forall p i r x, addr_path a = p ++ i :: r -> table_at 4 (ram s) t p = Some x ->
    fine (4 - length p) (read_entry (ram s) x i).

Lemma path_parts a p i r : addr_path a = p ++ i :: r -> Forall idx p /\ idx i /\ table_path p.
Proof.
  intros H. pose proof (addr_path_idx a) as Hi. pose proof (f_equal length H) as Hl. rewrite H in Hi.
  apply Forall_app in Hi as [Hp [Hi _]%list.Forall_cons]. rewrite length_app in Hl. cbn in Hl. repeat split; [done|apply Hi|apply Hi|lia|done].
Qed.

Lemma vacant_extends s s' al al' a : extends t s s' al al' -> vacant s a -> vacant s' a.
Proof.
  intros X Hc p i r x Hp Hx. destruct (path_parts a p i r Hp) as (_ & Hi & Htp).
  destruct (ex_entries _ _ _ _ _ X p x i Htp Hi Hx) as [H|[H ->]]; [done|]. by apply (Hc p i r).
Qed.

(** The same for the upper levels only. *)
Definition upper_fine (s : PMem) (a : Z) : Prop :=
  forall p i r x, r <> [] -> addr_path a = p ++ i :: r -> table_at 4 (ram s) t p = Some x ->
    fine (4 - length p) (read_entry (ram s) x i).

Lemma vacant_upper s a : vacant s a -> upper_fine s a.
Proof. intros H p i r x _. apply H. Qed.

Lemma upper_extends s s' al al' a : extends t s s' al al' -> upper_fine s a -> upper_fine s' a.
Proof.
  intros X Hc p i r x Hr Hp Hx. destruct (path_parts a p i r Hp) as (_ & Hi & Htp).
  destruct (ex_entries _ _ _ _ _ X p x i Htp Hi Hx) as [H|[H ->]]; [done|]. by apply (Hc p i r).
Qed.

Lemma ensure_spec s al a :
  pt_inv t s al -> upper_fine s a ->
  exists r s' al', ensure_user_page_table_hierarchy off t a s = Some (r, s') /\ pt_inv t s' al' /\
    extends t s s' al al' /\ same_walks t s s' /\
    match r with
    | Ok _ => exists l1, table_at 4 (ram s') t [p4_index a; p3_index a; p2_index a] = Some l1
    | Err e => e = KMemory Memory_OutOfMemory
    end.
Proof.
  intros Hinv Hc. unfold ensure_user_page_table_hierarchy. pose proof (addr_path_idx a) as Hidx. unfold addr_path in Hidx.
  apply list.Forall_cons in Hidx as [I4 [I3 [I2 _]%list.Forall_cons]%list.Forall_cons].
  assert (table_path [p4_index a]) as T1 by (split; [cbn; lia|by repeat apply list.Forall_cons_2]).
  assert (table_path [p4_index a; p3_index a]) as T2 by (split; [cbn; lia|by repeat apply list.Forall_cons_2]).
  destruct (user_table_spec s al [] t (p4_index a) false) as (r3 & s3 & al3 & E3 & V3 & X3 & W3 & R3); try done.
  { apply table_path_nil. } { cbn; lia. } { by apply (Hc [] _ [p3_index a; p2_index a; p1_index a]). }
  destruct r3 as [l3|e]; [|rewrite (try_bind_err _ _ _ _ _ E3); by eexists _, s3, al3].
  rewrite (try_bind_ok _ _ _ _ _ E3). destruct R3 as [L3 _]. cbn [app] in L3.
  destruct (table_frame t s3 al3 _ l3 V3 T1 L3) as [_ Hr3].
  rewrite (try_bind_ok _ _ _ tt s3) by (apply check_sum_ok; lia).
  destruct (user_table_spec s3 al3 [p4_index a] l3 (p3_index a) false) as (r2 & s2 & al2 & E2 & V2 & X2 & W2 & R2); try done; [cbn; lia| |].
  { by apply (upper_extends _ _ _ _ _ X3 Hc [p4_index a] (p3_index a) [p2_index a; p1_index a]). }
  pose proof (extends_trans t s s3 s2 al al3 al2 V3 X3 X2) as X32. pose proof (same_walks_trans t _ _ _ W3 W2) as W32.
  destruct r2 as [l2|e]; [|rewrite (try_bind_err _ _ _ _ _ E2); by eexists _, s2, al2].
  rewrite (try_bind_ok _ _ _ _ _ E2). destruct R2 as [L2 _]. cbn [app] in L2.
  destruct (table_frame t s2 al2 _ l2 V2 T2 L2) as [_ Hr2].
  rewrite (try_bind_ok _ _ _ tt s2) by (apply check_sum_ok; lia).
  destruct (user_table_spec s2 al2 [p4_index a; p3_index a] l2 (p2_index a) true) as (r1 & s1 & al1 & E1 & V1 & X1 & W1 & R1); try done.
  { by apply (upper_extends _ _ _ _ _ X32 Hc [p4_index a; p3_index a] (p2_index a) [p1_index a]). }
  pose proof (extends_trans t s s2 s1 al al2 al1 V2 X32 X1) as X321. pose proof (same_walks_trans t _ _ _ W32 W1) as W321.
  destruct r1 as [l1|e].
  - rewrite (try_bind_ok _ _ _ _ _ E1). eexists (Ok tt), s1, al1. repeat (split; [done|]). destruct R1 as [L1 _]. by exists l1.
  - rewrite (try_bind_err _ _ _ _ _ E1). by eexists _, s1, al1.
Qed.

Lemma l1_path a : table_path [p4_index a; p3_index a; p2_index a].
Proof. split; [cbn; lia|]. repeat apply list.Forall_cons_2; by try apply index_range. Qed.

(** ** The walk to the lowest table *)

Lemma nonzero_table_ok p s : p <> 0 -> nonzero_table p s = Some (Ok tt, s).
Proof. intros H. unfold nonzero_table. by rewrite (proj2 (Z.eqb_neq _ _) H). Qed.

Lemma walk_to_l1_spec s al a l1 :
  pt_inv t s al -> table_at 4 (ram s) t [p4_index a; p3_index a; p2_index a] = Some l1 -> walk_to_l1 off t a s = Some (Ok l1, s).
Proof.
  intros Hinv L1. pose proof (l1_path a) as [_ Hp].
  assert (forall p x, table_path p -> table_at 4 (ram s) t p = Some x -> x <> 0 /\ x < 2 ^ 52) as Hf.
  { intros p x Hq Hx. destruct (table_frame t s al p x Hinv Hq Hx). lia. }
  pose proof L1 as L1'. cbn [table_at] in L1'.
  destruct (descend 4 _) as [l3|] eqn:E4; [|done]. cbn [mbind option_bind] in L1'.
  destruct (descend (pred 4) _) as [l2|] eqn:E3; [|done]. cbn [mbind option_bind] in L1'.
  destruct (descend (pred (pred 4)) _) as [l1'|] eqn:E2; [|done]. injection L1' as ->.
  apply list.Forall_cons in Hp as [I4 [I3 [I2 _]%list.Forall_cons]%list.Forall_cons].
  destruct (Hf [p4_index a] l3) as [N3 R3]; [split; [cbn; lia|by repeat apply list.Forall_cons_2]|cbn; by rewrite E4|].
  destruct (Hf [p4_index a; p3_index a] l2) as [N2 R2]; [split; [cbn; lia|by repeat apply list.Forall_cons_2]|cbn [table_at]; rewrite E4; cbn [mbind option_bind]; by rewrite E3|].
  destruct (Hf _ l1 (l1_path a) L1) as [N1 R1].
  apply descend_present in E4 as [_ ->]. apply descend_present in E3 as [_ ->]. apply descend_present in E2 as [_ ->].
  unfold walk_to_l1, get_entry.
  erewrite st_bind_eq by reflexivity. rewrite (try_bind_ok _ _ _ tt s), (try_bind_ok _ _ _ tt s) by (by first [apply nonzero_table_ok|apply check_sum_ok]).
  erewrite st_bind_eq by reflexivity. rewrite (try_bind_ok _ _ _ tt s), (try_bind_ok _ _ _ tt s) by (by first [apply nonzero_table_ok|apply check_sum_ok]).
  erewrite st_bind_eq by reflexivity. by rewrite (try_bind_ok _ _ _ tt s), (try_bind_ok _ _ _ tt s) by (by first [apply nonzero_table_ok|apply check_sum_ok]).
Qed.

(** ** Data in a frame that is not a table *)

Lemma data_write s al n o bs :
  pt_inv t s al -> n ∈ al -> (forall q, table_path q -> table_at 4 (ram s) t q <> Some n) ->
  0 <= o -> o + Z.of_nat (length bs) <= 4096 -> Forall is_byte bs ->
  let s' := mkPM (frames s) (store (ram s) (n + o) bs) in
  pt_inv t s' al /\ same_walks t s s' /\
  (forall q, table_path q -> table_at 4 (ram s') t q = table_at 4 (ram s) t q) /\
  (forall q y j, table_path q -> idx j -> table_at 4 (ram s) t q = Some y -> read_entry (ram s') y j = read_entry (ram s) y j) /\
  (forall z, ~ in_frame n z -> ram s' z = ram s z).
Proof.
  intros Hinv Hn Hnt Ho Hl Hb s'. destruct (held_frame t s al n Hinv Hn) as [Hna _].
  assert (forall z, ~ in_frame n z -> ram s' z = ram s z) as Hout.
  { intros z Hz. apply store_out. unfold in_frame in Hz. lia. }
  destruct (outside_frame t s al (ram s') n Hinv Hna Hnt Hout) as (H1 & H2 & H3).
  split; [|done]. pose proof (sound_store s al n o bs (pt_sound t s al Hinv) Hn Ho Hl Hb) as [? ?]. split; [done|done| |].
  - intros p q x Hp Hq. rewrite !H1 by done. by apply (pi_inj _ _ _ Hinv).
  - intros p x Hp. rewrite H1 by done. by apply (pi_held _ _ _ Hinv).
Qed.

Lemma copy_part_spec s al n vaddr file_end page src :
  pt_inv t s al -> n ∈ al -> (forall q, table_path q -> table_at 4 (ram s) t q <> Some n) ->
  (forall k, 0 <= k < 4096 -> ram s (n + k) = 0) -> file_end - vaddr <= Z.of_nat (length src) -> Forall is_byte src ->
  exists s', copy_part n vaddr file_end page src s = Some (tt, s') /\ pt_inv t s' al /\ same_walks t s s' /\
    (forall q, table_path q -> table_at 4 (ram s') t q = table_at 4 (ram s) t q) /\
    (forall q y j, table_path q -> idx j -> table_at 4 (ram s) t q = Some y -> read_entry (ram s') y j = read_entry (ram s) y j) /\
    (forall z, ~ in_frame n z -> ram s' z = ram s z) /\
    (forall k, 0 <= k < 4096 -> ram s' (n + k) = image_byte vaddr file_end src (page + k)).
Proof.
  intros Hinv Hn Hnt Hz Hs Hb. unfold copy_part. set (cs := Z.max page vaddr). set (ce := Z.min (page + 4096) file_end).
  destruct (Z.ltb_spec cs ce) as [Hlt|Hge].
  - eexists. split; [reflexivity|]. set (bs := take _ _).
    destruct (data_write s al n (cs - page) bs) as (H1 & H2 & H3 & H4 & H5); try done; try lia.
    { unfold bs. rewrite length_take, length_drop. lia. }
    { apply Forall_take, Forall_drop, Hb. }
    repeat (split; [done|]). intros k Hk. by apply image_part; [..|apply Hz|].
  - exists s. split; [done|]. split; [done|]. split; [done|]. split; [done|]. split; [done|]. split; [done|].
    intros k Hk. rewrite Hz by done. unfold image_byte.
    destruct (Z.leb_spec vaddr (page + k)), (Z.ltb_spec (page + k) file_end); cbn; done || lia.
Qed.

(** ** One page *)

Lemma final_flags_facts w x : plain_flags (final_flags w x) /\ has (final_flags w x) PRESENT = true /\ is_u64 (final_flags w x).
Proof. destruct w, x; repeat split; vm_compute; done. Qed.

(** Vacant addresses elsewhere stay vacant when a leaf is written. *)
Lemma vacant_leaf s al a b l1 e :
  pt_inv t s al -> is_u64 e -> table_at 4 (ram s) t [p4_index a; p3_index a; p2_index a] = Some l1 ->
  addr_path b <> addr_path a -> vacant s b -> vacant (written s l1 (p1_index a) e) b.
Proof.
  intros Hinv He L1 Hne Hv p i r x Hp Hx. destruct (path_parts b p i r Hp) as (_ & Hi & Htp).
  destruct (write_leaf t s al _ l1 (p1_index a) e Hinv (l1_path a) L1 (index_range _ _) He eq_refl) as (_ & Ht & _).
  rewrite Ht in Hx by done. rewrite (written_other t s al _ l1 (p1_index a) e Hinv (l1_path a) L1 (index_range _ _) p); try done.
  { by apply (Hv p i r). }
  intros E. apply Hne. rewrite Hp. change (addr_path a) with ([p4_index a; p3_index a; p2_index a] ++ [p1_index a]). rewrite <-E.
  apply (f_equal length) in Hp. apply (f_equal length) in E. rewrite !length_app in *. cbn in Hp, E.
  destruct r; [done|]. cbn in Hp. lia.
Qed.

(** A write that no table sees keeps what is vacant. *)
Lemma vacant_same s s' b :
  (forall q, table_path q -> table_at 4 (ram s') t q = table_at 4 (ram s) t q) ->
  (forall q y j, table_path q -> idx j -> table_at 4 (ram s) t q = Some y -> read_entry (ram s') y j = read_entry (ram s) y j) ->
  vacant s b -> vacant s' b.
Proof.
  intros Ht Hr Hv p i r x Hp Hx. destruct (path_parts b p i r Hp) as (_ & Hi & Htp).
  rewrite Ht in Hx by done. rewrite (Hr p) by done. by apply (Hv p i r).
Qed.

(** The contents of the frames in use that are not tables are kept. *)
Definition keeps (s s' : PMem) (al al' : list Z) : Prop :=
  forall z, data_byte (ram s) t al z -> ram s' z = ram s z /\ data_byte (ram s') t al' z.

Lemma keeps_trans s1 s2 s3 al1 al2 al3 : keeps s1 s2 al1 al2 -> keeps s2 s3 al2 al3 -> keeps s1 s3 al1 al3.
Proof. intros H1 H2 z Hz. destruct (H1 z Hz) as [E1 D1], (H2 z D1) as [E2 D2]. split; [congruence|done]. Qed.

Lemma keeps_extends s s' al al' : pt_inv t s' al' -> extends t s s' al al' -> keeps s s' al al'.
Proof. intros Hi X z Hz. split; [by apply (ex_data _ _ _ _ _ X)|by apply (data_byte_extends t s s' al al')]. Qed.

(** A data byte outside the new frame [n]. *)
Lemma keeps_outside s s' al n :
  pt_inv t s' (n :: al) -> n ∉ al ->
  (forall q, table_path q -> table_at 4 (ram s') t q = table_at 4 (ram s) t q) ->
  (forall z, data_byte (ram s) t al z -> ~ in_frame n z -> ram s' z = ram s z) -> keeps s s' al (n :: al).
Proof.
  intros Hi Hn Ht Hm z Hz. split; [|split].
  - apply Hm; [done|]. destruct Hz as [(b & Hb & Hbz) _].
    destruct (held_frame t s' _ b Hi) as [Hba _]; [by right|]. destruct (held_frame t s' _ n Hi) as [Hna _]; [left|].
    apply (frames_apart b); [done|done|congruence|done].
  - destruct Hz as [(b & Hb & Hbz) _]. exists b. split; [by right|done].
  - intros p x Hp. rewrite Ht by done. by apply Hz.
Qed.

(** What one page of a load does at [page]. *)
Definition page_loaded (s s' : PMem) (al' : list Z) (flags vaddr file_end page : Z) (src : list Z) : Prop :=
  exists n,
    (forall b, canonical_u64 b -> translate_addr_in_table (Some off) (ram s') t b =
       if decide (b / 4096 = page / 4096) then Some (n + b mod 4096, flags) else translate_addr_in_table (Some off) (ram s) t b) /\
    (forall k, 0 <= k < 4096 -> ram s' (n + k) = image_byte vaddr file_end src (page + k) /\ data_byte (ram s') t al' (n + k)).

(** The new frame is entered at a vacant page and filled. *)
Lemma place_page s al n l1 vaddr file_end page src fl :
  pt_inv t s (n :: al) -> canonical_u64 page ->
  table_at 4 (ram s) t [p4_index page; p3_index page; p2_index page] = Some l1 ->
  (forall q, table_path q -> table_at 4 (ram s) t q <> Some n) -> (forall k, 0 <= k < 4096 -> ram s (n + k) = 0) ->
  file_end - vaddr <= Z.of_nat (length src) -> Forall is_byte src ->
  plain_flags fl -> has fl PRESENT = true -> is_u64 fl ->
  exists s', (set_addr l1 (p1_index page) n fl ≫= fun _ => copy_part n vaddr file_end page src ≫= fun _ => mret (Ok tt)) s =
      Some (@Ok unit Kernel tt, s') /\ pt_inv t s' (n :: al) /\
    (forall q, table_path q -> table_at 4 (ram s') t q = table_at 4 (ram s) t q) /\
    (forall z, data_byte (ram s) t (n :: al) z -> ~ in_frame n z -> ram s' z = ram s z) /\
    (forall b, canonical_u64 b -> b / 4096 <> page / 4096 -> vacant s b -> vacant s' b) /\
    page_loaded s s' (n :: al) fl vaddr file_end page src.
Proof.
  intros V Hc L Hnt Hz Hs Hb Fpl Fpr Fu. destruct (held_frame t s (n :: al) n V) as [Hna Hnr]; [left|].
  rewrite (st_bind_eq _ _ _ tt (written s l1 (p1_index page) (mk_entry n fl))) by (apply set_addr_written; [done|lia]).
  destruct (mk_entry_spec n fl Hna ltac:(lia) Fpl Fpr) as (Ee & Ef & Ep).
  assert (is_u64 (mk_entry n fl)) as Heu by (apply mk_entry_u64; [lia|done]).
  destruct (write_leaf t s _ _ l1 (p1_index page) _ V (l1_path page) L (index_range _ _) Heu eq_refl) as (V4 & T4 & _).
  destruct (copy_part_spec (written s l1 (p1_index page) (mk_entry n fl)) (n :: al) n vaddr file_end page src)
    as (s5 & E5 & V5 & W5 & T5 & R5 & M5 & C5); try done.
  { left. } { intros q Hq. rewrite T4 by done. by apply Hnt. }
  { intros k Hk. unfold written. cbn [ram]. rewrite write_entry_other; [by apply Hz|apply index_range|].
    destruct (table_frame t s _ _ l1 V (l1_path page) L) as [Hl1a _].
    assert (l1 <> n) by (intros ->; by apply (Hnt _ (l1_path page))).
    pose proof (frames_apart n l1 (n + k) Hna Hl1a ltac:(done)) as Hap. unfold in_frame in Hap. lia. }
  rewrite (st_bind_eq _ _ _ tt s5) by done.
  exists s5. split; [done|]. split; [done|]. split; [intros q Hq; by rewrite T5, T4|]. split; [|split].
  - intros z Hz' Hnz. rewrite M5 by done. by apply (written_data t s (n :: al) _ l1 _ _ (l1_path page) L (index_range _ _)).
  - intros b Hcb Hne Hvb. eapply vacant_same; [exact T5|exact R5|]. apply (vacant_leaf s (n :: al)); try done.
    intros Ep'. by apply addr_path_inj in Ep'.
  - exists n. split.
    + intros b Hcb. rewrite (same_walks_translate t off Hoff Hoff' _ s5 _ _ b V4 V5 W5).
      rewrite (leaf_translate t off Hoff Hoff' s (n :: al)) by done. by rewrite Ep, Ee, Ef.
    + intros k Hk. split; [by apply C5|]. split; [exists n; split; [left|unfold in_frame; lia]|].
      intros p y Hp Hy. rewrite T5, T4 in Hy by done. destruct (table_frame t s _ p y V Hp Hy) as [Hya _].
      apply (frames_apart n); [done|done| |unfold in_frame; lia]. intros <-. by apply (Hnt p).
Qed.

Lemma map_one_page_spec s al vaddr file_end page src w x :
  pt_inv t s al -> canonical_u64 page -> vacant s page ->
  file_end - vaddr <= Z.of_nat (length src) -> Forall is_byte src ->
  exists r s' al', map_one_page off t vaddr file_end page src (final_flags w x) s = Some (r, s') /\
    pt_inv t s' al' /\ keeps s s' al al' /\
    (forall b, canonical_u64 b -> b / 4096 <> page / 4096 -> vacant s b -> vacant s' b) /\
    match r with
    | Ok _ => page_loaded s s' al' (final_flags w x) vaddr file_end page src
    | Err e => e = KMemory Memory_OutOfMemory /\ same_walks t s s'
    end.
Proof.
  intros Hinv Hc Hv Hs Hb. unfold map_one_page. set (fl := final_flags w x).
  destruct (ensure_spec s al page Hinv (vacant_upper _ _ Hv)) as (r & s1 & al1 & E & V1 & X & W & R).
  destruct r as [[]|e].
  2:{ rewrite (try_bind_err _ _ _ _ _ E). eexists _, s1, al1. split; [done|]. split; [done|]. split; [by apply keeps_extends|].
      split; [intros b _ _; by apply (vacant_extends s s1 al al1)|done]. }
  rewrite (try_bind_ok _ _ _ _ _ E). destruct R as [l1 L1].
  destruct (allocate_outcome t s1 al1 V1) as [Ea|(n & s2 & Ea & Hni & Hso & Hm)].
  { rewrite (try_bind_err _ _ _ _ _ Ea). eexists _, s1, al1. split; [done|]. split; [done|]. split; [by apply keeps_extends|].
    split; [intros b _ _; by apply (vacant_extends s s1 al al1)|done]. }
  rewrite (try_bind_ok _ _ _ _ _ Ea).
  destruct (fresh_frame t s1 al1 n s2 V1 Hni Hso Hm) as (V3 & W3 & T3 & R3 & _ & M3).
  set (s3 := mkPM (frames s2) (zero (ram s2) n 4096)) in *.
  assert (forall k, 0 <= k < 4096 -> ram s3 (n + k) = 0) as Hzero.
  { intros k Hk. unfold s3, zero. cbn [ram]. replace (n + k) with (n + Z.of_nat (Z.to_nat k)) by lia. apply store_in.
    apply lookup_replicate_2. lia. }
  destruct (held_frame t s3 (n :: al1) n V3) as [_ Hnr]; [left|].
  rewrite (try_bind_ok _ _ _ tt s2) by (apply check_sum_ok; lia).
  rewrite (st_bind_eq _ _ _ tt s3) by reflexivity. clearbody s3.
  assert (table_at 4 (ram s3) t [p4_index page; p3_index page; p2_index page] = Some l1) as L3 by (by rewrite T3 by apply l1_path).
  rewrite (try_bind_ok _ _ _ _ _ (walk_to_l1_spec s3 _ page l1 V3 L3)).
  rewrite (st_bind_eq _ _ _ (read_entry (ram s3) l1 (p1_index page)) s3) by done.
  assert (vacant s3 page) as Hv3 by (by apply (vacant_same s1 s3), (vacant_extends s s1 al al1)).
  destruct (Hv3 [p4_index page; p3_index page; p2_index page] (p1_index page) [] l1 eq_refl L3) as [He0|[Hf _]]; [|by destruct Hf].
  rewrite He0. change (merge_entry 0 fl) with (UseNew fl). cbn beta iota. destruct (final_flags_facts w x) as (Fpl & Fpr & Fu).
  destruct (place_page s3 al1 n l1 vaddr file_end page src fl) as (s5 & E5 & V5 & T5 & D5 & C5 & n' & P5 & P5'); try done.
  { intros q Hq. rewrite T3 by done. intros Hx. by apply Hni, (pi_held _ _ _ V1 q). }
  eexists (Ok tt), s5, (n :: al1). split; [done|]. split; [done|]. split; [|split].
  - apply (keeps_trans s s1 s5 al al1); [by apply keeps_extends|]. apply keeps_outside; [done|done| |].
    + intros q Hq. by rewrite T5, T3.
    + intros z Hz Hnz. rewrite D5; [by apply M3| |done].
      split; [destruct Hz as [(b & Hb' & Hbz) _]; exists b; split; [by right|done]|]. intros p y Hp. rewrite T3 by done. by apply Hz.
  - intros b Hcb Hne Hvb. apply C5; [done|done|]. eapply vacant_same; [exact T3|exact R3|]. by apply (vacant_extends s s1 al al1).
  - exists n'. split; [|done]. intros b Hcb. rewrite P5 by done. destruct (decide _); [done|].
    rewrite (same_walks_translate t off Hoff Hoff' s1 s3 _ _ b V1 V3 W3). by apply (same_walks_translate t off Hoff Hoff' s s1 al al1).
Qed.

(** ** All pages *)

(** Every address from [lo] to [hi] has the segment's byte and flags; the other
    addresses are as before. *)
Definition image_loaded (s s' : PMem) (al' : list Z) (flags vaddr file_end lo hi : Z) (src : list Z) : Prop :=
  forall a, canonical_u64 a ->
    if decide (lo <= a < hi)
    then exists z, translate_addr_in_table (Some off) (ram s') t a = Some (z, flags) /\
      ram s' z = image_byte vaddr file_end src a /\ data_byte (ram s') t al' z
    else translate_addr_in_table (Some off) (ram s') t a = translate_addr_in_table (Some off) (ram s) t a.

Lemma low_canonical a : 0 <= a < 2 ^ 47 -> canonical_u64 a.
Proof.
  intros H. split; [unfold is_u64, U64_MODULUS; lia|]. unfold canonical.
  by rewrite (proj2 (Z.ltb_lt _ _)) by lia.
Qed.

Lemma same_page a page : page mod 4096 = 0 -> a / 4096 = page / 4096 <-> page <= a < page + 4096.
Proof.
  intros Hp. pose proof (Z.div_mod a 4096 ltac:(lia)). pose proof (Z.mod_pos_bound a 4096 ltac:(lia)).
  pose proof (Z.div_mod page 4096 ltac:(lia)). split; intros; lia.
Qed.

Lemma map_pages_spec vaddr file_end src w x n s al page :
  file_end - vaddr <= Z.of_nat (length src) -> Forall is_byte src ->
  pt_inv t s al -> page mod 4096 = 0 -> 0 <= page -> page + 4096 * Z.of_nat n <= 2 ^ 47 ->
  (forall a, page <= a < page + 4096 * Z.of_nat n -> vacant s a) ->
  exists r s' al', map_pages off t vaddr file_end page src (final_flags w x) n s = Some (r, s') /\
    pt_inv t s' al' /\ keeps s s' al al' /\
    match r with
    | Ok _ => image_loaded s s' al' (final_flags w x) vaddr file_end page (page + 4096 * Z.of_nat n) src
    | Err e => e = KMemory Memory_OutOfMemory
    end.
Proof.
  intros Hs Hb. revert s al page. induction n as [|n IH]; intros s al page Hinv Hpa H0 Hhi Hv.
  { exists (Ok tt), s, al. split; [done|]. split; [done|]. split; [by intros z Hz|]. intros a Ha. by rewrite decide_False by lia. }
  cbn [map_pages].
  destruct (map_one_page_spec s al vaddr file_end page src w x) as (r & s1 & al1 & E & V1 & K1 & C1 & R1); try done.
  { apply low_canonical; lia. } { apply Hv; lia. }
  destruct r as [[]|e].
  2:{ rewrite (try_bind_err _ _ _ _ _ E). eexists _, s1, al1. destruct R1 as [-> _]. done. }
  rewrite (try_bind_ok _ _ _ _ _ E).
  destruct (IH s1 al1 (page + 4096)) as (r & s2 & al2 & E2 & V2 & K2 & R2); try done; [by rewrite <-Zplus_mod_idemp_r, Z.add_0_r|lia|lia| |].
  { intros a Ha. apply C1; [apply low_canonical; lia| |apply Hv; lia]. rewrite same_page by done. lia. }
  exists r, s2, al2. split; [done|]. split; [done|]. split; [by apply (keeps_trans s s1 s2 al al1)|].
  destruct r as [[]|e]; [|done]. destruct R1 as (f & P1 & P2). intros a Ha. specialize (R2 a Ha).
  destruct (decide (page <= a < page + 4096)) as [Hin|Hout].
  - rewrite decide_True by lia. rewrite decide_False in R2 by lia. exists (f + a mod 4096).
    rewrite P1, (decide_True _ _ (proj2 (same_page a page Hpa) Hin)) in R2 by done. split; [done|].
    destruct (P2 (a mod 4096)) as [Pm Pd]; [apply Z.mod_pos_bound; lia|]. destruct (K2 _ Pd) as [-> Dd]. split; [|done]. rewrite Pm. f_equal.
    pose proof (Z.div_mod a 4096 ltac:(lia)). pose proof (proj2 (same_page a page Hpa) Hin). pose proof (Z.div_mod page 4096 ltac:(lia)). lia.
  - rewrite P1 in R2 by done. rewrite (decide_False (P := a / 4096 = page / 4096)) in R2 by (by rewrite same_page).
    destruct (decide (page + 4096 <= a < _)); [rewrite decide_True by lia; done|rewrite decide_False by lia; done].
Qed.

(** ** The whole call *)

Lemma on_pm_eq {A} (f : ST PMem A) lm a m : f (pm lm) = Some (a, m) -> on_pm f lm = Some (a, mkLM m (temp lm)).
Proof. intros H. unfold on_pm. by rewrite H. Qed.

Lemma pages_of vaddr e : 0 <= vaddr -> vaddr < e ->
  page_down vaddr + 4096 * Z.of_nat (Z.to_nat ((page_down (e + 4095) - page_down vaddr) / 4096)) = page_down (e + 4095).
Proof.
  intros H0 H. rewrite !page_down_spec. pose proof (Z.div_mod vaddr 4096 ltac:(lia)). pose proof (Z.div_mod (e + 4095) 4096 ltac:(lia)).
  pose proof (Z.mod_pos_bound vaddr 4096 ltac:(lia)). pose proof (Z.mod_pos_bound (e + 4095) 4096 ltac:(lia)).
  replace (e + 4095 - (e + 4095) mod 4096 - (vaddr - vaddr mod 4096)) with ((((e + 4095) / 4096) - vaddr / 4096) * 4096) by lia.
  rewrite Z.div_mul by lia. lia.
Qed.

Lemma load_spec lm al vaddr filesz memsz src w x :
  pt_inv t (pm lm) al -> temp lm = None -> 0 <= vaddr -> 0 <= filesz <= memsz -> 0 < memsz -> vaddr + memsz < 2 ^ 47 ->
  filesz <= Z.of_nat (length src) -> Forall is_byte src -> w && x = false ->
  (forall a, page_down vaddr <= a < page_down (vaddr + memsz + 4095) -> vacant (pm lm) a) ->
  exists r lm' al', map_and_copy_segment_to (Some off) true false t vaddr filesz memsz src w x lm = Some (r, lm') /\
    pt_inv t (pm lm') al' /\ keeps (pm lm) (pm lm') al al' /\
    match r with
    | Ok _ => temp lm' = None /\ image_loaded (pm lm) (pm lm') al' (final_flags w x) vaddr (vaddr + filesz)
                (page_down vaddr) (page_down (vaddr + memsz + 4095)) src
    | Err e => e = KMemory Memory_OutOfMemory /\ temp lm' = Some t
    end.
Proof.
  intros Hinv Htemp H0 Hf Hm Hhi Hsrc Hb Hwx Hv. unfold map_and_copy_segment_to. rewrite Hwx.
  rewrite (proj2 (Z.eqb_neq memsz 0)) by lia.
  rewrite (proj2 (Z.ltb_ge memsz filesz)), (proj2 (Z.ltb_ge (Z.of_nat (length src)) filesz)) by lia. cbn [orb].
  rewrite (proj2 (checked_add64_Some vaddr filesz _)) by (split; [reflexivity|unfold U64_MODULUS; lia]).
  rewrite (proj2 (checked_add64_Some vaddr memsz _)) by (split; [reflexivity|unfold U64_MODULUS; lia]). cbn [negb].
  destruct (pi_alloc _ _ _ Hinv) as (fa & fl & Hfr & _ & _).
  rewrite (try_bind_ok _ _ _ tt (mkLM (pm lm) (Some t))).
  2:{ unfold map_temp. rewrite Hfr, Htemp. done. }
  rewrite (st_bind_eq _ _ _ tt (mkLM (pm lm) (Some t))) by (unfold temp_is; by rewrite bool_decide_true).
  assert (forall a, page_down a <= a) as Hpd.
  { intros a. rewrite page_down_spec. pose proof (Z.mod_pos_bound a 4096 ltac:(lia)). lia. }
  pose proof (Hpd vaddr) as Hpv. pose proof (page_down_spec (vaddr + memsz + 4095)) as Hpe.
  pose proof (Z.mod_pos_bound (vaddr + memsz + 4095) 4096 ltac:(lia)) as Hpm.
  destruct (ensure_spec (pm lm) al vaddr Hinv) as (r1 & s1 & al1 & E1 & V1 & X1 & W1 & R1); [apply vacant_upper, Hv; lia|].
  pose proof (on_pm_eq _ (mkLM (pm lm) (Some t)) _ _ E1) as E1'. cbn [temp] in E1'. destruct r1 as [[]|e].
  2:{ rewrite (try_bind_err _ _ _ _ _ E1'). eexists _, _, al1. split; [done|]. split; [done|]. split; [by apply keeps_extends|done]. }
  rewrite (try_bind_ok _ _ _ _ _ E1').
  destruct (ensure_spec s1 al1 (vaddr + memsz - 1) V1) as (r2 & s2 & al2 & E2 & V2 & X2 & W2 & R2).
  { apply vacant_upper, (vacant_extends _ _ _ _ _ X1), Hv. lia. }
  pose proof (extends_trans t _ _ _ _ _ _ V1 X1 X2) as X12. pose proof (same_walks_trans t _ _ _ W1 W2) as W12.
  pose proof (on_pm_eq _ (mkLM s1 (Some t)) _ _ E2) as E2'. cbn [temp] in E2'. destruct r2 as [[]|e].
  2:{ rewrite (try_bind_err _ _ _ _ _ E2'). eexists _, _, al2. split; [done|]. split; [done|]. split; [by apply keeps_extends|done]. }
  rewrite (try_bind_ok _ _ _ _ _ E2').
  rewrite (proj2 (checked_add64_Some (vaddr + memsz) 4095 _)) by (split; [reflexivity|unfold U64_MODULUS; lia]).
  pose proof (pages_of vaddr (vaddr + memsz) H0 ltac:(lia)) as Hn. set (n := Z.to_nat _) in *.
  destruct (map_pages_spec vaddr (vaddr + filesz) src w x n s2 al2 (page_down vaddr)) as (r3 & s3 & al3 & E3 & V3 & K3 & R3); try done; try lia.
  { rewrite page_down_spec. pose proof (Z.mod_divide (vaddr - vaddr mod 4096) 4096). rewrite Zminus_mod, Z.mod_mod, Z.sub_diag by lia. done. }
  { rewrite page_down_spec. pose proof (Z.mod_le vaddr 4096 H0 ltac:(lia)). lia. }
  { rewrite Hn. pose proof (Z.div_mod (vaddr + memsz + 4095) 4096 ltac:(lia)). lia. }
  { rewrite Hn. intros a Ha. by apply (vacant_extends _ _ _ _ _ X12), Hv. }
  rewrite Hn in R3.
  pose proof (on_pm_eq _ (mkLM s2 (Some t)) _ _ E3) as E3'. cbn [temp] in E3'.
  pose proof (keeps_trans _ _ _ _ _ _ (keeps_extends _ _ _ _ V2 X12) K3) as K.
  destruct r3 as [[]|e].
  - rewrite (try_bind_ok _ _ _ _ _ E3'). eexists (Ok tt), _, al3. split; [done|]. split; [done|]. split; [done|]. split; [done|].
    intros a Ha. specialize (R3 a Ha). cbn [pm]. destruct (decide _); [done|]. rewrite R3. by apply (same_walks_translate t off Hoff Hoff' _ s2 al al2).
  - rewrite (try_bind_err _ _ _ _ _ E3'). eexists _, _, al3. done.
Qed.
End loader.

(** C2. Loading a segment builds its image.  In an address space whose tables are
    distinct frames held by the kernel, where nothing is mapped on the pages of
    the segment, [map_and_copy_segment_to] returns without a panic and keeps that
    invariant and the contents of all other frames in use.  On success every
    address of the segment's pages translates to a byte, with exactly the
    requested permissions: the file's byte where the file reaches, and zero before
    it, after it and in the rest of the last page; no other translation changes.
    The only error is exhaustion of frames. *)
Theorem segment_load_builds_image (off t : Z) (lm : LMem) (al : list Z) (vaddr filesz memsz : Z) (src : list Z) (w x : bool) :
  0 <= off -> off + 2 ^ 52 <= U64_MODULUS -> pt_inv t (pm lm) al -> temp lm = None ->
  0 <= vaddr -> 0 <= filesz <= memsz -> 0 < memsz -> vaddr + memsz < 2 ^ 47 ->
  filesz <= Z.of_nat (length src) -> Forall is_byte src -> w && x = false ->
  (forall a, page_down vaddr <= a < page_down (vaddr + memsz + 4095) -> vacant t (pm lm) a) ->
  exists r lm' al', map_and_copy_segment_to (Some off) true false t vaddr filesz memsz src w x lm = Some (r, lm') /\
    pt_inv t (pm lm') al' /\ (forall z, data_byte (ram (pm lm)) t al z -> ram (pm lm') z = ram (pm lm) z) /\
    match r with
    | Ok _ =>
        temp lm' = None /\
        forall a, canonical_u64 a ->
          if decide (page_down vaddr <= a < page_down (vaddr + memsz + 4095))
          then exists z, translate_addr_in_table (Some off) (ram (pm lm')) t a = Some (z, final_flags w x) /\
            ram (pm lm') z = if decide (vaddr <= a < vaddr + filesz) then src !!! Z.to_nat (a - vaddr) else 0
          else translate_addr_in_table (Some off) (ram (pm lm')) t a = translate_addr_in_table (Some off) (ram (pm lm)) t a
    | Err e => e = KMemory Memory_OutOfMemory
    end.
Proof.
  intros Ho Ho' Hinv Ht H0 Hf Hm Hhi Hsrc Hb Hwx Hv.
  destruct (load_spec off t Ho Ho' lm al vaddr filesz memsz src w x) as (r & lm' & al' & E & V & K & R); try done.
  exists r, lm', al'. split; [done|]. split; [done|]. split; [intros z Hz; by apply K|].
  destruct r as [[]|e]; [|by destruct R]. destruct R as [Ht' R]. split; [done|]. intros a Ha. specialize (R a Ha).
  destruct (decide (page_down vaddr <= a < _)); [|done]. destruct R as (z & Hz & Hr & _). exists z. split; [done|].
  rewrite Hr. unfold image_byte.
  destruct (Z.leb_spec vaddr a), (Z.ltb_spec a (vaddr + filesz)), (decide (vaddr <= a < vaddr + filesz)); done || lia.
Qed.

Lemma blank_vacant size a : vacant 1048576 (blank_of size) a.
Proof. intros p i r y _ _. by left. Qed.

(** A segment of three bytes in the file and two pages in memory. *)
Lemma segment_load_builds_image_witness :
  exists lm' z, map_and_copy_segment_to (Some 0) true false 1048576 4198395 3 5000 [7; 8; 9] false true (mkLM blank None) = Some (Ok tt, lm') /\
    translate_addr_in_table (Some 0) (ram (pm lm')) 1048576 4198397 = Some (z, 5) /\ ram (pm lm') z = 9.
Proof.
  assert (page_down 4198395 <= 4198397 < page_down (4198395 + 5000 + 4095)) as Hin by (vm_compute; done).
  assert (fst <$> map_and_copy_segment_to (Some 0) true false 1048576 4198395 3 5000 [7; 8; 9] false true (mkLM blank None) = Some (Ok tt)) as Hr
    by (vm_compute; reflexivity).
  destruct (segment_load_builds_image 0 1048576 (mkLM blank None) [1048576] 4198395 3 5000 [7; 8; 9] false true)
    as (r & lm' & al' & E & _ & _ & H);
    [done|done|exact blank_inv|done|lia|lia|lia|lia|cbn; lia|repeat constructor; lia|done|intros a _; apply blank_vacant|].
  rewrite E in Hr. injection Hr as ->. destruct H as [_ H]. specialize (H 4198397 (low_canonical 4198397 ltac:(lia))).
  destruct (decide (page_down 4198395 <= _ < _)) as [_|Hn]; [|exact (False_ind _ (Hn Hin))]. destruct H as (z & Hz & Hv). exists lm', z. split; [exact E|]. split; [exact Hz|exact Hv].
Defined.

(** ** Error paths *)

(** A failed load blocks every later one.  When [map_and_copy_segment_to] runs
    out of frames it returns with the mapping at the fixed kernel address still in
    place; from then on, whatever happens to memory, every load of a segment that
    is not empty fails with [InvalidAddress] and does nothing. *)
Theorem failed_load_blocks_loading (off t : Z) (lm lm' : LMem) (al : list Z) (vaddr filesz memsz : Z) (src : list Z) (w x : bool) (e : Kernel) :
  0 <= off -> off + 2 ^ 52 <= U64_MODULUS -> pt_inv t (pm lm) al -> temp lm = None ->
  0 <= vaddr -> 0 <= filesz <= memsz -> 0 < memsz -> vaddr + memsz < 2 ^ 47 ->
  filesz <= Z.of_nat (length src) -> Forall is_byte src -> w && x = false ->
  (forall a, page_down vaddr <= a < page_down (vaddr + memsz + 4095) -> vacant t (pm lm) a) ->
  map_and_copy_segment_to (Some off) true false t vaddr filesz memsz src w x lm = Some (Err e, lm') ->
  forall (lm2 : LMem) t2 vaddr2 filesz2 memsz2 src2 w2 x2,
    temp lm2 = temp lm' -> is_Some (frames (pm lm2)) ->
    w2 && x2 = false -> 0 < memsz2 -> filesz2 <= memsz2 -> filesz2 <= Z.of_nat (length src2) ->
    vaddr2 + filesz2 < U64_MODULUS -> vaddr2 + memsz2 < U64_MODULUS ->
    map_and_copy_segment_to (Some off) true false t2 vaddr2 filesz2 memsz2 src2 w2 x2 lm2 =
    Some (Err (KMemory Memory_InvalidAddress), lm2).
Proof.
  intros Ho Ho' Hinv Ht H0 Hf Hm Hhi Hsrc Hb Hwx Hv E lm2 t2 v2 f2 m2 src2 w2 x2 Htemp [fa Hfr] Hwx2 Hm2 Hf2 Hs2 Hv2 Hv2'.
  destruct (load_spec off t Ho Ho' lm al vaddr filesz memsz src w x) as (r & lm'' & al' & E' & _ & _ & R); try done.
  rewrite E in E'. injection E' as <- <-. destruct R as [_ R]. unfold map_and_copy_segment_to. rewrite Hwx2.
  rewrite (proj2 (Z.eqb_neq m2 0)) by lia.
  rewrite (proj2 (Z.ltb_ge m2 f2)), (proj2 (Z.ltb_ge (Z.of_nat (length src2)) f2)) by lia. cbn [orb].
  rewrite (proj2 (checked_add64_Some v2 f2 _)) by done. rewrite (proj2 (checked_add64_Some v2 m2 _)) by done. cbn [negb].
  apply try_bind_err. unfold map_temp. by rewrite Hfr, Htemp, R.
Qed.

(** Two frames of memory: the root and one more. *)
Lemma failed_load_blocks_loading_witness :
  exists lm', map_and_copy_segment_to (Some 0) true false 1048576 4194304 3 4096 [7; 8; 9] false true (mkLM (blank_of 8192) None) =
      Some (Err (KMemory Memory_OutOfMemory), lm') /\
    map_and_copy_segment_to (Some 0) true false 1048576 4194304 3 4096 [7; 8; 9] false true (mkLM blank (temp lm')) =
      Some (Err (KMemory Memory_InvalidAddress), mkLM blank (temp lm')).
Proof.
  assert (fst <$> map_and_copy_segment_to (Some 0) true false 1048576 4194304 3 4096 [7; 8; 9] false true (mkLM (blank_of 8192) None) =
    Some (Err (KMemory Memory_OutOfMemory))) as Hr by (vm_compute; reflexivity).
  pose proof (fun lm' => failed_load_blocks_loading 0 1048576 (mkLM (blank_of 8192) None) lm' [1048576] 4194304 3 4096 [7; 8; 9] false true
    (KMemory Memory_OutOfMemory) ltac:(lia) ltac:(done) (blank_of_inv 8192 (or_introl eq_refl)) eq_refl ltac:(lia) ltac:(lia) ltac:(lia) ltac:(lia)
    ltac:(cbn; lia) ltac:(repeat constructor; lia) eq_refl (fun a _ => blank_vacant 8192 a)) as H.
  destruct (map_and_copy_segment_to (Some 0) true false 1048576 4194304 3 4096 [7; 8; 9] false true (mkLM (blank_of 8192) None)) as [[r lm']|];
    [|discriminate Hr].
  injection Hr as ->. exists lm'. split; [reflexivity|].
  apply (H lm' eq_refl); [reflexivity|by eexists|reflexivity|lia|lia|cbn; lia|reflexivity|reflexivity].
Defined.

(** ** Writable and executable pages *)

Definition wx (f : Z) : bool := has f WRITABLE && negb (has f NO_EXECUTE).

Definition entered (d : merge) (f : Z) : Prop := d = UseNew f \/ exists old, d = KeepOld old f.

Lemma with_exec_nx f : has (with_exec f) NO_EXECUTE = false.
Proof.
  unfold with_exec, has. assert (Z.land (Z.ldiff f NO_EXECUTE) NO_EXECUTE = 0) as ->; [|done].
  apply Z.bits_inj'. intros k Hk. rewrite Z.land_spec, Z.ldiff_spec, Z.bits_0.
  destruct (Z.testbit f k), (Z.testbit NO_EXECUTE k); done.
Qed.

(** When a page becomes writable and executable.  For a request that is not
    both, the merge with the entry already there makes the page writable and
    executable in exactly one case: the entry belongs to the kernel (it is not
    user accessible), it is executable, and the request is for a writable page.
    For entries of the user the two permissions are always kept apart. *)
Theorem merge_writable_executable_exact (existing flags : Z) :
  wx flags = false ->
  (exists f, entered (merge_entry existing flags) f /\ wx f = true) <->
  is_unused existing = false /\ has (entry_flags existing) USER_ACCESSIBLE = false /\
  has (entry_flags existing) NO_EXECUTE = false /\ has flags WRITABLE = true.
Proof.
  intros Hf. assert (has (with_exec flags) WRITABLE = has flags WRITABLE) as Hw by (by apply has_ldiff_other).
  assert (forall d f, entered d f -> match d with UseNew g | KeepOld _ g => f = g | Conflict => False end) as Hent.
  { intros d f [-> | [old ->]]; done. }
  unfold merge_entry. destruct (is_unused existing) eqn:Eu.
  { split; [|by intros [? _]]. intros (f & ->%Hent & E). congruence. }
  destruct (has (entry_flags existing) USER_ACCESSIBLE) eqn:Euser; cbn [negb].
  - split; [|by intros (_ & ? & _)]. intros (f & Hd & E). exfalso.
    unfold wx in Hf, E. destruct (has (entry_flags existing) NO_EXECUTE), (has (entry_flags existing) WRITABLE), (has flags WRITABLE) eqn:Ew,
      (has flags NO_EXECUTE) eqn:Ex; cbn [negb andb orb] in *; try done; apply Hent in Hd; try done; subst f;
      rewrite ?Hw, ?with_exec_nx, ?Ew, ?Ex in E; done.
  - destruct (has (entry_flags existing) NO_EXECUTE) eqn:Enx.
    + split; [|by intros (_ & _ & ? & _)]. intros (f & ->%Hent & E). congruence.
    + split.
      * intros (f & ->%Hent & E). unfold wx in E. apply andb_prop in E as [E _]. by rewrite Hw in E.
      * intros (_ & _ & _ & Ew). exists (with_exec flags). split; [by left|]. unfold wx. by rewrite Hw, Ew, with_exec_nx.
Qed.

(** A kernel page mapped at 2 MiB for execution, and a request to write there. *)
Lemma merge_writable_executable_exact_witness :
  exists f, entered (merge_entry (mk_entry 2097152 3) (final_flags true false)) f /\ wx f = true.
Proof. apply (merge_writable_executable_exact (mk_entry 2097152 3) (final_flags true false)); [reflexivity|repeat split]. Defined.
End SegmentProps.
