(* ===== verification/UserTable.v ===== *)
(** Creating an address space: [create_user_page_table] and the two cloning
    functions of [src/core/mem/paging.rs].

    A new root has at most its first entry: the first GiB of the kernel's own
    mapping, copied level by level without the entries of the user.  [None] is a
    panic. *)

From Stdlib Require Import ZArith Lia.
From stdpp Require Import base list option numbers sets.
From S2P Require Import Prelude State Types UserMem Mem Frame Paging PageTree PageTables.
Import Mem Result Paging PageTree PageTables.

Local Open Scope Z_scope.
Local Open Scope kernel_scope.

Module UserTable.

(** [frame::allocate_frame()?], then [zero()] through the direct map. *)
Definition zeroed_table (off : Z) : PT Z :=
  n ←? allocate_frame;
  as_table off n ≫= fun _ =>
  zero_page n ≫= fun _ => mret (Ok n).

(** [for x in l { f(x)?; }] *)
Fixpoint try_each (l : list Z) (f : Z -> PT unit) : PT unit :=
  match l with
  | [] => mret (Ok tt)
  | x :: l => _ ←? f x; try_each l f
  end.

Definition clone_kernel_l1_table_without_user_entries (off src : Z) : PT Z :=
  as_table off src ≫= fun _ =>
  new_l1 ←? zeroed_table off;
  sfor (indices 512) (fun i =>
    get_entry src i ≫= fun e =>
    if absent e then mret tt
    else if has (entry_flags e) USER_ACCESSIBLE then mret tt
    else put_entry new_l1 i e) ≫= fun _ =>
  mret (Ok new_l1).

Definition clone_kernel_l2_table_without_user_entries (off src : Z) : PT Z :=
  as_table off src ≫= fun _ =>
  new_l2 ←? zeroed_table off;
  _ ←? try_each (indices 512) (fun i =>
    get_entry src i ≫= fun e =>
    if absent e then mret (Ok tt)
    else if has (entry_flags e) HUGE_PAGE then
      (if has (entry_flags e) USER_ACCESSIBLE then mret tt else put_entry new_l2 i e) ≫= fun _ => mret (Ok tt)
    else
      new_l1 ←? clone_kernel_l1_table_without_user_entries off (entry_addr e);
      set_addr new_l2 i new_l1 (entry_flags e) ≫= fun _ => mret (Ok tt));
  mret (Ok new_l2).

(** The first GiB: a copy of the level-2 table below [l3]. *)
Definition fill_l3 (off l3 e3 : Z) : PT unit :=
  if is_unused e3 then mret (Ok tt)
  else
    new_l2 ←? clone_kernel_l2_table_without_user_entries off (entry_addr e3);
    set_addr l3 0 new_l2 (entry_flags e3) ≫= fun _ => mret (Ok tt).

(** The first entry of the root: a table with the kernel's first GiB. *)
Definition copy_low_half (off kernel_l4 new_l4 : Z) : PT unit :=
  get_entry kernel_l4 0 ≫= fun e4 =>
  if is_unused e4 then mret (Ok tt)
  else
    as_table off (entry_addr e4) ≫= fun _ =>
    new_l3 ←? zeroed_table off;
    get_entry (entry_addr e4) 0 ≫= fun e3 =>
    _ ←? fill_l3 off new_l3 e3;
    set_addr new_l4 0 new_l3 (entry_flags e4) ≫= fun _ => mret (Ok tt).

(** A second copy of the lowest level-2 table, with an empty table for the 2 MiB at
    0x800000. *)
Definition prepare_user_code (off new_l4 : Z) : PT unit :=
  get_entry new_l4 0 ≫= fun e4 =>
  let user_l3 := entry_addr e4 in
  if user_l3 =? 0 then mret (Ok tt)
  else
    as_table off user_l3 ≫= fun _ =>
    new_l2 ←? zeroed_table off;
    get_entry user_l3 0 ≫= fun e3 =>
    (if is_unused e3 then mret tt
     else
       as_table off (entry_addr e3) ≫= fun _ =>
       sfor (indices 512) (fun i =>
         get_entry (entry_addr e3) i ≫= fun e =>
         if negb (is_unused e) && negb (has (entry_flags e) USER_ACCESSIBLE) then put_entry new_l2 i e else mret tt)) ≫= fun _ =>
    new_l1 ←? zeroed_table off;
    set_addr new_l2 4 new_l1 (table_flags true) ≫= fun _ =>
    set_addr user_l3 0 new_l2 (table_flags false) ≫= fun _ =>
    mret (Ok tt).

Definition create_user_page_table (phys_offset : option Z) (kernel_l4 : Z) : PT Z :=
  match phys_offset with
  | None => fail (KMemory Memory_NotMapped)
  | Some off =>
      if kernel_l4 =? 0 then fail (KMemory Memory_NotMapped)
      else
        as_table off kernel_l4 ≫= fun _ =>
        new_l4 ←? zeroed_table off;
        _ ←? copy_low_half off kernel_l4 new_l4;
        _ ←? prepare_user_code off new_l4;
        mret (Ok new_l4)
  end.

(** ** What the construction may touch *)

(** The frames [al] have kept their contents. *)
Definition kept (al : list Z) (s s' : PMem) : Prop := forall b z, b ∈ al -> in_frame b z -> ram s' z = ram s z.

Lemma sub_cons (n : Z) al : al ⊆ n :: al.
Proof. intros x Hx. by right. Qed.

Lemma sub_tail (n : Z) al al' : n :: al ⊆ al' -> al ⊆ al'.
Proof. intros H x Hx. apply H. by right. Qed.

Lemma kept_refl al s : kept al s s.
Proof. by intros b z. Qed.

Lemma kept_trans al al' s1 s2 s3 : al ⊆ al' -> kept al s1 s2 -> kept al' s2 s3 -> kept al s1 s3.
Proof. intros Hs H1 H2 b z Hb Hz. rewrite (H2 b z) by auto. by apply (H1 b). Qed.

Lemma kept_entry al s s' x i : kept al s s' -> x ∈ al -> idx i -> read_entry (ram s') x i = read_entry (ram s) x i.
Proof. intros H Hx Hi. apply read_entry_ext; [done|]. intros z Hz. by apply (H x). Qed.


Lemma kept_outside al s s' n :
  sound s' (n :: al) -> n ∉ al -> (forall z, ~ in_frame n z -> ram s' z = ram s z) -> kept al s s'.
Proof.
  intros Hs Hn H b z Hb Hz. apply H. destruct (sound_frame s' (n :: al) b Hs) as [Hba _]; [by right|].
  destruct (sound_frame s' (n :: al) n Hs) as [Hna _]; [left|]. apply (frames_apart b); [done|done|congruence|done].
Qed.

(** The owner of a table writes an entry. *)
Lemma sound_written s al x i e :
  sound s al -> x ∈ al -> idx i ->
  sound (written s x i e) al /\ (forall al0, al0 ⊆ al -> x ∉ al0 -> kept al0 s (written s x i e)).
Proof.
  intros Hs Hx Hi. unfold idx in Hi. split.
  - unfold written, write_entry, write_u64. apply sound_store; [done|done|lia|rewrite to_le_bytes_length; lia|apply to_le_bytes_byte].
  - intros al0 Hsub Hn b z Hb Hz. unfold written. cbn [ram].
    destruct (sound_frame s al b Hs) as [Hba _]; [by apply Hsub|]. destruct (sound_frame s al x Hs Hx) as [Hxa _].
    assert (~ in_frame x z) as Ha by (apply (frames_apart b); [done|done|congruence|done]). unfold in_frame in Ha.
    apply write_entry_other; [done|lia].
Qed.

Section creation.
Context (off : Z) (Hoff' : off + 2 ^ 52 <= U64_MODULUS).

Lemma as_table_ok p s : p < 2 ^ 52 -> as_table off p s = Some (tt, s).
Proof. intros Hp. unfold as_table, reachable. by rewrite (proj2 (checked_add64_Some p off (p + off))) by lia. Qed.

Lemma zeroed_table_spec s al :
  sound s al ->
  zeroed_table off s = Some (Err (KMemory Memory_OutOfMemory), s) \/
  exists n s', zeroed_table off s = Some (Ok n, s') /\ n ∉ al /\ sound s' (n :: al) /\ kept al s s' /\
    forall i, idx i -> read_entry (ram s') n i = 0.
Proof.
  intros Hs. unfold zeroed_table. destruct (sound_allocate s al Hs) as [E|(n & s1 & E & Hn & Hs1 & Hm)].
  { left. by rewrite (try_bind_err _ _ _ _ _ E). }
  right. rewrite (try_bind_ok _ _ _ _ _ E). destruct (sound_frame s1 (n :: al) n Hs1) as [Hna Hnr]; [left|].
  rewrite (st_bind_eq _ _ _ tt s1) by (apply as_table_ok; lia).
  assert (sound (mkPM (frames s1) (zero (ram s1) n 4096)) (n :: al)) as Hs2.
  { unfold zero. replace n with (n + 0) at 1 by lia. apply sound_store; [done|left|done|by rewrite length_replicate|].
    apply Forall_replicate. unfold is_byte. lia. }
  exists n, (mkPM (frames s1) (zero (ram s1) n 4096)). split; [done|]. split; [done|]. split; [done|]. split.
  - apply (kept_outside al _ _ n Hs2 Hn). intros z Hz. cbn [ram]. rewrite <-Hm by done. unfold in_frame in Hz.
    apply store_out. rewrite length_replicate. lia.
  - intros i Hi. by apply read_zeroed.
Qed.

(** A construction that ends with a new frame, and leaves the frames that were in
    use alone. *)
Definition builds (m : PT Z) (s : PMem) (al : list Z) : Prop :=
  exists r s' al', m s = Some (r, s') /\ sound s' al' /\ al ⊆ al' /\ kept al s s' /\
    match r with Ok n => n ∈ al' /\ n ∉ al | Err e => e = KMemory Memory_OutOfMemory end.

Lemma try_each_inv (I : PMem -> Prop) (f : Z -> PT unit) l s :
  I s ->
  (forall x s, x ∈ l -> I s -> exists r s', f x s = Some (r, s') /\ I s' /\ match r with Ok _ => True | Err e => e = KMemory Memory_OutOfMemory end) ->
  exists r s', try_each l f s = Some (r, s') /\ I s' /\ match r with Ok _ => True | Err e => e = KMemory Memory_OutOfMemory end.
Proof.
  revert s. induction l as [|x l IH]; intros s Hs Hf; cbn [try_each]; [by exists (Ok tt), s|].
  destruct (Hf x s) as (r & s1 & E & Hs1 & Hr); [left|done|]. destruct r as [[]|e].
  - rewrite (try_bind_ok _ _ _ _ _ E). apply IH; [done|]. intros y s2 Hy. apply Hf. by right.
  - rewrite (try_bind_err _ _ _ _ _ E). eexists _, s1. done.
Qed.

Lemma indices_idx n i : (n <= 512)%nat -> i ∈ indices n -> idx i.
Proof. intros Hn (k & -> & Hk)%list_elem_of_fmap. apply elem_of_seq in Hk. unfold idx. lia. Qed.

(** A loop that writes entries of the frame [n] keeps the frames [al]. *)
Lemma fill_table s al al0 n (g : Z -> Z -> bool) (src : Z) l :
  sound s al -> n ∈ al -> al0 ⊆ al -> n ∉ al0 -> (forall i, i ∈ l -> idx i) ->
  exists s', sfor l (fun i => get_entry src i ≫= fun e => if g i e then put_entry n i e else mret tt) s = Some (tt, s') /\
    sound s' al /\ kept al0 s s'.
Proof.
  intros Hs Hn Hsub Hn0. revert s Hs. induction l as [|i l IH]; intros s Hs Hl; cbn [sfor]; [by exists s|].
  rewrite (st_bind_eq _ _ _ tt (if g i (read_entry (ram s) src i) then written s n i (read_entry (ram s) src i) else s)).
  2:{ rewrite (st_bind_eq _ _ _ (read_entry (ram s) src i) s) by done. by destruct (g i _). }
  destruct (g i _).
  - destruct (sound_written s al n i (read_entry (ram s) src i) Hs Hn) as [Hs1 Hk]; [apply Hl; left|].
    destruct (IH _ Hs1) as (s' & E & Hs' & Hk'); [intros j Hj; apply Hl; by right|]. exists s'. split; [done|]. split; [done|].
    by apply (kept_trans al0 al0 _ _ _ ltac:(done) (Hk al0 Hsub Hn0)).
  - apply IH; [done|]. intros j Hj. apply Hl. by right.
Qed.

Lemma clone_l1_builds s al src : sound s al -> src < 2 ^ 52 -> builds (clone_kernel_l1_table_without_user_entries off src) s al.
Proof.
  intros Hs Hsrc. unfold builds, clone_kernel_l1_table_without_user_entries.
  rewrite (st_bind_eq _ _ _ tt s) by (by apply as_table_ok).
  destruct (zeroed_table_spec s al Hs) as [E|(n & s1 & E & Hn & Hs1 & Hk & _)].
  { rewrite (try_bind_err _ _ _ _ _ E). eexists _, s, al. split; [done|]. split; [done|]. split; [done|]. split; [apply kept_refl|done]. }
  rewrite (try_bind_ok _ _ _ _ _ E).
  destruct (fill_table s1 (n :: al) al n (fun _ e => negb (absent e) && negb (has (entry_flags e) USER_ACCESSIBLE)) src (indices 512))
    as (s2 & E2 & Hs2 & Hk2); [done|left|apply sub_cons|done|intros i; by apply indices_idx|].
  rewrite (st_bind_eq _ _ _ tt s2).
  2:{ rewrite <-E2. apply sfor_ext. intros i s3. rewrite !(st_bind_eq _ _ _ (read_entry (ram s3) src i) s3) by done.
      by destruct (absent _), (has _ USER_ACCESSIBLE). }
  eexists (Ok n), s2, (n :: al). split; [done|]. split; [done|]. split; [apply sub_cons|]. split; [|split; [left|done]].
  by apply (kept_trans al al _ s1).
Qed.

Lemma entry_u64 s al x i : sound s al -> is_u64 (read_entry (ram s) x i).
Proof. intros H. apply read_u64_range, (so_mem _ _ H). Qed.

(** A table whose address is entered with the flags of another entry. *)
Lemma set_addr_sound s al x i n f :
  sound s al -> x ∈ al -> n ∈ al -> idx i ->
  set_addr x i n f s = Some (tt, written s x i (mk_entry n f)) /\ sound (written s x i (mk_entry n f)) al /\
  (forall al0, al0 ⊆ al -> x ∉ al0 -> kept al0 s (written s x i (mk_entry n f))).
Proof.
  intros Hs Hx Hn Hi. destruct (sound_frame s al n Hs Hn) as [Hna Hnr]. split; [apply set_addr_written; [done|lia]|]. by apply sound_written.
Qed.

Lemma clone_l2_builds s al src : sound s al -> src < 2 ^ 52 -> builds (clone_kernel_l2_table_without_user_entries off src) s al.
Proof.
  intros Hs Hsrc. unfold builds, clone_kernel_l2_table_without_user_entries.
  rewrite (st_bind_eq _ _ _ tt s) by (by apply as_table_ok).
  destruct (zeroed_table_spec s al Hs) as [E|(n & s1 & E & Hn & Hs1 & Hk & _)].
  { rewrite (try_bind_err _ _ _ _ _ E). eexists _, s, al. split; [done|]. split; [done|]. split; [done|]. split; [apply kept_refl|done]. }
  rewrite (try_bind_ok _ _ _ _ _ E).
  match goal with |- context [try_each (indices 512) ?f] =>
    destruct (try_each_inv (fun s2 => exists al2, sound s2 al2 /\ n :: al ⊆ al2 /\ kept al s s2) f (indices 512) s1)
      as (r & s2 & E2 & (al2 & Hs2 & Hsub & Hk2) & Hr) end.
  - exists (n :: al). split; [done|]. split; [done|]. done.
  - intros i s2 Hi%indices_idx (al2 & Hs2 & Hsub & Hk2); [|done]. rewrite (st_bind_eq _ _ _ (read_entry (ram s2) src i) s2) by done.
    set (e := read_entry (ram s2) src i) in *. destruct (absent e); [exists (Ok tt), s2; split; [done|]; split; [by exists al2|done]|].
    assert (n ∈ al2) as Hn2 by (apply Hsub; left). pose proof (sub_tail _ _ _ Hsub) as Hal2.
    destruct (has (entry_flags e) HUGE_PAGE).
    + destruct (has (entry_flags e) USER_ACCESSIBLE); [exists (Ok tt), s2; split; [done|]; split; [by exists al2|done]|].
      destruct (sound_written s2 al2 n i e Hs2 Hn2 Hi) as [Hs3 Hk3]. exists (Ok tt), (written s2 n i e). split; [done|]. split; [|done].
      exists al2. split; [done|]. split; [done|]. by apply (kept_trans al al _ s2 _ ltac:(done) Hk2), Hk3.
    + pose proof (entry_addr_range e) as He.
      destruct (clone_l1_builds s2 al2 (entry_addr e) Hs2 ltac:(lia)) as (r & s3 & al3 & E3 & Hs3 & Hsub3 & Hk3 & Hr).
      destruct r as [l1|er].
      * rewrite (try_bind_ok _ _ _ _ _ E3). destruct Hr as [Hl1 _].
        destruct (set_addr_sound s3 al3 n i l1 (entry_flags e) Hs3 (Hsub3 _ Hn2) Hl1 Hi) as (E4 & Hs4 & Hk4).
        rewrite (st_bind_eq _ _ _ _ _ E4). eexists (Ok tt), _. split; [done|]. split; [|done]. exists al3. split; [done|]. split; [by transitivity al2|].
        apply (kept_trans al al _ s3 _ ltac:(done)); [by apply (kept_trans al al2 _ s2)|]. apply Hk4; [by transitivity al2|done].
      * rewrite (try_bind_err _ _ _ _ _ E3). eexists (Err er), s3. split; [done|]. split; [|done]. exists al3. split; [done|]. split; [by transitivity al2|].
        by apply (kept_trans al al2 _ s2).
  - destruct r as [[]|er].
    + rewrite (try_bind_ok _ _ _ _ _ E2). eexists (Ok n), s2, al2. split; [done|]. split; [done|]. split; [by apply (sub_tail n)|]. split; [done|].
      split; [apply Hsub; left|done].
    + rewrite (try_bind_err _ _ _ _ _ E2). eexists (Err er), s2, al2. split; [done|]. split; [done|]. split; [by apply (sub_tail n)|]. done.
Qed.

(** Entries of a table other than the one written. *)
Lemma written_entry s al x i e y j :
  sound s al -> x ∈ al -> y ∈ al -> idx i -> idx j -> x <> y \/ i <> j ->
  read_entry (ram (written s x i e)) y j = read_entry (ram s) y j.
Proof.
  intros Hs Hx Hy Hi Hj Hne. destruct (sound_frame s al x Hs Hx) as [Hxa _]. destruct (sound_frame s al y Hs Hy) as [Hya _].
  unfold written. cbn [ram]. by apply read_write_entry_other.
Qed.

(** The root has at most its first entry, a table with at most its first entry. *)
Record low_shape (s : PMem) (t l3 f : Z) : Prop := {
  ls_root : forall i, idx i -> i <> 0 -> read_entry (ram s) t i = 0;
  ls_first : read_entry (ram s) t 0 = mk_entry l3 f;
  ls_plain : plain_flags f;
  ls_l3 : forall i, idx i -> i <> 0 -> read_entry (ram s) l3 i = 0;
}.

Lemma idx0 : idx 0.
Proof. unfold idx. lia. Qed.

Lemma fill_l3_spec s al l3 e3 :
  sound s al -> l3 ∈ al ->
  exists r s' al', fill_l3 off l3 e3 s = Some (r, s') /\ sound s' al' /\ al ⊆ al' /\
    (forall al0, al0 ⊆ al -> l3 ∉ al0 -> kept al0 s s') /\
    (forall i, idx i -> i <> 0 -> read_entry (ram s') l3 i = read_entry (ram s) l3 i) /\
    match r with Ok _ => True | Err e => e = KMemory Memory_OutOfMemory end.
Proof.
  intros Hs Hl3. unfold fill_l3. destruct (is_unused e3).
  { exists (Ok tt), s, al. split; [done|]. split; [done|]. split; [done|]. split; [intros; apply kept_refl|]. done. }
  pose proof (entry_addr_range e3) as He.
  destruct (clone_l2_builds s al (entry_addr e3) Hs ltac:(lia)) as (r & s1 & al1 & E & Hs1 & Hsub & Hk & Hr). destruct r as [l2|er].
  - rewrite (try_bind_ok _ _ _ _ _ E). destruct Hr as [Hl2 _].
    destruct (set_addr_sound s1 al1 l3 0 l2 (entry_flags e3) Hs1 (Hsub _ Hl3) Hl2 idx0) as (E2 & Hs2 & Hk2).
    rewrite (st_bind_eq _ _ _ _ _ E2). eexists (Ok tt), _, al1. split; [done|]. split; [done|]. split; [done|]. split; [|split; [|done]].
    + intros al0 Hal0 Hn. apply (kept_trans al0 al0 _ s1); [done| |].
      * intros b z Hb. apply Hk. by apply Hal0.
      * apply Hk2; [by transitivity al|done].
    + intros i Hi Hi0. rewrite (written_entry s1 al1) by (auto using idx0). by apply (kept_entry al).
  - rewrite (try_bind_err _ _ _ _ _ E). eexists (Err er), s1, al1. split; [done|]. split; [done|]. split; [done|]. split; [|split; [|done]].
    + intros al0 Hal0 Hn b z Hb. apply Hk. by apply Hal0.
    + intros i Hi Hi0. by apply (kept_entry al).
Qed.

Lemma copy_low_half_spec s al al0 t k :
  sound s al -> t ∈ al -> al0 ⊆ al -> t ∉ al0 -> (forall i, idx i -> read_entry (ram s) t i = 0) ->
  exists r s' al', copy_low_half off k t s = Some (r, s') /\ sound s' al' /\ al ⊆ al' /\ kept al0 s s' /\
    match r with
    | Ok _ => (forall i, idx i -> read_entry (ram s') t i = 0) \/ exists l3 f, l3 ∈ al' /\ l3 ∉ al /\ low_shape s' t l3 f
    | Err e => e = KMemory Memory_OutOfMemory
    end.
Proof.
  intros Hs Ht Hal0 Ht0 Hz. unfold copy_low_half. rewrite (st_bind_eq _ _ _ (read_entry (ram s) k 0) s) by done.
  set (e4 := read_entry (ram s) k 0). destruct (is_unused e4).
  { exists (Ok tt), s, al. split; [done|]. split; [done|]. split; [done|]. split; [apply kept_refl|by left]. }
  pose proof (entry_addr_range e4) as He. rewrite (st_bind_eq _ _ _ tt s) by (apply as_table_ok; lia).
  destruct (zeroed_table_spec s al Hs) as [E|(l3 & s1 & E & Hn & Hs1 & Hk & Hz3)].
  { rewrite (try_bind_err _ _ _ _ _ E). eexists _, s, al. split; [done|]. split; [done|]. split; [done|]. split; [apply kept_refl|done]. }
  rewrite (try_bind_ok _ _ _ _ _ E). rewrite (st_bind_eq _ _ _ (read_entry (ram s1) (entry_addr e4) 0) s1) by done.
  destruct (fill_l3_spec s1 (l3 :: al) l3 (read_entry (ram s1) (entry_addr e4) 0) Hs1) as (r & s2 & al2 & E2 & Hs2 & Hsub2 & Hk2 & Hent & Hr); [left|].
  pose proof (Hk2 al (sub_cons l3 al) Hn) as Hka. assert (al ⊆ al2) as Hal2 by (by apply (sub_tail l3)).
  assert (kept al0 s s2) as Hk02 by (intros b z Hb Hbz; rewrite (Hka b z) by auto; by apply (Hk b); [apply Hal0|]).
  destruct r as [[]|er].
  2:{ rewrite (try_bind_err _ _ _ _ _ E2). eexists (Err er), s2, al2. done. }
  rewrite (try_bind_ok _ _ _ _ _ E2). assert (l3 ∈ al2) as Hl3 by (apply Hsub2; left).
  destruct (set_addr_sound s2 al2 t 0 l3 (entry_flags e4) Hs2 (Hal2 _ Ht) Hl3 idx0) as (E3 & Hs3 & Hk3).
  rewrite (st_bind_eq _ _ _ _ _ E3). assert (t <> l3) as Hne by (intros ->; done).
  eexists (Ok tt), _, al2. split; [done|]. split; [done|]. split; [done|]. split.
  { apply (kept_trans al0 al0 _ s2 _ ltac:(done) Hk02), Hk3; [by transitivity al|done]. }
  right. exists l3, (entry_flags e4). split; [done|]. split; [done|]. split.
  - intros i Hi Hi0. rewrite (written_entry s2 al2) by (auto using idx0). rewrite (kept_entry al s1 s2 t i Hka Ht Hi), (kept_entry al s s1 t i Hk Ht Hi). by apply Hz.
  - unfold written. cbn [ram]. apply read_write_entry, mk_entry_u64; [destruct (sound_frame s2 al2 l3 Hs2 Hl3); lia|].
    apply ldiff_u64, (entry_u64 s al); done.
  - apply plain_entry_flags.
  - intros i Hi Hi0. rewrite (written_entry s2 al2) by (auto using idx0). rewrite Hent by done. by apply Hz3.
Qed.

Lemma prepare_user_code_spec s al al0 t l3 f :
  sound s al -> t ∈ al -> l3 ∈ al -> t <> l3 -> al0 ⊆ al -> l3 ∉ al0 -> low_shape s t l3 f ->
  exists r s' al', prepare_user_code off t s = Some (r, s') /\ sound s' al' /\ al ⊆ al' /\ kept al0 s s' /\
    match r with
    | Ok _ => low_shape s' t l3 f /\ exists l2, l2 ∈ al' /\ read_entry (ram s') l3 0 = mk_entry l2 (table_flags false)
    | Err e => e = KMemory Memory_OutOfMemory
    end.
Proof.
  intros Hs Ht Hl3 Hne Hal0 Hl30 Hsh. destruct (sound_frame s al l3 Hs Hl3) as [H3a H3r]. unfold prepare_user_code.
  rewrite (st_bind_eq _ _ _ (read_entry (ram s) t 0) s) by done. rewrite (ls_first _ _ _ _ Hsh), (mk_entry_addr l3 f H3a ltac:(lia) (ls_plain _ _ _ _ Hsh)).
  rewrite (proj2 (Z.eqb_neq l3 0)) by lia. rewrite (st_bind_eq _ _ _ tt s) by (apply as_table_ok; lia).
  destruct (zeroed_table_spec s al Hs) as [E|(l2 & s1 & E & Hn2 & Hs1 & Hk1 & _)].
  { rewrite (try_bind_err _ _ _ _ _ E). eexists _, s, al. split; [done|]. split; [done|]. split; [done|]. split; [apply kept_refl|done]. }
  rewrite (try_bind_ok _ _ _ _ _ E). rewrite (st_bind_eq _ _ _ (read_entry (ram s1) l3 0) s1) by done. set (e3 := read_entry (ram s1) l3 0).
  match goal with |- context [(?fill ≫= _) s1] => assert (exists s2, fill s1 = Some (tt, s2) /\ sound s2 (l2 :: al) /\ kept al s1 s2) as (s2 & E2 & Hs2 & Hk2) end.
  { destruct (is_unused e3); [exists s1; split; [done|]; split; [done|apply kept_refl]|].
    pose proof (entry_addr_range e3). rewrite (st_bind_eq _ _ _ tt s1) by (apply as_table_ok; lia).
    apply fill_table; [done|left|apply sub_cons|done|intros i; by apply indices_idx]. }
  rewrite (st_bind_eq _ _ _ _ _ E2).
  destruct (zeroed_table_spec s2 (l2 :: al) Hs2) as [E3|(l1 & s3 & E3 & Hn1 & Hs3 & Hk3 & _)].
  { rewrite (try_bind_err _ _ _ _ _ E3). eexists _, s2, (l2 :: al). split; [done|]. split; [done|]. split; [apply sub_cons|]. split; [|done].
    apply (kept_trans al0 al _ s1 _ Hal0); [|done]. intros b z Hb. apply Hk1. by apply Hal0. }
  rewrite (try_bind_ok _ _ _ _ _ E3).
  destruct (set_addr_sound s3 (l1 :: l2 :: al) l2 4 l1 (table_flags true) Hs3) as (E4 & Hs4 & Hk4); [right; left|left|unfold idx; lia|].
  rewrite (st_bind_eq _ _ _ _ _ E4). set (s4 := written s3 l2 4 _) in *.
  assert (al ⊆ l1 :: l2 :: al) as Hsub by (intros x Hx; right; by right).
  destruct (set_addr_sound s4 (l1 :: l2 :: al) l3 0 l2 (table_flags false) Hs4 (Hsub _ Hl3)) as (E5 & Hs5 & Hk5); [right; left|apply idx0|].
  rewrite (st_bind_eq _ _ _ _ _ E5).
  assert (kept al s s4) as Hk.
  { apply (kept_trans al al _ s3); [done| |by apply Hk4].
    apply (kept_trans al al _ s2 _ ltac:(done)); [by apply (kept_trans al al _ s1)|]. intros b z Hb. apply Hk3. by right. }
  eexists (Ok tt), _, (l1 :: l2 :: al). split; [done|]. split; [done|]. split; [done|]. split.
  { apply (kept_trans al0 al0 _ s4 _ ltac:(done)); [intros b z Hb; apply Hk; by apply Hal0|]. apply Hk5; [by transitivity al|done]. }
  destruct Hsh as [Sr Sf Sp S3]. split; [split|].
  - intros i Hi Hi0. rewrite (written_entry s4 (l1 :: l2 :: al)) by (auto using idx0). rewrite (kept_entry al s s4) by done. by apply Sr.
  - rewrite (written_entry s4 (l1 :: l2 :: al)) by (auto using idx0). rewrite (kept_entry al s s4) by (auto using idx0). done.
  - done.
  - intros i Hi Hi0. rewrite (written_entry s4 (l1 :: l2 :: al)) by (auto using idx0). rewrite (kept_entry al s s4) by done. by apply S3.
  - exists l2. split; [right; left|]. unfold written. cbn [ram].
    destruct (sound_frame s4 _ l2 Hs4) as [_ H2r]; [right; left|]. apply read_write_entry, mk_entry_u64; [lia|split; [vm_compute; discriminate|done]].
Qed.

(** A root of this shape shows no page to the user. *)
Lemma low_shape_hidden s t l3 l2 f a :
  l3 mod 4096 = 0 -> 0 <= l3 < 2 ^ 52 -> l2 mod 4096 = 0 -> 0 <= l2 < 2 ^ 52 ->
  low_shape s t l3 f -> read_entry (ram s) l3 0 = mk_entry l2 (table_flags false) ->
  user_page_flags_in_table (Some off) (ram s) t a = None.
Proof.
  intros H3a H3r H2a H2r [Sr Sf Sp S3] H30. unfold user_page_flags_in_table. cbn [mbind option_bind].
  destruct (negb _); [done|]. destruct (reachable off t) as [[]|]; [|done]. cbn [mbind option_bind].
  destruct (256 <=? p4_index a); [done|]. assert (idx (p4_index a)) as I4 by apply index_range. assert (idx (p3_index a)) as I3 by apply index_range.
  destruct (decide (p4_index a = 0)) as [E4|E4]; [|by rewrite Sr by done]. rewrite E4, Sf. destruct (negb (user_ok (mk_entry l3 f))); [done|].
  rewrite (mk_entry_addr l3 f H3a H3r Sp). destruct (reachable off l3) as [[]|]; [|done]. cbn [mbind option_bind].
  destruct (decide (p3_index a = 0)) as [E3|E3]; [|by rewrite S3 by done]. rewrite E3, H30.
  unfold user_ok. rewrite (mk_entry_flags l2 (table_flags false) H2a H2r) by done. by rewrite andb_false_r.
Qed.
End creation.


(** A kernel whose second 2 MiB are mapped by one large page. *)
Definition kernel_demo : PMem :=
  mkPM (Some (Frame.mkAllocator [Frame.mkRegion 1048576 262144 Frame.Usable] 259 0 0))
    (write_u64 (write_u64 (write_u64 (fun _ => 0) 1048576 1052675) 1052672 1056771) 1056776 2097283).

Lemma kernel_demo_sound : sound kernel_demo [1048576; 1052672; 1056768].
Proof.
  split.
  - eexists _, []. split; [reflexivity|]. split; [|repeat constructor; cbn; lia]. split; cbn; try done; try lia.
    + apply (bool_decide_unpack _). by vm_compute.
    + repeat apply list.Forall_cons_2; try apply list.Forall_nil_2; repeat split; vm_compute; done.
  - unfold kernel_demo, write_u64. cbn [ram]. repeat apply mem_wf_store; try apply to_le_bytes_byte. intros z. unfold is_byte. lia.
Qed.

End UserTable.
