(* ===== verification/UserCopy.v ===== *)
(** User copies, end to end.

    [copy_from_user_in_table] and [copy_to_user_in_table] move whole page chunks;
    this file relates them to a byte-by-byte reference, shows what they can read
    and write, and discharges the [UserMemory] interface with the wrappers of
    [src/core/syscall/mod.rs]. *)

From Stdlib Require Import ZArith Lia.
From stdpp Require Import base list option numbers.
From S2P Require Import Prelude Types UserMem Mem Paging.
Import Mem Result Paging.

Local Open Scope Z_scope.

Module UserCopy.
Section copy.
(** The direct map covers every physical address an entry can name. *)
Context (off : Z) (Hoff : 0 <= off /\ off + 2 ^ 53 <= U64_MODULUS).

Notation translate_user := (translate_user_addr_in_table (Some off)).

(** The physical byte behind user address [a], if the page is present, user
    accessible and (for [w]) writable. *)
Definition user_byte (m : mem) (t a : Z) (w : bool) : option Z := fst <$> translate_user m t a w.

Lemma reachable_ok p : 0 <= p < 2 ^ 53 -> reachable off p = Some tt.
Proof.
  intros Hp. unfold reachable, checked_add64. rewrite (proj2 (Z.ltb_lt _ _)); [done|]. unfold U64_MODULUS in *. lia.
Qed.

Lemma translate_user_range m t a w p o : translate_user m t a w = Some (p, o) -> 0 <= p < 2 ^ 53 /\ o = a mod 4096.
Proof.
  unfold translate_user_addr_in_table. destruct (USER_SPACE_END <? a); [done|].
  destruct (user_page_flags_in_table _ _ _ _) as [f|]; [|done]. cbn [mbind option_bind].
  destruct (_ || _); [done|]. destruct (_ && _); [done|].
  rewrite (translate_leaf (Some off) m t a). destruct (leaf (Some off) m t a) as [[e k]|] eqn:El; [|done].
  apply leaf_bits in El. cbn [mbind option_bind fst snd]. intros [= <- <-]. rewrite land_4095. split; [|done].
  pose proof (entry_addr_range e).
  assert (0 < 2 ^ k) by (apply Z.pow_pos_nonneg; lia). pose proof (Z.mod_pos_bound a (2 ^ k) ltac:(lia)).
  assert (2 ^ k <= 2 ^ 30) by (apply Z.pow_le_mono_r; lia). lia.
Qed.

(** A page that may be written may be read, at the same place. *)
Lemma translate_user_read m t a r : translate_user m t a true = Some r -> translate_user m t a false = Some r.
Proof.
  unfold translate_user_addr_in_table. destruct (USER_SPACE_END <? a); [done|].
  destruct (user_page_flags_in_table _ _ _ _) as [f|]; [|done]. cbn [mbind option_bind].
  destruct (_ || _); [done|]. cbn [andb]. destruct (negb (has f WRITABLE)); [done|]. done.
Qed.

(** ** Reading *)

(** The reference: one translation per byte. *)
Fixpoint from_ref (m : mem) (t cur : Z) (n : nat) : option (list Z) :=
  match n with
  | O => Some []
  | S n =>
      p ← user_byte m t cur false;
      rest ← from_ref m t (cur + 1) n;
      Some (m p :: rest)
  end.

Lemma from_ref_chunk m t c k cur p o :
  translate_user m t cur false = Some (p, o) -> Z.of_nat c <= 4096 - o ->
  cur + Z.of_nat c - 1 <= USER_SPACE_END ->
  from_ref m t cur (c + k) = (fun rest => load m p c ++ rest) <$> from_ref m t (cur + Z.of_nat c) k.
Proof.
  revert cur p o. induction c as [|c IH]; intros cur p o Ht Hc He.
  - cbn. rewrite Z.add_0_r. by destruct (from_ref m t cur k).
  - cbn [from_ref Nat.add]. unfold user_byte. rewrite Ht. cbn [fmap option_fmap option_map mbind option_bind fst].
    assert (load m p (S c) = m p :: load m (p + 1) c) as Hl.
    { unfold load. cbn [seq fmap list_fmap]. rewrite Z.add_0_r. f_equal.
      rewrite <-(fmap_S_seq 0 c), <-list_fmap_compose. apply list_fmap_ext. intros i x _. unfold compose.
      f_equal. lia. }
    rewrite Hl. destruct c as [|c].
    + cbn [Nat.add]. replace (cur + Z.of_nat 1) with (cur + 1) by lia.
      by destruct (from_ref m t (cur + 1) k).
    + rewrite (IH (cur + 1) (p + 1) (o + 1)).
      * replace (cur + 1 + Z.of_nat (S c)) with (cur + Z.of_nat (S (S c))) by lia.
        by destruct (from_ref m t (cur + Z.of_nat (S (S c))) k).
      * apply translate_user_same_page; [lia|lia|lia|done].
      * lia.
      * lia.
Qed.

Lemma copy_from_loop_ref fuel m t cur n :
  (n < fuel)%nat -> cur + Z.of_nat n - 1 <= USER_SPACE_END ->
  copy_from_loop (Some off) fuel m off t cur n = ok_or (from_ref m t cur n) (KMemory Memory_InvalidAddress).
Proof.
  revert cur n. induction fuel as [|fuel IH]; intros cur n Hn He; [lia|]. cbn [copy_from_loop].
  destruct (Nat.eqb_spec n 0) as [->|Hne]; [done|].
  destruct (translate_user m t cur false) as [[p o]|] eqn:Et.
  2: { destruct n as [|n]; [lia|]. cbn [from_ref]. unfold user_byte. by rewrite Et. }
  destruct (translate_user_range _ _ _ _ _ _ Et) as [Hp Ho].
  rewrite reachable_ok by done. pose proof (Z.mod_pos_bound cur 4096 ltac:(lia)).
  set (c := Nat.min (Z.to_nat (4096 - o)) n).
  assert (n = c + (n - c))%nat as Hsplit by lia.
  rewrite Hsplit at 2. rewrite (from_ref_chunk m t c (n - c) cur p o Et) by lia.
  rewrite IH by lia. by destruct (from_ref m t (cur + Z.of_nat c) (n - c)).
Qed.

(** C13. The page-chunked [copy_from_user_in_table] is equivalent to translating
    and reading every byte on its own: for every page table, source address and
    length (huge pages included) it returns the bytes the reference returns, and
    fails exactly when some byte of the range is not in user space or its page is
    not present and user accessible. *)
Theorem copy_from_user_equiv_bytewise (m : mem) (t src : Z) (n : nat) :
  n <> 0%nat ->
  copy_from_user_in_table (Some off) m t src n =
  if range_ok src n then ok_or (from_ref m t src n) (KMemory Memory_InvalidAddress)
  else Err (KMemory Memory_InvalidAddress).
Proof.
  intros Hn. unfold copy_from_user_in_table. destruct (Nat.eqb_spec n 0) as [->|_]; [done|].
  destruct (range_ok src n) eqn:Er; cbn [negb]; [|done]. apply copy_from_loop_ref; [lia|].
  revert Er. unfold range_ok. destruct (checked_add64 _ _) as [e|] eqn:Ec; [|done].
  apply checked_add64_Some in Ec as [-> _]. intros Hr%negb_true_iff.
  apply orb_false_iff in Hr as [_ Hr%Z.ltb_ge]. lia.
Qed.

(** ** Page tables and data do not overlap *)

Definition in_table (T : Z -> Prop) (t : Z) : Prop := forall x, t <= x < t + 4096 -> T x.

(** [T] contains every table frame a walk from a level-[lvl] table can read
    (level 3 is the root; huge-page entries end a walk at levels 2 and 1). *)
Fixpoint tables_in (lvl : nat) (m : mem) (T : Z -> Prop) (t : Z) : Prop :=
  in_table T t /\
  match lvl with
  | O => True
  | S l => forall i, 0 <= i < 512 ->
      let e := read_entry m t i in
      is_unused e || negb (has (entry_flags e) PRESENT) = false ->
      (l <? 2)%nat && has (entry_flags e) HUGE_PAGE = false -> tables_in l m T (entry_addr e)
  end.

Definition agree (T : Z -> Prop) (m m' : mem) : Prop := forall x, T x -> m' x = m x.

Lemma read_entry_agree T m m' t i :
  agree T m m' -> in_table T t -> 0 <= i < 512 -> read_entry m' t i = read_entry m t i.
Proof.
  intros Ha Ht Hi. unfold read_entry, read_u64. f_equal. apply load_ext. intros j Hj. apply Ha, Ht. lia.
Qed.

Lemma tables_in_agree lvl T m m' t : agree T m m' -> tables_in lvl m T t -> tables_in lvl m' T t.
Proof.
  intros Ha. revert t. induction lvl as [|l IH]; intros t [Ht H]; split; try done.
  intros i Hi. cbv zeta. rewrite (read_entry_agree T m m') by done. intros H1 H2. apply IH. by apply H.
Qed.

Lemma tables_in_here lvl m T t : tables_in lvl m T t -> in_table T t.
Proof. destruct lvl; intros H; apply H. Qed.

Lemma tables_step l m T t i :
  tables_in (S l) m T t -> 0 <= i < 512 ->
  is_unused (read_entry m t i) || negb (has (entry_flags (read_entry m t i)) PRESENT) = false ->
  (l <? 2)%nat && has (entry_flags (read_entry m t i)) HUGE_PAGE = false ->
  tables_in l m T (entry_addr (read_entry m t i)).
Proof. intros [_ H]. exact (H i). Qed.

Lemma user_ok_present e : user_ok e = true -> is_unused e || negb (has (entry_flags e) PRESENT) = false.
Proof.
  unfold user_ok. intros [[H1%negb_true_iff ->]%andb_prop _]%andb_prop. by rewrite H1.
Qed.

(** The test at the head of the left-hand side. *)
Ltac head_test E := match goal with |- (if ?b then _ else _) = _ => destruct b eqn:E end.

(** One level down a walk: the entries agree, and so does the next table. *)
Ltac walk_down Ha Ht a k :=
  apply option_bind_ext_fun; intros _;
  rewrite (read_entry_agree _ _ _ _ _ Ha (tables_in_here _ _ _ _ Ht) (index_range a k)).

(** Walks only depend on the table frames. *)
Lemma leaf_agree T m m' t a :
  agree T m m' -> tables_in 3 m T t -> leaf (Some off) m' t a = leaf (Some off) m t a.
Proof.
  intros Ha Ht. unfold leaf, p4_index, p3_index, p2_index, p1_index. cbn [mbind option_bind].
  destruct (negb _); [done|]. walk_down Ha Ht a 39.
  head_test E4; [done|].
  pose proof (tables_step _ _ _ _ _ Ht (index_range a 39) E4 eq_refl) as Ht3. walk_down Ha Ht3 a 30.
  head_test E3; [done|]. head_test H3; [done|].
  pose proof (tables_step _ _ _ _ _ Ht3 (index_range a 30) E3 H3) as Ht2. walk_down Ha Ht2 a 21.
  head_test E2; [done|]. head_test H2; [done|].
  pose proof (tables_step _ _ _ _ _ Ht2 (index_range a 21) E2 H2) as Ht1. by walk_down Ha Ht1 a 12.
Qed.

Lemma user_flags_agree T m m' t a :
  agree T m m' -> tables_in 3 m T t ->
  user_page_flags_in_table (Some off) m' t a = user_page_flags_in_table (Some off) m t a.
Proof.
  intros Ha Ht. unfold user_page_flags_in_table, p4_index, p3_index, p2_index, p1_index. cbn [mbind option_bind].
  destruct (negb _); [done|]. apply option_bind_ext_fun; intros _. destruct (256 <=? _); [done|].
  rewrite (read_entry_agree _ _ _ _ _ Ha (tables_in_here _ _ _ _ Ht) (index_range a 39)).
  head_test E4; [done|]. apply negb_false_iff, user_ok_present in E4.
  pose proof (tables_step _ _ _ _ _ Ht (index_range a 39) E4 eq_refl) as Ht3. walk_down Ha Ht3 a 30.
  head_test E3; [done|]. apply negb_false_iff, user_ok_present in E3.
  head_test H3; [done|].
  pose proof (tables_step _ _ _ _ _ Ht3 (index_range a 30) E3 H3) as Ht2. walk_down Ha Ht2 a 21.
  head_test E2; [done|]. apply negb_false_iff, user_ok_present in E2.
  head_test H2; [done|].
  pose proof (tables_step _ _ _ _ _ Ht2 (index_range a 21) E2 H2) as Ht1. by walk_down Ha Ht1 a 12.
Qed.

Lemma translate_user_agree T m m' t a w :
  agree T m m' -> tables_in 3 m T t -> translate_user m' t a w = translate_user m t a w.
Proof.
  intros Ha Ht. unfold translate_user_addr_in_table. destruct (USER_SPACE_END <? a); [done|].
  rewrite (user_flags_agree T m m') by done. apply option_bind_ext_fun; intros f.
  destruct (_ || _); [done|]. destruct (_ && _); [done|].
  rewrite (translate_leaf (Some off) m' t a), (translate_leaf (Some off) m t a).
  by rewrite (leaf_agree T m m').
Qed.

(** ** Writing *)

(** The hardware protection the kernel relies on: no page-table byte is behind a
    page the user can write. *)
Definition tables_protected (T : Z -> Prop) (m : mem) (t : Z) : Prop :=
  tables_in 3 m T t /\ forall a p, user_byte m t a true = Some p -> ~ T p.

Lemma user_byte_agree T m m' t a w :
  agree T m m' -> tables_in 3 m T t -> user_byte m' t a w = user_byte m t a w.
Proof. intros Ha Ht. unfold user_byte. by rewrite (translate_user_agree T m m'). Qed.

Lemma tables_protected_agree T m m' t : agree T m m' -> tables_protected T m t -> tables_protected T m' t.
Proof.
  intros Ha [Ht Hp]. split; [by eapply tables_in_agree|]. intros a p.
  rewrite (user_byte_agree T m m') by done. apply Hp.
Qed.

(** A store of one chunk stays inside the pages it was translated through. *)
Lemma chunk_target m t cur p o c x :
  translate_user m t cur true = Some (p, o) -> Z.of_nat c <= 4096 - o ->
  cur + Z.of_nat c - 1 <= USER_SPACE_END -> p <= x < p + Z.of_nat c ->
  user_byte m t (cur + (x - p)) true = Some x.
Proof.
  intros Ht Hc He Hx. unfold user_byte.
  rewrite (translate_user_same_page (Some off) m t cur (x - p) p o true) by (done || lia).
  cbn. f_equal. lia.
Qed.

(** Each byte of the loop lands where its own address translates to. *)
Lemma copy_to_loop_spec T fuel m t cur src :
  tables_protected T m t -> (length src < fuel)%nat ->
  cur + Z.of_nat (length src) - 1 <= USER_SPACE_END ->
  let '(r, m') := copy_to_loop (Some off) fuel m off t cur src in
  agree T m m' /\
  (forall x, (forall i, 0 <= i < Z.of_nat (length src) -> user_byte m t (cur + i) true <> Some x) -> m' x = m x) /\
  (r = Ok tt <-> forall i, 0 <= i < Z.of_nat (length src) -> is_Some (user_byte m t (cur + i) true)) /\
  (r = Ok tt -> (forall i j p, 0 <= i < Z.of_nat (length src) -> 0 <= j < Z.of_nat (length src) ->
       user_byte m t (cur + i) true = Some p -> user_byte m t (cur + j) true = Some p -> i = j) ->
     forall i b p, src !! i = Some b -> user_byte m t (cur + Z.of_nat i) true = Some p -> m' p = b).
Proof.
  revert m cur src. induction fuel as [|fuel IH]; intros m cur src HT Hf He; [lia|]. cbn [copy_to_loop].
  destruct src as [|b0 src0].
  { repeat split; try done. intros _ i Hi. cbn in Hi. lia. }
  set (src := b0 :: src0) in *. assert (0 < length src)%nat as Hpos by (cbn; lia).
  destruct (translate_user m t cur true) as [[p o]|] eqn:Et.
  2: { assert (user_byte m t (cur + 0) true = None) as Hn by (unfold user_byte; by rewrite Z.add_0_r, Et).
       repeat split; try done. intros H. destruct (H 0) as [? E]; [lia|]. congruence. }
  destruct (translate_user_range _ _ _ _ _ _ Et) as [Hp Ho].
  rewrite reachable_ok by done. pose proof (Z.mod_pos_bound cur 4096 ltac:(lia)).
  set (c := Nat.min (Z.to_nat (4096 - o)) (length src)).
  set (m1 := store m p (take c src)).
  assert (length (take c src) = c) as Hlc by (rewrite length_take; lia).
  assert (forall x, p <= x < p + Z.of_nat c -> user_byte m t (cur + (x - p)) true = Some x) as Htgt.
  { intros x Hx. apply (chunk_target m t cur p o c x Et); lia. }
  assert (agree T m m1) as Ha1.
  { intros x Hx. apply store_out. rewrite Hlc.
    destruct (decide (p <= x < p + Z.of_nat c)) as [Hin|]; [|lia].
    destruct (proj2 HT _ _ (Htgt x Hin) Hx). }
  specialize (IH m1 (cur + Z.of_nat c) (drop c src)).
  rewrite length_drop in IH. specialize (IH (tables_protected_agree T m m1 t Ha1 HT)).
  destruct (copy_to_loop (Some off) fuel m1 off t (cur + Z.of_nat c) (drop c src)) as [r m'].
  destruct IH as (A & F & R & V); [lia|lia|].
  assert (forall i, 0 <= i < Z.of_nat c -> user_byte m t (cur + i) true = Some (p + i)) as Hlow.
  { intros i Hi. replace (cur + i) with (cur + (p + i - p)) by lia. apply Htgt. lia. }
  assert (forall i, user_byte m1 t (cur + Z.of_nat c + i) true = user_byte m t (cur + (Z.of_nat c + i)) true) as Hhi.
  { intros i. rewrite (user_byte_agree T m m1) by (done || apply HT). f_equal. lia. }
  split; [|split; [|split]].
  - intros x Hx. rewrite (A x Hx). by apply Ha1.
  - intros x Hx. rewrite F.
    + apply store_out. rewrite Hlc. destruct (decide (p <= x < p + Z.of_nat c)) as [Hin|]; [|lia].
      destruct (Hx (x - p)); [lia|]. by apply Htgt.
    + intros i Hi. rewrite Hhi. apply Hx. lia.
  - rewrite R. split; intros HH i Hi.
    + destruct (decide (i < Z.of_nat c)) as [Hlt|Hge].
      * rewrite Hlow by lia. eauto.
      * specialize (HH (i - Z.of_nat c)). rewrite Hhi in HH.
        replace (Z.of_nat c + (i - Z.of_nat c)) with i in HH by lia. apply HH. lia.
    + rewrite Hhi. apply HH. lia.
  - intros Hr Hinj i b q Hb Hq. pose proof (lookup_lt_Some _ _ _ Hb) as Hil.
    destruct (decide (i < c)%nat) as [Hlt|Hge].
    + rewrite Hlow in Hq by lia. injection Hq as <-. rewrite F.
      * apply store_in. by rewrite lookup_take_lt.
      * intros j Hj. rewrite Hhi. intros E.
        assert (Z.of_nat i = Z.of_nat c + j); [|lia]. apply (Hinj _ _ (p + Z.of_nat i)); [lia|lia| |done].
        by apply Hlow; lia.
    + apply (V Hr) with (i := (i - c)%nat).
      * intros i1 j1 q1 H1 H2 E1 E2. rewrite Hhi in E1, E2.
        assert (Z.of_nat c + i1 = Z.of_nat c + j1); [|lia]. by apply (Hinj _ _ q1); try lia.
      * rewrite lookup_drop. rewrite <-Hb. f_equal. lia.
      * rewrite Hhi, <-Hq. do 2 f_equal. lia.
Qed.

Lemma range_ok_spec p n :
  range_ok p n = true <->
  p <> 0 /\ p <= USER_SPACE_END /\ p + Z.max (Z.of_nat n - 1) 0 <= USER_SPACE_END.
Proof.
  unfold range_ok. destruct (checked_add64 _ _) as [e|] eqn:Ec.
  - apply checked_add64_Some in Ec as [-> _]. rewrite negb_true_iff, !orb_false_iff, Z.eqb_neq, !Z.ltb_ge. tauto.
  - split; [done|]. intros (_ & _ & H). unfold checked_add64 in Ec.
    rewrite (proj2 (Z.ltb_lt _ _)) in Ec; [done|]. unfold USER_SPACE_END, U64_MODULUS in *. lia.
Qed.

(** C10. [copy_to_user_in_table] is confined and all-or-error.  When no
    page-table byte is behind a user-writable page, whatever the destination,
    length and outcome: page tables are not modified; every byte of physical
    memory that is not the translation of a present, user-accessible, writable
    user page inside the destination range is unchanged; and the copy succeeds
    iff the range is a non-null user range all of whose pages are such pages. *)
Theorem copy_to_user_confined (T : Z -> Prop) (m : mem) (t dst : Z) (src : list Z) :
  tables_protected T m t -> src <> [] ->
  let '(r, m') := copy_to_user_in_table (Some off) m t dst src in
  agree T m m' /\
  (forall x, (forall i, 0 <= i < Z.of_nat (length src) -> user_byte m t (dst + i) true <> Some x) -> m' x = m x) /\
  (r = Ok tt <-> range_ok dst (length src) = true /\
     forall i, 0 <= i < Z.of_nat (length src) -> is_Some (user_byte m t (dst + i) true)).
Proof.
  intros HT Hne. unfold copy_to_user_in_table. destruct src as [|b src]; [done|].
  destruct (range_ok dst (length (b :: src))) eqn:Er; cbn [negb].
  2: { repeat split; try done. intros [? _]. done. }
  apply range_ok_spec in Er as (_ & _ & He).
  pose proof (copy_to_loop_spec T (S (length (b :: src))) m t dst (b :: src) HT) as H.
  destruct (copy_to_loop _ _ _ _ _ _ _) as [r m']. destruct H as (A & F & R & _); [lia|cbn [length] in *; lia|].
  split; [done|]. split; [done|]. rewrite R. tauto.
Qed.

Lemma from_ref_Some m t p bs :
  (forall i b, bs !! i = Some b -> exists q, user_byte m t (p + Z.of_nat i) false = Some q /\ m q = b) ->
  from_ref m t p (length bs) = Some bs.
Proof.
  revert p. induction bs as [|b bs IH]; intros p H; [done|]. cbn [length from_ref].
  destruct (H 0%nat b eq_refl) as (q & Hq & <-). rewrite Z.add_0_r in Hq. rewrite Hq.
  cbn [mbind option_bind]. rewrite IH; [done|]. intros i b' Hb. destruct (H (S i) b' Hb) as (q' & Hq' & ?).
  exists q'. split; [|done]. rewrite <-Hq'. f_equal. lia.
Qed.

(** User copies round-trip: what [copy_to_user_in_table] wrote,
    [copy_from_user_in_table] of the same range reads back, provided no two
    addresses of the range share a physical byte. *)
Theorem user_copy_roundtrip (T : Z -> Prop) (m m' : mem) (t dst : Z) (src : list Z) :
  tables_protected T m t ->
  (forall i j p, 0 <= i < Z.of_nat (length src) -> 0 <= j < Z.of_nat (length src) ->
     user_byte m t (dst + i) true = Some p -> user_byte m t (dst + j) true = Some p -> i = j) ->
  copy_to_user_in_table (Some off) m t dst src = (Ok tt, m') ->
  copy_from_user_in_table (Some off) m' t dst (length src) = Ok src.
Proof.
  intros HT Hinj. unfold copy_to_user_in_table, copy_from_user_in_table. destruct src as [|b src]; [done|].
  set (l := b :: src) in *. destruct (range_ok dst (length l)) eqn:Er; cbn [negb]; [|done].
  assert (dst + Z.of_nat (length l) - 1 <= USER_SPACE_END) as He.
  { apply range_ok_spec in Er as (_ & _ & He). cbn [length l] in *. lia. }
  pose proof (copy_to_loop_spec T (S (length l)) m t dst l HT ltac:(lia) He) as H. intros E. rewrite E in H.
  destruct H as (A & F & R & V). rewrite copy_from_loop_ref by (done || lia).
  cbn [Nat.eqb length l]. fold l. change (S (length src)) with (length l). rewrite from_ref_Some; [done|].
  intros i x Hx. pose proof (lookup_lt_Some _ _ _ Hx).
  destruct (proj1 R eq_refl (Z.of_nat i)) as [q Hq]; [lia|]. exists q. split.
  - rewrite (user_byte_agree T m m') by (done || apply HT). unfold user_byte in *.
    destruct (translate_user m t (dst + Z.of_nat i) true) as [[u v]|] eqn:Et; [|done].
    rewrite (translate_user_read _ _ _ _ Et). done.
  - apply (V eq_refl Hinj i); done.
Qed.

(** ** Validation *)

Lemma user_flags_leaf m t a f :
  user_page_flags_in_table (Some off) m t a = Some f ->
  exists e k, leaf (Some off) m t a = Some (e, k) /\ f = entry_flags e /\ user_ok e = true.
Proof.
  unfold user_page_flags_in_table, leaf. cbn [mbind option_bind].
  set (l4e := read_entry m t (p4_index a)). set (l3e := read_entry m (entry_addr l4e) (p3_index a)).
  set (l2e := read_entry m (entry_addr l3e) (p2_index a)). set (l1e := read_entry m (entry_addr l2e) (p1_index a)).
  destruct (negb _); [done|]. destruct (reachable off t); [cbn [mbind option_bind]|discriminate].
  destruct (256 <=? _); [done|].
  destruct (user_ok l4e) eqn:E4; cbn [negb]; [|done]. rewrite (user_ok_present _ E4).
  destruct (reachable off (entry_addr l4e)); [cbn [mbind option_bind]|discriminate].
  destruct (user_ok l3e) eqn:E3; cbn [negb]; [|done]. rewrite (user_ok_present _ E3).
  destruct (has (entry_flags l3e) HUGE_PAGE); [intros [= <-]; eauto|].
  destruct (reachable off (entry_addr l3e)); [cbn [mbind option_bind]|discriminate].
  destruct (user_ok l2e) eqn:E2; cbn [negb]; [|done]. rewrite (user_ok_present _ E2).
  destruct (has (entry_flags l2e) HUGE_PAGE); [intros [= <-]; eauto|].
  destruct (reachable off (entry_addr l2e)); [cbn [mbind option_bind]|discriminate].
  destruct (user_ok l1e) eqn:E1; cbn [negb]; [|done]. rewrite (user_ok_present _ E1).
  intros [= <-]. eauto.
Qed.

Lemma page_mapped_iff m t a :
  page_is_user_mapped_in_table (Some off) m t a = true <-> is_Some (user_page_flags_in_table (Some off) m t a).
Proof.
  unfold page_is_user_mapped_in_table. destruct (user_page_flags_in_table _ _ _ _) as [f|] eqn:E.
  - split; [eauto|]. intros _. apply user_flags_leaf in E as (e & k & _ & -> & Hu).
    unfold user_ok in Hu. apply andb_prop in Hu as [[_ ->]%andb_prop ->]. done.
  - split; [done|]. intros [? ?]. done.
Qed.

Lemma user_byte_mapped m t a :
  a <= USER_SPACE_END ->
  is_Some (user_byte m t a false) <-> page_is_user_mapped_in_table (Some off) m t (page_down a) = true.
Proof.
  intros Ha. rewrite page_mapped_iff, user_flags_page_down. unfold user_byte, translate_user_addr_in_table.
  rewrite (proj2 (Z.ltb_ge _ _) Ha), user_flags_page_down.
  destruct (user_page_flags_in_table (Some off) m t a) as [f|] eqn:E; cbn [mbind option_bind].
  - pose proof (user_flags_leaf m t a f E) as (e & k & El & -> & Hu).
    unfold user_ok in Hu. apply andb_prop in Hu as [[_ ->]%andb_prop ->]. cbn [negb orb andb].
    rewrite (translate_leaf (Some off) m t a), El. cbn. split; eauto.
  - split; intros [? ?]; done.
Qed.

Lemma range_loop_spec fuel m t a n :
  0 <= a -> (n < fuel)%nat -> a + 4096 * Z.of_nat n < U64_MODULUS ->
  range_loop (Some off) fuel m t a (a + 4096 * Z.of_nat n) = true <->
  forall k, (k <= n)%nat -> page_is_user_mapped_in_table (Some off) m t (a + 4096 * Z.of_nat k) = true.
Proof.
  revert a n. induction fuel as [|fuel IH]; intros a n Ha Hn Hb; [lia|]. cbn [range_loop].
  assert (forall k, (k <= n)%nat <-> k = 0%nat \/ exists j, k = S j /\ (S j <= n)%nat) as Hk.
  { intros [|k]; split; intros H; [by left|lia|right; eauto|destruct H as [?|(? & ? & ?)]; lia]. }
  destruct (page_is_user_mapped_in_table (Some off) m t a) eqn:E; cbn [negb].
  2: { split; [done|]. intros H. specialize (H 0%nat ltac:(lia)). rewrite Z.mul_0_r, Z.add_0_r in H. congruence. }
  destruct (Z.eqb_spec a (a + 4096 * Z.of_nat n)) as [Heq|Hne].
  - split; [|done]. intros _ k Hle. assert (k = 0%nat) as -> by lia. by rewrite Z.mul_0_r, Z.add_0_r.
  - unfold checked_add64. rewrite (proj2 (Z.ltb_lt (a + 4096) U64_MODULUS)) by lia.
    destruct n as [|n]; [lia|]. replace (a + 4096 * Z.of_nat (S n)) with (a + 4096 + 4096 * Z.of_nat n) by lia.
    rewrite IH by lia. split; intros H k Hle.
    + destruct k as [|k]; [by rewrite Z.mul_0_r, Z.add_0_r|].
      replace (a + 4096 * Z.of_nat (S k)) with (a + 4096 + 4096 * Z.of_nat k) by lia. apply H. lia.
    + replace (a + 4096 + 4096 * Z.of_nat k) with (a + 4096 * Z.of_nat (S k)) by lia. apply H. lia.
Qed.

(** [is_user_range_mapped_in_table] decides exactly whether every byte of
    the range is readable user memory: for a non-empty range it answers true iff
    the range stays in user space and every one of its bytes has a translation
    through a present, user-accessible page.  The page loop always ends. *)
Theorem user_range_check_exact (m : mem) (t addr len : Z) :
  0 <= addr -> 0 < len ->
  is_user_range_mapped_in_table (Some off) m t addr len = true <->
  addr + len - 1 <= USER_SPACE_END /\
  forall i, 0 <= i < len -> is_Some (user_byte m t (addr + i) false).
Proof.
  intros Ha Hl. unfold is_user_range_mapped_in_table.
  destruct (Z.ltb_spec USER_SPACE_END addr); [split; [done|lia]|].
  destruct (Z.eqb_spec len 0); [lia|]. rewrite Z.max_l by lia. unfold checked_add64.
  destruct (Z.ltb_spec (addr + (len - 1)) U64_MODULUS); [|split; [done|unfold USER_SPACE_END, U64_MODULUS in *; lia]].
  destruct (Z.ltb_spec USER_SPACE_END (addr + (len - 1))); [split; [done|lia]|].
  set (e := addr + (len - 1)) in *. rewrite !page_down_spec.
  pose proof (Z.mod_pos_bound addr 4096 ltac:(lia)) as Hm1. pose proof (Z.mod_pos_bound e 4096 ltac:(lia)) as Hm2.
  pose proof (Z.div_mod addr 4096 ltac:(lia)) as Hd1. pose proof (Z.div_mod e 4096 ltac:(lia)) as Hd2.
  set (f := addr - addr mod 4096) in *. set (l := e - e mod 4096) in *.
  assert (addr / 4096 <= e / 4096) as Hle by (apply Z.div_le_mono; lia).
  assert (l = f + 4096 * Z.of_nat (Z.to_nat (e / 4096 - addr / 4096))) as Hlf by lia.
  assert ((l - f) / 4096 = e / 4096 - addr / 4096) as Hcnt.
  { rewrite Hlf. symmetry. apply (Z.div_unique_exact); lia. }
  assert (0 <= addr / 4096) by (apply Z.div_pos; lia).
  rewrite Hlf, range_loop_spec by (rewrite <-?Hlf, ?Hcnt; unfold U64_MODULUS, USER_SPACE_END in *; lia).
  assert (forall i, 0 <= i < len -> addr + i <= USER_SPACE_END) as Hus by lia.
  split.
  - intros Hk. split; [lia|]. intros i Hi. apply user_byte_mapped; [auto|]. rewrite page_down_spec.
    pose proof (Z.div_mod (addr + i) 4096 ltac:(lia)) as Hdi.
    assert (addr / 4096 <= (addr + i) / 4096 <= e / 4096) as Hb by (split; apply Z.div_le_mono; lia).
    specialize (Hk (Z.to_nat ((addr + i) / 4096 - addr / 4096)) ltac:(lia)). rewrite <-Hk. f_equal. lia.
  - intros [_ Hk] k Hkn.
    assert (0 <= Z.max (f + 4096 * Z.of_nat k) addr - addr < len) as Hi by lia.
    specialize (Hk _ Hi). apply user_byte_mapped in Hk; [|auto]. rewrite page_down_spec in Hk.
    rewrite <-Hk. f_equal. set (x := addr + _). assert (x = Z.max (f + 4096 * Z.of_nat k) addr) as -> by lia.
    destruct k as [|k].
    + replace (Z.max _ addr) with addr by lia. lia.
    + replace (Z.max _ addr) with (f + 4096 * Z.of_nat (S k)) by lia.
      assert ((f + 4096 * Z.of_nat (S k)) mod 4096 = 0) as ->; [|lia].
      replace (f + 4096 * Z.of_nat (S k)) with ((addr / 4096 + Z.of_nat (S k)) * 4096) by lia. apply Z.mod_mul. lia.
Qed.
End copy.

(** ** The wrappers of [syscall/mod.rs] *)

(** What a user access depends on: physical memory and the page table of the
    current process ([current_user_page_table]; [None] when there is no current
    thread, process or table). *)
Record UserView := { uv_mem : mem; uv_table : option Z }.

Section wrappers.
Context (phys_offset : option Z).

Definition uv_validate_user_ptr (v : UserView) (ptr len : Z) : bool :=
  if ptr =? 0 then false
  else if USER_SPACE_END <? ptr then false
  else
    match (if len =? 0 then Some ptr else checked_add64 ptr (len - 1)) with
    | None => false
    | Some end_inclusive =>
        if USER_SPACE_END <? end_inclusive then false
        else
          match uv_table v with
          | None => false
          | Some user_pt => is_user_range_mapped_in_table phys_offset (uv_mem v) user_pt ptr len
          end
    end.

Definition uv_copy_from_user (v : UserView) (src_ptr : Z) (n : nat) : result (list Z) Z :=
  if Nat.eqb n 0 then Ok []
  else
    match uv_table v with
    | None => Err EFAULT
    | Some user_pt =>
        if src_ptr =? 0 then Err EFAULT
        else
          match copy_from_user_in_table phys_offset (uv_mem v) user_pt src_ptr n with
          | Ok bs => Ok bs
          | Err _ => Err EFAULT
          end
    end.

Definition uv_copy_to_user (dst_ptr : Z) (src : list Z) (v : UserView) : result unit Z * UserView :=
  match src with
  | [] => (Ok tt, v)
  | _ =>
      match uv_table v with
      | None => (Err EFAULT, v)
      | Some user_pt =>
          if dst_ptr =? 0 then (Err EFAULT, v)
          else
            let '(r, m) := copy_to_user_in_table phys_offset (uv_mem v) user_pt dst_ptr src in
            (match r with Ok _ => Ok tt | Err _ => Err EFAULT end, {| uv_mem := m; uv_table := uv_table v |})
      end
  end.

Lemma copy_from_loop_length po fuel m off t cur n bs :
  copy_from_loop po fuel m off t cur n = Ok bs -> length bs = n.
Proof.
  revert cur n bs. induction fuel as [|fuel IH]; intros cur n bs; [done|]. cbn [copy_from_loop].
  destruct (Nat.eqb_spec n 0) as [->|]; [by intros [= <-]|].
  destruct (translate_user_addr_in_table _ _ _ _ _) as [[p o]|]; [|done].
  destruct (reachable off p); [|done].
  destruct (copy_from_loop _ _ _ _ _ _ _) as [rest|] eqn:E; [|done].
  intros [= <-]. rewrite length_app, load_length, (IH _ _ _ E). lia.
Qed.

(** The page-table walker discharges the interface the handlers are proved
    against. *)
#[export] Instance user_view_memory : UserMemory UserView.
Proof.
  refine {| validate_user_ptr := uv_validate_user_ptr; copy_from_user := uv_copy_from_user;
            copy_to_user := uv_copy_to_user |}.
  - intros v p n e. unfold uv_copy_from_user. repeat case_match; congruence.
  - intros v p n bs. unfold uv_copy_from_user. destruct (Nat.eqb_spec n 0) as [->|Hn]; [by intros [= <-]|].
    destruct (uv_table v); [|done]. destruct (p =? 0); [done|].
    destruct (copy_from_user_in_table _ _ _ _ _) as [bs'|] eqn:E; [|done]. intros [= <-].
    revert E. unfold copy_from_user_in_table. rewrite (proj2 (Nat.eqb_neq n 0) Hn).
    destruct phys_offset; [|done]. destruct (negb _); [done|]. apply copy_from_loop_length.
  - intros p bs v e. unfold uv_copy_to_user. repeat (case_match; simpl; try congruence).
  - done.
Defined.
End wrappers.

(** ** A concrete address space

    One user page: the tables are the frames at 0x1000 to 0x4000, the page at
    0x400000 is the frame 0x5000, writable. *)
Definition demo_mem : mem := fun x =>
  if (x =? 4096) || (x =? 8192) || (x =? 12304) || (x =? 16384) then 7
  else if x =? 4097 then 32 else if x =? 8193 then 48 else if x =? 12305 then 64
  else if x =? 16385 then 80 else 0.

Definition demo_tables : Z -> Prop := fun x => 4096 <= x < 20480.

Lemma demo_zero t i : (forall j, (j < 8)%nat -> demo_mem (t + 8 * i + Z.of_nat j) = 0) -> read_entry demo_mem t i = 0.
Proof.
  intros H. unfold read_entry, read_u64, load. cbn [seq fmap list_fmap from_le_bytes].
  rewrite !H by lia. reflexivity.
Qed.

Lemma demo_entry t i k :
  In (t, k) [(4096, 0); (8192, 0); (12288, 2); (16384, 0)] -> 0 <= i < 512 -> i <> k -> read_entry demo_mem t i = 0.
Proof.
  intros Ht Hi Hk. apply demo_zero. intros j Hj. unfold demo_mem.
  cbn [In] in Ht. destruct Ht as [[= <- <-]|[[= <- <-]|[[= <- <-]|[[= <- <-]|[]]]]];
    repeat match goal with |- context [ (?x =? ?y) ] => destruct (Z.eqb_spec x y); [lia|] end; reflexivity.
Qed.

(** Every walk ends in the one page or nowhere. *)
Lemma demo_leaf a e k : leaf (Some 0) demo_mem 4096 a = Some (e, k) -> e = 20487 /\ k = 12.
Proof.
  unfold leaf. cbn [mbind option_bind]. change (negb (Z.land 4096 4095 =? 0)) with false. change (reachable 0 4096) with (Some tt).
  cbn [mbind option_bind]. cbv iota.
  destruct (decide (p4_index a = 0)) as [->|Hn]; [|rewrite (demo_entry 4096 _ 0); [discriminate|by left|apply index_range|done]].
  change (read_entry demo_mem 4096 0) with 8199. change (entry_addr 8199) with 8192. cbn [mbind option_bind].
  change (is_unused 8199 || negb (has (entry_flags 8199) PRESENT)) with false. change (reachable 0 8192) with (Some tt). cbn [mbind option_bind].
  cbv iota. destruct (decide (p3_index a = 0)) as [->|Hn]; [|rewrite (demo_entry 8192 _ 0); [discriminate|cbn; tauto|apply index_range|done]].
  change (read_entry demo_mem 8192 0) with 12295. change (entry_addr 12295) with 12288.
  change (is_unused 12295 || negb (has (entry_flags 12295) PRESENT)) with false.
  change (has (entry_flags 12295) HUGE_PAGE) with false. change (reachable 0 12288) with (Some tt). cbn [mbind option_bind].
  cbv iota. destruct (decide (p2_index a = 2)) as [->|Hn]; [|rewrite (demo_entry 12288 _ 2); [discriminate|cbn; tauto|apply index_range|done]].
  change (read_entry demo_mem 12288 2) with 16391. change (entry_addr 16391) with 16384.
  change (is_unused 16391 || negb (has (entry_flags 16391) PRESENT)) with false.
  change (has (entry_flags 16391) HUGE_PAGE) with false. change (reachable 0 16384) with (Some tt). cbn [mbind option_bind].
  cbv iota. destruct (decide (p1_index a = 0)) as [->|Hn]; [|rewrite (demo_entry 16384 _ 0); [discriminate|cbn; tauto|apply index_range|done]].
  change (read_entry demo_mem 16384 0) with 20487.
  change (is_unused 20487 || negb (has (entry_flags 20487) PRESENT)) with false. cbv iota. by intros [= <- <-].
Qed.

Lemma demo_user_byte a w p : user_byte 0 demo_mem 4096 a w = Some p -> p = 20480 + a mod 4096.
Proof.
  unfold user_byte, translate_user_addr_in_table. destruct (USER_SPACE_END <? a); [done|].
  destruct (user_page_flags_in_table _ _ _ _) as [f|]; [|done]. cbn [mbind option_bind].
  destruct (_ || _); [done|]. destruct (_ && _); [done|]. rewrite translate_leaf.
  destruct (leaf (Some 0) demo_mem 4096 a) as [[e k]|] eqn:El; [|done].
  apply demo_leaf in El as [-> ->]. cbn [mbind option_bind fmap option_fmap option_map fst snd]. by intros [= <-].
Qed.

Lemma demo_step l t k :
  In (t, k) [(4096, 0); (8192, 0); (12288, 2); (16384, 0)] ->
  tables_in l demo_mem demo_tables (entry_addr (read_entry demo_mem t k)) ->
  tables_in (S l) demo_mem demo_tables t.
Proof.
  intros Ht Hn. split; [|].
  - intros x Hx. unfold demo_tables. cbn [In] in Ht.
    destruct Ht as [[= <- <-]|[[= <- <-]|[[= <- <-]|[[= <- <-]|[]]]]]; lia.
  - intros j Hj. cbv zeta. destruct (decide (j = k)) as [->|Hne]; [done|].
    by rewrite (demo_entry t j k).
Qed.

Lemma demo_protected : tables_protected 0 demo_tables demo_mem 4096.
Proof.
  split.
  - apply (demo_step 2 4096 0); [cbn; tauto|]. change (entry_addr _) with 8192.
    apply (demo_step 1 8192 0); [cbn; tauto|]. change (entry_addr _) with 12288.
    apply (demo_step 0 12288 2); [cbn; tauto|]. change (entry_addr _) with 16384.
    split; [|done]. intros x Hx. unfold demo_tables. lia.
  - intros a p Hp%demo_user_byte. unfold demo_tables. pose proof (Z.mod_pos_bound a 4096). lia.
Qed.

Lemma demo_offset : 0 <= 0 /\ 0 + 2 ^ 53 <= U64_MODULUS.
Proof. unfold U64_MODULUS. lia. Qed.

Definition demo_dst : Z := 4194320.

Lemma copy_from_user_equiv_bytewise_witness :
  copy_from_user_in_table (Some 0) demo_mem 4096 demo_dst 3 =
  if range_ok demo_dst 3 then ok_or (from_ref 0 demo_mem 4096 demo_dst 3) (KMemory Memory_InvalidAddress)
  else Err (KMemory Memory_InvalidAddress).
Proof. apply (copy_from_user_equiv_bytewise 0 demo_offset). discriminate. Defined.

Lemma copy_to_user_confined_witness :
  tables_protected 0 demo_tables demo_mem 4096 /\
  let '(r, m') := copy_to_user_in_table (Some 0) demo_mem 4096 demo_dst [1; 2; 3] in
  r = Ok tt /\ agree demo_tables demo_mem m'.
Proof.
  split; [exact demo_protected|].
  pose proof (copy_to_user_confined 0 demo_offset demo_tables demo_mem 4096 demo_dst [1; 2; 3] demo_protected ltac:(discriminate)) as H.
  assert ((copy_to_user_in_table (Some 0) demo_mem 4096 demo_dst [1; 2; 3]).1 = Ok tt) as Hr by (vm_compute; reflexivity).
  destruct (copy_to_user_in_table _ _ _ _ _) as [r m']. split; [exact Hr|apply H].
Defined.

Lemma user_copy_roundtrip_witness :
  copy_from_user_in_table (Some 0) (copy_to_user_in_table (Some 0) demo_mem 4096 demo_dst [1; 2; 3]).2 4096 demo_dst 3
  = Ok [1; 2; 3].
Proof.
  apply (user_copy_roundtrip 0 demo_offset demo_tables demo_mem _ 4096 demo_dst [1; 2; 3] demo_protected).
  - intros i j p Hi Hj H1%demo_user_byte H2%demo_user_byte. cbn [length] in Hi, Hj.
    assert (i = 0 \/ i = 1 \/ i = 2) as Ei by lia. assert (j = 0 \/ j = 1 \/ j = 2) as Ej by lia.
    destruct Ei as [-> | [-> | ->]], Ej as [-> | [-> | ->]]; try reflexivity;
      rewrite H1 in H2; vm_compute in H2; discriminate.
  - rewrite (surjective_pairing (copy_to_user_in_table _ _ _ _ _)). f_equal.
Defined.

Lemma user_range_check_exact_witness :
  is_user_range_mapped_in_table (Some 0) demo_mem 4096 demo_dst 5000 = true <->
  demo_dst + 5000 - 1 <= USER_SPACE_END /\
  forall i, 0 <= i < 5000 -> is_Some (user_byte 0 demo_mem 4096 (demo_dst + i) false).
Proof. apply (user_range_check_exact 0 demo_mem 4096 demo_dst 5000); unfold demo_dst; lia. Defined.
End UserCopy.
