(* ===== verification/Fifo.v ===== *)
(** The interrupt FIFO, [src/core/util/fifo.rs].

    [FifoInner] is the struct behind the mutex: every operation of the source
    takes the lock for its whole body, so an operation is one atomic transition
    of this state.  The const parameter [N] is a section variable. *)

From Stdlib Require Import Lia.
From stdpp Require Import base list option numbers.
From S2P Require Import Prelude Slots Ring Queue.

Local Open Scope nat_scope.

Module Fifo.
Section fifo.
Context {T : Type}.
Context (N : nat).

Record FifoInner := mkFifoInner {
  data : list (option T);
  write_pos : nat;
  read_pos : nat;
  count : nat;
}.

Definition new : FifoInner :=
  {| data := replicate N None; write_pos := 0; read_pos := 0; count := 0 |}.

Definition push (value : T) (inner : FifoInner) : result unit T * FifoInner :=
  if bool_decide (N <= count inner) then (Err value, inner)
  else (Ok tt,
        {| data := <[write_pos inner := Some value]> (data inner);
           write_pos := (write_pos inner + 1) mod N;
           read_pos := read_pos inner;
           count := count inner + 1 |}).

Definition pop (inner : FifoInner) : option T * FifoInner :=
  if bool_decide (count inner = 0) then (None, inner)
  else (data inner !!! read_pos inner,
        {| data := <[read_pos inner := None]> (data inner);
           write_pos := write_pos inner;
           read_pos := (read_pos inner + 1) mod N;
           count := count inner - 1 |}).

Definition is_empty (inner : FifoInner) : bool := bool_decide (count inner = 0).
Definition is_full (inner : FifoInner) : bool := bool_decide (N <= count inner).
Definition len (inner : FifoInner) : nat := count inner.

(** The elements held, oldest first. *)
Definition view (q : FifoInner) : list T :=
  live (ring_view (data q) (read_pos q) (count q)).

(** The representation invariant: the window of [count] cells from [read_pos] is
    full, [write_pos] is its end, and every cell outside it is empty. *)
Definition inv (q : FifoInner) : Prop :=
  length (data q) = N /\ count q <= N /\
  (0 < N -> read_pos q < N /\ write_pos q = (read_pos q + count q) mod N) /\
  Forall is_Some (ring_view (data q) (read_pos q) (count q)).

Lemma view_length q : inv q -> length (view q) = count q.
Proof.
  intros (_ & _ & _ & Hsome). unfold view. by rewrite live_length_all, ring_view_length.
Qed.

Lemma new_inv : inv new.
Proof.
  repeat split; simpl.
  - by rewrite length_replicate.
  - lia.
  - done.
  - by rewrite Nat.Div0.mod_0_l.
  - constructor.
Qed.

Lemma push_room a q : inv q -> count q < N ->
  exists q', push a q = (Ok tt, q') /\ inv q' /\ view q' = view q ++ [a].
Proof.
  intros (Hlen & Hc & Hpos & Hsome) Hlt. unfold push. rewrite bool_decide_false by lia.
  destruct Hpos as [Hr Hw]; [lia|]. eexists. split; [done|].
  assert (ring_view (<[write_pos q:=Some a]> (data q)) (read_pos q) (count q + 1)
    = ring_view (data q) (read_pos q) (count q) ++ [Some a]) as Hring.
  { rewrite Nat.add_1_r, Hw. rewrite <-Hlen. apply ring_view_push. lia. }
  split.
  - repeat split; simpl.
    + by rewrite length_insert.
    + lia.
    + done.
    + rewrite Hw, Nat.Div0.add_mod_idemp_l. f_equal. lia.
    + rewrite Hring, Forall_app. split; [done|]. repeat constructor. eauto.
  - unfold view; simpl. by rewrite Hring, live_app.
Qed.

Lemma pop_nonempty q : inv q -> count q <> 0 ->
  exists a l q', view q = a :: l /\ pop q = (Some a, q') /\ inv q' /\ view q' = l.
Proof.
  intros (Hlen & Hc & Hpos & Hsome) Hne. unfold pop. rewrite bool_decide_false by done.
  destruct Hpos as [Hr Hw]; [lia|]. destruct q as [d w r c]; simpl in *.
  destruct c as [|c]; [done|]. unfold view, inv; simpl.
  rewrite ring_view_cons in Hsome |- * by lia. inversion_clear Hsome as [|? ? [a Ha] Ht].
  rewrite Ha in *. rewrite live_cons.
  assert (ring_view (<[r:=None]> d) ((r + 1) mod N) c = ring_view d (S r mod length d) c) as Hring.
  { rewrite Nat.add_1_r, Hlen, <-Hlen. apply ring_view_pop_clear; lia. }
  do 3 eexists. split; [done|]. split; [done|]. simpl. rewrite Nat.sub_0_r, Hring.
  repeat split; try done.
  - by rewrite length_insert.
  - lia.
  - apply Nat.mod_upper_bound. lia.
  - rewrite Hw, Nat.Div0.add_mod_idemp_l. f_equal. lia.
Qed.

#[export] Program Instance fifo_bounded_queue : BoundedQueue FifoInner T := {|
  bq_new := new; bq_push := push; bq_pop := pop; bq_len := len; bq_capacity := N;
  bq_inv := inv; bq_view := view; bq_new_inv := new_inv |}.
Next Obligation. done. Qed.
Next Obligation. intros q Hq. by rewrite view_length. Qed.
Next Obligation. intros q Hq. rewrite view_length by done. apply Hq. Qed.
Next Obligation.
  intros a q Hq. destruct (decide (count q < N)) as [Hlt|Hge].
  - destruct (push_room a q Hq Hlt) as (q' & -> & ? & _). done.
  - unfold push. by rewrite bool_decide_true by lia.
Qed.
Next Obligation.
  intros a q Hq Hlt. rewrite view_length in Hlt by done.
  destruct (push_room a q Hq Hlt) as (q' & -> & _ & ?). done.
Qed.
Next Obligation.
  intros a q Hq Hfull. rewrite view_length in Hfull by done.
  unfold push. by rewrite bool_decide_true by lia.
Qed.
Next Obligation.
  intros q Hq. destruct (decide (count q = 0)) as [H0|Hne].
  - unfold pop. by rewrite bool_decide_true.
  - destruct (pop_nonempty q Hq Hne) as (a & l & q' & _ & -> & ? & _). done.
Qed.
Next Obligation.
  intros q Hq. destruct (decide (count q = 0)) as [H0|Hne].
  - unfold pop. rewrite bool_decide_true by done.
    pose proof (view_length q Hq) as Hv. rewrite H0 in Hv. destruct (view q) eqn:Ev; [|done]. simpl. by rewrite Ev.
  - destruct (pop_nonempty q Hq Hne) as (a & l & q' & Hv & Hp & _ & Hv'). rewrite Hp, Hv; cbn; by rewrite Hv'.
Qed.
End fifo.
Arguments FifoInner : clear implicits.

(** The ring buffer of [util/fifo.rs] is a bounded FIFO queue: for every
    element type, every capacity [N] and every sequence of [push], [pop] and
    [len] calls from [Fifo::new()], what the callers observe is what a plain
    list of capacity [N] would show (a full buffer returns the value, an empty
    one [None], otherwise elements come out once each in the order they went
    in).  Wrap-around of both cursors is covered because the sequence is
    arbitrarily long. *)
Theorem fifo_refines_queue (T : Type) (N : nat) (ops : list (queue_op T)) :
  impl_run (Q := FifoInner T) (BoundedQueue0 := fifo_bounded_queue N) ops (new N)
  = spec_run N ops [].
Proof.
  exact (impl_run_sim (BoundedQueue0 := fifo_bounded_queue N) ops (new N) (new_inv N)).
Qed.
End Fifo.
