(* ===== verification/FdTable.v ===== *)
(** Per-process file descriptor tables, [src/core/task/fd_table.rs].

    An entry of the table is a raw pointer to a heap-allocated [FileHandle]
    (0 is an empty entry).  The model keeps the pointers, the heap they point
    into and the shared reference counters of remote files
    ([Arc<AtomicUsize>]), so that a double free, a use after free, a leak and a
    wrong reference count are all expressible. *)

From Stdlib Require Import ZArith Lia.
From stdpp Require Import base list option numbers gmap strings.
From S2P Require Import Prelude State.

Local Open Scope Z_scope.

Module FdTable.

Definition FD_BASE : nat := 3.
Definition PROCESS_MAX_FDS : nat := 256.
Definition FD_CLOEXEC : Z := 1.
Definition O_CLOEXEC : Z := 524288.

Record FileHandle := mkFileHandle {
  data : list Z;
  pos : Z;
  dir_path : option string;
  is_remote : bool;
  fd_remote : Z;
  remote_refs : option Z;
  pipe_id : option nat;
  pipe_write : bool;
  open_flags : Z;
}.

Definition new_pipe_read (pipe_id : nat) : FileHandle :=
  {| data := []; pos := 0; dir_path := None; is_remote := false; fd_remote := 0;
     remote_refs := None; pipe_id := Some pipe_id; pipe_write := false; open_flags := 0 |}.

Definition new_pipe_write (pipe_id : nat) : FileHandle :=
  {| data := []; pos := 0; dir_path := None; is_remote := false; fd_remote := 0;
     remote_refs := None; pipe_id := Some pipe_id; pipe_write := true; open_flags := 1 |}.

(** What the kernel asks of the file service about a remote descriptor. *)
Inductive remote_event := RemoteOpen (fd : Z) | RemoteClose (fd : Z).

(** The kernel heap as these tables use it: live [FileHandle]s by address, the
    counters behind the [Arc]s, the next address [Box::new] returns, and the
    requests sent to the file service, latest first. *)
Record Heap := mkHeap {
  handles : gmap Z FileHandle;
  counters : gmap Z Z;
  next_addr : Z;
  trace : list remote_event;
}.

Record FdTable := mkFdTable { entries : list Z; flags : list Z }.

Definition set_handles (f : gmap Z FileHandle -> gmap Z FileHandle) (h : Heap) : Heap :=
  mkHeap (f (handles h)) (counters h) (next_addr h) (trace h).
Definition set_counters (f : gmap Z Z -> gmap Z Z) (h : Heap) : Heap :=
  mkHeap (handles h) (f (counters h)) (next_addr h) (trace h).
Definition log (e : remote_event) (h : Heap) : Heap :=
  mkHeap (handles h) (counters h) (next_addr h) (e :: trace h).

(** [Box::into_raw(Box::new(fh))]: the address of a fresh allocation. *)
Definition box_new (fh : FileHandle) : ST Heap Z := fun h =>
  Some (next_addr h, mkHeap (<[next_addr h := fh]> (handles h)) (counters h) (next_addr h + 1) (trace h)).

(** [Arc::new(AtomicUsize::new(v))] *)
Definition arc_new (v : Z) : ST Heap Z := fun h =>
  Some (next_addr h, mkHeap (handles h) (<[next_addr h := v]> (counters h)) (next_addr h + 1) (trace h)).

(** [refs.fetch_add(1)] and [refs.fetch_sub(1)]: the previous value. *)
Definition fetch_add1 (a : Z) : ST Heap Z :=
  v ← sderef (fun h => counters h !! a);
  smodify (set_counters <[a := wrapping_add64 v 1]>) ≫= fun _ => mret v.
Definition fetch_sub1 (a : Z) : ST Heap Z :=
  v ← sderef (fun h => counters h !! a);
  smodify (set_counters <[a := wrapping_sub64 v 1]>) ≫= fun _ => mret v.

Definition close_remote_fd_from_kernel (fd : Z) : ST Heap unit := smodify (log (RemoteClose fd)).

Definition clone_remote_refs (fh : FileHandle) : ST Heap (option Z) :=
  if negb (is_remote fh) then mret None
  else match remote_refs fh with
       | None => mret None
       | Some refs => fetch_add1 refs ≫= fun _ => mret (Some refs)
       end.

(** [Drop for FileHandle], followed by the release of its memory. *)
Definition drop_handle (fh : FileHandle) : ST Heap unit :=
  if negb (is_remote fh) then mret tt
  else match remote_refs fh with
       | Some refs =>
           old ← fetch_sub1 refs;
           if old =? 1 then close_remote_fd_from_kernel (fd_remote fh) else mret tt
       | None => close_remote_fd_from_kernel (fd_remote fh)
       end.

(** [drop(Box::from_raw(ptr))] *)
Definition drop_box (ptr : Z) : ST Heap unit :=
  fh ← sderef (fun h => handles h !! ptr);
  drop_handle fh ≫= fun _ => smodify (set_handles (delete ptr)).

(** Operations on a table also touch the heap. *)
Definition TM := ST (FdTable * Heap).
Definition in_heap {A} (m : ST Heap A) : TM A := fun '(t, h) =>
  match m h with Some (a, h') => Some (a, (t, h')) | None => None end.
Definition set_entry (i : nat) (p : Z) : TM unit :=
  smodify (fun '(t, h) => (mkFdTable (<[i:=p]> (entries t)) (flags t), h)).
Definition set_flag (i : nat) (v : Z) : TM unit :=
  smodify (fun '(t, h) => (mkFdTable (entries t) (<[i:=v]> (flags t)), h)).
Definition the_table : TM FdTable := fun '(t, h) => Some (t, (t, h)).

Definition new_boxed : FdTable :=
  {| entries := replicate PROCESS_MAX_FDS 0; flags := replicate PROCESS_MAX_FDS 0 |}.

Definition fd_range : list nat := seq FD_BASE (PROCESS_MAX_FDS - FD_BASE).
#[global] Arguments fd_range : simpl never.
#[global] Arguments new_boxed : simpl never.
#[global] Arguments PROCESS_MAX_FDS : simpl never.

(** The loop of [alloc]: the first empty entry from [FD_BASE] on. *)
Fixpoint first_empty (es : list Z) (ks : list nat) : option nat :=
  match ks with
  | [] => None
  | i :: ks => if es !!! i =? 0 then Some i else first_empty es ks
  end.

(** [alloc]: [ptr] is [Box::into_raw(handle)]. *)
Definition alloc (ptr : Z) (cloexec : bool) : TM (option nat) :=
  t ← the_table;
  match first_empty (entries t) fd_range with
  | Some i =>
      set_entry i ptr ≫= fun _ =>
      set_flag i (if cloexec then FD_CLOEXEC else 0) ≫= fun _ => mret (Some i)
  | None => in_heap (drop_box ptr) ≫= fun _ => mret None
  end.

Definition fd_in_range (fd : nat) : bool :=
  negb (bool_decide (fd < FD_BASE)%nat || bool_decide (PROCESS_MAX_FDS <= fd)%nat).

Definition get_raw (t : FdTable) (fd : nat) : option Z :=
  if negb (fd_in_range fd) then None
  else let ptr := entries t !!! fd in
       if ptr =? 0 then None else Some ptr.

(** [get]: [None] inside is an empty descriptor, undefined behaviour is a
    pointer that is not live. *)
Definition get (fd : nat) : TM (option FileHandle) :=
  t ← the_table;
  match get_raw t fd with
  | None => mret None
  | Some ptr => fh ← in_heap (sderef (fun h => handles h !! ptr)); mret (Some fh)
  end.

(** [get_mut], with what the caller does through the reference: it computes a
    result and the new contents of the handle. *)
Definition get_mut {R} (fd : nat) (f : FileHandle -> R * FileHandle) : TM (option R) :=
  t ← the_table;
  match get_raw t fd with
  | None => mret None
  | Some ptr =>
      fh ← in_heap (sderef (fun h => handles h !! ptr));
      in_heap (smodify (set_handles <[ptr := (f fh).2]>)) ≫= fun _ => mret (Some (f fh).1)
  end.

(** [take] hands the allocation to the caller: the pointer leaves the table. *)
Definition take (fd : nat) : TM (option Z) :=
  t ← the_table;
  if negb (fd_in_range fd) then mret None
  else let ptr := entries t !!! fd in
       if ptr =? 0 then mret None
       else set_entry fd 0 ≫= fun _ => set_flag fd 0 ≫= fun _ => mret (Some ptr).

(** [self.take(fd).is_some()]: the box is dropped at the end of the statement. *)
Definition close_fd (fd : nat) : TM bool :=
  o ← take fd;
  match o with
  | Some ptr => in_heap (drop_box ptr) ≫= fun _ => mret true
  | None => mret false
  end.

Definition close_cloexec_step (i : nat) : TM unit :=
  t ← the_table;
  if negb (entries t !!! i =? 0) && negb (Z.land (flags t !!! i) FD_CLOEXEC =? 0) then
    set_entry i 0 ≫= fun _ => set_flag i 0 ≫= fun _ => in_heap (drop_box (entries t !!! i))
  else mret tt.

Definition close_cloexec_fds : TM unit := sfor fd_range close_cloexec_step.

Definition close_all_step (i : nat) : TM unit :=
  t ← the_table;
  if negb (entries t !!! i =? 0) then
    set_entry i 0 ≫= fun _ => in_heap (drop_box (entries t !!! i))
  else mret tt.

(** [close_all], which is also [Drop for FdTable]. *)
Definition close_all : TM unit := sfor fd_range close_all_step.

(** [FileHandle { remote_refs: refs, .. }] with every other field copied. *)
Definition with_refs (fh : FileHandle) (refs : option Z) : FileHandle :=
  {| data := data fh; pos := pos fh; dir_path := dir_path fh;
     is_remote := is_remote fh; fd_remote := fd_remote fh; remote_refs := refs;
     pipe_id := pipe_id fh; pipe_write := pipe_write fh; open_flags := open_flags fh |}.

(** The [Box::new(FileHandle { .. })] of [dup], [dup2] and [clone_for_fork]: a
    field-by-field copy that shares the counter. *)
Definition copy_box (fh : FileHandle) : ST Heap Z :=
  refs ← clone_remote_refs fh;
  box_new (with_refs fh refs).

(** One iteration of [clone_for_fork] ([self] is not modified; the state is the
    new table). *)
Definition clone_step (self : FdTable) (i : nat) : TM unit :=
  let ptr := entries self !!! i in
  if ptr =? 0 then mret tt
  else
    fh ← in_heap (sderef (fun h => handles h !! ptr));
    p ← in_heap (copy_box fh);
    set_entry i p ≫= fun _ => set_flag i (flags self !!! i).

Definition clone_for_fork (self : FdTable) : ST Heap FdTable := fun h =>
  match sfor fd_range (clone_step self) (new_boxed, h) with
  | Some (_, (t, h')) => Some (t, h')
  | None => None
  end.

Definition get_flags (t : FdTable) (fd : nat) : option Z :=
  if negb (fd_in_range fd) then None
  else if entries t !!! fd =? 0 then None else Some (flags t !!! fd).

Definition set_flags (fd : nat) (v : Z) : TM bool :=
  t ← the_table;
  if negb (fd_in_range fd) then mret false
  else if entries t !!! fd =? 0 then mret false
  else set_flag fd v ≫= fun _ => mret true.

(** ** The ownership and reference-count invariant *)

(** The remote descriptors that are open after a history of requests; [None] if
    the history opens an open descriptor or closes one that is not open. *)
Fixpoint replay (tr : list remote_event) : option (gset Z) :=
  match tr with
  | [] => Some ∅
  | e :: tr =>
      opened ← replay tr;
      match e with
      | RemoteOpen r => if decide (r ∈ opened) then None else Some ({[r]} ∪ opened)
      | RemoteClose r => if decide (r ∈ opened) then Some (opened ∖ {[r]}) else None
      end
  end.

(** How many live handles share the counter [a]. *)
Definition refcount (a : Z) (hs : gmap Z FileHandle) : nat :=
  size (filter (fun kv => remote_refs kv.2 = Some a) hs).

(** [owned] is the list of all pointers the kernel holds (table entries of every
    process and boxes in flight). *)
Record heap_inv (owned : list Z) (h : Heap) : Prop := {
  hi_owned : owned ≡ₚ elements (dom (handles h));
  hi_addr p fh : handles h !! p = Some fh -> 0 < p < next_addr h;
  hi_next : 0 < next_addr h;
  hi_arc a v : counters h !! a = Some v -> a < next_addr h;
  hi_refs p fh : handles h !! p = Some fh ->
    match remote_refs fh with
    | Some a => is_remote fh = true /\ is_Some (counters h !! a)
    | None => is_remote fh = false
    end;
  hi_count a v : counters h !! a = Some v -> v = Z.of_nat (refcount a (handles h));
  hi_range a v : counters h !! a = Some v -> v <= U64_MAX;
  hi_share p q fh gh a b : handles h !! p = Some fh -> handles h !! q = Some gh ->
    remote_refs fh = Some a -> remote_refs gh = Some b ->
    (a = b <-> fd_remote fh = fd_remote gh);
  hi_trace : exists opened, replay (trace h) = Some opened /\
    forall r, r ∈ opened <->
      exists p fh, handles h !! p = Some fh /\ is_remote fh = true /\ fd_remote fh = r;
}.

#[export] Instance heap_inv_proper : Proper ((≡ₚ) ==> eq ==> iff) heap_inv.
Proof.
  assert (forall o1 o2 h, o1 ≡ₚ o2 -> heap_inv o1 h -> heap_inv o2 h) as H.
  { intros o1 o2 h Hp []. split; try done. by rewrite <-Hp. }
  intros o1 o2 Hp h ? <-. split; apply H; [done|by symmetry].
Qed.

Lemma refcount_insert a hs p fh :
  hs !! p = None ->
  refcount a (<[p:=fh]> hs) =
  (refcount a hs + if decide (remote_refs fh = Some a) then 1 else 0)%nat.
Proof.
  intros Hp. unfold refcount. case_decide as E.
  - rewrite map_filter_insert_True by done. rewrite map_size_insert_None; [lia|].
    apply map_lookup_filter_None_2. by left.
  - rewrite map_filter_insert_False by done. rewrite delete_id by done. lia.
Qed.

Lemma refcount_delete a hs p fh :
  hs !! p = Some fh ->
  refcount a hs =
  (refcount a (delete p hs) + if decide (remote_refs fh = Some a) then 1 else 0)%nat.
Proof.
  intros Hp. rewrite <-(insert_delete_id hs p fh Hp) at 1.
  rewrite refcount_insert; [done|]. apply lookup_delete_eq.
Qed.

Lemma refcount_replace a hs p fh fh' :
  hs !! p = Some fh -> remote_refs fh' = remote_refs fh ->
  refcount a (<[p:=fh']> hs) = refcount a hs.
Proof.
  intros Hp E. rewrite (refcount_delete a hs p fh Hp).
  rewrite <-insert_delete_eq, refcount_insert by apply lookup_delete_eq. by rewrite E.
Qed.

Lemma refcount_pos a hs p fh :
  hs !! p = Some fh -> remote_refs fh = Some a -> (0 < refcount a hs)%nat.
Proof. intros Hp E. rewrite (refcount_delete a hs p fh Hp), decide_True by done. lia. Qed.

Lemma refcount_exists a hs :
  (0 < refcount a hs)%nat -> exists p fh, hs !! p = Some fh /\ remote_refs fh = Some a.
Proof.
  intros H. unfold refcount in H.
  destruct (map_choose (filter (fun kv => remote_refs kv.2 = Some a) hs)) as (p & fh & E).
  { intros E. rewrite E, map_size_empty in H. lia. }
  apply map_lookup_filter_Some in E as [? ?]. eauto.
Qed.

Lemma refcount_le a hs : (refcount a hs <= size hs)%nat.
Proof. apply map_subseteq_size, map_filter_subseteq. Qed.

Lemma heap_inv_size owned h : heap_inv owned h -> length owned = size (handles h).
Proof.
  intros Hi. rewrite (hi_owned _ _ Hi). by rewrite <-size_dom.
Qed.

Lemma heap_inv_live owned h p : heap_inv owned h -> p ∈ owned -> is_Some (handles h !! p).
Proof.
  intros Hi. rewrite (hi_owned _ _ Hi), elem_of_elements. by rewrite elem_of_dom.
Qed.

Lemma heap_inv_nodup owned h : heap_inv owned h -> NoDup owned.
Proof. intros Hi. rewrite (hi_owned _ _ Hi). apply NoDup_elements. Qed.

Lemma heap_inv_fresh owned h : heap_inv owned h -> handles h !! next_addr h = None.
Proof.
  intros Hi. destruct (handles h !! next_addr h) eqn:E; [|done].
  apply (hi_addr _ _ Hi) in E. lia.
Qed.

Lemma owned_insert owned h p fh :
  owned ≡ₚ elements (dom (handles h)) -> handles h !! p = None ->
  p :: owned ≡ₚ elements (dom (<[p:=fh]> (handles h))).
Proof.
  intros Ho Hp. rewrite dom_insert, elements_union_singleton by (by apply not_elem_of_dom).
  by rewrite Ho.
Qed.

Lemma owned_delete owned (h : Heap) p :
  p :: owned ≡ₚ elements (dom (handles h)) ->
  owned ≡ₚ elements (dom (delete p (handles h))).
Proof.
  intros Ho.
  assert (p ∈ dom (handles h)) as Hp.
  { apply elem_of_elements. rewrite <-Ho. left. }
  apply (Permutation.Permutation_cons_inv (a:=p)). rewrite Ho.
  rewrite dom_delete_L.
  rewrite <-elements_union_singleton by set_solver.
  rewrite <-(union_difference_singleton_L p) by done. done.
Qed.

(** *** Heap operations keep the invariant *)

Lemma box_new_local owned h fh :
  heap_inv owned h -> is_remote fh = false -> remote_refs fh = None ->
  exists p h', box_new fh h = Some (p, h') /\ heap_inv (p :: owned) h' /\
    handles h' = <[p:=fh]> (handles h) /\ handles h !! p = None /\ trace h' = trace h.
Proof.
  intros Hi Hl Hr. pose proof (heap_inv_fresh _ _ Hi) as Hf.
  eexists _, _. split; [done|]. repeat split_and!; try done. destruct Hi. split; simpl.
  - by apply owned_insert.
  - intros p gh [[<- <-]|[? Hp]]%lookup_insert_Some; [lia|]. specialize (hi_addr0 _ _ Hp). lia.
  - lia.
  - intros a v Ha. specialize (hi_arc0 _ _ Ha). lia.
  - intros p gh [[<- <-]|[? Hp]]%lookup_insert_Some; [by rewrite Hr|]. by apply (hi_refs0 p).
  - intros a v Ha. rewrite refcount_insert by done.
    rewrite decide_False by (by rewrite Hr). rewrite Nat.add_0_r. by apply hi_count0.
  - done.
  - intros p q gh1 gh2 a b [[<- <-]|[? Hp]]%lookup_insert_Some; [by rewrite Hr|].
    intros [[<- <-]|[? Hq]]%lookup_insert_Some; [by rewrite Hr|]. by apply (hi_share0 p q).
  - destruct hi_trace0 as (o & Ho & Hm). exists o. split; [done|]. intros r. rewrite Hm. split.
    + intros (p & gh & Hp & ?). exists p, gh. split; [|done]. apply lookup_insert_Some. right.
      split; [congruence|done].
    + intros (p & gh & [[<- <-]|[? Hp]]%lookup_insert_Some & Hrem & ?); [congruence|eauto].
Qed.

(** Replacing the contents of a live handle without touching its remote fields. *)
Lemma heap_inv_update owned h p fh fh' :
  heap_inv owned h -> handles h !! p = Some fh ->
  is_remote fh' = is_remote fh -> fd_remote fh' = fd_remote fh -> remote_refs fh' = remote_refs fh ->
  heap_inv owned (set_handles <[p:=fh']> h).
Proof.
  intros Hi Hp E1 E2 E3.
  assert (forall q gh, <[p:=fh']> (handles h) !! q = Some gh -> exists gh0, handles h !! q = Some gh0 /\
    is_remote gh = is_remote gh0 /\ fd_remote gh = fd_remote gh0 /\ remote_refs gh = remote_refs gh0) as Hold.
  { intros q gh [[<- <-]|[? Hq]]%lookup_insert_Some; eauto 10. }
  destruct Hi. split; simpl; try done.
  - rewrite dom_insert_lookup_L by eauto. done.
  - intros q gh (gh0 & Hq & _)%Hold. eauto.
  - intros q gh (gh0 & Hq & ER & _ & ->)%Hold. rewrite ER. by apply (hi_refs0 q).
  - intros a v Ha. rewrite (refcount_replace a _ p fh) by done. by apply hi_count0.
  - intros q1 q2 g1 g2 a b (k1 & H1 & _ & -> & ->)%Hold (k2 & H2 & _ & -> & ->)%Hold.
    by apply (hi_share0 q1 q2).
  - destruct hi_trace0 as (o & Ho & Hm). exists o. split; [done|]. intros r. rewrite Hm. split.
    + intros (q & gh & Hq & Hr & Hf). destruct (decide (p = q)) as [<-|Hne].
      * rewrite Hp in Hq. injection Hq as <-. exists p, fh'. rewrite lookup_insert_eq, E1, E2. done.
      * exists q, gh. by rewrite lookup_insert_ne.
    + intros (q & gh & (gh0 & Hq & -> & -> & _)%Hold & ?). eauto.
Qed.

(** Opening a remote file: the service returned descriptor [r], which no live
    handle uses; its handle starts with a counter of its own at 1. *)
Definition open_remote_box (r : Z) (fh : option Z -> FileHandle) : ST Heap Z :=
  smodify (log (RemoteOpen r)) ≫= fun _ =>
  a ← arc_new 1;
  box_new (fh (Some a)).

Lemma open_remote_box_inv owned h r (mk : option Z -> FileHandle) :
  heap_inv owned h ->
  (forall p fh, handles h !! p = Some fh -> is_remote fh = true -> fd_remote fh <> r) ->
  (forall o, is_remote (mk o) = true /\ fd_remote (mk o) = r /\ remote_refs (mk o) = o) ->
  exists p h', open_remote_box r mk h = Some (p, h') /\ heap_inv (p :: owned) h' /\
    handles h' = <[p:=mk (Some (next_addr h))]> (handles h) /\ handles h !! p = None.
Proof.
  intros Hi Hfresh Hmk. destruct (Hmk (Some (next_addr h))) as (M1 & M2 & M3).
  assert (handles h !! (next_addr h + 1) = None) as Hf.
  { destruct (handles h !! (next_addr h + 1)) eqn:E; [|done]. apply (hi_addr _ _ Hi) in E. lia. }
  assert (counters h !! next_addr h = None) as Hc.
  { destruct (counters h !! next_addr h) eqn:E; [|done]. apply (hi_arc _ _ Hi) in E. lia. }
  assert (forall q gh, handles h !! q = Some gh -> remote_refs gh <> Some (next_addr h)) as Hno.
  { intros q gh Hq E. apply (hi_refs _ _ Hi) in Hq. rewrite E, Hc in Hq. by destruct Hq as [_ [? ?]]. }
  exists (next_addr h + 1). eexists. split; [done|].
  repeat split_and!; try done. destruct Hi. split; simpl.
  - by apply owned_insert.
  - intros p gh [[<- <-]|[? Hp]]%lookup_insert_Some; [lia|]. specialize (hi_addr0 _ _ Hp). lia.
  - lia.
  - intros a v [[<- <-]|[? Ha]]%lookup_insert_Some; [lia|]. specialize (hi_arc0 _ _ Ha). lia.
  - intros p gh [[<- <-]|[? Hp]]%lookup_insert_Some.
    + rewrite M3. split; [done|]. rewrite lookup_insert_eq. eauto.
    + specialize (hi_refs0 p gh Hp). destruct (remote_refs gh) as [a|]; [|done].
      split; [apply hi_refs0|]. destruct (decide (next_addr h = a)) as [<-|Hne].
      * rewrite lookup_insert_eq. eauto.
      * rewrite lookup_insert_ne by done. apply hi_refs0.
  - intros a v Ha. rewrite refcount_insert by done. rewrite M3.
    apply lookup_insert_Some in Ha as [[<- <-]|[Hne Ha]].
    + rewrite decide_True by done.
      assert (refcount (next_addr h) (handles h) = 0%nat) as ->; [|done].
      destruct (decide (0 < refcount (next_addr h) (handles h))%nat) as [Hpos|]; [|lia].
      apply refcount_exists in Hpos as (q & gh & Hq & E). by destruct (Hno q gh Hq).
    + rewrite decide_False by congruence. rewrite Nat.add_0_r. by apply hi_count0.
  - intros a v [[<- <-]|[? Ha]]%lookup_insert_Some; [done|eauto].
  - intros p q g1 g2 a b [[<- <-]|[? Hp]]%lookup_insert_Some [[<- <-]|[? Hq]]%lookup_insert_Some Ea Eb.
    + rewrite M3 in *. split; congruence.
    + rewrite M3 in Ea. injection Ea as <-. split; intros E; [by destruct (Hno q g2); subst|].
      destruct (Hfresh q g2 Hq); [|congruence]. specialize (hi_refs0 q g2 Hq). rewrite Eb in hi_refs0. apply hi_refs0.
    + rewrite M3 in Eb. injection Eb as <-. split; intros E; [by destruct (Hno p g1); subst|].
      destruct (Hfresh p g1 Hp); [|congruence]. specialize (hi_refs0 p g1 Hp). rewrite Ea in hi_refs0. apply hi_refs0.
    + by apply (hi_share0 p q).
  - destruct hi_trace0 as (o & Ho & Hm). exists ({[r]} ∪ o). rewrite Ho. simpl. split.
    + rewrite decide_False; [done|]. rewrite Hm. intros (p & gh & Hp & ? & ?). by destruct (Hfresh p gh Hp).
    + intros r'. rewrite elem_of_union, elem_of_singleton, Hm. split.
      * intros [->|(p & gh & Hp & ?)]; [exists (next_addr h + 1), (mk (Some (next_addr h))); by rewrite lookup_insert_eq|].
        exists p, gh. split; [|done]. rewrite lookup_insert_ne by congruence. done.
      * intros (p & gh & [[<- <-]|[? Hp]]%lookup_insert_Some & ? & ?); [left; congruence|right; eauto].
Qed.

Lemma with_refs_id fh : with_refs fh (remote_refs fh) = fh.
Proof. by destruct fh. Qed.

Lemma copy_box_inv owned h q fh :
  heap_inv owned h -> handles h !! q = Some fh -> Z.of_nat (length owned) < U64_MAX ->
  exists p h', copy_box fh h = Some (p, h') /\ heap_inv (p :: owned) h' /\
    handles h' = <[p:=fh]> (handles h) /\ handles h !! p = None.
Proof.
  intros Hi Hq Hbound. pose proof (heap_inv_fresh _ _ Hi) as Hf.
  pose proof (hi_refs _ _ Hi q fh Hq) as Hrefs. unfold copy_box, clone_remote_refs.
  destruct (remote_refs fh) as [a|] eqn:Ea; [destruct Hrefs as [Hrem [v Hv]]|].
  2: { destruct (box_new_local owned h fh Hi Hrefs Ea) as (p & h' & Hb & ? & ? & ? & ?).
       exists p, h'. split; [|done]. rewrite Hrefs. simpl. unfold mbind, ST_bind. cbn.
       by rewrite <-Ea, with_refs_id. }
  rewrite Hrem. simpl. unfold fetch_add1, mbind, ST_bind, sderef. rewrite Hv. cbn.
  rewrite <-Ea, with_refs_id.
  eexists _, _. split; [done|]. repeat split_and!; try done.
  pose proof (hi_count _ _ Hi a v Hv) as Hcv.
  assert (v < U64_MAX) as Hlt.
  { pose proof (refcount_le a (handles h)). rewrite <-(heap_inv_size _ _ Hi) in *. lia. }
  assert (wrapping_add64 v 1 = v + 1) as -> by (unfold_u64; apply Z.mod_small; lia).
  destruct Hi. split; simpl.
  - by apply owned_insert.
  - intros p gh [[<- <-]|[? Hp]]%lookup_insert_Some; [lia|]. specialize (hi_addr0 _ _ Hp). lia.
  - lia.
  - intros b w [[<- <-]|[? Hb]]%lookup_insert_Some; [specialize (hi_arc0 _ _ Hv)|specialize (hi_arc0 _ _ Hb)]; lia.
  - intros p gh Hp.
    assert (exists p0, handles h !! p0 = Some gh) as [p0 Hp0].
    { apply lookup_insert_Some in Hp as [[_ <-]|[_ Hp]]; eauto. }
    specialize (hi_refs0 p0 gh Hp0). destruct (remote_refs gh) as [b|]; [|done].
    split; [apply hi_refs0|]. destruct (decide (a = b)) as [<-|Hne].
    + rewrite lookup_insert_eq. eauto.
    + rewrite lookup_insert_ne by done. apply hi_refs0.
  - intros b w Hb. rewrite refcount_insert by done. rewrite Ea.
    apply lookup_insert_Some in Hb as [[<- <-]|[Hne Hb]].
    + rewrite decide_True by done. lia.
    + rewrite decide_False by congruence. rewrite Nat.add_0_r. by apply hi_count0.
  - intros b w [[<- <-]|[? Hb]]%lookup_insert_Some; [lia|eauto].
  - intros p1 p2 g1 g2 b c H1 H2.
    assert (exists p0, handles h !! p0 = Some g1) as [p01 Hp01].
    { apply lookup_insert_Some in H1 as [[_ <-]|[_ H1]]; eauto. }
    assert (exists p0, handles h !! p0 = Some g2) as [p02 Hp02].
    { apply lookup_insert_Some in H2 as [[_ <-]|[_ H2]]; eauto. }
    by apply (hi_share0 p01 p02).
  - destruct hi_trace0 as (o & Ho & Hm). exists o. split; [done|]. intros r. rewrite Hm. split.
    + intros (p & gh & Hp & ?). exists p, gh. split; [|done]. rewrite lookup_insert_ne by congruence. done.
    + intros (p & gh & [[<- <-]|[? Hp]]%lookup_insert_Some & ? & ?); eauto.
Qed.

(** Removing a handle, whatever was done to the counters and the trace, as long
    as those agree with the remaining handles. *)
Lemma heap_inv_remove owned h p cs tr :
  heap_inv (p :: owned) h ->
  (forall b w, cs !! b = Some w -> is_Some (counters h !! b) /\ w <= U64_MAX /\
     w = Z.of_nat (refcount b (delete p (handles h)))) ->
  (forall b, is_Some (counters h !! b) -> is_Some (cs !! b)) ->
  (exists opened, replay tr = Some opened /\ forall r, r ∈ opened <->
     exists q gh, delete p (handles h) !! q = Some gh /\ is_remote gh = true /\ fd_remote gh = r) ->
  heap_inv owned (mkHeap (delete p (handles h)) cs (next_addr h) tr).
Proof.
  intros Hi Hc Hd Ht.
  assert (forall q gh, delete p (handles h) !! q = Some gh -> handles h !! q = Some gh) as Hsub.
  { intros q gh [_ ?]%lookup_delete_Some. done. }
  pose proof (owned_delete _ _ _ (hi_owned _ _ Hi)).
  destruct Hi. split; simpl; try done.
  - eauto.
  - intros a v Ha. destruct (Hc a v Ha) as [[w Hw] _]. eauto.
  - intros q gh Hq%Hsub. specialize (hi_refs0 q gh Hq). destruct (remote_refs gh); naive_solver.
  - intros a v Ha. by destruct (Hc a v Ha) as (_ & _ & ?).
  - intros a v Ha. by destruct (Hc a v Ha) as (_ & ? & _).
  - intros q1 q2 g1 g2 a b H1%Hsub H2%Hsub. by apply (hi_share0 q1 q2).
Qed.

(** After the last handle of counter [a] goes, its descriptor has no user; before
    that, the set of remote descriptors in use is unchanged. *)
Lemma remote_in_use_delete owned h p fh a r :
  heap_inv owned h -> handles h !! p = Some fh -> remote_refs fh = Some a ->
  (exists q gh, delete p (handles h) !! q = Some gh /\ is_remote gh = true /\ fd_remote gh = r) <->
  (exists q gh, handles h !! q = Some gh /\ is_remote gh = true /\ fd_remote gh = r) /\
  (fd_remote fh = r -> (0 < refcount a (delete p (handles h)))%nat).
Proof.
  intros Hi Hp Ea. split.
  - intros (q & gh & [Hne Hq]%lookup_delete_Some & Hrem & Hfd). split; [eauto|]. intros Hr.
    pose proof (hi_refs _ _ Hi q gh Hq) as Hrf.
    destruct (remote_refs gh) as [b|] eqn:Eb; [|congruence].
    assert (a = b) as <- by (apply (hi_share _ _ Hi p q fh gh a b); [done..|congruence]).
    apply (refcount_pos _ _ q gh); [|done]. by apply lookup_delete_Some.
  - intros [(q & gh & Hq & Hrem & Hfd) Hr]. destruct (decide (p = q)) as [<-|Hne].
    + assert (gh = fh) as -> by congruence.
      destruct (refcount_exists _ _ (Hr Hfd)) as (q' & g' & [Hne' Hq']%lookup_delete_Some & Eb).
      exists q', g'. split; [by apply lookup_delete_Some|]. split.
      * pose proof (hi_refs _ _ Hi q' g' Hq') as Hrf. rewrite Eb in Hrf. apply Hrf.
      * rewrite <-Hfd. symmetry. apply (hi_share _ _ Hi p q' fh g' a a); try done.
    + exists q, gh. split; [by apply lookup_delete_Some|done].
Qed.

(** A dropped handle leaves the heap; the file service is told exactly when it
    was the last handle that shares its counter. *)
Lemma drop_box_inv owned h p :
  heap_inv (p :: owned) h ->
  exists h', drop_box p h = Some (tt, h') /\ heap_inv owned h' /\
    handles h' = delete p (handles h).
Proof.
  intros Hi. destruct (heap_inv_live _ _ p Hi) as [fh Hp]; [left|].
  pose proof (hi_refs _ _ Hi p fh Hp) as Hrefs.
  unfold drop_box, drop_handle, mbind, ST_bind, sderef. rewrite Hp.
  destruct (remote_refs fh) as [a|] eqn:Ea.
  - destruct Hrefs as [Hrem [v Hv]]. rewrite Hrem. simpl. unfold fetch_sub1, mbind, ST_bind, sderef.
    rewrite Hv. cbn. pose proof (hi_count _ _ Hi a v Hv) as Hcv.
    rewrite (refcount_delete a _ p fh Hp), decide_True in Hcv by done.
    pose proof (hi_range _ _ Hi a v Hv) as Hrange.
    assert (wrapping_sub64 v 1 = v - 1) as -> by (unfold_u64; apply Z.mod_small; lia).
    assert (forall b w, <[a:=v-1]> (counters h) !! b = Some w -> is_Some (counters h !! b) /\
      w <= U64_MAX /\ w = Z.of_nat (refcount b (delete p (handles h)))) as Hcount.
    { intros b w [[<- <-]|[Hne Hb]]%lookup_insert_Some; [eauto with lia|].
      split; [eauto|]. split; [by apply (hi_range _ _ Hi b)|].
      rewrite (hi_count _ _ Hi b w Hb), (refcount_delete b _ p fh Hp).
      rewrite decide_False by congruence. lia. }
    assert (forall b, is_Some (counters h !! b) -> is_Some (<[a:=v-1]> (counters h) !! b)) as Hdom.
    { intros b ?. rewrite lookup_insert. case_decide; eauto. }
    destruct (hi_trace _ _ Hi) as (o & Ho & Hm).
    assert (fd_remote fh ∈ o) as Hin by (apply Hm; eauto).
    pose proof (fun r => remote_in_use_delete _ h p fh a r Hi Hp Ea) as Huse.
    destruct (Z.eqb_spec v 1) as [Hv1|Hv1]; cbn; eexists; (split; [done|]); split; try done;
      apply (heap_inv_remove owned h p); try done.
    + simpl. rewrite Ho. simpl. rewrite decide_True by done. eexists; split; [done|].
      intros r. rewrite Huse, elem_of_difference, elem_of_singleton, Hm. split; intros [? Hr]; (split; [done|]).
      * by intros <-.
      * intros ->. specialize (Hr eq_refl). lia.
    + exists o. split; [done|]. intros r. rewrite Huse, Hm. split; [|by intros [? _]].
      intros ?. split; [done|lia].
  - rewrite Hrefs. cbn. eexists. split; [done|]. split; [|done]. apply (heap_inv_remove owned h p); try done.
    + intros b w Hb. split; [eauto|]. split; [by apply (hi_range _ _ Hi b)|].
      rewrite (hi_count _ _ Hi b w Hb), (refcount_delete b _ p fh Hp), Ea. simpl. lia.
    + destruct (hi_trace _ _ Hi) as (o & Ho & Hm). exists o. split; [done|]. intros r. rewrite Hm. split.
      * intros (q & gh & Hq & ?). exists q, gh. split; [|done]. apply lookup_delete_Some.
        split; [|done]. intros <-. naive_solver congruence.
      * intros (q & gh & [_ Hq]%lookup_delete_Some & ?). eauto.
Qed.

(** ** Tables *)

(** The pointers a table owns. *)
Definition ptrs (t : FdTable) : list Z := filter (fun p => p <> 0) (entries t).

Definition table_wf (t : FdTable) : Prop :=
  length (entries t) = PROCESS_MAX_FDS /\ length (flags t) = PROCESS_MAX_FDS /\
  forall i, (i < FD_BASE)%nat -> entries t !!! i = 0.

Lemma filter_insert_nz (l : list Z) i (p q : Z) :
  l !! i = Some q ->
  (if decide (q = 0) then [] else [q]) ++ filter (fun p => p <> 0) (<[i:=p]> l) ≡ₚ
  (if decide (p = 0) then [] else [p]) ++ filter (fun p => p <> 0) l.
Proof.
  intros Hi. pose proof (lookup_lt_Some _ _ _ Hi).
  rewrite (insert_take_drop l i p) by done. rewrite <-(take_drop_middle l i q Hi) at 3.
  rewrite !filter_app, !filter_cons.
  destruct (decide (q = 0)), (decide (q <> 0)), (decide (p = 0)), (decide (p <> 0)); try done; simpl;
    rewrite <-?Permutation_middle; try done. apply perm_swap.
Qed.

Lemma lookup_total_Some (l : list Z) i p :
  (i < length l)%nat -> l !!! i = p -> l !! i = Some p.
Proof. intros Hi <-. by apply list_lookup_lookup_total_lt. Qed.

Lemma ptrs_fill t i p fl :
  table_wf t -> (i < PROCESS_MAX_FDS)%nat -> entries t !!! i = 0 -> p <> 0 ->
  ptrs (mkFdTable (<[i:=p]> (entries t)) fl) ≡ₚ p :: ptrs t.
Proof.
  intros (Hl & _) Hi He Hp. unfold ptrs; simpl.
  pose proof (filter_insert_nz (entries t) i p 0) as H.
  rewrite decide_True, decide_False in H by done. apply H. apply lookup_total_Some; [lia|done].
Qed.

Lemma ptrs_clear t i p fl :
  table_wf t -> (i < PROCESS_MAX_FDS)%nat -> entries t !!! i = p -> p <> 0 ->
  ptrs t ≡ₚ p :: ptrs (mkFdTable (<[i:=0]> (entries t)) fl).
Proof.
  intros (Hl & _) Hi He Hp. unfold ptrs; simpl.
  pose proof (filter_insert_nz (entries t) i 0 p) as H.
  rewrite decide_False, decide_True in H by done. symmetry. apply H. apply lookup_total_Some; [lia|done].
Qed.

Lemma elem_of_ptrs t i p :
  table_wf t -> (i < PROCESS_MAX_FDS)%nat -> entries t !!! i = p -> p <> 0 -> p ∈ ptrs t.
Proof.
  intros (Hl & _) Hi He Hp. apply list_elem_of_filter. split; [done|].
  apply list_elem_of_lookup. exists i. apply lookup_total_Some; [lia|done].
Qed.

Lemma table_wf_set t i p v :
  table_wf t -> (FD_BASE <= i)%nat -> table_wf (mkFdTable (<[i:=p]> (entries t)) (<[i:=v]> (flags t))).
Proof.
  intros (H1 & H2 & H3) Hi. repeat split; simpl; rewrite ?length_insert; try done.
  intros j Hj. rewrite list_lookup_total_insert_ne by lia. by apply H3.
Qed.

Lemma table_wf_set_entry t i p :
  table_wf t -> (FD_BASE <= i)%nat -> table_wf (mkFdTable (<[i:=p]> (entries t)) (flags t)).
Proof.
  intros (H1 & H2 & H3) Hi. repeat split; simpl; rewrite ?length_insert; try done.
  intros j Hj. rewrite list_lookup_total_insert_ne by lia. by apply H3.
Qed.

Lemma new_boxed_wf : table_wf new_boxed.
Proof.
  repeat split; try done. intros i Hi. unfold new_boxed, entries. apply lookup_total_replicate_2. unfold FD_BASE, PROCESS_MAX_FDS in *. lia.
Qed.

Lemma new_boxed_ptrs : ptrs new_boxed = [].
Proof. vm_compute. reflexivity. Qed.

Lemma elem_of_fd_range i : i ∈ fd_range <-> (FD_BASE <= i < PROCESS_MAX_FDS)%nat.
Proof. unfold fd_range. rewrite elem_of_seq. unfold FD_BASE, PROCESS_MAX_FDS. lia. Qed.

Lemma fd_in_range_true fd : fd_in_range fd = true <-> (FD_BASE <= fd < PROCESS_MAX_FDS)%nat.
Proof. unfold fd_in_range. rewrite negb_true_iff, orb_false_iff, !bool_decide_eq_false. lia. Qed.

(** What the loop of [alloc] finds. *)
Lemma first_empty_Some es ks i :
  first_empty es ks = Some i -> i ∈ ks /\ es !!! i = 0.
Proof.
  induction ks as [|k ks IH]; simpl; [done|]. case_test.
  - intros [= <-]. split; [left|done].
  - intros [? ?]%IH. split; [by right|done].
Qed.

Lemma first_empty_min es a n i j :
  first_empty es (seq a n) = Some i -> (a <= j < i)%nat -> es !!! j <> 0.
Proof.
  revert a. induction n as [|n IH]; intros a; simpl; [done|]. case_test; [intros [= <-]; lia|].
  intros H' Hj. destruct (decide (j = a)) as [->|]; [done|]. apply (IH (S a)); [done|lia].
Qed.

Lemma first_empty_None es ks : first_empty es ks = None <-> forall i, i ∈ ks -> es !!! i <> 0.
Proof.
  induction ks as [|k ks IH]; simpl; [split; [intros _ i Hi; by apply elem_of_nil in Hi|done]|].
  case_test.
  - split; [done|]. intros H'. by destruct (H' k (list_elem_of_here _ _)).
  - rewrite IH. split.
    + intros H' i [->|?]%elem_of_cons; eauto.
    + intros H' i ?. apply H'. by right.
Qed.

Lemma alloc_eq t h p c :
  alloc p c (t, h) =
  match first_empty (entries t) fd_range with
  | Some i => Some (Some i, (mkFdTable (<[i:=p]> (entries t)) (<[i:=if c then FD_CLOEXEC else 0]> (flags t)), h))
  | None => match drop_box p h with Some (_, h') => Some (None, (t, h')) | None => None end
  end.
Proof.
  unfold alloc, mbind, ST_bind, the_table. destruct (first_empty (entries t) fd_range); [done|].
  unfold in_heap. by destruct (drop_box p h) as [[? ?]|].
Qed.

(** [alloc] moves the box into the lowest free descriptor, or drops it when the
    table is full; in both cases every pointer stays owned exactly once. *)
Lemma alloc_inv t h p c rest :
  table_wf t -> p <> 0 -> heap_inv (p :: ptrs t ++ rest) h ->
  exists r t' h', alloc p c (t, h) = Some (r, (t', h')) /\ table_wf t' /\
    heap_inv (ptrs t' ++ rest) h' /\
    match r with
    | Some i => (FD_BASE <= i < PROCESS_MAX_FDS)%nat /\ entries t !!! i = 0 /\
        (forall j, (FD_BASE <= j < i)%nat -> entries t !!! j <> 0) /\ h' = h /\
        t' = mkFdTable (<[i:=p]> (entries t)) (<[i:=if c then FD_CLOEXEC else 0]> (flags t))
    | None => t' = t /\ (forall j, (FD_BASE <= j < PROCESS_MAX_FDS)%nat -> entries t !!! j <> 0) /\
        handles h' = delete p (handles h)
    end.
Proof.
  intros Ht Hp Hi. rewrite alloc_eq.
  destruct (first_empty (entries t) fd_range) as [i|] eqn:E.
  - apply first_empty_Some in E as E'. destruct E' as [Hr He]. apply elem_of_fd_range in Hr.
    eexists _, _, _. split; [done|]. split; [apply table_wf_set; [done|lia]|]. split.
    + rewrite ptrs_fill by (done || lia). done.
    + repeat split_and!; try done; try lia. intros j Hj. by apply (first_empty_min _ _ _ i j E).
  - destruct (drop_box_inv _ h p Hi) as (h' & Hd & Hi' & Hh). rewrite Hd.
    eexists _, _, _. split; [done|]. split; [done|]. split; [done|]. split; [done|]. split; [|done].
    intros j Hj. rewrite first_empty_None in E. apply E. by apply elem_of_fd_range.
Qed.
(** Clearing an occupied entry and dropping what it pointed to. *)
Lemma clear_entry_inv t h i fl rest :
  table_wf t -> (FD_BASE <= i < PROCESS_MAX_FDS)%nat -> entries t !!! i <> 0 ->
  heap_inv (ptrs t ++ rest) h ->
  exists h', drop_box (entries t !!! i) h = Some (tt, h') /\
    heap_inv (ptrs (mkFdTable (<[i:=0]> (entries t)) fl) ++ rest) h' /\
    handles h' = delete (entries t !!! i) (handles h).
Proof.
  intros Ht Hr He Hi. apply drop_box_inv. revert Hi. rewrite (ptrs_clear t i _ fl) by (done || lia). done.
Qed.

Lemma take_eq t h fd :
  take fd (t, h) =
  match get_raw t fd with
  | None => Some (None, (t, h))
  | Some p => Some (Some p, (mkFdTable (<[fd:=0]> (entries t)) (<[fd:=0]> (flags t)), h))
  end.
Proof.
  unfold take, get_raw, mbind, ST_bind, the_table. destruct (fd_in_range fd); simpl; [|done].
  by destruct (entries t !!! fd =? 0).
Qed.

Lemma get_raw_Some t fd p :
  get_raw t fd = Some p <-> (FD_BASE <= fd < PROCESS_MAX_FDS)%nat /\ entries t !!! fd = p /\ p <> 0.
Proof.
  unfold get_raw. destruct (fd_in_range fd) eqn:E; simpl.
  - apply fd_in_range_true in E. case_test; split; try done; naive_solver.
  - split; [done|]. intros [H%fd_in_range_true _]. congruence.
Qed.

Lemma close_fd_inv t h fd rest :
  table_wf t -> heap_inv (ptrs t ++ rest) h ->
  exists t' h', close_fd fd (t, h) = Some (bool_decide (is_Some (get_raw t fd)), (t', h')) /\
    table_wf t' /\ heap_inv (ptrs t' ++ rest) h' /\
    match get_raw t fd with
    | None => t' = t /\ h' = h
    | Some p => t' = mkFdTable (<[fd:=0]> (entries t)) (<[fd:=0]> (flags t)) /\
                handles h' = delete p (handles h)
    end.
Proof.
  intros Ht Hi. unfold close_fd, mbind, ST_bind. rewrite take_eq.
  destruct (get_raw t fd) as [p|] eqn:E.
  - apply get_raw_Some in E as (Hr & <- & Hp).
    destruct (clear_entry_inv t h fd (<[fd:=0]> (flags t)) rest Ht Hr Hp Hi) as (h' & Hd & Hi' & Hh).
    unfold in_heap. rewrite Hd. eexists _, _. split; [done|].
    split; [apply table_wf_set; [done|lia]|]. done.
  - by eexists _, _.
Qed.

Definition cloexec_bit (t : FdTable) (i : nat) : bool := negb (Z.land (flags t !!! i) FD_CLOEXEC =? 0).

(** The state of the sweep of [execve] when the descriptors [ks] are left to do. *)
Definition cloexec_swept (t : FdTable) (rest : list Z) (ks : list nat) (s : FdTable * Heap) : Prop :=
  NoDup ks /\ (forall i, i ∈ ks -> i ∈ fd_range) /\
  table_wf s.1 /\ heap_inv (ptrs s.1 ++ rest) s.2 /\
  forall i, i ∈ fd_range ->
    entries s.1 !!! i = (if bool_decide (i ∉ ks) && cloexec_bit t i then 0 else entries t !!! i) /\
    (i ∈ ks -> flags s.1 !!! i = flags t !!! i).

Lemma close_cloexec_step_inv t rest x ks s :
  cloexec_swept t rest (x :: ks) s ->
  exists s', close_cloexec_step x s = Some (tt, s') /\ cloexec_swept t rest ks s'.
Proof.
  destruct s as [u h]. intros (Hnd & Hsub & Hu & Hi & Hsw). simpl in *.
  apply NoDup_cons in Hnd as [Hx Hnd].
  assert (x ∈ fd_range) as Hxr by (apply Hsub; left). pose proof (proj1 (elem_of_fd_range x) Hxr) as Hr.
  destruct (Hsw x Hxr) as [Hex Hfx]. rewrite bool_decide_false in Hex by (intros []; left). simpl in Hex.
  specialize (Hfx (list_elem_of_here _ _)).
  assert (forall i, i <> x -> bool_decide (i ∉ x :: ks) = bool_decide (i ∉ ks)) as Hbd.
  { intros i Hne. apply bool_decide_ext. rewrite not_elem_of_cons. naive_solver. }
  unfold close_cloexec_step, mbind, ST_bind, the_table.
  destruct (decide (entries u !!! x <> 0 /\ cloexec_bit t x = true)) as [[He Hc]|Hno].
  - rewrite Hfx. fold (cloexec_bit t x). rewrite Hc, (proj2 (Z.eqb_neq _ _) He). simpl.
    destruct (clear_entry_inv u h x (<[x:=0]> (flags u)) rest Hu Hr He Hi) as (h' & Hd & Hi' & _).
    unfold in_heap. rewrite Hd. eexists. split; [done|].
    split; [done|]. split; [intros i ?; apply Hsub; by right|]. split; [apply table_wf_set; [done|lia]|].
    split; [done|]. intros i Hir. simpl. destruct (decide (i = x)) as [->|Hne].
    + rewrite list_lookup_total_insert_eq by (destruct Hu as [-> _]; lia).
      rewrite bool_decide_true by done. by rewrite Hc.
    + rewrite !list_lookup_total_insert_ne by done. destruct (Hsw i Hir) as [-> Hf].
      rewrite Hbd by done. split; [done|]. intros ?. apply Hf. by right.
  - rewrite Hfx. fold (cloexec_bit t x).
    assert (negb (entries u !!! x =? 0) && cloexec_bit t x = false) as ->.
    { destruct (cloexec_bit t x), (Z.eqb_spec (entries u !!! x) 0); naive_solver. }
    eexists. split; [done|]. split; [done|]. split; [intros i ?; apply Hsub; by right|].
    split; [done|]. split; [done|]. intros i Hir. simpl. destruct (Hsw i Hir) as [Hei Hf].
    destruct (decide (i = x)) as [->|Hne].
    + rewrite bool_decide_true by done. rewrite Hex. split; [|done].
      destruct (cloexec_bit t x); simpl; [|done]. destruct (decide (entries t !!! x = 0)); [done|].
      destruct Hno. by rewrite Hex.
    + rewrite <-Hbd by done. split; [done|]. intros ?. apply Hf. by right.
Qed.

Lemma close_cloexec_fds_inv t h rest :
  table_wf t -> heap_inv (ptrs t ++ rest) h ->
  exists t' h', close_cloexec_fds (t, h) = Some (tt, (t', h')) /\ table_wf t' /\
    heap_inv (ptrs t' ++ rest) h' /\
    forall i, i ∈ fd_range ->
      entries t' !!! i = if cloexec_bit t i then 0 else entries t !!! i.
Proof.
  intros Ht Hi.
  destruct (sfor_inv (cloexec_swept t rest) close_cloexec_step fd_range (t, h))
    as ([t' h'] & He & _ & _ & Ht' & Hi' & Hsw).
  - split; [apply NoDup_seq|]. split; [done|]. split; [done|]. split; [done|].
    intros i Hi0. by rewrite bool_decide_false by tauto.
  - intros. by apply close_cloexec_step_inv.
  - exists t', h'. split; [done|]. split; [done|]. split; [done|]. intros i Hir. cbn [fst] in Hsw. destruct (Hsw i Hir) as [-> _].
    by rewrite bool_decide_true by apply not_elem_of_nil.
Qed.
Lemma close_all_inv t h rest :
  table_wf t -> heap_inv (ptrs t ++ rest) h ->
  exists t' h', close_all (t, h) = Some (tt, (t', h')) /\ ptrs t' = [] /\ heap_inv rest h'.
Proof.
  intros Ht Hi.
  destruct (sfor_inv (fun ks s => (forall i, i ∈ ks -> i ∈ fd_range) /\ table_wf s.1 /\
      heap_inv (ptrs s.1 ++ rest) s.2 /\ forall i, i ∈ fd_range -> i ∉ ks -> entries s.1 !!! i = 0)
      close_all_step fd_range (t, h)) as ([t' h'] & He & _ & Ht' & Hi' & Hz).
  - split; [done|]. split; [done|]. split; [done|]. done.
  - intros x ks [u k] (Hsub & Hu & Hk & Hz). simpl in *. unfold close_all_step, mbind, ST_bind, the_table.
    assert (x ∈ fd_range) as Hxr by (apply Hsub; left). pose proof (proj1 (elem_of_fd_range x) Hxr) as Hr.
    destruct (Z.eqb_spec (entries u !!! x) 0) as [E|E]; simpl.
    + eexists. split; [done|]. split; [intros; apply Hsub; by right|]. split; [done|]. split; [done|].
      intros i Hir Hni. destruct (decide (i = x)) as [->|]; [done|]. apply Hz; [done|].
      rewrite not_elem_of_cons. done.
    + destruct (clear_entry_inv u k x (flags u) rest Hu Hr E Hk) as (h' & Hd & Hi' & _).
      unfold in_heap. rewrite Hd. eexists. split; [done|]. split; [intros; apply Hsub; by right|].
      split; [apply table_wf_set_entry; [done|lia]|]. split; [done|]. simpl.
      intros i Hir Hni. destruct (decide (i = x)) as [->|].
      * rewrite list_lookup_total_insert_eq by (destruct Hu as [-> _]; lia). done.
      * rewrite list_lookup_total_insert_ne by done. apply Hz; [done|]. rewrite not_elem_of_cons. done.
  - simpl in *. assert (ptrs t' = []) as Hnil.
    { destruct (ptrs t') as [|p l] eqn:Ep; [done|]. assert (p ∈ ptrs t') as Hin by (rewrite Ep; left).
      apply list_elem_of_filter in Hin as [Hn Hp]. apply list_elem_of_lookup in Hp as [i Hp]. destruct Hn.
      destruct Ht' as (Hl & _ & Hlow). pose proof (lookup_lt_Some _ _ _ Hp).
      apply list_lookup_total_correct in Hp as <-.
      destruct (decide (i < FD_BASE)%nat); [by apply Hlow|].
      apply Hz; [apply elem_of_fd_range; lia|]. apply not_elem_of_nil. }
    exists t', h'. rewrite Hnil in Hi'. done.
Qed.

(** The copy made by [fork]: descriptor [i] of the child. *)
Definition cloned_entry (self t' : FdTable) (h h' : Heap) (i : nat) : Prop :=
  if entries self !!! i =? 0 then entries t' !!! i = 0
  else exists fh, handles h !! (entries self !!! i) = Some fh /\
       entries t' !!! i <> 0 /\ handles h !! (entries t' !!! i) = None /\
       handles h' !! (entries t' !!! i) = Some fh /\ flags t' !!! i = flags self !!! i.

Lemma ptrs_length t : table_wf t -> (length (ptrs t) <= PROCESS_MAX_FDS)%nat.
Proof. intros (Hl & _). rewrite <-Hl. apply length_filter. Qed.

Definition fork_progress (self : FdTable) (h : Heap) (rest : list Z) (ks : list nat)
    (s : FdTable * Heap) : Prop :=
  NoDup ks /\ (forall i, i ∈ ks -> i ∈ fd_range) /\ table_wf s.1 /\
  heap_inv (ptrs s.1 ++ rest) s.2 /\ handles h ⊆ handles s.2 /\
  (forall i, i ∈ ks -> entries s.1 !!! i = 0) /\
  forall i, i ∈ fd_range -> i ∉ ks -> cloned_entry self s.1 h s.2 i.

Lemma clone_step_inv self h rest x ks s :
  (forall i, i ∈ fd_range -> entries self !!! i <> 0 -> is_Some (handles h !! (entries self !!! i))) ->
  Z.of_nat (PROCESS_MAX_FDS + length rest) < U64_MAX ->
  fork_progress self h rest (x :: ks) s ->
  exists s', clone_step self x s = Some (tt, s') /\ fork_progress self h rest ks s'.
Proof.
  intros Hself Hb. destruct s as [u k]. intros (Hnd & Hsub & Hu & Hk & Hm & Hz & Hdone). cbn [fst snd] in *.
  apply NoDup_cons in Hnd as [Hx Hnd].
  assert (x ∈ fd_range) as Hxr by (apply Hsub; left). pose proof (proj1 (elem_of_fd_range x) Hxr) as Hr.
  assert (forall i, i ∈ ks -> i ∈ fd_range) as Hsub' by (intros; apply Hsub; by right).
  specialize (Hz x (list_elem_of_here _ _)) as Hzx.
  unfold clone_step, mbind, ST_bind. destruct (Z.eqb_spec (entries self !!! x) 0) as [E|E].
  - eexists. split; [done|]. split; [done|]. split; [done|]. split; [done|]. split; [done|]. split; [done|].
    split; [intros; apply Hz; by right|]. simpl. intros i Hir Hni.
    destruct (decide (i = x)) as [->|].
    + unfold cloned_entry. by rewrite E.
    + apply Hdone; [done|]. by rewrite not_elem_of_cons.
  - destruct (Hself x Hxr E) as [fh Hfh]. unfold in_heap at 1, sderef.
    rewrite (lookup_weaken _ _ _ _ Hfh Hm).
    destruct (copy_box_inv (ptrs u ++ rest) k (entries self !!! x) fh Hk) as (p & k' & Hc & Hk' & Hh & Hp).
    { by apply (lookup_weaken _ _ _ _ Hfh Hm). }
    { pose proof (ptrs_length u Hu). rewrite length_app. lia. }
    unfold in_heap. rewrite Hc.
    assert (p <> 0) as Hp0.
    { assert (handles k' !! p = Some fh) as Hkp by (rewrite Hh; apply lookup_insert_eq).
      apply (hi_addr _ _ Hk') in Hkp. lia. }
    assert (handles h !! p = None) as Hhp.
    { destruct (handles h !! p) eqn:Eh; [|done]. by rewrite (lookup_weaken _ _ _ _ Eh Hm) in Hp. }
    assert (length (entries u) = PROCESS_MAX_FDS /\ length (flags u) = PROCESS_MAX_FDS) as [Hle Hlf].
    { by destruct Hu as (? & ? & _). }
    exists (mkFdTable (<[x:=p]> (entries u)) (<[x:=flags self !!! x]> (flags u)), k').
    split; [done|]. split; [done|]. split; [done|]. split; [apply table_wf_set; [done|lia]|].
    split. { cbn [fst snd]. rewrite ptrs_fill by (done || lia). done. }
    split. { simpl. rewrite Hh. etrans; [exact Hm|]. by apply insert_subseteq. }
    split. { intros i Hi. simpl. rewrite list_lookup_total_insert_ne by congruence. apply Hz. by right. }
    intros i Hir Hni. unfold cloned_entry. simpl. destruct (decide (i = x)) as [->|Hne].
    + rewrite (proj2 (Z.eqb_neq _ _) E), !list_lookup_total_insert_eq by lia.
      exists fh. rewrite Hh, lookup_insert_eq. done.
    + rewrite !list_lookup_total_insert_ne by done.
      specialize (Hdone i Hir). rewrite not_elem_of_cons in Hdone. specialize (Hdone (conj Hne Hni)).
      unfold cloned_entry in Hdone. case_test; [done|]. destruct Hdone as (gh & ? & ? & ? & Hg & ?).
      exists gh. repeat split_and!; try done. rewrite Hh, lookup_insert_ne by congruence. done.
Qed.

Lemma clone_for_fork_inv self h rest :
  table_wf self -> heap_inv rest h -> (forall p, p ∈ ptrs self -> p ∈ rest) ->
  Z.of_nat (PROCESS_MAX_FDS + length rest) < U64_MAX ->
  exists t' h', clone_for_fork self h = Some (t', h') /\ table_wf t' /\
    heap_inv (ptrs t' ++ rest) h' /\ handles h ⊆ handles h' /\
    forall i, i ∈ fd_range -> cloned_entry self t' h h' i.
Proof.
  intros Hs Hi Hin Hb.
  destruct (sfor_inv (fork_progress self h rest) (clone_step self) fd_range (new_boxed, h))
    as ([t' h'] & He & _ & _ & Ht' & Hi' & Hm & _ & Hd).
  - split; [apply NoDup_seq|]. split; [done|]. split; [apply new_boxed_wf|].
    split; [cbn [fst snd]; by rewrite new_boxed_ptrs|]. split; [done|]. split; [|done].
    intros i Hir%elem_of_fd_range. unfold new_boxed, entries. cbn [fst].
    apply lookup_total_replicate_2. lia.
  - intros. apply clone_step_inv; [|done|done]. intros i Hir He. apply (heap_inv_live _ _ _ Hi), Hin.
    apply elem_of_fd_range in Hir. apply (elem_of_ptrs self i); [done|lia|done|done].
  - unfold clone_for_fork. rewrite He. exists t', h'. split; [done|]. split; [done|]. split; [done|].
    split; [done|]. intros i Hir. apply Hd; [done|]. apply not_elem_of_nil.
Qed.
End FdTable.
