(* ===== verification/FdSyscalls.v ===== *)
(** The descriptor system calls of [src/core/syscall/fs.rs] ([close], [seek],
    local [read]/[write], [fcntl], [fsync], [ftruncate], [dup], [dup2], the end of
    [open]) with [fork], [execve] and process exit as they act on descriptors.

    The state is what those calls share: every process's table, the heap of file
    handles, and the process of the current thread. *)

From Stdlib Require Import ZArith Lia.
From stdpp Require Import base list option numbers gmap strings.
From S2P Require Import Prelude State Types FdTable.
Import FdTable.

Local Open Scope Z_scope.

Module Fs.

Definition MAX_PROCESSES : nat := 64.

Record World := mkWorld {
  tables : gmap Z FdTable;
  current : option Z;
  heap : Heap;
}.

Definition W := ST World.

Definition current_process_id_raw : W (option Z) := fun w => Some (current w, w).

(** [with_fd_table_mut(pid, f)].  When the process is gone the closure is
    dropped unrun, and with it the boxes it captured: [missing]. *)
Definition with_fd_table_mut {R} (pid : Z) (f : TM R) (missing : ST Heap unit) : W (option R) := fun w =>
  match tables w !! pid with
  | Some t =>
      match f (t, heap w) with
      | Some (r, (t', h')) => Some (Some r, mkWorld (<[pid:=t']> (tables w)) (current w) h')
      | None => None
      end
  | None =>
      match missing (heap w) with
      | Some (_, h') => Some (None, mkWorld (tables w) (current w) h')
      | None => None
      end
  end.

(** [with_fd_table(pid, f)] for a closure that captures nothing that needs
    dropping. *)
Definition with_fd_table {R} (pid : Z) (f : TM R) : W (option R) := with_fd_table_mut pid f (mret tt).

Definition on_heap {A} (m : ST Heap A) : W A := fun w =>
  match m (heap w) with
  | Some (a, h') => Some (a, mkWorld (tables w) (current w) h')
  | None => None
  end.

Definition O_ACCMODE : Z := 3.
Definition O_WRONLY : Z := 1.
Definition O_RDWR : Z := 2.
Definition O_CREAT : Z := 64.
Definition O_EXCL : Z := 128.
Definition O_TRUNC : Z := 512.
Definition O_APPEND : Z := 1024.

Definition is_tty_like_path (path : string) : bool :=
  bool_decide (path = "/dev/tty") || bool_decide (path = "/dev/console") ||
  bool_decide (path = "/dev/stdin") || bool_decide (path = "/dev/stdout") ||
  bool_decide (path = "/dev/stderr") || String.prefix "/dev/pts/" path.

Definition make_tty_handle (path : string) : FileHandle :=
  let tty_path := if is_tty_like_path path then path else "/dev/tty" in
  {| data := []; pos := 0; dir_path := Some tty_path; is_remote := false; fd_remote := 0;
     remote_refs := None; pipe_id := None; pipe_write := false; open_flags := O_RDWR |}.

Definition has_write_intent (flags : Z) : bool :=
  let acc := Z.land flags O_ACCMODE in
  (acc =? O_WRONLY) || (acc =? O_RDWR) || negb (Z.land flags (Z.lor O_CREAT O_TRUNC) =? 0).

Definition cloexec_flag (flags : Z) : bool := negb (Z.land flags O_CLOEXEC =? 0).

Definition fd_or (r : option (option nat)) (e : Z) : Z :=
  match r with Some (Some fd) => Z.of_nat fd | _ => e end.

(** [with_fd_table_mut(pid, |t| t.alloc(handle, cloexec))] *)
Definition alloc_for (pid ptr : Z) (cloexec : bool) : W (option (option nat)) :=
  with_fd_table_mut pid (alloc ptr cloexec) (drop_box ptr).

(** Installing a handle that is not remote (terminal, local or fallback file). *)
Definition install_local (pid : Z) (fh : FileHandle) (cloexec : bool) : W Z :=
  ptr ← on_heap (box_new fh);
  r ← alloc_for pid ptr cloexec;
  mret (fd_or r ENOSYS).

Definition remote_handle (remote_fd : Z) (dir : option string) (flags : Z) (refs : option Z) : FileHandle :=
  {| data := []; pos := 0; dir_path := dir; is_remote := true; fd_remote := remote_fd;
     remote_refs := refs; pipe_id := None; pipe_write := false; open_flags := flags |}.

(** The end of [open_resolved_for_pid] for a descriptor [remote_fd] that the file
    service just returned: the handle, its counter, and the error path. *)
Definition install_remote (pid remote_fd : Z) (dir : option string) (flags : Z) : W Z :=
  ptr ← on_heap (open_remote_box remote_fd (remote_handle remote_fd dir flags));
  r ← alloc_for pid ptr (cloexec_flag flags);
  match r with
  | Some (Some fd) => mret (Z.of_nat fd)
  | _ => on_heap (close_remote_fd_from_kernel remote_fd) ≫= fun _ => mret ENOSYS
  end.

Definition close (fd : Z) : W Z :=
  if fd <? Z.of_nat FD_BASE then mret EBADF
  else if Z.of_nat PROCESS_MAX_FDS <=? fd then mret EBADF
  else
    pid ← current_process_id_raw;
    match pid with
    | None => mret EBADF
    | Some p =>
        handle ← with_fd_table_mut p (take (Z.to_nat fd)) (mret tt);
        match handle with
        | Some (Some ptr) => on_heap (drop_box ptr) ≫= fun _ => mret SUCCESS
        | _ => mret EBADF
        end
    end.

Definition set_pos (fh : FileHandle) (p : Z) : FileHandle :=
  {| data := data fh; pos := p; dir_path := dir_path fh; is_remote := is_remote fh;
     fd_remote := fd_remote fh; remote_refs := remote_refs fh; pipe_id := pipe_id fh;
     pipe_write := pipe_write fh; open_flags := open_flags fh |}.

Definition set_data (fh : FileHandle) (d : list Z) (p : Z) : FileHandle :=
  {| data := d; pos := p; dir_path := dir_path fh; is_remote := is_remote fh;
     fd_remote := fd_remote fh; remote_refs := remote_refs fh; pipe_id := pipe_id fh;
     pipe_write := pipe_write fh; open_flags := open_flags fh |}.

Definition set_open_flags (fh : FileHandle) (f : Z) : FileHandle :=
  {| data := data fh; pos := pos fh; dir_path := dir_path fh; is_remote := is_remote fh;
     fd_remote := fd_remote fh; remote_refs := remote_refs fh; pipe_id := pipe_id fh;
     pipe_write := pipe_write fh; open_flags := f |}.

(** The closure of [seek].  [remote_size] is what the file service answers to
    [fstat]; [i64] arithmetic wraps. *)
Definition seek_handle (remote_size : Z -> result Z Z) (offset whence : Z) (fh : FileHandle) :
    result Z Z * FileHandle :=
  let remote_len : result (option Z) Z :=
    if is_remote fh then
      match remote_size (fd_remote fh) with
      | Err e => Err e
      | Ok size => if size <? 9223372036854775808 then Ok (Some size) else Err EINVAL
      end
    else Ok None in
  match remote_len with
  | Err e => (Err e, fh)
  | Ok rl =>
      let new_pos : result Z Z :=
        if whence =? 0 then Ok offset
        else if whence =? 1 then Ok (as_i64 (wrap64 (as_i64 (pos fh) + offset)))
        else if whence =? 2 then
          Ok (as_i64 (wrap64 (default (Z.of_nat (length (data fh))) rl + offset)))
        else Err EINVAL in
      match new_pos with
      | Err e => (Err e, fh)
      | Ok np =>
          if np <? 0 then (Err EINVAL, fh)
          else
            let np := if is_remote fh then np else Z.min np (Z.of_nat (length (data fh))) in
            (Ok np, set_pos fh np)
      end
  end.

(** The local branch of [read]: the bytes handed to [copy_to_user]. *)
Definition read_handle (len : Z) (fh : FileHandle) : list Z * FileHandle :=
  let avail := Z.max (Z.of_nat (length (data fh)) - pos fh) 0 in
  if avail =? 0 then ([], fh)
  else
    let to_read := Z.min avail len in
    (firstn (Z.to_nat to_read) (skipn (Z.to_nat (pos fh)) (data fh)), set_pos fh (pos fh + to_read)).

(** The closure of [write]. *)
Definition write_handle (buf : list Z) (fh : FileHandle) : result Z Z * FileHandle :=
  if is_remote fh then (Err ENOSYS, fh)
  else
    match checked_add64 (pos fh) (Z.of_nat (length buf)) with
    | None => (Err EINVAL, fh)
    | Some en =>
        let d := if Z.of_nat (length (data fh)) <? en then resize (Z.to_nat en) 0 (data fh) else data fh in
        (Ok (Z.of_nat (length buf)),
         set_data fh (firstn (Z.to_nat (pos fh)) d ++ buf ++ skipn (Z.to_nat en) d) en)
    end.

(** The closure of [ftruncate]. *)
Definition ftruncate_handle (new_len : Z) (fh : FileHandle) : result Z Z * FileHandle :=
  if is_remote fh then (Err ENOSYS, fh)
  else (Ok SUCCESS,
        set_data fh (resize (Z.to_nat new_len) 0 (data fh))
          (if new_len <? pos fh then new_len else pos fh)).

(** The guards the descriptor calls share: range, current process, handle. *)
Definition on_handle (fd low_err : Z) (f : FileHandle -> result Z Z * FileHandle) : W Z :=
  if fd <? Z.of_nat FD_BASE then mret low_err
  else if Z.of_nat PROCESS_MAX_FDS <=? fd then mret EBADF
  else
    pid ← current_process_id_raw;
    match pid with
    | None => mret EBADF
    | Some p =>
        r ← with_fd_table_mut p (get_mut (Z.to_nat fd) f) (mret tt);
        match r with
        | Some (Some (Ok v)) => mret v
        | Some (Some (Err e)) => mret e
        | Some None | None => mret EBADF
        end
    end.

Definition seek (remote_size : Z -> result Z Z) (fd offset whence : Z) : W Z :=
  on_handle fd ENOSYS (seek_handle remote_size offset whence).

Definition ftruncate (fd len : Z) : W Z := on_handle fd EBADF (ftruncate_handle len).

(** [write] after its buffer was copied in, [read] of a local file before its
    bytes are copied out. *)
Definition write_local (fd : Z) (buf : list Z) : W Z := on_handle fd EBADF (write_handle buf).
Definition read_local (fd len : Z) : W Z :=
  on_handle fd EBADF (fun fh =>
    if is_remote fh then (Ok 0, fh)
    else let '(bytes, fh') := read_handle len fh in (Ok (Z.of_nat (length bytes)), fh')).

Definition F_GETFD : Z := 1.
Definition F_SETFD : Z := 2.
Definition F_GETFL : Z := 3.
Definition F_SETFL : Z := 4.
Definition F_GETLK : Z := 5.
Definition F_SETLK : Z := 6.
Definition F_SETLKW : Z := 7.

Definition fcntl (fd cmd arg : Z) : W Z :=
  if fd <? Z.of_nat FD_BASE then
    mret (if (cmd =? F_GETFD) || (cmd =? F_GETFL) || (cmd =? F_GETLK) then 0
          else if (cmd =? F_SETFD) || (cmd =? F_SETFL) || (cmd =? F_SETLK) || (cmd =? F_SETLKW)
          then SUCCESS else EINVAL)
  else if Z.of_nat PROCESS_MAX_FDS <=? fd then mret EBADF
  else
    let idx := Z.to_nat fd in
    pid ← current_process_id_raw;
    match pid with
    | None => mret EBADF
    | Some p =>
        if cmd =? F_GETFD then
          r ← with_fd_table p (t ← the_table; mret (get_flags t idx));
          mret (match r with Some (Some f) => f | _ => EBADF end)
        else if cmd =? F_SETFD then
          r ← with_fd_table_mut p (set_flags idx (if negb (Z.land arg 1 =? 0) then FD_CLOEXEC else 0)) (mret tt);
          mret (match r with Some true => SUCCESS | _ => EBADF end)
        else if cmd =? F_GETFL then
          r ← with_fd_table p (get idx);
          mret (match r with Some (Some fh) => open_flags fh | _ => EBADF end)
        else if cmd =? F_SETFL then
          r ← with_fd_table_mut p (get_mut idx (fun fh =>
                (tt, set_open_flags fh (Z.lor (Z.land (open_flags fh) O_ACCMODE) (Z.ldiff arg O_ACCMODE)))))
                (mret tt);
          mret (match r with Some (Some _) => SUCCESS | Some None => EBADF | None => EBADF end)
        else if (cmd =? F_GETLK) || (cmd =? F_SETLK) || (cmd =? F_SETLKW) then mret SUCCESS
        else mret EINVAL
    end.

Definition fsync (fd : Z) : W Z :=
  if fd <? Z.of_nat FD_BASE then mret SUCCESS
  else if Z.of_nat PROCESS_MAX_FDS <=? fd then mret EBADF
  else
    pid ← current_process_id_raw;
    match pid with
    | None => mret EBADF
    | Some p =>
        r ← with_fd_table p (get (Z.to_nat fd));
        mret (match r with Some (Some _) => SUCCESS | _ => EBADF end)
    end.

(** [with_fd_table(pid, |t| t.get(idx).map(|fh| Box::new(FileHandle { .. })))] *)
Definition clone_fd (idx : nat) : TM (option Z) :=
  o ← get idx;
  match o with
  | None => mret None
  | Some fh => p ← in_heap (copy_box fh); mret (Some p)
  end.

Definition dup (fd : Z) : W Z :=
  if fd <? Z.of_nat FD_BASE then
    pid ← current_process_id_raw;
    match pid with
    | None => mret EBADF
    | Some p => install_local p (make_tty_handle "/dev/tty") false
    end
  else if Z.of_nat PROCESS_MAX_FDS <=? fd then mret EBADF
  else
    pid ← current_process_id_raw;
    match pid with
    | None => mret EBADF
    | Some p =>
        cloned ← with_fd_table p (clone_fd (Z.to_nat fd));
        match cloned with
        | Some (Some ptr) => r ← alloc_for p ptr false; mret (fd_or r ENOSYS)
        | _ => mret EBADF
        end
    end.

(** The last closure of [dup2]: close what [new_idx] holds, then store the box. *)
Definition replace_fd (new_idx : nat) (ptr : Z) : TM unit :=
  close_fd new_idx ≫= fun _ => set_entry new_idx ptr ≫= fun _ => set_flag new_idx 0.

Definition dup2 (old_fd new_fd : Z) : W Z :=
  if (new_fd <? Z.of_nat FD_BASE) || (Z.of_nat PROCESS_MAX_FDS <=? new_fd) then mret EBADF
  else if old_fd =? new_fd then
    if old_fd <? Z.of_nat FD_BASE then mret old_fd
    else
      pid ← current_process_id_raw;
      match pid with
      | None => mret EBADF
      | Some p =>
          r ← with_fd_table p (get (Z.to_nat old_fd));
          mret (match r with Some (Some _) => old_fd | _ => EBADF end)
      end
  else
    pid ← current_process_id_raw;
    match pid with
    | None => mret EBADF
    | Some p =>
        let finish (ptr : Z) : W Z :=
          with_fd_table_mut p (replace_fd (Z.to_nat new_fd) ptr) (drop_box ptr) ≫= fun _ => mret new_fd in
        if old_fd <? Z.of_nat FD_BASE then
          ptr ← on_heap (box_new (make_tty_handle "/dev/tty"));
          finish ptr
        else if Z.of_nat PROCESS_MAX_FDS <=? old_fd then mret EBADF
        else
          cloned ← with_fd_table p (clone_fd (Z.to_nat old_fd));
          match cloned with
          | Some (Some ptr) => finish ptr
          | _ => mret EBADF
          end
    end.

(** [execve]: the close-on-exec sweep of the current process. *)
Definition exec_sweep : W Z :=
  pid ← current_process_id_raw;
  match pid with
  | None => mret ENOSYS
  | Some p => with_fd_table_mut p close_cloexec_fds (mret tt) ≫= fun _ => mret SUCCESS
  end.

(** [fork] as it acts on descriptors: the child's table is a clone of the
    parent's, installed under the child's process id. *)
Definition fork_tables (parent child : Z) : W Z := fun w =>
  match tables w !! parent with
  | None => Some (ESRCH, w)
  | Some t =>
      match clone_for_fork t (heap w) with
      | Some (t', h') => Some (child, mkWorld (<[child:=t']> (tables w)) (current w) h')
      | None => None
      end
  end.

(** Dropping a [Process] drops its table ([Drop for FdTable]). *)
Definition drop_process (pid : Z) : W Z := fun w =>
  match tables w !! pid with
  | None => Some (ESRCH, w)
  | Some t =>
      match close_all (t, heap w) with
      | Some (_, (_, h')) => Some (SUCCESS, mkWorld (delete pid (tables w)) (current w) h')
      | None => None
      end
  end.

Definition switch_to (pid : option Z) : W Z := fun w =>
  Some (SUCCESS, mkWorld (tables w) pid (heap w)).

(** ** Ownership across processes *)

Definition owned (ts : gmap Z FdTable) : list Z := map_to_list ts ≫= fun kt => ptrs kt.2.

Definition HANDLE_LIMIT : nat := MAX_PROCESSES * PROCESS_MAX_FDS.
#[global] Arguments HANDLE_LIMIT : simpl never.
#[global] Arguments MAX_PROCESSES : simpl never.

(** [inflight]: boxes held by the running call and not (yet) in a table. *)
Record world_inv (inflight : list Z) (w : World) : Prop := {
  wi_tables : map_Forall (fun _ t => table_wf t) (tables w);
  wi_heap : heap_inv (inflight ++ owned (tables w)) (heap w);
  wi_size : (size (tables w) <= MAX_PROCESSES)%nat;
}.

Lemma owned_insert_delete ts p t : owned (<[p:=t]> ts) ≡ₚ ptrs t ++ owned (delete p ts).
Proof.
  unfold owned. rewrite <-insert_delete_eq, map_to_list_insert by apply lookup_delete_eq.
  by rewrite bind_cons.
Qed.

Lemma owned_lookup ts p t : ts !! p = Some t -> owned ts ≡ₚ ptrs t ++ owned (delete p ts).
Proof. intros H. rewrite <-(owned_insert_delete ts p t), insert_id by done. done. Qed.

Lemma owned_length ts :
  map_Forall (fun _ t => table_wf t) ts -> (length (owned ts) <= PROCESS_MAX_FDS * size ts)%nat.
Proof.
  induction ts as [|p t ts Hp IH] using map_ind; intros Hwf.
  - unfold owned. rewrite map_to_list_empty. simpl. lia.
  - apply map_Forall_insert in Hwf as [Ht Hts]; [|done].
    rewrite owned_insert_delete, delete_id by done. rewrite length_app, map_size_insert_None by done.
    specialize (IH Hts). pose proof (ptrs_length t Ht). lia.
Qed.

(** Specifications of table operations and of system calls, in the style of
    Hoare triples: from any state whose in-flight boxes are [fl], the operation
    has no undefined behaviour and leaves the in-flight boxes [Q r]. *)
Definition tspec {R} (fl : list Z) (f : TM R) (Q : R -> list Z) : Prop :=
  forall t h rest, table_wf t -> heap_inv (fl ++ ptrs t ++ rest) h -> (length rest <= HANDLE_LIMIT)%nat ->
  exists r t' h', f (t, h) = Some (r, (t', h')) /\ table_wf t' /\ heap_inv (Q r ++ ptrs t' ++ rest) h'.

Definition wspec {A} (fl : list Z) (m : W A) (Q : A -> list Z) : Prop :=
  forall w, world_inv fl w -> exists a w', m w = Some (a, w') /\ world_inv (Q a) w'.

Lemma wspec_ret {A} fl (a : A) Q : Q a = fl -> wspec fl (mret a) Q.
Proof. intros <- w Hw. by exists a, w. Qed.

Lemma wspec_bind {A B} fl (m : W A) (k : A -> W B) Q R :
  wspec fl m Q -> (forall a, wspec (Q a) (k a) R) -> wspec fl (m ≫= k) R.
Proof.
  intros Hm Hk w Hw. destruct (Hm w Hw) as (a & w1 & E & Hw1).
  rewrite (st_bind_eq _ _ _ _ _ E). by apply Hk.
Qed.

Lemma wspec_current fl : wspec fl current_process_id_raw (fun _ => fl).
Proof. intros w Hw. by eexists _, w. Qed.

Lemma wspec_on_heap {A} fl (m : ST Heap A) Q :
  (forall h rest, heap_inv (fl ++ rest) h -> (length rest <= HANDLE_LIMIT)%nat ->
     exists a h', m h = Some (a, h') /\ heap_inv (Q a ++ rest) h') ->
  wspec fl (on_heap m) Q.
Proof.
  intros Hm w [Ht Hh Hs]. pose proof (owned_length _ Ht).
  destruct (Hm (heap w) (owned (tables w)) Hh) as (a & h' & E & Hh').
  { unfold HANDLE_LIMIT, MAX_PROCESSES, PROCESS_MAX_FDS in *. lia. }
  unfold on_heap. rewrite E. eexists _, _. split; [done|]. by split.
Qed.

Lemma wspec_with_table {R} fl p (f : TM R) miss Q :
  tspec fl f (fun r => Q (Some r)) ->
  (forall h rest, heap_inv (fl ++ rest) h -> exists h', miss h = Some (tt, h') /\ heap_inv (Q None ++ rest) h') ->
  wspec fl (with_fd_table_mut p f miss) Q.
Proof.
  intros Hf Hm w [Ht Hh Hs]. unfold with_fd_table_mut. pose proof (owned_length _ Ht) as Hlen.
  destruct (tables w !! p) as [t|] eqn:Ep.
  - pose proof (owned_lookup _ _ _ Ep) as Ho.
    destruct (Hf t (heap w) (owned (delete p (tables w)))) as (r & t' & h' & E & Ht' & Hh').
    + by apply (map_Forall_lookup_1 _ _ _ _ Ht Ep).
    + by rewrite <-Ho.
    + rewrite Ho, length_app in Hlen. unfold HANDLE_LIMIT, MAX_PROCESSES, PROCESS_MAX_FDS in *. lia.
    + rewrite E. eexists _, _. split; [done|]. split; cbn [tables heap].
      * by apply map_Forall_insert_2.
      * by rewrite owned_insert_delete.
      * by rewrite map_size_insert_Some.
  - destruct (Hm (heap w) (owned (tables w)) Hh) as (h' & E & Hh').
    rewrite E. eexists _, _. split; [done|]. by split.
Qed.

(** *** Table operations *)

Lemma tspec_ret {R} fl (r : R) Q : Q r = fl -> tspec fl (mret r) Q.
Proof. intros <- t h rest Ht Hh _. by exists r, t, h. Qed.

Lemma tspec_bind {A B} fl (m : TM A) (k : A -> TM B) Q R :
  tspec fl m Q -> (forall a, tspec (Q a) (k a) R) -> tspec fl (m ≫= k) R.
Proof.
  intros Hm Hk t h rest Ht Hh Hl. destruct (Hm t h rest Ht Hh Hl) as (a & t1 & h1 & E & Ht1 & Hh1).
  rewrite (st_bind_eq _ _ _ _ _ E). by apply Hk.
Qed.

Lemma tspec_table fl : tspec fl the_table (fun _ => fl).
Proof. intros t h rest Ht Hh _. by exists t, t, h. Qed.

Lemma live_entry t h fl rest fd p :
  table_wf t -> heap_inv (fl ++ ptrs t ++ rest) h -> get_raw t fd = Some p -> is_Some (handles h !! p).
Proof.
  intros Ht Hh (Hr & He & Hp)%get_raw_Some. apply (heap_inv_live _ _ _ Hh).
  rewrite !elem_of_app. right. left. apply (elem_of_ptrs t fd); [done|lia|done|done].
Qed.

Lemma inflight_nonnull fl p rest h : heap_inv (p :: fl ++ rest) h -> p <> 0.
Proof.
  intros Hh. destruct (heap_inv_live _ _ p Hh) as [fh Hp]; [left|]. apply (hi_addr _ _ Hh) in Hp. lia.
Qed.

Lemma tspec_get fl fd : tspec fl (get fd) (fun _ => fl).
Proof.
  intros t h rest Ht Hh _. unfold get, mbind, ST_bind, the_table.
  destruct (get_raw t fd) as [p|] eqn:E; [|by eexists _, _, _].
  destruct (live_entry t h fl rest fd p Ht Hh E) as [fh Hp]. unfold in_heap, sderef. rewrite Hp.
  by eexists _, _, _.
Qed.

(** An update through [get_mut] must leave the remote fields alone. *)
Definition keeps_remote {R} (f : FileHandle -> R * FileHandle) : Prop :=
  forall fh, is_remote (f fh).2 = is_remote fh /\ fd_remote (f fh).2 = fd_remote fh /\
             remote_refs (f fh).2 = remote_refs fh.

Lemma tspec_get_mut {R} fl fd (f : FileHandle -> R * FileHandle) :
  keeps_remote f -> tspec fl (get_mut fd f) (fun _ => fl).
Proof.
  intros Hf t h rest Ht Hh _. unfold get_mut, mbind, ST_bind, the_table.
  destruct (get_raw t fd) as [p|] eqn:E; [|by eexists _, _, _].
  destruct (live_entry t h fl rest fd p Ht Hh E) as [fh Hp]. unfold in_heap, sderef. rewrite Hp.
  destruct (Hf fh) as (H1 & H2 & H3).
  eexists _, _, _. split; [done|]. split; [done|]. by apply (heap_inv_update _ _ p fh).
Qed.

Lemma tspec_alloc p c : tspec [p] (alloc p c) (fun _ => []).
Proof.
  intros t h rest Ht Hh _. destruct (alloc_inv t h p c rest Ht) as (r & t' & h' & E & Ht' & Hh' & _).
  - by apply (inflight_nonnull [] p (ptrs t ++ rest) h).
  - done.
  - by exists r, t', h'.
Qed.

Lemma tspec_take fd : tspec [] (FdTable.take fd) (fun r => match r with Some p => [p] | None => [] end).
Proof.
  intros t h rest Ht Hh _. rewrite take_eq. destruct (get_raw t fd) as [p|] eqn:E; [|by eexists _, _, _].
  apply get_raw_Some in E as (Hr & He & Hp). eexists _, _, _. split; [done|].
  split; [apply table_wf_set; [done|lia]|].
  rewrite (ptrs_clear t fd p (<[fd:=0]> (flags t))) in Hh by (done || lia). done.
Qed.

Lemma tspec_set_flags fd v : tspec [] (set_flags fd v) (fun _ => []).
Proof.
  intros t h rest Ht Hh _. unfold set_flags, mbind, ST_bind, the_table.
  destruct (fd_in_range fd), (entries t !!! fd =? 0); simpl; eexists _, _, _; (split; [done|]); try done.
  split; [|done]. destruct Ht as (? & ? & ?). split; [done|]. split; [cbn; by rewrite length_insert|done].
Qed.

Lemma tspec_clone_fd fd : tspec [] (clone_fd fd) (fun r => match r with Some p => [p] | None => [] end).
Proof.
  intros t h rest Ht Hh Hl. unfold clone_fd, get, mbind, ST_bind, the_table.
  destruct (get_raw t fd) as [p|] eqn:E; [|by eexists _, _, _].
  destruct (live_entry t h [] rest fd p Ht Hh E) as [fh Hp]. unfold in_heap, sderef. rewrite Hp.
  destruct (copy_box_inv _ h p fh Hh Hp) as (q & h' & Hc & Hh' & _).
  { pose proof (ptrs_length t Ht). simpl. rewrite length_app.
    unfold HANDLE_LIMIT, MAX_PROCESSES, PROCESS_MAX_FDS, U64_MAX in *. lia. }
  cbn. rewrite Hc. by eexists _, _, _.
Qed.

Lemma tspec_replace fd p :
  (FD_BASE <= fd < PROCESS_MAX_FDS)%nat -> tspec [p] (replace_fd fd p) (fun _ => []).
Proof.
  intros Hr t h rest Ht Hh _. pose proof (inflight_nonnull [] p _ h Hh) as Hp0.
  destruct (close_fd_inv t h fd (p :: rest) Ht) as (t1 & h1 & E & Ht1 & Hh1 & Hcase).
  { revert Hh. simpl. by rewrite Permutation_middle. }
  unfold replace_fd, mbind, ST_bind. rewrite E. cbn.
  assert (entries t1 !!! fd = 0) as Hz.
  { destruct (get_raw t fd) as [q|] eqn:Eg.
    - destruct Hcase as [-> _]. simpl. apply list_lookup_total_insert_eq. destruct Ht as [-> _]. lia.
    - destruct Hcase as [-> _]. unfold get_raw in Eg.
      rewrite (proj2 (fd_in_range_true fd) Hr) in Eg. simpl in Eg. case_test; done. }
  exists tt, (mkFdTable (<[fd:=p]> (entries t1)) (<[fd:=0]> (flags t1))), h1.
  split; [done|]. split; [apply table_wf_set; [done|lia]|].
  rewrite ptrs_fill by (done || lia). revert Hh1. by rewrite <-Permutation_middle.
Qed.

Lemma tspec_cloexec : tspec [] close_cloexec_fds (fun _ => []).
Proof.
  intros t h rest Ht Hh _. destruct (close_cloexec_fds_inv t h rest Ht Hh) as (t' & h' & E & Ht' & Hh' & _).
  by eexists _, _, _.
Qed.

Lemma hspec_drop p h rest : heap_inv ([p] ++ rest) h -> exists h', drop_box p h = Some (tt, h') /\ heap_inv ([] ++ rest) h'.
Proof. intros Hh. destruct (drop_box_inv _ h p Hh) as (h' & ? & ? & _). eauto. Qed.

(** *** System calls *)

Lemma wspec_alloc_for pid p c : wspec [p] (alloc_for pid p c) (fun _ => []).
Proof. apply wspec_with_table; [apply tspec_alloc|apply hspec_drop]. Qed.

Lemma miss_ret (fl : list Z) h rest :
  heap_inv (fl ++ rest) h -> exists h', (mret tt : ST Heap unit) h = Some (tt, h') /\ heap_inv (fl ++ rest) h'.
Proof. eauto. Qed.

Lemma wspec_local_box fh :
  is_remote fh = false -> remote_refs fh = None -> wspec [] (on_heap (box_new fh)) (fun p => [p]).
Proof.
  intros H1 H2. apply wspec_on_heap. intros h rest Hh _.
  destruct (box_new_local _ h fh Hh H1 H2) as (p & h' & ? & ? & _). eauto.
Qed.

Lemma wspec_drop p : wspec [p] (on_heap (drop_box p)) (fun _ => []).
Proof. apply wspec_on_heap. intros h rest Hh _. exists tt. by apply hspec_drop. Qed.

(** A closure that captures no box. *)
Lemma wspec_with {R} p (f : TM R) : tspec [] f (fun _ => []) -> wspec [] (with_fd_table_mut p f (mret tt)) (fun _ => []).
Proof. intros Hf. apply (wspec_with_table [] p _ _ (fun _ => [])); [done|apply (miss_ret [])]. Qed.

(** A closure that hands out a box. *)
Definition box_of (r : option (option Z)) : list Z :=
  match r with Some (Some q) => [q] | _ => [] end.

Lemma wspec_take p fd : wspec [] (with_fd_table_mut p (FdTable.take fd) (mret tt)) box_of.
Proof. apply (wspec_with_table [] p _ _ box_of); [apply tspec_take|apply (miss_ret [])]. Qed.

Lemma wspec_clone_fd p fd : wspec [] (with_fd_table_mut p (clone_fd fd) (mret tt)) box_of.
Proof. apply (wspec_with_table [] p _ _ box_of); [apply tspec_clone_fd|apply (miss_ret [])]. Qed.

Lemma tspec_flags fd : tspec [] (t ← the_table; mret (get_flags t fd)) (fun _ => []).
Proof. eapply tspec_bind; [apply tspec_table|]. intros t. by apply tspec_ret. Qed.

Create HintDb fdspec.
#[local] Hint Resolve wspec_current wspec_alloc_for wspec_local_box wspec_drop wspec_with wspec_take
  wspec_clone_fd tspec_get tspec_get_mut tspec_set_flags tspec_cloexec tspec_flags : fdspec.
#[local] Hint Extern 1 (keeps_remote _) => by intros ? : fdspec.
#[local] Hint Extern 1 (_ = _) => reflexivity : fdspec.

(** Runs through a call, splitting on its tests. *)
Ltac wgo :=
  repeat first
    [ apply wspec_ret; reflexivity
    | progress cbv beta
    | progress cbn [box_of]
    | match goal with |- wspec _ (if ?b then _ else _) _ => destruct b eqn:? end
    | match goal with |- wspec _ (match ?x with _ => _ end) _ => destruct x end
    | eapply wspec_bind; [solve [eauto with fdspec nocore]|intros ?] ].

Lemma wspec_install_local pid fh c :
  is_remote fh = false -> remote_refs fh = None -> wspec [] (install_local pid fh c) (fun _ => []).
Proof. intros. unfold install_local. wgo. Qed.

Lemma wspec_close fd : wspec [] (close fd) (fun _ => []).
Proof. unfold close. wgo. Qed.

Lemma wspec_on_handle fd e f : keeps_remote f -> wspec [] (on_handle fd e f) (fun _ => []).
Proof. intros Hf. unfold on_handle. wgo. Qed.

Lemma wspec_fcntl fd cmd arg : wspec [] (fcntl fd cmd arg) (fun _ => []).
Proof. unfold fcntl, with_fd_table. wgo. Qed.

Lemma wspec_fsync fd : wspec [] (fsync fd) (fun _ => []).
Proof. unfold fsync, with_fd_table. wgo. Qed.

Lemma wspec_dup fd : wspec [] (dup fd) (fun _ => []).
Proof. unfold dup, with_fd_table, install_local. wgo. Qed.

Lemma wspec_dup2 old new : wspec [] (dup2 old new) (fun _ => []).
Proof.
  unfold dup2, with_fd_table.
  destruct ((new <? Z.of_nat FD_BASE) || (Z.of_nat PROCESS_MAX_FDS <=? new)) eqn:Er; [by apply wspec_ret|].
  apply orb_false_iff in Er as [Hlo%Z.ltb_ge Hhi%Z.leb_gt].
  assert (forall p ptr, wspec [ptr] (with_fd_table_mut p (replace_fd (Z.to_nat new) ptr) (drop_box ptr)) (fun _ => [])) as Hrep.
  { intros p ptr. apply wspec_with_table; [apply tspec_replace; lia|apply hspec_drop]. }
  wgo.
Qed.

Lemma wspec_exec_sweep : wspec [] exec_sweep (fun _ => []).
Proof. unfold exec_sweep. wgo. Qed.

Lemma drop_process_ok pid w :
  world_inv [] w -> exists r w', drop_process pid w = Some (r, w') /\ world_inv [] w'.
Proof.
  intros [Ht Hh Hs]. unfold drop_process. destruct (tables w !! pid) as [t|] eqn:Ep; [|by eexists _, _].
  destruct (close_all_inv t (heap w) (owned (delete pid (tables w)))) as (t' & h' & E & _ & Hh').
  - by apply (map_Forall_lookup_1 _ _ _ _ Ht Ep).
  - by rewrite <-owned_lookup.
  - rewrite E. eexists _, _. split; [done|]. split; cbn [tables heap].
    + by apply map_Forall_delete.
    + done.
    + pose proof (map_size_delete pid (tables w)). rewrite Ep in *. lia.
Qed.

Lemma fork_tables_ok parent child w :
  world_inv [] w -> tables w !! child = None -> (size (tables w) < MAX_PROCESSES)%nat ->
  exists r w', fork_tables parent child w = Some (r, w') /\ world_inv [] w'.
Proof.
  intros [Ht Hh Hs] Hc Hlt. unfold fork_tables.
  destruct (tables w !! parent) as [t|] eqn:Ep; [|by eexists _, _].
  pose proof (owned_length _ Ht) as Hlen.
  destruct (clone_for_fork_inv t (heap w) (owned (tables w))) as (t' & h' & E & Ht' & Hh' & _).
  - by apply (map_Forall_lookup_1 _ _ _ _ Ht Ep).
  - done.
  - intros q Hq. rewrite (owned_lookup _ _ _ Ep), elem_of_app. by left.
  - unfold MAX_PROCESSES, PROCESS_MAX_FDS, U64_MAX in *. lia.
  - rewrite E. eexists _, _. split; [done|]. split; cbn [tables heap].
    + by apply map_Forall_insert_2.
    + rewrite owned_insert_delete, delete_id by done. done.
    + rewrite map_size_insert_None by done. lia.
Qed.

(** The remote descriptors live handles refer to. *)
Definition remote_in_use (w : World) (r : Z) : Prop :=
  exists p fh, handles (heap w) !! p = Some fh /\ is_remote fh = true /\ fd_remote fh = r.

Definition has_room (w : World) (pid : Z) : Prop :=
  exists t, tables w !! pid = Some t /\ first_empty (entries t) fd_range <> None.

Lemma install_remote_ok pid r dir flags w :
  world_inv [] w -> ~ remote_in_use w r -> has_room w pid ->
  exists v w', install_remote pid r dir flags w = Some (v, w') /\ world_inv [] w'.
Proof.
  intros [Ht Hh Hs] Hr (t & Ep & Hroom). unfold install_remote.
  destruct (open_remote_box_inv _ (heap w) r (remote_handle r dir flags) Hh) as (p & h1 & E1 & Hh1 & _).
  { intros q fh Hq Hrem <-. apply Hr. by exists q, fh. }
  { done. }
  rewrite (st_bind_eq _ _ _ p (mkWorld (tables w) (current w) h1)) by (unfold on_heap; by rewrite E1).
  pose proof (map_Forall_lookup_1 _ _ _ _ Ht Ep) as Htw.
  pose proof (inflight_nonnull [] p _ h1 Hh1) as Hp0.
  destruct (alloc_inv t h1 p (cloexec_flag flags) (owned (delete pid (tables w))) Htw Hp0)
    as (o & t' & h2 & E2 & Ht' & Hh2 & Hcase).
  { by rewrite <-owned_lookup. }
  assert (exists i, o = Some i) as [i ->].
  { destruct o as [i|]; [eauto|]. destruct Hcase as (_ & Hfull & _). destruct Hroom.
    apply first_empty_None. intros i Hi%elem_of_fd_range. by apply Hfull. }
  rewrite (st_bind_eq _ _ _ (Some (Some i)) (mkWorld (<[pid:=t']> (tables w)) (current w) h2)).
  2: { unfold alloc_for, with_fd_table_mut. simpl. by rewrite Ep, E2. }
  eexists _, _. split; [done|]. split; cbn [tables heap].
  - by apply map_Forall_insert_2.
  - by rewrite owned_insert_delete.
  - by rewrite map_size_insert_Some.
Qed.

(** ** Histories of calls *)

Inductive fd_call :=
  | COpenLocal (fh : FileHandle) (cloexec : bool)
  | COpenRemote (remote_fd : Z) (dir : option string) (flags : Z)
  | CClose (fd : Z) | CSeek (remote_size : Z -> result Z Z) (fd offset whence : Z)
  | CRead (fd len : Z) | CWrite (fd : Z) (buf : list Z) | CFtruncate (fd len : Z)
  | CFcntl (fd cmd arg : Z) | CFsync (fd : Z) | CDup (fd : Z) | CDup2 (old new : Z)
  | CExec | CFork (parent child : Z) | CExit (pid : Z) | CSwitch (pid : option Z).

Definition for_current (f : Z -> W Z) : W Z :=
  pid ← current_process_id_raw;
  match pid with Some p => f p | None => mret EBADF end.

Definition run_call (c : fd_call) : W Z :=
  match c with
  | COpenLocal fh cl => for_current (fun p => install_local p fh cl)
  | COpenRemote r dir flags => for_current (fun p => install_remote p r dir flags)
  | CClose fd => close fd
  | CSeek sz fd off wh => seek sz fd off wh
  | CRead fd len => read_local fd len
  | CWrite fd buf => write_local fd buf
  | CFtruncate fd len => ftruncate fd len
  | CFcntl fd cmd arg => fcntl fd cmd arg
  | CFsync fd => fsync fd
  | CDup fd => dup fd
  | CDup2 old new => dup2 old new
  | CExec => exec_sweep
  | CFork parent child => fork_tables parent child
  | CExit pid => drop_process pid
  | CSwitch pid => switch_to pid
  end.

(** What the surroundings guarantee of a call: a local handle is not remote; the
    file service returns a descriptor that is not in use, and (the one case the
    code mishandles, see [open_full_table_double_close]) the table has room; the
    process table gives the child of [fork] a new id and has a free slot. *)
Definition allowed (c : fd_call) (w : World) : Prop :=
  match c with
  | COpenLocal fh _ => is_remote fh = false /\ remote_refs fh = None
  | COpenRemote r _ _ => ~ remote_in_use w r /\ forall p, current w = Some p -> has_room w p
  | CFork _ child => tables w !! child = None /\ (size (tables w) < MAX_PROCESSES)%nat
  | _ => True
  end.

Lemma keeps_remote_seek sz off wh : keeps_remote (seek_handle sz off wh).
Proof.
  intros fh. unfold seek_handle. destruct (is_remote fh) eqn:Er; [destruct (sz (fd_remote fh))|];
    repeat (case_match; simpl); auto.
Qed.

Lemma keeps_remote_write buf : keeps_remote (write_handle buf).
Proof. intros fh. unfold write_handle. destruct (is_remote fh) eqn:Er; repeat (case_match; simpl); auto. Qed.

Lemma keeps_remote_ftruncate n : keeps_remote (ftruncate_handle n).
Proof. intros fh. unfold ftruncate_handle. destruct (is_remote fh) eqn:Er; simpl; auto. Qed.

Lemma run_call_ok c w :
  world_inv [] w -> allowed c w -> exists r w', run_call c w = Some (r, w') /\ world_inv [] w'.
Proof.
  intros Hw Ha. destruct c; cbn [run_call allowed] in *.
  - revert w Hw Ha. intros w Hw [H1 H2]. apply (fun Q => wspec_bind [] _ _ _ (fun _ => []) (wspec_current []) Q w Hw).
    intros [p|]; [by apply wspec_install_local|by apply wspec_ret].
  - destruct Ha as [Hr Hroom]. unfold for_current. destruct (current w) as [p|] eqn:Ec.
    + rewrite (st_bind_eq _ _ w (Some p) w) by (unfold current_process_id_raw; by rewrite Ec).
      apply install_remote_ok; auto.
    + rewrite (st_bind_eq _ _ w None w) by (unfold current_process_id_raw; by rewrite Ec).
      by eexists _, _.
  - by apply wspec_close.
  - by apply wspec_on_handle, Hw; apply keeps_remote_seek.
  - apply wspec_on_handle, Hw. intros fh. unfold read_handle. destruct (is_remote fh) eqn:?; [simpl; auto|].
    by destruct (Z.max _ _ =? 0).
  - by apply wspec_on_handle, Hw; apply keeps_remote_write.
  - by apply wspec_on_handle, Hw; apply keeps_remote_ftruncate.
  - by apply wspec_fcntl.
  - by apply wspec_fsync.
  - by apply wspec_dup.
  - by apply wspec_dup2.
  - by apply wspec_exec_sweep.
  - destruct Ha. by apply fork_tables_ok.
  - by apply drop_process_ok.
  - eexists _, _. split; [done|]. destruct Hw. by split.
Qed.

(** The state at boot: one process with an empty table and an empty heap. *)
Definition boot (pid : Z) : World :=
  mkWorld {[pid := new_boxed]} (Some pid) (mkHeap ∅ ∅ 1 []).

Lemma boot_inv pid : world_inv [] (boot pid).
Proof.
  split; cbn [tables heap boot].
  - apply map_Forall_singleton, new_boxed_wf.
  - assert (owned {[pid := new_boxed]} = []) as ->.
    { unfold owned. rewrite map_to_list_singleton. cbn [mbind list_bind snd]. by rewrite new_boxed_ptrs. }
    split; cbn; try done.
    exists ∅. split; [done|]. intros r. split; [set_solver|]. intros (p & fh & Hp & _). done.
  - rewrite map_size_singleton. unfold MAX_PROCESSES. lia.
Qed.

Inductive reachable (pid : Z) : World -> Prop :=
  | reach_boot : reachable pid (boot pid)
  | reach_call w c r w' :
      reachable pid w -> allowed c w -> run_call c w = Some (r, w') -> reachable pid w'.

Lemma reachable_inv pid w : reachable pid w -> world_inv [] w.
Proof.
  induction 1 as [|w c r w' _ IH Ha E]; [apply boot_inv|].
  destruct (run_call_ok c w IH Ha) as (r' & w'' & E' & Hw). congruence.
Qed.

Fixpoint run_calls (cs : list fd_call) (w : World) : option World :=
  match cs with
  | [] => Some w
  | c :: cs => match run_call c w with Some (_, w') => run_calls cs w' | None => None end
  end.

Lemma reachable_run pid cs w w' :
  reachable pid w -> Forall (fun c => forall w, allowed c w) cs -> run_calls cs w = Some w' ->
  reachable pid w'.
Proof.
  intros Hr Hall. revert w Hr. induction Hall as [|c cs Hc _ IH]; intros w Hr; simpl.
  - intros [= <-]. done.
  - destruct (run_call c w) as [[r w1]|] eqn:E; [|done]. apply IH. by eapply reach_call.
Qed.

(** A concrete world with every descriptor of process 1 in use: 253 calls of
    [dup(0)]. *)
Definition full_calls : list fd_call := replicate (PROCESS_MAX_FDS - FD_BASE) (CDup 0).

Definition full_check (w : World) : bool :=
  match tables w !! 1 with
  | Some t => bool_decide (first_empty (entries t) fd_range = None) &&
              forallb (fun kv : Z * FileHandle => negb (is_remote kv.2)) (map_to_list (handles (heap w)))
  | None => false
  end.

Lemma full_calls_run : exists w, run_calls full_calls (boot 1) = Some w /\ full_check w = true.
Proof.
  assert (match run_calls full_calls (boot 1) with Some w => full_check w | None => false end = true) as H
    by (vm_compute; reflexivity).
  destruct (run_calls full_calls (boot 1)) as [w|]; [eauto|done].
Qed.

Lemma full_world :
  exists w t, reachable 1 w /\ tables w !! 1 = Some t /\ first_empty (entries t) fd_range = None /\
    forall r, ~ remote_in_use w r.
Proof.
  destruct full_calls_run as (w & Hrun & Hc).
  assert (reachable 1 w) as Hreach.
  { eapply reachable_run; [apply reach_boot| |exact Hrun]. apply Forall_replicate. done. }
  unfold full_check in Hc. destruct (tables w !! 1) as [t|] eqn:Et; [|done].
  apply andb_prop in Hc as [Hf%bool_decide_eq_true Hl]. exists w, t. clear Hrun.
  split; [exact Hreach|]. split; [reflexivity || exact Et|]. split; [exact Hf|].
  intros r (p & fh & Hp & Hrem & _). rewrite forallb_forall in Hl.
  specialize (Hl (p, fh)). rewrite <-list_elem_of_In, elem_of_map_to_list in Hl. simpl in Hl.
  specialize (Hl Hp). by rewrite Hrem in Hl.
Qed.

(** ** Properties *)





(** Opening into a full table, step by step: [alloc] drops the handle, which
    closes the remote descriptor; the error path then closes it again. *)
Lemma install_remote_full pid r dir flags w t :
  world_inv [] w -> ~ remote_in_use w r ->
  tables w !! pid = Some t -> first_empty (entries t) fd_range = None ->
  exists w', install_remote pid r dir flags w = Some (ENOSYS, w') /\
    replay (trace (heap w')) = None.
Proof.
  intros [Ht Hh Hs] Hr Ep Hfull. unfold install_remote.
  destruct (open_remote_box_inv _ (heap w) r (remote_handle r dir flags) Hh) as (p & h1 & E1 & Hh1 & Hs1 & Hn).
  { intros q fh Hq Hrem <-. apply Hr. by exists q, fh. }
  { done. }
  rewrite (st_bind_eq _ _ _ p (mkWorld (tables w) (current w) h1)) by (unfold on_heap; by rewrite E1).
  destruct (drop_box_inv _ h1 p Hh1) as (h2 & E2 & Hh2 & Hd).
  rewrite (st_bind_eq _ _ _ (Some None) (mkWorld (<[pid:=t]> (tables w)) (current w) h2)).
  2: { unfold alloc_for, with_fd_table_mut. cbn [tables heap]. by rewrite Ep, alloc_eq, Hfull, E2. }
  eexists. split; [done|]. cbn. destruct (hi_trace _ _ Hh2) as (o & -> & Hm). cbn.
  rewrite decide_False; [done|]. rewrite Hm, Hd, Hs1, delete_insert_id by done.
  intros (q & fh & Hq & ? & <-). apply Hr. by exists q, fh.
Qed.

(** Opening a file of the file service with a full descriptor table closes
    the service's descriptor twice: the history of requests it leaves is not one
    in which every close matches an open. *)
Theorem open_full_table_double_close (pid r : Z) (dir : option string) (flags : Z) (w : World) (t : FdTable) :
  reachable pid w -> ~ remote_in_use w r ->
  tables w !! pid = Some t -> first_empty (entries t) fd_range = None ->
  exists w', install_remote pid r dir flags w = Some (ENOSYS, w') /\
    replay (trace (heap w')) = None.
Proof. intros Hr%reachable_inv. by apply install_remote_full. Qed.

Lemma open_full_table_double_close_witness :
  exists w w', reachable 1 w /\ install_remote 1 7 None 0 w = Some (ENOSYS, w') /\
    replay (trace (heap w')) = None.
Proof.
  destruct full_world as (w & t & Hr & Ht & Hf & Hn). exists w.
  destruct (open_full_table_double_close 1 7 None 0 w t Hr (Hn 7) Ht Hf) as (w' & E & Hrep).
  exists w'. auto.
Defined.

(** The sweep of one table, in any state that keeps the invariant. *)
Lemma sweep_spec (pid : Z) (w : World) (t : FdTable) :
  world_inv [] w -> tables w !! pid = Some t ->
  exists w' t', with_fd_table_mut pid close_cloexec_fds (mret tt) w = Some (Some tt, w') /\ tables w' !! pid = Some t' /\
    (forall q, q <> pid -> tables w' !! q = tables w !! q) /\
    (forall fd, get_raw t' fd = if cloexec_bit t fd then None else get_raw t fd).
Proof.
  intros [Ht Hh _] Ep. unfold with_fd_table_mut. rewrite Ep.
  destruct (close_cloexec_fds_inv t (heap w) (owned (delete pid (tables w)))) as (t' & h' & E & _ & _ & Hsw).
  { by apply (map_Forall_lookup_1 _ _ _ _ Ht Ep). }
  { revert Hh. by rewrite (owned_lookup _ _ _ Ep). }
  rewrite E. eexists _, t'. split; [reflexivity|]. cbn [tables].
  split; [apply lookup_insert_eq|]. split; [intros q Hq; by apply lookup_insert_ne|].
  intros fd. unfold get_raw. destruct (fd_in_range fd) eqn:Er; [|by destruct (cloexec_bit t fd)]. simpl.
  apply fd_in_range_true in Er. rewrite Hsw by (by apply elem_of_fd_range).
  by destruct (cloexec_bit t fd).
Qed.

(** [execve] closes exactly the close-on-exec descriptors of the calling
    process: afterwards a descriptor is empty if its flag was set and otherwise
    holds the handle it held, and the other processes' tables are untouched. *)
Theorem exec_closes_cloexec_only (boot_pid pid : Z) (w : World) (t : FdTable) :
  reachable boot_pid w -> current w = Some pid -> tables w !! pid = Some t ->
  exists w' t', exec_sweep w = Some (SUCCESS, w') /\ tables w' !! pid = Some t' /\
    (forall q, q <> pid -> tables w' !! q = tables w !! q) /\
    (forall fd, get_raw t' fd = if cloexec_bit t fd then None else get_raw t fd).
Proof.
  intros Hi%reachable_inv Hc Ep. destruct (sweep_spec pid w t Hi Ep) as (w' & t' & E & H).
  exists w', t'. split; [|exact H]. unfold exec_sweep, mbind, ST_bind, current_process_id_raw. by rewrite Hc, E.
Qed.

Lemma exec_closes_cloexec_only_witness :
  exists w' t', exec_sweep (boot 1) = Some (SUCCESS, w') /\ tables w' !! 1 = Some t' /\
    (forall q, q <> 1 -> tables w' !! q = tables (boot 1) !! q) /\
    (forall fd, get_raw t' fd = if cloexec_bit new_boxed fd then None else get_raw new_boxed fd).
Proof. apply (exec_closes_cloexec_only 1); [apply reach_boot|reflexivity|reflexivity]. Defined.

(** [fork] gives the child a private copy of every open descriptor: the same
    descriptor numbers and flags, a new handle with equal contents (so later
    seeks of parent and child are independent), and nothing else; the parent's
    table is unchanged. *)
Theorem fork_copies_descriptors (boot_pid parent child : Z) (w : World) (t : FdTable) :
  reachable boot_pid w -> tables w !! parent = Some t -> tables w !! child = None ->
  (size (tables w) < MAX_PROCESSES)%nat ->
  exists w' t', fork_tables parent child w = Some (child, w') /\
    tables w' = <[child:=t']> (tables w) /\
    forall fd, match get_raw t fd with
      | None => get_raw t' fd = None
      | Some p => exists p' fh, get_raw t' fd = Some p' /\ handles (heap w) !! p = Some fh /\
          handles (heap w') !! p' = Some fh /\ handles (heap w) !! p' = None /\
          get_flags t' fd = get_flags t fd
      end.
Proof.
  intros [Ht Hh _]%reachable_inv Ep Hc Hs. unfold fork_tables. rewrite Ep.
  pose proof (owned_length _ Ht) as Hlen.
  destruct (clone_for_fork_inv t (heap w) (owned (tables w))) as (t' & h' & E & _ & _ & _ & Hcl).
  { by apply (map_Forall_lookup_1 _ _ _ _ Ht Ep). }
  { done. }
  { intros q Hq. rewrite (owned_lookup _ _ _ Ep), elem_of_app. by left. }
  { unfold MAX_PROCESSES, PROCESS_MAX_FDS, U64_MAX in *. lia. }
  rewrite E. eexists _, t'. split; [reflexivity|]. split; [reflexivity|].
  intros fd. unfold get_raw, get_flags. destruct (fd_in_range fd) eqn:Er; [|done]. simpl.
  apply fd_in_range_true in Er. specialize (Hcl fd (proj2 (elem_of_fd_range fd) Er)).
  unfold cloned_entry in Hcl. destruct (Z.eqb_spec (entries t !!! fd) 0) as [E0|E0].
  - by rewrite Hcl.
  - destruct Hcl as (fh & Hp & Hn & Hnew & Hp' & Hf). exists (entries t' !!! fd), fh.
    rewrite (proj2 (Z.eqb_neq _ _) Hn), Hf. done.
Qed.

Lemma fork_copies_descriptors_witness :
  exists w' t', fork_tables 1 2 (boot 1) = Some (2, w') /\ tables w' = <[2:=t']> (tables (boot 1)) /\
    forall fd, match get_raw new_boxed fd with
      | None => get_raw t' fd = None
      | Some p => exists p' fh, get_raw t' fd = Some p' /\ handles (heap (boot 1)) !! p = Some fh /\
          handles (heap w') !! p' = Some fh /\ handles (heap (boot 1)) !! p' = None /\
          get_flags t' fd = get_flags new_boxed fd
      end.
Proof.
  apply (fork_copies_descriptors 1); [apply reach_boot|reflexivity|reflexivity|].
  vm_compute. lia.
Defined.

Lemma take_drop_exact (a b c : list Z) n m :
  n = length a -> m = length b -> firstn m (skipn n (a ++ b ++ c)) = b.
Proof. intros -> ->. by rewrite drop_app_length, take_app_length. Qed.

(** What is written to a local file is read back: after [write] of [buf] at
    the current position and [seek] back to it, [read] of the same length returns
    [buf], the position ends where the write left it, and the bytes before the
    written range are unchanged (a write beyond the end first zero-fills). *)
Theorem write_seek_read_roundtrip (sz : Z -> result Z Z) (fh : FileHandle) (buf : list Z) :
  is_remote fh = false -> 0 <= pos fh ->
  pos fh + Z.of_nat (length buf) < 9223372036854775808 ->
  let fh1 := (write_handle buf fh).2 in
  let fh2 := (seek_handle sz (pos fh) 0 fh1).2 in
  (write_handle buf fh).1 = Ok (Z.of_nat (length buf)) /\
  (read_handle (Z.of_nat (length buf)) fh2).1 = buf /\
  pos (read_handle (Z.of_nat (length buf)) fh2).2 = pos fh + Z.of_nat (length buf) /\
  firstn (Z.to_nat (pos fh)) (data fh1) =
    firstn (Z.to_nat (pos fh)) (resize (Nat.max (length (data fh)) (Z.to_nat (pos fh))) 0 (data fh)).
Proof.
  intros Hl Hp Hb. unfold write_handle. rewrite Hl.
  assert (checked_add64 (pos fh) (Z.of_nat (length buf)) = Some (pos fh + Z.of_nat (length buf))) as ->.
  { apply checked_add64_Some. unfold U64_MODULUS. lia. }
  set (en := pos fh + Z.of_nat (length buf)) in *.
  set (d := if Z.of_nat (length (data fh)) <? en then resize (Z.to_nat en) 0 (data fh) else data fh).
  assert (length d = Nat.max (length (data fh)) (Z.to_nat en)) as Hd.
  { unfold d. case_test; [rewrite length_resize|]; lia. }
  set (d' := firstn (Z.to_nat (pos fh)) d ++ buf ++ skipn (Z.to_nat en) d).
  assert (length d' = length d) as Hd'.
  { unfold d'. rewrite !length_app, length_take, length_drop. lia. }
  assert (length (firstn (Z.to_nat (pos fh)) d) = Z.to_nat (pos fh)) as Hpre by (rewrite length_take; lia).
  unfold seek_handle. cbn. rewrite Hl. cbn. rewrite (proj2 (Z.ltb_ge _ _) Hp).
  unfold read_handle. cbn. rewrite Hd', Hd.
  assert (Z.min (pos fh) (Z.of_nat (Nat.max (length (data fh)) (Z.to_nat en))) = pos fh) as -> by lia.
  split; [done|]. split.
  - destruct (Z.eqb_spec (Z.max (Z.of_nat (Nat.max (length (data fh)) (Z.to_nat en)) - pos fh) 0) 0) as [E|E]; cbn.
    + destruct buf; [done|]. simpl in *. lia.
    + apply take_drop_exact; [done|lia].
  - split.
    + destruct (Z.eqb_spec (Z.max (Z.of_nat (Nat.max (length (data fh)) (Z.to_nat en)) - pos fh) 0) 0) as [E|E]; cbn; lia.
    + rewrite <-Hpre at 1. unfold d'. rewrite take_app_length. unfold d. case_test.
      * rewrite !take_resize. f_equal. lia.
      * rewrite resize_all_alt by lia. done.
Qed.

Lemma write_seek_read_roundtrip_witness :
  (read_handle 2 (seek_handle (fun _ => Err EIO) 3 0
     (write_handle [5; 6] (set_pos (make_tty_handle "/dev/tty") 3)).2).2).1 = [5; 6].
Proof.
  apply (write_seek_read_roundtrip (fun _ => Err EIO) (set_pos (make_tty_handle "/dev/tty") 3) [5; 6]);
    cbn; lia || reflexivity.
Defined.
End Fs.
