(* ===== verification/Pipe.v ===== *)
(** Pipes, [src/core/syscall/pipe.rs].

    [PipeBuffer] is the ring buffer with its reference counts and waiter; the
    table has [MAX_PIPES] slots.  Every function takes the table lock for its
    whole body except [pipe_read_blocking], whose loop releases it to sleep: one
    iteration is [pipe_read_step].  Waking a thread is reported as the list of
    thread ids passed to [wake_thread]. *)

From Stdlib Require Import ZArith Lia.
From stdpp Require Import base list option numbers gmap.
From S2P Require Import Prelude Slots Ring State Types UserMem FdTable FdSyscalls.

Local Open Scope nat_scope.

Module Pipe.

Definition PIPE_BUF_SIZE : nat := Z.to_nat 65536.
Definition MAX_PIPES : nat := 64.

Lemma PIPE_BUF_SIZE_pos : 0 < PIPE_BUF_SIZE.
Proof. unfold PIPE_BUF_SIZE. lia. Qed.
#[global] Opaque PIPE_BUF_SIZE.
#[local] Opaque Nat.modulo Nat.div.

#[global] Arguments MAX_PIPES : simpl never.

Record PipeBuffer := mkPipeBuffer {
  buf : list Z;
  write_pos : nat;
  read_pos : nat;
  len : nat;
  read_refs : nat;
  write_refs : nat;
  waiter : Z;
}.

Definition new : PipeBuffer :=
  {| buf := replicate PIPE_BUF_SIZE 0%Z; write_pos := 0; read_pos := 0; len := 0;
     read_refs := 0; write_refs := 0; waiter := 0%Z |}.

Definition set_refs (pb : PipeBuffer) (r w : nat) : PipeBuffer :=
  mkPipeBuffer (buf pb) (write_pos pb) (read_pos pb) (len pb) r w (waiter pb).
Definition set_waiter (pb : PipeBuffer) (tid : Z) : PipeBuffer :=
  mkPipeBuffer (buf pb) (write_pos pb) (read_pos pb) (len pb) (read_refs pb) (write_refs pb) tid.
Definition clear_waiter (pb : PipeBuffer) : PipeBuffer := set_waiter pb 0%Z.

(** One iteration of the loop of [write_bytes]. *)
Definition write_byte (pb : PipeBuffer) (b : Z) : PipeBuffer :=
  mkPipeBuffer (<[write_pos pb := b]> (buf pb)) ((write_pos pb + 1) mod PIPE_BUF_SIZE) (read_pos pb)
    (len pb) (read_refs pb) (write_refs pb) (waiter pb).

Definition add_len (pb : PipeBuffer) (n : nat) : PipeBuffer :=
  mkPipeBuffer (buf pb) (write_pos pb) (read_pos pb) (len pb + n) (read_refs pb) (write_refs pb) (waiter pb).

Definition write_bytes (data : list Z) (pb : PipeBuffer) : nat * PipeBuffer :=
  let avail := PIPE_BUF_SIZE - len pb in
  let to_write := min (length data) avail in
  (to_write, add_len (foldl write_byte pb (take to_write data)) to_write).

(** One iteration of the loop of [read_bytes]: the byte read and the new state. *)
Definition read_byte (pb : PipeBuffer) : Z * PipeBuffer :=
  (buf pb !!! read_pos pb,
   mkPipeBuffer (buf pb) (write_pos pb) ((read_pos pb + 1) mod PIPE_BUF_SIZE) (len pb)
     (read_refs pb) (write_refs pb) (waiter pb)).

Fixpoint read_loop (n : nat) (pb : PipeBuffer) : list Z * PipeBuffer :=
  match n with
  | O => ([], pb)
  | S n =>
      let '(b, pb1) := read_byte pb in
      let '(bs, pb2) := read_loop n pb1 in
      (b :: bs, pb2)
  end.

Definition sub_len (pb : PipeBuffer) (n : nat) : PipeBuffer :=
  mkPipeBuffer (buf pb) (write_pos pb) (read_pos pb) (len pb - n) (read_refs pb) (write_refs pb) (waiter pb).

(** [read_bytes] into a buffer of [dst_len] bytes: the bytes stored at its start. *)
Definition read_bytes (dst_len : nat) (pb : PipeBuffer) : list Z * PipeBuffer :=
  let to_read := min dst_len (len pb) in
  let '(bs, pb') := read_loop to_read pb in
  (bs, sub_len pb' to_read).

Definition available (pb : PipeBuffer) : nat := len pb.
Definition is_full (pb : PipeBuffer) : bool := bool_decide (len pb = PIPE_BUF_SIZE).

(** The thread [wake_reader] wakes, if a waiter is registered. *)
Definition wake_reader (pb : PipeBuffer) : list Z :=
  if (waiter pb =? 0)%Z then [] else [waiter pb].

Notation PipeTable := (list (option PipeBuffer)).
Definition empty_table : PipeTable := replicate MAX_PIPES None.

Definition alloc_pipe (t : PipeTable) : option nat * PipeTable :=
  match first_free t with
  | Some i => (Some i, <[i := Some (set_refs new 1 1)]> t)
  | None => (None, t)
  end.

Definition get_pipe (t : PipeTable) (id : nat) : option PipeBuffer := mjoin (t !! id).

Definition close_write_end (id : nat) (t : PipeTable) : list Z * PipeTable :=
  match get_pipe t id with
  | None => ([], t)
  | Some pb =>
      let pb := if bool_decide (0 < write_refs pb) then set_refs pb (read_refs pb) (write_refs pb - 1) else pb in
      let woken := if bool_decide (write_refs pb = 0) then wake_reader pb else [] in
      let slot := if bool_decide (read_refs pb = 0) && bool_decide (write_refs pb = 0) then None else Some pb in
      (woken, <[id := slot]> t)
  end.

Definition close_read_end (id : nat) (t : PipeTable) : PipeTable :=
  match get_pipe t id with
  | None => t
  | Some pb =>
      let pb := if bool_decide (0 < read_refs pb) then set_refs pb (read_refs pb - 1) (write_refs pb) else pb in
      let slot := if bool_decide (read_refs pb = 0) && bool_decide (write_refs pb = 0) then None else Some pb in
      <[id := slot]> t
  end.

(** The result, the threads woken and the new table. *)
Definition pipe_write (id : nat) (data : list Z) (t : PipeTable) : result nat Z * list Z * PipeTable :=
  match get_pipe t id with
  | None => (Err EPIPE, [], t)
  | Some pb =>
      if bool_decide (read_refs pb = 0) then (Err EPIPE, [], t)
      else if is_full pb then (Err EAGAIN, [], t)
      else
        let '(n, pb') := write_bytes data pb in
        (Ok n, wake_reader pb', <[id := Some pb']> t)
  end.

(** One iteration of [pipe_read_blocking]: it returns bytes (none at end of
    file), or it registered the current thread, if there is one, and sleeps. *)
Inductive read_outcome := Done (bytes : list Z) | Sleep.

Definition pipe_read_step (id dst_len : nat) (tid : option Z) (t : PipeTable) : read_outcome * PipeTable :=
  match get_pipe t id with
  | None => (Done [], t)
  | Some pb =>
      if bool_decide (0 < available pb) then
        let '(bs, pb') := read_bytes dst_len pb in (Done bs, <[id := Some pb']> t)
      else if bool_decide (write_refs pb = 0) then (Done [], t)
      else
        (Sleep, match tid with Some tid => <[id := Some (set_waiter pb tid)]> t | None => t end)
  end.

(** The end of the iteration, after the thread was woken. *)
Definition pipe_read_wakeup (id : nat) (t : PipeTable) : PipeTable :=
  match get_pipe t id with
  | None => t
  | Some pb => <[id := Some (clear_waiter pb)]> t
  end.

(** ** The buffer is a bounded queue of bytes *)

Definition view (pb : PipeBuffer) : list Z := ring_view (buf pb) (read_pos pb) (len pb).

Definition inv (pb : PipeBuffer) : Prop :=
  length (buf pb) = PIPE_BUF_SIZE /\ len pb <= PIPE_BUF_SIZE /\ read_pos pb < PIPE_BUF_SIZE /\
  write_pos pb = (read_pos pb + len pb) mod PIPE_BUF_SIZE.

Lemma pipe_new_inv r w : inv (set_refs new r w).
Proof.
  pose proof PIPE_BUF_SIZE_pos. repeat split; cbn; lia.
Qed.

(** The state in the middle of [write_bytes], after [k] bytes: the buffer holds
    them beyond [len]. *)
Lemma write_loop_view ds pb k :
  length (buf pb) = PIPE_BUF_SIZE -> k + length ds <= PIPE_BUF_SIZE ->
  write_pos pb = (read_pos pb + k) mod PIPE_BUF_SIZE ->
  let pb' := foldl write_byte pb ds in
  length (buf pb') = PIPE_BUF_SIZE /\ read_pos pb' = read_pos pb /\ len pb' = len pb /\
  read_refs pb' = read_refs pb /\ write_refs pb' = write_refs pb /\ waiter pb' = waiter pb /\
  write_pos pb' = (read_pos pb + (k + length ds)) mod PIPE_BUF_SIZE /\
  ring_view (buf pb') (read_pos pb) (k + length ds) = ring_view (buf pb) (read_pos pb) k ++ ds.
Proof.
  revert pb k. induction ds as [|d ds IH]; intros pb k Hl Hk Hw; simpl.
  - rewrite Nat.add_0_r, app_nil_r. done.
  - simpl in Hk. destruct (IH (write_byte pb d) (S k)) as (H1 & H2 & H3 & H4 & H5 & H6 & H7 & H8).
    + cbn. by rewrite length_insert.
    + lia.
    + cbn. rewrite Hw, Nat.Div0.add_mod_idemp_l. f_equal. lia.
    + replace (k + S (length ds)) with (S k + length ds) by lia.
      change (read_pos (write_byte pb d)) with (read_pos pb) in *.
      repeat split_and!; try assumption. rewrite H8. cbn [buf write_byte].
      rewrite Hw, <-Hl, ring_view_push by lia. by rewrite <-app_assoc.
Qed.

Lemma write_bytes_spec data pb :
  inv pb ->
  let n := min (length data) (PIPE_BUF_SIZE - len pb) in
  exists pb', write_bytes data pb = (n, pb') /\ inv pb' /\ view pb' = view pb ++ take n data /\
    read_refs pb' = read_refs pb /\ write_refs pb' = write_refs pb /\ waiter pb' = waiter pb.
Proof.
  intros (H1 & H2 & H3 & H4) n. unfold write_bytes. fold n. eexists. split; [done|].
  assert (length (take n data) = n) as Hn by (rewrite length_take; lia).
  destruct (write_loop_view (take n data) pb (len pb)) as (L1 & L2 & L3 & L4 & L5 & L6 & L7 & L8); [done|lia|done|].
  rewrite Hn in *. unfold inv, view. cbn. rewrite L1, L2, L3, L4, L5, L6, L7, L8. repeat split_and!; first [lia | reflexivity].
Qed.

Lemma read_loop_spec n pb :
  length (buf pb) = PIPE_BUF_SIZE -> read_pos pb < PIPE_BUF_SIZE ->
  exists pb', read_loop n pb = (ring_view (buf pb) (read_pos pb) n, pb') /\
    buf pb' = buf pb /\ write_pos pb' = write_pos pb /\ len pb' = len pb /\
    read_refs pb' = read_refs pb /\ write_refs pb' = write_refs pb /\ waiter pb' = waiter pb /\
    read_pos pb' = (read_pos pb + n) mod PIPE_BUF_SIZE.
Proof.
  pose proof PIPE_BUF_SIZE_pos as Hpos.
  revert pb. induction n as [|n IH]; intros pb Hl Hr; simpl.
  - exists pb. rewrite Nat.add_0_r, Nat.mod_small by done. done.
  - destruct (IH (mkPipeBuffer (buf pb) (write_pos pb) ((read_pos pb + 1) mod PIPE_BUF_SIZE) (len pb)
      (read_refs pb) (write_refs pb) (waiter pb))) as (pb' & E & ?); cbn in *.
    + done.
    + apply Nat.mod_upper_bound. lia.
    + rewrite E. exists pb'. split.
      * rewrite ring_view_cons by lia. do 3 f_equal. rewrite Hl. f_equal. lia.
      * destruct H as (? & ? & ? & ? & ? & ? & ->). repeat split_and!; try assumption.
        rewrite Nat.Div0.add_mod_idemp_l. f_equal. lia.
Qed.

Lemma ring_view_skip (b : list Z) r n k :
  length b = PIPE_BUF_SIZE -> k <= n ->
  ring_view b ((r + k) mod PIPE_BUF_SIZE) (n - k) = drop k (ring_view b r n).
Proof.
  intros Hl Hk. apply list_eq. intros i. rewrite lookup_drop.
  destruct (decide (i < n - k)) as [Hi|Hi].
  - rewrite !ring_view_lookup by lia. do 2 f_equal. rewrite Hl, Nat.Div0.add_mod_idemp_l. f_equal. lia.
  - rewrite !lookup_ge_None_2; rewrite ?ring_view_length; done || lia.
Qed.

Lemma ring_view_take (b : list Z) r n k : k <= n -> ring_view b r k = take k (ring_view b r n).
Proof.
  intros Hk. apply list_eq. intros i. destruct (decide (i < k)) as [Hi|Hi].
  - rewrite lookup_take_lt, !ring_view_lookup by lia. done.
  - rewrite lookup_take_ge by lia. apply lookup_ge_None_2. rewrite ring_view_length. lia.
Qed.

Lemma read_bytes_spec dst_len pb :
  inv pb ->
  let n := min dst_len (len pb) in
  exists pb', read_bytes dst_len pb = (take n (view pb), pb') /\ inv pb' /\ view pb' = drop n (view pb) /\
    read_refs pb' = read_refs pb /\ write_refs pb' = write_refs pb /\ waiter pb' = waiter pb.
Proof.
  intros (H1 & H2 & H3 & H4) n. unfold read_bytes. fold n. pose proof PIPE_BUF_SIZE_pos.
  destruct (read_loop_spec n pb H1 H3) as (pb' & E & B & Wp & L & R1 & R2 & Wt & Rp).
  rewrite E. eexists. split; [unfold view; by rewrite <-ring_view_take by lia|].
  unfold inv, view. cbn. rewrite B, L, R1, R2, Wt, Rp. repeat split_and!; try lia; try reflexivity.
  - apply Nat.mod_upper_bound. lia.
  - rewrite Nat.Div0.add_mod_idemp_l, Wp, H4. f_equal. lia.
  - apply ring_view_skip; [done|lia].
Qed.

Lemma pipe_view_length pb : length (view pb) = len pb.
Proof. apply ring_view_length. Qed.
(** ** The pipe table *)

Definition table_inv (t : PipeTable) : Prop := forall id pb, get_pipe t id = Some pb -> inv pb.

Lemma get_pipe_Some t id pb : get_pipe t id = Some pb <-> t !! id = Some (Some pb).
Proof. unfold get_pipe. destruct (t !! id) as [[?|]|]; naive_solver. Qed.

Lemma get_pipe_insert t id o : id < length t -> get_pipe (<[id:=o]> t) id = o.
Proof. intros H. unfold get_pipe. rewrite list_lookup_insert_eq by done. by destruct o. Qed.

Lemma get_pipe_insert_ne t id id' o : id <> id' -> get_pipe (<[id:=o]> t) id' = get_pipe t id'.
Proof. intros H. unfold get_pipe. by rewrite list_lookup_insert_ne. Qed.

Lemma get_pipe_lt t id pb : get_pipe t id = Some pb -> id < length t.
Proof. rewrite get_pipe_Some. by intros ?%lookup_lt_Some. Qed.

(** What happens to a table, seen from one pipe. *)
Inductive pipe_op :=
  | PAlloc
  | PWrite (id : nat) (data : list Z)
  | PRead (id dst_len : nat) (tid : option Z)
  | PWakeup (id : nat)
  | PCloseWrite (id : nat)
  | PCloseRead (id : nat).

Record outcome := mkOutcome { accepted : list Z; delivered : list Z }.

(** The effect of an operation on the table, and the bytes pipe [id] accepted
    and delivered in it. *)
Definition pipe_step (id : nat) (o : pipe_op) (t : PipeTable) : outcome * PipeTable :=
  match o with
  | PAlloc => (mkOutcome [] [], (alloc_pipe t).2)
  | PWrite j data =>
      let '(r, _, t') := pipe_write j data t in
      (mkOutcome (match r with Ok n => if bool_decide (j = id) then take n data else [] | Err _ => [] end) [], t')
  | PRead j n tid =>
      let '(r, t') := pipe_read_step j n tid t in
      (mkOutcome [] (match r with Done bs => if bool_decide (j = id) then bs else [] | Sleep => [] end), t')
  | PWakeup j => (mkOutcome [] [], pipe_read_wakeup j t)
  | PCloseWrite j => (mkOutcome [] [], (close_write_end j t).2)
  | PCloseRead j => (mkOutcome [] [], close_read_end j t)
  end.

(** A run during which pipe [id] stays allocated. *)
Fixpoint pipe_run (id : nat) (os : list pipe_op) (t : PipeTable) : option (outcome * PipeTable) :=
  match os with
  | [] => Some (mkOutcome [] [], t)
  | o :: os =>
      let '(c, t1) := pipe_step id o t in
      match get_pipe t1 id with
      | None => None
      | Some _ =>
          match pipe_run id os t1 with
          | Some (c', t2) => Some (mkOutcome (accepted c ++ accepted c') (delivered c ++ delivered c'), t2)
          | None => None
          end
      end
  end.

(** The slot of pipe [id] was not written. *)
Ltac pipe_unchanged Hg :=
  cbn; rewrite ?get_pipe_insert_ne, ?Hg by done; intros [= <-]; cbn;
  rewrite ?app_nil_r; by destruct_and?.

(** One step moves bytes through pipe [id] in order. *)
Lemma pipe_step_stream id o t pb pb' :
  get_pipe t id = Some pb -> inv pb -> get_pipe (pipe_step id o t).2 id = Some pb' ->
  inv pb' /\ view pb ++ accepted (pipe_step id o t).1 = delivered (pipe_step id o t).1 ++ view pb'.
Proof.
  intros Hg Hi. pose proof (get_pipe_lt _ _ _ Hg) as Hlt.
  assert (forall x, get_pipe (<[id:=x]> t) id = x) as Hins by (intros; by apply get_pipe_insert).
  destruct o as [|j data|j n tid|j|j|j]; cbn [pipe_step].
  - unfold alloc_pipe. destruct (first_free t) as [i|] eqn:E; [|pipe_unchanged Hg].
    apply first_free_Some in E. assert (i <> id) by (intros <-; apply get_pipe_Some in Hg; congruence).
    pipe_unchanged Hg.
  - unfold pipe_write. destruct (decide (j = id)) as [->|Hne].
    + rewrite Hg. destruct (bool_decide (read_refs pb = 0)); [pipe_unchanged Hg|].
      destruct (is_full pb); [pipe_unchanged Hg|].
      destruct (write_bytes_spec data pb Hi) as (pb1 & -> & Hi1 & Hv & _).
      cbn [fst snd accepted delivered]. rewrite Hins, bool_decide_true by done. intros [= <-].
      split; [done|]. by rewrite Hv.
    + rewrite (bool_decide_false (j = id)) by done. destruct (get_pipe t j) as [qb|]; [|pipe_unchanged Hg].
      destruct (bool_decide _); [pipe_unchanged Hg|]. destruct (is_full qb); [pipe_unchanged Hg|].
      destruct (write_bytes data qb). pipe_unchanged Hg.
  - unfold pipe_read_step. destruct (decide (j = id)) as [->|Hne].
    + rewrite Hg, (bool_decide_true (id = id)) by done. destruct (bool_decide (0 < available pb)).
      { destruct (read_bytes_spec n pb Hi) as (pb1 & -> & Hi1 & Hv & _).
        cbn [fst snd accepted delivered]. rewrite Hins. intros [= <-].
        split; [done|]. by rewrite Hv, app_nil_r, take_drop. }
      destruct (bool_decide (write_refs pb = 0)); [pipe_unchanged Hg|].
      destruct tid; [|pipe_unchanged Hg]. cbn. rewrite Hins. intros [= <-]. by rewrite app_nil_r.
    + rewrite (bool_decide_false (j = id)) by done. destruct (get_pipe t j) as [qb|]; [|pipe_unchanged Hg].
      destruct (bool_decide (0 < available qb)); [destruct (read_bytes n qb); pipe_unchanged Hg|].
      destruct (bool_decide (write_refs qb = 0)); [pipe_unchanged Hg|]. destruct tid; pipe_unchanged Hg.
  - unfold pipe_read_wakeup. destruct (decide (j = id)) as [->|Hne].
    + rewrite Hg. cbn. rewrite Hins. intros [= <-]. by rewrite app_nil_r.
    + destruct (get_pipe t j) as [qb|]; pipe_unchanged Hg.
  - unfold close_write_end. destruct (decide (j = id)) as [->|Hne].
    + rewrite Hg. cbn. rewrite Hins, app_nil_r. destruct (bool_decide (0 < write_refs pb)), (_ && _); by intros [= <-].
    + destruct (get_pipe t j) as [qb|]; pipe_unchanged Hg.
  - unfold close_read_end. destruct (decide (j = id)) as [->|Hne].
    + rewrite Hg. cbn. rewrite Hins, app_nil_r. destruct (bool_decide (0 < read_refs pb)), (_ && _); by intros [= <-].
    + destruct (get_pipe t j) as [qb|]; pipe_unchanged Hg.
Qed.

Lemma pipe_run_stream id os t pb c t' :
  get_pipe t id = Some pb -> inv pb -> pipe_run id os t = Some (c, t') ->
  exists pb', get_pipe t' id = Some pb' /\ inv pb' /\ view pb ++ accepted c = delivered c ++ view pb'.
Proof.
  revert t pb c. induction os as [|o os IH]; intros t pb c Hg Hi; simpl.
  - intros [= <- <-]. exists pb. cbn. by rewrite app_nil_r.
  - destruct (pipe_step id o t) as [c1 t1] eqn:E. destruct (get_pipe t1 id) as [pb1|] eqn:Eg; [|done].
    destruct (pipe_step_stream id o t pb pb1 Hg Hi) as [Hi1 Hs]; [by rewrite E|]. rewrite E in Hs. cbn in Hs.
    destruct (pipe_run id os t1) as [[c2 t2]|] eqn:Er; [|done]. intros [= <- <-].
    destruct (IH t1 pb1 c2 Eg Hi1 Er) as (pb2 & Hg2 & Hi2 & Hs2). exists pb2. split; [done|]. split; [done|].
    cbn. by rewrite app_assoc, Hs, <-app_assoc, Hs2, app_assoc.
Qed.

(** C11. A pipe is a reliable byte stream: over any interleaving of allocations,
    writes, reads, wake-ups and end closings on the whole table during which pipe
    [id] stays allocated, the bytes delivered from [id] followed by those still
    buffered are exactly the bytes its writers got accepted, in order -- none
    lost, duplicated, reordered or leaked from another pipe. *)
Theorem pipe_byte_stream (id : nat) (os : list pipe_op) (t t0 t' : PipeTable) (c : outcome) :
  alloc_pipe t0 = (Some id, t) -> pipe_run id os t = Some (c, t') ->
  exists pb', get_pipe t' id = Some pb' /\ accepted c = delivered c ++ view pb' /\
    length (view pb') <= PIPE_BUF_SIZE.
Proof.
  unfold alloc_pipe. destruct (first_free t0) as [i|] eqn:E; [|done]. intros [= -> <-] Hrun.
  assert (get_pipe (<[id:=Some (set_refs new 1 1)]> t0) id = Some (set_refs new 1 1)) as Hg
    by (apply get_pipe_insert; eauto with kernel).
  destruct (pipe_run_stream _ _ _ _ _ _ Hg (pipe_new_inv 1 1) Hrun) as (pb' & Hg' & Hi & Hs).
  exists pb'. split; [done|]. split; [exact Hs|]. rewrite pipe_view_length. apply Hi.
Qed.
Definition demo_ops : list pipe_op :=
  [PWrite 0 [1; 2; 3]%Z; PAlloc; PWrite 1 [9]%Z; PRead 0 2 (Some 5%Z)].

Lemma demo_run :
  exists c t', pipe_run 0 demo_ops (alloc_pipe empty_table).2 = Some (c, t') /\
    accepted c = [1; 2; 3]%Z /\ delivered c = [1; 2]%Z.
Proof.
  assert (match pipe_run 0 demo_ops (alloc_pipe empty_table).2 with
          | Some (c, _) => bool_decide (accepted c = [1; 2; 3]%Z) && bool_decide (delivered c = [1; 2]%Z)
          | None => false end = true) as H by (vm_compute; reflexivity).
  destruct (pipe_run 0 demo_ops (alloc_pipe empty_table).2) as [[c t']|]; [|discriminate H].
  apply andb_prop in H as [H1%bool_decide_eq_true H2%bool_decide_eq_true]. exists c, t'. auto.
Qed.

Lemma pipe_byte_stream_witness :
  exists c t' pb', pipe_run 0 demo_ops (alloc_pipe empty_table).2 = Some (c, t') /\
    get_pipe t' 0 = Some pb' /\ [1; 2; 3]%Z = [1; 2]%Z ++ view pb'.
Proof.
  destruct demo_run as (c & t' & Hrun & Ha & Hd).
  destruct (pipe_byte_stream 0 demo_ops (alloc_pipe empty_table).2 empty_table t' c eq_refl Hrun)
    as (pb' & Hg & Hs & _).
  exists c, t', pb'. rewrite Ha, Hd in Hs. auto.
Defined.
End Pipe.
