(* ===== verification/PipeSyscalls.v ===== *)
(** [pipe(2)]/[pipe2(2)] and the life of a pipe seen from its descriptors.

    [PState] joins the pipe table, the descriptor world and user memory (through
    the [UserMemory] interface). *)

From Stdlib Require Import ZArith Lia.
From stdpp Require Import base list option numbers gmap.
From S2P Require Import Prelude Slots State Types UserMem FdTable FdSyscalls Pipe.
Import FdTable Fs.

Local Open Scope Z_scope.

Module PipeSyscalls.
Section pipe2.
Context {M : Type} `{!UserMemory M}.

Record PState := mkPState {
  pipes : list (option Pipe.PipeBuffer);
  world : World;
  umem : M;
}.

(** Both ends of a pipe as descriptors: the two boxes, then the two [alloc]s. *)
Definition alloc_ends (pid : Z) (id : nat) (cloexec : bool) : W (option nat * option nat) :=
  p_read ← on_heap (box_new (new_pipe_read id));
  p_write ← on_heap (box_new (new_pipe_write id));
  read_fd ← alloc_for pid p_read cloexec;
  write_fd ← alloc_for pid p_write cloexec;
  mret (mjoin read_fd, mjoin write_fd).

(** [close_read_end(id); close_write_end(id)] *)
Definition free_pipe (id : nat) (t : list (option Pipe.PipeBuffer)) : list (option Pipe.PipeBuffer) :=
  (Pipe.close_write_end id (Pipe.close_read_end id t)).2.

Definition pipe2_syscall (pipefd_ptr flags : Z) (s : PState) : option (Z * PState) :=
  if (pipefd_ptr =? 0) || negb (validate_user_ptr (umem s) pipefd_ptr 8) then Some (EFAULT, s)
  else
    match Pipe.alloc_pipe (pipes s) with
    | (None, _) => Some (EMFILE, s)
    | (Some pipe_id, t) =>
        let cloexec := cloexec_flag flags in
        match current (world s) with
        | None => Some (EFAULT, mkPState (free_pipe pipe_id t) (world s) (umem s))
        | Some pid =>
            match alloc_ends pid pipe_id cloexec (world s) with
            | None => None
            | Some ((Some rfd, Some wfd), w) =>
                let fds := to_le_bytes 4 (Z.of_nat rfd) ++ to_le_bytes 4 (Z.of_nat wfd) in
                let '(res, m) := copy_to_user pipefd_ptr fds (umem s) in
                Some (match res with Ok _ => SUCCESS | Err e => e end, mkPState t w m)
            | Some (_, w) => Some (EMFILE, mkPState (free_pipe pipe_id t) w (umem s))
            end
        end
    end.

Definition pipe_syscall (pipefd_ptr : Z) : PState -> option (Z * PState) := pipe2_syscall pipefd_ptr 0.

(** ** Descriptors stay sound *)

Lemma wspec_alloc_ends pid id c : wspec [] (alloc_ends pid id c) (fun _ => []).
Proof.
  unfold alloc_ends. eapply wspec_bind; [by apply wspec_local_box|]. intros p1.
  apply (wspec_bind [p1] _ _ (fun p2 => [p2; p1])).
  { apply wspec_on_heap. intros h rest Hh _.
    destruct (box_new_local _ h (new_pipe_write id) Hh) as (p & h' & ? & ? & _); [done|done|]. eauto. }
  intros p2. apply (wspec_bind _ _ _ (fun _ => [p2])).
  - apply wspec_with_table.
    + intros t h rest Ht Hh _. destruct (alloc_inv t h p1 c (p2 :: rest) Ht) as (r & t' & h' & E & Ht' & Hh' & _).
      * revert Hh. simpl. rewrite Permutation_swap. intros Hh.
        by apply (inflight_nonnull [] p1 (p2 :: ptrs t ++ rest) h).
      * revert Hh. simpl. rewrite Permutation_swap. by rewrite <-Permutation_middle.
      * exists r, t', h'. split; [done|]. split; [done|]. revert Hh'. by rewrite <-Permutation_middle.
    + intros h rest Hh. simpl in Hh. rewrite Permutation_swap in Hh.
      destruct (drop_box_inv _ h p1 Hh) as (h' & ? & ? & _). eauto.
  - intros r. eapply wspec_bind; [apply wspec_alloc_for|]. intros r'. by apply wspec_ret.
Qed.

(** [pipe2] is memory safe and total on every path: in a world whose
    descriptor tables are sound it returns (no undefined behaviour), leaves them
    sound, and its result is 0, EFAULT or EMFILE. *)
Theorem pipe2_sound (ptr flags : Z) (s : PState) :
  world_inv [] (world s) ->
  exists r s', pipe2_syscall ptr flags s = Some (r, s') /\ world_inv [] (world s') /\
    r ∈ [SUCCESS; EFAULT; EMFILE].
Proof.
  intros Hw. unfold pipe2_syscall. destruct ((ptr =? 0) || _).
  { eexists _, _. split; [reflexivity|]. split; [done|]. set_solver. }
  destruct (Pipe.alloc_pipe (pipes s)) as [[id|] t].
  2: { eexists _, _. split; [reflexivity|]. split; [done|]. set_solver. }
  destruct (current (world s)) as [pid|].
  2: { eexists _, _. split; [reflexivity|]. split; [done|]. set_solver. }
  destruct (wspec_alloc_ends pid id (cloexec_flag flags) (world s) Hw) as ([rf wf] & w' & -> & Hw').
  destruct rf as [rfd|], wf as [wfd|]; try (eexists _, _; split; [reflexivity|]; split; [done|]; set_solver).
  destruct (copy_to_user _ _ _) as [[u|e] m'] eqn:E.
  - eexists _, _. split; [reflexivity|]. split; [done|]. set_solver.
  - assert (e = EFAULT) as -> by (eapply copy_to_user_err; by rewrite E).
    eexists _, _. split; [reflexivity|]. split; [done|]. set_solver.
Qed.

(** ** Pipe ends are never released *)

(** What can happen after boot: a pipe is made, bytes are moved, a reader wakes,
    any descriptor call is made. *)
Inductive sys_call :=
  | SPipe2 (ptr flags : Z)
  | SPipeWrite (id : nat) (data : list Z)
  | SPipeRead (id n : nat) (tid : option Z)
  | SPipeWakeup (id : nat)
  | SFd (c : fd_call).

Definition set_pipes (s : PState) (t : list (option Pipe.PipeBuffer)) : PState := mkPState t (world s) (umem s).

Definition sys_step (c : sys_call) (s : PState) : option PState :=
  match c with
  | SPipe2 ptr flags => snd <$> pipe2_syscall ptr flags s
  | SPipeWrite id data => Some (set_pipes s (Pipe.pipe_write id data (pipes s)).2)
  | SPipeRead id n tid => Some (set_pipes s (Pipe.pipe_read_step id n tid (pipes s)).2)
  | SPipeWakeup id => Some (set_pipes s (Pipe.pipe_read_wakeup id (pipes s)))
  | SFd c => match run_call c (world s) with
             | Some (_, w) => Some (mkPState (pipes s) w (umem s))
             | None => None
             end
  end.

Fixpoint sys_run (cs : list sys_call) (s : PState) : option PState :=
  match cs with
  | [] => Some s
  | c :: cs => match sys_step c s with Some s' => sys_run cs s' | None => None end
  end.

(** Every allocated pipe counts one reader and one writer. *)
Definition refs_one (t : list (option Pipe.PipeBuffer)) : Prop :=
  forall id pb, Pipe.get_pipe t id = Some pb -> Pipe.read_refs pb = 1%nat /\ Pipe.write_refs pb = 1%nat.

Lemma refs_one_insert t id o :
  refs_one t -> (forall pb, o = Some pb -> Pipe.read_refs pb = 1%nat /\ Pipe.write_refs pb = 1%nat) ->
  refs_one (<[id:=o]> t).
Proof.
  intros Ht Ho j pb Hj. destruct (decide (id = j)) as [->|Hne].
  - destruct (decide (j < length t)%nat) as [Hlt|Hge].
    + rewrite Pipe.get_pipe_insert in Hj by done. auto.
    + rewrite list_insert_ge in Hj by lia. by apply (Ht j).
  - rewrite Pipe.get_pipe_insert_ne in Hj by done. by apply (Ht j).
Qed.

Lemma alloc_pipe_refs t id t' : refs_one t -> Pipe.alloc_pipe t = (Some id, t') -> refs_one t'.
Proof.
  unfold Pipe.alloc_pipe. destruct (first_free t); [|done]. intros Ht [= -> <-].
  apply refs_one_insert; [done|]. by intros pb [= <-].
Qed.

Lemma free_pipe_eq t id pb :
  Pipe.get_pipe t id = Some pb -> Pipe.read_refs pb = 1%nat -> Pipe.write_refs pb = 1%nat ->
  free_pipe id t = <[id:=None]> t.
Proof.
  intros E Hr Hw. unfold free_pipe, Pipe.close_read_end. rewrite E, Hr, Hw.
  rewrite (bool_decide_true (0 < 1)%nat) by lia. cbn [Pipe.read_refs Pipe.write_refs Pipe.set_refs].
  rewrite (bool_decide_false (1 = 0)%nat), andb_false_r by lia. unfold Pipe.close_write_end.
  rewrite Pipe.get_pipe_insert by (by eapply Pipe.get_pipe_lt). cbn [Pipe.read_refs Pipe.write_refs Pipe.set_refs].
  rewrite (bool_decide_true (0 < 1)%nat) by lia. cbn. apply list_insert_insert_eq.
Qed.

Lemma free_pipe_refs t id : refs_one t -> refs_one (free_pipe id t).
Proof.
  intros Ht. destruct (Pipe.get_pipe t id) as [pb|] eqn:E.
  - destruct (Ht id pb E). rewrite (free_pipe_eq _ _ pb) by done. by apply refs_one_insert.
  - unfold free_pipe, Pipe.close_read_end, Pipe.close_write_end. by rewrite E, E.
Qed.

Lemma write_bytes_refs data pb :
  Pipe.read_refs (Pipe.write_bytes data pb).2 = Pipe.read_refs pb /\
  Pipe.write_refs (Pipe.write_bytes data pb).2 = Pipe.write_refs pb.
Proof.
  unfold Pipe.write_bytes. cbn. generalize (firstn (length data `min` (Pipe.PIPE_BUF_SIZE - Pipe.len pb)) data).
  intros l. revert pb. induction l as [|b l IH]; intros pb; [done|]. simpl.
  by destruct (IH (Pipe.write_byte pb b)).
Qed.

Lemma read_bytes_refs n pb :
  Pipe.read_refs (Pipe.read_bytes n pb).2 = Pipe.read_refs pb /\
  Pipe.write_refs (Pipe.read_bytes n pb).2 = Pipe.write_refs pb.
Proof.
  unfold Pipe.read_bytes. generalize (n `min` Pipe.len pb)%nat as k. intros k.
  enough (Pipe.read_refs (Pipe.read_loop k pb).2 = Pipe.read_refs pb /\
          Pipe.write_refs (Pipe.read_loop k pb).2 = Pipe.write_refs pb) as H.
  { by destruct (Pipe.read_loop k pb). }
  revert pb. induction k as [|k IH]; intros pb; [done|]. simpl.
  specialize (IH (Pipe.read_byte pb).2). simpl in IH. by destruct (Pipe.read_loop k _).
Qed.

Lemma sys_step_refs c s s' : refs_one (pipes s) -> sys_step c s = Some s' -> refs_one (pipes s').
Proof.
  intros Ht. destruct c as [ptr flags|id data|id n tid|id|c]; cbn [sys_step].
  - unfold pipe2_syscall. destruct ((ptr =? 0) || _); [by intros [= <-]|].
    destruct (Pipe.alloc_pipe (pipes s)) as [[id|] t] eqn:E; [|by intros [= <-]].
    apply alloc_pipe_refs in E; [|done].
    destruct (current (world s)) as [pid|]; [|intros [= <-]; by apply free_pipe_refs].
    destruct (alloc_ends _ _ _ _) as [[[[rfd|] [wfd|]] w]|]; cbn; try (intros [= <-]; by apply free_pipe_refs).
    destruct (copy_to_user _ _ _) as [res m]. by intros [= <-].
  - intros [= <-]. cbn. unfold Pipe.pipe_write. destruct (Pipe.get_pipe (pipes s) id) as [pb|] eqn:E; [|done].
    destruct (bool_decide _); [done|]. destruct (Pipe.is_full pb); [done|].
    pose proof (write_bytes_refs data pb). destruct (Pipe.write_bytes data pb) as [n pb']. cbn.
    apply refs_one_insert; [done|]. intros ? [= <-]. specialize (Ht id pb E). naive_solver congruence.
  - intros [= <-]. cbn. unfold Pipe.pipe_read_step. destruct (Pipe.get_pipe (pipes s) id) as [pb|] eqn:E; [|done].
    specialize (Ht id pb E) as Hpb. destruct (bool_decide (0 < Pipe.available pb)%nat).
    { pose proof (read_bytes_refs n pb). destruct (Pipe.read_bytes n pb) as [bs pb']. cbn.
      apply refs_one_insert; [done|]. intros ? [= <-]. naive_solver congruence. }
    destruct (bool_decide _); [done|]. destruct tid; [|done]. cbn.
    apply refs_one_insert; [done|]. by intros ? [= <-].
  - intros [= <-]. cbn. unfold Pipe.pipe_read_wakeup. destruct (Pipe.get_pipe (pipes s) id) as [pb|] eqn:E; [|done].
    specialize (Ht id pb E) as Hpb. apply refs_one_insert; [done|]. by intros ? [= <-].
  - destruct (run_call c (world s)) as [[r w]|]; [|done]. by intros [= <-].
Qed.

Lemma sys_run_refs cs s s' : refs_one (pipes s) -> sys_run cs s = Some s' -> refs_one (pipes s').
Proof.
  revert s. induction cs as [|c cs IH]; intros s Ht; simpl; [by intros [= <-]|].
  destruct (sys_step c s) as [s1|] eqn:E; [|done]. apply IH. by eapply sys_step_refs.
Qed.

(** End of file is never signalled: after any sequence of pipe and
    descriptor system calls from an empty pipe table -- closing every descriptor
    of the write end included -- a read of an empty allocated pipe sleeps instead
    of returning 0, because no descriptor call releases a pipe end. *)
Theorem pipe_reader_never_sees_eof (cs : list sys_call) (s s' : PState) (id n : nat) (tid : option Z)
    (pb : Pipe.PipeBuffer) :
  pipes s = Pipe.empty_table -> sys_run cs s = Some s' ->
  Pipe.get_pipe (pipes s') id = Some pb -> Pipe.len pb = 0%nat ->
  (Pipe.pipe_read_step id n tid (pipes s')).1 = Pipe.Sleep.
Proof.
  intros H0 Hrun Hg Hl.
  assert (refs_one (pipes s')) as Ht.
  { eapply sys_run_refs; [|exact Hrun]. rewrite H0. intros j qb Hj.
    apply Pipe.get_pipe_Some in Hj. unfold Pipe.empty_table in Hj. by apply lookup_replicate in Hj as [? _]. }
  unfold Pipe.pipe_read_step. rewrite Hg. destruct (Ht id pb Hg) as [_ Hw].
  unfold Pipe.available. rewrite Hl, Hw. done.
Qed.

Lemma alloc_ends_one_left pid id c w t fd :
  world_inv [] w -> tables w !! pid = Some t -> first_empty (entries t) fd_range = Some fd ->
  (forall i, i ∈ fd_range -> i <> fd -> entries t !!! i <> 0) ->
  exists w' t' p, alloc_ends pid id c w = Some ((Some fd, None), w') /\
    tables w' !! pid = Some t' /\ get_raw t' fd = Some p /\
    handles (heap w') !! p = Some (new_pipe_read id).
Proof.
  intros [Hts Hh _] Ht Hfe Honly. unfold alloc_ends.
  destruct (box_new_local _ (heap w) (new_pipe_read id) Hh) as (p1 & h1 & E1 & Hh1 & Hs1 & Hn1 & _); [done|done|].
  rewrite (st_bind_eq _ _ _ p1 (mkWorld (tables w) (current w) h1)) by (unfold on_heap; by rewrite E1).
  destruct (box_new_local _ h1 (new_pipe_write id) Hh1) as (p2 & h2 & E2 & Hh2 & Hs2 & Hn2 & _); [done|done|].
  rewrite (st_bind_eq _ _ _ p2 (mkWorld (tables w) (current w) h2)) by (unfold on_heap; cbn [heap]; by rewrite E2).
  pose proof (map_Forall_lookup_1 _ _ _ _ Hts Ht) as Htw.
  pose proof (first_empty_Some _ _ _ Hfe) as [Hr%elem_of_fd_range _].
  assert (p1 <> 0) as Hp1.
  { assert (handles h1 !! p1 = Some (new_pipe_read id)) as E by (rewrite Hs1; apply lookup_insert_eq).
    apply (hi_addr _ _ Hh1) in E. lia. }
  set (t1 := mkFdTable (<[fd:=p1]> (entries t)) (<[fd:=if c then FD_CLOEXEC else 0]> (flags t))).
  rewrite (st_bind_eq _ _ _ (Some (Some fd)) (mkWorld (<[pid:=t1]> (tables w)) (current w) h2)).
  2: { unfold alloc_for, with_fd_table_mut. cbn [tables heap current]. by rewrite Ht, alloc_eq, Hfe. }
  assert (entries t1 !!! fd = p1) as Hfd.
  { cbn. apply list_lookup_total_insert_eq. destruct Htw as [-> _]. lia. }
  assert (first_empty (entries t1) fd_range = None) as Hfull.
  { apply first_empty_None. intros i Hi. destruct (decide (i = fd)) as [->|Hne]; [by rewrite Hfd|].
    cbn. rewrite list_lookup_total_insert_ne by done. by apply Honly. }
  destruct (drop_box_inv _ h2 p2 Hh2) as (h3 & E3 & _ & Hs3).
  rewrite (st_bind_eq _ _ _ (Some None) (mkWorld (<[pid:=t1]> (tables w)) (current w) h3)).
  2: { unfold alloc_for, with_fd_table_mut. cbn [tables heap current].
       rewrite lookup_insert_eq, alloc_eq, Hfull, E3, insert_insert_eq. done. }
  eexists _, t1, p1. split; [reflexivity|]. cbn [tables heap]. split; [apply lookup_insert_eq|].
  split; [apply get_raw_Some; split; [lia|done]|].
  rewrite Hs3, Hs2, delete_insert_id, Hs1 by done. apply lookup_insert_eq.
Qed.

(** [pipe2] with a single free descriptor fails with EMFILE but leaves that
    descriptor behind: it refers to the pipe slot that was just freed, so it will
    alias whichever pipe is allocated there next. *)
Theorem pipe2_emfile_leaks_read_end (ptr flags pid : Z) (s : PState) (t : FdTable) (id fd : nat) :
  world_inv [] (world s) -> ptr <> 0 -> validate_user_ptr (umem s) ptr 8 = true ->
  first_free (pipes s) = Some id ->
  current (world s) = Some pid -> tables (world s) !! pid = Some t ->
  first_empty (entries t) fd_range = Some fd ->
  (forall i, i ∈ fd_range -> i <> fd -> entries t !!! i <> 0) ->
  exists s' t' p fh, pipe2_syscall ptr flags s = Some (EMFILE, s') /\
    Pipe.get_pipe (pipes s') id = None /\
    tables (world s') !! pid = Some t' /\ get_raw t' fd = Some p /\
    handles (heap (world s')) !! p = Some fh /\ FdTable.pipe_id fh = Some id.
Proof.
  intros Hw Hp Hv Hfree Hc Ht Hfe Honly. unfold pipe2_syscall.
  rewrite (proj2 (Z.eqb_neq _ _) Hp), Hv. cbn [orb negb].
  unfold Pipe.alloc_pipe. rewrite Hfree, Hc. pose proof (first_free_lt _ _ Hfree) as Hlt.
  destruct (alloc_ends_one_left pid id (cloexec_flag flags) (world s) t fd Hw Ht Hfe Honly)
    as (w' & t' & p & -> & Ht' & Hg & Hh).
  eexists _, t', p, (new_pipe_read id). split; [reflexivity|]. cbn [pipes world].
  rewrite (free_pipe_eq _ _ (Pipe.set_refs Pipe.new 1 1)) by (done || by apply Pipe.get_pipe_insert).
  rewrite list_insert_insert_eq. split; [by apply Pipe.get_pipe_insert|]. done.
Qed.
End pipe2.
Arguments PState : clear implicits.

(** ** Concrete runs *)

Definition pipe_boot : PState (Z -> Z) := mkPState Pipe.empty_table (boot 1) (fun _ => 0).

Lemma pipe2_sound_witness :
  exists r s', pipe2_syscall 4096 0 pipe_boot = Some (r, s') /\ world_inv [] (world s') /\
    r ∈ [SUCCESS; EFAULT; EMFILE].
Proof. apply pipe2_sound. apply boot_inv. Defined.

(** pipe2, then both descriptors closed. *)
Definition eof_calls : list sys_call := [SPipe2 4096 0; SFd (CClose 3); SFd (CClose 4)].

Lemma eof_calls_run :
  exists s' pb, sys_run eof_calls pipe_boot = Some s' /\ Pipe.get_pipe (pipes s') 0 = Some pb /\ Pipe.len pb = 0%nat.
Proof.
  assert (match sys_run eof_calls pipe_boot with
          | Some s' => match Pipe.get_pipe (pipes s') 0 with Some pb => bool_decide (Pipe.len pb = 0%nat) | None => false end
          | None => false end = true) as H by (vm_compute; reflexivity).
  destruct (sys_run eof_calls pipe_boot) as [s'|]; [|discriminate H].
  destruct (Pipe.get_pipe (pipes s') 0) as [pb|] eqn:E; [|discriminate H].
  apply bool_decide_eq_true in H. exists s', pb. auto.
Qed.

Lemma pipe_reader_never_sees_eof_witness :
  exists s', sys_run eof_calls pipe_boot = Some s' /\
    (Pipe.pipe_read_step 0 16 (Some 1) (pipes s')).1 = Pipe.Sleep.
Proof.
  destruct eof_calls_run as (s' & pb & Hrun & Hg & Hl). exists s'. split; [exact Hrun|].
  exact (pipe_reader_never_sees_eof eof_calls pipe_boot s' 0 16 (Some 1) pb eq_refl Hrun Hg Hl).
Defined.

Definition one_left_calls : list fd_call := replicate (PROCESS_MAX_FDS - FD_BASE - 1) (CDup 0).

Definition one_left_check (w : World) : bool :=
  match tables w !! 1, current w with
  | Some t, Some 1 =>
      bool_decide (first_empty (entries t) fd_range = Some 255%nat) &&
      forallb (fun i => Nat.eqb i 255 || negb (entries t !!! i =? 0)) fd_range
  | _, _ => false
  end.

Lemma one_left_run : exists w, run_calls one_left_calls (boot 1) = Some w /\ one_left_check w = true.
Proof.
  assert (match run_calls one_left_calls (boot 1) with Some w => one_left_check w | None => false end = true) as H
    by (vm_compute; reflexivity).
  destruct (run_calls one_left_calls (boot 1)) as [w|]; [eauto|discriminate H].
Qed.

Lemma one_left_world :
  exists w t, world_inv [] w /\ current w = Some 1 /\ tables w !! 1 = Some t /\
    first_empty (entries t) fd_range = Some 255%nat /\
    forall i, i ∈ fd_range -> i <> 255%nat -> entries t !!! i <> 0.
Proof.
  destruct one_left_run as (w & Hrun & Hc).
  assert (world_inv [] w) as Hw.
  { eapply reachable_inv, reachable_run; [apply (reach_boot 1)| |exact Hrun]. by apply Forall_replicate. }
  clear Hrun. unfold one_left_check in Hc. destruct (tables w !! 1) as [t|] eqn:Et; [|done].
  destruct (current w) as [[|[]|]|] eqn:Ec; try done.
  apply andb_prop in Hc as [Hf%bool_decide_eq_true Hl]. exists w, t.
  split; [exact Hw|]. split; [exact Ec|]. split; [exact Et|]. split; [exact Hf|].
  intros i Hi Hne. rewrite forallb_forall in Hl. specialize (Hl i). rewrite <-list_elem_of_In in Hl.
  specialize (Hl Hi). apply orb_prop in Hl as [Hl%Nat.eqb_eq|Hl]; [done|].
  apply negb_true_iff in Hl. by apply Z.eqb_neq in Hl.
Qed.

Lemma pipe2_emfile_leaks_read_end_witness :
  exists s s' t' p fh, pipe2_syscall (M := Z -> Z) 4096 0 s = Some (EMFILE, s') /\
    Pipe.get_pipe (pipes s') 0 = None /\ tables (world s') !! 1 = Some t' /\ get_raw t' 255 = Some p /\
    handles (heap (world s')) !! p = Some fh /\ FdTable.pipe_id fh = Some 0%nat.
Proof.
  destruct one_left_world as (w & t & Hw & Hc & Ht & Hf & Ho).
  exists (mkPState Pipe.empty_table w (fun _ => 0)).
  apply (pipe2_emfile_leaks_read_end (M := Z -> Z) 4096 0 1 (mkPState Pipe.empty_table w (fun _ => 0)) t 0 255);
    first [assumption | reflexivity | discriminate].
Defined.
End PipeSyscalls.
