(* ===== verification/Thread.v ===== *)
(** Threads, [src/core/task/thread.rs] and [src/core/task/ids.rs]: thread
    records, the thread queue with its slot generations, and the kernel-stack
    pool. *)

From Stdlib Require Import ZArith Lia.
From stdpp Require Import base list option numbers gmap fin_maps.
From S2P Require Import Prelude Slots Table UserMem Mem.
Import Mem.

Local Open Scope Z_scope.

Module Thread.

Inductive ThreadState := Ready | Running | Blocked | Sleeping | Terminated.

#[global] Instance ThreadState_eq_dec : EqDecision ThreadState.
Proof. solve_decision. Defined.

Record Context := mkContext {
  rsp : Z; rbp : Z; rbx : Z; r12 : Z; r13 : Z; r14 : Z; r15 : Z; rdi : Z; rsi : Z; rip : Z; rflags : Z;
}.

Definition Context_new : Context := mkContext 0 0 0 0 0 0 0 0 0 0 0.

Record Thread := mkThread {
  id : Z;
  process_id : Z;
  name : list Z;
  state : ThreadState;
  context : Context;
  kernel_stack : Z;
  kernel_stack_size : Z;
  user_entry : Z;
  user_stack : Z;
  fork_user_rflags : Z;
  fs_base : Z;
  in_syscall : bool;
  syscall_user_cr3 : Z;
  syscall_user_rip : Z;
  syscall_user_rsp : Z;
  syscall_user_rflags : Z;
  futex_timed_out : bool;
  pending_wakeup : bool;
}.

(** [ThreadId::new]: [NEXT_THREAD_ID.fetch_add(1)]. *)
Definition ThreadId_new (next : Z) : Z * Z := (next, wrap64 (next + 1)).

Definition stack_top (kernel_stack kernel_stack_size : Z) : Z :=
  Z.land (kernel_stack + kernel_stack_size) (Z.lnot 15).

Section constructors.
(** Addresses of the kernel's own code. *)
Context (thread_exit_handler usermode_entry_trampoline fork_child_trampoline : Z).

Definition initial_context (kernel_stack kernel_stack_size entry : Z) : Context :=
  let top := stack_top kernel_stack kernel_stack_size in
  {| rsp := top - 8; rbp := top; rbx := 0; r12 := 0; r13 := 0; r14 := 0; r15 := 0; rdi := 0; rsi := 0;
     rip := entry; rflags := 514 |}.

(** The thread, the memory with the return address on the new stack, and the next
    thread identifier.  The name buffer keeps the first 32 bytes. *)
Definition new (pid : Z) (nm : list Z) (entry_point kstack kstack_size : Z) (m : mem) (next : Z) : Thread * mem * Z :=
  let '(tid, next') := ThreadId_new next in
  ({| id := tid; process_id := pid; name := take 32 nm; state := Ready;
      context := initial_context kstack kstack_size entry_point;
      kernel_stack := kstack; kernel_stack_size := kstack_size; user_entry := 0; user_stack := 0;
      fork_user_rflags := 0; fs_base := 0; in_syscall := false; syscall_user_cr3 := 0; syscall_user_rip := 0;
      syscall_user_rsp := 0; syscall_user_rflags := 0; futex_timed_out := false; pending_wakeup := false |},
   write_u64 m (stack_top kstack kstack_size - 8) thread_exit_handler, next').

Definition new_usermode (pid : Z) (nm : list Z) (uentry ustack kstack kstack_size : Z) (m : mem) (next : Z) :
    Thread * mem * Z :=
  let '(tid, next') := ThreadId_new next in
  ({| id := tid; process_id := pid; name := take 32 nm; state := Ready;
      context := initial_context kstack kstack_size usermode_entry_trampoline;
      kernel_stack := kstack; kernel_stack_size := kstack_size; user_entry := uentry; user_stack := ustack;
      fork_user_rflags := 0; fs_base := 0; in_syscall := false; syscall_user_cr3 := 0; syscall_user_rip := 0;
      syscall_user_rsp := 0; syscall_user_rflags := 0; futex_timed_out := false; pending_wakeup := false |},
   write_u64 m (stack_top kstack kstack_size - 8) thread_exit_handler, next').

Definition new_fork_child (pid user_rip user_rsp user_rflags fsb kstack kstack_size : Z) (m : mem) (next : Z) :
    Thread * mem * Z :=
  let '(tid, next') := ThreadId_new next in
  ({| id := tid; process_id := pid; name := [102; 111; 114; 107]; state := Ready;
      context := initial_context kstack kstack_size fork_child_trampoline;
      kernel_stack := kstack; kernel_stack_size := kstack_size; user_entry := user_rip; user_stack := user_rsp;
      fork_user_rflags := user_rflags; fs_base := fsb; in_syscall := false; syscall_user_cr3 := 0;
      syscall_user_rip := user_rip; syscall_user_rsp := user_rsp; syscall_user_rflags := user_rflags;
      futex_timed_out := false; pending_wakeup := false |},
   write_u64 m (stack_top kstack kstack_size - 8) thread_exit_handler, next').
End constructors.

Definition set_state (st : ThreadState) (t : Thread) : Thread :=
  {| id := id t; process_id := process_id t; name := name t; state := st; context := context t;
     kernel_stack := kernel_stack t; kernel_stack_size := kernel_stack_size t; user_entry := user_entry t;
     user_stack := user_stack t; fork_user_rflags := fork_user_rflags t; fs_base := fs_base t;
     in_syscall := in_syscall t; syscall_user_cr3 := syscall_user_cr3 t; syscall_user_rip := syscall_user_rip t;
     syscall_user_rsp := syscall_user_rsp t; syscall_user_rflags := syscall_user_rflags t;
     futex_timed_out := futex_timed_out t; pending_wakeup := pending_wakeup t |}.

Definition set_fs_base (v : Z) (t : Thread) : Thread :=
  {| id := id t; process_id := process_id t; name := name t; state := state t; context := context t;
     kernel_stack := kernel_stack t; kernel_stack_size := kernel_stack_size t; user_entry := user_entry t;
     user_stack := user_stack t; fork_user_rflags := fork_user_rflags t; fs_base := v;
     in_syscall := in_syscall t; syscall_user_cr3 := syscall_user_cr3 t; syscall_user_rip := syscall_user_rip t;
     syscall_user_rsp := syscall_user_rsp t; syscall_user_rflags := syscall_user_rflags t;
     futex_timed_out := futex_timed_out t; pending_wakeup := pending_wakeup t |}.

(** The wakeup and futex flags. *)
Definition set_flags (futex pending : bool) (t : Thread) : Thread :=
  {| id := id t; process_id := process_id t; name := name t; state := state t; context := context t;
     kernel_stack := kernel_stack t; kernel_stack_size := kernel_stack_size t; user_entry := user_entry t;
     user_stack := user_stack t; fork_user_rflags := fork_user_rflags t; fs_base := fs_base t;
     in_syscall := in_syscall t; syscall_user_cr3 := syscall_user_cr3 t; syscall_user_rip := syscall_user_rip t;
     syscall_user_rsp := syscall_user_rsp t; syscall_user_rflags := syscall_user_rflags t;
     futex_timed_out := futex; pending_wakeup := pending |}.

Definition set_futex_timed_out (b : bool) (t : Thread) : Thread := set_flags b (pending_wakeup t) t.
Definition take_futex_timed_out (t : Thread) : bool * Thread := (futex_timed_out t, set_flags false (pending_wakeup t) t).
Definition set_pending_wakeup (t : Thread) : Thread := set_flags (futex_timed_out t) true t.
Definition take_pending_wakeup (t : Thread) : bool * Thread := (pending_wakeup t, set_flags (futex_timed_out t) false t).
Definition kernel_stack_top (t : Thread) : Z := stack_top (kernel_stack t) (kernel_stack_size t).

(** ** The thread queue *)

Definition MAX_THREADS : nat := 64.
#[global] Arguments MAX_THREADS : simpl never.

Record ThreadQueue := mkQueue {
  threads : list (option Thread);
  slot_generations : list Z;
  count : nat;
}.

Definition Queue_new : ThreadQueue :=
  {| threads := replicate MAX_THREADS None; slot_generations := replicate MAX_THREADS 0; count := 0 |}.

(** The generation of a slot when it is filled again: never 0. *)
Definition next_generation (g : Z) : Z :=
  let g' := wrapping_add64 g 1 in if g' =? 0 then 1 else g'.

Definition push (t : Thread) (q : ThreadQueue) : option Z * ThreadQueue :=
  if (MAX_THREADS <=? count q)%nat then (None, q)
  else
    match first_free (threads q) with
    | Some idx =>
        (Some (id t),
         {| threads := <[idx := Some t]> (threads q);
            slot_generations := alter next_generation idx (slot_generations q);
            count := S (count q) |})
    | None => (None, q)
    end.

Definition get (tid : Z) (q : ThreadQueue) : option Thread := snd <$> find_slot (by_key id tid) (threads q).

(** [get_mut(id).map(f)]: the closure's result and the updated queue. *)
Definition with_thread_mut {R} (tid : Z) (f : Thread -> R * Thread) (q : ThreadQueue) : option R * ThreadQueue :=
  match find_slot (by_key id tid) (threads q) with
  | Some (i, t) =>
      (Some (f t).1,
       {| threads := alter_slot (fun t => (f t).2) i (threads q); slot_generations := slot_generations q; count := count q |})
  | None => (None, q)
  end.

Definition slot_index (tid : Z) (q : ThreadQueue) : option nat := fst <$> find_slot (by_key id tid) (threads q).

Definition slot_index_and_generation (tid : Z) (q : ThreadQueue) : option (nat * Z) :=
  match find_slot (by_key id tid) (threads q) with
  | Some (i, _) => Some (i, slot_generations q !!! i)
  | None => None
  end.

Definition remove (tid : Z) (q : ThreadQueue) : option Thread * ThreadQueue :=
  match find_slot (by_key id tid) (threads q) with
  | Some (i, t) =>
      (Some t, {| threads := <[i := None]> (threads q); slot_generations := slot_generations q; count := pred (count q) |})
  | None => (None, q)
  end.

Definition in_state (st : ThreadState) (t : Thread) : bool := bool_decide (state t = st).

Definition peek_next (q : ThreadQueue) : option (nat * Thread) := find_slot (in_state Ready) (threads q).

Definition slot_ready (q : ThreadQueue) (i : nat) : bool :=
  match threads q !! i with Some (Some t) => in_state Ready t | _ => false end.

(** The slot [peek_next_after] returns a reference into. *)
Definition peek_next_after (current_id : option Z) (q : ThreadQueue) : option nat :=
  match c ← current_id; slot_index c q with
  | Some start_idx =>
      match List.find (slot_ready q) (seq (S start_idx) (MAX_THREADS - S start_idx) ++ seq 0 (S start_idx)) with
      | Some i => Some i
      | None => fst <$> peek_next q
      end
  | None => fst <$> peek_next q
  end.

Definition count_by_state (st : ThreadState) (q : ThreadQueue) : nat := length (filter (fun t => state t = st) (live (threads q))).
Definition iter (q : ThreadQueue) : list Thread := live (threads q).
Definition is_full (q : ThreadQueue) : bool := (MAX_THREADS <=? count q)%nat.
Definition is_empty (q : ThreadQueue) : bool := (count q =? 0)%nat.
Definition thread_id_exists (v : Z) (q : ThreadQueue) : bool := existsb (fun t => id t =? v) (iter q).
Definition thread_to_process_id (v : Z) (q : ThreadQueue) : option Z := process_id <$> get v q.

(** ** The queue is a bounded map *)

Record queue_wf (q : ThreadQueue) : Prop := {
  qw_len : length (threads q) = MAX_THREADS;
  qw_gen : length (slot_generations q) = MAX_THREADS;
  qw_count : count q = length (live (threads q));
  qw_keys : keys_unique id (threads q);
}.

Definition abs (q : ThreadQueue) : gmap Z Thread := entries id (threads q).

Lemma queue_new_wf : queue_wf Queue_new.
Proof. split; try reflexivity. unfold keys_unique. cbn. constructor. Qed.

Lemma abs_new : abs Queue_new = ∅.
Proof. reflexivity. Qed.

Lemma count_abs q : queue_wf q -> count q = size (abs q).
Proof. intros [_ _ Hc Hk]. unfold abs. by rewrite entries_size. Qed.

Lemma get_abs tid q : queue_wf q -> get tid q = abs q !! tid.
Proof. intros [_ _ _ Hk]. by apply find_by_key. Qed.

(** Pushing succeeds exactly when fewer than 64 threads are there, and adds the
    thread. *)
Lemma push_spec t q :
  queue_wf q -> abs q !! id t = None ->
  if decide (size (abs q) < MAX_THREADS)%nat
  then exists i q', push t q = (Some (id t), q') /\ queue_wf q' /\ abs q' = <[id t := t]> (abs q) /\
         threads q !! i = Some None /\ threads q' = <[i := Some t]> (threads q) /\
         slot_generations q' = alter next_generation i (slot_generations q)
  else push t q = (None, q).
Proof.
  intros Hw Hn. pose proof (count_abs q Hw) as Hca. destruct Hw as [Hl Hg Hc Hk]. unfold push. rewrite <-Hca.
  destruct (decide (count q < MAX_THREADS)%nat) as [Hlt|Hge].
  2: { by rewrite (proj2 (Nat.leb_le _ _)) by lia. }
  rewrite (proj2 (Nat.leb_gt _ _)) by done.
  destruct (first_free_is_Some (threads q)) as [i E]; [lia|]. rewrite E.
  pose proof (first_free_Some _ _ E) as Hi. eexists i, _. split; [reflexivity|].
  split; [|split; [|done]].
  - split; cbn.
    + by rewrite length_insert.
    + by rewrite length_alter.
    + by rewrite live_length_fill, Hc.
    + by apply keys_unique_fill.
  - by apply entries_fill.
Qed.

Lemma remove_spec tid q :
  queue_wf q ->
  let '(r, q') := remove tid q in
  r = abs q !! tid /\ queue_wf q' /\ abs q' = delete tid (abs q) /\ slot_generations q' = slot_generations q.
Proof.
  intros Hw. pose proof (get_abs tid q Hw) as Hga. destruct Hw as [Hl Hg Hc Hk]. unfold remove, get in *.
  destruct (find_slot (by_key id tid) (threads q)) as [[i t]|] eqn:E; cbn in Hga.
  - apply find_by_key_Some in E as [Hi <-]. split; [done|]. split; [|split; [by apply entries_clear|done]].
    split; cbn; try done.
    + by rewrite length_insert.
    + rewrite Hc, (live_length_clear _ _ _ Hi). done.
    + by apply keys_unique_clear.
  - split; [done|]. split; [done|]. split; [|done]. by rewrite delete_id.
Qed.

Lemma with_thread_mut_spec {R} tid (f : Thread -> R * Thread) q :
  queue_wf q -> (forall t, id (f t).2 = id t) ->
  let '(r, q') := with_thread_mut tid f q in
  r = (fun t => (f t).1) <$> abs q !! tid /\ queue_wf q' /\ abs q' = alter (fun t => (f t).2) tid (abs q) /\
  slot_generations q' = slot_generations q /\
  (forall i, (threads q' !! i) = (fun o => match o with
      | Some t => Some (if id t =? tid then (f t).2 else t) | None => None end) <$> threads q !! i).
Proof.
  intros Hw Hf. pose proof (get_abs tid q Hw) as Hga. destruct Hw as [Hl Hg Hc Hk]. unfold with_thread_mut, get in *.
  destruct (find_slot (by_key id tid) (threads q)) as [[i t]|] eqn:E; cbn in Hga; rewrite <-Hga.
  - apply find_by_key_Some in E as [Hi <-]. split; [done|]. cbn.
    split; [|split; [|split; [done|]]].
    + split; cbn; try done.
      * by rewrite length_alter_slot.
      * destruct (live_alter_slot (fun t => (f t).2) _ _ _ Hi) as [H1 H2]. by rewrite Hc, H1, H2.
      * by apply keys_unique_alter.
    + unfold abs. cbn. rewrite (entries_alter id _ _ _ t) by done.
      apply map_eq. intros k. destruct (decide (k = id t)) as [->|Hne].
      * rewrite lookup_insert_eq, lookup_alter_eq. unfold abs in Hga. by rewrite <-Hga.
      * by rewrite lookup_insert_ne, lookup_alter_ne by done.
    + intros j. unfold alter_slot. destruct (decide (i = j)) as [<-|Hne].
      * rewrite list_lookup_alter_eq, Hi. cbn. by rewrite Z.eqb_refl.
      * rewrite list_lookup_alter_ne by done. destruct (threads q !! j) as [[u|]|] eqn:Ej; cbn; try done.
        destruct (Z.eqb_spec (id u) (id t)) as [Heq|]; [|done]. destruct Hne. by eapply (slot_unique id).
  - split; [done|]. split; [done|]. split; [|split; [done|]].
    + apply map_eq. intros k. destruct (decide (k = tid)) as [->|Hne].
      * rewrite lookup_alter_eq, <-Hga. done.
      * by rewrite lookup_alter_ne by done.
    + intros j. destruct (threads q !! j) as [[u|]|] eqn:Ej; cbn; try done.
      destruct (Z.eqb_spec (id u) tid) as [Heq|]; [|done]. exfalso.
      symmetry in Hga. apply (proj1 (entries_None id _ _ Hk) Hga u); [|done]. apply elem_of_live. eauto.
Qed.

(** ** Histories of the queue *)

Inductive op :=
  | OpSpawn (pid : Z) (nm : list Z) (entry kstack kstack_size : Z)
  | OpGet (tid : Z)
  | OpSetState (tid : Z) (st : ThreadState)
  | OpRemove (tid : Z)
  | OpCount.

Inductive out :=
  | OutId (o : option Z)
  | OutThread (o : option Thread)
  | OutDone (o : option unit)
  | OutCount (n : nat).

Definition spawned (pid : Z) (nm : list Z) (entry kstack kstack_size next : Z) : Thread :=
  (new 0 pid nm entry kstack kstack_size (fun _ => 0) next).1.1.

Definition apply_op (o : op) (s : ThreadQueue * Z) : out * (ThreadQueue * Z) :=
  let '(q, next) := s in
  match o with
  | OpSpawn pid nm entry ks sz =>
      let '(r, q') := push (spawned pid nm entry ks sz next) q in (OutId r, (q', (ThreadId_new next).2))
  | OpGet tid => (OutThread (get tid q), s)
  | OpSetState tid st => let '(r, q') := with_thread_mut tid (fun t => (tt, set_state st t)) q in (OutDone r, (q', next))
  | OpRemove tid => let '(r, q') := remove tid q in (OutThread r, (q', next))
  | OpCount => (OutCount (count q), s)
  end.

(** The abstract table: a map with at most 64 entries. *)
Definition spec_op (o : op) (s : gmap Z Thread * Z) : out * (gmap Z Thread * Z) :=
  let '(m, next) := s in
  match o with
  | OpSpawn pid nm entry ks sz =>
      let t := spawned pid nm entry ks sz next in
      if decide (size m < MAX_THREADS)%nat then (OutId (Some (id t)), (<[id t := t]> m, next + 1))
      else (OutId None, (m, next + 1))
  | OpGet tid => (OutThread (m !! tid), s)
  | OpSetState tid st => (OutDone ((fun _ => tt) <$> m !! tid), (alter (set_state st) tid m, next))
  | OpRemove tid => (OutThread (m !! tid), (delete tid m, next))
  | OpCount => (OutCount (size m), s)
  end.

Fixpoint run {S} (step : op -> S -> out * S) (ops : list op) (s : S) : list out :=
  match ops with
  | [] => []
  | o :: ops => let '(r, s') := step o s in r :: run step ops s'
  end.

(** Live identifiers were handed out before the next one. *)
Definition hist_inv (q : ThreadQueue) (next : Z) : Prop :=
  queue_wf q /\ 1 <= next /\ forall k, is_Some (abs q !! k) -> k < next.

Lemma hist_push q next pid nm entry ks sz :
  hist_inv q next -> next + 1 < U64_MODULUS ->
  let t := spawned pid nm entry ks sz next in
  abs q !! id t = None /\ forall q', queue_wf q' -> abs q' = <[id t := t]> (abs q) -> hist_inv q' (next + 1).
Proof.
  intros (Hw & Hn & Hb) Hlt. cbn. split.
  - destruct (abs q !! next) eqn:E; [|done]. specialize (Hb next ltac:(eauto)). lia.
  - intros q' Hw' Ha. split; [done|]. split; [lia|]. intros k. rewrite Ha.
    destruct (decide (k = next)) as [->|Hne]; [lia|]. rewrite lookup_insert_ne by done. intros H%Hb. lia.
Qed.

Lemma run_refines ops q next :
  hist_inv q next -> next + Z.of_nat (length ops) < U64_MODULUS ->
  run apply_op ops (q, next) = run spec_op ops (abs q, next).
Proof.
  revert q next. induction ops as [|o ops IH]; intros q next Hi Hlt; [done|]. cbn [length] in Hlt.
  pose proof Hi as (Hw & Hn & Hb). cbn [run]. destruct o as [pid nm entry ks sz|tid|tid st|tid|]; cbn [apply_op spec_op].
  - destruct (hist_push q next pid nm entry ks sz Hi ltac:(lia)) as [Hnone Hpush].
    pose proof (push_spec (spawned pid nm entry ks sz next) q Hw Hnone) as Hs. cbn [ThreadId_new snd].
    unfold wrap64. rewrite Z.mod_small by lia.
    destruct (decide (size (abs q) < MAX_THREADS)%nat) as [Hs'|Hs'].
    + destruct Hs as (i & q' & -> & Hw' & Ha & _). rewrite <-Ha. f_equal. apply IH; [by apply Hpush|lia].
    + rewrite Hs. f_equal. apply IH; [|lia]. split; [done|]. split; [lia|]. intros k Hk%Hb. lia.
  - rewrite get_abs by done. f_equal. apply IH; [done|lia].
  - pose proof (with_thread_mut_spec tid (fun t => (tt, set_state st t)) q Hw ltac:(done)) as Hs.
    destruct (with_thread_mut _ _ _) as [r q']. destruct Hs as (-> & Hw' & Ha' & _).
    assert (abs q' = alter (set_state st) tid (abs q)) as Ha by exact Ha'. rewrite <-Ha.
    f_equal. apply IH; [|lia]. split; [done|]. split; [done|]. intros k. rewrite Ha, lookup_alter_is_Some. apply Hb.
  - pose proof (remove_spec tid q Hw) as Hs. destruct (remove tid q) as [r q'].
    destruct Hs as (-> & Hw' & Ha & _). rewrite <-Ha. f_equal. apply IH; [|lia].
    split; [done|]. split; [done|]. intros k. rewrite Ha. intros [x Hx%lookup_delete_Some]. apply Hb. naive_solver.
  - rewrite count_abs by done. f_equal. apply IH; [done|lia].
Qed.

(** The thread queue implements a finite map of at most 64 threads: from
    boot, every sequence of thread creations (with identifiers from the global
    counter), lookups, state changes, removals and counts on the slot array
    returns what the map returns; in particular creation fails exactly when 64
    threads are live, and a removed thread is never found again.  (Fewer than
    2^64 - 1 operations, so that the counter does not wrap.) *)
Theorem thread_queue_refines_map (ops : list op) :
  Z.of_nat (length ops) < U64_MODULUS - 1 ->
  run apply_op ops (Queue_new, 1) = run spec_op ops (∅, 1).
Proof.
  intros Hl. rewrite <-abs_new. apply run_refines; [|lia]. split; [apply queue_new_wf|]. split; [lia|].
  intros k. rewrite abs_new. intros [? ?]. done.
Qed.

Lemma thread_queue_refines_map_witness :
  run apply_op [OpSpawn 7 [] 0 4096 4096; OpSpawn 7 [] 0 8192 4096; OpSetState 2 Sleeping; OpRemove 1; OpGet 1; OpCount]
    (Queue_new, 1) =
  run spec_op [OpSpawn 7 [] 0 4096 4096; OpSpawn 7 [] 0 8192 4096; OpSetState 2 Sleeping; OpRemove 1; OpGet 1; OpCount]
    (∅, 1).
Proof. apply thread_queue_refines_map. unfold U64_MODULUS. cbn. lia. Defined.

(** ** Slot generations *)

(** One change of the queue; pushes are of threads that are not in it. *)
Inductive qstep (q : ThreadQueue) : bool -> ThreadQueue -> Prop :=
  | qstep_push t : abs q !! id t = None -> qstep q true (push t q).2
  | qstep_remove tid : qstep q false (remove tid q).2
  | qstep_mut {R} tid (f : Thread -> R * Thread) :
      (forall t, id (f t).2 = id t) -> qstep q false (with_thread_mut tid f q).2.

(** [qsteps n q q']: from [q] to [q'] with [n] pushes. *)
Inductive qsteps (q : ThreadQueue) : Z -> ThreadQueue -> Prop :=
  | qsteps_refl : qsteps q 0 q
  | qsteps_step n b q1 q2 : qsteps q n q1 -> qstep q1 b q2 -> qsteps q (n + Z.b2z b) q2.

Lemma next_generation_small g : 0 <= g -> g + 1 < U64_MODULUS -> next_generation g = g + 1.
Proof.
  intros H1 H2. unfold next_generation, wrapping_add64, wrap64. rewrite Z.mod_small by lia.
  by rewrite (proj2 (Z.eqb_neq _ _)) by lia.
Qed.

(** What a step does to slot [i]. *)
Lemma qstep_slot q b q' i :
  queue_wf q -> qstep q b q' -> queue_wf q' /\
  ((slot_generations q' !! i = slot_generations q !! i /\
    (threads q' !! i = Some None \/ (fmap id <$> threads q' !! i) = (fmap id <$> threads q !! i))) \/
   (b = true /\ slot_generations q' !! i = next_generation <$> slot_generations q !! i)).
Proof.
  intros Hw [t Hn|tid|R tid f Hf].
  - pose proof (push_spec t q Hw Hn) as Hs. destruct (decide _).
    + destruct Hs as (j & q1 & -> & Hw' & _ & Hj & Ht & Hg). cbn. split; [done|].
      destruct (decide (i = j)) as [->|Hne].
      * right. split; [done|]. rewrite Hg. apply list_lookup_alter_eq.
      * left. rewrite Hg, Ht, list_lookup_alter_ne, list_lookup_insert_ne by done. auto.
    + rewrite Hs. cbn. split; [done|]. auto.
  - pose proof (remove_spec tid q Hw) as Hs. destruct (remove tid q) as [r q1] eqn:E. cbn.
    destruct Hs as (_ & Hw' & _ & Hg). split; [done|]. left. split; [by rewrite Hg|].
    revert E. unfold remove. destruct (find_slot _ _) as [[j t]|] eqn:Ef; intros [= <- <-]; [|by right]. cbn.
    destruct (decide (i = j)) as [->|Hne]; [left|right; by rewrite list_lookup_insert_ne].
    apply list_lookup_insert_eq. apply find_slot_Some in Ef as [Hj _]. by eapply lookup_lt_Some.
  - pose proof (with_thread_mut_spec tid f q Hw Hf) as Hs. destruct (with_thread_mut tid f q) as [r q1]. cbn.
    destruct Hs as (_ & Hw' & _ & Hg & Ht). split; [done|]. left. split; [by rewrite Hg|]. right. rewrite Ht.
    destruct (threads q !! i) as [[u|]|]; cbn; try done. by destruct (id u =? tid); rewrite ?Hf.
Qed.

Lemma qsteps_gen q0 n q i g :
  qsteps q0 n q -> queue_wf q0 -> slot_generations q0 !! i = Some g -> 0 <= g -> g + n < U64_MODULUS ->
  queue_wf q /\ 0 <= n /\ exists g', slot_generations q !! i = Some g' /\ g <= g' <= g + n /\
    (g' = g -> threads q !! i = Some None \/ (fmap id <$> threads q !! i) = (fmap id <$> threads q0 !! i)).
Proof.
  intros Hs Hw Hg Hg0. induction Hs as [|n b q1 q2 Hs IH Hst]; intros Hb; [naive_solver lia|].
  destruct IH as (Hw1 & Hn & g1 & Hg1 & Hle & Hocc); [destruct b; cbn in Hb; lia|].
  destruct (qstep_slot q1 b q2 i Hw1 Hst) as (Hw2 & [[Hsame Ht]|[-> Hnew]]); (split; [done|]).
  - split; [destruct b; cbn; lia|]. exists g1. rewrite Hsame. split; [done|]. split; [destruct b; cbn; lia|].
    intros ->. destruct Ht as [Ht|Ht]; [by left|]. rewrite Ht. destruct (Hocc eq_refl) as [E|E]; [|by right].
    left. rewrite E in Ht. destruct (threads q2 !! i) as [[?|]|]; done.
  - cbn in *. split; [lia|]. exists (g1 + 1). rewrite Hnew, Hg1. cbn. rewrite next_generation_small by lia.
    split; [done|]. split; [lia|]. lia.
Qed.

(** A (slot, generation) handle names one thread for ever: if thread [tid]
    has handle [h] in a queue reachable from boot, and at any later time some
    thread has the same handle, it is the same thread, however often slots were
    freed and reused in between (fewer than 2^64 creations in total). *)
Theorem thread_handles_never_reused (q q' : ThreadQueue) (n n' tid tid' : Z) (h : nat * Z) :
  qsteps Queue_new n q -> qsteps q n' q' -> n + n' < U64_MODULUS ->
  slot_index_and_generation tid q = Some h -> slot_index_and_generation tid' q' = Some h -> tid' = tid.
Proof.
  intros H0 H1 Hn. unfold slot_index_and_generation.
  destruct (find_slot (by_key id tid) (threads q)) as [[i t]|] eqn:Ef; [|done]. intros [= <-].
  destruct (find_slot (by_key id tid') (threads q')) as [[i' t']|] eqn:Ef'; [|done]. intros [= -> Hgg].
  apply find_by_key_Some in Ef as [Hi <-]. apply find_by_key_Some in Ef' as [Hi' <-].
  assert (i < MAX_THREADS)%nat as Hlt.
  { apply lookup_lt_Some in Hi. rewrite <-(qw_len q); [done|].
    clear -H0. assert (forall m p, qsteps Queue_new m p -> queue_wf p) as HW; [|by eapply HW].
    induction 1 as [|? ? ? ? ? ? Hst]; [apply queue_new_wf|]. by eapply (qstep_slot _ _ _ 0). }
  assert (slot_generations Queue_new !! i = Some 0) as Hz by (apply lookup_replicate_2; done).
  assert (0 <= n') as Hn' by (clear -H1; induction H1 as [|? [] ? ? ? ? ?]; cbn; lia).
  destruct (qsteps_gen _ _ _ i 0 H0 queue_new_wf Hz) as (Hw & Hn0 & g & Hg & Hle & _); [lia|lia|].
  destruct (qsteps_gen _ _ _ i g H1 Hw Hg) as (_ & _ & g' & Hg' & _ & Hocc); [lia|lia|].
  rewrite (list_lookup_total_correct _ _ _ Hg), (list_lookup_total_correct _ _ _ Hg') in Hgg.
  destruct (Hocc Hgg) as [E|E]; [congruence|]. rewrite Hi, Hi' in E. cbn in E. congruence.
Qed.

Lemma thread_handles_never_reused_witness :
  exists q q', slot_index_and_generation 1 q = Some (0%nat, 1) /\
    slot_index_and_generation 2 q' = Some (0%nat, 2) /\
    forall tid', slot_index_and_generation tid' q' = Some (0%nat, 1) -> tid' = 1.
Proof.
  set (q1 := (push (spawned 7 [] 0 0 0 1) Queue_new).2).
  set (q2 := (push (spawned 7 [] 0 0 0 2) (remove 1 q1).2).2).
  exists q1, q2. split; [vm_compute; reflexivity|]. split; [vm_compute; reflexivity|]. intros tid'.
  apply (thread_handles_never_reused q1 q2 (0 + 1) (0 + 0 + 1) 1 tid').
  - apply (qsteps_step _ 0 true Queue_new); [constructor|apply qstep_push; reflexivity].
  - apply (qsteps_step _ (0 + 0) true (remove 1 q1).2).
    + apply (qsteps_step _ 0 false q1); [constructor|apply qstep_remove].
    + apply qstep_push. vm_compute. reflexivity.
  - unfold U64_MODULUS. lia.
  - vm_compute. reflexivity.
Defined.
End Thread.
