(* ===== verification/KStack.v ===== *)
(** The kernel-stack pool of [src/core/task/thread.rs]
    ([allocate_kernel_stack], [free_kernel_stack]).

    Stacks come from a 2 MiB static pool by a bump offset, each below a guard
    page; freed stacks go to a list of 32 slots and are handed out again. *)

From Stdlib Require Import ZArith Lia.
From stdpp Require Import base list option numbers.
From S2P Require Import Prelude.

Local Open Scope Z_scope.

Module KStack.

Definition KSTACK_PAGE_BYTES : Z := 4096.
Definition KSTACK_GUARD_BYTES : Z := KSTACK_PAGE_BYTES.
Definition KSTACK_POOL_SIZE : Z := 4096 * 512.
Definition KSTACK_FREE_LIST_CAP : nat := 32.

Record KPool := mkPool { free_list : list Z; next_offset : Z }.

Definition boot : KPool := mkPool (replicate KSTACK_FREE_LIST_CAP 0) 0.

(** The first slot of the free list that is in use, with its value. *)
Fixpoint take_first (l : list Z) : option (Z * list Z) :=
  match l with
  | [] => None
  | v :: l => if negb (v =? 0) then Some (v, 0 :: l)
              else match take_first l with Some (w, l') => Some (w, v :: l') | None => None end
  end.

(** Stores [g] in the first empty slot, if there is one. *)
Fixpoint put_first (g : Z) (l : list Z) : list Z :=
  match l with
  | [] => []
  | v :: l => if v =? 0 then g :: l else v :: put_first g l
  end.

Section pool.
(** The address of the pool, and whether a guard page could be unmapped. *)
Context (pool_base : Z) (unmap_guard_page : Z -> bool).

Definition round_pages (size : Z) : Z := (size + (KSTACK_PAGE_BYTES - 1)) / KSTACK_PAGE_BYTES * KSTACK_PAGE_BYTES.

Definition allocate_kernel_stack (size : Z) (p : KPool) : option Z * KPool :=
  if (size =? 0) || (saturating_sub64 KSTACK_POOL_SIZE KSTACK_GUARD_BYTES <? size) then (None, p)
  else
    let size_pages := round_pages size in
    match take_first (free_list p) with
    | Some (guard_addr, l') => (checked_add64 guard_addr KSTACK_GUARD_BYTES, mkPool l' (next_offset p))
    | None =>
        let alloc_size := size_pages + KSTACK_GUARD_BYTES in
        let off := next_offset p in
        let p' := mkPool (free_list p) (wrap64 (off + alloc_size)) in
        if KSTACK_POOL_SIZE <? off + alloc_size then (None, p')
        else
          match checked_add64 pool_base off with
          | None => (None, p')
          | Some guard_addr =>
              if negb (unmap_guard_page guard_addr) then (None, p')
              else (checked_add64 guard_addr KSTACK_GUARD_BYTES, p')
          end
    end.

Definition free_kernel_stack (base : Z) (p : KPool) : KPool :=
  if base =? 0 then p
  else
    match checked_sub64 base KSTACK_GUARD_BYTES with
    | None => p
    | Some guard_addr =>
        if (guard_addr <? pool_base) || (pool_base + KSTACK_POOL_SIZE <=? guard_addr) then p
        else mkPool (put_first guard_addr (free_list p)) (next_offset p)
    end.

(** The stacks in use, as (base, size), along a history in which only stacks in
    use are freed and every request has a size allowed by [ok]. *)
Inductive ksteps (ok : Z -> Prop) : Z -> KPool -> list (Z * Z) -> Prop :=
  | ksteps_boot : ksteps ok 0 boot []
  | ksteps_alloc n p used size base p' :
      ksteps ok n p used -> ok size -> allocate_kernel_stack size p = (Some base, p') ->
      ksteps ok (n + 1) p' ((base, size) :: used)
  | ksteps_fail n p used size p' :
      ksteps ok n p used -> ok size -> allocate_kernel_stack size p = (None, p') -> ksteps ok (n + 1) p' used
  | ksteps_free n p used used' base size :
      ksteps ok n p used -> used ≡ₚ (base, size) :: used' -> ksteps ok n (free_kernel_stack base p) used'.

(** Stack [s] with its guard page does not meet stack [s']. *)
Definition disjoint_stacks (s s' : Z * Z) : Prop :=
  s.1 + s.2 <= s'.1 - KSTACK_GUARD_BYTES \/ s'.1 + s'.2 <= s.1 - KSTACK_GUARD_BYTES.

Definition in_pool (s : Z * Z) : Prop :=
  pool_base <= s.1 - KSTACK_GUARD_BYTES /\ s.1 + s.2 <= pool_base + KSTACK_POOL_SIZE.

(** ** The free list *)

Definition occupied (l : list Z) : list Z := filter (fun v => v <> 0) l.

Lemma take_first_Some l g l' : take_first l = Some (g, l') -> g <> 0 /\ occupied l ≡ₚ g :: occupied l'.
Proof.
  revert g l'. induction l as [|v l IH]; intros g l'; cbn [take_first]; [done|]. unfold occupied.
  destruct (Z.eqb_spec v 0) as [->|Hv]; cbn [negb].
  - destruct (take_first l) as [[w l1]|]; [|done]. intros [= <- <-]. rewrite !filter_cons_False by lia.
    by apply IH.
  - intros [= <- <-]. rewrite filter_cons_True by done. rewrite filter_cons_False by lia. done.
Qed.

Lemma put_first_occupied g l :
  g <> 0 -> occupied (put_first g l) ≡ₚ g :: occupied l \/ occupied (put_first g l) = occupied l.
Proof.
  intros Hg. induction l as [|v l IH]; cbn [put_first]; [by right|]. unfold occupied in *.
  destruct (Z.eqb_spec v 0) as [->|Hv].
  - left. rewrite filter_cons_True by done. by rewrite filter_cons_False by lia.
  - rewrite !filter_cons_True by done. destruct IH as [E|E]; [left; rewrite E; by constructor|right; by rewrite E].
Qed.

(** ** One stack size *)

Section uniform.
Context (size : Z) (Hsize : 0 < size).
Context (Hbase : 0 < pool_base) (Hfit : pool_base + KSTACK_POOL_SIZE < U64_MODULUS).

Definition stride : Z := round_pages size + KSTACK_GUARD_BYTES.

Lemma round_pages_ge : size <= round_pages size.
Proof.
  unfold round_pages, KSTACK_PAGE_BYTES. change (4096 - 1) with 4095. pose proof (Z.div_mod (size + 4095) 4096 ltac:(lia)).
  pose proof (Z.mod_pos_bound (size + 4095) 4096 ltac:(lia)). lia.
Qed.

Lemma stride_ge : size + KSTACK_GUARD_BYTES <= stride /\ 4096 < stride.
Proof. pose proof round_pages_ge. unfold stride, KSTACK_GUARD_BYTES, KSTACK_PAGE_BYTES. lia. Qed.

(** [g] is the guard address of the [k]-th stack of the pool. *)
Definition placed (p : KPool) (g : Z) : Prop :=
  exists k, 0 <= k /\ g = pool_base + k * stride /\ k * stride + stride <= next_offset p /\
    k * stride + stride <= KSTACK_POOL_SIZE.

Definition guards (used : list (Z * Z)) : list Z := (fun s => s.1 - KSTACK_GUARD_BYTES) <$> used.

(** How far the offset can run before the counter wraps. *)
Record uniform_inv (p : KPool) (used : list (Z * Z)) (n : Z) : Prop := {
  ui_off : next_offset p = n * stride;
  ui_n : 0 <= n;
  ui_nodup : NoDup (occupied (free_list p) ++ guards used);
  ui_placed : Forall (placed p) (occupied (free_list p) ++ guards used);
  ui_size : Forall (fun s => s.2 = size) used;
}.

Lemma placed_mono p p' g : placed p g -> next_offset p <= next_offset p' -> placed p' g.
Proof. intros (k & H0 & H1 & H2 & H3) Hle. exists k. split_and!; done || lia. Qed.

Lemma placed_nonzero p g : placed p g -> g <> 0 /\ pool_base <= g < pool_base + KSTACK_POOL_SIZE.
Proof. intros (k & H0 & -> & _ & H). pose proof stride_ge as [_ ?]. assert (0 <= k * stride) by nia. lia. Qed.

(** The stack above a placed guard page. *)
Lemma placed_base p g : placed p g -> checked_add64 g KSTACK_GUARD_BYTES = Some (g + KSTACK_GUARD_BYTES).
Proof.
  intros (k & H0 & -> & _ & H). pose proof stride_ge as [_ ?]. apply checked_add64_Some. split; [done|].
  unfold KSTACK_GUARD_BYTES, KSTACK_PAGE_BYTES. lia.
Qed.

Lemma stride_le : size <= KSTACK_POOL_SIZE -> stride <= KSTACK_POOL_SIZE + 8192.
Proof.
  unfold stride, round_pages, KSTACK_GUARD_BYTES, KSTACK_PAGE_BYTES, KSTACK_POOL_SIZE. change (4096 - 1) with 4095.
  pose proof (Z.div_mod (size + 4095) 4096 ltac:(lia)). pose proof (Z.mod_pos_bound (size + 4095) 4096 ltac:(lia)). lia.
Qed.

Lemma alloc_uniform p used n r p' :
  uniform_inv p used n -> n < 2 ^ 40 -> allocate_kernel_stack size p = (r, p') ->
  exists n', n <= n' <= n + 1 /\
    match r with Some base => uniform_inv p' ((base, size) :: used) n' | None => uniform_inv p' used n' end.
Proof.
  intros [Ho Hn Hd Hp Hs] Hw. unfold allocate_kernel_stack.
  destruct (_ || _) eqn:Eg; [intros [= <- <-]; exists n; split; [lia|done]|].
  destruct (take_first (free_list p)) as [[g l']|] eqn:Et.
  - apply take_first_Some in Et as [Hg0 Hperm]. rewrite Hperm in Hd, Hp. intros [= <- <-]. exists n. split; [lia|].
    cbn in Hp. apply list.Forall_cons in Hp as [Hpg Hp]. pose proof (placed_nonzero _ _ Hpg).
    rewrite (placed_base _ _ Hpg).
    assert (occupied l' ++ guards ((g + KSTACK_GUARD_BYTES, size) :: used) ≡ₚ g :: occupied l' ++ guards used) as E.
    { cbn. replace (g + KSTACK_GUARD_BYTES - KSTACK_GUARD_BYTES) with g by lia. symmetry. apply Permutation_middle. }
    split; cbn [free_list next_offset]; rewrite ?E; try done; by constructor.
  - cbv zeta. fold stride. rewrite Ho. intros Heq.
    pose proof stride_ge as [_ Hst].
    assert (wrap64 (n * stride + stride) = (n + 1) * stride) as Ew.
    { unfold wrap64. rewrite Z.mod_small; [lia|].
      apply orb_false_iff in Eg as [_ Eg%Z.ltb_ge]. pose proof (stride_le ltac:(unfold saturating_sub64, KSTACK_POOL_SIZE, KSTACK_GUARD_BYTES, KSTACK_PAGE_BYTES in *; lia)) as Hsl.
      unfold KSTACK_POOL_SIZE, U64_MODULUS in *. nia. }
    rewrite Ew in Heq.
    assert (uniform_inv (mkPool (free_list p) ((n + 1) * stride)) used (n + 1)) as Hfail.
    { split; cbn; try done; [lia|]. apply (list.Forall_impl _ _ _ Hp). intros g Hg. apply (placed_mono p); [done|]. cbn. lia. }
    exists (n + 1). split; [lia|]. revert Heq.
    destruct (Z.ltb_spec KSTACK_POOL_SIZE (n * stride + stride)); [by intros [= <- <-]|].
    destruct (checked_add64 pool_base (n * stride)) as [g|] eqn:Ec; [|by intros [= <- <-]].
    apply checked_add64_Some in Ec as [-> _]. destruct (negb _); [by intros [= <- <-]|].
    assert (placed (mkPool (free_list p) ((n + 1) * stride)) (pool_base + n * stride)) as Hpl.
    { exists n. cbn. split_and!; done || lia. }
    pose proof (placed_nonzero _ _ Hpl). intros [= <- <-].
    rewrite (placed_base _ _ Hpl).
    set (g := pool_base + n * stride) in *.
    assert (occupied (free_list p) ++ guards ((g + KSTACK_GUARD_BYTES, size) :: used) ≡ₚ g :: occupied (free_list p) ++ guards used) as E.
    { cbn. replace (g + KSTACK_GUARD_BYTES - KSTACK_GUARD_BYTES) with g by lia. symmetry. apply Permutation_middle. }
    destruct Hfail as [F1 F2 F3 F4 F5]. cbn in F3, F4. split; cbn [free_list next_offset]; rewrite ?E; try done; [|by constructor|by constructor].
    apply list.NoDup_cons. split; [|done]. intros Hin. rewrite Forall_elem in Hp.
    destruct (Hp g Hin) as (k & Hk0 & Hk & Hk2 & _). rewrite Ho in Hk2. unfold g in Hk. nia.
Qed.

Lemma free_uniform p used used' base sz n :
  uniform_inv p used n -> used ≡ₚ (base, sz) :: used' -> uniform_inv (free_kernel_stack base p) used' n.
Proof.
  intros [Ho Hn Hd Hp Hs] Hperm. rewrite Hperm in Hs.
  assert (guards used ≡ₚ (base - KSTACK_GUARD_BYTES) :: guards used') as Hg by (unfold guards; by rewrite Hperm).
  rewrite Hg, <-Permutation_middle in Hd, Hp. apply list.NoDup_cons in Hd as [Hni Hd].
  apply list.Forall_cons in Hp as [Hpb Hp]. apply list.Forall_cons in Hs as [_ Hs].
  pose proof (placed_nonzero _ _ Hpb) as [Hg0 Hgr].
  assert (uniform_inv p used' n) as Hleak by (split; done).
  unfold free_kernel_stack. destruct (base =? 0); [done|].
  destruct (checked_sub64 base KSTACK_GUARD_BYTES) as [g|] eqn:Ec; [|done].
  apply checked_sub64_Some in Ec as [-> _]. destruct (_ || _); [done|].
  destruct (put_first_occupied (base - KSTACK_GUARD_BYTES) (free_list p) Hg0) as [E|E].
  - split; cbn [free_list next_offset]; rewrite ?E; try done; cbn; by constructor.
  - split; cbn [free_list next_offset]; rewrite ?E; done.
Qed.

Lemma uniform_disjoint p used n s s' i j :
  uniform_inv p used n -> used !! i = Some s -> used !! j = Some s' -> i <> j ->
  disjoint_stacks s s' /\ in_pool s.
Proof.
  intros [Ho Hn Hd Hp Hs] Hi Hj Hij. rewrite Forall_elem in Hs.
  assert (forall i s, used !! i = Some s -> guards used !! i = Some (s.1 - KSTACK_GUARD_BYTES)) as Hgl.
  { intros i' s0 H. unfold guards. by rewrite list_lookup_fmap, H. }
  pose proof (Hs s ltac:(by eapply list_elem_of_lookup_2)) as Es. pose proof (Hs s' ltac:(by eapply list_elem_of_lookup_2)) as Es'.
  apply list.NoDup_app in Hd as (_ & _ & Hd). rewrite Forall_elem in Hp.
  destruct (Hp (s.1 - KSTACK_GUARD_BYTES)) as (k & Hk0 & Hk & _ & Hk3).
  { apply elem_of_app. right. eapply list_elem_of_lookup_2. by apply Hgl. }
  destruct (Hp (s'.1 - KSTACK_GUARD_BYTES)) as (k' & Hk0' & Hk' & _ & Hk3').
  { apply elem_of_app. right. eapply list_elem_of_lookup_2. by apply Hgl. }
  assert (k <> k') as Hne.
  { intros <-. apply Hij. apply (NoDup_lookup _ _ _ _ Hd (Hgl i s Hi)). rewrite (Hgl j s' Hj). congruence. }
  pose proof stride_ge as [? ?]. unfold disjoint_stacks, in_pool. rewrite Es, Es'.
  split; [|split; nia]. destruct (Z.lt_ge_cases k k'); [left|right]; nia.
Qed.

Lemma boot_uniform : uniform_inv boot [] 0.
Proof.
  split; [reflexivity|lia| | |constructor];
    change (occupied (free_list boot) ++ guards []) with (@nil Z); constructor.
Qed.

Lemma ksteps_uniform n p used :
  ksteps (eq size) n p used -> 0 <= n /\ (n < 2 ^ 40 -> exists k, k <= n /\ uniform_inv p used k).
Proof.
  induction 1 as [|n p used sz base p' _ [Hn IH] <- E|n p used sz p' _ [Hn IH] <- E|n p used used' base sz _ [Hn IH] Hp].
  - split; [lia|]. intros _. exists 0. split; [lia|apply boot_uniform].
  - split; [lia|]. intros Hlt. destruct IH as (k & Hk & Hi); [lia|].
    destruct (alloc_uniform p used k _ _ Hi ltac:(lia) E) as (k' & Hk' & Hi'). exists k'. split; [lia|done].
  - split; [lia|]. intros Hlt. destruct IH as (k & Hk & Hi); [lia|].
    destruct (alloc_uniform p used k _ _ Hi ltac:(lia) E) as (k' & Hk' & Hi'). exists k'. split; [lia|done].
  - split; [lia|]. intros Hlt. destruct IH as (k & Hk & Hi); [lia|]. exists k. split; [done|].
    by apply (free_uniform p used used' base sz).
Qed.
End uniform.

(** When every kernel stack has the same size, the pool never hands out
    overlapping stacks: after any history of allocations and frees, any two
    stacks in use are disjoint, guard pages included, and lie inside the pool
    (fewer than 2^40 requests, so that the bump counter does not wrap). *)
Theorem kernel_stacks_disjoint_uniform (size n : Z) (p : KPool) (used : list (Z * Z)) (i j : nat) (s s' : Z * Z) :
  0 < size -> 0 < pool_base -> pool_base + KSTACK_POOL_SIZE < U64_MODULUS -> n < 2 ^ 40 ->
  ksteps (eq size) n p used -> used !! i = Some s -> used !! j = Some s' -> i <> j ->
  disjoint_stacks s s' /\ in_pool s.
Proof.
  intros Hs Hb Hf Hn Hk. destruct (ksteps_uniform size Hs Hb Hf n p used Hk) as [_ H].
  destruct (H Hn) as (k & _ & Hi). by apply (uniform_disjoint size Hs p used k).
Qed.
End pool.

Definition demo_base : Z := 1048576.
Definition demo_alloc (size : Z) (p : KPool) : option Z * KPool := allocate_kernel_stack demo_base (fun _ => true) size p.

Lemma demo_kstep ok n p used size base :
  ksteps demo_base (fun _ => true) ok n p used -> ok size -> (demo_alloc size p).1 = Some base ->
  ksteps demo_base (fun _ => true) ok (n + 1) (demo_alloc size p).2 ((base, size) :: used).
Proof.
  intros Hk Ho E. apply (ksteps_alloc _ _ _ n p); [done|done|]. fold (demo_alloc size p).
  rewrite <-E. apply surjective_pairing.
Qed.

Lemma kernel_stacks_disjoint_uniform_witness :
  exists p s s', ksteps demo_base (fun _ => true) (eq 16384) 2 p [s; s'] /\ disjoint_stacks s s' /\ in_pool demo_base s.
Proof.
  assert (exists p s s', ksteps demo_base (fun _ => true) (eq 16384) 2 p [s; s']) as (p & s & s' & Hk).
  { pose proof (ksteps_boot demo_base (fun _ => true) (eq 16384)) as H0.
    apply (demo_kstep _ _ _ _ 16384 (demo_base + 4096)) in H0; [|reflexivity|vm_compute; reflexivity].
    apply (demo_kstep _ _ _ _ 16384 (demo_base + 24576)) in H0; [|reflexivity|vm_compute; reflexivity].
    eexists _, _, _. exact H0. }
  exists p, s, s'. split; [exact Hk|].
  apply (kernel_stacks_disjoint_uniform demo_base (fun _ => true) 16384 2 p [s; s'] 0 1 s s');
    try reflexivity; [exact Hk|discriminate].
Defined.

(** The sizes the kernel asks for: [fork] (16 KiB) and [exec] (128 KiB). *)
Definition kernel_sizes (sz : Z) : Prop := sz = 4096 * 4 \/ sz = 4096 * 32.

(** With the sizes the kernel really uses the pool hands out overlapping
    stacks: the free list does not record sizes, so a 16 KiB stack freed by a
    forked thread is handed out again as the 128 KiB stack of an exec, on top of
    the guard page and the stack of the next forked thread, which is in use. *)
Theorem kernel_stack_reuse_overlaps :
  exists n p s s', ksteps demo_base (fun _ => true) kernel_sizes n p [s; s'] /\
    s.1 < s'.1 /\ s'.1 + s'.2 <= s.1 + s.2.
Proof.
  pose proof (ksteps_boot demo_base (fun _ => true) kernel_sizes) as H0.
  apply (demo_kstep _ _ _ _ 16384 (demo_base + 4096)) in H0; [|by left|vm_compute; reflexivity].
  apply (demo_kstep _ _ _ _ 16384 (demo_base + 24576)) in H0; [|by left|vm_compute; reflexivity].
  apply (ksteps_free _ _ _ _ _ _ [(demo_base + 24576, 16384)] (demo_base + 4096) 16384) in H0; [|apply perm_swap].
  apply (demo_kstep _ _ _ _ 131072 (demo_base + 4096)) in H0; [|by right|vm_compute; reflexivity].
  eexists _, _, _, _. split; [exact H0|]. unfold demo_base. cbn. lia.
Qed.
End KStack.
