(* ===== verification/Scheduler.v ===== *)
(** The round-robin scheduler, [src/core/task/scheduler.rs].

    The state is the thread queue, the identifier of the thread the CPU runs and
    the time-slice counters.  A context switch ([switch_to_thread]) is, at this
    level, the change of the current thread. *)

From Stdlib Require Import ZArith Lia.
From stdpp Require Import base list option numbers gmap fin_maps.
From S2P Require Import Prelude Slots Table Thread.
Import Thread.

Local Open Scope Z_scope.

Module Scheduler.

Record Scheduler := mkSched { enabled : bool; time_slice : Z; current_slice : Z }.

Definition DEFAULT_TIME_SLICE : Z := 2.

Definition new : Scheduler := mkSched false DEFAULT_TIME_SLICE 0.
Definition enable (s : Scheduler) : Scheduler := mkSched true (time_slice s) (current_slice s).
Definition disable (s : Scheduler) : Scheduler := mkSched false (time_slice s) (current_slice s).
Definition set_time_slice (slice : Z) (s : Scheduler) : Scheduler := mkSched (enabled s) slice (current_slice s).
Definition reset_slice (s : Scheduler) : Scheduler := mkSched (enabled s) (time_slice s) 0.

Definition tick (s : Scheduler) : bool * Scheduler :=
  if negb (enabled s) then (false, s)
  else
    let c := current_slice s + 1 in
    if time_slice s <=? c then (true, mkSched (enabled s) (time_slice s) 0)
    else (false, mkSched (enabled s) (time_slice s) c).

Record KState := mkK { queue : ThreadQueue; current : option Z; sched : Scheduler }.

Definition set_queue (q : ThreadQueue) (k : KState) : KState := mkK q (current k) (sched k).
Definition set_current_thread (c : option Z) (k : KState) : KState := mkK (queue k) c (sched k).

(** [with_thread_mut(id, |t| ...)] with a closure that returns nothing. *)
Definition update (tid : Z) (f : Thread -> Thread) (k : KState) : KState :=
  set_queue (with_thread_mut tid (fun t => (tt, f t)) (queue k)).2 k.

Definition scheduler_tick (k : KState) : bool * KState :=
  if match current k with
     | Some tid => match get tid (queue k) with Some t => in_syscall t | None => false end
     | None => false
     end
  then (false, k)
  else let '(b, s) := tick (sched k) in (b, mkK (queue k) (current k) s).

Definition set_slot_state (i : nat) (st : ThreadState) (q : ThreadQueue) : ThreadQueue :=
  mkQueue (alter_slot (set_state st) i (threads q)) (slot_generations q) (count q).

#[global] Arguments set_slot_state : simpl never.

(** Running -> Ready for the current thread. *)
Definition demote (t : Thread) : Thread := if bool_decide (state t = Running) then set_state Ready t else t.

Definition schedule (k : KState) : option Z * KState :=
  let q1 := match current k with
            | Some c => (with_thread_mut c (fun t => (tt, demote t)) (queue k)).2
            | None => queue k
            end in
  match peek_next_after (current k) q1 with
  | Some i =>
      let next_id := match threads q1 !! i with Some (Some t) => Some (id t) | _ => None end in
      (next_id, mkK (set_slot_state i Running q1) (current k) (reset_slice (sched k)))
  | None => (None, set_queue q1 k)
  end.

(** [switch_to_thread] (guard pages intact): nothing happens when either thread
    is not in the queue. *)
Definition switch_to_thread (cur : option Z) (next_id : Z) (k : KState) : KState :=
  if match cur with Some c => bool_decide (is_Some (get c (queue k))) | None => true end
     && bool_decide (is_Some (get next_id (queue k)))
  then set_current_thread (Some next_id) k else k.

Definition yield_now (k : KState) : KState :=
  if negb (enabled (sched k)) then k
  else
    match schedule k with
    | (Some next_id, k1) => if bool_decide (Some next_id = current k1) then k1 else switch_to_thread (current k1) next_id k1
    | (None, k1) => k1
    end.

(** [schedule_and_switch] of the timer interrupt. *)
Definition schedule_and_switch (k : KState) : KState :=
  if negb (enabled (sched k)) then k
  else
    let cur := current k in
    match schedule k with
    | (Some next_id, k1) => if bool_decide (Some next_id = cur) then k1 else switch_to_thread cur next_id k1
    | (None, k1) => k1
    end.

Definition block_current_thread (k : KState) : KState :=
  match current k with
  | Some c => yield_now (update c (set_state Blocked) k)
  | None => k
  end.

Definition sleep_thread (tid : Z) (k : KState) : KState := update tid (set_state Sleeping) k.

Definition wake (t : Thread) : Thread :=
  match state t with
  | Sleeping | Blocked => set_state Ready t
  | Ready => set_pending_wakeup t
  | _ => t
  end.

Definition wake_thread (tid : Z) (k : KState) : KState := update tid wake k.

Definition sleep_unless_woken (t : Thread) : bool * Thread :=
  let '(woken, t') := take_pending_wakeup t in
  if woken then (false, t') else (true, set_state Sleeping t').

Definition sleep_thread_unless_woken (tid : Z) (k : KState) : bool * KState :=
  let '(r, q) := with_thread_mut tid sleep_unless_woken (queue k) in
  (default false r, set_queue q k).

(** [exit_current_task], the thread part: the process bookkeeping and the signal
    to the parent are elsewhere. *)
Definition exit_current_task (k : KState) : KState :=
  match current k with
  | None => k
  | Some c =>
      let k1 := set_current_thread None (update c (set_state Terminated) k) in
      match schedule k1 with
      | (Some next_id, k2) => switch_to_thread None next_id (set_queue (remove c (queue k2)).2 k2)
      | (None, k2) => set_queue (remove c (queue k2)).2 k2
      end
  end.

(** [terminate_thread].  For the current thread, [yield_now] saves no context: if
    another thread is picked, the code after it is never reached. *)
Definition terminate_thread (tid : Z) (k : KState) : KState :=
  let k1 := update tid (set_state Terminated) k in
  if bool_decide (Some tid = current k1) then
    let k2 := yield_now (set_current_thread None k1) in
    if bool_decide (current k2 = None) then set_queue (remove tid (queue k2)).2 k2 else k2
  else set_queue (remove tid (queue k1)).2 k1.

(** [start_scheduling]: the jump to the first ready thread. *)
Definition start_scheduling (k : KState) : KState :=
  match peek_next (queue k) with
  | Some (i, t) => switch_to_thread None (id t) (update (id t) (set_state Running) k)
  | None => k
  end.

(** ** The queue under updates *)

Lemma demote_id t : id (demote t) = id t.
Proof. unfold demote. by destruct (bool_decide _). Qed.

Lemma wake_id t : id (wake t) = id t.
Proof. unfold wake. by destruct (state t). Qed.

Lemma update_wf {R} tid (f : Thread -> R * Thread) q :
  queue_wf q -> (forall t, id (f t).2 = id t) -> queue_wf (with_thread_mut tid f q).2.
Proof. intros Hw Hf. pose proof (with_thread_mut_spec tid f q Hw Hf) as H. destruct (with_thread_mut tid f q) as [r0 q0]. apply H. Qed.

Lemma update_slot {R} tid (f : Thread -> R * Thread) q i t :
  queue_wf q -> (forall t, id (f t).2 = id t) -> threads q !! i = Some (Some t) ->
  threads (with_thread_mut tid f q).2 !! i = Some (Some (if id t =? tid then (f t).2 else t)).
Proof.
  intros Hw Hf Hi. pose proof (with_thread_mut_spec tid f q Hw Hf) as H. destruct (with_thread_mut tid f q) as [r0 q0].
  destruct H as (_ & _ & _ & _ & H). cbn. by rewrite H, Hi.
Qed.

Lemma update_slot_inv {R} tid (f : Thread -> R * Thread) q i t' :
  queue_wf q -> (forall t, id (f t).2 = id t) -> threads (with_thread_mut tid f q).2 !! i = Some (Some t') ->
  exists t, threads q !! i = Some (Some t) /\ t' = (if id t =? tid then (f t).2 else t).
Proof.
  intros Hw Hf. pose proof (with_thread_mut_spec tid f q Hw Hf) as H. destruct (with_thread_mut tid f q) as [r0 q0].
  destruct H as (_ & _ & _ & _ & H). cbn. rewrite H. destruct (threads q !! i) as [[t|]|]; cbn; naive_solver.
Qed.

Lemma set_slot_state_eq i st q t :
  queue_wf q -> threads q !! i = Some (Some t) ->
  set_slot_state i st q = (with_thread_mut (id t) (fun t => (tt, set_state st t)) q).2.
Proof.
  intros [_ _ _ Hk] Hi. unfold set_slot_state, with_thread_mut.
  by rewrite (find_by_key_intro id _ _ _ Hk Hi).
Qed.

Lemma get_Some tid q t : queue_wf q -> get tid q = Some t <-> exists i, threads q !! i = Some (Some t) /\ id t = tid.
Proof.
  intros Hw. rewrite get_abs by done. unfold abs. rewrite entries_Some by apply Hw. rewrite elem_of_live.
  split; [intros [[i Hi] ?]; eauto|]. intros (i & Hi & ?). eauto.
Qed.

Lemma slot_lt q i t : queue_wf q -> threads q !! i = Some (Some t) -> (i < MAX_THREADS)%nat.
Proof. intros Hw H%lookup_lt_Some. by rewrite (qw_len q Hw) in H. Qed.

Lemma slot_ready_iff q i : slot_ready q i = true <-> exists t, threads q !! i = Some (Some t) /\ state t = Ready.
Proof.
  unfold slot_ready, in_state. destruct (threads q !! i) as [[t|]|]; [|naive_solver|naive_solver].
  rewrite bool_decide_eq_true. naive_solver.
Qed.

(** [peek_next_after] returns a ready slot, and finds one if there is one. *)
Lemma peek_next_after_ready c q i : peek_next_after c q = Some i -> slot_ready q i = true.
Proof.
  assert (forall j, fst <$> peek_next q = Some j -> slot_ready q j = true) as Hp.
  { intros j. unfold peek_next. destruct (find_slot _ _) as [[k t]|] eqn:E; [|done]. intros [= <-].
    apply find_slot_Some in E as (Hk & Hr & _). unfold slot_ready. by rewrite Hk. }
  unfold peek_next_after. destruct (c ≫= _) as [s|]; [|apply Hp].
  destruct (List.find _ _) as [j|] eqn:E; [|apply Hp]. intros [= <-]. by apply find_some in E as [_ ?].
Qed.

Lemma peek_next_after_total c q j : slot_ready q j = true -> is_Some (peek_next_after c q).
Proof.
  intros Hj. assert (is_Some (fst <$> peek_next q)) as Hp.
  { apply slot_ready_iff in Hj as (t & Ht & Hs). unfold peek_next.
    destruct (find_slot_is_Some (in_state Ready) (threads q) j t Ht) as [[? ?] ->]; [|eauto].
    unfold in_state. by apply bool_decide_eq_true. }
  unfold peek_next_after. destruct (c ≫= _); [|done]. destruct (List.find _ _); eauto.
Qed.

(** ** At most one thread runs *)

(** Only the current thread is marked running, and it is in the queue. *)
Definition sched_inv (k : KState) : Prop :=
  queue_wf (queue k) /\
  (forall i t, threads (queue k) !! i = Some (Some t) -> state t = Running -> current k = Some (id t)) /\
  (forall c, current k = Some c -> is_Some (abs (queue k) !! c)).

Lemma update_inv tid f k :
  (forall t, id (f t) = id t) -> (forall t, state (f t) = Running -> state t = Running) ->
  sched_inv k -> sched_inv (update tid f k).
Proof.
  intros Hf Hr (Hw & Hrun & Hc). unfold update. split; [|split]; cbn.
  - by apply update_wf.
  - intros i t Ht Hs. apply update_slot_inv in Ht as (t0 & Hi & ->); [|done|done]. cbn in Hs.
    destruct (id t0 =? tid); cbn in *; [rewrite Hf; apply (Hrun i); auto|by apply (Hrun i)].
  - intros c Hcc. pose proof (with_thread_mut_spec tid (fun t => (tt, f t)) (queue k) Hw ltac:(done)) as H.
    destruct (with_thread_mut _ _ _) as [r0 q0]. cbn. destruct H as (_ & _ & -> & _). rewrite lookup_alter_is_Some. auto.
Qed.

(** What [schedule] returns: the queue with the current thread demoted and the
    chosen one running. *)
Lemma schedule_spec k :
  queue_wf (queue k) ->
  (forall i t, threads (queue k) !! i = Some (Some t) -> state t = Running -> current k = Some (id t)) ->
  let '(r, k') := schedule k in
  queue_wf (queue k') /\ current k' = current k /\ dom (abs (queue k')) = dom (abs (queue k)) /\
  (forall i t, threads (queue k') !! i = Some (Some t) -> state t = Running -> r = Some (id t)) /\
  (forall n, r = Some n -> is_Some (abs (queue k') !! n)).
Proof.
  intros Hw Hrun. unfold schedule.
  set (q1 := match current k with Some c => _ | None => _ end).
  assert (queue_wf q1 /\ dom (abs q1) = dom (abs (queue k)) /\
    forall i t, threads q1 !! i = Some (Some t) -> state t <> Running) as (Hw1 & Hd1 & Hn1).
  { unfold q1. destruct (current k) as [c|] eqn:Ec.
    - pose proof (with_thread_mut_spec c (fun t => (tt, demote t)) (queue k) Hw demote_id) as H.
      destruct (with_thread_mut c _ _) as [u q']. cbn. destruct H as (_ & Hw' & Ha & _ & Ht). split; [done|].
      split; [by rewrite Ha, dom_alter_L|]. intros i t. rewrite Ht.
      destruct (threads (queue k) !! i) as [[t0|]|] eqn:E; cbn; try done. intros [= <-].
      destruct (Z.eqb_spec (id t0) c) as [<-|Hne].
      + unfold demote. by destruct (bool_decide_reflect (state t0 = Running)).
      + intros Hs. specialize (Hrun i t0 E Hs). congruence.
    - split; [done|]. split; [done|]. intros i t Ht Hs. specialize (Hrun i t Ht Hs). congruence. }
  destruct (peek_next_after (current k) q1) as [i|] eqn:Ep.
  - apply peek_next_after_ready, slot_ready_iff in Ep as (t & Hi & Hs). rewrite Hi. cbn.
    rewrite (set_slot_state_eq i Running q1 t) by done.
    pose proof (with_thread_mut_spec (id t) (fun t => (tt, set_state Running t)) q1 Hw1 ltac:(done)) as H.
    destruct (with_thread_mut (id t) _ _) as [u q']. cbn. destruct H as (_ & Hw' & Ha & _ & Ht).
    split; [done|]. split; [done|]. split; [by rewrite Ha, dom_alter_L|]. split.
    + intros j t' Hj Hr. rewrite Ht in Hj. destruct (threads q1 !! j) as [[t0|]|] eqn:E; cbn in Hj; try done.
      injection Hj as <-. destruct (Z.eqb_spec (id t0) (id t)) as [He|Hne]; [cbn; congruence|].
      by destruct (Hn1 j t0 E).
    + intros n [= <-]. rewrite Ha, lookup_alter_is_Some, <-get_abs by done. exists t. apply get_Some; eauto.
  - cbn. split; [done|]. split; [done|]. split; [done|]. split; [|done].
    intros j t' Hj Hr. by destruct (Hn1 j t' Hj).
Qed.

(** With no current thread, [schedule] picks a ready thread of the queue. *)
Lemma schedule_none_ready k n k' :
  current k = None -> schedule k = (Some n, k') ->
  exists i t, threads (queue k) !! i = Some (Some t) /\ state t = Ready /\ id t = n.
Proof.
  intros Hc. unfold schedule. rewrite Hc. destruct (peek_next_after None (queue k)) as [i|] eqn:Ep; [|done].
  apply peek_next_after_ready, slot_ready_iff in Ep as (t & Hi & Hs). rewrite Hi. intros [= <- <-]. eauto.
Qed.

Lemma switch_inv k cur n :
  queue_wf (queue k) ->
  (forall i t, threads (queue k) !! i = Some (Some t) -> state t = Running -> n = id t) ->
  is_Some (abs (queue k) !! n) -> (forall c, cur = Some c -> is_Some (abs (queue k) !! c)) ->
  sched_inv (switch_to_thread cur n k).
Proof.
  intros Hw Hr Hn Hc. unfold switch_to_thread. rewrite !get_abs by done. rewrite (bool_decide_true _ Hn).
  assert (match cur with Some c => bool_decide (is_Some (get c (queue k))) | None => true end = true) as ->.
  { destruct cur; [|done]. rewrite get_abs by done. apply bool_decide_eq_true. auto. }
  cbn. split; [done|]. split; cbn.
  - intros i t Hi Hs. f_equal. by apply (Hr i).
  - by intros c [= <-].
Qed.

Lemma schedule_switch_inv k :
  sched_inv k ->
  sched_inv (match schedule k with
    | (Some next_id, k1) => if bool_decide (Some next_id = current k1) then k1 else switch_to_thread (current k1) next_id k1
    | (None, k1) => k1
    end).
Proof.
  intros (Hw & Hr & Hc). pose proof (schedule_spec k Hw Hr) as H.
  destruct (schedule k) as [[n|] k1]; destruct H as (Hw1 & Hc1 & Hd & Hrun & Hn).
  - assert (forall c, current k1 = Some c -> is_Some (abs (queue k1) !! c)) as Hcur.
    { intros c E. apply elem_of_dom. rewrite Hd. apply elem_of_dom, Hc. congruence. }
    destruct (bool_decide_reflect (Some n = current k1)) as [E|Hne].
    + split; [done|]. split; [|done]. intros i t Hi Hs. rewrite <-E. by apply (Hrun i).
    + apply switch_inv; auto. intros i t Hi Hs. specialize (Hrun i t Hi Hs). congruence.
  - split; [done|]. split.
    + intros i t Hi Hs. specialize (Hrun i t Hi Hs). done.
    + intros c E. apply elem_of_dom. rewrite Hd. apply elem_of_dom, Hc. congruence.
Qed.

Lemma yield_inv k : sched_inv k -> sched_inv (yield_now k).
Proof. intros Hi. unfold yield_now. destruct (negb _); [done|]. by apply schedule_switch_inv. Qed.

Lemma exit_inv k : sched_inv k -> sched_inv (exit_current_task k).
Proof.
  intros Hi. unfold exit_current_task. destruct (current k) as [c|] eqn:Ec; [|done].
  pose proof (update_inv c (set_state Terminated) k ltac:(done) ltac:(done) Hi) as (Hw & Hr & _).
  set (k1 := set_current_thread None (update c (set_state Terminated) k)).
  assert (forall i t, threads (queue k1) !! i = Some (Some t) -> state t = Running -> current k1 = Some (id t)) as Hr1.
  { intros i t Ht Hs. exfalso. specialize (Hr i t Ht Hs). cbn in Hr. rewrite Ec in Hr. injection Hr as Hid.
    apply update_slot_inv in Ht as (t0 & _ & ->); [|apply Hi|done]. cbn in *.
    destruct (Z.eqb_spec (id t0) c) as [He|He]; cbn in *; [done|congruence]. }
  pose proof (schedule_spec k1 Hw Hr1) as H.
  assert (forall i t, threads (queue k1) !! i = Some (Some t) -> id t = c -> state t = Terminated) as Hterm.
  { intros i t Ht Hid. apply update_slot_inv in Ht as (t0 & _ & ->); [|apply Hi|done].
    destruct (Z.eqb_spec (id t0) c); [done|congruence]. }
  assert (forall n k', schedule k1 = (Some n, k') -> n <> c) as Hnc.
  { intros n k' (i & t & Hi' & Hs & <-)%schedule_none_ready; [|done]. intros He.
    specialize (Hterm i t Hi' He). congruence. }
  destruct (schedule k1) as [r k2]. destruct H as (Hw2 & Hc2 & Hd & Hrun & Hn).
  pose proof (remove_spec c (queue k2) Hw2) as Hrm. destruct (remove c (queue k2)) as [x q3] eqn:Erm.
  destruct Hrm as (_ & Hw3 & Ha3 & _).
  assert (forall i t, threads q3 !! i = Some (Some t) -> threads (queue k2) !! i = Some (Some t)) as Hsub.
  { intros i t. revert Erm. unfold remove. destruct (find_slot _ _) as [[j u]|]; intros [= _ <-]; [|done]. cbn.
    destruct (decide (i = j)) as [->|Hne]; [|by rewrite list_lookup_insert_ne].
    intros Hx. apply list_lookup_insert_Some in Hx. naive_solver. }
  destruct r as [n|]; cbn.
  - apply switch_inv; cbn; try done.
    + intros i t Hi' Hs. specialize (Hrun i t (Hsub i t Hi') Hs). congruence.
    + rewrite Ha3, lookup_delete_ne by (symmetry; by eapply Hnc). by apply Hn.
  - split; [done|]. split; cbn; rewrite ?Hc2; [|done]. intros i t Hi' Hs. specialize (Hrun i t (Hsub i t Hi') Hs). done.
Qed.

Lemma remove_inv tid k : sched_inv k -> current k <> Some tid -> sched_inv (set_queue (remove tid (queue k)).2 k).
Proof.
  intros (Hw & Hr & Hc) Hne. pose proof (remove_spec tid (queue k) Hw) as H.
  destruct (remove tid (queue k)) as [x q3] eqn:Erm. destruct H as (_ & Hw3 & Ha3 & _).
  split; [done|]. split; cbn.
  - intros i t Hi. apply (Hr i). revert Erm Hi. unfold remove.
    destruct (find_slot _ _) as [[j u]|]; intros [= _ <-]; [|done]. cbn.
    intros Hx%list_lookup_insert_Some. naive_solver.
  - intros c E. rewrite Ha3, lookup_delete_ne by congruence. auto.
Qed.

Lemma terminated_inv tid k :
  sched_inv k -> current k = Some tid -> sched_inv (set_current_thread None (update tid (set_state Terminated) k)).
Proof.
  intros Hi Ec. pose proof (update_inv tid (set_state Terminated) k ltac:(done) ltac:(done) Hi) as (Hw & Hr & _).
  split; [done|]. split; [|done]. intros i t Ht Hs. exfalso. specialize (Hr i t Ht Hs). cbn in Hr. rewrite Ec in Hr.
  injection Hr as Hid. apply update_slot_inv in Ht as (t0 & _ & ->); [|apply Hi|done]. cbn in *.
  destruct (Z.eqb_spec (id t0) tid) as [He|He]; cbn in *; [done|congruence].
Qed.

Lemma terminate_inv tid k : sched_inv k -> sched_inv (terminate_thread tid k).
Proof.
  intros Hi. unfold terminate_thread. cbn [current update set_queue].
  destruct (bool_decide_reflect (Some tid = current k)) as [Ec|Hne].
  - pose proof (yield_inv _ (terminated_inv tid k Hi (eq_sym Ec))) as Hy.
    destruct (bool_decide_reflect (current (yield_now (set_current_thread None (update tid (set_state Terminated) k))) = None)) as [En|]; [|done].
    apply remove_inv; [done|]. by rewrite En.
  - apply remove_inv; [|by cbn; congruence]. by apply update_inv.
Qed.

Lemma push_inv t k :
  sched_inv k -> abs (queue k) !! id t = None -> state t <> Running -> sched_inv (set_queue (push t (queue k)).2 k).
Proof.
  intros (Hw & Hr & Hc) Hn Hs. pose proof (push_spec t (queue k) Hw Hn) as H. destruct (decide _).
  - destruct H as (i & q' & -> & Hw' & Ha & Hi & Ht & _). split; [done|]. split; cbn.
    + intros j u. rewrite Ht. intros Hx%list_lookup_insert_Some. naive_solver.
    + intros c E. rewrite Ha. apply lookup_insert_is_Some'. auto.
  - rewrite H. by destruct k.
Qed.

Lemma start_inv k : sched_inv k -> current k = None -> sched_inv (start_scheduling k).
Proof.
  intros (Hw & Hr & Hc) En. unfold start_scheduling, peek_next.
  destruct (find_slot _ _) as [[i t]|] eqn:E; [|done]. apply find_slot_Some in E as (Hi & Hready & _).
  unfold update. pose proof (with_thread_mut_spec (id t) (fun t => (tt, set_state Running t)) (queue k) Hw ltac:(done)) as H.
  destruct (with_thread_mut _ _ _) as [r0 q0]. destruct H as (_ & Hw0 & Ha & _ & Ht). apply switch_inv; cbn; try done.
  - intros j u Hj Hs. rewrite Ht in Hj. destruct (threads (queue k) !! j) as [[t0|]|] eqn:Ej; cbn in Hj; try done.
    injection Hj as <-. destruct (Z.eqb_spec (id t0) (id t)); [done|]. specialize (Hr j t0 Ej Hs). congruence.
  - rewrite Ha, lookup_alter_is_Some, <-get_abs by done. exists t. apply get_Some; eauto.
Qed.

(** Everything that changes the scheduler's state. *)
Inductive kstep (k : KState) : KState -> Prop :=
  | k_yield : kstep k (yield_now k)
  | k_timer : kstep k (schedule_and_switch k)
  | k_tick : kstep k (scheduler_tick k).2
  | k_block : kstep k (block_current_thread k)
  | k_sleep tid : kstep k (sleep_thread tid k)
  | k_sleep_unless tid : kstep k (sleep_thread_unless_woken tid k).2
  | k_wake tid : kstep k (wake_thread tid k)
  | k_exit : kstep k (exit_current_task k)
  | k_terminate tid : kstep k (terminate_thread tid k)
  | k_start : current k = None -> kstep k (start_scheduling k)
  | k_enable : kstep k (mkK (queue k) (current k) (enable (sched k)))
  | k_spawn t : abs (queue k) !! id t = None -> state t = Ready -> kstep k (set_queue (push t (queue k)).2 k).

Definition boot : KState := mkK Queue_new None new.

Inductive reachable : KState -> Prop :=
  | reach_boot : reachable boot
  | reach_step k k' : reachable k -> kstep k k' -> reachable k'.

Lemma sleep_unless_inv tid k : sched_inv k -> sched_inv (sleep_thread_unless_woken tid k).2.
Proof.
  intros Hi. unfold sleep_thread_unless_woken.
  pose proof (update_inv tid (fun t => (sleep_unless_woken t).2) k) as H. unfold update in H.
  assert (forall t, id (sleep_unless_woken t).2 = id t) as Hid by (intros t; unfold sleep_unless_woken; cbn; by destruct (pending_wakeup t)).
  assert (with_thread_mut tid sleep_unless_woken (queue k) =
    ((fun t => (sleep_unless_woken t).1) <$> get tid (queue k), (with_thread_mut tid (fun t => (tt, (sleep_unless_woken t).2)) (queue k)).2)) as ->.
  { unfold with_thread_mut, get. by destruct (find_slot _ _) as [[j u]|]. }
  cbn. apply H; [done| |done]. intros t. unfold sleep_unless_woken. cbn. by destruct (pending_wakeup t).
Qed.

Lemma kstep_inv k k' : kstep k k' -> sched_inv k -> sched_inv k'.
Proof.
  intros [] Hi.
  - by apply yield_inv.
  - unfold schedule_and_switch. destruct (negb _); [done|]. pose proof (schedule_switch_inv k Hi) as H.
    pose proof (schedule_spec k (proj1 Hi) (proj1 (proj2 Hi))) as Hs.
    destruct (schedule k) as [[n|] k1]; [|done]. destruct Hs as (_ & <- & _). done.
  - unfold scheduler_tick. match goal with |- context [if ?b then _ else _] => destruct b end; [done|].
    destruct (tick (sched k)). by destruct Hi as (? & ? & ?).
  - unfold block_current_thread. destruct (current k); [|done]. by apply yield_inv, update_inv.
  - by apply update_inv.
  - by apply sleep_unless_inv.
  - apply update_inv; [apply wake_id| |done]. intros t. unfold wake. by destruct (state t) eqn:E; cbn; rewrite ?E.
  - by apply exit_inv.
  - by apply terminate_inv.
  - by apply start_inv.
  - by destruct Hi as (? & ? & ?).
  - apply push_inv; [done|done|congruence].
Qed.

Lemma sched_reachable_inv k : reachable k -> sched_inv k.
Proof.
  induction 1 as [|k k' _ IH Hs]; [|by eapply kstep_inv].
  split; [apply queue_new_wf|]. split; [|done]. cbn. intros i t Hi. apply lookup_replicate in Hi. naive_solver.
Qed.

(** C8. At most one thread is marked running, and it is the one the CPU runs:
    in every state reachable from boot by thread creation, scheduling (yield and
    timer), blocking, sleeping, waking, termination and exit. *)
Theorem running_is_current (k : KState) :
  reachable k ->
  (forall i t, threads (queue k) !! i = Some (Some t) -> state t = Running -> current k = Some (id t)) /\
  (forall i j t u, threads (queue k) !! i = Some (Some t) -> threads (queue k) !! j = Some (Some u) ->
     state t = Running -> state u = Running -> i = j) /\
  (forall c, current k = Some c -> is_Some (get c (queue k))).
Proof.
  intros (Hw & Hr & Hc)%sched_reachable_inv. split; [done|]. split.
  - intros i j t u Hi Hj Ht Hu. pose proof (Hr i t Hi Ht). pose proof (Hr j u Hj Hu).
    apply (slot_unique id (threads (queue k)) i j t u); [apply Hw|done|done|congruence].
  - intros c E. rewrite get_abs by done. by apply Hc.
Qed.

Definition demo_threads : KState :=
  start_scheduling (mkK (push (spawned 7 [] 0 0 0 2) (push (spawned 7 [] 0 0 0 1) Queue_new).2).2 None (enable new)).

Lemma demo_reachable : reachable demo_threads.
Proof.
  eapply reach_step; [|apply k_start; reflexivity].
  eapply (reach_step (mkK (push (spawned 7 [] 0 0 0 1) Queue_new).2 None (enable new)));
    [|apply (k_spawn (mkK (push (spawned 7 [] 0 0 0 1) Queue_new).2 None (enable new)) (spawned 7 [] 0 0 0 2)); reflexivity].
  eapply (reach_step (mkK Queue_new None (enable new)));
    [|apply (k_spawn (mkK Queue_new None (enable new)) (spawned 7 [] 0 0 0 1)); reflexivity].
  eapply (reach_step boot); [constructor|apply (k_enable boot)].
Qed.

Lemma running_is_current_witness :
  current demo_threads = Some 1 /\ is_Some (get 1 (queue demo_threads)).
Proof.
  split; [vm_compute; reflexivity|].
  apply (running_is_current demo_threads demo_reachable). vm_compute. reflexivity.
Defined.

(** ** Round robin *)

(** How many slots the search visits between slot [s] and slot [j]. *)
Definition distance (s j : nat) : nat := if (s <? j)%nat then j - s - 1 else j + 63 - s.

Lemma find_seq f a n i :
  List.find f (seq a n) = Some i -> (a <= i < a + n)%nat /\ f i = true /\ forall k, (a <= k < i)%nat -> f k = false.
Proof.
  revert a. induction n as [|n IH]; intros a; cbn; [done|]. destruct (f a) eqn:E.
  - intros [= <-]. split; [lia|]. split; [done|]. lia.
  - intros (H1 & H2 & H3)%IH. split; [lia|]. split; [done|]. intros k Hk.
    destruct (decide (k = a)) as [->|]; [done|]. apply H3. lia.
Qed.

Lemma find_seq_None f a n : List.find f (seq a n) = None -> forall k, (a <= k < a + n)%nat -> f k = false.
Proof. intros H k Hk. apply (find_none _ _ H). apply in_seq. lia. Qed.

Lemma find_append {A} (f : A -> bool) l1 l2 :
  List.find f (l1 ++ l2) = match List.find f l1 with Some x => Some x | None => List.find f l2 end.
Proof. induction l1 as [|x l1 IH]; cbn; [done|]. by destruct (f x). Qed.

(** The search from slot [s] stops at [j] or before it. *)
Lemma peek_after_closer c q s j i :
  slot_index c q = Some s -> (s < MAX_THREADS)%nat -> (j < MAX_THREADS)%nat -> slot_ready q j = true ->
  peek_next_after (Some c) q = Some i -> (i < MAX_THREADS)%nat /\ (i = j \/ (distance i j < distance s j)%nat).
Proof.
  intros Hs Hlt Hj Hr. unfold peek_next_after. cbn [mbind option_bind]. rewrite Hs, find_append.
  assert (MAX_THREADS = 64%nat) as HM by reflexivity. unfold distance.
  destruct (List.find (slot_ready q) (seq (S s) (MAX_THREADS - S s))) as [i1|] eqn:E1.
  - intros [= <-]. apply find_seq in E1 as (H1 & _ & H3). split; [lia|].
    destruct (decide (i1 = j)) as [|Hne]; [by left|right].
    destruct (decide (s < j < i1)%nat) as [Hb|]; [rewrite (H3 j ltac:(lia)) in Hr; done|].
    destruct (Nat.ltb_spec i1 j), (Nat.ltb_spec s j); lia.
  - pose proof (find_seq_None _ _ _ E1) as Hn1.
    destruct (decide (s < j)%nat) as [Hb|]; [rewrite (Hn1 j ltac:(lia)) in Hr; done|].
    destruct (List.find (slot_ready q) (seq 0 (S s))) as [i2|] eqn:E2.
    + intros [= <-]. apply find_seq in E2 as (H1 & _ & H3). split; [lia|].
      destruct (decide (i2 = j)) as [|Hne]; [by left|right].
      destruct (decide (j < i2)%nat) as [Hb|]; [rewrite (H3 j ltac:(lia)) in Hr; done|].
      destruct (Nat.ltb_spec i2 j), (Nat.ltb_spec s j); lia.
    + pose proof (find_seq_None _ _ _ E2) as Hn2. rewrite (Hn2 j ltac:(lia)) in Hr. done.
Qed.

(** Thread [T], in slot [j], is waiting for the CPU. *)
Definition waiting (T : Z) (j : nat) (k : KState) : Prop :=
  exists t, threads (queue k) !! j = Some (Some t) /\ id t = T /\ state t = Ready.

(** What may happen between two scheduling decisions: anything that keeps the
    scheduler invariant, leaves the current thread in its slot and leaves [T]
    ready in its slot. *)
Definition between (T : Z) (j : nat) (k k' : KState) : Prop :=
  sched_inv k' /\ current k' = current k /\ enabled (sched k') = true /\ waiting T j k' /\
  forall c s, current k = Some c -> slot_index c (queue k) = Some s -> slot_index c (queue k') = Some s.

(** [n] scheduling decisions in a row, none of which picked [T]. *)
Inductive passed_over (T : Z) (j : nat) : nat -> KState -> Prop :=
  | po_start k : passed_over T j 0 k
  | po_round n k k1 next :
      passed_over T j n k -> between T j k k1 -> (schedule k1).1 = Some next -> next <> T ->
      passed_over T j (S n) (yield_now k1).

Lemma slot_index_iff c q s : queue_wf q -> slot_index c q = Some s <-> exists t, threads q !! s = Some (Some t) /\ id t = c.
Proof.
  intros Hw. unfold slot_index. split.
  - destruct (find_slot _ _) as [[i t]|] eqn:E; [|done]. intros [= <-]. apply find_by_key_Some in E. eauto.
  - intros (t & Hi & <-). by rewrite (find_by_key_intro id _ _ _ (qw_keys q Hw) Hi).
Qed.

(** Demoting the current thread leaves identifiers, and ready threads, alone. *)
Lemma demoted_slot c q i t :
  queue_wf q -> threads q !! i = Some (Some t) ->
  exists t', threads (with_thread_mut c (fun t => (tt, demote t)) q).2 !! i = Some (Some t') /\ id t' = id t /\
    (state t = Ready -> t' = t).
Proof.
  intros Hw Hi. rewrite (update_slot c (fun t => (tt, demote t)) q i t Hw demote_id Hi). cbn.
  eexists. split; [reflexivity|]. destruct (id t =? c); [|done]. split; [apply demote_id|].
  intros Hs. unfold demote. by rewrite Hs.
Qed.

(** One decision that does not pick [T]: some other slot [i] becomes current. *)
Lemma schedule_round T j k next :
  sched_inv k -> enabled (sched k) = true -> waiting T j k -> (schedule k).1 = Some next -> next <> T ->
  exists i, current (yield_now k) = Some next /\ slot_index next (queue (yield_now k)) = Some i /\
    (i < MAX_THREADS)%nat /\ i <> j /\
    (forall c s, current k = Some c -> slot_index c (queue k) = Some s -> (distance i j < distance s j)%nat).
Proof.
  intros Hi He (t & Hj & HT & Hs) Hnx Hne. pose proof Hi as (Hw & Hr & Hc).
  pose proof (schedule_spec k Hw Hr) as Hspec. pose proof (schedule_switch_inv k Hi) as Hinv.
  assert (exists i, slot_index next (queue (schedule k).2) = Some i /\ (i < MAX_THREADS)%nat /\ i <> j /\
    (forall c s, current k = Some c -> slot_index c (queue k) = Some s -> (distance i j < distance s j)%nat)) as (i & Hsi & Hlt & Hij & Hd).
  { revert Hnx Hspec. unfold schedule. set (q1 := match current k with Some c => _ | None => _ end).
    assert (queue_wf q1 /\ threads q1 !! j = Some (Some t)) as [Hw1 Hj1].
    { unfold q1. destruct (current k) as [c|]; [|done]. split; [by apply update_wf; [|apply demote_id]|].
      destruct (demoted_slot c (queue k) j t Hw Hj) as (t' & Ht' & _ & Hsame). by rewrite Ht', (Hsame Hs). }
    assert (slot_ready q1 j = true) as Hjr by (apply slot_ready_iff; eauto).
    pose proof (slot_lt q1 j t Hw1 Hj1) as Hjlt.
    destruct (peek_next_after (current k) q1) as [i|] eqn:Ep; [|done].
    pose proof (proj1 (slot_ready_iff _ _) (peek_next_after_ready _ _ _ Ep)) as (u & Hu & Hus). rewrite Hu. cbn [fst snd queue].
    intros [= <-] (Hw2 & _). exists i. split.
    { apply slot_index_iff; [done|]. exists (set_state Running u). split; [|done].
      unfold set_slot_state, alter_slot. cbn [threads]. by rewrite list_lookup_alter_eq, Hu. }
    assert (i <> j) as Hij by (intros ->; congruence). split; [exact (slot_lt q1 i u Hw1 Hu)|]. split; [done|].
    intros c s Ec Hs'. rewrite Ec in *. 
    assert (slot_index c q1 = Some s) as Hs1.
    { apply slot_index_iff; [done|]. apply slot_index_iff in Hs' as (v & Hv & Hvc); [|done].
      destruct (demoted_slot c (queue k) s v Hw Hv) as (v' & Hv' & Hid & _). exists v'.
      unfold q1. rewrite Ec. split; [exact Hv'|congruence]. }
    apply slot_index_iff in Hs' as (v & Hv & _); [|done].
    destruct (peek_after_closer c q1 s j i Hs1 (slot_lt _ s v Hw Hv) Hjlt Hjr Ep) as (_ & [?|?]); [done|done]. }
  unfold yield_now. rewrite He. cbn [negb]. destruct (schedule k) as [r k1]. cbn [fst snd] in *. subst r.
  destruct Hspec as (Hw1 & Hc1 & Hdom & Hrun & Hn). exists i.
  destruct (bool_decide_reflect (Some next = current k1)) as [E|Hdiff]; [by rewrite <-E|].
  assert (current (switch_to_thread (current k1) next k1) = Some next /\ queue (switch_to_thread (current k1) next k1) = queue k1) as [-> ->]; [|done].
  unfold switch_to_thread. rewrite !get_abs by done. rewrite (bool_decide_true _ (Hn next eq_refl)).
  assert (match current k1 with Some c => bool_decide (is_Some (get c (queue k1))) | None => true end = true) as ->; [|done].
  destruct (current k1) eqn:Ec1; [|done]. rewrite get_abs by done. apply bool_decide_eq_true, elem_of_dom.
  rewrite Hdom. apply elem_of_dom, Hc. congruence.
Qed.

Lemma passed_over_bound T j n k :
  passed_over T j n k -> n = 0%nat \/ exists c s, current k = Some c /\ slot_index c (queue k) = Some s /\
    (s < MAX_THREADS)%nat /\ (distance s j + n <= 63)%nat.
Proof.
  induction 1 as [|n k k1 next _ IH Hb Hnx Hne]; [by left|]. right. destruct Hb as (Hi & Hc & He & Hwt & Hsl).
  destruct (schedule_round T j k1 next Hi He Hwt Hnx Hne) as (i & Hcur & Hsi & Hlt & Hij & Hd).
  exists next, i. split; [done|]. split; [done|]. split; [done|].
  assert (j < MAX_THREADS)%nat as Hjlt by (destruct Hwt as (t & Ht & _); by eapply slot_lt; [apply Hi|]).
  assert (MAX_THREADS = 64%nat) as HM by reflexivity.
  destruct IH as [->|(c & s & Ec & Hs & Hslt & Hle)].
  - unfold distance. destruct (Nat.ltb_spec i j); lia.
  - specialize (Hd c s ltac:(congruence) (Hsl c s Ec Hs)). lia.
Qed.



(** ** What the scheduler leaves alone *)

Lemma get_after_update {R} tid (f : Thread -> R * Thread) q :
  queue_wf q -> (forall t, id (f t).2 = id t) ->
  queue_wf (with_thread_mut tid f q).2 /\ get tid (with_thread_mut tid f q).2 = (fun t => (f t).2) <$> get tid q /\
  (with_thread_mut tid f q).1 = (fun t => (f t).1) <$> get tid q.
Proof.
  intros Hw Hf. pose proof (with_thread_mut_spec tid f q Hw Hf) as H. destruct (with_thread_mut tid f q) as [r q'].
  destruct H as (-> & Hw' & Ha & _). cbn. rewrite !get_abs, Ha, lookup_alter_eq by done. done.
Qed.

Lemma get_update_other {R} tid u (f : Thread -> R * Thread) q :
  queue_wf q -> (forall t, id (f t).2 = id t) -> u <> tid -> get u (with_thread_mut tid f q).2 = get u q.
Proof.
  intros Hw Hf Hne. pose proof (with_thread_mut_spec tid f q Hw Hf) as H. destruct (with_thread_mut tid f q) as [r q'].
  destruct H as (_ & Hw' & Ha & _). cbn. by rewrite !get_abs, Ha, lookup_alter_ne by done.
Qed.

(** The queue is sound and has thread [t] under [tid]. *)
Definition has_thread (tid : Z) (t : Thread) (k : KState) : Prop := queue_wf (queue k) /\ get tid (queue k) = Some t.

Lemma update_has tid t f k : (forall t, id (f t) = id t) -> has_thread tid t k -> has_thread tid (f t) (update tid f k).
Proof.
  intros Hf [Hw Hg]. destruct (get_after_update tid (fun t => (tt, f t)) _ Hw Hf) as (Hw' & Hg' & _). split; [done|]. cbn in *. by rewrite Hg', Hg.
Qed.

Lemma update_has_other tid u t f k : (forall t, id (f t) = id t) -> u <> tid -> has_thread u t k -> has_thread u t (update tid f k).
Proof.
  intros Hf Hne [Hw Hg]. split; [by apply update_wf|]. cbn. by rewrite get_update_other.
Qed.

(** A thread that is neither running nor ready is left as it is. *)
Lemma schedule_keeps k tid t : has_thread tid t k -> state t <> Running -> state t <> Ready -> has_thread tid t (schedule k).2.
Proof.
  intros Hh Hr Hs. unfold schedule. set (q1 := match current k with Some c => _ | None => _ end).
  assert (has_thread tid t (set_queue q1 k)) as [Hw1 Hg1].
  { unfold q1. destruct (current k) as [c|]; [|by destruct k]. destruct (decide (tid = c)) as [->|Hne]; [|exact (update_has_other c tid t demote k demote_id Hne Hh)].
    apply (update_has c t demote) in Hh; [|apply demote_id]. unfold demote in Hh at 1. by rewrite bool_decide_false in Hh by done. }
  cbn in Hw1, Hg1. destruct (peek_next_after _ q1) as [i|] eqn:Ep; [|done].
  apply peek_next_after_ready, slot_ready_iff in Ep as (u & Hi & Hu). unfold has_thread. cbn. rewrite (set_slot_state_eq i Running q1 u) by done.
  apply (update_has_other (id u) tid t (set_state Running) (set_queue q1 k)); [done| |done].
  intros ->. assert (get (id u) q1 = Some u) by (apply get_Some; [done|eauto]). congruence.
Qed.

(** A ready thread stays in the queue, ready or running. *)
Lemma schedule_ready k tid t :
  has_thread tid t k -> state t = Ready -> exists t', has_thread tid t' (schedule k).2 /\ (state t' = Ready \/ state t' = Running).
Proof.
  intros Hh Hs. unfold schedule. set (q1 := match current k with Some c => _ | None => _ end).
  assert (has_thread tid t (set_queue q1 k)) as Hh1.
  { unfold q1. destruct (current k) as [c|]; [|by destruct k]. destruct (decide (tid = c)) as [->|Hne]; [|exact (update_has_other c tid t demote k demote_id Hne Hh)].
    apply (update_has c t demote) in Hh; [|apply demote_id]. unfold demote in Hh at 1. by rewrite bool_decide_false in Hh by congruence. }
  destruct (peek_next_after _ q1) as [i|] eqn:Ep; [|by exists t; split; [|left]].
  apply peek_next_after_ready, slot_ready_iff in Ep as (u & Hi & Hu). unfold has_thread. cbn. rewrite (set_slot_state_eq i Running q1 u) by (apply Hh1 || done).
  destruct (decide (tid = id u)) as [->|Hne].
  - exists (set_state Running t). split; [|by right]. exact (update_has (id u) t (set_state Running) _ ltac:(done) Hh1).
  - exists t. split; [|by left]. exact (update_has_other (id u) tid t (set_state Running) _ ltac:(done) Hne Hh1).
Qed.

Lemma switch_queue c n k : queue (switch_to_thread c n k) = queue k.
Proof. unfold switch_to_thread. by destruct (_ && _). Qed.

Lemma yield_keeps k tid t : has_thread tid t k -> state t <> Running -> state t <> Ready -> has_thread tid t (yield_now k).
Proof.
  intros Hh Hr Hs. unfold yield_now. destruct (negb _); [done|]. pose proof (schedule_keeps k tid t Hh Hr Hs) as H.
  destruct (schedule k) as [[n|] k1]; [|done]. destruct (bool_decide _); [done|]. unfold has_thread. by rewrite switch_queue.
Qed.

Lemma preempt_keeps k tid t : has_thread tid t k -> state t <> Running -> state t <> Ready -> has_thread tid t (schedule_and_switch k).
Proof.
  intros Hh Hr Hs. unfold schedule_and_switch. destruct (negb _); [done|]. pose proof (schedule_keeps k tid t Hh Hr Hs) as H.
  destruct (schedule k) as [[n|] k1]; [|done]. destruct (bool_decide _); [done|]. unfold has_thread. by rewrite switch_queue.
Qed.

Lemma preempt_ready k tid t :
  has_thread tid t k -> state t = Ready -> exists t', has_thread tid t' (schedule_and_switch k) /\ (state t' = Ready \/ state t' = Running).
Proof.
  intros Hh Hs. unfold schedule_and_switch. destruct (negb _); [by exists t; split; [|left]|]. destruct (schedule_ready k tid t Hh Hs) as (t' & H & Hst).
  exists t'. split; [|done]. destruct (schedule k) as [[n|] k1]; [|done]. destruct (bool_decide _); [done|]. unfold has_thread. by rewrite switch_queue.
Qed.

(** ** Wakeups that arrive before the sleep *)

(** A wakeup that arrives before [sleep_thread_unless_woken] is recorded
    only if the thread is marked ready at that moment: then the thread does not
    sleep.  The thread that is about to sleep is the one that runs, though, and a
    wakeup for a running thread changes nothing: it goes to sleep as if it had
    never been woken. *)
Theorem wakeup_before_sleep (k : KState) (c : Z) (t : Thread) :
  queue_wf (queue k) -> get c (queue k) = Some t ->
  (state t = Ready -> (sleep_thread_unless_woken c (wake_thread c k)).1 = false) /\
  (state t = Running -> wake_thread c k = k /\
     (pending_wakeup t = false -> (sleep_thread_unless_woken c (wake_thread c k)).1 = true)).
Proof.
  intros Hw Hg. pose proof (proj1 (get_Some c (queue k) t Hw) Hg) as (i & Hi & Hid).
  assert (find_slot (by_key id c) (threads (queue k)) = Some (i, t)) as Hf.
  { rewrite <-Hid. by apply find_by_key_intro; [apply Hw|]. }
  split; intros Hs.
  - unfold wake_thread, sleep_thread_unless_woken, update. cbn [queue set_queue].
    pose proof (update_wf c (fun t => (tt, wake t)) (queue k) Hw wake_id) as Hw'.
    pose proof (update_slot c (fun t => (tt, wake t)) (queue k) i t Hw wake_id Hi) as Hi'. rewrite Hid, Z.eqb_refl in Hi'. cbn in Hi'.
    unfold with_thread_mut at 1.
    assert (find_slot (by_key id c) (threads (with_thread_mut c (fun t => (tt, wake t)) (queue k)).2) = Some (i, wake t)) as ->.
    { rewrite <-Hid at 1. rewrite <-(wake_id t). apply find_by_key_intro; [apply Hw'|done]. }
    unfold wake. rewrite Hs. done.
  - assert (wake_thread c k = k) as E.
    { unfold wake_thread, update, with_thread_mut. rewrite Hf. cbn.
      assert (alter_slot wake i (threads (queue k)) = threads (queue k)) as Ha.
      { unfold alter_slot. apply list_eq. intros j. destruct (decide (i = j)) as [<-|Hne].
        - rewrite list_lookup_alter_eq, Hi. cbn. unfold wake. by rewrite Hs.
        - by rewrite list_lookup_alter_ne. }
      change (fun t => wake t) with wake. rewrite Ha. by destruct k as [[] ? ?]. }
    split; [done|]. intros Hp. rewrite E. unfold sleep_thread_unless_woken, with_thread_mut. rewrite Hf. cbn.
    unfold sleep_unless_woken. cbn. by rewrite Hp.
Qed.

Lemma wakeup_before_sleep_witness :
  wake_thread 1 demo_threads = demo_threads /\ (sleep_thread_unless_woken 1 (wake_thread 1 demo_threads)).1 = true.
Proof.
  assert (exists t, get 1 (queue demo_threads) = Some t /\ state t = Running /\ pending_wakeup t = false) as (t & Hg & Hs & Hp).
  { eexists. split; [vm_compute; reflexivity|]. split; reflexivity. }
  destruct (wakeup_before_sleep demo_threads 1 t (proj1 (sched_reachable_inv _ demo_reachable)) Hg) as [_ H].
  destruct (H Hs) as [H1 H2]. split; [exact H1|exact (H2 Hp)].
Defined.
End Scheduler.
