(* ===== verification/Ipc.v ===== *)
(** Message passing, [src/core/syscall/ipc.rs]: the per-thread mailboxes.

    A mailbox is 64 message slots, a ring of the indices of the queued slots and
    a stack of the indices of the free ones. *)

From Stdlib Require Import ZArith Lia.
From stdpp Require Import base list option numbers.
From S2P Require Import Prelude Ring.

Local Open Scope nat_scope.

Module Ipc.

Definition MAILBOX_CAP : nat := 64.
Definition MAX_MSG_SIZE : Z := 4128.
#[global] Arguments MAILBOX_CAP : simpl never.

(** [payload] is [data[..len]] and [ext_pages] is [ext_pages[..ext_pages_count]]. *)
Record Message := mkMsg {
  from : Z;
  to : Z;
  to_slot : nat;
  to_generation : Z;
  payload : list Z;
  ext_pages : list Z;
}.

Definition Message_empty : Message := mkMsg 0 0 0 0 [] [].
#[export] Instance Message_inhabited : Inhabited Message := populate Message_empty.

Record Mailbox := mkBox {
  head : nat;
  tail : nat;
  count : nat;
  queue : list nat;
  slots : list Message;
  free : list nat;
  free_count : nat;
  waiter : Z;
}.

Definition new : Mailbox :=
  {| head := 0; tail := 0; count := 0; queue := replicate MAILBOX_CAP 0;
     slots := replicate MAILBOX_CAP Message_empty; free := seq 0 MAILBOX_CAP; free_count := MAILBOX_CAP; waiter := 0%Z |}.

Definition alloc_slot (b : Mailbox) : option nat * Mailbox :=
  if free_count b =? 0 then (None, b)
  else
    let n := free_count b - 1 in
    (Some (free b !!! n),
     mkBox (head b) (tail b) (count b) (queue b) (slots b) (free b) n (waiter b)).

(** The audit record aside, quarantining is a reset. *)
Definition quarantine (b : Mailbox) : Mailbox := new.

Definition free_slot (idx : nat) (b : Mailbox) : bool * Mailbox :=
  if MAILBOX_CAP <=? idx then (false, quarantine b)
  else if MAILBOX_CAP <=? free_count b then (false, quarantine b)
  else if existsb (Nat.eqb idx) (take (free_count b) (free b)) then (false, quarantine b)
  else (true,
        mkBox (head b) (tail b) (count b) (queue b) (<[idx := Message_empty]> (slots b))
          (<[free_count b := idx]> (free b)) (S (free_count b)) (waiter b)).

Definition enqueue_slot (slot_idx : nat) (b : Mailbox) : bool * Mailbox :=
  if MAILBOX_CAP <=? count b then (false, b)
  else (true, mkBox (head b) ((tail b + 1) mod MAILBOX_CAP) (S (count b)) (<[tail b := slot_idx]> (queue b))
               (slots b) (free b) (free_count b) (waiter b)).

Definition dequeue_slot (b : Mailbox) : option nat * Mailbox :=
  if count b =? 0 then (None, b)
  else (Some (queue b !!! head b),
        mkBox ((head b + 1) mod MAILBOX_CAP) (tail b) (count b - 1) (queue b) (slots b) (free b) (free_count b) (waiter b)).

Definition set_slot (i : nat) (m : Message) (b : Mailbox) : Mailbox :=
  mkBox (head b) (tail b) (count b) (queue b) (<[i := m]> (slots b)) (free b) (free_count b) (waiter b).

(** Allocates a slot, fills it and queues it: the part the three kernel-side
    senders and [push_message] share. *)
Definition post (m : Message) (b : Mailbox) : bool * Mailbox :=
  match alloc_slot b with
  | (None, b1) => (false, b1)
  | (Some i, b1) =>
      match enqueue_slot i (set_slot i m b1) with
      | (true, b2) => (true, b2)
      | (false, b2) => (false, (free_slot i b2).2)
      end
  end.

Definition push_message (frm dest : Z) (dslot : nat) (dgen : Z) (data : list Z) (b : Mailbox) : bool * Mailbox :=
  if (MAX_MSG_SIZE <? Z.of_nat (length data))%Z then (false, b)
  else post (mkMsg frm dest dslot dgen data []) b.

(** A message for this incarnation of the receiver. *)
Definition valid_for (receiver : Z) (rslot : nat) (rgen : Z) (m : Message) : bool :=
  (to m =? receiver)%Z && Nat.eqb (to_slot m) rslot && (to_generation m =? rgen)%Z.

(** The [while let] loop of [pop_valid_for_receiver_copy]; each iteration takes
    one message out of the queue, so [count] iterations are enough.  [out_len] is
    [out.len()]; the result is the sender, the bytes copied and the pages. *)
Fixpoint pop_loop (fuel : nat) (receiver : Z) (rslot : nat) (rgen : Z) (out_len : nat) (b : Mailbox) :
    option (Z * list Z * list Z) * Mailbox :=
  match fuel with
  | O => (None, b)
  | S fuel =>
      match dequeue_slot b with
      | (None, b1) => (None, b1)
      | (Some i, b1) =>
          let msg := slots b1 !!! i in
          if valid_for receiver rslot rgen msg then
            let copied := take (Nat.min (length (payload msg)) out_len) (payload msg) in
            match free_slot i b1 with
            | (false, b2) => (None, b2)
            | (true, b2) => (Some (from msg, copied, ext_pages msg), b2)
            end
          else
            match free_slot i b1 with
            | (false, b2) => (None, b2)
            | (true, b2) => pop_loop fuel receiver rslot rgen out_len b2
            end
      end
  end.

Definition pop_valid_for_receiver_copy (receiver : Z) (rslot : nat) (rgen : Z) (out_len : nat) (b : Mailbox) :=
  pop_loop (S (count b)) receiver rslot rgen out_len b.

(** The [for _ in 0..original] loop of [pop_from_sender_copy]. *)
Fixpoint sender_loop (n : nat) (sender receiver : Z) (rslot : nat) (rgen : Z) (out_len : nat) (b : Mailbox) :
    option (Z * list Z) * Mailbox :=
  match n with
  | O => (None, b)
  | S n =>
      match dequeue_slot b with
      | (None, b1) => (None, b1)
      | (Some i, b1) =>
          let msg := slots b1 !!! i in
          if negb (from msg =? sender)%Z || negb (valid_for receiver rslot rgen msg) then
            match enqueue_slot i b1 with
            | (false, b2) => (None, (free_slot i b2).2)
            | (true, b2) => sender_loop n sender receiver rslot rgen out_len b2
            end
          else
            match free_slot i b1 with
            | (false, b2) => (None, b2)
            | (true, b2) => (Some (from msg, take (Nat.min (length (payload msg)) out_len) (payload msg)), b2)
            end
      end
  end.

Definition pop_from_sender_copy (sender receiver : Z) (rslot : nat) (rgen : Z) (out_len : nat) (b : Mailbox) :=
  if count b =? 0 then (None, b) else sender_loop (count b) sender receiver rslot rgen out_len b.

Definition take_waiter (b : Mailbox) : Z * Mailbox :=
  (waiter b, mkBox (head b) (tail b) (count b) (queue b) (slots b) (free b) (free_count b) 0%Z).

Definition set_waiter (w : Z) (b : Mailbox) : Mailbox :=
  mkBox (head b) (tail b) (count b) (queue b) (slots b) (free b) (free_count b) w.

(** ** The slot invariant *)

Definition pending (b : Mailbox) : list nat := ring_view (queue b) (head b) (count b).
Definition free_stack (b : Mailbox) : list nat := take (free_count b) (free b).
Definition messages (b : Mailbox) : list Message := (fun i => slots b !!! i) <$> pending b.

(** Every slot is queued, free or in [x] (being handled), exactly once. *)
Record box_inv (b : Mailbox) (x : list nat) : Prop := {
  bi_queue : length (queue b) = MAILBOX_CAP;
  bi_slots : length (slots b) = MAILBOX_CAP;
  bi_free : length (free b) = MAILBOX_CAP;
  bi_head : head b < MAILBOX_CAP;
  bi_tail : tail b = (head b + count b) mod MAILBOX_CAP;
  bi_fc : free_count b <= MAILBOX_CAP;
  bi_part : pending b ++ free_stack b ++ x ≡ₚ seq 0 MAILBOX_CAP;
}.

Lemma cap_pos : 0 < MAILBOX_CAP.
Proof. unfold MAILBOX_CAP. lia. Qed.

Lemma new_box_inv : box_inv new [].
Proof. split; try reflexivity; unfold MAILBOX_CAP; cbn; try lia. Qed.

Lemma box_counts b x : box_inv b x -> count b + free_count b + length x = MAILBOX_CAP.
Proof.
  intros [_ _ Hf _ _ Hfc Hp]. apply Permutation_length in Hp. revert Hp. unfold pending, free_stack.
  rewrite !length_app, ring_view_length, length_take, length_seq. lia.
Qed.

Lemma box_nodup b x : box_inv b x -> NoDup (pending b ++ free_stack b ++ x).
Proof. intros H. rewrite (bi_part b x H). apply NoDup_seq. Qed.

Lemma in_flight b i x : box_inv b (i :: x) -> i < MAILBOX_CAP /\ i ∉ pending b /\ i ∉ free_stack b.
Proof.
  intros H. split.
  - assert (i ∈ seq 0 MAILBOX_CAP) as Hi by (rewrite <-(bi_part b _ H), !elem_of_app; right; right; left).
    apply elem_of_seq in Hi. lia.
  - pose proof (box_nodup b _ H) as Hn. apply list.NoDup_app in Hn as (_ & H1 & (_ & H2 & _)%list.NoDup_app).
    split; intros Hi; [apply (H1 i Hi); rewrite elem_of_app; right; left|apply (H2 i Hi); left].
Qed.

Lemma alloc_spec b x :
  box_inv b x ->
  match alloc_slot b with
  | (None, b1) => free_count b = 0 /\ b1 = b
  | (Some i, b1) => box_inv b1 (i :: x) /\ pending b1 = pending b /\ slots b1 = slots b
  end.
Proof.
  intros H. unfold alloc_slot. destruct (Nat.eqb_spec (free_count b) 0) as [|Hne]; [done|].
  pose proof H as [H1 H2 H3 H4 H5 H6 H7]. split; [|done]. split; cbn; try done; [lia|].
  assert (take (free_count b) (free b) = take (free_count b - 1) (free b) ++ [free b !!! (free_count b - 1)]) as E.
  { rewrite <-take_S_r by (apply list_lookup_lookup_total_lt; lia). f_equal. lia. }
  rewrite <-H7. unfold pending, free_stack. cbn. by rewrite E, <-app_assoc.
Qed.

Lemma enqueue_spec b i x :
  box_inv b (i :: x) ->
  exists b1, enqueue_slot i b = (true, b1) /\ box_inv b1 x /\ pending b1 = pending b ++ [i] /\ slots b1 = slots b.
Proof.
  intros H. pose proof (box_counts _ _ H) as Hc. cbn in Hc. pose proof H as [H1 H2 H3 H4 H5 H6 H7].
  unfold enqueue_slot. rewrite (proj2 (Nat.leb_gt _ _)) by lia. eexists. split; [reflexivity|].
  assert (ring_view (<[tail b := i]> (queue b)) (head b) (S (count b)) = pending b ++ [i]) as Hr.
  { unfold pending. rewrite H5, <-H1. apply ring_view_push. lia. }
  split; [|done]. split; cbn; try done.
  - by rewrite length_insert.
  - rewrite H5, Nat.Div0.add_mod_idemp_l. f_equal. lia.
  - unfold pending at 1. cbn. rewrite Hr. rewrite <-H7, <-app_assoc. f_equiv.
    unfold free_stack. cbn. by rewrite Permutation_middle.
Qed.

Lemma dequeue_spec b x :
  box_inv b x ->
  match dequeue_slot b with
  | (None, b1) => pending b = [] /\ b1 = b
  | (Some i, b1) => pending b = i :: pending b1 /\ box_inv b1 (i :: x) /\ slots b1 = slots b /\ count b = S (count b1)
  end.
Proof.
  intros H. pose proof H as [H1 H2 H3 H4 H5 H6 H7]. unfold dequeue_slot.
  destruct (Nat.eqb_spec (count b) 0) as [E|Hne].
  { split; [|done]. unfold pending. by rewrite E. }
  assert (pending b = queue b !!! head b :: ring_view (queue b) ((head b + 1) mod MAILBOX_CAP) (count b - 1)) as Hp.
  { unfold pending. replace (count b) with (S (count b - 1)) at 1 by lia. rewrite ring_view_cons by lia.
    by rewrite Nat.add_1_r, H1. }
  split; [done|]. split; [|split; [done|cbn; lia]]. split; cbn; try done.
  - apply Nat.mod_upper_bound. unfold MAILBOX_CAP. lia.
  - rewrite H5, Nat.Div0.add_mod_idemp_l. f_equal. lia.
  - rewrite <-H7, Hp. unfold pending at 1. cbn. unfold free_stack. cbn. rewrite !app_assoc. by rewrite <-Permutation_middle.
Qed.

Lemma free_spec b i x :
  box_inv b (i :: x) ->
  exists b1, free_slot i b = (true, b1) /\ box_inv b1 x /\ pending b1 = pending b /\ messages b1 = messages b /\
    count b1 = count b /\ (forall j, j <> i -> slots b1 !!! j = slots b !!! j).
Proof.
  intros H. pose proof (box_counts _ _ H) as Hc. cbn in Hc. destruct (in_flight _ _ _ H) as (Hi & Hnp & Hnf).
  pose proof H as [H1 H2 H3 H4 H5 H6 H7]. unfold free_slot.
  rewrite (proj2 (Nat.leb_gt _ _)) by lia. rewrite (proj2 (Nat.leb_gt MAILBOX_CAP (free_count b))) by lia.
  destruct (existsb (Nat.eqb i) (take (free_count b) (free b))) eqn:Ee.
  { apply existsb_exists in Ee as (j & Hj & ->%Nat.eqb_eq). by apply list_elem_of_In in Hj. }
  eexists. split; [reflexivity|].
  assert (take (S (free_count b)) (<[free_count b := i]> (free b)) = free_stack b ++ [i]) as Ht.
  { rewrite (take_S_r _ _ i) by (apply list_lookup_insert_eq; lia). by rewrite take_insert_ge by lia. }
  assert (forall j, j <> i -> <[i:=Message_empty]> (slots b) !!! j = slots b !!! j) as Ho.
  { intros j Hj. by rewrite list_lookup_total_insert_ne by done. }
  split; [|split; [done|split; [|done]]].
  - split; cbn; try done; rewrite ?length_insert; try done; [lia|].
    rewrite <-H7. unfold pending, free_stack at 1. cbn. rewrite Ht, <-app_assoc. done.
  - unfold messages, pending. cbn. apply list_fmap_ext. intros k j Hj. apply Ho. intros ->.
    apply Hnp. by eapply list_elem_of_lookup_2.
Qed.

Lemma messages_enqueue b b1 i : pending b1 = pending b ++ [i] -> slots b1 = slots b -> messages b1 = messages b ++ [slots b !!! i].
Proof. intros Hp Hs. unfold messages. by rewrite Hp, Hs, fmap_app. Qed.

Lemma messages_dequeue b b1 i : pending b = i :: pending b1 -> slots b1 = slots b -> messages b = slots b1 !!! i :: messages b1.
Proof. intros Hp Hs. unfold messages. by rewrite Hp, Hs. Qed.

(** Posting appends, and fails only when 64 messages are queued. *)
Lemma post_spec m b :
  box_inv b [] ->
  if length (messages b) <? MAILBOX_CAP
  then exists b1, post m b = (true, b1) /\ box_inv b1 [] /\ messages b1 = messages b ++ [m]
  else post m b = (false, b).
Proof.
  intros H. pose proof (box_counts _ _ H) as Hc. cbn in Hc. unfold messages at 1.
  rewrite length_fmap. unfold pending at 1. rewrite ring_view_length.
  pose proof (alloc_spec b [] H) as Ha. unfold post. destruct (alloc_slot b) as [[i|] b1].
  2: { destruct Ha as [H0 ->]. by rewrite (proj2 (Nat.ltb_ge _ _)) by lia. }
  destruct Ha as (Hi & Hp & Hs). pose proof (box_counts _ _ Hi) as Hc1. cbn in Hc1.
  assert (count b1 = count b) as Hcc.
  { apply (f_equal length) in Hp. unfold pending in Hp. by rewrite !ring_view_length in Hp. }
  rewrite (proj2 (Nat.ltb_lt _ _)) by lia.
  assert (box_inv (set_slot i m b1) [i]) as Hi'.
  { destruct Hi as [H1 H2 H3 H4 H5 H6 H7]. split; cbn; rewrite ?length_insert; done. }
  destruct (in_flight _ _ _ Hi) as (Hlt & Hnp & _).
  destruct (enqueue_spec _ _ _ Hi') as (b2 & -> & Hb2 & Hp2 & Hs2). exists b2. split; [done|]. split; [done|].
  rewrite (messages_enqueue _ _ _ Hp2 Hs2). f_equal.
  - unfold messages, pending. cbn. fold (pending b1). rewrite Hp. apply list_fmap_ext. intros k j Hj. cbn.
    rewrite <-Hs. apply list_lookup_total_insert_ne. intros ->. apply Hnp. rewrite Hp. by eapply list_elem_of_lookup_2.
  - cbn. rewrite list_lookup_total_insert_eq; [done|]. by rewrite (bi_slots _ _ Hi).
Qed.

(** ** The abstract mailbox *)

Fixpoint spec_pop (receiver : Z) (rslot : nat) (rgen : Z) (out_len : nat) (l : list Message) :
    option (Z * list Z * list Z) * list Message :=
  match l with
  | [] => (None, [])
  | m :: l =>
      if valid_for receiver rslot rgen m then (Some (from m, take out_len (payload m), ext_pages m), l)
      else spec_pop receiver rslot rgen out_len l
  end.

Definition from_sender (sender receiver : Z) (rslot : nat) (rgen : Z) (m : Message) : bool :=
  (from m =? sender)%Z && valid_for receiver rslot rgen m.

(** The first message from [sender] is taken out; the messages before it go to
    the end of the queue. *)
Fixpoint spec_pop_sender (f : Message -> bool) (out_len : nat) (skipped l : list Message) :
    option (Z * list Z) * list Message :=
  match l with
  | [] => (None, skipped)
  | m :: l =>
      if f m then (Some (from m, take out_len (payload m)), l ++ skipped)
      else spec_pop_sender f out_len (skipped ++ [m]) l
  end.

Lemma take_min {A} (l : list A) n : take (Nat.min (length l) n) l = take n l.
Proof. destruct (decide (length l <= n)); [by rewrite Nat.min_l, !take_ge by lia|by rewrite Nat.min_r by lia]. Qed.

Lemma pop_loop_spec fuel receiver rslot rgen out_len b :
  box_inv b [] -> count b < fuel ->
  let '(r, b') := pop_loop fuel receiver rslot rgen out_len b in
  box_inv b' [] /\ (r, messages b') = spec_pop receiver rslot rgen out_len (messages b).
Proof.
  revert b. induction fuel as [|fuel IH]; intros b H Hf; [lia|]. cbn [pop_loop].
  pose proof (dequeue_spec b [] H) as Hd. destruct (dequeue_slot b) as [[i|] b1].
  2: { destruct Hd as [Hp ->]. split; [done|]. unfold messages. by rewrite Hp. }
  destruct Hd as (Hp & Hi & Hs & Hc). rewrite (messages_dequeue _ _ _ Hp Hs). cbn [spec_pop].
  destruct (free_spec b1 i [] Hi) as (b2 & -> & Hi2 & _ & Hm2 & Hc2 & _).
  destruct (valid_for _ _ _ _).
  - split; [done|]. by rewrite take_min, Hm2.
  - specialize (IH b2 Hi2 ltac:(lia)). destruct (pop_loop _ _ _ _ _ b2) as [r b']. by rewrite <-Hm2.
Qed.

Lemma sender_loop_spec n sender receiver rslot rgen out_len b l skipped :
  box_inv b [] -> messages b = l ++ skipped -> n = length l ->
  let '(r, b') := sender_loop n sender receiver rslot rgen out_len b in
  box_inv b' [] /\ (r, messages b') = spec_pop_sender (from_sender sender receiver rslot rgen) out_len skipped l.
Proof.
  revert b l skipped. induction n as [|n IH]; intros b l skipped H Hm Hn.
  { destruct l; [|done]. by cbn in *; rewrite Hm. }
  destruct l as [|m l]; [done|]. cbn [sender_loop]. pose proof (dequeue_spec b [] H) as Hd.
  destruct (dequeue_slot b) as [[i|] b1].
  2: { destruct Hd as [Hp ->]. unfold messages in Hm. by rewrite Hp in Hm. }
  destruct Hd as (Hp & Hi & Hs & Hc). rewrite (messages_dequeue _ _ _ Hp Hs) in Hm. cbn in Hm. injection Hm as Hmi Hml.
  cbn [spec_pop_sender]. unfold from_sender at 1. rewrite Hmi, <-negb_andb.
  destruct ((from m =? sender)%Z && valid_for receiver rslot rgen m); cbn [negb].
  - destruct (free_spec b1 i [] Hi) as (b2 & -> & Hi2 & _ & Hm2 & _). split; [done|]. by rewrite take_min, Hm2, Hml.
  - destruct (enqueue_spec b1 i [] Hi) as (b2 & -> & Hi2 & Hp2 & Hs2).
    apply IH; [done| |cbn in Hn; lia]. rewrite (messages_enqueue _ _ _ Hp2 Hs2), Hml, Hmi. by rewrite app_assoc.
Qed.
End Ipc.
