(* ===== verification/IpcSyscalls.v ===== *)
(** The IPC system calls of [src/core/syscall/ipc.rs] over the mailboxes, the
    thread queue and user memory, and the delivery guarantee. *)

From Stdlib Require Import ZArith Lia.
From stdpp Require Import base list option numbers gmap fin_maps.
From S2P Require Import Prelude Types UserMem Slots Ring Table Thread Scheduler Ipc.

Local Open Scope Z_scope.

Module IpcSyscalls.
Import Ipc.

Record IState (M : Type) := mkI { ks : Scheduler.KState; boxes : list Mailbox; umem : M }.
Arguments mkI {M} _ _ _.
Arguments ks {M} _.
Arguments boxes {M} _.
Arguments umem {M} _.

Definition handle (tid : Z) (q : Thread.ThreadQueue) : option (nat * Z) := Thread.slot_index_and_generation tid q.

(** Queues [m] in mailbox [idx]; the waiter of the mailbox, if the message was
    accepted. *)
Definition deliver (idx : nat) (m : Message) (bx : list Mailbox) : option Z * list Mailbox :=
  match bx !! idx with
  | None => (None, bx)
  | Some b =>
      match post m b with
      | (true, b1) => let '(w, b2) := take_waiter b1 in (Some w, <[idx := b2]> bx)
      | (false, b1) => (None, <[idx := b1]> bx)
      end
  end.

Definition receive (tid : Z) (idx : nat) (gen : Z) (out_len : nat) (bx : list Mailbox) :
    option (Z * list Z * list Z) * list Mailbox :=
  match bx !! idx with
  | None => (None, bx)
  | Some b => let '(r, b') := pop_valid_for_receiver_copy tid idx gen out_len b in (r, <[idx := b']> bx)
  end.

Section syscalls.
Context {M : Type} `{!UserMemory M}.
Implicit Types s : IState M.

Definition wake_waiter (w : Z) (k : Scheduler.KState) : Scheduler.KState :=
  if negb (w =? 0) then Scheduler.wake_thread w k else k.

(** The common end of the senders. *)
Definition finish_send (idx : nat) (m : Message) s : bool * IState M :=
  match deliver idx m (boxes s) with
  | (Some w, bx) => (true, mkI (wake_waiter w (ks s)) bx (umem s))
  | (None, bx) => (false, mkI (ks s) bx (umem s))
  end.

Definition sender_id s : Z := default 0 (Scheduler.current (ks s)).

Definition send_from_kernel (dest : Z) (data : list Z) s : bool * IState M :=
  if MAX_MSG_SIZE <? Z.of_nat (length data) then (false, s)
  else
    match handle dest (Scheduler.queue (ks s)) with
    | None => (false, s)
    | Some (idx, gen) =>
        if (Thread.MAX_THREADS <=? idx)%nat then (false, s)
        else finish_send idx (mkMsg (sender_id s) dest idx gen data []) s
    end.

Definition send_pages_from_kernel (dest map_start total : Z) (pages : list Z) s : bool * IState M :=
  if (128 <? length pages)%nat then (false, s)
  else
    match handle dest (Scheduler.queue (ks s)) with
    | None => (false, s)
    | Some (idx, gen) =>
        if (Thread.MAX_THREADS <=? idx)%nat then (false, s)
        else finish_send idx (mkMsg (sender_id s) dest idx gen (to_le_bytes 8 map_start ++ to_le_bytes 8 total) pages) s
    end.

Definition MAP_HEADER_MAGIC : Z := 2882395322.

Definition send_map_header_from_kernel (dest map_start total : Z) s : bool * IState M :=
  match handle dest (Scheduler.queue (ks s)) with
  | None => (false, s)
  | Some (idx, gen) =>
      if (Thread.MAX_THREADS <=? idx)%nat then (false, s)
      else finish_send idx
             (mkMsg (sender_id s) dest idx gen
                (to_le_bytes 4 MAP_HEADER_MAGIC ++ to_le_bytes 8 map_start ++ to_le_bytes 8 total) []) s
  end.

Definition send (dest buf_ptr len : Z) s : Z * IState M :=
  if dest =? 0 then (EINVAL, s)
  else if MAX_MSG_SIZE <? len then (EINVAL, s)
  else if (0 <? len) && (buf_ptr =? 0) then (EFAULT, s)
  else
    match Scheduler.current (ks s) with
    | None => (EINVAL, s)
    | Some sender =>
        match handle dest (Scheduler.queue (ks s)) with
        | None => (EINVAL, s)
        | Some (idx, gen) =>
            if (Thread.MAX_THREADS <=? idx)%nat then (EINVAL, s)
            else
              match (if 0 <? len then copy_from_user (umem s) buf_ptr (Z.to_nat len) else Ok []) with
              | Err e => (e, s)
              | Ok data =>
                  match finish_send idx (mkMsg sender dest idx gen data []) s with
                  | (true, s') => (0, s')
                  | (false, s') => (EAGAIN, s')
                  end
              end
        end
    end.

Section recv.
(** [map_external_pages_for_receiver]: maps the pages of a message into the
    receiver's address space and returns where. *)
Context (map_external : Z -> Z -> Z -> list Z -> IState M -> result Z Z * IState M).

(** The bytes handed to the user. *)
Definition prepare_external_pages_for_user (receiver : Z) (buf ext : list Z) s : result (list Z) Z * IState M :=
  match ext with
  | [] => (Ok buf, s)
  | _ =>
      if (length buf <? 16)%nat then (Err EFAULT, s)
      else
        let hint := from_le_bytes (take 8 buf) in
        let total := from_le_bytes (take 8 (drop 8 buf)) in
        match map_external receiver hint total ext s with
        | (Err e, s') => (Err e, s')
        | (Ok addr, s') => (Ok (to_le_bytes 8 addr ++ to_le_bytes 8 total), s')
        end
  end.

Definition finish_recv (receiver frm : Z) (bytes ext : list Z) (buf_ptr : Z) s : Z * IState M :=
  match prepare_external_pages_for_user receiver bytes ext s with
  | (Err e, s') => (e, s')
  | (Ok out, s') =>
      match (if (0 <? length out)%nat && negb (buf_ptr =? 0) then copy_to_user buf_ptr out (umem s') else (Ok tt, umem s')) with
      | (Err e, m) => (e, mkI (ks s') (boxes s') m)
      | (Ok _, m) => (Z.lor (wrap64 (Z.shiftl frm 32)) (Z.of_nat (length out)), mkI (ks s') (boxes s') m)
      end
  end.

Definition max_copy (max_len : Z) : nat := Z.to_nat (Z.min max_len MAX_MSG_SIZE).

Definition recv (buf_ptr max_len : Z) s : Z * IState M :=
  match Scheduler.current (ks s) with
  | None => (EINVAL, s)
  | Some receiver =>
      match handle receiver (Scheduler.queue (ks s)) with
      | None => (EINVAL, s)
      | Some (idx, gen) =>
          if (Thread.MAX_THREADS <=? idx)%nat then (EINVAL, s)
          else
            match receive receiver idx gen (max_copy max_len) (boxes s) with
            | (None, bx) => (EAGAIN, mkI (ks s) bx (umem s))
            | (Some (frm, bytes, ext), bx) => finish_recv receiver frm bytes ext buf_ptr (mkI (ks s) bx (umem s))
            end
      end
  end.

(** One iteration of [recv_blocking]: [Some r] when the call returns [r], [None]
    when the thread slept and the loop goes round again. *)
Definition recv_blocking_step (buf_ptr max_len : Z) s : option Z * IState M :=
  match Scheduler.current (ks s) with
  | None => (Some EINVAL, s)
  | Some receiver =>
      match handle receiver (Scheduler.queue (ks s)) with
      | None => (Some EINVAL, s)
      | Some (idx, gen) =>
          if (Thread.MAX_THREADS <=? idx)%nat then (Some EINVAL, s)
          else
            match receive receiver idx gen (max_copy max_len) (boxes s) with
            | (Some (frm, bytes, ext), bx) =>
                let '(r, s') := finish_recv receiver frm bytes ext buf_ptr (mkI (ks s) bx (umem s)) in (Some r, s')
            | (None, bx) =>
                let bx1 := alter (set_waiter receiver) idx bx in
                match Scheduler.sleep_thread_unless_woken receiver (ks s) with
                | (true, k) => (None, mkI (Scheduler.yield_now k) bx1 (umem s))
                | (false, k) =>
                    (Some 0, mkI k (alter (fun b => if waiter b =? receiver then set_waiter 0 b else b) idx bx1) (umem s))
                end
            end
      end
  end.
End recv.

Definition recv_from_sender_for_kernel_nonblocking (sender : Z) (out_len : nat) s :
    result (option (list Z)) Z * IState M :=
  match Scheduler.current (ks s) with
  | None => (Err EINVAL, s)
  | Some receiver =>
      match handle receiver (Scheduler.queue (ks s)) with
      | None => (Err EINVAL, s)
      | Some (idx, gen) =>
          if (Thread.MAX_THREADS <=? idx)%nat then (Err EINVAL, s)
          else
            match boxes s !! idx with
            | None => (Ok None, s)
            | Some b =>
                let '(r, b') := pop_from_sender_copy sender receiver idx gen out_len b in
                (Ok (snd <$> r), mkI (ks s) (<[idx := b']> (boxes s)) (umem s))
            end
      end
  end.
End syscalls.

(** ** The mailbox as a list of messages *)

Inductive box_op :=
  | BPush (frm dest : Z) (dslot : nat) (dgen : Z) (data : list Z)
  | BPop (receiver : Z) (rslot : nat) (rgen : Z) (out_len : nat)
  | BPopFrom (sender receiver : Z) (rslot : nat) (rgen : Z) (out_len : nat).

Inductive box_out :=
  | BPushed (ok : bool)
  | BPopped (r : option (Z * list Z * list Z))
  | BPoppedFrom (r : option (Z * list Z)).

Definition box_step (o : box_op) (b : Mailbox) : box_out * Mailbox :=
  match o with
  | BPush f d ds dg data => let '(r, b') := push_message f d ds dg data b in (BPushed r, b')
  | BPop rc rs rg n => let '(r, b') := pop_valid_for_receiver_copy rc rs rg n b in (BPopped r, b')
  | BPopFrom sd rc rs rg n => let '(r, b') := pop_from_sender_copy sd rc rs rg n b in (BPoppedFrom r, b')
  end.

Definition list_step (o : box_op) (l : list Message) : box_out * list Message :=
  match o with
  | BPush f d ds dg data =>
      if (Z.of_nat (length data) <=? MAX_MSG_SIZE) && (length l <? MAILBOX_CAP)%nat
      then (BPushed true, l ++ [mkMsg f d ds dg data []]) else (BPushed false, l)
  | BPop rc rs rg n => let '(r, l') := spec_pop rc rs rg n l in (BPopped r, l')
  | BPopFrom sd rc rs rg n => let '(r, l') := spec_pop_sender (from_sender sd rc rs rg) n [] l in (BPoppedFrom r, l')
  end.

Fixpoint box_run {S} (step : box_op -> S -> box_out * S) (ops : list box_op) (s : S) : list box_out :=
  match ops with
  | [] => []
  | o :: ops => let '(r, s') := step o s in r :: box_run step ops s'
  end.

Lemma box_step_spec o b :
  box_inv b [] -> box_inv (box_step o b).2 [] /\ ((box_step o b).1, messages (box_step o b).2) = list_step o (messages b).
Proof.
  intros H. destruct o as [f d ds dg data|rc rs rg n|sd rc rs rg n]; cbn [box_step list_step].
  - unfold push_message. destruct (Z.ltb_spec MAX_MSG_SIZE (Z.of_nat (length data))) as [Hl|Hl].
    { by rewrite (proj2 (Z.leb_gt _ _)). }
    rewrite (proj2 (Z.leb_le _ _)) by done. cbn [andb].
    pose proof (post_spec (mkMsg f d ds dg data []) b H) as Hp. destruct (length (messages b) <? MAILBOX_CAP)%nat.
    + destruct Hp as (b1 & -> & Hi & Hm). split; [done|]. cbn. by rewrite Hm.
    + rewrite Hp. done.
  - pose proof (pop_loop_spec (S (count b)) rc rs rg n b H ltac:(lia)) as Hp. unfold pop_valid_for_receiver_copy.
    destruct (pop_loop _ _ _ _ _ _) as [r b']. destruct Hp as [Hi <-]. done.
  - unfold pop_from_sender_copy. destruct (Nat.eqb_spec (count b) 0) as [E|Hne].
    + split; [done|]. assert (messages b = []) as Hm by (unfold messages, pending; by rewrite E). cbn. by rewrite Hm.
    + pose proof (sender_loop_spec (count b) sd rc rs rg n b (messages b) [] H ltac:(by rewrite app_nil_r)) as Hp.
      destruct (sender_loop _ _ _ _ _ _ _) as [r b']. destruct Hp as [Hi <-]; [|done].
      unfold messages, pending. by rewrite length_fmap, ring_view_length.
Qed.

Lemma box_run_spec ops b : box_inv b [] -> box_run box_step ops b = box_run list_step ops (messages b).
Proof.
  revert b. induction ops as [|o ops IH]; intros b H; [done|]. cbn [box_run].
  destruct (box_step_spec o b H) as [Hi Hm]. destruct (box_step o b) as [r b']. cbn in Hi, Hm. rewrite <-Hm.
  f_equal. by apply IH.
Qed.

(** A mailbox is a queue of at most 64 messages: for every sequence of
    sends, receives and receives-from-one-sender, the ring of slot indices with
    its free-slot stack returns what a list of messages returns.  In particular
    slots are never lost or used twice: the corruption checks of [free_slot] that
    wipe the mailbox never fire. *)
Theorem mailbox_refines_list (ops : list box_op) : box_run box_step ops new = box_run list_step ops [].
Proof. apply (box_run_spec ops new new_box_inv). Qed.

Lemma spec_pop_sender_found f n l1 l2 m sk :
  Forall (fun x => f x = false) l1 -> f m = true ->
  spec_pop_sender f n sk (l1 ++ m :: l2) = (Some (from m, take n (payload m)), l2 ++ sk ++ l1).
Proof.
  intros Hf Ht. revert sk. induction Hf as [|x l1 Hx _ IH]; intros sk; cbn [app spec_pop_sender].
  - by rewrite Ht, app_nil_r.
  - rewrite Hx, IH. by rewrite <-app_assoc.
Qed.

(** Receiving from one sender changes the order of the other messages: the
    messages queued before the one taken out are moved behind those queued after
    it, so two messages of another sender can overtake each other. *)
Theorem receive_from_sender_reorders (b : Mailbox) (l1 l2 : list Message) (m : Message) (sd rc rg : Z) (rs n : nat) :
  box_inv b [] -> messages b = l1 ++ m :: l2 ->
  Forall (fun x => from_sender sd rc rs rg x = false) l1 -> from_sender sd rc rs rg m = true ->
  let '(r, b') := pop_from_sender_copy sd rc rs rg n b in
  r = Some (from m, take n (payload m)) /\ messages b' = l2 ++ l1.
Proof.
  intros H Hm Hf Ht. pose proof (box_step_spec (BPopFrom sd rc rs rg n) b H) as [_ Hs]. cbn in Hs.
  destruct (pop_from_sender_copy sd rc rs rg n b) as [r b']. cbn in Hs. rewrite Hm in Hs.
  rewrite (spec_pop_sender_found _ n l1 l2 m [] Hf Ht) in Hs. cbn in Hs. injection Hs as -> ->. done.
Qed.

(** Three messages, the first and the last from the same sender. *)
Definition demo_box : Mailbox :=
  (box_step (BPush 5 9 0 1 [2]) (box_step (BPush 6 9 0 1 [7]) (box_step (BPush 5 9 0 1 [1]) new).2).2).2.

Lemma demo_box_inv : box_inv demo_box [].
Proof. unfold demo_box. do 3 (apply box_step_spec). apply new_box_inv. Qed.

Lemma receive_from_sender_reorders_witness :
  messages demo_box = [mkMsg 5 9 0 1 [1] []; mkMsg 6 9 0 1 [7] []; mkMsg 5 9 0 1 [2] []] /\
  messages (pop_from_sender_copy 6 9 0 1 10 demo_box).2 = [mkMsg 5 9 0 1 [2] []; mkMsg 5 9 0 1 [1] []].
Proof.
  assert (messages demo_box = [mkMsg 5 9 0 1 [1] []] ++ mkMsg 6 9 0 1 [7] [] :: [mkMsg 5 9 0 1 [2] []]) as Hm
    by (vm_compute; reflexivity).
  split; [exact Hm|].
  pose proof (receive_from_sender_reorders demo_box _ _ _ 6 9 1 0 10 demo_box_inv Hm) as H.
  destruct (pop_from_sender_copy 6 9 0 1 10 demo_box) as [r b'].
  destruct H as [_ H]; [repeat constructor|reflexivity|exact H].
Defined.

(** ** Delivery *)

(** Threads, the next thread identifier and the mailboxes. *)
Record Sys := mkSys { threads_q : Thread.ThreadQueue; next_tid : Z; sys_boxes : list Mailbox }.

Inductive event :=
  | ESend (dest frm : Z) (data : list Z)
  | ERecv (tid : Z) (out_len : nat) (r : Z * list Z * list Z)
  | EOther.

(** One step of the system: a thread is created, removed or changed; a message is
    accepted, refused or received. *)
Inductive sys_step : event -> Sys -> Sys -> Prop :=
  | ss_spawn q n bx pid nm en kst sz :
      sys_step EOther (mkSys q n bx)
        (mkSys (Thread.push (Thread.spawned pid nm en kst sz n) q).2 (Thread.ThreadId_new n).2 bx)
  | ss_remove q n bx tid : sys_step EOther (mkSys q n bx) (mkSys (Thread.remove tid q).2 n bx)
  | ss_update q n bx R tid (f : Thread.Thread -> R * Thread.Thread) :
      (forall t, Thread.id (f t).2 = Thread.id t) ->
      sys_step EOther (mkSys q n bx) (mkSys (Thread.with_thread_mut tid f q).2 n bx)
  | ss_send q n bx frm dest idx gen data w bx' :
      handle dest q = Some (idx, gen) -> deliver idx (mkMsg frm dest idx gen data []) bx = (Some w, bx') ->
      sys_step (ESend dest frm data) (mkSys q n bx) (mkSys q n bx')
  | ss_refused q n bx frm dest idx gen data bx' :
      handle dest q = Some (idx, gen) -> deliver idx (mkMsg frm dest idx gen data []) bx = (None, bx') ->
      sys_step EOther (mkSys q n bx) (mkSys q n bx')
  | ss_recv q n bx tid idx gen out_len r bx' :
      handle tid q = Some (idx, gen) -> receive tid idx gen out_len bx = (Some r, bx') ->
      sys_step (ERecv tid out_len r) (mkSys q n bx) (mkSys q n bx')
  | ss_recv_none q n bx tid idx gen out_len bx' :
      handle tid q = Some (idx, gen) -> receive tid idx gen out_len bx = (None, bx') ->
      sys_step EOther (mkSys q n bx) (mkSys q n bx').

Definition sys_boot : Sys := mkSys Thread.Queue_new 1 (replicate Thread.MAX_THREADS new).

Inductive sys_run : list event -> Sys -> Prop :=
  | sr_boot : sys_run [] sys_boot
  | sr_step es e s s' : sys_run es s -> sys_step e s s' -> sys_run (es ++ [e]) s'.

(** What was sent to thread [T], and what it received, in order. *)
Definition sent_to (T : Z) (es : list event) : list (Z * list Z) :=
  omap (fun e => match e with ESend d f data => if d =? T then Some (f, data) else None | _ => None end) es.
Definition received_by (T : Z) (es : list event) : list (nat * (Z * list Z * list Z)) :=
  omap (fun e => match e with ERecv t n r => if t =? T then Some (n, r) else None | _ => None end) es.

(** A receive of at most [n] bytes returns the sender and the first [n] bytes. *)
Definition matches (snd : Z * list Z) (rcv : nat * (Z * list Z * list Z)) : Prop :=
  rcv.2 = (snd.1, take rcv.1 snd.2, []).

Definition key (m : Message) : Z * list Z := (from m, payload m).

(** The messages of mailbox [b] for this incarnation of [T]. *)
Definition inbox (T : Z) (i : nat) (g : Z) (b : Mailbox) : list Message :=
  filter (fun m => valid_for T i g m = true) (messages b).

Lemma sent_to_app T es e : sent_to T (es ++ [e]) = sent_to T es ++ sent_to T [e].
Proof. apply omap_app. Qed.
Lemma received_by_app T es e : received_by T (es ++ [e]) = received_by T es ++ received_by T [e].
Proof. apply omap_app. Qed.

(** ** Handles along steps *)

Lemma handle_iff T q i g :
  Thread.queue_wf q ->
  handle T q = Some (i, g) <->
  (exists t, Thread.threads q !! i = Some (Some t) /\ Thread.id t = T) /\ Thread.slot_generations q !! i = Some g.
Proof.
  intros Hw. unfold handle, Thread.slot_index_and_generation.
  assert (forall i, (i < Thread.MAX_THREADS)%nat -> Thread.slot_generations q !! i = Some (Thread.slot_generations q !!! i)) as Hg.
  { intros j Hj. apply list_lookup_lookup_total_lt. by rewrite (Thread.qw_gen q Hw). }
  split.
  - destruct (find_slot _ _) as [[j t]|] eqn:E; [|done]. intros [= <- <-].
    apply find_by_key_Some in E as [Hj Ht]. split; [eauto|]. apply Hg. by eapply Scheduler.slot_lt.
  - intros [(t & Hi & <-) Hgi]. rewrite (find_by_key_intro Thread.id _ _ _ (Thread.qw_keys q Hw) Hi).
    by rewrite (list_lookup_total_correct _ _ _ Hgi).
Qed.

Lemma handle_live T q : Thread.queue_wf q -> is_Some (handle T q) <-> is_Some (Thread.abs q !! T).
Proof.
  intros Hw. rewrite <-Thread.get_abs by done. unfold handle, Thread.slot_index_and_generation, Thread.get.
  destruct (find_slot _ _) as [[j t]|]; cbn; split; intros [? ?]; eauto; done.
Qed.

Lemma handle_inj T U q i g g' :
  Thread.queue_wf q -> handle T q = Some (i, g) -> handle U q = Some (i, g') -> T = U.
Proof.
  intros Hw [(t & Ht & <-) _]%handle_iff [(u & Hu & <-) _]%handle_iff; [|done|done]. congruence.
Qed.

(** A queue step that keeps [T] alive keeps its handle. *)
Lemma handle_step T q b q' i g :
  Thread.queue_wf q -> Thread.qstep q b q' -> handle T q = Some (i, g) -> is_Some (handle T q') -> handle T q' = Some (i, g).
Proof.
  intros Hw Hs Hh Hl. pose proof Hh as Hh'. apply handle_iff in Hh' as [(t & Hi & Ht) Hg]; [|done].
  destruct (Thread.qstep_slot q b q' i Hw Hs) as [Hw' _]. destruct Hl as [[i' g'] Hh2].
  pose proof Hh2 as Hh2'. apply handle_iff in Hh2' as [(t' & Hi' & Ht') Hg']; [|done].
  destruct Hs as [u Hn|tid|R tid f Hf].
  - pose proof (Thread.push_spec u q Hw Hn) as H. destruct (decide _).
    + destruct H as (j & q1 & E & _ & _ & Hj & Hth & Hgn). rewrite E in *. cbn in *.
      assert (i <> j) by congruence.
      apply handle_iff; [done|]. rewrite Hth, Hgn, list_lookup_insert_ne, list_lookup_alter_ne by done. eauto.
    + by rewrite H in *.
  - pose proof (Thread.remove_spec tid q Hw) as H. destruct (Thread.remove tid q) as [r q1] eqn:E. cbn in *.
    destruct H as (_ & _ & Ha & Hgn). apply handle_iff; [done|]. rewrite Hgn. split; [|done].
    revert E. unfold Thread.remove. destruct (find_slot _ _) as [[j u]|] eqn:Ef; intros [= _ <-]; [|eauto]. cbn in *.
    apply find_by_key_Some in Ef as [Hj Hu]. destruct (decide (i = j)) as [->|Hne].
    + exfalso. assert (is_Some (Thread.abs (Thread.mkQueue (<[j:=None]> (Thread.threads q)) (Thread.slot_generations q) (pred (Thread.count q))) !! T)) as Hx
        by (apply handle_live; [done|eauto]).
      rewrite Ha in Hx. assert (tid = T) as -> by congruence. rewrite lookup_delete_eq in Hx. by destruct Hx.
    + rewrite list_lookup_insert_ne by done. eauto.
  - pose proof (Thread.with_thread_mut_spec tid f q Hw Hf) as H. destruct (Thread.with_thread_mut tid f q) as [r q1]. cbn in *.
    destruct H as (_ & _ & _ & Hgn & Hth). apply handle_iff; [done|]. rewrite Hgn, Hth, Hi. split; [|done]. cbn.
    eexists. split; [reflexivity|]. destruct (Thread.id t =? tid); [by rewrite Hf|done].
Qed.

(** ** What sends and receives do to an inbox *)

Lemma post_waiter b : messages (take_waiter b).2 = messages b /\ (box_inv b [] -> box_inv (take_waiter b).2 []).
Proof. split; [done|]. intros []. by split. Qed.

Lemma deliver_spec idx m bx r bx' b :
  bx !! idx = Some b -> box_inv b [] -> deliver idx m bx = (r, bx') ->
  exists b', bx' = <[idx := b']> bx /\ box_inv b' [] /\
    messages b' = messages b ++ (match r with Some _ => [m] | None => [] end).
Proof.
  intros Hb Hi. unfold deliver. rewrite Hb. pose proof (post_spec m b Hi) as Hp.
  destruct (length (messages b) <? MAILBOX_CAP)%nat.
  - destruct Hp as (b1 & -> & Hi1 & Hm1). cbn. intros [= <- <-]. eexists. split; [reflexivity|].
    destruct (post_waiter b1) as [Hm2 Hi2]. split; [by apply Hi2|]. cbn in Hm2. by rewrite Hm2.
  - rewrite Hp. intros [= <- <-]. exists b. by rewrite app_nil_r.
Qed.

Lemma spec_pop_inbox T i g n l r l' :
  spec_pop T i g n l = (r, l') ->
  l' `suffix_of` l /\
  match filter (fun m => valid_for T i g m = true) l with
  | [] => r = None /\ filter (fun m => valid_for T i g m = true) l' = []
  | m :: rest => r = Some (from m, take n (payload m), ext_pages m) /\
                 filter (fun m => valid_for T i g m = true) l' = rest
  end.
Proof.
  revert r l'. induction l as [|m l IH]; intros r l'; cbn [spec_pop]; [by intros [= <- <-]|].
  destruct (valid_for T i g m) eqn:E.
  - intros [= <- <-]. rewrite filter_cons_True by done. split; [by apply suffix_cons_r|done].
  - intros H. rewrite filter_cons_False by congruence. destruct (IH r l' H) as [Hs Hm]. split; [by apply suffix_cons_r|done].
Qed.

Lemma receive_spec tid idx g n bx r bx' b :
  bx !! idx = Some b -> box_inv b [] -> receive tid idx g n bx = (r, bx') ->
  exists b', bx' = <[idx := b']> bx /\ box_inv b' [] /\ messages b' `suffix_of` messages b /\
    match inbox tid idx g b with
    | [] => r = None /\ inbox tid idx g b' = []
    | m :: rest => r = Some (from m, take n (payload m), ext_pages m) /\ inbox tid idx g b' = rest
    end.
Proof.
  intros Hb Hi. unfold receive. rewrite Hb. unfold pop_valid_for_receiver_copy.
  pose proof (pop_loop_spec (S (count b)) tid idx g n b Hi ltac:(lia)) as Hp.
  destruct (pop_loop _ _ _ _ _ _) as [r0 b0]. destruct Hp as [Hi0 Hs]. intros [= <- <-]. exists b0.
  symmetry in Hs. destruct (spec_pop_inbox _ _ _ _ _ _ _ Hs) as [Hsuf Hm]. done.
Qed.

(** ** The delivery invariant *)

Lemma filter_none {A} (P : A -> Prop) `{!forall x, Decision (P x)} (l : list A) : (forall x, x ∈ l -> ~ P x) -> filter P l = [].
Proof.
  induction l as [|x l IH]; intros Hall; [done|]. rewrite filter_cons_False by (apply Hall; left).
  apply IH. intros y Hy. apply Hall. by right.
Qed.

Record delivery (es : list event) (s : Sys) : Prop := {
  dl_hist : Thread.hist_inv (threads_q s) (next_tid s);
  dl_next : next_tid s <= 1 + Z.of_nat (length es);
  dl_len : length (sys_boxes s) = Thread.MAX_THREADS;
  dl_box : forall i b, sys_boxes s !! i = Some b -> box_inv b [];
  dl_msg : forall i b m, sys_boxes s !! i = Some b -> m ∈ messages b -> to m < next_tid s /\ ext_pages m = [];
  dl_live : forall T i g b, handle T (threads_q s) = Some (i, g) -> sys_boxes s !! i = Some b ->
    exists done, Forall2 matches done (received_by T es) /\ sent_to T es = done ++ (key <$> inbox T i g b);
  dl_all : forall T, exists done rest, Forall2 matches done (received_by T es) /\ sent_to T es = done ++ rest;
  dl_fresh : forall T, next_tid s <= T -> sent_to T es = [] /\ received_by T es = [];
}.

Lemma delivery_boot : delivery [] sys_boot.
Proof.
  split; cbn; try done.
  - split; [apply Thread.queue_new_wf|]. split; [lia|]. intros k [? ?]. done.
  - intros i b Hb. apply lookup_replicate in Hb as [-> _]. apply new_box_inv.
  - intros i b m Hb. apply lookup_replicate in Hb as [-> _]. intros H. cbn in H. set_solver.
  - intros T. exists [], []. split; [constructor|done].
Qed.

(** Events that are neither sends nor receives leave the logs alone. *)
Lemma other_logs T es : sent_to T (es ++ [EOther]) = sent_to T es /\ received_by T (es ++ [EOther]) = received_by T es.
Proof. rewrite sent_to_app, received_by_app. cbn. by rewrite !app_nil_r. Qed.

(** Thread creation, removal and updates. *)
Lemma delivery_queue es q n bx b q' n' :
  delivery es (mkSys q n bx) -> Thread.qstep q b q' -> Thread.hist_inv q' n' -> n <= n' <= n + 1 ->
  (forall T, is_Some (Thread.abs q' !! T) -> is_Some (Thread.abs q !! T) \/ T = n) ->
  delivery (es ++ [EOther]) (mkSys q' n' bx).
Proof.
  intros [Hh Hn Hl Hb Hm Hv Ha Hf] Hs Hh' Hn' Hnew. cbn in *. pose proof (proj1 Hh) as Hw.
  split; cbn; try done.
  - rewrite length_app. cbn. lia.
  - intros i bb m Hi Hmm. destruct (Hm i bb m Hi Hmm). split; [lia|done].
  - intros T i g bb HT Hi. destruct (other_logs T es) as [-> ->].
    destruct (Hnew T) as [HT0| ->].
    { apply handle_live; [apply Hh'|eauto]. }
    + apply handle_live in HT0 as [[i0 g0] HT0]; [|done].
      pose proof (handle_step T q b q' i0 g0 Hw Hs HT0 ltac:(eauto)) as E. rewrite HT in E. injection E as -> ->.
      by apply Hv.
    + destruct (Hf n ltac:(lia)) as [-> ->]. exists []. split; [constructor|].
      assert (inbox n i g bb = []) as ->; [|done]. unfold inbox. apply filter_none.
      intros m Hmm. destruct (Hm i bb m Hi Hmm) as [Hlt _]. unfold valid_for.
      rewrite (proj2 (Z.eqb_neq _ _)) by lia. done.
  - intros T. destruct (other_logs T es) as [-> ->]. apply Ha.
  - intros T HT. destruct (other_logs T es) as [-> ->]. apply Hf. lia.
Qed.

(** A change of mailbox [idx] that the inboxes account for. *)
Lemma delivery_box es e q n bx idx gen D b b' :
  delivery es (mkSys q n bx) -> handle D q = Some (idx, gen) -> bx !! idx = Some b -> box_inv b' [] ->
  (forall m, m ∈ messages b' -> m ∈ messages b \/ (to m = D /\ ext_pages m = [])) ->
  (forall T, T <> D -> sent_to T [e] = [] /\ received_by T [e] = []) ->
  (forall done, Forall2 matches done (received_by D es) -> sent_to D es = done ++ (key <$> inbox D idx gen b) ->
     exists done', Forall2 matches done' (received_by D (es ++ [e])) /\
       sent_to D (es ++ [e]) = done' ++ (key <$> inbox D idx gen b')) ->
  delivery (es ++ [e]) (mkSys q n (<[idx := b']> bx)).
Proof.
  intros [Hh Hn Hl Hb Hm Hv Ha Hf] HD Hbi Hi' Hmm Hoth Hown. cbn [threads_q next_tid sys_boxes] in *. pose proof (proj1 Hh) as Hw.
  assert (D < n) as HDn. { destruct Hh as (_ & _ & Hlt). apply Hlt, handle_live; [done|eauto]. }
  assert (forall T, T <> D -> sent_to T (es ++ [e]) = sent_to T es /\ received_by T (es ++ [e]) = received_by T es) as Hsame.
  { intros T HT. rewrite sent_to_app, received_by_app. destruct (Hoth T HT) as [-> ->]. by rewrite !app_nil_r. }
  destruct (Hv D idx gen b HD Hbi) as (done0 & Hd1 & Hd2).
  destruct (Hown done0 Hd1 Hd2) as (done' & Hd1' & Hd2').
  split; cbn [threads_q next_tid sys_boxes]; try done.
  - rewrite length_app. cbn. lia.
  - by rewrite length_insert.
  - intros i bb [(-> & <- & _)|[_ Hx]]%list_lookup_insert_Some; [done|by eapply Hb].
  - intros i bb m [(-> & <- & _)|[_ Hx]]%list_lookup_insert_Some Hin; [|by eapply Hm].
    destruct (Hmm m Hin) as [Ho|[-> ->]]; [by eapply Hm|done].
  - intros T i g bb HT Hx. destruct (decide (T = D)) as [->|Hne].
    + assert ((i, g) = (idx, gen)) as [= -> ->] by congruence. rewrite list_lookup_insert_eq in Hx by (by eapply lookup_lt_Some).
      injection Hx as <-. eauto.
    + destruct (Hsame T Hne) as [-> ->]. apply (Hv T i g bb HT). rewrite list_lookup_insert_ne in Hx; [done|].
      intros ->. apply Hne. by eapply handle_inj.
  - intros T. destruct (decide (T = D)) as [->|Hne]; [eauto|]. destruct (Hsame T Hne) as [-> ->]. apply Ha.
  - intros T HT. destruct (Hsame T ltac:(lia)) as [-> ->]. by apply Hf.
Qed.

Lemma delivery_step es e s s' :
  delivery es s -> sys_step e s s' -> 1 + Z.of_nat (length es) + 1 < U64_MODULUS -> delivery (es ++ [e]) s'.
Proof.
  intros Hd Hs Hlt. pose proof Hd as [Hh Hn Hl Hb Hm Hv Ha Hf].
  assert (forall q n bx D i g, s = mkSys q n bx -> handle D q = Some (i, g) -> exists b, bx !! i = Some b /\ box_inv b []) as Hbx.
  { intros q n bx D i g -> HD. cbn in *. apply handle_iff in HD as [(t & Ht & _) _]; [|apply Hh].
    pose proof (Scheduler.slot_lt q i t (proj1 Hh) Ht) as Hil.
    destruct (lookup_lt_is_Some_2 bx i) as [b Hbi]; [by rewrite Hl|]. eauto. }
  destruct Hs as [q n bx pid nm en kst sz|q n bx tid|q n bx R tid f Hid|q n bx frm dest idx gen data w bx' HD Hdl
    |q n bx frm dest idx gen data bx' HD Hdl|q n bx tid idx gen out_len r bx' HD Hrc|q n bx tid idx gen out_len bx' HD Hrc];
    cbn [threads_q next_tid sys_boxes] in *.
  - destruct (Thread.hist_push q n pid nm en kst sz Hh ltac:(lia)) as [Hnone Hpush].
    set (t := Thread.spawned pid nm en kst sz n) in *. cbn [Thread.ThreadId_new snd]. unfold wrap64. rewrite Z.mod_small by (destruct Hh as (_ & ? & _); lia).
    pose proof (Thread.push_spec t q (proj1 Hh) Hnone) as Hp.
    apply (delivery_queue es q n bx true); [done|by apply Thread.qstep_push| |lia|]; destruct (decide _).
    + destruct Hp as (i & q' & -> & Hw' & Habs & _). by apply Hpush.
    + rewrite Hp. cbn. destruct Hh as (? & ? & Hk). split; [done|]. split; [lia|]. intros k Hx%Hk. lia.
    + destruct Hp as (i & q' & -> & Hw' & Habs & _). intros T. cbn. rewrite Habs.
      destruct (decide (T = n)) as [->|Hne]; [by right|]. rewrite lookup_insert_ne by done. by left.
    + rewrite Hp. cbn. by left.
  - pose proof (Thread.remove_spec tid q (proj1 Hh)) as Hr. apply (delivery_queue es q n bx false); [done|apply Thread.qstep_remove| |lia|];
      destruct (Thread.remove tid q) as [r q']; cbn; destruct Hr as (_ & Hw' & Habs & _).
    + destruct Hh as (? & ? & Hk). split; [done|]. split; [done|]. intros k. rewrite Habs. intros [x Hx%lookup_delete_Some]. apply Hk. naive_solver.
    + intros T. rewrite Habs. intros [x Hx%lookup_delete_Some]. left. naive_solver.
  - pose proof (Thread.with_thread_mut_spec tid f q (proj1 Hh) Hid) as Hr.
    apply (delivery_queue es q n bx false); [done|by apply Thread.qstep_mut| |lia|];
      destruct (Thread.with_thread_mut tid f q) as [r q']; cbn; destruct Hr as (_ & Hw' & Habs & _).
    + destruct Hh as (? & ? & Hk). split; [done|]. split; [done|]. intros k. rewrite Habs, lookup_alter_is_Some. apply Hk.
    + intros T. rewrite Habs, lookup_alter_is_Some. by left.
  - destruct (Hbx q n bx dest idx gen eq_refl HD) as (b & Hbi & Hib).
    destruct (deliver_spec _ _ _ _ _ _ Hbi Hib Hdl) as (b' & -> & Hi' & Hm').
    apply (delivery_box es _ q n bx idx gen dest b b'); try done.
    + intros m. rewrite Hm', elem_of_app, list_elem_of_singleton. intros [?| ->]; [by left|by right].
    + intros T HT. cbn. rewrite (proj2 (Z.eqb_neq _ _)) by done. done.
    + intros done0 H1 H2. exists done0. rewrite sent_to_app, received_by_app. cbn. rewrite Z.eqb_refl, app_nil_r. split; [done|].
      unfold inbox. rewrite Hm', filter_app, fmap_app, H2, <-app_assoc. do 2 f_equal.
      rewrite filter_cons_True; [done|]. unfold valid_for. cbn. by rewrite !Z.eqb_refl, Nat.eqb_refl.
  - destruct (Hbx q n bx dest idx gen eq_refl HD) as (b & Hbi & Hib).
    destruct (deliver_spec _ _ _ _ _ _ Hbi Hib Hdl) as (b' & -> & Hi' & Hm'). rewrite app_nil_r in Hm'.
    apply (delivery_box es _ q n bx idx gen dest b b'); try done.
    + intros m. rewrite Hm'. by left.
    + intros done0 H1 H2. exists done0. destruct (other_logs dest es) as [-> ->]. unfold inbox. rewrite Hm'. done.
  - destruct (Hbx q n bx tid idx gen eq_refl HD) as (b & Hbi & Hib).
    destruct (receive_spec _ _ _ _ _ _ _ _ Hbi Hib Hrc) as (b' & -> & Hi' & Hsuf & Hbox).
    apply (delivery_box es _ q n bx idx gen tid b b'); try done.
    + intros m Hin. left. destruct Hsuf as [k ->]. apply elem_of_app. by right.
    + intros T HT. cbn. rewrite (proj2 (Z.eqb_neq _ _)) by done. done.
    + intros done0 H1 H2. destruct (inbox tid idx gen b) as [|m rest] eqn:Eb; [by destruct Hbox|].
      destruct Hbox as [[= ->] Hrest]. rewrite sent_to_app, received_by_app. cbn. rewrite Z.eqb_refl, app_nil_r.
      exists (done0 ++ [key m]). rewrite Hrest, H2. split; [|by rewrite <-app_assoc].
      apply Forall2_app; [done|]. constructor; [|constructor]. unfold matches, key. cbn. f_equal.
      assert (m ∈ messages b) as Hmb by (apply (list_elem_of_filter (fun m => valid_for tid idx gen m = true)); fold (inbox tid idx gen b); rewrite Eb; left).
      by destruct (Hm idx b m Hbi Hmb).
  - destruct (Hbx q n bx tid idx gen eq_refl HD) as (b & Hbi & Hib).
    destruct (receive_spec _ _ _ _ _ _ _ _ Hbi Hib Hrc) as (b' & -> & Hi' & Hsuf & Hbox).
    apply (delivery_box es _ q n bx idx gen tid b b'); try done.
    + intros m Hin. left. destruct Hsuf as [k ->]. apply elem_of_app. by right.
    + intros done0 H1 H2. destruct (other_logs tid es) as [-> ->]. exists done0. split; [done|].
      destruct (inbox tid idx gen b) as [|m rest]; [|by destruct Hbox]. destruct Hbox as [_ ->]. done.
Qed.

Lemma delivery_run es s : sys_run es s -> 2 + Z.of_nat (length es) < U64_MODULUS -> delivery es s.
Proof.
  induction 1 as [|es e s s' Hr IH Hs]; intros Hlt; [apply delivery_boot|].
  rewrite length_app in Hlt. cbn in Hlt. eapply delivery_step; [apply IH; lia|done|lia].
Qed.


End IpcSyscalls.
