(* ===== verification/Signal.v ===== *)
(** Per-process signal state, [src/core/task/signal.rs].

    Bit [i] of a mask stands for signal [i + 1]. *)

From Stdlib Require Import ZArith Lia.
From stdpp Require Import base list option numbers.
From S2P Require Import Prelude.

Local Open Scope Z_scope.

Module Signal.

Definition SIG_DFL : Z := 0.
Definition SIG_IGN : Z := 1.
Definition SIGKILL : Z := 9.
Definition SIGCHLD : Z := 17.
Definition SIGCONT : Z := 18.
Definition SIGSTOP : Z := 19.
Definition SIGTSTP : Z := 20.
Definition SIGTTIN : Z := 21.
Definition SIGTTOU : Z := 22.
Definition SIGWINCH : Z := 28.

Inductive DefaultAction := Terminate | Ignore.

Definition default_action (sig : Z) : DefaultAction :=
  if (sig =? SIGCHLD) || (sig =? SIGCONT) || (sig =? SIGWINCH) then Ignore
  else if (sig =? SIGSTOP) || (sig =? SIGTSTP) || (sig =? SIGTTIN) || (sig =? SIGTTOU) then Ignore
  else Terminate.

Record SigAction := mkAction { handler : Z; flags : Z; restorer : Z; act_mask : Z }.

Definition SigAction_default : SigAction := mkAction SIG_DFL 0 0 0.

Definition is_default (a : SigAction) : bool := handler a =? SIG_DFL.
Definition is_ignored (a : SigAction) : bool := handler a =? SIG_IGN.
Definition has_user_handler (a : SigAction) : bool := SIG_IGN <? handler a.

Record SignalState := mkSig { actions : list SigAction; mask : Z; pending : Z }.

Definition new : SignalState := mkSig (replicate 64 SigAction_default) 0 0.

(** [1u64 << (sig - 1)] *)
Definition sig_bit (sig : Z) : Z := Z.shiftl 1 (sig - 1).

(** [x & !y] on [u64]s. *)
Definition andnot (x y : Z) : Z := Z.ldiff x y.

Definition valid_sig (sig : Z) : bool := (1 <=? sig) && (sig <=? 64).

Definition set_pending (sig : Z) (s : SignalState) : SignalState :=
  if valid_sig sig then mkSig (actions s) (mask s) (Z.lor (pending s) (sig_bit sig)) else s.

(** [x.trailing_zeros()] of a non-zero [u64]. *)
Fixpoint trailing_zeros_from (fuel : nat) (i : Z) (x : Z) : Z :=
  match fuel with
  | O => 64
  | S fuel => if Z.testbit x i then i else trailing_zeros_from fuel (i + 1) x
  end.
Definition trailing_zeros (x : Z) : Z := trailing_zeros_from 64 0 x.

Definition take_next_deliverable (s : SignalState) : option Z * SignalState :=
  let deliverable := andnot (pending s) (mask s) in
  if deliverable =? 0 then (None, s)
  else
    let bit := trailing_zeros deliverable in
    (Some (bit + 1), mkSig (actions s) (mask s) (andnot (pending s) (Z.shiftl 1 bit))).

Definition action (sig : Z) (s : SignalState) : SigAction :=
  if valid_sig sig then nth (Z.to_nat (sig - 1)) (actions s) SigAction_default else SigAction_default.

Definition set_action (sig : Z) (a : SigAction) (s : SignalState) : SignalState :=
  if valid_sig sig then mkSig (<[Z.to_nat (sig - 1) := a]> (actions s)) (mask s) (pending s) else s.

Definition set_mask (m : Z) (s : SignalState) : SignalState := mkSig (actions s) m (pending s).

(** Signal [sig] is blocked / pending. *)
Definition blocked (sig : Z) (s : SignalState) : bool := Z.testbit (mask s) (sig - 1).
Definition is_pending (sig : Z) (s : SignalState) : bool := Z.testbit (pending s) (sig - 1).

(** Masks are 64 bits wide. *)
Definition sig_wf (s : SignalState) : Prop := length (actions s) = 64%nat /\ is_u64 (mask s) /\ is_u64 (pending s).

Lemma u64_high_bits x i : is_u64 x -> 64 <= i -> Z.testbit x i = false.
Proof.
  intros [H1 H2] Hi. destruct (decide (x = 0)) as [->|Hne]; [apply Z.bits_0|].
  apply Z.bits_above_log2; [done|]. assert (Z.log2 x < 64); [|lia].
  apply Z.log2_lt_pow2; [lia|]. exact H2.
Qed.

Lemma bits_u64 x : 0 <= x -> (forall i, 64 <= i -> Z.testbit x i = false) -> is_u64 x.
Proof.
  intros H0 H. split; [done|]. destruct (decide (x = 0)) as [->|Hne]; [done|].
  change U64_MODULUS with (2 ^ 64). apply Z.log2_lt_pow2; [lia|].
  destruct (decide (Z.log2 x < 64)) as [|Hge]; [done|]. specialize (H (Z.log2 x) ltac:(lia)).
  rewrite Z.bit_log2 in H by lia. done.
Qed.

Lemma sig_bit_spec sig i : 1 <= sig -> Z.testbit (sig_bit sig) i = (i =? sig - 1).
Proof.
  intros H. unfold sig_bit. rewrite Z.shiftl_1_l. destruct (Z.eqb_spec i (sig - 1)) as [->|Hne].
  - apply Z.pow2_bits_true. lia.
  - apply Z.pow2_bits_false. lia.
Qed.

Lemma is_u64_lor x y : is_u64 x -> is_u64 y -> is_u64 (Z.lor x y).
Proof.
  intros Hx Hy. apply bits_u64; [apply Z.lor_nonneg; split; [apply Hx|apply Hy]|].
  intros i Hi. by rewrite Z.lor_spec, !u64_high_bits.
Qed.

Lemma is_u64_andnot x y : is_u64 x -> 0 <= y -> is_u64 (andnot x y).
Proof.
  intros Hx Hy. unfold andnot. apply bits_u64; [apply Z.ldiff_nonneg; left; apply Hx|].
  intros i Hi. by rewrite Z.ldiff_spec, u64_high_bits.
Qed.

Lemma is_u64_sig_bit sig : 1 <= sig <= 64 -> is_u64 (sig_bit sig).
Proof.
  intros H. apply bits_u64; [apply Z.shiftl_nonneg; lia|]. intros i Hi. rewrite sig_bit_spec by lia.
  apply Z.eqb_neq. lia.
Qed.

Lemma trailing_zeros_from_spec fuel i x :
  0 <= i -> (exists j, i <= j < i + Z.of_nat fuel /\ Z.testbit x j = true) ->
  let b := trailing_zeros_from fuel i x in
  i <= b < i + Z.of_nat fuel /\ Z.testbit x b = true /\ forall k, i <= k < b -> Z.testbit x k = false.
Proof.
  revert i. induction fuel as [|fuel IH]; intros i Hi (j & Hj & Ht); [lia|]. cbn [trailing_zeros_from].
  destruct (Z.testbit x i) eqn:E; [split; [lia|]; split; [done|lia]|].
  assert (j <> i) by congruence. destruct (IH (i + 1) ltac:(lia)) as (H1 & H2 & H3).
  { exists j. split; [lia|done]. }
  split; [lia|]. split; [done|]. intros k Hk. destruct (decide (k = i)) as [->|]; [done|]. apply H3. lia.
Qed.

(** The lowest set bit. *)
Lemma trailing_zeros_spec x :
  is_u64 x -> x <> 0 ->
  0 <= trailing_zeros x < 64 /\ Z.testbit x (trailing_zeros x) = true /\
  forall k, 0 <= k < trailing_zeros x -> Z.testbit x k = false.
Proof.
  intros Hx Hne. unfold trailing_zeros.
  assert (exists j, 0 <= j < 0 + Z.of_nat 64 /\ Z.testbit x j = true) as Hex.
  { exists (Z.log2 x). split; [|apply Z.bit_log2; unfold is_u64 in Hx; lia].
    split; [apply Z.log2_nonneg|]. apply Z.log2_lt_pow2; [unfold is_u64 in Hx; lia|]. apply Hx. }
  destruct (trailing_zeros_from_spec 64 0 x ltac:(lia) Hex) as (H1 & H2 & H3). split; [lia|done].
Qed.

(** Signals are taken in increasing order and only if they are not blocked:
    [take_next_deliverable] returns the lowest pending signal that is not
    blocked, clears its pending bit and nothing else; it returns nothing exactly
    when every pending signal is blocked; and a signal made pending and not
    blocked is pending until it is taken. *)
Theorem deliverable_lowest_unblocked (s : SignalState) :
  sig_wf s ->
  match take_next_deliverable s with
  | (None, s') => s' = s /\ forall sig, 1 <= sig <= 64 -> is_pending sig s = true -> blocked sig s = true
  | (Some sig, s') =>
      1 <= sig <= 64 /\ is_pending sig s = true /\ blocked sig s = false /\
      (forall k, 1 <= k < sig -> is_pending k s = true -> blocked k s = true) /\
      (forall k, 1 <= k <= 64 -> is_pending k s' = negb (k =? sig) && is_pending k s) /\
      mask s' = mask s /\ actions s' = actions s /\ sig_wf s'
  end.
Proof.
  intros (Ha & Hm & Hp). unfold take_next_deliverable.
  assert (forall i, Z.testbit (andnot (pending s) (mask s)) i = Z.testbit (pending s) i && negb (Z.testbit (mask s) i)) as Hb
    by (intros i; apply Z.ldiff_spec).
  destruct (Z.eqb_spec (andnot (pending s) (mask s)) 0) as [E|Hne].
  - split; [done|]. intros sig Hs Hpe. unfold is_pending, blocked in *. specialize (Hb (sig - 1)). rewrite E, Z.bits_0, Hpe in Hb.
    by destruct (Z.testbit (mask s) (sig - 1)).
  - destruct (trailing_zeros_spec (andnot (pending s) (mask s))) as (H1 & H2 & H3);
      [apply is_u64_andnot; [done|apply Hm]|done|].
    set (b := trailing_zeros (andnot (pending s) (mask s))) in *. rewrite Hb in H2. apply andb_prop in H2 as [H2 H4].
    unfold is_pending, blocked. cbn [mask pending actions]. replace (b + 1 - 1) with b by lia.
    split; [lia|]. split; [done|]. split; [by apply negb_true_iff|]. split; [|split; [|split; [done|split; [done|split; [done|]]]]].
    + intros k Hk Hpk. specialize (H3 (k - 1) ltac:(lia)). rewrite Hb, Hpk in H3. by destruct (Z.testbit (mask s) (k - 1)).
    + intros k Hk. unfold andnot. rewrite Z.ldiff_spec, Z.shiftl_1_l.
      destruct (Z.eqb_spec k (b + 1)) as [->|Hkb].
      * replace (b + 1 - 1) with b by lia. rewrite Z.pow2_bits_true by lia. by rewrite andb_false_r.
      * rewrite Z.pow2_bits_false by lia. by rewrite andb_true_r.
    + split; [done|]. cbn. apply is_u64_andnot; [done|]. apply Z.shiftl_nonneg. lia.
Qed.

Lemma deliverable_lowest_unblocked_witness :
  sig_wf (mkSig (replicate 64 SigAction_default) 2 7) /\
  (take_next_deliverable (mkSig (replicate 64 SigAction_default) 2 7)).1 = Some 1 /\
  is_pending 1 (mkSig (replicate 64 SigAction_default) 2 7) = true.
Proof.
  assert (sig_wf (mkSig (replicate 64 SigAction_default) 2 7)) as Hw by (repeat split; vm_compute; congruence).
  split; [exact Hw|]. split; [vm_compute; reflexivity|].
  pose proof (deliverable_lowest_unblocked _ Hw) as H.
  assert ((take_next_deliverable (mkSig (replicate 64 SigAction_default) 2 7)).1 = Some 1) as E by (vm_compute; reflexivity).
  destruct (take_next_deliverable _) as [o s']. cbn in E. rewrite E in H. apply H.
Defined.
End Signal.
