(* ===== verification/Process.v ===== *)
(** Processes, [src/core/task/process.rs]: process records and the process table.

    The descriptor table of a process is modelled in [FdTable]; here a process is
    everything else. *)

From Stdlib Require Import ZArith Lia.
From stdpp Require Import base list option numbers gmap fin_maps.
From S2P Require Import Prelude Slots Table Signal.

Local Open Scope Z_scope.

Module Process.

Inductive ProcessState := PRunning | PSleeping | PZombie | PTerminated.
Inductive PrivilegeLevel := Core | Service | User.

#[global] Instance ProcessState_eq_dec : EqDecision ProcessState.
Proof. solve_decision. Defined.
#[global] Instance PrivilegeLevel_eq_dec : EqDecision PrivilegeLevel.
Proof. solve_decision. Defined.

Record Process := mkProcess {
  id : Z;
  name : list Z;
  state : ProcessState;
  privilege : PrivilegeLevel;
  parent_id : option Z;
  page_table : option Z;
  heap_start : Z;
  heap_end : Z;
  stack_bottom : Z;
  stack_top : Z;
  cwd : list Z;
  priority : Z;
  exit_code : option Z;
  pgid_raw : Z;
  sid_raw : Z;
  signal_state : Signal.SignalState;
}.

(** [ProcessId::new]. *)
Definition ProcessId_new (next : Z) : Z * Z := (next, wrap64 (next + 1)).

Definition new (nm : list Z) (priv : PrivilegeLevel) (parent : option Z) (prio : Z) (next : Z) : Process * Z :=
  let '(pid, next') := ProcessId_new next in
  ({| id := pid; name := take 32 nm; state := PRunning; privilege := priv; parent_id := parent; page_table := None;
      heap_start := 0; heap_end := 0; stack_bottom := 0; stack_top := 0; cwd := [47]; priority := prio;
      exit_code := None; pgid_raw := 0; sid_raw := 0; signal_state := Signal.new |}, next').

Definition mark_exited (code : Z) (p : Process) : Process :=
  {| id := id p; name := name p; state := PZombie; privilege := privilege p; parent_id := parent_id p;
     page_table := page_table p; heap_start := heap_start p; heap_end := heap_end p; stack_bottom := stack_bottom p;
     stack_top := stack_top p; cwd := cwd p; priority := priority p; exit_code := Some code; pgid_raw := pgid_raw p;
     sid_raw := sid_raw p; signal_state := signal_state p |}.

Definition set_signal_state (s : Signal.SignalState) (p : Process) : Process :=
  {| id := id p; name := name p; state := state p; privilege := privilege p; parent_id := parent_id p;
     page_table := page_table p; heap_start := heap_start p; heap_end := heap_end p; stack_bottom := stack_bottom p;
     stack_top := stack_top p; cwd := cwd p; priority := priority p; exit_code := exit_code p; pgid_raw := pgid_raw p;
     sid_raw := sid_raw p; signal_state := s |}.

Definition set_heap (hs he : Z) (p : Process) : Process :=
  {| id := id p; name := name p; state := state p; privilege := privilege p; parent_id := parent_id p;
     page_table := page_table p; heap_start := hs; heap_end := he; stack_bottom := stack_bottom p;
     stack_top := stack_top p; cwd := cwd p; priority := priority p; exit_code := exit_code p; pgid_raw := pgid_raw p;
     sid_raw := sid_raw p; signal_state := signal_state p |}.

Definition set_page_table (table : Z) (p : Process) : Process :=
  {| id := id p; name := name p; state := state p; privilege := privilege p; parent_id := parent_id p;
     page_table := Some table; heap_start := heap_start p; heap_end := heap_end p; stack_bottom := stack_bottom p;
     stack_top := stack_top p; cwd := cwd p; priority := priority p; exit_code := exit_code p; pgid_raw := pgid_raw p;
     sid_raw := sid_raw p; signal_state := signal_state p |}.

(** [set_stack_bottom] and [set_stack_top]. *)
Definition set_stack (bottom top : Z) (p : Process) : Process :=
  {| id := id p; name := name p; state := state p; privilege := privilege p; parent_id := parent_id p;
     page_table := page_table p; heap_start := heap_start p; heap_end := heap_end p; stack_bottom := bottom;
     stack_top := top; cwd := cwd p; priority := priority p; exit_code := exit_code p; pgid_raw := pgid_raw p;
     sid_raw := sid_raw p; signal_state := signal_state p |}.

(** [set_cwd] keeps the first 255 bytes. *)
Definition set_cwd (path : list Z) (p : Process) : Process :=
  {| id := id p; name := name p; state := state p; privilege := privilege p; parent_id := parent_id p;
     page_table := page_table p; heap_start := heap_start p; heap_end := heap_end p; stack_bottom := stack_bottom p;
     stack_top := stack_top p; cwd := take 255 path; priority := priority p; exit_code := exit_code p;
     pgid_raw := pgid_raw p; sid_raw := sid_raw p; signal_state := signal_state p |}.

Definition set_groups (pg sd : Z) (p : Process) : Process :=
  {| id := id p; name := name p; state := state p; privilege := privilege p; parent_id := parent_id p;
     page_table := page_table p; heap_start := heap_start p; heap_end := heap_end p; stack_bottom := stack_bottom p;
     stack_top := stack_top p; cwd := cwd p; priority := priority p; exit_code := exit_code p; pgid_raw := pg;
     sid_raw := sd; signal_state := signal_state p |}.

Definition pgid (p : Process) : Z := if pgid_raw p =? 0 then id p else pgid_raw p.
Definition sid (p : Process) : Z := if sid_raw p =? 0 then id p else sid_raw p.
Definition set_pgid (v : Z) (p : Process) : Process := set_groups v (sid_raw p) p.
Definition set_sid (v : Z) (p : Process) : Process := set_groups (pgid_raw p) v p.

(** ** The table *)

Definition MAX_PROCESSES : nat := 64.
#[global] Arguments MAX_PROCESSES : simpl never.

Record ProcessTable := mkPTable { processes : list (option Process); count : nat }.

Definition Table_new : ProcessTable := mkPTable (replicate MAX_PROCESSES None) 0.

Definition add (p : Process) (t : ProcessTable) : option Z * ProcessTable :=
  if (MAX_PROCESSES <=? count t)%nat then (None, t)
  else
    match first_free (processes t) with
    | Some i => (Some (id p), mkPTable (<[i := Some p]> (processes t)) (S (count t)))
    | None => (None, t)
    end.

Definition get (pid : Z) (t : ProcessTable) : option Process := snd <$> find_slot (by_key id pid) (processes t).

(** [with_process_mut]: the closure's result and the updated table. *)
Definition with_process_mut {R} (pid : Z) (f : Process -> R * Process) (t : ProcessTable) : option R * ProcessTable :=
  match find_slot (by_key id pid) (processes t) with
  | Some (i, p) => (Some (f p).1, mkPTable (alter_slot (fun p => (f p).2) i (processes t)) (count t))
  | None => (None, t)
  end.

Definition remove (pid : Z) (t : ProcessTable) : option Process * ProcessTable :=
  match find_slot (by_key id pid) (processes t) with
  | Some (i, p) => (Some p, mkPTable (<[i := None]> (processes t)) (pred (count t)))
  | None => (None, t)
  end.

Definition iter (t : ProcessTable) : list Process := live (processes t).

Definition is_child_match (parent : Z) (target : option Z) (p : Process) : bool :=
  if negb (bool_decide (parent_id p = Some parent)) then false
  else match target with Some tid => id p =? tid | None => true end.

Definition has_child (parent : Z) (target : option Z) (t : ProcessTable) : bool :=
  existsb (is_child_match parent target) (iter t).

Definition should_reap (parent : Z) (target : option Z) (p : Process) : bool :=
  is_child_match parent target p && bool_decide (state p = PZombie).

(** [reap_zombie_child]: pid, exit code and page table of the child taken out. *)
Definition reap_zombie_child (parent : Z) (target : option Z) (t : ProcessTable) :
    option (Z * Z * option Z) * ProcessTable :=
  match find_slot (should_reap parent target) (processes t) with
  | Some (i, p) =>
      (Some (id p, default 0 (exit_code p), page_table p), mkPTable (<[i := None]> (processes t)) (count t - 1))
  | None => (None, t)
  end.

Definition mark_process_exited (pid code : Z) (t : ProcessTable) : ProcessTable :=
  (with_process_mut pid (fun p => (tt, mark_exited code p)) t).2.

(** *** Lookup by name *)

Definition bytes_eq (a b : list Z) : bool := bool_decide (a = b).

(** [s.strip_suffix(suf)] *)
Definition strip_suffix (suf s : list Z) : option (list Z) :=
  if (length suf <=? length s)%nat && bytes_eq (drop (length s - length suf) s) suf
  then Some (take (length s - length suf) s) else None.

Fixpoint is_prefix (a s : list Z) : bool :=
  match a, s with
  | [], _ => true
  | x :: a, y :: s => (x =? y) && is_prefix a s
  | _ :: _, [] => false
  end.

(** [s.contains(pat)] *)
Fixpoint contains (pat s : list Z) : bool :=
  is_prefix pat s || match s with [] => false | _ :: s => contains pat s end.

Definition ELF_SUFFIX : list Z := [46; 101; 108; 102].
Definition DRIVERS_DIR : list Z := [47; 98; 105; 110; 47; 100; 114; 105; 118; 101; 114; 115; 47].
Definition DRV_SUFFIX : list Z := [100; 114; 118].

Definition or_else {A} (a : option A) (b : option A) : option A := match a with Some x => Some x | None => b end.

Definition find_by_name (nm : list Z) (t : ProcessTable) : option Process :=
  let find f := List.find f (iter t) in
  or_else (find (fun p => bytes_eq (name p) nm))
  (or_else (find (fun p => match strip_suffix ELF_SUFFIX (name p) with Some s => bytes_eq s nm | None => false end))
  (or_else (find (fun p => bytes_eq (name p) (nm ++ ELF_SUFFIX)))
  (or_else (find (fun p => bytes_eq (name p) (DRIVERS_DIR ++ nm ++ ELF_SUFFIX)))
  (or_else (match strip_suffix DRV_SUFFIX nm with
            | Some base =>
                if (3 <? length nm)%nat then
                  or_else (find (fun p => bytes_eq (name p) base || bytes_eq (name p) (base ++ ELF_SUFFIX)))
                          (find (fun p => bytes_eq (name p) (DRIVERS_DIR ++ base ++ ELF_SUFFIX)))
                else None
            | None => None
            end)
           (find (fun p => contains nm (name p))))))).

(** ** The table is a bounded map *)

Record table_wf (t : ProcessTable) : Prop := {
  tw_len : length (processes t) = MAX_PROCESSES;
  tw_count : count t = length (live (processes t));
  tw_keys : keys_unique id (processes t);
}.

Definition abs (t : ProcessTable) : gmap Z Process := entries id (processes t).

Lemma table_new_wf : table_wf Table_new.
Proof. split; try reflexivity. unfold keys_unique. cbn. constructor. Qed.

Lemma process_get_abs pid t : table_wf t -> get pid t = abs t !! pid.
Proof. intros [_ _ Hk]. by apply find_by_key. Qed.

Lemma get_in_iter pid t p : table_wf t -> get pid t = Some p <-> p ∈ iter t /\ id p = pid.
Proof. intros Hw. rewrite process_get_abs by done. apply entries_Some. apply Hw. Qed.

Lemma add_spec p t :
  table_wf t -> abs t !! id p = None ->
  if decide (size (abs t) < MAX_PROCESSES)%nat
  then exists t', add p t = (Some (id p), t') /\ table_wf t' /\ abs t' = <[id p := p]> (abs t)
  else add p t = (None, t).
Proof.
  intros Hw Hn. assert (count t = size (abs t)) as Hca by (unfold abs; rewrite entries_size by apply Hw; apply Hw).
  destruct Hw as [Hl Hc Hk]. unfold add. rewrite <-Hca.
  destruct (decide (count t < MAX_PROCESSES)%nat) as [Hlt|Hge].
  2: { by rewrite (proj2 (Nat.leb_le _ _)) by lia. }
  rewrite (proj2 (Nat.leb_gt _ _)) by done.
  destruct (first_free_is_Some (processes t)) as [i E]; [lia|]. rewrite E.
  pose proof (first_free_Some _ _ E) as Hi. eexists. split; [reflexivity|]. split.
  - split; cbn.
    + by rewrite length_insert.
    + by rewrite live_length_fill, Hc.
    + by apply keys_unique_fill.
  - by apply entries_fill.
Qed.

Lemma with_process_mut_spec {R} pid (f : Process -> R * Process) t :
  table_wf t -> (forall p, id (f p).2 = id p) ->
  let '(r, t') := with_process_mut pid f t in
  r = (fun p => (f p).1) <$> abs t !! pid /\ table_wf t' /\ abs t' = alter (fun p => (f p).2) pid (abs t).
Proof.
  intros Hw Hf. pose proof (process_get_abs pid t Hw) as Hga. destruct Hw as [Hl Hc Hk]. unfold with_process_mut, get in *.
  destruct (find_slot (by_key id pid) (processes t)) as [[i p]|] eqn:E; cbn in Hga; rewrite <-Hga.
  - apply find_by_key_Some in E as [Hi <-]. split; [done|]. split.
    + split; cbn.
      * by rewrite length_alter_slot.
      * destruct (live_alter_slot (fun p => (f p).2) _ _ _ Hi) as [H1 H2]. by rewrite Hc, H1, H2.
      * by apply keys_unique_alter.
    + unfold abs. cbn. rewrite (entries_alter id _ _ _ p) by done.
      apply map_eq. intros k. destruct (decide (k = id p)) as [->|Hne].
      * rewrite lookup_insert_eq, lookup_alter_eq. unfold abs in Hga. by rewrite <-Hga.
      * by rewrite lookup_insert_ne, lookup_alter_ne by done.
  - split; [done|]. split; [done|]. apply map_eq. intros k. destruct (decide (k = pid)) as [->|Hne].
    + rewrite lookup_alter_eq, <-Hga. done.
    + by rewrite lookup_alter_ne by done.
Qed.

(** What [should_reap] selects. *)
Lemma should_reap_spec parent target p :
  should_reap parent target p = true <->
  parent_id p = Some parent /\ (forall k, target = Some k -> id p = k) /\ state p = PZombie.
Proof.
  unfold should_reap, is_child_match. destruct (bool_decide_reflect (parent_id p = Some parent)); cbn; [|naive_solver].
  rewrite andb_true_iff, bool_decide_eq_true. destruct target as [k|]; [rewrite Z.eqb_eq|]; naive_solver.
Qed.

Lemma reap_spec parent target t :
  table_wf t ->
  let '(r, t') := reap_zombie_child parent target t in
  table_wf t' /\
  match r with
  | Some (pid, code, pt) => exists p, abs t !! pid = Some p /\ should_reap parent target p = true /\
      code = default 0 (exit_code p) /\ pt = page_table p /\ abs t' = delete pid (abs t)
  | None => t' = t /\ forall pid p, abs t !! pid = Some p -> should_reap parent target p = false
  end.
Proof.
  intros Hw. pose proof Hw as [Hl Hc Hk]. unfold reap_zombie_child.
  destruct (find_slot (should_reap parent target) (processes t)) as [[i p]|] eqn:E.
  - apply find_slot_Some in E as (Hi & Hs & _). split.
    + split; cbn; [by rewrite length_insert| |by apply keys_unique_clear].
      rewrite Hc, (live_length_clear _ _ _ Hi). lia.
    + exists p. split; [|split; [done|split; [done|split; [done|by apply entries_clear]]]].
      apply entries_Some; [done|]. split; [|done]. apply elem_of_live. eauto.
  - split; [done|]. split; [done|]. intros pid p [Hp _]%entries_Some; [|done].
    apply elem_of_live in Hp as [i Hi]. by apply (proj1 (find_slot_None _ _) E i p).
Qed.

Lemma has_child_spec parent target t :
  table_wf t -> has_child parent target t = true <-> exists pid p, abs t !! pid = Some p /\ is_child_match parent target p = true.
Proof.
  intros Hw. unfold has_child. rewrite existsb_exists. setoid_rewrite <-list_elem_of_In. split.
  - intros (p & Hp & Hm). exists (id p), p. split; [|done]. by apply entries_Some; [apply Hw|].
  - intros (pid & p & [Hp _]%entries_Some & Hm); [|apply Hw]. eauto.
Qed.
End Process.
