(* ===== verification/Futex.v ===== *)
(** The futex wait queue of [src/core/syscall/process.rs]. *)

From Stdlib Require Import ZArith Lia.
From stdpp Require Import base list option numbers.
From S2P Require Import Prelude Slots.

Local Open Scope Z_scope.

Module Futex.

Record FutexWaitEntry := mkWait { tid : Z; uaddr : Z; wake_tick : Z }.

Definition MAX_FUTEX_WAITERS : nat := 64.
Definition NO_TIMEOUT_WAKE_TICK : Z := U64_MAX.
#[global] Arguments MAX_FUTEX_WAITERS : simpl never.

Definition FutexQueue : Type := list (option FutexWaitEntry).
Definition empty : FutexQueue := replicate MAX_FUTEX_WAITERS None.

Definition of_thread (t : Z) (e : FutexWaitEntry) : bool := tid e =? t.

Definition register_futex_waiter (t addr wake : Z) (q : FutexQueue) : bool * FutexQueue :=
  match find_slot (of_thread t) q with
  | Some _ => (false, q)
  | None =>
      match first_free q with
      | Some i => (true, <[i := Some (mkWait t addr wake)]> q)
      | None => (false, q)
      end
  end.

Definition futex_waiter_exists (t addr : Z) (q : FutexQueue) : bool :=
  existsb (fun e => (tid e =? t) && (uaddr e =? addr)) (live q).

Definition remove_futex_waiter_by_tid (t : Z) (q : FutexQueue) : bool * FutexQueue :=
  match find_slot (of_thread t) q with
  | Some (i, _) => (true, <[i := None]> q)
  | None => (false, q)
  end.

Definition clear_futex_waiter (t : Z) (q : FutexQueue) : FutexQueue := (remove_futex_waiter_by_tid t q).2.

(** The loop of [wake_due_futex_waiters]: the threads to wake, the queue without
    them.  At most as many as there are slots, so the list never overflows. *)
Fixpoint take_due (now : Z) (q : FutexQueue) : list Z * FutexQueue :=
  match q with
  | [] => ([], [])
  | Some e :: q =>
      let '(l, q') := take_due now q in
      if negb (wake_tick e =? NO_TIMEOUT_WAKE_TICK) && (wake_tick e <=? now) then (tid e :: l, None :: q')
      else (l, Some e :: q')
  | None :: q => let '(l, q') := take_due now q in (l, None :: q')
  end.

(** The loop of [FUTEX_WAKE]: at most [n] waiters on [addr], in slot order. *)
Fixpoint take_waiters (n : nat) (addr : Z) (q : FutexQueue) : list Z * FutexQueue :=
  match q with
  | [] => ([], [])
  | o :: q' =>
      match n with
      | O => ([], q)
      | S n' =>
          match o with
          | Some e =>
              if uaddr e =? addr then let '(l, r) := take_waiters n' addr q' in (tid e :: l, None :: r)
              else let '(l, r) := take_waiters n addr q' in (l, Some e :: r)
          | None => let '(l, r) := take_waiters n addr q' in (l, None :: r)
          end
      end
  end.

(** ** What the loops select *)

Definition waits_on (addr : Z) (e : FutexWaitEntry) : bool := uaddr e =? addr.

Lemma take_waiters_spec n addr q :
  let '(l, q') := take_waiters n addr q in
  length q' = length q /\
  l = take n (tid <$> filter (fun e => waits_on addr e = true) (live q)) /\
  live q' ≡ₚ filter (fun e => waits_on addr e = false) (live q) ++ drop n (filter (fun e => waits_on addr e = true) (live q)).
Proof.
  assert (forall l : list FutexWaitEntry, l ≡ₚ filter (fun e => waits_on addr e = false) l ++ filter (fun e => waits_on addr e = true) l) as Hsplit.
  { induction l as [|e l IH]; [done|]. destruct (waits_on addr e) eqn:E.
    - rewrite filter_cons_False by congruence. rewrite filter_cons_True by done. rewrite <-Permutation_middle. by constructor.
    - rewrite filter_cons_True by done. rewrite filter_cons_False by congruence. cbn. by constructor. }
  revert n. induction q as [|o q IH]; intros n; [by destruct n|]. cbn [take_waiters].
  destruct n as [|n]; [cbn [take drop]; by rewrite <-Hsplit|].
  destruct o as [e|].
  - change (uaddr e =? addr) with (waits_on addr e). rewrite !live_cons. destruct (waits_on addr e) eqn:E.
    + specialize (IH n). destruct (take_waiters n addr q) as [l r]. destruct IH as (H1 & H2 & H3).
      rewrite filter_cons_True by done. rewrite filter_cons_False by congruence. cbn [fmap list_fmap take drop length].
      split; [by f_equal|]. split; [by f_equal|]. by rewrite live_cons.
    + specialize (IH (S n)). destruct (take_waiters (S n) addr q) as [l r]. destruct IH as (H1 & H2 & H3).
      rewrite (filter_cons_False (fun e => waits_on addr e = true)) by congruence.
      rewrite (filter_cons_True (fun e => waits_on addr e = false)) by done. split; [cbn; by f_equal|]. split; [done|].
      rewrite live_cons, H3. done.
  - specialize (IH (S n)). destruct (take_waiters (S n) addr q) as [l r]. destruct IH as (H1 & H2 & H3).
    split; [cbn; by f_equal|]. done.
Qed.

(** [FUTEX_WAKE] takes out exactly the first [n] waiters on the address, in
    slot order, and no other entry; the others stay queued.  The address is the
    only key: a waiter of another process on the same virtual address is woken as
    well. *)
Theorem futex_wake_exact (n : nat) (addr : Z) (q : FutexQueue) :
  let '(woken, q') := take_waiters n addr q in
  woken = take n (tid <$> filter (fun e => waits_on addr e = true) (live q)) /\
  length woken = Nat.min n (length (filter (fun e => waits_on addr e = true) (live q))) /\
  (forall e, e ∈ live q -> uaddr e <> addr -> e ∈ live q') /\
  (forall e, e ∈ live q' -> e ∈ live q).
Proof.
  pose proof (take_waiters_spec n addr q) as H. destruct (take_waiters n addr q) as [l q'].
  destruct H as (_ & -> & Hp). split; [done|]. split; [by rewrite length_take, length_fmap|]. split.
  - intros e He Hne. rewrite Hp, elem_of_app. left. apply list_elem_of_filter. split; [|done]. by apply Z.eqb_neq.
  - intros e. rewrite Hp, elem_of_app. intros [He|He].
    + by apply list_elem_of_filter in He as [_ ?].
    + assert (e ∈ filter (fun e => waits_on addr e = true) (live q)) as Hf.
      { rewrite <-(take_drop n (filter _ _)). apply elem_of_app. by right. }
      by apply list_elem_of_filter in Hf as [_ ?].
Qed.

(** A thread waits at most once. *)
Definition one_wait (q : FutexQueue) : Prop := NoDup (tid <$> live q).

Lemma register_one_wait t addr wake q : one_wait q -> one_wait (register_futex_waiter t addr wake q).2.
Proof.
  intros H. unfold register_futex_waiter. destruct (find_slot (of_thread t) q) as [x|] eqn:Ef; [done|].
  destruct (first_free q) as [i|] eqn:E; [|done]. cbn. unfold one_wait.
  rewrite (live_fill _ _ _ (first_free_Some _ _ E)). cbn. apply list.NoDup_cons. split; [|done].
  intros (e & -> & He)%list_elem_of_fmap. apply elem_of_live in He as [j Hj].
  pose proof (proj1 (find_slot_None _ _) Ef j e Hj) as Hc. unfold of_thread in Hc. by rewrite Z.eqb_refl in Hc.
Qed.
End Futex.
