(* ===== verification/Kernel.v ===== *)
(** Process exit, signals and waiting.

    The state here joins the scheduler and the mailboxes ([IState]), the process
    table, the futex queue and the kernel-stack pool; the operations are those of
    [src/core/syscall/signal.rs], [exit_current_task] and [terminate_thread] of
    [src/core/task/scheduler.rs] in full, and [wait] and [futex] of
    [src/core/syscall/process.rs]. *)

From Stdlib Require Import ZArith Lia.
From stdpp Require Import base list option numbers gmap fin_maps.
From S2P Require Import Prelude Types UserMem Slots Table Thread KStack Scheduler Ipc IpcSyscalls Signal Process Futex.

Local Open Scope Z_scope.

Module Kernel.
Import IpcSyscalls.

Record KS (M : Type) := mkKS {
  ist : IState M;
  procs : Process.ProcessTable;
  futexes : Futex.FutexQueue;
  pool : KStack.KPool;
}.
Arguments mkKS {M} _ _ _ _.
Arguments ist {M} _.
Arguments procs {M} _.
Arguments futexes {M} _.
Arguments pool {M} _.

Definition ETIMEDOUT : Z := 18446744073709551506.
Definition ECHILD : Z := 18446744073709551606.

Section kernel.
Context {M : Type} `{!UserMemory M}.
(** The address of the kernel-stack pool. *)
Context (pool_base : Z).
Implicit Types s : KS M.

Definition threads_of s : Thread.ThreadQueue := Scheduler.queue (ks (ist s)).
Definition current_thread_id s : option Z := Scheduler.current (ks (ist s)).
Definition mem_of s : M := umem (ist s).

Definition set_ks (k : Scheduler.KState) s : KS M :=
  mkKS (mkI k (boxes (ist s)) (umem (ist s))) (procs s) (futexes s) (pool s).
Definition set_mem (m : M) s : KS M := mkKS (mkI (ks (ist s)) (boxes (ist s)) m) (procs s) (futexes s) (pool s).
Definition set_procs (t : Process.ProcessTable) s : KS M := mkKS (ist s) t (futexes s) (pool s).
Definition set_futexes (q : Futex.FutexQueue) s : KS M := mkKS (ist s) (procs s) q (pool s).
Definition set_pool (p : KStack.KPool) s : KS M := mkKS (ist s) (procs s) (futexes s) p.

Definition on_ks (f : Scheduler.KState -> Scheduler.KState) s : KS M := set_ks (f (ks (ist s))) s.

Definition current_pid s : option Z :=
  t ← current_thread_id s; Thread.process_id <$> Thread.get t (threads_of s).

Definition current_privilege s : option Process.PrivilegeLevel :=
  p ← current_pid s; Process.privilege <$> Process.get p (procs s).

Definition is_core s : bool := bool_decide (current_privilege s = Some Process.Core).

Definition caller_can_signal_target (target : Z) s : bool :=
  match current_pid s with
  | None => false
  | Some caller => (caller =? target) || is_core s
  end.

Definition caller_can_broadcast_signal s : bool := is_core s.

(** The first thread of a process, in slot order. *)
Definition first_thread_of (pid : Z) s : option Z :=
  Thread.id <$> List.find (fun t => Thread.process_id t =? pid) (Thread.iter (threads_of s)).

Definition wake_first_thread_of (pid : Z) s : KS M :=
  match first_thread_of pid s with
  | Some tid => on_ks (Scheduler.wake_thread tid) s
  | None => s
  end.

(** [with_process_mut(pid, |p| *p.signal_state_mut() = f(..))] *)
Definition update_signals (pid : Z) (f : Signal.SignalState -> Signal.SignalState) s : KS M :=
  set_procs (Process.with_process_mut pid
    (fun p => (tt, Process.set_signal_state (f (Process.signal_state p)) p)) (procs s)).2 s.

(** ** Delivery *)

Inductive decision := Return (r : Z) | ExitSelf | Post.

(** [deliver_signal_to_pid] between the SIGKILL case and the pending bit. *)
Definition decide_delivery (pid sig : Z) s : decision :=
  if bool_decide (current_pid s = Some pid) then
    match Process.signal_state <$> Process.get pid (procs s) with
    | None => Return ESRCH
    | Some st =>
        let action := Signal.action sig st in
        if negb (Signal.blocked sig st) then
          if Signal.is_ignored action then Return SUCCESS
          else if Signal.is_default action then
            match Signal.default_action sig with Signal.Terminate => ExitSelf | Signal.Ignore => Return SUCCESS end
          else Post
        else Post
    end
  else Post.

Definition post_signal (pid sig : Z) s : KS M :=
  wake_first_thread_of pid (update_signals pid (Signal.set_pending sig) s).

(** [deliver_sigchld_to_parent].  The default action of SIGCHLD is to ignore it,
    so the delivery never ends the caller. *)
Definition deliver_sigchld_to_parent (child : Z) s : KS M :=
  match Process.parent_id <$> Process.get child (procs s) with
  | Some (Some parent) =>
      if bool_decide (is_Some (Process.get parent (procs s))) then
        match decide_delivery parent Signal.SIGCHLD s with
        | Post => post_signal parent Signal.SIGCHLD s
        | _ => s
        end
      else s
  | _ => s
  end.

(** [wake_parent_ipc_waiter]: an empty message to the first thread of the parent. *)
Definition wake_parent_ipc_waiter (exited : Z) s : KS M :=
  match Process.parent_id <$> Process.get exited (procs s) with
  | Some (Some parent) =>
      match first_thread_of parent s with
      | Some tid =>
          let '(_, i) := send_from_kernel tid [] (ist s) in mkKS i (procs s) (futexes s) (pool s)
      | None => s
      end
  | _ => s
  end.

(** Takes a thread out of the queue: its futex wait is cleared and its kernel
    stack returned. *)
Definition reap_thread (tid : Z) s : KS M :=
  let s1 := set_futexes (Futex.clear_futex_waiter tid (futexes s)) s in
  match Thread.remove tid (threads_of s1) with
  | (Some t, q) =>
      set_pool (KStack.free_kernel_stack pool_base (Thread.kernel_stack t) (pool s1)) (on_ks (Scheduler.set_queue q) s1)
  | (None, _) => s1
  end.

Definition has_other_live_threads (pid tid : Z) s : bool :=
  existsb (fun t => (Thread.process_id t =? pid) && negb (Thread.id t =? tid) &&
                    negb (bool_decide (Thread.state t = Thread.Terminated))) (Thread.iter (threads_of s)).

(** The process part of [exit_current_task]. *)
Definition exit_process (tid code : Z) (pid : option Z) s : KS M :=
  match pid with
  | None => s
  | Some p =>
      if has_other_live_threads p tid s then s
      else
        deliver_sigchld_to_parent p
          (wake_parent_ipc_waiter p (set_procs (Process.mark_process_exited p code (procs s)) s))
  end.

Definition exit_current_task (code : Z) s : KS M :=
  match current_thread_id s with
  | None => s
  | Some c =>
      let pid := current_pid s in
      let s1 := on_ks (Scheduler.update c (Thread.set_state Thread.Terminated)) s in
      let s2 := exit_process c code pid s1 in
      let s3 := on_ks (Scheduler.set_current_thread None) s2 in
      match Scheduler.schedule (ks (ist s3)) with
      | (Some next_id, k) => on_ks (Scheduler.switch_to_thread None next_id) (reap_thread c (set_ks k s3))
      | (None, k) => reap_thread c (set_ks k s3)
      end
  end.

(** [terminate_thread] of a thread that is not the current one. *)
Definition terminate_other (tid : Z) s : KS M :=
  reap_thread tid (on_ks (Scheduler.update tid (Thread.set_state Thread.Terminated)) s).

(** [kill_process_immediately]; [true] when the caller itself exits. *)
Definition kill_process_immediately (pid code : Z) s : bool * KS M :=
  if bool_decide (current_pid s = Some pid) then (true, exit_current_task code s)
  else
    let tids := Thread.id <$> filter (fun t => Thread.process_id t = pid) (Thread.iter (threads_of s)) in
    let s1 := foldl (fun s tid => terminate_other tid s) s tids in
    let s2 := set_procs (Process.mark_process_exited pid code (procs s1)) s1 in
    (false, deliver_sigchld_to_parent pid s2).

(** [None]: the call does not return, its thread is gone. *)
Definition deliver_signal_to_pid (pid sig : Z) s : option Z * KS M :=
  if (sig <? 1) || (64 <? sig) then (Some EINVAL, s)
  else if negb (bool_decide (is_Some (Process.get pid (procs s)))) then (Some ESRCH, s)
  else if sig =? Signal.SIGKILL then
    match kill_process_immediately pid sig s with
    | (true, s') => (None, s')
    | (false, s') => (Some SUCCESS, s')
    end
  else
    match decide_delivery pid sig s with
    | Return r => (Some r, s)
    | ExitSelf => (None, exit_current_task sig s)
    | Post => (Some SUCCESS, post_signal pid sig s)
    end.

(** The broadcast loop of [kill(-1, sig)]. *)
Fixpoint broadcast (pids : list Z) (me : option Z) (sig : Z) (found : bool) s : bool * KS M :=
  match pids with
  | [] => (found, s)
  | pid :: pids =>
      if bool_decide (Some pid = me) then broadcast pids me sig found s
      else
        let '(r, s') := deliver_signal_to_pid pid sig s in
        broadcast pids me sig (found || bool_decide (r = Some SUCCESS)) s'
  end.

Definition kill (pid_raw sig : Z) s : option Z * KS M :=
  let target := as_i64 pid_raw in
  if 64 <? sig then (Some EINVAL, s)
  else if sig =? 0 then
    if 0 <? target then
      if negb (bool_decide (is_Some (Process.get target (procs s)))) then (Some ESRCH, s)
      else if negb (caller_can_signal_target target s) then (Some EPERM, s)
      else (Some SUCCESS, s)
    else if target =? -1 then (Some (if caller_can_broadcast_signal s then SUCCESS else EPERM), s)
    else (Some EINVAL, s)
  else if 0 <? target then
    if negb (bool_decide (is_Some (Process.get target (procs s)))) then (Some ESRCH, s)
    else if negb (caller_can_signal_target target s) then (Some EPERM, s)
    else deliver_signal_to_pid target sig s
  else if target =? -1 then
    if negb (caller_can_broadcast_signal s) then (Some EPERM, s)
    else
      let '(found, s') := broadcast (Process.id <$> Process.iter (procs s)) (current_pid s) sig false s in
      (Some (if found then SUCCESS else ESRCH), s')
  else (Some EINVAL, s).

Definition tkill (tid sig : Z) s : option Z * KS M :=
  if 64 <? sig then (Some EINVAL, s)
  else
    match Thread.thread_to_process_id tid (threads_of s) with
    | None => (Some ESRCH, s)
    | Some target =>
        if negb (caller_can_signal_target target s) then (Some EPERM, s)
        else if sig =? 0 then (Some SUCCESS, s)
        else deliver_signal_to_pid target sig s
    end.

Definition tgkill (tgid tid sig : Z) s : option Z * KS M :=
  if 64 <? sig then (Some EINVAL, s)
  else
    match Thread.thread_to_process_id tid (threads_of s) with
    | None => (Some ESRCH, s)
    | Some target =>
        if negb (tgid =? 0) && negb (target =? tgid) then (Some ESRCH, s)
        else if negb (caller_can_signal_target target s) then (Some EPERM, s)
        else if sig =? 0 then (Some SUCCESS, s)
        else deliver_signal_to_pid target sig s
    end.

(** ** Waiting for children *)

Definition WNOHANG : Z := 1.

(** One round of the loop of [wait]: [Some r] when the call returns, [None] when
    it yields and goes round again.  [destroy] is [destroy_user_page_table]. *)
Definition wait_round (destroy : Z -> KS M -> KS M) (me : Z) (target : option Z) (status_ptr options : Z) s :
    option Z * KS M :=
  match Process.reap_zombie_child me target (procs s) with
  | (Some (pid, code, pt), t) =>
      let s1 := set_procs t s in
      let s2 := match pt with Some table => destroy table s1 | None => s1 end in
      if negb (status_ptr =? 0) then
        match write_user_u32 status_ptr (Z.shiftl (Z.land code 255) 8) (mem_of s2) with
        | (Err _, m) => (Some EFAULT, set_mem m s2)
        | (Ok _, m) => (Some pid, set_mem m s2)
        end
      else (Some pid, s2)
  | (None, _) =>
      if negb (Process.has_child me target (procs s)) then (Some ECHILD, s)
      else if negb (Z.land options WNOHANG =? 0) then (Some 0, s)
      else (None, on_ks Scheduler.yield_now s)
  end.

(** The checks before the loop: the caller and the child it waits for. *)
Definition wait_args (pid_raw status_ptr options : Z) s : result (Z * option Z) Z :=
  let pid := as_i64 pid_raw in
  if negb (Z.ldiff options WNOHANG =? 0) then Err EINVAL
  else if (pid <? -1) || (pid =? 0) then Err EINVAL
  else if negb (status_ptr =? 0) && negb (validate_user_ptr (mem_of s) status_ptr 4) then Err EFAULT
  else
    match current_pid s with
    | None => Err ECHILD
    | Some me => Ok (me, if pid =? -1 then None else Some pid)
    end.

(** ** Futexes *)

Definition FUTEX_WAIT : Z := 0.
Definition FUTEX_WAKE : Z := 1.
Definition FUTEX_PRIVATE_FLAG : Z := 128.

(** Marks why the threads wake, and wakes them. *)
Definition wake_all (timed_out : bool) (tids : list Z) s : KS M :=
  foldl (fun s tid => on_ks (Scheduler.wake_thread tid)
                        (on_ks (Scheduler.update tid (Thread.set_futex_timed_out timed_out)) s)) s tids.

(** Called by the timer interrupt. *)
Definition wake_due_futex_waiters (now : Z) s : KS M :=
  let '(tids, q) := Futex.take_due now (futexes s) in wake_all true tids (set_futexes q s).

Definition futex_wake (uaddr val : Z) s : Z * KS M :=
  if uaddr =? 0 then (EFAULT, s)
  else if negb (validate_user_ptr (mem_of s) uaddr 4) then (EFAULT, s)
  else
    let max_wake := Z.to_nat (Z.min val (Z.of_nat Futex.MAX_FUTEX_WAITERS)) in
    if (max_wake =? 0)%nat then (0, s)
    else
      let '(tids, q) := Futex.take_waiters max_wake uaddr (futexes s) in
      (Z.of_nat (length tids), wake_all false tids (set_futexes q s)).

Definition futex_wake_tick (timeout now : Z) : Z :=
  if timeout =? 0 then Futex.NO_TIMEOUT_WAKE_TICK else saturating_add64 now timeout.

(** [FUTEX_WAIT] up to the first yield; [None]: the thread is queued and asleep. *)
Definition futex_wait_start (uaddr val timeout now : Z) s : option Z * KS M :=
  if uaddr =? 0 then (Some EFAULT, s)
  else
    match current_thread_id s with
    | None => (Some ENOSYS, s)
    | Some tid =>
        if negb (validate_user_ptr (mem_of s) uaddr 4) then (Some EFAULT, s)
        else
          let s1 := on_ks (Scheduler.update tid (Thread.set_futex_timed_out false)) s in
          match read_user_u32 (mem_of s1) uaddr with
          | Err _ => (Some EFAULT, s1)
          | Ok v =>
              if negb (v =? val mod 4294967296) then (Some EAGAIN, s1)
              else
                match Futex.register_futex_waiter tid uaddr (futex_wake_tick timeout now) (futexes s1) with
                | (false, _) => (Some EAGAIN, s1)
                | (true, q) =>
                    (None, on_ks Scheduler.yield_now (on_ks (Scheduler.sleep_thread tid) (set_futexes q s1)))
                end
          end
    end.

Definition take_timed_out (tid : Z) s : bool * KS M :=
  let '(r, q) := Thread.with_thread_mut tid Thread.take_futex_timed_out (threads_of s) in
  (default false r, on_ks (Scheduler.set_queue q) s).

(** One iteration of the loop after waking: [Some r] returns [r], [None] yields. *)
Definition futex_wait_round (tid uaddr wake_tick now : Z) s : option Z * KS M :=
  let '(timed_out, s1) := take_timed_out tid s in
  if timed_out then (Some ETIMEDOUT, s1)
  else if negb (Futex.futex_waiter_exists tid uaddr (futexes s1)) then (Some SUCCESS, s1)
  else if negb (wake_tick =? Futex.NO_TIMEOUT_WAKE_TICK) && (wake_tick <=? now) then
    match Futex.remove_futex_waiter_by_tid tid (futexes s1) with
    | (true, q) => (Some ETIMEDOUT, on_ks (Scheduler.update tid (Thread.set_futex_timed_out false)) (set_futexes q s1))
    | (false, _) =>
        let '(timed_out, s2) := take_timed_out tid s1 in
        (Some (if timed_out then ETIMEDOUT else SUCCESS), s2)
    end
  else (None, on_ks Scheduler.yield_now s1).
End kernel.
End Kernel.
