(* ===== verification/SigSyscalls.v ===== *)
(** The signal system calls and signal frames of [src/core/syscall/signal.rs]. *)

From Stdlib Require Import ZArith Lia.
From stdpp Require Import base list option numbers gmap fin_maps.
From S2P Require Import Prelude Types UserMem Slots Table Thread KStack Scheduler Ipc IpcSyscalls Signal Process Futex Kernel.

Local Open Scope Z_scope.

Module SigSyscalls.
Import IpcSyscalls Kernel.

Definition SIG_BLOCK : Z := 0.
Definition SIG_UNBLOCK : Z := 1.
Definition SIG_SETMASK : Z := 2.
Definition UNCATCHABLE_MASK : Z := Z.lor (Signal.sig_bit Signal.SIGKILL) (Signal.sig_bit Signal.SIGSTOP).
Definition SIGACTION_SIZE : Z := 32.

Section syscalls.
Context {M : Type} `{!UserMemory M}.
Context (pool_base : Z).
Implicit Types s : KS M.

Definition sigaction_bytes (a : Signal.SigAction) : list Z :=
  to_le_bytes 8 (Signal.handler a) ++ to_le_bytes 8 (Signal.flags a) ++
  to_le_bytes 8 (Signal.restorer a) ++ to_le_bytes 8 (Signal.act_mask a).

(** Reads a [struct sigaction] of the user; the uncatchable signals are removed
    from its mask. *)
Definition read_sigaction (m : M) (ptr : Z) : result Signal.SigAction Z :=
  match read_user_u64 m ptr with
  | Err e => Err e
  | Ok handler =>
      match read_user_u64 m (ptr + 8) with
      | Err e => Err e
      | Ok flags =>
          match read_user_u64 m (ptr + 16) with
          | Err e => Err e
          | Ok restorer =>
              match read_user_u64 m (ptr + 24) with
              | Err e => Err e
              | Ok mask => Ok (Signal.mkAction handler flags restorer (Signal.andnot mask UNCATCHABLE_MASK))
              end
          end
      end
  end.

Definition rt_sigaction (signum new_act_ptr old_act_ptr : Z) s : Z * KS M :=
  if (signum <? 1) || (64 <? signum) then (EINVAL, s)
  else if negb (new_act_ptr =? 0) && negb (Z.land (Signal.sig_bit signum) UNCATCHABLE_MASK =? 0) then (EINVAL, s)
  else
    match current_pid s with
    | None => (EINVAL, s)
    | Some pid =>
        match
          (if negb (old_act_ptr =? 0) then
             if negb (validate_user_ptr (mem_of s) old_act_ptr SIGACTION_SIZE) then (Err EFAULT, s)
             else
               let old := default Signal.SigAction_default
                            ((fun p => Signal.action signum (Process.signal_state p)) <$> Process.get pid (procs s)) in
               match copy_to_user old_act_ptr (sigaction_bytes old) (mem_of s) with
               | (Ok _, m) => (Ok tt, set_mem m s)
               | (Err _, m) => (Err EFAULT, set_mem m s)
               end
           else (Ok tt, s))
        with
        | (Err e, s1) => (e, s1)
        | (Ok _, s1) =>
            if negb (new_act_ptr =? 0) then
              if negb (validate_user_ptr (mem_of s1) new_act_ptr SIGACTION_SIZE) then (EFAULT, s1)
              else
                match read_sigaction (mem_of s1) new_act_ptr with
                | Err e => (e, s1)
                | Ok action => (SUCCESS, update_signals pid (Signal.set_action signum action) s1)
                end
            else (SUCCESS, s1)
        end
    end.

Definition change_mask (how new_set : Z) (st : Signal.SignalState) : Signal.SignalState :=
  let mask := Signal.mask st in
  if how =? SIG_BLOCK then Signal.set_mask (Z.lor mask new_set) st
  else if how =? SIG_UNBLOCK then Signal.set_mask (Signal.andnot mask new_set) st
  else if how =? SIG_SETMASK then Signal.set_mask new_set st
  else st.

Definition rt_sigprocmask (how set_ptr oldset_ptr : Z) s : Z * KS M :=
  match current_pid s with
  | None => (EINVAL, s)
  | Some pid =>
      match
        (if negb (oldset_ptr =? 0) then
           if negb (validate_user_ptr (mem_of s) oldset_ptr 8) then (Err EFAULT, s)
           else
             let old := default 0 ((fun p => Signal.mask (Process.signal_state p)) <$> Process.get pid (procs s)) in
             match write_user_u64 oldset_ptr old (mem_of s) with
             | (Ok _, m) => (Ok tt, set_mem m s)
             | (Err _, m) => (Err EFAULT, set_mem m s)
             end
         else (Ok tt, s))
      with
      | (Err e, s1) => (e, s1)
      | (Ok _, s1) =>
          if set_ptr =? 0 then (SUCCESS, s1)
          else if negb (validate_user_ptr (mem_of s1) set_ptr 8) then (EFAULT, s1)
          else
            match read_user_u64 (mem_of s1) set_ptr with
            | Err e => (e, s1)
            | Ok v => (SUCCESS, update_signals pid (change_mask how (Signal.andnot v UNCATCHABLE_MASK)) s1)
            end
      end
  end.

(** ** Signal frames

    [kstack] is the saved register area: 20 words, [8] RDI, [14] the call number,
    [15] user RIP, [17] user RFLAGS, [18] user RSP. *)

Definition frame_rsp (user_rsp : Z) : Z :=
  wrapping_sub64 (Z.land (wrapping_sub64 user_rsp 32) (Z.lnot 15)) 8.

Definition frame_bytes (restorer saved_rip saved_rsp saved_rflags : Z) : list Z :=
  to_le_bytes 8 restorer ++ to_le_bytes 8 saved_rip ++ to_le_bytes 8 saved_rsp ++ to_le_bytes 8 saved_rflags.

Definition write_signal_frame (new_rsp restorer saved_rip saved_rsp saved_rflags : Z) s : bool * KS M :=
  if negb (validate_user_ptr (mem_of s) new_rsp 32) then (false, s)
  else
    match copy_to_user new_rsp (frame_bytes restorer saved_rip saved_rsp saved_rflags) (mem_of s) with
    | (Ok _, m) => (true, set_mem m s)
    | (Err _, m) => (false, set_mem m s)
    end.

(** [None]: the process was ended (SIGSEGV). *)
Definition setup_signal_frame (kstack : list Z) (sig : Z) (action : Signal.SigAction) s : option (list Z) * KS M :=
  let user_rip := kstack !!! 15%nat in
  let user_rflags := kstack !!! 17%nat in
  let user_rsp := kstack !!! 18%nat in
  let new_rsp := frame_rsp user_rsp in
  match write_signal_frame new_rsp (Signal.restorer action) user_rip user_rsp user_rflags s with
  | (false, s1) => (None, exit_current_task pool_base 11 s1)
  | (true, s1) =>
      let s2 := match current_pid s1 with
                | Some pid => update_signals pid (fun st => Signal.set_mask (Z.lor (Signal.mask st) (Signal.act_mask action)) st) s1
                | None => s1
                end in
      (Some (<[18%nat := new_rsp]> (<[15%nat := Signal.handler action]> (<[8%nat := sig]> kstack))), s2)
  end.

Definition rt_sigreturn (kstack : list Z) s : option (list Z) * KS M :=
  let user_rsp := kstack !!! 18%nat in
  if negb (validate_user_ptr (mem_of s) user_rsp 24) then (None, exit_current_task pool_base 11 s)
  else
    match read_user_u64 (mem_of s) user_rsp, read_user_u64 (mem_of s) (user_rsp + 8), read_user_u64 (mem_of s) (user_rsp + 16) with
    | Ok saved_rip, Ok saved_rsp, Ok saved_rflags =>
        let s1 := match current_pid s with
                  | Some pid => update_signals pid (Signal.set_mask 0) s
                  | None => s
                  end in
        (Some (<[18%nat := saved_rsp]> (<[17%nat := saved_rflags]> (<[15%nat := saved_rip]> kstack))), s1)
    | _, _, _ => (None, exit_current_task pool_base 11 s)
    end.

Definition RT_SIGRETURN : Z := 15.

(** [signal_and_return]: the value for RAX and the registers, or [None] when the
    process was ended. *)
Definition signal_and_return (kstack : list Z) (syscall_ret : Z) s : option (Z * list Z) * KS M :=
  if kstack !!! 14%nat =? RT_SIGRETURN then
    match rt_sigreturn kstack s with
    | (Some k, s') => (Some (0, k), s')
    | (None, s') => (None, s')
    end
  else
    match current_pid s with
    | None => (Some (syscall_ret, kstack), s)
    | Some pid =>
        match Process.with_process_mut pid (fun p =>
                let '(o, st) := Signal.take_next_deliverable (Process.signal_state p) in (o, Process.set_signal_state st p)) (procs s) with
        | (Some (Some sig), t) =>
            let s1 := set_procs t s in
            let action := default Signal.SigAction_default
                            ((fun p => Signal.action sig (Process.signal_state p)) <$> Process.get pid (procs s1)) in
            if Signal.is_ignored action then (Some (syscall_ret, kstack), s1)
            else if negb (Signal.has_user_handler action) then
              match Signal.default_action sig with
              | Signal.Terminate => (None, exit_current_task pool_base sig s1)
              | Signal.Ignore => (Some (syscall_ret, kstack), s1)
              end
            else
              match setup_signal_frame kstack sig action s1 with
              | (Some k, s2) => (Some (0, k), s2)
              | (None, s2) => (None, s2)
              end
        | (_, t) => (Some (syscall_ret, kstack), set_procs t s)
        end
    end.
End syscalls.
End SigSyscalls.
