(* ===== verification/SignalProps.v ===== *)
(** Properties of process exit, signals and waiting: who may signal whom, the
    signals that cannot be caught or blocked, signal frames, and [wait]. *)

From Stdlib Require Import ZArith Lia.
From stdpp Require Import base list option numbers gmap fin_maps.
From S2P Require Import Prelude Types UserMem Slots Table Thread KStack Scheduler Ipc IpcSyscalls Signal Process Futex Kernel SigSyscalls.

Local Open Scope Z_scope.

Module SignalProps.
Import IpcSyscalls Kernel SigSyscalls.

Section props.
Context {M : Type} `{!UserMemory M}.
Context (pool_base : Z).
Implicit Types s : KS M.

(** ** What the operations do to the process table *)

Lemma procs_wake_first pid s : procs (wake_first_thread_of pid s) = procs s.
Proof. unfold wake_first_thread_of. by destruct (first_thread_of pid s). Qed.

Lemma procs_reap_thread tid s : procs (reap_thread pool_base tid s) = procs s.
Proof. unfold reap_thread. by destruct (Thread.remove _ _) as [[t|] q]. Qed.

Lemma procs_wake_parent pid s : procs (wake_parent_ipc_waiter pid s) = procs s.
Proof.
  unfold wake_parent_ipc_waiter. destruct (Process.parent_id <$> _) as [[parent|]|]; [|done|done].
  destruct (first_thread_of parent s); [|done]. by destruct (send_from_kernel _ _ _).
Qed.

Lemma procs_terminate tids s : procs (foldl (fun s tid => terminate_other pool_base tid s) s tids) = procs s.
Proof. revert s. induction tids as [|t tids IH]; intros s; cbn; [done|]. rewrite IH. unfold terminate_other. by rewrite procs_reap_thread. Qed.

(** An invariant of signal states that pending bits do not break. *)
Context (Q : Signal.SignalState -> Prop) (Hpend : forall sig st, Q st -> Q (Signal.set_pending sig st)).

Definition all_signals (t : Process.ProcessTable) : Prop :=
  Process.table_wf t /\ forall pid p, Process.abs t !! pid = Some p -> Q (Process.signal_state p).

Lemma all_with_process_mut {R} pid (f : Process.Process -> R * Process.Process) t :
  (forall p, Process.id (f p).2 = Process.id p) -> (forall p, Q (Process.signal_state p) -> Q (Process.signal_state (f p).2)) ->
  all_signals t -> all_signals (Process.with_process_mut pid f t).2.
Proof.
  intros Hid Hf [Hw Ha]. pose proof (Process.with_process_mut_spec pid f t Hw Hid) as H.
  destruct (Process.with_process_mut pid f t) as [r t']. destruct H as (_ & Hw' & Hab). split; [done|].
  cbn. intros k p. rewrite Hab. destruct (decide (k = pid)) as [->|Hne].
  - rewrite lookup_alter_eq. intros (p0 & Hp0 & ->)%fmap_Some_1. apply Hf. eauto.
  - rewrite lookup_alter_ne by done. apply Ha.
Qed.

Lemma all_update_signals pid f s : (forall st, Q st -> Q (f st)) -> all_signals (procs s) -> all_signals (procs (update_signals pid f s)).
Proof. intros Hf Ha. unfold update_signals. cbn. apply all_with_process_mut; [done| |done]. intros p. cbn. apply Hf. Qed.

Lemma all_mark_exited pid code t : all_signals t -> all_signals (Process.mark_process_exited pid code t).
Proof. intros Ha. apply all_with_process_mut; [done| |done]. intros p. done. Qed.

Lemma all_post pid sig s : all_signals (procs s) -> all_signals (procs (post_signal pid sig s)).
Proof. intros Ha. unfold post_signal. rewrite procs_wake_first. apply all_update_signals; [apply Hpend|done]. Qed.

Lemma all_sigchld child s : all_signals (procs s) -> all_signals (procs (deliver_sigchld_to_parent child s)).
Proof.
  intros Ha. unfold deliver_sigchld_to_parent. destruct (Process.parent_id <$> _) as [[parent|]|]; [|done|done].
  destruct (bool_decide _); [|done]. destruct (decide_delivery _ _ _); [done|done|]. by apply all_post.
Qed.

Lemma all_exit code s : all_signals (procs s) -> all_signals (procs (exit_current_task pool_base code s)).
Proof.
  intros Ha. unfold exit_current_task. destruct (current_thread_id s) as [c|]; [|done].
  set (s2 := exit_process c code (current_pid s) _).
  assert (all_signals (procs s2)) as H2.
  { unfold s2, exit_process. destruct (current_pid s) as [p|]; [|done]. destruct (has_other_live_threads _ _ _); [done|].
    apply all_sigchld. rewrite procs_wake_parent. by apply all_mark_exited. }
  destruct (Scheduler.schedule _) as [[n|] k].
  - change (all_signals (procs (reap_thread pool_base c (set_ks k (on_ks (Scheduler.set_current_thread None) s2))))).
    by rewrite procs_reap_thread.
  - by rewrite procs_reap_thread.
Qed.

Lemma all_deliver pid sig s : all_signals (procs s) -> all_signals (procs (deliver_signal_to_pid pool_base pid sig s).2).
Proof.
  intros Ha. unfold deliver_signal_to_pid. destruct (_ || _); [done|]. destruct (negb _); [done|].
  destruct (sig =? Signal.SIGKILL).
  - unfold kill_process_immediately. destruct (bool_decide _); cbn; [by apply all_exit|].
    apply all_sigchld. cbn. apply all_mark_exited. by rewrite procs_terminate.
  - destruct (decide_delivery pid sig s); cbn; [done|by apply all_exit|by apply all_post].
Qed.

Lemma all_broadcast pids me sig found s :
  all_signals (procs s) -> all_signals (procs (broadcast pool_base pids me sig found s).2).
Proof.
  revert found s. induction pids as [|p pids IH]; intros found s Ha; cbn [broadcast]; [done|].
  destruct (bool_decide _); [by apply IH|]. pose proof (all_deliver p sig s Ha) as Hd.
  destruct (deliver_signal_to_pid pool_base p sig s) as [r s']. by apply IH.
Qed.

Lemma all_kill pid sig s : all_signals (procs s) -> all_signals (procs (kill pool_base pid sig s).2).
Proof.
  intros Ha. unfold kill. repeat match goal with |- context [if ?b then _ else _] => destruct b; try done end.
  - by apply all_deliver.
  - pose proof (all_broadcast (Process.id <$> Process.iter (procs s)) (current_pid s) sig false s Ha).
    by destruct (broadcast _ _ _ _ _ s).
Qed.

Lemma all_tgkill tg tid sig s : all_signals (procs s) -> all_signals (procs (tgkill pool_base tg tid sig s).2).
Proof.
  intros Ha. unfold tgkill. destruct (64 <? sig); [done|]. destruct (Thread.thread_to_process_id _ _); [|done].
  repeat match goal with |- context [if ?b then _ else _] => destruct b; try done end. by apply all_deliver.
Qed.

Lemma all_tkill tid sig s : all_signals (procs s) -> all_signals (procs (tkill pool_base tid sig s).2).
Proof.
  intros Ha. unfold tkill. destruct (64 <? sig); [done|]. destruct (Thread.thread_to_process_id _ _); [|done].
  repeat match goal with |- context [if ?b then _ else _] => destruct b; try done end. by apply all_deliver.
Qed.
End props.

(** ** Signals that cannot be caught *)

(** Bit [i] of no mask of the state is an uncatchable signal, and the actions of
    SIGKILL and SIGSTOP are the default. *)
Definition uncatchable_ok (st : Signal.SignalState) : Prop :=
  Z.land (Signal.mask st) UNCATCHABLE_MASK = 0 /\
  (forall i a, Signal.actions st !! i = Some a -> Z.land (Signal.act_mask a) UNCATCHABLE_MASK = 0) /\
  Signal.action Signal.SIGKILL st = Signal.SigAction_default /\
  Signal.action Signal.SIGSTOP st = Signal.SigAction_default.

Lemma land_andnot x y : Z.land (Signal.andnot x y) y = 0.
Proof.
  unfold Signal.andnot. apply Z.bits_inj'. intros n Hn. rewrite Z.land_spec, Z.ldiff_spec, Z.bits_0.
  by destruct (Z.testbit x n), (Z.testbit y n).
Qed.

Lemma land_lor_0 x y m : Z.land x m = 0 -> Z.land y m = 0 -> Z.land (Z.lor x y) m = 0.
Proof. intros H1 H2. by rewrite Z.land_lor_distr_l, H1, H2. Qed.

Lemma land_ldiff_0 x y m : Z.land x m = 0 -> Z.land (Signal.andnot x y) m = 0.
Proof.
  intros H. unfold Signal.andnot. apply Z.bits_inj'. intros n Hn.
  apply (f_equal (fun z => Z.testbit z n)) in H. rewrite Z.land_spec, Z.bits_0 in *. rewrite Z.ldiff_spec.
  by destruct (Z.testbit x n), (Z.testbit y n), (Z.testbit m n).
Qed.

Lemma uncatchable_new : uncatchable_ok Signal.new.
Proof.
  split; [done|]. split; [|done]. intros i a Hi. apply lookup_replicate in Hi as [-> _]. done.
Qed.

Lemma uncatchable_mask m st : Z.land m UNCATCHABLE_MASK = 0 -> uncatchable_ok st -> uncatchable_ok (Signal.set_mask m st).
Proof. intros Hm (_ & H2 & H3 & H4). by split. Qed.

Lemma uncatchable_pending sig st : uncatchable_ok st -> uncatchable_ok (Signal.set_pending sig st).
Proof. intros (H1 & H2 & H3 & H4). unfold Signal.set_pending. by destruct (Signal.valid_sig sig). Qed.

Lemma uncatchable_take st : uncatchable_ok st -> uncatchable_ok (Signal.take_next_deliverable st).2.
Proof. intros (H1 & H2 & H3 & H4). unfold Signal.take_next_deliverable. by destruct (_ =? 0). Qed.

Lemma uncatchable_action sig a st :
  Z.land (Signal.sig_bit sig) UNCATCHABLE_MASK = 0 -> Z.land (Signal.act_mask a) UNCATCHABLE_MASK = 0 ->
  uncatchable_ok st -> uncatchable_ok (Signal.set_action sig a st).
Proof.
  intros Hs Ha (H1 & H2 & H3 & H4). unfold Signal.set_action. destruct (Signal.valid_sig sig) eqn:Ev; [|done].
  assert (1 <= sig <= 64) as Hv by (unfold Signal.valid_sig in Ev; lia).
  assert (sig <> Signal.SIGKILL /\ sig <> Signal.SIGSTOP) as [Hk Hst] by (split; intros ->; vm_compute in Hs; discriminate).
  unfold Signal.SIGKILL, Signal.SIGSTOP in *.
  assert (forall k, 1 <= k <= 64 -> k <> sig ->
    nth (Z.to_nat (k - 1)) (<[Z.to_nat (sig - 1):=a]> (Signal.actions st)) Signal.SigAction_default =
    nth (Z.to_nat (k - 1)) (Signal.actions st) Signal.SigAction_default) as Hn.
  { intros k Hk1 Hk2. rewrite !nth_lookup. by rewrite list_lookup_insert_ne by lia. }
  split; [done|]. split; [|split].
  - cbn. intros i b Hb. apply list_lookup_insert_Some in Hb as [(_ & <- & _)|[_ Hb]]; [done|by eapply H2].
  - unfold Signal.action in *. cbn [Signal.actions]. change (Signal.valid_sig Signal.SIGKILL) with true in *. cbv iota in *.
    unfold Signal.SIGKILL in *. rewrite Hn by lia. done.
  - unfold Signal.action in *. cbn [Signal.actions]. change (Signal.valid_sig Signal.SIGSTOP) with true in *. cbv iota in *.
    unfold Signal.SIGSTOP in *. rewrite Hn by lia. done.
Qed.

Lemma uncatchable_change how v st : uncatchable_ok st -> uncatchable_ok (change_mask how (Signal.andnot v UNCATCHABLE_MASK) st).
Proof.
  intros H. pose proof H as (H1 & _). unfold change_mask. destruct (how =? SIG_BLOCK); [|destruct (how =? SIG_UNBLOCK); [|destruct (how =? SIG_SETMASK); [|done]]].
  - apply uncatchable_mask; [|done]. apply land_lor_0; [done|apply land_andnot].
  - apply uncatchable_mask; [|done]. by apply land_ldiff_0.
  - apply uncatchable_mask; [|done]. apply land_andnot.
Qed.

Section system.
Context {M : Type} `{!UserMemory M}.
Context (pool_base : Z).
Implicit Types s : KS M.

Notation all_ok := (all_signals uncatchable_ok).

Lemma ok_sigaction sig np op s : all_ok (procs s) -> all_ok (procs (rt_sigaction sig np op s).2).
Proof.
  intros Ha. unfold rt_sigaction. destruct (_ || _); [done|]. destruct (_ && _) eqn:Eu; [done|].
  destruct (current_pid s) as [pid|]; [|done].
  set (w := if negb (op =? 0) then _ else _).
  assert (procs w.2 = procs s) as Hw.
  { unfold w. by repeat (case_match; simplify_eq). }
  destruct w as [[?|?] s1]; cbn in Hw |- *; [|by rewrite Hw]. destruct (negb (np =? 0)) eqn:Enp; [|cbn; by rewrite Hw].
  destruct (negb (validate_user_ptr _ _ _)); [cbn; by rewrite Hw|].
  destruct (read_sigaction (mem_of s1) np) as [act|err] eqn:Er; cbn [snd]; [|by rewrite Hw].
  apply all_update_signals; [|by rewrite Hw]. intros st. apply uncatchable_action.
  - cbn in Eu. by apply negb_false_iff, Z.eqb_eq in Eu.
  - revert Er. unfold read_sigaction. repeat (case_match; [|done]). intros [= <-]. apply land_andnot.
Qed.

Lemma ok_sigprocmask how sp op s : all_ok (procs s) -> all_ok (procs (rt_sigprocmask how sp op s).2).
Proof.
  intros Ha. unfold rt_sigprocmask. destruct (current_pid s) as [pid|]; [|done].
  set (w := if negb (op =? 0) then _ else _).
  assert (procs w.2 = procs s) as Hw.
  { unfold w. by repeat (case_match; simplify_eq). }
  destruct w as [[?|?] s1]; cbn in Hw |- *; [|by rewrite Hw]. destruct (sp =? 0); [cbn; by rewrite Hw|].
  destruct (negb (validate_user_ptr _ _ _)); [cbn; by rewrite Hw|]. destruct (read_user_u64 (mem_of s1) sp); cbn [snd]; [|by rewrite Hw].
  apply all_update_signals; [|by rewrite Hw]. intros st. apply uncatchable_change.
Qed.

Lemma ok_frame kst sig a s :
  Z.land (Signal.act_mask a) UNCATCHABLE_MASK = 0 -> all_ok (procs s) -> all_ok (procs (setup_signal_frame pool_base kst sig a s).2).
Proof.
  intros Hm Ha. unfold setup_signal_frame.
  assert (forall n r ri rs rf, procs (write_signal_frame n r ri rs rf s).2 = procs s) as Hw.
  { intros. unfold write_signal_frame. destruct (negb _); [done|]. by destruct (copy_to_user _ _ _) as [[?|?] m]. }
  match goal with |- context [write_signal_frame ?n ?r ?ri ?rs ?rf s] => specialize (Hw n r ri rs rf); destruct (write_signal_frame n r ri rs rf s) as [[] s1] end; cbn in Hw |- *.
  - destruct (current_pid s1); [|by rewrite Hw]. apply all_update_signals; [|by rewrite Hw].
    intros st Hst. apply uncatchable_mask; [|done]. apply land_lor_0; [apply Hst|done].
  - apply all_exit; [apply uncatchable_pending|by rewrite Hw].
Qed.

Lemma ok_sigreturn kst s : all_ok (procs s) -> all_ok (procs (rt_sigreturn pool_base kst s).2).
Proof.
  intros Ha. pose proof (all_exit pool_base uncatchable_ok uncatchable_pending 11 s Ha) as He. unfold rt_sigreturn. destruct (negb _); [done|].
  destruct (read_user_u64 _ _); [|done]. destruct (read_user_u64 _ _); [|done]. destruct (read_user_u64 _ _); [|done]. cbn.
  destruct (current_pid s); [|done]. apply all_update_signals; [|done]. intros st. by apply uncatchable_mask.
Qed.

Lemma ok_return kst r s : all_ok (procs s) -> all_ok (procs (signal_and_return pool_base kst r s).2).
Proof.
  intros Ha. unfold signal_and_return. destruct (_ =? RT_SIGRETURN).
  { pose proof (ok_sigreturn kst s Ha). by destruct (rt_sigreturn pool_base kst s) as [[?|] ?]. }
  destruct (current_pid s) as [pid|]; [|done].
  set (f := fun p => let '(o, st) := Signal.take_next_deliverable (Process.signal_state p) in (o, Process.set_signal_state st p)).
  assert (all_ok (Process.with_process_mut pid f (procs s)).2) as Ht.
  { apply all_with_process_mut; [| |done]; intros p; unfold f; pose proof (uncatchable_take (Process.signal_state p)) as Hu;
      destruct (Signal.take_next_deliverable _); done. }
  destruct (Process.with_process_mut pid f (procs s)) as [[[sig|]|] t]; cbn in Ht |- *; try done.
  assert (forall a, a = default Signal.SigAction_default ((fun p => Signal.action sig (Process.signal_state p)) <$> Process.get pid t) ->
    Z.land (Signal.act_mask a) UNCATCHABLE_MASK = 0) as Hact.
  { intros a ->. rewrite Process.process_get_abs by apply Ht. destruct (Process.abs t !! pid) as [p|] eqn:Ep; [|done]. cbn.
    destruct (proj2 Ht pid p Ep) as (_ & H2 & _). unfold Signal.action. destruct (Signal.valid_sig sig); [|done].
    rewrite nth_lookup. destruct (Signal.actions _ !! _) eqn:E; [by eapply H2|done]. }
  specialize (Hact _ eq_refl). set (a := default _ _) in *.
  destruct (Signal.is_ignored a); [done|]. destruct (negb (Signal.has_user_handler a)).
  - destruct (Signal.default_action sig); [|done]. apply (all_exit pool_base _ uncatchable_pending). done.
  - pose proof (ok_frame kst sig a (set_procs t s) Hact Ht) as Hf.
    by destruct (setup_signal_frame pool_base kst sig a (set_procs t s)) as [[?|] ?].
Qed.

(** Everything that touches signal state, with any arguments, and the creation of
    processes; [set_ks] and [set_mem] stand for all that happens in between. *)
Inductive sigstep (s : KS M) : KS M -> Prop :=
  | sg_action a b c : sigstep s (rt_sigaction a b c s).2
  | sg_mask a b c : sigstep s (rt_sigprocmask a b c s).2
  | sg_kill a b : sigstep s (kill pool_base a b s).2
  | sg_tkill a b : sigstep s (tkill pool_base a b s).2
  | sg_tgkill a b c : sigstep s (tgkill pool_base a b c s).2
  | sg_return kst r : sigstep s (signal_and_return pool_base kst r s).2
  | sg_exit c : sigstep s (exit_current_task pool_base c s)
  | sg_create nm priv parent prio next :
      Process.abs (procs s) !! next = None ->
      sigstep s (set_procs (Process.add (Process.new nm priv parent prio next).1 (procs s)).2 s)
  | sg_reap parent target : sigstep s (set_procs (Process.reap_zombie_child parent target (procs s)).2 s)
  | sg_threads k : sigstep s (set_ks k s)
  | sg_memory m : sigstep s (set_mem m s).

Inductive sigreach (s0 : KS M) : KS M -> Prop :=
  | sigreach_refl : sigreach s0 s0
  | sigreach_step s s' : sigreach s0 s -> sigstep s s' -> sigreach s0 s'.

Lemma sigstep_ok s s' : sigstep s s' -> all_ok (procs s) -> all_ok (procs s').
Proof.
  intros [] Ha.
  - by apply ok_sigaction.
  - by apply ok_sigprocmask.
  - apply all_kill; [apply uncatchable_pending|done].
  - apply all_tkill; [apply uncatchable_pending|done].
  - apply all_tgkill; [apply uncatchable_pending|done].
  - by apply ok_return.
  - apply all_exit; [apply uncatchable_pending|done].
  - set (p := (Process.new nm priv parent prio next).1). destruct Ha as [Hw Hall].
    pose proof (Process.add_spec p (procs s) Hw H) as Hadd. destruct (decide _).
    + destruct Hadd as (t' & -> & Hw' & Hab). split; [done|]. cbn. intros pid q. rewrite Hab.
      intros [[_ <-]|[_ Hq]]%lookup_insert_Some; [apply uncatchable_new|by eapply Hall].
    + by rewrite Hadd.
  - destruct Ha as [Hw Hall]. pose proof (Process.reap_spec parent target (procs s) Hw) as Hr.
    destruct (Process.reap_zombie_child parent target (procs s)) as [[[[pid c] pt]|] t']; cbn.
    + destruct Hr as (Hw' & p & _ & _ & _ & _ & Hab). split; [done|]. intros k q. rewrite Hab.
      intros [_ Hq]%lookup_delete_Some. by eapply Hall.
    + destruct Hr as (_ & -> & _). done.
  - done.
  - done.
Qed.

Lemma sigreach_ok s0 s : procs s0 = Process.Table_new -> sigreach s0 s -> all_ok (procs s).
Proof.
  intros H0. induction 1 as [|s s' _ IH Hs]; [|by apply (sigstep_ok s)].
  rewrite H0. split; [apply Process.table_new_wf|]. done.
Qed.


(** A process that is not privileged can only signal itself: if the caller's
    process is not of level Core, [kill], [tkill] and [tgkill] aimed at any other
    process (or at all of them) change nothing at all and return EPERM, ESRCH or
    EINVAL. *)
Theorem kill_needs_privilege (s : KS M) (me pid tid tg sig : Z) :
  current_pid s = Some me -> current_privilege s <> Some Process.Core ->
  let denied (r : option Z * KS M) := r.2 = s /\ (r.1 = Some EPERM \/ r.1 = Some ESRCH \/ r.1 = Some EINVAL) in
  (as_i64 pid <> me -> denied (kill pool_base pid sig s)) /\
  (Thread.thread_to_process_id tid (threads_of s) <> Some me ->
     denied (tkill pool_base tid sig s) /\ denied (tgkill pool_base tg tid sig s)).
Proof.
  intros Hme Hp denied.
  assert (is_core s = false) as Hc by (unfold is_core; by rewrite bool_decide_false).
  assert (forall t, t <> me -> caller_can_signal_target t s = false) as Hcan.
  { intros t Ht. unfold caller_can_signal_target. rewrite Hme, Hc. rewrite (proj2 (Z.eqb_neq me t)); [done|congruence]. }
  unfold denied. split.
  - intros Ht. unfold kill, caller_can_broadcast_signal. rewrite Hc, (Hcan _ Ht). cbn [negb].
    repeat match goal with |- context [if ?b then _ else _] => destruct b end; cbn; auto.
  - intros Ht. unfold tkill, tgkill. destruct (Thread.thread_to_process_id tid (threads_of s)) as [t|].
    + rewrite (Hcan t) by congruence. cbn [negb].
      split; repeat match goal with |- context [if ?b then _ else _] => destruct b end; cbn; auto.
    + split; destruct (64 <? sig); cbn; auto.
Qed.

(** ** Signal frames *)

(** User memory [m] holds the bytes [bs] at [p]. *)
Definition holds (m : M) (p : Z) (bs : list Z) : Prop :=
  forall k n, (k + n <= length bs)%nat -> copy_from_user m (p + Z.of_nat k) n = Ok (take n (drop k bs)).

Lemma holds_u64 m p (l1 l2 : list Z) v :
  is_u64 v -> holds m p (l1 ++ to_le_bytes 8 v ++ l2) -> read_user_u64 m (p + Z.of_nat (length l1)) = Ok v.
Proof.
  intros Hv Hh. unfold read_user_u64, read_user_uint.
  rewrite (Hh (length l1) 8%nat) by (rewrite !length_app, to_le_bytes_length; lia).
  rewrite drop_app_length, take_app_le by (by rewrite to_le_bytes_length).
  rewrite take_ge by (by rewrite to_le_bytes_length). rewrite from_to_le_bytes. f_equal. by apply Z.mod_small.
Qed.

Definition regs_wf (kst : list Z) : Prop := length kst = 20%nat /\ Forall is_u64 kst.

Lemma regs_u64 kst i : regs_wf kst -> (i < 20)%nat -> is_u64 (kst !!! i).
Proof.
  intros [Hl Hf] Hi. rewrite Forall_lookup in Hf. apply (Hf i). apply list_lookup_lookup_total_lt. lia.
Qed.

Lemma setup_frame_written s s1 kst kst1 sig a :
  length kst = 20%nat -> setup_signal_frame pool_base kst sig a s = (Some kst1, s1) ->
  copy_to_user (kst1 !!! 18%nat) (frame_bytes (Signal.restorer a) (kst !!! 15%nat) (kst !!! 18%nat) (kst !!! 17%nat)) (mem_of s)
    = (Ok tt, mem_of s1) /\ kst1 !!! 15%nat = Signal.handler a /\ kst1 !!! 8%nat = sig.
Proof.
  intros Hl. unfold setup_signal_frame, write_signal_frame. destruct (negb (validate_user_ptr _ _ _)); [done|].
  destruct (copy_to_user _ _ _) as [[[]|e] m] eqn:Ec; [|done]. intros [= <- <-].
  rewrite list_lookup_total_insert_eq by (rewrite !length_insert; lia).
  rewrite list_lookup_total_insert_ne, list_lookup_total_insert_eq by (rewrite ?length_insert; lia).
  rewrite !list_lookup_total_insert_ne, list_lookup_total_insert_eq by lia.
  rewrite Ec. split; [|done]. by destruct (current_pid (set_mem m s)).
Qed.

(** C14. A signal frame round-trips: delivering a signal to a user handler writes
    one frame below the user stack pointer and redirects RIP and RDI to the
    handler and the signal number; if that frame is still there when the
    handler has returned to the restorer and the restorer calls [rt_sigreturn],
    then RIP, RFLAGS and RSP are exactly those the signal interrupted.  (The
    signal mask is not restored: it is cleared.) *)
Theorem sigreturn_restores_context (s s1 s2 : KS M) (kst kst1 regs : list Z) (sig : Z) (a : Signal.SigAction) :
  regs_wf kst -> is_u64 (Signal.restorer a) ->
  setup_signal_frame pool_base kst sig a s = (Some kst1, s1) ->
  length regs = 20%nat -> regs !!! 18%nat = kst1 !!! 18%nat + 8 ->
  holds (mem_of s2) (kst1 !!! 18%nat) (frame_bytes (Signal.restorer a) (kst !!! 15%nat) (kst !!! 18%nat) (kst !!! 17%nat)) ->
  validate_user_ptr (mem_of s2) (kst1 !!! 18%nat + 8) 24 = true ->
  copy_to_user (kst1 !!! 18%nat) (frame_bytes (Signal.restorer a) (kst !!! 15%nat) (kst !!! 18%nat) (kst !!! 17%nat)) (mem_of s)
    = (Ok tt, mem_of s1) /\
  kst1 !!! 15%nat = Signal.handler a /\ kst1 !!! 8%nat = sig /\
  exists kst2 s3, rt_sigreturn pool_base regs s2 = (Some kst2, s3) /\
    kst2 !!! 15%nat = kst !!! 15%nat /\ kst2 !!! 17%nat = kst !!! 17%nat /\ kst2 !!! 18%nat = kst !!! 18%nat /\
    (forall pid p, current_pid s2 = Some pid -> Process.table_wf (procs s2) -> Process.get pid (procs s3) = Some p ->
       Signal.mask (Process.signal_state p) = 0).
Proof.
  intros Hk Hr Hset Hl Hrsp Hh Hv.
  pose proof (regs_u64 kst 15 Hk ltac:(lia)) as H15. pose proof (regs_u64 kst 17 Hk ltac:(lia)) as H17.
  pose proof (regs_u64 kst 18 Hk ltac:(lia)) as H18.
  destruct (setup_frame_written s s1 kst kst1 sig a (proj1 Hk) Hset) as (Hw & Hh15 & Hh8).
  split; [done|]. split; [done|]. split; [done|]. clear Hset Hw.
  set (base := kst1 !!! 18%nat) in *. unfold rt_sigreturn. rewrite Hrsp, Hv. cbn [negb].
  unfold frame_bytes in Hh.
  rewrite (holds_u64 (mem_of s2) base (to_le_bytes 8 (Signal.restorer a)) (to_le_bytes 8 (kst !!! 18%nat) ++ to_le_bytes 8 (kst !!! 17%nat)) (kst !!! 15%nat) H15 Hh : read_user_u64 (mem_of s2) (base + 8) = Ok _).
  assert (read_user_u64 (mem_of s2) (base + 8 + 8) = Ok (kst !!! 18%nat)) as ->.
  { replace (base + 8 + 8) with (base + 16) by lia.
    apply (holds_u64 (mem_of s2) base (to_le_bytes 8 (Signal.restorer a) ++ to_le_bytes 8 (kst !!! 15%nat)) (to_le_bytes 8 (kst !!! 17%nat)) _ H18).
    by rewrite <-!app_assoc. }
  assert (read_user_u64 (mem_of s2) (base + 8 + 16) = Ok (kst !!! 17%nat)) as ->.
  { replace (base + 8 + 16) with (base + 24) by lia.
    apply (holds_u64 (mem_of s2) base (to_le_bytes 8 (Signal.restorer a) ++ to_le_bytes 8 (kst !!! 15%nat) ++ to_le_bytes 8 (kst !!! 18%nat)) [] _ H17).
    by rewrite app_nil_r, <-!app_assoc. }
  eexists _, _. split; [reflexivity|].
  split; [|split; [|split]].
  - rewrite !list_lookup_total_insert_ne by lia. apply list_lookup_total_insert_eq. lia.
  - rewrite list_lookup_total_insert_ne by lia. apply list_lookup_total_insert_eq. rewrite length_insert. lia.
  - apply list_lookup_total_insert_eq. rewrite !length_insert. lia.
  - intros pid p Hp Hw. rewrite Hp. unfold update_signals. cbn.
    pose proof (Process.with_process_mut_spec pid (fun p => (tt, Process.set_signal_state (Signal.set_mask 0 (Process.signal_state p)) p)) (procs s2) Hw ltac:(done)) as Hs.
    destruct (Process.with_process_mut pid _ (procs s2)) as [r t]. destruct Hs as (_ & Hw' & Hab).
    cbn. rewrite Process.process_get_abs, Hab, lookup_alter_eq by done. intros (p0 & _ & ->)%fmap_Some_1. done.
Qed.

(** [rt_sigreturn] trusts the frame on the user stack: whatever 64-bit value
    the user has put there becomes RFLAGS of the interrupted context, unfiltered,
    so a user process can raise its I/O privilege level (bits 12 and 13) or clear
    the interrupt flag; RIP is not checked either. *)
Theorem sigreturn_flags_unfiltered (s : KS M) (regs : list Z) (new_rip new_rsp new_flags : Z) :
  length regs = 20%nat -> is_u64 new_rip -> is_u64 new_rsp -> is_u64 new_flags ->
  validate_user_ptr (mem_of s) (regs !!! 18%nat) 24 = true ->
  holds (mem_of s) (regs !!! 18%nat) (to_le_bytes 8 new_rip ++ to_le_bytes 8 new_rsp ++ to_le_bytes 8 new_flags) ->
  exists regs' s', rt_sigreturn pool_base regs s = (Some regs', s') /\
    regs' !!! 15%nat = new_rip /\ regs' !!! 17%nat = new_flags /\ regs' !!! 18%nat = new_rsp.
Proof.
  intros Hl H1 H2 H3 Hv Hh. set (base := regs !!! 18%nat) in *. unfold rt_sigreturn. fold base. rewrite Hv. cbn [negb].
  assert (read_user_u64 (mem_of s) base = Ok new_rip) as ->.
  { rewrite <-(Z.add_0_r base). by apply (holds_u64 (mem_of s) base [] (to_le_bytes 8 new_rsp ++ to_le_bytes 8 new_flags)). }
  assert (read_user_u64 (mem_of s) (base + 8) = Ok new_rsp) as ->.
  { by apply (holds_u64 (mem_of s) base (to_le_bytes 8 new_rip) (to_le_bytes 8 new_flags)). }
  assert (read_user_u64 (mem_of s) (base + 16) = Ok new_flags) as ->.
  { apply (holds_u64 (mem_of s) base (to_le_bytes 8 new_rip ++ to_le_bytes 8 new_rsp) []); [done|].
    by rewrite app_nil_r, <-app_assoc. }
  eexists _, _. split; [reflexivity|]. split; [|split].
  - rewrite !list_lookup_total_insert_ne by lia. apply list_lookup_total_insert_eq. lia.
  - rewrite list_lookup_total_insert_ne by lia. apply list_lookup_total_insert_eq. rewrite length_insert. lia.
  - apply list_lookup_total_insert_eq. rewrite !length_insert. lia.
Qed.

(** ** Waiting *)

(** One round of [wait] does exactly what the children ask for.  If some
    child that matches is a zombie, one such child is taken out of the process
    table, its pid is returned (or EFAULT when the status cannot be written: the
    child is gone all the same) and no other process changes; if none is a zombie
    nothing changes and the result is ECHILD when no child matches at all, 0 under
    WNOHANG, and another round after a yield otherwise. *)
Theorem wait_round_exact (destroy : Z -> KS M -> KS M) (me : Z) (target : option Z) (sp opt : Z) (s : KS M) :
  Process.table_wf (procs s) -> (forall t s', procs (destroy t s') = procs s') ->
  let '(r, s') := wait_round destroy me target sp opt s in
  let zombie pid p := Process.abs (procs s) !! pid = Some p /\ Process.should_reap me target p = true in
  ((exists pid p, zombie pid p) ->
     exists pid p, zombie pid p /\ (r = Some pid \/ r = Some EFAULT) /\ (sp = 0 -> r = Some pid) /\
       Process.abs (procs s') = delete pid (Process.abs (procs s))) /\
  ((~ exists pid p, zombie pid p) ->
     procs s' = procs s /\
     ((~ exists pid p, Process.abs (procs s) !! pid = Some p /\ Process.is_child_match me target p = true) -> r = Some ECHILD /\ s' = s) /\
     ((exists pid p, Process.abs (procs s) !! pid = Some p /\ Process.is_child_match me target p = true) ->
        if Z.land opt WNOHANG =? 0 then r = None /\ s' = on_ks Scheduler.yield_now s else r = Some 0 /\ s' = s)).
Proof.
  intros Hw Hd. unfold wait_round. pose proof (Process.reap_spec me target (procs s) Hw) as Hr.
  destruct (Process.reap_zombie_child me target (procs s)) as [[[[pid code] pt]|] t].
  - destruct Hr as (Hw' & p & Hp & Hs & _ & _ & Hab).
    set (s2 := match pt with Some table => destroy table (set_procs t s) | None => set_procs t s end).
    assert (procs s2 = t) as H2 by (unfold s2; destruct pt; [rewrite Hd|]; done).
    destruct (Z.eqb_spec sp 0) as [->|Hne]; cbn [negb].
    + split; [|intros Hn; destruct Hn; eauto]. intros _. exists pid, p. split; [done|]. split; [by left|]. split; [done|]. by rewrite H2.
    + destruct (write_user_u32 sp _ (mem_of s2)) as [[u|e] m]; (split; [|intros Hn; destruct Hn; eauto]); intros _; exists pid, p;
        (split; [done|]); (split; [auto|]); (split; [done|]); cbn; by rewrite H2.
  - destruct Hr as (_ & _ & Hnone). pose proof (Process.has_child_spec me target (procs s) Hw) as Hc.
    destruct (Process.has_child me target (procs s)); cbn [negb].
    + destruct (proj1 Hc eq_refl) as (pid & p & Hp & Hm).
      destruct (Z.land opt WNOHANG =? 0); cbn [negb]; (split; [intros (k & q & Hq & Hz); rewrite (Hnone k q Hq) in Hz; done|]);
        intros _; (split; [done|]); (split; [intros Hn; destruct Hn; eauto|done]).
    + split; [intros (k & q & Hq & Hz); rewrite (Hnone k q Hq) in Hz; done|]. intros _. split; [done|]. split; [done|].
      intros Hex. apply Hc in Hex. done.
Qed.
End system.

(** ** A concrete system *)

(** Process 10 (level User) with thread 1, which runs; process 11; 10 is the
    parent of 12, a zombie. *)
Definition demo_ks : KS (Z -> Z) :=
  let t := Thread.set_state Thread.Running (Thread.spawned 10 [] 0 0 0 1) in
  let k := Scheduler.mkK (Thread.push t Thread.Queue_new).2 (Some 1) (Scheduler.enable Scheduler.new) in
  let p1 := (Process.new [97] Process.User None 0 10).1 in
  let p2 := (Process.new [98] Process.User None 0 11).1 in
  let p3 := Process.mark_exited 7 (Process.new [99] Process.User (Some 10) 0 12).1 in
  let t0 := (Process.add p3 (Process.add p2 (Process.add p1 Process.Table_new).2).2).2 in
  mkKS (mkI k (replicate Thread.MAX_THREADS Ipc.new) (fun _ => 0)) t0 Futex.empty KStack.boot.

Definition demo_boot : KS (Z -> Z) := set_procs Process.Table_new demo_ks.


Lemma kill_needs_privilege_witness :
  (kill 0 11 9 demo_ks).2 = demo_ks /\ (kill 0 11 9 demo_ks).1 = Some EPERM.
Proof.
  split; [|vm_compute; reflexivity].
  apply (kill_needs_privilege 0 demo_ks 10 11 1 0 9); [vm_compute; reflexivity| |]; vm_compute; discriminate.
Defined.

(** Flat memory holds what was stored in it. *)
Lemma flat_holds (m : Z -> Z) (p : Z) (bs : list Z) : 0 < p -> holds (flat_store m p bs) p bs.
Proof.
  intros Hp k n Hkn. cbn. unfold flat_from. destruct (Z.eqb_spec (p + Z.of_nat k) 0); [lia|]. cbn [andb]. f_equal.
  apply list_eq. intros i. rewrite list_lookup_fmap. destruct (decide (i < n)%nat) as [Hi|Hi].
  - rewrite lookup_seq_lt by done. cbn. rewrite lookup_take_lt, lookup_drop by done.
    destruct (lookup_lt_is_Some_2 bs (k + i)) as [b Hb]; [lia|]. rewrite Hb. f_equal. unfold flat_store.
    rewrite (proj2 (Z.leb_le _ _)), (proj2 (Z.ltb_lt _ _)) by lia. cbn [andb].
    replace (Z.to_nat (p + Z.of_nat k + Z.of_nat i - p)) with (k + i)%nat by lia. by apply list_lookup_total_correct.
  - rewrite lookup_seq_ge by lia. rewrite lookup_take_ge by lia. done.
Qed.

Definition demo_regs (rsp flags : Z) : list Z := replicate 14 0 ++ [15; 4096; 35; flags; rsp; 27].
Definition demo_action : Signal.SigAction := Signal.mkAction 65536 0 69632 0.

Lemma demo_regs_wf : regs_wf (demo_regs 8192 514).
Proof. split; [reflexivity|]. repeat constructor; vm_compute; congruence. Qed.

Lemma sigreturn_restores_context_witness :
  exists kst1 s1 kst2 s3, setup_signal_frame 0 (demo_regs 8192 514) 10 demo_action demo_ks = (Some kst1, s1) /\
    rt_sigreturn 0 (demo_regs (kst1 !!! 18%nat + 8) 0) s1 = (Some kst2, s3) /\
    kst2 !!! 15%nat = 4096 /\ kst2 !!! 17%nat = 514 /\ kst2 !!! 18%nat = 8192.
Proof.
  set (r := setup_signal_frame 0 (demo_regs 8192 514) 10 demo_action demo_ks).
  assert (exists kst1, r.1 = Some kst1 /\ kst1 !!! 18%nat = 8152) as (kst1 & E1 & E2) by (eexists; split; vm_compute; reflexivity).
  assert (r = (Some kst1, r.2)) as E by (rewrite <-E1; apply surjective_pairing).
  assert (mem_of r.2 = flat_store (fun _ => 0) 8152 (frame_bytes 69632 4096 8192 514)) as Em by reflexivity.
  destruct (sigreturn_restores_context 0 demo_ks r.2 r.2 (demo_regs 8192 514) kst1 (demo_regs (kst1 !!! 18%nat + 8) 0) 10 demo_action)
    as (_ & _ & _ & kst2 & s3 & H1 & H2 & H3 & H4 & _);
    [exact demo_regs_wf|vm_compute; split; congruence|exact E|reflexivity|reflexivity| | |].
  - rewrite E2, Em. apply flat_holds. lia.
  - rewrite E2. reflexivity.
  - exists kst1, r.2, kst2, s3. split; [exact E|]. split; [exact H1|]. split; [exact H2|]. split; [exact H3|exact H4].
Defined.

Definition demo_forged : KS (Z -> Z) :=
  set_mem (flat_store (fun _ => 0) 8192 (to_le_bytes 8 4096 ++ to_le_bytes 8 8192 ++ to_le_bytes 8 12800)) demo_ks.

(** IOPL 3, interrupts off. *)
Lemma sigreturn_flags_unfiltered_witness :
  exists regs' s', rt_sigreturn 0 (demo_regs 8192 514) demo_forged = (Some regs', s') /\ regs' !!! 17%nat = 12800.
Proof.
  destruct (sigreturn_flags_unfiltered 0 demo_forged (demo_regs 8192 514) 4096 8192 12800)
    as (regs' & s' & H1 & _ & H3 & _);
    [reflexivity|vm_compute; split; congruence|vm_compute; split; congruence|vm_compute; split; congruence
    |reflexivity|apply flat_holds; reflexivity|].
  exists regs', s'. split; [exact H1|exact H3].
Defined.

Lemma demo_procs_wf : Process.table_wf (procs demo_ks).
Proof.
  split; [reflexivity|reflexivity|]. unfold keys_unique. vm_compute. repeat constructor; set_solver.
Qed.

Lemma wait_round_exact_witness :
  exists pid p, Process.abs (procs demo_ks) !! pid = Some p /\ Process.should_reap 10 None p = true /\
    Process.abs (procs (wait_round (fun _ s => s) 10 None 0 0 demo_ks).2) = delete pid (Process.abs (procs demo_ks)).
Proof.
  pose proof (wait_round_exact (fun _ s => s) 10 None 0 0 demo_ks demo_procs_wf ltac:(reflexivity)) as H.
  destruct (wait_round (fun _ s => s) 10 None 0 0 demo_ks) as [r s']. destruct H as [H _].
  destruct H as (pid & p & [H1 H2] & _ & _ & H3).
  - exists 12. eexists. split; [vm_compute; reflexivity|vm_compute; reflexivity].
  - exists pid, p. split; [exact H1|]. split; [exact H2|exact H3].
Defined.
End SignalProps.
