(* ===== verification/Paths.v ===== *)
(** Paths and the calls that take them: [src/core/syscall/fs.rs].

    Normalisation, resolution against the working directory, and [stat], [chdir],
    [newfstatat], [getcwd], [faccessat], [statfs], [readlinkat].  The messages of
    the file service are a parameter (its protocol is [FsService]); so are the
    metadata a loaded file-system module reports.  The boot images are those of
    [Ext2]. *)

From Stdlib Require Import ZArith Lia.
From stdpp Require Import base list option numbers gmap fin_maps.
From S2P Require Import Prelude Types UserMem Bytes Ext2 FsService Slots Table Thread KStack Scheduler Ipc IpcSyscalls Signal Process Futex Kernel.
Import Bytes.

Local Open Scope Z_scope.

Module Paths.
Import IpcSyscalls Kernel.

Definition SLASH : Z := 47.
Definition DOT : bytes := [46].
Definition DOTDOT : bytes := [46; 46].

(** ** Normalisation *)

(** One segment of the [for seg in path.split('/')] loop; [Vec::pop] of an empty
    vector does nothing. *)
Definition push_segment (parts : list bytes) (seg : bytes) : list bytes :=
  if bool_decide (seg = []) || bool_decide (seg = DOT) then parts
  else if bool_decide (seg = DOTDOT) then removelast parts
  else parts ++ [seg].

Definition normalize_path (path : bytes) : bytes :=
  let parts := foldl push_segment [] (split SLASH path) in
  match parts with
  | [] => [SLASH]
  | _ => SLASH :: join SLASH parts
  end.

(** [format!("{}/{}", base.trim_end_matches('/'), path)] *)
Definition path_under (base path : bytes) : bytes := trim_end SLASH base ++ SLASH :: path.

Definition is_absolute (path : bytes) : bool := starts_with [SLASH] path.

(** [resolve_path], with the working directory of the process ([None] when the
    process does not exist). *)
Definition resolve_path (cwd : option bytes) (path : bytes) : bytes :=
  if is_absolute path then normalize_path path
  else normalize_path (path_under (default [SLASH] cwd) path).

(** ** Modes *)

(** [(mode & 0xF000) == 0x4000] *)
Definition mode_is_directory (mode : Z) : bool := Z.land mode 61440 =? 16384.

Definition mode_for_stat (mode : Z) : Z :=
  let out := if Z.land mode 61440 =? 0 then Z.lor mode 32768 else mode in
  if Z.land out 511 =? 0 then Z.lor out 493 else out.

Definition should_fallback_to_initfs (errno : Z) : bool :=
  (errno =? ESRCH) || (errno =? ENOENT) || (errno =? ENOTDIR) || (errno =? EBADF).

(** The image read back from [Ext2]; its readers are total, so the other
    outcomes do not occur. *)
Definition to_option {A} (m : Ext2.outcome A) : option A := match m with Ext2.Val a => Some a | _ => None end.

Section syscalls.
Context {M : Type} `{!UserMemory M}.
(** The file service: whether it is running, and its answer to a message. *)
Context (service_up : bool) (exchange : bytes -> result bytes Z).
(** A file-system module: whether it is mounted, and what it reports. *)
Context (kmod_mounted : bool) (kmod_metadata : bytes -> option (Z * Z)).
(** The boot images. *)
Context (rootfs initfs : bytes).
Implicit Types s : KS M.

Definition stat_path_via_fs_service : bytes -> result (Z * Z) Z := Client.stat_path_via_fs_service service_up exchange.

Definition kmod_is_directory (path : bytes) : bool :=
  match kmod_metadata path with Some (mode, _) => mode_is_directory mode | None => false end.

Definition fallback_file_metadata (path : bytes) : option (Z * Z) :=
  if kmod_mounted then kmod_metadata path
  else match kmod_metadata path with
       | Some m => Some m
       | None => to_option (Ext2.file_metadata rootfs initfs path)
       end.

Definition fallback_is_directory (path : bytes) : bool :=
  if kmod_mounted then kmod_is_directory path
  else kmod_is_directory path || bool_decide (to_option (Ext2.is_directory rootfs initfs path) = Some true).

(** [read_user_cstring]: at most [max_len] bytes, one access per byte. *)
Fixpoint cstring_loop (m : M) (ptr : Z) (i k : nat) (acc : bytes) : result bytes Z :=
  match k with
  | O => Err EINVAL
  | S k =>
      match checked_add64 ptr (Z.of_nat i) with
      | None => Err EFAULT
      | Some addr =>
          match copy_from_user m addr 1 with
          | Err e => Err e
          | Ok one =>
              let b := default 0 (head one) in
              if b =? 0 then (if utf8 acc then Ok acc else Err EINVAL)
              else cstring_loop m ptr (S i) k (acc ++ [b])
          end
      end
  end.

Definition read_user_cstring (m : M) (ptr : Z) (max_len : nat) : result bytes Z :=
  if (ptr =? 0) || Nat.eqb max_len 0 then Err EINVAL else cstring_loop m ptr 0 max_len [].

Definition read_cstring (m : M) (ptr : Z) : result bytes Z := read_user_cstring m ptr 1024.

(** [Process::cwd]: a directory that is not UTF-8 reads as the root. *)
Definition cwd (p : Process.Process) : bytes := if utf8 (Process.cwd p) then Process.cwd p else [SLASH].
Definition cwd_of (pid : Z) s : option bytes := cwd <$> Process.get pid (procs s).

(** ** [stat] *)

Definition STAT_SIZE : Z := 144.

Definition stat_buf (mode size : Z) : bytes :=
  let buf := replicate 144 0 in
  let buf := put buf 0 (to_le_bytes 8 1) in
  let buf := put buf 8 (to_le_bytes 8 1) in
  let buf := put buf 16 (to_le_bytes 8 1) in
  let buf := put buf 24 (to_le_bytes 4 mode) in
  let buf := put buf 48 (to_le_bytes 8 size) in
  let buf := put buf 56 (to_le_bytes 8 4096) in
  put buf 64 (to_le_bytes 8 ((size + 511) / 512)).

(** The result of the copy is ignored. *)
Definition write_stat_buf (stat_ptr mode size : Z) s : KS M :=
  set_mem (copy_to_user stat_ptr (stat_buf mode size) (mem_of s)).2 s.

(** The service first, the boot images for an answer that allows it. *)
Definition lookup_metadata (path : bytes) : result (Z * Z) Z :=
  match stat_path_via_fs_service path with
  | Ok m => Ok m
  | Err errno =>
      if should_fallback_to_initfs errno then ok_or (fallback_file_metadata path) ENOENT else Err errno
  end.

Definition stat (path_ptr stat_ptr : Z) s : Z * KS M :=
  if (path_ptr =? 0) || (stat_ptr =? 0) then (EINVAL, s)
  else if negb (validate_user_ptr (mem_of s) stat_ptr STAT_SIZE) then (EFAULT, s)
  else
    match current_pid s with
    | None => (EBADF, s)
    | Some pid =>
        match read_cstring (mem_of s) path_ptr with
        | Err e => (e, s)
        | Ok path =>
            match lookup_metadata (resolve_path (cwd_of pid s) path) with
            | Ok (mode, size) => (SUCCESS, write_stat_buf stat_ptr (mode_for_stat mode) size s)
            | Err e => (e, s)
            end
        end
    end.

(** ** The working directory *)

(** The directory test of [chdir]. *)
Definition check_directory (resolved : bytes) : result unit Z :=
  match stat_path_via_fs_service resolved with
  | Ok (mode, _) => if negb (mode_is_directory mode) then Err ENOTDIR else Ok tt
  | Err errno =>
      if should_fallback_to_initfs errno then
        if negb (fallback_is_directory resolved) then Err ENOTDIR else Ok tt
      else Err errno
  end.

Definition chdir (path_ptr : Z) s : Z * KS M :=
  if path_ptr =? 0 then (EINVAL, s)
  else
    match current_pid s with
    | None => (EBADF, s)
    | Some pid =>
        match read_cstring (mem_of s) path_ptr with
        | Err e => (e, s)
        | Ok path =>
            let resolved := resolve_path (cwd_of pid s) path in
            match check_directory resolved with
            | Err e => (e, s)
            | Ok _ => (SUCCESS, set_procs (Process.with_process_mut pid (fun p => (tt, Process.set_cwd resolved p)) (procs s)).2 s)
            end
        end
    end.

Definition getcwd (buf_ptr size : Z) s : Z * KS M :=
  if (buf_ptr =? 0) || (size =? 0) then (EINVAL, s)
  else if negb (validate_user_ptr (mem_of s) buf_ptr size) then (EFAULT, s)
  else
    match current_pid s with
    | None => (EFAULT, s)
    | Some pid =>
        let tmp := match cwd_of pid s with Some c => take 255 c | None => [0] end in
        if size <? blen tmp + 1 then (EINVAL, s)
        else
          let '(r1, m1) := copy_to_user buf_ptr tmp (mem_of s) in
          match r1 with
          | Err _ => (EFAULT, set_mem m1 s)
          | Ok _ =>
              let '(r2, m2) := copy_to_user (buf_ptr + blen tmp) [0] m1 in
              match r2 with
              | Err _ => (EFAULT, set_mem m2 s)
              | Ok _ => (buf_ptr, set_mem m2 s)
              end
          end
    end.

(** ** Other calls with a path *)

Definition AT_FDCWD : Z := -100.

(** The directory of a descriptor for the calls that take one: [fd_dir] is the
    directory path of the descriptor's handle, if it has one. *)
Definition dir_of_fd (dirfd : Z) (fd_dir : option bytes) s : result bytes Z :=
  match current_pid s with
  | None => Err EBADF
  | Some _ => if 256 <=? i64_as_u64 dirfd then Err EBADF else ok_or fd_dir EBADF
  end.

Definition AT_EMPTY_PATH : Z := 4096.

(** [fstat_dirfd] is [fstat(dirfd, stat_ptr)]. *)
Definition newfstatat (dirfd : Z) (fd_dir : option bytes) (fstat_dirfd : KS M -> Z * KS M) (path_ptr stat_ptr flags : Z) s :
    Z * KS M :=
  if negb (Z.land flags AT_EMPTY_PATH =? 0) && negb (dirfd =? AT_FDCWD) then fstat_dirfd s
  else if dirfd =? AT_FDCWD then stat path_ptr stat_ptr s
  else
    match dir_of_fd dirfd fd_dir s with
    | Err e => (e, s)
    | Ok dir_path =>
        match read_cstring (mem_of s) path_ptr with
        | Err e => (e, s)
        | Ok path =>
            let full := if is_absolute path then normalize_path path else normalize_path (path_under dir_path path) in
            match lookup_metadata full with
            | Err e => (e, s)
            | Ok (mode, size) =>
                if negb (validate_user_ptr (mem_of s) stat_ptr STAT_SIZE) then (EFAULT, s)
                else (SUCCESS, write_stat_buf stat_ptr (mode_for_stat mode) size s)
            end
        end
    end.

(** [faccessat]; [fd_dir] is the directory path of the descriptor, if it has
    one. *)
Definition faccessat (dirfd : Z) (fd_dir : option bytes) (path_ptr : Z) s : Z :=
  if path_ptr =? 0 then EINVAL
  else
    match read_cstring (mem_of s) path_ptr with
    | Err e => e
    | Ok path =>
        let resolved :=
          if (dirfd =? AT_FDCWD) || is_absolute path then Ok (normalize_path path)
          else match dir_of_fd dirfd fd_dir s with
               | Err e => Err e
               | Ok d => Ok (normalize_path (path_under d path))
               end in
        match resolved with
        | Err e => e
        | Ok p => match lookup_metadata p with Ok _ => SUCCESS | Err e => e end
        end
    end.

Definition STATFS_SIZE : Z := 120.

Definition statfs_buf : bytes :=
  let buf := replicate 120 0 in
  let buf := put buf 0 (to_le_bytes 8 61267) in
  let buf := put buf 8 (to_le_bytes 8 4096) in
  let buf := put buf 64 (to_le_bytes 8 255) in
  put buf 72 (to_le_bytes 8 4096).

Definition statfs (path_ptr buf_ptr : Z) s : Z * KS M :=
  if (path_ptr =? 0) || (buf_ptr =? 0) then (EINVAL, s)
  else if negb (validate_user_ptr (mem_of s) buf_ptr STATFS_SIZE) then (EFAULT, s)
  else
    match current_pid s with
    | None => (EBADF, s)
    | Some pid =>
        match read_cstring (mem_of s) path_ptr with
        | Err e => (e, s)
        | Ok path =>
            let resolved := resolve_path (cwd_of pid s) path in
            if negb (is_ok (stat_path_via_fs_service resolved)) && bool_decide (fallback_file_metadata resolved = None)
            then (ENOENT, s)
            else
              let '(r, m) := copy_to_user buf_ptr statfs_buf (mem_of s) in
              (match r with Ok _ => SUCCESS | Err e => e end, set_mem m s)
        end
    end.

(** ["/proc/self/exe"] and ["/proc/self/cwd"] *)
Definition PROC_SELF_EXE : bytes := [47; 112; 114; 111; 99; 47; 115; 101; 108; 102; 47; 101; 120; 101].
Definition PROC_SELF_CWD : bytes := [47; 112; 114; 111; 99; 47; 115; 101; 108; 102; 47; 99; 119; 100].

Definition readlinkat (dirfd path_ptr buf_ptr buf_len : Z) s : Z * KS M :=
  if (path_ptr =? 0) || (buf_ptr =? 0) || (buf_len =? 0) then (EINVAL, s)
  else if negb (validate_user_ptr (mem_of s) buf_ptr buf_len) then (EFAULT, s)
  else
    match read_cstring (mem_of s) path_ptr with
    | Err e => (e, s)
    | Ok raw =>
        if negb (is_absolute raw || (dirfd =? AT_FDCWD)) then (EBADF, s)
        else
          let path := normalize_path raw in
          match current_pid s with
          | None => (EBADF, s)
          | Some pid =>
              let target :=
                if bool_decide (path = PROC_SELF_EXE) then
                  match Process.name <$> Process.get pid (procs s) with
                  | Some name => Ok (if is_absolute name then name else SLASH :: name)
                  | None => Err ESRCH
                  end
                else if bool_decide (path = PROC_SELF_CWD) then
                  match cwd_of pid s with Some c => Ok c | None => Err ESRCH end
                else Err ENOENT in
              match target with
              | Err e => (e, s)
              | Ok bs =>
                  let copy_len := Z.min (blen bs) buf_len in
                  let '(r, m) := copy_to_user buf_ptr (take (Z.to_nat copy_len) bs) (mem_of s) in
                  (match r with Ok _ => copy_len | Err e => e end, set_mem m s)
              end
          end
    end.

(** The minimal [unlink]: a path that can be read is accepted. *)
Definition unlink (path_ptr : Z) s : Z :=
  if path_ptr =? 0 then EINVAL
  else match read_cstring (mem_of s) path_ptr with Ok _ => SUCCESS | Err e => e end.
End syscalls.

(** ** Paths as lists of names *)

(** A name that normalisation keeps. *)
Definition seg_ok (w : bytes) : Prop := w <> [] /\ w <> DOT /\ w <> DOTDOT /\ SLASH ∉ w.
#[global] Instance seg_ok_dec w : Decision (seg_ok w).
Proof. unfold seg_ok. apply _. Defined.

Definition render (parts : list bytes) : bytes :=
  match parts with [] => [SLASH] | _ => SLASH :: join SLASH parts end.

(** The directory reached from [base] by the names of a path. *)
Definition walk (base : list bytes) (path : bytes) : list bytes := foldl push_segment base (split SLASH path).

Lemma Forall_removelast {A} (P : A -> Prop) l : Forall P l -> Forall P (removelast l).
Proof. induction 1 as [|x l Hx Hl IH]; [done|]. cbn. destruct l; [done|]. by constructor. Qed.

Lemma push_segment_ok parts w : Forall seg_ok parts -> SLASH ∉ w -> Forall seg_ok (push_segment parts w).
Proof.
  intros Hp Hw. unfold push_segment. repeat case_bool_decide; cbn [orb]; try done.
  - by apply Forall_removelast.
  - apply Forall_app. split; [done|]. by constructor.
Qed.

Lemma walk_ok base path : Forall seg_ok base -> Forall seg_ok (walk base path).
Proof.
  unfold walk. generalize (split_free SLASH path). generalize (split SLASH path). intros ws. revert base.
  induction ws as [|w ws IH]; intros base Hf Hb; [done|].
  apply list.Forall_cons in Hf as [Hw Hws]. cbn. apply IH; [done|]. by apply push_segment_ok.
Qed.

Lemma foldl_push acc parts : Forall seg_ok parts -> foldl push_segment acc parts = acc ++ parts.
Proof.
  intros H. revert acc. induction H as [|w ws (H1 & H2 & H3 & _) _ IH]; intros acc; cbn; [by rewrite app_nil_r|].
  rewrite IH. unfold push_segment. rewrite !bool_decide_false by done. cbn. by rewrite <-app_assoc.
Qed.

Lemma normalize_walk path : normalize_path path = render (walk [] path).
Proof. done. Qed.

Lemma split_render parts : parts <> [] -> Forall seg_ok parts -> split SLASH (render parts) = [] :: parts.
Proof.
  intros Hn Hp. destruct parts as [|w ws]; [done|]. unfold render.
  change (SLASH :: join SLASH (w :: ws)) with ([] ++ SLASH :: join SLASH (w :: ws)). rewrite split_app. cbn [split app].
  f_equal. apply split_join; [done|]. eapply Forall_impl; [exact Hp|]. by intros ? (? & ? & ? & ?).
Qed.

Lemma trim_end_last c s x : x <> c -> trim_end c (s ++ [x]) = s ++ [x].
Proof.
  intros Hx. unfold trim_end. rewrite rev_app_distr. cbn [rev app trim_start].
  destruct (Z.eqb_spec x c); [done|]. cbn [rev]. by rewrite rev_involutive.
Qed.

Lemma join_last ws : ws <> [] -> Forall seg_ok ws -> exists s x, join SLASH ws = s ++ [x] /\ x <> SLASH.
Proof.
  induction ws as [|w ws IH]; [done|]. intros _ [(Hw & _ & _ & Hs) Hws]%list.Forall_cons. destruct ws as [|w2 ws].
  - destruct (exists_last Hw) as (s & x & ->). exists s, x. split; [done|]. intros ->. apply Hs, elem_of_app. right. by left.
  - destruct IH as (s & x & E & Hx); [done..|]. exists (w ++ SLASH :: s), x. split; [|done].
    change (join SLASH (w :: w2 :: ws)) with (w ++ SLASH :: join SLASH (w2 :: ws)). rewrite E. by rewrite <-app_assoc.
Qed.

Lemma walk_under parts path : Forall seg_ok parts -> walk [] (path_under (render parts) path) = walk parts path.
Proof.
  intros Hp. unfold path_under, walk. rewrite split_app, foldl_app. f_equal. destruct (decide (parts = [])) as [->|Hn]; [done|].
  assert (trim_end SLASH (render parts) = render parts) as ->.
  { destruct (join_last parts Hn Hp) as (s & x & E & Hx). unfold render. destruct parts as [|w ws]; [done|]. rewrite E.
    by apply (trim_end_last SLASH (SLASH :: s)). }
  rewrite split_render by done. cbn [foldl]. unfold push_segment at 2. rewrite bool_decide_true by done. cbn [orb].
  by rewrite foldl_push.
Qed.

Lemma walk_render parts : Forall seg_ok parts -> walk [] (render parts) = parts.
Proof.
  intros Hp. destruct (decide (parts = [])) as [->|Hn]; [done|]. unfold walk. rewrite split_render by done.
  cbn [foldl]. unfold push_segment at 2. rewrite bool_decide_true by done. cbn [orb]. by rewrite foldl_push.
Qed.

Definition start_of (base : list bytes) (path : bytes) : list bytes := if is_absolute path then [] else base.

Lemma resolve_walk base path :
  Forall seg_ok base -> resolve_path (Some (render base)) path = render (walk (start_of base path) path).
Proof.
  intros Hb. unfold resolve_path, start_of. destruct (is_absolute path); [done|].
  change (default [SLASH] (Some (render base))) with (render base). by rewrite normalize_walk, walk_under.
Qed.

Lemma start_ok base path : Forall seg_ok base -> Forall seg_ok (start_of base path).
Proof. intros. unfold start_of. destruct (is_absolute path); by try constructor. Qed.

Lemma absolute_app p q : p <> [] -> is_absolute (p ++ q) = is_absolute p.
Proof. destruct p; [done|]. intros _. unfold is_absolute, starts_with. cbn. by rewrite !take_0. Qed.

(** Path resolution is walking a tree of names.  From a working directory
    with the names [base], a relative path leads to the names reached by
    following its segments from [base], an absolute one from the root, where
    "." and empty segments stay, ".." goes up and stays at the root; the result
    has no empty, "." or ".." name and no slash inside a name, is a fixed point
    of normalisation, and resolving [q] from where [p] leads is resolving [p/q]. *)
Theorem path_resolution_walks (base : list bytes) (p q : bytes) :
  Forall seg_ok base -> p <> [] -> is_absolute q = false ->
  let r := walk (start_of base p) p in
  resolve_path (Some (render base)) p = render r /\ Forall seg_ok r /\
  normalize_path (render r) = render r /\
  resolve_path (Some (render r)) q = resolve_path (Some (render base)) (p ++ SLASH :: q).
Proof.
  intros Hb Hp Hq r. assert (Forall seg_ok r) as Hr by by apply walk_ok, start_ok.
  split; [by apply resolve_walk|]. split; [done|]. split; [by rewrite normalize_walk, walk_render|].
  rewrite !resolve_walk by done. f_equal. unfold start_of at 1 2. rewrite Hq, absolute_app by done.
  unfold walk. by rewrite split_app, foldl_app.
Qed.
End Paths.
