(* ===== verification/PathsProps.v ===== *)
(** Theorems on the calls of [Paths]: the working directory, and what the answers
    of the file service do to a lookup. *)

From Stdlib Require Import ZArith Lia.
From stdpp Require Import base list option numbers gmap fin_maps.
From S2P Require Import Prelude Types UserMem Bytes Ext2 Ext2Props FsService Process Kernel SignalProps Paths.
Import Bytes.

Local Open Scope Z_scope.

Module PathsProps.
Import Kernel Paths Ext2Props SignalProps.

Lemma path_resolution_walks_witness :
  let r := walk (start_of [[97]; [98]] [46; 46; 47; 99]) [46; 46; 47; 99] in
  resolve_path (Some (render [[97]; [98]])) [46; 46; 47; 99] = [47; 97; 47; 99] /\
  resolve_path (Some (render r)) [100] = [47; 97; 47; 99; 47; 100].
Proof.
  destruct (path_resolution_walks [[97]; [98]] [46; 46; 47; 99] [100]) as (H1 & _ & _ & H4).
  - apply (bool_decide_unpack _). vm_compute. done.
  - done.
  - reflexivity.
  - cbv zeta in *. rewrite H1, H4. split; vm_compute; reflexivity.
Defined.

Section working_directory.
Context {M : Type} `{!UserMemory M}.
Context (service_up : bool) (exchange : bytes -> result bytes Z) (kmod_mounted : bool)
  (kmod_metadata : bytes -> option (Z * Z)) (rootfs initfs : bytes).
Implicit Types s : KS M.

Lemma cwd_of_set pid pid' r s :
  Process.table_wf (procs s) -> is_Some (Process.get pid (procs s)) ->
  let t := (Process.with_process_mut pid (fun p => (tt, Process.set_cwd r p)) (procs s)).2 in
  cwd_of pid' (set_procs t s) =
    if decide (pid' = pid) then Some (if utf8 (take 255 r) then take 255 r else [SLASH]) else cwd_of pid' s.
Proof.
  intros Hw Hp t. pose proof (Process.with_process_mut_spec pid (fun p => (tt, Process.set_cwd r p)) (procs s) Hw ltac:(done)) as H.
  subst t. destruct (Process.with_process_mut _ _ _) as [x t]. destruct H as (_ & Hw' & Ha). cbn [snd].
  unfold cwd_of. cbn [procs set_procs]. rewrite !Process.process_get_abs by done. rewrite Process.process_get_abs in Hp by done. rewrite Ha.
  destruct (decide (pid' = pid)) as [->|Hne]; [|by rewrite lookup_alter_ne].
  rewrite lookup_alter_eq. by destruct Hp as [p ->].
Qed.

(** [chdir] is exact: the path is resolved from the working directory and
    tested for being a directory; if the test fails its error is the result and
    nothing changes, otherwise the working directory of the caller, and of no
    other process, becomes the resolved path: its first 255 bytes, or the root
    if these end inside a character. *)
Theorem chdir_working_directory (pid path_ptr : Z) (path : bytes) s :
  Process.table_wf (procs s) -> current_pid s = Some pid -> is_Some (Process.get pid (procs s)) ->
  path_ptr <> 0 -> read_cstring (mem_of s) path_ptr = Ok path ->
  let r := resolve_path (cwd_of pid s) path in
  let '(ret, s') := chdir service_up exchange kmod_mounted kmod_metadata rootfs initfs path_ptr s in
  match check_directory service_up exchange kmod_mounted kmod_metadata rootfs initfs r with
  | Err e => ret = e /\ s' = s
  | Ok _ => ret = SUCCESS /\ cwd_of pid s' = Some (if utf8 (take 255 r) then take 255 r else [SLASH]) /\
            (forall other, other <> pid -> cwd_of other s' = cwd_of other s)
  end.
Proof.
  intros Hw Hc Hp Hptr Hread r. unfold chdir. rewrite (proj2 (Z.eqb_neq _ _) Hptr), Hc, Hread. fold r.
  destruct (check_directory _ _ _ _ _ _ r); [|done]. split; [done|].
  split; [rewrite cwd_of_set by done; by rewrite decide_True|]. intros other Ho. rewrite cwd_of_set by done. by rewrite decide_False.
Qed.
End working_directory.

(** User memory with the string [/hi] at address 4096. *)
Definition chdir_ks : KS (Z -> Z) := set_mem (flat_store (fun _ => 0) 4096 [47; 104; 105; 0]) demo_ks.
Definition all_dirs (_ : bytes) : option (Z * Z) := Some (16877, 0).

Lemma chdir_working_directory_witness :
  let s' := (chdir false (fun _ => Err EIO) true all_dirs [] [] 4096 chdir_ks).2 in cwd_of 10 s' = Some [47; 104; 105].
Proof.
  pose proof (chdir_working_directory false (fun _ => Err EIO) true all_dirs [] [] 10 4096 [47; 104; 105] chdir_ks) as H.
  specialize (H demo_procs_wf eq_refl). cbv zeta in *.
  destruct (chdir _ _ _ _ _ _ _ _) as [ret s'].
  assert (read_cstring (mem_of chdir_ks) 4096 = Ok [47; 104; 105]) as Hr by (vm_compute; reflexivity).
  specialize (H ltac:(vm_compute; eauto) ltac:(done) Hr).
  replace (check_directory _ _ _ _ _ _ _) with (@Ok unit Z tt) in H by (vm_compute; reflexivity).
  destruct H as (_ & H & _). cbn [snd]. rewrite H. vm_compute. reflexivity.
Defined.

Lemma encode_ok path :
  path <> [] -> (length path < 512)%nat -> 0 ∉ path ->
  exists p, Client.encode_fs_path path = Ok p /\ length p = Client.FS_PATH_MAX.
Proof.
  intros Hn Hl H0. unfold Client.encode_fs_path, Client.FS_PATH_MAX.
  destruct (Nat.eqb_spec (length path) 0); [destruct path; done|]. destruct (Nat.leb_spec 512 (length path)); [lia|].
  rewrite bool_decide_false by done. eexists. split; [done|]. rewrite length_app, length_replicate. lia.
Qed.

(** The errors of the file service do not come back as errors.  When the
    service answers [-k] (say [-2], ENOENT) the lookup of a path ends with the
    small positive number [k], which no caller takes for an error and which does
    not let the boot images answer instead. *)
Theorem service_error_looks_like_success (exchange : bytes -> result bytes Z) (mounted : bool)
    (kmod : bytes -> option (Z * Z)) (rootfs initfs path : bytes) (k len : Z) (d : bytes) :
  1 <= k <= 4095 -> 0 <= len < 2 ^ 64 -> length d = Client.FS_DATA_MAX ->
  (forall m, exchange m = Ok (Client.response_bytes (Client.mkResp (- k) len d))) ->
  path <> [] -> (length path < 512)%nat -> 0 ∉ path ->
  lookup_metadata true exchange mounted kmod rootfs initfs path = Err k /\ is_errno k = false.
Proof.
  intros Hk Hlen Hd He Hn Hl H0. destruct (encode_ok path Hn Hl H0) as (p & Hp & _).
  destruct (FsService.response_roundtrip (Client.mkResp (- k) len d)) as [Hsz Hrt]; [done|cbn; lia|done|].
  split; [|unfold is_errno; unfold_u64; lia].
  unfold lookup_metadata, stat_path_via_fs_service, Client.stat_path_via_fs_service, Client.path_request, Client.checked, Client.fs_service_request.
  cbn [negb]. rewrite Hp, He, Hsz, Hrt. replace (Nat.ltb Client.RESPONSE_SIZE Client.RESPONSE_SIZE) with false by done.
  cbn [Client.status]. rewrite (proj2 (Z.ltb_lt (- k) 0)) by lia. cbn [Client.mode_and_size].
  replace (wrap64 (- - k)) with k by (unfold_u64; rewrite Z.mod_small; lia).
  unfold should_fallback_to_initfs. replace ((k =? ESRCH) || (k =? ENOENT) || (k =? ENOTDIR) || (k =? EBADF)) with false; [done|].
  symmetry. rewrite !orb_false_iff, !Z.eqb_neq. unfold ESRCH, ENOENT, ENOTDIR, EBADF, i64_as_u64. unfold_u64.
  change (-3 mod 18446744073709551616) with 18446744073709551613. change (-2 mod 18446744073709551616) with 18446744073709551614.
  change (-20 mod 18446744073709551616) with 18446744073709551596. change (-9 mod 18446744073709551616) with 18446744073709551607. lia.
Qed.

Lemma service_error_looks_like_success_witness :
  lookup_metadata true (fun _ => Ok (Client.response_bytes (Client.mkResp (-2) 0 (replicate 4096 0)))) false (fun _ => None)
    demo_image [] [47; 104; 105] = Err 2 /\ is_errno 2 = false.
Proof.
  apply (service_error_looks_like_success _ false (fun _ => None) demo_image [] [47; 104; 105] 2 0 (replicate 4096 0));
    [lia|lia|apply length_replicate|done|done|cbn; lia|].
  apply (bool_decide_unpack _). vm_compute. done.
Defined.

(** The kernel cannot read an answer of the repository's own file service:
    the service sends 144 bytes where the kernel requires 4112, so with the
    service running every lookup ends with EIO, whatever the service, the
    module and the boot images hold. *)
Theorem own_file_service_unreadable {F : Type} `{!Server.FileSystem F} (fs : option F) (hs : Server.Handles)
    (mounted : bool) (kmod : bytes -> option (Z * Z)) (rootfs initfs path : bytes) :
  path <> [] -> (length path < 512)%nat -> 0 ∉ path ->
  lookup_metadata true (FsService.exchange_with fs hs) mounted kmod rootfs initfs path = Err EIO.
Proof.
  intros Hn Hl H0. destruct (encode_ok path Hn Hl H0) as (p & Hp & _).
  unfold lookup_metadata, stat_path_via_fs_service, Client.stat_path_via_fs_service, Client.path_request, Client.checked.
  cbn [negb]. rewrite Hp, FsService.service_request_rejected. reflexivity.
Qed.

(** A file system with one empty file. *)
#[export] Instance empty_fs : Server.FileSystem unit.
Proof.
  refine {| Server.root_inode _ := 2; Server.is_directory _ i := Ok (i =? 2); Server.lookup_name _ _ _ := Ok 3;
            Server.read_at _ _ _ _ := Ok [] |}.
  intros fs ino off n b [= <-]. unfold blen. cbn. lia.
Defined.

Lemma own_file_service_unreadable_witness :
  lookup_metadata true (FsService.exchange_with (Some tt) Server.handles_init) false (fun _ => None) demo_image [] [47; 104; 105] = Err EIO /\
  lookup_metadata false (FsService.exchange_with (Some tt) Server.handles_init) false (fun _ => None) demo_image [] [47; 104; 105] = Ok (33188, 3).
Proof.
  split; [|vm_compute; reflexivity].
  apply own_file_service_unreadable; [done|cbn; lia|].
  apply (bool_decide_unpack _). vm_compute. done.
Defined.
End PathsProps.
