(* ===== verification/Exec.v ===== *)
(** Starting programs: [src/core/syscall/exec.rs].

    The state is the kernel's ([Kernel.KS]) together with physical memory and the
    loader's mapping ([Segment.LMem]), the service manager's process, the
    randomisation counter and the identifier counters.  Operations are state
    transformers; [None] is a panic or an arithmetic overflow.  Images come from
    the boot file systems ([Ext2]), from a file-system module (a parameter: what it
    reads) and from the file service ([FsService.Client]). *)

From Stdlib Require Strings.String.
From Stdlib Require Import ZArith Lia.
From stdpp Require Import base list option numbers gmap fin_maps.
From S2P Require Import Prelude State Types UserMem Bytes Ext2 FsService Mem Frame Paging PageTables Segment UserTable.
From S2P Require Import Slots Table Thread KStack Scheduler Ipc IpcSyscalls Signal Process Futex Kernel Paths Elf ExecStack.
Import Strings.String.StringSyntax.
Import Bytes Sys Result Elf ExecStack Segment IpcSyscalls Kernel.

Local Open Scope Z_scope.
Local Open Scope kernel_scope.

Module Exec.

Definition str (s : String.string) : bytes := (fun c => Z.of_N (Ascii.N_of_ascii c)) <$> String.list_ascii_of_string s.
Arguments str s%_string_scope.

Definition DOT_SERVICE : bytes := str ".service".
Definition DOT_ELF : bytes := str ".elf".
Definition CORE_SERVICE : bytes := str "core.service".
(** The program started without a path. *)
Definition HELLO : bytes := str "/hello.bin".
Definition SINIT : bytes := str "__sinit".
Definition KERNEL_THREAD_STACK_SIZE : Z := 4096 * 32.

Record XS (M : Type) := mkXS {
  kst : KS M;
  lmem : LMem;
  manager : Z;
  aslr : Z;
  next_pid : Z;
  next_tid : Z;
  kmem : Mem.mem;
}.
Arguments mkXS {M} _ _ _ _ _ _ _.
Arguments kst {M} _.
Arguments lmem {M} _.
Arguments manager {M} _.
Arguments aslr {M} _.
Arguments next_pid {M} _.
Arguments next_tid {M} _.
Arguments kmem {M} _.

(** ** Finding [__sinit] *)

(** A read of [n] bytes: [None], a panic, when it leaves the image. *)
Definition u (data : bytes) (off n : Z) : option Z := field data off n.

Record SymTab := mkSym { sym_off : Z; sym_size : Z; sym_entsize : Z; str_off : Z; str_size : Z }.
Definition no_symtab : SymTab := mkSym 0 0 0 0 0.

(** The section headers from [si] on. *)
Fixpoint find_symtab (data : bytes) (shoff shentsz shnum si : Z) (k : nat) : option SymTab :=
  match k with
  | O => Some no_symtab
  | S k =>
      m ← checked_mul64 si shentsz;
      sh_off ← checked_add64 shoff m;
      e ← checked_add64 sh_off shentsz;
      if blen data <? e then Some no_symtab
      else
        sh_type ← u data (sh_off + 4) 4;
        sh_offset ← u data (sh_off + 24) 8;
        sh_size ← u data (sh_off + 32) 8;
        sh_link ← u data (sh_off + 40) 4;
        sh_entsize ← u data (sh_off + 56) 8;
        if sh_type =? 2 then
          if sh_link <? shnum then
            m ← checked_mul64 sh_link shentsz;
            link_sh_off ← checked_add64 shoff m;
            so ← u data (link_sh_off + 24) 8;
            ss ← u data (link_sh_off + 32) 8;
            Some (mkSym sh_offset sh_size sh_entsize so ss)
          else Some (mkSym sh_offset sh_size sh_entsize 0 0)
        else find_symtab data shoff shentsz shnum (si + 1) k
  end.

(** The bytes up to a zero or the end. *)
Fixpoint until_zero (b : bytes) : bytes :=
  match b with
  | [] => []
  | x :: b => if x =? 0 then [] else x :: until_zero b
  end.

Fixpoint find_symbol (data : bytes) (t : SymTab) (i : Z) (k : nat) : option (option Z) :=
  match k with
  | O => Some None
  | S k =>
      m ← checked_mul64 i (sym_entsize t);
      sym_off ← checked_add64 (sym_off t) m;
      e ← checked_add64 sym_off (sym_entsize t);
      if blen data <? e then Some None
      else
        st_name ← u data sym_off 4;
        st_value ← u data (sym_off + 8) 8;
        if st_name <? str_size t then
          name_off ← checked_add64 (str_off t) st_name;
          if (name_off <? blen data) && bool_decide (until_zero (drop (Z.to_nat name_off) data) = SINIT)
          then Some (Some st_value) else find_symbol data t (i + 1) k
        else find_symbol data t (i + 1) k
  end.

(** The rounds are bounded by the image: a symbol that ends outside stops the
    search. *)
Definition find_sinit (data : bytes) (eh : Elf64Ehdr) : option (option Z) :=
  if (0 <? e_shoff eh) && (0 <? e_shentsize eh) && (0 <? e_shnum eh) then
    total ← checked_mul64 (e_shentsize eh) (e_shnum eh);
    sh_end ← checked_add64 (e_shoff eh) total;
    if sh_end <=? blen data then
      t ← find_symtab data (e_shoff eh) (e_shentsize eh) (e_shnum eh) 0 (Z.to_nat (e_shnum eh));
      if (0 <? sym_off t) && (0 <? str_off t) && (0 <? sym_entsize t) then
        find_symbol data t 0 (Z.to_nat (Z.min (sym_size t / sym_entsize t) (blen data + 1)))
      else Some None
    else Some None
  else Some None.

(** Only services have the symbol looked up. *)
Definition sinit_of (data exec_path : bytes) : option (option Z) :=
  if ends_with DOT_SERVICE exec_path
  then match parse_elf_header data with Some eh => find_sinit data eh | None => Some None end
  else Some None.

(** ** Loading the segments *)

Section loading.
(** The direct map, whether the kernel's own table is set, and whether its mapper
    fails for another reason than a mapped page. *)
Context (phys_offset : option Z) (kernel_pt mapper_fails : bool).

Definition map_segment (table vaddr filesz memsz : Z) (src : bytes) (w x : bool) : ST LMem (result unit Kernel) :=
  map_and_copy_segment_to phys_offset kernel_pt mapper_fails table vaddr filesz memsz src w x.

(** [.is_err() => return EINVAL] *)
Definition or_einval {S A E} (m : ST S (result A E)) : ST S (result A Z) :=
  m ≫= fun r => mret (match r with Ok a => Ok a | Err _ => Err EINVAL end).

Definition load_segment (table : Z) (data : bytes) (ph : Elf64Phdr) : ST LMem (result unit Z) :=
  if Paging.USER_SPACE_END <=? p_vaddr ph then mret (Err EINVAL)
  else if (0 <? p_memsz ph) &&
     negb (match checked_add64 (p_vaddr ph) (p_memsz ph) with Some e => e <=? Paging.USER_SPACE_END | None => false end)
  then mret (Err EINVAL)
  else
    match checked_add64 (p_offset ph) (p_filesz ph) with
    | Some src_end =>
        if src_end <=? blen data then
          or_einval (map_segment table (p_vaddr ph) (p_filesz ph) (p_memsz ph)
            (take (Z.to_nat (p_filesz ph)) (drop (Z.to_nat (p_offset ph)) data))
            (negb (Z.land (p_flags ph) 2 =? 0)) (negb (Z.land (p_flags ph) 1 =? 0)))
        else mret (Err EINVAL)
    | None => mret (Err EINVAL)
    end.

(** The program headers from [i] on; the first loaded segment gives the load base. *)
Fixpoint load_segments (table : Z) (data : bytes) (phoff phentsz i : Z) (k : nat) (base : option Z) :
    ST LMem (result (option Z) Z) :=
  match k with
  | O => mret (Ok base)
  | S k =>
      match (m ← checked_mul64 i phentsz; checked_add64 phoff m) with
      | Some off_hdr =>
          if off_hdr <? blen data then
            match parse_phdr data off_hdr with
            | Some ph =>
                if p_type ph =? PT_LOAD then
                  _ ←? load_segment table data ph;
                  load_segments table data phoff phentsz (i + 1) k
                    (Some (default (saturating_sub64 (p_vaddr ph) (p_offset ph)) base))
                else load_segments table data phoff phentsz (i + 1) k base
            | None => load_segments table data phoff phentsz (i + 1) k base
            end
          else mret (Err EINVAL)
      | None => mret (Err EINVAL)
      end
  end.

Record Meta := mkMeta { phdr_vaddr : Z; phentsize : Z; phnum : Z }.

Definition load_elf (table : Z) (data : bytes) : ST LMem (result Meta Z) :=
  match parse_elf_header data with
  | None => mret (Ok (mkMeta 0 0 0))
  | Some eh =>
      if negb (e_machine eh =? EM_X86_64) then mret (Err EINVAL)
      else if e_phentsize eh =? 0 then mret (Err EINVAL)
      else
        base ←? load_segments table data (e_phoff eh) (e_phentsize eh) 0 (Z.to_nat (e_phnum eh)) None;
        mret (Ok (mkMeta (saturating_add64 (default 0 base) (e_phoff eh)) (e_phentsize eh) (e_phnum eh)))
  end.

(** The auxiliary vector, without the closing entry. *)
Definition auxv (m : Meta) (entry : Z) : list (Z * Z) :=
  [(3, phdr_vaddr m); (4, phentsize m); (5, phnum m); (6, 4096); (7, 0); (8, 0); (9, entry); (11, 0); (12, 0); (13, 0);
   (14, 0); (16, 0); (17, 100); (23, 0); (25, 0); (31, 0)].

(** The 31 lower pages and the page with the arguments. *)
Definition map_stack (table : Z) (st : InitialUserStack) : ST LMem (result unit Z) :=
  _ ←? or_einval (map_segment table (stack_base_vaddr st) 0 ((USER_STACK_SIZE_PAGES - 1) * 4096) [] true false);
  or_einval (map_segment table (stack_end_vaddr st - 4096) 4096 4096 (page_data st) true false).

Definition map_initial_tls (table seed : Z) : ST LMem (result Z Z) :=
  let tls_base := tls_base_of seed in
  let tls_data := put (pad INITIAL_TLS_SIZE) 0 (to_le_bytes 8 tls_base) in
  _ ←? or_einval (map_segment table tls_base INITIAL_TLS_SIZE INITIAL_TLS_SIZE tls_data true false);
  mret (Ok tls_base).

(** [movabs rax, sinit; call rax; movabs rax, entry; jmp rax] *)
Definition stub (sinit entry : Z) : bytes :=
  [72; 184] ++ to_le_bytes 8 sinit ++ [255; 208] ++ [72; 184] ++ to_le_bytes 8 entry ++ [255; 224].

(** The entry afterwards: the stub's page, when it could be mapped. *)
Definition map_stub (table stack_end entry : Z) (sinit : option Z) : ST LMem (result Z Z) :=
  match sinit with
  | None => mret (Ok entry)
  | Some f =>
      match checked_add64 stack_end 4096 with
      | None => mret (Err EINVAL)
      | Some stub_addr =>
          map_segment table stub_addr (blen (stub f entry)) 4096 (stub f entry) false true ≫= fun r =>
          mret (Ok (match r with Ok _ => stub_addr | Err _ => entry end))
      end
  end.

Record Image := mkImage { im_stack : InitialUserStack; im_entry : Z; im_heap : bool }.

(** Everything [exec_with_data] maps before it makes the process. *)
Definition load_image (table seed : Z) (data : bytes) (entry : Z) (exec_path : bytes) (argv : list bytes) :
    ST LMem (result Image Z) :=
  m ←? load_elf table data;
  (match sinit_of data exec_path with
   | None => undefined
   | Some sinit =>
       match build_initial_user_stack seed argv [] exec_path (auxv m entry ++ [(0, 0)]) with
       | Err e => mret (Err e)
       | Ok st =>
           _ ←? map_stack table st;
           map_segment table (heap_base_of seed) 0 HEAP_MAP_SIZE [] true false ≫= fun heap =>
           entry' ←? map_stub table (stack_end_vaddr st) entry sinit;
           mret (Ok (mkImage st entry' (match heap with Ok _ => true | Err _ => false end)))
       end
   end).
End loading.

(** ** Making the process *)

(** What is read from outside at an exec: boot entropy, ticks, the hardware
    generator. *)
Record Entropy := mkEntropy { boot_entropy : Z; ticks : Z; hw_random : option Z }.

Definition DESKTOP_APPS : list bytes :=
  [str "/applications/Kagami.app/entry.elf"; str "/applications/ViewKit.app/entry.elf";
   str "/applications/Binder.app/entry.elf"; str "/applications/Dock.app/entry.elf";
   str "applications/Kagami.app/entry.elf"; str "applications/ViewKit.app/entry.elf";
   str "applications/Binder.app/entry.elf"; str "applications/Dock.app/entry.elf"].

Definition is_driver_path (path : bytes) : bool := starts_with (str "bin/drivers/") path || starts_with (str "/bin/drivers/") path.
Definition is_desktop_app (path : bytes) : bool := existsb (fun p => bool_decide (p = path)) DESKTOP_APPS.

(** [path.rsplit('/').next()] *)
Definition base_name (path : bytes) : bytes := List.last (split Paths.SLASH path) [].

Section exec.
Context {M : Type} `{!UserMemory M}.
(** Addresses of the kernel's own code and of the pool of kernel stacks. *)
Context (thread_exit_handler usermode_entry_trampoline pool_base : Z) (unmap_guard_page : Z -> bool).
Context (phys_offset : option Z) (kernel_l4 : Z) (kernel_pt mapper_fails : bool).
(** Where images come from. *)
Context (rootfs initfs : bytes) (kmod_read_all : bytes -> option bytes) (service_up : bool)
  (exchange : bytes -> result bytes Z) (recv : nat -> Z -> result bytes Z).
Implicit Types x : XS M.

Definition set_kst (k : KS M) x : XS M := mkXS k (lmem x) (manager x) (aslr x) (next_pid x) (next_tid x) (kmem x).
Definition set_lmem (l : LMem) x : XS M := mkXS (kst x) l (manager x) (aslr x) (next_pid x) (next_tid x) (kmem x).
Definition set_manager (v : Z) x : XS M := mkXS (kst x) (lmem x) v (aslr x) (next_pid x) (next_tid x) (kmem x).
Definition set_aslr (v : Z) x : XS M := mkXS (kst x) (lmem x) (manager x) v (next_pid x) (next_tid x) (kmem x).
Definition set_next_pid (v : Z) x : XS M := mkXS (kst x) (lmem x) (manager x) (aslr x) v (next_tid x) (kmem x).
Definition set_thread_mem (v : Z) (m : Mem.mem) x : XS M := mkXS (kst x) (lmem x) (manager x) (aslr x) (next_pid x) v m.

Definition on_lm {A} (f : ST LMem A) : ST (XS M) A := fun x =>
  match f (lmem x) with Some (a, l) => Some (a, set_lmem l x) | None => None end.

(** [let _ = destroy_user_page_table(..)] *)
Definition destroy (table : Z) : ST (XS M) unit :=
  on_lm (on_pm (PageTables.destroy_user_page_table phys_offset table)) ≫= fun _ => mret tt.

(** The drop of [UserPageTableGuard] on an early return. *)
Definition guarded {A} (table : Z) (body : ST (XS M) (result A Z)) : ST (XS M) (result A Z) :=
  body ≫= fun r =>
  match r with
  | Ok a => mret (Ok a)
  | Err e => destroy table ≫= fun _ => mret (Err e)
  end.

Definition caller_pid x : option Z := current_pid (kst x).
Definition privilege_of (pid : Z) x : option Process.PrivilegeLevel := Process.privilege <$> Process.get pid (procs (kst x)).

Definition caller_can_launch_service x : bool :=
  match caller_pid x with
  | None => true
  | Some pid =>
      if bool_decide (privilege_of pid x = Some Process.Core) then true
      else if (manager x =? 0) || negb (pid =? manager x) then false
      else
        match Process.get (manager x) (procs (kst x)) with
        | Some p =>
            negb (bool_decide (Process.state p = Process.PZombie)) && negb (bool_decide (Process.state p = Process.PTerminated)) &&
            (bool_decide (Process.privilege p = Process.Service) || bool_decide (Process.privilege p = Process.Core))
        | None => false
        end
  end.

Definition caller_is_service_or_core x : bool :=
  match (pid ← caller_pid x; privilege_of pid x) with
  | Some Process.Core | Some Process.Service => true
  | _ => false
  end.

Definition resolve_exec_privilege (process_name exec_path : bytes) x : Process.PrivilegeLevel :=
  if ends_with DOT_SERVICE process_name || is_desktop_app exec_path || (is_driver_path exec_path && caller_is_service_or_core x)
  then Process.Service else Process.User.

(** The process record, with the parent's working directory. *)
Definition make_process (nm : bytes) (priv : Process.PrivilegeLevel) (parent : option Z) (table seed : Z) (im : Image) x :
    Process.Process * Z :=
  let '(p, next) := Process.new nm priv parent 0 (next_pid x) in
  let p := Process.set_page_table table p in
  let p := Process.set_stack (stack_base_vaddr (im_stack im)) (stack_end_vaddr (im_stack im) + 4096) p in
  let p := match (ppid ← parent; Paths.cwd_of ppid (kst x)) with Some d => Process.set_cwd d p | None => p end in
  let p := if im_heap im then Process.set_heap (heap_base_of seed) (heap_base_of seed + HEAP_MAP_SIZE) p else p in
  (p, next).

(** [SERVICE_MANAGER_PID.compare_exchange] *)
Definition claim_manager (is_core_service : bool) (pid : Z) : ST (XS M) (result unit Z) := fun x =>
  if is_core_service
  then if manager x =? 0 then Some (Ok tt, set_manager pid x) else Some (Err EINVAL, x)
  else Some (Ok tt, x).

Definition register_service_manager_pid (pid : Z) : ST (XS M) unit := smodify (set_manager pid).

Definition release_manager (is_core_service : bool) (pid : Z) : ST (XS M) unit := fun x =>
  Some (tt, if is_core_service && (manager x =? pid) then set_manager 0 x else x).

Definition remove_process (pid : Z) : ST (XS M) unit :=
  smodify (fun x => set_kst (set_procs (Process.remove pid (procs (kst x))).2 (kst x)) x).

Definition add_process (p : Process.Process) : ST (XS M) bool := fun x =>
  let '(r, t) := Process.add p (procs (kst x)) in Some (bool_decide (is_Some r), set_kst (set_procs t (kst x)) x).

Definition allocate_kernel_stack : ST (XS M) (option Z) := fun x =>
  let '(r, p) := KStack.allocate_kernel_stack pool_base unmap_guard_page KERNEL_THREAD_STACK_SIZE (pool (kst x)) in
  Some (r, set_kst (set_pool p (kst x)) x).

Record Started := mkStarted { st_pid : Z; st_kstack : Z; st_fs : Z }.

(** From [Process::new] to [disarm]. *)
Definition register (process_name exec_path : bytes) (parent_override : option Z) (table seed : Z) (im : Image) :
    ST (XS M) (result Started Z) := fun x =>
  let parent := match parent_override with Some p => Some p | None => caller_pid x end in
  let '(proc, next) := make_process process_name (resolve_exec_privilege process_name exec_path x) parent table seed im x in
  let pid := Process.id proc in
  let is_core_service := ends_with CORE_SERVICE process_name in
  (fs ←? on_lm (map_initial_tls phys_offset kernel_pt mapper_fails table seed);
   _ ←? claim_manager is_core_service pid;
   add_process proc ≫= fun added =>
   if negb added then release_manager is_core_service pid ≫= fun _ => mret (Err EINVAL)
   else
     allocate_kernel_stack ≫= fun ks =>
     match ks with
     | Some k => mret (Ok (mkStarted pid k fs))
     | None =>
         remove_process pid ≫= fun _ =>
         release_manager is_core_service pid ≫= fun _ =>
         destroy table ≫= fun _ =>
         mret (Err ENOMEM)
     end) (set_next_pid next x).

(** The thread, and its place in the queue. *)
Definition push_thread (process_name : bytes) (st : Started) (entry rsp : Z) : ST (XS M) bool := fun x =>
  let '(t, m, next) := Thread.new_usermode thread_exit_handler usermode_entry_trampoline (st_pid st) process_name entry rsp (st_kstack st)
    KERNEL_THREAD_STACK_SIZE (kmem x) (next_tid x) in
  let t := Thread.set_fs_base (st_fs st) t in
  let '(r, q) := Thread.push t (threads_of (kst x)) in
  Some (bool_decide (is_Some r), set_kst (on_ks (Scheduler.set_queue q) (kst x)) (set_thread_mem next m x)).

Definition start_thread (process_name : bytes) (table : Z) (im : Image) (st : Started) : ST (XS M) (result Z Z) :=
  push_thread process_name st (im_entry im) (initial_rsp (im_stack im)) ≫= fun added =>
  if negb added then
    remove_process (st_pid st) ≫= fun _ =>
    release_manager (ends_with CORE_SERVICE process_name) (st_pid st) ≫= fun _ =>
    destroy table ≫= fun _ =>
    mret (Err EINVAL)
  else
    smodify (fun x => set_kst (on_ks Scheduler.yield_now (kst x)) x) ≫= fun _ =>
    mret (Ok (st_pid st)).

Definition arguments (process_name exec_path : bytes) (args : list bytes) : list bytes :=
  let bn := base_name exec_path in
  default bn (Process.strip_suffix DOT_ELF bn) :: args.

Definition next_seed (en : Entropy) (tag : bytes) : ST (XS M) Z := fun x =>
  let '(seed, c) := next_aslr_seed (boot_entropy en) (ticks en) (current_thread_id (kst x)) (hw_random en) tag (aslr x) in
  Some (seed, set_aslr c x).

Definition returned (r : result Z Z) : Z := match r with Ok v => v | Err e => e end.

Definition exec_with_data (en : Entropy) (data process_name exec_path : bytes) (args : list bytes) (parent_override : option Z) :
    ST (XS M) Z :=
  next_seed en process_name ≫= fun seed =>
  match entry_point data with
  | Some entry =>
      if entry =? 0 then mret EINVAL
      else
        on_lm (on_pm (UserTable.create_user_page_table phys_offset kernel_l4)) ≫= fun r =>
        match r with
        | Err _ => mret EINVAL
        | Ok table =>
            returned <$>
            (p ←? guarded table
               (im ←? on_lm (load_image phys_offset kernel_pt mapper_fails table seed data entry exec_path
                               (arguments process_name exec_path args));
                st ←? register process_name exec_path parent_override table seed im;
                mret (Ok (im, st)));
             start_thread process_name table p.1 p.2)
        end
  | None => mret EINVAL
  end.

(** ** Arguments from user memory *)

(** The first position of two zero bytes. *)
Fixpoint double_zero (b : bytes) : option nat :=
  match b with
  | x :: (y :: _) as r => if (x =? 0) && (y =? 0) then Some 0%nat else S <$> double_zero r
  | _ => None
  end.

Fixpoint collect_args (parts : list bytes) (max : nat) (out : list bytes) : result (list bytes) Z :=
  match parts with
  | [] => Ok out
  | w :: parts =>
      match w with
      | [] => collect_args parts max out
      | _ =>
          if negb (utf8 w) then Err EINVAL
          else if Nat.leb max (length (out ++ [w])) then Ok (out ++ [w])
          else collect_args parts max (out ++ [w])
      end
  end.

Definition read_nul_args_from_user (m : M) (args_ptr : Z) (max_total_bytes max_args : nat) : result (list bytes) Z :=
  if args_ptr =? 0 then Ok []
  else
    match copy_from_user m args_ptr max_total_bytes with
    | Err e => Err e
    | Ok storage =>
        let storage := match double_zero storage with Some e => take (e + 2) storage | None => storage end in
        collect_args (split 0 storage) max_args []
    end.

(** [read_user_ptr_array]: the rounds from [i] on; an unreadable pointer or string
    ends the list. *)
Fixpoint ptr_array (m : M) (array_ptr : Z) (max : nat) (i : Z) (k : nat) (out : list bytes) : list bytes :=
  match k with
  | O => out
  | S k =>
      match (o ← checked_mul64 i 8; checked_add64 array_ptr o) with
      | None => out
      | Some ptr_addr =>
          if negb (validate_user_ptr m ptr_addr 8) then out
          else
            match read_user_u64 m ptr_addr with
            | Err _ => out
            | Ok entry_ptr =>
                if entry_ptr =? 0 then out
                else
                  match Paths.read_user_cstring m entry_ptr 4096 with
                  | Err _ => out
                  | Ok w => if Nat.leb max (length (out ++ [w])) then out ++ [w] else ptr_array m array_ptr max (i + 1) k (out ++ [w])
                  end
            end
      end
  end.

Definition read_user_ptr_array (m : M) (array_ptr : Z) (max_entries : nat) : list bytes :=
  if array_ptr =? 0 then [] else ptr_array m array_ptr max_entries 0 (S max_entries) [].

(** ** The calls *)

Definition user_mem x : M := mem_of (kst x).

Definition boot_fs_read (path : bytes) : option bytes := Paths.to_option (Ext2.read rootfs initfs path).

(** The name a process gets: that of the file, or "netdrv" for the network driver. *)
Definition process_name_of (path : bytes) (name_override : option bytes) : bytes :=
  let nm := default (base_name path) name_override in
  if bool_decide (nm = str "net") || bool_decide (nm = str "net.elf") || ends_with (str "/bin/drivers/net.elf") path
  then str "netdrv" else nm.

Definition exec_internal (en : Entropy) (path : bytes) (name_override : option bytes) (args : list bytes) : ST (XS M) Z :=
  match boot_fs_read path with
  | Some data => exec_with_data en data (process_name_of path name_override) path args None
  | None =>
      match kmod_read_all path with
      | Some data => exec_with_data en data (process_name_of path name_override) path args None
      | None => mret ENOENT
      end
  end.

(** A service may be started by its manager, the core, or the kernel itself. *)
Definition denied (path : bytes) x : bool := ends_with DOT_SERVICE path && negb (caller_can_launch_service x).

Definition exec_kernel (en : Entropy) (path_ptr args_ptr : Z) : ST (XS M) Z := fun x =>
  match (if path_ptr =? 0 then Ok HELLO else Paths.read_user_cstring (user_mem x) path_ptr 256) with
  | Err _ => Some (EINVAL, x)
  | Ok path =>
      if denied path x then Some (EPERM, x)
      else
        match read_nul_args_from_user (user_mem x) args_ptr 512 64 with
        | Err e => Some (e, x)
        | Ok args => exec_internal en path None args x
        end
  end.

Definition exec_kernel_with_name (en : Entropy) (path name : bytes) : ST (XS M) Z := exec_internal en path (Some name) [].

Definition exec_from_fs_stream (en : Entropy) (path_ptr args_ptr : Z) : ST (XS M) Z := fun x =>
  match Paths.read_user_cstring (user_mem x) path_ptr 256 with
  | Err _ => Some (EINVAL, x)
  | Ok path =>
      if denied path x then Some (EPERM, x)
      else
        match read_nul_args_from_user (user_mem x) args_ptr 512 64 with
        | Err e => Some (e, x)
        | Ok args =>
            match Client.exec_image_via_fs service_up exchange recv path with
            | Ok data => exec_with_data en data path path args None x
            | Err _ =>
                match kmod_read_all path with
                | Some data => exec_with_data en data path path args None x
                | None => Some (ENOENT, x)
                end
            end
        end
  end.

Definition MAX_BUFFER : Z := 32 * 1024 * 1024.

Definition exec_from_buffer_syscall (en : Entropy) (buf_ptr buf_len : Z) : ST (XS M) Z := fun x =>
  if negb (caller_can_launch_service x) then Some (EPERM, x)
  else if (buf_ptr =? 0) || (buf_len =? 0) || (MAX_BUFFER <? buf_len) then Some (EINVAL, x)
  else if negb (validate_user_ptr (user_mem x) buf_ptr buf_len) then Some (EFAULT, x)
  else
    match copy_from_user (user_mem x) buf_ptr (Z.to_nat buf_len) with
    | Err e => Some (e, x)
    | Ok owned => exec_with_data en owned (str "user_exec") (str "user_exec") [] None x
    end.

(** The process that asked for the program, named by one of its threads. *)
Definition requested_parent (requester_tid : Z) x : result (option Z) Z :=
  if requester_tid =? 0 then Ok None
  else
    match caller_pid x with
    | None => Err EPERM
    | Some caller =>
        match Thread.process_id <$> Thread.get requester_tid (threads_of (kst x)) with
        | None => Err EINVAL
        | Some pid =>
            if negb (pid =? caller) && negb (bool_decide (privilege_of caller x = Some Process.Core)) then Err EPERM else Ok (Some pid)
        end
    end.

(** The three calls with a path differ in the arguments and the requester they
    take. *)
Definition exec_from_buffer_named_args_with_requester_syscall (en : Entropy) (buf_ptr buf_len path_ptr args_ptr requester_tid : Z) :
    ST (XS M) Z := fun x =>
  if negb (caller_can_launch_service x) then Some (EPERM, x)
  else if (buf_ptr =? 0) || (buf_len =? 0) || (MAX_BUFFER <? buf_len) || (path_ptr =? 0) then Some (EINVAL, x)
  else if negb (validate_user_ptr (user_mem x) buf_ptr buf_len) then Some (EFAULT, x)
  else
    match Paths.read_user_cstring (user_mem x) path_ptr 256 with
    | Err _ => Some (EINVAL, x)
    | Ok path =>
        match read_nul_args_from_user (user_mem x) args_ptr 512 64 with
        | Err e => Some (e, x)
        | Ok args =>
            match copy_from_user (user_mem x) buf_ptr (Z.to_nat buf_len) with
            | Err e => Some (e, x)
            | Ok owned =>
                match requested_parent requester_tid x with
                | Err e => Some (e, x)
                | Ok parent => exec_with_data en owned (base_name path) path args parent x
                end
            end
        end
    end.

Definition exec_from_buffer_named_args_syscall (en : Entropy) (buf_ptr buf_len path_ptr args_ptr : Z) : ST (XS M) Z :=
  exec_from_buffer_named_args_with_requester_syscall en buf_ptr buf_len path_ptr args_ptr 0.

Definition exec_from_buffer_named_syscall (en : Entropy) (buf_ptr buf_len path_ptr : Z) : ST (XS M) Z :=
  exec_from_buffer_named_args_syscall en buf_ptr buf_len path_ptr 0.
End exec.
End Exec.
