(* ===== verification/ExecProps.v ===== *)
(** Starting a program is all or nothing, and never raises privileges unasked. *)

From Stdlib Require Import ZArith Lia.
From stdpp Require Import base list option numbers gmap fin_maps.
From S2P Require Import Prelude State Types UserMem Bytes Ext2 FsService Mem Frame Paging PageTables Segment UserTable.
From S2P Require Import Slots Table Thread KStack Scheduler Ipc IpcSyscalls Signal Process Futex Kernel SignalProps Paths Elf ExecStack Exec.
Import Bytes Sys Result Elf ExecStack Segment IpcSyscalls Kernel Exec.

Local Open Scope Z_scope.
Local Open Scope kernel_scope.

Module ExecProps.

Lemma try_bind_Some {S A B E} (m : ST S (result A E)) (f : A -> ST S (result B E)) s r s' :
  try_bind m f s = Some (r, s') ->
  (exists e, m s = Some (Err e, s') /\ r = Err e) \/ (exists a s1, m s = Some (Ok a, s1) /\ f a s1 = Some (r, s')).
Proof.
  unfold try_bind. intros (ra & s1 & H1 & H2)%st_bind_Some. destruct ra as [a|e]; [right; eauto|].
  left. injection H2 as <- <-. eauto.
Qed.

Lemma st_fmap_Some {S A B} (f : A -> B) (m : ST S A) s r s' :
  (f <$> m) s = Some (r, s') -> exists a, m s = Some (a, s') /\ r = f a.
Proof. unfold fmap, ST_fmap. destruct (m s) as [[a s1]|]; [|done]. intros [= <- <-]. eauto. Qed.

(** Takes a run apart at its binds. *)
Ltac run H :=
  lazymatch type of H with
  | try_bind _ _ _ = Some (_, _) =>
      let e := fresh "e" in let a := fresh "a" in let s1 := fresh "s1" in let E := fresh "E" in
      apply try_bind_Some in H as [(e & E & ?)|(a & s1 & E & H)]
  | (_ ≫= _) _ = Some _ =>
      let a := fresh "a" in let s1 := fresh "s1" in let E := fresh "E" in
      apply st_bind_Some in H as (a & s1 & E & H)
  end.

(** ** Errors of the loader *)

Section loader.
Context (phys_offset : option Z) (kernel_pt mapper_fails : bool).

Lemma or_einval_err {S A E} (m : ST S (result A E)) s e s' : or_einval m s = Some (Err e, s') -> e = EINVAL.
Proof. intros H. unfold or_einval in H. run H. destruct a; injection H; congruence. Qed.

Lemma load_segment_err t data ph l e l' : load_segment phys_offset kernel_pt mapper_fails t data ph l = Some (Err e, l') -> e = EINVAL.
Proof.
  unfold load_segment. intros H. destruct (_ <=? p_vaddr ph); [injection H; congruence|]. destruct (_ && _); [injection H; congruence|].
  destruct (checked_add64 (p_offset ph) _) as [e'|]; [|injection H; congruence]. destruct (e' <=? _); [|injection H; congruence].
  by apply or_einval_err in H.
Qed.

Lemma load_segments_err t data phoff phentsz i k base l e l' :
  load_segments phys_offset kernel_pt mapper_fails t data phoff phentsz i k base l = Some (Err e, l') -> e = EINVAL.
Proof.
  revert i base l. induction k as [|k IH]; intros i base l H; cbn [load_segments] in H; [injection H; congruence|].
  repeat case_match; try (injection H; congruence); try by apply IH in H.
  run H; [|by apply IH in H]. simplify_eq. by apply load_segment_err in E.
Qed.

Lemma build_err seed argv envp execfn aux e : build_initial_user_stack seed argv envp execfn aux = Err e -> e = EINVAL.
Proof. destruct (build_shape seed argv envp execfn aux) as [_ ->]. case_match; congruence. Qed.

Lemma load_image_err t seed data entry path argv l e l' :
  load_image phys_offset kernel_pt mapper_fails t seed data entry path argv l = Some (Err e, l') -> e = EINVAL.
Proof.
  intros H. unfold load_image in H. run H.
  - simplify_eq. unfold load_elf in E. repeat case_match; try (injection E; congruence).
    run E; [simplify_eq; by apply load_segments_err in E0|injection E; congruence].
  - destruct (sinit_of data path) as [sinit|]; [|done].
    destruct (build_initial_user_stack _ _ _ _ _) eqn:Eb; [|injection H as -> _; by apply build_err in Eb].
    run H.
    + simplify_eq. unfold map_stack in E0. run E0; [simplify_eq; by apply or_einval_err in E1|by apply or_einval_err in E0].
    + run H. run H; [|injection H; congruence]. simplify_eq. unfold map_stub in E2. destruct sinit; [|injection E2; congruence].
      destruct (checked_add64 _ _); [|injection E2; congruence]. run E2. injection E2; congruence.
Qed.

Lemma map_tls_err t seed l e l' : map_initial_tls phys_offset kernel_pt mapper_fails t seed l = Some (Err e, l') -> e = EINVAL.
Proof. intros H. unfold map_initial_tls in H. run H; [simplify_eq; by apply or_einval_err in E|injection H; congruence]. Qed.
End loader.

(** ** Undoing [add_process] *)

Lemma remove_added (p : Process.Process) t r t' :
  (forall q, q ∈ Process.iter t -> Process.id q <> Process.id p) -> Process.add p t = (Some r, t') ->
  (Process.remove (Process.id p) t').2 = t.
Proof.
  intros Hf. unfold Process.add. destruct (_ <=? _)%nat; [done|]. destruct (first_free _) as [i|] eqn:Ei; [|done]. intros [= <- <-].
  pose proof (first_free_Some _ _ Ei) as Hi. pose proof (first_free_lt _ _ Ei) as Hlt.
  unfold Process.remove. cbn [Process.processes Process.count].
  destruct (find_slot _ _) as [[j q]|] eqn:Ef.
  - apply find_slot_Some in Ef as (Hj & Hid & _). cbn [snd].
    assert (j = i) as ->.
    { destruct (decide (j = i)) as [|Hne]; [done|]. rewrite list_lookup_insert_ne in Hj by done. exfalso. apply (Hf q).
      - apply elem_of_live. eauto.
      - unfold by_key in Hid. by apply Z.eqb_eq in Hid. }
    rewrite list_insert_insert_eq, list_insert_id by done. by destruct t.
  - exfalso. rewrite find_slot_None in Ef. specialize (Ef i p).
    rewrite list_lookup_insert_eq in Ef by done. specialize (Ef eq_refl). unfold by_key in Ef. by rewrite Z.eqb_refl in Ef.
Qed.

Section exec.
Context {M : Type} `{!UserMemory M}.
Context (thread_exit_handler usermode_entry_trampoline pool_base : Z) (unmap_guard_page : Z -> bool).
Context (phys_offset : option Z) (kernel_l4 : Z) (kernel_pt mapper_fails : bool).
Implicit Types x : XS M.

(** Nothing but memory and the randomisation counter has changed. *)
Definition same_kernel x x' : Prop :=
  kst x' = kst x /\ manager x' = manager x /\ next_pid x' = next_pid x /\ next_tid x' = next_tid x.

Lemma same_kernel_trans x1 x2 x3 : same_kernel x1 x2 -> same_kernel x2 x3 -> same_kernel x1 x3.
Proof. unfold same_kernel. intros (? & ? & ? & ?) (? & ? & ? & ?). repeat split; congruence. Qed.

Lemma on_lm_same {A} (f : ST LMem A) x a x' : on_lm f x = Some (a, x') -> same_kernel x x' /\ exists l', f (lmem x) = Some (a, l').
Proof. unfold on_lm. destruct (f (lmem x)) as [[b l']|]; [|done]. intros [= -> <-]. split; [done|eauto]. Qed.

Lemma destroy_same t x r x' : destroy phys_offset t x = Some (r, x') -> same_kernel x x'.
Proof. unfold destroy. intros H. run H. apply on_lm_same in E as [Hs _]. by injection H as _ <-. Qed.

(** The tables of processes and threads, the current thread and the manager are as
    before. *)
Definition unchanged x x' : Prop :=
  procs (kst x') = procs (kst x) /\ threads_of (kst x') = threads_of (kst x) /\
  current_thread_id (kst x') = current_thread_id (kst x) /\ manager x' = manager x.

Lemma same_unchanged x x' : same_kernel x x' -> unchanged x x'.
Proof. intros (E & Em & _). unfold unchanged. by rewrite E, Em. Qed.

(** A process was entered, and nothing else of the tables has changed. *)
Record registered x x' (pid : Z) (priv : Process.PrivilegeLevel) (table : Z) (im : Image) : Prop := {
  rg_proc : exists p tb, Process.add p (procs (kst x)) = (Some pid, tb) /\ procs (kst x') = tb /\ Process.id p = pid /\
    Process.privilege p = priv /\ Process.page_table p = Some table /\
    Process.stack_bottom p = stack_base_vaddr (im_stack im) /\ Process.state p = Process.PRunning;
  rg_threads : ks (ist (kst x')) = ks (ist (kst x));
  rg_pid : pid = next_pid x;
  rg_tid : next_tid x' = next_tid x;
}.

Lemma make_process_facts nm priv parent table seed im x p next :
  make_process nm priv parent table seed im x = (p, next) ->
  Process.id p = next_pid x /\ Process.privilege p = priv /\ Process.page_table p = Some table /\
  Process.stack_bottom p = stack_base_vaddr (im_stack im) /\ Process.state p = Process.PRunning.
Proof.
  unfold make_process, Process.new, Process.ProcessId_new. intros [= <- _].
  destruct (ppid ← parent; _), (im_heap im); repeat split.
Qed.

(** The outcome of [register]: an error leaves the tables as they were. *)
Lemma register_outcome nm path parent table seed im x r x' :
  (forall q, q ∈ Process.iter (procs (kst x)) -> Process.id q <> next_pid x) ->
  register pool_base unmap_guard_page phys_offset kernel_pt mapper_fails nm path parent table seed im x = Some (r, x') ->
  match r with
  | Ok st => registered x x' (st_pid st) (resolve_exec_privilege nm path x) table im /\
      manager x' = (if ends_with CORE_SERVICE nm then next_pid x else manager x) /\ (ends_with CORE_SERVICE nm = true -> manager x = 0)
  | Err e => (e = EINVAL \/ e = ENOMEM) /\ unchanged x x'
  end.
Proof.
  intros Hfresh H. unfold register in H. set (par := match parent with Some p => Some p | None => caller_pid x end) in H.
  destruct (make_process nm (resolve_exec_privilege nm path x) par table seed im x) as [p next] eqn:Ep.
  destruct (make_process_facts _ _ _ _ _ _ _ _ _ Ep) as (Pid & Ppriv & Ptab & Pstk & Pst). cbn beta iota in H.
  set (core := ends_with CORE_SERVICE nm) in *. set (x0 := set_next_pid next x) in *.
  run H. { subst r. apply on_lm_same in E as [(Ek & Em & _) (l' & El)]. split; [left; by apply map_tls_err in El|].
           unfold unchanged. by rewrite Ek, Em. }
  apply on_lm_same in E as [(Ek & Em & Epid & Etid) _].
  run H. { subst r. unfold claim_manager in E. destruct core; [|done]. destruct (_ =? 0); [done|]. injection E as <- <-.
           split; [by left|]. unfold unchanged. by rewrite Ek, Em. }
  unfold claim_manager in E.
  assert (kst s0 = kst x /\ next_tid s0 = next_tid x /\ manager s0 = (if core then next_pid x else manager x) /\ (core = true -> manager x = 0)) as (K0 & T0 & M0 & C0).
  { destruct core.
    - destruct (Z.eqb_spec (manager s1) 0) as [Hz|]; [|done]. injection E as _ <-. cbn. rewrite Ek, Etid, Pid. repeat split. intros _. by rewrite <-Hz, Em.
    - injection E as _ <-. by rewrite Ek, Etid, Em. }
  run H. unfold add_process in E0. rewrite K0 in E0. destruct (Process.add p (procs (kst x))) as [ra tb] eqn:Eadd. injection E0 as <- <-.
  assert (forall x2 r2 x3, manager x2 = manager s0 -> release_manager core (Process.id p) x2 = Some (r2, x3) ->
    kst x3 = kst x2 /\ manager x3 = manager x) as Hrel.
  { intros x2 r2 x3 Hm2. unfold release_manager. rewrite Hm2, M0. destruct core; cbn [andb].
    - rewrite Pid, Z.eqb_refl. intros [= _ <-]. cbn. split; [done|]. symmetry. by apply C0.
    - intros [= _ <-]. by rewrite Hm2, M0. }
  destruct ra as [rid|].
  2:{ rewrite bool_decide_false in H by (by intros [? ?]). cbn [negb] in H. run H. injection H as <- <-.
      assert (tb = procs (kst x)) as ->. { unfold Process.add in Eadd. repeat case_match; by injection Eadd. }
      apply Hrel in E0 as [E1 E2]; [|done]. split; [by left|]. unfold unchanged. rewrite E1, E2. cbn. by rewrite ?K0. }
  rewrite bool_decide_true in H by eauto. cbn [negb] in H.
  assert (rid = Process.id p) as ->. { unfold Process.add in Eadd. repeat case_match; by injection Eadd. }
  run H. unfold allocate_kernel_stack in E0. destruct (KStack.allocate_kernel_stack _ _ _ _) as [rk pl] eqn:Ekp. injection E0 as <- <-.
  destruct rk as [k|].
  - injection H as <- <-. cbn [st_pid]. split; [|split; [done|done]]. split; cbn; rewrite ?K0; try done.
    exists p, tb. rewrite Eadd, Pid. done.
  - run H. unfold remove_process, smodify in E0. injection E0 as <- <-. run H. run H. injection H as <- <-.
    apply Hrel in E0 as [E3 E4]; [|done]. apply destroy_same in E1 as (E5 & E6 & _). split; [by right|].
    unfold unchanged. rewrite E5, E6, E3, E4. cbn. rewrite ?K0. split; [|done].
    apply (remove_added p (procs (kst x)) (Process.id p) tb); [|done]. intros q Hq. rewrite Pid. by apply Hfresh.
Qed.

Lemma guarded_outcome {A} t (body : ST (XS M) (result A Z)) x r x' :
  guarded phys_offset t body x = Some (r, x') ->
  exists x1, body x = Some (r, x1) /\ match r with Ok _ => x' = x1 | Err _ => same_kernel x1 x' end.
Proof.
  unfold guarded. intros H. run H. destruct a as [v|e].
  - injection H as <- <-. by exists s1.
  - run H. injection H as <- <-. exists s1. split; [done|]. by apply destroy_same in E0.
Qed.

(** The thread is queued, or the process is taken back. *)
Lemma start_thread_outcome nm table im st x x0 priv r x' :
  registered x0 x (st_pid st) priv table im -> (forall q, q ∈ Process.iter (procs (kst x0)) -> Process.id q <> next_pid x0) ->
  manager x = (if ends_with CORE_SERVICE nm then next_pid x0 else manager x0) -> (ends_with CORE_SERVICE nm = true -> manager x0 = 0) ->
  start_thread thread_exit_handler usermode_entry_trampoline phys_offset nm table im st x = Some (r, x') ->
  match r with
  | Ok pid => pid = next_pid x0 /\ procs (kst x') = procs (kst x) /\ manager x' = manager x /\
      exists t q, Thread.push t (threads_of (kst x0)) = (Some (next_tid x0), q) /\
        threads_of (kst x') = Scheduler.queue (Scheduler.yield_now (Scheduler.set_queue q (ks (ist (kst x0))))) /\
        Thread.process_id t = pid /\ Thread.user_entry t = im_entry im /\ Thread.user_stack t = initial_rsp (im_stack im) /\
        Thread.state t = Thread.Ready
  | Err e => e = EINVAL /\ unchanged x0 x'
  end.
Proof.
  intros [(p & tb & Eadd & Etb & Pid & _) Eks Epid Etid] Hfresh Hm Hc H. unfold start_thread in H. run H.
  unfold push_thread in E. cbn [Thread.new_usermode Thread.ThreadId_new] in E.
  match type of E with context [Thread.push ?t _] => set (th := t) in E end.
  destruct (Thread.push th (threads_of (kst x))) as [rt q] eqn:Epush. injection E as <- <-.
  assert (threads_of (kst x) = threads_of (kst x0)) as Eth by (unfold threads_of; by rewrite Eks).
  destruct rt as [tid|].
  - rewrite bool_decide_true in H by eauto. cbn [negb] in H. run H. unfold smodify in E. injection E as <- <-. injection H as <- <-.
    split; [done|]. split; [done|]. split; [done|]. exists th, q. rewrite <-Eth, <-Etid. split.
    + rewrite Epush. unfold Thread.push in Epush. destruct (_ <=? _)%nat; [done|]. destruct (first_free _); [|done].
      by injection Epush as <- _.
    + split; [|done]. unfold threads_of. cbn. by rewrite Eks.
  - rewrite bool_decide_false in H by (by intros [? ?]). cbn [negb] in H.
    assert (q = threads_of (kst x)) as ->.
    { unfold Thread.push in Epush. destruct (_ <=? _)%nat; [by injection Epush|]. destruct (first_free _); [done|by injection Epush]. }
    run H. unfold remove_process, smodify in E. injection E as <- <-. run H. unfold release_manager in E. injection E as <- <-.
    run H. injection H as <- <-. apply destroy_same in E as (E1 & E2 & _). split; [done|]. unfold unchanged. rewrite E1, E2.
    assert ((Process.remove (st_pid st) (procs (kst x))).2 = procs (kst x0)) as Erem.
    { rewrite Etb, <-Pid. apply (remove_added p _ (st_pid st)); [|exact Eadd]. intros y Hy. rewrite Pid, Epid. by apply Hfresh. }
    rewrite Hm. destruct (ends_with CORE_SERVICE nm) eqn:Ec; cbn [andb].
    + rewrite Epid, Z.eqb_refl. rewrite Epid in Erem. cbn. rewrite Erem, Hc by done. unfold threads_of, current_thread_id. cbn. by rewrite Eks.
    + cbn. rewrite Erem. unfold threads_of, current_thread_id. cbn. by rewrite Eks.
Qed.

(** What a started program is: a process entered in the table with the privilege of
    its name and path and its own address space, and a ready thread that starts at
    the image's entry on the prepared stack. *)
Record started x x' (data nm path : bytes) (args : list bytes) (table : Z) : Prop := {
  so_image : exists im seed entry l l',
    entry_point data = Some entry /\ entry <> 0 /\
    load_image phys_offset kernel_pt mapper_fails table seed data entry path (arguments nm path args) l = Some (Ok im, l') /\
    (exists p, Process.add p (procs (kst x)) = (Some (next_pid x), procs (kst x')) /\ Process.id p = next_pid x /\
       Process.privilege p = resolve_exec_privilege nm path x /\ Process.page_table p = Some table /\
       Process.stack_bottom p = stack_base_vaddr (im_stack im) /\ Process.state p = Process.PRunning) /\
    (exists t q, Thread.push t (threads_of (kst x)) = (Some (next_tid x), q) /\
       threads_of (kst x') = Scheduler.queue (Scheduler.yield_now (Scheduler.set_queue q (ks (ist (kst x))))) /\
       Thread.process_id t = next_pid x /\ Thread.user_entry t = im_entry im /\
       Thread.user_stack t = initial_rsp (im_stack im) /\ Thread.state t = Thread.Ready);
  so_manager : manager x' = (if ends_with CORE_SERVICE nm then next_pid x else manager x);
  so_single : ends_with CORE_SERVICE nm = true -> manager x = 0;
}.

Lemma unchanged_from x x0 x' : same_kernel x x0 -> unchanged x0 x' -> unchanged x x'.
Proof. intros (E & Em & _) (? & ? & ? & ?). unfold unchanged. rewrite <-E, <-Em. done. Qed.

Lemma resolve_same nm path x x0 : same_kernel x x0 -> resolve_exec_privilege nm path x0 = resolve_exec_privilege nm path x.
Proof. intros (E & _). unfold resolve_exec_privilege, caller_is_service_or_core, caller_pid, privilege_of. by rewrite E. Qed.

Lemma next_seed_same en tag x s x' : next_seed en tag x = Some (s, x') -> same_kernel x x'.
Proof. unfold next_seed. destruct (next_aslr_seed _ _ _ _ _ _) as [a b]. by intros [= _ <-]. Qed.

(** What runs under the guard. *)
Lemma guarded_image nm path args parent table seed data entry x r x' :
  (forall q, q ∈ Process.iter (procs (kst x)) -> Process.id q <> next_pid x) ->
  guarded phys_offset table
    (im ←? on_lm (load_image phys_offset kernel_pt mapper_fails table seed data entry path (arguments nm path args));
     st ←? register pool_base unmap_guard_page phys_offset kernel_pt mapper_fails nm path parent table seed im;
     mret (Ok (im, st))) x = Some (r, x') ->
  match r with
  | Ok (im, st) => registered x x' (st_pid st) (resolve_exec_privilege nm path x) table im /\
      manager x' = (if ends_with CORE_SERVICE nm then next_pid x else manager x) /\ (ends_with CORE_SERVICE nm = true -> manager x = 0) /\
      exists l l', load_image phys_offset kernel_pt mapper_fails table seed data entry path (arguments nm path args) l = Some (Ok im, l')
  | Err e => (e = EINVAL \/ e = ENOMEM) /\ unchanged x x'
  end.
Proof.
  intros Hf (x1 & H & Hd)%guarded_outcome. run H.
  { subst r. apply on_lm_same in E as [Hs (l' & El)]. split; [left; by apply load_image_err in El|].
    apply same_unchanged. by eapply same_kernel_trans. }
  apply on_lm_same in E as [Hs (l' & El)]. pose proof Hs as (Ek & Em & Ep & Et).
  run H.
  - subst r. apply register_outcome in E as [He Hu]; [|by rewrite Ek, Ep]. split; [done|].
    apply (unchanged_from x s1); [done|]. destruct Hu as (? & ? & ? & ?), (same_unchanged _ _ Hd) as (? & ? & ? & ?).
    repeat split; congruence.
  - injection H as <- <-. subst x'. apply register_outcome in E as (Hr & Hm & Hc); [|by rewrite Ek, Ep].
    rewrite (resolve_same _ _ x s1) in Hr by done. rewrite Ep, Em in Hm. rewrite Em in Hc. split; [|eauto 6].
    destruct Hr as [(p & tb & R1 & R2) R3 R4 R5]. rewrite Ek, ?Ep, ?Et in *. split; eauto.
Qed.

(** The outcomes of [exec_with_data]. *)
Lemma exec_outcome en data nm path args parent x r x' :
  (forall q, q ∈ Process.iter (procs (kst x)) -> Process.id q <> next_pid x) ->
  exec_with_data thread_exit_handler usermode_entry_trampoline pool_base unmap_guard_page phys_offset kernel_l4 kernel_pt mapper_fails
    en data nm path args parent x = Some (r, x') ->
  ((r = EINVAL \/ r = ENOMEM) /\ unchanged x x') \/
  (r = next_pid x /\ exists table, started x x' data nm path args table).
Proof.
  intros Hf H. unfold exec_with_data in H. run H. apply next_seed_same in E.
  destruct (entry_point data) as [entry|] eqn:Een; [|injection H as <- <-; left; split; [by left|by apply same_unchanged]].
  destruct (Z.eqb_spec entry 0) as [|Hne]; [injection H as <- <-; left; split; [by left|by apply same_unchanged]|].
  run H. apply on_lm_same in E0 as [E0 _]. pose proof (same_kernel_trans _ _ _ E E0) as Hs. clear E E0.
  destruct a0 as [table|]; [|injection H as <- <-; left; split; [by left|by apply same_unchanged]].
  pose proof Hs as (Ek & Em & Ep & Et).
  apply st_fmap_Some in H as (a0 & E & ->). run E.
  { subst a0. apply guarded_image in E0 as [He Hu]; [|by rewrite Ek, Ep]. left. split; [done|by eapply unchanged_from]. }
  apply guarded_image in E0; [|by rewrite Ek, Ep]. destruct a1 as [im st]. destruct E0 as (Hr & Hm & Hc & l & l' & Himg). cbn [fst snd] in E.
  eapply start_thread_outcome in E; [|exact Hr|by rewrite Ek, Ep|done|done].
  rewrite (resolve_same _ _ x s0) in Hr by done.
  destruct a0 as [pid|e]; cbn [returned].
  - right. destruct E as (-> & E2 & E3 & t & q & E4 & E5 & E6). rewrite Ep. split; [done|]. exists table.
    destruct Hr as [(p & tb & R1 & R2 & R3 & R4 & R5 & R6 & R7) R8 R9 R10]. rewrite Ek, ?Ep, ?Et, ?Em in *. split.
    + exists im, a, entry, l, l'. split; [done|]. split; [done|]. split; [done|]. split.
      * exists p. rewrite E2, R2, <-R9. done.
      * exists t, q. done.
    + by rewrite E3, Hm.
    + done.
  - left. destruct E as [-> Hu]. split; [by left|by eapply unchanged_from].
Qed.


(** ** Who may start what *)

Context (rootfs initfs : bytes) (kmod_read_all : bytes -> option bytes) (service_up : bool)
  (exchange : bytes -> result bytes Z) (recv : nat -> Z -> result bytes Z).

(** One system call that starts a program, with the pointer to its path. *)
Inductive exec_step x : Z -> Z -> XS M -> Prop :=
  | step_exec en path args r x' :
      exec_kernel thread_exit_handler usermode_entry_trampoline pool_base unmap_guard_page phys_offset kernel_l4 kernel_pt mapper_fails
        rootfs initfs kmod_read_all en path args x = Some (r, x') -> exec_step x path r x'
  | step_stream en path args r x' :
      exec_from_fs_stream thread_exit_handler usermode_entry_trampoline pool_base unmap_guard_page phys_offset kernel_l4 kernel_pt mapper_fails
        kmod_read_all service_up exchange recv en path args x = Some (r, x') -> exec_step x path r x'
  | step_buffer en buf len r x' :
      exec_from_buffer_syscall thread_exit_handler usermode_entry_trampoline pool_base unmap_guard_page phys_offset kernel_l4 kernel_pt mapper_fails
        en buf len x = Some (r, x') -> exec_step x 0 r x'
  | step_named en buf len path args tid r x' :
      exec_from_buffer_named_args_with_requester_syscall thread_exit_handler usermode_entry_trampoline pool_base unmap_guard_page phys_offset
        kernel_l4 kernel_pt mapper_fails en buf len path args tid x = Some (r, x') -> exec_step x path r x'.

(** The outcome for the set of processes: no new one, or one with the privilege of
    a name and a path. *)
Definition gained x x' (nm path : bytes) : Prop :=
  forall q, q ∈ Process.iter (procs (kst x')) -> q ∈ Process.iter (procs (kst x)) \/ Process.privilege q = resolve_exec_privilege nm path x.

Lemma iter_add p t r t' q : Process.add p t = (Some r, t') -> q ∈ Process.iter t' -> q ∈ Process.iter t \/ q = p.
Proof.
  unfold Process.add. destruct (_ <=? _)%nat; [done|]. destruct (first_free _) as [i|] eqn:Ei; [|done]. intros [= <- <-].
  unfold Process.iter. cbn [Process.processes]. rewrite !elem_of_live. intros [j Hj].
  destruct (decide (j = i)) as [->|Hne].
  - rewrite list_lookup_insert_eq in Hj by (by eapply first_free_lt). right. congruence.
  - rewrite list_lookup_insert_ne in Hj by done. left. eauto.
Qed.

Lemma elem_of_added p t r t' : Process.add p t = (Some r, t') -> p ∈ Process.iter t'.
Proof.
  unfold Process.add. destruct (_ <=? _)%nat; [done|]. destruct (first_free _) as [i|] eqn:Ei; [|done]. intros [= <- <-].
  unfold Process.iter. apply elem_of_live. exists i. apply list_lookup_insert_eq. by eapply first_free_lt.
Qed.

Lemma exec_with_data_gained en data nm path args parent x r x' :
  (forall q, q ∈ Process.iter (procs (kst x)) -> Process.id q <> next_pid x) ->
  exec_with_data thread_exit_handler usermode_entry_trampoline pool_base unmap_guard_page phys_offset kernel_l4 kernel_pt mapper_fails
    en data nm path args parent x = Some (r, x') -> gained x x' nm path.
Proof.
  intros Hf H q Hq. destruct (exec_outcome _ _ _ _ _ _ _ _ _ Hf H) as [[_ (E & _)]|(_ & t & [(im & _ & _ & _ & _ & _ & _ & _ & (p & Ea & _ & Ep & _) & _) _ _])].
  - left. by rewrite <-E.
  - destruct (iter_add _ _ _ _ _ Ea Hq) as [| ->]; [by left|by right].
Qed.

Lemma ends_with_spec p s : ends_with p s = true <-> exists s0, s = s0 ++ p.
Proof.
  unfold ends_with. rewrite andb_true_iff, bool_decide_eq_true, Nat.leb_le. split.
  - intros [E _]. exists (take (length s - length p) s). by rewrite <-E at 2; rewrite take_drop.
  - intros [s0 ->]. rewrite length_app. replace (length s0 + length p - length p)%nat with (length s0) by lia.
    split; [apply drop_app_length|lia].
Qed.

Lemma split_join_id c s : join c (split c s) = s.
Proof.
  induction s as [|x s IH]; [done|]. cbn [split]. pose proof (split_nonempty c s). destruct (Z.eqb_spec x c) as [->|].
  - destruct (split c s) as [|w ws] eqn:E; [done|]. change (c :: join c (w :: ws) = c :: s). by rewrite IH.
  - destruct (split c s) as [|w [|w2 ws]]; [done| |]; cbn in *; congruence.
Qed.

Lemma join_last_suffix c ws : exists s0, join c ws = s0 ++ List.last ws [].
Proof.
  induction ws as [|w ws [s0 IH]]; [by exists []|]. destruct ws as [|w2 ws]; [by exists []|].
  change (join c (w :: w2 :: ws)) with (w ++ c :: join c (w2 :: ws)). rewrite IH. exists (w ++ c :: s0). by rewrite <-app_assoc.
Qed.

(** A suffix of the last component is a suffix of the path. *)
Lemma ends_with_base p path : ends_with p (base_name path) = true -> ends_with p path = true.
Proof.
  rewrite !ends_with_spec. unfold base_name. intros [s0 E]. destruct (join_last_suffix Paths.SLASH (split Paths.SLASH path)) as [s1 E1].
  rewrite split_join_id, E in E1. exists (s1 ++ s0). by rewrite <-app_assoc.
Qed.

Lemma process_name_service path : ends_with DOT_SERVICE (process_name_of path None) = true -> ends_with DOT_SERVICE path = true.
Proof. unfold process_name_of. destruct (_ || _); [by vm_compute|]. apply ends_with_base. Qed.

Lemma unprivileged_gain x x' nm path :
  caller_is_service_or_core x = false -> ends_with DOT_SERVICE nm = false -> gained x x' nm path ->
  forall q, q ∈ Process.iter (procs (kst x')) ->
    q ∈ Process.iter (procs (kst x)) \/ Process.privilege q = Process.User \/
    Process.privilege q = Process.Service /\ is_desktop_app path = true.
Proof.
  intros Hc Hn Hg q Hq. destruct (Hg q Hq) as [|E]; [by left|]. right. rewrite E. unfold resolve_exec_privilege.
  rewrite Hc, Hn, andb_false_r, orb_false_r. destruct (is_desktop_app path); [by right|by left].
Qed.

Lemma gained_refl x nm path : gained x x nm path.
Proof. by left. Qed.

(** The path a call names. *)
Definition names x (ptr : Z) (path : bytes) : Prop :=
  Paths.read_user_cstring (user_mem x) ptr 256 = Ok path \/ is_desktop_app path = false.

(** Every call comes down to one run of [exec_with_data], or changes nothing. *)
Lemma exec_step_gained x ptr r x' :
  (forall q, q ∈ Process.iter (procs (kst x)) -> Process.id q <> next_pid x) -> exec_step x ptr r x' ->
  exists nm path, gained x x' nm path /\ names x ptr path /\
    (caller_can_launch_service x = false -> ends_with DOT_SERVICE nm = false).
Proof.
  intros Hf H.
  assert (forall x2, x2 = x -> exists nm path, gained x x2 nm path /\ names x ptr path /\
    (caller_can_launch_service x = false -> ends_with DOT_SERVICE nm = false)) as Hsame.
  { intros x2 ->. exists [], []. split; [apply gained_refl|]. split; [by right; vm_compute|done]. }
  destruct H as [en path args r x' H|en path args r x' H|en buf len r x' H|en buf len path args tid r x' H].
  - unfold exec_kernel in H. destruct (if path =? 0 then _ else _) as [pth|] eqn:Ep; [|apply Hsame; congruence].
    destruct (denied pth x) eqn:Ed; [apply Hsame; congruence|].
    destruct (read_nul_args_from_user _ _ _ _) as [av|]; [|apply Hsame; congruence].
    assert (names x path pth) as Hn.
    { destruct (path =? 0); [|by left]. injection Ep as <-. right. by vm_compute. }
    assert (forall data, exec_with_data thread_exit_handler usermode_entry_trampoline pool_base unmap_guard_page phys_offset kernel_l4 kernel_pt
       mapper_fails en data (process_name_of pth None) pth av None x = Some (r, x') -> exists nm path0,
       gained x x' nm path0 /\ names x path path0 /\ (caller_can_launch_service x = false -> ends_with DOT_SERVICE nm = false)) as Hrun.
    { intros data Hx. exists (process_name_of pth None), pth. split; [by eapply exec_with_data_gained|]. split; [done|]. intros Hc.
      apply not_true_iff_false. intros Hs. apply process_name_service in Hs. unfold denied in Ed. by rewrite Hs, Hc in Ed. }
    unfold exec_internal in H. destruct (boot_fs_read _ _ _); [by eapply Hrun|]. destruct (kmod_read_all pth); [by eapply Hrun|].
    apply Hsame. by injection H.
  - unfold exec_from_fs_stream in H. destruct (Paths.read_user_cstring _ _ _) as [pth|] eqn:Ep; [|apply Hsame; congruence].
    destruct (denied pth x) eqn:Ed; [apply Hsame; congruence|].
    destruct (read_nul_args_from_user _ _ _ _) as [av|]; [|apply Hsame; congruence].
    assert (caller_can_launch_service x = false -> ends_with DOT_SERVICE pth = false) as Hc.
    { intros Hc. unfold denied in Ed. rewrite Hc, andb_true_r in Ed. done. }
    destruct (Client.exec_image_via_fs _ _ _ _) as [data|].
    + exists pth, pth. split; [by eapply exec_with_data_gained|]. split; [by left|done].
    + destruct (kmod_read_all pth); [|apply Hsame; congruence].
      exists pth, pth. split; [by eapply exec_with_data_gained|]. split; [by left|done].
  - unfold exec_from_buffer_syscall in H. destruct (caller_can_launch_service x) eqn:Ec; [|apply Hsame; by injection H]. cbn [negb] in H.
    destruct (_ || _); [apply Hsame; congruence|]. destruct (negb _); [apply Hsame; congruence|].
    destruct (copy_from_user _ _ _) as [data|]; [|apply Hsame; congruence].
    eexists _, _. split; [by eapply exec_with_data_gained|]. split; [by right; vm_compute|done].
  - unfold exec_from_buffer_named_args_with_requester_syscall in H. destruct (caller_can_launch_service x) eqn:Ec; [|apply Hsame; by injection H].
    cbn [negb] in H. destruct (_ || _); [apply Hsame; congruence|]. destruct (negb _); [apply Hsame; congruence|].
    destruct (Paths.read_user_cstring _ _ _) as [pth|] eqn:Ep; [|apply Hsame; congruence].
    destruct (read_nul_args_from_user _ _ _ _) as [av|]; [|apply Hsame; congruence].
    destruct (copy_from_user _ _ _) as [data|]; [|apply Hsame; congruence].
    destruct (requested_parent _ _) as [par|]; [|apply Hsame; congruence].
    exists (base_name pth), pth. split; [by eapply exec_with_data_gained|]. split; [by left|done].
Qed.

Lemma exec_kernel_default en data x :
  denied HELLO x = false -> boot_fs_read rootfs initfs HELLO = None -> kmod_read_all HELLO = Some data ->
  exec_kernel thread_exit_handler usermode_entry_trampoline pool_base unmap_guard_page phys_offset kernel_l4 kernel_pt mapper_fails
    rootfs initfs kmod_read_all en 0 0 x =
  exec_with_data thread_exit_handler usermode_entry_trampoline pool_base unmap_guard_page phys_offset kernel_l4 kernel_pt mapper_fails
    en data (process_name_of HELLO None) HELLO [] None x.
Proof.
  intros Hd Hb Hk. unfold exec_kernel, read_nul_args_from_user. rewrite Z.eqb_refl, Hd. unfold exec_internal. by rewrite Hb, Hk.
Qed.

(** C20. Starting programs does not raise privileges.  Whoever calls, an exec call adds
    no process of level [Core]; and when the caller is neither a service nor the core
    nor the running service manager, every process it adds is of level [User], but for
    the desktop programs named by their fixed paths. *)
Theorem exec_privilege_bounded x ptr r x' q :
  (forall q, q ∈ Process.iter (procs (kst x)) -> Process.id q <> next_pid x) -> exec_step x ptr r x' ->
  q ∈ Process.iter (procs (kst x')) -> ~ q ∈ Process.iter (procs (kst x)) ->
  Process.privilege q <> Process.Core /\
  (caller_can_launch_service x = false -> caller_is_service_or_core x = false ->
   Process.privilege q = Process.User \/
   exists path, Paths.read_user_cstring (user_mem x) ptr 256 = Ok path /\ is_desktop_app path = true).
Proof.
  intros Hf H Hq Hnew. destruct (exec_step_gained _ _ _ _ Hf H) as (nm & path & Hg & Hnm & Hs). split.
  - destruct (Hg q Hq) as [|E]; [done|]. rewrite E. unfold resolve_exec_privilege. by destruct (_ || _).
  - intros Hl Hc. destruct (unprivileged_gain _ _ _ _ Hc (Hs Hl) Hg q Hq) as [|[?|[_ Hd]]]; [done|by left|].
    right. exists path. destruct Hnm as [|Hno]; [done|congruence].
Qed.
End exec.

(** ** A concrete system *)

(** The system of the signal proofs, with 1 MiB of memory, the kernel's tables in it
    and no service manager; process 10, of level [User], runs. *)
Definition demo_xs : XS (Z -> Z) := mkXS SignalProps.demo_ks (mkLM UserTable.kernel_demo None) 0 0 20 5 (fun _ => 0).
Definition demo_entropy : Entropy := mkEntropy 1 2 None.
Notation demo_exec :=
  (exec_with_data 0 0 0 (fun _ => true) (Some 0) 1048576 true false demo_entropy demo_elf (process_name_of HELLO None) HELLO [] None demo_xs).

Lemma demo_exec_returns : exists x', demo_exec = Some (20, x').
Proof.
  assert (fst <$> demo_exec = Some 20) as H by (vm_compute; reflexivity). destruct demo_exec as [[r x']|]; [|discriminate H].
  injection H as ->. by exists x'.
Qed.

Lemma demo_fresh q : q ∈ Process.iter (procs (kst demo_xs)) -> Process.id q <> next_pid demo_xs.
Proof.
  assert (forallb (fun q => negb (Process.id q =? 20)) (Process.iter (procs (kst demo_xs))) = true) as H by (vm_compute; reflexivity).
  rewrite forallb_forall in H. intros Hq%list_elem_of_In%H. change (next_pid demo_xs) with 20. by destruct (Z.eqb_spec (Process.id q) 20).
Qed.

Lemma demo_elf_entry : entry_point demo_elf = Some 8388608.
Proof. vm_compute. reflexivity. Qed.


(** Process 10 starts "/hello.bin" from a file-system module. *)
Lemma exec_privilege_bounded_witness :
  exists x' q, exec_step 0 0 0 (fun _ => true) (Some 0) 1048576 true false [] [] (fun _ => Some demo_elf) false (fun _ => Err EIO) (fun _ _ => Err EIO)
    demo_xs 0 20 x' /\ q ∈ Process.iter (procs (kst x')) /\ Process.id q = 20 /\ Process.privilege q = Process.User.
Proof.
  destruct demo_exec_returns as [x' E]. exists x'.
  destruct (exec_outcome 0 0 0 (fun _ => true) (Some 0) 1048576 true false demo_entropy demo_elf (process_name_of HELLO None) HELLO [] None
    demo_xs 20 x' demo_fresh E) as [[[H|H] _]|(_ & table & [(im & _ & _ & _ & _ & _ & _ & _ & (p & Ea & Eid & _) & _) _ _])];
    [discriminate H|discriminate H|].
  assert (exec_step 0 0 0 (fun _ => true) (Some 0) 1048576 true false [] [] (fun _ => Some demo_elf) false (fun _ => Err EIO) (fun _ _ => Err EIO)
    demo_xs 0 20 x') as Hs.
  { apply (step_exec _ _ _ _ _ _ _ _ _ _ _ _ _ _ demo_xs demo_entropy 0 0).
    rewrite (exec_kernel_default 0 0 0 _ _ _ _ _ [] [] _ demo_entropy demo_elf demo_xs); [exact E| | |reflexivity]; vm_compute; reflexivity. }
  assert (p ∈ Process.iter (procs (kst x'))) as Hp by (by eapply elem_of_added).
  exists p. split; [exact Hs|]. split; [exact Hp|]. split; [exact Eid|].
  destruct (exec_privilege_bounded 0 0 0 (fun _ => true) (Some 0) 1048576 true false [] [] (fun _ => Some demo_elf) false (fun _ => Err EIO)
    (fun _ _ => Err EIO) demo_xs 0 20 x' p demo_fresh Hs Hp ltac:(intros Ho; exact (demo_fresh _ Ho Eid))) as [_ H].
  destruct (H ltac:(vm_compute; reflexivity) ltac:(vm_compute; reflexivity)) as [H'|(path & Hx & _)]; [exact H'|].
  vm_compute in Hx. discriminate Hx.
Defined.
End ExecProps.
