(* ===== verification/Execve.v ===== *)
(** Replacing a program: [execve_syscall] of [src/core/syscall/exec.rs].

    The state adds to that of [Exec] the descriptor tables ([Fs.World] of [FdSyscalls]) and
    the page table the processor uses.  A successful call does not return: its
    outcome is the entry and the stack pointer the processor continues with. *)

From Stdlib Require Import ZArith Lia.
From stdpp Require Import base list option numbers gmap fin_maps.
From S2P Require Import Prelude State Types UserMem Bytes Ext2 Ext2Props FsService Mem Frame Paging PageTables Segment UserTable FdTable FdSyscalls.
From S2P Require Import Slots Table Thread KStack Scheduler Ipc IpcSyscalls Signal Process Futex Kernel SignalProps Paths Elf ExecStack Exec ExecProps.
Import Bytes Sys Result Elf ExecStack Segment IpcSyscalls Kernel Exec ExecProps FdTable.

Local Open Scope Z_scope.
Local Open Scope kernel_scope.

Module Execve.

Record ES (M : Type) := mkES { xs : XS M; fds : Fs.World; cr3 : Z }.
Arguments mkES {M} _ _ _.
Arguments xs {M} _.
Arguments fds {M} _.
Arguments cr3 {M} _.

Inductive outcome := Returned (errno : Z) | Running (entry rsp : Z).

Section execve.
Context {M : Type} `{!UserMemory M}.
Context (phys_offset : option Z) (kernel_l4 : Z) (kernel_pt mapper_fails : bool) (rootfs initfs : bytes).
Implicit Types s : ES M.
Implicit Types x : XS M.

Definition on_xs {A} (f : ST (XS M) A) : ST (ES M) A := fun s =>
  match f (xs s) with Some (a, x) => Some (a, mkES x (fds s) (cr3 s)) | None => None end.

Definition on_fds {A} (f : Fs.W A) : ST (ES M) A := fun s =>
  match f (fds s) with Some (a, w) => Some (a, mkES (xs s) w (cr3 s)) | None => None end.

(** [switch_page_table] *)
Definition switch_page_table (table : Z) : ST (ES M) unit :=
  smodify (fun s => if (table =? 0) || negb (Z.land table 4095 =? 0) then s else mkES (xs s) (fds s) table).

(** As [Exec.load_elf], with a checked sum for the address of the headers. *)
Definition load_elf_in_place (table : Z) (data : bytes) : ST LMem (result Meta Z) :=
  match parse_elf_header data with
  | None => mret (Ok (mkMeta 0 0 0))
  | Some eh =>
      if negb (e_machine eh =? EM_X86_64) then mret (Err EINVAL)
      else if e_phentsize eh =? 0 then mret (Err EINVAL)
      else
        base ←? load_segments phys_offset kernel_pt mapper_fails table data (e_phoff eh) (e_phentsize eh) 0 (Z.to_nat (e_phnum eh)) None;
        (match checked_add64 (default 0 base) (e_phoff eh) with
         | Some v => mret (Ok (mkMeta v (e_phentsize eh) (e_phnum eh)))
         | None => undefined
         end)
  end.

(** The new address space: the segments, the stack, the heap and the thread-local
    block, each of which must be mapped. *)
Definition replacement (table seed : Z) (data : bytes) (entry : Z) (path : bytes) (argv envp : list bytes) :
    ST LMem (result (InitialUserStack * Z) Z) :=
  m ←? load_elf_in_place table data;
  (match build_initial_user_stack seed argv envp path (auxv m entry ++ [(0, 0)]) with
   | Err e => mret (Err e)
   | Ok st =>
       _ ←? map_stack phys_offset kernel_pt mapper_fails table st;
       _ ←? or_einval (map_segment phys_offset kernel_pt mapper_fails table (heap_base_of seed) 0 HEAP_MAP_SIZE [] true false);
       fs ←? map_initial_tls phys_offset kernel_pt mapper_fails table seed;
       mret (Ok (st, fs))
   end).

(** The thread that called, and its process. *)
Definition the_caller : ST (XS M) (result (Z * Z) Z) := fun x =>
  Some (match current_thread_id (kst x) with
        | None => Err EINVAL
        | Some tid => match Thread.process_id <$> Thread.get tid (threads_of (kst x)) with
                      | Some pid => Ok (tid, pid)
                      | None => Err EINVAL
                      end
        end, x).

Definition replaced (table seed : Z) (st : InitialUserStack) (p : Process.Process) : Process.Process :=
  Process.set_stack (stack_base_vaddr st) (stack_end_vaddr st + 4096)
    (Process.set_heap (heap_base_of seed) (heap_base_of seed + HEAP_MAP_SIZE) (Process.set_page_table table p)).

(** Installs the address space; the result is the previous one. *)
Definition install (tid pid fs table seed : Z) (st : InitialUserStack) : ST (XS M) (option Z) := fun x =>
  let q := (Thread.with_thread_mut tid (fun t => (tt, Thread.set_fs_base fs t)) (threads_of (kst x))).2 in
  let '(old, t) := Process.with_process_mut pid (fun p => (Process.page_table p, replaced table seed st p)) (procs (kst x)) in
  Some (mjoin old, set_kst (set_procs t (on_ks (Scheduler.set_queue q) (kst x))) x).

Definition execve_syscall (en : Entropy) (path_ptr argv envp : Z) : ST (ES M) outcome := fun s =>
  let um := user_mem (xs s) in
  if path_ptr =? 0 then Some (Returned EINVAL, s)
  else
    match Paths.read_user_cstring um path_ptr 256 with
    | Err _ => Some (Returned EINVAL, s)
    | Ok path =>
        (on_xs (next_seed en path) ≫= fun seed =>
         if denied path (xs s) then mret (Returned EPERM)
         else
           match boot_fs_read rootfs initfs path with
           | None => mret (Returned ENOENT)
           | Some data =>
               match entry_point data with
               | None => mret (Returned EINVAL)
               | Some entry =>
                   on_xs (on_lm (on_pm (UserTable.create_user_page_table phys_offset kernel_l4))) ≫= fun r =>
                   match r with
                   | Err _ => mret (Returned EINVAL)
                   | Ok table =>
                       let args := match read_user_ptr_array um argv 256 with [] => [path] | l => l end in
                       on_xs (guarded phys_offset table
                         (p ←? on_lm (replacement table seed data entry path args (read_user_ptr_array um envp 1024));
                          c ←? the_caller;
                          mret (Ok (p, c)))) ≫= fun r =>
                       match r with
                       | Err e => mret (Returned e)
                       | Ok ((st, fs), (tid, pid)) =>
                           on_xs (install tid pid fs table seed st) ≫= fun old =>
                           (match old with
                            | Some t => if t =? table then mret tt else on_xs (destroy phys_offset t)
                            | None => mret tt
                            end) ≫= fun _ =>
                           on_fds (Fs.with_fd_table_mut pid close_cloexec_fds (mret tt)) ≫= fun _ =>
                           switch_page_table table ≫= fun _ =>
                           mret (Running entry (initial_rsp st))
                       end
                   end
               end
           end) s
    end.

Lemma on_xs_Some {A} (f : ST (XS M) A) s a s' :
  on_xs f s = Some (a, s') -> f (xs s) = Some (a, xs s') /\ fds s' = fds s /\ cr3 s' = cr3 s.
Proof. unfold on_xs. destruct (f (xs s)) as [[b x]|]; [|done]. by intros [= <- <-]. Qed.

Lemma replacement_err table seed data entry path argv envp l e l' :
  replacement table seed data entry path argv envp l = Some (Err e, l') -> e = EINVAL.
Proof.
  intros H. unfold replacement in H. run H.
  - simplify_eq. unfold load_elf_in_place in E. repeat case_match; try (injection E; congruence).
    run E; [simplify_eq; by apply load_segments_err in E0|]. destruct (checked_add64 _ _); [injection E; congruence|done].
  - destruct (build_initial_user_stack _ _ _ _ _) eqn:Eb; [|injection H as -> _; by apply build_err in Eb].
    run H. { simplify_eq. unfold map_stack in E0. run E0; [simplify_eq; by apply or_einval_err in E1|by apply or_einval_err in E0]. }
    run H. { simplify_eq. by apply or_einval_err in E1. }
    run H; [simplify_eq; by apply map_tls_err in E2|injection H; congruence].
Qed.

(** What of a process an [execve] leaves alone. *)
Definition identity (p : Process.Process) :=
  (Process.id p, Process.name p, Process.privilege p, Process.parent_id p, Process.state p, Process.cwd p,
   (Process.pgid_raw p, Process.sid_raw p, Process.signal_state p)).

(** The processes and descriptors after a successful [execve] of [pid]. *)
Record replaced_by s s' (tid pid table seed fs : Z) (st : InitialUserStack) : Prop := {
  rb_procs : Process.abs (procs (kst (xs s'))) = alter (replaced table seed st) pid (Process.abs (procs (kst (xs s))));
  rb_threads : threads_of (kst (xs s')) = (Thread.with_thread_mut tid (fun t => (tt, Thread.set_fs_base fs t)) (threads_of (kst (xs s)))).2;
  rb_manager : manager (xs s') = manager (xs s);
  rb_current : current_thread_id (kst (xs s')) = current_thread_id (kst (xs s));
  rb_fds : forall t, Fs.world_inv [] (fds s) -> Fs.tables (fds s) !! pid = Some t ->
    exists t', Fs.tables (fds s') !! pid = Some t' /\ (forall q, q <> pid -> Fs.tables (fds s') !! q = Fs.tables (fds s) !! q) /\
      forall fd, get_raw t' fd = if cloexec_bit t fd then None else get_raw t fd;
  rb_cr3 : cr3 s' = if (table =? 0) || negb (Z.land table 4095 =? 0) then cr3 s else table;
}.

(** The steps after the point of no return. *)
Lemma commit_spec tid pid fs table seed st entry s o s' :
  Process.table_wf (procs (kst (xs s))) ->
  (on_xs (install tid pid fs table seed st) ≫= fun old =>
   (match old with
    | Some t => if t =? table then mret tt else on_xs (destroy phys_offset t)
    | None => mret tt
    end) ≫= fun _ =>
   on_fds (Fs.with_fd_table_mut pid close_cloexec_fds (mret tt)) ≫= fun _ =>
   switch_page_table table ≫= fun _ =>
   mret (Running entry (initial_rsp st))) s = Some (o, s') ->
  o = Running entry (initial_rsp st) /\ replaced_by s s' tid pid table seed fs st.
Proof.
  intros Hw H. run H. apply on_xs_Some in E as (E & F1 & C1). unfold install in E.
  pose proof (Process.with_process_mut_spec pid (fun p => (Process.page_table p, replaced table seed st p)) (procs (kst (xs s))) Hw ltac:(done)) as Hp.
  destruct (Process.with_process_mut _ _ _) as [old t]. destruct Hp as (_ & _ & Habs). injection E as <- Ex.
  run H. assert (same_kernel (xs s1) (xs s0) /\ fds s0 = fds s1 /\ cr3 s0 = cr3 s1) as (K & F2 & C2).
  { destruct (mjoin old) as [u|]; [|by injection E as _ <-]. destruct (u =? table); [by injection E as _ <-|].
    apply on_xs_Some in E as (E & ? & ?). split; [by apply destroy_same in E|done]. }
  run H. unfold on_fds in E0. destruct (Fs.with_fd_table_mut _ _ _ _) as [[rf wf]|] eqn:Ef; [|done]. injection E0 as _ <-.
  run H. unfold switch_page_table, smodify in E0. injection E0 as _ <-. injection H as <- <-. split; [done|].
  destruct K as (K & Km & _). rewrite <-Ex in K, Km. cbn in K, Km. rewrite F2, F1 in Ef.
  assert (forall s2 : ES M, (if (table =? 0) || negb (Z.land table 4095 =? 0) then s2 else mkES (xs s2) (fds s2) table) =
    mkES (xs s2) (fds s2) (if (table =? 0) || negb (Z.land table 4095 =? 0) then cr3 s2 else table)) as Hsw by (intros []; by destruct (_ || _)).
  rewrite Hsw. split; cbn [xs fds cr3]; rewrite ?K; cbn; try done; [|by rewrite C2, C1].
  intros ft Hi Hft. destruct (Fs.sweep_spec pid (fds s) ft Hi Hft) as (w' & t' & E1 & Ht & Ho & Hg). rewrite E1 in Ef. injection Ef as _ <-. eauto.
Qed.

(** What runs under the guard. *)
Lemma guarded_replacement table seed data entry path argv envp x r x' :
  guarded phys_offset table
    (p ←? on_lm (replacement table seed data entry path argv envp); c ←? the_caller; mret (Ok (p, c))) x = Some (r, x') ->
  same_kernel x x' /\
  match r with
  | Ok ((st, fs), (tid, pid)) =>
      (exists l l', replacement table seed data entry path argv envp l = Some (Ok (st, fs), l')) /\
      current_thread_id (kst x) = Some tid /\ Thread.process_id <$> Thread.get tid (threads_of (kst x)) = Some pid
  | Err e => e = EINVAL
  end.
Proof.
  intros (x1 & H & Hd)%guarded_outcome. run H.
  { subst r. apply on_lm_same in E as [Hs (l' & El)]. split; [by eapply same_kernel_trans|]. by apply replacement_err in El. }
  apply on_lm_same in E as [Hs (l' & El)]. pose proof Hs as (Ek & _). run H.
  { subst r. unfold the_caller in E. injection E as E <-. split; [by eapply same_kernel_trans|].
    destruct (current_thread_id _); [destruct (_ <$> _)|]; congruence. }
  injection H as <- <-. subst x'. unfold the_caller in E. injection E as E <-. split; [done|]. destruct a as [st fs]. rewrite Ek in E.
  destruct (current_thread_id _) as [tid|]; [|done]. destruct (Thread.process_id <$> _) as [pid|] eqn:Ep; [|done]. injection E as <-. eauto 6.
Qed.

End execve.

(** The example of [ExecProps], with a disk that holds the program as "/hi" and the
    path at 4096. *)
Definition elf_image : bytes :=
  <[3332%nat := blen demo_elf]> (list.take 6144 Ext2Props.demo_image) ++ demo_elf ++ replicate 900 0.
Definition demo_es : ES (Z -> Z) :=
  mkES (mkXS (set_mem (flat_store (fun _ => 0) 4096 [47; 104; 105; 0]) SignalProps.demo_ks) (mkLM UserTable.kernel_demo None) 0 0 20 5 (fun _ => 0))
    (Fs.boot 10) 1048576.
Notation demo_execve := (execve_syscall (Some 0) 1048576 true false [] elf_image demo_entropy 4096 0 0 demo_es).

Lemma demo_execve_runs : exists rsp s', demo_execve = Some (Running 8388608 rsp, s').
Proof.
  assert ((fun o => match o with Running e _ => e | Returned _ => 0 end) ∘ fst <$> demo_execve = Some 8388608) as H by (vm_compute; reflexivity).
  destruct demo_execve as [[[e|e rsp] s']|]; [discriminate H|..]; [|discriminate H]. injection H as ->. by exists rsp, s'.
Qed.

End Execve.
