(* ===== verification/Term.v ===== *)
(** The terminal of the shell: [src/services/shell/src/char.rs], from [Cell] to
    [write_num].

    Geometry and font are fixed when the terminal is made; [Screen] holds the fields
    that switching to the alternate screen saves.  Operations are state transformers
    on [Terminal]; [None] is a panic (an index out of range, an overflow of [u32]) or
    a write outside the frame buffer. *)

From Stdlib Require Import ZArith Lia.
From stdpp Require Import base list option numbers.
From S2P Require Import Prelude State.

Local Open Scope Z_scope.

Module Term.

Definition FONT_WIDTH : Z := 6.
Definition FONT_HEIGHT : Z := 12.
Definition ASCII_START : Z := 32.
Definition ASCII_END : Z := 127.
Definition GLYPH_COUNT : Z := ASCII_END - ASCII_START.
Definition DEFAULT_FG : Z := 16777215.
Definition DEFAULT_BG : Z := 0.
Definition ANSI_MAX_SEQ_LEN : Z := 32.
Definition ANSI_COLOR_NORMAL : list Z := [0; 15597568; 43520; 11184640; 39423; 11141290; 43690; 11184810].
Definition ANSI_COLOR_BRIGHT : list Z := [5592405; 16733525; 5635925; 16777045; 5592575; 16733695; 5636095; 16777215].
Definition ESC : Z := 27.
Definition SPACE : Z := 32.

Definition sat_sub (a b : Z) : Z := Z.max 0 (a - b).
Definition sat_add32 (a b : Z) : Z := Z.min (2 ^ 32 - 1) (a + b).
Definition sat_add16 (a b : Z) : Z := Z.min 65535 (a + b).
Definition sat_mul16 (a b : Z) : Z := Z.min 65535 (a * b).

(** [a..b] and [a..=b] *)
Definition range (a b : Z) : list Z := seqZ a (b - a).
Definition range_incl (a b : Z) : list Z := seqZ a (b - a + 1).

Record Cell := mkCell { c_ch : Z; c_fg : Z; c_bg : Z }.
Definition blank : Cell := mkCell SPACE DEFAULT_FG DEFAULT_BG.

(** Fixed for the life of a terminal. *)
Record Geometry := mkGeometry { width : Z; height : Z; stride : Z; glyphs : list (list Z) }.

Record Screen := mkScreen {
  cells : list Cell;
  col : Z;
  row : Z;
  fg : Z;
  bg : Z;
  scroll_top : Z;
  scroll_bottom : Z;
  insert_mode : bool;
}.

Record Parser := mkParser {
  esc_pending : bool;
  csi_mode : bool;
  osc_mode : bool;
  dcs_mode : bool;
  osc_esc_pending : bool;
  dcs_esc_pending : bool;
  seq : list Z;
  seq_len : Z;
}.

Record Overlay := mkOverlay { cursor_visible : bool; cursor_drawn : bool; draw_col : Z; draw_row : Z }.

Record Terminal := mkTerminal {
  fb : Z -> Z;
  scr : Screen;
  parser : Parser;
  overlay : Overlay;
  saved_col : Z;
  saved_row : Z;
  alt_screen : option Screen;
  last_printable : Z;
}.

Definition set_cells (v : list Cell) (s : Screen) : Screen := mkScreen v (col s) (row s) (fg s) (bg s) (scroll_top s) (scroll_bottom s) (insert_mode s).
Definition set_pos (c r : Z) (s : Screen) : Screen := mkScreen (cells s) c r (fg s) (bg s) (scroll_top s) (scroll_bottom s) (insert_mode s).
Definition set_col (c : Z) (s : Screen) : Screen := set_pos c (row s) s.
Definition set_row (r : Z) (s : Screen) : Screen := set_pos (col s) r s.
Definition set_colors (f b : Z) (s : Screen) : Screen := mkScreen (cells s) (col s) (row s) f b (scroll_top s) (scroll_bottom s) (insert_mode s).
Definition set_region (t b : Z) (s : Screen) : Screen := mkScreen (cells s) (col s) (row s) (fg s) (bg s) t b (insert_mode s).
Definition set_insert (b : bool) (s : Screen) : Screen := mkScreen (cells s) (col s) (row s) (fg s) (bg s) (scroll_top s) (scroll_bottom s) b.

Definition set_fb (f : Z -> Z) (t : Terminal) : Terminal :=
  mkTerminal f (scr t) (parser t) (overlay t) (saved_col t) (saved_row t) (alt_screen t) (last_printable t).
Definition on_scr (f : Screen -> Screen) (t : Terminal) : Terminal :=
  mkTerminal (fb t) (f (scr t)) (parser t) (overlay t) (saved_col t) (saved_row t) (alt_screen t) (last_printable t).
Definition on_parser (f : Parser -> Parser) (t : Terminal) : Terminal :=
  mkTerminal (fb t) (scr t) (f (parser t)) (overlay t) (saved_col t) (saved_row t) (alt_screen t) (last_printable t).
Definition set_overlay (o : Overlay) (t : Terminal) : Terminal :=
  mkTerminal (fb t) (scr t) (parser t) o (saved_col t) (saved_row t) (alt_screen t) (last_printable t).
Definition save_cursor (t : Terminal) : Terminal :=
  mkTerminal (fb t) (scr t) (parser t) (overlay t) (col (scr t)) (row (scr t)) (alt_screen t) (last_printable t).
Definition set_alt (a : option Screen) (t : Terminal) : Terminal :=
  mkTerminal (fb t) (scr t) (parser t) (overlay t) (saved_col t) (saved_row t) a (last_printable t).
Definition set_last (b : Z) (t : Terminal) : Terminal :=
  mkTerminal (fb t) (scr t) (parser t) (overlay t) (saved_col t) (saved_row t) (alt_screen t) b.
Definition set_visible (b : bool) (t : Terminal) : Terminal :=
  set_overlay (mkOverlay b (cursor_drawn (overlay t)) (draw_col (overlay t)) (draw_row (overlay t))) t.

Definition T (A : Type) : Type := ST Terminal A.

(** Runs [f] on the current state. *)
Definition with_t {A} (f : Terminal -> T A) : T A := fun t => f t t.
Definition screen (f : Screen -> Screen) : T unit := smodify (on_scr f).

(** [Font::fallback]: boxes, and nothing for the space. *)
Definition fallback_glyph (i : Z) : list Z :=
  if ASCII_START + i =? SPACE then replicate (Z.to_nat FONT_HEIGHT) 0
  else 252 :: replicate (Z.to_nat (FONT_HEIGHT - 2)) 132 ++ [252].
Definition fallback_font : list (list Z) := fallback_glyph <$> seqZ 0 GLYPH_COUNT.

Section terminal.
Context (g : Geometry).

Definition max_cols : Z := width g / FONT_WIDTH.
Definition max_rows : Z := height g / FONT_HEIGHT.
(** The frame buffer. *)
Definition fb_len : Z := height g * stride g.

Definition in_u32 (v : Z) : bool := (0 <=? v) && (v <? 2 ^ 32).
(** An arithmetic result of type [u32]. *)
Definition u32 {A} (v : Z) (k : Z -> T A) : T A := if in_u32 v then k v else undefined.

Definition glyph (ch : Z) : list Z :=
  let idx := if (ASCII_START <=? ch) && (ch <? ASCII_END) then ch - ASCII_START else 63 - ASCII_START in
  default [] (glyphs g !! Z.to_nat idx).

(** ** Drawing *)

Definition opaque (color : Z) : Z := Z.lor color 4278190080.

Definition put_pixel (x y color : Z) : T unit :=
  if (width g <=? x) || (height g <=? y) then mret tt
  else
    u32 (y * stride g + x) (fun offset =>
    if offset <? fb_len then smodify (fun t => set_fb (fun z => if z =? offset then opaque color else fb t z) t) else undefined).

Definition cell_index (c r : Z) : option Z :=
  if (max_cols <=? c) || (max_rows <=? r) then None else Some (r * max_cols + c).

(** The rows of a glyph from [r] on. *)
Fixpoint draw_rows (rows : list Z) (r x0 y0 f b : Z) : T unit :=
  match rows with
  | [] => mret tt
  | bits :: rows =>
      let y := y0 + r in
      if height g <=? y then mret tt
      else if width g <? x0 + FONT_WIDTH then mret tt
      else
        sfor (range 0 FONT_WIDTH) (fun c =>
          put_pixel (x0 + c) y (if Z.land (Z.shiftr bits (7 - c)) 1 =? 0 then b else f)) ≫= fun _ =>
        draw_rows rows (r + 1) x0 y0 f b
  end.

Definition draw_char_pixels (ch c r f b : Z) : T unit :=
  u32 (c * FONT_WIDTH) (fun x0 =>
  u32 (r * FONT_HEIGHT) (fun y0 =>
  draw_rows (glyph ch) 0 x0 y0 f b)).

(** [self.cells[idx]] *)
Definition load_cell (idx : Z) : T Cell := sderef (fun t => cells (scr t) !! Z.to_nat idx).
Definition store_cell (idx : Z) (x : Cell) : T unit := fun t =>
  if idx <? Z.of_nat (length (cells (scr t)))
  then Some (tt, on_scr (fun s => set_cells (<[Z.to_nat idx := x]> (cells s)) s) t) else None.

Definition set_cell (c r : Z) (x : Cell) : T unit :=
  match cell_index c r with
  | Some idx => store_cell idx x ≫= fun _ => draw_char_pixels (c_ch x) c r (c_fg x) (c_bg x)
  | None => mret tt
  end.

(** [if let Some(idx) = self.cell_index(..) { self.cells[idx] = cell; }] *)
Definition set_cell_only (c r : Z) (x : Cell) : T unit :=
  match cell_index c r with
  | Some idx => store_cell idx x
  | None => mret tt
  end.

Definition get_cell (c r : Z) : T Cell :=
  match cell_index c r with
  | Some idx => load_cell idx
  | None => mret blank
  end.

Definition redraw_from_cells : T unit :=
  sfor (range 0 max_rows) (fun r =>
  sfor (range 0 max_cols) (fun c =>
    get_cell c r ≫= fun x => draw_char_pixels (c_ch x) c r (c_fg x) (c_bg x))).

Definition hide_cursor_overlay : T unit := with_t (fun t =>
  let o := overlay t in
  if negb (cursor_drawn o) then mret tt
  else
    smodify (set_overlay (mkOverlay (cursor_visible o) false (draw_col o) (draw_row o))) ≫= fun _ =>
    if (max_cols <=? draw_col o) || (max_rows <=? draw_row o) then mret tt
    else get_cell (draw_col o) (draw_row o) ≫= fun x => draw_char_pixels (c_ch x) (draw_col o) (draw_row o) (c_fg x) (c_bg x)).

Definition show_cursor_overlay : T unit := with_t (fun t =>
  let o := overlay t in
  if negb (cursor_visible o) || (max_cols =? 0) || (max_rows =? 0)
  then smodify (set_overlay (mkOverlay (cursor_visible o) false (draw_col o) (draw_row o)))
  else
    let c := Z.min (col (scr t)) (sat_sub max_cols 1) in
    let r := Z.min (row (scr t)) (sat_sub max_rows 1) in
    get_cell c r ≫= fun x =>
    draw_char_pixels (c_ch x) c r (c_bg x) (c_fg x) ≫= fun _ =>
    smodify (set_overlay (mkOverlay (cursor_visible o) true c r))).

Definition refresh_cursor_overlay : T unit := hide_cursor_overlay ≫= fun _ => show_cursor_overlay.
Definition flush : T unit := refresh_cursor_overlay.

Definition clear_cells (s : Screen) : Screen := set_cells ((fun _ => blank) <$> cells s) s.
(** The cursor at the origin, the whole screen as region, no insertion. *)
Definition home (s : Screen) : Screen := set_insert false (set_region 0 (sat_sub max_rows 1) (set_pos 0 0 s)).

(** [total] stores of 0. *)
Definition clear_pixels : T unit :=
  u32 (height g * stride g) (fun total => smodify (fun t => set_fb (fun z => if (0 <=? z) && (z <? total) then 0 else fb t z) t)).

Definition clear_screen : T unit :=
  hide_cursor_overlay ≫= fun _ =>
  clear_pixels ≫= fun _ =>
  screen clear_cells ≫= fun _ =>
  screen home ≫= fun _ =>
  show_cursor_overlay.

(** ** Scrolling *)

Definition normalize_region (s : Screen) : Screen :=
  if max_rows =? 0 then set_region 0 0 s
  else
    let top := if max_rows <=? scroll_top s then max_rows - 1 else scroll_top s in
    let bottom := if max_rows <=? scroll_bottom s then max_rows - 1 else scroll_bottom s in
    if bottom <? top then set_region 0 (max_rows - 1) s else set_region top bottom s.
Definition normalize_scroll_region : T unit := screen normalize_region.

Definition copy_row (src dst : Z) : T unit :=
  sfor (range 0 max_cols) (fun c => get_cell c src ≫= fun x => set_cell_only c dst x).
Definition blank_row (r : Z) : T unit := sfor (range 0 max_cols) (fun c => set_cell_only c r blank).

Definition scroll_region_up (top bottom count : Z) : T unit :=
  if (max_rows =? 0) || (max_cols =? 0) || (bottom <=? top) then mret tt
  else
    let n := Z.min (Z.max count 1) (bottom - top + 1) in
    sfor (range_incl top (sat_sub bottom n)) (fun r => copy_row (r + n) r) ≫= fun _ =>
    sfor (range_incl (sat_sub bottom n + 1) bottom) blank_row ≫= fun _ =>
    redraw_from_cells.

(** The loop stops at row 0, which it reaches only as its last row ([n] is
    positive). *)
Definition scroll_region_down (top bottom count : Z) : T unit :=
  if (max_rows =? 0) || (max_cols =? 0) || (bottom <=? top) then mret tt
  else
    let n := Z.min (Z.max count 1) (bottom - top + 1) in
    sfor (rev (range_incl (top + n) bottom)) (fun r => copy_row (r - n) r) ≫= fun _ =>
    sfor (range top (top + n)) blank_row ≫= fun _ =>
    redraw_from_cells.

Definition scroll_up : T unit := with_t (fun t =>
  if max_rows =? 0 then mret tt else scroll_region_up (scroll_top (scr t)) (scroll_bottom (scr t)) 1).

Definition index : T unit :=
  normalize_scroll_region ≫= fun _ =>
  with_t (fun t =>
    let s := scr t in
    if max_rows =? 0 then mret tt
    else if row s =? scroll_bottom s then scroll_region_up (scroll_top s) (scroll_bottom s) 1
    else if row s + 1 <? max_rows then screen (set_row (row s + 1))
    else mret tt).

Definition reverse_index : T unit :=
  normalize_scroll_region ≫= fun _ =>
  with_t (fun t =>
    let s := scr t in
    if max_rows =? 0 then mret tt
    else if row s =? scroll_top s then scroll_region_down (scroll_top s) (scroll_bottom s) 1
    else screen (set_row (sat_sub (row s) 1))).

Definition new_line : T unit := screen (set_col 0) ≫= fun _ => index.

Definition space_cell (s : Screen) : Cell := mkCell SPACE (fg s) (bg s).

Definition erase_cell (c r : Z) : T unit := with_t (fun t => set_cell c r (space_cell (scr t))).

Definition erase_previous_cell : T unit := with_t (fun t =>
  if (max_cols =? 0) || (max_rows =? 0) then mret tt
  else if 0 <? col (scr t) then
    screen (set_col (col (scr t) - 1)) ≫= fun _ => erase_cell (col (scr t) - 1) (row (scr t))
  else mret tt).

Definition set_scroll_region (top bottom : Z) : T unit :=
  screen (fun s =>
    if max_rows =? 0 then set_region 0 0 s
    else
      let s := if (max_rows <=? top) || (max_rows <=? bottom) || (bottom <=? top)
               then set_region 0 (max_rows - 1) s else set_region top bottom s in
      set_pos 0 (scroll_top s) s).

Definition enter_alt_screen : T unit := with_t (fun t =>
  match alt_screen t with
  | Some _ => mret tt
  | None =>
      smodify (set_alt (Some (scr t))) ≫= fun _ =>
      screen clear_cells ≫= fun _ =>
      screen home ≫= fun _ =>
      redraw_from_cells
  end).

Definition leave_alt_screen : T unit := with_t (fun t =>
  match alt_screen t with
  | Some saved =>
      smodify (set_alt None) ≫= fun _ =>
      screen (fun _ => set_pos (Z.min (col saved) (sat_sub max_cols 1)) (Z.min (row saved) (sat_sub max_rows 1)) saved) ≫= fun _ =>
      normalize_scroll_region ≫= fun _ =>
      redraw_from_cells
  | None => mret tt
  end).

(** ** Erasing, inserting, deleting *)

Definition erase_line_range (r start_col end_col : Z) : T unit :=
  if max_rows <=? r then mret tt
  else
    let e := Z.min end_col max_cols in
    sfor (range (Z.min start_col e) e) (fun c => erase_cell c r).

Definition erase_screen_range (start_row start_col end_row end_col : Z) : T unit :=
  if (max_rows =? 0) || (max_cols =? 0) then mret tt
  else
    sfor (range start_row (Z.min end_row max_rows)) (fun r =>
      erase_line_range r (if r =? start_row then start_col else 0)
        (if r + 1 =? end_row then Z.min end_col max_cols else max_cols)).

(** [let c = self.get_cell(..); self.set_cell(.., c)] *)
Definition move_cell (c0 r0 c1 r1 : Z) : T unit := get_cell c0 r0 ≫= fun x => set_cell c1 r1 x.

Definition off_screen (count : Z) (s : Screen) : bool := (max_rows <=? row s) || (max_cols <=? col s) || (count =? 0).

(** [c] runs down from [max_cols] to [start + count + 1]. *)
Definition insert_blank_chars (count : Z) : T unit := with_t (fun t =>
  let s := scr t in
  if off_screen count s then mret tt
  else
    let count := Z.min count (max_cols - col s) in
    sfor (rev (range_incl (col s + count + 1) max_cols)) (fun c => move_cell (c - count - 1) (row s) (c - 1) (row s)) ≫= fun _ =>
    erase_line_range (row s) (col s) (col s + count)).

Definition delete_chars (count : Z) : T unit := with_t (fun t =>
  let s := scr t in
  if off_screen count s then mret tt
  else
    let count := Z.min count (max_cols - col s) in
    sfor (range (col s) (max_cols - count)) (fun c => move_cell (c + count) (row s) c (row s)) ≫= fun _ =>
    erase_line_range (row s) (max_cols - count) max_cols).

Definition move_line (src dst : Z) : T unit := sfor (range 0 max_cols) (fun c => move_cell c src c dst).
Definition erase_lines (a b : Z) : T unit := sfor (range a b) (fun r => erase_line_range r 0 max_cols).
Definition outside_region (count : Z) (s : Screen) : bool :=
  (max_rows <=? row s) || (count =? 0) || (row s <? scroll_top s) || (scroll_bottom s <? row s).

Definition insert_blank_lines (count : Z) : T unit :=
  normalize_scroll_region ≫= fun _ =>
  with_t (fun t =>
    let s := scr t in
    if outside_region count s then mret tt
    else
      let start := row s in
      let e := scroll_bottom s + 1 in
      let count := Z.min count (e - start) in
      sfor (rev (range_incl (start + count + 1) e)) (fun r => move_line (r - count - 1) (r - 1)) ≫= fun _ =>
      erase_lines start (start + count)).

Definition delete_lines (count : Z) : T unit :=
  normalize_scroll_region ≫= fun _ =>
  with_t (fun t =>
    let s := scr t in
    if outside_region count s then mret tt
    else
      let count := Z.min count (scroll_bottom s - row s + 1) in
      let start := row s in
      let e := scroll_bottom s + 1 in
      sfor (range start (e - count)) (fun r => move_line (r + count) r) ≫= fun _ =>
      erase_lines (e - count) e).

Definition erase_chars (count : Z) : T unit := with_t (fun t =>
  let s := scr t in
  if off_screen count s then mret tt
  else erase_line_range (row s) (col s) (col s + Z.min count (max_cols - col s))).

(** ** Bytes that are not part of a sequence *)

Definition tab_step : T unit := with_t (fun t =>
  erase_cell (col (scr t)) (row (scr t)) ≫= fun _ => screen (set_col (col (scr t) + 1))).

Definition print_byte (byte : Z) : T unit :=
  with_t (fun t => if max_cols <=? col (scr t) then new_line else mret tt) ≫= fun _ =>
  with_t (fun t => if insert_mode (scr t) then insert_blank_chars 1 else mret tt) ≫= fun _ =>
  with_t (fun t =>
    set_cell (col (scr t)) (row (scr t)) (mkCell byte (fg (scr t)) (bg (scr t))) ≫= fun _ =>
    screen (set_col (col (scr t) + 1))) ≫= fun _ =>
  smodify (set_last byte).

Definition write_byte (byte : Z) : T unit :=
  hide_cursor_overlay ≫= fun _ =>
  if byte =? 10 then new_line ≫= fun _ => show_cursor_overlay
  else if byte =? 13 then screen (set_col 0) ≫= fun _ => show_cursor_overlay
  else if byte =? 9 then
    with_t (fun t =>
      let next_tab := (col (scr t) / 8 + 1) * 8 in
      sfor (range (col (scr t)) (Z.min next_tab max_cols)) (fun _ => tab_step)) ≫= fun _ => show_cursor_overlay
  else if byte =? 8 then
    with_t (fun t => if 0 <? col (scr t) then screen (set_col (col (scr t) - 1)) else mret tt) ≫= fun _ => show_cursor_overlay
  else if negb ((32 <=? byte) && (byte <=? 126)) then mret tt
  else print_byte byte ≫= fun _ => show_cursor_overlay.

(** ** Escape sequences *)

Definition ansi_color (i : Z) (bright : bool) : option Z :=
  if 8 <=? i then None else (if bright then ANSI_COLOR_BRIGHT else ANSI_COLOR_NORMAL) !! Z.to_nat i.

Definition between (a v b : Z) : bool := (a <=? v) && (v <=? b).
Definition set_fg (f : option Z) (s : Screen) : Screen := match f with Some v => set_colors v (bg s) s | None => s end.
Definition set_bg (b : option Z) (s : Screen) : Screen := match b with Some v => set_colors (fg s) v s | None => s end.

Definition apply_sgr_code (code : Z) (s : Screen) : Screen :=
  if code =? 0 then set_colors DEFAULT_FG DEFAULT_BG s
  else if between 30 code 37 then set_fg (ansi_color (code - 30) false) s
  else if between 90 code 97 then set_fg (ansi_color (code - 90) true) s
  else if code =? 39 then set_fg (Some DEFAULT_FG) s
  else if between 40 code 47 then set_bg (ansi_color (code - 40) false) s
  else if between 100 code 107 then set_bg (ansi_color (code - 100) true) s
  else if code =? 49 then set_bg (Some DEFAULT_BG) s
  else s.

Definition is_digit (b : Z) : bool := (48 <=? b) && (b <=? 57).

Fixpoint parse_digits (value : Z) (bs : list Z) : option Z :=
  match bs with
  | [] => Some value
  | b :: bs => if is_digit b then parse_digits (sat_add16 (sat_mul16 value 10) (b - 48)) bs else None
  end.
Definition parse_ascii_u16 (bs : list Z) : option Z := parse_digits 0 bs.

Definition reset_parser (p : Parser) : Parser := mkParser false false false false false false (seq p) 0.
Definition reset_ansi_parser : T unit := smodify (on_parser reset_parser).

Definition csi_private_prefix (p : Parser) : option Z :=
  if seq_len p =? 0 then None
  else match seq p with
       | b :: _ => if (b =? 63) || (b =? 62) || (b =? 33) then Some b else None
       | [] => None
       end.

(** The loop over the collected bytes from [i] on; [acc] holds those since [start]. *)
Fixpoint csi_split (bs acc : list Z) : list Z :=
  let emit := match acc with [] => [0] | _ => match parse_ascii_u16 acc with Some v => [v] | None => [] end end in
  match bs with
  | [] => emit
  | b :: bs => if b =? 59 then emit ++ csi_split bs [] else csi_split bs (acc ++ [b])
  end.
Definition csi_params_from (start_at : Z) (p : Parser) : list Z :=
  if seq_len p <? start_at then []
  else csi_split (drop (Z.to_nat start_at) (take (Z.to_nat (seq_len p)) (seq p))) [].
Definition csi_params_without_prefix (p : Parser) : list Z :=
  csi_params_from (match csi_private_prefix p with Some _ => 1 | None => 0 end) p.

Definition apply_sgr_sequence : T unit := with_t (fun t =>
  match csi_params_without_prefix (parser t) with
  | [] => screen (apply_sgr_code 0)
  | params => sfor params (fun code => screen (apply_sgr_code code))
  end).

Definition apply_mode (prefix : option Z) (enabled : bool) (mode : Z) : T unit :=
  match prefix with
  | Some p =>
      if p =? 63 then
        if mode =? 25 then smodify (set_visible enabled)
        else if (mode =? 47) || (mode =? 1047) || (mode =? 1049)
        then (if enabled then enter_alt_screen else leave_alt_screen)
        else mret tt
      else mret tt
  | None => if mode =? 4 then screen (set_insert enabled) else mret tt
  end.

Definition param (params : list Z) (i : nat) (dflt : Z) : Z :=
  let v := default dflt (params !! i) in if v =? 0 then dflt else v.

Definition last_col : Z := sat_sub max_cols 1.
Definition last_row : Z := sat_sub max_rows 1.
Definition restore_cursor (t : Terminal) : Terminal :=
  on_scr (set_pos (Z.min (saved_col t) last_col) (Z.min (saved_row t) last_row)) t.

Definition handle_csi_sequence (final : Z) : T unit := with_t (fun t =>
  let prefix := csi_private_prefix (parser t) in
  let params := csi_params_without_prefix (parser t) in
  let n := param params 0 1 in
  let s := scr t in
  let modes := match params with [] => [0] | _ => params end in
  if final =? 65 then screen (set_row (sat_sub (row s) n))
  else if final =? 66 then screen (set_row (Z.min (sat_add32 (row s) n) last_row))
  else if final =? 67 then screen (set_col (Z.min (sat_add32 (col s) n) last_col))
  else if final =? 68 then screen (set_col (sat_sub (col s) n))
  else if final =? 69 then screen (set_pos 0 (Z.min (sat_add32 (row s) n) last_row))
  else if final =? 70 then screen (set_pos 0 (sat_sub (row s) n))
  else if (final =? 72) || (final =? 102) then
    screen (set_pos (Z.min (sat_sub (param params 1 1) 1) last_col) (Z.min (sat_sub n 1) last_row))
  else if final =? 71 then screen (set_col (Z.min (sat_sub n 1) last_col))
  else if final =? 100 then screen (set_row (Z.min (sat_sub n 1) last_row))
  else if final =? 74 then
    let mode := default 0 (params !! 0%nat) in
    if mode =? 0 then erase_screen_range (row s) (col s) max_rows max_cols
    else if mode =? 1 then erase_screen_range 0 0 (row s + 1) (col s + 1)
    else if mode =? 2 then erase_screen_range 0 0 max_rows max_cols ≫= fun _ => screen (set_pos 0 0)
    else mret tt
  else if final =? 75 then
    let mode := default 0 (params !! 0%nat) in
    if mode =? 0 then erase_line_range (row s) (col s) max_cols
    else if mode =? 1 then erase_line_range (row s) 0 (col s + 1)
    else if mode =? 2 then erase_line_range (row s) 0 max_cols
    else mret tt
  else if final =? 115 then smodify save_cursor
  else if final =? 117 then smodify restore_cursor
  else if final =? 64 then insert_blank_chars n
  else if final =? 80 then delete_chars n
  else if final =? 76 then insert_blank_lines n
  else if final =? 77 then delete_lines n
  else if final =? 88 then erase_chars n
  else if final =? 114 then
    set_scroll_region (sat_sub n 1) (sat_sub (param params 1 (max_rows mod 65536)) 1)
  else if final =? 83 then scroll_region_up (scroll_top s) (scroll_bottom s) n
  else if final =? 84 then scroll_region_down (scroll_top s) (scroll_bottom s) n
  else if final =? 98 then sfor (range 0 n) (fun _ => with_t (fun t => write_byte (last_printable t)))
  else if final =? 104 then sfor modes (apply_mode prefix true)
  else if final =? 108 then sfor modes (apply_mode prefix false)
  else mret tt).

Definition set_esc (b : bool) (p : Parser) : Parser :=
  mkParser b (csi_mode p) (osc_mode p) (dcs_mode p) (osc_esc_pending p) (dcs_esc_pending p) (seq p) (seq_len p).
Definition start_csi (p : Parser) : Parser :=
  mkParser (esc_pending p) true (osc_mode p) (dcs_mode p) (osc_esc_pending p) (dcs_esc_pending p) (seq p) 0.
Definition start_osc (p : Parser) : Parser :=
  mkParser (esc_pending p) (csi_mode p) true (dcs_mode p) false (dcs_esc_pending p) (seq p) (seq_len p).
Definition start_dcs (p : Parser) : Parser :=
  mkParser (esc_pending p) (csi_mode p) (osc_mode p) true (osc_esc_pending p) false (seq p) (seq_len p).
Definition set_osc_esc (b : bool) (p : Parser) : Parser :=
  mkParser (esc_pending p) (csi_mode p) (osc_mode p) (dcs_mode p) b (dcs_esc_pending p) (seq p) (seq_len p).
Definition set_dcs_esc (b : bool) (p : Parser) : Parser :=
  mkParser (esc_pending p) (csi_mode p) (osc_mode p) (dcs_mode p) (osc_esc_pending p) b (seq p) (seq_len p).
Definition push_seq (byte : Z) (p : Parser) : Parser :=
  mkParser (esc_pending p) (csi_mode p) (osc_mode p) (dcs_mode p) (osc_esc_pending p) (dcs_esc_pending p)
    (<[Z.to_nat (seq_len p) := byte]> (seq p)) (seq_len p + 1).
Definition parse (f : Parser -> Parser) : T unit := smodify (on_parser f).

Definition after_dcs (byte : Z) (p : Parser) : T unit :=
  if byte =? 7 then reset_ansi_parser
  else if dcs_esc_pending p then parse (set_dcs_esc false) ≫= fun _ => if byte =? 92 then reset_ansi_parser else mret tt
  else if byte =? ESC then parse (set_dcs_esc true)
  else mret tt.

Definition after_osc (byte : Z) (p : Parser) : T unit :=
  if byte =? 7 then reset_ansi_parser
  else if osc_esc_pending p then parse (set_osc_esc false) ≫= fun _ => if byte =? 92 then reset_ansi_parser else mret tt
  else if byte =? ESC then parse (set_osc_esc true)
  else mret tt.

(** [ESC c] *)
Definition full_reset : T unit :=
  clear_screen ≫= fun _ =>
  screen (set_colors DEFAULT_FG DEFAULT_BG) ≫= fun _ =>
  smodify (set_visible true) ≫= fun _ =>
  smodify (set_alt None) ≫= fun _ =>
  smodify (set_last SPACE).

Definition after_esc (byte : Z) : T unit :=
  parse (set_esc false) ≫= fun _ =>
  if byte =? 91 then parse start_csi
  else if byte =? 93 then parse start_osc
  else if byte =? 80 then parse start_dcs
  else if byte =? 55 then smodify save_cursor
  else if byte =? 56 then smodify restore_cursor
  else if byte =? 68 then index
  else if byte =? 69 then new_line ≫= fun _ => screen (set_col 0)
  else if byte =? 77 then reverse_index
  else if byte =? 99 then full_reset
  else if byte =? ESC then parse (set_esc true)
  else mret tt.

Definition in_csi (byte : Z) (p : Parser) : T unit :=
  if byte =? 109 then apply_sgr_sequence ≫= fun _ => reset_ansi_parser
  else if between 32 byte 63 then
    if seq_len p <? Z.of_nat (length (seq p)) then parse (push_seq byte) else reset_ansi_parser
  else if between 64 byte 126 then handle_csi_sequence byte ≫= fun _ => reset_ansi_parser
  else reset_ansi_parser.

Definition write_output_byte (byte : Z) : T unit := with_t (fun t =>
  let p := parser t in
  if dcs_mode p then after_dcs byte p
  else if osc_mode p then after_osc byte p
  else if esc_pending p then after_esc byte
  else if csi_mode p then in_csi byte p
  else if byte =? ESC then parse (set_esc true)
  else write_byte byte).

(** [write_bytes] and [write_str] *)
Definition write_bytes (bs : list Z) : T unit :=
  hide_cursor_overlay ≫= fun _ => sfor bs write_output_byte ≫= fun _ => show_cursor_overlay.

(** The decimal digits, least first; 20 rounds are enough for 64 bits. *)
Fixpoint digits (k : nat) (n : Z) : list Z :=
  match k with
  | O => []
  | S k => if 0 <? n then (48 + n mod 10) :: digits k (n / 10) else []
  end.
Definition write_num (n : Z) : T unit :=
  if n =? 0 then write_byte 48 else sfor (rev (digits 20 n)) write_byte.

Definition new (pixels : Z -> Z) : Terminal :=
  mkTerminal pixels
    (mkScreen (replicate (Z.to_nat (max_cols * max_rows)) blank) 0 0 DEFAULT_FG DEFAULT_BG 0 (sat_sub max_rows 1) false)
    (mkParser false false false false false false (replicate (Z.to_nat ANSI_MAX_SEQ_LEN) 0) 0)
    (mkOverlay true false 0 0) 0 0 None SPACE.
End terminal.
End Term.
