(* ===== verification/TermDraw.v ===== *)
(** Drawing: what the frame buffer shows, and that drawing a character changes the
    pixels of its cell and no others. *)

From Stdlib Require Import ZArith Lia.
From stdpp Require Import base list option numbers.
From S2P Require Import Prelude State Term.
Import Term.

Local Open Scope Z_scope.

Module TermDraw.

(** What the operations rely on: a frame buffer of at least one cell whose size is a
    [u32], lines no longer than the stride, and a glyph table of the declared
    size. *)
Record geometry_ok (g : Geometry) : Prop := {
  go_width : FONT_WIDTH <= width g;
  go_height : FONT_HEIGHT <= height g;
  go_stride : width g <= stride g;
  go_size : height g * stride g < 2 ^ 32;
  go_glyphs : length (glyphs g) = Z.to_nat GLYPH_COUNT;
  go_rows : Forall (fun r => length r = Z.to_nat FONT_HEIGHT) (glyphs g);
}.

(** The colour of a pixel; the upper eight bits say whether it is opaque. *)
Definition rgb (v : Z) : Z := Z.land v 16777215.

Lemma rgb_opaque v : rgb (opaque v) = rgb v.
Proof. unfold rgb, opaque. rewrite Z.land_lor_distr_l. change (Z.land 4278190080 16777215) with 0. by rewrite Z.lor_0_r. Qed.

Lemma elem_of_range a b x : x ∈ range a b <-> a <= x < b.
Proof. unfold range. rewrite elem_of_seqZ. lia. Qed.
Lemma elem_of_range_incl a b x : x ∈ range_incl a b <-> a <= x <= b.
Proof. unfold range_incl. rewrite elem_of_seqZ. lia. Qed.

Section draw.
Context (g : Geometry) (Hg : geometry_ok g).
Notation max_cols := (max_cols g).
Notation max_rows := (max_rows g).

Lemma max_cols_pos : 0 < max_cols /\ max_cols * 6 <= width g.
Proof.
  destruct Hg. unfold Term.max_cols, FONT_WIDTH in *. pose proof (Z.div_mod (width g) 6). pose proof (Z.mod_pos_bound (width g) 6). lia.
Qed.
Lemma max_rows_pos : 0 < max_rows /\ max_rows * 12 <= height g.
Proof.
  destruct Hg. unfold Term.max_rows, FONT_HEIGHT in *. pose proof (Z.div_mod (height g) 12). pose proof (Z.mod_pos_bound (height g) 12). lia.
Qed.

(** The place of a pixel, and of the pixel (dx, dy) of a cell. *)
Definition offset (x y : Z) : Z := y * stride g + x.
Definition pixel (c r dx dy : Z) : Z := offset (c * 6 + dx) (r * 12 + dy).
Definition inside (x y : Z) : Prop := 0 <= x < width g /\ 0 <= y < height g.

Lemma offset_inj x y x' y' : inside x y -> inside x' y' -> offset x y = offset x' y' -> x = x' /\ y = y'.
Proof.
  unfold inside, offset. intros [Hx Hy] [Hx' Hy'] E. destruct Hg as [_ _ Hs _ _ _]. assert (y = y') as -> by nia. split; [lia|done].
Qed.

Lemma offset_fits x y : inside x y -> 0 <= offset x y < fb_len g /\ fb_len g < 2 ^ 32.
Proof. unfold inside, offset, fb_len. intros [Hx Hy]. destruct Hg as [_ _ Hs Hz _ _]. split; [nia|done]. Qed.

Definition on_screen (c r : Z) : Prop := 0 <= c < max_cols /\ 0 <= r < max_rows.

Lemma pixel_inside c r dx dy : on_screen c r -> 0 <= dx < 6 -> 0 <= dy < 12 -> inside (c * 6 + dx) (r * 12 + dy).
Proof. intros [Hc Hr] Hx Hy. destruct max_cols_pos, max_rows_pos. unfold inside. lia. Qed.

Lemma glyph_length ch : length (glyph g ch) = 12%nat.
Proof.
  unfold glyph. destruct Hg as [_ _ _ _ Hl Hr]. unfold GLYPH_COUNT, ASCII_END, ASCII_START in *.
  set (i := Z.to_nat _). assert (i < length (glyphs g))%nat as Hi.
  { unfold i. rewrite Hl. destruct (Z.leb_spec 32 ch), (Z.ltb_spec ch 127); cbn [andb]; lia. }
  apply lookup_lt_is_Some_2 in Hi as [x E]. rewrite E. cbn. rewrite Forall_lookup in Hr. by apply (Hr _ _ E).
Qed.

(** Bit (dx, dy) of a glyph. *)
Definition bit (ch dx dy : Z) : bool := negb (Z.land (Z.shiftr (default 0 (glyph g ch !! Z.to_nat dy)) (7 - dx)) 1 =? 0).

(** The cell at (c, r) shows the character in the given colours. *)
Definition displays (pixels : Z -> Z) (c r ch f b : Z) : Prop :=
  forall dx dy, 0 <= dx < 6 -> 0 <= dy < 12 -> rgb (pixels (pixel c r dx dy)) = rgb (if bit ch dx dy then f else b).

(** Nothing but the cell at (c, r) differs. *)
Definition outside_same (c r : Z) (p p' : Z -> Z) : Prop :=
  forall x y, inside x y -> ~ (c * 6 <= x < c * 6 + 6 /\ r * 12 <= y < r * 12 + 12) -> p' (offset x y) = p (offset x y).

Lemma put_pixel_spec x y v t :
  inside x y -> put_pixel g x y v t = Some (tt, set_fb (fun z => if z =? offset x y then opaque v else fb t z) t).
Proof.
  intros Hi. destruct (offset_fits x y Hi) as [Ho Hf]. destruct Hi as [Hx Hy]. unfold put_pixel.
  rewrite (proj2 (Z.leb_gt _ _)), (proj2 (Z.leb_gt _ _)) by lia. cbn [orb]. unfold u32, in_u32. fold (offset x y).
  rewrite (proj2 (Z.leb_le _ _)), (proj2 (Z.ltb_lt _ _)) by lia. cbn [andb]. by rewrite (proj2 (Z.ltb_lt _ _)) by lia.
Qed.

(** A row of pixels, then the whole character: the state is as before but for the
    frame buffer. *)
Lemma draw_line bits x0 y f b t :
  0 <= x0 -> x0 + 6 <= width g -> 0 <= y < height g ->
  exists p, sfor (range 0 FONT_WIDTH) (fun c => put_pixel g (x0 + c) y (if Z.land (Z.shiftr bits (7 - c)) 1 =? 0 then b else f)) t =
      Some (tt, set_fb p t) /\
    (forall dx, 0 <= dx < 6 -> p (offset (x0 + dx) y) = opaque (if Z.land (Z.shiftr bits (7 - dx)) 1 =? 0 then b else f)) /\
    (forall x' y', inside x' y' -> ~ (x0 <= x' < x0 + 6 /\ y' = y) -> p (offset x' y') = fb t (offset x' y')).
Proof.
  intros Hx0 Hx Hy.
  destruct (sfor_inv (fun l s => exists k p, l = range k 6 /\ 0 <= k <= 6 /\ s = set_fb p t /\
    (forall dx, 0 <= dx < k -> p (offset (x0 + dx) y) = opaque (if Z.land (Z.shiftr bits (7 - dx)) 1 =? 0 then b else f)) /\
    (forall x' y', inside x' y' -> ~ (x0 <= x' < x0 + k /\ y' = y) -> p (offset x' y') = fb t (offset x' y')))
    (fun c => put_pixel g (x0 + c) y (if Z.land (Z.shiftr bits (7 - c)) 1 =? 0 then b else f)) (range 0 FONT_WIDTH) t) as (s' & E & k & p & Hl & Hk & -> & H1 & H2).
  - exists 0, (fb t). split; [done|]. split; [lia|]. split; [by destruct t|]. split; [lia|]. done.
  - intros c l s (k & p & Hl & Hk & -> & H1 & H2). unfold range in Hl.
    destruct (Z.eq_dec k 6) as [->|]; [by rewrite seqZ_nil in Hl|]. rewrite seqZ_cons in Hl by lia. injection Hl as -> ->.
    eexists. split; [apply put_pixel_spec; unfold inside; lia|]. exists (k + 1). eexists. split; [unfold range; f_equal; lia|]. split; [lia|].
    split; [done|]. cbn [fb set_fb]. split.
    + intros dx Hdx. destruct (Z.eqb_spec (offset (x0 + dx) y) (offset (x0 + k) y)) as [Eo|Hne].
      * apply offset_inj in Eo; [|unfold inside; lia..]. by replace dx with k by lia.
      * apply H1. assert (dx <> k) by (intros ->; done). lia.
    + intros x' y' Hi Hn. destruct (Z.eqb_spec (offset x' y') (offset (x0 + k) y)) as [Eo|Hne].
      * apply offset_inj in Eo as [-> ->]; [|done|unfold inside; lia]. exfalso. apply Hn. lia.
      * apply H2; [done|]. intros [? ->]. apply Hn. split; [lia|done].
  - assert (k = 6) as ->. { unfold range in Hl. destruct (Z.eq_dec k 6); [done|]. by rewrite seqZ_cons in Hl by lia. }
    exists p. done.
Qed.

Lemma draw_rows_spec c r f b rows k t :
  on_screen c r -> 0 <= k -> k + Z.of_nat (length rows) <= 12 ->
  exists p, draw_rows g rows k (c * 6) (r * 12) f b t = Some (tt, set_fb p t) /\
    (forall dx j bits, 0 <= dx < 6 -> rows !! j = Some bits ->
       p (pixel c r dx (k + Z.of_nat j)) = opaque (if Z.land (Z.shiftr bits (7 - dx)) 1 =? 0 then b else f)) /\
    (forall x y, inside x y -> ~ (c * 6 <= x < c * 6 + 6 /\ r * 12 + k <= y < r * 12 + k + Z.of_nat (length rows)) -> p (offset x y) = fb t (offset x y)).
Proof.
  intros Hs. destruct max_cols_pos as [Hc1 Hc2], max_rows_pos as [Hr1 Hr2]. pose proof Hs as [Hc Hr].
  revert k t. induction rows as [|bits rows IH]; intros k t Hk Hl; cbn [draw_rows length] in *.
  - exists (fb t). split; [by destruct t|]. split; [done|]. done.
  - rewrite (proj2 (Z.leb_gt _ _)) by lia. unfold FONT_WIDTH at 1. rewrite (proj2 (Z.ltb_ge _ _)) by lia.
    destruct (draw_line bits (c * 6) (r * 12 + k) f b t) as (p & E & P1 & P2); [lia..|]. rewrite (st_bind_eq _ _ _ _ _ E).
    destruct (IH (k + 1) (set_fb p t)) as (p' & E' & Q1 & Q2); [lia|lia|]. exists p'. split; [by rewrite E'; destruct t|]. split.
    + intros dx [|j] bits' Hdx; cbn [lookup list_lookup].
      * intros [= <-]. unfold pixel. rewrite Q2; [|apply pixel_inside; [done|lia|lia]|lia]. cbn [fb set_fb]. replace (k + Z.of_nat 0) with k by lia. by apply P1.
      * intros Hj. replace (k + Z.of_nat (S j)) with (k + 1 + Z.of_nat j) by lia. by apply Q1.
    + intros x y Hi Hn. rewrite Q2 by (done || lia). apply P2; [done|lia].
Qed.

Lemma draw_spec c r ch f b t :
  on_screen c r -> exists p, draw_char_pixels g ch c r f b t = Some (tt, set_fb p t) /\ displays p c r ch f b /\ outside_same c r (fb t) p.
Proof.
  intros Hs. destruct max_cols_pos as [Hc1 Hc2], max_rows_pos as [Hr1 Hr2]. pose proof Hs as [Hc Hr]. destruct Hg as [_ _ Hst Hsz _ _].
  unfold draw_char_pixels, u32, in_u32, FONT_WIDTH, FONT_HEIGHT.
  assert (width g < 2 ^ 32 /\ height g < 2 ^ 32) as [? ?] by nia.
  rewrite (proj2 (Z.leb_le 0 (c * 6))), (proj2 (Z.ltb_lt (c * 6) _)) by lia. cbn [andb].
  rewrite (proj2 (Z.leb_le 0 (r * 12))), (proj2 (Z.ltb_lt (r * 12) _)) by lia. cbn [andb].
  destruct (draw_rows_spec c r f b (glyph g ch) 0 t) as (p & E & P1 & P2); [done|lia|rewrite glyph_length; lia|].
  exists p. split; [done|]. split.
  - intros dx dy Hdx Hdy. destruct (glyph g ch !! Z.to_nat dy) as [bits|] eqn:Eb.
    + specialize (P1 dx _ _ Hdx Eb). rewrite Z2Nat.id, Z.add_0_l in P1 by lia. rewrite P1, rgb_opaque. unfold bit. rewrite Eb. cbn [default].
      unfold default, id. by destruct (_ =? 0).
    + apply lookup_ge_None in Eb. rewrite glyph_length in Eb. lia.
  - intros x y Hi Hn. rewrite P2; [done|done|]. rewrite glyph_length. lia.
Qed.

(** Other cells keep their pixels. *)
Lemma displays_other p p' c r c' r' ch f b :
  on_screen c r -> on_screen c' r' -> (c', r') <> (c, r) -> outside_same c r p p' -> displays p c' r' ch f b -> displays p' c' r' ch f b.
Proof.
  intros Hs Hs' Hne Ho Hd dx dy Hx Hy. unfold pixel. rewrite Ho; [by apply Hd|by apply pixel_inside|].
  intros [? ?]. apply Hne. f_equal; lia.
Qed.
End draw.
End TermDraw.
