(* ===== verification/TermGrid.v ===== *)
(** The screen as a grid of cells: each editing operation of the terminal moves and
    fills cells as a reference function on grids says, and keeps the frame buffer in
    step. *)

From Stdlib Require Import ZArith Lia.
From stdpp Require Import base list option numbers relations.
From S2P Require Import Prelude State Term TermDraw.
Import Term TermDraw.

Local Open Scope Z_scope.

Module TermGrid.

(** ** Loops that assign to one key after another

    [view s k j] is what state [s] holds at key [k] (and a second index [j]).  Round
    [a] assigns to the key [dst a] a value computed from the view before it, of which
    it reads the keys [dep a].  When no round reads or assigns a key that an earlier
    round assigned, all values are those computed from the first view. *)

Section loops.
Context {S A V : Type} (f : A -> ST S unit) (dst : A -> Z) (dep : A -> Z -> Prop) (view : S -> Z -> Z -> V)
  (val : A -> (Z -> Z -> V) -> Z -> V) (R : S -> S -> Prop) `{!PreOrder R}.

Fixpoint ordered (l : list A) : Prop :=
  match l with
  | [] => True
  | a :: l => (forall b, b ∈ l -> dst b <> dst a /\ ~ dep b (dst a)) /\ ordered l
  end.

Hypothesis val_local : forall a v v', (forall k j, dep a k -> v k j = v' k j) -> forall j, val a v j = val a v' j.

Lemma sfor_assign (ok : S -> Prop) l s :
  (forall a s, a ∈ l -> ok s -> exists s', f a s = Some (tt, s') /\ R s s' /\ ok s' /\
     forall k j, view s' k j = if decide (k = dst a) then val a (view s) j else view s k j) ->
  ok s -> ordered l ->
  exists s', sfor l f s = Some (tt, s') /\ R s s' /\ ok s' /\
    (forall a j, a ∈ l -> view s' (dst a) j = val a (view s) j) /\
    (forall k j, (forall a, a ∈ l -> k <> dst a) -> view s' k j = view s k j).
Proof.
  revert s. induction l as [|a l IH]; intros s Hstep Hok Hord.
  - exists s. split; [done|]. split; [reflexivity|]. split; [done|]. split; [intros a j Ha; by apply not_elem_of_nil in Ha|done].
  - destruct Hord as [Ha Hord]. destruct (Hstep a s) as (s1 & E & HR & Hok1 & Hv); [left|done|].
    destruct (IH s1) as (s2 & E2 & HR2 & Hok2 & H1 & H2); [|done|done|].
    { intros b s' Hb. apply Hstep. by right. }
    exists s2. cbn [sfor]. rewrite (st_bind_eq _ _ _ _ _ E). split; [done|]. split; [by transitivity s1|]. split; [done|].
    split.
    + intros b j [->|Hb]%elem_of_cons.
      * rewrite H2 by (intros b Hb; destruct (Ha b Hb); congruence). rewrite Hv. by rewrite decide_True.
      * rewrite H1 by done. apply val_local. intros k j' Hd. rewrite Hv. rewrite decide_False; [done|].
        intros ->. by destruct (Ha b Hb).
    + intros k j Hk. rewrite H2 by (intros b Hb; apply Hk; by right). rewrite Hv. rewrite decide_False; [done|]. apply Hk. left.
Qed.
End loops.

Section ordered_ranges.
Context (dst : Z -> Z) (dep : Z -> Z -> Prop).

Lemma ordered_seq a n : (forall x y, a <= x -> x < y -> y < a + n -> dst y <> dst x /\ ~ dep y (dst x)) -> ordered dst dep (seqZ a n).
Proof.
  intros H. destruct (decide (n <= 0)); [by rewrite seqZ_nil by lia|]. assert (exists m, n = Z.of_nat m) as [m ->] by (exists (Z.to_nat n); lia).
  revert a H n0. induction m as [|m IH]; intros a H _; [by rewrite seqZ_nil by lia|]. rewrite seqZ_cons by lia. cbn [ordered]. split.
  - intros b Hb%elem_of_seqZ. apply H; lia.
  - destruct m as [|m]; [by rewrite seqZ_nil by lia|]. replace (Z.pred (Z.of_nat (S (S m)))) with (Z.of_nat (S m)) by lia. apply IH; [|lia]. intros. apply H; lia.
Qed.

Lemma ordered_app l1 l2 :
  ordered dst dep l1 -> ordered dst dep l2 -> (forall x y, x ∈ l1 -> y ∈ l2 -> dst y <> dst x /\ ~ dep y (dst x)) -> ordered dst dep (l1 ++ l2).
Proof.
  induction l1 as [|a l1 IH]; [done|]. intros [Ha H1] H2 H. cbn [app ordered]. split.
  - intros b [Hb|Hb]%elem_of_app; [by apply Ha|]. apply H; [left|done].
  - apply IH; [done|done|]. intros x y Hx Hy. apply H; [by right|done].
Qed.

Lemma ordered_rev a n : (forall x y, a <= x -> x < y -> y < a + n -> dst x <> dst y /\ ~ dep x (dst y)) -> ordered dst dep (rev (seqZ a n)).
Proof.
  intros H. destruct (decide (n <= 0)); [by rewrite seqZ_nil by lia|]. assert (exists m, n = Z.of_nat m) as [m ->] by (exists (Z.to_nat n); lia).
  revert a H n0. induction m as [|m IH]; intros a H _; [by rewrite seqZ_nil by lia|]. rewrite seqZ_cons by lia. cbn [rev]. apply ordered_app.
  - destruct m as [|m]; [by rewrite seqZ_nil by lia|]. replace (Z.pred (Z.of_nat (S (S m)))) with (Z.of_nat (S m)) by lia. apply IH; [|lia]. intros. apply H; lia.
  - cbn. split; [|done]. intros b Hb. by apply not_elem_of_nil in Hb.
  - intros x y Hx Hy. apply list_elem_of_In, in_rev, list_elem_of_In, elem_of_seqZ in Hx. apply list_elem_of_singleton in Hy as ->. apply H; lia.
Qed.
End ordered_ranges.

Lemma elem_of_rev {A} (l : list A) x : x ∈ rev l <-> x ∈ l.
Proof. by rewrite !list_elem_of_In, <-in_rev. Qed.

(** ** Reference functions *)

(** [n] keys of [lo..hi] up (towards [lo]) or down; the freed ones get [x]. *)
Definition shift_up {V} (lo hi n : Z) (x : V) (v : Z -> V) (k : Z) : V :=
  if decide (lo <= k <= hi) then (if decide (k + n <= hi) then v (k + n) else x) else v k.
Definition shift_down {V} (lo hi n : Z) (x : V) (v : Z -> V) (k : Z) : V :=
  if decide (lo <= k <= hi) then (if decide (lo <= k - n) then v (k - n) else x) else v k.

Section grid.
Context (g : Geometry) (Hg : geometry_ok g).
Notation max_cols := (max_cols g).
Notation max_rows := (max_rows g).
Notation on_screen := (on_screen g).
Implicit Types t : Terminal.

#[global] Instance on_screen_dec c r : Decision (on_screen c r).
Proof. unfold TermDraw.on_screen. apply _. Defined.

Definition grid t (c r : Z) : Cell :=
  if decide (on_screen c r) then default blank (cells (scr t) !! Z.to_nat (r * max_cols + c)) else blank.

Definition cells_ok t : Prop := length (cells (scr t)) = Z.to_nat (max_cols * max_rows).

(** Only cells and pixels differ. *)
Definition edits t t' : Prop := exists p cs, t' = set_fb p (on_scr (set_cells cs) t) /\ length cs = length (cells (scr t)).

#[global] Instance edits_preorder : PreOrder edits.
Proof.
  split.
  - intros t. exists (fb t), (cells (scr t)). split; [|done]. by destruct t as [? []].
  - intros t1 t2 t3 (p1 & cs1 & -> & H1) (p2 & cs2 & -> & H2). exists p2, cs2. split; [done|]. cbn in *. congruence.
Qed.

Lemma edits_cells_ok t t' : edits t t' -> cells_ok t -> cells_ok t'.
Proof. intros (p & cs & -> & H). unfold cells_ok. cbn. congruence. Qed.

Lemma edits_fb t p : edits t (set_fb p t).
Proof. exists p, (cells (scr t)). split; [|done]. by destruct t as [? []]. Qed.

(** Every cell is shown, those of [W] perhaps with the colours swapped. *)
Definition cell_shown t (inverted : bool) (c r : Z) : Prop :=
  let x := grid t c r in
  if inverted then displays g (fb t) c r (c_ch x) (c_bg x) (c_fg x) else displays g (fb t) c r (c_ch x) (c_fg x) (c_bg x).
Definition shown (W : Z -> Z -> Prop) t : Prop := forall c r, on_screen c r -> cell_shown t false c r \/ (W c r /\ cell_shown t true c r).
(** An operation from [t] to [t'] keeps what is shown in step. *)
Definition keeps_shown t t' : Prop := forall W, shown W t -> shown W t'.
Definition shown_plain t : Prop := forall c r, on_screen c r -> cell_shown t false c r.

Lemma shown_plain_shown W t : shown_plain t -> shown W t.
Proof. intros H c r Hs. left. by apply H. Qed.

Lemma on_screen_pos c r : on_screen c r -> 0 <= r * max_cols + c < max_cols * max_rows.
Proof. intros [Hc Hr]. nia. Qed.

Lemma index_on_screen c r : on_screen c r -> cell_index g c r = Some (r * max_cols + c).
Proof. intros [Hc Hr]. unfold cell_index. rewrite (proj2 (Z.leb_gt _ _)), (proj2 (Z.leb_gt _ _)) by lia. done. Qed.

Lemma index_off_screen c r : 0 <= c -> 0 <= r -> ~ on_screen c r -> cell_index g c r = None.
Proof.
  intros Hc Hr Hn. unfold cell_index. unfold TermDraw.on_screen in Hn.
  destruct (Z.leb_spec max_cols c), (Z.leb_spec max_rows r); try done. cbn [orb]. lia.
Qed.

Lemma get_cell_spec c r t : cells_ok t -> 0 <= c -> 0 <= r -> get_cell g c r t = Some (grid t c r, t).
Proof.
  intros Hok Hc Hr. unfold get_cell, grid. destruct (decide _) as [Hs|Hn].
  - rewrite index_on_screen by done. unfold load_cell, sderef. apply on_screen_pos in Hs.
    destruct (_ !! _) eqn:E; [done|]. apply lookup_ge_None in E. unfold cells_ok in Hok. lia.
  - by rewrite index_off_screen.
Qed.

Lemma store_grid c r x t t' :
  on_screen c r -> cells_ok t -> t' = on_scr (fun s => set_cells (<[Z.to_nat (r * max_cols + c) := x]> (cells s)) s) t ->
  forall c' r', grid t' c' r' = if decide (c' = c /\ r' = r) then x else grid t c' r'.
Proof.
  intros Hs Hok -> c' r'. unfold grid. cbn [cells scr on_scr set_cells]. pose proof (on_screen_pos c r Hs) as Hp. unfold cells_ok in Hok.
  destruct (decide (on_screen c' r')) as [Hs'|Hn].
  - pose proof (on_screen_pos c' r' Hs') as Hp'. destruct (decide (c' = c /\ r' = r)) as [[-> ->]|Hne].
    + rewrite list_lookup_insert_eq by lia. done.
    + rewrite list_lookup_insert_ne; [done|]. intros E. apply Hne. destruct Hs, Hs'. assert (r * max_cols + c = r' * max_cols + c') by lia.
      assert (r = r') by nia. split; nia.
  - by rewrite decide_False by (intros [-> ->]; done).
Qed.

Lemma store_cell_spec c r x t :
  on_screen c r -> cells_ok t ->
  exists t', store_cell (r * max_cols + c) x t = Some (tt, t') /\ edits t t' /\ fb t' = fb t /\
    forall c' r', grid t' c' r' = if decide (c' = c /\ r' = r) then x else grid t c' r'.
Proof.
  intros Hs Hok. eexists. split; [|split; [|split; [|by eapply store_grid]]].
  - unfold store_cell. rewrite (proj2 (Z.ltb_lt _ _)); [done|]. unfold cells_ok in Hok. apply on_screen_pos in Hs. lia.
  - eexists (fb t), _. split; [by destruct t|]. by rewrite length_insert.
  - done.
Qed.

Lemma set_cell_only_spec c r x t :
  on_screen c r -> cells_ok t ->
  exists t', set_cell_only g c r x t = Some (tt, t') /\ edits t t' /\ forall c' r', grid t' c' r' = if decide (c' = c /\ r' = r) then x else grid t c' r'.
Proof.
  intros Hs Hok. unfold set_cell_only. rewrite index_on_screen by done.
  destruct (store_cell_spec c r x t Hs Hok) as (t' & E & H1 & _ & H2). eauto.
Qed.

Lemma grid_set_fb t p c r : grid (set_fb p t) c r = grid t c r.
Proof. done. Qed.

(** After a cell has been drawn, everything is shown if it was before. *)
Lemma shown_draw W t t1 c r x p :
  on_screen c r -> shown W t -> fb t1 = fb t ->
  (forall c' r', grid t1 c' r' = if decide (c' = c /\ r' = r) then x else grid t c' r') ->
  displays g p c r (c_ch x) (c_fg x) (c_bg x) -> outside_same g c r (fb t1) p -> shown W (set_fb p t1).
Proof.
  intros Hs Hsh Ef Hg1 Hd Hout c' r' Hs'. destruct (decide (c' = c /\ r' = r)) as [[-> ->]|Hne].
  - left. unfold cell_shown. rewrite grid_set_fb, Hg1, decide_True by done. done.
  - assert (forall b, cell_shown t b c' r' -> cell_shown (set_fb p t1) b c' r') as Hk.
    { intros b. unfold cell_shown. rewrite grid_set_fb, Hg1, decide_False by done. rewrite Ef in Hout.
      assert ((c', r') <> (c, r)) by (intros [= -> ->]; by apply Hne). destruct b; by apply (displays_other g Hg (fb t) p c r). }
    destruct (Hsh c' r' Hs') as [H|[Hc H]]; [left; by apply Hk|right]. split; [done|by apply Hk].
Qed.

(** The outcome of an operation that edits: the new grid, and the frame buffer in
    step. *)
Definition edit_run (m : T unit) t (G : Z -> Z -> Cell) : Prop :=
  exists t', m t = Some (tt, t') /\ edits t t' /\ keeps_shown t t' /\ forall c r, on_screen c r -> grid t' c r = G c r.

Lemma edits_overlay t t' : edits t t' -> overlay t' = overlay t.
Proof. by intros (p & cs & -> & _). Qed.

Definition updated (G : Z -> Z -> Cell) (c r : Z) (x : Cell) (c' r' : Z) : Cell := if decide (c' = c /\ r' = r) then x else G c' r'.

Lemma set_cell_spec c r x t :
  0 <= c -> 0 <= r -> cells_ok t ->
  exists t', set_cell g c r x t = Some (tt, t') /\ edits t t' /\ keeps_shown t t' /\
    forall c' r', grid t' c' r' = if decide (on_screen c r) then updated (grid t) c r x c' r' else grid t c' r'.
Proof.
  intros Hc Hr Hok. unfold set_cell. destruct (decide (on_screen c r)) as [Hs|Hn].
  - rewrite index_on_screen by done. destruct (store_cell_spec c r x t Hs Hok) as (t1 & E & He & Hf & Hgr). rewrite (st_bind_eq _ _ _ _ _ E).
    destruct (draw_spec g Hg c r (c_ch x) (c_fg x) (c_bg x) t1 Hs) as (p & E2 & Hd & Ho). exists (set_fb p t1).
    split; [done|]. split; [transitivity t1; [done|apply edits_fb]|]. split; [|exact Hgr].
    intros W Hsh. by apply (shown_draw W t t1 c r x p).
  - rewrite index_off_screen by done. exists t. split; [done|]. split; [reflexivity|]. split; [by intros W|done].
Qed.

(** Loops keep their runs in this form. *)
Definition loop_rel t t' : Prop := edits t t' /\ keeps_shown t t'.
#[global] Instance loop_rel_preorder : PreOrder loop_rel.
Proof.
  split; [intros t; split; [reflexivity|by intros W]|]. intros t1 t2 t3 [H1 H2] [H3 H4]. split; [by transitivity t2|]. intros W HW. by apply H4, H2.
Qed.

Lemma grid_off t c r : ~ on_screen c r -> grid t c r = blank.
Proof. intros H. unfold grid. by rewrite decide_False. Qed.

(** ** Lines and parts of lines *)

Lemma cells_ok_trans t t' : cells_ok t -> edits t t' -> cells_ok t'.
Proof. intros H He. by apply (edits_cells_ok t). Qed.

Lemma edits_space t t' : edits t t' -> space_cell (scr t') = space_cell (scr t).
Proof. by intros (p & cs & -> & _). Qed.

Lemma erase_line_spec r a b t :
  0 <= r -> 0 <= a -> cells_ok t ->
  exists t', erase_line_range g r a b t = Some (tt, t') /\ loop_rel t t' /\
    forall c' r', grid t' c' r' = if decide (r' = r /\ a <= c' < b /\ on_screen c' r') then space_cell (scr t) else grid t c' r'.
Proof.
  intros Hr Ha Hok. unfold erase_line_range. destruct (Z.leb_spec max_rows r) as [Hoff|Hin].
  { exists t. split; [done|]. split; [reflexivity|]. intros c' r'. rewrite decide_False; [done|]. unfold TermDraw.on_screen. lia. }
  set (e := Z.min b max_cols). set (x := space_cell (scr t)).
  destruct (sfor_assign (fun c => erase_cell g c r) id (fun c k => k = c) grid (fun c v j => if decide (j = r) then x else v c j) loop_rel)
    with (ok := fun s => cells_ok s /\ space_cell (scr s) = x) (l := range (Z.min a e) e) (s := t) as (t' & E & HR & _ & H1 & H2); try done.
  - intros c v v' Hv j. destruct (decide _); [done|]. by apply Hv.
  - intros c s Hc%elem_of_range [Hs Hx]. unfold erase_cell, with_t. rewrite Hx.
    destruct (set_cell_spec c r x s) as (s' & E & He & Hsh & Hgr); [lia|done|done|]. exists s'. split; [done|]. split; [done|].
    split; [split; [by apply (cells_ok_trans s)|by rewrite (edits_space s s')]|]. intros k j. rewrite Hgr.
    rewrite decide_True by (unfold TermDraw.on_screen; lia). unfold updated, id. destruct (decide (k = c)) as [->|]; [|by rewrite decide_False by tauto].
    destruct (decide (j = r)); [by rewrite decide_True|by rewrite decide_False by tauto].
  - apply ordered_seq. unfold id. lia.
  - unfold id in H1, H2. exists t'. split; [done|]. split; [done|]. intros c' r'. destruct (decide (c' ∈ range (Z.min a e) e)) as [Hin'|Hout].
    + rewrite (H1 c' r' Hin'). apply elem_of_range in Hin'. destruct (decide (r' = r)) as [->|]; [|by rewrite decide_False by tauto].
      rewrite decide_True; [done|]. unfold TermDraw.on_screen. lia.
    + rewrite H2 by (intros a' Ha'; congruence). rewrite elem_of_range in Hout. rewrite decide_False; [done|]. unfold TermDraw.on_screen. lia.
Qed.

Lemma move_cell_spec c0 r0 c1 r1 t :
  0 <= c0 -> 0 <= r0 -> on_screen c1 r1 -> cells_ok t ->
  exists t', move_cell g c0 r0 c1 r1 t = Some (tt, t') /\ loop_rel t t' /\ forall c r, grid t' c r = updated (grid t) c1 r1 (grid t c0 r0) c r.
Proof.
  intros Hc Hr Hs Hok. unfold move_cell. rewrite (st_bind_eq _ _ _ _ _ (get_cell_spec c0 r0 t Hok Hc Hr)).
  destruct (set_cell_spec c1 r1 (grid t c0 r0) t) as (t' & E & He & Hsh & Hgr); [destruct Hs; lia|destruct Hs; lia|done|].
  exists t'. split; [done|]. split; [done|]. intros c r. by rewrite Hgr, decide_True.
Qed.

(** A line copied onto another, with or without drawing. *)
Lemma line_loop (f : Z -> T unit) (R : Terminal -> Terminal -> Prop) `{!PreOrder R} src dst t :
  0 <= src -> 0 <= dst < max_rows -> cells_ok t -> (forall t1 t2, R t1 t2 -> edits t1 t2) ->
  (forall c s, on_screen c dst -> cells_ok s ->
     exists s', f c s = Some (tt, s') /\ R s s' /\ forall c' r', grid s' c' r' = updated (grid s) c dst (grid s c src) c' r') ->
  exists t', sfor (range 0 max_cols) f t = Some (tt, t') /\ R t t' /\
    forall c r, grid t' c r = if decide (r = dst) then grid t c src else grid t c r.
Proof.
  intros Hsrc Hdst Hok HRe Hf.
  destruct (sfor_assign f id (fun c k => k = c) grid (fun c v j => if decide (j = dst) then v c src else v c j) R)
    with (ok := cells_ok) (l := range 0 max_cols) (s := t) as (t' & E & HR & _ & H1 & H2); try done.
  - intros c v v' Hv j. destruct (decide _); by apply Hv.
  - intros c s Hc%elem_of_range Hs. destruct (Hf c s) as (s' & E & HR & Hgr); [unfold TermDraw.on_screen; lia|done|].
    exists s'. split; [done|]. split; [done|]. split; [apply (cells_ok_trans s); auto|]. intros k j. rewrite Hgr. unfold updated, id.
    destruct (decide (k = c)) as [->|]; [|by rewrite decide_False by tauto].
    destruct (decide (j = dst)); [by rewrite decide_True|by rewrite decide_False by tauto].
  - apply ordered_seq. unfold id. lia.
  - unfold id in H1, H2. exists t'. split; [done|]. split; [done|]. intros c r. destruct (decide (c ∈ range 0 max_cols)) as [Hin|Hout].
    + by rewrite (H1 c r Hin).
    + rewrite H2 by (intros a Ha; congruence). rewrite elem_of_range in Hout.
      destruct (decide (r = dst)) as [->|]; [|done]. rewrite !grid_off by (unfold TermDraw.on_screen; lia). done.
Qed.

Lemma move_line_spec src dst t :
  0 <= src -> 0 <= dst < max_rows -> cells_ok t ->
  exists t', move_line g src dst t = Some (tt, t') /\ loop_rel t t' /\ forall c r, grid t' c r = if decide (r = dst) then grid t c src else grid t c r.
Proof.
  intros Hs Hd Hok. apply line_loop; try done; [by apply _|by intros ? ? []|]. intros c s Hc Hs'. apply move_cell_spec; try done. destruct Hc. lia.
Qed.

Lemma copy_row_spec src dst t :
  0 <= src -> 0 <= dst < max_rows -> cells_ok t ->
  exists t', copy_row g src dst t = Some (tt, t') /\ edits t t' /\ forall c r, grid t' c r = if decide (r = dst) then grid t c src else grid t c r.
Proof.
  intros Hs Hd Hok. apply line_loop; try done; [by apply _|]. intros c s Hc Hs'.
  rewrite (st_bind_eq _ _ _ _ _ (get_cell_spec c src s Hs' ltac:(destruct Hc; lia) Hs)). by apply set_cell_only_spec.
Qed.

Lemma blank_row_spec dst t :
  0 <= dst < max_rows -> cells_ok t ->
  exists t', blank_row g dst t = Some (tt, t') /\ edits t t' /\ forall c r, grid t' c r = if decide (r = dst) then blank else grid t c r.
Proof.
  intros Hd Hok. destruct (line_loop (fun c => set_cell_only g c dst blank) edits max_rows dst t) as (t' & E & He & Hgr); try done; [lia| |].
  - intros c s Hc Hs'. rewrite (grid_off s c max_rows) by (unfold TermDraw.on_screen; lia). by apply set_cell_only_spec.
  - exists t'. split; [done|]. split; [done|]. intros c r. rewrite Hgr. by rewrite (grid_off t c max_rows) by (unfold TermDraw.on_screen; lia).
Qed.

(** ** Redrawing *)

Lemma redraw_step (P : Z -> Z -> Prop) c r t :
  on_screen c r -> cells_ok t -> (forall c' r', P c' r' -> on_screen c' r' -> cell_shown t false c' r') ->
  exists p, (get_cell g c r ≫= fun x => draw_char_pixels g (c_ch x) c r (c_fg x) (c_bg x)) t = Some (tt, set_fb p t) /\
    forall c' r', P c' r' \/ (c' = c /\ r' = r) -> on_screen c' r' -> cell_shown (set_fb p t) false c' r'.
Proof.
  intros Hs Hok HP. rewrite (st_bind_eq _ _ _ _ _ (get_cell_spec c r t Hok ltac:(destruct Hs; lia) ltac:(destruct Hs; lia))).
  set (x := grid t c r). destruct (draw_spec g Hg c r (c_ch x) (c_fg x) (c_bg x) t Hs) as (p & E & Hd & Ho).
  exists p. split; [done|]. intros c' r' Hc' Hs'. destruct (decide (c' = c /\ r' = r)) as [[-> ->]|Hne]; [exact Hd|].
  destruct Hc' as [Hc'|]; [|done]. specialize (HP c' r' Hc' Hs'). unfold cell_shown in *. rewrite grid_set_fb.
  apply (displays_other g Hg (fb t) p c r); try done. intros [= -> ->]. by apply Hne.
Qed.

Lemma redraw_row (P : Z -> Z -> Prop) r t :
  0 <= r < max_rows -> cells_ok t -> (forall c' r', P c' r' -> on_screen c' r' -> cell_shown t false c' r') ->
  exists p, sfor (range 0 max_cols) (fun c => get_cell g c r ≫= fun x => draw_char_pixels g (c_ch x) c r (c_fg x) (c_bg x)) t = Some (tt, set_fb p t) /\
    forall c' r', P c' r' \/ r' = r -> on_screen c' r' -> cell_shown (set_fb p t) false c' r'.
Proof.
  intros Hr Hok HP. destruct (max_cols_pos g Hg) as [Hmc _].
  destruct (sfor_inv (fun l s => exists k p, l = range k max_cols /\ 0 <= k <= max_cols /\ s = set_fb p t /\
    forall c' r', P c' r' \/ (r' = r /\ c' < k) -> on_screen c' r' -> cell_shown (set_fb p t) false c' r')
    (fun c => get_cell g c r ≫= fun x => draw_char_pixels g (c_ch x) c r (c_fg x) (c_bg x)) (range 0 max_cols) t) as (s' & E & k & p & Hl & Hk & -> & H).
  - exists 0, (fb t). split; [done|]. split; [lia|]. split; [by destruct t|]. intros c' r' [HP'|[-> Hlt]] Hs'; [|destruct Hs'; lia].
    specialize (HP c' r' HP' Hs'). by destruct t.
  - intros c l s (k & p & Hl & Hk & -> & H). unfold range in Hl. destruct (Z.eq_dec k max_cols) as [->|]; [by rewrite seqZ_nil in Hl by lia|].
    rewrite seqZ_cons in Hl by lia. injection Hl as -> ->.
    destruct (redraw_step (fun c' r' => P c' r' \/ (r' = r /\ c' < k)) k r (set_fb p t)) as (p' & E & H'); [unfold TermDraw.on_screen; lia|done|done|].
    eexists. split; [exact E|]. exists (k + 1), p'. split; [unfold range; f_equal; lia|]. split; [lia|]. split; [by destruct t|].
    intros c' r' Hc' Hs'. apply H'; [|done]. destruct Hc' as [|[-> ?]]; [by left; left|]. destruct (decide (c' = k)) as [->|]; [by right|left; right; split; [done|lia]].
  - assert (k = max_cols) as ->. { unfold range in Hl. destruct (Z.eq_dec k max_cols); [done|]. by rewrite seqZ_cons in Hl by lia. }
    exists p. split; [done|]. intros c' r' [| ->] Hs'; [apply H; [by left|done]|]. apply H; [right; split; [done|destruct Hs'; lia]|done].
Qed.

Lemma redraw_spec t : cells_ok t -> exists p, redraw_from_cells g t = Some (tt, set_fb p t) /\ shown_plain (set_fb p t).
Proof.
  intros Hok. destruct (max_rows_pos g Hg) as [Hmr _].
  destruct (sfor_inv (fun l s => exists k p, l = range k max_rows /\ 0 <= k <= max_rows /\ s = set_fb p t /\
    forall c' r', r' < k -> on_screen c' r' -> cell_shown (set_fb p t) false c' r')
    (fun r => sfor (range 0 max_cols) (fun c => get_cell g c r ≫= fun x => draw_char_pixels g (c_ch x) c r (c_fg x) (c_bg x)))
    (range 0 max_rows) t) as (s' & E & k & p & Hl & Hk & -> & H).
  - exists 0, (fb t). split; [done|]. split; [lia|]. split; [by destruct t|]. intros c' r' Hlt [_ Hs']. lia.
  - intros r l s (k & p & Hl & Hk & -> & H). unfold range in Hl. destruct (Z.eq_dec k max_rows) as [->|]; [by rewrite seqZ_nil in Hl by lia|].
    rewrite seqZ_cons in Hl by lia. injection Hl as -> ->.
    destruct (redraw_row (fun c' r' => r' < k) k (set_fb p t)) as (p' & E & H'); [lia|done|done|].
    eexists. split; [exact E|]. exists (k + 1), p'. split; [unfold range; f_equal; lia|]. split; [lia|]. split; [by destruct t|].
    intros c' r' Hc' Hs'. apply H'; [|done]. destruct (decide (r' = k)); [by right|left; lia].
  - assert (k = max_rows) as ->. { unfold range in Hl. destruct (Z.eq_dec k max_rows); [done|]. by rewrite seqZ_cons in Hl by lia. }
    exists p. split; [done|]. intros c r Hs. apply H; [destruct Hs; lia|done].
Qed.

(** ** Scrolling *)

(** Rows copied from [n] below or above, then blanked. *)
Lemma rows_loop (f : Z -> T unit) (src : Z -> option Z) l t :
  (forall r s, r ∈ l -> cells_ok s -> exists s', f r s = Some (tt, s') /\ edits s s' /\
     forall c r', grid s' c r' = if decide (r' = r) then match src r with Some q => grid s c q | None => blank end else grid s c r') ->
  ordered id (fun r k => src r = Some k) l -> cells_ok t ->
  exists t', sfor l f t = Some (tt, t') /\ edits t t' /\ cells_ok t' /\
    forall c r, grid t' c r = if decide (r ∈ l) then match src r with Some q => grid t c q | None => blank end else grid t c r.
Proof.
  intros Hf Hord Hok.
  destruct (sfor_assign f id (fun r k => src r = Some k) (fun s r c => grid s c r)
    (fun r v c => match src r with Some q => v q c | None => blank end) edits) with (ok := cells_ok) (l := l) (s := t)
    as (t' & E & HR & Hok' & H1 & H2); try done.
  - intros r v v' Hv c. destruct (src r) as [q|]; [|done]. by apply Hv.
  - intros r s Hr Hs. destruct (Hf r s Hr Hs) as (s' & E & He & Hgr). exists s'. split; [done|]. split; [done|]. split; [by apply (cells_ok_trans s)|].
    intros k c. by rewrite Hgr.
  - unfold id in H1, H2. exists t'. split; [done|]. split; [done|]. split; [done|]. intros c r. destruct (decide (r ∈ l)) as [Hin|Hout].
    + by rewrite (H1 r c Hin).
    + apply H2. intros a Ha. congruence.
Qed.

Definition clamp (count top bottom : Z) : Z := Z.min (Z.max count 1) (bottom - top + 1).

(** The exact effect: when the whole of a region that begins at the top of the screen
    scrolls away, its first row is taken from below the region. *)
Lemma scroll_up_spec top bottom count t :
  0 <= top -> bottom < max_rows -> top < bottom -> cells_ok t ->
  exists t', scroll_region_up g top bottom count t = Some (tt, t') /\ edits t t' /\ shown_plain t' /\
    forall c r, grid t' c r =
      if decide (r = 0 /\ top = 0 /\ clamp count top bottom = bottom + 1) then grid t c (bottom + 1)
      else shift_up top bottom (clamp count top bottom) blank (grid t c) r.
Proof.
  intros Ht Hb Htb Hok. unfold scroll_region_up. rewrite (proj2 (Z.eqb_neq max_rows 0)) by lia.
  destruct (max_cols_pos g Hg) as [Hmc _]. rewrite (proj2 (Z.eqb_neq max_cols 0)), (proj2 (Z.leb_gt _ _)) by lia. cbn [orb].
  change (Z.min (Z.max count 1) (bottom - top + 1)) with (clamp count top bottom).
  set (n := clamp count top bottom). assert (1 <= n <= bottom - top + 1) as Hn by (unfold n, clamp; lia).
  set (m := sat_sub bottom n). assert (m = Z.max 0 (bottom - n)) as Hm by done.
  destruct (rows_loop (fun r => copy_row g (r + n) r) (fun r => Some (r + n)) (range_incl top m) t) as (t1 & E1 & He1 & Hok1 & H1); [| |done|].
  { intros r s Hr%elem_of_range_incl Hs. apply copy_row_spec; [lia|lia|done]. }
  { apply ordered_seq. unfold id. intros x y ? ? ?. split; [lia|]. intros [= ?]. lia. }
  rewrite (st_bind_eq _ _ _ _ _ E1).
  destruct (rows_loop (blank_row g) (fun r => None) (range_incl (m + 1) bottom) t1) as (t2 & E2 & He2 & Hok2 & H2); [| |done|].
  { intros r s Hr%elem_of_range_incl Hs. apply blank_row_spec; [lia|done]. }
  { apply ordered_seq. unfold id. intros x y ? ? ?. split; [lia|done]. }
  rewrite (st_bind_eq _ _ _ _ _ E2). destruct (redraw_spec t2 Hok2) as (p & E3 & Hsh). exists (set_fb p t2). split; [done|].
  split; [transitivity t1; [done|]; transitivity t2; [done|apply edits_fb]|]. split; [done|].
  intros c r. rewrite grid_set_fb, H2, H1. unfold shift_up.
  destruct (decide (r ∈ range_incl (m + 1) bottom)) as [Hin|Hout]; [apply elem_of_range_incl in Hin|rewrite elem_of_range_incl in Hout].
  - rewrite decide_False by lia. by rewrite decide_True, decide_False by lia.
  - destruct (decide (r ∈ range_incl top m)) as [Hin|Hout2]; [apply elem_of_range_incl in Hin|rewrite elem_of_range_incl in Hout2].
    + destruct (decide (r = 0 /\ _)) as [(-> & -> & Hall)|Hno]; [by rewrite Hall|]. rewrite !decide_True by lia. done.
    + rewrite decide_False by lia. by rewrite decide_False by lia.
Qed.

Lemma scroll_down_spec top bottom count t :
  0 <= top -> bottom < max_rows -> top < bottom -> cells_ok t ->
  exists t', scroll_region_down g top bottom count t = Some (tt, t') /\ edits t t' /\ shown_plain t' /\
    forall c r, grid t' c r = shift_down top bottom (clamp count top bottom) blank (grid t c) r.
Proof.
  intros Ht Hb Htb Hok. unfold scroll_region_down. rewrite (proj2 (Z.eqb_neq max_rows 0)) by lia.
  destruct (max_cols_pos g Hg) as [Hmc _]. rewrite (proj2 (Z.eqb_neq max_cols 0)), (proj2 (Z.leb_gt _ _)) by lia. cbn [orb].
  change (Z.min (Z.max count 1) (bottom - top + 1)) with (clamp count top bottom).
  set (n := clamp count top bottom). assert (1 <= n <= bottom - top + 1) as Hn by (unfold n, clamp; lia).
  destruct (rows_loop (fun r => copy_row g (r - n) r) (fun r => Some (r - n)) (rev (range_incl (top + n) bottom)) t) as (t1 & E1 & He1 & Hok1 & H1); [| |done|].
  { intros r s Hr Hs. rewrite elem_of_rev, elem_of_range_incl in Hr. apply copy_row_spec; [lia|lia|done]. }
  { apply ordered_rev. unfold id. intros x y ? ? ?. split; [lia|]. intros [= ?]. lia. }
  rewrite (st_bind_eq _ _ _ _ _ E1).
  destruct (rows_loop (blank_row g) (fun r => None) (range top (top + n)) t1) as (t2 & E2 & He2 & Hok2 & H2); [| |done|].
  { intros r s Hr%elem_of_range Hs. apply blank_row_spec; [lia|done]. }
  { apply ordered_seq. unfold id. intros x y ? ? ?. split; [lia|done]. }
  rewrite (st_bind_eq _ _ _ _ _ E2). destruct (redraw_spec t2 Hok2) as (p & E3 & Hsh). exists (set_fb p t2). split; [done|].
  split; [transitivity t1; [done|]; transitivity t2; [done|apply edits_fb]|]. split; [done|].
  intros c r. rewrite grid_set_fb, H2, H1. unfold shift_down.
  destruct (decide (r ∈ range top (top + n))) as [Hin|Hout]; [apply elem_of_range in Hin|rewrite elem_of_range in Hout].
  - by rewrite decide_True, decide_False by lia.
  - destruct (decide (r ∈ rev (range_incl (top + n) bottom))) as [Hin|Hout2]; rewrite elem_of_rev, elem_of_range_incl in *.
    + by rewrite !decide_True by lia.
    + by rewrite decide_False by lia.
Qed.

(** ** Inserting and deleting *)

(** Cells of one row moved from [src] to [dst]. *)
Lemma chars_loop (src dst : Z -> Z) row l t :
  0 <= row < max_rows -> cells_ok t -> (forall c, c ∈ l -> 0 <= src c /\ 0 <= dst c < max_cols) ->
  ordered dst (fun c k => k = src c \/ k = dst c) l ->
  exists t', sfor l (fun c => move_cell g (src c) row (dst c) row) t = Some (tt, t') /\ loop_rel t t' /\
    (forall c, c ∈ l -> grid t' (dst c) row = grid t (src c) row) /\
    (forall k r, (r <> row \/ forall c, c ∈ l -> k <> dst c) -> grid t' k r = grid t k r).
Proof.
  intros Hrow Hok Hl Hord.
  destruct (sfor_assign (fun c => move_cell g (src c) row (dst c) row) dst (fun c k => k = src c \/ k = dst c) grid
    (fun c v j => if decide (j = row) then v (src c) row else v (dst c) j) loop_rel) with (ok := cells_ok) (l := l) (s := t)
    as (t' & E & HR & _ & H1 & H2); try done.
  - intros c v v' Hv j. destruct (decide _); apply Hv; tauto.
  - intros c s Hc Hs. destruct (Hl c Hc) as [Hsc Hdc]. destruct (move_cell_spec (src c) row (dst c) row s) as (s' & E & HR & Hgr); [lia|lia|unfold TermDraw.on_screen; lia|done|].
    exists s'. split; [done|]. split; [done|]. split; [apply (cells_ok_trans s); [done|by destruct HR]|]. intros k j. rewrite Hgr. unfold updated.
    destruct (decide (k = dst c)) as [->|]; [|by rewrite decide_False by tauto].
    destruct (decide (j = row)); [by rewrite decide_True|by rewrite decide_False by tauto].
  - exists t'. split; [done|]. split; [done|]. split.
    + intros c Hc. rewrite (H1 c row Hc). by rewrite decide_True.
    + intros k r [Hr|Hk]; [|by apply H2]. destruct (decide (k ∈ dst <$> l)) as [Hin|Hout].
      * apply list_elem_of_fmap in Hin as (c & -> & Hc). rewrite (H1 c r Hc). by rewrite decide_False.
      * apply H2. intros c Hc ->. apply Hout. apply list_elem_of_fmap. eauto.
Qed.

(** The new grid when only row [row] changes. *)
Definition in_row (row : Z) (line : Z -> Cell) (G : Z -> Z -> Cell) (c r : Z) : Cell := if decide (r = row) then line c else G c r.

Lemma insert_chars_spec count t :
  0 <= row (scr t) < max_rows -> 0 <= col (scr t) < max_cols -> 1 <= count -> cells_ok t ->
  edit_run (insert_blank_chars g count) t
    (in_row (row (scr t)) (shift_down (col (scr t)) (max_cols - 1) (Z.min count (max_cols - col (scr t))) (space_cell (scr t)) (fun c => grid t c (row (scr t)))) (grid t)).
Proof.
  intros Hr Hc Hn Hok. set (ro := row (scr t)) in *. set (co := col (scr t)) in *. unfold edit_run, insert_blank_chars, with_t, off_screen. fold ro co.
  rewrite (proj2 (Z.leb_gt _ _)), (proj2 (Z.leb_gt _ _)), (proj2 (Z.eqb_neq _ _)) by lia. cbn [orb].
  set (n := Z.min count (max_cols - co)). assert (1 <= n <= max_cols - co) as Hn' by lia.
  destruct (chars_loop (fun c => c - n - 1) (fun c => c - 1) ro (rev (range_incl (co + n + 1) max_cols)) t) as (t1 & E1 & [He1 Hs1] & H1 & H2); [lia|done| | |].
  { intros c Hcc. rewrite elem_of_rev, elem_of_range_incl in Hcc. lia. }
  { apply ordered_rev. lia. }
  rewrite (st_bind_eq _ _ _ _ _ E1).
  destruct (erase_line_spec ro co (co + n) t1) as (t2 & E2 & [He2 Hs2] & H3); [lia|lia|by apply (cells_ok_trans t)|].
  exists t2. split; [done|]. split; [by transitivity t1|]. split; [intros W HW; by apply Hs2, Hs1|]. intros c r Hos. rewrite H3, (edits_space t t1) by done. unfold in_row, shift_down.
  destruct (decide (r = ro)) as [->|Hro].
  - destruct Hos as [Hc' Hr']. destruct (decide (ro = ro /\ _)) as [(_ & Hcc & _)|Hno].
    + by rewrite decide_True, decide_False by lia.
    + assert (~ (co <= c < co + n)) as Hno' by (intros ?; apply Hno; split; [done|]; split; [done|]; by split).
      destruct (decide (co <= c <= max_cols - 1)) as [Hcc|Hcc].
      * rewrite decide_True by lia. pose proof (H1 (c + 1)) as Hm. replace (c + 1 - 1) with c in Hm by lia. rewrite Hm; [f_equal; lia|].
        rewrite elem_of_rev, elem_of_range_incl. lia.
      * apply H2. right. intros a Ha. rewrite elem_of_rev, elem_of_range_incl in Ha. lia.
  - rewrite decide_False by tauto. apply H2. by left.
Qed.

Lemma delete_chars_spec count t :
  0 <= row (scr t) < max_rows -> 0 <= col (scr t) < max_cols -> 1 <= count -> cells_ok t ->
  edit_run (delete_chars g count) t
    (in_row (row (scr t)) (shift_up (col (scr t)) (max_cols - 1) (Z.min count (max_cols - col (scr t))) (space_cell (scr t)) (fun c => grid t c (row (scr t)))) (grid t)).
Proof.
  intros Hr Hc Hn Hok. set (ro := row (scr t)) in *. set (co := col (scr t)) in *. unfold edit_run, delete_chars, with_t, off_screen. fold ro co.
  rewrite (proj2 (Z.leb_gt _ _)), (proj2 (Z.leb_gt _ _)), (proj2 (Z.eqb_neq _ _)) by lia. cbn [orb].
  set (n := Z.min count (max_cols - co)). assert (1 <= n <= max_cols - co) as Hn' by lia.
  destruct (chars_loop (fun c => c + n) (fun c => c) ro (range co (max_cols - n)) t) as (t1 & E1 & [He1 Hs1] & H1 & H2); [lia|done| | |].
  { intros c Hcc%elem_of_range. lia. }
  { apply ordered_seq. lia. }
  rewrite (st_bind_eq _ _ _ _ _ E1).
  destruct (erase_line_spec ro (max_cols - n) max_cols t1) as (t2 & E2 & [He2 Hs2] & H3); [lia|lia|by apply (cells_ok_trans t)|].
  exists t2. split; [done|]. split; [by transitivity t1|]. split; [intros W HW; by apply Hs2, Hs1|]. intros c r Hos. rewrite H3, (edits_space t t1) by done. unfold in_row, shift_up.
  destruct (decide (r = ro)) as [->|Hro].
  - destruct Hos as [Hc' Hr']. destruct (decide (ro = ro /\ _)) as [(_ & Hcc & _)|Hno].
    + by rewrite decide_True, decide_False by lia.
    + assert (~ (max_cols - n <= c < max_cols)) as Hno' by (intros ?; apply Hno; split; [done|]; split; [done|]; by split).
      destruct (decide (co <= c <= max_cols - 1)) as [Hcc|Hcc].
      * rewrite decide_True by lia. apply (H1 c). apply elem_of_range. lia.
      * apply H2. right. intros a Ha%elem_of_range. lia.
  - rewrite decide_False by tauto. apply H2. by left.
Qed.

Lemma erase_chars_spec count t :
  0 <= row (scr t) < max_rows -> 0 <= col (scr t) < max_cols -> 1 <= count -> cells_ok t ->
  edit_run (erase_chars g count) t (fun c r => if decide (r = row (scr t) /\ col (scr t) <= c < col (scr t) + count) then space_cell (scr t) else grid t c r).
Proof.
  intros Hr Hc Hn Hok. unfold edit_run, erase_chars, with_t, off_screen.
  rewrite (proj2 (Z.leb_gt _ _)), (proj2 (Z.leb_gt _ _)), (proj2 (Z.eqb_neq _ _)) by lia. cbn [orb].
  destruct (erase_line_spec (row (scr t)) (col (scr t)) (col (scr t) + Z.min count (max_cols - col (scr t))) t) as (t2 & E2 & [He2 Hs2] & H3); [lia|lia|done|].
  exists t2. split; [done|]. split; [done|]. split; [done|]. intros c r Hos. rewrite H3. destruct Hos as [Hc' Hr'].
  destruct (decide (r = row (scr t) /\ col (scr t) <= c < col (scr t) + count)) as [[-> ?]|Hno].
  - rewrite decide_True; [done|]. split; [done|]. split; [lia|]. by split.
  - rewrite decide_False; [done|]. intros (-> & ? & _). apply Hno. split; [done|lia].
Qed.

(** Whole lines, drawn as they move. *)
Lemma lines_loop (src dst : Z -> Z) l t :
  cells_ok t -> (forall r, r ∈ l -> 0 <= src r /\ 0 <= dst r < max_rows) -> ordered dst (fun r k => k = src r) l ->
  exists t', sfor l (fun r => move_line g (src r) (dst r)) t = Some (tt, t') /\ loop_rel t t' /\
    (forall r c, r ∈ l -> grid t' c (dst r) = grid t c (src r)) /\
    (forall k c, (forall r, r ∈ l -> k <> dst r) -> grid t' c k = grid t c k).
Proof.
  intros Hok Hl Hord.
  destruct (sfor_assign (fun r => move_line g (src r) (dst r)) dst (fun r k => k = src r) (fun s r c => grid s c r)
    (fun r v c => v (src r) c) loop_rel) with (ok := cells_ok) (l := l) (s := t) as (t' & E & HR & _ & H1 & H2); try done.
  - intros r v v' Hv c. by apply Hv.
  - intros r s Hr Hs. destruct (Hl r Hr) as [Hsr Hdr]. destruct (move_line_spec (src r) (dst r) s) as (s' & E & HR & Hgr); [done|done|done|].
    exists s'. split; [done|]. split; [done|]. split; [apply (cells_ok_trans s); [done|by destruct HR]|]. intros k c. by rewrite Hgr.
  - exists t'. split; [done|]. split; [done|]. split; [intros r c; apply H1|intros k c; apply H2].
Qed.

Lemma erase_lines_spec a b t :
  0 <= a -> b <= max_rows -> cells_ok t ->
  exists t', erase_lines g a b t = Some (tt, t') /\ loop_rel t t' /\
    forall c r, grid t' c r = if decide (a <= r < b /\ on_screen c r) then space_cell (scr t) else grid t c r.
Proof.
  intros Ha Hb Hok. set (x := space_cell (scr t)).
  destruct (sfor_assign (fun r => erase_line_range g r 0 max_cols) id (fun r k => k = r) (fun s r c => grid s c r)
    (fun r v c => if decide (on_screen c r) then x else v r c) loop_rel)
    with (ok := fun s => cells_ok s /\ space_cell (scr s) = x) (l := range a b) (s := t) as (t' & E & HR & _ & H1 & H2); try done.
  - intros r v v' Hv c. destruct (decide _); [done|]. by apply Hv.
  - intros r s Hr%elem_of_range [Hs Hx]. destruct (erase_line_spec r 0 max_cols s) as (s' & E & HR & Hgr); [lia|lia|done|].
    exists s'. split; [done|]. split; [done|]. split; [destruct HR; split; [by apply (cells_ok_trans s)|by rewrite (edits_space s s')]|].
    intros k c. rewrite Hgr, Hx. unfold id. destruct (decide (k = r)) as [->|]; [|by rewrite decide_False by tauto].
    destruct (decide (on_screen c r)) as [Hs'|Hn]; [|by rewrite decide_False by tauto]. rewrite decide_True; [done|]. split; [done|]. split; [by destruct Hs'|done].
  - apply ordered_seq. unfold id. lia.
  - unfold id in H1, H2. exists t'. split; [done|]. split; [done|]. intros c r. destruct (decide (r ∈ range a b)) as [Hin|Hout].
    + rewrite (H1 r c Hin). apply elem_of_range in Hin. destruct (decide (on_screen c r)); [by rewrite decide_True|by rewrite decide_False by tauto].
    + rewrite H2 by congruence. rewrite elem_of_range in Hout. by rewrite decide_False by tauto.
Qed.

Definition region_ok (s : Screen) : Prop := 0 <= scroll_top s <= scroll_bottom s /\ scroll_bottom s < max_rows.

Lemma normalize_id s : region_ok s -> normalize_region g s = s.
Proof.
  intros [Ht Hb]. unfold normalize_region. rewrite (proj2 (Z.eqb_neq _ _)) by lia.
  rewrite (proj2 (Z.leb_gt _ (scroll_top s))), (proj2 (Z.leb_gt _ (scroll_bottom s))), (proj2 (Z.ltb_ge _ _)) by lia. by destruct s.
Qed.

Lemma normalize_run t : region_ok (scr t) -> normalize_scroll_region g t = Some (tt, t).
Proof. intros H. unfold normalize_scroll_region, screen, smodify, on_scr. rewrite normalize_id by done. by destruct t. Qed.

Definition rows_of (G : Z -> Z -> Cell) (h : (Z -> Cell) -> Z -> Cell) (c r : Z) : Cell := h (G c) r.

Lemma insert_lines_spec count t :
  region_ok (scr t) -> scroll_top (scr t) <= row (scr t) <= scroll_bottom (scr t) -> 1 <= count -> cells_ok t ->
  edit_run (insert_blank_lines g count) t
    (rows_of (grid t) (shift_down (row (scr t)) (scroll_bottom (scr t)) (Z.min count (scroll_bottom (scr t) + 1 - row (scr t))) (space_cell (scr t)))).
Proof.
  intros Hreg Hr Hn Hok. unfold edit_run, insert_blank_lines. rewrite (st_bind_eq _ _ _ _ _ (normalize_run t Hreg)).
  set (ro := row (scr t)) in *. set (bo := scroll_bottom (scr t)) in *. destruct Hreg as [Ht Hb]. unfold with_t, outside_region. fold ro bo.
  rewrite (proj2 (Z.leb_gt _ _)), (proj2 (Z.eqb_neq _ _)), (proj2 (Z.ltb_ge _ _)), (proj2 (Z.ltb_ge _ _)) by (fold bo in Ht, Hb; lia). cbn [orb].
  fold bo in Ht, Hb. set (n := Z.min count (bo + 1 - ro)). assert (1 <= n <= bo + 1 - ro) as Hn' by lia.
  destruct (lines_loop (fun r => r - n - 1) (fun r => r - 1) (rev (range_incl (ro + n + 1) (bo + 1))) t) as (t1 & E1 & [He1 Hs1] & H1 & H2); [done| | |].
  { intros r Hrr. rewrite elem_of_rev, elem_of_range_incl in Hrr. lia. }
  { apply ordered_rev. lia. }
  rewrite (st_bind_eq _ _ _ _ _ E1).
  destruct (erase_lines_spec ro (ro + n) t1) as (t2 & E2 & [He2 Hs2] & H3); [lia|lia|by apply (cells_ok_trans t)|].
  exists t2. split; [done|]. split; [by transitivity t1|]. split; [intros W HW; by apply Hs2, Hs1|]. intros c r Hos. rewrite H3, (edits_space t t1) by done. unfold rows_of, shift_down.
  destruct (decide (ro <= r < ro + n /\ on_screen c r)) as [[Hrr _]|Hno]; [by rewrite decide_True, decide_False by lia|].
  assert (~ (ro <= r < ro + n)) by tauto. destruct (decide (ro <= r <= bo)).
  - rewrite decide_True by lia. pose proof (H1 (r + 1) c) as Hm. replace (r + 1 - 1) with r in Hm by lia. rewrite Hm; [f_equal; lia|].
    rewrite elem_of_rev, elem_of_range_incl. lia.
  - apply H2. intros a Ha. rewrite elem_of_rev, elem_of_range_incl in Ha. lia.
Qed.

Lemma delete_lines_spec count t :
  region_ok (scr t) -> scroll_top (scr t) <= row (scr t) <= scroll_bottom (scr t) -> 1 <= count -> cells_ok t ->
  edit_run (delete_lines g count) t
    (rows_of (grid t) (shift_up (row (scr t)) (scroll_bottom (scr t)) (Z.min count (scroll_bottom (scr t) - row (scr t) + 1)) (space_cell (scr t)))).
Proof.
  intros Hreg Hr Hn Hok. unfold edit_run, delete_lines. rewrite (st_bind_eq _ _ _ _ _ (normalize_run t Hreg)).
  set (ro := row (scr t)) in *. set (bo := scroll_bottom (scr t)) in *. destruct Hreg as [Ht Hb]. unfold with_t, outside_region. fold ro bo.
  fold bo in Ht, Hb. rewrite (proj2 (Z.leb_gt _ _)), (proj2 (Z.eqb_neq _ _)), (proj2 (Z.ltb_ge _ _)), (proj2 (Z.ltb_ge _ _)) by lia. cbn [orb].
  set (n := Z.min count (bo - ro + 1)). assert (1 <= n <= bo - ro + 1) as Hn' by lia.
  destruct (lines_loop (fun r => r + n) (fun r => r) (range ro (bo + 1 - n)) t) as (t1 & E1 & [He1 Hs1] & H1 & H2); [done| | |].
  { intros r Hrr%elem_of_range. lia. }
  { apply ordered_seq. lia. }
  rewrite (st_bind_eq _ _ _ _ _ E1).
  destruct (erase_lines_spec (bo + 1 - n) (bo + 1) t1) as (t2 & E2 & [He2 Hs2] & H3); [lia|lia|by apply (cells_ok_trans t)|].
  exists t2. split; [done|]. split; [by transitivity t1|]. split; [intros W HW; by apply Hs2, Hs1|]. intros c r Hos. rewrite H3, (edits_space t t1) by done. unfold rows_of, shift_up.
  destruct (decide (bo + 1 - n <= r < bo + 1 /\ on_screen c r)) as [[Hrr _]|Hno]; [by rewrite decide_True, decide_False by lia|].
  assert (~ (bo + 1 - n <= r < bo + 1)) by tauto. destruct (decide (ro <= r <= bo)).
  - rewrite decide_True by lia. apply (H1 r c). apply elem_of_range. lia.
  - apply H2. intros a Ha%elem_of_range. lia.
Qed.

(** C23. The editing operations do to the screen what their reference functions on
    grids say: inserting and deleting characters and lines and scrolling down shift
    the cells by the (clamped) count and fill the freed ones, erasing fills; none
    panics or writes outside the frame buffer, and the frame buffer stays in step
    with the cells. *)
Theorem editing_matches_reference count t :
  cells_ok t -> region_ok (scr t) -> 0 <= row (scr t) < max_rows -> 0 <= col (scr t) < max_cols -> 1 <= count ->
  let s := scr t in
  let line c := grid t c (row s) in
  let n := Z.min count (max_cols - col s) in
  edit_run (insert_blank_chars g count) t (in_row (row s) (shift_down (col s) (max_cols - 1) n (space_cell s) line) (grid t)) /\
  edit_run (delete_chars g count) t (in_row (row s) (shift_up (col s) (max_cols - 1) n (space_cell s) line) (grid t)) /\
  edit_run (erase_chars g count) t (fun c r => if decide (r = row s /\ col s <= c < col s + count) then space_cell s else grid t c r) /\
  (scroll_top s <= row s <= scroll_bottom s ->
   let k := Z.min count (scroll_bottom s - row s + 1) in
   edit_run (insert_blank_lines g count) t (rows_of (grid t) (shift_down (row s) (scroll_bottom s) k (space_cell s))) /\
   edit_run (delete_lines g count) t (rows_of (grid t) (shift_up (row s) (scroll_bottom s) k (space_cell s)))) /\
  (scroll_top s < scroll_bottom s ->
   let k := Z.min count (scroll_bottom s - scroll_top s + 1) in
   edit_run (scroll_region_down g (scroll_top s) (scroll_bottom s) count) t
     (rows_of (grid t) (shift_down (scroll_top s) (scroll_bottom s) k blank))).
Proof.
  intros Hok Hreg Hr Hc Hn. cbv zeta. split; [by apply insert_chars_spec|]. split; [by apply delete_chars_spec|]. split; [by apply erase_chars_spec|]. split.
  - intros Hin. split; [|by apply delete_lines_spec].
    replace (scroll_bottom (scr t) - row (scr t) + 1) with (scroll_bottom (scr t) + 1 - row (scr t)) by lia. by apply insert_lines_spec.
  - intros Hlt. pose proof Hreg as [Ht Hb]. destruct (scroll_down_spec (scroll_top (scr t)) (scroll_bottom (scr t)) count t) as (t' & E & He & Hsh & Hgr); [lia|lia|lia|done|].
    exists t'. split; [done|]. split; [done|]. split; [intros W _; by apply shown_plain_shown|]. intros c r _. rewrite Hgr. unfold rows_of, clamp.
    by rewrite Z.max_l by lia.
Qed.

(** Scrolling up shifts the rows of the region by the clamped count and blanks the
    freed ones, with one exception: when a region that begins at the first row
    scrolls by its whole height, its first row is not blanked but shows the row below
    the region. *)
Theorem scroll_up_exact top bottom count t :
  cells_ok t -> 0 <= top -> top < bottom -> bottom < max_rows ->
  edit_run (scroll_region_up g top bottom count) t (fun c r =>
    if decide (r = 0 /\ top = 0 /\ bottom + 1 <= Z.max count 1) then grid t c (bottom + 1)
    else shift_up top bottom (Z.min (Z.max count 1) (bottom - top + 1)) blank (grid t c) r).
Proof.
  intros Hok Ht Htb Hb. destruct (scroll_up_spec top bottom count t) as (t' & E & He & Hsh & Hgr); [lia|lia|lia|done|].
  exists t'. split; [done|]. split; [done|]. split; [intros W _; by apply shown_plain_shown|]. intros c r _. rewrite Hgr. unfold clamp.
  destruct (decide (r = 0 /\ top = 0 /\ bottom + 1 <= _)) as [H|H]; [by rewrite decide_True by lia|by rewrite decide_False by lia].
Qed.
End grid.
End TermGrid.
