(* ===== verification/TermProps.v ===== *)
(** The terminal as a whole: any output keeps it well formed and its frame buffer in
    step with its cells; output does not depend on how it is cut into writes; plain
    text is shown exactly; a cursor that an escape sequence moves leaves a ghost. *)

From Stdlib Require Import ZArith Lia.
From stdpp Require Import base list option numbers relations.
From S2P Require Import Prelude State Term TermDraw TermGrid.
Import Term TermDraw TermGrid.

Local Open Scope Z_scope.

Module TermProps.

Section terminal.
Context (g : Geometry) (Hg : geometry_ok g).
Notation max_cols := (max_cols g).
Notation max_rows := (max_rows g).
Notation on_screen := (on_screen g).
Notation shown := (shown g).
Notation keeps_shown := (keeps_shown g).
Implicit Types t : Terminal.

(** ** Well-formed terminals *)

Record screen_ok (s : Screen) : Prop := {
  so_cells : length (cells s) = Z.to_nat (max_cols * max_rows);
  so_col : 0 <= col s <= max_cols;
  so_row : 0 <= row s < max_rows;
  so_region : region_ok g s;
}.

Record term_ok t : Prop := {
  to_scr : screen_ok (scr t);
  to_alt : forall s, alt_screen t = Some s -> screen_ok s;
  to_seq : length (seq (parser t)) = Z.to_nat ANSI_MAX_SEQ_LEN;
  to_seq_len : 0 <= seq_len (parser t) <= ANSI_MAX_SEQ_LEN;
  to_saved : 0 <= saved_col t /\ 0 <= saved_row t;
  to_drawn : cursor_drawn (overlay t) = true -> on_screen (draw_col (overlay t)) (draw_row (overlay t));
  to_last : 32 <= last_printable t <= 126;
}.

Lemma ok_cells t : term_ok t -> cells_ok g t.
Proof. by intros [[]]. Qed.

Lemma edits_ok t t' : term_ok t -> edits t t' -> term_ok t'.
Proof.
  intros [[] ? ? ? ? ? ?] (p & cs & -> & E). split; try done. split; try done. cbn. congruence.
Qed.

(** ** Runs that keep the terminal well formed and in step *)

Definition good (m : T unit) t (Q : Terminal -> Prop) : Prop :=
  exists t', m t = Some (tt, t') /\ term_ok t' /\ (keeps_shown t t' /\ parser t' = parser t) /\ Q t'.

Lemma good_weaken m t (Q Q' : Terminal -> Prop) : good m t Q -> (forall t', Q t' -> Q' t') -> good m t Q'.
Proof. intros (t' & E & Hok & Hs & HQ) H. exists t'. auto. Qed.

Lemma good_ret t (Q : Terminal -> Prop) : term_ok t -> Q t -> good (mret tt) t Q.
Proof. intros. exists t. split; [done|]. split; [done|]. split; [by split; [intros W|]|done]. Qed.

Lemma good_bind m (k : unit -> T unit) t Q Q' :
  good m t Q -> (forall t', term_ok t' -> Q t' -> good (k tt) t' Q') -> good (m ≫= k) t Q'.
Proof.
  intros (t1 & E & Hok & [Hs Hp] & HQ) H. destruct (H t1 Hok HQ) as (t2 & E2 & Hok2 & [Hs2 Hp2] & HQ2).
  exists t2. rewrite (st_bind_eq _ _ _ _ _ E). split; [done|]. split; [done|]. split; [|done]. split; [|congruence]. intros W HW. by apply Hs2, Hs.
Qed.

Lemma good_with (f : Terminal -> T unit) t Q : good (f t) t Q -> good (with_t f) t Q.
Proof. done. Qed.

Lemma good_sfor {A} (f : A -> T unit) l t (Q : Terminal -> Prop) :
  term_ok t -> Q t -> (forall a t', a ∈ l -> term_ok t' -> Q t' -> good (f a) t' Q) -> good (sfor l f) t Q.
Proof.
  revert t. induction l as [|a l IH]; intros t Hok HQ H; [by apply good_ret|]. cbn [sfor]. eapply good_bind; [apply H; [left|done|done]|].
  intros t' Hok' HQ'. apply IH; [done|done|]. intros b t2 Hb. apply H. by right.
Qed.

Lemma edits_parser t t' : edits t t' -> parser t' = parser t.
Proof. by intros (p & cs & -> & _). Qed.

Lemma good_edit m t G : term_ok t -> edit_run g m t G -> good m t (edits t).
Proof. intros Hok (t' & E & He & Hs & _). exists t'. split; [done|]. split; [by apply (edits_ok t)|]. split; [split; [done|by apply edits_parser]|done]. Qed.

Lemma good_loop m t : term_ok t -> (exists t', m t = Some (tt, t') /\ loop_rel g t t') -> good m t (edits t).
Proof. intros Hok (t' & E & He & Hs). exists t'. split; [done|]. split; [by apply (edits_ok t)|]. split; [split; [done|by apply edits_parser]|done]. Qed.

Lemma shown_same W t t' : fb t' = fb t -> cells (scr t') = cells (scr t) -> shown W t -> shown W t'.
Proof. intros Ef Ec H c r Hs. specialize (H c r Hs). unfold cell_shown, grid in *. by rewrite Ef, Ec. Qed.

Lemma good_modify f t (Q : Terminal -> Prop) :
  term_ok (f t) -> fb (f t) = fb t -> cells (scr (f t)) = cells (scr t) -> parser (f t) = parser t -> Q (f t) -> good (smodify f) t Q.
Proof. intros Hok Ef Ec Ep HQ. exists (f t). split; [done|]. split; [done|]. split; [|done]. split; [|done]. intros W. by apply shown_same. Qed.

(** A change of the screen's other fields. *)
Lemma good_screen f t (Q : Terminal -> Prop) :
  term_ok t -> screen_ok (f (scr t)) -> cells (f (scr t)) = cells (scr t) -> Q (on_scr f t) -> good (screen f) t Q.
Proof. intros [] Hs Hc HQ. by apply good_modify. Qed.

Lemma ok_pos s c r : screen_ok s -> 0 <= c <= max_cols -> 0 <= r < max_rows -> screen_ok (set_pos c r s).
Proof. intros []. by split. Qed.
Lemma ok_colors s f b : screen_ok s -> screen_ok (set_colors f b s).
Proof. intros []. by split. Qed.
Lemma ok_insert s b : screen_ok s -> screen_ok (set_insert b s).
Proof. intros []. by split. Qed.
Lemma ok_region s a b : screen_ok s -> 0 <= a <= b -> b < max_rows -> screen_ok (set_region a b s).
Proof. intros [] ? ?. by split. Qed.
Lemma ok_clear s : screen_ok s -> screen_ok (clear_cells s).
Proof. intros []. split; try done. cbn. by rewrite length_fmap. Qed.

Lemma dims : 0 < max_cols /\ 0 < max_rows.
Proof. split; [apply (max_cols_pos g Hg)|apply (max_rows_pos g Hg)]. Qed.

Lemma ok_home s : screen_ok s -> screen_ok (home g s).
Proof.
  intros H. destruct dims. unfold home, sat_sub. apply ok_insert, ok_region; [|lia|lia]. apply ok_pos; [done|lia|lia].
Qed.

Lemma last_bounds : last_col g = max_cols - 1 /\ last_row g = max_rows - 1.
Proof. destruct dims. unfold last_col, last_row, sat_sub. lia. Qed.

(** ** Scrolling and lines *)

Lemma good_scroll_up t a b n :
  term_ok t -> 0 <= a -> b < max_rows -> good (scroll_region_up g a b n) t (edits t).
Proof.
  intros Hok Ha Hb. destruct (decide (a < b)) as [Hlt|].
  - destruct (scroll_up_spec g Hg a b n t) as (t' & E & He & Hs & _); [done|done|done|by apply ok_cells|].
    exists t'. split; [done|]. split; [by apply (edits_ok t)|]. split; [split; [intros W _; by apply shown_plain_shown|by apply edits_parser]|done].
  - unfold scroll_region_up. rewrite (proj2 (Z.leb_le b a)), !orb_true_r by lia. by apply good_ret.
Qed.

Lemma good_scroll_down t a b n :
  term_ok t -> 0 <= a -> b < max_rows -> good (scroll_region_down g a b n) t (edits t).
Proof.
  intros Hok Ha Hb. destruct (decide (a < b)) as [Hlt|].
  - destruct (scroll_down_spec g Hg a b n t) as (t' & E & He & Hs & _); [done|done|done|by apply ok_cells|].
    exists t'. split; [done|]. split; [by apply (edits_ok t)|]. split; [split; [intros W _; by apply shown_plain_shown|by apply edits_parser]|done].
  - unfold scroll_region_down. rewrite (proj2 (Z.leb_le b a)), !orb_true_r by lia. by apply good_ret.
Qed.

Lemma edits_scr t t' : edits t t' -> exists cs, scr t' = set_cells cs (scr t).
Proof. intros (p & cs & -> & _). by exists cs. Qed.

Lemma good_normalize t : term_ok t -> good (normalize_scroll_region g) t (fun t' => t' = t).
Proof.
  intros Hok. exists t. split; [apply normalize_run; by destruct Hok as [[]]|]. split; [done|]. split; [by split; [intros W|]|done].
Qed.

Lemma good_index t : term_ok t -> good (index g) t (fun t' => col (scr t') = col (scr t)).
Proof.
  intros Hok. pose proof (to_scr _ Hok) as [? ? ? [Ht Hb]]. destruct dims. unfold index.
  eapply good_bind; [by apply good_normalize|]. intros t' _ ->. apply good_with. cbv zeta. rewrite (proj2 (Z.eqb_neq max_rows 0)) by lia. destruct (Z.eqb_spec (row (scr t)) (scroll_bottom (scr t))).
  - eapply good_weaken; [apply good_scroll_up; [done|lia|lia]|]. intros t2 (cs & ->)%edits_scr. done.
  - destruct (Z.ltb_spec (row (scr t) + 1) max_rows); [|by apply good_ret]. apply good_screen; try done. apply ok_pos; [by apply to_scr|done|lia].
Qed.

Lemma good_reverse_index t : term_ok t -> good (reverse_index g) t (fun _ => True).
Proof.
  intros Hok. pose proof (to_scr _ Hok) as [? ? ? [Ht Hb]]. destruct dims. unfold reverse_index.
  eapply good_bind; [by apply good_normalize|]. intros t' _ ->. apply good_with. cbv zeta. rewrite (proj2 (Z.eqb_neq max_rows 0)) by lia.
  destruct (Z.eqb_spec (row (scr t)) (scroll_top (scr t))).
  - eapply good_weaken; [apply good_scroll_down; [done|lia|lia]|done].
  - apply good_screen; try done. apply ok_pos; [by apply to_scr|done|unfold sat_sub; lia].
Qed.

Lemma good_new_line t : term_ok t -> good (new_line g) t (fun t' => col (scr t') = 0).
Proof.
  intros Hok. pose proof (to_scr _ Hok) as Hs. destruct dims. eapply good_bind.
  - apply (good_screen (set_col 0) t (fun t' => col (scr t') = 0)); try done. apply ok_pos; [done|lia|apply Hs].
  - intros t' Hok' Hc. eapply good_weaken; [by apply good_index|]. intros t2 E. congruence.
Qed.

(** ** Cells *)

Lemma good_set_cell t c r x : term_ok t -> 0 <= c -> 0 <= r -> good (set_cell g c r x) t (edits t).
Proof.
  intros Hok Hc Hr. destruct (set_cell_spec g Hg c r x t Hc Hr (ok_cells t Hok)) as (t' & E & He & Hs & _). apply good_loop; [done|]. by exists t'.
Qed.

Lemma good_erase_cell t c r : term_ok t -> 0 <= c -> 0 <= r -> good (erase_cell g c r) t (edits t).
Proof. intros. by apply good_with, good_set_cell. Qed.

Lemma good_erase_line t r a b : term_ok t -> 0 <= r -> 0 <= a -> good (erase_line_range g r a b) t (edits t).
Proof.
  intros Hok Hr Ha. destruct (erase_line_spec g Hg r a b t Hr Ha (ok_cells t Hok)) as (t' & E & HR & _). apply good_loop; [done|]. by exists t'.
Qed.

Lemma good_erase_screen t r0 c0 r1 c1 : term_ok t -> 0 <= r0 -> 0 <= c0 -> good (erase_screen_range g r0 c0 r1 c1) t (edits t).
Proof.
  intros Hok Hr Hc. unfold erase_screen_range. destruct (_ || _); [by apply good_ret|]. apply good_sfor; [done|reflexivity|].
  intros r t' Hin%elem_of_range Hok' He. eapply good_weaken; [apply good_erase_line; [done|lia|by destruct (r =? r0)]|].
  intros t2 He2. by transitivity t'.
Qed.

Lemma off_screen_false count s : off_screen g count s = false -> screen_ok s -> 0 <= count ->
  0 <= row s < max_rows /\ 0 <= col s < max_cols /\ 1 <= count.
Proof.
  unfold off_screen. intros [[H1 H2]%orb_false_elim H3]%orb_false_elim [] Hn. apply Z.leb_gt in H1, H2. apply Z.eqb_neq in H3. lia.
Qed.

Lemma outside_false count s : outside_region g count s = false -> screen_ok s -> 0 <= count -> scroll_top s <= row s <= scroll_bottom s /\ 1 <= count.
Proof.
  unfold outside_region. intros [[[H1 H2]%orb_false_elim H3]%orb_false_elim H4]%orb_false_elim [] Hn.
  apply Z.leb_gt in H1. apply Z.eqb_neq in H2. apply Z.ltb_ge in H3, H4. lia.
Qed.

(** The editing operations do nothing off the screen or with a count of 0. *)
Lemma good_chars (m : Z -> T unit) t n (G : Z -> Z -> Cell) :
  term_ok t -> 0 <= n -> (off_screen g n (scr t) = true -> m n t = Some (tt, t)) ->
  (0 <= row (scr t) < max_rows -> 0 <= col (scr t) < max_cols -> 1 <= n -> cells_ok g t -> edit_run g (m n) t G) -> good (m n) t (edits t).
Proof.
  intros Hok Hn Hoff Hon. destruct (off_screen g n (scr t)) eqn:E.
  - apply good_loop; [done|]. exists t. split; [by apply Hoff|reflexivity].
  - destruct (off_screen_false n (scr t) E (to_scr _ Hok) Hn) as (? & ? & ?). eapply good_edit; [done|]. apply Hon; try done. by apply ok_cells.
Qed.

Lemma good_insert_chars t n : term_ok t -> 0 <= n -> good (insert_blank_chars g n) t (edits t).
Proof.
  intros Hok Hn. eapply good_chars; [done|done| |intros; by apply insert_chars_spec]. intros E. unfold insert_blank_chars, with_t. by rewrite E.
Qed.
Lemma good_delete_chars t n : term_ok t -> 0 <= n -> good (delete_chars g n) t (edits t).
Proof.
  intros Hok Hn. eapply good_chars; [done|done| |intros; by apply delete_chars_spec]. intros E. unfold delete_chars, with_t. by rewrite E.
Qed.
Lemma good_erase_chars t n : term_ok t -> 0 <= n -> good (erase_chars g n) t (edits t).
Proof.
  intros Hok Hn. eapply good_chars; [done|done| |intros; by apply erase_chars_spec]. intros E. unfold erase_chars, with_t. by rewrite E.
Qed.

Lemma good_lines (m : Z -> T unit) t n (G : Z -> Z -> Cell) :
  term_ok t -> 0 <= n -> (outside_region g n (scr t) = true -> m n t = Some (tt, t)) ->
  (region_ok g (scr t) -> scroll_top (scr t) <= row (scr t) <= scroll_bottom (scr t) -> 1 <= n -> cells_ok g t -> edit_run g (m n) t G) -> good (m n) t (edits t).
Proof.
  intros Hok Hn Hoff Hon. destruct (outside_region g n (scr t)) eqn:E.
  - apply good_loop; [done|]. exists t. split; [by apply Hoff|reflexivity].
  - destruct (outside_false n (scr t) E (to_scr _ Hok) Hn) as (? & ?). eapply good_edit; [done|]. apply Hon; try done; [by destruct Hok as [[]]|by apply ok_cells].
Qed.

Lemma good_insert_lines t n : term_ok t -> 0 <= n -> good (insert_blank_lines g n) t (edits t).
Proof.
  intros Hok Hn. eapply good_lines; [done|done| |intros; by apply insert_lines_spec]. intros E. unfold insert_blank_lines.
  rewrite (st_bind_eq _ _ _ _ _ (normalize_run g t (so_region _ (to_scr _ Hok)))). unfold with_t. by rewrite E.
Qed.
Lemma good_delete_lines t n : term_ok t -> 0 <= n -> good (delete_lines g n) t (edits t).
Proof.
  intros Hok Hn. eapply good_lines; [done|done| |intros; by apply delete_lines_spec]. intros E. unfold delete_lines.
  rewrite (st_bind_eq _ _ _ _ _ (normalize_run g t (so_region _ (to_scr _ Hok)))). unfold with_t. by rewrite E.
Qed.

(** ** The cursor *)

Definition cursor_at t (c r : Z) : Prop := cursor_drawn (overlay t) = true /\ c = draw_col (overlay t) /\ r = draw_row (overlay t).

(** Only the overlay's place and the pixels differ. *)
Definition same_core t t' : Prop :=
  scr t' = scr t /\ parser t' = parser t /\ cursor_visible (overlay t') = cursor_visible (overlay t) /\
  saved_col t' = saved_col t /\ saved_row t' = saved_row t /\ alt_screen t' = alt_screen t /\ last_printable t' = last_printable t.

Lemma same_core_ok t t' :
  same_core t t' -> (cursor_drawn (overlay t') = true -> on_screen (draw_col (overlay t')) (draw_row (overlay t'))) -> term_ok t -> term_ok t'.
Proof.
  intros (E1 & E2 & _ & E4 & E5 & E6 & E7) Hd []. split; rewrite ?E1, ?E2, ?E4, ?E5, ?E6, ?E7; done.
Qed.

Lemma hide_spec t : term_ok t ->
  exists t', hide_cursor_overlay g t = Some (tt, t') /\ term_ok t' /\ same_core t t' /\ cursor_drawn (overlay t') = false /\
    forall W, shown W t -> shown (fun c r => W c r /\ ~ cursor_at t c r) t'.
Proof.
  intros Hok. unfold hide_cursor_overlay, with_t. cbv zeta. destruct (cursor_drawn (overlay t)) eqn:Ed; cbn [negb].
  - pose proof (to_drawn _ Hok Ed) as Hs. unfold mbind at 1, ST_bind at 1, smodify. destruct Hs as [Hc Hr].
    rewrite (proj2 (Z.leb_gt _ _)), (proj2 (Z.leb_gt _ _)) by lia. cbn [orb].
    set (t1 := set_overlay _ t). assert (cells_ok g t1) as Hok1 by (by apply ok_cells in Hok).
    destruct (redraw_step g Hg (fun _ _ => False) (draw_col (overlay t)) (draw_row (overlay t)) t1) as (p & E & H); [by split|done|done|].
    exists (set_fb p t1). split; [exact E|]. split; [by apply (same_core_ok t)|]. split; [done|]. split; [done|].
    destruct (draw_spec g Hg (draw_col (overlay t)) (draw_row (overlay t)) (c_ch (grid g t1 (draw_col (overlay t)) (draw_row (overlay t))))
      (c_fg (grid g t1 (draw_col (overlay t)) (draw_row (overlay t)))) (c_bg (grid g t1 (draw_col (overlay t)) (draw_row (overlay t)))) t1) as (p' & E' & Hd & Ho); [by split|].
    rewrite (st_bind_eq _ _ _ _ _ (get_cell_spec g (draw_col (overlay t)) (draw_row (overlay t)) t1 Hok1 ltac:(lia) ltac:(lia))) in E. rewrite E' in E.
    assert (p' = p) as -> by (by injection E). intros W HW c r Hs.
    destruct (decide (c = draw_col (overlay t) /\ r = draw_row (overlay t))) as [[-> ->]|Hne]; [left; by apply H; [right|]|].
    assert (forall b, cell_shown g t b c r -> cell_shown g (set_fb p t1) b c r) as Hk.
    { intros b Hb. unfold cell_shown in *. assert ((c, r) <> (draw_col (overlay t), draw_row (overlay t))) by (intros [= -> ->]; by apply Hne).
      destruct b; by apply (displays_other g Hg (fb t) p (draw_col (overlay t)) (draw_row (overlay t))). }
    destruct (HW c r Hs) as [|[Hw Hb]]; [left; by apply Hk|right]. split; [|by apply Hk]. split; [done|]. intros (_ & -> & ->). by apply Hne.
  - exists t. split; [done|]. split; [done|]. split; [done|]. split; [done|]. intros W HW c r Hs. destruct (HW c r Hs) as [|[Hw Hb]]; [by left|right].
    split; [|done]. split; [done|]. intros (E & _). congruence.
Qed.

Lemma show_spec t : term_ok t ->
  exists t', show_cursor_overlay g t = Some (tt, t') /\ term_ok t' /\ same_core t t' /\
    cursor_drawn (overlay t') = cursor_visible (overlay t) /\
    (forall W, shown W t -> shown (fun c r => W c r \/ cursor_at t' c r) t') /\
    (cursor_drawn (overlay t') = true ->
       draw_col (overlay t') = Z.min (col (scr t)) (max_cols - 1) /\ draw_row (overlay t') = row (scr t) /\
       cell_shown g t' true (draw_col (overlay t')) (draw_row (overlay t'))) /\
    (forall c r b, on_screen c r -> ~ cursor_at t' c r -> cell_shown g t b c r -> cell_shown g t' b c r).
Proof.
  intros Hok. destruct dims as [Hmc Hmr]. unfold show_cursor_overlay, with_t. cbv zeta.
  rewrite (proj2 (Z.eqb_neq max_cols 0)), (proj2 (Z.eqb_neq max_rows 0)), !orb_false_r by lia. destruct (cursor_visible (overlay t)) eqn:Ev; cbn [negb].
  - pose proof (to_scr _ Hok) as [_ Hcol Hrow _].
    change (sat_sub max_cols 1) with (Z.max 0 (max_cols - 1)). change (sat_sub max_rows 1) with (Z.max 0 (max_rows - 1)).
    replace (Z.min (row (scr t)) (Z.max 0 (max_rows - 1))) with (row (scr t)) by lia. replace (Z.max 0 (max_cols - 1)) with (max_cols - 1) by lia.
    set (c := Z.min (col (scr t)) (max_cols - 1)). set (r := row (scr t)). assert (on_screen c r) as Hs by (unfold TermDraw.on_screen; lia).
    rewrite (st_bind_eq _ _ _ _ _ (get_cell_spec g c r t (ok_cells t Hok) ltac:(lia) ltac:(lia))). set (x := grid g t c r).
    destruct (draw_spec g Hg c r (c_ch x) (c_bg x) (c_fg x) t Hs) as (p & E & Hd & Ho). rewrite (st_bind_eq _ _ _ _ _ E).
    eexists. split; [reflexivity|]. split; [by apply (same_core_ok t)|]. split; [by repeat split|]. split; [done|]. cbn [overlay set_overlay cursor_drawn draw_col draw_row].
    assert (forall c' r' b, on_screen c' r' -> ~ (c' = c /\ r' = r) -> cell_shown g t b c' r' -> cell_shown g (set_overlay (mkOverlay true true c r) (set_fb p t)) b c' r') as Hk.
    { intros c' r' b Hs' Hne Hb. unfold cell_shown in *. assert ((c', r') <> (c, r)) by (intros [= -> ->]; by apply Hne).
      destruct b; by apply (displays_other g Hg (fb t) p c r). }
    split; [|split; [done|]].
    + intros W HW c' r' Hs'. destruct (decide (c' = c /\ r' = r)) as [[-> ->]|Hne]; [right; split; [by right|]; exact Hd|].
      destruct (HW c' r' Hs') as [|[Hw Hb]]; [left; by apply Hk|right]. split; [by left|by apply Hk].
    + intros c' r' b Hs' Hne. apply Hk; [done|]. intros [-> ->]. by apply Hne.
  - eexists. split; [reflexivity|]. split; [by apply (same_core_ok t)|]. split; [by repeat split|]. split; [done|]. split; [|split; [done|by intros c r b _ _]].
    intros W HW c r Hs. destruct (HW c r Hs) as [|[Hw Hb]]; [by left|right]. split; [by left|done].
Qed.

(** ** Text *)

Lemma good_set_region t a b : term_ok t -> 0 <= a -> good (set_scroll_region g a b) t (fun _ => True).
Proof.
  intros Hok Ha. destruct dims as [Hmc Hmr]. pose proof (to_scr _ Hok) as Hs. apply good_screen; [done| | |done]; rewrite (proj2 (Z.eqb_neq max_rows 0)) by lia; cbv zeta.
  - destruct (Z.leb_spec max_rows a), (Z.leb_spec max_rows b), (Z.leb_spec b a); cbn [orb]; (apply ok_pos; [apply ok_region; [done|lia|lia]|lia|cbn; lia]).
  - by destruct (_ || _).
Qed.

Lemma good_redraw t : term_ok t -> exists p, redraw_from_cells g t = Some (tt, set_fb p t) /\ forall W, shown W (set_fb p t).
Proof. intros Hok. destruct (redraw_spec g Hg t (ok_cells t Hok)) as (p & E & Hs). exists p. split; [done|]. intros W. by apply shown_plain_shown. Qed.

Lemma ok_set_fb t p : term_ok t -> term_ok (set_fb p t).
Proof. by intros []. Qed.

Lemma good_enter_alt t : term_ok t -> good (enter_alt_screen g) t (fun _ => True).
Proof.
  intros Hok. pose proof (to_scr _ Hok) as Hs. apply good_with. destruct (alt_screen t) eqn:Ea; [by apply good_ret|].
  set (t1 := on_scr (home g) (on_scr clear_cells (set_alt (Some (scr t)) t))).
  assert (term_ok t1) as Hok1. { destruct Hok. split; try done; [by apply ok_home, ok_clear|]. by intros s [= <-]. }
  destruct (good_redraw t1 Hok1) as (p & E & Hsh). exists (set_fb p t1). split; [exact E|]. split; [by apply ok_set_fb|]. split; [|done]. split; [by intros W|done].
Qed.

Lemma good_leave_alt t : term_ok t -> good (leave_alt_screen g) t (fun _ => True).
Proof.
  intros Hok. destruct dims as [Hmc Hmr]. apply good_with. destruct (alt_screen t) as [s|] eqn:Ea; [|by apply good_ret]. pose proof (to_alt _ Hok s Ea) as Hs.
  set (s1 := set_pos (Z.min (col s) (sat_sub max_cols 1)) (Z.min (row s) (sat_sub max_rows 1)) s).
  assert (screen_ok s1) as Hs1 by (destruct Hs; apply ok_pos; [by split|unfold sat_sub; lia..]).
  set (t1 := on_scr (fun _ => s1) (set_alt None t)). assert (term_ok t1) as Hok1 by (by destruct Hok).
  destruct (good_redraw t1 Hok1) as (p & E & Hsh). exists (set_fb p t1). split; [|split; [by apply ok_set_fb|]; split; [|done]; split; [by intros W|done]].
  change ((normalize_scroll_region g ≫= fun _ => redraw_from_cells g) t1 = Some (tt, set_fb p t1)).
  by rewrite (st_bind_eq _ _ _ _ _ (normalize_run g t1 (so_region _ Hs1))).
Qed.

Lemma good_tab t e : term_ok t -> e <= max_cols -> good (sfor (range (col (scr t)) e) (fun _ => tab_step g)) t (fun _ => True).
Proof.
  intros Hok He. remember (range (col (scr t)) e) as l eqn:El. revert t Hok El.
  induction l as [|a l IH]; intros t Hok El; [by apply good_ret|]. cbn [sfor]. pose proof (to_scr _ Hok) as Hs.
  unfold range in El. destruct (decide (e <= col (scr t))); [by rewrite seqZ_nil in El by lia|]. rewrite seqZ_cons in El by lia. injection El as -> ->.
  eapply good_bind with (Q := fun t' => col (scr t') = col (scr t) + 1).
  - apply good_with. eapply good_bind; [apply good_erase_cell; [done|apply Hs|apply Hs]|]. intros t1 Hok1 (cs & E1)%edits_scr. pose proof (to_scr _ Hok1) as Hs1.
    apply good_screen; [done| |done|done]. apply ok_pos; [done|destruct Hs; lia|apply Hs1].
  - intros t' Hok' Hc. apply IH; [done|]. unfold range. rewrite Hc. f_equal; lia.
Qed.

Lemma good_print t byte : term_ok t -> 32 <= byte <= 126 -> good (print_byte g byte) t (fun _ => True).
Proof.
  intros Hok Hb. destruct dims as [Hmc Hmr]. unfold print_byte.
  eapply good_bind with (Q := fun t' => col (scr t') < max_cols).
  { apply good_with. destruct (Z.leb_spec max_cols (col (scr t))); [|by apply good_ret]. eapply good_weaken; [by apply good_new_line|]. cbn. intros t' ->. done. }
  intros t1 Hok1 Hc1. eapply good_bind with (Q := fun t' => col (scr t') < max_cols).
  { apply good_with. destruct (insert_mode _); [|by apply good_ret]. eapply good_weaken; [apply good_insert_chars; [done|lia]|]. intros t' (cs & ->)%edits_scr. done. }
  intros t2 Hok2 Hc2. pose proof (to_scr _ Hok2) as Hs2. eapply good_bind with (Q := fun _ => True).
  { apply good_with. eapply good_bind; [apply good_set_cell; [done|apply Hs2|apply Hs2]|]. intros t3 Hok3 _. pose proof (to_scr _ Hok3) as Hs3.
    apply good_screen; [done| |done|done]. apply ok_pos; [done|destruct Hs2; lia|apply Hs3]. }
  intros t3 Hok3 _. apply good_modify; try done. by destruct Hok3.
Qed.

(** What [write_byte] does between hiding and showing the cursor; [None] for the bytes
    after which it stays hidden. *)
Definition write_body (byte : Z) : option (T unit) :=
  if byte =? 10 then Some (new_line g)
  else if byte =? 13 then Some (screen (set_col 0))
  else if byte =? 9 then
    Some (with_t (fun t => sfor (range (col (scr t)) (Z.min ((col (scr t) / 8 + 1) * 8) max_cols)) (fun _ => tab_step g)))
  else if byte =? 8 then Some (with_t (fun t => if 0 <? col (scr t) then screen (set_col (col (scr t) - 1)) else mret tt))
  else if negb ((32 <=? byte) && (byte <=? 126)) then None
  else Some (print_byte g byte).

Lemma write_byte_body byte t :
  write_byte g byte t =
  (hide_cursor_overlay g ≫= fun _ => match write_body byte with Some m => m ≫= fun _ => show_cursor_overlay g | None => mret tt end) t.
Proof. unfold write_byte, write_body. by repeat case_match. Qed.

Lemma good_write_body byte m t : write_body byte = Some m -> term_ok t -> good m t (fun _ => True).
Proof.
  intros E Hok. pose proof (to_scr _ Hok) as Hs. destruct dims as [Hmc Hmr]. unfold write_body in E.
  destruct (byte =? 10); [injection E as <-; eapply good_weaken; [by apply good_new_line|done]|].
  destruct (byte =? 13); [injection E as <-; apply good_screen; [done| |done|done]; apply ok_pos; [done|lia|apply Hs]|].
  destruct (byte =? 9); [injection E as <-; apply good_with, good_tab; [done|lia]|].
  destruct (byte =? 8).
  { injection E as <-. apply good_with. destruct (Z.ltb_spec 0 (col (scr t))); [|by apply good_ret].
    apply good_screen; [done| |done|done]. apply ok_pos; [done|destruct Hs; lia|apply Hs]. }
  destruct (Z.leb_spec 32 byte), (Z.leb_spec byte 126); try done. injection E as <-. by apply good_print.
Qed.

(** The cursor is drawn where the next character goes, or on the last column. *)
Definition at_cursor t : Prop :=
  cursor_visible (overlay t) = true /\ draw_col (overlay t) = Z.min (col (scr t)) (max_cols - 1) /\ draw_row (overlay t) = row (scr t).

(** Where cells may be shown with swapped colours after a byte: where they were before,
    but for the old place of the cursor, and at its new place. *)
Lemma write_byte_spec byte t : term_ok t ->
  exists t', write_byte g byte t = Some (tt, t') /\ term_ok t' /\ parser t' = parser t /\
    (forall W, shown W t -> shown (fun c r => (W c r /\ ~ cursor_at t c r) \/ cursor_at t' c r) t') /\
    (cursor_drawn (overlay t') = true -> at_cursor t' /\ cell_shown g t' true (draw_col (overlay t')) (draw_row (overlay t'))).
Proof.
  intros Hok. rewrite write_byte_body. destruct (hide_spec t Hok) as (t1 & E1 & Hok1 & Hc1 & Hd1 & Hs1). rewrite (st_bind_eq _ _ _ _ _ E1).
  assert (parser t1 = parser t) as Hp1 by apply Hc1. destruct (write_body byte) as [m|] eqn:Em.
  - destruct (good_write_body byte m t1 Em Hok1) as (t2 & E2 & Hok2 & [Hs2 Hp2] & _). rewrite (st_bind_eq _ _ _ _ _ E2).
    destruct (show_spec t2 Hok2) as (t3 & E3 & Hok3 & Hc3 & Hv3 & Hs3 & Hd3 & _). exists t3. split; [done|]. split; [done|].
    split; [destruct Hc3 as (_ & -> & _); congruence|]. split; [|intros Hdr; destruct (Hd3 Hdr) as (? & ? & ?); split; [|done]; unfold at_cursor; destruct Hc3 as (-> & _ & -> & _); split; [congruence|done]]. intros W HW. apply Hs3, Hs2, Hs1, HW.
  - exists t1. split; [done|]. split; [done|]. split; [done|]. split; [|congruence]. intros W HW c r Hs. destruct (Hs1 W HW c r Hs) as [|[? ?]]; [by left|right]. by split; [left|].
Qed.

(** ** Any output *)

(** Well formed, and every cell shown in its colours, perhaps swapped. *)
Definition displayed t : Prop := term_ok t /\ shown (fun _ _ => True) t.
Definition safe (m : T unit) t : Prop := exists t', m t = Some (tt, t') /\ displayed t'.

Lemma good_safe m t Q : displayed t -> good m t Q -> safe m t.
Proof. intros [Hok Hs] (t' & E & Hok' & [Hk _] & _). exists t'. split; [done|]. split; [done|by apply Hk]. Qed.

Lemma safe_bind m (k : unit -> T unit) t : safe m t -> (forall t', displayed t' -> safe (k tt) t') -> safe (m ≫= k) t.
Proof. intros (t1 & E & Hd) H. destruct (H t1 Hd) as (t2 & E2 & Hd2). exists t2. by rewrite (st_bind_eq _ _ _ _ _ E). Qed.

Lemma safe_sfor {A} (f : A -> T unit) l t : displayed t -> (forall a t', displayed t' -> safe (f a) t') -> safe (sfor l f) t.
Proof.
  revert t. induction l as [|a l IH]; intros t Hd H; [by exists t|]. cbn [sfor]. apply safe_bind; [by apply H|]. intros t' Hd'. by apply IH.
Qed.

Lemma safe_with (f : Terminal -> T unit) t : safe (f t) t -> safe (with_t f) t.
Proof. done. Qed.

Lemma shown_any W t : shown W t -> shown (fun _ _ => True) t.
Proof. intros H c r Hs. destruct (H c r Hs) as [|[_ ?]]; [by left|by right]. Qed.

Lemma safe_hide t : displayed t -> safe (hide_cursor_overlay g) t.
Proof. intros [Hok Hs]. destruct (hide_spec t Hok) as (t' & E & Hok' & _ & _ & H). exists t'. split; [done|]. split; [done|]. eapply shown_any. by apply H. Qed.
Lemma safe_show t : displayed t -> safe (show_cursor_overlay g) t.
Proof. intros [Hok Hs]. destruct (show_spec t Hok) as (t' & E & Hok' & _ & _ & H & _ & _). exists t'. split; [done|]. split; [done|]. eapply shown_any. by apply H. Qed.
Lemma safe_write_byte b t : displayed t -> safe (write_byte g b) t.
Proof. intros [Hok Hs]. destruct (write_byte_spec b t Hok) as (t' & E & Hok' & _ & H & _). exists t'. split; [done|]. split; [done|]. eapply shown_any. by apply H. Qed.

Lemma safe_parse f t : displayed t -> length (seq (f (parser t))) = Z.to_nat ANSI_MAX_SEQ_LEN -> 0 <= seq_len (f (parser t)) <= ANSI_MAX_SEQ_LEN ->
  safe (parse f) t.
Proof. intros [[] Hs] H1 H2. eexists. split; [reflexivity|]. by split. Qed.

Lemma safe_reset t : displayed t -> safe reset_ansi_parser t.
Proof. intros Hd. apply safe_parse; [done|by destruct Hd as [[]]|]. cbn. unfold ANSI_MAX_SEQ_LEN. lia. Qed.

(** The glyph of the space is empty. *)
Hypothesis space_blank : forall dx dy, 0 <= dx < 6 -> 0 <= dy < 12 -> bit g SPACE dx dy = false.

(** Clearing shows the empty screen, whatever was in the frame buffer. *)
Lemma clear_spec t : term_ok t ->
  exists t1, clear_screen g t = show_cursor_overlay g t1 /\ term_ok t1 /\ shown_plain g t1 /\ cursor_drawn (overlay t1) = false /\
    cursor_visible (overlay t1) = cursor_visible (overlay t) /\ parser t1 = parser t /\ scr t1 = home g (clear_cells (scr t)).
Proof.
  intros Hd. destruct (hide_spec t Hd) as (t1 & E1 & Hok & (S1 & P1 & V1 & _) & Hn & _). unfold clear_screen. rewrite (st_bind_eq _ _ _ _ _ E1).
  set (t2 := on_scr (home g) (on_scr clear_cells (set_fb (fun z => if (0 <=? z) && (z <? height g * stride g) then 0 else fb t1 z) t1))).
  exists t2. split.
  { unfold clear_pixels, u32, in_u32. destruct Hg as [H1 H2 H3 H4 _ _]. unfold FONT_WIDTH, FONT_HEIGHT in *.
    rewrite (proj2 (Z.leb_le 0 _)), (proj2 (Z.ltb_lt _ (2 ^ 32))) by nia. done. }
  split; [destruct Hok; split; try done; by apply ok_home, ok_clear|]. split; [|repeat split; [done|done|done|by rewrite <-S1]].
  intros c r Hon. unfold cell_shown. assert (grid g t2 c r = blank) as ->.
  { unfold grid. destruct (decide _); [|done]. cbn. rewrite list_lookup_fmap. by destruct (_ !! _). }
  intros dx dy Hdx Hdy. cbn [c_ch c_fg c_bg blank]. rewrite space_blank by done. destruct (offset_fits g Hg (c * 6 + dx) (r * 12 + dy)) as [Ho _]; [by apply pixel_inside|].
  unfold pixel. cbn [fb t2 on_scr set_fb]. unfold fb_len in Ho. by rewrite (proj2 (Z.leb_le _ _)), (proj2 (Z.ltb_lt _ _)) by lia.
Qed.

Lemma safe_clear t : term_ok t -> safe (clear_screen g) t.
Proof.
  intros Hok. destruct (clear_spec t Hok) as (t1 & E & Hok1 & Hs & _). unfold safe. rewrite E. apply safe_show. split; [done|]. by apply shown_plain_shown.
Qed.

Lemma params_pos p : Forall (fun v => 0 <= v) (csi_params_without_prefix p).
Proof.
  assert (forall bs v w, 0 <= v -> parse_digits v bs = Some w -> 0 <= w) as Hd.
  { induction bs as [|b bs IH]; intros v w Hv; cbn [parse_digits]; [congruence|]. unfold is_digit. destruct (Z.leb_spec 48 b), (Z.leb_spec b 57); try done.
    cbn [andb]. apply IH. unfold sat_add16, sat_mul16. lia. }
  assert (forall acc, Forall (fun v => 0 <= v) (match acc with [] => [0] | _ => match parse_ascii_u16 acc with Some v => [v] | None => [] end end)) as He.
  { intros [|a acc]; [by repeat constructor|]. destruct (parse_ascii_u16 (a :: acc)) as [v|] eqn:E; repeat constructor. by apply (Hd (a :: acc) 0). }
  unfold csi_params_without_prefix, csi_params_from. destruct (_ <? _); [constructor|]. generalize (@nil Z). generalize (drop (Z.to_nat (match csi_private_prefix p with Some _ => 1 | None => 0 end)) (take (Z.to_nat (seq_len p)) (seq p))).
  induction l as [|b l IH]; intros acc; cbn [csi_split]; [apply He|]. destruct (b =? 59); [|by apply IH]. apply Forall_app. split; [apply He|apply IH].
Qed.

Lemma param_pos p i d : 0 <= d -> 0 <= param (csi_params_without_prefix p) i d.
Proof.
  intros Hd. unfold param. pose proof (params_pos p) as H. rewrite Forall_lookup in H. destruct (csi_params_without_prefix p !! i) as [v|] eqn:E; cbn [default]; unfold default, id.
  - destruct (v =? 0); [done|]. by apply (H i).
  - by destruct (d =? 0).
Qed.

Lemma good_mode t prefix on mode : term_ok t -> good (apply_mode g prefix on mode) t (fun _ => True).
Proof.
  intros Hok. unfold apply_mode. destruct prefix as [p|].
  - destruct (p =? 63); [|by apply good_ret]. destruct (mode =? 25); [by apply good_modify; try done; destruct Hok|].
    destruct (_ || _); [|by apply good_ret]. destruct on; [by apply good_enter_alt|by apply good_leave_alt].
  - destruct (mode =? 4); [|by apply good_ret]. apply good_screen; try done. by apply ok_insert, to_scr.
Qed.

Lemma good_at t c r : term_ok t -> 0 <= c <= max_cols -> 0 <= r < max_rows -> good (screen (set_pos c r)) t (fun _ => True).
Proof. intros Hok Hc Hr. apply good_screen; try done. apply ok_pos; [by apply to_scr|done|done]. Qed.

Lemma good_row t r : term_ok t -> 0 <= r < max_rows -> good (screen (set_row r)) t (fun _ => True).
Proof. intros Hok Hr. pose proof (to_scr _ Hok) as Hs. apply good_screen; try done. apply ok_pos; [done|apply Hs|done]. Qed.
Lemma good_col t c : term_ok t -> 0 <= c <= max_cols -> good (screen (set_col c)) t (fun _ => True).
Proof. intros Hok Hc. pose proof (to_scr _ Hok) as Hs. apply good_screen; try done. apply ok_pos; [done|done|apply Hs]. Qed.

Lemma good_restore t : term_ok t -> good (smodify (restore_cursor g)) t (fun _ => True).
Proof.
  intros Hok. destruct dims as [Hmc Hmr], last_bounds as [Elc Elr]. apply good_modify; try done. destruct Hok as [H0 H1 H2 H3 [H4 H5] H6 H7]. split; try done.
  cbn [scr restore_cursor on_scr]. rewrite Elc, Elr. apply ok_pos; [done|lia|lia].
Qed.

Lemma good_save t : term_ok t -> good (smodify save_cursor) t (fun _ => True).
Proof. intros Hok. apply good_modify; try done. destruct Hok as [[] ? ? ? ? ? ?]. split; try done. cbn. lia. Qed.

(** One branch of the dispatch on the final byte, which is a [good] run. *)
Ltac branch k tac := destruct (_ =? k); [eapply good_safe; [done|]; tac|].

Lemma safe_csi final t : displayed t -> safe (handle_csi_sequence g final) t.
Proof.
  intros Hd. pose proof Hd as [Hok _]. destruct dims as [Hmc Hmr], last_bounds as [Elc Elr]. pose proof (to_scr _ Hok) as [_ Hcol Hrow [Ht Hb]].
  apply safe_with. cbv zeta. set (params := csi_params_without_prefix (parser t)).
  pose proof (param_pos (parser t) 0 1 ltac:(lia)) as Hn. pose proof (param_pos (parser t) 1 1 ltac:(lia)) as Hn1. fold params in Hn, Hn1.
  set (n := param params 0 1) in *. rewrite !Elc, !Elr.
  branch 65 ltac:(apply good_row; [done|unfold sat_sub; lia]).
  branch 66 ltac:(apply good_row; [done|unfold sat_add32; lia]).
  branch 67 ltac:(apply good_col; [done|unfold sat_add32; lia]).
  branch 68 ltac:(apply good_col; [done|unfold sat_sub; lia]).
  branch 69 ltac:(apply good_at; [done|lia|unfold sat_add32; lia]).
  branch 70 ltac:(apply good_at; [done|lia|unfold sat_sub; lia]).
  destruct (_ || _); [eapply good_safe; [done|]; apply good_at; [done|unfold sat_sub; lia|unfold sat_sub; lia]|].
  branch 71 ltac:(apply good_col; [done|unfold sat_sub; lia]).
  branch 100 ltac:(apply good_row; [done|unfold sat_sub; lia]).
  destruct (final =? 74).
  { eapply (good_safe _ _ (fun _ => True)); [done|]. destruct (_ =? 0); [eapply good_weaken; [apply good_erase_screen; [done|lia|lia]|done]|].
    destruct (_ =? 1); [eapply good_weaken; [apply good_erase_screen; [done|lia|lia]|done]|].
    destruct (_ =? 2); [|by apply good_ret]. eapply good_bind; [apply good_erase_screen; [done|lia|lia]|]. intros t' Hok' _. apply good_at; [done|lia|lia]. }
  destruct (final =? 75).
  { eapply (good_safe _ _ (fun _ => True)); [done|]. destruct (_ =? 0); [eapply good_weaken; [apply good_erase_line; [done|lia|lia]|done]|]. destruct (_ =? 1); [eapply good_weaken; [apply good_erase_line; [done|lia|lia]|done]|].
    destruct (_ =? 2); [eapply good_weaken; [apply good_erase_line; [done|lia|lia]|done]|by apply good_ret]. }
  branch 115 ltac:(by apply good_save).
  branch 117 ltac:(by apply good_restore).
  branch 64 ltac:(by apply good_insert_chars).
  branch 80 ltac:(by apply good_delete_chars).
  branch 76 ltac:(by apply good_insert_lines).
  branch 77 ltac:(by apply good_delete_lines).
  branch 88 ltac:(by apply good_erase_chars).
  branch 114 ltac:(apply good_set_region; [done|unfold sat_sub; lia]).
  branch 83 ltac:(apply good_scroll_up; [done|lia|lia]).
  branch 84 ltac:(apply good_scroll_down; [done|lia|lia]).
  destruct (final =? 98); [apply safe_sfor; [done|]; intros a t' Hd'; by apply (safe_write_byte (last_printable t') t')|].
  branch 104 ltac:(apply (good_sfor _ _ _ (fun _ => True)); [done|done|]; intros a t' _ Hok' _; by apply good_mode).
  branch 108 ltac:(apply (good_sfor _ _ _ (fun _ => True)); [done|done|]; intros a t' _ Hok' _; by apply good_mode).
  by exists t.
Qed.

Lemma good_sgr t : term_ok t -> good apply_sgr_sequence t (fun _ => True).
Proof.
  intros Hok. assert (forall code t', term_ok t' -> good (screen (apply_sgr_code code)) t' (fun _ => True)) as Hc.
  { intros code t' Hok'. pose proof (to_scr _ Hok') as Hs. apply good_screen; [done| | |done]; unfold apply_sgr_code, set_fg, set_bg; repeat case_match; try done; by apply ok_colors. }
  apply good_with. destruct (csi_params_without_prefix (parser t)); [by apply Hc|]. apply good_sfor; [done|done|]. intros; by apply Hc.
Qed.

Lemma safe_full_reset t : displayed t -> safe (full_reset g) t.
Proof.
  intros Hd. apply safe_bind; [by apply safe_clear, Hd|]. intros t1 [Hok Hs]. eapply (good_safe _ _ (fun _ => True)); [by split|].
  eapply good_bind with (Q := fun _ => True); [apply good_screen; try done; by apply ok_colors, to_scr|]. intros t2 Hok2 _.
  eapply good_bind with (Q := fun _ => True); [apply good_modify; try done; by destruct Hok2|]. intros t3 Hok3 _.
  eapply good_bind with (Q := fun _ => True); [apply good_modify; try done; by destruct Hok3|]. intros t4 Hok4 _.
  apply good_modify; try done. by destruct Hok4.
Qed.

Lemma safe_after_esc b t : displayed t -> safe (after_esc g b) t.
Proof.
  intros Hd. apply safe_bind; [apply safe_parse; [done|by destruct Hd as [[]]..]|]. intros t1 Hd1. clear t Hd. pose proof Hd1 as [Hok1 _].
  pose proof (to_seq _ Hok1) as Hq. pose proof (to_seq_len _ Hok1) as Hl.
  destruct (b =? 91); [apply safe_parse; [done|done|cbn; unfold ANSI_MAX_SEQ_LEN; lia]|].
  destruct (b =? 93); [by apply safe_parse|]. destruct (b =? 80); [by apply safe_parse|].
  branch 55 ltac:(by apply good_save). branch 56 ltac:(by apply good_restore). branch 68 ltac:(by apply good_index).
  destruct (b =? 69).
  { eapply good_safe; [done|]. eapply good_bind; [by apply good_new_line|]. intros t2 Hok2 _. pose proof (to_scr _ Hok2) as [_ Hc2 Hr2 _]. apply good_col; [done|lia]. }
  branch 77 ltac:(by apply good_reverse_index). destruct (b =? 99); [by apply safe_full_reset|]. destruct (b =? ESC); [by apply safe_parse|by exists t1].
Qed.

Lemma safe_output b t : displayed t -> safe (write_output_byte g b) t.
Proof.
  intros Hd. pose proof Hd as [Hok _]. pose proof (to_seq _ Hok) as Hq. pose proof (to_seq_len _ Hok) as Hl.
  assert (forall f, length (seq (f (parser t))) = length (seq (parser t)) -> seq_len (f (parser t)) = seq_len (parser t) -> safe (parse f) t) as Hparse.
  { intros f H1 H2. apply safe_parse; [done|congruence|by rewrite H2]. }
  apply safe_with. cbv zeta. destruct (dcs_mode (parser t)).
  { unfold after_dcs. destruct (b =? 7); [by apply safe_reset|]. destruct (dcs_esc_pending _).
    - apply safe_bind; [by apply Hparse|]. intros t1 Hd1. destruct (b =? 92); [by apply safe_reset|by exists t1].
    - destruct (b =? ESC); [by apply Hparse|by exists t]. }
  destruct (osc_mode (parser t)).
  { unfold after_osc. destruct (b =? 7); [by apply safe_reset|]. destruct (osc_esc_pending _).
    - apply safe_bind; [by apply Hparse|]. intros t1 Hd1. destruct (b =? 92); [by apply safe_reset|by exists t1].
    - destruct (b =? ESC); [by apply Hparse|by exists t]. }
  destruct (esc_pending (parser t)); [by apply safe_after_esc|]. destruct (csi_mode (parser t)).
  { unfold in_csi. destruct (b =? 109); [apply safe_bind; [eapply good_safe; [done|by apply good_sgr]|intros; by apply safe_reset]|].
    destruct (between 32 b 63).
    { destruct (Z.ltb_spec (seq_len (parser t)) (Z.of_nat (length (seq (parser t))))); [|by apply safe_reset].
      apply safe_parse; [done|cbn; by rewrite length_insert|cbn]. rewrite Hq in *. unfold ANSI_MAX_SEQ_LEN in *. lia. }
    destruct (between 64 b 126); [apply safe_bind; [by apply safe_csi|intros; by apply safe_reset]|by apply safe_reset]. }
  destruct (b =? ESC); [by apply Hparse|by apply safe_write_byte].
Qed.

Lemma safe_write_bytes bs t : displayed t -> safe (write_bytes g bs) t.
Proof.
  intros Hd. apply safe_bind; [by apply safe_hide|]. intros t1 Hd1. apply safe_bind; [|intros; by apply safe_show].
  apply safe_sfor; [done|]. intros; by apply safe_output.
Qed.

(** ** The operations the shell uses *)

Inductive out_op := OWrite (bs : list Z) | OByte (b : Z) | ONumber (n : Z) | OErase | OFlush | OClear.

Definition out (o : out_op) : T unit :=
  match o with
  | OWrite bs => write_bytes g bs
  | OByte b => write_byte g b
  | ONumber n => write_num g n
  | OErase => erase_previous_cell g
  | OFlush => flush g
  | OClear => clear_screen g
  end.

Lemma safe_out o t : displayed t -> safe (out o) t.
Proof.
  intros Hd. pose proof Hd as [Hok _]. destruct o as [bs|b|n| | |]; cbn [out].
  - by apply safe_write_bytes.
  - by apply safe_write_byte.
  - unfold write_num. destruct (n =? 0); [by apply safe_write_byte|]. apply safe_sfor; [done|]. intros; by apply safe_write_byte.
  - apply safe_with. destruct (_ || _); [by exists t|]. pose proof (to_scr _ Hok) as [_ Hc Hr _]. destruct (Z.ltb_spec 0 (col (scr t))); [|by exists t].
    eapply (good_safe _ _ (fun _ => True)); [done|]. eapply good_bind; [apply good_col; [done|lia]|]. intros t1 Hok1 _.
    eapply good_weaken; [apply good_erase_cell; [done|lia|lia]|done].
  - apply safe_bind; [by apply safe_hide|]. intros; by apply safe_show.
  - by apply safe_clear.
Qed.

Lemma new_ok pixels : term_ok (new g pixels).
Proof.
  destruct dims as [Hmc Hmr]. split; cbn; try done.
  - split; cbn; [by rewrite length_replicate|lia|lia|]. unfold region_ok, sat_sub. cbn. lia.
Qed.

(** ** Plain text *)

Definition idle t : Prop :=
  let p := parser t in esc_pending p = false /\ csi_mode p = false /\ osc_mode p = false /\ dcs_mode p = false.

(** Exactly the cursor, if it is drawn, is shown with swapped colours. *)
Definition exact t : Prop :=
  term_ok t /\ shown (cursor_at t) t /\
  (cursor_drawn (overlay t) = true -> at_cursor t /\ cell_shown g t true (draw_col (overlay t)) (draw_row (overlay t))).

Lemma clear_exact t : term_ok t -> exists t', clear_screen g t = Some (tt, t') /\ exact t' /\ parser t' = parser t /\
  cursor_visible (overlay t') = cursor_visible (overlay t) /\ scr t' = home g (clear_cells (scr t)).
Proof.
  intros Hok. destruct (clear_spec t Hok) as (t1 & E & Hok1 & Hs & Hd & Hv & Hp & Hscr).
  destruct (show_spec t1 Hok1) as (t2 & E2 & Hok2 & (S2 & P2 & V2 & _) & D2 & Hs2 & A2 & _). exists t2. rewrite E. split; [done|]. split; [|repeat split; congruence].
  split; [done|]. split.
  - intros c r Hon. destruct (Hs2 (fun _ _ => False) (shown_plain_shown g _ t1 Hs) c r Hon) as [|[[[]|?] ?]]; [by left|right; by split].
  - intros Hdr. destruct (A2 Hdr) as (? & ? & ?). split; [|done]. unfold at_cursor. rewrite S2, V2. split; [congruence|done].
Qed.

Lemma exact_byte b t : exact t -> idle t -> b <> ESC -> exists t', write_output_byte g b t = Some (tt, t') /\ exact t' /\ idle t'.
Proof.
  intros (Hok & Hs & Hd) (H1 & H2 & H3 & H4) Hb. unfold write_output_byte, with_t. rewrite H1, H2, H3, H4, (proj2 (Z.eqb_neq _ _) Hb).
  destruct (write_byte_spec b t Hok) as (t' & E & Hok' & Hp & Hs' & Hd'). exists t'. split; [done|]. split; [|unfold idle; by rewrite Hp].
  split; [done|]. split; [|done]. intros c r Hon. destruct (Hs' _ Hs c r Hon) as [|[[[? ?]|?] ?]]; [by left|done|right; by split].
Qed.

Lemma exact_hide t : exact t -> exists t', hide_cursor_overlay g t = Some (tt, t') /\ exact t' /\ parser t' = parser t /\ same_core t t' /\ cursor_drawn (overlay t') = false.
Proof.
  intros (Hok & Hs & Hd). destruct (hide_spec t Hok) as (t' & E & Hok' & Hc & Hn & Hs'). exists t'. split; [done|]. split; [|split; [by destruct Hc as (_ & -> & _)|done]].
  split; [done|]. split; [|congruence]. intros c r Hon. destruct (Hs' _ Hs c r Hon) as [|[[? ?] ?]]; [by left|done].
Qed.

Lemma exact_run bs t : exact t -> idle t -> ESC ∉ bs -> exists t', sfor bs (write_output_byte g) t = Some (tt, t') /\ exact t' /\ idle t'.
Proof.
  revert t. induction bs as [|b bs IH]; intros t He Hi Hn; [by exists t|]. apply not_elem_of_cons in Hn as [Hb Hn].
  destruct (exact_byte b t He Hi ltac:(congruence)) as (t1 & E1 & He1 & Hi1). cbn [sfor]. rewrite (st_bind_eq _ _ _ _ _ E1). by apply IH.
Qed.

(** Plain text is shown exactly: writing bytes without an escape character to a
    terminal that shows its cells exactly leaves every cell shown in its colours,
    and, when the cursor is visible, the cursor's cell alone with the colours
    swapped. *)
Theorem plain_text_exact bs t :
  exact t -> idle t -> ESC ∉ bs ->
  exists t', write_bytes g bs t = Some (tt, t') /\ exact t' /\ idle t' /\ cursor_drawn (overlay t') = cursor_visible (overlay t').
Proof.
  intros He Hi Hn. destruct (exact_hide t He) as (t1 & E1 & He1 & Hp1 & _ & Hd1). unfold write_bytes. rewrite (st_bind_eq _ _ _ _ _ E1).
  destruct (exact_run bs t1 He1) as (t2 & E2 & (Hok2 & Hs2 & Hd2) & Hi2); [unfold idle; by rewrite Hp1|done|]. rewrite (st_bind_eq _ _ _ _ _ E2).
  destruct (show_spec t2 Hok2) as (t3 & E3 & Hok3 & Hc3 & Hv3 & Hs3 & Hd3 & _). exists t3. split; [done|]. destruct Hc3 as (Ec & Ep & Ev & _).
  split; [|split; [unfold idle; by rewrite Ep|congruence]]. split; [done|]. split.
  - intros c r Hon. destruct (Hs3 _ Hs2 c r Hon) as [|[[Hc|Hc] Hi3]]; [by left| |right; by split]. right. split; [|done].
    destruct Hc as (Ed2 & -> & ->). destruct (Hd2 Ed2) as [(Hv & E4 & E5) _]. rewrite Hv in Hv3. destruct (Hd3 Hv3) as (E6 & E7 & _).
    split; [done|]. split; congruence.
  - intros Hdr. destruct (Hd3 Hdr) as (E6 & E7 & E8). split; [|done]. unfold at_cursor. rewrite Ec, Ev. split; [congruence|done].
Qed.

(** ** Ghosts *)

Lemma print_in_line t byte :
  term_ok t -> 32 <= byte <= 126 -> col (scr t) < max_cols -> insert_mode (scr t) = false ->
  exists t' cs, print_byte g byte t = Some (tt, t') /\ term_ok t' /\ parser t' = parser t /\ cursor_visible (overlay t') = cursor_visible (overlay t) /\
    scr t' = set_pos (col (scr t) + 1) (row (scr t)) (set_cells cs (scr t)).
Proof.
  intros Hok Hb Hc Hi. pose proof (to_scr _ Hok) as Hs. destruct (good_print t byte Hok Hb) as (t' & E & Hok' & [_ Hp] & _). exists t'.
  destruct (set_cell_spec g Hg (col (scr t)) (row (scr t)) (mkCell byte (fg (scr t)) (bg (scr t))) t) as (t1 & E1 & (p & cs & -> & _) & _); [apply Hs|apply Hs|by apply ok_cells|].
  exists cs. split; [done|]. split; [done|]. split; [done|]. revert E. unfold print_byte, with_t, mbind, ST_bind. rewrite (proj2 (Z.leb_gt _ _)) by done. cbn. rewrite Hi. cbn. rewrite E1. cbn. by intros [= <-].
Qed.

(** [ESC \[ H] from an idle parser. *)
Lemma home_sequence t b t1 t' :
  write_output_byte g b t1 = Some (tt, t) -> idle t ->
  t' = t -> sfor [b; ESC; 91; 72] (write_output_byte g) t1 = Some (tt, on_parser reset_parser (on_scr (set_pos 0 0) t')).
Proof.
  intros Eb (I1 & I2 & I3 & I4) ->. destruct dims as [Hmc Hmr], last_bounds as [Elc Elr]. cbn [sfor]. rewrite (st_bind_eq _ _ _ _ _ Eb).
  destruct t as [f s [e c o d oe de sq sl] ov sc sr al la]. cbn in I1, I2, I3, I4. subst e c o d.
  transitivity (Some (tt, on_scr (set_pos (Z.min 0 (last_col g)) (Z.min 0 (last_row g)))
    (mkTerminal f s (mkParser false false false false false false sq 0) ov sc sr al la))); [reflexivity|].
  by rewrite Elc, Elr, !Z.min_l by lia.
Qed.

(** A cursor that an escape sequence moves leaves a ghost: after a printable
    character and [ESC \[ H] the cursor is drawn at the origin, but the cell after the
    character still shows the cursor's swapped colours, and nothing records that it
    must be redrawn. *)
Theorem moved_cursor_leaves_ghost b t :
  term_ok t -> idle t -> 32 <= b <= 126 -> cursor_visible (overlay t) = true -> insert_mode (scr t) = false -> col (scr t) + 1 < max_cols ->
  exists t', write_bytes g [b; ESC; 91; 72] t = Some (tt, t') /\ col (scr t') = 0 /\ row (scr t') = 0 /\
    (forall c r, cursor_at t' c r <-> c = 0 /\ r = 0) /\ cell_shown g t' true (col (scr t) + 1) (row (scr t)).
Proof.
  intros Hok (I1 & I2 & I3 & I4) Hb Hv Hi Hc. destruct dims as [Hmc Hmr], last_bounds as [Elc Elr]. unfold write_bytes.
  destruct (hide_spec t Hok) as (t1 & E1 & Hok1 & (S1 & P1 & V1 & _) & Hd1 & _). rewrite (st_bind_eq _ _ _ _ _ E1).
  pose proof (to_scr _ Hok) as Hscr. pose proof (to_seq_len _ Hok) as Hsl.
  (* the character *)
  destruct (print_in_line t1 b) as (t2 & cs & E2 & Hok2 & P2 & V2 & S2); [done|done|by rewrite S1; lia|by rewrite S1|].
  destruct (show_spec t2 Hok2) as (t3 & E3 & Hok3 & (S3 & P3 & V3 & _) & D3 & _ & A3 & _).
  rewrite V2, V1, Hv in D3. destruct (A3 D3) as (C3 & R3 & G3). rewrite S2, S1 in C3, R3. cbn in C3, R3. rewrite Z.min_l in C3 by lia. rewrite C3, R3 in G3.
  assert (write_output_byte g b t1 = Some (tt, t3)) as Eb.
  { unfold write_output_byte, with_t. rewrite P1, I1, I2, I3, I4, (proj2 (Z.eqb_neq b ESC)) by (unfold ESC; lia).
    rewrite write_byte_body. unfold hide_cursor_overlay at 1, with_t at 1. unfold mbind at 1, ST_bind at 1. rewrite Hd1. cbn [negb mret ST_ret].
    unfold write_body. rewrite !(proj2 (Z.eqb_neq b _)) by lia. rewrite (proj2 (Z.leb_le 32 b)), (proj2 (Z.leb_le b 126)) by lia. cbn [andb negb].
    by rewrite (st_bind_eq _ _ _ _ _ E2). }
  rewrite (st_bind_eq _ _ _ _ _ (home_sequence t3 b t1 t3 Eb ltac:(unfold idle; by rewrite P3, P2, P1) eq_refl)).
  set (t4 := on_parser _ _). assert (term_ok t4) as Hok4.
  { destruct Hok3. split; try done. by apply ok_pos; [|lia|lia]. }
  destruct (show_spec t4 Hok4) as (t5 & E5 & Hok5 & (S5 & _) & D5 & _ & A5 & K5). cbn in D5. rewrite V3, V2, V1, Hv in D5. destruct (A5 D5) as (C5 & R5 & _). cbn in C5, R5.
  exists t5. split; [done|]. rewrite S5. split; [done|]. split; [done|]. assert (forall c r, cursor_at t5 c r <-> c = 0 /\ r = 0) as Hcur.
  { intros c r. unfold cursor_at. rewrite D5, C5, R5, Z.min_l by lia. naive_solver. }
  split; [done|]. apply K5; [unfold TermDraw.on_screen; destruct Hscr; lia|rewrite Hcur; destruct Hscr; lia|]. exact G3.
Qed.

(** C22. The terminal is total and stays well formed: from a cleared terminal, any
    output operations with any bytes run without a panic, an overflow or a write
    outside the frame buffer; afterwards the cursor, the scroll region, the saved
    screen and the parser's buffer are within their bounds, and every cell is shown in
    the frame buffer with its character and its two colours. *)
Theorem terminal_well_formed pixels ops :
  exists t0 t', clear_screen g (new g pixels) = Some (tt, t0) /\ sfor ops out t0 = Some (tt, t') /\
    term_ok t' /\ shown (fun _ _ => True) t'.
Proof.
  destruct (safe_clear (new g pixels) (new_ok pixels)) as (t0 & E0 & Hd0). destruct (safe_sfor out ops t0 Hd0) as (t' & E & Hok & Hs).
  - intros. by apply safe_out.
  - exists t0, t'. done.
Qed.
End terminal.

(** ** A small terminal: three columns, two rows, the built-in font *)

Definition demo_geometry : Geometry := mkGeometry 18 24 20 fallback_font.

Lemma demo_geometry_ok : geometry_ok demo_geometry.
Proof.
  split; try (vm_compute; (done || discriminate)). apply Forall_lookup. intros i x. unfold demo_geometry, glyphs, fallback_font. rewrite list_lookup_fmap_Some.
  intros (k & -> & _). unfold fallback_glyph. by destruct (_ =? _).
Qed.

Lemma demo_space_blank dx dy : 0 <= dx < 6 -> 0 <= dy < 12 -> bit demo_geometry SPACE dx dy = false.
Proof.
  intros Hx Hy. unfold bit. change (glyph demo_geometry SPACE) with (replicate 12 0). rewrite lookup_replicate_2 by lia. cbn [default]. unfold default, id.
  by rewrite Z.shiftr_0_l.
Qed.

Definition blank_terminal : Terminal := new demo_geometry (fun _ => 7).

Lemma demo_cleared : exists t, clear_screen demo_geometry blank_terminal = Some (tt, t) /\ exact demo_geometry t /\ idle t /\
  cursor_visible (overlay t) = true /\ scr t = scr blank_terminal.
Proof.
  destruct (clear_exact demo_geometry demo_geometry_ok demo_space_blank blank_terminal (new_ok _ demo_geometry_ok _)) as (t & E & He & Hp & Hv & Hs).
  exists t. split; [done|]. split; [done|]. split; [unfold idle; by rewrite Hp|]. split; [by rewrite Hv|]. rewrite Hs. vm_compute. reflexivity.
Qed.

Lemma terminal_well_formed_witness :
  exists t0 t', clear_screen demo_geometry blank_terminal = Some (tt, t0) /\
    sfor [OWrite [104; 105; 27; 91; 51]; OWrite [49; 109; 10; 10]; OErase] (out demo_geometry) t0 = Some (tt, t') /\ term_ok demo_geometry t'.
Proof.
  destruct (terminal_well_formed demo_geometry demo_geometry_ok demo_space_blank (fun _ => 7) [OWrite [104; 105; 27; 91; 51]; OWrite [49; 109; 10; 10]; OErase])
    as (t0 & t' & E0 & E & Hok & _).
  exists t0, t'. split; [exact E0|]. split; [exact E|exact Hok].
Defined.

Lemma plain_text_exact_witness :
  exists t t', clear_screen demo_geometry blank_terminal = Some (tt, t) /\ write_bytes demo_geometry [104; 105] t = Some (tt, t') /\ exact demo_geometry t'.
Proof.
  destruct demo_cleared as (t & E & He & Hi & _).
  destruct (plain_text_exact demo_geometry demo_geometry_ok [104; 105] t He Hi) as (t' & E' & He' & _).
  - apply (bool_decide_unpack _). vm_compute. exact I.
  - exists t, t'. split; [exact E|]. split; [exact E'|exact He'].
Defined.

Lemma moved_cursor_leaves_ghost_witness :
  exists t t', clear_screen demo_geometry blank_terminal = Some (tt, t) /\ write_bytes demo_geometry [104; ESC; 91; 72] t = Some (tt, t') /\
    cell_shown demo_geometry t' true 1 0 /\ ~ cursor_at t' 1 0.
Proof.
  destruct demo_cleared as (t & E & He & Hi & Hv & Hs).
  destruct (moved_cursor_leaves_ghost demo_geometry demo_geometry_ok 104 t (proj1 He) Hi) as (t' & E' & _ & _ & Hc & Hg).
  - lia.
  - exact Hv.
  - rewrite Hs. reflexivity.
  - rewrite Hs. reflexivity.
  - rewrite Hs in Hg. exists t, t'. split; [exact E|]. split; [exact E'|]. split; [exact Hg|]. intros [H _]%Hc. discriminate H.
Defined.

Lemma editing_matches_reference_witness :
  exists t', insert_blank_chars demo_geometry 1 blank_terminal = Some (tt, t') /\ edits blank_terminal t'.
Proof.
  destruct (editing_matches_reference demo_geometry demo_geometry_ok 1 blank_terminal) as ((t' & E & He & _) & _).
  - reflexivity.
  - vm_compute. repeat split; discriminate.
  - vm_compute. split; [discriminate|reflexivity].
  - vm_compute. split; [discriminate|reflexivity].
  - lia.
  - exists t'. split; [exact E|exact He].
Defined.

Lemma scroll_up_exact_witness :
  exists t', scroll_region_up demo_geometry 0 1 5 blank_terminal = Some (tt, t') /\ grid demo_geometry t' 0 0 = grid demo_geometry blank_terminal 0 2.
Proof.
  destruct (scroll_up_exact demo_geometry demo_geometry_ok 0 1 5 blank_terminal eq_refl) as (t' & E & _ & _ & Hg).
  - lia.
  - lia.
  - reflexivity.
  - exists t'. split; [exact E|]. rewrite Hg by (vm_compute; repeat split; discriminate). reflexivity.
Defined.
End TermProps.
