(* ===== verification/TermChunks.v ===== *)
(** Output does not depend on how it is cut into writes.

    The operations respect [same_core], equality of everything but the pixels and the
    place where the cursor is drawn; hiding and showing the cursor between two parts
    of the output therefore changes nothing else. *)

From Stdlib Require Import ZArith Lia.
From stdpp Require Import base list option numbers relations.
From S2P Require Import Prelude State Term TermDraw TermGrid TermProps.
Import Term TermDraw TermGrid TermProps.

Local Open Scope Z_scope.

Module TermChunks.

#[export] Instance same_core_equivalence : Equivalence same_core.
Proof.
  split; unfold same_core; intros ?; [done|intros y H|intros y z H1 H2]; naive_solver congruence.
Qed.

(** Runs from related states end in related states with equal results. *)
Definition sim {A} (m : T A) : Prop :=
  forall t1 t2 a1 a2 t1' t2', same_core t1 t2 -> m t1 = Some (a1, t1') -> m t2 = Some (a2, t2') -> a1 = a2 /\ same_core t1' t2'.

(** Runs that only draw. *)
Definition still (m : T unit) : Prop := forall t t', m t = Some (tt, t') -> same_core t t'.

Create HintDb sim.

Lemma still_sim m : still m -> sim m.
Proof. intros H t1 t2 [] [] t1' t2' Hs E1 E2. split; [done|]. transitivity t1; [symmetry; eauto|]. transitivity t2; eauto. Qed.

Lemma sim_ret {A} (a : A) : sim (mret a).
Proof. intros t1 t2 a1 a2 t1' t2' Hs [= <- <-] [= <- <-]. done. Qed.
Lemma sim_undefined {A} : sim (@undefined Terminal A).
Proof. done. Qed.
Lemma sim_bind {A B} (m : T A) (k : A -> T B) : sim m -> (forall a, sim (k a)) -> sim (m ≫= k).
Proof.
  intros Hm Hk t1 t2 b1 b2 t1' t2' Hs (a1 & s1 & E1 & F1)%st_bind_Some (a2 & s2 & E2 & F2)%st_bind_Some.
  destruct (Hm t1 t2 a1 a2 s1 s2 Hs E1 E2) as [<- Hs']. by eapply Hk.
Qed.
Lemma sim_sfor {A} (f : A -> T unit) l : (forall a, sim (f a)) -> sim (sfor l f).
Proof. intros Hf. induction l as [|a l IH]; cbn [sfor]; [apply sim_ret|]. by apply sim_bind. Qed.
Lemma sim_if {A} (b : bool) (m1 m2 : T A) : sim m1 -> sim m2 -> sim (if b then m1 else m2).
Proof. by destruct b. Qed.
Lemma sim_with {A} (f : Terminal -> T A) : (forall t1 t2, same_core t1 t2 -> f t1 = f t2) -> (forall t, sim (f t)) -> sim (with_t f).
Proof. intros He Hf t1 t2 a1 a2 t1' t2' Hs E1 E2. unfold with_t in *. rewrite (He t1 t2 Hs) in E1. by eapply (Hf t2). Qed.
Lemma sim_modify f : (forall t1 t2, same_core t1 t2 -> same_core (f t1) (f t2)) -> sim (smodify f).
Proof. intros Hf t1 t2 [] [] t1' t2' Hs [= <-] [= <-]. split; [done|]. by apply Hf. Qed.
Lemma sim_screen f : sim (screen f).
Proof. apply sim_modify. intros t1 t2 (E1 & E). unfold same_core in *. cbn. by rewrite E1. Qed.
Lemma sim_parse f : sim (parse f).
Proof. apply sim_modify. intros t1 t2 (E1 & E2 & E). unfold same_core in *. cbn. by rewrite E2. Qed.

Lemma still_ret : still (mret tt).
Proof. by intros t t' [= <-]. Qed.
Lemma still_bind {A} (m : T A) k :
  (forall t a t', m t = Some (a, t') -> same_core t t') -> (forall a, still (k a)) -> still (m ≫= k).
Proof. intros Hm Hk t t' (a & s & E1 & E2)%st_bind_Some. transitivity s; [by eapply Hm|by eapply Hk]. Qed.
Lemma still_sfor {A} (f : A -> T unit) l : (forall a, still (f a)) -> still (sfor l f).
Proof. intros Hf. induction l as [|a l IH]; cbn [sfor]; [apply still_ret|]. apply still_bind; [|done]. intros t [] t'. apply Hf. Qed.
Lemma still_fb (f : Terminal -> Z -> Z) : still (smodify (fun t => set_fb (f t) t)).
Proof. by intros t t' [= <-]. Qed.

#[export] Hint Resolve sim_ret sim_undefined sim_screen sim_parse : sim.

Section terminal.
Context (g : Geometry).

(** ** Drawing *)

Lemma still_u32 v (k : Z -> T unit) : (forall v, still (k v)) -> still (u32 v k).
Proof. intros Hk. unfold u32. by destruct (in_u32 v). Qed.

Lemma still_pixel x y c : still (put_pixel g x y c).
Proof. unfold put_pixel. destruct (_ || _); [apply still_ret|]. apply still_u32. intros v. destruct (_ <? _); [apply still_fb|done]. Qed.

Lemma still_rows rows r x y f b : still (draw_rows g rows r x y f b).
Proof.
  revert r. induction rows as [|bits rows IH]; intros r; cbn [draw_rows]; [apply still_ret|]. destruct (_ <=? _); [apply still_ret|].
  destruct (_ <? _); [apply still_ret|]. apply still_bind; [|done]. intros t [] t'. apply still_sfor. intros. apply still_pixel.
Qed.

Lemma still_draw ch c r f b : still (draw_char_pixels g ch c r f b).
Proof. apply still_u32. intros. apply still_u32. intros. apply still_rows. Qed.

Lemma get_cell_same c r t x t' : get_cell g c r t = Some (x, t') -> same_core t t'.
Proof.
  unfold get_cell. destruct (cell_index g c r); [|by intros [= _ <-]]. unfold load_cell, sderef. destruct (_ !! _); [|done]. by intros [= _ <-].
Qed.

Lemma still_redraw_cell c r (k : Cell -> T unit) : (forall x, still (k x)) -> still (get_cell g c r ≫= k).
Proof. intros Hk. apply still_bind; [|done]. intros t x t'. apply get_cell_same. Qed.

Lemma still_redraw : still (redraw_from_cells g).
Proof. apply still_sfor. intros r. apply still_sfor. intros c. apply still_redraw_cell. intros. apply still_draw. Qed.

Lemma still_overlay v d c r : (forall t, cursor_visible (overlay t) = v -> same_core t (set_overlay (mkOverlay v d c r) t)).
Proof. intros t E. unfold same_core. cbn. naive_solver. Qed.

Lemma still_hide : still (hide_cursor_overlay g).
Proof.
  intros t t'. unfold hide_cursor_overlay, with_t. destruct (negb _); [apply still_ret|]. intros ([] & t1 & [= <-] & E)%st_bind_Some.
  etransitivity; [by apply (still_overlay (cursor_visible (overlay t)) false (draw_col (overlay t)) (draw_row (overlay t)))|].
  destruct (_ || _); [by apply still_ret in E|]. revert E. apply still_redraw_cell. intros. apply still_draw.
Qed.

Lemma still_show : still (show_cursor_overlay g).
Proof.
  intros t t'. unfold show_cursor_overlay, with_t. destruct (_ || _); [intros [= <-]; by apply still_overlay|].
  intros (x & t1 & E1%get_cell_same & ([] & t2 & E2%still_draw & [= <-])%st_bind_Some)%st_bind_Some.
  assert (same_core t t2) as Hs by (by transitivity t1). etransitivity; [exact Hs|]. apply still_overlay. apply Hs.
Qed.

Lemma sim_get_cell c r : sim (get_cell g c r).
Proof.
  unfold get_cell. destruct (cell_index g c r) as [i|]; [|apply sim_ret]. intros t1 t2 a1 a2 t1' t2' Hs. unfold load_cell, sderef.
  pose proof Hs as (E & _). rewrite E. destruct (_ !! _); [|done]. by intros [= <- <-] [= <- <-].
Qed.

Lemma sim_store i x : sim (store_cell i x).
Proof.
  intros t1 t2 [] [] t1' t2' Hs. unfold store_cell. pose proof Hs as (E & E'). rewrite E. destruct (_ <? _); [|done]. intros [= <-] [= <-].
  split; [done|]. unfold same_core in *. cbn. by rewrite E.
Qed.

Hint Resolve sim_get_cell sim_store : sim.
Lemma sim_draw ch c r f b : sim (draw_char_pixels g ch c r f b). Proof. apply still_sim, still_draw. Qed.
Lemma sim_redraw : sim (redraw_from_cells g). Proof. apply still_sim, still_redraw. Qed.
Lemma sim_hide : sim (hide_cursor_overlay g). Proof. apply still_sim, still_hide. Qed.
Lemma sim_show : sim (show_cursor_overlay g). Proof. apply still_sim, still_show. Qed.
Hint Resolve sim_draw sim_redraw sim_hide sim_show : sim.

(** The body of a [with_t] reads only what [same_core] fixes. *)
Ltac core_body := let H := fresh in intros ? ? H; unfold same_core in H; destruct H as (H1 & H2 & H3 & H4 & H5 & H6 & H7); cbv beta; rewrite ?H1, ?H2, ?H5, ?H6, ?H7; reflexivity.
Ltac sim_go :=
  cbv zeta;
  lazymatch goal with
  | |- forall _, _ => intro; sim_go
  | |- sim (with_t _) => apply sim_with; [core_body|sim_go]
  | |- sim (_ ≫= _) => apply sim_bind; sim_go
  | |- sim (sfor _ _) => apply sim_sfor; sim_go
  | |- sim (if _ then _ else _) => apply sim_if; sim_go
  | |- _ => solve [auto with sim nocore]
  end.

Lemma sim_set_cell c r x : sim (set_cell g c r x).
Proof. unfold set_cell. destruct (cell_index g c r); sim_go. Qed.
Lemma sim_set_cell_only c r x : sim (set_cell_only g c r x).
Proof. unfold set_cell_only. destruct (cell_index g c r); sim_go. Qed.
Hint Resolve sim_set_cell sim_set_cell_only : sim.

Lemma sim_normalize : sim (normalize_scroll_region g). Proof. apply sim_screen. Qed.
Hint Resolve sim_normalize : sim.
Lemma sim_erase_cell c r : sim (erase_cell g c r). Proof. unfold erase_cell. sim_go. Qed.
Lemma sim_move_cell a b c d : sim (move_cell g a b c d). Proof. unfold move_cell. sim_go. Qed.
Hint Resolve sim_erase_cell sim_move_cell : sim.
Lemma sim_copy_row a b : sim (copy_row g a b). Proof. unfold copy_row. sim_go. Qed.
Lemma sim_blank_row a : sim (blank_row g a). Proof. unfold blank_row. sim_go. Qed.
Lemma sim_move_line a b : sim (move_line g a b). Proof. unfold move_line. sim_go. Qed.
Lemma sim_erase_line a b c : sim (erase_line_range g a b c). Proof. unfold erase_line_range. sim_go. Qed.
Hint Resolve sim_copy_row sim_blank_row sim_move_line sim_erase_line : sim.
Lemma sim_scroll_up a b c : sim (scroll_region_up g a b c). Proof. unfold scroll_region_up. sim_go. Qed.
Lemma sim_scroll_down a b c : sim (scroll_region_down g a b c). Proof. unfold scroll_region_down. sim_go. Qed.
Lemma sim_erase_screen a b c d : sim (erase_screen_range g a b c d). Proof. unfold erase_screen_range. sim_go. Qed.
Lemma sim_erase_lines a b : sim (erase_lines g a b). Proof. unfold erase_lines. sim_go. Qed.
Hint Resolve sim_scroll_up sim_scroll_down sim_erase_screen sim_erase_lines : sim.
Lemma sim_index : sim (index g). Proof. unfold index. sim_go. Qed.
Lemma sim_reverse_index : sim (reverse_index g). Proof. unfold reverse_index. sim_go. Qed.
Hint Resolve sim_index sim_reverse_index : sim.
Lemma sim_new_line : sim (new_line g). Proof. unfold new_line. sim_go. Qed.
Lemma sim_insert_chars n : sim (insert_blank_chars g n). Proof. unfold insert_blank_chars. sim_go. Qed.
Lemma sim_delete_chars n : sim (delete_chars g n). Proof. unfold delete_chars. sim_go. Qed.
Lemma sim_erase_chars n : sim (erase_chars g n). Proof. unfold erase_chars. sim_go. Qed.
Lemma sim_insert_lines n : sim (insert_blank_lines g n). Proof. unfold insert_blank_lines. sim_go. Qed.
Lemma sim_delete_lines n : sim (delete_lines g n). Proof. unfold delete_lines. sim_go. Qed.
Lemma sim_region a b : sim (set_scroll_region g a b). Proof. apply sim_screen. Qed.
Hint Resolve sim_new_line sim_insert_chars sim_delete_chars sim_erase_chars sim_insert_lines sim_delete_lines sim_region : sim.

Ltac core_modify := apply sim_modify; intros ? ? (H1 & H2 & H3 & H4 & H5 & H6 & H7); unfold same_core; cbn; rewrite ?H1, ?H2, ?H3, ?H4, ?H5, ?H6, ?H7; done.

Lemma sim_set_alt a : sim (smodify (set_alt a)). Proof. core_modify. Qed.
Lemma sim_set_last a : sim (smodify (set_last a)). Proof. core_modify. Qed.
Lemma sim_set_visible a : sim (smodify (set_visible a)). Proof. core_modify. Qed.
Lemma sim_save : sim (smodify save_cursor). Proof. core_modify. Qed.
Lemma sim_restore : sim (smodify (restore_cursor g)). Proof. core_modify. Qed.
Lemma sim_reset : sim reset_ansi_parser. Proof. apply sim_parse. Qed.
Hint Resolve sim_set_alt sim_set_last sim_set_visible sim_save sim_restore sim_reset : sim.

Lemma sim_enter : sim (enter_alt_screen g).
Proof. unfold enter_alt_screen. apply sim_with; [core_body|]. intros t. destruct (alt_screen t); sim_go. Qed.
Lemma sim_leave : sim (leave_alt_screen g).
Proof. unfold leave_alt_screen. apply sim_with; [core_body|]. intros t. destruct (alt_screen t); sim_go. Qed.
Hint Resolve sim_enter sim_leave : sim.
Lemma sim_tab : sim (tab_step g). Proof. unfold tab_step. sim_go. Qed.
Lemma sim_print b : sim (print_byte g b). Proof. unfold print_byte. sim_go. Qed.
Hint Resolve sim_tab sim_print : sim.
Lemma sim_write_byte b : sim (write_byte g b). Proof. unfold write_byte. sim_go. Qed.
Lemma sim_mode p on m : sim (apply_mode g p on m). Proof. unfold apply_mode. destruct p; sim_go. Qed.
Lemma sim_sgr : sim apply_sgr_sequence.
Proof. unfold apply_sgr_sequence. apply sim_with; [core_body|]. intros t. destruct (csi_params_without_prefix _); sim_go. Qed.
Hint Resolve sim_write_byte sim_mode sim_sgr : sim.

Lemma sim_csi final : sim (handle_csi_sequence g final). Proof. unfold handle_csi_sequence. sim_go. Qed.
Lemma sim_clear : sim (clear_screen g).
Proof.
  unfold clear_screen. apply sim_bind; [auto with sim|]. intros _. apply sim_bind; [|sim_go]. apply still_sim, still_u32. intros. apply still_fb.
Qed.
Hint Resolve sim_csi sim_clear : sim.
Lemma sim_full_reset : sim (full_reset g). Proof. unfold full_reset. sim_go. Qed.
Hint Resolve sim_full_reset : sim.
Lemma sim_after_esc b : sim (after_esc g b). Proof. unfold after_esc. sim_go. Qed.
Hint Resolve sim_after_esc : sim.
Lemma sim_output b : sim (write_output_byte g b).
Proof.
  unfold write_output_byte. apply sim_with; [core_body|]. intros t. unfold after_dcs, after_osc, in_csi. sim_go.
Qed.

Lemma sfor_app_Some {S A} (f : A -> ST S unit) l1 l2 s s' :
  sfor (l1 ++ l2) f s = Some (tt, s') <-> exists s1, sfor l1 f s = Some (tt, s1) /\ sfor l2 f s1 = Some (tt, s').
Proof.
  revert s. induction l1 as [|a l1 IH]; intros s; cbn [app sfor].
  - split; [by exists s|]. by intros (s1 & [= <-] & ?).
  - rewrite st_bind_Some. setoid_rewrite st_bind_Some. setoid_rewrite IH. naive_solver.
Qed.

(** The effect of output does not depend on how it is cut into writes: writing two
    parts one after the other and writing them at once both succeed and give the same
    cells, cursor, colours, modes and parser state, even when an escape sequence is
    cut in two. *)
Theorem output_chunks_equivalent (Hg : geometry_ok g) (space_blank : forall dx dy, 0 <= dx < 6 -> 0 <= dy < 12 -> bit g SPACE dx dy = false) bs1 bs2 t :
  displayed g t ->
  exists t1 t2, write_bytes g (bs1 ++ bs2) t = Some (tt, t1) /\ (write_bytes g bs1 ≫= fun _ => write_bytes g bs2) t = Some (tt, t2) /\
    same_core t1 t2.
Proof.
  intros Hd. destruct (safe_write_bytes g Hg space_blank (bs1 ++ bs2) t Hd) as (t1 & E1 & _).
  destruct (safe_write_bytes g Hg space_blank bs1 t Hd) as (u & Eu & Hu). destruct (safe_write_bytes g Hg space_blank bs2 u Hu) as (t2 & E2 & _).
  exists t1, t2. split; [done|]. split; [by rewrite (st_bind_eq _ _ _ _ _ Eu)|]. unfold write_bytes in *.
  apply st_bind_Some in E1 as ([] & a1 & A1 & ([] & a3 & A3 & A4)%st_bind_Some). apply sfor_app_Some in A3 as (a2 & A2 & A3).
  apply st_bind_Some in Eu as ([] & b1 & B1 & ([] & b2 & B2 & B3)%st_bind_Some). apply st_bind_Some in E2 as ([] & b4 & B4 & ([] & b5 & B5 & B6)%st_bind_Some).
  rewrite A1 in B1. injection B1 as <-. rewrite A2 in B2. injection B2 as <-.
  assert (same_core a2 b4) as Hs by (transitivity u; [by apply still_show|by apply still_hide]).
  destruct (sim_sfor (write_output_byte g) bs2 sim_output a2 b4 tt tt a3 b5 Hs A3 B5) as [_ Hs'].
  transitivity a3; [symmetry; by apply still_show|]. transitivity b5; [done|by apply still_show].
Qed.
End terminal.

(** A sequence cut in two. *)
Lemma output_chunks_equivalent_witness :
  exists t t1 t2, clear_screen demo_geometry blank_terminal = Some (tt, t) /\
    write_bytes demo_geometry ([104; 27; 91] ++ [51; 49; 109; 105]) t = Some (tt, t1) /\
    (write_bytes demo_geometry [104; 27; 91] ≫= fun _ => write_bytes demo_geometry [51; 49; 109; 105]) t = Some (tt, t2) /\ scr t1 = scr t2.
Proof.
  destruct demo_cleared as (t & E & (Hok & Hs & _) & _).
  destruct (output_chunks_equivalent demo_geometry demo_geometry_ok demo_space_blank [104; 27; 91] [51; 49; 109; 105] t) as (t1 & t2 & E1 & E2 & Hc).
  - split; [exact Hok|]. exact (shown_any demo_geometry _ t Hs).
  - exists t, t1, t2. split; [exact E|]. split; [exact E1|]. split; [exact E2|]. symmetry. exact (proj1 Hc).
Defined.
End TermChunks.
