(* ===== verification/Input.v ===== *)
(** Keyboard and mouse input: [src/core/util/ps2kbd.rs], [src/core/util/ps2mouse.rs],
    [src/core/syscall/keyboard.rs] and [src/core/syscall/mouse.rs].

    The interrupt handlers push into bounded queues and wake one registered
    thread; the system calls pop.  The queues are used through the interface of
    [Queue] ([Fifo] implements it).  An interrupt may come between any two calls of
    a reader, so the blocking reads are given as the calls they are made of, and the
    theorems say what an interrupt does between them. *)

From Stdlib Require Import ZArith Lia.
From stdpp Require Import base list option numbers gmap fin_maps.
From S2P Require Import Prelude Types UserMem Slots Ring Queue Fifo Table Thread KStack Scheduler Process Ipc IpcSyscalls Futex Kernel.

Local Open Scope Z_scope.

Module Input.
Import IpcSyscalls Kernel.

Record PacketAssembler := mkAsm { bytes : list Z; len : Z }.

Record Devices (Qk Qm : Type) := mkDevices {
  scancode_buf : Qk;
  scancode_tap_buf : Qk;
  keyboard_waiter : Z;
  mouse_packet_buf : Qm;
  mouse_waiter : Z;
  mouse_packet_drops : Z;
  assembler : PacketAssembler;
}.
Arguments mkDevices {Qk Qm} _ _ _ _ _ _ _.
Arguments scancode_buf {Qk Qm} _.
Arguments scancode_tap_buf {Qk Qm} _.
Arguments keyboard_waiter {Qk Qm} _.
Arguments mouse_packet_buf {Qk Qm} _.
Arguments mouse_waiter {Qk Qm} _.
Arguments mouse_packet_drops {Qk Qm} _.
Arguments assembler {Qk Qm} _.

(** How far a round of a blocking read got. *)
Inductive progress (A : Type) := Returned (a : A) | Asleep | Again.
Arguments Returned {A} a.
Arguments Asleep {A}.
Arguments Again {A}.

Section input.
Context {M : Type} `{!UserMemory M}.
Context {Qk Qm : Type} `{!BoundedQueue Qk Z, !BoundedQueue Qm Z}.

Notation Devices := (Devices Qk Qm).
Implicit Types d : Devices.

Record World := mkWorld { kern : KS M; dev : Devices }.
Implicit Types w : World.

Definition set_keys (b t : Qk) d : Devices :=
  mkDevices b t (keyboard_waiter d) (mouse_packet_buf d) (mouse_waiter d) (mouse_packet_drops d) (assembler d).
Definition set_keyboard_waiter (v : Z) d : Devices :=
  mkDevices (scancode_buf d) (scancode_tap_buf d) v (mouse_packet_buf d) (mouse_waiter d) (mouse_packet_drops d) (assembler d).
Definition set_packets (q : Qm) (drops : Z) d : Devices :=
  mkDevices (scancode_buf d) (scancode_tap_buf d) (keyboard_waiter d) q (mouse_waiter d) drops (assembler d).
Definition set_mouse_waiter (v : Z) d : Devices :=
  mkDevices (scancode_buf d) (scancode_tap_buf d) (keyboard_waiter d) (mouse_packet_buf d) v (mouse_packet_drops d) (assembler d).
Definition set_assembler (a : PacketAssembler) d : Devices :=
  mkDevices (scancode_buf d) (scancode_tap_buf d) (keyboard_waiter d) (mouse_packet_buf d) (mouse_waiter d) (mouse_packet_drops d) a.

Definition on_dev (f : Devices -> Devices) w : World := mkWorld (kern w) (f (dev w)).

(** [if waiter != 0 { wake_thread(waiter) }] *)
Definition wake_waiter (waiter : Z) w : World :=
  if waiter =? 0 then w else mkWorld (on_ks (Scheduler.wake_thread waiter) (kern w)) (dev w).

(** ** Keyboard *)

Definition enqueue_scancode (scancode : Z) d : Devices :=
  set_keys (bq_push scancode (scancode_buf d)).2 (bq_push scancode (scancode_tap_buf d)).2 d.

Definition push_scancode (scancode : Z) w : World :=
  let d := dev w in
  wake_waiter (keyboard_waiter d) (mkWorld (kern w) (set_keyboard_waiter 0 (enqueue_scancode scancode d))).

Definition pop_scancode d : option Z * Devices :=
  let '(r, q) := bq_pop (scancode_buf d) in (r, set_keys q (scancode_tap_buf d) d).
Definition pop_tap_scancode d : option Z * Devices :=
  let '(r, q) := bq_pop (scancode_tap_buf d) in (r, set_keys (scancode_buf d) q d).

Definition register_waiter (tid : Z) d : Devices := set_keyboard_waiter tid d.
(** [compare_exchange(tid, 0)] *)
Definition unregister_waiter (tid : Z) d : Devices :=
  if keyboard_waiter d =? tid then set_keyboard_waiter 0 d else d.

(** Core, Service or User: every level there is. *)
Definition caller_has_input_privilege (s : KS M) : bool :=
  match current_privilege s with
  | Some p => bool_decide (p = Process.Core) || bool_decide (p = Process.Service) || bool_decide (p = Process.User)
  | None => false
  end.

Definition read_char w : Z * World :=
  match pop_scancode (dev w) with
  | (Some sc, d) => (sc, mkWorld (kern w) d)
  | (None, d) => (ENODATA, mkWorld (kern w) d)
  end.

Definition read_char_tap w : Z * World :=
  if negb (caller_has_input_privilege (kern w)) then (EPERM, w)
  else match pop_tap_scancode (dev w) with
       | (Some sc, d) => (sc, mkWorld (kern w) d)
       | (None, d) => (ENODATA, mkWorld (kern w) d)
       end.

Definition inject_scancode (scancode : Z) w : Z * World :=
  if negb (caller_has_input_privilege (kern w)) then (EPERM, w)
  else if 255 <? scancode then (EINVAL, w)
  else (SUCCESS, push_scancode scancode w).

(** *** The calls of one round of [read_char_blocking] *)

(** [register_waiter(tid)] and [pop_scancode()] *)
Definition read_char_try (tid : Z) w : progress Z * World :=
  let d := register_waiter tid (dev w) in
  match pop_scancode d with
  | (Some sc, d') => (Returned sc, mkWorld (kern w) (unregister_waiter tid d'))
  | (None, d') => (Again, mkWorld (kern w) d')
  end.

(** [if sleep_thread_unless_woken(tid) { yield_now() }]: asleep until woken *)
Definition go_to_sleep {A} (tid : Z) w : progress A * World :=
  match Scheduler.sleep_thread_unless_woken tid (IpcSyscalls.ks (ist (kern w))) with
  | (true, k) => (Asleep, mkWorld (set_ks (Scheduler.yield_now k) (kern w)) (dev w))
  | (false, k) => (Again, mkWorld (set_ks k (kern w)) (dev w))
  end.

(** A round in which no interrupt comes. *)
Definition read_char_round (tid : Z) w : progress Z * World :=
  match read_char_try tid w with
  | (Again, w') => go_to_sleep tid w'
  | r => r
  end.

(** ** Mouse *)

Definition push_packet (packet : Z) w : World :=
  let d := dev w in
  let '(r, q) := bq_push packet (mouse_packet_buf d) in
  let drops := match r with Ok _ => mouse_packet_drops d | Err _ => wrapping_add64 (mouse_packet_drops d) 1 end in
  wake_waiter (mouse_waiter d) (mkWorld (kern w) (set_mouse_waiter 0 (set_packets q drops d))).

Definition packet_of (b0 b1 b2 : Z) : Z := Z.lor (Z.lor b0 (Z.shiftl b1 8)) (Z.shiftl b2 16).

(** One byte: a complete packet comes out with the assembler empty again. *)
Definition assemble (byte : Z) (a : PacketAssembler) : option (Z * Z * Z) * PacketAssembler :=
  if (len a =? 0) && (Z.land byte 8 =? 0) then (None, a)
  else if Z.of_nat (length (bytes a)) <=? len a then (None, mkAsm (bytes a) 0)
  else
    let bs := <[Z.to_nat (len a) := byte]> (bytes a) in
    if len a + 1 <? 3 then (None, mkAsm bs (len a + 1))
    else (Some (bs !!! 0%nat, bs !!! 1%nat, bs !!! 2%nat), mkAsm bs 0).

Definition push_byte (byte : Z) w : World :=
  let '(r, a) := assemble byte (assembler (dev w)) in
  let w1 := on_dev (set_assembler a) w in
  match r with
  | None => w1
  | Some (b0, b1, b2) => if negb (Z.land b0 192 =? 0) then w1 else push_packet (packet_of b0 b1 b2) w1
  end.

Definition packet_drop_count w : Z := mouse_packet_drops (dev w).

Definition pop_packet d : option Z * Devices :=
  let '(r, q) := bq_pop (mouse_packet_buf d) in (r, set_packets q (mouse_packet_drops d) d).

(** [compare_exchange(0, tid)] *)
Definition register_mouse_waiter (tid : Z) d : bool * Devices :=
  if mouse_waiter d =? 0 then (true, set_mouse_waiter tid d) else (false, d).
Definition unregister_mouse_waiter (tid : Z) d : Devices :=
  if mouse_waiter d =? tid then set_mouse_waiter 0 d else d.

Definition caller_has_mouse_inject_privilege : KS M -> bool := caller_has_input_privilege.

Definition read_packet w : result Z Z * World :=
  match pop_packet (dev w) with
  | (Some p, d) => (Ok p, mkWorld (kern w) d)
  | (None, d) => (Err ENODATA, mkWorld (kern w) d)
  end.

(** The calls of one round of [read_packet_blocking] up to the sleep; [false] when
    another thread is registered, and this one only gives up the processor. *)
Definition read_packet_try (tid : Z) w : bool * progress Z * World :=
  let '(registered, d) := register_mouse_waiter tid (dev w) in
  match pop_packet d with
  | (Some p, d') => (registered, Returned p, mkWorld (kern w) (if registered then unregister_mouse_waiter tid d' else d'))
  | (None, d') => (registered, Again, mkWorld (kern w) d')
  end.

Definition read_packet_round (tid : Z) w : progress Z * World :=
  match read_packet_try tid w with
  | (true, Again, w') => go_to_sleep tid w'
  | (false, Again, w') => (Again, mkWorld (on_ks Scheduler.yield_now (kern w')) (dev w'))
  | (_, r, w') => (r, w')
  end.

(** The status byte of an injected packet: a caller that gives only the buttons gets
    the synchronisation bit and the signs. *)
Definition inject_status (b0 b1 b2 : Z) : Z :=
  if Z.land b0 8 =? 0 then
    let s := Z.ldiff (Z.lor b0 8) 48 in
    let s1 := if negb (Z.land b1 128 =? 0) then Z.lor s 16 else s in
    if negb (Z.land b2 128 =? 0) then Z.lor s1 32 else s1
  else b0.

Definition inject_packet (packet : Z) w : Z * World :=
  if negb (caller_has_mouse_inject_privilege (kern w)) then (EPERM, w)
  else if 4294967295 <? packet then (EINVAL, w)
  else
    let b0 := Z.land packet 255 in
    let b1 := Z.land (Z.shiftr packet 8) 255 in
    let b2 := Z.land (Z.shiftr packet 16) 255 in
    (SUCCESS, push_packet (packet_of (inject_status b0 b1 b2) b1 b2) w).

(** ** The queues behind the devices *)

Lemma bq_push_view {Q A} `{!BoundedQueue Q A} (a : A) (q : Q) :
  bq_inv q -> bq_view (bq_push a q).2 = take bq_capacity (bq_view q ++ [a]).
Proof.
  intros Hi. pose proof (bq_bounded q Hi) as Hb. destruct (decide (length (bq_view q) < bq_capacity)%nat) as [Hl|Hl].
  - rewrite (proj2 (bq_push_room a q Hi Hl)), take_ge; [done|]. rewrite length_app. cbn. lia.
  - rewrite bq_push_full by (done || lia). cbn. by rewrite take_app_le, take_ge by lia.
Qed.

Definition keys w : list Z := bq_view (scancode_buf (dev w)).
Definition packets w : list Z := bq_view (mouse_packet_buf (dev w)).

Definition dev_ok d : Prop :=
  bq_inv (scancode_buf d) /\ bq_inv (scancode_tap_buf d) /\ bq_inv (mouse_packet_buf d).

Lemma dev_ok_wake v w : dev (wake_waiter v w) = dev w.
Proof. unfold wake_waiter. by destruct (v =? 0). Qed.

Lemma push_scancode_dev sc w :
  dev_ok (dev w) ->
  dev_ok (dev (push_scancode sc w)) /\ keys (push_scancode sc w) = take (bq_capacity (Q := Qk)) (keys w ++ [sc]) /\
  keyboard_waiter (dev (push_scancode sc w)) = 0.
Proof.
  intros (H1 & H2 & H3). unfold push_scancode, keys. rewrite dev_ok_wake. cbn. split; [|split; [by apply bq_push_view|done]].
  split; [by apply bq_push_inv|]. split; [by apply bq_push_inv|done].
Qed.

(** ** Threads that wait for a key *)

Definition threads_wf w : Prop := Thread.queue_wf (threads_of (kern w)).
Definition thread w (tid : Z) : option Thread.Thread := Thread.get tid (threads_of (kern w)).

Lemma wake_waiter_spec tid t w :
  threads_wf w -> thread w tid = Some t -> tid <> 0 ->
  threads_wf (wake_waiter tid w) /\ thread (wake_waiter tid w) tid = Some (Scheduler.wake t).
Proof.
  intros Hw Ht Hz. unfold wake_waiter. rewrite (proj2 (Z.eqb_neq tid 0)) by done. unfold threads_wf, thread, threads_of in *. cbn.
  destruct (Scheduler.get_after_update tid (fun t => (tt, Scheduler.wake t)) _ Hw Scheduler.wake_id) as (Hw' & Hg & _).
  split; [done|]. cbn in Hg. unfold Scheduler.wake_thread, Scheduler.update. cbn. by rewrite Hg, Ht.
Qed.

Lemma go_to_sleep_spec {A} tid t w :
  threads_wf w -> thread w tid = Some t -> Thread.pending_wakeup t = false ->
  exists w', go_to_sleep (A := A) tid w = (Asleep, w') /\ dev w' = dev w /\ threads_wf w' /\
    thread w' tid = Some (Thread.set_state Thread.Sleeping t).
Proof.
  intros Hw Ht Hp. unfold go_to_sleep, Scheduler.sleep_thread_unless_woken.
  assert (forall u, Thread.id (Scheduler.sleep_unless_woken u).2 = Thread.id u) as Hid
    by (intros u; unfold Scheduler.sleep_unless_woken; cbn; by destruct (Thread.pending_wakeup u)).
  destruct (Scheduler.get_after_update tid Scheduler.sleep_unless_woken _ Hw Hid) as (Hw' & Hg & Hr).
  unfold thread, threads_of in *. rewrite Ht in Hg, Hr. destruct (Thread.with_thread_mut tid _ _) as [r q]. cbn in Hw', Hg, Hr. subst r.
  unfold Scheduler.sleep_unless_woken in *. cbn in *. rewrite Hp in Hg |- *. cbn in Hg |- *.
  eexists. split; [reflexivity|]. split; [done|].
  destruct (Scheduler.yield_keeps (Scheduler.set_queue q (IpcSyscalls.ks (ist (kern w)))) tid _ (conj Hw' Hg)) as [H1 H2]; [done|done|]. cbn in H1, H2.
  split; [exact H1|]. cbn. rewrite H2. f_equal. destruct t. cbn in *. by subst.
Qed.

Lemma read_char_try_empty tid w :
  dev_ok (dev w) -> keys w = [] ->
  exists w', read_char_try tid w = (Again, w') /\ kern w' = kern w /\ dev_ok (dev w') /\ keys w' = [] /\ keyboard_waiter (dev w') = tid.
Proof.
  intros (H1 & H2 & H3) Hk. unfold read_char_try, pop_scancode. cbn. destruct (bq_pop_view _ H1) as [Hp Hv].
  pose proof (bq_pop_inv _ H1) as Hi. unfold keys in *. rewrite Hk in Hp, Hv. destruct (bq_pop (scancode_buf (dev w))) as [r q]. cbn in *. subst r.
  eexists. split; [reflexivity|]. done.
Qed.

Lemma read_char_try_first tid w sc rest :
  dev_ok (dev w) -> keys w = sc :: rest ->
  exists w', read_char_try tid w = (Returned sc, w') /\ kern w' = kern w /\ dev_ok (dev w') /\ keys w' = rest /\ keyboard_waiter (dev w') = 0.
Proof.
  intros (H1 & H2 & H3) Hk. unfold read_char_try, pop_scancode. cbn. destruct (bq_pop_view _ H1) as [Hp Hv].
  pose proof (bq_pop_inv _ H1) as Hi. unfold keys in *. rewrite Hk in Hp, Hv. destruct (bq_pop (scancode_buf (dev w))) as [r q]. cbn in *. subst r.
  eexists. split; [reflexivity|]. unfold unregister_waiter. cbn. by rewrite Z.eqb_refl.
Qed.

(** A reader that went to sleep in a round without interrupts is woken by the next
    key and then gets it: after the round the thread sleeps and is the one
    registered; the interrupt of a key makes it ready; its next round returns that
    key and leaves the queue empty. *)
Theorem keyboard_wakeup_delivered tid t w sc :
  dev_ok (dev w) -> threads_wf w -> thread w tid = Some t -> tid <> 0 -> Thread.pending_wakeup t = false ->
  keys w = [] -> (0 < bq_capacity (Q := Qk))%nat ->
  exists w1 w3, read_char_round tid w = (Asleep, w1) /\ thread w1 tid = Some (Thread.set_state Thread.Sleeping t) /\
    keyboard_waiter (dev w1) = tid /\
    thread (push_scancode sc w1) tid = Some (Thread.set_state Thread.Ready t) /\
    read_char_round tid (push_scancode sc w1) = (Returned sc, w3) /\ keys w3 = [].
Proof.
  intros Hd Hw Ht Hz Hp Hk Hc. destruct (read_char_try_empty tid w Hd Hk) as (w0 & E0 & Ek & Hd0 & Hk0 & Hr0).
  destruct (go_to_sleep_spec (A := Z) tid t w0) as (w1 & E1 & Ed & Hw1 & Ht1); [unfold threads_wf; by rewrite Ek|unfold thread; by rewrite Ek|done|].
  assert (dev_ok (dev w1) /\ keys w1 = [] /\ keyboard_waiter (dev w1) = tid) as (Hd1 & Hk1 & Hr1) by (unfold keys; by rewrite Ed).
  destruct (push_scancode_dev sc w1 Hd1) as (Hd2 & Hk2 & _). rewrite Hk1, app_nil_l, take_ge in Hk2 by (cbn; lia).
  destruct (read_char_try_first tid (push_scancode sc w1) sc [] Hd2 Hk2) as (w3 & E3 & _ & _ & Hk3 & _).
  exists w1, w3. unfold read_char_round. rewrite E0, E3. split; [done|]. split; [done|]. split; [done|]. split; [|done].
  unfold push_scancode. rewrite Hr1. destruct (wake_waiter_spec tid (Thread.set_state Thread.Sleeping t)
    (mkWorld (kern w1) (set_keyboard_waiter 0 (enqueue_scancode sc (dev w1)))))
    as [_ H]; [done|done|done|]. rewrite H. by destruct t.
Qed.

Lemma push_scancode_unwaited sc w : keyboard_waiter (dev w) = 0 -> kern (push_scancode sc w) = kern w.
Proof. intros H. unfold push_scancode. by rewrite H. Qed.

Lemma foldl_push_unwaited scs w :
  keyboard_waiter (dev w) = 0 -> kern (foldl (fun w sc => push_scancode sc w) w scs) = kern w.
Proof.
  revert w. induction scs as [|sc scs IH]; intros w H; [done|]. cbn. rewrite IH by (unfold push_scancode; by rewrite dev_ok_wake). by apply push_scancode_unwaited.
Qed.

(** A key that arrives between the empty pop and the sleep is lost on the reader:
    the interrupt takes the registration and finds the thread running, which it does
    not mark, so the thread goes to sleep with the key in the queue, and no later
    key wakes it. *)
Theorem keyboard_wakeup_lost tid t w sc :
  dev_ok (dev w) -> threads_wf w -> thread w tid = Some t -> tid <> 0 ->
  Thread.state t = Thread.Running -> Thread.pending_wakeup t = false -> keys w = [] -> (0 < bq_capacity (Q := Qk))%nat ->
  exists w1 w2, read_char_try tid w = (Again, w1) /\ go_to_sleep (A := Z) tid (push_scancode sc w1) = (Asleep, w2) /\ keys w2 = [sc] /\
    forall scs, thread (foldl (fun w sc => push_scancode sc w) w2 scs) tid = Some (Thread.set_state Thread.Sleeping t).
Proof.
  intros Hd Hw Ht Hz Hs Hp Hk Hc. destruct (read_char_try_empty tid w Hd Hk) as (w1 & E1 & Ek & Hd1 & Hk1 & Hr1).
  destruct (push_scancode_dev sc w1 Hd1) as (Hd2 & Hk2 & Hr2). rewrite Hk1, app_nil_l, take_ge in Hk2 by (cbn; lia).
  assert (threads_wf (push_scancode sc w1) /\ thread (push_scancode sc w1) tid = Some t) as [Hw2 Ht2].
  { unfold push_scancode. rewrite Hr1. destruct (wake_waiter_spec tid t
      (mkWorld (kern w1) (set_keyboard_waiter 0 (enqueue_scancode sc (dev w1)))))
      as [H1 H2]; [unfold threads_wf; cbn; by rewrite Ek|unfold thread; cbn; by rewrite Ek|done|].
    split; [done|]. rewrite H2. unfold Scheduler.wake. by rewrite Hs. }
  destruct (go_to_sleep_spec (A := Z) tid t _ Hw2 Ht2 Hp) as (w2 & E2 & Ed & Hw3 & Ht3).
  exists w1, w2. split; [done|]. split; [done|]. split; [unfold keys; by rewrite Ed|]. intros scs. unfold thread.
  rewrite foldl_push_unwaited by (by rewrite Ed). done.
Qed.

(** ** Mouse packets *)

Definition mouse_ok w : Prop :=
  bq_inv (mouse_packet_buf (dev w)) /\ is_u64 (mouse_packet_drops (dev w)) /\ length (bytes (assembler (dev w))) = 3%nat /\
  len (assembler (dev w)) = 0.

(** What queueing a list of packets does: those that fit are kept in order, the rest
    are counted. *)
Definition queued w w' (ps : list Z) : Prop :=
  packets w' = take (bq_capacity (Q := Qm)) (packets w ++ ps) /\
  mouse_packet_drops (dev w') = wrap64 (mouse_packet_drops (dev w) + Z.of_nat (length (packets w ++ ps) - bq_capacity (Q := Qm))).

Lemma queued_nil w w' :
  mouse_ok w -> mouse_packet_buf (dev w') = mouse_packet_buf (dev w) -> mouse_packet_drops (dev w') = mouse_packet_drops (dev w) -> queued w w' [].
Proof.
  intros (Hi & Hd & _) E1 E2. unfold queued, packets. rewrite E1, E2, app_nil_r. pose proof (bq_bounded _ Hi) as Hb.
  rewrite take_ge by done. split; [done|]. replace (_ - _)%nat with 0%nat by lia. rewrite Z.add_0_r. unfold wrap64. by rewrite Z.mod_small.
Qed.

Lemma queued_trans w1 w2 w3 ps qs : bq_inv (mouse_packet_buf (dev w1)) -> queued w1 w2 ps -> queued w2 w3 qs -> queued w1 w3 (ps ++ qs).
Proof.
  intros Hi [E1 E2] [E3 E4]. pose proof (bq_bounded _ Hi) as Hb. unfold queued. rewrite E3, E4, E1, E2. rewrite app_assoc.
  set (l := packets w1 ++ ps). split.
  - destruct (decide (length l <= bq_capacity (Q := Qm))%nat) as [Hl|Hl]; [by rewrite (take_ge l)|].
    rewrite !take_app_le by (rewrite ?length_take; lia). by rewrite take_take, Nat.min_id.
  - unfold wrap64. rewrite Zplus_mod_idemp_l. f_equal. rewrite !length_app, length_take. lia.
Qed.

Lemma push_packet_spec p w : mouse_ok w -> mouse_ok (push_packet p w) /\ queued w (push_packet p w) [p].
Proof.
  intros (Hi & Hd & Ha & Hl). unfold mouse_ok, queued, packets, push_packet.
  pose proof (bq_push_view p _ Hi) as Hv. pose proof (bq_push_inv p _ Hi) as Hi'. pose proof (bq_bounded _ Hi) as Hb.
  assert ((bq_push p (mouse_packet_buf (dev w))).1 = (if decide (length (bq_view (mouse_packet_buf (dev w))) < bq_capacity (Q := Qm))%nat then Ok tt else Err p)) as Hr.
  { destruct (decide _) as [H|H]; [by apply bq_push_room|]. by rewrite bq_push_full by (done || lia). }
  destruct (bq_push p (mouse_packet_buf (dev w))) as [r q]. cbn in Hv, Hi', Hr |- *. rewrite dev_ok_wake. cbn. subst r.
  rewrite length_app. cbn. destruct (decide _) as [H|H].
  - split; [done|]. split; [done|]. replace (_ - _)%nat with 0%nat by lia. rewrite Z.add_0_r. unfold wrap64. by rewrite Z.mod_small.
  - split; [split; [done|]; split; [apply Z.mod_pos_bound; done|done]|]. split; [done|]. replace (_ - _)%nat with 1%nat by lia. done.
Qed.

(** A packet on the wire, with the bytes that come before it out of step. *)
Record wire := mkWire { noise : list Z; status : Z; dx : Z; dy : Z }.
Definition wire_bytes (p : wire) : list Z := noise p ++ [status p; dx p; dy p].
Definition wire_ok (p : wire) : Prop :=
  Forall (fun b => is_byte b /\ Z.land b 8 = 0) (noise p) /\ is_byte (status p) /\ is_byte (dx p) /\ is_byte (dy p) /\ Z.land (status p) 8 <> 0.
Definition overflowed (p : wire) : bool := negb (Z.land (status p) 192 =? 0).
Definition wire_packet (p : wire) : Z := status p + 256 * dx p + 65536 * dy p.

Definition receive (bs : list Z) w : World := foldl (fun w b => push_byte b w) w bs.

Lemma receive_app bs cs w : receive (bs ++ cs) w = receive cs (receive bs w).
Proof. unfold receive. by rewrite foldl_app. Qed.

Lemma lor_shiftl_add a b k : 0 <= k -> 0 <= a < 2 ^ k -> 0 <= b -> Z.lor a (Z.shiftl b k) = a + b * 2 ^ k.
Proof.
  intros Hk Ha Hb. rewrite Z.shiftl_mul_pow2 by done. pose proof (Z.add_lor_land a (b * 2 ^ k)) as H.
  assert (Z.land a (b * 2 ^ k) = 0) as E; [|lia]. apply Z.bits_inj'. intros n Hn. rewrite Z.land_spec, Z.bits_0.
  destruct (Z.ltb_spec n k); [by rewrite Z.mul_pow2_bits_low, andb_false_r by lia|].
  rewrite <-(Z.mod_small a (2 ^ k)), Z.mod_pow2_bits_high by lia. done.
Qed.

Lemma packet_of_sum a b c : is_byte a -> is_byte b -> is_byte c -> packet_of a b c = a + 256 * b + 65536 * c.
Proof. intros [] [] []. unfold packet_of. rewrite (lor_shiftl_add a b 8), lor_shiftl_add by lia. lia. Qed.

Lemma noise_ignored bs w :
  Forall (fun b => is_byte b /\ Z.land b 8 = 0) bs -> mouse_ok w -> mouse_ok (receive bs w) /\ queued w (receive bs w) [].
Proof.
  intros Hn. revert w. induction Hn as [|b bs [_ Hb] _ IH]; intros w Hok; [split; [done|by apply queued_nil]|]. cbn.
  destruct w as [k d], d as [b1 t1 kw q mw dr [ab al]]. pose proof Hok as (_ & _ & _ & Hl). cbn in Hl. subst al.
  assert (push_byte b (mkWorld k (mkDevices b1 t1 kw q mw dr (mkAsm ab 0))) = mkWorld k (mkDevices b1 t1 kw q mw dr (mkAsm ab 0))) as ->
    by (unfold push_byte, assemble; cbn; by rewrite Hb). by apply IH.
Qed.

Lemma assemble_three ab b0 b1 b2 :
  length ab = 3%nat -> Z.land b0 8 <> 0 ->
  let a1 := (assemble b0 (mkAsm ab 0)).2 in
  let a2 := (assemble b1 a1).2 in
  (assemble b0 (mkAsm ab 0)).1 = None /\ (assemble b1 a1).1 = None /\ assemble b2 a2 = (Some (b0, b1, b2), mkAsm [b0; b1; b2] 0).
Proof.
  intros Hl Hb. destruct ab as [|x0 [|x1 [|x2 [|]]]]; try discriminate. unfold assemble. cbn. by rewrite (proj2 (Z.eqb_neq _ _) Hb).
Qed.

Lemma packet_received b0 b1 b2 w :
  is_byte b0 -> is_byte b1 -> is_byte b2 -> Z.land b0 8 <> 0 -> mouse_ok w ->
  mouse_ok (receive [b0; b1; b2] w) /\
  queued w (receive [b0; b1; b2] w) (if negb (Z.land b0 192 =? 0) then [] else [b0 + 256 * b1 + 65536 * b2]).
Proof.
  intros H0 H1 H2 Hb Hok. destruct w as [k [kb t1 kw q mw dr [ab al]]]. pose proof Hok as (Hi & Hd & Hab & Hl). cbn in Hl, Hab. subst al.
  destruct (assemble_three ab b0 b1 b2 Hab Hb) as (E1 & E2 & E3).
  set (w3 := mkWorld k (mkDevices kb t1 kw q mw dr (mkAsm [b0; b1; b2] 0))).
  assert (receive [b0; b1; b2] (mkWorld k (mkDevices kb t1 kw q mw dr (mkAsm ab 0))) =
    if negb (Z.land b0 192 =? 0) then w3 else push_packet (packet_of b0 b1 b2) w3) as ->.
  { cbn [receive foldl]. unfold push_byte at 3. cbn [dev assembler].
    destruct (assemble b0 (mkAsm ab 0)) as [r1 a1]. cbn in E1, E2, E3. subst r1. unfold push_byte at 2. cbn.
    destruct (assemble b1 a1) as [r2 a2]. cbn in E2, E3. subst r2. unfold push_byte. cbn. by rewrite E3. }
  assert (mouse_ok w3) as Hok3 by done. destruct (negb _).
  - split; [done|]. apply queued_nil; [exact Hok|reflexivity|reflexivity].
  - rewrite packet_of_sum by done. by destruct (push_packet_spec (b0 + 256 * b1 + 65536 * b2) w3 Hok3).
Qed.

(** The mouse driver finds its packets: whatever bytes without the synchronisation
    bit come between them, exactly the packets without an overflow bit are queued, in
    order and with their three bytes, as long as there is room; the others are
    counted as dropped. *)
Theorem mouse_packets_exact ps w :
  Forall wire_ok ps -> mouse_ok w ->
  mouse_ok (receive (mjoin (wire_bytes <$> ps)) w) /\
  queued w (receive (mjoin (wire_bytes <$> ps)) w) (wire_packet <$> List.filter (fun p => negb (overflowed p)) ps).
Proof.
  intros Hp. revert w. induction Hp as [|p ps (Hn & H0 & H1 & H2 & Hb) _ IH]; intros w Hok; [split; [done|by apply queued_nil]|].
  cbn [fmap list_fmap mjoin list_join List.filter]. unfold wire_bytes at 1 3. rewrite !receive_app.
  destruct (noise_ignored (noise p) w Hn Hok) as [Hok1 Hq1].
  destruct (packet_received _ _ _ _ H0 H1 H2 Hb Hok1) as [Hok2 Hq2]. destruct (IH _ Hok2) as [Hok3 Hq3]. split; [done|].
  pose proof (queued_trans _ _ _ _ _ (proj1 Hok1) Hq2 Hq3) as Hq. pose proof (queued_trans _ _ _ _ _ (proj1 Hok) Hq1 Hq) as Hq'.
  unfold overflowed. by destruct (negb (Z.land (status p) 192 =? 0)).
Qed.
End input.

(** ** Two threads and the kernel's own queues *)

#[local] Instance key_queue : BoundedQueue (Fifo.FifoInner Z) Z := Fifo.fifo_bounded_queue 256.

Definition demo : World (M := Z -> Z) (Qk := Fifo.FifoInner Z) (Qm := Fifo.FifoInner Z) :=
  mkWorld (mkKS (mkI Scheduler.demo_threads (replicate Thread.MAX_THREADS Ipc.new) (fun _ => 0)) Process.Table_new Futex.empty KStack.boot)
    (mkDevices (Fifo.new 256) (Fifo.new 256) 0 (Fifo.new 256) 0 0 (mkAsm [0; 0; 0] 0)).

Lemma demo_dev_ok : dev_ok (dev demo).
Proof. split; [|split]; apply Fifo.new_inv. Qed.

Lemma demo_threads_wf : threads_wf demo.
Proof. exact (proj1 (Scheduler.sched_reachable_inv _ Scheduler.demo_reachable)). Qed.

Lemma keyboard_wakeup_delivered_witness :
  exists w1 w3, read_char_round 1 demo = (Asleep, w1) /\ read_char_round 1 (push_scancode 30 w1) = (Returned 30, w3).
Proof.
  assert (exists t, thread demo 1 = Some t /\ Thread.pending_wakeup t = false) as (t & Ht & Hp)
    by (eexists; split; [vm_compute; reflexivity|reflexivity]).
  destruct (keyboard_wakeup_delivered 1 t demo 30 demo_dev_ok demo_threads_wf Ht) as (w1 & w3 & E1 & _ & _ & _ & E3 & _).
  - discriminate.
  - exact Hp.
  - reflexivity.
  - cbn. lia.
  - exists w1, w3. split; [exact E1|exact E3].
Defined.

Lemma keyboard_wakeup_lost_witness :
  exists w1 w2, read_char_try 1 demo = (Again, w1) /\ go_to_sleep (A := Z) 1 (push_scancode 30 w1) = (Asleep, w2) /\ keys w2 = [30].
Proof.
  assert (exists t, thread demo 1 = Some t /\ Thread.state t = Thread.Running /\ Thread.pending_wakeup t = false) as (t & Ht & Hs & Hp)
    by (eexists; split; [vm_compute; reflexivity|split; reflexivity]).
  destruct (keyboard_wakeup_lost 1 t demo 30 demo_dev_ok demo_threads_wf Ht) as (w1 & w2 & E1 & E2 & Hk & _).
  - discriminate.
  - exact Hs.
  - exact Hp.
  - reflexivity.
  - cbn. lia.
  - exists w1, w2. split; [exact E1|]. split; [exact E2|exact Hk].
Defined.

Lemma mouse_packets_exact_witness :
  packets (receive (mjoin (wire_bytes <$> [mkWire [1] 8 5 7; mkWire [] 72 1 1; mkWire [0; 2] 9 0 255])) demo) =
  [8 + 256 * 5 + 65536 * 7; 9 + 65536 * 255].
Proof.
  destruct (mouse_packets_exact [mkWire [1] 8 5 7; mkWire [] 72 1 1; mkWire [0; 2] 9 0 255] demo) as [_ [H _]].
  - unfold wire_ok, is_byte. cbn. repeat first [apply List.Forall_nil | apply List.Forall_cons | split]; first [lia | discriminate | reflexivity].
  - split; [apply Fifo.new_inv|]. split; [split; [reflexivity|reflexivity]|]. split; reflexivity.
  - exact H.
Defined.
End Input.
