(* ===== verification/Tty.v ===== *)
(** The console: [src/core/syscall/tty.rs].

    The console follows the cursor through what programs print, answers the escape
    sequences that ask for it, turns scan codes into bytes, and hands them to readers.
    Its queues are those of [Queue]; the scan codes come from [Input].  A blocking
    read takes the scan codes that arrive while it waits as an argument; when they
    end without a byte the reader is still waiting, and the result is [None].
    [None] as the outcome of [process_output] is an overflow of a 16-bit sum. *)

From Stdlib Require Import ZArith Lia.
From stdpp Require Import base list option numbers.
From S2P Require Import Prelude State Types UserMem Queue Fifo Term Input.

Local Open Scope Z_scope.

Module Tty.

Definition TERMIOS_SIZE : Z := 36.
Definition TERMIO_SIZE : Z := 18.
Definition WIN_SIZE : Z := 8.
Definition IFLAG_ICRNL : Z := 256.
Definition LFLAG_ISIG : Z := 1.
Definition LFLAG_ICANON : Z := 2.
Definition LFLAG_ECHO : Z := 8.
Definition CC_VTIME : nat := 5.
Definition CC_VMIN : nat := 6.
Definition SC_LSHIFT : Z := 42.
Definition SC_RSHIFT : Z := 54.
Definition SC_CAPSLOCK : Z := 58.
Definition SC_BACKSPACE : Z := 14.
Definition SC_ENTER : Z := 28.
Definition SC_TAB : Z := 15.
Definition SC_ESC : Z := 1.
Definition SC_RELEASE : Z := 128.
Definition SC_E0 : Z := 224.
Definition OUT_CSI_MAX_SEQ : Z := 32.

Definition MAP_NORMAL : list Z := [
   0; 27; 49; 50; 51; 52; 53; 54; 55; 56; 57; 48; 45; 61; 8; 9;
   113; 119; 101; 114; 116; 121; 117; 105; 111; 112; 91; 93; 10; 0; 97; 115;
   100; 102; 103; 104; 106; 107; 108; 59; 58; 96; 0; 92; 122; 120; 99; 118;
   98; 110; 109; 44; 46; 47; 0; 42; 0; 32; 0; 0; 0; 0; 0; 0;
   0; 0; 0; 0; 0; 0; 0; 55; 56; 57; 45; 52; 53; 54; 43; 49;
   50; 51; 48; 46; 0; 0; 0; 0; 0; 0; 0; 0; 0; 0; 0; 0;
   0; 0; 0; 0; 0; 0; 0; 0; 0; 0; 0; 0; 0; 0; 0; 0;
   0; 0; 0; 0; 0; 0; 0; 0; 0; 0; 0; 0; 0; 0; 0; 0].

Definition MAP_SHIFT : list Z := [
   0; 27; 33; 64; 35; 36; 37; 94; 38; 42; 40; 41; 95; 43; 8; 9;
   81; 87; 69; 82; 84; 89; 85; 73; 79; 80; 123; 125; 10; 0; 65; 83;
   68; 70; 71; 72; 74; 75; 76; 58; 42; 126; 0; 124; 90; 88; 67; 86;
   66; 78; 77; 60; 62; 63; 0; 42; 0; 32; 0; 0; 0; 0; 0; 0;
   0; 0; 0; 0; 0; 0; 0; 55; 56; 57; 45; 52; 53; 54; 43; 49;
   50; 51; 48; 46; 0; 0; 0; 0; 0; 0; 0; 0; 0; 0; 0; 0;
   0; 0; 0; 0; 0; 0; 0; 0; 0; 0; 0; 0; 0; 0; 0; 0;
   0; 0; 0; 0; 0; 0; 0; 0; 0; 0; 0; 0; 0; 0; 0; 0].

Definition ESC : Z := 27.

(** ** State *)

Record Termios := mkTermios { iflag : Z; oflag : Z; cflag : Z; lflag : Z; line : Z; cc : list Z }.
Record Winsize := mkWinsize { ws_row : Z; ws_col : Z; ws_xpixel : Z; ws_ypixel : Z }.
Record Keys := mkKeys { shift : bool; caps : bool; e0_prefix : bool }.
Record Output := mkOutput {
  out_esc_pending : bool;
  out_csi_mode : bool;
  out_csi_seq : list Z;
  out_csi_len : Z;
  cursor_row : Z;
  cursor_col : Z;
}.

Record TtyState := mkTty { termios : Termios; winsize : Winsize; keys : Keys; out : Output }.

Definition new : TtyState :=
  mkTty (mkTermios 0 0 (Z.lor (Z.lor 48 128) 2048) LFLAG_ISIG 0 (<[CC_VTIME := 0]> (<[CC_VMIN := 1]> (replicate 19 0))))
    (mkWinsize 24 80 0 0) (mkKeys false false false)
    (mkOutput false false (replicate (Z.to_nat OUT_CSI_MAX_SEQ) 0) 0 1 1).

Definition set_termios (t : Termios) (s : TtyState) : TtyState := mkTty t (winsize s) (keys s) (out s).
Definition set_out (o : Output) (s : TtyState) : TtyState := mkTty (termios s) (winsize s) (keys s) o.
Definition set_keys (k : Keys) (s : TtyState) : TtyState := mkTty (termios s) (winsize s) k (out s).

(** ** Output *)

(** Decimal digits, most significant first. *)
Definition push_ascii_u16 (n : Z) : list Z := if n =? 0 then [48] else rev (Term.digits 5 n).

Definition parse_ascii_u16 : list Z -> option Z := Term.parse_ascii_u16.

Definition rows_of (w : Winsize) : Z := Z.max (ws_row w) 1.
Definition cols_of (w : Winsize) : Z := Z.max (ws_col w) 1.

Definition at_cursor (r c : Z) (o : Output) : Output :=
  mkOutput (out_esc_pending o) (out_csi_mode o) (out_csi_seq o) (out_csi_len o) r c.
Definition at_row (r : Z) (o : Output) : Output := at_cursor r (cursor_col o) o.
Definition at_col (c : Z) (o : Output) : Output := at_cursor (cursor_row o) c o.

Definition clamp (v hi : Z) : Z := if v =? 0 then 1 else if hi <? v then hi else v.
Definition clamp_cursor (w : Winsize) (o : Output) : Output :=
  at_cursor (clamp (cursor_row o) (rows_of w)) (clamp (cursor_col o) (cols_of w)) o.

(** The loop of [csi_params] over the bytes from [i] on: [part] holds those since
    [part_start], [room] is how many parameters still fit. *)
Fixpoint csi_split (room : nat) (bs part : list Z) : list Z :=
  let emit := match part with [] => [0] | _ => match parse_ascii_u16 part with Some v => [v] | None => [] end end in
  match room with
  | O => []
  | S less =>
      match bs with
      | [] => emit
      | b :: bs =>
          if b =? 59 then emit ++ csi_split (match emit with [] => room | _ => less end) bs []
          else csi_split room bs (part ++ [b])
      end
  end.

Definition csi_params (seq : list Z) : option Z * list Z :=
  match seq with
  | b :: rest => if (b =? 63) || (b =? 62) || (b =? 33) then (Some b, csi_split 8 rest []) else (None, csi_split 8 seq [])
  | [] => (None, csi_split 8 [] [])
  end.

Definition csi_param_or (params : list Z) (i : nat) (dflt : Z) : Z :=
  let v := default dflt (params !! i) in if v =? 0 then dflt else v.

(** The mode of [CSI ? Pm $ p] *)
Definition parse_decrqm_mode (seq : list Z) : option Z :=
  if (length seq <? 3)%nat || negb (seq !!! 0%nat =? 63) || negb (seq !!! (length seq - 1)%nat =? 36) then None
  else parse_ascii_u16 (take (length seq - 2) (drop 1 seq)).

Definition sat_sub16 (a b : Z) : Z := Z.max 0 (a - b).

Definition csi (bs : list Z) : list Z := ESC :: 91 :: bs.

(** The cursor after the sequence, and the bytes of the answer. *)
Definition handle_output_csi (w : Winsize) (final : Z) (o : Output) : Output * list Z :=
  let rows := rows_of w in
  let cols := cols_of w in
  let seq := take (Z.to_nat (out_csi_len o)) (out_csi_seq o) in
  let '(private, params) := csi_params seq in
  let p := csi_param_or params in
  let up v n := let r := sat_sub16 v n in if r =? 0 then 1 else r in
  let question := bool_decide (private = Some 63) in
  if final =? 65 then (at_row (up (cursor_row o) (p 0%nat 1)) o, [])
  else if final =? 66 then (at_row (Z.min (Term.sat_add16 (cursor_row o) (p 0%nat 1)) rows) o, [])
  else if final =? 67 then (at_col (Z.min (Term.sat_add16 (cursor_col o) (p 0%nat 1)) cols) o, [])
  else if final =? 68 then (at_col (up (cursor_col o) (p 0%nat 1)) o, [])
  else if (final =? 72) || (final =? 102) then (clamp_cursor w (at_cursor (p 0%nat 1) (p 1%nat 1) o), [])
  else if final =? 71 then (clamp_cursor w (at_col (p 0%nat 1) o), [])
  else if final =? 100 then (clamp_cursor w (at_row (p 0%nat 1) o), [])
  else if final =? 74 then ((if default 0 (params !! 0%nat) =? 2 then at_cursor 1 1 o else o), [])
  else if final =? 110 then
    let p0 := p 0%nat 0 in
    (o, if p0 =? 5 then csi (if question then [63; 48; 110] else [48; 110])
        else if p0 =? 6 then
          csi ((if question then [63] else []) ++ push_ascii_u16 (Z.max (cursor_row o) 1) ++ [59] ++
               push_ascii_u16 (Z.max (cursor_col o) 1) ++ [82])
        else [])
  else if final =? 99 then
    (o, csi (if bool_decide (private = Some 62) then [62; 48; 59; 49; 51; 54; 59; 48; 99] else [63; 49; 59; 50; 99]))
  else if final =? 112 then
    (o, if question then
          match parse_decrqm_mode seq with
          | Some mode => csi ([63] ++ push_ascii_u16 mode ++ [59; 48; 36; 121])
          | None => []
          end
        else [])
  else (o, []).

Definition set_pending (b : bool) (o : Output) : Output :=
  mkOutput b (out_csi_mode o) (out_csi_seq o) (out_csi_len o) (cursor_row o) (cursor_col o).
Definition set_csi (b : bool) (o : Output) : Output :=
  mkOutput (out_esc_pending o) b (out_csi_seq o) 0 (cursor_row o) (cursor_col o).
Definition push_csi (b : Z) (o : Output) : Output :=
  mkOutput (out_esc_pending o) (out_csi_mode o) (<[Z.to_nat (out_csi_len o) := b]> (out_csi_seq o)) (out_csi_len o + 1)
    (cursor_row o) (cursor_col o).

Definition between (a v b : Z) : bool := (a <=? v) && (v <=? b).

(** [state.cursor_row += 1] below the last row *)
Definition down (rows : Z) (o : Output) : Output := if cursor_row o <? rows then at_row (cursor_row o + 1) o else o.

(** [((cur0 / 8) + 1) * 8 + 1] in 16 bits *)
Definition tab (cols : Z) (o : Output) : option Output :=
  let next := (sat_sub16 (cursor_col o) 1 / 8 + 1) * 8 + 1 in
  if next <? 65536 then Some (at_col (Z.min next cols) o) else None.

(** One byte outside an escape sequence. *)
Definition plain_byte (w : Winsize) (b : Z) (o : Output) : option Output :=
  let rows := rows_of w in
  let cols := cols_of w in
  if b =? ESC then Some (set_pending true o)
  else if b =? 13 then Some (at_col 1 o)
  else if b =? 10 then Some (down rows o)
  else if b =? 8 then Some (if 1 <? cursor_col o then at_col (cursor_col o - 1) o else o)
  else if b =? 9 then tab cols o
  else if between 32 b 126 then
    Some (if cols <=? cursor_col o then down rows (at_col 1 o) else at_col (cursor_col o + 1) o)
  else Some o.

Definition output_byte (w : Winsize) (b : Z) (o : Output) : option (Output * list Z) :=
  if out_csi_mode o then
    if between 32 b 63 then
      Some (if out_csi_len o <? Z.of_nat (length (out_csi_seq o)) then push_csi b o else set_csi false o, [])
    else if between 64 b 126 then
      let '(o', r) := handle_output_csi w b o in Some (set_csi false o', r)
    else Some (set_csi false o, [])
  else if out_esc_pending o then
    let o := set_pending false o in Some (if b =? 91 then set_csi true o else o, [])
  else (fun o' => (o', [])) <$> plain_byte w b o.

Fixpoint output_bytes (w : Winsize) (bs : list Z) (o : Output) : option (Output * list Z) :=
  match bs with
  | [] => Some (o, [])
  | b :: bs =>
      '(o1, r1) ← output_byte w b o;
      '(o2, r2) ← output_bytes w bs o1;
      Some (o2, r1 ++ r2)
  end.

(** ** Keys *)

Definition is_ascii_alphabetic (b : Z) : bool := between 65 b 90 || between 97 b 122.

(** Keys with the [E0] prefix *)
Definition e0_key (sc : Z) : list Z :=
  if sc =? 72 then csi [65]
  else if sc =? 80 then csi [66]
  else if sc =? 77 then csi [67]
  else if sc =? 75 then csi [68]
  else if sc =? 71 then csi [72]
  else if sc =? 79 then csi [70]
  else if sc =? 73 then csi [53; 126]
  else if sc =? 81 then csi [54; 126]
  else if sc =? 82 then csi [50; 126]
  else if sc =? 83 then csi [51; 126]
  else [].

Definition released (sc : Z) : bool := negb (Z.land sc SC_RELEASE =? 0).
Definition is_shift (sc : Z) : bool := (sc =? SC_LSHIFT) || (sc =? SC_RSHIFT).

Definition plain_key (sc : Z) (k : Keys) : list Z :=
  match MAP_NORMAL !! Z.to_nat sc, MAP_SHIFT !! Z.to_nat sc with
  | Some normal, Some shifted =>
      if normal =? 0 then []
      else
        let ch := if xorb (shift k) (caps k && is_ascii_alphabetic normal) then shifted else normal in
        if ch =? 0 then [] else [ch]
  | _, _ => []
  end.

(** [decode_scancode_into_queue]: the keys held, and the bytes for the queue. *)
Definition decode_scancode (sc : Z) (k : Keys) : Keys * list Z :=
  if e0_prefix k then (mkKeys (shift k) (caps k) false, if released sc then [] else e0_key sc)
  else if sc =? SC_E0 then (mkKeys (shift k) (caps k) true, [])
  else if released sc then ((if is_shift (Z.ldiff sc SC_RELEASE) then mkKeys false (caps k) (e0_prefix k) else k), [])
  else if is_shift sc then (mkKeys true (caps k) (e0_prefix k), [])
  else if sc =? SC_CAPSLOCK then (mkKeys (shift k) (negb (caps k)) (e0_prefix k), [])
  else if sc =? SC_BACKSPACE then (k, [127])
  else if sc =? SC_ENTER then (k, [13])
  else if sc =? SC_TAB then (k, [9])
  else if sc =? SC_ESC then (k, [27])
  else (k, plain_key sc k).

(** ** The console with its queues *)

Section console.
Context {Q Qk Qm : Type} `{!BoundedQueue Q Z, !BoundedQueue Qk Z, !BoundedQueue Qm Z}.
Context {M : Type} `{!UserMemory M}.

Record Console := mkConsole { tty : TtyState; input : Q; dev : Input.Devices Qk Qm }.
Implicit Types c : Console.

Definition set_tty (t : TtyState) c : Console := mkConsole t (input c) (dev c).

Definition push_bytes (bs : list Z) (q : Q) : Q := foldl (fun q b => (bq_push b q).2) q bs.

Definition process_output (bs : list Z) c : option Console :=
  match bs with
  | [] => Some c
  | _ =>
      '(o, replies) ← output_bytes (winsize (tty c)) bs (out (tty c));
      Some (mkConsole (set_out (clamp_cursor (winsize (tty c)) o) (tty c)) (push_bytes replies (input c)) (dev c))
  end.

Definition decode_scancode_into_queue (sc : Z) c : Console :=
  let '(k, bs) := decode_scancode sc (keys (tty c)) in
  mkConsole (set_keys k (tty c)) (push_bytes bs (input c)) (dev c).

(** [while let Some(sc) = pop_scancode()]: as many rounds as there are scan codes *)
Fixpoint feed (n : nat) c : Console :=
  match n with
  | O => c
  | S n =>
      match Input.pop_scancode (dev c) with
      | (Some sc, d) => feed n (decode_scancode_into_queue sc (mkConsole (tty c) (input c) d))
      | (None, _) => c
      end
  end.
Definition feed_from_scancode_queue_nonblocking c : Console := feed (bq_len (Input.scancode_buf (dev c))) c.

Definition has_pending_input c : bool * Console :=
  let c := feed_from_scancode_queue_nonblocking c in (negb (Nat.eqb (bq_len (input c)) 0), c).
Definition pending_input_len c : Z * Console :=
  let c := feed_from_scancode_queue_nonblocking c in (Z.of_nat (bq_len (input c)), c).

Definition pop_input c : option Z * Console :=
  let '(r, q) := bq_pop (input c) in (r, mkConsole (tty c) q (dev c)).

Definition next_input_byte_nonblocking c : option Z * Console :=
  match pop_input c with
  | (Some b, c') => (Some b, c')
  | (None, c') => pop_input (feed_from_scancode_queue_nonblocking c')
  end.

(** [read_char_blocking] with the queue empty: it waits for the scan code [sc]. *)
Definition await_scancode (sc : Z) c : option Z * Console :=
  let '(r, d) := Input.pop_scancode (Input.enqueue_scancode sc (dev c)) in (r, mkConsole (tty c) (input c) d).

(** The loop, with the scan codes that arrive while it waits: the byte, and the scan
    codes it did not wait for. *)
Fixpoint next_input_byte_blocking (arrivals : list Z) c : option (Z * list Z) * Console :=
  match next_input_byte_nonblocking c with
  | (Some b, c') => (Some (b, arrivals), c')
  | (None, c') =>
      match arrivals with
      | [] => (None, c')
      | sc :: rest =>
          match await_scancode sc c' with
          | (Some sc, c'') => next_input_byte_blocking rest (decode_scancode_into_queue sc c'')
          | (None, c'') => (None, c'')
          end
      end
  end.

(** With a time limit: one try per millisecond, after the scan codes of that
    millisecond have arrived. *)
Fixpoint next_input_byte_timeout (ticks : list (list Z)) c : option Z * Console :=
  match next_input_byte_nonblocking c with
  | (Some b, c') => (Some b, c')
  | (None, c') =>
      match ticks with
      | [] => (None, c')
      | scs :: ticks =>
          next_input_byte_timeout ticks (mkConsole (tty c') (input c') (foldl (fun d sc => Input.enqueue_scancode sc d) (dev c') scs))
      end
  end.

Definition normalize_input_byte (b iflag : Z) : Z :=
  if (b =? 13) && negb (Z.land iflag IFLAG_ICRNL =? 0) then 10 else b.

(** ** Terminal settings *)

Definition bad_ptr (m : M) (arg size : Z) : bool := (arg =? 0) || negb (validate_user_ptr m arg size).

Definition status_of (r : result unit Z * M) : Z * M :=
  match r with (Ok _, m) => (SUCCESS, m) | (Err e, m) => (e, m) end.

Definition termios_bytes (t : Termios) : list Z :=
  to_le_bytes 4 (iflag t) ++ to_le_bytes 4 (oflag t) ++ to_le_bytes 4 (cflag t) ++ to_le_bytes 4 (lflag t) ++ [line t] ++ cc t.

Definition tcgets (arg : Z) c (m : M) : Z * M :=
  if bad_ptr m arg TERMIOS_SIZE then (EINVAL, m)
  else status_of (copy_to_user arg (termios_bytes (termios (tty c))) m).

(** Outside canonical mode a read returns after one byte. *)
Definition raw_mode (t : Termios) : Termios :=
  if Z.land (lflag t) LFLAG_ICANON =? 0
  then mkTermios (iflag t) (oflag t) (cflag t) (lflag t) (line t) (<[CC_VTIME := 0]> (<[CC_VMIN := 1]> (cc t)))
  else t.

Definition u_at (bs : list Z) (i n : nat) : Z := from_le_bytes (take n (drop i bs)).

Definition termios_of (bs : list Z) : Termios :=
  mkTermios (u_at bs 0 4) (u_at bs 4 4) (u_at bs 8 4) (u_at bs 12 4) (bs !!! 16%nat) (take 19 (drop 17 bs)).

Definition tcsets (arg : Z) c (m : M) : Z * Console :=
  if bad_ptr m arg TERMIOS_SIZE then (EINVAL, c)
  else match copy_from_user m arg (Z.to_nat TERMIOS_SIZE) with
       | Err e => (e, c)
       | Ok bs => (SUCCESS, set_tty (set_termios (raw_mode (termios_of bs)) (tty c)) c)
       end.

Definition low16 (v : Z) : Z := Z.land v 65535.

Definition termio_bytes (t : Termios) : list Z :=
  to_le_bytes 2 (low16 (iflag t)) ++ to_le_bytes 2 (low16 (oflag t)) ++ to_le_bytes 2 (low16 (cflag t)) ++
  to_le_bytes 2 (low16 (lflag t)) ++ [line t] ++ take 9 (cc t).

Definition tcgeta (arg : Z) c (m : M) : Z * M :=
  if bad_ptr m arg TERMIO_SIZE then (EINVAL, m)
  else status_of (copy_to_user arg (termio_bytes (termios (tty c))) m).

Definition termio_of (bs old_cc : list Z) : Termios :=
  mkTermios (u_at bs 0 2) (u_at bs 2 2) (u_at bs 4 2) (u_at bs 6 2) (bs !!! 8%nat) (take 9 (drop 9 bs) ++ drop 9 old_cc).

Definition tcseta (arg : Z) c (m : M) : Z * Console :=
  if bad_ptr m arg TERMIO_SIZE then (EINVAL, c)
  else match copy_from_user m arg (Z.to_nat TERMIO_SIZE) with
       | Err e => (e, c)
       | Ok bs => (SUCCESS, set_tty (set_termios (raw_mode (termio_of bs (cc (termios (tty c))))) (tty c)) c)
       end.

Definition winsize_bytes (w : Winsize) : list Z :=
  to_le_bytes 2 (ws_row w) ++ to_le_bytes 2 (ws_col w) ++ to_le_bytes 2 (ws_xpixel w) ++ to_le_bytes 2 (ws_ypixel w).

Definition get_winsize (arg : Z) c (m : M) : Z * M :=
  if bad_ptr m arg WIN_SIZE then (EINVAL, m)
  else status_of (copy_to_user arg (winsize_bytes (winsize (tty c))) m).

Definition resized (bs : list Z) (w : Winsize) : Winsize :=
  let keep new old := if new =? 0 then old else new in
  mkWinsize (keep (u_at bs 0 2) (ws_row w)) (keep (u_at bs 2 2) (ws_col w)) (u_at bs 4 2) (u_at bs 6 2).

Definition set_winsize (arg : Z) c (m : M) : Z * Console :=
  if bad_ptr m arg WIN_SIZE then (EINVAL, c)
  else match copy_from_user m arg (Z.to_nat WIN_SIZE) with
       | Err e => (e, c)
       | Ok bs =>
           let w := resized bs (winsize (tty c)) in
           (SUCCESS, set_tty (mkTty (termios (tty c)) w (keys (tty c)) (clamp_cursor w (out (tty c)))) c)
       end.

(** ** Reading *)

(** The rest of a line: at most [n] more bytes after the byte [lst]. *)
Fixpoint read_line (n : nat) (iflag lst : Z) (arrivals : list Z) c : option (list Z * list Z) * Console :=
  match n with
  | O => (Some ([], arrivals), c)
  | S n =>
      if lst =? 10 then (Some ([], arrivals), c)
      else
        match next_input_byte_blocking arrivals c with
        | (None, c') => (None, c')
        | (Some (b, rest), c') =>
            let b := normalize_input_byte b iflag in
            match read_line n iflag b rest c' with
            | (None, c'') => (None, c'')
            | (Some (bs, rest), c'') => (Some (b :: bs, rest), c'')
            end
        end
  end.

Definition canonical c : bool := negb (Z.land (lflag (termios (tty c))) LFLAG_ICANON =? 0).

(** The bytes a read of at most [len] takes, and the scan codes it did not wait for. *)
Definition take_input (len : nat) (arrivals : list Z) c : option (list Z * list Z) * Console :=
  let iflag := iflag (termios (tty c)) in
  match next_input_byte_blocking arrivals c with
  | (None, c') => (None, c')
  | (Some (b, rest), c') =>
      let b := normalize_input_byte b iflag in
      if canonical c then
        match read_line (len - 1) iflag b rest c' with
        | (None, c'') => (None, c'')
        | (Some (bs, rest), c'') => (Some (b :: bs, rest), c'')
        end
      else (Some ([b], rest), c')
  end.

(** [None]: still waiting *)
Definition read_stdin (buf_ptr len : Z) (arrivals : list Z) c (m : M) : option Z * M * Console :=
  if (buf_ptr =? 0) || (len =? 0) then (Some EFAULT, m, c)
  else if negb (validate_user_ptr m buf_ptr len) then (Some EFAULT, m, c)
  else
    match take_input (Z.to_nat len) arrivals c with
    | (None, c') => (None, m, c')
    | (Some (bs, _), c') =>
        match copy_to_user buf_ptr bs m with
        | (Ok _, m') => (Some (Z.of_nat (length bs)), m', c')
        | (Err e, m') => (Some e, m', c')
        end
    end.
End console.
End Tty.
