(* ===== verification/TtyProps.v ===== *)
(** What the console of [Tty] guarantees: its cursor stays on the screen, output may be
    cut anywhere, cursor reports and terminal settings round-trip, and readers see the
    decoded keys in order. *)

From Stdlib Require Import ZArith Lia.
From stdpp Require Import base list option numbers.
From S2P Require Import Prelude State Types UserMem Queue Fifo Term Input Tty.
Import Tty.

Local Open Scope Z_scope.

Module TtyProps.

(** ** Numbers in escape sequences *)

Lemma parse_digits_app v a b : Term.parse_digits v (a ++ b) = Term.parse_digits v a ≫= fun v' => Term.parse_digits v' b.
Proof. revert v. induction a as [|x a IH]; intros v; [done|]. cbn. destruct (Term.is_digit x); [apply IH|done]. Qed.

Lemma digits_parse k n : 0 <= n < 65536 -> n < 10 ^ Z.of_nat k -> Term.parse_digits 0 (rev (Term.digits k n)) = Some n.
Proof.
  revert n. induction k as [|k IH]; intros n Hn Hk; [cbn in *; f_equal; lia|]. cbn [Term.digits].
  destruct (Z.ltb_spec 0 n); [|cbn; f_equal; lia]. cbn [rev]. rewrite parse_digits_app, IH.
  - pose proof (Z.div_mod n 10 ltac:(lia)). pose proof (Z.mod_pos_bound n 10 ltac:(lia)). cbn [mbind option_bind Term.parse_digits].
    unfold Term.is_digit. rewrite (proj2 (Z.leb_le _ _)), (proj2 (Z.leb_le _ _)) by lia. cbn. f_equal.
    unfold Term.sat_mul16, Term.sat_add16. lia.
  - split; [apply Z.div_pos; lia|]. apply Z.div_lt_upper_bound; lia.
  - apply Z.div_lt_upper_bound; [lia|]. rewrite Nat2Z.inj_succ, Z.pow_succ_r in Hk by lia. lia.
Qed.

Lemma digits_range k n : Forall (fun b => 48 <= b <= 57) (Term.digits k n).
Proof.
  revert n. induction k as [|k IH]; intros n; [constructor|]. cbn [Term.digits]. destruct (0 <? n); [|constructor].
  constructor; [pose proof (Z.mod_pos_bound n 10 ltac:(lia)); lia|apply IH].
Qed.

Lemma digits_length k n : (length (Term.digits k n) <= k)%nat.
Proof. revert n. induction k as [|k IH]; intros n; [done|]. cbn [Term.digits]. destruct (0 <? n); cbn; [specialize (IH (n / 10)); lia|lia]. Qed.

Lemma ascii_number n : 0 <= n < 65536 ->
  parse_ascii_u16 (push_ascii_u16 n) = Some n /\ Forall (fun b => 48 <= b <= 57) (push_ascii_u16 n) /\
  (1 <= length (push_ascii_u16 n) <= 5)%nat.
Proof.
  intros Hn. unfold push_ascii_u16, parse_ascii_u16, Term.parse_ascii_u16. destruct (Z.eqb_spec n 0) as [->|Hne].
  - split; [done|]. split; [repeat constructor; lia|cbn; lia].
  - split; [apply digits_parse; cbn; lia|]. split; [apply Forall_rev, digits_range|]. rewrite length_rev.
    split; [|apply digits_length]. cbn [Term.digits]. rewrite (proj2 (Z.ltb_lt _ _)) by lia. cbn. lia.
Qed.

Lemma csi_split_part room ds bs part : Forall (fun b => 48 <= b <= 57) ds -> csi_split (S room) (ds ++ bs) part = csi_split (S room) bs (part ++ ds).
Proof.
  intros Hd. revert part. induction Hd as [|b ds Hb _ IH]; intros part; [by rewrite app_nil_r|].
  cbn [app]. cbn [csi_split]. rewrite (proj2 (Z.eqb_neq b 59)) by lia. rewrite IH, <-app_assoc. done.
Qed.

Lemma csi_params_two r c :
  0 <= r < 65536 -> 0 <= c < 65536 -> csi_params (push_ascii_u16 r ++ 59 :: push_ascii_u16 c) = (None, [r; c]).
Proof.
  intros Hr Hc. destruct (ascii_number r Hr) as (Pr & Dr & Lr), (ascii_number c Hc) as (Pc & Dc & Lc).
  assert (csi_split 8 (push_ascii_u16 r ++ 59 :: push_ascii_u16 c) [] = [r; c]) as E.
  { rewrite csi_split_part by done. cbn [app]. destruct (push_ascii_u16 r) as [|x l] eqn:Er; [cbn in Lr; lia|].
    cbn [csi_split]. rewrite Pr. cbn [Z.eqb Pos.eqb]. rewrite <-(app_nil_r (push_ascii_u16 c)), csi_split_part by done. cbn [app]. destruct (push_ascii_u16 c) as [|y k] eqn:Ec; [cbn in Lc; lia|]. cbn [csi_split]. by rewrite Pc. }
  unfold csi_params. destruct (push_ascii_u16 r) as [|x l] eqn:Er; [cbn in Lr; lia|]. cbn [app] in *. apply Forall_inv in Dr as Hx.
  rewrite !(proj2 (Z.eqb_neq x _)) by lia. cbn [orb]. by rewrite E.
Qed.

Lemma csi_split_nonneg room bs part : Forall (Z.le 0) (csi_split room bs part).
Proof.
  assert (forall v l w, 0 <= v -> Term.parse_digits v l = Some w -> 0 <= w) as Hp.
  { intros v l. revert v. induction l as [|b l IH]; intros v w Hv; [by intros [= <-]|]. cbn. unfold Term.is_digit.
    destruct (Z.leb_spec 48 b); [|done]. destruct (b <=? 57); [|done]. cbn. apply IH. unfold Term.sat_add16, Term.sat_mul16. lia. }
  assert (forall part, Forall (Z.le 0) (match part with [] => [0] | _ => match parse_ascii_u16 part with Some v => [v] | None => [] end end)) as He.
  { intros [|b l]; [by repeat constructor|]. destruct (parse_ascii_u16 (b :: l)) as [v|] eqn:E; [|constructor]. repeat constructor. by eapply (Hp 0). }
  revert room part. induction bs as [|b bs IH]; intros [|room] part; cbn [csi_split]; try constructor; [apply He|].
  destruct (b =? 59); [apply Forall_app; split; [apply He|apply IH]|apply IH].
Qed.

Lemma csi_params_nonneg seq : Forall (Z.le 0) (csi_params seq).2.
Proof. unfold csi_params. destruct seq as [|b l]; [apply csi_split_nonneg|]. destruct (_ || _); apply csi_split_nonneg. Qed.

Lemma csi_param_nonneg ps i d : Forall (Z.le 0) ps -> 0 <= d -> 0 <= csi_param_or ps i d.
Proof.
  intros Hp Hd. unfold csi_param_or. destruct (ps !! i) as [v|] eqn:E; cbn; [|by destruct (d =? 0)].
  destruct (v =? 0); [done|]. by apply (Forall_lookup_1 _ _ _ _ Hp E).
Qed.
Lemma csi_param_pos ps i : Forall (Z.le 0) ps -> 1 <= csi_param_or ps i 1.
Proof.
  intros Hp. pose proof (csi_param_nonneg ps i 1 Hp ltac:(lia)) as H. unfold csi_param_or in *.
  destruct (Z.eqb_spec (default 1 (ps !! i)) 0); [lia|]. lia.
Qed.

(** ** The cursor stays on the screen *)

Definition window_ok (w : Winsize) : Prop := cols_of w <= 65528.

Record out_ok (w : Winsize) (o : Output) : Prop := {
  oo_row : 1 <= cursor_row o <= rows_of w;
  oo_col : 1 <= cursor_col o <= cols_of w;
  oo_len : 0 <= out_csi_len o <= OUT_CSI_MAX_SEQ;
  oo_seq : length (out_csi_seq o) = Z.to_nat OUT_CSI_MAX_SEQ;
}.

Lemma rows_pos w : 1 <= rows_of w.
Proof. unfold rows_of. lia. Qed.
Lemma cols_pos w : 1 <= cols_of w.
Proof. unfold cols_of. lia. Qed.

Lemma clamp_range v hi : 0 <= v -> 1 <= hi -> 1 <= clamp v hi <= hi.
Proof. intros. unfold clamp. destruct (Z.eqb_spec v 0); [lia|]. destruct (Z.ltb_spec hi v); lia. Qed.

Lemma clamp_id v hi : 1 <= v <= hi -> clamp v hi = v.
Proof. intros. unfold clamp. destruct (Z.eqb_spec v 0); [lia|]. destruct (Z.ltb_spec hi v); lia. Qed.

Lemma clamp_min v hi : 1 <= v -> clamp v hi = Z.min v hi.
Proof. intros. unfold clamp. destruct (Z.eqb_spec v 0); [lia|]. destruct (Z.ltb_spec hi v); lia. Qed.

Lemma clamp_cursor_id w o : out_ok w o -> clamp_cursor w o = o.
Proof. intros [Hr Hc _ _]. unfold clamp_cursor. rewrite !clamp_id by done. by destruct o. Qed.

Lemma at_cursor_ok w o r c : out_ok w o -> 1 <= r <= rows_of w -> 1 <= c <= cols_of w -> out_ok w (at_cursor r c o).
Proof. intros [] Hr Hc. by split. Qed.

Lemma clamped_ok w o r c : out_ok w o -> 0 <= r -> 0 <= c -> out_ok w (clamp_cursor w (at_cursor r c o)).
Proof.
  intros Ho Hr Hc. unfold clamp_cursor, at_cursor. cbn. pose proof (clamp_range r (rows_of w) Hr (rows_pos w)).
  pose proof (clamp_range c (cols_of w) Hc (cols_pos w)). destruct Ho. by split.
Qed.

Lemma handle_csi_ok w f o : out_ok w o -> out_ok w (handle_output_csi w f o).1.
Proof.
  intros Ho. pose proof Ho as [Hr Hc _ _]. unfold handle_output_csi. pose proof (csi_params_nonneg (take (Z.to_nat (out_csi_len o)) (out_csi_seq o))) as Hp.
  destruct (csi_params _) as [private params]. cbn in Hp. pose proof (csi_param_pos params 0 Hp). pose proof (csi_param_pos params 1 Hp).
  unfold at_row, at_col, sat_sub16, Term.sat_add16.
  repeat match goal with |- context [if ?b then _ else _] => destruct b eqn:?; cbn [fst] end;
    rewrite ?Z.eqb_eq, ?Z.eqb_neq in *; try done; try (apply clamped_ok; [done|lia|lia]); apply at_cursor_ok; try done; lia.
Qed.

Lemma out_pending_ok w b o : out_ok w o -> out_ok w (set_pending b o).
Proof. intros []. by split. Qed.
Lemma set_csi_ok w b o : out_ok w o -> out_ok w (set_csi b o).
Proof. intros []. by split. Qed.
Lemma down_ok w o : out_ok w o -> out_ok w (down (rows_of w) o).
Proof. intros Ho. pose proof Ho as [Hr Hc _ _]. unfold down. destruct (Z.ltb_spec (cursor_row o) (rows_of w)); [|done]. apply at_cursor_ok; [done|lia|lia]. Qed.

Lemma plain_byte_ok w b o : window_ok w -> out_ok w o -> exists o', plain_byte w b o = Some o' /\ out_ok w o'.
Proof.
  intros Hw Ho. pose proof Ho as [Hr Hc _ _]. pose proof (cols_pos w). unfold plain_byte.
  destruct (b =? ESC); [eexists; split; [done|by apply out_pending_ok]|].
  destruct (b =? 13); [eexists; split; [done|apply at_cursor_ok; [done|lia|lia]]|].
  destruct (b =? 10); [eexists; split; [done|by apply down_ok]|].
  destruct (b =? 8); [eexists; split; [done|]; destruct (Z.ltb_spec 1 (cursor_col o)); [apply at_cursor_ok; [done|lia|lia]|done]|].
  destruct (b =? 9).
  - unfold tab, sat_sub16. rewrite Z.max_r by lia. unfold window_ok in Hw.
    assert ((cursor_col o - 1) / 8 < 8191) by (apply Z.div_lt_upper_bound; lia). pose proof (Z.div_pos (cursor_col o - 1) 8 ltac:(lia) ltac:(lia)).
    rewrite (proj2 (Z.ltb_lt _ _)) by lia. eexists. split; [done|]. apply at_cursor_ok; [done|lia|lia].
  - destruct (between 32 b 126); [|by eexists]. eexists. split; [done|]. destruct (Z.leb_spec (cols_of w) (cursor_col o)).
    + apply down_ok, at_cursor_ok; [done|lia|lia].
    + apply at_cursor_ok; [done|lia|lia].
Qed.

Lemma output_byte_ok w b o : window_ok w -> out_ok w o -> exists o' r, output_byte w b o = Some (o', r) /\ out_ok w o'.
Proof.
  intros Hw Ho. unfold output_byte. destruct (out_csi_mode o).
  - destruct (between 32 b 63); [|destruct (between 64 b 126)].
    + do 2 eexists. split; [done|]. destruct (Z.ltb_spec (out_csi_len o) (Z.of_nat (length (out_csi_seq o)))) as [Hl|]; [|by apply set_csi_ok].
      destruct Ho. split; cbn; [done|done|lia|]. by rewrite length_insert.
    + pose proof (handle_csi_ok w b o Ho) as H. destruct (handle_output_csi w b o) as [o' r]. do 2 eexists. split; [done|]. by apply set_csi_ok.
    + do 2 eexists. split; [done|]. by apply set_csi_ok.
  - destruct (out_esc_pending o).
    + do 2 eexists. split; [done|]. destruct (b =? 91); [apply set_csi_ok|]; by apply out_pending_ok.
    + destruct (plain_byte_ok w b o Hw Ho) as (o' & -> & Ho'). by do 2 eexists.
Qed.

Lemma output_bytes_ok w bs o : window_ok w -> out_ok w o -> exists o' r, output_bytes w bs o = Some (o', r) /\ out_ok w o'.
Proof.
  intros Hw. revert o. induction bs as [|b bs IH]; intros o Ho; [by do 2 eexists|]. cbn.
  destruct (output_byte_ok w b o Hw Ho) as (o1 & r1 & -> & Ho1). cbn. destruct (IH o1 Ho1) as (o2 & r2 & -> & Ho2). by do 2 eexists.
Qed.

Lemma output_bytes_app w a b o :
  output_bytes w (a ++ b) o = ('(o1, r1) ← output_bytes w a o; '(o2, r2) ← output_bytes w b o1; Some (o2, r1 ++ r2)).
Proof.
  revert o. induction a as [|x a IH]; intros o; cbn.
  - destruct (output_bytes w b o) as [[o2 r2]|]; done.
  - destruct (output_byte w x o) as [[o1 r1]|]; [|done]. cbn. rewrite IH. destruct (output_bytes w a o1) as [[o2 r2]|]; [|done]. cbn.
    destruct (output_bytes w b o2) as [[o3 r3]|]; [|done]. cbn. by rewrite app_assoc.
Qed.

(** ** Collecting a control sequence *)

Record collecting (ps : list Z) (r c : Z) (o : Output) : Prop := {
  co_seq : take (length ps) (out_csi_seq o) = ps;
  co_len : out_csi_len o = Z.of_nat (length ps);
  co_mode : out_csi_mode o = true;
  co_pending : out_esc_pending o = false;
  co_row : cursor_row o = r;
  co_col : cursor_col o = c;
}.

Lemma collect_params w ps qs r c o :
  Forall (fun b => 32 <= b <= 63) qs -> (length (ps ++ qs) <= Z.to_nat OUT_CSI_MAX_SEQ)%nat -> out_ok w o -> collecting ps r c o ->
  exists o', output_bytes w qs o = Some (o', []) /\ out_ok w o' /\ collecting (ps ++ qs) r c o'.
Proof.
  intros Hq. revert ps o. induction Hq as [|q qs Hb _ IH]; intros ps o Hl Ho Hc; [exists o; rewrite app_nil_r; by cbn|].
  pose proof Hc as [E1 E2 E3 E4 E5 E6]. pose proof Ho as [_ _ _ Hsq]. rewrite length_app in Hl. cbn in Hl.
  cbn [output_bytes]. unfold output_byte. rewrite E3. unfold between. rewrite (proj2 (Z.leb_le _ _)), (proj2 (Z.leb_le _ _)) by lia. cbn [andb].
  rewrite Hsq, E2, (proj2 (Z.ltb_lt _ _)) by (unfold OUT_CSI_MAX_SEQ in *; lia). cbn [mbind option_bind].
  replace (ps ++ q :: qs) with ((ps ++ [q]) ++ qs) by (by rewrite <-app_assoc).
  destruct (IH (ps ++ [q]) (push_csi q o)) as (o' & E & Ho' & Hc').
  - rewrite !length_app. cbn. lia.
  - destruct Ho. split; cbn; [done|done|unfold OUT_CSI_MAX_SEQ in *; lia|by rewrite length_insert].
  - split; cbn; [|rewrite length_app; cbn; lia|done|done|done|done]. rewrite E2, Nat2Z.id, length_app. cbn. rewrite Nat.add_1_r.
    erewrite take_S_r; [|apply list_lookup_insert_eq; rewrite Hsq; unfold OUT_CSI_MAX_SEQ in *; cbn in *; lia].
    by rewrite take_insert_ge, E1 by lia.
  - exists o'. rewrite E. done.
Qed.

Definition idle (o : Output) : Prop := out_csi_mode o = false /\ out_esc_pending o = false.

(** [ESC \[ ps final] from an idle console *)
Lemma run_csi w ps f o :
  Forall (fun b => 32 <= b <= 63) ps -> (length ps <= Z.to_nat OUT_CSI_MAX_SEQ)%nat -> 64 <= f <= 126 -> out_ok w o -> idle o ->
  exists o1, out_ok w o1 /\ collecting ps (cursor_row o) (cursor_col o) o1 /\
    output_bytes w (csi (ps ++ [f])) o = (let '(o', r) := handle_output_csi w f o1 in Some (set_csi false o', r)).
Proof.
  intros Hps Hl Hf Ho [Hm Hp]. set (o0 := set_csi true (set_pending false (set_pending true o))).
  assert (out_ok w o0) as Ho0 by (by apply set_csi_ok, out_pending_ok, out_pending_ok).
  destruct (collect_params w [] ps (cursor_row o) (cursor_col o) o0) as (o1 & E & Ho1 & Hc); [done|done|done|by split|].
  exists o1. split; [done|]. split; [done|]. unfold csi. cbn [output_bytes].
  assert (output_byte w ESC o = Some (set_pending true o, [])) as -> by (unfold output_byte; by rewrite Hm, Hp). cbn [mbind option_bind].
  assert (output_byte w 91 (set_pending true o) = Some (o0, [])) as -> by (unfold output_byte; cbn; by rewrite Hm).
  cbn [mbind option_bind].
  rewrite output_bytes_app, E. cbn [mbind option_bind output_bytes]. unfold output_byte. destruct Hc as [_ _ Hcm _ _ _]. rewrite Hcm. unfold between.
  rewrite (proj2 (Z.leb_gt f 63)), andb_false_r, (proj2 (Z.leb_le 64 f)), (proj2 (Z.leb_le f 126)) by lia. cbn [andb].
  destruct (handle_output_csi w f o1) as [o' r]. cbn. by rewrite app_nil_r.
Qed.

Lemma collected_seq ps r c o : collecting ps r c o -> take (Z.to_nat (out_csi_len o)) (out_csi_seq o) = ps.
Proof. intros [E1 E2 _ _ _ _]. by rewrite E2, Nat2Z.id. Qed.

Lemma set_csi_idle r c ps o : collecting ps r c o -> idle (set_csi false o).
Proof. by intros []. Qed.

Lemma number_bytes n : 0 <= n < 65536 -> Forall (fun b => 32 <= b <= 63) (push_ascii_u16 n).
Proof. intros Hn. destruct (ascii_number n Hn) as (_ & H & _). revert H. apply List.Forall_impl. lia. Qed.

Lemma two_numbers_bytes r c : 0 <= r < 65536 -> 0 <= c < 65536 ->
  Forall (fun b => 32 <= b <= 63) (push_ascii_u16 r ++ 59 :: push_ascii_u16 c) /\
  (length (push_ascii_u16 r ++ 59%Z :: push_ascii_u16 c) <= Z.to_nat OUT_CSI_MAX_SEQ)%nat.
Proof.
  intros Hr Hc. split.
  - apply Forall_app. split; [by apply number_bytes|]. constructor; [lia|by apply number_bytes].
  - rewrite length_app. cbn [length]. change (Z.to_nat OUT_CSI_MAX_SEQ) with 32%nat. destruct (ascii_number r Hr) as (_ & _ & ?), (ascii_number c Hc) as (_ & _ & ?). lia.
Qed.

Section console.
Context {Q Qk Qm : Type} `{!BoundedQueue Q Z, !BoundedQueue Qk Z, !BoundedQueue Qm Z}.
Context {M : Type} `{!UserMemory M}.
Notation Console := (@Console Q Qk Qm).
Implicit Types c : Console.

Definition tty_ok (c : Console) : Prop := window_ok (winsize (tty c)) /\ out_ok (winsize (tty c)) (out (tty c)).

(** The console follows any output: from a state with the cursor on the screen and
    a window of at most 65528 columns, [process_output] never overflows, and the cursor
    is on the screen and the collected sequence within its buffer afterwards. *)
Theorem tty_output_total (bs : list Z) c :
  tty_ok c -> exists c', process_output bs c = Some c' /\ tty_ok c' /\ winsize (tty c') = winsize (tty c) /\ dev c' = dev c.
Proof.
  intros [Hw Ho]. destruct bs as [|b bs]; [by exists c|]. unfold process_output.
  destruct (output_bytes_ok _ (b :: bs) _ Hw Ho) as (o & r & -> & Ho'). cbn. eexists. split; [done|]. rewrite clamp_cursor_id by done. done.
Qed.

Lemma push_bytes_app a b (q : Q) : push_bytes (a ++ b) q = push_bytes b (push_bytes a q).
Proof. unfold push_bytes. by rewrite foldl_app. Qed.

(** Cutting the output of a program anywhere makes no difference to the console:
    its state and the answers in the input queue are the same. *)
Theorem tty_output_chunks (a b : list Z) c :
  tty_ok c -> process_output (a ++ b) c = (process_output a c ≫= process_output b).
Proof.
  intros [Hw Ho]. destruct a as [|x a]; [done|]. destruct b as [|y b]; [rewrite app_nil_r; by destruct (process_output _ c)|].
  destruct (output_bytes_ok _ (x :: a) _ Hw Ho) as (o1 & r1 & E1 & Ho1).
  assert (process_output (x :: a) c = Some (mkConsole (set_out o1 (tty c)) (push_bytes r1 (input c)) (dev c))) as ->
    by (unfold process_output; rewrite E1; cbn; by rewrite clamp_cursor_id).
  cbn [mbind option_bind]. unfold process_output. change ((x :: a) ++ y :: b) with (x :: (a ++ y :: b)). cbv iota beta.
  change (x :: (a ++ y :: b)) with ((x :: a) ++ y :: b). rewrite output_bytes_app, E1. cbn [mbind option_bind tty winsize set_out out input dev].
  destruct (output_bytes _ (y :: b) o1) as [[o2 r2]|]; [|done]. cbn [mbind option_bind].
  by rewrite push_bytes_app.
Qed.

Lemma push_bytes_view bs (q : Q) : bq_inv q -> bq_inv (push_bytes bs q) /\ bq_view (push_bytes bs q) = take (bq_capacity (Q := Q)) (bq_view q ++ bs).
Proof.
  revert q. induction bs as [|b bs IH]; intros q Hi; cbn.
  - split; [done|]. rewrite app_nil_r, take_ge; [done|]. by apply bq_bounded.
  - destruct (IH _ (bq_push_inv b q Hi)) as [H1 H2]. split; [exact H1|]. fold (push_bytes bs (bq_push b q).2). rewrite H2, Input.bq_push_view by done.
    replace (bq_view q ++ b :: bs) with ((bq_view q ++ [b]) ++ bs) by (by rewrite <-app_assoc). set (l := bq_view q ++ [b]).
    destruct (decide (length l <= bq_capacity (Q := Q))%nat); [by rewrite (take_ge l)|]. rewrite !take_app_le by (rewrite ?length_take; lia). by rewrite take_take, Nat.min_id.
Qed.

(** A cursor report tells where the cursor is: after [ESC \[ r ; c H] the answer to
    [ESC \[ 6 n] is queued (as far as there is room), and a program that parses its
    numbers gets the row and column, cut off at the edges of the window. *)
Theorem cursor_report_roundtrip r k c :
  tty_ok c -> idle (out (tty c)) -> bq_inv (input c) -> 1 <= r < 65536 -> 1 <= k < 65536 ->
  rows_of (winsize (tty c)) < 65536 ->
  let r' := Z.min r (rows_of (winsize (tty c))) in
  let k' := Z.min k (cols_of (winsize (tty c))) in
  exists c' seq, process_output (csi (push_ascii_u16 r ++ 59 :: push_ascii_u16 k ++ [72]) ++ csi [54; 110]) c = Some c' /\
    cursor_row (out (tty c')) = r' /\ cursor_col (out (tty c')) = k' /\ idle (out (tty c')) /\
    bq_view (input c') = take (bq_capacity (Q := Q)) (bq_view (input c) ++ csi (seq ++ [82])) /\ csi_params seq = (None, [r'; k']).
Proof.
  intros [Hw Ho] Hi Hq Hr Hk Hrows r' k'. set (w := winsize (tty c)) in *. pose proof (rows_pos w). pose proof (cols_pos w).
  assert (0 <= r' < 65536 /\ 0 <= k' < 65536) as [Hr' Hk'] by (unfold r', k', window_ok in *; lia).
  destruct (two_numbers_bytes r k) as [Hb Hl]; [lia|lia|].
  destruct (run_csi w _ 72 _ Hb Hl ltac:(lia) Ho Hi) as (o1 & Ho1 & Hc1 & E1).
  assert (handle_output_csi w 72 o1 = (at_cursor r' k' o1, [])) as Hh.
  { unfold handle_output_csi. rewrite (collected_seq _ _ _ _ Hc1), csi_params_two by lia. cbn. unfold csi_param_or. cbn.
    rewrite (proj2 (Z.eqb_neq r 0)), (proj2 (Z.eqb_neq k 0)) by lia. unfold clamp_cursor, at_cursor. cbn. by rewrite !clamp_min by lia. }
  rewrite Hh in E1. set (o2 := set_csi false (at_cursor r' k' o1)) in E1.
  assert (out_ok w o2) as Ho2 by (apply set_csi_ok, at_cursor_ok; [done|unfold r'; lia|unfold k'; lia]).
  assert (idle o2) as Hi2 by (by destruct Hc1).
  destruct (run_csi w [54] 110 o2) as (o3 & Ho3 & Hc3 & E3); [apply Forall_singleton; lia|apply Nat.leb_le; reflexivity|lia|done|done|].
  assert (handle_output_csi w 110 o3 = (o3, csi ((push_ascii_u16 r' ++ 59 :: push_ascii_u16 k') ++ [82]))) as Hh3.
  { unfold handle_output_csi. rewrite (collected_seq _ _ _ _ Hc3). cbn. rewrite (co_row _ _ _ _ Hc3), (co_col _ _ _ _ Hc3). cbn.
    by rewrite !Z.max_l, <-app_assoc by (unfold r', k'; lia). }
  rewrite Hh3 in E3. unfold process_output. destruct (csi _ ++ csi _) as [|x l] eqn:El; [done|]. rewrite <-El. clear x l El. rewrite output_bytes_app. fold w.
  replace (push_ascii_u16 r ++ 59 :: push_ascii_u16 k ++ [72]) with ((push_ascii_u16 r ++ 59 :: push_ascii_u16 k) ++ [72]) by (by rewrite <-app_assoc).
  rewrite E1. cbn [mbind option_bind]. change (csi [54; 110]) with (csi ([54] ++ [110])). rewrite E3. cbn [mbind option_bind app].
  assert (out_ok w (set_csi false o3)) as Ho4 by (by apply set_csi_ok).
  eexists _, (push_ascii_u16 r' ++ 59 :: push_ascii_u16 k'). split; [reflexivity|]. cbn [tty out set_out input]. rewrite clamp_cursor_id by done. cbn.
  rewrite (co_row _ _ _ _ Hc3), (co_col _ _ _ _ Hc3). split; [done|]. split; [done|]. split; [by destruct Hc3|].
  split; [|by apply csi_params_two].
  exact (proj2 (push_bytes_view (csi ((push_ascii_u16 r' ++ 59 :: push_ascii_u16 k') ++ [82])) (input c) Hq)).
Qed.

(** ** Readers see the decoded keys in order *)

Fixpoint decode_all (scs : list Z) (k : Keys) : Keys * list Z :=
  match scs with
  | [] => (k, [])
  | sc :: scs =>
      let '(k1, bs1) := decode_scancode sc k in
      let '(k2, bs2) := decode_all scs k1 in (k2, bs1 ++ bs2)
  end.

Lemma decode_all_app a b k :
  decode_all (a ++ b) k = ((decode_all b (decode_all a k).1).1, (decode_all a k).2 ++ (decode_all b (decode_all a k).1).2).
Proof.
  revert k. induction a as [|sc a IH]; intros k; cbn; [by destruct (decode_all b k)|]. destruct (decode_scancode sc k) as [k1 b1].
  rewrite IH. destruct (decode_all a k1) as [k2 b2]. cbn. by rewrite app_assoc.
Qed.

Definition keycodes c : list Z := bq_view (Input.scancode_buf (dev c)).
Definition console_ok c : Prop := bq_inv (input c) /\ bq_inv (Input.scancode_buf (dev c)).

(** All that a reader can still get: the queue, then what the scan codes decode to. *)
Definition stream (arrivals : list Z) c : list Z :=
  bq_view (input c) ++ (decode_all (keycodes c ++ arrivals) (keys (tty c))).2.

Lemma take_app_take {A} n (l k : list A) : take n (take n l ++ k) = take n (l ++ k).
Proof.
  destruct (decide (length l <= n)%nat); [by rewrite (take_ge l)|]. rewrite !take_app_le by (rewrite ?length_take; lia). by rewrite take_take, Nat.min_id.
Qed.

Lemma feed_spec n c :
  console_ok c -> n = length (keycodes c) ->
  let c' := feed n c in
  console_ok c' /\ keycodes c' = [] /\ keys (tty c') = (decode_all (keycodes c) (keys (tty c))).1 /\
  bq_view (input c') = take (bq_capacity (Q := Q)) (bq_view (input c) ++ (decode_all (keycodes c) (keys (tty c))).2).
Proof.
  revert c. induction n as [|n IH]; intros c [Hi Hs] Hn.
  - cbn. destruct (keycodes c) eqn:E; [|done]. split; [done|]. split; [done|]. split; [done|]. cbn. rewrite app_nil_r, take_ge; [done|]. by apply bq_bounded.
  - cbn [feed]. unfold Input.pop_scancode. destruct (bq_pop_view _ Hs) as [Hp Hv]. pose proof (bq_pop_inv _ Hs) as Hs'.
    unfold keycodes in *. destruct (bq_view (Input.scancode_buf (dev c))) as [|sc l] eqn:Ek; [done|].
    destruct (bq_pop (Input.scancode_buf (dev c))) as [r q]. cbn in Hp, Hv, Hs'. subst r. unfold decode_scancode_into_queue. cbn [tty].
    destruct (decode_scancode sc (keys (tty c))) as [k bs] eqn:Ed. destruct (push_bytes_view bs (input c) Hi) as [Hi1 Hv1].
    destruct (IH (mkConsole (set_keys k (tty c)) (push_bytes bs (input c)) (Input.set_keys q (Input.scancode_tap_buf (dev c)) (dev c)))) as (H1 & H2 & H3 & H4).
    { by split. }
    { cbn. rewrite Hv. cbn in Hn. congruence. }
    cbn in H2, H3, H4. rewrite Hv in H3, H4. cbn [decode_all]. rewrite Ed. cbn in H3, H4. destruct (decode_all l k) as [k2 b2].
    split; [done|]. split; [done|]. split; [done|]. etrans; [exact H4|]. rewrite Hv1, take_app_take. cbn. by rewrite app_assoc.
Qed.

Lemma feed_all_spec c :
  console_ok c ->
  let c' := feed_from_scancode_queue_nonblocking c in
  console_ok c' /\ keycodes c' = [] /\ keys (tty c') = (decode_all (keycodes c) (keys (tty c))).1 /\
  bq_view (input c') = take (bq_capacity (Q := Q)) (bq_view (input c) ++ (decode_all (keycodes c) (keys (tty c))).2).
Proof. intros Hok. apply feed_spec; [done|]. by apply bq_len_view, Hok. Qed.

Lemma feed_stream arrivals c :
  console_ok c -> (length (stream arrivals c) <= bq_capacity (Q := Q))%nat ->
  stream arrivals (feed_from_scancode_queue_nonblocking c) = stream arrivals c.
Proof.
  intros Hok Hl. destruct (feed_all_spec c Hok) as (_ & H2 & H3 & H4). unfold stream in *. rewrite H2, H3, H4. rewrite (decode_all_app (keycodes c)) in Hl |- *. cbn in *.
  rewrite !length_app in Hl. rewrite take_ge by (rewrite length_app; lia).
  by rewrite <-app_assoc.
Qed.

Lemma pop_input_spec arrivals c :
  console_ok c ->
  match bq_view (input c) with
  | [] => exists c', pop_input c = (None, c') /\ console_ok c' /\ bq_view (input c') = [] /\ keycodes c' = keycodes c /\ tty c' = tty c
  | b :: _ => exists c', pop_input c = (Some b, c') /\ console_ok c' /\ stream arrivals c = b :: stream arrivals c'
  end.
Proof.
  intros [Hi Hs]. unfold pop_input, stream. destruct (bq_pop_view _ Hi) as [Hp Hv]. pose proof (bq_pop_inv _ Hi) as Hi'.
  destruct (bq_pop (input c)) as [r q]. cbn in Hp, Hv, Hi'. destruct (bq_view (input c)) as [|b l]; cbn in Hp, Hv; subst r.
  - eexists. split; [done|]. by repeat split.
  - eexists. split; [done|]. split; [by split|]. cbn. by rewrite Hv.
Qed.

Lemma nonblocking_spec arrivals c :
  console_ok c -> (length (stream arrivals c) <= bq_capacity (Q := Q))%nat ->
  (exists b c', next_input_byte_nonblocking c = (Some b, c') /\ console_ok c' /\ stream arrivals c = b :: stream arrivals c') \/
  (exists c', next_input_byte_nonblocking c = (None, c') /\ console_ok c' /\ stream arrivals c' = stream arrivals c /\
     bq_view (input c') = [] /\ keycodes c' = []).
Proof.
  intros Hok Hl. unfold next_input_byte_nonblocking. pose proof (pop_input_spec arrivals c Hok) as Hp. destruct (bq_view (input c)) as [|b l] eqn:Ev.
  2: { destruct Hp as (c' & -> & Hok' & Hst). left. eauto. }
  destruct Hp as (c1 & -> & Hok1 & Hv1 & Hk1 & Ht1).
  assert (stream arrivals c1 = stream arrivals c) as Hs1 by (unfold stream; by rewrite Hv1, Hk1, Ht1, Ev).
  rewrite <-Hs1 in Hl. destruct (feed_all_spec c1 Hok1) as (Hok2 & Hk2 & _). pose proof (feed_stream arrivals c1 Hok1 Hl) as Hs2.
  set (c2 := feed_from_scancode_queue_nonblocking c1) in *. pose proof (pop_input_spec arrivals c2 Hok2) as Hp. destruct (bq_view (input c2)) as [|b l] eqn:Ev2.
  - destruct Hp as (c3 & -> & Hok3 & Hv3 & Hk3 & Ht3). right. exists c3. split; [done|]. split; [done|]. split; [|by rewrite Hk3].
    rewrite <-Hs1, <-Hs2. unfold stream. by rewrite Hv3, Hk3, Ht3, Ev2.
  - destruct Hp as (c' & -> & Hok' & Hst). left. exists b, c'. split; [done|]. split; [done|]. congruence.
Qed.

Lemma await_spec sc rest c :
  console_ok c -> (0 < bq_capacity (Q := Qk))%nat -> bq_view (input c) = [] -> keycodes c = [] ->
  exists c', await_scancode sc c = (Some sc, c') /\ console_ok (decode_scancode_into_queue sc c') /\
    ((length (stream (sc :: rest) c) <= bq_capacity (Q := Q))%nat -> stream rest (decode_scancode_into_queue sc c') = stream (sc :: rest) c).
Proof.
  intros [Hi Hs] Hc Hv Hk. unfold await_scancode, Input.pop_scancode, Input.enqueue_scancode. cbn [Input.set_keys Input.scancode_buf Input.scancode_tap_buf].
  pose proof (Input.bq_push_view sc _ Hs) as Hpv. pose proof (bq_push_inv sc _ Hs) as Hpi. unfold keycodes in Hk. rewrite Hk, app_nil_l, take_ge in Hpv by (cbn; lia).
  destruct (bq_pop_view _ Hpi) as [Hp Hv2]. pose proof (bq_pop_inv _ Hpi) as Hi2. rewrite Hpv in Hp, Hv2.
  destruct (bq_pop (bq_push sc (Input.scancode_buf (dev c))).2) as [r q]. cbn in Hp, Hv2, Hi2. subst r.
  eexists. split; [done|]. unfold decode_scancode_into_queue. cbn. destruct (decode_scancode sc (keys (tty c))) as [k bs] eqn:Ed.
  destruct (push_bytes_view bs (input c) Hi) as [Hi1 Hv1]. split; [by split|]. unfold stream, keycodes. cbn. rewrite Hv2, Hv1, Hv, Hk. cbn. rewrite Ed.
  destruct (decode_all rest k) as [k2 b2]. cbn. rewrite length_app. intros Hl. by rewrite take_ge by lia.
Qed.

(** The next byte of a reader is the next byte of the stream. *)
Lemma next_byte_spec arrivals c :
  console_ok c -> (0 < bq_capacity (Q := Qk))%nat -> (length (stream arrivals c) <= bq_capacity (Q := Q))%nat ->
  match stream arrivals c with
  | [] => exists c', next_input_byte_blocking arrivals c = (None, c')
  | b :: s => exists rest c', next_input_byte_blocking arrivals c = (Some (b, rest), c') /\ stream rest c' = s /\ console_ok c'
  end.
Proof.
  revert c. induction arrivals as [|sc rest IH]; intros c Hok Hc Hl; cbn [next_input_byte_blocking];
    destruct (nonblocking_spec _ c Hok Hl) as [(b & c' & -> & Hok' & Hst)|(c' & -> & Hok' & Hst & Hv & Hk)]; rewrite ?Hst.
  - eauto.
  - unfold stream in Hst. rewrite Hv, Hk in Hst. cbn in Hst. unfold stream. rewrite <-Hst. eauto.
  - eauto.
  - destruct (await_spec sc rest c' Hok' Hc Hv Hk) as (c2 & -> & Hok2 & Hs2). rewrite <-Hst in Hl. rewrite <-Hst, <-(Hs2 Hl). apply IH; [done|done|].
    by rewrite (Hs2 Hl).
Qed.

(** The first line of a list, of at most [n] bytes, with its newline. *)
Fixpoint line_of (n : nat) (s : list Z) : list Z :=
  match n, s with
  | S n, b :: s => b :: (if b =? 10 then [] else line_of n s)
  | _, _ => []
  end.

(** A line of at most [n] bytes is there: it ends, or it is long enough. *)
Definition line_there (n : nat) (s : list Z) : Prop := (n <= length s)%nat \/ 10 ∈ take n s.

Lemma read_line_spec f n lst arrivals c :
  console_ok c -> (0 < bq_capacity (Q := Qk))%nat -> (length (stream arrivals c) <= bq_capacity (Q := Q))%nat ->
  let s := (fun b => normalize_input_byte b f) <$> stream arrivals c in
  (lst = 10 \/ line_there n s) ->
  let bs := if lst =? 10 then [] else line_of n s in
  exists rest c', read_line n f lst arrivals c = (Some (bs, rest), c') /\ console_ok c' /\
    s = bs ++ ((fun b => normalize_input_byte b f) <$> stream rest c').
Proof.
  revert lst arrivals c. induction n as [|n IH]; intros lst arrivals c Hok Hc Hl; cbn zeta; intros Hln.
  - exists arrivals, c. cbn. split; [by destruct (lst =? 10)|]. by destruct (lst =? 10).
  - cbn [read_line]. destruct (Z.eqb_spec lst 10) as [->|Hne]; [by exists arrivals, c|]. destruct Hln as [|Hln]; [done|].
    pose proof (next_byte_spec arrivals c Hok Hc Hl) as Hnb. destruct (stream arrivals c) as [|b s] eqn:Es.
    { destruct Hln as [H|H]; [cbn in H; lia|by apply elem_of_nil in H]. }
    destruct Hnb as (rest & c1 & -> & Hs1 & Hok1). cbn in Hl. cbn [fmap list_fmap] in Hln |- *. set (b' := normalize_input_byte b f) in *.
    destruct (IH b' rest c1 Hok1 Hc) as (rest' & c2 & -> & Hok2 & Heq).
    + rewrite Hs1. lia.
    + rewrite Hs1. destruct (decide (b' = 10)) as [->|Hb]; [by left|right]. destruct Hln as [H|H]; [left; cbn in H; lia|right].
      cbn in H. by apply elem_of_cons in H as [|].
    + rewrite Hs1 in Heq |- *. exists rest', c2. split; [done|]. split; [done|]. cbn. f_equal. exact Heq.
Qed.

(** A reader gets the decoded keys in order and loses none: in canonical mode the
    bytes up to and including the next newline (or as many as were asked for), outside
    it one byte, and what it leaves is the rest of the stream of the keys typed so far
    and still to come. *)
Theorem read_takes_next_input n arrivals c :
  console_ok c -> (0 < bq_capacity (Q := Qk))%nat -> (length (stream arrivals c) <= bq_capacity (Q := Q))%nat -> (0 < n)%nat ->
  let s := (fun b => normalize_input_byte b (iflag (termios (tty c)))) <$> stream arrivals c in
  s <> [] -> (canonical c = true -> line_there n s) ->
  let bs := if canonical c then line_of n s else take 1 s in
  exists rest c', take_input n arrivals c = (Some (bs, rest), c') /\ console_ok c' /\
    s = bs ++ ((fun b => normalize_input_byte b (iflag (termios (tty c)))) <$> stream rest c').
Proof.
  intros Hok Hc Hl Hn s Hs Hln bs. unfold take_input. pose proof (next_byte_spec arrivals c Hok Hc Hl) as Hnb. unfold bs, s in *.
  destruct (stream arrivals c) as [|b st] eqn:Es; [done|]. destruct Hnb as (rest & c1 & -> & Hs1 & Hok1). cbn in Hl.
  cbn [fmap list_fmap] in Hln |- *. set (f := iflag (termios (tty c))) in *. set (b' := normalize_input_byte b f) in *. destruct (canonical c).
  - destruct n as [|n]; [lia|]. cbn [line_of Nat.sub]. rewrite Nat.sub_0_r.
    destruct (read_line_spec f n b' rest c1 Hok1 Hc) as (rest' & c2 & -> & Hok2 & Heq).
    + rewrite Hs1. lia.
    + rewrite Hs1. destruct (decide (b' = 10)) as [->|Hb]; [by left|right]. destruct (Hln eq_refl) as [H|H]; [left; cbn in H; lia|right].
      cbn in H. by apply elem_of_cons in H as [|].
    + rewrite Hs1 in Heq |- *. exists rest', c2. split; [done|]. split; [done|]. cbn. f_equal. exact Heq.
  - exists rest, c1. split; [done|]. split; [done|]. by rewrite Hs1.
Qed.

(** ** Terminal settings *)

Lemma u_at_byte bs i n : Forall is_byte bs -> (i + n <= length bs)%nat -> to_le_bytes n (u_at bs i n) = take n (drop i bs).
Proof.
  intros Hb Hl. unfold u_at. rewrite <-(to_from_le_bytes (take n (drop i bs))) at 2 by (by apply Forall_take, Forall_drop).
  f_equal. rewrite length_take, length_drop. lia.
Qed.

(** What [tcgets] shows of settings that were given as [bs]. *)
Definition shown (bs : list Z) : list Z :=
  if Z.land (u_at bs 12 4) LFLAG_ICANON =? 0 then <[22%nat := 0]> (<[23%nat := 1]> bs) else bs.

Lemma termios_bytes_of bs : Forall is_byte bs -> length bs = 36%nat -> termios_bytes (raw_mode (termios_of bs)) = shown bs.
Proof.
  intros Hb Hl.
  assert (forall l, termios_bytes (mkTermios (u_at bs 0 4) (u_at bs 4 4) (u_at bs 8 4) (u_at bs 12 4) (bs !!! 16%nat) l) = take 17 bs ++ l) as H.
  { intros l. unfold termios_bytes. cbn [iflag oflag cflag lflag line cc]. rewrite !u_at_byte by (done || lia).
    do 36 (destruct bs as [|? bs]; [discriminate Hl|]). done. }
  unfold raw_mode, shown, termios_of. cbn [lflag iflag oflag cflag line cc]. destruct (_ =? 0); rewrite H;
    do 36 (destruct bs as [|? bs]; [discriminate Hl|]); destruct bs; [done|discriminate Hl|done|discriminate Hl].
Qed.

(** Terminal settings round-trip: [tcsets] takes the 36 bytes of the caller, and
    [tcgets] hands the same bytes back, except that outside canonical mode VMIN is 1
    and VTIME 0. *)
Theorem termios_roundtrip arg arg' c (m m' : M) bs :
  arg <> 0 -> arg' <> 0 -> validate_user_ptr m arg 36 = true -> validate_user_ptr m' arg' 36 = true ->
  copy_from_user m arg 36 = Ok bs -> Forall is_byte bs ->
  exists c', tcsets arg c m = (SUCCESS, c') /\ tcgets arg' c' m' = status_of (copy_to_user arg' (shown bs) m') /\
    winsize (tty c') = winsize (tty c) /\ out (tty c') = out (tty c) /\ input c' = input c /\ dev c' = dev c.
Proof.
  intros Ha Ha' Hv Hv' Hc Hb. pose proof (copy_from_user_length _ _ _ _ Hc) as Hl. unfold tcsets, tcgets, bad_ptr, TERMIOS_SIZE.
  rewrite (proj2 (Z.eqb_neq arg 0)), (proj2 (Z.eqb_neq arg' 0)), Hv, Hv' by done. cbn [orb negb]. change (Z.to_nat 36) with 36%nat. rewrite Hc.
  eexists. split; [done|]. cbn. by rewrite termios_bytes_of.
Qed.
End console.

(** ** The kernel's own queues *)

#[local] Instance input_queue : BoundedQueue (Fifo.FifoInner Z) Z := Fifo.fifo_bounded_queue 1024.

Definition demo : Console (Q := Fifo.FifoInner Z) (Qk := Fifo.FifoInner Z) (Qm := Fifo.FifoInner Z) :=
  mkConsole new (Fifo.new 1024) (Input.mkDevices (Fifo.new 1024) (Fifo.new 1024) 0 (Fifo.new 1024) 0 0 (Input.mkAsm [0; 0; 0] 0)).

Lemma demo_ok : tty_ok demo.
Proof. split; [cbv; discriminate|]. split; cbn; unfold OUT_CSI_MAX_SEQ; try (cbv; split; discriminate); reflexivity. Qed.

Lemma demo_console_ok : console_ok demo.
Proof. split; apply Fifo.new_inv. Qed.

Lemma tty_output_total_witness : exists c', process_output [104; 27; 91; 53; 65; 9] demo = Some c' /\ tty_ok c'.
Proof.
  destruct (tty_output_total [104; 27; 91; 53; 65; 9] demo demo_ok) as (c' & E & H & _). exists c'. split; [exact E|exact H].
Defined.

Lemma tty_output_chunks_witness :
  process_output ([27; 91; 50] ++ [67; 27; 91; 54; 110]) demo = (process_output [27; 91; 50] demo ≫= process_output [67; 27; 91; 54; 110]).
Proof. apply (tty_output_chunks [27; 91; 50] [67; 27; 91; 54; 110] demo). exact demo_ok. Defined.

Lemma cursor_report_roundtrip_witness :
  exists c' seq, process_output (csi (push_ascii_u16 99 ++ 59 :: push_ascii_u16 40 ++ [72]) ++ csi [54; 110]) demo = Some c' /\
    bq_view (input c') = take 1024 (csi (seq ++ [82])) /\ csi_params seq = (None, [24; 40]).
Proof.
  destruct (cursor_report_roundtrip 99 40 demo demo_ok) as (c' & seq & E & _ & _ & _ & Hv & Hp).
  - split; reflexivity.
  - apply Fifo.new_inv.
  - lia.
  - lia.
  - reflexivity.
  - exists c', seq. split; [exact E|]. split; [exact Hv|exact Hp].
Defined.

Lemma read_takes_next_input_witness :
  exists rest c', take_input 8 [35; 163; 23; 28] demo = (Some ([104], rest), c') /\
    [104; 105; 13] = [104] ++ ((fun b => normalize_input_byte b 0) <$> stream rest c').
Proof.
  destruct (read_takes_next_input 8 [35; 163; 23; 28] demo demo_console_ok) as (rest & c' & E & _ & Hs).
  - apply Nat.ltb_lt. reflexivity.
  - apply Nat.leb_le. reflexivity.
  - lia.
  - discriminate.
  - discriminate.
  - exists rest, c'. split; [exact E|exact Hs].
Defined.

Definition settings : list Z := to_le_bytes 4 256 ++ to_le_bytes 4 0 ++ to_le_bytes 4 176 ++ to_le_bytes 4 1 ++ [0] ++ replicate 19 9.

Lemma termios_roundtrip_witness :
  exists c', tcsets 4096 demo (flat_store (fun _ => 0) 4096 settings) = (SUCCESS, c') /\
    tcgets 8192 c' (fun _ => 0) = status_of (copy_to_user 8192 (shown settings) (fun _ => 0)).
Proof.
  destruct (termios_roundtrip 4096 8192 demo (flat_store (fun _ => 0) 4096 settings) (fun _ => 0) settings) as (c' & E1 & E2 & _).
  - discriminate.
  - discriminate.
  - reflexivity.
  - reflexivity.
  - vm_compute. reflexivity.
  - apply (bool_decide_unpack _). vm_compute. exact I.
  - exists c'. split; [exact E1|exact E2].
Defined.
End TtyProps.
