(* ===== verification/Sleep.v ===== *)
(** Time: the clock, the timer interrupt and the threads that sleep for a while
    ([src/core/syscall/time.rs], [src/core/interrupt/timer.rs], [sleep] of
    [src/core/syscall/process.rs], [nanosleep] of [src/core/syscall/pgroup.rs]).

    A call that sleeps is its start, which queues the thread and puts it to sleep,
    and the rounds of its loop.  The interrupt handler is one step, without the
    acknowledgement to the interrupt controller. *)

From Stdlib Require Import ZArith Lia.
From stdpp Require Import base list option numbers gmap fin_maps.
From S2P Require Import Prelude Types UserMem Slots Table Thread KStack Scheduler Process Ipc IpcSyscalls Futex Kernel.

Local Open Scope Z_scope.

Module Sleep.
Import IpcSyscalls Kernel.

Record SleepEntry := mkEntry { tid : Z; wake_tick : Z }.

Definition MAX_SLEEPERS : nat := Thread.MAX_THREADS.
Definition TICK_MS : Z := 10.

Notation SleepQueue := (list (option SleepEntry)).
Definition empty : SleepQueue := replicate MAX_SLEEPERS None.

Definition register_sleep_entry (t wake : Z) (q : SleepQueue) : bool * SleepQueue :=
  match find_slot (by_key tid t) q with
  | Some (i, _) => (true, <[i := Some (mkEntry t wake)]> q)
  | None =>
      match first_free q with
      | Some i => (true, <[i := Some (mkEntry t wake)]> q)
      | None => (false, q)
      end
  end.

(** The loop of [wake_due_sleepers]: the threads to wake, the queue without them.
    There are no more of them than slots, so the list never overflows. *)
Definition due (now : Z) (e : SleepEntry) : bool := wake_tick e <=? now.
Definition due_tids (now : Z) (q : SleepQueue) : list Z := tid <$> List.filter (due now) (live q).
Definition clear_due (now : Z) (q : SleepQueue) : SleepQueue :=
  (fun o => match o with Some e => if due now e then None else Some e | None => None end) <$> q.

Section clock.
Context {M : Type} `{!UserMemory M}.

Record TS := mkTS { kern : KS M; sleepers : SleepQueue; ticks : Z }.
Implicit Types s : TS.

Definition on_kern (f : KS M -> KS M) s : TS := mkTS (f (kern s)) (sleepers s) (ticks s).

Definition wake_due_sleepers (now : Z) s : TS :=
  mkTS (foldl (fun k t => on_ks (Scheduler.wake_thread t) k) (kern s) (due_tids now (sleepers s))) (clear_due now (sleepers s)) (ticks s).

Definition get_ticks s : Z := ticks s.

(** [timer_interrupt_handler]: [fetch_add] wraps, the tick passed on saturates. *)
Definition timer_interrupt_handler s : TS :=
  let now := saturating_add64 (ticks s) 1 in
  let s1 := wake_due_sleepers now (mkTS (kern s) (sleepers s) (wrapping_add64 (ticks s) 1)) in
  let k2 := wake_due_futex_waiters now (kern s1) in
  let '(should_schedule, ks3) := Scheduler.scheduler_tick (ks (ist k2)) in
  let k3 := set_ks ks3 k2 in
  mkTS (if should_schedule then on_ks Scheduler.schedule_and_switch k3 else k3) (sleepers s1) (ticks s1).

(** ** Clocks *)

Definition timespec_of (t : Z) : list Z := to_le_bytes 8 (t / 100) ++ to_le_bytes 8 (t mod 100 * 10000000).

Definition clock_gettime (clk_id ts_ptr : Z) s : Z * TS :=
  if ts_ptr =? 0 then (EINVAL, s)
  else if negb (validate_user_ptr (mem_of (kern s)) ts_ptr 16) then (EFAULT, s)
  else if (0 <=? clk_id) && (clk_id <=? 3) then
    match copy_to_user ts_ptr (timespec_of (get_ticks s)) (mem_of (kern s)) with
    | (Ok _, m) => (SUCCESS, on_kern (set_mem m) s)
    | (Err e, m) => (e, on_kern (set_mem m) s)
    end
  else (EINVAL, s).

(** ** Sleeping *)

(** [None]: the thread is queued and asleep, and enters the loop. *)
Definition sleep_until_start (target : Z) s : option Z * TS :=
  if target <=? get_ticks s then (Some SUCCESS, s)
  else
    match current_thread_id (kern s) with
    | None => (Some EINVAL, s)
    | Some me =>
        match register_sleep_entry me target (sleepers s) with
        | (false, q) => (Some EAGAIN, s)
        | (true, q) => (None, mkTS (on_ks (Scheduler.sleep_thread me) (kern s)) q (ticks s))
        end
    end.

(** One round of [while get_ticks() < ticks { yield_now() }] *)
Definition sleep_until_round (target : Z) s : option Z * TS :=
  if get_ticks s <? target then (None, on_kern (on_ks Scheduler.yield_now) s) else (Some SUCCESS, s).

Definition sleep_target (milliseconds now : Z) : Z :=
  let wait_ticks := match checked_add64 milliseconds (TICK_MS - 1) with Some v => v / TICK_MS | None => U64_MAX end in
  saturating_add64 now wait_ticks.

(** [sleep] drops the result of [sleep_until]. *)
Definition sleep_start (milliseconds : Z) s : option Z * TS :=
  if milliseconds =? 0 then (Some SUCCESS, on_kern (on_ks Scheduler.yield_now) s)
  else
    match sleep_until_start (sleep_target milliseconds (get_ticks s)) s with
    | (Some _, s') => (Some SUCCESS, s')
    | (None, s') => (None, s')
    end.

(** [(secs as u64) * 1000 + (nsecs as u64) / 1_000_000]; [None] is an overflow. *)
Definition total_ms (secs nsecs : Z) : option Z :=
  m ← checked_mul64 secs 1000;
  checked_add64 m (nsecs / 1000000).

(** The outer [None] is the overflow, the inner one a thread asleep. *)
Definition nanosleep_start (req_ptr : Z) s : option (option Z * TS) :=
  let m := mem_of (kern s) in
  if (req_ptr =? 0) || negb (validate_user_ptr m req_ptr 16) then Some (Some EINVAL, s)
  else
    match read_user_i64 m req_ptr with
    | Err e => Some (Some e, s)
    | Ok secs =>
        match read_user_i64 m (req_ptr + 8) with
        | Err e => Some (Some e, s)
        | Ok nsecs =>
            if (secs <? 0) || (nsecs <? 0) || (1000000000 <=? nsecs) then Some (Some EINVAL, s)
            else
              ms ← total_ms secs nsecs;
              Some (if 0 <? ms then sleep_start ms s else (Some SUCCESS, s))
        end
    end.

(** ** Who sleeps *)

Definition one_each (q : SleepQueue) : Prop := keys_unique tid q.
Definition sleeps_until (t wake : Z) (q : SleepQueue) : Prop := mkEntry t wake ∈ live q.
Definition state_of s (t : Z) : option Thread.ThreadState := Thread.state <$> Thread.get t (threads_of (kern s)).
Definition has s (t : Z) (th : Thread.Thread) : Prop := Scheduler.has_thread t th (ks (ist (kern s))).

Lemma live_clear_due now q : live (clear_due now q) = List.filter (fun e => negb (due now e)) (live q).
Proof.
  induction q as [|[e|] q IH]; [done| |]; cbn [clear_due fmap list_fmap]; rewrite !live_cons; [|exact IH].
  cbn. destruct (due now e); cbn; [exact IH|]. f_equal. exact IH.
Qed.

Lemma one_each_clear now q : one_each q -> one_each (clear_due now q).
Proof.
  unfold one_each, keys_unique. rewrite live_clear_due. induction (live q) as [|e l IH]; [done|]. cbn. rewrite NoDup_cons. intros [Hn Hd].
  destruct (due now e); cbn; [by apply IH|]. apply NoDup_cons. split; [|by apply IH]. intros (x & Hx & Hin)%list_elem_of_fmap.
  apply Hn, list_elem_of_fmap. exists x. split; [done|]. apply list_elem_of_In in Hin. apply filter_In in Hin as [Hin _]. by apply list_elem_of_In.
Qed.

Lemma due_tids_elem now q t : t ∈ due_tids now q <-> exists w, sleeps_until t w q /\ w <= now.
Proof.
  unfold due_tids, sleeps_until. rewrite list_elem_of_fmap. split.
  - intros (e & -> & He). apply list_elem_of_In, filter_In in He as [He Hd]. apply list_elem_of_In in He. exists (wake_tick e).
    split; [by destruct e|by apply Z.leb_le].
  - intros (w & He & Hw). exists (mkEntry t w). split; [done|]. apply list_elem_of_In, filter_In. split; [by apply list_elem_of_In|by apply Z.leb_le].
Qed.

Lemma sleeps_unique t w w' q : one_each q -> sleeps_until t w q -> sleeps_until t w' q -> w = w'.
Proof.
  intros Hu H1 H2. apply elem_of_live in H1 as [i Hi], H2 as [j Hj].
  assert (i = j) as <- by (by eapply (slot_unique tid)). congruence.
Qed.

Lemma sleeps_clear t w now q : sleeps_until t w q -> now < w -> sleeps_until t w (clear_due now q).
Proof.
  unfold sleeps_until. rewrite live_clear_due. intros H Hw. apply list_elem_of_In, filter_In. split; [by apply list_elem_of_In|].
  unfold due. cbn. by rewrite (proj2 (Z.leb_gt _ _)).
Qed.

Lemma register_spec t w q :
  one_each q ->
  let '(ok, q') := register_sleep_entry t w q in
  if ok then one_each q' /\ sleeps_until t w q' else q' = q /\ length (live q) = length q.
Proof.
  intros Hu. unfold register_sleep_entry. destruct (find_slot (by_key tid t) q) as [[i e]|] eqn:Ef.
  - apply (find_by_key_Some tid) in Ef as [Hi <-]. pose proof (lookup_lt_Some _ _ _ Hi). split.
    + assert (<[i := Some (mkEntry (tid e) w)]> q = alter_slot (fun x => mkEntry (tid x) w) i q) as ->.
      { unfold alter_slot. apply list_eq. intros j. destruct (decide (i = j)) as [<-|Hne].
        - rewrite list_lookup_insert_eq, list_lookup_alter_eq, Hi by done. done.
        - by rewrite list_lookup_insert_ne, list_lookup_alter_ne. }
      by apply (keys_unique_alter tid).
    + apply elem_of_live. exists i. by rewrite list_lookup_insert_eq.
  - destruct (first_free q) as [i|] eqn:Ei; [|split; [done|by apply first_free_full]].
    pose proof (first_free_Some _ _ Ei) as Hi. pose proof (first_free_lt _ _ Ei). split.
    + apply (keys_unique_fill tid); [done|done|]. rewrite <-(find_by_key tid) by done. cbn. by rewrite Ef.
    + apply elem_of_live. exists i. by rewrite list_lookup_insert_eq.
Qed.

(** ** What a timer interrupt does to a sleeping thread *)

Lemma on_ks_has (f : Scheduler.KState -> Scheduler.KState) (k : KS M) : ks (ist (on_ks f k)) = f (ks (ist k)).
Proof. done. Qed.

Lemma wake_others l t th (k : KS M) :
  t ∉ l -> Scheduler.has_thread t th (ks (ist k)) ->
  Scheduler.has_thread t th (ks (ist (foldl (fun k t => on_ks (Scheduler.wake_thread t) k) k l))).
Proof.
  revert k. induction l as [|u l IH]; intros k Hn Hh; [done|]. apply not_elem_of_cons in Hn as [Hne Hn]. cbn. apply IH; [done|].
  exact (Scheduler.update_has_other u t th Scheduler.wake _ Scheduler.wake_id Hne Hh).
Qed.

Lemma wake_included l t th (k : KS M) :
  (t ∈ l \/ Thread.state th = Thread.Ready) -> Thread.state th = Thread.Sleeping \/ Thread.state th = Thread.Ready ->
  Scheduler.has_thread t th (ks (ist k)) ->
  exists th', Scheduler.has_thread t th' (ks (ist (foldl (fun k t => on_ks (Scheduler.wake_thread t) k) k l))) /\ Thread.state th' = Thread.Ready.
Proof.
  revert th k. induction l as [|u l IH]; intros th k Hin Hst Hh.
  - exists th. split; [done|]. destruct Hin as [H|]; [by apply elem_of_nil in H|done].
  - cbn. destruct (decide (t = u)) as [->|Hne].
    + apply (IH (Scheduler.wake th)).
      * right. unfold Scheduler.wake. by destruct Hst as [E|E]; rewrite E.
      * right. unfold Scheduler.wake. by destruct Hst as [E|E]; rewrite E.
      * exact (Scheduler.update_has u th Scheduler.wake _ Scheduler.wake_id Hh).
    + apply (IH th); [|done|exact (Scheduler.update_has_other u t th Scheduler.wake _ Scheduler.wake_id Hne Hh)].
      destruct Hin as [[|]%elem_of_cons|]; [done|by left|by right].
Qed.

(** The thread waits on no futex. *)
Definition no_futex (t : Z) (k : KS M) : Prop := forall e, e ∈ live (futexes k) -> Futex.tid e <> t.

Lemma take_due_subset now (q : Futex.FutexQueue) :
  (forall x, x ∈ (Futex.take_due now q).1 -> exists e, e ∈ live q /\ Futex.tid e = x) /\
  (forall e, e ∈ live (Futex.take_due now q).2 -> e ∈ live q).
Proof.
  induction q as [|[e|] q [IH1 IH2]]; [split; intros x Hx; by apply elem_of_nil in Hx| |]; cbn [Futex.take_due]; destruct (Futex.take_due now q) as [l q']; cbn [fst snd] in *.
  - destruct (_ && _); cbn [fst snd]; rewrite ?live_cons; split.
    + intros x [->|Hx]%elem_of_cons; [exists e; split; [by left|done]|]. destruct (IH1 x Hx) as (e' & ? & ?). exists e'. split; [by right|done].
    + intros x Hx. right. by apply IH2.
    + intros x Hx. destruct (IH1 x Hx) as (e' & ? & ?). exists e'. split; [by right|done].
    + intros x [->|Hx]%elem_of_cons; [by left|right; by apply IH2].
  - by split.
Qed.

Lemma wake_all_others b l t th (k : KS M) :
  t ∉ l -> Scheduler.has_thread t th (ks (ist k)) ->
  Scheduler.has_thread t th (ks (ist (wake_all b l k))) /\ futexes (wake_all b l k) = futexes k.
Proof.
  unfold wake_all. revert k. induction l as [|u l IH]; intros k Hn Hh; [done|]. apply not_elem_of_cons in Hn as [Hne Hn]. cbn.
  destruct (IH (on_ks (Scheduler.wake_thread u) (on_ks (Scheduler.update u (Thread.set_futex_timed_out b)) k))) as [H1 H2]; [done| |by split].
  apply Scheduler.update_has_other; [apply Scheduler.wake_id|done|]. by apply Scheduler.update_has_other.
Qed.

Lemma futex_tick_others now t th (k : KS M) :
  no_futex t k -> Scheduler.has_thread t th (ks (ist k)) ->
  Scheduler.has_thread t th (ks (ist (wake_due_futex_waiters now k))) /\ no_futex t (wake_due_futex_waiters now k).
Proof.
  intros Hn Hh. unfold wake_due_futex_waiters. destruct (take_due_subset now (futexes k)) as [H1 H2].
  destruct (Futex.take_due now (futexes k)) as [l q]. cbn in H1, H2.
  destruct (wake_all_others true l t th (set_futexes q k)) as [H3 H4]; [|done|].
  - intros Hin. destruct (H1 t Hin) as (e & He & Ht). by apply (Hn e).
  - split; [done|]. intros e He. unfold no_futex in Hn. rewrite H4 in He. apply Hn, H2, He.
Qed.

Lemma tick_queue k : Scheduler.queue (Scheduler.scheduler_tick k).2 = Scheduler.queue k.
Proof. unfold Scheduler.scheduler_tick. destruct (match Scheduler.current k with Some _ => _ | None => _ end); [done|]. by destruct (Scheduler.tick _). Qed.

Record asleep (t target : Z) s : Prop := {
  as_thread : exists th, has s t th /\ Thread.state th = Thread.Sleeping;
  as_queue : one_each (sleepers s);
  as_entry : sleeps_until t target (sleepers s);
  as_futex : no_futex t (kern s);
  as_ticks : 0 <= ticks s < target;
}.

Lemma tick_before t target s : asleep t target s -> target <= U64_MAX -> ticks s + 1 < target -> asleep t target (timer_interrupt_handler s).
Proof.
  intros [(th & Hh & Hs) Hu He Hf Ht] Hm Hlt. unfold timer_interrupt_handler.
  assert (saturating_add64 (ticks s) 1 = ticks s + 1 /\ wrapping_add64 (ticks s) 1 = ticks s + 1) as [-> ->].
  { unfold saturating_add64, wrapping_add64, wrap64, U64_MAX, U64_MODULUS in *. rewrite Z.mod_small by lia. lia. }
  assert (t ∉ due_tids (ticks s + 1) (sleepers s)) as Hn.
  { intros (w & Hw & Hle)%due_tids_elem. pose proof (sleeps_unique t w target _ Hu Hw He). lia. }
  cbn [wake_due_sleepers kern sleepers ticks]. pose proof (wake_others _ t th (kern s) Hn Hh) as Hh1.
  set (k1 := foldl _ (kern s) _) in *.
  assert (no_futex t k1) as Hf1.
  { unfold k1. clear -Hf. induction (due_tids _ _) as [|u l IH] in s, Hf |- *; [done|]. cbn. by apply (IH (on_kern (on_ks (Scheduler.wake_thread u)) s)). }
  destruct (futex_tick_others (ticks s + 1) t th k1 Hf1 Hh1) as [Hh2 Hf2]. set (k2 := wake_due_futex_waiters _ k1) in *.
  pose proof (tick_queue (ks (ist k2))) as Htq. destruct (Scheduler.scheduler_tick (ks (ist k2))) as [b ks3]. cbn in Htq.
  assert (Scheduler.has_thread t th ks3) as Hh3 by (unfold Scheduler.has_thread; by rewrite Htq).
  split; cbn; [|by apply one_each_clear|by apply sleeps_clear|by destruct b|lia].
  exists th. split; [|done]. unfold has. destruct b; cbn; [|done]. apply Scheduler.preempt_keeps; [done|congruence|congruence].
Qed.

Definition up s (t : Z) : Prop := state_of s t = Some Thread.Ready \/ state_of s t = Some Thread.Running.

Lemma tick_due t target s :
  asleep t target s -> target <= U64_MAX -> ticks s + 1 = target ->
  up (timer_interrupt_handler s) t /\ ticks (timer_interrupt_handler s) = target.
Proof.
  intros [(th & Hh & Hs) Hu He Hf Ht] Hm Heq. unfold timer_interrupt_handler.
  assert (saturating_add64 (ticks s) 1 = target /\ wrapping_add64 (ticks s) 1 = target) as [-> ->].
  { unfold saturating_add64, wrapping_add64, wrap64, U64_MAX, U64_MODULUS in *. rewrite Z.mod_small by lia. lia. }
  assert (t ∈ due_tids target (sleepers s)) as Hn by (apply due_tids_elem; exists target; split; [done|lia]).
  cbn [wake_due_sleepers kern sleepers ticks]. destruct (wake_included _ t th (kern s) (or_introl Hn) (or_introl Hs) Hh) as (th1 & Hh1 & Hs1).
  set (k1 := foldl _ (kern s) _) in *.
  assert (no_futex t k1) as Hf1.
  { unfold k1. clear -Hf. induction (due_tids _ _) as [|u l IH] in s, Hf |- *; [done|]. cbn. by apply (IH (on_kern (on_ks (Scheduler.wake_thread u)) s)). }
  destruct (futex_tick_others target t th1 k1 Hf1 Hh1) as [Hh2 _]. set (k2 := wake_due_futex_waiters _ k1) in *.
  pose proof (tick_queue (ks (ist k2))) as Htq. destruct (Scheduler.scheduler_tick (ks (ist k2))) as [b ks3]. cbn in Htq.
  assert (Scheduler.has_thread t th1 ks3) as Hh3 by (unfold Scheduler.has_thread; by rewrite Htq).
  split; [|done]. unfold up, state_of, threads_of. destruct b; cbn.
  - destruct (Scheduler.preempt_ready ks3 t th1 Hh3 Hs1) as (th2 & [_ ->] & Hst). cbn. by destruct Hst as [-> | ->]; [left|right].
  - destruct Hh3 as [_ ->]. cbn. left. by rewrite Hs1.
Qed.

Lemma ticks_before n t target s :
  asleep t target s -> target <= U64_MAX -> ticks s + Z.of_nat n < target ->
  asleep t target (Nat.iter n timer_interrupt_handler s) /\ ticks (Nat.iter n timer_interrupt_handler s) = ticks s + Z.of_nat n.
Proof.
  intros Ha Hm. induction n as [|n IH]; intros Hn; [cbn; rewrite Z.add_0_r; done|]. destruct IH as [Ha' Ht']; [lia|].
  change (Nat.iter (S n) timer_interrupt_handler s) with (timer_interrupt_handler (Nat.iter n timer_interrupt_handler s)).
  split; [apply tick_before; [done|done|lia]|]. unfold timer_interrupt_handler at 1. cbn. destruct (Scheduler.scheduler_tick _). cbn.
  unfold wrapping_add64, wrap64. rewrite Z.mod_small; [lia|]. unfold U64_MAX, U64_MODULUS in *. pose proof (as_ticks _ _ _ Ha). lia.
Qed.

Lemma start_asleep me target th s s1 :
  current_thread_id (kern s) = Some me -> has s me th -> one_each (sleepers s) -> no_futex me (kern s) -> 0 <= ticks s ->
  sleep_until_start target s = (None, s1) -> asleep me target s1 /\ ticks s1 = ticks s.
Proof.
  intros Hc Hh Hu Hf H0. unfold sleep_until_start, get_ticks. destruct (Z.leb_spec target (ticks s)); [done|]. rewrite Hc.
  pose proof (register_spec me target (sleepers s) Hu) as Hr. destruct (register_sleep_entry me target (sleepers s)) as [[] q]; [|done].
  destruct Hr as [Hu' He]. intros [= <-]. split; [|done]. split; cbn; [|done|done|done|lia].
  exists (Thread.set_state Thread.Sleeping th). split; [|done]. exact (Scheduler.update_has me th (Thread.set_state Thread.Sleeping) _ ltac:(done) Hh).
Qed.


(** The sleep queue has a place for every thread that can exist: registering is
    refused only when 64 entries are there, none of them the caller's, and a caller
    that already has an entry replaces it. *)
Theorem sleep_registration_exact t w q :
  one_each q ->
  let '(ok, q') := register_sleep_entry t w q in
  (ok = false <-> length (live q) = length q /\ forall w', ~ sleeps_until t w' q) /\
  (ok = true -> one_each q' /\ sleeps_until t w q' /\
     forall u v, u <> t -> sleeps_until u v q' <-> sleeps_until u v q).
Proof.
  intros Hu. pose proof (register_spec t w q Hu) as Hr. unfold register_sleep_entry in *.
  destruct (find_slot (by_key tid t) q) as [[i e]|] eqn:Ef; [|destruct (first_free q) as [i|] eqn:Ei].
  - apply (find_by_key_Some tid) in Ef as [Hi Ht]. split; [|].
    + split; [done|]. intros [_ Hn]. destruct (Hn (wake_tick e)). apply elem_of_live. exists i. rewrite Hi. by destruct e; cbn in Ht; subst.
    + intros _. destruct Hr as [Hu' Hs]. split; [done|]. split; [done|]. intros u v Hne. unfold sleeps_until. rewrite !elem_of_live.
      pose proof (lookup_lt_Some _ _ _ Hi). split; intros [j Hj].
      * destruct (decide (i = j)) as [<-|Hij]; [rewrite list_lookup_insert_eq in Hj by done; congruence|]. rewrite list_lookup_insert_ne in Hj by done. eauto.
      * exists j. destruct (decide (i = j)) as [<-|Hij]; [rewrite Hi in Hj; injection Hj as ->; done|]. by rewrite list_lookup_insert_ne.
  - pose proof (first_free_Some _ _ Ei) as Hi. pose proof (first_free_lt _ _ Ei) as Hlt. split; [|].
    + split; [done|]. intros [Hl _]. exfalso. pose proof (live_length_fill q i (mkEntry t w) Hi). pose proof (live_length_le (<[i := Some (mkEntry t w)]> q)).
      rewrite length_insert in *. lia.
    + intros _. destruct Hr as [Hu' Hs]. split; [done|]. split; [done|]. intros u v Hne. unfold sleeps_until. rewrite !elem_of_live. split; intros [j Hj].
      * destruct (decide (i = j)) as [<-|Hij]; [rewrite list_lookup_insert_eq in Hj by done; congruence|]. rewrite list_lookup_insert_ne in Hj by done. eauto.
      * exists j. destruct (decide (i = j)) as [<-|Hij]; [congruence|]. by rewrite list_lookup_insert_ne.
  - destruct Hr as [_ Hl]. split; [|done]. split; [|done]. intros _. split; [done|]. intros w' [j Hj]%elem_of_live.
    pose proof (find_by_key_intro tid q j _ Hu Hj) as Hf. cbn in Hf. by rewrite Hf in Ef.
Qed.

(** [nanosleep] overflows for large times: for a valid request the kernel's sum
    leaves 64 bits exactly when the time in milliseconds is 2^64 or more. *)
Theorem nanosleep_overflow_exact req_ptr secs nsecs s :
  req_ptr <> 0 -> validate_user_ptr (mem_of (kern s)) req_ptr 16 = true ->
  read_user_i64 (mem_of (kern s)) req_ptr = Ok secs -> read_user_i64 (mem_of (kern s)) (req_ptr + 8) = Ok nsecs ->
  0 <= secs -> 0 <= nsecs < 1000000000 ->
  nanosleep_start req_ptr s = None <-> 18446744073709551616 <= secs * 1000 + nsecs / 1000000.
Proof.
  intros Hp Hv Hr1 Hr2 Hs Hn. unfold nanosleep_start. rewrite (proj2 (Z.eqb_neq _ _) Hp), Hv, Hr1, Hr2. cbn [orb negb].
  rewrite (proj2 (Z.ltb_ge secs 0)), (proj2 (Z.ltb_ge nsecs 0)), (proj2 (Z.leb_gt 1000000000 nsecs)) by lia. cbn [orb].
  unfold total_ms, checked_mul64, checked_add64, U64_MODULUS. pose proof (Z.div_pos nsecs 1000000 ltac:(lia) ltac:(lia)).
  destruct (Z.ltb_spec (secs * 1000) 18446744073709551616); cbn; [|split; [lia|done]].
  destruct (Z.ltb_spec (secs * 1000 + nsecs / 1000000) 18446744073709551616); cbn; [|done]. split; [done|lia].
Qed.
End clock.
Arguments TS : clear implicits.

(** ** Two threads and an empty queue *)

Definition demo_kernel (m : Z -> Z) : KS (Z -> Z) :=
  mkKS (mkI Scheduler.demo_threads (replicate Thread.MAX_THREADS Ipc.new) m) Process.Table_new Futex.empty KStack.boot.
Definition demo (m : Z -> Z) : TS (Z -> Z) := mkTS (demo_kernel m) empty 7.

Lemma empty_one_each : one_each empty.
Proof. apply (bool_decide_unpack _). vm_compute. exact I. Qed.

Lemma demo_no_futex m t : no_futex t (kern (demo m)).
Proof. intros e He. change (live (futexes (kern (demo m)))) with (@nil Futex.FutexWaitEntry) in He. by apply elem_of_nil in He. Qed.


Lemma sleep_registration_exact_witness : one_each (register_sleep_entry 3 50 empty).2.
Proof.
  pose proof (sleep_registration_exact 3 50 empty empty_one_each) as H. destruct (register_sleep_entry 3 50 empty) as [ok q] eqn:E.
  vm_compute in E. injection E as <- <-. destruct H as [_ H]. destruct (H eq_refl) as [H1 _]. exact H1.
Defined.

Lemma nanosleep_overflow_exact_witness :
  nanosleep_start 4096 (demo (flat_store (fun _ => 0) 4096 (to_le_bytes 8 20000000000000000 ++ to_le_bytes 8 0))) = None.
Proof.
  apply (nanosleep_overflow_exact 4096 20000000000000000 0 (demo (flat_store (fun _ => 0) 4096 (to_le_bytes 8 20000000000000000 ++ to_le_bytes 8 0)))).
  - discriminate.
  - reflexivity.
  - vm_compute. reflexivity.
  - vm_compute. reflexivity.
  - lia.
  - lia.
  - vm_compute. discriminate.
Defined.
End Sleep.
