(* ===== verification/Pgroup.v ===== *)
(** Process groups, terminal control and readiness: [src/core/syscall/pgroup.rs] and
    the getters of [src/core/syscall/process.rs].

    The state joins the kernel ([Kernel]), the console ([Tty]) and the descriptor
    tables ([FdSyscalls]).  A call that waits takes, for each round of its loop, the
    scan codes that arrive in it; [None] as a result is a call that still waits when
    they end, and [None] as an outcome a descriptor that points nowhere. *)

From Stdlib Require Import ZArith Lia.
From stdpp Require Import base list option numbers gmap strings.
From S2P Require Import Prelude State Types UserMem Slots Table Queue Fifo Thread KStack Scheduler Process Ipc IpcSyscalls Futex Kernel.
From S2P Require Import FdTable FdSyscalls Bytes Ext2 Paths Input Tty.

Local Open Scope Z_scope.

Module Pgroup.
Import Bytes.

Definition POLLIN : Z := 1.
Definition POLLOUT : Z := 4.
Definition POLLRDNORM : Z := 64.
Definition POLLWRNORM : Z := 256.

Section pgroup.
Context {Q Qk Qm : Type} `{!BoundedQueue Q Z, !BoundedQueue Qk Z, !BoundedQueue Qm Z}.
Context {M : Type} `{!UserMemory M}.

Record PS := mkPS { kst : Kernel.KS M; con : @Tty.Console Q Qk Qm; fds : Fs.World }.

Definition P (A : Type) : Type := ST PS A.

Definition mem_of (s : PS) : M := Kernel.mem_of (kst s).
Definition set_mem (m : M) (s : PS) : PS := mkPS (Kernel.set_mem m (kst s)) (con s) (fds s).
Definition set_con (c : Tty.Console) (s : PS) : PS := mkPS (kst s) c (fds s).
Definition current_pid (s : PS) : option Z := Kernel.current_pid (kst s).
Definition process (pid : Z) (s : PS) : option Process.Process := Process.get pid (Kernel.procs (kst s)).

Definition reads {A} (f : M -> A) : P A := fun s => Some (f (mem_of s), s).
Definition writes {A} (f : M -> A * M) : P A := fun s => let '(a, m) := f (mem_of s) in Some (a, set_mem m s).
Definition on_con {A} (f : Tty.Console -> A * Tty.Console) : P A := fun s =>
  let '(a, c) := f (con s) in Some (a, set_con c s).

Definition as_i32 (v : Z) : Z := if v <? 2147483648 then v else v - 4294967296.
(** [fd as i32] of a [u64] *)
Definition to_i32 (v : Z) : Z := as_i32 (v mod 4294967296).

(** ** Readiness *)

Definition stdin_ready : P bool := on_con Tty.has_pending_input.

Definition is_tty_fd (fd : Z) : P bool := fun s =>
  if fd <? 0 then Some (false, s)
  else if fd <=? 2 then Some (true, s)
  else if fd <? Z.of_nat FdTable.FD_BASE then Some (false, s)
  else
    match current_pid s with
    | None => Some (false, s)
    | Some pid =>
        match Fs.with_fd_table pid (FdTable.get (Z.to_nat fd)) (fds s) with
        | None => None
        | Some (Some (Some fh), _) => Some (Fs.is_tty_like_path (default ""%string (FdTable.dir_path fh)), s)
        | Some (_, _) => Some (false, s)
        end
    end.

Definition stdin_ready_for_fd (fd : Z) : P bool := b ← is_tty_fd fd; if (b : bool) then stdin_ready else mret false.
Definition stdout_ready (fd : Z) : P bool := is_tty_fd fd.

(** The scan codes of a round arrive. *)
Definition arrive (scs : list Z) : P unit := smodify (fun s =>
  set_con (Tty.mkConsole (Tty.tty (con s)) (Tty.input (con s)) (foldl (fun d sc => Input.enqueue_scancode sc d) (Tty.dev (con s)) scs)) s).

(** [loop { if ready() { return true } yield_now() }] *)
Fixpoint wait_forever (ready : P bool) (rounds : list (list Z)) : P (option bool) :=
  r ← ready;
  if (r : bool) then mret (Some true)
  else match rounds with
       | [] => mret None
       | scs :: rounds => arrive scs ≫= fun _ => wait_forever ready rounds
       end.

(** [while timeout_ms > 0 { sleep(1); if ready() { return true } timeout_ms -= 1 }] *)
Fixpoint wait_rounds (ready : P bool) (timeout_ms : Z) (rounds : list (list Z)) : P (option bool) :=
  if timeout_ms <=? 0 then mret (Some false)
  else match rounds with
       | [] => mret None
       | scs :: rounds =>
           arrive scs ≫= fun _ =>
           r ← ready;
           if (r : bool) then mret (Some true) else wait_rounds ready (timeout_ms - 1) rounds
       end.

Definition wait_until_ready_or_timeout (timeout_ms : Z) (ready : P bool) (rounds : list (list Z)) : P (option bool) :=
  r ← ready;
  if (r : bool) then mret (Some true)
  else if timeout_ms =? 0 then mret (Some false)
  else if timeout_ms <? 0 then wait_forever ready rounds
  else wait_rounds ready timeout_ms rounds.

(** ** poll *)

Definition read_user_i32 (m : M) (ptr : Z) : result Z Z :=
  match read_user_u32 m ptr with Ok v => Ok (as_i32 v) | Err e => Err e end.

Definition wants (events mask : Z) : bool := negb (Z.land events mask =? 0).

Definition poll_revents (fd events : Z) : P Z :=
  if fd <? 0 then mret 0
  else
    i ← (if wants events (Z.lor POLLIN POLLRDNORM) then stdin_ready_for_fd fd else mret false);
    o ← (if wants events (Z.lor POLLOUT POLLWRNORM) then stdout_ready fd else mret false);
    mret (Z.lor (if (i : bool) then POLLIN else 0) (if (o : bool) then POLLOUT else 0)).

(** One entry; [true] when it is ready. *)
Definition poll_one (base : Z) : P bool :=
  rf ← reads (fun m => read_user_i32 m base);
  match rf with
  | Err _ => mret false
  | Ok fd =>
      re ← reads (fun m => read_user_u16 m (base + 4));
      match re with
      | Err _ => mret false
      | Ok events =>
          revents ← poll_revents fd events;
          rw ← writes (write_user_u16 (base + 6) revents);
          mret (is_ok rw && negb (revents =? 0))
      end
  end.

Fixpoint count_ready {A} (f : A -> P bool) (l : list A) : P Z :=
  match l with
  | [] => mret 0
  | x :: l => b ← f x; n ← count_ready f l; mret ((if (b : bool) then 1 else 0) + n)
  end.

Definition poll_entries (fds_ptr nfds : Z) : list Z := (fun i => fds_ptr + i * 8) <$> seqZ 0 nfds.
Definition poll_eval (fds_ptr nfds : Z) : P Z := count_ready poll_one (poll_entries fds_ptr nfds).

Definition poll (fds_ptr nfds timeout_arg : Z) (rounds : list (list Z)) : P (option Z) :=
  if nfds =? 0 then mret (Some 0)
  else
    match checked_mul64 nfds 8 with
    | None => mret (Some EINVAL)
    | Some total =>
        ok ← reads (fun m => negb (fds_ptr =? 0) && validate_user_ptr m fds_ptr total);
        if negb ok then mret (Some EFAULT)
        else
          initial ← poll_eval fds_ptr nfds;
          if 0 <? initial then mret (Some initial)
          else
            woke ← wait_until_ready_or_timeout (as_i64 timeout_arg) (n ← poll_eval fds_ptr nfds; mret (0 <? n)) rounds;
            match woke with
            | None => mret None
            | Some false => mret (Some 0)
            | Some true => n ← poll_eval fds_ptr nfds; mret (Some n)
            end
    end.

(** A [timespec] as seconds and nanoseconds *)
Definition read_timespec (ptr : Z) (m : M) : result (Z * Z) Z :=
  if negb (validate_user_ptr m ptr 16) then Err EFAULT
  else match read_user_i64 m ptr with
       | Err e => Err e
       | Ok sec =>
           match read_user_i64 m (ptr + 8) with
           | Err e => Err e
           | Ok nsec => if (sec <? 0) || (nsec <? 0) || (1000000000 <=? nsec) then Err EINVAL else Ok (sec, nsec)
           end
       end.

Definition ppoll (fds_ptr nfds timeout_ptr : Z) (rounds : list (list Z)) : P (option Z) :=
  if timeout_ptr =? 0 then poll fds_ptr nfds U64_MAX rounds
  else
    ts ← reads (read_timespec timeout_ptr);
    match ts with
    | Err e => mret (Some e)
    | Ok (sec, nsec) => poll fds_ptr nfds (saturating_add64 (saturating_mul64 sec 1000) (nsec / 1000000)) rounds
    end.

(** ** select *)

Definition fdset_len_bytes (nfds : Z) : option Z :=
  w ← checked_add64 nfds 63;
  checked_mul64 (w / 64) 8.

Definition fdset_test (ptr : Z) (m : M) (fd : Z) : bool :=
  match checked_add64 ptr (fd / 64 * 8) with
  | None => false
  | Some addr => match read_user_u64 m addr with Ok w => negb (Z.land w (Z.shiftl 1 (fd mod 64)) =? 0) | Err _ => false end
  end.

(** Chunks of at most 64 zeroes; [k] rounds are enough for [k] bytes. *)
Fixpoint fdset_clear (k : nat) (ptr written len : Z) : P (result unit Z) :=
  match k with
  | O => mret (Ok tt)
  | S k =>
      if len <=? written then mret (Ok tt)
      else
        let chunk := Z.min (len - written) 64 in
        r ← writes (copy_to_user (ptr + written) (replicate (Z.to_nat chunk) 0));
        match r with
        | Err e => mret (Err e)
        | Ok _ => fdset_clear k ptr (written + chunk) len
        end
  end.
Definition fdset_clear_all (ptr len : Z) : P (result unit Z) := fdset_clear (Z.to_nat len) ptr 0 len.

Definition fdset_set (ptr fd : Z) : P (result unit Z) :=
  match checked_add64 ptr (fd / 64 * 8) with
  | None => mret (Err EFAULT)
  | Some addr =>
      r ← reads (fun m => read_user_u64 m addr);
      match r with
      | Err e => mret (Err e)
      | Ok v => writes (write_user_u64 addr (Z.lor v (Z.shiftl 1 (fd mod 64))))
      end
  end.

Fixpoint filter_ready (f : Z -> P bool) (l : list Z) : P (list Z) :=
  match l with
  | [] => mret []
  | x :: l => b ← f x; r ← filter_ready f l; mret (if (b : bool) then x :: r else r)
  end.

(** One set: the ready descriptors of [interest] are marked and counted; [None] when
    the set cannot be cleared. *)
Definition select_eval_set (ptr set_len : Z) (ready : Z -> P bool) (interest : list Z) : P (option Z) :=
  if ptr =? 0 then mret (Some 0)
  else
    ready_fds ← filter_ready (fun fd => ready (to_i32 fd)) interest;
    c ← fdset_clear_all ptr set_len;
    match c with
    | Err _ => mret None
    | Ok _ => n ← count_ready (fun fd => r ← fdset_set ptr fd; mret (is_ok r)) ready_fds; mret (Some n)
    end.

Definition select_eval (readfds_ptr writefds_ptr set_len : Z) (read_interest write_interest : list Z) : P Z :=
  a ← select_eval_set readfds_ptr set_len stdin_ready_for_fd read_interest;
  match a with
  | None => mret 0
  | Some a =>
      b ← select_eval_set writefds_ptr set_len stdout_ready write_interest;
      match b with
      | None => mret 0
      | Some b => mret (a + b)
      end
  end.

Definition interest_of (ptr nfds : Z) (m : M) : list Z :=
  if ptr =? 0 then [] else List.filter (fdset_test ptr m) (seqZ 0 nfds).

(** [i64::saturating_mul] and [saturating_add] of values that are not negative *)
Definition select_timeout (sec nsec : Z) : Z :=
  let i64_max := 9223372036854775807 in Z.min (Z.min (sec * 1000) i64_max + nsec / 1000000) i64_max.

Definition pselect6 (nfds readfds_ptr writefds_ptr timeout_ptr : Z) (rounds : list (list Z)) : P (option Z) :=
  ts ← (if timeout_ptr =? 0 then mret (Ok (-1)) else
        r ← reads (read_timespec timeout_ptr);
        mret (match r with Ok (sec, nsec) => Ok (select_timeout sec nsec) | Err e => Err e end));
  match ts with
  | Err e => mret (Some e)
  | Ok timeout_ms =>
      match fdset_len_bytes nfds with
      | None => mret (Some EINVAL)
      | Some set_len =>
          bad ← reads (fun m => (negb (readfds_ptr =? 0) && negb (validate_user_ptr m readfds_ptr set_len)) ||
                                (negb (writefds_ptr =? 0) && negb (validate_user_ptr m writefds_ptr set_len)));
          if (bad : bool) then mret (Some EFAULT)
          else
            ri ← reads (interest_of readfds_ptr nfds);
            wi ← reads (interest_of writefds_ptr nfds);
            let eval := select_eval readfds_ptr writefds_ptr set_len ri wi in
            initial ← eval;
            if 0 <? initial then mret (Some initial)
            else
              woke ← wait_until_ready_or_timeout timeout_ms (n ← eval; mret (0 <? n)) rounds;
              match woke with
              | None => mret None
              | Some true => n ← eval; mret (Some n)
              | Some false =>
                  (if readfds_ptr =? 0 then mret (Ok tt) else fdset_clear_all readfds_ptr set_len) ≫= fun _ =>
                  (if writefds_ptr =? 0 then mret (Ok tt) else fdset_clear_all writefds_ptr set_len) ≫= fun _ => mret (Some 0)
              end
      end
  end.

(** ** Groups and sessions *)

Definition getppid (s : PS) : Z :=
  match current_pid s with
  | None => 0
  | Some pid => match process pid s with Some p => default 1 (Process.parent_id p) | None => 1 end
  end.

Definition target_or_self (pid_arg : Z) (s : PS) : option Z := if pid_arg =? 0 then current_pid s else Some pid_arg.

Definition getpgid (pid_arg : Z) (s : PS) : Z :=
  match target_or_self pid_arg s with
  | None => ESRCH
  | Some pid => match process pid s with Some p => Process.pgid p | None => ESRCH end
  end.

Definition getsid (pid_arg : Z) (s : PS) : Z :=
  match target_or_self pid_arg s with
  | None => ESRCH
  | Some pid => match process pid s with Some p => Process.sid p | None => ESRCH end
  end.

Definition set_procs (t : Process.ProcessTable) (s : PS) : PS := mkPS (Kernel.set_procs t (kst s)) (con s) (fds s).

Definition setpgid (pid_arg pgid_arg : Z) (s : PS) : Z * PS :=
  match current_pid s with
  | None => (ESRCH, s)
  | Some caller =>
      let target := if pid_arg =? 0 then caller else pid_arg in
      let is_child := if negb (target =? caller)
        then match process target s with Some p => bool_decide (Process.parent_id p = Some caller) | None => false end
        else true in
      if negb is_child then (EPERM, s)
      else
        let new_pgid := if pgid_arg =? 0 then target else pgid_arg in
        match Process.with_process_mut target (fun p => (tt, Process.set_pgid new_pgid p)) (Kernel.procs (kst s)) with
        | (Some _, t) => (SUCCESS, set_procs t s)
        | (None, _) => (ESRCH, s)
        end
  end.

Definition setsid (s : PS) : Z * PS :=
  match current_pid s with
  | None => (ESRCH, s)
  | Some pid =>
      match Process.with_process_mut pid (fun p => (pid, Process.set_sid pid (Process.set_pgid pid p))) (Kernel.procs (kst s)) with
      | (Some v, t) => (v, set_procs t s)
      | (None, _) => (ESRCH, s)
      end
  end.

(** ** ioctl *)

Definition TIOCGPGRP : Z := 21519.
Definition TIOCSPGRP : Z := 21520.
Definition TIOCGWINSZ : Z := 21523.
Definition TIOCSWINSZ : Z := 21524.
Definition FIONREAD : Z := 21531.
Definition TCGETS : Z := 21505.
Definition TCGETA : Z := 21509.
Definition TCGETS2 : Z := 2150388778.
Definition XCGETA : Z := 30721.
(** TCSETS, TCSETSW, TCSETSF, TCSETA, TCSETAW, TCSETAF, TCSETS2, TCSETSW2, TCSETSF2, XCSETA, XCSETAW, XCSETAF *)
Definition SETTERS : list Z :=
  [21506; 21507; 21508; 21510; 21511; 21512; 1076646955; 1076646956; 1076646957; 30722; 30723; 30724].

Definition status (r : result unit Z * M) (s : PS) : Z * PS :=
  let '(v, m) := Tty.status_of r in (v, set_mem m s).

Definition ioctl (request arg : Z) (s : PS) : Z * PS :=
  let m := mem_of s in
  let bad := (arg =? 0) || negb (validate_user_ptr m arg 4) in
  let show (r : Z * M) := (r.1, set_mem r.2 s) in
  if request =? TIOCGPGRP then
    if bad then (EINVAL, s)
    else match current_pid s with
         | None => (EINVAL, s)
         | Some pid =>
             status (write_user_u32 arg (match process pid s with Some p => Process.pgid p | None => 1 end mod 4294967296) m) s
         end
  else if (request =? TIOCSPGRP) || (request =? TIOCSWINSZ) then (ENOTSUP, s)
  else if request =? TIOCGWINSZ then show (Tty.get_winsize arg (con s) m)
  else if (request =? TCGETS) || (request =? TCGETS2) then show (Tty.tcgets arg (con s) m)
  else if (request =? XCGETA) || (request =? TCGETA) then show (Tty.tcgeta arg (con s) m)
  else if bool_decide (request ∈ SETTERS) then (ENOTSUP, s)
  else if request =? FIONREAD then
    if bad then (EINVAL, s)
    else let '(n, c) := Tty.pending_input_len (con s) in status (write_user_u32 arg n m) (set_con c s)
  else (EINVAL, s).

(** ** Small calls *)

(** [Panic] is kept apart: the readers of the images never panic. *)
Definition access (rootfs initfs : bytes) (path_ptr : Z) (s : PS) : Z :=
  if path_ptr =? 0 then EINVAL
  else match Paths.read_user_cstring (mem_of s) path_ptr 1024 with
       | Err e => e
       | Ok path => match Ext2.file_metadata rootfs initfs path with Ext2.Val _ => SUCCESS | _ => ENOENT end
       end.

Definition getuid : Z := 0.

Definition FIELD_LEN : nat := 65.
Definition UTSNAME_FIELDS : list bytes :=
  [[109; 111; 99; 104; 105; 79; 83]; [109; 111; 99; 104; 105]; [48; 46; 49; 46; 48];
   [109; 111; 99; 104; 105; 79; 83; 32; 48; 46; 49; 46; 48]; [120; 56; 54; 95; 54; 52]; []].
(** A field is cut to 64 bytes and padded with zeroes. *)
Definition uts_field (f : bytes) : bytes := let b := take (FIELD_LEN - 1) f in b ++ replicate (FIELD_LEN - length b) 0.

Definition uname (buf_ptr : Z) (s : PS) : Z * PS :=
  if (buf_ptr =? 0) || negb (validate_user_ptr (mem_of s) buf_ptr 390) then (EINVAL, s)
  else status (copy_to_user buf_ptr (mjoin (uts_field <$> UTSNAME_FIELDS)) (mem_of s)) s.

Definition getrlimit (rlim_ptr : Z) (s : PS) : Z * PS :=
  if (rlim_ptr =? 0) || negb (validate_user_ptr (mem_of s) rlim_ptr 16) then (EINVAL, s)
  else status (copy_to_user rlim_ptr (to_le_bytes 8 U64_MAX ++ to_le_bytes 8 U64_MAX) (mem_of s)) s.

Definition prlimit64 (old_limit : Z) (s : PS) : Z * PS := if negb (old_limit =? 0) then getrlimit old_limit s else (SUCCESS, s).

Definition set_tid_address (s : PS) : Z := default 1 (Kernel.current_thread_id (kst s)).
End pgroup.
End Pgroup.
