(* ===== verification/PgroupProps.v ===== *)
(** What the calls of [Pgroup] guarantee: [poll] and [pselect6] mark exactly the ready
    descriptors, a process changes only its own group and its children's, and how long
    a time limit really lasts. *)

From Stdlib Require Import ZArith Lia.
From stdpp Require Import base list option numbers gmap strings.
From S2P Require Import Prelude State Types UserMem Slots Table Queue Fifo Thread KStack Scheduler Process Ipc IpcSyscalls Futex Kernel.
From S2P Require Import FdTable FdSyscalls Bytes Ext2 Signal SigSyscalls SignalProps Paths Input Tty TtyProps Sleep Pgroup.
Import Pgroup.

Local Open Scope Z_scope.

Module PgroupProps.

Section props.
Context {Q Qk Qm : Type} `{!BoundedQueue Q Z, !BoundedQueue Qk Z, !BoundedQueue Qm Z}.
Context {M : Type} `{!UserMemory M, !PlainMemory M}.
Context (input_room : (0 < bq_capacity (Q := Q))%nat).

Notation PS := (@PS Q Qk Qm M).
Notation Console := (@Tty.Console Q Qk Qm).
Implicit Types s : PS.

(** ** Input that is there *)

Definition pend (c : Console) : bool := negb (bool_decide (TtyProps.stream [] c = [])).

Lemma has_pending_spec (c : Console) :
  TtyProps.console_ok c ->
  exists c', Tty.has_pending_input c = (pend c, c') /\ TtyProps.console_ok c' /\ pend c' = pend c.
Proof.
  intros Hok. destruct (TtyProps.feed_all_spec c Hok) as (Hok' & H2 & H3 & H4). unfold Tty.has_pending_input.
  set (c' := Tty.feed_from_scancode_queue_nonblocking c) in *. exists c'.
  assert (TtyProps.stream [] c' = take (bq_capacity (Q := Q)) (TtyProps.stream [] c)) as Hst.
  { unfold TtyProps.stream. rewrite H2, H4, !app_nil_r. cbn. by rewrite ?app_nil_r. }
  assert (pend c' = pend c) as Hp.
  { unfold pend. rewrite Hst. destruct (TtyProps.stream [] c) as [|b l]; [by rewrite take_nil|]. destruct (bq_capacity (Q := Q)); [lia|]. done. }
  split; [|done]. f_equal. rewrite <-Hp. unfold pend. rewrite bq_len_view by apply Hok'.
  unfold TtyProps.stream. rewrite H2. cbn. rewrite app_nil_r. by destruct (bq_view (Tty.input c')).
Qed.

(** The calls leave processes and descriptors alone: what a descriptor is, and that the
    console is sound, stays as it was. *)
Record like (isT : Z -> bool) (p : bool) s : Prop := {
  li_tty fd : is_tty_fd fd s = Some (isT fd, s);
  li_con : TtyProps.console_ok (con s);
  li_pend : pend (con s) = p;
}.

Lemma is_tty_mem fd m s b : is_tty_fd fd s = Some (b, s) -> is_tty_fd fd (set_mem m s) = Some (b, set_mem m s).
Proof.
  unfold is_tty_fd, current_pid. destruct (fd <? 0); [by intros [= <-]|]. destruct (fd <=? 2); [by intros [= <-]|]. destruct (fd <? _); [by intros [= <-]|].
  change (Kernel.current_pid (kst (set_mem m s))) with (Kernel.current_pid (kst s)). cbn [set_mem fds].
  destruct (Kernel.current_pid (kst s)); [|by intros [= <-]]. destruct (Fs.with_fd_table _ _ _) as [[[[fh|]|] ?]|]; [| | |done]; intros [= <-]; done.
Qed.

Lemma is_tty_con fd c s b : is_tty_fd fd s = Some (b, s) -> is_tty_fd fd (set_con c s) = Some (b, set_con c s).
Proof.
  unfold is_tty_fd, current_pid. destruct (fd <? 0); [by intros [= <-]|]. destruct (fd <=? 2); [by intros [= <-]|]. destruct (fd <? _); [by intros [= <-]|].
  cbn [set_con kst fds]. destruct (Kernel.current_pid (kst s)); [|by intros [= <-]].
  destruct (Fs.with_fd_table _ _ _) as [[[[fh|]|] ?]|]; [| | |done]; intros [= <-]; done.
Qed.

Lemma like_mem isT p m s : like isT p s -> like isT p (set_mem m s).
Proof. intros [H1 H2 H3]. split; [|done|done]. intros fd. by apply is_tty_mem. Qed.

Lemma stdin_ready_spec isT p s :
  like isT p s -> exists s', stdin_ready s = Some (p, s') /\ like isT p s' /\ mem_of s' = mem_of s.
Proof.
  intros [H1 H2 H3]. unfold stdin_ready, on_con. destruct (has_pending_spec (con s) H2) as (c' & E & Hok & Hp). rewrite E, H3.
  eexists. split; [done|]. split; [|done]. split; [intros fd; by apply is_tty_con|done|]. cbn. congruence.
Qed.

Lemma stdin_ready_for_spec isT p fd s :
  like isT p s -> exists s', stdin_ready_for_fd fd s = Some (isT fd && p, s') /\ like isT p s' /\ mem_of s' = mem_of s.
Proof.
  intros Hl. unfold stdin_ready_for_fd. rewrite (st_bind_eq _ _ _ _ _ (li_tty _ _ _ Hl fd)). destruct (isT fd); [by apply stdin_ready_spec|]. by exists s.
Qed.

Lemma stdout_ready_spec isT p fd s : like isT p s -> stdout_ready fd s = Some (isT fd, s).
Proof. intros Hl. apply (li_tty _ _ _ Hl). Qed.

(** ** poll *)

(** The events that an entry should report. *)
Definition expected (isT : Z -> bool) (p : bool) (fd events : Z) : Z :=
  if fd <? 0 then 0
  else Z.lor (if wants events (Z.lor POLLIN POLLRDNORM) && (isT fd && p) then POLLIN else 0)
             (if wants events (Z.lor POLLOUT POLLWRNORM) && isT fd then POLLOUT else 0).

Lemma poll_revents_spec isT p fd events s :
  like isT p s -> exists s', poll_revents fd events s = Some (expected isT p fd events, s') /\ like isT p s' /\ mem_of s' = mem_of s.
Proof.
  intros Hl. unfold poll_revents, expected. destruct (fd <? 0); [by exists s|].
  assert (exists s1, (if wants events (Z.lor POLLIN POLLRDNORM) then stdin_ready_for_fd fd else mret false) s =
    Some (wants events (Z.lor POLLIN POLLRDNORM) && (isT fd && p), s1) /\ like isT p s1 /\ mem_of s1 = mem_of s) as (s1 & E1 & Hl1 & Hm1).
  { destruct (wants _ _); [by apply stdin_ready_for_spec|by exists s]. }
  rewrite (st_bind_eq _ _ _ _ _ E1).
  assert ((if wants events (Z.lor POLLOUT POLLWRNORM) then stdout_ready fd else mret false) s1 =
    Some (wants events (Z.lor POLLOUT POLLWRNORM) && isT fd, s1)) as E2 by (destruct (wants events (Z.lor POLLOUT POLLWRNORM)); [by eapply stdout_ready_spec|done]).
  rewrite (st_bind_eq _ _ _ _ _ E2). exists s1. done.
Qed.

(** Bytes from [lo] to [hi] can be read and written. *)
Definition accessible (m : M) (lo hi : Z) : Prop :=
  forall p n, lo <= p -> p + Z.of_nat n <= hi -> readable m p n /\ writable m p n.

Definition uint_at (m : M) (p : Z) (n : nat) : Z := from_le_bytes ((fun i => byte_at m (p + Z.of_nat i)) <$> seq 0 n).

Lemma read_uint m p n : readable m p n -> read_user_uint m n p = Ok (uint_at m p n).
Proof. intros H. unfold read_user_uint. by rewrite plain_read. Qed.

Lemma uint_at_ext m m' p n : (forall a, p <= a < p + Z.of_nat n -> byte_at m' a = byte_at m a) -> uint_at m' p n = uint_at m p n.
Proof.
  intros H. unfold uint_at. f_equal. apply list_fmap_ext. intros i k Hk. apply lookup_seq in Hk as [-> Hlt]. apply H. lia.
Qed.

(** After a write of [bs] at [p]. *)
Record wrote (p : Z) (bs : list Z) (m m' : M) : Prop := {
  wr_byte a : byte_at m' a = if decide (p <= a < p + Z.of_nat (length bs)) then bs !!! Z.to_nat (a - p) else byte_at m a;
  wr_read q n : readable m' q n <-> readable m q n;
  wr_write q n : writable m' q n <-> writable m q n;
  wr_valid q n : validate_user_ptr m' q n = validate_user_ptr m q n;
}.

Lemma write_wrote p bs m : writable m p (length bs) -> exists m', copy_to_user p bs m = (Ok tt, m') /\ wrote p bs m m'.
Proof. intros H. destruct (plain_write p bs m H) as (m' & E & H1 & H2 & H3 & H4). exists m'. by split. Qed.

Lemma wrote_accessible p bs m m' lo hi : wrote p bs m m' -> accessible m lo hi -> accessible m' lo hi.
Proof. intros Hw Ha q n H1 H2. rewrite (wr_read _ _ _ _ Hw), (wr_write _ _ _ _ Hw). by apply Ha. Qed.

Lemma wrote_uint p n v m m' : wrote p (to_le_bytes n v) m m' -> uint_at m' p n = v mod 256 ^ Z.of_nat n.
Proof.
  intros Hw. unfold uint_at. rewrite <-from_to_le_bytes. f_equal. apply list_eq. intros i. rewrite list_lookup_fmap.
  destruct (decide (i < n)%nat) as [Hi|Hi].
  - rewrite lookup_seq_lt by done. cbn. rewrite (wr_byte _ _ _ _ Hw), to_le_bytes_length, decide_True by lia.
    replace (Z.to_nat (p + Z.of_nat i - p)) with i by lia. symmetry. apply list_lookup_lookup_total_lt. by rewrite to_le_bytes_length.
  - rewrite lookup_seq_ge, lookup_ge_None_2 by (rewrite ?to_le_bytes_length; lia). done.
Qed.

(** The entry at [base]: its descriptor, its events. *)
Definition entry_fd (m : M) (base : Z) : Z := as_i32 (uint_at m base 4).
Definition entry_events (m : M) (base : Z) : Z := uint_at m (base + 4) 2.
Definition entry_revents (m : M) (base : Z) : Z := uint_at m (base + 6) 2.
Definition entry_expected (isT : Z -> bool) (p : bool) (m : M) (base : Z) : Z := expected isT p (entry_fd m base) (entry_events m base).

Lemma expected_small isT p fd ev : 0 <= expected isT p fd ev < 65536.
Proof. unfold expected. destruct (fd <? 0); [lia|]. destruct (_ && (_ && _)), (_ && _); (vm_compute; split; [discriminate|reflexivity]). Qed.

Lemma poll_one_spec isT p base lo hi s :
  like isT p s -> accessible (mem_of s) lo hi -> lo <= base -> base + 8 <= hi ->
  let e := entry_expected isT p (mem_of s) base in
  exists s', poll_one base s = Some (negb (e =? 0), s') /\ like isT p s' /\ wrote (base + 6) (to_le_bytes 2 e) (mem_of s) (mem_of s').
Proof.
  intros Hl Ha H1 H2 e. unfold poll_one. destruct (Ha base 4%nat) as [Hr1 _]; [lia|lia|]. destruct (Ha (base + 4) 2%nat) as [Hr2 _]; [lia|lia|].
  destruct (Ha (base + 6) 2%nat) as [_ Hw]; [lia|lia|].
  assert (reads (fun m => read_user_i32 m base) s = Some (Ok (entry_fd (mem_of s) base), s)) as E1
    by (unfold reads, read_user_i32, read_user_u32; by rewrite read_uint).
  rewrite (st_bind_eq _ _ _ _ _ E1).
  assert (reads (fun m => read_user_u16 m (base + 4)) s = Some (Ok (entry_events (mem_of s) base), s)) as E2
    by (unfold reads, read_user_u16; by rewrite read_uint).
  rewrite (st_bind_eq _ _ _ _ _ E2).
  destruct (poll_revents_spec isT p (entry_fd (mem_of s) base) (entry_events (mem_of s) base) s Hl) as (s1 & E3 & Hl1 & Hm1).
  rewrite (st_bind_eq _ _ _ _ _ E3). fold (entry_expected isT p (mem_of s) base). fold e. rewrite <-Hm1 in Hw |- *.
  destruct (write_wrote (base + 6) (to_le_bytes 2 e) (mem_of s1)) as (m' & E4 & Hwr); [by rewrite to_le_bytes_length|].
  assert (writes (write_user_u16 (base + 6) e) s1 = Some (Ok tt, set_mem m' s1)) as E5 by (unfold writes, write_user_u16; by rewrite E4).
  rewrite (st_bind_eq _ _ _ _ _ E5). exists (set_mem m' s1). cbn. split; [done|]. split; [by apply like_mem|done].
Qed.

(** Nothing else in [lo, hi) than the answers of the entries in [bases] has changed. *)
Lemma poll_list_spec isT p lo hi bases s :
  like isT p s -> accessible (mem_of s) lo hi -> NoDup bases -> (forall b, b ∈ bases -> lo <= b /\ b + 8 <= hi /\ (b - lo) mod 8 = 0) ->
  exists s', count_ready poll_one bases s =
      Some (Z.of_nat (length (List.filter (fun b => negb (entry_expected isT p (mem_of s) b =? 0)) bases)), s') /\ like isT p s' /\
    accessible (mem_of s') lo hi /\ (forall q n, validate_user_ptr (mem_of s') q n = validate_user_ptr (mem_of s) q n) /\
    (forall b, b ∈ bases -> entry_revents (mem_of s') b = entry_expected isT p (mem_of s) b) /\
    (forall a, (forall b, b ∈ bases -> ~ (b + 6 <= a < b + 8)) -> byte_at (mem_of s') a = byte_at (mem_of s) a).
Proof.
  intros Hl Ha Hnd Hb. revert s Hl Ha. induction Hnd as [|b bases Hni Hnd IH]; intros s Hl Ha.
  { exists s. do 4 (split; [done|]). split; [|done]. intros b Hin. by apply elem_of_nil in Hin. }
  destruct (Hb b ltac:(by left)) as (Hb1 & Hb2 & Hb3).
  destruct (poll_one_spec isT p b lo hi s Hl Ha Hb1 Hb2) as (s1 & E1 & Hl1 & Hw). set (e := entry_expected isT p (mem_of s) b) in *.
  assert (forall c, c ∈ bases -> entry_expected isT p (mem_of s1) c = entry_expected isT p (mem_of s) c) as Hsame.
  { intros c Hc. destruct (Hb c ltac:(by right)) as (_ & _ & Hc3). assert (b <> c) as Hne by congruence.
    unfold entry_expected, entry_fd, entry_events. f_equal; [f_equal|]; apply uint_at_ext; intros a Hra; rewrite (wr_byte _ _ _ _ Hw), to_le_bytes_length, decide_False; [done| |done|];
      pose proof (Z.div_mod (b - lo) 8 ltac:(lia)); pose proof (Z.div_mod (c - lo) 8 ltac:(lia)); lia. }
  destruct (IH (fun c Hc => Hb c ltac:(by right)) s1 Hl1) as (s2 & E2 & Hl2 & Ha2 & Hv2 & Hr2 & Ho2); [by eapply wrote_accessible|].
  exists s2. split; [|split; [done|split; [done|]]].
  { cbn [count_ready]. rewrite (st_bind_eq _ _ _ _ _ E1), (st_bind_eq _ _ _ _ _ E2). unfold mret, ST_ret. f_equal. f_equal. cbn [List.filter]. fold e.
    assert (List.filter (fun b => negb (entry_expected isT p (mem_of s1) b =? 0)) bases = List.filter (fun b => negb (entry_expected isT p (mem_of s) b =? 0)) bases) as ->.
    { apply filter_ext_in. intros c Hc. by rewrite Hsame by (by apply list_elem_of_In). }
    destruct (negb (e =? 0)); cbn [length]; lia. }
  split; [intros q n; by rewrite Hv2, (wr_valid _ _ _ _ Hw)|]. split.
  - intros c [->|Hc]%elem_of_cons; [|by rewrite Hr2, Hsame].
    assert (entry_revents (mem_of s2) b = entry_revents (mem_of s1) b) as ->.
    { unfold entry_revents. apply uint_at_ext. intros a Hra. apply Ho2. intros c Hc. destruct (Hb c ltac:(by right)) as (_ & _ & Hc3).
      assert (b <> c) by congruence. pose proof (Z.div_mod (b - lo) 8 ltac:(lia)). pose proof (Z.div_mod (c - lo) 8 ltac:(lia)). lia. }
    unfold entry_revents. rewrite (wrote_uint _ _ _ _ _ Hw). apply Z.mod_small. apply expected_small.
  - intros a Hna. rewrite Ho2 by (intros c Hc; apply Hna; by right). rewrite (wr_byte _ _ _ _ Hw), to_le_bytes_length, decide_False; [done|].
    pose proof (Hna b ltac:(by left)). lia.
Qed.

Lemma poll_entries_elem ptr n b : b ∈ poll_entries ptr n <-> exists i, 0 <= i < n /\ b = ptr + i * 8.
Proof. unfold poll_entries. rewrite list_elem_of_fmap. setoid_rewrite elem_of_seqZ. split; intros (i & H1 & H2); exists i; [split; [lia|done]|split; [done|lia]]. Qed.

Lemma poll_entries_nodup ptr n : NoDup (poll_entries ptr n).
Proof. unfold poll_entries. apply NoDup_fmap_2; [|apply NoDup_seqZ]. intros x y H. lia. Qed.

Definition poll_count (isT : Z -> bool) (p : bool) (m : M) (ptr n : Z) : Z :=
  Z.of_nat (length (List.filter (fun b => negb (entry_expected isT p m b =? 0)) (poll_entries ptr n))).

(** The answers are in place and nothing else has changed. *)
Definition poll_answered (isT : Z -> bool) (p : bool) (ptr n : Z) (m m' : M) : Prop :=
  (forall i, 0 <= i < n -> entry_revents m' (ptr + i * 8) = entry_expected isT p m (ptr + i * 8)) /\
  (forall a, (forall i, 0 <= i < n -> ~ (ptr + i * 8 + 6 <= a < ptr + i * 8 + 8)) -> byte_at m' a = byte_at m a).

Lemma poll_eval_spec isT p ptr n s :
  like isT p s -> accessible (mem_of s) ptr (ptr + n * 8) ->
  exists s', poll_eval ptr n s = Some (poll_count isT p (mem_of s) ptr n, s') /\ like isT p s' /\ accessible (mem_of s') ptr (ptr + n * 8) /\
    poll_answered isT p ptr n (mem_of s) (mem_of s').
Proof.
  intros Hl Ha. destruct (poll_list_spec isT p ptr (ptr + n * 8) (poll_entries ptr n) s Hl Ha (poll_entries_nodup ptr n)) as (s' & E & Hl' & Ha' & _ & Hr & Ho).
  { intros b (i & Hi & ->)%poll_entries_elem. split; [lia|]. split; [lia|]. replace (ptr + i * 8 - ptr) with (i * 8) by lia. apply Z_mod_mult. }
  exists s'. split; [exact E|]. split; [done|]. split; [done|]. split.
  - intros i Hi. apply Hr. apply poll_entries_elem. by exists i.
  - intros a Hna. apply Ho. intros b (i & Hi & ->)%poll_entries_elem. by apply Hna.
Qed.

(** Evaluating again changes nothing: the questions are still the same. *)
Lemma poll_answered_expected isT p ptr n m m' i :
  poll_answered isT p ptr n m m' -> 0 <= i < n -> entry_expected isT p m' (ptr + i * 8) = entry_expected isT p m (ptr + i * 8).
Proof.
  intros [_ Ho] Hi. unfold entry_expected, entry_fd, entry_events. f_equal; [f_equal|]; apply uint_at_ext; intros a Ha; apply Ho; lia.
Qed.

Lemma poll_count_answered isT p ptr n m m' : poll_answered isT p ptr n m m' -> poll_count isT p m' ptr n = poll_count isT p m ptr n.
Proof.
  intros H. unfold poll_count. f_equal. f_equal. apply filter_ext_in. intros b Hb. apply list_elem_of_In, poll_entries_elem in Hb as (i & Hi & ->).
  by rewrite (poll_answered_expected _ _ _ _ _ _ _ H).
Qed.

Lemma poll_answered_again isT p ptr n m m1 m2 :
  poll_answered isT p ptr n m m1 -> poll_answered isT p ptr n m1 m2 -> poll_answered isT p ptr n m m2.
Proof.
  intros H1 H2. split.
  - intros i Hi. rewrite (proj1 H2 i Hi). by apply (poll_answered_expected _ _ _ _ _ _ _ H1).
  - intros a Ha. rewrite (proj2 H2 a Ha). by apply H1.
Qed.

(** [poll] answers exactly: when an entry is ready, or with a zero time limit, it
    returns the number of ready entries, writes to each entry the events that hold of
    its descriptor (input when the console has some, output always, for terminals
    only), and changes no other byte. *)
Theorem poll_exact isT p ptr n timeout rounds s :
  like isT p s -> accessible (mem_of s) ptr (ptr + n * 8) -> ptr <> 0 -> 0 < n -> n * 8 < U64_MODULUS ->
  validate_user_ptr (mem_of s) ptr (n * 8) = true ->
  0 < poll_count isT p (mem_of s) ptr n \/ timeout = 0 ->
  exists s', poll ptr n timeout rounds s = Some (Some (poll_count isT p (mem_of s) ptr n), s') /\
    poll_answered isT p ptr n (mem_of s) (mem_of s').
Proof.
  intros Hl Ha Hp Hn Hb Hv Hc. unfold poll, checked_mul64. rewrite (proj2 (Z.eqb_neq n 0)), (proj2 (Z.ltb_lt _ _) Hb) by lia.
  assert (reads (fun m => negb (ptr =? 0) && validate_user_ptr m ptr (n * 8)) s = Some (true, s)) as E0
    by (unfold reads; by rewrite (proj2 (Z.eqb_neq _ _) Hp), Hv).
  rewrite (st_bind_eq _ _ _ _ _ E0). cbn [negb]. destruct (poll_eval_spec isT p ptr n s Hl Ha) as (s1 & E1 & Hl1 & Ha1 & Hans).
  rewrite (st_bind_eq _ _ _ _ _ E1). destruct (Z.ltb_spec 0 (poll_count isT p (mem_of s) ptr n)) as [Hpos|Hzero].
  { exists s1. done. }
  destruct Hc as [| ->]; [lia|]. change (as_i64 0) with 0.
  destruct (poll_eval_spec isT p ptr n s1 Hl1 Ha1) as (s2 & E2 & Hl2 & Ha2 & Hans2). pose proof (poll_answered_again _ _ _ _ _ _ _ Hans Hans2) as Hans'. pose proof (poll_count_answered _ _ _ _ _ _ Hans) as Hcnt.
  assert ((n0 ← poll_eval ptr n; mret (0 <? n0)) s1 = Some (false, s2)) as E3.
  { rewrite (st_bind_eq _ _ _ _ _ E2). rewrite Hcnt. by rewrite (proj2 (Z.ltb_ge _ _) Hzero). }
  assert (wait_until_ready_or_timeout 0 (n0 ← poll_eval ptr n; mret (0 <? n0)) rounds s1 = Some (Some false, s2)) as E4.
  { unfold wait_until_ready_or_timeout. by rewrite (st_bind_eq _ _ _ _ _ E3). }
  rewrite (st_bind_eq _ _ _ _ _ E4). exists s2. split; [|done]. replace (poll_count isT p (mem_of s) ptr n) with 0; [done|].
  unfold poll_count in *. lia.
Qed.

(** ** Time limits *)

Lemma wait_rounds_idle (ready : P bool) (inv : PS -> Prop) n rounds s :
  (forall s, inv s -> exists s', ready s = Some (false, s') /\ inv s') -> (forall scs s s', inv s -> arrive scs s = Some (tt, s') -> scs ∈ rounds -> inv s') ->
  inv s ->
  exists s', inv s' /\ wait_rounds ready (Z.of_nat n) rounds s = Some (if (n <=? length rounds)%nat then Some false else None, s').
Proof.
  intros Hr Ha. revert n s. induction rounds as [|scs rounds IH]; intros n s Hi.
  - destruct n as [|n]; [by exists s|]. cbn [wait_rounds]. rewrite (proj2 (Z.leb_gt _ _)) by lia. by exists s.
  - destruct n as [|n]; [by exists s|]. cbn [wait_rounds]. rewrite (proj2 (Z.leb_gt _ _)) by lia.
    assert (exists s0, arrive scs s = Some (tt, s0)) as (s0 & E0) by (by eexists). rewrite (st_bind_eq _ _ _ _ _ E0).
    destruct (Hr s0 (Ha scs s s0 Hi E0 ltac:(by left))) as (s1 & E1 & Hi1). rewrite (st_bind_eq _ _ _ _ _ E1).
    replace (Z.of_nat (S n) - 1) with (Z.of_nat n) by lia. destruct (IH (fun scs s s' H1 H2 H3 => Ha scs s s' H1 H2 ltac:(by right)) n s1 Hi1) as (s2 & Hi2 & E2).
    exists s2. split; [done|]. rewrite E2. done.
Qed.

Lemma sleep_one_tick now : 0 <= now < U64_MAX -> Sleep.sleep_target 1 now = now + 1.
Proof. intros H. change (saturating_add64 now 1 = now + 1). unfold saturating_add64. lia. Qed.

(** The tick at which [n] calls of [sleep(1)] in a row end. *)
Fixpoint after_sleeps (n : nat) (now : Z) : Z := match n with O => now | S n => after_sleeps n (Sleep.sleep_target 1 now) end.

Lemma after_sleeps_eq n now : 0 <= now -> now + Z.of_nat n <= U64_MAX -> after_sleeps n now = now + Z.of_nat n.
Proof.
  revert now. induction n as [|n IH]; intros now H0 H; [cbn; lia|]. cbn [after_sleeps]. rewrite sleep_one_tick by lia. rewrite IH by lia. lia.
Qed.

(** A time limit lasts ten times too long: with nothing ready, a limit of [n]
    milliseconds ends only after [n] rounds of [sleep(1)], and as each of them lasts
    until the next timer tick, [n] ticks of 10 milliseconds have passed. *)
Theorem timeout_counts_ticks (n : nat) (now : Z) (rounds : list (list Z)) isT ptr k s :
  like isT false s -> accessible (mem_of s) ptr (ptr + k * 8) -> poll_count isT false (mem_of s) ptr k = 0 ->
  Forall (fun scs => scs = []) rounds -> 0 <= now -> now + Z.of_nat n <= U64_MAX -> (0 < n)%nat ->
  exists s', wait_until_ready_or_timeout (Z.of_nat n) (c ← poll_eval ptr k; mret (0 <? c)) rounds s =
      Some (if (n <=? length rounds)%nat then Some false else None, s') /\
    (after_sleeps n now - now) * Sleep.TICK_MS = 10 * Z.of_nat n.
Proof.
  intros Hl Ha Hc Hrs H0 Hn Hpos.
  set (inv := fun s : PS => like isT false s /\ accessible (mem_of s) ptr (ptr + k * 8) /\ poll_count isT false (mem_of s) ptr k = 0).
  assert (forall s, inv s -> exists s', (c ← poll_eval ptr k; mret (0 <? c)) s = Some (false, s') /\ inv s') as Hready.
  { intros s1 (Hl1 & Ha1 & Hc1). destruct (poll_eval_spec isT false ptr k s1 Hl1 Ha1) as (s2 & E2 & Hl2 & Ha2 & Hans).
    exists s2. rewrite (st_bind_eq _ _ _ _ _ E2), Hc1. split; [done|]. split; [done|]. split; [done|].
    by rewrite (poll_count_answered _ _ _ _ _ _ Hans). }
  assert (inv s) as Hi by done. destruct (Hready s Hi) as (s1 & E1 & Hi1).
  destruct (wait_rounds_idle (c ← poll_eval ptr k; mret (0 <? c)) inv n rounds s1 Hready) as (s2 & _ & E2).
  { intros scs u u' Hu E Hin. rewrite Forall_forall in Hrs. rewrite (Hrs scs Hin) in E. injection E as <-. destruct u as [a [] b]. exact Hu. }
  { done. }
  exists s2. split.
  - unfold wait_until_ready_or_timeout. rewrite (st_bind_eq _ _ _ _ _ E1). rewrite (proj2 (Z.eqb_neq _ _)), (proj2 (Z.ltb_ge _ _)) by lia. exact E2.
  - rewrite after_sleeps_eq by done. unfold Sleep.TICK_MS. lia.
Qed.

(** ** Sets of descriptors *)

Lemma testbit_low b r k : is_byte b -> 0 <= r -> 0 <= k -> Z.testbit (b + 256 * r) k = if k <? 8 then Z.testbit b k else Z.testbit r (k - 8).
Proof.
  intros [Hb1 Hb2] Hr Hk. replace (b + 256 * r) with (Z.lor b (Z.shiftl r 8)) by (rewrite Input.lor_shiftl_add by lia; lia).
  rewrite Z.lor_spec, Z.shiftl_spec by done. destruct (Z.ltb_spec k 8); [by rewrite (Z.testbit_neg_r r), orb_false_r by lia|].
  rewrite <-(Z.mod_small b (2 ^ 8)), Z.mod_pow2_bits_high by lia. done.
Qed.

Lemma testbit_le bs k :
  Forall is_byte bs -> 0 <= k < 8 * Z.of_nat (length bs) -> Z.testbit (from_le_bytes bs) k = Z.testbit (bs !!! Z.to_nat (k / 8)) (k mod 8).
Proof.
  intros Hb. revert k. induction Hb as [|b bs Hb Hbs IH]; intros k Hk; [cbn in Hk; lia|]. cbn [from_le_bytes].
  pose proof (from_le_bytes_range bs Hbs). rewrite testbit_low by (done || lia). destruct (Z.ltb_spec k 8) as [Hl|Hl].
  - by rewrite Z.div_small, Z.mod_small by lia.
  - cbn [length] in Hk. rewrite IH by lia. replace k with ((k - 8) + 1 * 8) at 3 4 by lia. rewrite Z.div_add, Z_mod_plus_full by lia.
    pose proof (Z.div_pos (k - 8) 8 ltac:(lia) ltac:(lia)). by rewrite Z.add_1_r, Z2Nat.inj_succ by done.
Qed.

Lemma testbit_byte n v j i : (j < n)%nat -> 0 <= i < 8 -> Z.testbit (to_le_bytes n v !!! j) i = Z.testbit v (8 * Z.of_nat j + i).
Proof.
  revert v j. induction n as [|n IH]; intros v j Hj Hi; [lia|]. cbn [to_le_bytes]. destruct j as [|j].
  - change (to_le_bytes (S n) v !!! 0%nat) with (v mod 2 ^ 8).
    rewrite Z.mod_pow2_bits_low by lia. done.
  - change (to_le_bytes (S n) v !!! S j) with (to_le_bytes n (v / 2 ^ 8) !!! j). rewrite IH, Z.div_pow2_bits by lia. f_equal. lia.
Qed.

Definition set_bit (m : M) (ptr fd : Z) : bool := Z.testbit (byte_at m (ptr + fd / 8)) (fd mod 8).
Definition bytes_ok (m : M) : Prop := forall a, is_byte (byte_at m a).

Lemma wrote_bytes_ok p bs m m' : wrote p bs m m' -> Forall is_byte bs -> bytes_ok m -> bytes_ok m'.
Proof.
  intros Hw Hb Hm a. rewrite (wr_byte _ _ _ _ Hw). destruct (decide _) as [H|H]; [|apply Hm].
  rewrite Forall_forall in Hb. apply Hb. apply list_elem_of_lookup_total_2. lia.
Qed.

Lemma byte_of_bit fd : fd / 8 = fd / 64 * 8 + fd mod 64 / 8 /\ fd mod 8 = fd mod 64 mod 8 /\ 0 <= fd mod 64 / 8 < 8.
Proof.
  pose proof (Z.mod_pos_bound fd 64 ltac:(lia)). assert (fd = fd mod 64 + fd / 64 * 8 * 8) as E by (pose proof (Z.div_mod fd 64 ltac:(lia)); lia).
  split; [rewrite E at 1; rewrite Z.div_add by lia; lia|]. split; [rewrite E at 1; by rewrite Z_mod_plus_full|].
  split; [apply Z.div_pos; lia|apply Z.div_lt_upper_bound; lia].
Qed.

Lemma word_bit m ptr fd : bytes_ok m -> 0 <= fd -> Z.testbit (uint_at m (ptr + fd / 64 * 8) 8) (fd mod 64) = set_bit m ptr fd.
Proof.
  intros Hm Hfd. pose proof (Z.mod_pos_bound fd 64 ltac:(lia)). unfold uint_at, set_bit.
  destruct (byte_of_bit fd) as (E8 & Em & _).
  rewrite testbit_le; [|apply Forall_fmap, Forall_forall; intros; apply Hm|cbn; lia].
  destruct (byte_of_bit fd) as (_ & _ & H8). rewrite (list_lookup_total_correct _ _ (byte_at m (ptr + fd / 8))); [by rewrite <-Em|].
  rewrite list_lookup_fmap, lookup_seq_lt by lia. cbn. f_equal. f_equal. lia.
Qed.

Lemma land_bit w k : 0 <= k -> negb (Z.land w (Z.shiftl 1 k) =? 0) = Z.testbit w k.
Proof.
  intros Hk. rewrite Z.shiftl_1_l. destruct (Z.testbit w k) eqn:E.
  - apply negb_true_iff, Z.eqb_neq. intros H. apply (f_equal (fun z => Z.testbit z k)) in H. by rewrite Z.land_spec, E, Z.pow2_bits_true, Z.bits_0 in H.
  - apply negb_false_iff, Z.eqb_eq, Z.bits_inj'. intros n Hn. rewrite Z.land_spec, Z.bits_0, Z.pow2_bits_eqb by done.
    destruct (Z.eqb_spec k n) as [<-|]; [by rewrite E|by rewrite andb_false_r].
Qed.

(** A set of [len] bytes at [ptr] in user space. *)
Record set_at (m : M) (ptr len : Z) : Prop := {
  sa_range : 0 < ptr /\ ptr + len < U64_MODULUS;
  sa_access : accessible m ptr (ptr + len);
  sa_bytes : bytes_ok m;
}.

Lemma fdset_test_spec m ptr len fd :
  set_at m ptr len -> 0 <= fd -> fd / 64 * 8 + 8 <= len -> fdset_test ptr m fd = set_bit m ptr fd.
Proof.
  intros [Hr Ha Hb] Hfd Hl. pose proof (Z.div_pos fd 64 Hfd ltac:(lia)). unfold fdset_test, checked_add64. rewrite (proj2 (Z.ltb_lt _ _)) by lia.
  unfold read_user_u64. rewrite read_uint by (apply Ha; lia). rewrite land_bit by (apply Z.mod_pos_bound; lia). by apply word_bit.
Qed.

Lemma set_at_wrote m m' p bs ptr len : wrote p bs m m' -> Forall is_byte bs -> set_at m ptr len -> set_at m' ptr len.
Proof. intros Hw Hb [H1 H2 H3]. split; [done|by eapply wrote_accessible|by eapply wrote_bytes_ok]. Qed.

Lemma fdset_set_spec isT p ptr len fd s :
  like isT p s -> set_at (mem_of s) ptr len -> 0 <= fd -> fd / 64 * 8 + 8 <= len ->
  exists s', fdset_set ptr fd s = Some (Ok tt, s') /\ like isT p s' /\ set_at (mem_of s') ptr len /\
    (forall fd', 0 <= fd' -> set_bit (mem_of s') ptr fd' = (fd' =? fd) || set_bit (mem_of s) ptr fd') /\
    (forall a, ~ (ptr <= a < ptr + len) -> byte_at (mem_of s') a = byte_at (mem_of s) a) /\
    (forall q k, set_at (mem_of s) q k -> set_at (mem_of s') q k).
Proof.
  intros Hl Hs Hfd Hlen. pose proof Hs as [Hr Ha Hb]. pose proof (Z.div_pos fd 64 Hfd ltac:(lia)). set (addr := ptr + fd / 64 * 8).
  set (v := uint_at (mem_of s) addr 8). set (w := Z.lor v (Z.shiftl 1 (fd mod 64))). unfold fdset_set, checked_add64. rewrite (proj2 (Z.ltb_lt _ _)) by lia. fold addr.
  assert (reads (fun m => read_user_u64 m addr) s = Some (Ok v, s)) as E1 by (unfold reads, read_user_u64; by rewrite read_uint by (apply Ha; unfold addr; lia)).
  rewrite (st_bind_eq _ _ _ _ _ E1). fold w. destruct (write_wrote addr (to_le_bytes 8 w) (mem_of s)) as (m' & E2 & Hw).
  { rewrite to_le_bytes_length. apply Ha; unfold addr; lia. }
  exists (set_mem m' s). split; [unfold writes, write_user_u64; by rewrite E2|]. split; [by apply like_mem|].
  pose proof (to_le_bytes_byte 8 w) as Hbs. split; [by eapply set_at_wrote|]. split; [|split; [|intros q k; by eapply set_at_wrote]].
  - intros fd' Hfd'. unfold set_bit at 1. cbn [mem_of set_mem]. change (Pgroup.mem_of (set_mem m' s)) with m'. rewrite (wr_byte _ _ _ _ Hw), to_le_bytes_length.
    destruct (decide _) as [Hin|Hout].
    + assert (fd' / 64 = fd / 64) as Ew.
      { unfold addr in Hin. change 64 with (8 * 8) at 1. rewrite <-Z.div_div by lia. symmetry. apply (Z.div_unique_pos (fd' / 8) 8 (fd / 64) (fd' / 8 - fd / 64 * 8)); lia. }
      pose proof (Z.mod_pos_bound fd' 8 ltac:(lia)). rewrite testbit_byte by (unfold addr in *; lia).
      replace (8 * Z.of_nat (Z.to_nat (ptr + fd' / 8 - addr)) + fd' mod 8) with (fd' mod 64).
      2: { unfold addr in *. pose proof (Z.div_mod fd' 8 ltac:(lia)). pose proof (Z.div_mod fd' 64 ltac:(lia)). lia. }
      unfold w. rewrite Z.lor_spec, Z.shiftl_1_l, Z.pow2_bits_eqb by (apply Z.mod_pos_bound; lia).
      unfold v, addr. rewrite <-Ew, word_bit by done. rewrite orb_comm. f_equal. apply eq_iff_eq_true. rewrite !Z.eqb_eq.
      pose proof (Z.div_mod fd' 64 ltac:(lia)). pose proof (Z.div_mod fd 64 ltac:(lia)). split; intros; [lia|congruence].
    + unfold set_bit. rewrite (proj2 (Z.eqb_neq fd' fd)); [done|]. intros ->. apply Hout. unfold addr.
      destruct (byte_of_bit fd) as (E8 & _ & H8). lia.
  - intros a Ha'. change (Pgroup.mem_of (set_mem m' s)) with m'. rewrite (wr_byte _ _ _ _ Hw), to_le_bytes_length, decide_False; [done|]. unfold addr. lia.
Qed.

Lemma fdset_clear_spec isT p ptr len k w s :
  like isT p s -> set_at (mem_of s) ptr len -> 0 <= w -> len - w <= Z.of_nat k ->
  exists s', fdset_clear k ptr w len s = Some (Ok tt, s') /\ like isT p s' /\ (forall q j, set_at (mem_of s) q j -> set_at (mem_of s') q j) /\
    (forall a, byte_at (mem_of s') a = if decide (ptr + w <= a < ptr + len) then 0 else byte_at (mem_of s) a).
Proof.
  revert w s. induction k as [|k IH]; intros w s Hl Hs Hw Hk; cbn [fdset_clear].
  - exists s. split; [done|]. split; [done|]. split; [done|]. intros a. by rewrite decide_False by lia.
  - destruct (Z.leb_spec len w).
    { exists s. split; [done|]. split; [done|]. split; [done|]. intros a. by rewrite decide_False by lia. }
    set (chunk := Z.min (len - w) 64). assert (0 < chunk <= len - w) as Hc by (unfold chunk; lia).
    destruct (write_wrote (ptr + w) (replicate (Z.to_nat chunk) 0) (mem_of s)) as (m' & E & Hwr).
    { rewrite length_replicate. apply (sa_access _ _ _ Hs); lia. }
    assert (Forall is_byte (replicate (Z.to_nat chunk) 0)) as Hb by (apply Forall_replicate; unfold is_byte; lia).
    assert (writes (copy_to_user (ptr + w) (replicate (Z.to_nat chunk) 0)) s = Some (Ok tt, set_mem m' s)) as E1 by (unfold writes; by rewrite E).
    rewrite (st_bind_eq _ _ _ _ _ E1).
    destruct (IH (w + chunk) (set_mem m' s)) as (s' & E2 & Hl' & Hs' & Hb'); [by apply like_mem|by eapply set_at_wrote|lia|lia|].
    exists s'. split; [done|]. split; [done|]. split; [intros q j Hq; apply Hs'; by eapply set_at_wrote|].
    intros a. rewrite Hb'. change (Pgroup.mem_of (set_mem m' s)) with m'. rewrite (wr_byte _ _ _ _ Hwr), length_replicate.
    destruct (decide (ptr + w <= a < ptr + len)) as [Hin|Hout].
    + destruct (decide (ptr + (w + chunk) <= a < ptr + len)); [done|]. rewrite decide_True by lia.
      apply lookup_total_replicate_2. lia.
    + by rewrite decide_False, decide_False by lia.
Qed.

Lemma filter_ready_spec isT p (ready : Z -> P bool) (f : Z -> bool) l s :
  (forall fd s, like isT p s -> exists s', ready fd s = Some (f fd, s') /\ like isT p s' /\ mem_of s' = mem_of s) -> like isT p s ->
  exists s', filter_ready ready l s = Some (List.filter f l, s') /\ like isT p s' /\ mem_of s' = mem_of s.
Proof.
  intros Hr. revert s. induction l as [|x l IH]; intros s Hl; [by exists s|]. cbn [filter_ready].
  destruct (Hr x s Hl) as (s1 & E1 & Hl1 & Hm1). destruct (IH s1 Hl1) as (s2 & E2 & Hl2 & Hm2).
  rewrite (st_bind_eq _ _ _ _ _ E1), (st_bind_eq _ _ _ _ _ E2). exists s2. split; [|split; [done|congruence]]. cbn. by destruct (f x).
Qed.

Lemma mark_spec isT p ptr len l s :
  like isT p s -> set_at (mem_of s) ptr len -> Forall (fun fd => 0 <= fd /\ fd / 64 * 8 + 8 <= len) l ->
  exists s', count_ready (fun fd => r ← fdset_set ptr fd; mret (is_ok r)) l s = Some (Z.of_nat (length l), s') /\ like isT p s' /\
    (forall fd, 0 <= fd -> set_bit (mem_of s') ptr fd = bool_decide (fd ∈ l) || set_bit (mem_of s) ptr fd) /\
    (forall a, ~ (ptr <= a < ptr + len) -> byte_at (mem_of s') a = byte_at (mem_of s) a) /\
    (forall q k, set_at (mem_of s) q k -> set_at (mem_of s') q k).
Proof.
  intros Hl Hs Hf. revert s Hl Hs. induction Hf as [|x l [Hx1 Hx2] _ IH]; intros s Hl Hs; [exists s; done|]. cbn [count_ready].
  destruct (fdset_set_spec isT p ptr len x s Hl Hs Hx1 Hx2) as (s1 & E1 & Hl1 & Hs1 & Hb1 & Ho1 & Hk1).
  assert ((r ← fdset_set ptr x; mret (is_ok r)) s = Some (true, s1)) as E1' by (by rewrite (st_bind_eq _ _ _ _ _ E1)).
  destruct (IH s1 Hl1 Hs1) as (s2 & E2 & Hl2 & Hb2 & Ho2 & Hk2). rewrite (st_bind_eq _ _ _ _ _ E1'), (st_bind_eq _ _ _ _ _ E2).
  exists s2. split; [unfold mret, ST_ret; f_equal; f_equal; cbn [length]; lia|]. split; [done|]. split; [|split].
  - intros fd Hfd. rewrite Hb2, Hb1 by done. rewrite orb_assoc. f_equal. apply eq_iff_eq_true.
    rewrite orb_true_iff, !bool_decide_eq_true, Z.eqb_eq, elem_of_cons. tauto.
  - intros a Ha. by rewrite Ho2, Ho1.
  - intros q k Hq. by apply Hk2, Hk1.
Qed.

(** The bytes of a set of [nfds] descriptors *)
Definition set_bytes (nfds : Z) : Z := (nfds + 63) / 64 * 8.

Lemma set_bytes_room nfds fd : 0 <= fd < nfds -> fd / 64 * 8 + 8 <= set_bytes nfds.
Proof.
  intros H. unfold set_bytes. assert (fd / 64 + 1 <= (nfds + 63) / 64); [|lia].
  replace (fd / 64 + 1) with ((fd + 1 * 64) / 64) by (by rewrite Z.div_add by lia). apply Z.div_le_mono; lia.
Qed.

(** One set after the call: exactly the members that are ready are left. *)
Definition set_answered (ready : Z -> bool) (ptr nfds : Z) (m m' : M) : Prop :=
  forall fd, 0 <= fd < nfds -> set_bit m' ptr fd = set_bit m ptr fd && ready (to_i32 fd).

Lemma set_bit_ext m m' ptr len fd : (forall a, ptr <= a < ptr + len -> byte_at m' a = byte_at m a) -> 0 <= fd -> fd / 64 * 8 + 8 <= len -> set_bit m' ptr fd = set_bit m ptr fd.
Proof. intros H Hfd Hl. unfold set_bit. rewrite H; [done|]. destruct (byte_of_bit fd) as (E & _ & H8). pose proof (Z.div_pos fd 64 Hfd ltac:(lia)). lia. Qed.

Lemma select_set_spec isT p (ready : Z -> P bool) (f : Z -> bool) ptr nfds interest s :
  (forall fd s, like isT p s -> exists s', ready fd s = Some (f fd, s') /\ like isT p s' /\ mem_of s' = mem_of s) ->
  like isT p s -> ptr = 0 \/ set_at (mem_of s) ptr (set_bytes nfds) -> (ptr = 0 -> interest = []) -> Forall (fun fd => 0 <= fd < nfds) interest ->
  exists s', select_eval_set ptr (set_bytes nfds) ready interest s = Some (Some (Z.of_nat (length (List.filter (fun fd => f (to_i32 fd)) interest))), s') /\
    like isT p s' /\ (forall q k, set_at (mem_of s) q k -> set_at (mem_of s') q k) /\
    (ptr <> 0 -> forall fd, 0 <= fd < nfds -> set_bit (mem_of s') ptr fd = bool_decide (fd ∈ interest) && f (to_i32 fd)) /\
    (forall a, ptr = 0 \/ ~ (ptr <= a < ptr + set_bytes nfds) -> byte_at (mem_of s') a = byte_at (mem_of s) a).
Proof.
  intros Hr Hl Hs Hz Hf. unfold select_eval_set. destruct (Z.eqb_spec ptr 0) as [->|Hne].
  { rewrite Hz by done. exists s. do 3 (split; [done|]). split; [done|]. done. }
  destruct Hs as [|Hs]; [done|].
  destruct (filter_ready_spec isT p (fun fd => ready (to_i32 fd)) (fun fd => f (to_i32 fd)) interest s) as (s1 & E1 & Hl1 & Hm1);
    [intros; by apply Hr|done|]. rewrite <-Hm1 in Hs |- *.
  rewrite (st_bind_eq _ _ _ _ _ E1). destruct (fdset_clear_spec isT p ptr (set_bytes nfds) (Z.to_nat (set_bytes nfds)) 0 s1) as (s2 & E2 & Hl2 & Hk2 & Hb2);
    [done|done|lia|lia|]. unfold fdset_clear_all. rewrite (st_bind_eq _ _ _ _ _ E2).
  set (rl := List.filter (fun fd => f (to_i32 fd)) interest).
  destruct (mark_spec isT p ptr (set_bytes nfds) rl s2) as (s3 & E3 & Hl3 & Hb3 & Ho3 & Hk3); [done|by apply Hk2| |].
  { apply Forall_forall. intros fd Hin%list_elem_of_In. apply filter_In in Hin as [Hin%list_elem_of_In _]. rewrite Forall_forall in Hf.
    pose proof (Hf fd Hin). split; [lia|by apply set_bytes_room]. }
  rewrite (st_bind_eq _ _ _ _ _ E3). exists s3. split; [done|]. split; [done|]. split; [intros q k Hq; by apply Hk3, Hk2|]. split.
  - intros _ fd Hfd. rewrite Hb3 by lia. assert (set_bit (mem_of s2) ptr fd = false) as ->.
    { unfold set_bit. rewrite Hb2, decide_True; [apply Z.bits_0|]. pose proof (set_bytes_room nfds fd Hfd). destruct (byte_of_bit fd) as (E & _ & H8).
      pose proof (Z.div_pos fd 64 ltac:(lia) ltac:(lia)). lia. }
    rewrite orb_false_r. apply eq_iff_eq_true. rewrite andb_true_iff, !bool_decide_eq_true. unfold rl. by rewrite list_elem_of_In, filter_In, list_elem_of_In.
  - intros a [|Ha]; [done|]. rewrite Ho3, Hb2, decide_False by lia. done.
Qed.

Lemma interest_spec m ptr nfds :
  ptr = 0 \/ set_at m ptr (set_bytes nfds) ->
  interest_of ptr nfds m = (if ptr =? 0 then [] else List.filter (set_bit m ptr) (seqZ 0 nfds)) /\
  Forall (fun fd => 0 <= fd < nfds) (interest_of ptr nfds m) /\
  (ptr <> 0 -> forall fd, 0 <= fd < nfds -> bool_decide (fd ∈ interest_of ptr nfds m) = set_bit m ptr fd).
Proof.
  intros Hs. unfold interest_of. destruct (Z.eqb_spec ptr 0) as [->|Hne]; [done|]. destruct Hs as [|Hs]; [done|].
  assert (List.filter (fdset_test ptr m) (seqZ 0 nfds) = List.filter (set_bit m ptr) (seqZ 0 nfds)) as ->.
  { apply filter_ext_in. intros fd Hfd%list_elem_of_In. apply elem_of_seqZ in Hfd. apply (fdset_test_spec m ptr (set_bytes nfds)); [done|lia|].
    apply set_bytes_room. lia. }
  split; [done|]. split.
  - apply Forall_forall. intros fd Hin%list_elem_of_In. apply filter_In in Hin as [Hin%list_elem_of_In _]. apply elem_of_seqZ in Hin. lia.
  - intros _ fd Hfd. apply eq_iff_eq_true. rewrite bool_decide_eq_true, list_elem_of_In, filter_In, <-list_elem_of_In, elem_of_seqZ.
    split; [by intros [_ ?]|]. intros H. split; [lia|done].
Qed.

(** How many members of a set are ready. *)
Definition ready_members (ready : Z -> bool) (m : M) (ptr nfds : Z) : Z :=
  if ptr =? 0 then 0 else Z.of_nat (length (List.filter (fun fd => set_bit m ptr fd && ready (to_i32 fd)) (seqZ 0 nfds))).

Lemma ready_interest ready m ptr nfds :
  ptr = 0 \/ set_at m ptr (set_bytes nfds) ->
  Z.of_nat (length (List.filter (fun fd => ready (to_i32 fd)) (interest_of ptr nfds m))) = ready_members ready m ptr nfds.
Proof.
  intros Hs. destruct (interest_spec m ptr nfds Hs) as (-> & _). unfold ready_members. destruct (ptr =? 0); [done|]. f_equal. f_equal.
  induction (seqZ 0 nfds) as [|x l IH]; [done|]. cbn. destruct (set_bit m ptr x); cbn; [|done]. destruct (ready (to_i32 x)); [by rewrite IH|done].
Qed.

Definition apart (p q len : Z) : Prop := p = 0 \/ q = 0 \/ p + len <= q \/ q + len <= p.

(** [pselect6] leaves exactly the ready members in its sets: when some are, it
    returns how many, a descriptor is in the set of readers afterwards if and only if
    it was before and is a terminal with input, in the set of writers if and only if it
    was and is a terminal, and no byte outside the two sets has changed. *)
Theorem pselect_exact isT p nfds r w rounds s :
  like isT p s -> 0 <= nfds -> nfds + 63 < 2 ^ 60 ->
  (r = 0 \/ set_at (mem_of s) r (set_bytes nfds) /\ validate_user_ptr (mem_of s) r (set_bytes nfds) = true) ->
  (w = 0 \/ set_at (mem_of s) w (set_bytes nfds) /\ validate_user_ptr (mem_of s) w (set_bytes nfds) = true) ->
  apart r w (set_bytes nfds) ->
  let n := ready_members (fun fd => isT fd && p) (mem_of s) r nfds + ready_members isT (mem_of s) w nfds in
  0 < n ->
  exists s', pselect6 nfds r w 0 rounds s = Some (Some n, s') /\
    (r <> 0 -> set_answered (fun fd => isT fd && p) r nfds (mem_of s) (mem_of s')) /\
    (w <> 0 -> set_answered isT w nfds (mem_of s) (mem_of s')) /\
    (forall a, ~ (r <> 0 /\ r <= a < r + set_bytes nfds) -> ~ (w <> 0 /\ w <= a < w + set_bytes nfds) -> byte_at (mem_of s') a = byte_at (mem_of s) a).
Proof.
  intros Hl Hn Hn2 Hr Hw Hap n Hpos. assert (r = 0 \/ set_at (mem_of s) r (set_bytes nfds)) as Hr' by tauto.
  assert (w = 0 \/ set_at (mem_of s) w (set_bytes nfds)) as Hw' by tauto.
  assert (0 <= set_bytes nfds) as Hsb by (unfold set_bytes; pose proof (Z.div_pos (nfds + 63) 64 ltac:(lia) ltac:(lia)); lia).
  unfold pselect6. cbn [Z.eqb mbind]. rewrite (st_bind_eq _ _ s (Ok (-1)) s) by done.
  assert (fdset_len_bytes nfds = Some (set_bytes nfds)) as ->.
  { unfold fdset_len_bytes, checked_add64, checked_mul64, U64_MODULUS. rewrite (proj2 (Z.ltb_lt _ _)) by lia. cbn.
    rewrite (proj2 (Z.ltb_lt _ _)); [done|]. pose proof (Z.div_le_upper_bound (nfds + 63) 64 (nfds + 63) ltac:(lia) ltac:(lia)). lia. }
  assert (reads (fun m => (negb (r =? 0) && negb (validate_user_ptr m r (set_bytes nfds))) || (negb (w =? 0) && negb (validate_user_ptr m w (set_bytes nfds)))) s = Some (false, s)) as E0.
  { unfold reads. f_equal. f_equal. destruct Hr as [->|[_ ->]], Hw as [->|[_ ->]]; cbn; by rewrite ?andb_false_r. }
  rewrite (st_bind_eq _ _ _ _ _ E0). rewrite (st_bind_eq _ _ s (interest_of r nfds (mem_of s)) s), (st_bind_eq _ _ s (interest_of w nfds (mem_of s)) s) by done.
  destruct (interest_spec (mem_of s) r nfds Hr') as (Er & Fr & Br), (interest_spec (mem_of s) w nfds Hw') as (Ew & Fw & Bw).
  set (ri := interest_of r nfds (mem_of s)) in *. set (wi := interest_of w nfds (mem_of s)) in *.
  destruct (select_set_spec isT p stdin_ready_for_fd (fun fd => isT fd && p) r nfds ri s) as (s1 & E1 & Hl1 & Hk1 & Hb1 & Ho1);
    [intros; by apply stdin_ready_for_spec|done|done|by intros ->|done|].
  destruct (select_set_spec isT p stdout_ready isT w nfds wi s1) as (s2 & E2 & Hl2 & Hk2 & Hb2 & Ho2);
    [intros fd u Hu; exists u; by rewrite (stdout_ready_spec isT p)|done|destruct Hw' as [|Hw']; [by left|right; by apply Hk1]|by intros ->|done|].
  assert (select_eval r w (set_bytes nfds) ri wi s = Some (n, s2)) as E3.
  { unfold select_eval. rewrite (st_bind_eq _ _ _ _ _ E1), (st_bind_eq _ _ _ _ _ E2). unfold n. by rewrite <-(ready_interest (fun fd => isT fd && p)), <-ready_interest. }
  rewrite (st_bind_eq _ _ _ _ _ E3), (proj2 (Z.ltb_lt _ _) Hpos). exists s2. split; [done|]. split; [|split].
  - intros Hr0 fd Hfd. rewrite <-(Br Hr0 fd Hfd), <-(Hb1 Hr0 fd Hfd). apply (set_bit_ext _ _ _ (set_bytes nfds)); [|lia|by apply set_bytes_room].
    intros a Ha. apply Ho2. destruct Hap as [|[|]]; [done|by left|right; lia].
  - intros Hw0 fd Hfd. rewrite (Hb2 Hw0 fd Hfd). f_equal. by apply Bw.
  - intros a H1 H2. rewrite Ho2, Ho1; [done| |].
    + destruct (decide (r = 0)); [by left|right; tauto].
    + destruct (decide (w = 0)); [by left|right; tauto].
Qed.

(** ** Groups *)

(** The processes a caller may move: itself and its children. *)
Definition may_move (caller target : Z) s : Prop :=
  target = caller \/ exists q, Process.abs (Kernel.procs (kst s)) !! target = Some q /\ Process.parent_id q = Some caller.

(** A process moves only itself and its children between process groups: for those
    [setpgid] succeeds, [getpgid] then answers the new group (the target's own when the
    argument is 0), every other process and every other field are as before; for anyone
    else it answers EPERM, for a caller without an entry ESRCH, and nothing changes. *)
Theorem setpgid_exact pid_arg pgid_arg caller s :
  Process.table_wf (Kernel.procs (kst s)) -> current_pid s = Some caller ->
  let target := if pid_arg =? 0 then caller else pid_arg in
  let new := if pgid_arg =? 0 then target else pgid_arg in
  let ps := Process.abs (Kernel.procs (kst s)) in
  let '(r, s') := setpgid pid_arg pgid_arg s in
  (r = SUCCESS /\ may_move caller target s /\ is_Some (ps !! target) /\ getpgid pid_arg s' = new /\
     Process.table_wf (Kernel.procs (kst s')) /\ Process.abs (Kernel.procs (kst s')) = alter (Process.set_pgid new) target ps) \/
  (s' = s /\ (r = EPERM /\ ~ may_move caller target s \/ r = ESRCH /\ target = caller /\ ps !! target = None)).
Proof.
  intros Hw Hc target new ps. unfold setpgid. rewrite Hc. fold target. fold new. unfold process. rewrite Process.process_get_abs by done. fold ps.
  set (mine := if negb (target =? caller) then _ else true). assert (mine = true <-> may_move caller target s) as Hm.
  { unfold mine, may_move. fold ps. destruct (Z.eqb_spec target caller) as [He|He]; cbn; [tauto|]. destruct (ps !! target) as [q|].
    - rewrite bool_decide_eq_true. split; [by eauto|]. intros [|(? & [= <-] & ?)]; done.
    - split; [done|]. intros [|(? & ? & _)]; done. }
  destruct mine; cbn [negb]; [|right; split; [done|left; split; [done|by rewrite <-Hm]]].
  pose proof (Process.with_process_mut_spec target (fun p => (tt, Process.set_pgid new p)) _ Hw ltac:(done)) as H.
  destruct (Process.with_process_mut _ _ _) as [r t']. destruct H as (-> & Hw' & Ha). fold ps in Ha |- *.
  destruct (ps !! target) as [q|] eqn:Hq; cbn.
  - left. split; [done|]. split; [by apply Hm|]. split; [done|]. split; [|done].
    assert (target_or_self pid_arg (set_procs t' s) = Some target) as Ht.
    { unfold target_or_self, target. destruct (pid_arg =? 0); [|done]. exact Hc. }
    unfold getpgid. rewrite Ht. unfold process. cbn. rewrite Process.process_get_abs by done. rewrite Ha, lookup_alter_eq, Hq.
    assert (Process.id q = target) as Hid by (apply (Process.get_in_iter target _ q Hw); by rewrite Process.process_get_abs).
    cbn. unfold Process.pgid. cbn. rewrite Hid. destruct (Z.eqb_spec new 0) as [H0|]; [|done]. unfold new in *. destruct (Z.eqb_spec pgid_arg 0); congruence.
  - right. split; [done|]. right. split; [done|]. split; [|done]. destruct (proj1 Hm eq_refl) as [|(? & H & _)]; [done|]. fold ps in H. congruence.
Qed.
End props.

(** ** A concrete system *)

#[local] Instance input_queue : BoundedQueue (Fifo.FifoInner Z) Z := Fifo.fifo_bounded_queue 1024.

(** Process 10 with one thread, its child 12, the console with the scan codes of an
    [a] in its buffer, no open files, and [mem] as user memory. *)
Definition demo (scs : list Z) (mem : Z -> Z) :
    @PS (Fifo.FifoInner Z) (Fifo.FifoInner Z) (Fifo.FifoInner Z) (Z -> Z) :=
  let c := TtyProps.demo in
  mkPS (Kernel.set_mem mem SignalProps.demo_ks)
    (Tty.mkConsole (Tty.tty c) (Tty.input c) (foldl (fun d sc => Input.enqueue_scancode sc d) (Tty.dev c) scs)) (Fs.mkWorld ∅ (Some 10) (FdTable.mkHeap ∅ ∅ 1 [])).

Definition demo_tty (fd : Z) : bool := (0 <=? fd) && (fd <=? 2).

Lemma demo_is_tty scs mem fd : is_tty_fd fd (demo scs mem) = Some (demo_tty fd, demo scs mem).
Proof.
  unfold is_tty_fd, demo_tty. destruct (Z.ltb_spec fd 0); [by rewrite (proj2 (Z.leb_gt 0 fd)) by lia|]. rewrite (proj2 (Z.leb_le 0 fd)) by lia.
  destruct (Z.leb_spec fd 2); [done|]. destruct (Z.ltb_spec fd (Z.of_nat FdTable.FD_BASE)); [done|]. reflexivity.
Qed.

Lemma demo_like mem : like demo_tty true (demo [30] mem).
Proof.
  split; [apply demo_is_tty| |vm_compute; reflexivity]. cbn. split; [apply Fifo.new_inv|].
  apply (bq_push_inv 30). apply Fifo.new_inv.
Qed.

Lemma demo_like_quiet mem : like demo_tty false (demo [] mem).
Proof. split; [apply demo_is_tty|apply TtyProps.demo_console_ok|vm_compute; reflexivity]. Qed.

Lemma flat_accessible (m : Z -> Z) lo hi : 0 < lo -> accessible m lo hi.
Proof. intros H p n H1 H2. cbn. lia. Qed.

Lemma flat_bytes_ok (m : Z -> Z) p bs : Forall is_byte bs -> bytes_ok m -> bytes_ok (flat_store m p bs).
Proof.
  intros Hb Hm a. cbn. unfold flat_store. destruct (Z.leb_spec p a), (Z.ltb_spec a (p + Z.of_nat (length bs))); cbn [andb]; [|apply Hm..].
  destruct (lookup_lt_is_Some_2 bs (Z.to_nat (a - p))) as [b E]; [lia|]. rewrite (list_lookup_total_correct _ _ _ E).
  rewrite Forall_forall in Hb. apply Hb. by apply list_elem_of_lookup_2 in E.
Qed.

(** Standard input, asked for input and output, then descriptor 7. *)
Definition two_entries : list Z := [0; 0; 0; 0; 5; 0; 255; 255; 7; 0; 0; 0; 1; 0; 255; 255].

Lemma poll_exact_witness :
  exists s', poll 4096 2 0 [] (demo [30] (flat_store (fun _ => 0) 4096 two_entries)) = Some (Some 1, s') /\
    entry_revents (mem_of s') 4096 = 5 /\ entry_revents (mem_of s') 4104 = 0.
Proof.
  destruct (poll_exact ltac:(apply Nat.ltb_lt; reflexivity) demo_tty true 4096 2 0 [] (demo [30] (flat_store (fun _ => 0) 4096 two_entries))) as (s' & E & Ha & _).
  - apply demo_like.
  - apply flat_accessible. lia.
  - discriminate.
  - lia.
  - reflexivity.
  - reflexivity.
  - right. reflexivity.
  - exists s'. split; [exact E|]. split; [apply (Ha 0)|apply (Ha 1)]; lia.
Defined.

Lemma timeout_counts_ticks_witness :
  exists s', wait_until_ready_or_timeout 3 (c ← poll_eval 4096 1; mret (0 <? c)) [[]; []; []] (demo [] (flat_store (fun _ => 0) 4096 [7; 0; 0; 0; 1; 0; 0; 0])) =
      Some (Some false, s') /\ (after_sleeps 3 100 - 100) * Sleep.TICK_MS = 30.
Proof.
  destruct (timeout_counts_ticks ltac:(apply Nat.ltb_lt; reflexivity) 3 100 [[]; []; []] demo_tty 4096 1
    (demo [] (flat_store (fun _ => 0) 4096 [7; 0; 0; 0; 1; 0; 0; 0]))) as (s' & E & H).
  - apply demo_like_quiet.
  - apply flat_accessible. lia.
  - vm_compute. reflexivity.
  - repeat constructor.
  - lia.
  - unfold U64_MAX. lia.
  - lia.
  - exists s'. split; [exact E|exact H].
Defined.

Lemma pselect_exact_witness :
  exists s', pselect6 10 4096 8192 0 [] (demo [30] (flat_store (flat_store (fun _ => 0) 4096 [129]) 8192 [2; 2])) = Some (Some 2, s') /\
    set_bit (mem_of s') 4096 0 = true /\ set_bit (mem_of s') 4096 7 = false /\ set_bit (mem_of s') 8192 1 = true /\ set_bit (mem_of s') 8192 9 = false.
Proof.
  assert (bytes_ok (flat_store (flat_store (fun _ => 0) 4096 [129]) 8192 [2; 2])) as Hb.
  { apply flat_bytes_ok; [apply (bool_decide_unpack _); exact I|]. apply flat_bytes_ok; [apply (bool_decide_unpack _); exact I|].
    intros a. vm_compute. split; congruence. }
  destruct (pselect_exact ltac:(apply Nat.ltb_lt; reflexivity) demo_tty true 10 4096 8192 [] (demo [30] (flat_store (flat_store (fun _ => 0) 4096 [129]) 8192 [2; 2])))
    as (s' & E & Hr & Hw & _).
  - apply demo_like.
  - lia.
  - lia.
  - right. split; [|reflexivity]. split; [vm_compute; split; congruence|apply flat_accessible; lia|exact Hb].
  - right. split; [|reflexivity]. split; [vm_compute; split; congruence|apply flat_accessible; lia|exact Hb].
  - right. right. left. vm_compute. discriminate.
  - vm_compute. reflexivity.
  - exists s'. split; [exact E|]. split; [apply (Hr ltac:(discriminate) 0); lia|]. split; [apply (Hr ltac:(discriminate) 7); lia|].
    split; [apply (Hw ltac:(discriminate) 1); lia|apply (Hw ltac:(discriminate) 9); lia].
Defined.

Lemma setpgid_exact_witness :
  exists s', setpgid 12 10 (demo [] (fun _ => 0)) = (SUCCESS, s') /\ getpgid 12 s' = 10 /\ setpgid 11 10 (demo [] (fun _ => 0)) = (EPERM, demo [] (fun _ => 0)).
Proof.
  pose proof (setpgid_exact 12 10 10 (demo [] (fun _ => 0)) SignalProps.demo_procs_wf eq_refl) as H.
  destruct (setpgid 12 10 (demo [] (fun _ => 0))) as [r s'] eqn:E. exists s'. destruct H as [(-> & _ & _ & H & _)|(_ & H)].
  - split; [reflexivity|]. split; [exact H|reflexivity].
  - apply (f_equal fst) in E. cbn [fst] in E. subst r. exfalso. destruct H as [[H _]|[H _]]; vm_compute in H; discriminate H.
Defined.
End PgroupProps.
