(* ===== verification/Mapper.v ===== *)
(** The page-table mapper of the x86_64 crate, as an interface.

    [src/core/mem/paging.rs] changes single pages of a user address space with
    [OffsetPageTable::map_to], [unmap] and [update_flags].  The crate is not part of
    the repository: [Mapper] states what its documentation promises of these calls on
    a table whose parts are distinct frames ([pt_inv]), and the clients are proved
    against that.  [walker] is a mapper that keeps the promises. *)

From Stdlib Require Import ZArith Lia.
From stdpp Require Import base list option numbers sets.
From S2P Require Import Prelude State Types UserMem Mem Frame Paging PageTree PageTables.
Import Mem Result Paging PageTree PageTables.

Local Open Scope Z_scope.
Local Open Scope kernel_scope.

Module Mapper.

Inductive MapToError := FrameAllocationFailed | ParentEntryHugePage | PageAlreadyMapped (frame : Z).
(** [UnmapError] and [FlagUpdateError] *)
Inductive PageError := ParentHugePage | PageNotMapped | InvalidFrameAddress.

(** The indices that lead to the lowest table of a page. *)
Definition l1_indices (a : Z) : list Z := [p4_index a; p3_index a; p2_index a].

(** The lowest table of a page, and the entry of the page in it. *)
Definition page_entry (m : mem) (t page : Z) : option (Z * Z) :=
  l1 ← table_at 4 m t (l1_indices page); Some (l1, read_entry m l1 (p1_index page)).

(** A 4 KiB page that is mapped. *)
Definition mapped_entry (e : Z) : bool := present e && negb (has (entry_flags e) HUGE_PAGE).

Class Mapper := {
  map_to (off t page frame flags : Z) : ST PMem (result unit MapToError);
  unmap (off t page : Z) : ST PMem (result Z PageError);
  update_flags (off t page flags : Z) : ST PMem (result unit PageError);
  (** "Removes a mapping from the page table and returns the frame that used to be
      mapped"; no table is freed. *)
  unmap_mapped off t s al page l1 e :
    0 <= off -> off + 2 ^ 52 <= U64_MODULUS -> pt_inv t s al -> canonical_u64 page -> page mod 4096 = 0 ->
    page_entry (ram s) t page = Some (l1, e) -> mapped_entry e = true ->
    unmap off t page s = Some (Ok (entry_addr e), written s l1 (p1_index page) 0);
  (** A page that is not mapped is an error, and so is one inside a huge page. *)
  unmap_missing off t s al page :
    0 <= off -> off + 2 ^ 52 <= U64_MODULUS -> pt_inv t s al -> canonical_u64 page -> page mod 4096 = 0 ->
    (forall l1 e, page_entry (ram s) t page = Some (l1, e) -> present e = false) ->
    exists err, unmap off t page s = Some (Err err, s);
  (** "Updates the flags of an existing mapping." *)
  update_flags_used off t s al page flags l1 e :
    0 <= off -> off + 2 ^ 52 <= U64_MODULUS -> pt_inv t s al -> canonical_u64 page -> page mod 4096 = 0 ->
    page_entry (ram s) t page = Some (l1, e) -> is_unused e = false ->
    update_flags off t page flags s = Some (Ok tt, written s l1 (p1_index page) (mk_entry (entry_addr e) flags));
  update_flags_missing off t s al page flags :
    0 <= off -> off + 2 ^ 52 <= U64_MODULUS -> pt_inv t s al -> canonical_u64 page -> page mod 4096 = 0 ->
    page_entry (ram s) t page = None ->
    exists err, update_flags off t page flags s = Some (Err err, s);
  (** "Creates a new mapping in the page table"; missing tables are made from frames
      of the allocator, and a page whose entry is in use is not touched. *)
  map_to_page off t s al page frame flags :
    0 <= off -> off + 2 ^ 52 <= U64_MODULUS -> pt_inv t s al -> canonical_u64 page -> page mod 4096 = 0 ->
    frame mod 4096 = 0 -> 0 <= frame < 2 ^ 52 -> plain_flags flags -> is_u64 flags ->
    has flags PRESENT = true -> has flags USER_ACCESSIBLE = true ->
    exists (r : result unit MapToError) s1 al1, extends t s s1 al al1 /\ pt_inv t s1 al1 /\ same_walks t s s1 /\
      match r with
      | Ok _ =>
          exists l1, page_entry (ram s1) t page = Some (l1, 0) /\ user_path t s1 page /\
            map_to off t page frame flags s = Some (Ok tt, written s1 l1 (p1_index page) (mk_entry frame flags))
      | Err (PageAlreadyMapped f) =>
          map_to off t page frame flags s = Some (Err (PageAlreadyMapped f), s1) /\
          exists l1 e, page_entry (ram s1) t page = Some (l1, e) /\ is_unused e = false /\ f = entry_addr e
      | Err e => map_to off t page frame flags s = Some (Err e, s1)
      end;
}.

(** ** A mapper *)

Section walker.

(** The entry of a page, when its tables are there. *)
Definition find_entry (t page : Z) : ST PMem (option (Z * Z)) := fun s => Some (page_entry (ram s) t page, s).

Definition walker_unmap (off t page : Z) : ST PMem (result Z PageError) :=
  r ← find_entry t page;
  match r with
  | None => mret (Err PageNotMapped)
  | Some (l1, e) =>
      if negb (present e) then mret (Err PageNotMapped)
      else if has (entry_flags e) HUGE_PAGE then mret (Err ParentHugePage)
      else set_unused l1 (p1_index page) ≫= fun _ => mret (Ok (entry_addr e))
  end.

Definition walker_update (off t page flags : Z) : ST PMem (result unit PageError) :=
  r ← find_entry t page;
  match r with
  | None => mret (Err PageNotMapped)
  | Some (l1, e) =>
      if is_unused e then mret (Err PageNotMapped)
      else put_entry l1 (p1_index page) (mk_entry (entry_addr e) flags) ≫= fun _ => mret (Ok tt)
  end.

Definition walker_map (off t page frame flags : Z) : ST PMem (result unit MapToError) :=
  ensure_l1 off t page true ≫= fun r =>
  match r with
  | Err (KMemory Memory_AlreadyMapped) => mret (Err ParentEntryHugePage)
  | Err _ => mret (Err FrameAllocationFailed)
  | Ok l1 =>
      e ← get_entry l1 (p1_index page);
      if negb (is_unused e) then mret (Err (PageAlreadyMapped (entry_addr e)))
      else put_entry l1 (p1_index page) (mk_entry frame flags) ≫= fun _ => mret (Ok tt)
  end.
End walker.

#[export] Instance walker : Mapper.
Proof.
  refine {| map_to := walker_map; unmap := walker_unmap; update_flags := walker_update |}.
  - intros off t s al page l1 e _ _ _ _ _ He Hm. unfold walker_unmap. rewrite (st_bind_eq _ _ s (Some (l1, e)) s) by (unfold find_entry; by rewrite He).
    unfold mapped_entry in Hm. apply andb_prop in Hm as [-> Hh%negb_true_iff]. by rewrite Hh.
  - intros off t s al page _ _ _ _ _ Hn. exists PageNotMapped. unfold walker_unmap.
    rewrite (st_bind_eq _ _ s (page_entry (ram s) t page) s) by done. destruct (page_entry _ _ _) as [[l1 e]|]; [|done]. by rewrite (Hn l1 e).
  - intros off t s al page flags l1 e _ _ _ _ _ He Hm. unfold walker_update. rewrite (st_bind_eq _ _ s (Some (l1, e)) s) by (unfold find_entry; by rewrite He).
    by rewrite Hm.
  - intros off t s al page flags _ _ _ _ _ Hn. exists PageNotMapped. unfold walker_update. by rewrite (st_bind_eq _ _ s None s) by (unfold find_entry; by rewrite Hn).
  - intros off t s al page frame flags Ho Ho' Hinv Hc Ha Hf Hr Hp Hu Hpr Hus.
    destruct (ensure_l1_spec t off Ho Ho' s al page true Hinv) as (r & s1 & al1 & E & V & X & W & R). unfold walker_map.
    destruct r as [l1|e].
    + destruct R as [L1 U].
      set (e := read_entry (ram s1) l1 (p1_index page)).
      assert (page_entry (ram s1) t page = Some (l1, e)) as Hpe by (unfold page_entry, l1_indices; by rewrite L1).
      destruct (is_unused e) eqn:Eu.
      * exists (Ok tt), s1, al1. split; [done|]. split; [done|]. split; [done|]. exists l1. split; [|split; [by apply U|]].
        { rewrite Hpe. unfold is_unused in Eu. apply Z.eqb_eq in Eu. by rewrite Eu. }
        rewrite (st_bind_eq _ _ _ _ _ E). cbn beta iota. rewrite (st_bind_eq _ _ s1 e s1) by done. by rewrite Eu.
      * exists (Err (PageAlreadyMapped (entry_addr e))), s1, al1. split; [done|]. split; [done|]. split; [done|].
        rewrite (st_bind_eq _ _ _ _ _ E). cbn beta iota. rewrite (st_bind_eq _ _ s1 e s1) by done. rewrite Eu. split; [done|]. by exists l1, e.
    + destruct R as [-> |[-> _]].
      * exists (Err FrameAllocationFailed), s1, al1. split; [done|]. split; [done|]. split; [done|]. by rewrite (st_bind_eq _ _ _ _ _ E).
      * exists (Err ParentEntryHugePage), s1, al1. split; [done|]. split; [done|]. split; [done|]. by rewrite (st_bind_eq _ _ _ _ _ E).
Defined.
End Mapper.
