(* ===== verification/UserPages.v ===== *)
(** The user's pages in a page table: what a change of one lowest-level entry does to
    the user's view, returning frames, and address spaces whose pages are frames of
    their own. *)

From Stdlib Require Import ZArith Lia.
From stdpp Require Import base list option numbers sets.
From S2P Require Import Prelude State Types UserMem Mem Frame Paging PageTree PageTables Segment SegmentProps Mapper.
Import Mem Result Paging PageTree PageTables Mapper.

Local Open Scope Z_scope.

Module UserPages.

(** ** The user's walk *)

(** All entries along a path are open to the user. *)
Fixpoint opened (lvl : nat) (m : mem) (x : Z) (q : list Z) : bool :=
  match q with
  | [] => true
  | i :: q =>
      let e := read_entry m x i in
      user_ok e && match descend lvl e with Some y => opened (pred lvl) m y q | None => true end
  end.

(** The flags a user access finds. *)
Fixpoint uwalk (lvl : nat) (m : mem) (x : Z) (path : list Z) : option Z :=
  match path with
  | [] => None
  | i :: r =>
      let e := read_entry m x i in
      if negb (user_ok e) then None
      else match r with
           | [] => Some (entry_flags e)
           | _ => match descend lvl e with
                  | Some y => uwalk (pred lvl) m y r
                  | None => Some (entry_flags e)
                  end
           end
  end.

Lemma user_ok_is_present e : user_ok e = true -> present e = true.
Proof. unfold user_ok, present. destruct (is_unused e), (has _ PRESENT); done. Qed.

Lemma uwalk_app lvl m x q y j r :
  table_at lvl m x q = Some y ->
  uwalk lvl m x (q ++ j :: r) = if opened lvl m x q then uwalk (lvl - length q) m y (j :: r) else None.
Proof.
  revert lvl x. induction q as [|i q IH]; intros lvl x; cbn [table_at app length opened]; [intros [= ->]; by rewrite Nat.sub_0_r|].
  destruct (descend lvl _) as [x'|] eqn:E; [|done]. cbn [mbind option_bind]. intros H%IH.
  transitivity (if user_ok (read_entry m x i) then uwalk (pred lvl) m x' (q ++ j :: r) else None).
  - destruct q; cbn [app uwalk]; rewrite E; by destruct (user_ok _).
  - rewrite H. destruct (user_ok _); cbn [andb]; [|done]. by replace (pred lvl - length q)%nat with (lvl - S (length q))%nat by lia.
Qed.

(** Only the entries on the way matter. *)
Lemma opened_ext m m' lvl x q :
  (forall p y j r, q = p ++ j :: r -> table_at lvl m x p = Some y -> read_entry m' y j = read_entry m y j) ->
  opened lvl m' x q = opened lvl m x q.
Proof.
  revert lvl x. induction q as [|i q IH]; intros lvl x H; [done|]. cbn [opened]. rewrite (H [] x i q) by done.
  f_equal. destruct (descend lvl _) as [y|] eqn:E; [|done]. apply IH. intros p z j r -> Hz. apply (H (i :: p) z j r); [done|].
  cbn [table_at]. by rewrite E.
Qed.

Lemma uwalk_ext m m' lvl x path :
  (forall p y j r, path = p ++ j :: r -> table_at lvl m x p = Some y -> read_entry m' y j = read_entry m y j) ->
  uwalk lvl m' x path = uwalk lvl m x path.
Proof.
  revert lvl x. induction path as [|i r IH]; intros lvl x H; [done|]. cbn [uwalk]. rewrite (H [] x i r) by done.
  destruct (negb _); [done|]. destruct r as [|j r]; [done|]. destruct (descend lvl _) as [y|] eqn:E; [|done].
  apply IH. intros p z k r' Hp Hz. apply (H (i :: p) z k r'); [by rewrite Hp|]. cbn [table_at]. by rewrite E.
Qed.

(** ** Returning a frame *)

Lemma sound_perm s al al' : sound s al -> al ≡ₚ al' -> sound s al'.
Proof.
  intros [(a & fl & H1 & [Hc Hnd Hf Hn Ho] & H3) H4] Hp. split; [|done]. exists a, fl. split; [done|]. split; [|done]. split; [done| | |done|done].
  - by rewrite <-Hp.
  - by rewrite <-Hp.
Qed.

Lemma sound_u64 a p : below52 (Frame.memory_map a) -> Frame.is_frame a p -> is_u64 p.
Proof.
  intros Hb (_ & Hu & _). apply (Frame.usable_u64 a); [|done]. apply (Forall_impl _ _ _ Hb). intros r. unfold U64_MODULUS. lia.
Qed.

Lemma sound_release s al al' f :
  sound s al -> al ≡ₚ f :: al' ->
  exists s', release_frame f s = Some (tt, s') /\ sound s' al' /\ (forall z, ~ in_frame f z -> ram s' z = ram s z).
Proof.
  intros Hs Hp. apply (sound_perm _ _ _ Hs) in Hp as [(a & fl & Ha & Hf & Hb) Hm]. clear Hs.
  unfold release_frame, Frame.deallocate_frame. rewrite Ha. destruct (decide (Frame.phys_offset a = 0)) as [E|E].
  - rewrite (Frame.deallocate_zero_offset f a _ E). eexists. split; [done|]. cbn. split; [|done]. split; [|done].
    exists a, fl. split; [done|]. split; [by apply Frame.alloc_inv_drop in Hf|done].
  - assert (forall q, q ∈ fl ++ f :: al' -> is_u64 q) as Hq.
    { intros q Hq. pose proof (Frame.ai_frames _ _ _ _ Hf) as Hfr. rewrite Forall_elem in Hfr. by apply (sound_u64 a), Hfr. }
    destruct (Frame.deallocate_sound a (ram s) fl al' f Hf E) as (a' & m' & Ed & Hi & Ho & Hmm & _); [intros q ?; apply Hq; set_solver|apply Hq; set_solver|].
    rewrite Ed. eexists. split; [done|]. cbn. split; [|intros z Hz; apply Ho; unfold in_frame in Hz; lia]. split.
    + exists a', (f :: fl). split; [done|]. split; [done|]. by rewrite Hmm.
    + revert Ed. unfold Frame.deallocate. destruct (_ || _) eqn:?; [by intros [=]|]. destruct (Frame.phys_offset a =? 0) eqn:?; [by intros [=]|].
      intros [= _ <-]. apply mem_wf_store; [done|apply to_le_bytes_byte].
Qed.

Section pages.
Context (off t : Z) (Hoff : 0 <= off) (Hoff' : off + 2 ^ 52 <= U64_MODULUS).

(** The flags the user finds at a page of the lower half. *)
Definition uflags (s : PMem) (a : Z) : option Z := user_page_flags_in_table (Some off) (ram s) t a.

Lemma uflags_uwalk s al a : pt_inv t s al -> uflags s a = if 256 <=? p4_index a then None else uwalk 4 (ram s) t (addr_path a).
Proof.
  intros Hinv. destruct (root_frame t s al Hinv) as [Ht1 Ht2]. unfold uflags, user_page_flags_in_table. cbn [mbind option_bind].
  rewrite land_4095, Ht1. cbn [Z.eqb negb]. assert (reachable off t = Some tt) as ->.
  { unfold reachable. by rewrite (proj2 (checked_add64_Some _ _ (t + off))) by lia. }
  cbn [mbind option_bind]. destruct (256 <=? p4_index a); [done|]. rewrite !reachable_entry by done. cbn [mbind option_bind].
  unfold addr_path. cbn [uwalk pred]. set (e4 := read_entry (ram s) t (p4_index a)).
  destruct (user_ok e4) eqn:U4; cbn [negb]; [|done]. unfold descend at 1. rewrite (user_ok_is_present _ U4). cbn [Nat.eqb orb andb].
  set (e3 := read_entry (ram s) (entry_addr e4) (p3_index a)). destruct (user_ok e3) eqn:U3; cbn [negb]; [|done].
  unfold descend at 1. rewrite (user_ok_is_present _ U3). cbn [Nat.eqb orb andb]. destruct (has (entry_flags e3) HUGE_PAGE); cbn [negb]; [done|].
  set (e2 := read_entry (ram s) (entry_addr e3) (p2_index a)). destruct (user_ok e2) eqn:U2; cbn [negb]; [|done].
  unfold descend. rewrite (user_ok_is_present _ U2). cbn [Nat.eqb orb andb]. by destruct (has (entry_flags e2) HUGE_PAGE).
Qed.

Lemma addr_path_l1 a : addr_path a = l1_indices a ++ [p1_index a].
Proof. done. Qed.

Lemma l1_table_path a : table_path (l1_indices a).
Proof. exact (SegmentProps.l1_path a). Qed.

Lemma page_entry_table m a l1 e : page_entry m t a = Some (l1, e) -> table_at 4 m t (l1_indices a) = Some l1 /\ e = read_entry m l1 (p1_index a).
Proof. unfold page_entry. destruct (table_at _ _ _ _); [|done]. by intros [= -> <-]. Qed.

(** A user page of 4 KiB: its flags are those of its entry. *)
Lemma uflags_entry s al a l1 e f :
  pt_inv t s al -> page_entry (ram s) t a = Some (l1, e) -> uflags s a = Some f -> user_ok e = true /\ f = entry_flags e.
Proof.
  intros Hinv [L1 ->]%page_entry_table. rewrite (uflags_uwalk s al) by done. destruct (256 <=? _); [done|].
  rewrite addr_path_l1, (uwalk_app _ _ _ _ l1) by done. destruct (opened _ _ _ _); [|done]. cbn. destruct (user_ok _); cbn; [|done]. by intros [= <-].
Qed.

(** *** A write to a lowest-level entry *)

Section write.
Context (s : PMem) (al : list Z) (a l1 e e' : Z).
Context (Hinv : pt_inv t s al) (Ha : canonical_u64 a) (He : page_entry (ram s) t a = Some (l1, e)) (Hu : is_u64 e').

Notation s' := (written s l1 (p1_index a) e').

Lemma write_tables : pt_inv t s' al /\ forall q, table_path q -> table_at 4 (ram s') t q = table_at 4 (ram s) t q.
Proof.
  destruct (page_entry_table _ _ _ _ He) as [L1 _].
  destruct (write_leaf t s al _ l1 (p1_index a) e' Hinv (l1_table_path a) L1 (index_range _ _) Hu eq_refl) as (H1 & H2 & _). done.
Qed.

Lemma write_entry_elsewhere q y j :
  table_path q -> idx j -> table_at 4 (ram s) t q = Some y -> q ++ [j] <> addr_path a -> read_entry (ram s') y j = read_entry (ram s) y j.
Proof.
  intros Hq Hj Hy Hn. destruct (page_entry_table _ _ _ _ He) as [L1 _].
  by apply (written_other t s al _ l1 (p1_index a) e' Hinv (l1_table_path a) L1 (index_range _ _) q).
Qed.

Lemma write_here : read_entry (ram s') l1 (p1_index a) = e'.
Proof. by apply read_write_entry. Qed.

Lemma write_page_entry b :
  canonical_u64 b ->
  page_entry (ram s') t b = if decide (b / 4096 = a / 4096) then Some (l1, e') else page_entry (ram s) t b.
Proof.
  intros Hb. destruct write_tables as [_ Ht]. unfold page_entry. rewrite Ht by apply l1_table_path.
  destruct (decide (b / 4096 = a / 4096)) as [E|E].
  - apply addr_path_inj in E; [|done|done]. rewrite !addr_path_l1 in E. apply app_inj_tail in E as [E1 E2]. rewrite E1, E2.
    destruct (page_entry_table _ _ _ _ He) as [-> _]. cbn [mbind option_bind]. by rewrite write_here.
  - destruct (table_at _ _ _ _) as [y|] eqn:Ey; [|done]. cbn. f_equal. f_equal.
    apply (write_entry_elsewhere (l1_indices b)); [apply l1_table_path|apply index_range|done|]. rewrite <-addr_path_l1.
    intros H%addr_path_inj; done.
Qed.

Lemma write_opened q : table_path q -> opened 4 (ram s') t q = opened 4 (ram s) t q.
Proof.
  intros [Hl Hq]. apply opened_ext. intros p y j r Hp Hy. rewrite Hp in Hq, Hl. rewrite length_app in Hl. cbn in Hl.
  apply Forall_app in Hq as [Hpi Hjr]. apply list.Forall_cons in Hjr as [Hj _].
  apply (write_entry_elsewhere p); [split; [lia|done]|done|done|]. intros E%(f_equal length). rewrite length_app in E. cbn in E. lia.
Qed.

Lemma write_uflags b :
  canonical_u64 b ->
  uflags s' b = if decide (b / 4096 = a / 4096)
                then if (256 <=? p4_index a) || negb (opened 4 (ram s) t (l1_indices a)) || negb (user_ok e') then None else Some (entry_flags e')
                else uflags s b.
Proof.
  intros Hb. destruct write_tables as [V Ht]. rewrite (uflags_uwalk s' al b V), (uflags_uwalk s al b Hinv).
  destruct (decide (b / 4096 = a / 4096)) as [E|E].
  - apply addr_path_inj in E; [|done|done]. rewrite E. assert (p4_index b = p4_index a) as -> by (by injection E).
    destruct (256 <=? p4_index a); [done|]. destruct (page_entry_table _ _ _ _ He) as [L1 _].
    rewrite addr_path_l1, (uwalk_app _ _ _ _ l1) by (by rewrite Ht by apply l1_table_path).
    rewrite write_opened by apply l1_table_path.
    destruct (opened _ _ _ _); cbn [orb negb]; [|done]. cbn [uwalk]. rewrite write_here. by destruct (user_ok e').
  - destruct (256 <=? p4_index b); [done|]. apply uwalk_ext. intros p y j r Hp Hy. destruct (SegmentProps.path_parts b p j r Hp) as (_ & Hj & Htp).
    apply (write_entry_elsewhere p); [done|done|done|]. intros E'. apply E, addr_path_inj; [done|done|]. rewrite Hp.
    apply (f_equal length) in Hp as Hl. apply (f_equal length) in E' as Hl'. rewrite length_app in Hl, Hl'. cbn in Hl, Hl'.
    destruct r; [done|]. cbn in Hl. lia.
Qed.

Lemma write_translate b :
  canonical_u64 b ->
  translate_addr_in_table (Some off) (ram s') t b =
  if decide (b / 4096 = a / 4096) then if present e' then Some (entry_addr e' + b mod 4096, entry_flags e') else None
  else translate_addr_in_table (Some off) (ram s) t b.
Proof. intros Hb. destruct (page_entry_table _ _ _ _ He) as [L1 _]. by apply (leaf_translate t off Hoff Hoff' s al). Qed.

(** Bytes that are not in a table are kept. *)
Lemma write_bytes_kept z : (forall q y, table_path q -> table_at 4 (ram s) t q = Some y -> ~ in_frame y z) -> ram s' z = ram s z.
Proof.
  intros Hz. destruct (page_entry_table _ _ _ _ He) as [L1 _]. apply write_entry_other; [apply index_range|].
  pose proof (Hz _ _ (l1_table_path a) L1) as Hn. unfold in_frame in Hn. lia.
Qed.
End write.

Lemma pt_release s al al' f :
  pt_inv t s al -> al ≡ₚ f :: al' -> (forall q, table_path q -> table_at 4 (ram s) t q <> Some f) ->
  exists s', release_frame f s = Some (tt, s') /\ pt_inv t s' al' /\ same_walks t s s' /\
    (forall q, table_path q -> table_at 4 (ram s') t q = table_at 4 (ram s) t q) /\
    (forall q y j, table_path q -> idx j -> table_at 4 (ram s) t q = Some y -> read_entry (ram s') y j = read_entry (ram s) y j) /\
    (forall z, ~ in_frame f z -> ram s' z = ram s z).
Proof.
  intros Hinv Hp Hnt. destruct (sound_release s al al' f (pt_sound t s al Hinv) Hp) as (s' & E & [Hs1 Hs2] & Hz).
  destruct (held_frame t s al f Hinv) as [Hfa _]; [rewrite Hp; left|].
  destruct (outside_frame t s al (ram s') f Hinv Hfa Hnt Hz) as (H1 & H2 & H3).
  exists s'. split; [done|]. split; [|split; [intros r; apply H3|done]]. split; [done|done| |].
  - intros p q x Hpp Hq. rewrite !H1 by done. by apply (pi_inj _ _ _ Hinv).
  - intros p x Hpp. rewrite H1 by done. intros Hx. pose proof (pi_held _ _ _ Hinv p x Hpp Hx) as Hin. rewrite Hp in Hin.
    apply elem_of_cons in Hin as [->|Hin]; [by destruct (Hnt p Hpp)|done].
Qed.

(** A change that no table sees leaves the user's view alone. *)
Lemma same_tables_view s s' al al' b :
  pt_inv t s al -> pt_inv t s' al' ->
  (forall q, table_path q -> table_at 4 (ram s') t q = table_at 4 (ram s) t q) ->
  (forall q y j, table_path q -> idx j -> table_at 4 (ram s) t q = Some y -> read_entry (ram s') y j = read_entry (ram s) y j) ->
  uflags s' b = uflags s b /\ page_entry (ram s') t b = page_entry (ram s) t b.
Proof.
  intros V V' Ht Hr. split.
  - rewrite (uflags_uwalk s' al' b V'), (uflags_uwalk s al b V). destruct (_ <=? _); [done|]. apply uwalk_ext. intros p y j r Hp Hy.
    destruct (SegmentProps.path_parts b p j r Hp) as (_ & Hj & Htp). by apply (Hr p).
  - unfold page_entry. rewrite Ht by apply l1_table_path. destruct (table_at _ _ _ _) as [y|] eqn:Ey; [|done]. cbn [mbind option_bind].
    by rewrite (Hr (l1_indices b)) by (done || apply l1_table_path || apply index_range).
Qed.

(** ** Address spaces with pages of their own *)

(** The user's pages are 4 KiB pages, each with a frame that the kernel has handed out,
    that is not one of the tables and that no other page uses. *)
Record private (s : PMem) (al : list Z) : Prop := {
  pv_small a f : canonical_u64 a -> uflags s a = Some f -> exists l1 e, page_entry (ram s) t a = Some (l1, e) /\ mapped_entry e = true;
  pv_held a f l1 e : canonical_u64 a -> uflags s a = Some f -> page_entry (ram s) t a = Some (l1, e) ->
    entry_addr e ∈ al /\ forall q, table_path q -> table_at 4 (ram s) t q <> Some (entry_addr e);
  pv_apart a b f g l1 e l1' e' : canonical_u64 a -> canonical_u64 b -> a / 4096 <> b / 4096 ->
    uflags s a = Some f -> uflags s b = Some g -> page_entry (ram s) t a = Some (l1, e) -> page_entry (ram s) t b = Some (l1', e') ->
    entry_addr e <> entry_addr e';
}.

(** What a page of the user shows. *)
Lemma private_translate s al a f l1 e :
  pt_inv t s al -> uflags s a = Some f -> page_entry (ram s) t a = Some (l1, e) ->
  translate_addr_in_table (Some off) (ram s) t a = Some (entry_addr e + a mod 4096, f).
Proof.
  intros Hinv Hu He. destruct (uflags_entry s al a l1 e f Hinv He Hu) as [Hok ->].
  destruct (page_entry_table _ _ _ _ He) as [L1 ->]. rewrite (translate_walk t off Hoff Hoff' s al) by done.
  rewrite addr_path_l1, (walk_app _ _ _ _ l1) by done. cbn. by rewrite (user_ok_is_present _ Hok).
Qed.
End pages.
End UserPages.
