(* ===== verification/HeapMap.v ===== *)
(** Mapping zeroed memory over pages that may already be there: what the segment loader
    does for [brk] and [mmap], which call it without file contents. *)

From Stdlib Require Import ZArith Lia.
From stdpp Require Import base list option numbers sets.
From S2P Require Import Prelude State Types UserMem Mem Frame Paging PageTree PageTables Segment SegmentProps Mapper UserPages.
Import Mem Result Paging PageTree PageTables Segment SegmentProps Mapper UserPages.

Local Open Scope Z_scope.
Local Open Scope kernel_scope.

Module HeapMap.

(** The flags of heap pages: for the user, writable, not executable. *)
Definition FL : Z := final_flags true false.

Section heap.
Context (off t : Z) (Hoff : 0 <= off) (Hoff' : off + 2 ^ 52 <= U64_MODULUS).
Notation translate s a := (translate_addr_in_table (Some off) (ram s) t a).

(** The byte the address space shows at an address. *)
Definition content (s : PMem) (a : Z) : option Z := (fun pf => ram s pf.1) <$> translate s a.

(** A byte of a heap page, in a frame that is in use and not a table. *)
Definition heap_byte (s : PMem) (al : list Z) (a : Z) : Prop :=
  exists z, translate s a = Some (z, FL) /\ data_byte (ram s) t al z.

(** Pages that can be given to the heap: free, or heap pages already. *)
Definition ready (s : PMem) (al : list Z) (a : Z) : Prop := vacant t s a \/ heap_byte s al a.

(** *** Walks *)

Lemma vacant_walk s a : vacant t s a -> walk 4 (ram s) t (addr_path a) = None.
Proof.
  intros Hv. assert (forall p x i r, addr_path a = p ++ i :: r -> table_at 4 (ram s) t p = Some x -> walk (4 - length p) (ram s) x (i :: r) = None) as H.
  { intros p x i r. revert p x i. induction r as [|j r IH]; intros p x i Hp Hx.
    - pose proof (Hv p i [] x Hp Hx) as Hf. assert (4 - length p = 1)%nat as E.
      { apply (f_equal length) in Hp. rewrite length_app in Hp. cbn in Hp. lia. }
      rewrite E in *. destruct Hf as [Hf|[Hf _]]; [|done]. cbn [walk]. by rewrite Hf.
    - pose proof (Hv p i (j :: r) x Hp Hx) as Hf. cbn [walk]. destruct Hf as [Hf|[_ Hf]]; [by rewrite Hf|].
      rewrite (proj1 (descend_present _ _ _ Hf)), Hf. replace (pred (4 - length p)) with (4 - length (p ++ [i]))%nat by (rewrite length_app; cbn; lia).
      apply IH; [by rewrite <-app_assoc|]. rewrite table_at_app, Hx. cbn. by rewrite Hf. }
  apply (H [] t (p4_index a) [p3_index a; p2_index a; p1_index a]); done.
Qed.

Lemma vacant_content s al a : pt_inv t s al -> vacant t s a -> content s a = None.
Proof. intros Hinv Hv. unfold content. by rewrite (translate_walk t off Hoff Hoff' s al), vacant_walk. Qed.

(** A walk that does not end at a huge page ends in the lowest table. *)
Lemma walk_small m a e k :
  walk 4 m t (addr_path a) = Some (e, k) -> has (entry_flags e) HUGE_PAGE = false ->
  k = 12 /\ present e = true /\ exists l1, page_entry m t a = Some (l1, e).
Proof.
  intros Hw Hh. unfold addr_path in Hw. cbn [walk] in Hw. unfold page_entry, l1_indices. cbn [table_at].
  set (e4 := read_entry m t (p4_index a)) in *. destruct (present e4) eqn:P4; [|done].
  assert (descend 4 e4 = Some (entry_addr e4)) as E4 by (unfold descend; by rewrite P4). rewrite E4 in Hw |- *. cbn [mbind option_bind pred] in Hw |- *.
  set (e3 := read_entry m (entry_addr e4) (p3_index a)) in *. destruct (present e3) eqn:P3; [|done].
  destruct (descend 3 e3) as [l2|] eqn:E3.
  2:{ injection Hw as <- <-. unfold descend in E3. rewrite P3, Hh in E3. done. }
  cbn [mbind option_bind pred] in Hw |- *.
  set (e2 := read_entry m l2 (p2_index a)) in *. destruct (present e2) eqn:P2; [|done].
  destruct (descend 2 e2) as [l1|] eqn:E2.
  2:{ injection Hw as <- <-. unfold descend in E2. rewrite P2, Hh in E2. done. }
  cbn [mbind option_bind pred] in Hw |- *. destruct (present (read_entry m l1 (p1_index a))) eqn:P1; [|done]. injection Hw as <- <-.
  split; [done|]. split; [done|]. by exists l1.
Qed.

Lemma page_entry_upper s a l1 e : page_entry (ram s) t a = Some (l1, e) -> upper_fine t s a.
Proof.
  intros [L1 _]%page_entry_table p i r x Hr Hp Hx. destruct r as [|j r _] using rev_ind; [done|]. clear Hr.
  rewrite app_comm_cons, app_assoc, addr_path_l1 in Hp. apply app_inj_tail in Hp as [Hp _]. rewrite Hp, table_at_app, Hx in L1.
  cbn [mbind option_bind table_at] in L1. right. apply (f_equal length) in Hp. rewrite length_app in Hp. cbn in Hp. split; [lia|].
  destruct (descend _ _) as [y|] eqn:E; [|done]. by destruct (descend_present _ _ _ E) as [_ <-].
Qed.

Lemma heap_entry s al a :
  pt_inv t s al -> heap_byte s al a ->
  exists l1 e, page_entry (ram s) t a = Some (l1, e) /\ entry_flags e = FL /\ present e = true /\ translate s a = Some (entry_addr e + a mod 4096, FL) /\
    data_byte (ram s) t al (entry_addr e + a mod 4096).
Proof.
  intros Hinv (z & Hz & Hd). pose proof Hz as Hz'. rewrite (translate_walk t off Hoff Hoff' s al) in Hz' by done.
  destruct (walk _ _ _ _) as [[e k]|] eqn:Ew; [|done]. cbn in Hz'. injection Hz' as E1 E2.
  destruct (walk_small _ _ _ _ Ew) as (-> & Hp & l1 & He); [by rewrite E2|]. exists l1, e. change (2 ^ 12) with 4096 in E1. rewrite E1. done.
Qed.

Lemma ready_upper s al a : pt_inv t s al -> ready s al a -> upper_fine t s a.
Proof. intros Hinv [Hv|Hh]; [by apply vacant_upper|]. destruct (heap_entry s al a Hinv Hh) as (l1 & e & He & _). by apply (page_entry_upper s a l1 e). Qed.

(** *** A page that is there *)

Lemma entry_parts e : mk_entry (entry_addr e) (entry_flags e) = e.
Proof.
  unfold mk_entry, entry_addr, entry_flags. apply Z.bits_inj'. intros k Hk. rewrite Z.lor_spec, Z.land_spec, Z.ldiff_spec.
  by destruct (Z.testbit e k), (Z.testbit ADDR_MASK k).
Qed.

Lemma merge_heap e : entry_flags e = FL -> is_unused e = false -> merge_entry e FL = KeepOld (entry_addr e) FL.
Proof. intros Hf Hu. unfold merge_entry. by rewrite Hu, Hf. Qed.

(** Mapping over a heap page changes nothing the user can see. *)
Lemma map_kept_page s al page vaddr :
  pt_inv t s al -> canonical_u64 page -> heap_byte s al page ->
  exists r s' al', map_one_page off t vaddr vaddr page [] FL s = Some (r, s') /\ pt_inv t s' al' /\ keeps t s s' al al' /\ same_walks t s s' /\
    (forall b, vacant t s b -> vacant t s' b) /\ match r with Ok _ => True | Err e => e = KMemory Memory_OutOfMemory end.
Proof.
  intros Hinv Hc Hh. destruct (heap_entry s al page Hinv Hh) as (l1 & e & He & Hf & Hp & _ & _). unfold map_one_page.
  destruct (ensure_spec off t Hoff Hoff' s al page Hinv (page_entry_upper s page l1 e He)) as (r & s1 & al1 & E & V1 & X & W & R).
  pose proof (fun b => vacant_extends t s s1 al al1 b X) as Hv1.
  destruct r as [[]|er].
  2:{ rewrite (try_bind_err _ _ _ _ _ E). eexists _, s1, al1. split; [done|]. split; [done|]. split; [by apply keeps_extends|]. done. }
  rewrite (try_bind_ok _ _ _ _ _ E).
  destruct (allocate_outcome t s1 al1 V1) as [Ea|(n & s2 & Ea & Hni & Hso & Hm)].
  { rewrite (try_bind_err _ _ _ _ _ Ea). eexists _, s1, al1. split; [done|]. split; [done|]. split; [by apply keeps_extends|]. done. }
  rewrite (try_bind_ok _ _ _ _ _ Ea). destruct (fresh_frame t s1 al1 n s2 V1 Hni Hso Hm) as (V3 & W3 & T3 & R3 & _ & M3).
  set (s3 := mkPM (frames s2) (zero (ram s2) n 4096)) in *. destruct (held_frame t s3 (n :: al1) n V3) as [_ Hnr]; [left|].
  rewrite (try_bind_ok _ _ _ tt s2) by (apply check_sum_ok; lia). rewrite (st_bind_eq _ _ _ tt s3) by reflexivity. clearbody s3.
  pose proof (same_walks_trans t _ _ _ W W3) as W13.
  assert (page_entry (ram s3) t page = Some (l1, e)) as He3.
  { destruct (page_entry_table t _ _ _ _ He) as [L1 Hel]. destruct (walk_small (ram s3) page e 12) as (_ & _ & l1' & He'); [|by rewrite Hf|].
    - rewrite W13 by (done || apply addr_path_idx). rewrite addr_path_l1, (walk_app _ _ _ _ l1) by done. cbn. by rewrite <-Hel, Hp.
    - rewrite He'. do 2 f_equal. apply page_entry_table in He' as [L1' _]. rewrite T3 in L1' by apply l1_table_path.
      pose proof (ex_tables _ _ _ _ _ X _ _ (l1_table_path page) L1). congruence. }
  destruct (page_entry_table t _ _ _ _ He3) as [L3 Hel3]. rewrite (try_bind_ok _ _ _ _ _ (walk_to_l1_spec off t Hoff' s3 _ page l1 V3 L3)).
  rewrite (st_bind_eq _ _ _ e s3) by (unfold get_entry; by rewrite Hel3).
  rewrite merge_heap by (done || (unfold present in Hp; by destruct (is_unused e))). cbn beta iota.
  pose proof (entry_addr_range e) as Hr. pose proof (entry_addr_aligned e) as Hal.
  set (s4 := written s3 l1 (p1_index page) (mk_entry (entry_addr e) FL)).
  rewrite (st_bind_eq _ _ _ tt s4) by (apply set_addr_written; [done|lia]).
  assert (mk_entry (entry_addr e) FL = e) as Hsame by (rewrite <-Hf; apply entry_parts).
  assert (is_u64 (mk_entry (entry_addr e) FL)) as Heu by (rewrite Hsame, Hel3; apply read_u64_range, (pi_mem _ _ _ V3)).
  destruct (write_tables t s3 _ page l1 e (mk_entry (entry_addr e) FL) V3 He3 Heu) as [V4 T4]. fold s4 in V4, T4.
  assert (forall q y j, table_path q -> idx j -> table_at 4 (ram s3) t q = Some y -> read_entry (ram s4) y j = read_entry (ram s3) y j) as R4.
  { intros q y j Hq Hj Hy. destruct (decide (q ++ [j] = addr_path page)) as [Eq|Ne].
    - rewrite addr_path_l1 in Eq. apply app_inj_tail in Eq as [-> ->]. assert (y = l1) as -> by congruence.
      unfold s4, written. cbn [ram]. by rewrite read_write_entry, Hsame.
    - by apply (write_entry_elsewhere t s3 (n :: al1) page l1 e _ V3 He3 q). }
  assert (same_walks t s3 s4) as W4.
  { intros rr Hl Hrr. destruct (write_leaf t s3 (n :: al1) _ l1 (p1_index page) _ V3 (l1_table_path page) L3 (index_range _ _) Heu eq_refl) as (_ & _ & Hw).
    fold s4 in Hw. rewrite Hw by done. destruct (decide _) as [->|]; [|done]. rewrite (walk_app _ _ _ _ l1) by done. cbn. by rewrite <-Hel3, Hsame, Hp. }
  assert (forall q, table_path q -> table_at 4 (ram s4) t q <> Some n) as Hnt.
  { intros q Hq. rewrite T4, T3 by done. intros Hx. by apply Hni, (pi_held _ _ _ V1 q). }
  destruct (pt_release t s4 (n :: al1) al1 n V4 (reflexivity _) Hnt) as (s5 & E5 & V5 & W5 & T5 & R5 & B5).
  rewrite (st_bind_eq _ _ _ _ _ E5).
  assert (copy_part (entry_addr e) vaddr vaddr page [] s5 = Some (tt, s5)) as E6.
  { unfold copy_part. by rewrite (proj2 (Z.ltb_ge _ _)) by lia. }
  rewrite (st_bind_eq _ _ _ _ _ E6). eexists (Ok tt), s5, al1. split; [done|]. split; [done|]. split; [|split; [|split; [|done]]].
  - apply (keeps_trans t s s1 s5 al al1); [by apply keeps_extends|]. intros z Hz. destruct Hz as [(b & Hb & Hbz) Hz].
    destruct (held_frame t s1 al1 b V1 Hb) as [Hba _]. assert (~ in_frame n z) as Hnz.
    { apply (frames_apart b); [done|apply (held_frame t s3 (n :: al1) n V3); left|intros ->; done|done]. }
    split.
    + rewrite B5 by done. transitivity (ram s3 z); [|by apply M3]. unfold s4. apply (write_bytes_kept t s3 page l1 e); [done|].
      intros q y Hq. rewrite T3 by done. by apply Hz.
    + split; [by exists b|]. intros q y Hq. rewrite T5, T4, T3 by done. by apply Hz.
  - apply (same_walks_trans t s s3); [done|]. by apply (same_walks_trans t s3 s4).
  - intros b Hb. apply (vacant_same t s4 s5); [done|done|]. apply (vacant_same t s3 s4); [done|done|]. apply (vacant_same t s1 s3); [done|done|]. by apply Hv1.
Qed.

(** *** One page, free or not *)

(** Between [lo] and [hi] the address space now shows heap pages, with what was there
    before or zeroes; elsewhere it is unchanged. *)
Definition given (lo hi : Z) (s s' : PMem) (al' : list Z) : Prop :=
  forall a, canonical_u64 a ->
    if decide (lo <= a < hi)
    then exists z, translate s' a = Some (z, FL) /\ ram s' z = default 0 (content s a) /\ data_byte (ram s') t al' z
    else translate s' a = translate s a.

Lemma vacant_path s a b : addr_path a = addr_path b -> vacant t s a -> vacant t s b.
Proof. intros E Hv p i r x Hp. apply (Hv p i r). by rewrite E. Qed.

Lemma page_path page b : 0 <= page < 2 ^ 47 -> page mod 4096 = 0 -> page <= b < page + 4096 -> canonical_u64 b /\ addr_path b = addr_path page.
Proof.
  intros Hr Ha Hb. assert (canonical_u64 b) as Hc.
  { apply low_canonical. pose proof (Z.div_mod page 4096 ltac:(lia)). assert (page / 4096 < 2 ^ 35) by (apply Z.div_lt_upper_bound; lia). lia. }
  split; [done|]. apply addr_path_inj; [done|apply low_canonical; lia|by apply same_page].
Qed.

Lemma map_ready_page s al page vaddr :
  pt_inv t s al -> 0 <= page < 2 ^ 47 -> page mod 4096 = 0 -> (forall a, page <= a < page + 4096 -> ready s al a) ->
  exists r s' al', map_one_page off t vaddr vaddr page [] FL s = Some (r, s') /\ pt_inv t s' al' /\ keeps t s s' al al' /\
    (forall b, canonical_u64 b -> b / 4096 <> page / 4096 -> vacant t s b -> vacant t s' b) /\
    match r with Ok _ => given page (page + 4096) s s' al' | Err e => e = KMemory Memory_OutOfMemory end.
Proof.
  intros Hinv Hr Ha Hall. assert (canonical_u64 page) as Hc by (apply low_canonical; lia).
  assert (forall b, b / 4096 = page / 4096 <-> page <= b < page + 4096) as Hsp by (intros; by apply same_page).
  destruct (Hall page ltac:(lia)) as [Hv|Hh].
  - destruct (map_one_page_spec off t Hoff Hoff' s al vaddr vaddr page [] true false) as (r & s' & al' & E & V & K & C & R); [done|done|done|cbn; lia|done|].
    exists r, s', al'. split; [done|]. split; [done|]. split; [done|]. split; [done|]. destruct r as [[]|e]; [|by destruct R as [-> _]].
    destruct R as (n & P1 & P2). intros b Hb. rewrite P1 by done. destruct (decide (b / 4096 = page / 4096)) as [Hd|Hd].
    + rewrite decide_True by (by apply Hsp). exists (n + b mod 4096). split; [done|]. destruct (P2 (b mod 4096)) as [Pb Pd]; [apply Z.mod_pos_bound; lia|].
      split; [|done]. destruct (page_path page b Hr Ha) as [_ Hpath]; [by apply Hsp|].
      rewrite (vacant_content s al b Hinv) by (by apply (vacant_path s page)). rewrite Pb. unfold image_byte.
      destruct (Z.leb_spec vaddr (page + b mod 4096)), (Z.ltb_spec (page + b mod 4096) vaddr); cbn; done || lia.
    + by rewrite decide_False by (by rewrite <-Hsp).
  - destruct (map_kept_page s al page vaddr Hinv Hc Hh) as (r & s' & al' & E & V & K & W & C & R).
    exists r, s', al'. split; [done|]. split; [done|]. split; [done|]. split; [by intros; apply C|]. destruct r as [[]|e]; [|done].
    intros b Hb. rewrite (same_walks_translate t off Hoff Hoff' s s' al al' b Hinv V W). destruct (decide _) as [Hd|]; [|done].
    destruct (Hall b Hd) as [Hvb|(z & Hz & Dz)].
    + exfalso. destruct Hh as (z & Hz & _). destruct (page_path page b Hr Ha Hd) as [_ Hpath].
      rewrite (translate_walk t off Hoff Hoff' s al), <-Hpath, vacant_walk in Hz by done. done.
    + exists z. destruct (K z Dz) as [Kz Kd]. split; [done|]. split; [|done]. unfold content. rewrite Hz. cbn. done.
Qed.

(** *** All pages *)

Lemma ready_kept s s' al al' a lo hi :
  keeps t s s' al al' -> canonical_u64 a -> given lo hi s s' al' -> ~ (lo <= a < hi) -> (vacant t s a -> vacant t s' a) -> ready s al a -> ready s' al' a.
Proof.
  intros K Hc G Hn Hv [H|(z & Hz & Hd)]; [left; by apply Hv|]. right. exists z. specialize (G a Hc). rewrite decide_False in G by done.
  split; [by rewrite G|]. by apply K.
Qed.

Lemma given_trans lo mid hi s1 s2 s3 al2 al3 :
  lo <= mid <= hi ->
  keeps t s2 s3 al2 al3 -> given lo mid s1 s2 al2 -> given mid hi s2 s3 al3 ->
  (forall a, mid <= a < hi -> canonical_u64 a -> content s2 a = content s1 a) -> given lo hi s1 s3 al3.
Proof.
  intros Hm K G1 G2 Hsame a Hc. pose proof (G1 a Hc) as H1. pose proof (G2 a Hc) as H2.
  destruct (decide (mid <= a < hi)) as [Hd|Hd].
  - rewrite decide_True by lia. destruct H2 as (z & Hz & Hb & Hdb). exists z. split; [done|]. split; [|done]. by rewrite Hb, Hsame.
  - destruct (decide (lo <= a < mid)) as [He|He].
    + rewrite decide_True by lia. destruct H1 as (z & Hz & Hb & Hdb). exists z. rewrite H2. split; [done|]. destruct (K z Hdb) as [-> Hk]. done.
    + rewrite decide_False by lia. by rewrite H2.
Qed.

Lemma map_ready_pages n s al page vaddr :
  pt_inv t s al -> 0 <= page -> page + 4096 * Z.of_nat n <= 2 ^ 47 -> page mod 4096 = 0 ->
  (forall a, page <= a < page + 4096 * Z.of_nat n -> ready s al a) ->
  exists r s' al', map_pages off t vaddr vaddr page [] FL n s = Some (r, s') /\ pt_inv t s' al' /\ keeps t s s' al al' /\
    match r with Ok _ => given page (page + 4096 * Z.of_nat n) s s' al' | Err e => e = KMemory Memory_OutOfMemory end.
Proof.
  revert s al page. induction n as [|n IH]; intros s al page Hinv H0 Hhi Ha Hall.
  { exists (Ok tt), s, al. split; [done|]. split; [done|]. split; [by intros z Hz|]. intros a Hc. by rewrite decide_False by lia. }
  cbn [map_pages]. destruct (map_ready_page s al page vaddr Hinv ltac:(lia) Ha) as (r & s1 & al1 & E1 & V1 & K1 & C1 & R1); [intros a Hi; apply Hall; lia|].
  destruct r as [[]|e]; [|rewrite (try_bind_err _ _ _ _ _ E1); by eexists _, s1, al1]. rewrite (try_bind_ok _ _ _ _ _ E1).
  destruct (IH s1 al1 (page + 4096)) as (r & s2 & al2 & E2 & V2 & K2 & R2); [done|lia|lia|by rewrite <-Zplus_mod_idemp_r, Z.add_0_r| |].
  { intros a Hi. assert (canonical_u64 a) as Hc by (apply low_canonical; lia). apply (ready_kept s s1 al al1 a page (page + 4096)); [done|done|done|lia| |apply Hall; lia].
    apply C1; [done|]. rewrite same_page by done. lia. }
  exists r, s2, al2. split; [done|]. split; [done|]. split; [by apply (keeps_trans t s s1 s2 al al1)|]. destruct r as [[]|e]; [|done].
  replace (page + 4096 * Z.of_nat (S n)) with (page + 4096 + 4096 * Z.of_nat n) by lia.
  apply (given_trans page (page + 4096) _ s s1 s2 al1 al2); [lia|done|done|done|].
  intros a Hi Hc. pose proof (R1 a Hc) as G. rewrite decide_False in G by lia. unfold content. rewrite G.
  destruct (Hall a ltac:(lia)) as [Hv|(z & Hz & Hd)].
  - by rewrite (translate_walk t off Hoff Hoff' s al), vacant_walk.
  - rewrite Hz. cbn. f_equal. by apply K1.
Qed.

(** *** The whole call *)

Lemma ready_extends s s' al al' a : pt_inv t s al -> pt_inv t s' al' -> extends t s s' al al' -> same_walks t s s' -> ready s al a -> ready s' al' a.
Proof.
  intros V V' X W [Hv|(z & Hz & Hd)]; [left; by apply (vacant_extends t s s' al al')|]. right. exists z.
  rewrite (same_walks_translate t off Hoff Hoff' s s' al al' a V V' W). split; [done|]. by apply (keeps_extends t s s' al al').
Qed.

Lemma load_ready lm al start size :
  pt_inv t (pm lm) al -> temp lm = None -> 0 <= start -> 0 < size -> start + size <= 2 ^ 47 -> start mod 4096 = 0 -> size mod 4096 = 0 ->
  (forall a, start <= a < start + size -> ready (pm lm) al a) ->
  exists r lm' al', map_and_copy_segment_to (Some off) true false t start 0 size [] true false lm = Some (r, lm') /\
    pt_inv t (pm lm') al' /\ keeps t (pm lm) (pm lm') al al' /\
    match r with
    | Ok _ => temp lm' = None /\ given start (start + size) (pm lm) (pm lm') al'
    | Err e => e = KMemory Memory_OutOfMemory /\ temp lm' = Some t
    end.
Proof.
  intros Hinv Htemp H0 Hs Hhi Hsa Hza Hall. unfold map_and_copy_segment_to. cbn [andb].
  rewrite (proj2 (Z.eqb_neq size 0)), (proj2 (Z.ltb_ge size 0)) by lia. cbn [orb length]. rewrite (proj2 (Z.ltb_ge _ 0)) by lia.
  rewrite (proj2 (checked_add64_Some start 0 start)) by (unfold U64_MODULUS; lia).
  rewrite (proj2 (checked_add64_Some start size _)) by (split; [reflexivity|unfold U64_MODULUS; lia]). cbn [negb].
  destruct (pi_alloc _ _ _ Hinv) as (fa & fl & Hfr & _ & _).
  rewrite (try_bind_ok _ _ _ tt (mkLM (pm lm) (Some t))) by (unfold map_temp; by rewrite Hfr, Htemp).
  rewrite (st_bind_eq _ _ _ tt (mkLM (pm lm) (Some t))) by (unfold temp_is; by rewrite bool_decide_true).
  destruct (ensure_spec off t Hoff Hoff' (pm lm) al start Hinv) as (r1 & s1 & al1 & E1 & V1 & X1 & W1 & R1); [apply (ready_upper _ al); [done|apply Hall; lia]|].
  pose proof (on_pm_eq _ (mkLM (pm lm) (Some t)) _ _ E1) as E1'. cbn [temp] in E1'. destruct r1 as [[]|e].
  2:{ rewrite (try_bind_err _ _ _ _ _ E1'). eexists _, _, al1. split; [done|]. split; [done|]. split; [by apply keeps_extends|done]. }
  rewrite (try_bind_ok _ _ _ _ _ E1').
  destruct (ensure_spec off t Hoff Hoff' s1 al1 (start + size - 1) V1) as (r2 & s2 & al2 & E2 & V2 & X2 & W2 & R2).
  { apply (ready_upper _ al1); [done|]. apply (ready_extends (pm lm) s1 al al1); [done|done|done|done|apply Hall; lia]. }
  pose proof (extends_trans t _ _ _ _ _ _ V1 X1 X2) as X12. pose proof (same_walks_trans t _ _ _ W1 W2) as W12.
  pose proof (on_pm_eq _ (mkLM s1 (Some t)) _ _ E2) as E2'. cbn [temp] in E2'. destruct r2 as [[]|e].
  2:{ rewrite (try_bind_err _ _ _ _ _ E2'). eexists _, _, al2. split; [done|]. split; [done|]. split; [by apply keeps_extends|done]. }
  rewrite (try_bind_ok _ _ _ _ _ E2').
  rewrite (proj2 (checked_add64_Some (start + size) 4095 _)) by (split; [reflexivity|unfold U64_MODULUS; lia]).
  assert (page_down start = start) as -> by (rewrite page_down_spec; lia).
  assert (page_down (start + size + 4095) = start + size) as ->.
  { rewrite page_down_spec. rewrite <-Zplus_mod_idemp_l, (Zplus_mod start size), Hsa, Hza. change (((0 + 0) mod 4096 + 4095) mod 4096) with 4095. lia. }
  set (n := Z.to_nat _). assert (start + 4096 * Z.of_nat n = start + size) as Hn.
  { unfold n. replace (start + size - start) with size by lia. pose proof (Z.div_mod size 4096 ltac:(lia)). assert (0 <= size / 4096) by (apply Z.div_pos; lia). lia. }
  destruct (map_ready_pages n s2 al2 start start) as (r3 & s3 & al3 & E3 & V3 & K3 & R3); [done|done|lia|done| |].
  { intros a Hi. apply (ready_extends (pm lm) s2 al al2); [done|done|done|done|apply Hall; lia]. }
  rewrite Hn in R3. pose proof (on_pm_eq _ (mkLM s2 (Some t)) _ _ E3) as E3'. cbn [temp] in E3'.
  pose proof (keeps_trans t _ _ _ _ _ _ (keeps_extends t _ _ _ _ V2 X12) K3) as K. change (final_flags true false) with FL. destruct r3 as [[]|e].
  - rewrite (try_bind_ok _ _ _ _ _ E3'). eexists (Ok tt), _, al3. split; [done|]. split; [done|]. split; [done|]. split; [done|]. cbn [pm].
    intros a Hc. specialize (R3 a Hc). rewrite !(same_walks_translate t off Hoff Hoff' (pm lm) s2 al al2 a Hinv V2 W12) in R3.
    destruct (decide _) as [Hd|]; [|done]. destruct R3 as (z & Hz & Hb & Hdb). exists z. split; [done|]. split; [|done]. rewrite Hb.
    unfold content. rewrite (same_walks_translate t off Hoff Hoff' (pm lm) s2 al al2 a Hinv V2 W12).
    destruct (Hall a Hd) as [Hv|(z' & Hz' & Hd')].
    + by rewrite (translate_walk t off Hoff Hoff' (pm lm) al), vacant_walk.
    + rewrite Hz'. cbn. by apply (keeps_extends t (pm lm) s2 al al2).
  - rewrite (try_bind_err _ _ _ _ _ E3'). by eexists _, _, al3.
Qed.
End heap.
End HeapMap.
