(* ===== verification/MemCalls.v ===== *)
(** Memory system calls: [brk], [mmap] and [munmap] of [src/core/syscall/process.rs],
    [mprotect] of [src/core/syscall/pgroup.rs], and the range operations of
    [src/core/mem/paging.rs] below them.

    Pages are mapped by the segment loader ([Segment]) and changed one at a time by the
    mapper of the x86_64 crate ([Mapper]).  The state is that of [Exec].  [None] as an
    outcome is a panic; log lines, the SMAP guard and the flushing of the processor's
    translation cache are left out. *)

From Stdlib Require Import ZArith Lia.
From stdpp Require Import base list option numbers gmap.
From S2P Require Import Prelude State Types UserMem Bytes Mem Frame Paging PageTree PageTables Segment Mapper.
From S2P Require Import Slots Table Thread KStack Scheduler Ipc IpcSyscalls Signal Process Futex Kernel ExecStack Exec.
Import Mem Result Paging PageTables Segment Mapper Kernel Exec.

Local Open Scope Z_scope.
Local Open Scope kernel_scope.

Module MemCalls.

(** ** Ranges of pages *)

Section ranges.
Context {MP : Mapper}.
Context (phys_offset : option Z).

Definition failed (e : Kernel) : ST PMem (result unit Kernel) := mret (Err e).

(** [addr & !0xfff] and the first page after [addr + length] *)
Definition page_range (addr length : Z) : option (Z * Z) :=
  end_raw ← checked_add64 addr length;
  e ← checked_add64 end_raw 4095;
  Some (page_down addr, page_down e).

(** [VirtAddr::new] *)
Definition virt (page : Z) : ST PMem unit := if canonical page then mret tt else undefined.

(** [frame::deallocate_frame] of the frame that was mapped, or not *)
Definition unmap_page (free : bool) (off table_phys page : Z) : ST PMem unit := fun s =>
  if negb (page_is_user_mapped_in_table phys_offset (ram s) table_phys page) then Some (tt, s)
  else
    (virt page ≫= fun _ =>
     unmap off table_phys page ≫= fun r =>
     match r with
     | Ok frame => if free then release_frame frame else mret tt
     | Err _ => mret tt
     end) s.

(** [while page_addr < end]; [n] pages *)
Fixpoint unmap_pages (free : bool) (off table_phys page : Z) (n : nat) : ST PMem unit :=
  match n with
  | O => mret tt
  | S n => unmap_page free off table_phys page ≫= fun _ => unmap_pages free off table_phys (page + 4096) n
  end.

Definition unmap_range (free : bool) (table_phys addr length : Z) : ST PMem (result unit Kernel) :=
  if length =? 0 then mret (Ok tt)
  else
    match phys_offset with
    | None => mret (Err (KMemory Memory_NotMapped))
    | Some off =>
        match page_range addr length with
        | None => mret (Err (KMemory Memory_InvalidAddress))
        | Some (start, e) =>
            as_table off table_phys ≫= fun _ =>
            unmap_pages free off table_phys start (Z.to_nat ((e - start) / 4096)) ≫= fun _ => mret (Ok tt)
        end
    end.

Definition unmap_range_in_table : Z -> Z -> Z -> PT unit := unmap_range true.
Definition unmap_range_in_table_preserve_frames : Z -> Z -> Z -> PT unit := unmap_range false.

(** The flags of a page after [mprotect]. *)
Definition protected_flags (existing : Z) (present writable executable : bool) : Z :=
  let cleared := Z.ldiff existing (Z.lor (Z.lor (Z.lor PRESENT USER_ACCESSIBLE) WRITABLE) NO_EXECUTE) in
  if present
  then Z.lor (Z.lor (Z.lor cleared (Z.lor PRESENT USER_ACCESSIBLE)) (if writable then WRITABLE else 0))
         (if executable then 0 else NO_EXECUTE)
  else cleared.

Definition protect_page (off table_phys page : Z) (present writable executable : bool) : ST PMem (result unit Kernel) := fun s =>
  (virt page ≫= fun _ =>
   match user_page_flags_in_table phys_offset (ram s) table_phys page with
   | None => failed (KMemory Memory_NotMapped)
   | Some existing =>
       if negb (has existing PRESENT) || negb (has existing USER_ACCESSIBLE) then failed (KMemory Memory_NotMapped)
       else
         update_flags off table_phys page (protected_flags existing present writable executable) ≫= fun r =>
         mret (match r with Ok _ => Ok tt | Err _ => Err (KMemory Memory_InvalidAddress) end)
   end : ST PMem (result unit Kernel)) s.

Fixpoint protect_pages (off table_phys page : Z) (present writable executable : bool) (n : nat) : ST PMem (result unit Kernel) :=
  match n with
  | O => mret (Ok tt)
  | S n =>
      _ ←? protect_page off table_phys page present writable executable;
      match checked_add64 page 4096 with
      | None => failed (KMemory Memory_InvalidAddress)
      | Some next => protect_pages off table_phys next present writable executable n
      end
  end.

Definition protect_user_range_in_table (table_phys addr len : Z) (present writable executable : bool) : ST PMem (result unit Kernel) :=
  if present && writable && executable then failed (KMemory Memory_PermissionDenied)
  else if len =? 0 then mret (Ok tt)
  else if (addr =? 0) || (USER_SPACE_END <? addr) then failed (KMemory Memory_InvalidAddress)
  else
    match checked_add64 addr (len - 1) with
    | None => failed (KMemory Memory_InvalidAddress)
    | Some end_inclusive =>
        if USER_SPACE_END <? end_inclusive then failed (KMemory Memory_InvalidAddress)
        else
          match phys_offset with
          | None => failed (KMemory Memory_NotMapped)
          | Some off =>
              let start := page_down addr in
              match checked_add64 end_inclusive 4096 with
              | None => failed (KMemory Memory_InvalidAddress)
              | Some e =>
                  as_table off table_phys ≫= fun _ =>
                  protect_pages off table_phys start present writable executable (Z.to_nat ((page_down e - start) / 4096))
              end
          end
    end.

(** [PRESENT | WRITABLE | USER_ACCESSIBLE | NO_EXECUTE] *)
Definition device_flags : Z := final_flags true false.

(** One page of device memory; a page that is mapped is replaced. *)
Definition map_device_page (off table_phys virt_page phys_page : Z) : ST PMem (result unit Kernel) := fun s =>
  if negb (phys_page <? 2 ^ 52) then None
  else
    (virt virt_page ≫= fun _ =>
     match frames s with
     | None => failed (KMemory Memory_OutOfMemory)
     | Some _ =>
         map_to off table_phys virt_page phys_page device_flags ≫= fun r =>
         match r with
         | Ok _ => mret (Ok tt)
         | Err (PageAlreadyMapped _) =>
             unmap off table_phys virt_page ≫= fun _ =>
             map_to off table_phys virt_page phys_page device_flags ≫= fun r =>
             mret (match r with Ok _ => Ok tt | Err _ => Err (KMemory Memory_InvalidAddress) end)
         | Err _ => failed (KMemory Memory_InvalidAddress)
         end
     end : ST PMem (result unit Kernel)) s.

(** [for i in 0..total_pages]: the sums with [i * 4096] must not overflow. *)
Fixpoint map_device_pages (off table_phys virt_start phys_start i : Z) (n : nat) : ST PMem (result unit Kernel) :=
  match n with
  | O => mret (Ok tt)
  | S n =>
      match checked_add64 virt_start (i * 4096), checked_add64 phys_start (i * 4096) with
      | Some v, Some p =>
          _ ←? map_device_page off table_phys v p;
          map_device_pages off table_phys virt_start phys_start (i + 1) n
      | _, _ => undefined
      end
  end.

Definition map_physical_range_to_user (table_phys virt_addr phys_addr size : Z) : ST PMem (result unit Kernel) :=
  match phys_offset with
  | None => failed (KMemory Memory_NotMapped)
  | Some off =>
      if size =? 0 then mret (Ok tt)
      else
        as_table off table_phys ≫= fun _ =>
        let total_pages := match checked_add64 size 4095 with Some v => Z.shiftr v 12 | None => 0 end in
        map_device_pages off table_phys (page_down virt_addr) (page_down phys_addr) 0 (Z.to_nat total_pages)
  end.
End ranges.

(** ** System calls *)

Definition page_align_up (addr : Z) : option Z := page_down <$> checked_add64 addr 4095.

Definition is_user_range (addr len : Z) : bool :=
  if len =? 0 then addr <=? USER_SPACE_END
  else
    match checked_add64 addr (saturating_sub64 len 1) with
    | None => false
    | Some e => (addr <=? USER_SPACE_END) && (e <=? USER_SPACE_END)
    end.

(** [boot_entropy_u64] and the tick counter are read from [en]. *)
Definition randomized_heap_base (en : Entropy) (pid floor max_pages : Z) : Z :=
  let seed := Z.lxor (Z.lxor (Z.lxor (boot_entropy en) (ExecStack.rotate_left (ticks en) 17)) (ExecStack.rotate_left pid 9))
                (ExecStack.rotate_left floor 3) in
  saturating_add64 floor (ExecStack.aslr_mix64 seed mod max_pages * 4096).

Definition set_heap_end (v : Z) (p : Process.Process) : Process.Process := Process.set_heap (Process.heap_start p) v p.

Section calls.
Context {M : Type} `{!UserMemory M} {MP : Mapper}.
Context (phys_offset : option Z) (kernel_pt mapper_fails : bool).
Implicit Types x : XS M.

Definition current_process x : option Z := current_pid (kst x).

(** [with_process_mut]: the closure sees the process and changes it and memory. *)
Definition with_process_mut (pid : Z) (f : Process.Process -> ST LMem (result Z Z * Process.Process)) :
    ST (XS M) (option (result Z Z)) := fun x =>
  match Process.get pid (procs (kst x)) with
  | None => Some (None, x)
  | Some p =>
      match f p (lmem x) with
      | None => None
      | Some ((r, p'), l) =>
          let '(_, t) := Process.with_process_mut pid (fun _ => (tt, p')) (procs (kst x)) in
          Some (Some r, set_lmem l (set_kst (set_procs t (kst x)) x))
      end
  end.

(** The heap gets a place at its first use. *)
Definition place_heap (base : Z) (p : Process.Process) : Process.Process :=
  if Process.heap_start p =? 0 then Process.set_heap base base p else p.

(** Where the new pages of a growing heap begin. *)
Definition growth_start (l : LMem) (table current_brk : Z) : option Z :=
  page_align_up (if is_user_range_mapped_in_table phys_offset (ram (pm l)) table current_brk 1
                 then saturating_add64 current_brk 1 else current_brk).

Definition growth_end (addr : Z) : option Z :=
  v ← page_align_up (saturating_add64 addr 1);
  if is_user_range (saturating_sub64 v 1) 1 then Some v else None.

Definition grow_heap (addr : Z) (p : Process.Process) : ST LMem (result Z Z * Process.Process) := fun l =>
  match Process.page_table p with
  | None => Some ((Err ENOSYS, p), l)
  | Some table =>
      match growth_start l table (Process.heap_end p), growth_end addr with
      | Some start_page, Some end_page =>
          if start_page <? end_page then
            match map_and_copy_segment_to phys_offset kernel_pt mapper_fails table start_page 0 (end_page - start_page) [] true false l with
            | None => None
            | Some (Ok _, l') => Some ((Ok addr, set_heap_end addr p), l')
            | Some (Err _, l') => Some ((Err ENOSYS, p), l')
            end
          else Some ((Ok addr, set_heap_end addr p), l)
      | _, _ => Some ((Err EINVAL, p), l)
      end
  end.

Definition brk_in (en : Entropy) (pid addr : Z) (p : Process.Process) : ST LMem (result Z Z * Process.Process) :=
  let p := place_heap (randomized_heap_base en pid 1073741824 32768) p in
  if addr =? 0 then mret (Ok (Process.heap_end p), p)
  else if addr <? Process.heap_start p then mret (Err EINVAL, p)
  else if negb (is_user_range addr 1) then mret (Err EINVAL, p)
  else if addr <=? Process.heap_end p then mret (Ok addr, set_heap_end addr p)
  else grow_heap addr p.

Definition answer (missing : Z) (r : option (result Z Z)) : Z :=
  match r with Some (Ok v) => v | Some (Err e) => e | None => missing end.

Definition brk (en : Entropy) (addr : Z) : ST (XS M) Z := fun x =>
  match current_process x with
  | None => Some (ENOSYS, x)
  | Some pid => (answer ENOSYS <$> with_process_mut pid (brk_in en pid addr)) x
  end.

Definition MAP_ANONYMOUS : Z := 32.

Definition mmap_in (en : Entropy) (pid addr size : Z) (p : Process.Process) : ST LMem (result Z Z * Process.Process) := fun l =>
  let p := place_heap (randomized_heap_base en pid 1342177280 65536) p in
  if negb (addr =? 0) && (USER_SPACE_END <? addr) then Some ((Err EINVAL, p), l)
  else
    match page_align_up (if negb (addr =? 0) then addr else Process.heap_end p) with
    | None => Some ((Err EINVAL, p), l)
    | Some map_start =>
        if negb (is_user_range map_start size) then Some ((Err EINVAL, p), l)
        else
          match Process.page_table p with
          | None => Some ((Err ENOMEM, p), l)
          | Some table =>
              match map_and_copy_segment_to phys_offset kernel_pt mapper_fails table map_start 0 size [] true false l with
              | None => None
              | Some (Err _, l') => Some ((Err ENOMEM, p), l')
              | Some (Ok _, l') =>
                  if addr =? 0 then
                    match checked_add64 map_start size with
                    | Some e => Some ((Ok map_start, set_heap_end e p), l')
                    | None => Some ((Err EINVAL, p), l')
                    end
                  else Some ((Ok map_start, p), l')
              end
          end
    end.

Definition mmap (en : Entropy) (addr length flags : Z) : ST (XS M) Z := fun x =>
  if length =? 0 then Some (EINVAL, x)
  else if Z.land flags MAP_ANONYMOUS =? 0 then Some (ENOSYS, x)
  else
    match current_process x with
    | None => Some (ENOMEM, x)
    | Some pid =>
        match page_align_up length with
        | Some size => if 0 <? size then (answer ENOMEM <$> with_process_mut pid (mmap_in en pid addr size)) x else Some (EINVAL, x)
        | None => Some (EINVAL, x)
        end
    end.

Definition current_table x : option Z :=
  pid ← current_process x; p ← Process.get pid (procs (kst x)); Process.page_table p.

Definition on_pages {A} (f : ST PMem A) : ST (XS M) A := on_lm (on_pm f).

Definition munmap (addr length : Z) : ST (XS M) Z := fun x =>
  if (addr =? 0) || (length =? 0) then Some (EINVAL, x)
  else
    let unmap_start := page_down addr in
    match (e ← checked_add64 addr length; e ← page_align_up e; checked_sub64 e unmap_start) with
    | None => Some (EINVAL, x)
    | Some unmap_len =>
        if negb (0 <? unmap_len) then Some (EINVAL, x)
        else if negb (is_user_range unmap_start unmap_len) then Some (EINVAL, x)
        else
          match current_table x with
          | None => Some (ENOSYS, x)
          | Some table =>
              ((fun r => match r with Ok _ => SUCCESS | Err _ => EINVAL end) <$>
               on_pages (unmap_range_in_table phys_offset table unmap_start unmap_len)) x
          end
    end.

Definition mprotect_error (e : Kernel) : Z :=
  match e with
  | KMemory Memory_NotMapped => EFAULT
  | KMemory Memory_OutOfMemory => ENOMEM
  | KMemory Memory_PermissionDenied | KMemory Memory_InvalidAddress | KMemory Memory_AlignmentError | InvalidParam => EINVAL
  | _ => EFAULT
  end.

Definition PROT_READ : Z := 1.
Definition PROT_WRITE : Z := 2.
Definition PROT_EXEC : Z := 4.

Definition mprotect (addr len prot : Z) : ST (XS M) Z := fun x =>
  if len =? 0 then Some (SUCCESS, x)
  else if negb (Z.ldiff prot (Z.lor (Z.lor PROT_READ PROT_WRITE) PROT_EXEC) =? 0) then Some (EINVAL, x)
  else if (addr =? 0) || (USER_SPACE_END <? addr) then Some (EINVAL, x)
  else
    match checked_add64 addr (len - 1) with
    | None => Some (EINVAL, x)
    | Some end_inclusive =>
        if USER_SPACE_END <? end_inclusive then Some (EINVAL, x)
        else
          let start := page_down addr in
          match (e ← checked_add64 (page_down end_inclusive) 4096; checked_sub64 e start) with
          | None => Some (EINVAL, x)
          | Some length =>
              if length =? 0 then Some (EINVAL, x)
              else
                let present := negb (prot =? 0) in
                let writable := negb (Z.land prot PROT_WRITE =? 0) in
                let executable := negb (Z.land prot PROT_EXEC =? 0) in
                if present && writable && executable then Some (EINVAL, x)
                else
                  match current_process x with
                  | None => Some (ESRCH, x)
                  | Some _ =>
                      match current_table x with
                      | None => Some (EINVAL, x)
                      | Some table =>
                          ((fun r => match r with Ok _ => SUCCESS | Err e => mprotect_error e end) <$>
                           on_pages (protect_user_range_in_table phys_offset table start length present writable executable)) x
                      end
                  end
          end
    end.
End calls.
End MemCalls.
