(* ===== verification/MemProps.v ===== *)
(** What the memory system calls guarantee: [munmap] removes exactly the pages of its
    range and returns their frames, [mprotect] changes exactly their permissions, and
    [mmap] and [brk] give fresh zeroed pages. *)

From Stdlib Require Import ZArith Lia.
From stdpp Require Import base list option numbers gmap sets.
From S2P Require Import Prelude State Types UserMem Bytes Mem Frame Paging PageTree PageTables Segment SegmentProps Mapper UserPages HeapMap.
From S2P Require Import Slots Table Thread KStack Scheduler Ipc IpcSyscalls Signal Process Futex Kernel SigSyscalls SignalProps ExecStack Exec ExecProps MemCalls.
Import Mem Result Paging PageTree PageTables Segment Mapper UserPages HeapMap Kernel Exec MemCalls.

Local Open Scope Z_scope.
Local Open Scope kernel_scope.

Module MemProps.

Section pages.
Context {MP : Mapper}.
Context (off t : Z) (Hoff : 0 <= off) (Hoff' : off + 2 ^ 52 <= U64_MODULUS).
Notation uflags := (uflags off t).
Notation private := (private off t).
Notation translate s a := (translate_addr_in_table (Some off) (ram s) t a).

(** The frame of a page of the user. *)
Definition page_frame (s : PMem) (a : Z) : option Z :=
  match uflags s a with Some _ => (fun le => entry_addr le.2) <$> page_entry (ram s) t a | None => None end.

(** ** munmap *)

(** From [s] to [s'] the pages from [lo] to [hi] have gone, with their frames. *)
Record removed (lo hi : Z) (s s' : PMem) (al al' : list Z) : Prop := {
  rm_flags b : canonical_u64 b -> uflags s' b = if decide (lo <= b < hi) then None else uflags s b;
  rm_entry b : canonical_u64 b -> ~ (lo <= b < hi) -> page_entry (ram s') t b = page_entry (ram s) t b;
  rm_translate b : canonical_u64 b -> ~ (lo <= b < hi) -> translate s' b = translate s b;
  rm_frames f : f ∈ al' <-> f ∈ al /\ ~ exists a, lo <= a < hi /\ page_frame s a = Some f;
  rm_tables q : table_path q -> table_at 4 (ram s') t q = table_at 4 (ram s) t q;
  rm_bytes f z : f ∈ al' -> in_frame f z -> (forall q, table_path q -> table_at 4 (ram s) t q <> Some f) -> ram s' z = ram s z;
}.

Lemma removed_empty lo s al : removed lo lo s s al al.
Proof.
  split; try done.
  - intros b _. by rewrite decide_False by lia.
  - intros f. split; [|by intros [? _]]. intros H. split; [done|]. intros (a & Ha & _). lia.
Qed.

Lemma page_frame_ext s s' a : uflags s' a = uflags s a -> page_entry (ram s') t a = page_entry (ram s) t a -> page_frame s' a = page_frame s a.
Proof. intros H1 H2. unfold page_frame. by rewrite H1, H2. Qed.

Lemma removed_trans lo mid hi s1 s2 s3 al1 al2 al3 :
  0 <= lo <= mid -> mid <= hi <= 2 ^ 47 -> removed lo mid s1 s2 al1 al2 -> removed mid hi s2 s3 al2 al3 -> removed lo hi s1 s3 al1 al3.
Proof.
  intros Hlo Hhi R1 R2.
  assert (forall a, mid <= a < hi -> page_frame s2 a = page_frame s1 a) as Hpf.
  { intros a Ha. assert (canonical_u64 a) by (apply SegmentProps.low_canonical; lia). apply page_frame_ext.
    - by rewrite (rm_flags _ _ _ _ _ _ R1), decide_False by (done || lia).
    - apply (rm_entry _ _ _ _ _ _ R1); [done|lia]. }
  split.
  - intros b Hb. rewrite (rm_flags _ _ _ _ _ _ R2) by done. destruct (decide (mid <= b < hi)); [by rewrite decide_True by lia|].
    rewrite (rm_flags _ _ _ _ _ _ R1) by done. destruct (decide (lo <= b < mid)); [by rewrite decide_True by lia|by rewrite decide_False by lia].
  - intros b Hb Hn. rewrite (rm_entry _ _ _ _ _ _ R2), (rm_entry _ _ _ _ _ _ R1) by (done || lia). done.
  - intros b Hb Hn. rewrite (rm_translate _ _ _ _ _ _ R2), (rm_translate _ _ _ _ _ _ R1) by (done || lia). done.
  - intros f. rewrite (rm_frames _ _ _ _ _ _ R2), (rm_frames _ _ _ _ _ _ R1). split.
    + intros [[H1 H2] H3]. split; [done|]. intros (a & Ha & Hf). destruct (decide (a < mid)).
      * apply H2. exists a. split; [lia|done].
      * apply H3. exists a. split; [lia|]. rewrite Hpf by lia. done.
    + intros [H1 H2]. split; [split; [done|]|].
      * intros (a & Ha & Hf). apply H2. exists a. split; [lia|done].
      * intros (a & Ha & Hf). apply H2. exists a. split; [lia|]. by rewrite <-Hpf.
  - intros q Hq. by rewrite (rm_tables _ _ _ _ _ _ R2), (rm_tables _ _ _ _ _ _ R1).
  - intros f z Hf Hz Hn. rewrite (rm_bytes _ _ _ _ _ _ R2 f); [|done|done|intros q Hq; rewrite (rm_tables _ _ _ _ _ _ R1) by done; by apply Hn].
    apply (rm_bytes _ _ _ _ _ _ R1 f); [|done|done]. by apply (rm_frames _ _ _ _ _ _ R2).
Qed.

Lemma user_mapped s a : page_is_user_mapped_in_table (Some off) (ram s) t a = true <-> exists f, uflags s a = Some f /\ has f PRESENT && has f USER_ACCESSIBLE = true.
Proof.
  unfold page_is_user_mapped_in_table, UserPages.uflags. destruct (user_page_flags_in_table _ _ _ _) as [f|]; [|by split; [|intros (? & ? & _)]].
  split; [by exists f|]. by intros (? & [= <-] & ?).
Qed.

(** The flags the user finds are always those of an open page. *)
Lemma uflags_open s al a f : pt_inv t s al -> uflags s a = Some f -> has f PRESENT && has f USER_ACCESSIBLE = true.
Proof.
  intros Hinv. rewrite (uflags_uwalk off t Hoff Hoff' s al) by done. destruct (_ <=? _); [done|].
  generalize 4%nat, t. induction (addr_path a) as [|i r IH]; intros lvl x; [done|]. cbn [uwalk].
  destruct (user_ok (read_entry (ram s) x i)) eqn:U; [|done]. cbn [negb].
  assert (has (entry_flags (read_entry (ram s) x i)) PRESENT && has (entry_flags (read_entry (ram s) x i)) USER_ACCESSIBLE = true) as Hf.
  { unfold user_ok in U. by destruct (is_unused _), (has _ PRESENT), (has _ USER_ACCESSIBLE). }
  destruct r; [by intros [= <-]|]. destruct (descend _ _); [apply IH|by intros [= <-]].
Qed.

Lemma unmap_page_spec s al page :
  pt_inv t s al -> private s al -> 0 <= page < 2 ^ 47 -> page mod 4096 = 0 ->
  exists s' al', unmap_page (Some off) true off t page s = Some (tt, s') /\ pt_inv t s' al' /\ private s' al' /\ removed page (page + 4096) s s' al al'.
Proof.
  intros Hinv Hpv Hr Ha. assert (canonical_u64 page) as Hc by (apply SegmentProps.low_canonical; lia). unfold unmap_page.
  assert (forall b, b / 4096 = page / 4096 <-> page <= b < page + 4096) as Hsp by (intros; by apply SegmentProps.same_page).
  assert (forall b, page <= b < page + 4096 -> addr_path b = addr_path page) as Hpath.
  { intros b Hb. apply addr_path_inj; [apply SegmentProps.low_canonical|done|by apply Hsp].
    pose proof (Z.div_mod page 4096 ltac:(lia)). assert (page / 4096 < 2 ^ 35) by (apply Z.div_lt_upper_bound; lia). lia. }
  destruct (page_is_user_mapped_in_table _ _ _ _) eqn:Em; cbn [negb].
  2:{ assert (uflags s page = None) as Hnone.
      { destruct (uflags s page) as [f|] eqn:Ef; [|done]. assert (page_is_user_mapped_in_table (Some off) (ram s) t page = true); [|congruence].
        apply user_mapped. exists f. split; [done|]. by apply (uflags_open s al page). }
      assert (forall b, page <= b < page + 4096 -> uflags s b = None) as Hb.
      { intros b Hb. pose proof (Hpath b Hb) as E. rewrite (uflags_uwalk off t Hoff Hoff' s al) in Hnone |- * by done. rewrite E.
        assert (p4_index b = p4_index page) as -> by (by injection E). done. }
      exists s, al. split; [done|]. split; [done|]. split; [done|]. split; try done.
      - intros b _. destruct (decide _); [by apply Hb|done].
      - intros f. split; [|by intros [? _]]. intros H. split; [done|]. intros (a & Hi & Hf). unfold page_frame in Hf. by rewrite Hb in Hf. }
  apply user_mapped in Em as (f & Hf & _). destruct (pv_small _ _ _ _ Hpv page f Hc Hf) as (l1 & e & He & Hm).
  destruct (pv_held _ _ _ _ Hpv page f l1 e Hc Hf He) as [Hin Hnt].
  rewrite (st_bind_eq _ _ s tt s) by (unfold virt; by rewrite (proj2 Hc)).
  rewrite (st_bind_eq _ _ _ _ _ (unmap_mapped off t s al page l1 e Hoff Hoff' Hinv Hc Ha He Hm)). cbn beta iota.
  set (s1 := written s l1 (p1_index page) 0). assert (is_u64 0) as H0 by (unfold is_u64, U64_MODULUS; lia).
  destruct (write_tables t s al page l1 e 0 Hinv He H0) as [V1 T1]. fold s1 in V1, T1.
  apply elem_of_Permutation in Hin as [al' Hp].
  destruct (pt_release t s1 al al' (entry_addr e) V1 Hp) as (s2 & E2 & V2 & W2 & T2 & R2 & B2); [intros q Hq; rewrite T1 by done; by apply Hnt|].
  assert (forall b, canonical_u64 b -> uflags s2 b = if decide (b / 4096 = page / 4096) then None else uflags s b) as Hfl.
  { intros b Hb. destruct (same_tables_view off t Hoff Hoff' s1 s2 al al' b V1 V2 T2 R2) as [-> _]. unfold s1.
    rewrite (write_uflags off t Hoff Hoff' s al page l1 e 0) by done. destruct (decide _); [|done]. change (user_ok 0) with false. by rewrite orb_true_r. }
  assert (forall b, canonical_u64 b -> b / 4096 <> page / 4096 -> page_entry (ram s2) t b = page_entry (ram s) t b) as Hpe.
  { intros b Hb Hne. destruct (same_tables_view off t Hoff Hoff' s1 s2 al al' b V1 V2 T2 R2) as [_ ->]. unfold s1.
    rewrite (write_page_entry t s al page l1 e 0) by done. by rewrite decide_False. }
  assert (entry_addr e ∉ al') as Hni.
  { destruct (pi_alloc _ _ _ Hinv) as (fa & fl & _ & Hai & _). pose proof (Frame.ai_nodup _ _ _ _ Hai) as Hnd. rewrite Hp in Hnd.
    apply list.NoDup_app in Hnd as (_ & _ & Hnd). by apply list.NoDup_cons in Hnd as [? _]. }
  exists s2, al'. split; [done|]. split; [done|]. split.
  - split.
    + intros b g Hb. rewrite Hfl by done. destruct (decide _); [done|]. intros Hg. rewrite Hpe by done. by apply (pv_small _ _ _ _ Hpv b g).
    + intros b g l1' e' Hb. rewrite Hfl by done. destruct (decide _); [done|]. intros Hg. rewrite Hpe by done. intros He'.
      destruct (pv_held _ _ _ _ Hpv b g l1' e' Hb Hg He') as [H1 H2]. split.
      * rewrite Hp in H1. apply elem_of_cons in H1 as [H1|H1]; [|done].
        destruct (pv_apart _ _ _ _ Hpv b page g f l1' e' l1 e); done.
      * intros q Hq. rewrite T2, T1 by done. by apply H2.
    + intros b c g h l1' e' l1'' e'' Hb Hcc Hne. rewrite !Hfl by done. destruct (decide _); [done|]. destruct (decide (c / 4096 = _)); [done|].
      rewrite !Hpe by done. intros. by apply (pv_apart _ _ _ _ Hpv b c g h l1' e' l1'' e'').
  - split.
    + intros b Hb. rewrite Hfl by done. destruct (decide (b / 4096 = page / 4096)) as [Hd|Hd].
      * by rewrite decide_True by (by apply Hsp).
      * by rewrite decide_False by (by rewrite <-Hsp).
    + intros b Hb Hn. apply Hpe; [done|by rewrite Hsp].
    + intros b Hb Hn. rewrite (same_walks_translate t off Hoff Hoff' s1 s2 al al' b V1 V2 W2). unfold s1.
      rewrite (write_translate off t Hoff Hoff' s al page l1 e 0) by done. by rewrite decide_False by (by rewrite Hsp).
    + intros g. split.
      * intros Hg. split; [rewrite Hp; by right|]. intros (a & Hi & Hpf). unfold page_frame in Hpf.
        assert (page_entry (ram s) t a = Some (l1, e)) as Hea.
        { pose proof (Hpath a Hi) as E. rewrite !addr_path_l1 in E. apply app_inj_tail in E as [E1 E2']. unfold page_entry in *. by rewrite E1, E2'. }
        rewrite Hea in Hpf. destruct (uflags s a); [|done]. injection Hpf as <-. done.
      * intros [Hg Hn]. rewrite Hp in Hg. apply elem_of_cons in Hg as [->|]; [|done]. destruct Hn. exists page. split; [lia|].
        unfold page_frame. by rewrite Hf, He.
    + intros q Hq. by rewrite T2, T1.
    + intros g z Hg Hz Hn. destruct (held_frame t s al g Hinv) as [Hga _]; [rewrite Hp; by right|].
      rewrite B2.
      * unfold s1. apply (write_bytes_kept t s page l1 e 0); [done|]. intros q y Hq Hy.
        destruct (table_frame t s al q y Hinv Hq Hy) as [Hya _]. apply (frames_apart g); [done|done| |done]. intros ->. by apply (Hn q).
      * apply (frames_apart g); [done|apply entry_addr_aligned|congruence|done].
Qed.

Lemma unmap_pages_spec n s al page :
  pt_inv t s al -> private s al -> 0 <= page -> page + 4096 * Z.of_nat n <= 2 ^ 47 -> page mod 4096 = 0 ->
  exists s' al', unmap_pages (Some off) true off t page n s = Some (tt, s') /\ pt_inv t s' al' /\ private s' al' /\
    removed page (page + 4096 * Z.of_nat n) s s' al al'.
Proof.
  revert s al page. induction n as [|n IH]; intros s al page Hinv Hpv H0 Hhi Ha.
  - exists s, al. split; [done|]. split; [done|]. split; [done|]. replace (page + 4096 * Z.of_nat 0) with page by lia. apply removed_empty.
  - cbn [unmap_pages]. destruct (unmap_page_spec s al page Hinv Hpv ltac:(lia) Ha) as (s1 & al1 & E1 & V1 & P1 & R1). rewrite (st_bind_eq _ _ _ _ _ E1).
    destruct (IH s1 al1 (page + 4096)) as (s2 & al2 & E2 & V2 & P2 & R2); [done|done|lia|lia|by rewrite <-Zplus_mod_idemp_r, Z.add_0_r|].
    exists s2, al2. split; [done|]. split; [done|]. split; [done|]. replace (page + 4096 * Z.of_nat (S n)) with (page + 4096 + 4096 * Z.of_nat n) by lia.
    apply (removed_trans _ (page + 4096) _ s s1 s2 al al1 al2); [lia|lia|done|done].
Qed.

Lemma page_down_gt a : a < page_down a + 4096.
Proof. rewrite page_down_spec. pose proof (Z.mod_pos_bound a 4096 ltac:(lia)). lia. Qed.

(** A page-aligned bound stays above. *)
Lemma page_down_bound a k : a < k * 4096 -> page_down a + 4096 <= k * 4096.
Proof. rewrite page_down_spec. intros H. pose proof (Z.div_mod a 4096 ltac:(lia)). assert (a / 4096 < k) by (apply Z.div_lt_upper_bound; lia). lia. Qed.

Lemma page_down_multiple a k : a = k * 4096 -> page_down a = a.
Proof. intros ->. rewrite page_down_spec, Z_mod_mult. lia. Qed.

Lemma page_up_idem e : page_down (page_down (e + 4095) + 4095) = page_down (e + 4095).
Proof.
  rewrite (page_down_spec (e + 4095)). set (k := (e + 4095) / 4096). pose proof (Z.div_mod (e + 4095) 4096 ltac:(lia)) as Hd.
  replace (e + 4095 - (e + 4095) mod 4096) with (k * 4096) by (unfold k; lia). rewrite page_down_spec.
  replace (k * 4096 + 4095) with (4095 + k * 4096) by lia. rewrite Z_mod_plus_full. change (4095 mod 4096) with 4095. lia.
Qed.

Lemma unmap_range_spec s al lo hi :
  pt_inv t s al -> private s al -> 0 <= lo < hi -> hi <= 2 ^ 47 -> lo mod 4096 = 0 -> hi mod 4096 = 0 ->
  exists s' al', unmap_range_in_table (Some off) t lo (hi - lo) s = Some (Ok tt, s') /\ pt_inv t s' al' /\ private s' al' /\ removed lo hi s s' al al'.
Proof.
  intros Hinv Hpv Hlo Hhi Hla Hha. unfold unmap_range_in_table, unmap_range. rewrite (proj2 (Z.eqb_neq _ _)) by lia. unfold page_range.
  rewrite (proj2 (checked_add64_Some lo (hi - lo) hi)) by (unfold U64_MODULUS; lia). cbn [mbind option_bind].
  rewrite (proj2 (checked_add64_Some hi 4095 (hi + 4095))) by (unfold U64_MODULUS; lia). cbn [mbind option_bind].
  assert (page_down lo = lo) as -> by (rewrite page_down_spec; lia).
  assert (page_down (hi + 4095) = hi) as ->.
  { rewrite page_down_spec. rewrite <-Zplus_mod_idemp_l, Hha. change ((0 + 4095) mod 4096) with 4095. lia. }
  destruct (root_frame t s al Hinv) as [_ Ht].
  rewrite (st_bind_eq _ _ s tt s) by (unfold as_table, reachable; by rewrite (proj2 (checked_add64_Some t off (t + off))) by lia).
  set (n := Z.to_nat ((hi - lo) / 4096)). assert (lo + 4096 * Z.of_nat n = hi) as Hn.
  { unfold n. pose proof (Z.div_mod (hi - lo) 4096 ltac:(lia)) as Hd. rewrite Zminus_mod, Hla, Hha in Hd. change ((0 - 0) mod 4096) with 0 in Hd.
    assert (0 <= (hi - lo) / 4096) by (apply Z.div_pos; lia). lia. }
  destruct (unmap_pages_spec n s al lo Hinv Hpv ltac:(lia) ltac:(lia) Hla) as (s' & al' & E & V & P & R). rewrite Hn in R.
  rewrite (st_bind_eq _ _ _ _ _ E). by exists s', al'.
Qed.

(** ** mprotect *)

Lemma has_bit f k : 0 <= k -> has f (2 ^ k) = Z.testbit f k.
Proof.
  intros Hk. unfold has. destruct (Z.testbit f k) eqn:E.
  - apply Z.eqb_eq. apply Z.bits_inj'. intros j Hj. rewrite Z.land_spec, Z.pow2_bits_eqb by done. destruct (Z.eqb_spec k j) as [<-|]; [by rewrite E|by rewrite andb_false_r].
  - apply Z.eqb_neq. intros H. apply (f_equal (fun z => Z.testbit z k)) in H. rewrite Z.land_spec, E, Z.pow2_bits_true in H by done. done.
Qed.

Definition PERMISSIONS : Z := Z.lor (Z.lor (Z.lor PRESENT USER_ACCESSIBLE) WRITABLE) NO_EXECUTE.

(** What the requested permissions make of the flags of a page. *)
Lemma protected_bits f p w x k :
  0 <= k ->
  Z.testbit (protected_flags f p w x) k =
  if Z.testbit PERMISSIONS k
  then p && ((k =? 0) || (k =? 2) || ((k =? 1) && w) || ((k =? 63) && negb x))
  else Z.testbit f k.
Proof.
  intros Hk. unfold protected_flags. fold PERMISSIONS.
  assert (Z.testbit PERMISSIONS k = (k =? 0) || (k =? 2) || (k =? 1) || (k =? 63)) as HP.
  { unfold PERMISSIONS. change PRESENT with (2 ^ 0). change USER_ACCESSIBLE with (2 ^ 2). change WRITABLE with (2 ^ 1). change NO_EXECUTE with (2 ^ 63).
    rewrite !Z.lor_spec, !Z.pow2_bits_eqb by lia. by rewrite (Z.eqb_sym 0), (Z.eqb_sym 2), (Z.eqb_sym 1), (Z.eqb_sym 63). }
  assert (Z.testbit (Z.ldiff f PERMISSIONS) k = Z.testbit f k && negb (Z.testbit PERMISSIONS k)) as HC by apply Z.ldiff_spec.
  destruct p; [|rewrite HC; destruct (Z.testbit PERMISSIONS k), (Z.testbit f k); done].
  rewrite !Z.lor_spec, HC, HP. change PRESENT with (2 ^ 0). change USER_ACCESSIBLE with (2 ^ 2). rewrite !Z.pow2_bits_eqb by lia.
  assert (Z.testbit (if w then WRITABLE else 0) k = (k =? 1) && w) as ->.
  { destruct w; [|by rewrite Z.bits_0, andb_false_r]. change WRITABLE with (2 ^ 1). rewrite Z.pow2_bits_eqb, andb_true_r by lia. apply Z.eqb_sym. }
  assert (Z.testbit (if x then 0 else NO_EXECUTE) k = (k =? 63) && negb x) as ->.
  { destruct x; [by rewrite Z.bits_0, andb_false_r|]. change NO_EXECUTE with (2 ^ 63). rewrite Z.pow2_bits_eqb, andb_true_r by lia. apply Z.eqb_sym. }
  rewrite (Z.eqb_sym 0 k), (Z.eqb_sym 2 k). destruct (k =? 0), (k =? 2), (k =? 1), (k =? 63), (Z.testbit f k); done.
Qed.

Lemma protected_has f p w x :
  has (protected_flags f p w x) PRESENT = p /\ has (protected_flags f p w x) USER_ACCESSIBLE = p /\
  has (protected_flags f p w x) WRITABLE = (p && w) /\ has (protected_flags f p w x) NO_EXECUTE = (p && negb x) /\
  has (protected_flags f p w x) HUGE_PAGE = has f HUGE_PAGE.
Proof.
  change PRESENT with (2 ^ 0). change USER_ACCESSIBLE with (2 ^ 2). change WRITABLE with (2 ^ 1). change NO_EXECUTE with (2 ^ 63). change HUGE_PAGE with (2 ^ 7).
  rewrite !has_bit by lia. rewrite !protected_bits by lia. cbn. rewrite !andb_true_r, ?orb_false_r. done.
Qed.

Lemma protected_plain f p w x : plain_flags f -> is_u64 f -> plain_flags (protected_flags f p w x) /\ is_u64 (protected_flags f p w x).
Proof.
  intros Hf Hu. split.
  - unfold plain_flags in *. apply Z.bits_inj'. intros k Hk. rewrite Z.land_spec, Z.bits_0, protected_bits by done.
    apply (f_equal (fun z => Z.testbit z k)) in Hf. rewrite Z.land_spec, Z.bits_0 in Hf. destruct (Z.testbit PERMISSIONS k) eqn:E; [|done].
    assert (Z.testbit ADDR_MASK k = false) as ->; [|by rewrite andb_false_r]. assert (Z.land PERMISSIONS ADDR_MASK = 0) as H by reflexivity.
    apply (f_equal (fun z => Z.testbit z k)) in H. rewrite Z.land_spec, Z.bits_0, E in H. exact H.
  - unfold protected_flags. assert (is_u64 (Z.ldiff f PERMISSIONS)) as Hd by (by apply ldiff_u64). fold PERMISSIONS.
    destruct p; [|done]. assert (forall b : bool, is_u64 (if b then WRITABLE else 0) /\ is_u64 (if b then 0 else NO_EXECUTE)) as Hb.
    { unfold is_u64, U64_MODULUS, WRITABLE, NO_EXECUTE. intros []; lia. }
    apply lor_u64; [|apply Hb]. apply lor_u64; [|apply Hb]. apply lor_u64; [done|]. unfold is_u64, U64_MODULUS. change (Z.lor PRESENT USER_ACCESSIBLE) with 5. lia.
Qed.

(** From [s] to [s'] the pages from [lo] to [hi] have new permissions. *)
Record reprotected (p w x : bool) (lo hi : Z) (s s' : PMem) : Prop := {
  rp_flags b : canonical_u64 b -> uflags s' b =
    if decide (lo <= b < hi) then (if p then (fun f => protected_flags f p w x) <$> uflags s b else None) else uflags s b;
  rp_translate b : canonical_u64 b -> translate s' b =
    if decide (lo <= b < hi) then (if p then (fun pf => (pf.1, protected_flags pf.2 p w x)) <$> translate s b else None) else translate s b;
  rp_tables q : table_path q -> table_at 4 (ram s') t q = table_at 4 (ram s) t q;
  rp_bytes z : (forall q y, table_path q -> table_at 4 (ram s) t q = Some y -> ~ in_frame y z) -> ram s' z = ram s z;
}.

Lemma reprotected_empty p w x lo s : reprotected p w x lo lo s s.
Proof. split; try done; intros b _; by rewrite decide_False by lia. Qed.

Lemma reprotected_trans p w x lo mid hi s1 s2 s3 :
  lo <= mid <= hi -> reprotected p w x lo mid s1 s2 -> reprotected p w x mid hi s2 s3 -> reprotected p w x lo hi s1 s3.
Proof.
  intros Hm R1 R2. split.
  - intros b Hb. rewrite (rp_flags _ _ _ _ _ _ _ R2), (rp_flags _ _ _ _ _ _ _ R1) by done.
    destruct (decide (mid <= b < hi)), (decide (lo <= b < mid)), (decide (lo <= b < hi)); done || lia.
  - intros b Hb. rewrite (rp_translate _ _ _ _ _ _ _ R2), (rp_translate _ _ _ _ _ _ _ R1) by done.
    destruct (decide (mid <= b < hi)), (decide (lo <= b < mid)), (decide (lo <= b < hi)); done || lia.
  - intros q Hq. by rewrite (rp_tables _ _ _ _ _ _ _ R2), (rp_tables _ _ _ _ _ _ _ R1).
  - intros z Hz. rewrite (rp_bytes _ _ _ _ _ _ _ R2), (rp_bytes _ _ _ _ _ _ _ R1); [done|done|].
    intros q y Hq. rewrite (rp_tables _ _ _ _ _ _ _ R1) by done. by apply Hz.
Qed.

(** Every address of a page looks the same. *)
Lemma uflags_same_page s al page b : pt_inv t s al -> 0 <= page < 2 ^ 47 -> page mod 4096 = 0 -> page <= b < page + 4096 -> uflags s b = uflags s page.
Proof.
  intros Hinv Hr Ha Hb. rewrite !(uflags_uwalk off t Hoff Hoff' s al) by done. assert (addr_path b = addr_path page) as E.
  { apply addr_path_inj; [apply SegmentProps.low_canonical|apply SegmentProps.low_canonical; lia|by apply SegmentProps.same_page].
    pose proof (Z.div_mod page 4096 ltac:(lia)). assert (page / 4096 < 2 ^ 35) by (apply Z.div_lt_upper_bound; lia). lia. }
  rewrite E. assert (p4_index b = p4_index page) as -> by (by injection E). done.
Qed.

Lemma protect_page_spec s al page p w x :
  pt_inv t s al -> private s al -> 0 <= page < 2 ^ 47 -> page mod 4096 = 0 ->
  if uflags s page is Some _
  then exists s', protect_page (Some off) off t page p w x s = Some (Ok tt, s') /\ pt_inv t s' al /\ private s' al /\ reprotected p w x page (page + 4096) s s'
  else protect_page (Some off) off t page p w x s = Some (Err (KMemory Memory_NotMapped), s).
Proof.
  intros Hinv Hpv Hr Ha. assert (canonical_u64 page) as Hc by (apply SegmentProps.low_canonical; lia). unfold protect_page.
  rewrite (st_bind_eq _ _ s tt s) by (unfold virt; by rewrite (proj2 Hc)). change (user_page_flags_in_table (Some off) (ram s) t page) with (uflags s page).
  destruct (uflags s page) as [f|] eqn:Hf; [|done]. pose proof (uflags_open s al page f Hinv Hf) as Hop.
  apply andb_prop in Hop as [Hpr Hus]. rewrite Hpr, Hus. cbn [negb orb].
  destruct (pv_small _ _ _ _ Hpv page f Hc Hf) as (l1 & e & He & Hm). destruct (uflags_entry off t Hoff Hoff' s al page l1 e f Hinv He Hf) as [Hok Hfe].
  assert (is_unused e = false) as Hun by (apply user_ok_is_present in Hok; unfold present in Hok; by destruct (is_unused e)).
  set (fl := protected_flags f p w x).
  rewrite (st_bind_eq _ _ _ _ _ (update_flags_used off t s al page fl l1 e Hoff Hoff' Hinv Hc Ha He Hun)). cbn beta iota.
  destruct (page_entry_table t _ _ _ _ He) as [L1 Hel1].
  assert (is_u64 f) as Hfu. { rewrite Hfe. apply ldiff_u64. rewrite Hel1. apply read_u64_range, (pi_mem _ _ _ Hinv). }
  assert (plain_flags f) as Hfp by (rewrite Hfe; apply plain_entry_flags).
  destruct (protected_plain f p w x Hfp Hfu) as [Hpl Hu]. fold fl in Hpl, Hu.
  destruct (protected_has f p w x) as (Hh1 & Hh2 & _ & _ & Hh5). fold fl in Hh1, Hh2, Hh5.
  set (e' := mk_entry (entry_addr e) fl). pose proof (entry_addr_range e) as Hr'. pose proof (entry_addr_aligned e) as Ha'.
  assert (entry_addr e' = entry_addr e) as Ea by (by apply mk_entry_addr). assert (entry_flags e' = fl) as Ef by (by apply mk_entry_flags).
  assert (is_u64 e') as Heu by (by apply mk_entry_u64).
  assert (user_ok e' = p) as Hok'. { unfold user_ok. rewrite Ef, Hh1, Hh2. destruct p; [|by rewrite andb_false_r]. unfold e'. by rewrite mk_entry_used. }
  assert (present e' = p) as Hpr'. { unfold present. rewrite Ef, Hh1. destruct p; [|by rewrite andb_false_r]. unfold e'. by rewrite mk_entry_used. }
  destruct (write_tables t s al page l1 e e' Hinv He Heu) as [V T]. set (s' := written s l1 (p1_index page) e') in *.
  assert ((256 <=? p4_index page) || negb (opened 4 (ram s) t (l1_indices page)) = false) as Hopn.
  { pose proof Hf as Hf'. rewrite (uflags_uwalk off t Hoff Hoff' s al) in Hf' by done. destruct (256 <=? _); [done|].
    rewrite addr_path_l1, (uwalk_app _ _ _ _ l1) in Hf' by done. by destruct (opened _ _ _ _). }
  assert (forall b, b / 4096 = page / 4096 <-> page <= b < page + 4096) as Hsp by (intros; by apply SegmentProps.same_page).
  assert (forall b, canonical_u64 b -> uflags s' b = if decide (b / 4096 = page / 4096) then (if p then Some fl else None) else uflags s b) as Hfl.
  { intros b Hb. unfold s'. rewrite (write_uflags off t Hoff Hoff' s al page l1 e e') by done. destruct (decide _); [|done].
    rewrite Hopn, Hok', Ef. by destruct p. }
  assert (forall b, canonical_u64 b -> page_entry (ram s') t b = if decide (b / 4096 = page / 4096) then Some (l1, e') else page_entry (ram s) t b) as Hpe.
  { intros b Hb. by apply (write_page_entry t s al page l1 e e'). }
  assert (forall b, canonical_u64 b -> b / 4096 = page / 4096 -> uflags s b = Some f /\ page_entry (ram s) t b = Some (l1, e)) as Hsame.
  { intros b Hb Hbp. split; [rewrite <-Hf; apply (uflags_same_page s al); [done|done|done|by apply Hsp]|].
    rewrite <-He. apply addr_path_inj in Hbp; [|done|done]. rewrite !addr_path_l1 in Hbp. apply app_inj_tail in Hbp as [E1 E2].
    unfold page_entry. by rewrite E1, E2. }
  exists s'. split; [done|]. split; [done|]. split.
  - split.
    + intros b g Hb. rewrite Hfl, Hpe by done. destruct (decide _); [|by apply (pv_small _ _ _ _ Hpv b g)].
      destruct p; [|done]. intros _. exists l1, e'. split; [done|]. unfold mapped_entry in *. rewrite Hpr', Ef, Hh5. apply andb_prop in Hm as [_ Hm]. by rewrite Hfe.
    + intros b g l1' e0 Hb. rewrite Hfl, Hpe by done. destruct (decide _) as [Hd|Hd].
      * destruct p; [|done]. intros _ [= <- <-]. rewrite Ea. destruct (pv_held _ _ _ _ Hpv page f l1 e Hc Hf He) as [H1 H2]. split; [done|].
        intros q Hq. rewrite T by done. by apply H2.
      * intros Hg He0. destruct (pv_held _ _ _ _ Hpv b g l1' e0 Hb Hg He0) as [H1 H2]. split; [done|]. intros q Hq. rewrite T by done. by apply H2.
    + intros b c g h l1' e0 l1'' e1 Hb Hcc Hne. rewrite !Hfl, !Hpe by done.
      assert (forall d k la ee, canonical_u64 d -> (if decide (d / 4096 = page / 4096) then (if p then Some fl else None) else uflags s d) = Some k ->
        (if decide (d / 4096 = page / 4096) then Some (l1, e') else page_entry (ram s) t d) = Some (la, ee) ->
        exists k' la' ee', uflags s d = Some k' /\ page_entry (ram s) t d = Some (la', ee') /\ entry_addr ee' = entry_addr ee) as Hback.
      { intros d k la ee Hd0. destruct (decide _) as [Hd|Hd]; [|by eauto 10]. destruct (Hsame d Hd0 Hd) as [S1 S2]. intros _ [= <- <-]. by exists f, l1, e. }
      intros G1 G2 G3 G4. destruct (Hback b g l1' e0 Hb G1 G3) as (k1 & la1 & ee1 & B1 & B2 & <-).
      destruct (Hback c h l1'' e1 Hcc G2 G4) as (k2 & la2 & ee2 & B3 & B4 & <-). by apply (pv_apart _ _ _ _ Hpv b c k1 k2 la1 ee1 la2 ee2).
  - split.
    + intros b Hb. rewrite Hfl by done. destruct (decide (b / 4096 = page / 4096)) as [Hd|Hd].
      * rewrite decide_True by (by apply Hsp). destruct (Hsame b Hb Hd) as [-> _]. by destruct p.
      * by rewrite decide_False by (by rewrite <-Hsp).
    + intros b Hb. unfold s'. rewrite (write_translate off t Hoff Hoff' s al page l1 e e') by done. destruct (decide (b / 4096 = page / 4096)) as [Hd|Hd].
      * rewrite decide_True by (by apply Hsp). destruct (Hsame b Hb Hd) as [S1 S2].
        rewrite (private_translate off t Hoff Hoff' s al b f l1 e), Hpr', Ea, Ef by done. by destruct p.
      * by rewrite decide_False by (by rewrite <-Hsp).
    + done.
    + intros z Hz. unfold s'. by apply (write_bytes_kept t s page l1 e e').
Qed.

Lemma protect_pages_spec n s al page p w x :
  pt_inv t s al -> private s al -> 0 <= page -> page + 4096 * Z.of_nat n <= 2 ^ 47 -> page mod 4096 = 0 ->
  exists r s' mid, protect_pages (Some off) off t page p w x n s = Some (r, s') /\ pt_inv t s' al /\ private s' al /\
    page <= mid <= page + 4096 * Z.of_nat n /\ reprotected p w x page mid s s' /\
    (forall a, page <= a < mid -> uflags s a <> None) /\
    match r with
    | Ok _ => mid = page + 4096 * Z.of_nat n
    | Err e => e = KMemory Memory_NotMapped /\ mid < page + 4096 * Z.of_nat n /\ mid mod 4096 = 0 /\ uflags s mid = None
    end.
Proof.
  revert s page. induction n as [|n IH]; intros s page Hinv Hpv H0 Hhi Ha.
  { exists (Ok tt), s, page. split; [done|]. split; [done|]. split; [done|]. split; [lia|]. split; [apply reprotected_empty|]. split; [lia|lia]. }
  cbn [protect_pages]. pose proof (protect_page_spec s al page p w x Hinv Hpv ltac:(lia) Ha) as H.
  destruct (uflags s page) as [f|] eqn:Hf.
  2:{ rewrite (try_bind_err _ _ _ _ _ H). exists (Err (KMemory Memory_NotMapped)), s, page. split; [done|]. split; [done|]. split; [done|]. split; [lia|].
      split; [apply reprotected_empty|]. split; [lia|]. split; [done|]. split; [lia|done]. }
  destruct H as (s1 & E1 & V1 & P1 & R1). rewrite (try_bind_ok _ _ _ _ _ E1).
  rewrite (proj2 (checked_add64_Some page 4096 _)) by (split; [reflexivity|unfold U64_MODULUS; lia]).
  destruct (IH s1 (page + 4096)) as (r & s2 & mid & E2 & V2 & P2 & Hm & R2 & Hall & Hr); [done|done|lia|lia|by rewrite <-Zplus_mod_idemp_r, Z.add_0_r|].
  assert (forall a, page + 4096 <= a < 2 ^ 47 -> uflags s1 a = uflags s a) as Hsame.
  { intros a Hi. rewrite (rp_flags _ _ _ _ _ _ _ R1) by (apply SegmentProps.low_canonical; lia). by rewrite decide_False by lia. }
  exists r, s2, mid. split; [done|]. split; [done|]. split; [done|]. split; [lia|]. split; [apply (reprotected_trans p w x _ (page + 4096) _ s s1 s2); [lia|done|done]|].
  split.
  - intros a Hi. destruct (decide (a < page + 4096)).
    + rewrite (uflags_same_page s al page a), Hf by (done || lia). done.
    + rewrite <-Hsame by lia. apply Hall. lia.
  - destruct r as [[]|e]; [lia|]. destruct Hr as (H1 & H2 & H3 & H4). split; [done|]. split; [lia|]. split; [done|]. by rewrite <-Hsame by lia.
Qed.

(** The user sees at most what the table maps. *)
Lemma uflags_translate s al a f : pt_inv t s al -> uflags s a = Some f -> is_Some (translate s a).
Proof.
  intros Hinv. rewrite (uflags_uwalk off t Hoff Hoff' s al), (translate_walk t off Hoff Hoff' s al) by done. destruct (_ <=? _); [done|].
  assert (forall r lvl x, uwalk lvl (ram s) x r = Some f -> is_Some (walk lvl (ram s) x r)) as H.
  { induction r as [|i r IH]; intros lvl x; [done|]. cbn [uwalk]. destruct (user_ok _) eqn:U; [|done]. apply user_ok_is_present in U. cbn [negb walk].
    rewrite U. destruct r; [done|]. destruct (descend _ _); [apply IH|done]. }
  intros [ek ->]%H. done.
Qed.

(** An address space with a single page of heap. *)
Lemma single_page_private s s' al al' lo :
  pt_inv t s al -> pt_inv t s' al' -> 0 <= lo -> lo + 4096 <= 2 ^ 47 -> lo mod 4096 = 0 -> (forall a, SegmentProps.vacant t s a) -> given off t lo (lo + 4096) s s' al' ->
  private s' al'.
Proof.
  intros Hinv Hinv' H0 Hhi Hlo Hv G.
  assert (forall a f, canonical_u64 a -> uflags s' a = Some f -> lo <= a < lo + 4096 /\ heap_byte off t s' al' a) as Hin.
  { intros a f Hc Hf. specialize (G a Hc). destruct (decide (lo <= a < lo + 4096)).
    - destruct G as (z & Hz & _ & Hd). split; [done|]. by exists z.
    - destruct (uflags_translate s' al' a f Hinv' Hf) as [pf Hpf]. rewrite G, (translate_walk t off Hoff Hoff' s al), (vacant_walk t s a (Hv a)) in Hpf by done. done. }
  split.
  - intros a f Hc Hf. destruct (Hin a f Hc Hf) as [_ Hb]. destruct (heap_entry off t Hoff Hoff' s' al' a Hinv' Hb) as (l1 & e & He & Hfl & Hp & _).
    exists l1, e. split; [done|]. unfold mapped_entry. by rewrite Hp, Hfl.
  - intros a f l1 e Hc Hf He. destruct (Hin a f Hc Hf) as [_ Hb]. destruct (heap_entry off t Hoff Hoff' s' al' a Hinv' Hb) as (l1' & e' & He' & _ & _ & _ & (b & Hb1 & Hb2) & Hd).
    rewrite He in He'. injection He' as <- <-. pose proof (Z.mod_pos_bound a 4096 ltac:(lia)). pose proof (entry_addr_aligned e) as Ha. split.
    + destruct (held_frame t s' al' b Hinv' Hb1) as [Hba _]. assert (b = entry_addr e) as <-; [|done].
      unfold in_frame in Hb2. pose proof (Z.div_mod b 4096 ltac:(lia)). pose proof (Z.div_mod (entry_addr e) 4096 ltac:(lia)). lia.
    + intros q Hq Hx. apply (Hd q _ Hq Hx). unfold in_frame. lia.
  - intros a b f g l1 e l1' e' Hc Hc' Hne Hf Hg _ _. destruct Hne. destruct (Hin a f Hc Hf) as [Ha _], (Hin b g Hc' Hg) as [Hb _].
    transitivity (lo / 4096); [|symmetry]; by apply SegmentProps.same_page.
Qed.

(** ** The calls *)

Section calls.
Context {M : Type} `{!UserMemory M}.
Context (kernel_pt mapper_fails : bool).
Implicit Types x : XS M.

Definition mem_of x : PMem := pm (lmem x).

Lemma on_pages_eq {A} (f : ST PMem A) x a s' :
  f (mem_of x) = Some (a, s') -> on_pages f x = Some (a, set_lmem (mkLM s' (temp (lmem x))) x).
Proof. intros H. unfold on_pages, on_lm, on_pm. unfold mem_of in H. by rewrite H. Qed.

Lemma munmap_spec addr length x al :
  is_u64 addr -> is_u64 length -> current_table x = Some t -> pt_inv t (mem_of x) al -> private (mem_of x) al ->
  let lo := page_down addr in
  let hi := page_down (addr + length + 4095) in
  if decide (0 < addr /\ 0 < length /\ addr + length <= 2 ^ 47)
  then exists x' al', munmap (Some off) addr length x = Some (SUCCESS, x') /\ kst x' = kst x /\
    pt_inv t (mem_of x') al' /\ private (mem_of x') al' /\ removed lo hi (mem_of x) (mem_of x') al al'
  else munmap (Some off) addr length x = Some (EINVAL, x).
Proof.
  intros Ha Hl Ht Hinv Hpv lo hi. unfold munmap. fold lo.
  pose proof (page_down_le addr) as Hlo1. pose proof (page_down_gt addr) as Hlo2. fold lo in Hlo1, Hlo2.
  pose proof (page_down_le (addr + length + 4095)) as Hhi1. pose proof (page_down_gt (addr + length + 4095)) as Hhi2. fold hi in Hhi1, Hhi2.
  assert (0 <= lo) as Hlo0. { unfold lo. rewrite page_down_spec. unfold is_u64 in Ha. pose proof (Z.mod_le addr 4096 ltac:(lia) ltac:(lia)). lia. }
  unfold is_u64, U64_MODULUS in Ha, Hl.
  destruct (decide (0 < addr /\ 0 < length /\ addr + length <= 2 ^ 47)) as [(H1 & H2 & H3)|Hbad].
  - rewrite (proj2 (Z.eqb_neq addr 0)), (proj2 (Z.eqb_neq length 0)) by lia. cbn [orb].
    rewrite (proj2 (checked_add64_Some addr length _)) by (split; [reflexivity|unfold U64_MODULUS; lia]). cbn [mbind option_bind].
    unfold page_align_up. rewrite (proj2 (checked_add64_Some (addr + length) 4095 _)) by (split; [reflexivity|unfold U64_MODULUS; lia]). cbn [fmap option_fmap option_map mbind option_bind].
    fold hi. rewrite (proj2 (checked_sub64_Some hi lo (hi - lo))) by lia. rewrite (proj2 (Z.ltb_lt 0 (hi - lo))) by lia. cbn [negb].
    assert (hi <= 2 ^ 47) as Hhi. { pose proof (page_down_bound (addr + length + 4095) (2 ^ 35 + 1) ltac:(lia)) as Hb. fold hi in Hb. lia. }
    assert (is_user_range lo (hi - lo) = true) as ->.
    { unfold is_user_range, saturating_sub64. rewrite (proj2 (Z.eqb_neq _ _)) by lia.
      rewrite (proj2 (checked_add64_Some lo (Z.max (hi - lo - 1) 0) (hi - 1))) by (unfold U64_MODULUS; lia).
      unfold USER_SPACE_END. rewrite (proj2 (Z.leb_le _ _)), (proj2 (Z.leb_le _ _)) by lia. done. }
    cbn [negb]. rewrite Ht.
    destruct (unmap_range_spec (mem_of x) al lo hi Hinv Hpv ltac:(lia) Hhi) as (s' & al' & E & V & P & R); [apply page_down_aligned|apply page_down_aligned|].
    unfold fmap, ST_fmap. rewrite (on_pages_eq _ x _ _ E). eexists _, al'. split; [done|]. done.
  - destruct (Z.eqb_spec addr 0); [done|]. destruct (Z.eqb_spec length 0); [done|]. cbn [orb].
    destruct (checked_add64 addr length) as [e|] eqn:E1; [|done]. apply checked_add64_Some in E1 as [-> E1]. cbn [mbind option_bind].
    unfold page_align_up. destruct (checked_add64 (addr + length) 4095) as [e|] eqn:E2; [|done]. apply checked_add64_Some in E2 as [-> E2]. cbn [fmap option_fmap option_map mbind option_bind].
    fold hi. rewrite (proj2 (checked_sub64_Some hi lo (hi - lo))) by lia. rewrite (proj2 (Z.ltb_lt 0 (hi - lo))) by lia. cbn [negb].
    assert (is_user_range lo (hi - lo) = false) as ->; [|done].
    unfold is_user_range, saturating_sub64. rewrite (proj2 (Z.eqb_neq _ _)) by lia.
    rewrite (proj2 (checked_add64_Some lo (Z.max (hi - lo - 1) 0) (hi - 1))) by (unfold U64_MODULUS in *; lia).
    unfold USER_SPACE_END. rewrite (proj2 (Z.leb_gt (hi - 1) _)) by lia. by rewrite andb_false_r.
Qed.

Lemma prot_bits prot : 0 <= prot -> (Z.ldiff prot (Z.lor (Z.lor PROT_READ PROT_WRITE) PROT_EXEC) =? 0) = (prot <? 8).
Proof.
  intros H. change (Z.lor (Z.lor PROT_READ PROT_WRITE) PROT_EXEC) with (Z.ones 3). rewrite Z.ldiff_ones_r by lia.
  rewrite Z.shiftl_mul_pow2, Z.shiftr_div_pow2 by lia. change (2 ^ 3) with 8. pose proof (Z.div_mod prot 8 ltac:(lia)). pose proof (Z.mod_pos_bound prot 8 ltac:(lia)).
  destruct (Z.ltb_spec prot 8); [rewrite Z.div_small by lia; done|]. apply Z.eqb_neq. assert (1 <= prot / 8) by (apply Z.div_le_lower_bound; lia). lia.
Qed.

Definition wants_write (prot : Z) : bool := negb (Z.land prot PROT_WRITE =? 0).
Definition wants_exec (prot : Z) : bool := negb (Z.land prot PROT_EXEC =? 0).

Lemma mprotect_spec addr len prot x al :
  current_table x = Some t -> pt_inv t (mem_of x) al -> private (mem_of x) al ->
  4096 <= addr -> 0 < len -> addr + len <= 2 ^ 47 -> 0 <= prot < 8 -> wants_write prot && wants_exec prot = false ->
  let lo := page_down addr in
  let hi := page_down (addr + len + 4095) in
  let p := negb (prot =? 0) in
  exists r x' mid, mprotect (Some off) addr len prot x = Some (r, x') /\ kst x' = kst x /\ pt_inv t (mem_of x') al /\ private (mem_of x') al /\
    lo <= mid <= hi /\ reprotected p (wants_write prot) (wants_exec prot) lo mid (mem_of x) (mem_of x') /\
    (forall a, lo <= a < mid -> uflags (mem_of x) a <> None) /\
    (r = SUCCESS /\ mid = hi \/ r = EFAULT /\ mid < hi /\ uflags (mem_of x) mid = None).
Proof.
  intros Ht Hinv Hpv Ha Hl Hal Hp Hwx lo hi p. unfold mprotect. fold lo.
  pose proof (page_down_le addr) as Hlo1. fold lo in Hlo1.
  assert (4096 <= lo) as Hlo0. { unfold lo. rewrite page_down_spec. pose proof (Z.div_mod addr 4096 ltac:(lia)). assert (1 <= addr / 4096) by (apply Z.div_le_lower_bound; lia). lia. }
  pose proof (page_down_le (addr + len + 4095)) as Hhi1. pose proof (page_down_gt (addr + len + 4095)) as Hhi2. fold hi in Hhi1, Hhi2.
  assert (hi <= 2 ^ 47) as Hhi. { pose proof (page_down_bound (addr + len + 4095) (2 ^ 35 + 1) ltac:(lia)) as Hb. fold hi in Hb. lia. }
  assert (page_down (addr + (len - 1)) + 4096 = hi) as Heq.
  { unfold hi. rewrite !page_down_spec. replace (addr + len + 4095) with (addr + (len - 1) + 1 * 4096) by lia. rewrite Z_mod_plus_full. lia. }
  assert (page_down (hi - 1 + 4096) = hi) as Heq2.
  { rewrite page_down_spec. replace (hi - 1 + 4096) with (hi + 4095) by lia. rewrite <-Zplus_mod_idemp_l. unfold hi at 2. rewrite page_down_aligned.
    change ((0 + 4095) mod 4096) with 4095. lia. }
  rewrite (proj2 (Z.eqb_neq len 0)), prot_bits, (proj2 (Z.ltb_lt prot 8)) by lia. cbn [negb].
  rewrite (proj2 (Z.eqb_neq addr 0)) by lia. unfold USER_SPACE_END. rewrite (proj2 (Z.ltb_ge _ addr)) by lia. cbn [orb].
  rewrite (proj2 (checked_add64_Some addr (len - 1) _)) by (split; [reflexivity|unfold U64_MODULUS; lia]). rewrite (proj2 (Z.ltb_ge _ (addr + (len - 1)))) by lia.
  rewrite (proj2 (checked_add64_Some (page_down (addr + (len - 1))) 4096 hi)) by (unfold U64_MODULUS; lia). cbn [mbind option_bind].
  rewrite (proj2 (checked_sub64_Some hi lo (hi - lo))) by lia. rewrite (proj2 (Z.eqb_neq (hi - lo) 0)) by lia. fold p.
  fold (wants_write prot). fold (wants_exec prot). rewrite <-andb_assoc, Hwx, andb_false_r.
  assert (is_Some (current_process x)) as [pid ->]. { unfold current_table in Ht. destruct (current_process x); [done|discriminate Ht]. }
  rewrite Ht. unfold protect_user_range_in_table. rewrite <-andb_assoc, Hwx, andb_false_r. rewrite (proj2 (Z.eqb_neq (hi - lo) 0)) by lia.
  rewrite (proj2 (Z.eqb_neq lo 0)) by lia. unfold USER_SPACE_END. rewrite (proj2 (Z.ltb_ge _ lo)) by lia. cbn [orb].
  rewrite (proj2 (checked_add64_Some lo (hi - lo - 1) (hi - 1))) by (unfold U64_MODULUS; lia). rewrite (proj2 (Z.ltb_ge _ (hi - 1))) by lia.
  rewrite (proj2 (checked_add64_Some (hi - 1) 4096 _)) by (split; [reflexivity|unfold U64_MODULUS; lia]). rewrite Heq2.
  assert (page_down lo = lo) as -> by (unfold lo; rewrite (page_down_spec (page_down addr)), page_down_aligned; lia).
  destruct (root_frame t (mem_of x) al Hinv) as [_ Htr].
  set (n := Z.to_nat ((hi - lo) / 4096)). assert (lo + 4096 * Z.of_nat n = hi) as Hn.
  { unfold n. pose proof (Z.div_mod (hi - lo) 4096 ltac:(lia)) as Hd. rewrite Zminus_mod in Hd. unfold hi at 3, lo at 3 in Hd. rewrite !page_down_aligned in Hd.
    change ((0 - 0) mod 4096) with 0 in Hd. assert (0 <= (hi - lo) / 4096) by (apply Z.div_pos; lia). lia. }
  destruct (protect_pages_spec n (mem_of x) al lo p (wants_write prot) (wants_exec prot) Hinv Hpv ltac:(lia) ltac:(lia)) as (r & s' & mid & E & V & P & Hm & R & Hall & Hr);
    [apply page_down_aligned|]. rewrite Hn in Hm, Hr.
  assert ((as_table off t ≫= fun _ => protect_pages (Some off) off t lo p (wants_write prot) (wants_exec prot) n) (mem_of x) = Some (r, s')) as E'.
  { rewrite (st_bind_eq _ _ _ tt (mem_of x)); [done|]. unfold as_table, reachable. by rewrite (proj2 (checked_add64_Some t off (t + off))) by lia. }
  unfold fmap, ST_fmap. rewrite (on_pages_eq _ x _ _ E'). destruct r as [[]|e].
  - exists SUCCESS, (set_lmem (mkLM s' (temp (lmem x))) x), mid. do 7 (split; [done|]). by left.
  - destruct Hr as (-> & H1 & _ & H2). exists EFAULT, (set_lmem (mkLM s' (temp (lmem x))) x), mid. do 7 (split; [done|]). by right.
Qed.

(** C25. [munmap] removes exactly the pages its range touches: in an address space whose
    pages have frames of their own, a call with a range inside user space succeeds,
    no page of the range is mapped for the user afterwards, every other page has the
    same frame, permissions and contents as before, and exactly the frames of the
    removed pages have gone back to the allocator; the address space keeps its
    invariants.  A range that is empty, at address 0 or not inside user space is
    refused with EINVAL and nothing changes. *)
Theorem munmap_exact addr length x al :
  is_u64 addr -> is_u64 length -> current_table x = Some t -> pt_inv t (mem_of x) al -> private (mem_of x) al ->
  let lo := page_down addr in
  let hi := page_down (addr + length + 4095) in
  if decide (0 < addr /\ 0 < length /\ addr + length <= 2 ^ 47)
  then exists x' al', munmap (Some off) addr length x = Some (SUCCESS, x') /\ kst x' = kst x /\
    pt_inv t (mem_of x') al' /\ private (mem_of x') al' /\ removed lo hi (mem_of x) (mem_of x') al al'
  else munmap (Some off) addr length x = Some (EINVAL, x).
Proof. apply munmap_spec. Qed.


(** [mprotect] without any permission loses the pages: after a call with [prot] 0
    that succeeds, every later [mprotect] of the first page of the range is refused
    with EFAULT, and [munmap] of the range succeeds without returning a frame: the
    allocator has the same frames out as before, though no page uses them. *)
Theorem mprotect_none_loses_pages addr len prot x x1 al :
  current_table x = Some t -> pt_inv t (mem_of x) al -> private (mem_of x) al ->
  4096 <= addr -> 0 < len -> addr + len <= 2 ^ 47 -> 0 <= prot < 8 -> wants_write prot && wants_exec prot = false ->
  mprotect (Some off) addr len 0 x = Some (SUCCESS, x1) ->
  (exists x2, mprotect (Some off) addr len prot x1 = Some (EFAULT, x2)) /\
  exists x2 al2, munmap (Some off) addr len x1 = Some (SUCCESS, x2) /\ pt_inv t (mem_of x2) al2 /\ (forall f, f ∈ al2 <-> f ∈ al) /\
    forall a, page_down addr <= a < page_down (addr + len + 4095) -> uflags (mem_of x2) a = None.
Proof.
  intros Ht Hinv Hpv Ha Hl Hal Hp Hwx E. set (lo := page_down addr). set (hi := page_down (addr + len + 4095)).
  pose proof (page_down_le addr) as Hlo1. fold lo in Hlo1. pose proof (page_down_gt (addr + len + 4095)) as Hhi2. fold hi in Hhi2.
  assert (0 <= lo) as Hlo0. { unfold lo. rewrite page_down_spec. pose proof (Z.mod_le addr 4096 ltac:(lia) ltac:(lia)). lia. }
  assert (hi <= 2 ^ 47) as Hhi. { pose proof (page_down_bound (addr + len + 4095) (2 ^ 35 + 1) ltac:(lia)) as Hb. fold hi in Hb. lia. }
  destruct (mprotect_spec addr len 0 x al) as (r & x' & mid & E' & Hk & V & P & _ & R & _ & Hr); [done|done|done|done|done|done|lia|done|].
  rewrite E in E'. injection E' as <- <-. destruct Hr as [[_ ->]|(H & _)]; [|discriminate H]. fold lo hi in R.
  assert (forall a, lo <= a < hi -> uflags (mem_of x1) a = None) as Hnone.
  { intros a Hi. rewrite (rp_flags _ _ _ _ _ _ _ R) by (apply SegmentProps.low_canonical; lia). by rewrite decide_True by lia. }
  assert (current_table x1 = Some t) as Ht1. { unfold current_table, current_process in *. by rewrite Hk. }
  split.
  - destruct (mprotect_spec addr len prot x1 al) as (r & x2 & mid & E2 & _ & _ & _ & Hm & _ & Hall & Hr); [done..|]. fold lo hi in Hm, Hall, Hr.
    exists x2. rewrite E2. destruct Hr as [[_ ->]|(-> & _)]; [|done]. exfalso. apply (Hall lo); [lia|]. apply Hnone. lia.
  - pose proof (munmap_spec addr len x1 al) as Hmu. rewrite decide_True in Hmu by lia.
    destruct Hmu as (x2 & al2 & E2 & _ & V2 & _ & R2); [unfold is_u64, U64_MODULUS; lia|unfold is_u64, U64_MODULUS; lia|done|done|done|]. fold lo hi in R2.
    exists x2, al2. split; [done|]. split; [done|]. split.
    + intros f. rewrite (rm_frames _ _ _ _ _ _ R2). split; [by intros [? _]|]. intros Hf. split; [done|]. intros (a & Hi & Hpf). unfold page_frame in Hpf. by rewrite Hnone in Hpf.
    + intros a Hi. rewrite (rm_flags _ _ _ _ _ _ R2) by (apply SegmentProps.low_canonical; lia). by rewrite decide_True by lia.
Qed.

(** ** brk and mmap *)

Lemma with_found {R} pid (f g : Process.Process -> R * Process.Process) T p :
  Process.get pid T = Some p -> f p = g p -> Process.with_process_mut pid f T = Process.with_process_mut pid g T.
Proof.
  unfold Process.get, Process.with_process_mut. destruct (find_slot _ _) as [[i q]|] eqn:E; [|done]. cbn. intros [= ->] Hfg. rewrite Hfg. f_equal. f_equal.
  apply find_slot_Some in E as (Hi & _). unfold alter_slot. apply list_eq. intros j. destruct (decide (i = j)) as [<-|Hn].
  - rewrite !list_lookup_alter, Hi. cbn. by rewrite Hfg.
  - by rewrite !list_lookup_alter_ne.
Qed.

(** The calls change the heap bounds of the caller and nothing else in the table. *)
Definition heap_set (pid hs he : Z) x x' : Prop :=
  Process.table_wf (procs (kst x')) /\ Process.abs (procs (kst x')) = alter (Process.set_heap hs he) pid (Process.abs (procs (kst x))).

Lemma set_heap_same p : Process.set_heap (Process.heap_start p) (Process.heap_end p) p = p.
Proof. by destruct p. Qed.

Lemma with_heap pid (f : Process.Process -> ST LMem (result Z Z * Process.Process)) p r hs he l x :
  Process.table_wf (procs (kst x)) -> Process.get pid (procs (kst x)) = Some p -> f p (lmem x) = Some ((r, Process.set_heap hs he p), l) ->
  exists x', with_process_mut pid f x = Some (Some r, x') /\ lmem x' = l /\ heap_set pid hs he x x'.
Proof.
  intros Hw Hg Hf. unfold with_process_mut. rewrite Hg, Hf.
  rewrite (with_found pid _ (fun q => (tt, Process.set_heap hs he q)) _ p Hg) by done.
  pose proof (Process.with_process_mut_spec pid (fun q => (tt, Process.set_heap hs he q)) _ Hw ltac:(done)) as H.
  destruct (Process.with_process_mut _ _ _) as [o T']. destruct H as (_ & H1 & H2). eexists. split; [done|]. split; [done|]. split; [exact H1|exact H2].
Qed.

(** The heap of a process, placed at [base] when it has none yet. *)
Definition heap_of (base : Z) (p : Process.Process) : Z * Z :=
  if Process.heap_start p =? 0 then (base, base) else (Process.heap_start p, Process.heap_end p).

Lemma place_heap_eq base p : place_heap base p = Process.set_heap (heap_of base p).1 (heap_of base p).2 p.
Proof. unfold place_heap, heap_of. destruct (Process.heap_start p =? 0); [done|]. cbn. by rewrite set_heap_same. Qed.

Lemma page_align_up_spec a : 0 <= a -> a + 4095 < U64_MODULUS -> page_align_up a = Some (page_down (a + 4095)).
Proof. intros H0 H. unfold page_align_up. by rewrite (proj2 (checked_add64_Some a 4095 _)) by (split; [reflexivity|lia]). Qed.

Lemma is_user_range_spec a n : 0 <= a -> 0 < n -> a + n <= 2 ^ 47 -> is_user_range a n = true.
Proof.
  intros H0 Hn H. unfold is_user_range, saturating_sub64. rewrite (proj2 (Z.eqb_neq n 0)) by lia.
  rewrite (proj2 (checked_add64_Some a (Z.max (n - 1) 0) (a + (n - 1)))) by (unfold U64_MODULUS; lia).
  unfold USER_SPACE_END. by rewrite (proj2 (Z.leb_le _ _)), (proj2 (Z.leb_le _ _)) by lia.
Qed.

Lemma mmap_in_spec en pid addr size p l al :
  Process.page_table p = Some t -> pt_inv t (pm l) al -> temp l = None ->
  let h := heap_of (randomized_heap_base en pid 1342177280 65536) p in
  let start := page_down ((if addr =? 0 then h.2 else addr) + 4095) in
  0 <= addr < 2 ^ 47 -> 0 <= h.2 < 2 ^ 47 -> 0 < size -> size mod 4096 = 0 -> start + size <= 2 ^ 47 ->
  (forall a, start <= a < start + size -> ready off t (pm l) al a) ->
  exists r l' al', pt_inv t (pm l') al' /\ SegmentProps.keeps t (pm l) (pm l') al al' /\
    match r with
    | Ok v => v = start /\ temp l' = None /\ given off t start (start + size) (pm l) (pm l') al' /\
        mmap_in (Some off) true false en pid addr size p l = Some ((Ok v, Process.set_heap h.1 (if addr =? 0 then start + size else h.2) p), l')
    | Err e => e = ENOMEM /\ mmap_in (Some off) true false en pid addr size p l = Some ((Err e, Process.set_heap h.1 h.2 p), l')
    end.
Proof.
  intros Hpt Hinv Htemp h start Haddr Hh Hs Hsm Hhi Hall. unfold mmap_in. rewrite place_heap_eq. fold h.
  assert (negb (addr =? 0) && (USER_SPACE_END <? addr) = false) as -> by (unfold USER_SPACE_END; rewrite (proj2 (Z.ltb_ge _ addr)) by lia; apply andb_false_r).
  assert ((if negb (addr =? 0) then addr else Process.heap_end (Process.set_heap h.1 h.2 p)) = (if addr =? 0 then h.2 else addr)) as ->
    by (by destruct (addr =? 0)).
  rewrite page_align_up_spec by (unfold U64_MODULUS; destruct (addr =? 0); lia). fold start.
  assert (0 <= start) as H0. { unfold start. pose proof (page_down_gt ((if addr =? 0 then h.2 else addr) + 4095)). destruct (addr =? 0); lia. }
  rewrite (is_user_range_spec start size) by lia. cbn [negb]. change (Process.page_table (Process.set_heap h.1 h.2 p)) with (Process.page_table p). rewrite Hpt.
  destruct (load_ready off t Hoff Hoff' l al start size Hinv Htemp H0 Hs Hhi (page_down_aligned _) Hsm Hall) as (r & l' & al' & E & V & K & R).
  rewrite E. destruct r as [[]|e].
  - destruct R as [Ht G]. exists (Ok start), l', al'. split; [done|]. split; [done|]. split; [done|]. split; [done|]. split; [done|].
    rewrite (proj2 (checked_add64_Some start size _)) by (split; [reflexivity|unfold U64_MODULUS; lia]). by destruct (addr =? 0).
  - exists (Err ENOMEM), l', al'. done.
Qed.

(** C27. [mmap] gives the caller fresh memory: an anonymous mapping of [length] bytes, at
    the hint or after the end of the heap, over pages that are free or already heap
    pages, returns the page-aligned start; every byte of the whole pages is then
    readable and writable but not executable for the user, shows zero where nothing was
    mapped and what it showed before where a heap page was; all other addresses and all
    other memory in use are unchanged, and of the process table only the end of the
    caller's heap (without a hint it moves past the mapping).  When frames run out the
    call returns ENOMEM and nothing that was mapped has changed. *)
Theorem mmap_gives_memory en addr length flags pid p x al :
  Process.table_wf (procs (kst x)) -> current_process x = Some pid -> Process.get pid (procs (kst x)) = Some p ->
  Process.page_table p = Some t -> pt_inv t (mem_of x) al -> temp (lmem x) = None ->
  let h := heap_of (randomized_heap_base en pid 1342177280 65536) p in
  let start := page_down ((if addr =? 0 then h.2 else addr) + 4095) in
  let size := page_down (length + 4095) in
  0 <= addr < 2 ^ 47 -> 0 <= h.2 < 2 ^ 47 -> 0 < length -> Z.land flags MAP_ANONYMOUS <> 0 -> start + size <= 2 ^ 47 ->
  (forall a, start <= a < start + size -> ready off t (mem_of x) al a) ->
  exists r x' al', mmap (Some off) true false en addr length flags x = Some (r, x') /\
    pt_inv t (mem_of x') al' /\ SegmentProps.keeps t (mem_of x) (mem_of x') al al' /\
    (r = start /\ temp (lmem x') = None /\ given off t start (start + size) (mem_of x) (mem_of x') al' /\
       heap_set pid h.1 (if addr =? 0 then start + size else h.2) x x' \/
     r = ENOMEM /\ heap_set pid h.1 h.2 x x').
Proof.
  intros Hw Hc Hg Hpt Hinv Htemp h start size Haddr Hh Hl Hf Hhi Hall. unfold mmap. rewrite (proj2 (Z.eqb_neq length 0)), (proj2 (Z.eqb_neq _ _) Hf) by lia.
  pose proof (page_down_gt (length + 4095)) as Hs1. fold size in Hs1. pose proof (page_down_le (length + 4095)) as Hs2. fold size in Hs2.
  assert (0 <= start) as H0. { unfold start. pose proof (page_down_gt ((if addr =? 0 then h.2 else addr) + 4095)). destruct (addr =? 0); lia. }
  rewrite Hc, page_align_up_spec by (unfold U64_MODULUS; lia). fold size. rewrite (proj2 (Z.ltb_lt 0 size)) by lia.
  destruct (mmap_in_spec en pid addr size p (lmem x) al Hpt Hinv Htemp Haddr Hh ltac:(lia) (page_down_aligned _) Hhi Hall) as (r & l' & al' & V & K & R). fold h start in R.
  unfold fmap, ST_fmap. destruct r as [v|e].
  - destruct R as (-> & Ht & G & E). destruct (with_heap pid _ p _ _ _ l' x Hw Hg E) as (x' & Ex & Hlm & Hset). rewrite Ex. exists start, x', al'.
    unfold mem_of. rewrite Hlm. split; [done|]. split; [done|]. split; [done|]. by left.
  - destruct R as (-> & E). destruct (with_heap pid _ p _ _ _ l' x Hw Hg E) as (x' & Ex & Hlm & Hset). rewrite Ex. exists ENOMEM, x', al'.
    unfold mem_of. rewrite Hlm. split; [done|]. split; [done|]. split; [done|]. by right.
Qed.

(** Where the pages of a growing heap begin: after the page of the break when that page
    is mapped, else at the first page boundary from the break on. *)
Definition first_new_page (s : PMem) (brk : Z) : Z :=
  page_down ((if is_user_range_mapped_in_table (Some off) (ram s) t brk 1 then brk + 1 else brk) + 4095).

Lemma grow_heap_spec p l al addr :
  Process.page_table p = Some t -> pt_inv t (pm l) al -> temp l = None ->
  let cb := Process.heap_end p in
  let lo := first_new_page (pm l) cb in
  let hi := page_down addr + 4096 in
  0 <= cb < addr -> addr < 2 ^ 47 -> (forall a, lo <= a < hi -> ready off t (pm l) al a) ->
  exists r l' al', pt_inv t (pm l') al' /\ SegmentProps.keeps t (pm l) (pm l') al al' /\
    match r with
    | Ok v => v = addr /\ temp l' = None /\ given off t lo hi (pm l) (pm l') al' /\
        grow_heap (Some off) true false addr p l = Some ((Ok v, Process.set_heap (Process.heap_start p) addr p), l')
    | Err e => e = ENOSYS /\ grow_heap (Some off) true false addr p l = Some ((Err e, p), l')
    end.
Proof.
  intros Hpt Hinv Htemp cb lo hi Hcb Haddr Hall. unfold grow_heap. rewrite Hpt. fold cb.
  assert (growth_start (Some off) l t cb = Some lo) as ->.
  { unfold growth_start, lo, first_new_page. destruct (is_user_range_mapped_in_table _ _ _ _ _).
    - unfold saturating_add64. rewrite (Z.min_l (cb + 1)) by (unfold U64_MAX; lia). apply page_align_up_spec; unfold U64_MODULUS; lia.
    - apply page_align_up_spec; unfold U64_MODULUS; lia. }
  assert (page_down (addr + 1 + 4095) = hi) as Hhi.
  { unfold hi. rewrite !page_down_spec. replace (addr + 1 + 4095) with (addr + 1 * 4096) by lia. rewrite Z_mod_plus_full. lia. }
  assert (hi <= 2 ^ 47) as Hhi47 by (unfold hi; pose proof (page_down_bound addr (2 ^ 35) ltac:(lia)); lia).
  pose proof (page_down_gt addr) as Hgt. fold hi in Hgt.
  assert (growth_end addr = Some hi) as ->.
  { unfold growth_end, saturating_add64. rewrite (Z.min_l (addr + 1)) by (unfold U64_MAX; lia).
    rewrite page_align_up_spec by (unfold U64_MODULUS; lia). cbn [mbind option_bind]. rewrite Hhi.
    unfold saturating_sub64. rewrite (Z.max_l (hi - 1)) by lia. by rewrite is_user_range_spec by lia. }
  assert (0 <= lo) as Hlo0. { unfold lo, first_new_page. pose proof (page_down_gt ((if is_user_range_mapped_in_table (Some off) (ram (pm l)) t cb 1 then cb + 1 else cb) + 4095)). destruct (is_user_range_mapped_in_table _ _ _ _ _); lia. }
  destruct (Z.ltb_spec lo hi) as [Hlt|Hge].
  - destruct (load_ready off t Hoff Hoff' l al lo (hi - lo) Hinv Htemp Hlo0 ltac:(lia) ltac:(lia)) as (r & l' & al' & E & V & K & R); [apply page_down_aligned| | |].
    { unfold hi, lo, first_new_page. rewrite Zminus_mod, <-Zplus_mod_idemp_l, !page_down_aligned. done. }
    { intros a Ha. apply Hall. lia. }
    replace (lo + (hi - lo)) with hi in R by lia. rewrite E. destruct r as [[]|e].
    + destruct R as [Ht G]. exists (Ok addr), l', al'. done.
    + exists (Err ENOSYS), l', al'. done.
  - exists (Ok addr), l, al. split; [done|]. split; [by intros z Hz|]. split; [done|]. split; [done|]. split; [|done].
    intros a Ha. by rewrite decide_False by lia.
Qed.

Lemma brk_in_eq en pid addr p l :
  let h := heap_of (randomized_heap_base en pid 1073741824 32768) p in
  brk_in (Some off) true false en pid addr p l =
  if addr =? 0 then Some ((Ok h.2, Process.set_heap h.1 h.2 p), l)
  else if (addr <? h.1) || negb (is_user_range addr 1) then Some ((Err EINVAL, Process.set_heap h.1 h.2 p), l)
  else if addr <=? h.2 then Some ((Ok addr, Process.set_heap h.1 addr p), l)
  else grow_heap (Some off) true false addr (Process.set_heap h.1 h.2 p) l.
Proof.
  intros h. unfold brk_in. rewrite place_heap_eq. fold h.
  change (Process.heap_end (Process.set_heap h.1 h.2 p)) with h.2. change (Process.heap_start (Process.set_heap h.1 h.2 p)) with h.1.
  destruct (addr =? 0); [done|]. destruct (addr <? h.1); [done|]. destruct (negb _); [done|]. by destruct (addr <=? h.2).
Qed.

(** [brk] moves the end of the heap and backs it with memory.  With 0 it answers the
    end (of a heap placed at random when the process has none); below the start of the
    heap and outside user space it refuses with EINVAL; down to or below the end it
    moves the end and touches no memory; above it, with the pages in between free or
    already heap pages, it maps every page from the first one after the old end to the
    page of the new end, zeroed where nothing was mapped, and changes no other mapping
    and no other memory in use, or returns ENOSYS when frames run out, the end unmoved.
    In every case the rest of the process table is unchanged. *)
Theorem brk_moves_break en addr pid p x al :
  Process.table_wf (procs (kst x)) -> current_process x = Some pid -> Process.get pid (procs (kst x)) = Some p ->
  Process.page_table p = Some t -> pt_inv t (mem_of x) al -> temp (lmem x) = None -> is_u64 addr ->
  let h := heap_of (randomized_heap_base en pid 1073741824 32768) p in
  let lo := first_new_page (mem_of x) h.2 in
  let hi := page_down addr + 4096 in
  0 <= h.2 -> (forall a, h.2 < addr < 2 ^ 47 -> lo <= a < hi -> ready off t (mem_of x) al a) ->
  exists r x' al', brk (Some off) true false en addr x = Some (r, x') /\
    pt_inv t (mem_of x') al' /\ SegmentProps.keeps t (mem_of x) (mem_of x') al al' /\
    if addr =? 0 then r = h.2 /\ lmem x' = lmem x /\ heap_set pid h.1 h.2 x x'
    else if (addr <? h.1) || (2 ^ 47 <=? addr) then r = EINVAL /\ lmem x' = lmem x /\ heap_set pid h.1 h.2 x x'
    else if addr <=? h.2 then r = addr /\ lmem x' = lmem x /\ heap_set pid h.1 addr x x'
    else r = addr /\ temp (lmem x') = None /\ given off t lo hi (mem_of x) (mem_of x') al' /\ heap_set pid h.1 addr x x' \/
         r = ENOSYS /\ heap_set pid h.1 h.2 x x'.
Proof.
  intros Hw Hc Hg Hpt Hinv Htemp Hu h lo hi H0 Hall. unfold brk. rewrite Hc. unfold fmap, ST_fmap.
  pose proof (brk_in_eq en pid addr p (lmem x)) as Eb. cbn zeta in Eb. fold h in Eb.
  assert (forall r hs he, brk_in (Some off) true false en pid addr p (lmem x) = Some ((r, Process.set_heap hs he p), lmem x) ->
    exists x', with_process_mut pid (brk_in (Some off) true false en pid addr) x = Some (Some r, x') /\
      pt_inv t (mem_of x') al /\ SegmentProps.keeps t (mem_of x) (mem_of x') al al /\ lmem x' = lmem x /\ heap_set pid hs he x x') as Hstay.
  { intros r hs he E. destruct (with_heap pid _ p r hs he (lmem x) x Hw Hg E) as (x' & Ex & Hl & Hs). exists x'. unfold mem_of. rewrite Hl. by split. }
  unfold is_u64 in Hu. destruct (Z.eqb_spec addr 0) as [->|Hne].
  { destruct (Hstay _ _ _ Eb) as (x' & -> & V & K & R). by exists h.2, x', al. }
  assert (is_user_range addr 1 = negb (2 ^ 47 <=? addr)) as Hur.
  { destruct (Z.leb_spec (2 ^ 47) addr); [|by apply is_user_range_spec; lia]. unfold is_user_range, saturating_sub64. cbn [Z.eqb].
    destruct (checked_add64 _ _); [|done]. unfold USER_SPACE_END. by rewrite (proj2 (Z.leb_gt addr _)) by lia. }
  rewrite Hur, negb_involutive in Eb. destruct ((addr <? h.1) || (2 ^ 47 <=? addr)) eqn:Hout.
  { destruct (Hstay _ _ _ Eb) as (x' & -> & V & K & R). by exists EINVAL, x', al. }
  apply orb_false_elim in Hout as [_ Hhi]. apply Z.leb_gt in Hhi. destruct (Z.leb_spec addr h.2) as [Hle|Hgt].
  { destruct (Hstay _ _ _ Eb) as (x' & -> & V & K & R). by exists addr, x', al. }
  destruct (grow_heap_spec (Process.set_heap h.1 h.2 p) (lmem x) al addr) as (r & l' & al' & V & K & R); [done|done|done|cbn; lia|lia|intros a Ha; apply Hall; [lia|exact Ha]|].
  change (Process.heap_end (Process.set_heap h.1 h.2 p)) with h.2 in R. change (Process.heap_start (Process.set_heap h.1 h.2 p)) with h.1 in R. fold lo hi in R.
  destruct r as [v|e].
  - destruct R as (-> & Ht & G & E). rewrite E in Eb. destruct (with_heap pid _ p _ h.1 addr l' x Hw Hg Eb) as (x' & -> & Hlm & Hset). exists addr, x', al'.
    unfold mem_of. rewrite Hlm. split; [done|]. split; [done|]. split; [done|]. by left.
  - destruct R as (-> & E). rewrite E in Eb. destruct (with_heap pid _ p _ h.1 h.2 l' x Hw Hg Eb) as (x' & -> & Hlm & Hset). exists ENOSYS, x', al'.
    unfold mem_of. rewrite Hlm. split; [done|]. split; [done|]. split; [done|]. by right.
Qed.
End calls.
End pages.

(** ** A concrete system *)

(** The system of the signal proofs: process 10 runs in the address space at 1048576,
    where [demo_empty] has no page and [demo_paged] one page of memory at 4194304. *)
Definition demo_system (l : LMem) : XS (Z -> Z) :=
  let k := SignalProps.demo_ks in
  mkXS (set_procs (Process.with_process_mut 10 (fun p => (tt, Process.set_page_table 1048576 p)) (procs k)).2 k) l 0 0 20 5 (fun _ => 0).
Definition demo_empty : XS (Z -> Z) := demo_system (mkLM blank None).

Lemma demo_empty_wf : Process.table_wf (procs (kst demo_empty)).
Proof. split; [reflexivity|reflexivity|]. unfold keys_unique. vm_compute. repeat constructor; set_solver. Qed.

Lemma demo_process : exists p, Process.get 10 (procs (kst demo_empty)) = Some p /\ Process.page_table p = Some 1048576 /\ Process.heap_start p = 0.
Proof. eexists. split; [vm_compute; reflexivity|split; reflexivity]. Qed.

Lemma demo_heap_base base max : base + max * 4096 < 2 ^ 40 -> 0 <= base -> 0 < max ->
  0 <= randomized_heap_base ExecProps.demo_entropy 10 base max < 2 ^ 40.
Proof.
  intros H Hn Hm. unfold randomized_heap_base, saturating_add64. pose proof (Z.mod_pos_bound (ExecStack.aslr_mix64
    (Z.lxor (Z.lxor (Z.lxor (boot_entropy ExecProps.demo_entropy) (ExecStack.rotate_left (ticks ExecProps.demo_entropy) 17)) (ExecStack.rotate_left 10 9))
      (ExecStack.rotate_left base 3))) max ltac:(lia)). unfold U64_MAX. lia.
Qed.

Lemma demo_paged : exists l al, pt_inv 1048576 (pm l) al /\ private 0 1048576 (pm l) al /\ is_Some (uflags 0 1048576 (pm l) 4194304).
Proof.
  assert ((fun rl => match rl.1 with Ok _ => bool_decide (is_Some (uflags 0 1048576 (pm rl.2) 4194304)) | Err _ => false end) <$>
    map_and_copy_segment_to (Some 0) true false 1048576 4194304 0 4096 [] true false (mkLM blank None) = Some true) as Hr by (vm_compute; reflexivity).
  destruct (load_ready 0 1048576 ltac:(lia) ltac:(done) (mkLM blank None) [1048576] 4194304 4096 blank_inv eq_refl ltac:(lia) ltac:(lia) ltac:(lia) eq_refl eq_refl)
    as (r & l & al & E & V & _ & R); [intros a _; left; apply SegmentProps.blank_vacant|].
  rewrite E in Hr. destruct r as [[]|]; [|discriminate Hr]. destruct R as [_ G]. exists l, al. split; [done|]. split.
  - apply (single_page_private 0 1048576 ltac:(lia) ltac:(done) blank (pm l) [1048576] al 4194304 blank_inv V ltac:(lia) ltac:(lia) eq_refl); [|done].
    intros a. apply SegmentProps.blank_vacant.
  - cbn in Hr. injection Hr as Hr. by apply bool_decide_eq_true in Hr.
Qed.

(** Removing the page from its second byte on. *)
Lemma munmap_exact_witness :
  exists l x' al al', is_Some (uflags 0 1048576 (pm l) 4194304) /\ munmap (Some 0) 4194305 1 (demo_system l) = Some (SUCCESS, x') /\
    uflags 0 1048576 (mem_of x') 4194304 = None /\ removed 0 1048576 4194304 4198400 (pm l) (mem_of x') al al'.
Proof.
  destruct demo_paged as (l & al & V & P & U). pose proof (munmap_exact 0 1048576 ltac:(lia) ltac:(done) 4194305 1 (demo_system l) al) as H. cbn zeta in H.
  destruct H as (x' & al' & E & _ & _ & _ & R); [unfold is_u64, U64_MODULUS; lia|unfold is_u64, U64_MODULUS; lia|reflexivity|exact V|exact P|].
  exists l, x', al, al'. split; [exact U|]. split; [exact E|]. split; [|exact R].
  rewrite (rm_flags _ _ _ _ _ _ _ _ R) by (apply SegmentProps.low_canonical; lia). reflexivity.
Defined.


(** The page, without permissions and then made readable again. *)
Lemma mprotect_none_loses_pages_witness :
  exists l x1 x2, mprotect (Some 0) 4194304 4096 0 (demo_system l) = Some (SUCCESS, x1) /\ mprotect (Some 0) 4194304 4096 1 x1 = Some (EFAULT, x2).
Proof.
  destruct demo_paged as (l & al & V & P & [f U]).
  destruct (mprotect_spec 0 1048576 ltac:(lia) ltac:(done) 4194304 4096 0 (demo_system l) al) as (r & x1 & mid & E & _ & _ & _ & Hm & _ & _ & Hr);
    [reflexivity|exact V|exact P|lia|lia|lia|lia|reflexivity|].
  change (page_down (4194304 + 4096 + 4095)) with 4198400 in *. change (page_down 4194304) with 4194304 in *. change (mem_of (demo_system l)) with (pm l) in Hr.
  assert (r = SUCCESS) as ->.
  { destruct Hr as [[-> _]|(_ & Hlt & Hn)]; [done|]. exfalso.
    rewrite (uflags_same_page 0 1048576 ltac:(lia) ltac:(done) (pm l) al 4194304 mid V ltac:(lia) eq_refl ltac:(lia)), U in Hn. done. }
  destruct (mprotect_none_loses_pages 0 1048576 ltac:(lia) ltac:(done) 4194304 4096 1 (demo_system l) x1 al) as [[x2 E2] _];
    [reflexivity|exact V|exact P|lia|lia|lia|lia|reflexivity|exact E|].
  exists l, x1, x2. split; [exact E|exact E2].
Defined.

(** 5000 bytes in an empty address space: two pages. *)
Lemma mmap_gives_memory_witness :
  exists x' al', mmap (Some 0) true false ExecProps.demo_entropy 4194304 5000 34 demo_empty = Some (4194304, x') /\
    given 0 1048576 4194304 4202496 blank (mem_of x') al'.
Proof.
  destruct demo_process as (p & Hg & Hpt & Hh). pose proof (demo_heap_base 1342177280 65536 ltac:(lia) ltac:(lia) ltac:(lia)) as Hb.
  assert (fst <$> mmap (Some 0) true false ExecProps.demo_entropy 4194304 5000 34 demo_empty = Some 4194304) as Hr by (vm_compute; reflexivity).
  destruct (mmap_gives_memory 0 1048576 ltac:(lia) ltac:(done) ExecProps.demo_entropy 4194304 5000 34 10 p demo_empty [1048576])
    as (r & x' & al' & E & _ & _ & R); [exact demo_empty_wf|reflexivity|exact Hg|exact Hpt|exact blank_inv|reflexivity|lia| |lia|vm_compute; discriminate|vm_compute; discriminate| |].
  - unfold heap_of. rewrite Hh. cbn [Z.eqb snd]. lia.
  - intros a _. left. apply SegmentProps.blank_vacant.
  - rewrite E in Hr. injection Hr as ->. exists x', al'. split; [exact E|]. destruct R as [(_ & _ & H & _)|[H _]]; [exact H|discriminate H].
Defined.

(** The heap of process 10 is placed at 1082687488 and grows by two pages. *)
Lemma brk_moves_break_witness :
  exists x' al', brk (Some 0) true false ExecProps.demo_entropy 1082692488 demo_empty = Some (1082692488, x') /\
    given 0 1048576 1082687488 1082695680 blank (mem_of x') al'.
Proof.
  destruct demo_process as (p & Hg & Hpt & Hh).
  assert (heap_of (randomized_heap_base ExecProps.demo_entropy 10 1073741824 32768) p = (1082687488, 1082687488)) as Hp by (unfold heap_of; rewrite Hh; vm_compute; reflexivity).
  assert (fst <$> brk (Some 0) true false ExecProps.demo_entropy 1082692488 demo_empty = Some 1082692488) as Hr by (vm_compute; reflexivity).
  pose proof (brk_moves_break 0 1048576 ltac:(lia) ltac:(done) ExecProps.demo_entropy 1082692488 10 p demo_empty [1048576]
    demo_empty_wf eq_refl Hg Hpt blank_inv eq_refl) as H. rewrite Hp in H. cbn [fst snd] in H. cbn zeta in H.
  destruct H as (r & x' & al' & E & _ & _ & R); [unfold is_u64, U64_MODULUS; lia|lia|intros a _ _; left; apply SegmentProps.blank_vacant|].
  rewrite E in Hr. injection Hr as ->. exists x', al'. split; [exact E|].
  destruct R as [(_ & _ & G & _)|[H _]]; [|discriminate H].
  assert (first_new_page 0 1048576 (mem_of demo_empty) 1082687488 = 1082687488) as El by (vm_compute; reflexivity). rewrite El in G. exact G.
Defined.
End MemProps.
