(* ===== verification/PhysCalls.v ===== *)
(** System calls on physical memory, for drivers and services:
    [src/core/syscall/privileged.rs] (sharing frames between processes) and
    [src/core/syscall/mmio.rs] (device memory).

    The state is that of [Exec].  [None] as an outcome is a panic; log lines and the
    flushing of the processor's translation cache are left out. *)

From Stdlib Require Import ZArith Lia.
From stdpp Require Import base list option numbers gmap.
From S2P Require Import Prelude State Types UserMem Bytes Mem Frame Paging PageTree PageTables Segment Mapper.
From S2P Require Import Slots Table Thread KStack Scheduler Ipc IpcSyscalls Signal Process Futex Kernel ExecStack Exec MemCalls.
Import Mem Result Paging PageTables Segment Mapper Kernel Exec MemCalls.

Local Open Scope Z_scope.
Local Open Scope kernel_scope.

Module PhysCalls.

(** ** Frames and pages *)

(** [PhysAddr::new] panics above 52 bits; a frame that is not aligned is skipped. *)
Definition deallocate_frames (phys_addrs : list Z) : ST PMem unit :=
  sfor phys_addrs (fun phys =>
    if negb (phys <? 2 ^ 52) then undefined
    else if Z.land phys 4095 =? 0 then release_frame phys else mret tt).

Definition is_allowed_phys_page (g : option Frame.BitmapFrameAllocator) (phys_addr : Z) : bool :=
  (Z.land phys_addr 4095 =? 0) && Frame.is_usable_physical_address g phys_addr.

Definition shared_page_limit (g : option Frame.BitmapFrameAllocator) : Z :=
  match Frame.get_memory_info g with Some (_, frames) => Z.max frames 128 | None => 128 end.

(** [virt_addr + i * 0x1000] *)
Definition page_at {S} (virt_addr i : Z) : ST S Z :=
  match checked_add64 virt_addr (i * 4096) with Some v => mret v | None => undefined end.

Section pages.
Context (phys_offset : option Z).

(** The pages from the [j]-th on are taken out again, [n] of them. *)
Fixpoint take_out (table virt_addr j : Z) (n : nat) : ST PMem unit :=
  match n with
  | O => mret tt
  | S n =>
      v ← page_at virt_addr j;
      unmap_page_in_table phys_offset table v ≫= fun _ => take_out table virt_addr (j + 1) n
  end.

(** The frames are mapped one after the other; on a failure those before the failing
    one are taken out. *)
Fixpoint map_frames (table virt_addr i : Z) (phys_pages : list Z) : ST PMem bool :=
  match phys_pages with
  | [] => mret true
  | phys_addr :: rest =>
      v ← page_at virt_addr i;
      r ← map_page_in_table phys_offset table v phys_addr true true;
      match r with
      | Ok _ => map_frames table virt_addr (i + 1) rest
      | Err _ => take_out table virt_addr 0 (Z.to_nat i) ≫= fun _ => mret false
      end
  end.

(** An address that is not canonical panics. *)
Definition physical_addr (table v : Z) : ST PMem (option Z) := fun s =>
  match virt_to_phys_in_table phys_offset (ram s) table v with Some o => Some (o, s) | None => None end.

(** The physical addresses of the pages that are mapped. *)
Fixpoint physical_of (table virt_addr i : Z) (n : nat) : ST PMem (list Z) :=
  match n with
  | O => mret []
  | S n =>
      v ← page_at virt_addr i;
      o ← physical_addr table v;
      rest ← physical_of table virt_addr (i + 1) n;
      mret (option_list o ++ rest)
  end.

(** Each frame is returned once. *)
Fixpoint free_once (freed phys_addrs : list Z) : ST PMem unit :=
  match phys_addrs with
  | [] => mret tt
  | phys :: rest =>
      let aligned := page_down phys in
      if existsb (Z.eqb aligned) freed then free_once freed rest
      else if negb (aligned <? 2 ^ 52) then undefined
      else release_frame aligned ≫= fun _ => free_once (freed ++ [aligned]) rest
  end.
End pages.

(** ** Reserving addresses *)

(** [n] pages after the end of the heap, which moves past them; [base0] for a process
    without a heap.  The answer has the start, the page table and the old and the new
    end of the heap. *)
Definition reserve_in (base0 page_span : Z) (p : Process.Process) : result (Z * Z * Z * Z) Z * Process.Process :=
  let base := if Process.heap_end p =? 0 then base0 else Process.heap_end p in
  match page_align_up base with
  | None => (Err EINVAL, p)
  | Some virt_addr =>
      match checked_add64 virt_addr page_span with
      | None => (Err EINVAL, p)
      | Some new_end =>
          match Process.page_table p with
          | None => (Err EINVAL, p)
          | Some pt => (Ok (virt_addr, pt, Process.heap_end p, new_end), set_heap_end new_end p)
          end
      end
  end.

Definition unreserve_in (old_end new_end : Z) (p : Process.Process) : unit * Process.Process :=
  (tt, if Process.heap_end p =? new_end then set_heap_end old_end p else p).

Section calls.
Context {M : Type} `{!UserMemory M} {MP : Mapper}.
Context (phys_offset : option Z).
Implicit Types x : XS M.

Definition current_process_privilege x : option Process.PrivilegeLevel :=
  pid ← current_process x; p ← Process.get pid (procs (kst x)); Some (Process.privilege p).

Definition require_service_privilege x : result unit Z :=
  match current_process_privilege x with
  | Some Process.Core | Some Process.Service => Ok tt
  | _ => Err EPERM
  end.

Definition allocator x : option Frame.BitmapFrameAllocator := frames (pm (lmem x)).

Definition on_procs {A} (f : Process.ProcessTable -> A * Process.ProcessTable) : ST (XS M) A := fun x =>
  let '(a, t) := f (procs (kst x)) in Some (a, set_kst (set_procs t (kst x)) x).

Definition table_of pid x : option Z := p ← Process.get pid (procs (kst x)); Process.page_table p.

(** Where pages go: the address, the page table, and the reservation when there was no
    hint. *)
Record Place := mkPlace { virt_addr : Z; page_table : Z; reserved : option (Z * Z) }.

Definition place (base0 pid page_span virt_addr_hint : Z) : ST (XS M) (result Place Z) := fun x =>
  if negb (virt_addr_hint =? 0) then
    if negb (Z.land virt_addr_hint 4095 =? 0) then Some (Err EINVAL, x)
    else match table_of pid x with
         | Some pt => Some (Ok (mkPlace virt_addr_hint pt None), x)
         | None => Some (Err EINVAL, x)
         end
  else
    (r ← on_procs (Process.with_process_mut pid (reserve_in base0 page_span));
     mret (match r with
           | Some (Ok (v, pt, old_end, new_end)) => Ok (mkPlace v pt (Some (old_end, new_end)))
           | Some (Err e) => Err e
           | None => Err EINVAL
           end)) x.

Definition unreserve (pid : Z) (pl : Place) : ST (XS M) unit :=
  match reserved pl with
  | Some (old_end, new_end) => on_procs (Process.with_process_mut pid (unreserve_in old_end new_end)) ≫= fun _ => mret tt
  | None => mret tt
  end.

(** ** Sharing frames *)

Definition map_phys_pages_into_target (target_thread_id : Z) (phys_pages : list Z) (virt_addr_hint : Z) : ST (XS M) (result Z Z) := fun x =>
  if (length phys_pages =? 0)%nat || (shared_page_limit (allocator x) <? Z.of_nat (length phys_pages)) then Some (Err EINVAL, x)
  else if negb (forallb (is_allowed_phys_page (allocator x)) phys_pages) then Some (Err EINVAL, x)
  else
    match Thread.thread_to_process_id target_thread_id (threads_of (kst x)) with
    | None => Some (Err EINVAL, x)
    | Some target_pid =>
        match checked_mul64 (Z.of_nat (length phys_pages)) 4096 with
        | None => Some (Err EINVAL, x)
        | Some page_span =>
            (pl ←? place 105553116266496 target_pid page_span virt_addr_hint;
             ok ← on_pages (map_frames phys_offset (page_table pl) (virt_addr pl) 0 phys_pages);
             if (ok : bool) then mret (Ok (virt_addr pl))
             else unreserve target_pid pl ≫= fun _ => mret (Err EFAULT)) x
        end
    end.

(** The array of page addresses in user memory. *)
Fixpoint read_pages (m : M) (ptr i : Z) (n : nat) : result (list Z) Z :=
  match n with
  | O => Ok []
  | S n =>
      match checked_add64 ptr (i * 8) with
      | None => Err EFAULT
      | Some addr =>
          match read_user_u64 m addr with
          | Err e => Err e
          | Ok page => match read_pages m ptr (i + 1) n with Ok rest => Ok (page :: rest) | Err e => Err e end
          end
      end
  end.

Definition either (r : result Z Z) : Z := match r with Ok v => v | Err e => e end.

Definition map_physical_pages (target_thread_id phys_pages_ptr page_count virt_addr_hint : Z) : ST (XS M) Z := fun x =>
  match require_service_privilege x with
  | Err e => Some (e, x)
  | Ok _ =>
      if (page_count =? 0) || (shared_page_limit (allocator x) <? page_count) then Some (EINVAL, x)
      else if phys_pages_ptr =? 0 then Some (EFAULT, x)
      else
        match read_pages (user_mem x) phys_pages_ptr 0 (Z.to_nat page_count) with
        | Err e => Some (e, x)
        | Ok phys_pages => (either <$> map_phys_pages_into_target target_thread_id phys_pages virt_addr_hint) x
        end
  end.

Definition get_physical_addr (virt_addr target_thread_id : Z) : ST (XS M) Z := fun x =>
  match require_service_privilege x with
  | Err e => Some (e, x)
  | Ok _ =>
      if virt_addr =? 0 then Some (EINVAL, x)
      else
        match (if target_thread_id =? 0 then current_process x
               else Thread.thread_to_process_id target_thread_id (threads_of (kst x))) with
        | None => Some (EINVAL, x)
        | Some pid =>
            match table_of pid x with
            | None => Some (EINVAL, x)
            | Some pt =>
                match virt_to_phys_in_table phys_offset (ram (pm (lmem x))) pt virt_addr with
                | None => None
                | Some (Some phys) => Some (phys, x)
                | Some None => Some (EFAULT, x)
                end
            end
        end
  end.

(** [n] frames, or none. *)
Fixpoint allocate_pages (got : list Z) (n : nat) : ST PMem (option (list Z)) :=
  match n with
  | O => mret (Some got)
  | S n =>
      r ← PageTables.allocate_frame;
      match r with
      | Ok frame => allocate_pages (got ++ [frame]) n
      | Err _ => deallocate_frames got ≫= fun _ => mret None
      end
  end.

(** The frames go back when the call fails. *)
Definition give_back (phys_pages : list Z) (e : Z) : ST (XS M) Z :=
  on_pages (deallocate_frames phys_pages) ≫= fun _ => mret e.

Definition copy_out (ptr : Z) (bs : list Z) : ST (XS M) (result unit Z) := fun x =>
  let '(r, m) := copy_to_user ptr bs (user_mem x) in Some (r, set_kst (set_mem m (kst x)) x).

(** The frames are mapped and their addresses written for the user; on an error the
    pages are taken out, the reservation is undone and the frames go back. *)
Definition share_at (self_pid : Z) (pl : Place) (phys_pages : list Z) (phys_addrs_out : Z) : ST (XS M) Z :=
  ok ← on_pages (map_frames phys_offset (page_table pl) (virt_addr pl) 0 phys_pages);
  if negb (ok : bool) then unreserve self_pid pl ≫= fun _ => give_back phys_pages EFAULT
  else if phys_addrs_out =? 0 then mret (virt_addr pl)
  else
    c ← copy_out phys_addrs_out (flat_map (to_le_bytes 8) phys_pages);
    match c with
    | Ok _ => mret (virt_addr pl)
    | Err errno =>
        on_pages (take_out phys_offset (page_table pl) (virt_addr pl) 0 (length phys_pages)) ≫= fun _ =>
        unreserve self_pid pl ≫= fun _ => give_back phys_pages errno
    end.

Definition share_pages (page_count phys_addrs_out virt_addr_hint : Z) (phys_pages : list Z) : ST (XS M) Z := fun x =>
  match current_process x with
  | None => give_back phys_pages EINVAL x
  | Some self_pid =>
      match checked_mul64 page_count 4096 with
      | None => give_back phys_pages EINVAL x
      | Some page_span =>
          (r ← place 123145302310912 self_pid page_span virt_addr_hint;
           match r with
           | Err e => give_back phys_pages e
           | Ok pl => share_at self_pid pl phys_pages phys_addrs_out
           end) x
      end
  end.

Definition alloc_shared_pages (page_count phys_addrs_out phys_addrs_len virt_addr_hint : Z) : ST (XS M) Z := fun x =>
  match require_service_privilege x with
  | Err e => Some (e, x)
  | Ok _ =>
      if (page_count =? 0) || (shared_page_limit (allocator x) <? page_count) then Some (EINVAL, x)
      else if negb (phys_addrs_out =? 0) && (phys_addrs_len <? page_count) then Some (EINVAL, x)
      else
        (on_pages (allocate_pages [] (Z.to_nat page_count)) ≫= fun got =>
         match got with
         | None => mret ENOMEM
         | Some phys_pages => share_pages page_count phys_addrs_out virt_addr_hint phys_pages
         end) x
  end.

Definition unmap_pages (virt_addr page_count deallocate : Z) : ST (XS M) Z := fun x =>
  match require_service_privilege x with
  | Err e => Some (e, x)
  | Ok _ =>
      if (page_count =? 0) || (shared_page_limit (allocator x) <? page_count) then Some (EINVAL, x)
      else if negb (Z.land virt_addr 4095 =? 0) then Some (EINVAL, x)
      else
        match current_process x with
        | None => Some (EINVAL, x)
        | Some self_pid =>
            match table_of self_pid x with
            | None => Some (EINVAL, x)
            | Some pt =>
                (phys_addrs ← on_pages (if deallocate =? 0 then mret [] else physical_of phys_offset pt virt_addr 0 (Z.to_nat page_count));
                 on_pages (take_out phys_offset pt virt_addr 0 (Z.to_nat page_count)) ≫= fun _ =>
                 on_pages (if deallocate =? 0 then mret tt else free_once [] phys_addrs) ≫= fun _ => mret SUCCESS) x
            end
        end
  end.

Definition send_map_header (dest mapped_addr total_bytes : Z) : ST (XS M) bool := fun x =>
  let '(b, i) := IpcSyscalls.send_map_header_from_kernel dest mapped_addr total_bytes (ist (kst x)) in
  Some (b, set_kst (mkKS i (procs (kst x)) (futexes (kst x)) (pool (kst x))) x).

(** The last argument, [map_start], is ignored. *)
Definition ipc_send_pages (dest_thread_id phys_pages_ptr page_count : Z) : ST (XS M) Z := fun x =>
  match require_service_privilege x with
  | Err e => Some (e, x)
  | Ok _ =>
      if dest_thread_id =? 0 then Some (EINVAL, x)
      else if (page_count =? 0) || (shared_page_limit (allocator x) <? page_count) then Some (EINVAL, x)
      else if phys_pages_ptr =? 0 then Some (EFAULT, x)
      else
        match read_pages (user_mem x) phys_pages_ptr 0 (Z.to_nat page_count) with
        | Err e => Some (e, x)
        | Ok phys_pages =>
            (r ← map_phys_pages_into_target dest_thread_id phys_pages 0;
             match r with
             | Err e => mret e
             | Ok mapped_addr =>
                 match checked_mul64 page_count 4096 with
                 | None => undefined
                 | Some total_bytes => (fun b : bool => if b then SUCCESS else EAGAIN) <$> send_map_header dest_thread_id mapped_addr total_bytes
                 end
             end) x
        end
  end.

(** ** Device memory *)

Definition MAX_MMIO_MAP_SIZE : Z := 67108864.

Definition caller_has_mmio_privilege x : bool :=
  match current_process_privilege x with
  | Some Process.Core | Some Process.Service => true
  | _ => false
  end.

Definition map_range_in (aligned_phys page_offset mapped_size : Z) (p : Process.Process) : ST LMem (result Z Z * Process.Process) := fun l =>
  let p := place_heap 1342177280 p in
  let map_start := default 0 (page_align_up (Process.heap_end p)) in
  if (map_start =? 0) || (USER_SPACE_END <? map_start) then Some ((Err ENOMEM, p), l)
  else
    match Process.page_table p with
    | None => Some ((Err ENOMEM, p), l)
    | Some pt_phys =>
        match checked_add64 map_start mapped_size, checked_add64 map_start page_offset with
        | Some new_end, Some final_addr =>
            if USER_SPACE_END <? final_addr then Some ((Err ENOMEM, p), l)
            else
              match on_pm (map_physical_range_to_user phys_offset pt_phys map_start aligned_phys mapped_size) l with
              | None => None
              | Some (Ok _, l') => Some ((Ok final_addr, set_heap_end new_end p), l')
              | Some (Err _, l') => Some ((Err ENOMEM, p), l')
              end
        | _, _ => Some ((Err ENOMEM, p), l)
        end
    end.

Definition map_physical_range (phys_addr size : Z) : ST (XS M) Z := fun x =>
  if negb (caller_has_mmio_privilege x) then Some (EPERM, x)
  else if size =? 0 then Some (EINVAL, x)
  else
    let aligned_phys := page_down phys_addr in
    let page_offset := Z.land phys_addr 4095 in
    match (v ← checked_add64 size page_offset; page_align_up v) with
    | None => Some (EINVAL, x)
    | Some mapped_size =>
        if mapped_size =? 0 then Some (EINVAL, x)
        else if negb (Frame.is_allowed_mmio_range (allocator x) aligned_phys mapped_size) then Some (EINVAL, x)
        else if MAX_MMIO_MAP_SIZE <? mapped_size then Some (EINVAL, x)
        else
          match current_process x with
          | None => Some (ENOMEM, x)
          | Some pid => (answer ENOMEM <$> with_process_mut pid (map_range_in aligned_phys page_offset mapped_size)) x
          end
    end.

Definition translate_user_vaddr_to_phys (m : mem) (table_phys user_vaddr : Z) : result Z Z :=
  if negb (canonical user_vaddr) then Err EFAULT
  else match translate_addr_in_table phys_offset m table_phys user_vaddr with Some (phys, _) => Ok phys | None => Err EFAULT end.

Definition virt_to_phys (user_vaddr : Z) : ST (XS M) Z := fun x =>
  if negb (caller_has_mmio_privilege x) then Some (EPERM, x)
  else if user_vaddr =? 0 then Some (EFAULT, x)
  else if negb (validate_user_ptr (user_mem x) user_vaddr 1) then Some (EFAULT, x)
  else
    match current_table x with
    | None => Some (ENOMEM, x)
    | Some table_phys => Some (either (translate_user_vaddr_to_phys (ram (pm (lmem x))) table_phys user_vaddr), x)
    end.
End calls.
End PhysCalls.
