(* ===== verification/PhysProps.v ===== *)
(** What the calls on physical memory guarantee: only privileged callers reach them,
    shared pages are given completely or not at all, and device mappings never show
    memory that belongs to the kernel. *)

From Stdlib Require Import ZArith Lia.
From stdpp Require Import base list option numbers gmap sets.
From S2P Require Import Prelude State Types UserMem Bytes Mem Frame Paging PageTree PageTables Segment SegmentProps Mapper UserPages.
From S2P Require Import Slots Table Thread KStack Scheduler Ipc IpcSyscalls Signal Process Futex Kernel SigSyscalls SignalProps ExecStack Exec ExecProps MemCalls HeapMap MemProps PhysCalls.
Import Mem Result Paging PageTree PageTables Segment Mapper UserPages Kernel Exec MemCalls MemProps PhysCalls.

Local Open Scope Z_scope.
Local Open Scope kernel_scope.

Module PhysProps.

Section pages.
Context (off t : Z) (Hoff : 0 <= off) (Hoff' : off + 2 ^ 52 <= U64_MODULUS).
Notation translate s a := (translate_addr_in_table (Some off) (ram s) t a).

(** ** Frames that no table uses *)

Definition not_table (s : PMem) (f : Z) : Prop := forall q, table_path q -> table_at 4 (ram s) t q <> Some f.

(** The tables and their entries are as before. *)
Record same_tables (s s' : PMem) : Prop := {
  st_tables q : table_path q -> table_at 4 (ram s') t q = table_at 4 (ram s) t q;
  st_entries q y j : table_path q -> idx j -> table_at 4 (ram s) t q = Some y -> read_entry (ram s') y j = read_entry (ram s) y j;
  st_walks : same_walks t s s';
}.

Lemma same_tables_refl s : same_tables s s.
Proof. by split. Qed.

Lemma same_tables_trans s1 s2 s3 : same_tables s1 s2 -> same_tables s2 s3 -> same_tables s1 s3.
Proof.
  intros [T1 E1 W1] [T2 E2 W2]. split.
  - intros q Hq. by rewrite T2, T1.
  - intros q y j Hq Hj Hy. rewrite (E2 q), (E1 q); [done..|by rewrite T1].
  - by apply (same_walks_trans t s1 s2).
Qed.

Lemma same_tables_not s s' f : same_tables s s' -> not_table s f -> not_table s' f.
Proof. intros [H _ _] Hn q Hq. rewrite H by done. by apply Hn. Qed.

Lemma pt_inv_perm s al al' : al ≡ₚ al' -> pt_inv t s al -> pt_inv t s al'.
Proof.
  intros Hp Hinv. destruct (sound_perm s al al' (pt_sound t s al Hinv) Hp) as [H1 H2]. split; [done|done|apply Hinv|].
  intros p x Hpp Hx. rewrite <-Hp. by apply (pi_held _ _ _ Hinv p).
Qed.

(** What happens to the bytes of frames in use that are not tables. *)
Definition same_data (al : list Z) (s s' : PMem) : Prop := forall z, data_byte (ram s) t al z -> ram s' z = ram s z.

Lemma data_byte_same al al' s s' z : same_tables s s' -> (forall f, f ∈ al -> f ∈ al') -> data_byte (ram s) t al z -> data_byte (ram s') t al' z.
Proof. intros [H _ _] Hal [(b & Hb & Hz) Hd]. split; [exists b; auto|]. intros p x Hp. rewrite H by done. by apply Hd. Qed.

Lemma allocate_one s al :
  pt_inv t s al ->
  PageTables.allocate_frame s = Some (Err (KMemory Memory_OutOfMemory), s) \/
  exists n s', PageTables.allocate_frame s = Some (Ok n, s') /\ n ∉ al /\ pt_inv t s' (n :: al) /\ same_tables s s' /\ not_table s' n /\ same_data al s s'.
Proof.
  intros Hinv. destruct (allocate_outcome t s al Hinv) as [E|(n & s' & E & Hn & Hso & Hm)]; [by left|right]. exists n, s'.
  destruct (sound_frame s' (n :: al) n Hso) as [Hna _]; [left|].
  destruct (outside_frame t s al (ram s') n Hinv Hna) as (H1 & H2 & H3); [intros q Hq Hc; by apply Hn, (pi_held _ _ _ Hinv q)|done|].
  assert (not_table s n) as Hnt by (intros q Hq Hc; by apply Hn, (pi_held _ _ _ Hinv q)).
  assert (same_tables s s') as Hst by (split; [done|done|intros r; apply H3]).
  split; [done|]. split; [done|]. split; [|split; [done|]; split; [by apply (same_tables_not s)|]].
  - split; [apply Hso|apply Hso| |].
    + intros p q x Hp Hq. rewrite !H1 by done. by apply (pi_inj _ _ _ Hinv).
    + intros p x Hp. rewrite H1 by done. intros Hx. right. by apply (pi_held _ _ _ Hinv p).
  - intros z [(b & Hb & Hz) _]. apply Hm. destruct (held_frame t s al b Hinv Hb) as [Hba _]. apply (frames_apart b); [done|done|congruence|done].
Qed.

Lemma deallocate_frames_spec fs s al al0 :
  pt_inv t s al -> al ≡ₚ fs ++ al0 -> NoDup al -> (forall f, f ∈ fs -> not_table s f) ->
  exists s', deallocate_frames fs s = Some (tt, s') /\ pt_inv t s' al0 /\ same_tables s s' /\ same_data al0 s s'.
Proof.
  unfold deallocate_frames. revert s al. induction fs as [|f fs IH]; intros s al Hinv Hp Hnd Hnt.
  { exists s. split; [done|]. split; [by apply (pt_inv_perm s al)|done]. }
  cbn [sfor]. destruct (held_frame t s al f Hinv) as [Hfa Hfr]; [rewrite Hp; left|].
  rewrite (proj2 (Z.ltb_lt f _)) by lia. cbn [negb]. rewrite land_4095, Hfa. cbn [Z.eqb].
  destruct (pt_release t s al (fs ++ al0) f Hinv Hp) as (s1 & E & V & W & T & R & Z1); [apply Hnt; left|].
  rewrite (st_bind_eq _ _ _ _ _ E). rewrite Hp in Hnd. cbn in Hnd. apply NoDup_cons in Hnd as [Hf Hnd].
  assert (same_tables s s1) as S1 by (by split).
  destruct (IH s1 (fs ++ al0) V) as (s' & E' & V' & S' & D'); [done|done|intros g Hg; apply (same_tables_not s); [done|]; apply Hnt; by right|].
  exists s'. split; [done|]. split; [done|]. split; [by apply (same_tables_trans s s1)|]. intros z Hz.
  rewrite D' by (apply (data_byte_same al0 al0 s s1); [done|done|done]). apply Z1. destruct Hz as [(b & Hb & Hz) _].
  destruct (held_frame t s al b Hinv) as [Hba _]; [rewrite Hp; set_solver|]. apply (frames_apart b); [done|done| |done]. intros ->. set_solver.
Qed.

Lemma pt_nodup s al : pt_inv t s al -> NoDup al.
Proof. intros Hinv. destruct (pi_alloc _ _ _ Hinv) as (a & fl & _ & Hi & _). pose proof (Frame.ai_nodup _ _ _ _ Hi) as H. by apply NoDup_app in H as (_ & _ & H). Qed.

(** [n] frames, or none and everything as before. *)
Lemma allocate_pages_spec n s al got al0 :
  pt_inv t s al -> al ≡ₚ got ++ al0 -> (forall f, f ∈ got -> not_table s f) ->
  exists r s', allocate_pages got n s = Some (r, s') /\ same_tables s s' /\ same_data al0 s s' /\
    match r with
    | Some fs => length fs = (length got + n)%nat /\ (exists al', pt_inv t s' al' /\ al' ≡ₚ fs ++ al0) /\ forall f, f ∈ fs -> not_table s' f
    | None => pt_inv t s' al0
    end.
Proof.
  revert s al got. induction n as [|n IH]; intros s al got Hinv Hp Hnt.
  { exists (Some got), s. split; [done|]. split; [done|]. split; [done|]. split; [lia|]. split; [by exists al|done]. }
  cbn [allocate_pages]. destruct (allocate_one s al Hinv) as [E|(f & s1 & E & Hf & V & S1 & Hnf & D1)].
  - rewrite (st_bind_eq _ _ _ _ _ E). cbn beta iota.
    destruct (deallocate_frames_spec got s al al0 Hinv Hp (pt_nodup s al Hinv) Hnt) as (s' & E' & V' & S' & D').
    rewrite (st_bind_eq _ _ _ _ _ E'). by exists None, s'.
  - rewrite (st_bind_eq _ _ _ _ _ E). cbn beta iota.
    destruct (IH s1 (f :: al) (got ++ [f]) V) as (r & s' & E' & S' & D' & R).
    { rewrite Hp, <-app_assoc. cbn. apply Permutation_middle. }
    { intros g [Hg|Hg%list_elem_of_singleton]%elem_of_app; [apply (same_tables_not s); [done|by apply Hnt]|by subst]. }
    exists r, s'. split; [done|]. split; [by apply (same_tables_trans s s1)|]. split.
    { intros z Hz. rewrite D' by (by apply (data_byte_same al0 al0 s s1)). apply D1. destruct Hz as [(b & Hb & Hz) Hd]. split; [|done]. exists b. split; [|done]. rewrite Hp. set_solver. }
    destruct r as [fs|]; [|done]. destruct R as (H1 & H2 & H3). split; [|done]. rewrite length_app in H1. cbn in H1. lia.
Qed.

(** ** Mapping and taking out a run of pages *)

Lemma low_page virt j : virt mod 4096 = 0 -> 0 <= virt + 4096 * j -> virt + 4096 * (j + 1) <= 2 ^ 47 ->
  canonical_u64 (virt + 4096 * j) /\ (virt + 4096 * j) mod 4096 = 0 /\ forall S (s : S), page_at virt j s = Some (virt + 4096 * j, s).
Proof.
  intros Ha H0 H1. split; [apply SegmentProps.low_canonical; lia|]. split; [by rewrite (Z.mul_comm 4096), Z_mod_plus_full|].
  intros S s. unfold page_at. by rewrite (proj2 (checked_add64_Some virt (j * 4096) (virt + 4096 * j))) by (unfold U64_MODULUS; lia).
Qed.

Definition SHARED : Z := page_flags true true.

Lemma shared_not_huge s a q : translate s a = Some (q, SHARED) -> ~ huge_at t off s a.
Proof. intros H (q' & f & H' & Hf). rewrite H in H'. injection H' as <- <-. discriminate Hf. Qed.

Lemma take_out_spec n j virt s al :
  pt_inv t s al -> virt mod 4096 = 0 -> 0 <= virt + 4096 * j -> virt + 4096 * (j + Z.of_nat n) <= 2 ^ 47 ->
  (forall a, virt + 4096 * j <= a < virt + 4096 * (j + Z.of_nat n) -> exists q, translate s a = Some (q, SHARED)) ->
  exists s', take_out (Some off) t virt j n s = Some (tt, s') /\ pt_inv t s' al /\ grown t s s' al al /\
    forall a, canonical_u64 a -> translate s' a = if decide (virt + 4096 * j <= a < virt + 4096 * (j + Z.of_nat n)) then None else translate s a.
Proof.
  revert j s. induction n as [|n IH]; intros j s Hinv Ha H0 Hhi Hmap.
  { exists s. split; [done|]. split; [done|]. split; [apply grown_refl|]. intros a _. by rewrite decide_False by lia. }
  cbn [take_out]. destruct (low_page virt j Ha H0 ltac:(lia)) as (Hc & Hal & Hat). rewrite (st_bind_eq _ _ _ _ _ (Hat _ s)).
  destruct (Hmap (virt + 4096 * j) ltac:(lia)) as [q Hq].
  destruct (unmap_in_table_spec off t s al (virt + 4096 * j) Hoff Hoff' Hinv Hc Hal (shared_not_huge s _ q Hq)) as (s1 & E & V & G & T).
  rewrite (st_bind_eq _ _ _ _ _ E). pose proof (fun a => SegmentProps.same_page a (virt + 4096 * j) Hal) as Hsp.
  destruct (IH (j + 1) s1 V Ha ltac:(lia) ltac:(lia)) as (s' & E' & V' & G' & T').
  { intros a Hi. rewrite T by (apply SegmentProps.low_canonical; lia). rewrite decide_False by (rewrite Hsp; lia). apply Hmap. lia. }
  exists s'. split; [done|]. split; [done|]. split; [by apply (grown_trans t s s1 s' al al)|]. intros a Hca. rewrite T', T by done.
  destruct (decide (virt + 4096 * (j + 1) <= a < _)); [by rewrite decide_True by lia|].
  destruct (decide (a / 4096 = _)) as [Hd|Hd]; rewrite Hsp in Hd; [by rewrite decide_True by lia|by rewrite decide_False by lia].
Qed.

(** All pages, or none of them. *)
Lemma map_frames_spec fs i virt s al :
  pt_inv t s al -> virt mod 4096 = 0 -> 0 <= virt -> 0 <= i -> virt + 4096 * (i + Z.of_nat (length fs)) <= 2 ^ 47 ->
  (forall a, virt <= a < virt + 4096 * i -> exists q, translate s a = Some (q, SHARED)) ->
  (forall a, virt + 4096 * i <= a < virt + 4096 * (i + Z.of_nat (length fs)) -> translate s a = None) ->
  Forall (fun f => f mod 4096 = 0 /\ 0 <= f < 2 ^ 52) fs ->
  exists ok s' al', map_frames (Some off) t virt i fs s = Some (ok, s') /\ pt_inv t s' al' /\ grown t s s' al al' /\
    forall a, canonical_u64 a -> translate s' a =
      if (ok : bool) then
        if decide (virt + 4096 * i <= a < virt + 4096 * (i + Z.of_nat (length fs)))
        then Some (fs !!! Z.to_nat ((a - virt) / 4096 - i) + a mod 4096, SHARED) else translate s a
      else if decide (virt <= a < virt + 4096 * (i + Z.of_nat (length fs))) then None else translate s a.
Proof.
  intros Hinv Ha H0. revert i s al Hinv. induction fs as [|f fs IH]; intros i s al Hinv Hi Hhi Hold Hnew Hfs.
  { exists true, s, al. split; [done|]. split; [done|]. split; [apply grown_refl|]. intros a _. cbn. by rewrite decide_False by lia. }
  cbn [map_frames length] in *. apply list.Forall_cons in Hfs as [[Hfa Hfr] Hfs].
  destruct (low_page virt i Ha ltac:(lia) ltac:(lia)) as (Hc & Hal & Hat). rewrite (st_bind_eq _ _ _ _ _ (Hat _ s)).
  pose proof (fun a => SegmentProps.same_page a (virt + 4096 * i) Hal) as Hsp.
  destruct (map_page_spec off t s al (virt + 4096 * i) f true true Hoff Hoff' Hinv Hc Hal Hfa Hfr) as (r & s1 & al1 & E & V & G & R).
  rewrite (st_bind_eq _ _ _ _ _ E). destruct r as [[]|e]; cbn beta iota.
  - destruct R as [T _]. destruct (IH (i + 1) s1 al1 V ltac:(lia) ltac:(lia)) as (ok & s' & al' & E' & V' & G' & T').
    + intros a Hr. rewrite T by (apply SegmentProps.low_canonical; lia). destruct (decide _) as [Hd|Hd]; [eauto|]. rewrite Hsp in Hd. apply Hold. lia.
    + intros a Hr. rewrite T by (apply SegmentProps.low_canonical; lia). rewrite decide_False by (rewrite Hsp; lia). apply Hnew. lia.
    + done.
    + exists ok, s', al'. split; [done|]. split; [done|]. split; [by apply (grown_trans t s s1 s' al al1)|]. intros a Hca. rewrite T' by done. destruct ok.
      * destruct (decide (virt + 4096 * (i + 1) <= a < _)) as [Hr|Hr].
        { rewrite decide_True by lia. assert (1 <= (a - virt) / 4096 - i) by (pose proof (Z.div_le_lower_bound (a - virt) 4096 (i + 1)); lia).
          replace (Z.to_nat ((a - virt) / 4096 - i)) with (S (Z.to_nat ((a - virt) / 4096 - (i + 1)))) by lia. done. }
        rewrite T by done. destruct (decide (a / 4096 = _)) as [Hd|Hd]; rewrite Hsp in Hd.
        { rewrite decide_True by lia. replace ((a - virt) / 4096 - i) with 0; [done|].
          rewrite (Z.div_unique (a - virt) 4096 i (a - virt - 4096 * i)) by lia. lia. }
        by rewrite decide_False by lia.
      * destruct (decide (virt <= a < virt + 4096 * (i + 1 + _))); [by rewrite decide_True by lia|]. rewrite decide_False by lia.
        rewrite T by done. by rewrite decide_False by (rewrite Hsp; lia).
  - destruct R as [_ T]. destruct (take_out_spec (Z.to_nat i) 0 virt s1 al1 V Ha ltac:(lia) ltac:(lia)) as (s' & E' & V' & G' & T').
    { intros a Hr. rewrite T. apply Hold. lia. }
    rewrite (st_bind_eq _ _ _ _ _ E'). exists false, s', al1. split; [done|]. split; [done|]. split; [by apply (grown_trans t s s1 s' al al1)|].
    intros a Hca. rewrite T', T by done. rewrite Z2Nat.id, Z.mul_0_r, !Z.add_0_r, Z.add_0_l by done.
    destruct (decide (virt <= a < virt + 4096 * i)); [by rewrite decide_True by lia|].
    destruct (decide (virt <= a < _)); [|done]. apply Hnew. lia.
Qed.

(** ** Shared pages *)

Section shared.
Context {M : Type} `{!UserMemory M}.
Implicit Types x : XS M.

Definition is_table (s : PMem) (f : Z) : Prop := exists p, table_path p /\ table_at 4 (ram s) t p = Some f.

(** The frames [fs] are the pages from [v] on; nothing else is mapped or unmapped. *)
Definition shows (v : Z) (fs : list Z) (s s' : PMem) : Prop :=
  forall a, canonical_u64 a -> translate s' a =
    if decide (v <= a < v + 4096 * Z.of_nat (length fs)) then Some (fs !!! Z.to_nat ((a - v) / 4096) + a mod 4096, SHARED) else translate s a.

(** The frames in use: at most new tables came in. *)
Definition only_tables (al al' : list Z) (s' : PMem) : Prop := (forall f, f ∈ al -> f ∈ al') /\ forall f, f ∈ al' -> f ∈ al \/ is_table s' f.

Lemma grown_only_tables s s' al al' : grown t s s' al al' -> only_tables al al' s'.
Proof. intros G. split; [apply G|]. intros f Hf. apply (gr_made _ _ _ _ _ G f Hf). Qed.

Lemma perm_without (fs al al' : list Z) : NoDup al' -> NoDup fs -> (forall f, f ∈ fs -> f ∈ al') -> exists al0, al' ≡ₚ fs ++ al0.
Proof.
  revert al'. induction fs as [|f fs IH]; intros al' Hn Hf Hin; [by exists al'|]. apply NoDup_cons in Hf as [Hf0 Hf].
  destruct (list_elem_of_split al' f) as (l1 & l2 & ->); [apply Hin; left|].
  assert (l1 ++ f :: l2 ≡ₚ f :: l1 ++ l2) as Hp by (symmetry; apply Permutation_middle). rewrite Hp in Hn. apply NoDup_cons in Hn as [Hn0 Hn].
  destruct (IH (l1 ++ l2) Hn Hf) as [al0 H0].
  - intros g Hg. specialize (Hin g ltac:(by right)). rewrite Hp in Hin. apply elem_of_cons in Hin as [->|]; [done|done].
  - exists al0. rewrite Hp. cbn. by rewrite H0.
Qed.

(** The frames of a failed call go back. *)
Lemma give_back_spec fs al al0 e x :
  pt_inv t (mem_of x) al -> (forall f, f ∈ fs -> f ∈ al /\ not_table (mem_of x) f) -> NoDup fs -> (forall f, f ∈ al0 -> f ∈ al /\ f ∉ fs) ->
  (forall f, f ∈ al -> f ∈ al0 \/ f ∈ fs \/ is_table (mem_of x) f) ->
  exists x' al', give_back fs e x = Some (e, x') /\ kst x' = kst x /\ pt_inv t (mem_of x') al' /\ same_tables (mem_of x) (mem_of x') /\
    same_data al0 (mem_of x) (mem_of x') /\ only_tables al0 al' (mem_of x').
Proof.
  intros Hinv Hfs Hnd Hal0 Hal. destruct (perm_without fs al0 al (pt_nodup _ _ Hinv) Hnd) as [al' Hp]; [intros f Hf; by apply Hfs|].
  destruct (deallocate_frames_spec fs (mem_of x) al al' Hinv Hp (pt_nodup _ _ Hinv)) as (s' & E & V & S & D); [intros f Hf; by apply Hfs|].
  unfold give_back. rewrite (st_bind_eq _ _ _ _ _ (on_pages_eq _ x _ _ E)).
  assert (forall f, f ∈ al0 -> f ∈ al') as Hin.
  { intros f Hf. destruct (Hal0 f Hf) as [H1 H2]. rewrite Hp in H1. apply elem_of_app in H1 as [|]; [done|done]. }
  eexists _, al'. split; [done|]. split; [done|]. split; [done|]. split; [done|]. split.
  - intros z Hz. apply D. by apply (data_byte_same al0 al' (mem_of x) (mem_of x)).
  - split; [done|]. intros f Hf. assert (f ∈ al) as Hfa by (rewrite Hp; set_solver). destruct (Hal f Hfa) as [|[Hc|(q & Hq & Hx)]]; [by left| |].
    + exfalso. pose proof (pt_nodup _ _ Hinv) as Hn. rewrite Hp in Hn. apply NoDup_app in Hn as (_ & Hn & _). by apply (Hn f).
    + right. exists q. split; [done|]. destruct S as [S _ _]. unfold mem_of at 1. cbn. rewrite S by done. exact Hx.
Qed.

Lemma grown_data al0 s s' al al' z : pt_inv t s' al' -> grown t s s' al al' -> (forall f, f ∈ al0 -> f ∈ al) -> data_byte (ram s) t al0 z ->
  data_byte (ram s') t al0 z /\ ram s' z = ram s z.
Proof.
  intros V G Hin [(b & Hb & Hz) Hd]. assert (data_byte (ram s) t al z) as Hdb by (split; [exists b; auto|done]).
  destruct (data_byte_grown t s s' al al' z V G Hdb) as [_ Hd']. split; [|by apply (gr_data _ _ _ _ _ G)]. split; [by exists b|done].
Qed.

Lemma grown_not_table s s' al al' f : grown t s s' al al' -> f ∈ al -> not_table s f -> not_table s' f.
Proof. intros G Hf Hn q Hq Hx. destruct (gr_new _ _ _ _ _ G q f Hq Hx) as [H|]; [by apply (Hn q)|done]. Qed.

Lemma same_tables_translate s s' al al' a : pt_inv t s al -> pt_inv t s' al' -> same_tables s s' -> translate s' a = translate s a.
Proof. intros V V' [_ _ W]. by apply (same_walks_translate t off Hoff Hoff' s s' al al'). Qed.

(** Undoing a call whose frames [fs] may be mapped, in a state [x] that only grew. *)
Lemma undo_shared pid pl fs al al0 al1 e x0 x (P0 : gmap Z Process.Process) :
  pt_inv t (mem_of x0) al -> al ≡ₚ fs ++ al0 -> (forall f, f ∈ fs -> not_table (mem_of x0) f) ->
  pt_inv t (mem_of x) al1 -> grown t (mem_of x0) (mem_of x) al al1 ->
  (exists y, unreserve pid pl x = Some (tt, y) /\ lmem y = lmem x /\ Process.abs (procs (kst y)) = P0) ->
  exists x' al', (unreserve pid pl ≫= fun _ => give_back fs e) x = Some (e, x') /\ pt_inv t (mem_of x') al' /\ same_data al0 (mem_of x0) (mem_of x') /\
    Process.abs (procs (kst x')) = P0 /\ only_tables al0 al' (mem_of x') /\ forall a, translate (mem_of x') a = translate (mem_of x) a.
Proof.
  intros Hinv Hp Hnt V G (y & Ey & Hly & HP). pose proof (pt_nodup _ _ Hinv) as Hn. rewrite Hp in Hn. apply NoDup_app in Hn as (Hn1 & Hn2 & Hn3).
  assert (mem_of y = mem_of x) as Hm by (unfold mem_of; by rewrite Hly). rewrite (st_bind_eq _ _ _ _ _ Ey).
  assert (forall f, f ∈ fs \/ f ∈ al0 -> f ∈ al) as Hin by (intros f Hf; rewrite Hp; set_solver).
  destruct (give_back_spec fs al1 al0 e y) as (x' & al' & E & Hk & V' & S & D & O).
  - by rewrite Hm.
  - intros f Hf. rewrite Hm. split; [apply (gr_held _ _ _ _ _ G), Hin; by left|]. apply (grown_not_table (mem_of x0) _ al al1); auto.
  - done.
  - intros f Hf. split; [apply (gr_held _ _ _ _ _ G), Hin; by right|]. intros Hc. by apply (Hn2 f).
  - intros f Hf. rewrite Hm. destruct (gr_made _ _ _ _ _ G f Hf) as [Ha|Ht]; [|by right; right]. rewrite Hp in Ha. apply elem_of_app in Ha as [|]; auto.
  - exists x', al'. split; [done|]. split; [done|]. split; [|split; [by rewrite Hk|split; [done|]]].
    + intros z Hz. destruct (grown_data al0 (mem_of x0) (mem_of x) al al1 z V G ltac:(auto) Hz) as [H1 <-]. rewrite <-Hm. apply D. by rewrite Hm.
    + intros a. rewrite <-Hm. apply (same_tables_translate _ _ al1 al'); [by rewrite Hm|done|done].
Qed.

(** What a successful copy of the addresses leaves. *)
Definition copied (out : Z) (fs : list Z) x x' : Prop :=
  if out =? 0 then user_mem x' = user_mem x else copy_to_user out (flat_map (to_le_bytes 8) fs) (user_mem x) = (Ok tt, user_mem x').

Lemma share_at_spec pid pl fs out x al al0 P0 :
  page_table pl = t -> pt_inv t (mem_of x) al -> al ≡ₚ fs ++ al0 -> (forall f, f ∈ fs -> not_table (mem_of x) f) ->
  virt_addr pl mod 4096 = 0 -> 0 <= virt_addr pl -> virt_addr pl + 4096 * Z.of_nat (length fs) <= 2 ^ 47 ->
  (forall a, virt_addr pl <= a < virt_addr pl + 4096 * Z.of_nat (length fs) -> translate (mem_of x) a = None) ->
  (forall y : XS M, procs (kst y) = procs (kst x) -> exists y', unreserve pid pl y = Some (tt, y') /\ lmem y' = lmem y /\ Process.abs (procs (kst y')) = P0) ->
  exists r x' al', share_at (Some off) pid pl fs out x = Some (r, x') /\ pt_inv t (mem_of x') al' /\ same_data al0 (mem_of x) (mem_of x') /\
    (r = virt_addr pl /\ procs (kst x') = procs (kst x) /\ shows (virt_addr pl) fs (mem_of x) (mem_of x') /\
       (forall f, f ∈ fs -> not_table (mem_of x') f) /\ only_tables al al' (mem_of x') /\ copied out fs x x' \/
     r = EFAULT /\ Process.abs (procs (kst x')) = P0 /\ only_tables al0 al' (mem_of x') /\
       forall a, canonical_u64 a -> translate (mem_of x') a = translate (mem_of x) a).
Proof.
  intros Hpt Hinv Hp Hnt Ha H0 Hhi Hfree Hundo. unfold share_at. rewrite Hpt. set (v := virt_addr pl) in *.
  assert (forall f, f ∈ fs \/ f ∈ al0 -> f ∈ al) as Hin by (intros f Hf; rewrite Hp; set_solver).
  destruct (map_frames_spec fs 0 v (mem_of x) al Hinv Ha H0 ltac:(lia)) as (ok & s1 & al1 & E & V & G & T); [lia|intros a Hr; lia|intros a Hr; apply Hfree; lia| |].
  { apply Forall_elem. intros f Hf. destruct (held_frame t (mem_of x) al f Hinv) as [? ?]; [apply Hin; by left|]. split; [done|lia]. }
  rewrite (st_bind_eq _ _ _ _ _ (on_pages_eq _ x _ _ E)). set (x1 := set_lmem (mkLM s1 (temp (lmem x))) x).
  assert (forall a, canonical_u64 a -> translate s1 a = if ok then
    if decide (v <= a < v + 4096 * Z.of_nat (length fs)) then Some (fs !!! Z.to_nat ((a - v) / 4096) + a mod 4096, SHARED) else translate (mem_of x) a
    else if decide (v <= a < v + 4096 * Z.of_nat (length fs)) then None else translate (mem_of x) a) as T0.
  { intros a Hc. rewrite T by done. by rewrite Z.mul_0_r, Z.add_0_r, Z.sub_0_r, Z.add_0_l. }
  clear T. rename T0 into T.
  assert (forall z, data_byte (ram (mem_of x)) t al0 z -> ram s1 z = ram (mem_of x) z) as D1.
  { intros z Hz. apply (grown_data al0 (mem_of x) s1 al al1 z); auto. }
  destruct ok; cbn [negb].
  2:{ destruct (undo_shared pid pl fs al al0 al1 EFAULT x x1 P0) as (x' & al' & E' & V' & D' & HP & O & T'); try done; [by apply Hundo|].
      exists EFAULT, x', al'. split; [done|]. split; [done|]. split; [done|]. right. split; [done|]. split; [done|]. split; [done|].
      intros a Hc. rewrite T'. change (mem_of x1) with s1. rewrite T by done. destruct (decide _); [symmetry; apply Hfree; lia|done]. }
  assert (forall f, f ∈ fs -> not_table s1 f) as Hnt1.
  { intros f Hf. apply (grown_not_table (mem_of x) s1 al al1); auto. }
  destruct (Z.eqb_spec out 0) as [->|Hout].
  { exists v, x1, al1. split; [done|]. split; [done|]. split; [done|]. left. split; [done|]. split; [done|]. split; [exact T|]. split; [done|].
    split; [by apply (grown_only_tables (mem_of x))|done]. }
  unfold copy_out at 1. destruct (copy_to_user out (flat_map (to_le_bytes 8) fs) (user_mem x1)) as [c m] eqn:Ec.
  set (x2 := set_kst (set_mem m (kst x1)) x1). rewrite (st_bind_eq _ _ x1 c x2) by (unfold copy_out; by rewrite Ec). destruct c as [[]|err].
  { exists v, x2, al1. split; [done|]. split; [done|]. split; [done|]. left. split; [done|]. split; [done|]. split; [exact T|]. split; [done|].
    split; [by apply (grown_only_tables (mem_of x))|]. unfold copied. by rewrite (proj2 (Z.eqb_neq out 0)). }
  assert (err = EFAULT) as -> by (apply (copy_to_user_err out (flat_map (to_le_bytes 8) fs) (user_mem x1)); by rewrite Ec).
  destruct (take_out_spec (length fs) 0 v s1 al1 V Ha ltac:(lia) ltac:(lia)) as (s3 & E3 & V3 & G3 & T3).
  { intros a Hr. rewrite T by (apply SegmentProps.low_canonical; lia). rewrite decide_True by lia. eauto. }
  rewrite (st_bind_eq _ _ _ _ _ (on_pages_eq _ x2 _ _ E3)). set (x3 := set_lmem (mkLM s3 (temp (lmem x2))) x2).
  destruct (undo_shared pid pl fs al al0 al1 EFAULT x x3 P0) as (x' & al' & E' & V' & D' & HP & O & T'); try done;
    [by apply (grown_trans t (mem_of x) s1 s3 al al1)|by apply Hundo|].
  exists EFAULT, x', al'. split; [done|]. split; [done|]. split; [done|]. right. split; [done|]. split; [done|]. split; [done|].
  intros a Hc. rewrite T'. change (mem_of x3) with s3. rewrite T3, T, Z.mul_0_r, Z.add_0_r, Z.add_0_l by done. destruct (decide _); [symmetry; apply Hfree; lia|done].
Qed.

(** Where the pages of a call go. *)
Definition start_of (base0 hint : Z) (p : Process.Process) : Z :=
  if hint =? 0 then page_down ((if Process.heap_end p =? 0 then base0 else Process.heap_end p) + 4095) else hint.

Lemma set_heap_twice a p : set_heap_end (Process.heap_end p) (set_heap_end a p) = p.
Proof. by destruct p. Qed.

Lemma place_spec base0 pid span hint x p :
  Process.table_wf (procs (kst x)) -> Process.get pid (procs (kst x)) = Some p -> Process.page_table p = Some t ->
  hint mod 4096 = 0 -> 0 <= base0 < 2 ^ 47 -> 0 <= Process.heap_end p -> 0 <= span -> start_of base0 hint p + span <= 2 ^ 47 ->
  exists pl x1, place base0 pid span hint x = Some (Ok pl, x1) /\ page_table pl = t /\ virt_addr pl = start_of base0 hint p /\
    lmem x1 = lmem x /\ user_mem x1 = user_mem x /\
    Process.abs (procs (kst x1)) = (if hint =? 0 then alter (set_heap_end (start_of base0 hint p + span)) pid else id) (Process.abs (procs (kst x))) /\
    (forall y : XS M, procs (kst y) = procs (kst x1) ->
       exists y', unreserve pid pl y = Some (tt, y') /\ lmem y' = lmem y /\ Process.abs (procs (kst y')) = Process.abs (procs (kst x))).
Proof.
  intros Hw Hg Hpt Hha Hb Hhe Hs Hv. unfold place. destruct (Z.eqb_spec hint 0) as [->|Hne]; cbn [negb].
  2:{ rewrite land_4095, Hha. cbn [Z.eqb negb]. unfold table_of. rewrite Hg. cbn [mbind option_bind]. rewrite Hpt.
      eexists _, x. split; [done|]. cbn. unfold start_of. rewrite (proj2 (Z.eqb_neq hint 0)) by done. do 5 (split; [done|]). intros y Hy. exists y. by rewrite Hy. }
  set (v := start_of base0 0 p) in *. unfold start_of in v. cbn [Z.eqb] in v. set (b := if Process.heap_end p =? 0 then base0 else Process.heap_end p) in *.
  assert (0 <= b) as Hb0 by (unfold b; destruct (_ =? _); lia). pose proof (page_down_gt (b + 4095)) as Hvg. fold v in Hvg.
  assert (reserve_in base0 span p = (Ok (v, t, Process.heap_end p, v + span), set_heap_end (v + span) p)) as Hr.
  { unfold reserve_in. fold b. rewrite page_align_up_spec by (unfold U64_MODULUS; lia). fold v.
    rewrite (proj2 (checked_add64_Some v span _)) by (split; [reflexivity|unfold U64_MODULUS; lia]). by rewrite Hpt. }
  set (f := fun q : Process.Process => (@Ok (Z * Z * Z * Z) Z (v, t, Process.heap_end p, v + span), set_heap_end (v + span) q)).
  pose proof (with_found pid (reserve_in base0 span) f (procs (kst x)) p Hg Hr) as Hf.
  pose proof (Process.with_process_mut_spec pid f _ Hw ltac:(done)) as H.
  destruct (Process.with_process_mut pid f (procs (kst x))) as [o T1]. destruct H as (Ho & Hw1 & Ha1).
  rewrite (Process.process_get_abs pid _ Hw) in Hg. rewrite Hg in Ho. cbn in Ho. subst o.
  unfold mbind, ST_bind, on_procs. rewrite Hf. eexists _, _. split; [done|]. cbn. do 4 (split; [done|]). split; [exact Ha1|].
  intros y Hy. unfold unreserve. cbn [reserved]. unfold mbind, ST_bind, on_procs. rewrite Hy.
  set (g := unreserve_in (Process.heap_end p) (v + span)).
  pose proof (Process.with_process_mut_spec pid g T1 Hw1) as H. destruct (Process.with_process_mut pid g T1) as [o2 T2].
  destruct H as (_ & _ & Ha2); [intros q; unfold g, unreserve_in; cbn [snd]; by destruct (Process.heap_end q =? _)|].
  eexists. split; [done|]. split; [done|]. cbn. rewrite Ha2, Ha1. apply map_eq. intros k. destruct (decide (k = pid)) as [->|Hk].
  - rewrite !lookup_alter_eq, Hg. cbn. rewrite Z.eqb_refl. by rewrite set_heap_twice.
  - by rewrite !lookup_alter_ne by done.
Qed.

Lemma privileged_ok pid p x : current_process x = Some pid -> Process.get pid (procs (kst x)) = Some p -> Process.privilege p <> Process.User -> require_service_privilege x = Ok tt.
Proof. intros Hc Hg Hp. unfold require_service_privilege, current_process_privilege. rewrite Hc. cbn [mbind option_bind]. rewrite Hg. cbn. by destruct (Process.privilege p). Qed.

(** Shared pages are given completely or not at all.  For a privileged caller whose
    address space is well formed and a request of [n] pages within the limit, at an
    aligned hint or after the heap, where nothing is mapped, [alloc_shared_pages]
    returns.  Either it answers the address, and the [n] pages there are [n] different
    frames that were not in use and are no page tables, writable for the user, with
    their addresses copied out, every other address maps what it did, and the heap end
    moves past them when there was no hint; or it answers ENOMEM or EFAULT and the
    address space, the process table and the frames in use are as before (page tables
    that were needed on the way may remain).  No byte of a frame in use that is not a
    page table changes. *)
Theorem shared_pages_all_or_nothing n out len hint pid p x al :
  Process.table_wf (procs (kst x)) -> current_process x = Some pid -> Process.get pid (procs (kst x)) = Some p ->
  Process.privilege p <> Process.User -> Process.page_table p = Some t -> pt_inv t (mem_of x) al ->
  0 < n <= shared_page_limit (allocator x) -> (out <> 0 -> n <= len) -> 0 <= hint -> hint mod 4096 = 0 -> 0 <= Process.heap_end p ->
  let v := start_of 123145302310912 hint p in
  v + 4096 * n <= 2 ^ 47 -> (forall a, v <= a < v + 4096 * n -> translate (mem_of x) a = None) ->
  exists r x' al', alloc_shared_pages (Some off) n out len hint x = Some (r, x') /\ pt_inv t (mem_of x') al' /\ same_data al (mem_of x) (mem_of x') /\
    (r = v /\ (exists fs, Z.of_nat (length fs) = n /\ NoDup fs /\ (forall f, f ∈ fs -> f ∉ al /\ not_table (mem_of x') f) /\
       only_tables (fs ++ al) al' (mem_of x') /\ shows v fs (mem_of x) (mem_of x') /\ copied out fs x x') /\
       Process.abs (procs (kst x')) = (if hint =? 0 then alter (set_heap_end (v + 4096 * n)) pid else id) (Process.abs (procs (kst x))) \/
     (r = ENOMEM \/ r = EFAULT) /\ Process.abs (procs (kst x')) = Process.abs (procs (kst x)) /\ only_tables al al' (mem_of x') /\
       forall a, canonical_u64 a -> translate (mem_of x') a = translate (mem_of x) a).
Proof.
  intros Hw Hc Hg Hpr Hpt Hinv Hn Hlen Hh0 Hha Hhe v Hhi Hfree. unfold alloc_shared_pages. rewrite (privileged_ok pid p) by done.
  rewrite (proj2 (Z.eqb_neq n 0)), (proj2 (Z.ltb_ge _ n)) by lia. cbn [orb].
  assert (negb (out =? 0) && (len <? n) = false) as -> by (destruct (Z.eqb_spec out 0); [done|]; apply Z.ltb_ge; by apply Hlen).
  destruct (allocate_pages_spec (Z.to_nat n) (mem_of x) al [] al Hinv) as (o & s1 & E & S1 & D1 & R); [done|intros f Hf; by apply not_elem_of_nil in Hf|].
  rewrite (st_bind_eq _ _ _ _ _ (on_pages_eq _ x _ _ E)). set (x1 := set_lmem (mkLM s1 (temp (lmem x))) x). destruct o as [fs|].
  2:{ exists ENOMEM, x1, al. split; [done|]. split; [done|]. split; [done|]. right. split; [by left|]. split; [done|]. split; [by split; [|left]|].
      intros a _. by apply (same_tables_translate (mem_of x) s1 al al). }
  destruct R as (Hl & (al1 & V1 & Hp) & Hnt). cbn [length Nat.add] in Hl.
  assert (forall a, translate s1 a = translate (mem_of x) a) as T1 by (intros a; by apply (same_tables_translate (mem_of x) s1 al al1)).
  pose proof (pt_nodup s1 al1 V1) as Hnd. rewrite Hp in Hnd. apply NoDup_app in Hnd as (Hnd & Hdis & _).
  assert (0 <= v) as Hv0.
  { unfold v, start_of. destruct (Z.eqb_spec hint 0); [|lia]. pose proof (page_down_gt ((if Process.heap_end p =? 0 then 123145302310912 else Process.heap_end p) + 4095)).
    destruct (Process.heap_end p =? 0); lia. }
  unfold share_pages. change (current_process x1) with (current_process x). rewrite Hc.
  assert (checked_mul64 n 4096 = Some (n * 4096)) as -> by (unfold checked_mul64; by rewrite (proj2 (Z.ltb_lt _ _)) by (unfold U64_MODULUS; lia)).
  destruct (place_spec 123145302310912 pid (n * 4096) hint x1 p) as (pl & x2 & E2 & Hpl & Hv & Hlm & Hum & Habs & Hundo); [done|done|done|done|lia|done|lia|fold v; lia|].
  rewrite (st_bind_eq _ _ _ _ _ E2). fold v in Hv, Habs. assert (mem_of x2 = s1) as Hm2 by (unfold mem_of; by rewrite Hlm).
  assert (v mod 4096 = 0) as Hva by (unfold v, start_of; destruct (hint =? 0); [apply page_down_aligned|done]).
  destruct (share_at_spec pid pl fs out x2 al1 al (Process.abs (procs (kst x)))) as (r & x' & al' & E3 & V3 & D3 & R3).
  - done.
  - by rewrite Hm2.
  - done.
  - by rewrite Hm2.
  - by rewrite Hv.
  - by rewrite Hv.
  - rewrite Hv. lia.
  - intros a Ha. rewrite Hm2, T1. apply Hfree. rewrite Hv in Ha. lia.
  - exact Hundo.
  - exists r, x', al'. split; [done|]. split; [done|]. rewrite Hm2, Hv in *. split.
    { intros z Hz. rewrite D3 by (apply (data_byte_same al al (mem_of x) s1); done). by apply D1. }
    destruct R3 as [(-> & Hpr3 & Hsh & Hnt3 & Ho & Hcp)|(-> & HP & Ho & T3)].
    + left. split; [done|]. split; [|by rewrite Hpr3, Habs, (Z.mul_comm n)]. exists fs. split; [lia|]. split; [done|].
      split; [intros f Hf; split; [by apply Hdis|by apply Hnt3]|]. split; [|split; [intros a Ha; rewrite Hsh by done; destruct (decide _); [done|apply T1]|]].
      * destruct Ho as [O1 O2]. split; intros f Hf; [apply O1; by rewrite Hp|rewrite <-Hp; by apply O2].
      * unfold copied in *. by rewrite Hum in Hcp.
    + right. split; [by right|]. split; [done|]. split; [done|]. intros a Ha. by rewrite T3, T1.
Qed.
End shared.

(** ** Device memory *)

Section device.
Context {MP : Mapper}.

(** The mapper on a page that is free. *)
Lemma map_to_vacant s al v f fl :
  pt_inv t s al -> canonical_u64 v -> v mod 4096 = 0 -> f mod 4096 = 0 -> 0 <= f < 2 ^ 52 -> SegmentProps.vacant t s v ->
  plain_flags fl -> is_u64 fl -> has fl PRESENT = true -> has fl USER_ACCESSIBLE = true ->
  exists r s' al', map_to off t v f fl s = Some (r, s') /\ (forall g, r <> Err (PageAlreadyMapped g)) /\ pt_inv t s' al' /\ grown t s s' al al' /\
    (forall b, canonical_u64 b -> b / 4096 <> v / 4096 -> SegmentProps.vacant t s b -> SegmentProps.vacant t s' b) /\
    forall a, canonical_u64 a -> translate s' a =
      if r is Ok _ then if decide (a / 4096 = v / 4096) then Some (f + a mod 4096, fl) else translate s a else translate s a.
Proof.
  intros Hinv Hc Ha Hfa Hfr Hv Hpl Hu Hpr Hus.
  destruct (map_to_page off t s al v f fl Hoff Hoff' Hinv Hc Ha Hfa Hfr Hpl Hu Hpr Hus) as (r & s1 & al1 & X & V & W & R).
  assert (forall a, translate s1 a = translate s a) as T1 by (intros a; by apply (same_walks_translate t off Hoff Hoff' s s1 al al1)).
  pose proof (fun b => SegmentProps.vacant_extends t s s1 al al1 b X) as Hv1. destruct r as [[]|e].
  - destruct R as (l1 & He & _ & E). set (e := mk_entry f fl) in *. destruct (page_entry_table t _ _ _ _ He) as [L1 _].
    destruct (mk_entry_spec f fl Hfa Hfr Hpl Hpr) as (Ea & Ef & Ep). assert (is_u64 e) as Hu' by (by apply mk_entry_u64).
    eexists (Ok tt), _, al1. split; [exact E|]. split; [done|]. split; [by apply (write_tables t s1 al1 v l1 0 e)|]. split; [|split].
    + apply (grown_trans t s s1 _ al al1); [done|by apply extends_grown|]. by apply (leaf_grown off t s1 al1 v l1).
    + intros b Hb Hne Hvb. apply (SegmentProps.vacant_leaf t s1 al1); [done|done|done| |by apply Hv1]. intros Hp. apply Hne. by apply addr_path_inj in Hp.
    + intros a Hca. rewrite (write_translate off t Hoff Hoff' s1 al1 v l1 0 e) by done. fold e in Ea, Ef, Ep. rewrite Ep, Ea, Ef. destruct (decide _); [done|apply T1].
  - destruct e as [| |g].
    1,2: eexists (Err _), s1, al1; split; [exact R|]; split; [done|]; split; [done|]; split; [by apply extends_grown|]; split; [auto|]; intros a _; apply T1.
    destruct R as (_ & l1 & e & He & Hun & _). destruct (page_entry_table t _ _ _ _ He) as [L1 Ee]. exfalso.
    destruct (Hv1 v Hv (l1_indices v) (p1_index v) [] l1 (addr_path_l1 v) L1) as [H|[H _]]; [|by apply H].
    rewrite <-Ee in H. subst e. by rewrite H in Hun.
Qed.

Lemma map_device_page_spec s al v f :
  pt_inv t s al -> canonical_u64 v -> v mod 4096 = 0 -> f mod 4096 = 0 -> 0 <= f < 2 ^ 52 -> SegmentProps.vacant t s v ->
  exists r s' al', map_device_page off t v f s = Some (r, s') /\ pt_inv t s' al' /\ grown t s s' al al' /\
    (forall b, canonical_u64 b -> b / 4096 <> v / 4096 -> SegmentProps.vacant t s b -> SegmentProps.vacant t s' b) /\
    forall a, canonical_u64 a -> translate s' a =
      if r is Ok _ then if decide (a / 4096 = v / 4096) then Some (f + a mod 4096, device_flags) else translate s a else translate s a.
Proof.
  intros Hinv Hc Ha Hfa Hfr Hv. unfold map_device_page. rewrite (proj2 (Z.ltb_lt f _)) by lia. cbn [negb].
  rewrite (st_bind_eq _ _ s tt s) by (unfold virt; by rewrite (proj2 Hc)). destruct (pi_alloc _ _ _ Hinv) as (fa & fl & -> & _).
  destruct (SegmentProps.final_flags_facts true false) as (Hpl & Hpr & Hu). fold device_flags in Hpl, Hpr, Hu.
  destruct (map_to_vacant s al v f device_flags Hinv Hc Ha Hfa Hfr Hv Hpl Hu Hpr eq_refl) as (r & s' & al' & E & Hn & V & G & Hv' & T).
  rewrite (st_bind_eq _ _ _ _ _ E). destruct r as [[]|[| |g]]; [by exists (Ok tt), s', al'|..|by destruct (Hn g)];
    by exists (Err (KMemory Memory_InvalidAddress)), s', al'.
Qed.

(** A run of device pages, up to the one that fails. *)
Lemma map_device_pages_spec n i vs ps s al :
  pt_inv t s al -> vs mod 4096 = 0 -> ps mod 4096 = 0 -> 0 <= vs -> 0 <= ps -> 0 <= i -> vs + 4096 * (i + Z.of_nat n) <= 2 ^ 47 ->
  ps + 4096 * (i + Z.of_nat n) <= 2 ^ 52 ->
  (forall a, vs + 4096 * i <= a < vs + 4096 * (i + Z.of_nat n) -> SegmentProps.vacant t s a) ->
  exists r s' al' k, map_device_pages off t vs ps i n s = Some (r, s') /\ pt_inv t s' al' /\ grown t s s' al al' /\ i <= k <= i + Z.of_nat n /\
    (r = Ok tt -> k = i + Z.of_nat n) /\
    forall a, canonical_u64 a -> translate s' a = if decide (vs + 4096 * i <= a < vs + 4096 * k) then Some (ps + (a - vs), device_flags) else translate s a.
Proof.
  intros Hinv Hva Hpa Hv0 Hp0. revert i s al Hinv. induction n as [|n IH]; intros i s al Hinv Hi Hhi Hph Hall.
  { exists (Ok tt), s, al, i. split; [done|]. split; [done|]. split; [apply grown_refl|]. split; [lia|]. split; [lia|]. intros a _. by rewrite decide_False by lia. }
  cbn [map_device_pages]. rewrite (proj2 (checked_add64_Some vs (i * 4096) (vs + 4096 * i))) by (unfold U64_MODULUS; lia).
  rewrite (proj2 (checked_add64_Some ps (i * 4096) (ps + 4096 * i))) by (unfold U64_MODULUS; lia).
  assert ((vs + 4096 * i) mod 4096 = 0) as Hal by (by rewrite (Z.mul_comm 4096), Z_mod_plus_full).
  assert ((ps + 4096 * i) mod 4096 = 0) as Hpal by (by rewrite (Z.mul_comm 4096), Z_mod_plus_full).
  pose proof (fun a => SegmentProps.same_page a (vs + 4096 * i) Hal) as Hsp.
  destruct (map_device_page_spec s al (vs + 4096 * i) (ps + 4096 * i) Hinv) as (r & s1 & al1 & E & V & G & Hv1 & T);
    [apply SegmentProps.low_canonical; lia|done|done|lia|apply Hall; lia|].
  destruct r as [[]|e].
  2:{ rewrite (try_bind_err _ _ _ _ _ E). exists (Err e), s1, al1, i. split; [done|]. split; [done|]. split; [done|]. split; [lia|]. split; [done|].
      intros a Ha. rewrite T by done. by rewrite decide_False by lia. }
  rewrite (try_bind_ok _ _ _ _ _ E). destruct (IH (i + 1) s1 al1 V ltac:(lia) ltac:(lia) ltac:(lia)) as (r & s' & al' & k & E' & V' & G' & Hk & Hr & T').
  { intros a Ha. apply Hv1; [apply SegmentProps.low_canonical; lia|rewrite Hsp; lia|apply Hall; lia]. }
  exists r, s', al', k. split; [done|]. split; [done|]. split; [by apply (grown_trans t s s1 s' al al1)|]. split; [lia|]. split; [intros H; rewrite (Hr H); lia|].
  intros a Ha. rewrite T' by done. destruct (decide (vs + 4096 * (i + 1) <= a < _)); [by rewrite decide_True by lia|]. rewrite T by done.
  destruct (decide (a / 4096 = _)) as [Hd|Hd]; rewrite Hsp in Hd; [|by rewrite decide_False by lia]. rewrite decide_True by lia. f_equal. f_equal.
  pose proof (Z.div_mod a 4096 ltac:(lia)). rewrite <-Hsp in Hd. pose proof (Z.div_mod (vs + 4096 * i) 4096 ltac:(lia)). lia.
Qed.

Section range.
Context {M : Type} `{!UserMemory M}.
Implicit Types x : XS M.

(** The bytes of a range that the filter lets through are in no region of the memory map
    of a forbidden type. *)
Lemma allowed_bytes a lo size z r :
  Frame.map_wf (Frame.memory_map a) -> 0 <= lo -> 0 <= size -> Frame.is_allowed_mmio_range (Some a) lo size = true ->
  lo <= z < lo + size -> r ∈ Frame.memory_map a -> Frame.start r <= z < Frame.start r + Frame.len r -> Frame.mmio_region_type_allowed (Frame.region_type r) = true.
Proof.
  intros Hw H0 Hs Hok Hz Hr Hin. apply (Frame.mmio_range_policy a lo size Hw H0 Hs) in Hok as (_ & _ & H & _). apply (H r Hr).
  unfold Frame.overlaps. rewrite (proj2 (Z.ltb_lt _ _)), (proj2 (Z.ltb_lt _ _)), (proj2 (Z.leb_le _ _)) by lia. done.
Qed.

Lemma below52_wf mm : below52 mm -> Frame.map_wf mm.
Proof. intros H. apply (Forall_impl _ _ _ H). intros r Hr. unfold U64_MODULUS. lia. Qed.

Lemma map_range_in_spec aligned offset size p l al :
  Process.page_table p = Some t -> pt_inv t (pm l) al ->
  let h := heap_of 1342177280 p in
  let start := page_down (h.2 + 4095) in
  aligned mod 4096 = 0 -> 0 <= aligned -> 0 <= offset < 4096 -> 0 < size -> size mod 4096 = 0 -> aligned + size <= 2 ^ 52 ->
  0 <= h.2 -> 0 < start -> start + size <= 2 ^ 47 -> (forall a, start <= a < start + size -> SegmentProps.vacant t (pm l) a) ->
  exists r l' al' k, pt_inv t (pm l') al' /\ grown t (pm l) (pm l') al al' /\ start <= k <= start + size /\
    (forall a, canonical_u64 a -> translate (pm l') a = if decide (start <= a < k) then Some (aligned + (a - start), device_flags) else translate (pm l) a) /\
    map_range_in (Some off) aligned offset size p l = Some ((r, Process.set_heap h.1 (if r is Ok _ then start + size else h.2) p), l') /\
    match r with Ok v => v = start + offset /\ k = start + size | Err e => e = ENOMEM end.
Proof.
  intros Hpt Hinv h start Haa Ha0 Hof Hs Hsa Hhi Hh Hst Hst2 Hall. unfold map_range_in. rewrite place_heap_eq. fold h.
  change (Process.heap_end (Process.set_heap h.1 h.2 p)) with h.2. change (Process.page_table (Process.set_heap h.1 h.2 p)) with (Process.page_table p).
  pose proof (page_down_gt (h.2 + 4095)) as Hg. fold start in Hg.
  rewrite page_align_up_spec by (unfold U64_MODULUS; lia). fold start. change (default 0 (Some start)) with start. cbn zeta. rewrite (proj2 (Z.eqb_neq start 0)) by lia.
  unfold USER_SPACE_END. rewrite (proj2 (Z.ltb_ge _ start)) by lia. cbn [orb]. rewrite Hpt.
  rewrite (proj2 (checked_add64_Some start size _)) by (split; [reflexivity|unfold U64_MODULUS; lia]).
  rewrite (proj2 (checked_add64_Some start offset _)) by (split; [reflexivity|unfold U64_MODULUS; lia]).
  assert (4096 <= size) by (pose proof (Z.div_mod size 4096 ltac:(lia)); lia). rewrite (proj2 (Z.ltb_ge _ (start + offset))) by lia.
  unfold map_physical_range_to_user. rewrite (proj2 (Z.eqb_neq size 0)) by lia.
  assert (page_down start = start) as -> by (unfold start; rewrite page_down_spec, page_down_aligned; lia).
  assert (page_down aligned = aligned) as -> by (rewrite page_down_spec, Haa; lia).
  assert (match checked_add64 size 4095 with Some v => Z.shiftr v 12 | None => 0 end = size / 4096) as ->.
  { rewrite (proj2 (checked_add64_Some size 4095 _)) by (split; [reflexivity|unfold U64_MODULUS; lia]). rewrite Z.shiftr_div_pow2 by lia. change (2 ^ 12) with 4096.
    symmetry. apply (Z.div_unique _ _ _ 4095); [lia|]. pose proof (Z.div_mod size 4096 ltac:(lia)). lia. }
  destruct (root_frame t (pm l) al Hinv) as [_ Htr].
  set (n := Z.to_nat (size / 4096)). assert (4096 * Z.of_nat n = size) as Hn.
  { unfold n. pose proof (Z.div_mod size 4096 ltac:(lia)). assert (0 <= size / 4096) by (apply Z.div_pos; lia). lia. }
  destruct (map_device_pages_spec n 0 start aligned (pm l) al Hinv (page_down_aligned _) Haa ltac:(lia) Ha0 ltac:(lia) ltac:(lia) ltac:(lia))
    as (r & s' & al' & k & E & V & G & Hk & Hr & T); [intros a Ha; apply Hall; lia|].
  assert ((as_table off t ≫= fun _ => map_device_pages off t start aligned 0 n) (pm l) = Some (r, s')) as E'.
  { rewrite (st_bind_eq _ _ _ tt (pm l)); [done|]. unfold as_table, reachable. by rewrite (proj2 (checked_add64_Some t off (t + off))) by lia. }
  unfold on_pm. rewrite E'. exists (match r with Ok _ => Ok (start + offset) | Err _ => Err ENOMEM end), (mkLM s' (temp l)), al', (start + 4096 * k).
  split; [done|]. split; [done|]. split; [lia|]. split; [|destruct r as [[]|e]; (split; [done|])].
  - intros a Ha. cbn [pm]. rewrite T by done. by rewrite Z.mul_0_r, Z.add_0_r.
  - split; [done|]. rewrite (Hr eq_refl). lia.
  - done.
Qed.

(** A device mapping shows the device and nothing of the kernel's memory.  For a
    privileged caller with a well-formed address space, [map_physical_range] of a
    range below 2^52 that the memory map allows and that is at most 64 MiB, at free
    addresses after the heap, either returns the address at which every byte of the
    range appears, readable and writable for the user, or ENOMEM; no page it maps lies
    in a region of the memory map of a forbidden type, such as usable memory, and no
    other mapping changes.  Every other range is refused with EINVAL and nothing
    changes. *)
Theorem device_mapping_avoids_memory phys size pid p x al fa :
  Process.table_wf (procs (kst x)) -> current_process x = Some pid -> Process.get pid (procs (kst x)) = Some p ->
  Process.privilege p <> Process.User -> Process.page_table p = Some t -> pt_inv t (mem_of x) al -> allocator x = Some fa ->
  0 <= phys -> 0 < size -> phys + size + 4096 <= 2 ^ 52 ->
  let lo := page_down phys in
  let span := page_down (size + phys mod 4096 + 4095) in
  let h := heap_of 1342177280 p in
  let start := page_down (h.2 + 4095) in
  0 < start -> 0 <= h.2 -> (span <= MAX_MMIO_MAP_SIZE -> start + span <= 2 ^ 47) -> (forall a, start <= a < start + span -> SegmentProps.vacant t (mem_of x) a) ->
  if Frame.is_allowed_mmio_range (allocator x) lo span && (span <=? MAX_MMIO_MAP_SIZE)
  then exists r x' al' k, map_physical_range (Some off) phys size x = Some (r, x') /\ pt_inv t (mem_of x') al' /\ grown t (mem_of x) (mem_of x') al al' /\
    start <= k <= start + span /\
    (forall a, canonical_u64 a -> translate (mem_of x') a = if decide (start <= a < k) then Some (lo + (a - start), device_flags) else translate (mem_of x) a) /\
    (forall z rg, lo <= z < lo + span -> rg ∈ Frame.memory_map fa -> Frame.start rg <= z < Frame.start rg + Frame.len rg ->
       Frame.mmio_region_type_allowed (Frame.region_type rg) = true) /\
    (r = start + phys mod 4096 /\ heap_set pid h.1 (start + span) x x' /\
       (forall d, 0 <= d < size -> translate (mem_of x') (r + d) = Some (phys + d, device_flags)) \/
     r = ENOMEM /\ heap_set pid h.1 h.2 x x')
  else map_physical_range (Some off) phys size x = Some (EINVAL, x).
Proof.
  intros Hw Hc Hg Hpr Hpt Hinv Hfa Hp0 Hs0 Hhi lo span h start Hst Hh Hsp Hall. unfold map_physical_range.
  assert (caller_has_mmio_privilege x = true) as ->.
  { unfold caller_has_mmio_privilege, current_process_privilege. rewrite Hc. cbn [mbind option_bind]. rewrite Hg. cbn. by destruct (Process.privilege p). }
  cbn [negb]. rewrite (proj2 (Z.eqb_neq size 0)) by lia. rewrite land_4095. fold lo.
  pose proof (Z.mod_pos_bound phys 4096 ltac:(lia)) as Hm. pose proof (Z.mod_le phys 4096 Hp0 ltac:(lia)). assert (lo + phys mod 4096 = phys) as Hlo by (unfold lo; rewrite page_down_spec; lia).
  rewrite (proj2 (checked_add64_Some size (phys mod 4096) _)) by (split; [reflexivity|unfold U64_MODULUS; lia]). cbn [mbind option_bind].
  rewrite page_align_up_spec by (unfold U64_MODULUS; lia). fold span.
  pose proof (page_down_gt (size + phys mod 4096 + 4095)) as Hs1. fold span in Hs1. pose proof (page_down_le (size + phys mod 4096 + 4095)) as Hs2. fold span in Hs2.
  rewrite (proj2 (Z.eqb_neq span 0)) by lia. destruct (Frame.is_allowed_mmio_range (allocator x) lo span) eqn:Hok; [|done]. cbn [negb andb].
  destruct (Z.leb_spec span MAX_MMIO_MAP_SIZE) as [Hmax|Hmax]; [|by rewrite (proj2 (Z.ltb_lt _ span))]. rewrite (proj2 (Z.ltb_ge _ span)) by lia. rewrite Hc.
  destruct (map_range_in_spec lo (phys mod 4096) span p (lmem x) al Hpt Hinv) as (r & l' & al' & k & V & G & Hk & T & E & R);
    [apply page_down_aligned|lia|lia|lia|apply page_down_aligned|lia|done|done|by apply Hsp|exact Hall|]. fold h start in Hk, T, E, R.
  destruct (with_heap pid _ p r h.1 _ l' x Hw Hg E) as (x' & Ex & Hlm & Hset). unfold fmap, ST_fmap. rewrite Ex.
  exists (match r with Ok v => v | Err e => e end), x', al', k. unfold mem_of in *. rewrite Hlm.
  split; [by destruct r|]. split; [done|]. split; [done|]. split; [done|]. split; [done|]. split.
  - intros z rg Hz Hrg Hin. destruct (pi_alloc _ _ _ Hinv) as (fa' & fl & Hfr & _ & Hb). unfold allocator in *. rewrite Hfr in Hfa. injection Hfa as ->.
    rewrite Hfr in Hok. apply (allowed_bytes fa lo span z rg (below52_wf _ Hb)); done || lia.
  - destruct r as [v|e]; [left|right; by subst e]. destruct R as [-> ->]. split; [done|]. split; [done|]. intros d Hd.
    rewrite T by (apply SegmentProps.low_canonical; specialize (Hsp Hmax); lia). rewrite decide_True by lia. f_equal. f_equal. lia.
Qed.
End range.
End device.
End pages.

(** ** Privilege *)

Section privilege.
Context {M : Type} `{!UserMemory M} {MP : Mapper}.
Context (phys_offset : option Z).
Implicit Types x : XS M.

(** One of the calls of the two files returns. *)
Inductive phys_call x : Z -> XS M -> Prop :=
| call_map_physical_pages tid ptr n hint r x' : map_physical_pages phys_offset tid ptr n hint x = Some (r, x') -> phys_call x r x'
| call_get_physical_addr v tid r x' : get_physical_addr phys_offset v tid x = Some (r, x') -> phys_call x r x'
| call_alloc_shared_pages n out len hint r x' : alloc_shared_pages phys_offset n out len hint x = Some (r, x') -> phys_call x r x'
| call_unmap_pages v n d r x' : unmap_pages phys_offset v n d x = Some (r, x') -> phys_call x r x'
| call_ipc_send_pages dest ptr n r x' : ipc_send_pages phys_offset dest ptr n x = Some (r, x') -> phys_call x r x'
| call_map_physical_range phys size r x' : map_physical_range phys_offset phys size x = Some (r, x') -> phys_call x r x'
| call_virt_to_phys v r x' : virt_to_phys phys_offset v x = Some (r, x') -> phys_call x r x'.

(** Only privileged processes reach physical memory: whatever its arguments, a call
    of an ordinary process (or of a thread without a process) to any of the seven calls
    on physical memory returns EPERM and changes nothing. *)
Theorem physical_calls_need_privilege x r x' :
  phys_call x r x' -> current_process_privilege x <> Some Process.Core -> current_process_privilege x <> Some Process.Service -> r = EPERM /\ x' = x.
Proof.
  intros H Hc Hs. assert (require_service_privilege x = Err EPERM /\ caller_has_mmio_privilege x = false) as [Hr Hm].
  { unfold require_service_privilege, caller_has_mmio_privilege. by destruct (current_process_privilege x) as [[]|]. }
  destruct H as [????? ? H|??? ? H|????? ? H|???? ? H|???? ? H|??? ? H|?? ? H]; revert H;
    unfold map_physical_pages, get_physical_addr, alloc_shared_pages, unmap_pages, ipc_send_pages, map_physical_range, virt_to_phys; rewrite ?Hr, ?Hm;
    cbn [negb]; intros [= <- <-]; done.
Qed.

(** A device range above 2^52 stops the kernel: the filter of [map_physical_range]
    lets through every range that the memory map does not mention, and for a start of
    2^52 or more the physical address type then panics. *)
Theorem high_device_range_panics phys size pid p pt off x fa :
  phys_offset = Some off -> reachable off pt <> None -> current_process x = Some pid -> Process.get pid (procs (kst x)) = Some p -> Process.privilege p <> Process.User ->
  Process.page_table p = Some pt -> allocator x = Some fa -> Frame.map_wf (Frame.memory_map fa) ->
  2 ^ 52 <= phys -> phys mod 4096 = 0 -> 0 < size <= MAX_MMIO_MAP_SIZE -> phys + size + 4096 < U64_MODULUS ->
  (forall rg, rg ∈ Frame.memory_map fa -> Frame.start rg + Frame.len rg <= 2 ^ 52) ->
  0 < Process.heap_start p -> 0 < Process.heap_end p < 2 ^ 40 ->
  map_physical_range phys_offset phys size x = None.
Proof.
  intros -> Hre Hc Hg Hpr Hpt Hfa Hw Hp Hpa Hs Hhi Hmap Hhs Hhe. unfold map_physical_range, MAX_MMIO_MAP_SIZE in *.
  assert (caller_has_mmio_privilege x = true) as ->.
  { unfold caller_has_mmio_privilege, current_process_privilege. rewrite Hc. cbn [mbind option_bind]. rewrite Hg. cbn. by destruct (Process.privilege p). }
  cbn [negb]. rewrite (proj2 (Z.eqb_neq size 0)), land_4095, Hpa by lia. assert (page_down phys = phys) as Hpd by (rewrite page_down_spec, Hpa; lia). rewrite Hpd.
  rewrite (proj2 (checked_add64_Some size 0 size)) by (unfold U64_MODULUS; lia). cbn [mbind option_bind].
  rewrite page_align_up_spec by (unfold U64_MODULUS; lia). set (span := page_down (size + 4095)).
  pose proof (page_down_gt (size + 4095)) as Hs1. pose proof (page_down_bound (size + 4095) 16385 ltac:(lia)) as Hs2. fold span in Hs1, Hs2.
  pose proof (page_down_le (size + 4095)) as Hs3. fold span in Hs3. rewrite (proj2 (Z.eqb_neq span 0)) by lia.
  assert (Frame.is_allowed_mmio_range (allocator x) phys span = true) as ->.
  { rewrite Hfa. apply (Frame.mmio_range_policy fa phys span Hw ltac:(lia) ltac:(lia)).
    assert (forall rg, rg ∈ Frame.memory_map fa -> Frame.overlaps phys (phys + span - 1) rg = false) as Hno.
    { intros rg Hrg. specialize (Hmap rg Hrg). unfold Frame.overlaps. rewrite (proj2 (Z.ltb_ge phys _)) by lia. by rewrite andb_false_r. }
    split; [lia|]. split; [lia|]. split; [intros rg Hrg Ho; by rewrite Hno in Ho|by right]. }
  cbn [negb]. rewrite (proj2 (Z.ltb_ge _ span)) by lia. rewrite Hc. unfold fmap, ST_fmap, with_process_mut. rewrite Hg.
  assert (map_range_in (Some off) phys 0 span p (lmem x) = None) as ->; [|done]. unfold map_range_in, place_heap. rewrite (proj2 (Z.eqb_neq (Process.heap_start p) 0)) by lia.
  rewrite page_align_up_spec by (unfold U64_MODULUS; lia). set (start := page_down (Process.heap_end p + 4095)). change (default 0 (Some start)) with start. cbn zeta.
  pose proof (page_down_gt (Process.heap_end p + 4095)) as H1. pose proof (page_down_le (Process.heap_end p + 4095)) as H2. fold start in H1, H2.
  rewrite (proj2 (Z.eqb_neq start 0)) by lia. unfold USER_SPACE_END. rewrite (proj2 (Z.ltb_ge _ start)) by lia. cbn [orb]. rewrite Hpt.
  rewrite (proj2 (checked_add64_Some start span _)) by (split; [reflexivity|unfold U64_MODULUS; lia]).
  rewrite (proj2 (checked_add64_Some start 0 start)) by (unfold U64_MODULUS; lia). rewrite (proj2 (Z.ltb_ge _ start)) by lia.
  unfold on_pm, map_physical_range_to_user. rewrite (proj2 (Z.eqb_neq span 0)) by lia. unfold as_table. destruct (reachable off pt) as [[]|]; [|done].
  rewrite (proj2 (checked_add64_Some span 4095 _)) by (split; [reflexivity|unfold U64_MODULUS; lia]).
  unfold mbind, ST_bind, mret, ST_ret. rewrite Z.shiftr_div_pow2 by lia. change (2 ^ 12) with 4096.
  assert (1 <= (span + 4095) / 4096) by (apply Z.div_le_lower_bound; lia).
  destruct (Z.to_nat ((span + 4095) / 4096)) as [|n] eqn:En; [lia|]. cbn [map_device_pages].
  rewrite (proj2 (checked_add64_Some (page_down start) (0 * 4096) _)) by (split; [reflexivity|]; pose proof (page_down_le start); unfold U64_MODULUS; lia).
  rewrite Hpd, (proj2 (checked_add64_Some phys (0 * 4096) _)) by (split; [reflexivity|unfold U64_MODULUS in *; lia]).
  unfold try_bind, mbind, ST_bind, map_device_page. by rewrite (proj2 (Z.ltb_ge _ (2 ^ 52))) by lia.
Qed.
End privilege.

(** ** A concrete system *)

(** A driver, process 10 of level [Service], with an empty address space and a heap at
    1342177280. *)
Definition demo_driver : XS (Z -> Z) :=
  let p := Process.set_heap 1342177280 1342177280 (Process.set_page_table 1048576 (Process.new [97] Process.Service None 0 10).1) in
  mkXS (set_procs (Process.add p Process.Table_new).2 SignalProps.demo_ks) (mkLM blank None) 0 0 20 5 (fun _ => 0).

Lemma demo_driver_wf : Process.table_wf (procs (kst demo_driver)).
Proof. split; [reflexivity|reflexivity|]. unfold keys_unique. vm_compute. repeat constructor; set_solver. Qed.

Lemma demo_driver_process : exists p, Process.get 10 (procs (kst demo_driver)) = Some p /\ Process.page_table p = Some 1048576 /\
  Process.privilege p = Process.Service /\ Process.heap_start p = 1342177280 /\ Process.heap_end p = 1342177280.
Proof. eexists. split; [vm_compute; reflexivity|]. repeat split. Qed.

(** An ordinary process asks for a physical address. *)
Lemma physical_calls_need_privilege_witness : exists r, virt_to_phys (Some 0) 4194304 demo_empty = Some (r, demo_empty) /\ r = EPERM.
Proof.
  assert (exists r x', virt_to_phys (Some 0) 4194304 demo_empty = Some (r, x')) as (r & x' & E) by (eexists _, _; vm_compute; reflexivity).
  destruct (physical_calls_need_privilege (Some 0) demo_empty r x') as [Hr Hx]; [exact (call_virt_to_phys _ _ _ _ _ E)|vm_compute; discriminate|vm_compute; discriminate|].
  exists r. rewrite Hx in E. split; [exact E|exact Hr].
Defined.

(** Two pages at 4194304, their addresses at 8192. *)
Lemma shared_pages_all_or_nothing_witness :
  exists x' fs, alloc_shared_pages (Some 0) 2 8192 2 4194304 demo_driver = Some (4194304, x') /\ length fs = 2%nat /\ NoDup fs /\
    shows 0 1048576 4194304 fs blank (mem_of x').
Proof.
  destruct demo_driver_process as (p & Hg & Hpt & Hpr & _ & He).
  assert (fst <$> alloc_shared_pages (Some 0) 2 8192 2 4194304 demo_driver = Some 4194304) as Hr by (vm_compute; reflexivity).
  destruct (shared_pages_all_or_nothing 0 1048576 ltac:(lia) ltac:(done) 2 8192 2 4194304 10 p demo_driver [1048576]) as (r & x' & al' & E & _ & _ & R).
  - exact demo_driver_wf.
  - reflexivity.
  - exact Hg.
  - rewrite Hpr. discriminate.
  - exact Hpt.
  - exact blank_inv.
  - vm_compute. split; [reflexivity|discriminate].
  - lia.
  - lia.
  - reflexivity.
  - rewrite He. lia.
  - vm_compute. discriminate.
  - intros a _. change (mem_of demo_driver) with blank. rewrite (translate_walk 1048576 0 ltac:(lia) ltac:(done) _ [1048576] a blank_inv).
    rewrite (HeapMap.vacant_walk 1048576 blank a); [reflexivity|apply SegmentProps.blank_vacant].
  - rewrite E in Hr. injection Hr as ->. destruct R as [(_ & (fs & H1 & H2 & _ & _ & H3 & _) & _)|([H|H] & _)]; [|discriminate H|discriminate H].
    exists x', fs. split; [exact E|]. split; [lia|]. split; [exact H2|exact H3].
Defined.

(** 100 bytes of a device at 4294967300. *)
Lemma device_mapping_avoids_memory_witness :
  exists x', map_physical_range (Some 0) 4294967300 100 demo_driver = Some (1342177284, x') /\
    translate_addr_in_table (Some 0) (ram (mem_of x')) 1048576 1342177300 = Some (4294967316, device_flags).
Proof.
  destruct demo_driver_process as (p & Hg & Hpt & Hpr & Hs & He).
  assert (fst <$> map_physical_range (Some 0) 4294967300 100 demo_driver = Some 1342177284) as Hr by (vm_compute; reflexivity).
  assert (heap_of 1342177280 p = (1342177280, 1342177280)) as Hh by (unfold heap_of; rewrite Hs, He; reflexivity).
  pose proof (device_mapping_avoids_memory 0 1048576 ltac:(lia) ltac:(done) 4294967300 100 10 p demo_driver [1048576] _ demo_driver_wf eq_refl Hg
    ltac:(rewrite Hpr; discriminate) Hpt blank_inv eq_refl ltac:(lia) ltac:(lia) ltac:(lia)) as H. rewrite Hh in H. cbn [snd] in H. cbn zeta in H.
  destruct H as (r & x' & al' & k & E & _ & _ & _ & _ & _ & R); [reflexivity|lia|vm_compute; discriminate|intros a _; apply SegmentProps.blank_vacant|].
  rewrite E in Hr. injection Hr as ->. exists x'. split; [exact E|]. destruct R as [(_ & _ & H)|[H _]]; [|discriminate H]. exact (H 16 ltac:(lia)).
Defined.

(** A page at 2^52. *)
Lemma high_device_range_panics_witness : map_physical_range (Some 0) (2 ^ 52) 4096 demo_driver = None.
Proof.
  destruct demo_driver_process as (p & Hg & Hpt & Hpr & Hs & He).
  apply (high_device_range_panics (Some 0) (2 ^ 52) 4096 10 p 1048576 0 demo_driver (Frame.mkAllocator [Frame.mkRegion 1048576 262144 Frame.Usable] 257 0 0)).
  - reflexivity.
  - vm_compute. discriminate.
  - reflexivity.
  - exact Hg.
  - rewrite Hpr. discriminate.
  - exact Hpt.
  - reflexivity.
  - repeat constructor; cbn; unfold U64_MODULUS; lia.
  - lia.
  - reflexivity.
  - vm_compute. split; [reflexivity|discriminate].
  - vm_compute. reflexivity.
  - intros rg Hrg. cbn in Hrg. apply list_elem_of_singleton in Hrg as ->. vm_compute. discriminate.
  - rewrite Hs. lia.
  - rewrite He. lia.
Defined.
End PhysProps.
