(* ===== verification/PortIo.v ===== *)
(** Access to processor ports, [src/core/syscall/io_port.rs].

    The [in] and [out] instructions are the class [Ports]; the device behind the ports
    has a state of its own, since reading a port can change it. *)

From Stdlib Require Import ZArith Lia.
From stdpp Require Import base list option numbers.
From S2P Require Import Prelude State Types UserMem Slots Table Thread KStack Scheduler Ipc IpcSyscalls Signal Process Futex Kernel SigSyscalls SignalProps.
Import Kernel.

Local Open Scope Z_scope.

(** A read or write of [w] bytes at a port. *)
Class Ports (D : Type) := {
  port_read : Z -> Z -> D -> Z * D;
  port_write : Z -> Z -> Z -> D -> D;
  port_read_range w p d : 0 <= w -> 0 <= (port_read w p d).1 < 2 ^ (8 * w);
}.

Module PortIo.

Section calls.
Context {M : Type} `{!UserMemory M} {D : Type} `{!Ports D}.

(** The kernel and the devices. *)
Record PS := mkPS { krn : KS M; dev : D }.
Implicit Types s : PS.

Definition caller_has_port_privilege s : bool :=
  match current_privilege (krn s) with
  | Some Process.Core | Some Process.Service => true
  | _ => false
  end.

Definition inp (w port : Z) s : Z * PS := let '(v, d) := port_read w port (dev s) in (v, mkPS (krn s) d).
Definition outp (w port v : Z) s : PS := mkPS (krn s) (port_write w port v (dev s)).

Definition port_in (port size : Z) s : Z * PS :=
  if negb (caller_has_port_privilege s) then (EPERM, s)
  else if 65535 <? port then (EINVAL, s)
  else if size =? 1 then inp 1 port s
  else if size =? 2 then inp 2 port s
  else if size =? 4 then inp 4 port s
  else (EINVAL, s).

Definition port_out (port value size : Z) s : Z * PS :=
  if negb (caller_has_port_privilege s) then (EPERM, s)
  else if 65535 <? port then (EINVAL, s)
  else if size =? 1 then (SUCCESS, outp 1 port (value mod 2 ^ 8) s)
  else if size =? 2 then (SUCCESS, outp 2 port (value mod 2 ^ 16) s)
  else if size =? 4 then (SUCCESS, outp 4 port (value mod 2 ^ 32) s)
  else (EINVAL, s).

(** The bytes of the next [n] words. *)
Fixpoint in_words (port : Z) (n : nat) s : list Z * PS :=
  match n with
  | O => ([], s)
  | S n =>
      let '(value, s) := inp 2 port s in
      let '(tmp, s) := in_words port n s in
      (to_le_bytes 2 value ++ tmp, s)
  end.

Definition port_in_words (port dst_ptr count : Z) s : Z * PS :=
  if negb (caller_has_port_privilege s) then (EPERM, s)
  else if (65535 <? port) || (count =? 0) then (EINVAL, s)
  else
    match checked_mul64 count 2 with
    | None => (EINVAL, s)
    | Some byte_len =>
        if negb (validate_user_ptr (mem_of (krn s)) dst_ptr byte_len) then (EFAULT, s)
        else
          let '(tmp, s) := in_words port (Z.to_nat count) s in
          let '(r, m) := copy_to_user dst_ptr tmp (mem_of (krn s)) in
          (match r with Ok _ => SUCCESS | Err e => e end, mkPS (set_mem m (krn s)) (dev s))
    end.

(** The words of a buffer, in order. *)
Fixpoint out_words (port : Z) (n : nat) (tmp : list Z) s : PS :=
  match n with
  | O => s
  | S n => out_words port n (drop 2 tmp) (outp 2 port (from_le_bytes (take 2 tmp)) s)
  end.

Definition port_out_words (port src_ptr count : Z) s : Z * PS :=
  if negb (caller_has_port_privilege s) then (EPERM, s)
  else if (65535 <? port) || (count =? 0) then (EINVAL, s)
  else
    match checked_mul64 count 2 with
    | None => (EINVAL, s)
    | Some byte_len =>
        if negb (validate_user_ptr (mem_of (krn s)) src_ptr byte_len) then (EFAULT, s)
        else
          match copy_from_user (mem_of (krn s)) src_ptr (Z.to_nat byte_len) with
          | Err e => (e, s)
          | Ok tmp => (SUCCESS, out_words port (Z.to_nat count) tmp s)
          end
    end.
End calls.
Arguments PS M D : clear implicits.

(** ** Devices that hand out words in order *)

(** The data port of a disk or a buffer: 16-bit reads take the next word, 16-bit writes
    add one. *)
Class DataPort (D : Type) `{!Ports D} (port : Z) := {
  words : D -> list Z;
  read_word d v rest : words d = v :: rest -> (port_read 2 port d).1 = v /\ words (port_read 2 port d).2 = rest;
  write_word d v : 0 <= v < 2 ^ 16 -> words (port_write 2 port v d) = words d ++ [v];
}.

#[export] Instance fifo_ports : Ports (list Z).
Proof.
  refine {| port_read w _ d := (default 0 (head d) mod 2 ^ (8 * w), tail d); port_write w _ v d := d ++ [v mod 2 ^ 16] |}.
  intros w p d Hw. cbn. apply Z.mod_pos_bound. apply Z.pow_pos_nonneg; lia.
Defined.

#[export] Instance fifo_data_port port : DataPort (list Z) port.
Proof.
  refine {| words d := (fun v => v mod 2 ^ 16) <$> d |}.
  - intros [|v' d] v rest; [done|]. cbn. by intros [= <- <-].
  - intros d v Hv. cbn. rewrite fmap_app. cbn. by rewrite Z.mod_mod, Z.mod_small by lia.
Defined.

Section data_port.
Context {M : Type} `{!UserMemory M, !PlainMemory M} {D : Type} `{!Ports D} (port : Z) `{!DataPort D port}.
Implicit Types s : PS M D.

Definition port_words s : list Z := words (port := port) (dev s).

Lemma inp_word s v rest : port_words s = v :: rest -> exists s', inp 2 port s = (v, s') /\ krn s' = krn s /\ port_words s' = rest.
Proof.
  intros H. unfold inp. destruct (read_word (dev s) v rest H) as [H1 H2]. destruct (port_read 2 port (dev s)) as [v' d]. cbn in *. subst v'. by eexists.
Qed.

Lemma in_words_spec ws rest s : port_words s = ws ++ rest ->
  exists s', in_words port (length ws) s = (flat_map (to_le_bytes 2) ws, s') /\ krn s' = krn s /\ port_words s' = rest.
Proof.
  revert s. induction ws as [|w ws IH]; intros s H; [by exists s|]. cbn [length in_words flat_map].
  destruct (inp_word s w (ws ++ rest) H) as (s1 & -> & K1 & H1). destruct (IH s1 H1) as (s' & -> & K' & H'). exists s'. by rewrite K'.
Qed.

Lemma out_words_spec ws s : Forall (fun w => 0 <= w < 2 ^ 16) ws ->
  krn (out_words port (length ws) (flat_map (to_le_bytes 2) ws) s) = krn s /\
  port_words (out_words port (length ws) (flat_map (to_le_bytes 2) ws) s) = port_words s ++ ws.
Proof.
  revert s. induction ws as [|w ws IH]; intros s Hw; [by rewrite app_nil_r|]. apply list.Forall_cons in Hw as [Hw Hws]. cbn [length out_words flat_map].
  assert (take 2 (to_le_bytes 2 w ++ flat_map (to_le_bytes 2) ws) = to_le_bytes 2 w) as -> by done.
  assert (drop 2 (to_le_bytes 2 w ++ flat_map (to_le_bytes 2) ws) = flat_map (to_le_bytes 2) ws) as -> by done.
  rewrite from_to_le_bytes, Z.mod_small by (cbn; lia). destruct (IH (outp 2 port w s) Hws) as [-> ->]. split; [done|].
  unfold port_words, outp. cbn [dev]. by rewrite write_word, <-app_assoc by done.
Qed.

(** The words a buffer of bytes stands for. *)
Fixpoint words_of (bs : list Z) : list Z :=
  match bs with
  | a :: b :: bs => from_le_bytes [a; b] :: words_of bs
  | _ => []
  end.

Lemma words_of_spec n bs : length bs = (2 * n)%nat -> Forall is_byte bs ->
  flat_map (to_le_bytes 2) (words_of bs) = bs /\ length (words_of bs) = n /\ Forall (fun w => 0 <= w < 2 ^ 16) (words_of bs).
Proof.
  revert bs. induction n as [|n IH]; intros bs Hl Hb; [by destruct bs|]. destruct bs as [|a [|b bs]]; [done|cbn in Hl; lia|].
  pose proof Hb as Hb2. apply list.Forall_cons in Hb as [Ha [Hb Hbs]%list.Forall_cons]. destruct (IH bs) as (H1 & H2 & H3); [cbn in Hl; lia|done|].
  assert (Forall is_byte [a; b]) as Hab by (by apply list.Forall_cons_2, list.Forall_cons_2). cbn [words_of flat_map length].
  pose proof (to_from_le_bytes [a; b] Hab) as Hr. cbn [length] in Hr. rewrite Hr, H1, H2. split; [done|]. split; [done|]. constructor; [|done].
  apply (from_le_bytes_range [a; b] Hab).
Qed.

(** What a driver writes to a data port it reads back: for a privileged caller and
    [count] words, [port_out_words] from a readable buffer followed by
    [port_in_words] into a writable one leaves the device empty again and copies the
    buffer byte for byte, changing no other byte of memory. *)
Theorem port_words_roundtrip src dst count s :
  caller_has_port_privilege s = true -> 0 <= port <= 65535 -> 0 < count -> count * 2 < U64_MODULUS -> port_words s = [] ->
  readable (mem_of (krn s)) src (Z.to_nat (count * 2)) -> writable (mem_of (krn s)) dst (Z.to_nat (count * 2)) ->
  validate_user_ptr (mem_of (krn s)) src (count * 2) = true -> validate_user_ptr (mem_of (krn s)) dst (count * 2) = true ->
  (forall a, is_byte (byte_at (mem_of (krn s)) a)) ->
  exists s1 s2, port_out_words port src count s = (SUCCESS, s1) /\ port_in_words port dst count s1 = (SUCCESS, s2) /\ port_words s2 = [] /\
    forall a, byte_at (mem_of (krn s2)) a =
      if decide (dst <= a < dst + count * 2) then byte_at (mem_of (krn s)) (src + (a - dst)) else byte_at (mem_of (krn s)) a.
Proof.
  intros Hp Hport Hc Hc2 Hw Hr Hwr Hvs Hvd Hb. unfold port_out_words. rewrite Hp. cbn [negb].
  rewrite (proj2 (Z.ltb_ge _ port)), (proj2 (Z.eqb_neq count 0)) by lia. cbn [orb].
  assert (checked_mul64 count 2 = Some (count * 2)) as Hm by (unfold checked_mul64; by rewrite (proj2 (Z.ltb_lt _ _)) by lia). rewrite Hm, Hvs. cbn [negb].
  rewrite (plain_read _ _ _ Hr). set (bs := _ <$> seq 0 _).
  assert (length bs = (2 * Z.to_nat count)%nat) as Hl by (unfold bs; rewrite length_fmap, length_seq; lia).
  destruct (words_of_spec (Z.to_nat count) bs Hl) as (H1 & H2 & H3).
  { unfold bs. apply Forall_fmap, Forall_forall. intros i _. apply Hb. }
  destruct (out_words_spec (words_of bs) s H3) as [K1 W1]. rewrite H1, H2 in K1, W1. rewrite Hw in W1.
  set (s1 := out_words port (Z.to_nat count) bs s) in *. cbn [app] in W1. rewrite <-(app_nil_r (words_of bs)) in W1.
  destruct (in_words_spec (words_of bs) [] s1 W1) as (s2 & E2 & K2 & W2). rewrite H1, H2 in E2.
  assert (caller_has_port_privilege s1 = true) as Hp1 by (unfold caller_has_port_privilege in *; by rewrite K1).
  exists s1. unfold port_in_words. rewrite Hp1. cbn [negb]. rewrite (proj2 (Z.ltb_ge _ port)), (proj2 (Z.eqb_neq count 0)) by lia. cbn [orb].
  rewrite Hm, K1, Hvd. cbn [negb]. rewrite E2, K2, K1.
  destruct (plain_write dst bs (mem_of (krn s))) as (m & -> & Hbyte & _); [by replace (length bs) with (Z.to_nat (count * 2)) by lia|].
  eexists. split; [done|]. split; [done|]. split; [done|]. intros a. cbn [krn]. change (byte_at m a = if decide (dst <= a < dst + count * 2) then byte_at (mem_of (krn s)) (src + (a - dst)) else byte_at (mem_of (krn s)) a).
  rewrite Hbyte. replace (Z.of_nat (length bs)) with (count * 2) by lia. destruct (decide _) as [Hd|]; [|done].
  apply list_lookup_total_correct. unfold bs. rewrite list_lookup_fmap, lookup_seq_lt by lia. cbn. do 2 f_equal. lia.
Qed.

End data_port.

(** ** Word by word *)

Section words.
Context {M : Type} `{!UserMemory M} {D : Type} `{!Ports D}.
Implicit Types s : PS M D.

(** [n] calls of [port_in] for 16 bits, one after the other. *)
Fixpoint port_in_repeat (port : Z) (n : nat) s : list Z * PS M D :=
  match n with
  | O => ([], s)
  | S n => let '(v, s) := port_in port 2 s in let '(vs, s) := port_in_repeat port n s in (v :: vs, s)
  end.

Lemma inp_krn w port s : krn (inp w port s).2 = krn s.
Proof. unfold inp. by destruct (port_read w port (dev s)). Qed.

Lemma in_words_repeat port n s : caller_has_port_privilege s = true -> port <= 65535 ->
  in_words port n s = (flat_map (to_le_bytes 2) (port_in_repeat port n s).1, (port_in_repeat port n s).2) /\ krn (in_words port n s).2 = krn s.
Proof.
  intros Hp Hport. revert s Hp. induction n as [|n IH]; intros s Hp; [done|]. cbn [in_words port_in_repeat].
  assert (port_in port 2 s = inp 2 port s) as ->. { unfold port_in. rewrite Hp. cbn [negb]. by rewrite (proj2 (Z.ltb_ge _ port)) by lia. }
  pose proof (inp_krn 2 port s) as K. destruct (inp 2 port s) as [v s1]. cbn [snd] in K.
  destruct (IH s1) as [E1 E2]; [unfold caller_has_port_privilege in *; by rewrite K|]. rewrite E1 in E2 |- *.
  destruct (port_in_repeat port n s1) as [vs s2]. cbn in *. by rewrite E2.
Qed.

(** Reading many words at once is reading them one by one: for a privileged caller
    and whatever device, [port_in_words] leaves the device as [count] 16-bit
    [port_in] calls do and copies exactly the bytes of their answers to the
    caller's buffer. *)
Theorem port_in_words_equiv port dst count s :
  caller_has_port_privilege s = true -> port <= 65535 -> 0 < count -> count * 2 < U64_MODULUS ->
  validate_user_ptr (mem_of (krn s)) dst (count * 2) = true ->
  let '(vs, s1) := port_in_repeat port (Z.to_nat count) s in
  let '(r, m) := copy_to_user dst (flat_map (to_le_bytes 2) vs) (mem_of (krn s)) in
  port_in_words port dst count s = (match r with Ok _ => SUCCESS | Err e => e end, mkPS (set_mem m (krn s)) (dev s1)).
Proof.
  intros Hp Hport Hc Hc2 Hv. destruct (in_words_repeat port (Z.to_nat count) s Hp Hport) as [E K]. rewrite E in K.
  destruct (port_in_repeat port (Z.to_nat count) s) as [vs s1]. cbn [fst snd] in E, K.
  destruct (copy_to_user dst (flat_map (to_le_bytes 2) vs) (mem_of (krn s))) as [r m] eqn:Ec.
  unfold port_in_words. rewrite Hp. cbn [negb]. rewrite (proj2 (Z.ltb_ge _ port)), (proj2 (Z.eqb_neq count 0)) by lia. cbn [orb].
  assert (checked_mul64 count 2 = Some (count * 2)) as -> by (unfold checked_mul64; by rewrite (proj2 (Z.ltb_lt _ _)) by lia).
  rewrite Hv. cbn [negb]. by rewrite E, K, Ec.
Qed.
End words.

(** ** A concrete system *)

(** A driver with an empty device, and "abcd" at 4096. *)
Definition demo_ports (d : list Z) : PS (Z -> Z) (list Z) :=
  let p := (Process.new [97] Process.Service None 0 10).1 in
  mkPS (set_mem (flat_store (fun _ => 0) 4096 [97; 98; 99; 100]) (set_procs (Process.add p Process.Table_new).2 SignalProps.demo_ks)) d.

Lemma port_words_roundtrip_witness :
  exists s1 s2, port_out_words 496 4096 2 (demo_ports []) = (SUCCESS, s1) /\ port_in_words 496 8192 2 s1 = (SUCCESS, s2) /\
    byte_at (mem_of (krn s2)) 8194 = 99.
Proof.
  destruct (port_words_roundtrip (M := Z -> Z) 496 4096 8192 2 (demo_ports [])) as (s1 & s2 & E1 & E2 & _ & H).
  - vm_compute. reflexivity.
  - lia.
  - lia.
  - reflexivity.
  - reflexivity.
  - cbn. lia.
  - cbn. lia.
  - reflexivity.
  - reflexivity.
  - intros a. unfold is_byte. cbn. unfold flat_store. destruct (_ && _) eqn:E; [|lia]. apply andb_prop in E as [E1%Z.leb_le E2%Z.ltb_lt]. cbn [length] in E2.
    assert (a = 4096 \/ a = 4097 \/ a = 4098 \/ a = 4099) as [->|[->|[->| ->]]] by lia; vm_compute; split; discriminate || reflexivity.
  - exists s1, s2. split; [exact E1|]. split; [exact E2|]. rewrite H. vm_compute. reflexivity.
Defined.

Lemma port_in_words_equiv_witness :
  (port_in_repeat 496 2 (demo_ports [1; 2; 3])).1 = [1; 2] /\ dev (port_in_words 496 8192 2 (demo_ports [1; 2; 3])).2 = [3].
Proof.
  pose proof (port_in_words_equiv (M := Z -> Z) 496 8192 2 (demo_ports [1; 2; 3]) ltac:(vm_compute; reflexivity) ltac:(lia) ltac:(lia) eq_refl eq_refl) as H.
  split; [vm_compute; reflexivity|]. change (Z.to_nat 2) with 2%nat in H. destruct (port_in_repeat 496 2 (demo_ports [1; 2; 3])) as [vs s1] eqn:E.
  destruct (copy_to_user 8192 _ _) as [r m]. rewrite H. cbn. assert ((port_in_repeat 496 2 (demo_ports [1; 2; 3])).2 = s1) as <- by (rewrite E; reflexivity).
  vm_compute. reflexivity.
Defined.
End PortIo.
