(* ===== verification/Fork.v ===== *)
(** Duplicating a process: [clone_user_page_table] of [src/core/mem/paging.rs] and
    [fork] of [src/core/syscall/process.rs].

    The state is that of [Execve].  [None] as an outcome is a panic, or the kernel
    waiting for ever for a lock it holds itself. *)

From Stdlib Require Import ZArith Lia.
From stdpp Require Import base list option numbers gmap.
From S2P Require Import Prelude State Types UserMem Bytes Mem Frame Paging PageTree PageTables Segment UserTable Mapper FdTable FdSyscalls.
From S2P Require Import Slots Table Thread KStack Scheduler Ipc IpcSyscalls Signal Process Futex Kernel ExecStack Exec MemCalls Execve.
Import Mem Result Paging PageTree PageTables Segment Mapper Kernel Exec MemCalls Execve.

Local Open Scope Z_scope.
Local Open Scope kernel_scope.

Module Fork.

(** ** Copying an address space *)

Section clone.
Context {MP : Mapper}.
Context (phys_offset : option Z) (kernel_l4 : Z).

Definition dst_flags (src_flags : Z) : Z :=
  Z.lor (Z.lor (Z.lor PRESENT USER_ACCESSIBLE) (if has src_flags WRITABLE then WRITABLE else 0))
    (if has src_flags NO_EXECUTE then NO_EXECUTE else 0).

(** [copy_nonoverlapping] of a page through the direct map *)
Definition copy_page (off src dst : Z) : ST PMem unit :=
  as_table off src ≫= fun _ =>
  as_table off dst ≫= fun _ =>
  smodify (fun s => mkPM (frames s) (store (ram s) dst (load (ram s) src 4096))).

(** [FRAME_ALLOCATOR.lock().as_mut().ok_or(OutOfMemory)?] *)
Definition with_allocator {A} (m : PT A) : PT A := fun s =>
  match frames s with None => Some (Err (KMemory Memory_OutOfMemory), s) | Some _ => m s end.

(** A page of the user is copied to a new frame.  When the page is mapped already, the
    old frame is returned while the allocator is locked: a deadlock. *)
Definition clone_page (off dst_table vaddr pte : Z) : PT unit :=
  virt vaddr ≫= fun _ =>
  new_frame ←? PageTables.allocate_frame;
  with_allocator (
    map_to off dst_table vaddr new_frame (dst_flags (entry_flags pte)) ≫= fun r =>
    match r with
    | Ok _ => copy_page off (entry_addr pte) new_frame ≫= fun _ => mret (Ok tt)
    | Err (PageAlreadyMapped _) =>
        unmap off dst_table vaddr ≫= fun u =>
        match u with
        | Err _ => failed (KMemory Memory_InvalidAddress)
        | Ok _ => undefined
        end
    | Err _ => failed (KMemory Memory_InvalidAddress)
    end).

(** [(l4i << 39) | (l3i << 30) | (l2i << 21) | (l1i << 12)] *)
Definition page_of (path : list Z) : Z := Z.shiftl (foldl (fun a i => Z.lor (Z.shiftl a 9) i) 0 path) 12.

(** The entries of a table in turn, up to the first error. *)
Definition each_entry (n : nat) (table : Z) (f : Z -> Z -> ST PMem (result unit Kernel)) : ST PMem (result unit Kernel) :=
  UserTable.try_each (indices n) (fun i => get_entry table i ≫= fun e => f i e).

(** The loop over the lowest table at [path]. *)
Definition clone_l1 (off dst_table src_l1 : Z) (path : list Z) : ST PMem (result unit Kernel) :=
  as_table off src_l1 ≫= fun _ =>
  each_entry 512 src_l1 (fun i pte =>
    if skipped pte then mret (Ok tt) else clone_page off dst_table (page_of (path ++ [i])) pte).

(** The loops over the upper levels, from level [lvl] on: entries that are not present
    and huge pages are passed over. *)
Fixpoint clone_level (lvl : nat) (off dst_table src : Z) (n : nat) (path : list Z) : ST PMem (result unit Kernel) :=
  match lvl with
  | O => clone_l1 off dst_table src path
  | S below =>
      as_table off src ≫= fun _ =>
      each_entry n src (fun i e =>
        match descend (S lvl) e with
        | Some next => clone_level below off dst_table next 512 (path ++ [i])
        | None => mret (Ok tt)
        end)
  end.

(** The guard destroys the new table on an error. *)
Definition keep_or_destroy (dst_table : Z) (r : result unit Kernel) : ST PMem (result Z Kernel) :=
  match r with
  | Ok _ => mret (Ok dst_table)
  | Err e => (destroy_user_page_table phys_offset dst_table : ST PMem (result unit Kernel)) ≫= fun _ => mret (Err e)
  end.

Definition clone_into (off src_table dst_table : Z) : ST PMem (result Z Kernel) :=
  as_table off dst_table ≫= fun _ => clone_level 3 off dst_table src_table 256 [] ≫= keep_or_destroy dst_table.

Definition clone_user_page_table (src_table : Z) : ST PMem (result Z Kernel) :=
  match phys_offset with
  | None => mret (Err (KMemory Memory_NotMapped))
  | Some off => dst_table ←? UserTable.create_user_page_table phys_offset kernel_l4; clone_into off src_table dst_table
  end.
End clone.

(** ** fork *)

Definition FORK : list Z := [102; 111; 114; 107].

(** [KERNEL_THREAD_STACK_SIZE] in [fork] *)
Definition FORK_STACK_SIZE : Z := 4096 * 4.

Section fork.
Context {M : Type} `{!UserMemory M} {MP : Mapper}.
Context (pool_base thread_exit_handler fork_child_trampoline : Z) (unmap_guard_page : Z -> bool).
Context (phys_offset : option Z) (kernel_l4 : Z).
Implicit Types s : ES M.
Implicit Types x : XS M.

(** The child, with what it has of its parent. *)
Definition make_child (parent_pid : Z) (parent : Process.Process) (child_pt next : Z) : Process.Process * Z :=
  let '(p, next) := Process.new FORK (Process.privilege parent) (Some parent_pid) (Process.priority parent) next in
  (Process.set_stack (Process.stack_bottom parent) (Process.stack_top parent)
     (Process.set_heap (Process.heap_start parent) (Process.heap_end parent) (Process.set_page_table child_pt p)), next).

Definition destroy_child (child_pt : Z) : ST (ES M) unit := on_xs (destroy phys_offset child_pt).

(** [remove_process], which also drops the descriptors. *)
Definition remove_child (child_pid : Z) : ST (ES M) unit :=
  on_xs (remove_process child_pid) ≫= fun _ => on_fds (Fs.drop_process child_pid) ≫= fun _ => mret tt.

Definition allocate_stack : ST (XS M) (option Z) := fun x =>
  let '(r, p) := KStack.allocate_kernel_stack pool_base unmap_guard_page FORK_STACK_SIZE (pool (kst x)) in
  Some (r, set_kst (set_pool p (kst x)) x).

Definition push_child (child_pid rip rsp rflags fs kstack : Z) : ST (XS M) bool := fun x =>
  let '(t, m, next) := Thread.new_fork_child thread_exit_handler fork_child_trampoline child_pid rip rsp rflags fs kstack
    FORK_STACK_SIZE (kmem x) (next_tid x) in
  let '(r, q) := Thread.push t (threads_of (kst x)) in
  Some (bool_decide (is_Some r), set_kst (on_ks (Scheduler.set_queue q) (kst x)) (set_thread_mem next m x)).

(** From the page table of the child on. *)
Definition start_child (parent_pid : Z) (parent : Process.Process) (child_pt : Z) (ctx : Z * Z * Z * Z) : ST (ES M) Z := fun s =>
  let '(user_rip, user_rsp, user_rflags, parent_fs) := ctx in
  if (user_rip =? 0) || (user_rsp =? 0) then (destroy_child child_pt ≫= fun _ => mret ENOSYS) s
  else
    let '(child, next) := make_child parent_pid parent child_pt (next_pid (xs s)) in
    let child_pid := Process.id child in
    (on_fds (Fs.fork_tables parent_pid child_pid) ≫= fun _ =>
     on_xs (add_process child) ≫= fun added =>
     if negb added then on_fds (Fs.drop_process child_pid) ≫= fun _ => destroy_child child_pt ≫= fun _ => mret ENOMEM
     else
       on_xs allocate_stack ≫= fun ks =>
       match ks with
       | None => remove_child child_pid ≫= fun _ => destroy_child child_pt ≫= fun _ => mret ENOMEM
       | Some kstack =>
           on_xs (push_child child_pid user_rip user_rsp user_rflags parent_fs kstack) ≫= fun pushed =>
           if negb pushed then remove_child child_pid ≫= fun _ => destroy_child child_pt ≫= fun _ => mret ENOMEM
           else mret child_pid
       end) (mkES (set_next_pid next (xs s)) (fds s) (cr3 s)).

Definition fork : ST (ES M) Z := fun s =>
  match current_thread_id (kst (xs s)) with
  | None => Some (ENOSYS, s)
  | Some parent_tid =>
      match Thread.get parent_tid (threads_of (kst (xs s))) with
      | None => Some (ENOSYS, s)
      | Some t =>
          let parent_pid := Thread.process_id t in
          match Process.get parent_pid (procs (kst (xs s))) with
          | None => Some (ENOSYS, s)
          | Some parent =>
              match Process.page_table parent with
              | None => Some (ENOSYS, s)
              | Some parent_pt =>
                  (on_xs (on_pages (clone_user_page_table phys_offset kernel_l4 parent_pt)) ≫= fun r =>
                   match r with
                   | Err _ => mret ENOMEM
                   | Ok child_pt =>
                       start_child parent_pid parent child_pt
                         (Thread.syscall_user_rip t, Thread.syscall_user_rsp t, Thread.syscall_user_rflags t, Thread.fs_base t)
                   end) s
              end
          end
      end
  end.
End fork.
End Fork.
