(* ===== verification/ForkProps.v ===== *)
(** What [fork] guarantees: the child's address space shows what the parent's shows, in
    frames of its own, and the process, its descriptors and its thread appear together
    or not at all. *)

From Stdlib Require Import ZArith Lia.
From stdpp Require Import base list option numbers gmap sets.
From S2P Require Import Prelude State Types UserMem Bytes Mem Frame Paging PageTree PageTables Segment SegmentProps UserTable Mapper UserPages.
From S2P Require Import FdTable FdSyscalls Slots Table Thread KStack Scheduler Ipc IpcSyscalls Signal Process Futex Kernel SigSyscalls SignalProps ExecStack Exec ExecProps MemCalls HeapMap MemProps PhysCalls PhysProps Execve Fork.
Import Mem Result Paging PageTree PageTables Segment Mapper UserPages Kernel Exec MemCalls MemProps PhysProps Execve Fork.

Local Open Scope Z_scope.
Local Open Scope kernel_scope.

Module ForkProps.

(** ** Pages and paths *)

Lemma lor_shift9 a i : 0 <= i < 512 -> Z.lor (Z.shiftl a 9) i = a * 512 + i.
Proof.
  intros Hi. assert (Z.land (Z.shiftl a 9) i = 0) as H.
  { apply Z.bits_inj'. intros k Hk. rewrite Z.land_spec, Z.bits_0. destruct (decide (k < 9)).
    - by rewrite Z.shiftl_spec_low by lia.
    - rewrite (Z.bits_above_log2 i), andb_false_r; [done|lia|]. destruct (decide (i = 0)) as [->|]; [cbn; lia|]. apply Z.log2_lt_pow2; [lia|].
      apply Z.lt_le_trans with (2 ^ 9); [lia|apply Z.pow_le_mono_r; lia]. }
  rewrite <-Z.lxor_lor, <-Z.add_nocarry_lxor by done. by rewrite Z.shiftl_mul_pow2 by lia.
Qed.

(** The address of a page from the indices that lead to it. *)
Lemma page_of_path i4 i3 i2 i1 :
  0 <= i4 < 256 -> idx i3 -> idx i2 -> idx i1 ->
  let v := page_of [i4; i3; i2; i1] in
  addr_path v = [i4; i3; i2; i1] /\ v mod 4096 = 0 /\ 0 <= v /\ v + 4096 <= 2 ^ 47.
Proof.
  intros H4 H3 H2 H1 v. unfold idx in *.
  assert (v = (((i4 * 512 + i3) * 512 + i2) * 512 + i1) * 4096) as Hv.
  { unfold v, page_of. cbn [foldl]. rewrite !lor_shift9 by lia. rewrite Z.shiftl_mul_pow2 by lia. change (2 ^ 12) with 4096. lia. }
  clearbody v. subst v. split; [|split; [by rewrite Z_mod_mult|split; lia]].
  unfold addr_path, p4_index, p3_index, p2_index, p1_index. rewrite !index_div by lia.
  change (2 ^ 39) with (512 * 512 * 512 * 4096). change (2 ^ 30) with (512 * 512 * 4096). change (2 ^ 21) with (512 * 4096). change (2 ^ 12) with 4096.
  assert (forall a b d, 0 <= b < d -> (a * d + b) / d = a) as Hq by (intros a b d Hb; rewrite Z.div_add_l by lia; rewrite Z.div_small by lia; lia).
  assert (forall a b, 0 <= b < 512 -> (a * 512 + b) mod 512 = b) as Hm by (intros a b Hb; rewrite Z.add_comm, Z_mod_plus_full; by apply Z.mod_small).
  f_equal; [|f_equal; [|f_equal; [|f_equal]]].
  - replace ((((i4 * 512 + i3) * 512 + i2) * 512 + i1) * 4096) with (i4 * (512 * 512 * 512 * 4096) + ((i3 * 512 + i2) * 512 + i1) * 4096) by lia.
    rewrite Hq by lia. apply Z.mod_small. lia.
  - replace ((((i4 * 512 + i3) * 512 + i2) * 512 + i1) * 4096) with ((i4 * 512 + i3) * (512 * 512 * 4096) + (i2 * 512 + i1) * 4096) by lia.
    rewrite Hq by lia. by apply Hm.
  - replace ((((i4 * 512 + i3) * 512 + i2) * 512 + i1) * 4096) with (((i4 * 512 + i3) * 512 + i2) * (512 * 4096) + i1 * 4096) by lia.
    rewrite Hq by lia. by apply Hm.
  - rewrite Z.div_mul by lia. by apply Hm.
Qed.

(** ** What the second address space grows by *)

Section two.
Context (off t1 t2 : Z) (Hoff : 0 <= off) (Hoff' : off + 2 ^ 52 <= U64_MODULUS).
Notation translate s a := (translate_addr_in_table (Some off) (ram s) t2 a).

(** What an operation on the second address space leaves of everything else. *)
Record steady (s s' : PMem) (al al' : list Z) : Prop := {
  sd_held : al ⊆ al';
  sd_tables : forall p x, table_path p -> table_at 4 (ram s) t2 p = Some x -> table_at 4 (ram s') t2 p = Some x;
  sd_new : forall p x, table_path p -> table_at 4 (ram s') t2 p = Some x -> table_at 4 (ram s) t2 p = Some x \/ x ∉ al;
  sd_data : forall z, data_byte (ram s) t2 al z -> ram s' z = ram s z;
}.

Lemma grown_steady s s' al al' : grown t2 s s' al al' -> steady s s' al al'.
Proof. intros [H1 _ H2 H3 H4]. by split. Qed.

Lemma steady_refl s al : steady s s al al.
Proof. apply grown_steady, grown_refl. Qed.

Lemma steady_not s s' al al' f : steady s s' al al' -> f ∈ al -> not_table t2 s f -> not_table t2 s' f.
Proof. intros H Hf Hn q Hq Hx. destruct (sd_new _ _ _ _ H q f Hq Hx) as [|]; [by apply (Hn q)|done]. Qed.

Lemma steady_data s s' al al' z : pt_inv t2 s' al' -> steady s s' al al' -> data_byte (ram s) t2 al z -> data_byte (ram s') t2 al' z.
Proof.
  intros Hi H [(b & Hb & Hz) Hd]. split; [exists b; split; [by apply (sd_held _ _ _ _ H)|done]|].
  intros p x Hp Hx. destruct (sd_new _ _ _ _ H p x Hp Hx) as [Hx'|Hx']; [by apply (Hd p)|].
  destruct (table_frame t2 s' al' p x Hi Hp Hx) as [Hxa _]. destruct (held_frame t2 s' al' b Hi (sd_held _ _ _ _ H b Hb)) as [Hba _].
  apply (frames_apart b); [done|done|congruence|done].
Qed.

Lemma steady_trans s1 s2 s3 al1 al2 al3 : pt_inv t2 s2 al2 -> steady s1 s2 al1 al2 -> steady s2 s3 al2 al3 -> steady s1 s3 al1 al3.
Proof.
  intros Hi H12 H23. split.
  - transitivity al2; [apply H12|apply H23].
  - intros p x Hp Hx. by apply (sd_tables _ _ _ _ H23), (sd_tables _ _ _ _ H12).
  - intros p x Hp Hx. destruct (sd_new _ _ _ _ H23 p x Hp Hx) as [H|H]; [by apply (sd_new _ _ _ _ H12)|]. right. intros Hin. by apply H, (sd_held _ _ _ _ H12).
  - intros z Hz. rewrite (sd_data _ _ _ _ H23) by (by apply (steady_data s1 s2 al1 al2)). by apply (sd_data _ _ _ _ H12).
Qed.

(** The bytes of a frame in use that is no table. *)
Lemma frame_data s al f z : pt_inv t2 s al -> f ∈ al -> not_table t2 s f -> in_frame f z -> data_byte (ram s) t2 al z.
Proof.
  intros Hi Hf Hn Hz. split; [by exists f|]. intros p x Hp Hx. destruct (table_frame t2 s al p x Hi Hp Hx) as [Hxa _]. destruct (held_frame t2 s al f Hi Hf) as [Hfa _].
  apply (frames_apart f); [done|done| |done]. intros ->. by apply (Hn p).
Qed.

Lemma frame_steady s s' al al' f k : pt_inv t2 s al -> steady s s' al al' -> f ∈ al -> not_table t2 s f -> 0 <= k < 4096 -> ram s' (f + k) = ram s (f + k).
Proof. intros Hi H Hf Hn Hk. apply (sd_data _ _ _ _ H), (frame_data s al f); [done|done|done|]. unfold in_frame. lia. Qed.

(** A frame taken by the caller. *)
Lemma allocated_steady s s' al n :
  pt_inv t2 s al -> n ∉ al -> same_tables t2 s s' -> same_data t2 al s s' -> steady s s' al (n :: al).
Proof.
  intros Hi Hn [T _ _] D. split; [by right| | |done]; intros p x Hp; rewrite T by done; [done|]. by left.
Qed.

(** Filling a frame the table does not use, which the earlier state did not hold. *)
Lemma filled_steady s s1 al al1 n bs :
  pt_inv t2 s al -> pt_inv t2 s1 al1 -> steady s s1 al al1 -> n ∈ al1 -> n ∉ al -> not_table t2 s1 n -> Z.of_nat (length bs) = 4096 -> Forall is_byte bs ->
  let s2 := mkPM (frames s1) (store (ram s1) n bs) in
  pt_inv t2 s2 al1 /\ steady s s2 al al1 /\ same_tables t2 s1 s2.
Proof.
  intros Hi0 Hi St Hn Hn0 Hnt Hl Hb. destruct (SegmentProps.data_write t2 s1 al1 n 0 bs Hi Hn Hnt ltac:(lia) ltac:(lia) Hb) as (V & W & T & E & D).
  rewrite !Z.add_0_r in *. split; [done|]. split; [|by split]. split; [apply St| | |].
  - intros p x Hp Hx. rewrite T by done. by apply (sd_tables _ _ _ _ St).
  - intros p x Hp. rewrite T by done. by apply (sd_new _ _ _ _ St).
  - intros z Hz. rewrite D; [by apply (sd_data _ _ _ _ St)|]. destruct Hz as [(b & Hb' & Hz) _].
    destruct (held_frame t2 s al b Hi0 Hb') as [Hba _]. destruct (held_frame t2 s1 al1 n Hi Hn) as [Hna _]. apply (frames_apart b); [done|done|congruence|done].
Qed.

(** ** The pages of the first address space *)

(** The user pages at and below a table, in the order of their addresses: the indices
    that lead to each and its entry. *)
Fixpoint leaves (lvl : nat) (m : mem) (x : Z) (n : nat) (path : list Z) : list (list Z * Z) :=
  indices n ≫= fun i =>
    let e := read_entry m x i in
    match lvl with
    | O => if skipped e then [] else [(path ++ [i], e)]
    | S below => match descend (S lvl) e with Some next => leaves below m next 512 (path ++ [i]) | None => [] end
    end.

Definition user_pages (m : mem) (t : Z) : list (list Z * Z) := leaves 3 m t 256 [].

Lemma indices_elem i n : i ∈ indices n <-> 0 <= i < Z.of_nat n.
Proof.
  unfold indices. rewrite list_elem_of_fmap. setoid_rewrite elem_of_seq. split; [intros (k & -> & Hk); lia|]. intros Hi. exists (Z.to_nat i). lia.
Qed.

Lemma indices_nodup n : NoDup (indices n).
Proof. unfold indices. apply NoDup_fmap_2; [apply _|apply NoDup_seq]. Qed.

(** The indices of a page below a table extend those of the table. *)
Lemma leaves_path lvl m x n path q e : (n <= 512)%nat -> (q, e) ∈ leaves lvl m x n path -> exists i r, q = path ++ i :: r /\ length r = lvl /\ 0 <= i < Z.of_nat n /\ Forall idx r.
Proof.
  intros Hn. revert x n path Hn. induction lvl as [|lvl IH]; intros x n path Hn; cbn [leaves]; rewrite list_elem_of_bind; intros (i & H & Hi%indices_elem).
  - destruct (skipped _); [by apply not_elem_of_nil in H|]. apply list_elem_of_singleton in H as [= -> ->]. by exists i, [].
  - destruct (descend _ _) as [next|]; [|by apply not_elem_of_nil in H]. apply IH in H as (j & r & -> & Hl & Hj & Hr); [|lia].
    exists i, (j :: r). rewrite <-app_assoc. split; [done|]. split; [cbn; lia|]. split; [done|]. constructor; [unfold idx; lia|done].
Qed.

Lemma fst_bind {A B C} (f : A -> list (B * C)) l : (l ≫= f).*1 = l ≫= fun x => (f x).*1.
Proof. induction l as [|x l IH]; [done|]. cbn. by rewrite fmap_app, IH. Qed.

Lemma leaves_nodup lvl m x n path : (n <= 512)%nat -> NoDup (leaves lvl m x n path).*1.
Proof.
  intros Hn. revert x n path Hn. induction lvl as [|lvl IH]; intros x n path Hn; cbn [leaves]; rewrite fst_bind; apply NoDup_bind; try apply indices_nodup.
  - intros i j q _ _ Hi Hj. destruct (skipped _); [by apply not_elem_of_nil in Hi|]. destruct (skipped _); [by apply not_elem_of_nil in Hj|].
    apply list_elem_of_singleton in Hi as ->. apply list_elem_of_singleton in Hj as H. by apply app_inj_2 in H as [_ [= ->]].
  - intros i _. destruct (skipped _); [constructor|apply NoDup_singleton].
  - intros i j q _ _ Hi Hj. destruct (descend _ (read_entry m x i)) as [y|]; [|by apply not_elem_of_nil in Hi]. destruct (descend _ _) as [z|]; [|by apply not_elem_of_nil in Hj].
    apply list_elem_of_fmap in Hi as ([q1 e1] & -> & Hi). apply list_elem_of_fmap in Hj as ([q2 e2] & E & Hj). cbn in E. subst q2.
    apply leaves_path in Hi as (i' & r & Eq1 & _); [|lia]. apply leaves_path in Hj as (j' & r' & Eq2 & _); [|lia]. rewrite Eq1, <-!app_assoc in Eq2.
    apply app_inv_head in Eq2. by injection Eq2.
  - intros i _. destruct (descend _ _); [by apply IH; lia|constructor].
Qed.

Lemma leaves_found lvl m x n path q e :
  (q, e) ∈ leaves lvl m x n path ->
  exists i r l1, q = path ++ i :: r /\ table_at (S lvl) m x (removelast (i :: r)) = Some l1 /\ read_entry m l1 (List.last (i :: r) 0) = e /\ skipped e = false.
Proof.
  revert x n path. induction lvl as [|lvl IH]; intros x n path; cbn [leaves]; rewrite list_elem_of_bind; intros (i & H & _).
  - destruct (skipped _) eqn:E; [by apply not_elem_of_nil in H|]. apply list_elem_of_singleton in H as [= -> ->]. by exists i, [], x.
  - destruct (descend _ _) as [next|] eqn:E; [|by apply not_elem_of_nil in H]. apply IH in H as (j & r & l1 & -> & Ht & He & Hs).
    exists i, (j :: r), l1. rewrite <-app_assoc. split; [done|]. split; [|done]. cbn [removelast table_at]. by rewrite E.
Qed.

(** A page is found through the indices of its address. *)
Lemma leaves_elem lvl m x n path i r l1 e :
  length r = lvl -> idx i -> i < Z.of_nat n -> Forall idx r -> table_at (S lvl) m x (removelast (i :: r)) = Some l1 ->
  read_entry m l1 (List.last (i :: r) 0) = e -> skipped e = false -> (path ++ i :: r, e) ∈ leaves lvl m x n path.
Proof.
  intros Hl. revert x n path i r Hl. induction lvl as [|lvl IH]; intros x n path i r Hl Hi Hn Hr Ht He Hs; cbn [leaves]; apply list_elem_of_bind; exists i;
    (split; [|apply indices_elem; unfold idx in Hi; lia]).
  - destruct r; [|done]. cbn in Ht, He. injection Ht as ->. rewrite He, Hs. by apply list_elem_of_singleton.
  - destruct r as [|j r]; [done|]. apply list.Forall_cons in Hr as [Hj Hr]. cbn [removelast] in Ht. cbn [table_at] in Ht.
    destruct (descend _ _) as [y|]; [|done]. replace (path ++ i :: j :: r) with ((path ++ [i]) ++ j :: r) by (by rewrite <-app_assoc).
    apply (IH y 512%nat); [by injection Hl|done|unfold idx in Hj; lia|done|exact Ht|exact He|done].
Qed.

(** ** The loops visit the pages *)

Section visit.
Context {MP : Mapper} (s0 : PMem) (all : list (list Z * Z)).

(** [I d s]: the pages [d] have been handled in [s]; [J]: what an error leaves. *)
Context (I : list (list Z * Z) -> PMem -> Prop) (J : PMem -> Prop).

Definition outcome (d : list (list Z * Z)) (m : PT unit) (s : PMem) : Prop :=
  exists r s', m s = Some (r, s') /\ match r with Ok _ => I d s' | Err _ => J s' end.

Hypothesis step : forall d q e s, d ++ [(q, e)] `prefix_of` all -> I d s -> outcome (d ++ [(q, e)]) (clone_page off t2 (page_of q) e) s.

(** The tables of the first address space are what they were. *)
Hypothesis reads : forall d s p x i, I d s -> table_path p -> (forall i r, p = i :: r -> i < 256) -> table_at 4 (ram s0) t1 p = Some x -> idx i ->
  x < 2 ^ 52 /\ read_entry (ram s) x i = read_entry (ram s0) x i.

Lemma try_each_outcome l (f : Z -> PT unit) (g : Z -> list (list Z * Z)) d s :
  (forall i d s, i ∈ l -> d ++ g i `prefix_of` all -> I d s -> outcome (d ++ g i) (f i) s) ->
  d ++ (l ≫= g) `prefix_of` all -> I d s -> outcome (d ++ (l ≫= g)) (UserTable.try_each l f) s.
Proof.
  revert d s. induction l as [|i l IH]; intros d s Hf Hp Hi.
  { exists (Ok tt), s. split; [done|]. cbn. by rewrite app_nil_r. }
  cbn [UserTable.try_each] in *. rewrite bind_cons, app_assoc in *.
  destruct (Hf i d s) as (r & s' & E & H); [left|by apply prefix_app_l in Hp|done|]. destruct r as [[]|err].
  - destruct (IH (d ++ g i) s') as (r & s'' & E' & H'); [intros; apply Hf; [by right|done|done]|done|done|].
    exists r, s''. by rewrite (try_bind_ok _ _ _ _ _ E).
  - exists (Err err), s'. by rewrite (try_bind_err _ _ _ _ _ E).
Qed.

Lemma clone_level_outcome lvl x n path d s :
  length path = (3 - lvl)%nat -> (lvl <= 3)%nat -> n = (if decide (path = []) then 256 else 512)%nat -> Forall idx path -> (forall i r, path = i :: r -> i < 256) ->
  table_at 4 (ram s0) t1 path = Some x -> d ++ leaves lvl (ram s0) x n path `prefix_of` all -> I d s ->
  outcome (d ++ leaves lvl (ram s0) x n path) (clone_level lvl off t2 x n path) s.
Proof.
  revert x n path d s. induction lvl as [|lvl IH]; intros x n path d s Hl Hlv Hn Hip Hlow Hx Hp Hi.
  all: assert (table_path path) as Htp by (split; [lia|done]).
  all: assert (n <= 512)%nat as Hn' by (destruct (decide _); lia).
  all: assert (forall i d s, i ∈ indices n -> I d s -> read_entry (ram s) x i = read_entry (ram s0) x i) as Hrd by
    (intros i d' s' Hin%indices_elem Hi'; apply (reads d' s' path x i); [done..|unfold idx; lia]).
  all: assert (x < 2 ^ 52) as Hx52 by (apply (reads d s path x 0); [done..|unfold idx; lia]).
  1: assert (n = 512)%nat as -> by (rewrite Hn, decide_False; [done|by destruct path]).
  all: cbn [clone_level leaves] in *; unfold clone_l1; unfold outcome; rewrite (st_bind_eq _ _ _ tt s) by (by apply UserTable.as_table_ok);
    apply try_each_outcome; [|done|done]; intros i d' s' Hin Hp' Hi'; unfold outcome; rewrite (st_bind_eq _ _ s' _ s') by reflexivity; rewrite (Hrd i d' s') by done.
  - destruct (skipped _); [|by apply step]. exists (Ok tt), s'. split; [done|]. by rewrite app_nil_r.
  - destruct (descend _ _) as [next|] eqn:Ed; [|exists (Ok tt), s'; split; [done|]; by rewrite app_nil_r].
    apply indices_elem in Hin. apply (IH next 512%nat (path ++ [i])); try done.
    + rewrite length_app. cbn. lia.
    + lia.
    + by rewrite decide_False by (by destruct path).
    + apply Forall_app. split; [done|]. constructor; [unfold idx; lia|done].
    + intros j r Hj. destruct path as [|k path]; [|injection Hj as <- _; by apply (Hlow k path)]. injection Hj as <- _. rewrite Hn, decide_True in Hin by done. lia.
    + rewrite table_at_app, Hx. cbn [mbind option_bind table_at]. replace (4 - length path)%nat with (S (S lvl)) by lia. by rewrite Ed.
Qed.
End visit.

(** ** One page after the other is copied *)

Section copy.
Context {MP : Mapper} (s0 : PMem) (al0 : list Z).
Let pages := user_pages (ram s0) t1.

(** [e] is the entry of a user page of the first address space, with [a] in the page. *)
Definition user_page (a e : Z) : Prop :=
  0 <= a < 2 ^ 47 /\ exists l1, page_entry (ram s0) t1 a = Some (l1, e) /\ skipped e = false.

Lemma low_index a : 0 <= a < 2 ^ 47 -> p4_index a < 256.
Proof.
  intros H. unfold p4_index. rewrite index_div by lia. pose proof (Z.div_lt_upper_bound a (2 ^ 39) 256 ltac:(lia) ltac:(lia)).
  pose proof (Z.div_pos a (2 ^ 39) ltac:(lia) ltac:(lia)). rewrite Z.mod_small; lia.
Qed.

Lemma user_page_listed a e : user_page a e -> (addr_path a, e) ∈ pages.
Proof.
  intros (Ha & l1 & He & Hs). apply page_entry_table in He as [L1 Hel]. pose proof (low_index a Ha).
  apply (leaves_elem 3 (ram s0) t1 256 [] (p4_index a) [p3_index a; p2_index a; p1_index a] l1 e); try done; try lia; repeat constructor; apply index_range.
Qed.

(** What cloning needs of the two address spaces: the tables of the first are frames in
    use that the second does not have, and so are the frames of its user pages, at
    addresses where the second has nothing yet. *)
Record clonable : Prop := {
  cl_inv : pt_inv t2 s0 al0;
  cl_tables : forall p x, table_path p -> (forall i r, p = i :: r -> i < 256) -> table_at 4 (ram s0) t1 p = Some x -> x ∈ al0 /\ not_table t2 s0 x;
  cl_pages : forall a e, user_page a e -> SegmentProps.vacant t2 s0 a /\ entry_addr e ∈ al0 /\ not_table t2 s0 (entry_addr e);
}.

(** The page shows frame [n], which is new and holds what the source's frame held. *)
Record copied_to (s : PMem) (al : list Z) (page : list Z * Z) (n : Z) : Prop := {
  cp_new : n ∈ al /\ n ∉ al0 /\ not_table t2 s n;
  cp_shown : forall a, canonical_u64 a -> a / 4096 = page_of page.1 / 4096 -> translate s a = Some (n + a mod 4096, dst_flags (entry_flags page.2));
  cp_bytes : forall k, 0 <= k < 4096 -> ram s (n + k) = ram s0 (entry_addr page.2 + k);
}.

(** The page [a] lies in is one of [d]. *)
Definition among (d : list (list Z * Z)) (a : Z) : Prop := exists q e, (q, e) ∈ d /\ a / 4096 = page_of q / 4096.

Record cloned (d : list (list Z * Z)) (s : PMem) (al fs : list Z) : Prop := {
  cd_inv : pt_inv t2 s al;
  cd_steady : steady s0 s al0 al;
  cd_fresh : NoDup fs;
  cd_pages : Forall2 (copied_to s al) d fs;
  cd_rest : forall a, canonical_u64 a -> ~ among d a -> translate s a = translate s0 a;
  cd_vacant : forall a, canonical_u64 a -> ~ among d a -> SegmentProps.vacant t2 s0 a -> SegmentProps.vacant t2 s a;
}.

Definition cloned_so_far (d : list (list Z * Z)) (s : PMem) : Prop := exists al fs, cloned d s al fs.

(** What an error leaves of everything but the second address space. *)
Definition only_second (s : PMem) : Prop := exists al, pt_inv t2 s al /\ steady s0 s al0 al.

Lemma page_low q e : (q, e) ∈ pages ->
  length q = 4%nat /\ addr_path (page_of q) = q /\ page_of q mod 4096 = 0 /\ canonical_u64 (page_of q) /\ 0 <= page_of q /\ page_of q + 4096 <= 2 ^ 47.
Proof.
  intros (i & r & -> & Hl & Hi & Hr)%leaves_path; [|lia]. destruct r as [|i3 [|i2 [|i1 [|]]]]; try done.
  apply list.Forall_cons in Hr as [H3 Hr]. apply list.Forall_cons in Hr as [H2 Hr]. apply list.Forall_cons in Hr as [H1 _].
  destruct (page_of_path i i3 i2 i1) as (E & Ea & E0 & E1); [lia|done|done|done|]. cbn [app] in *. do 3 (split; [done|]). split; [apply SegmentProps.low_canonical; lia|lia].
Qed.

Lemma listed_page q e : (q, e) ∈ pages -> user_page (page_of q) e.
Proof.
  intros H. destruct (page_low q e H) as (Hl & Hp & _ & _ & H0 & H1). split; [lia|]. apply leaves_found in H as (i & r & l1 & Hq & Ht & He & Hs).
  exists l1. split; [|done]. cbn [app] in Hq. destruct r as [|i3 [|i2 [|i1 [|]]]]; try (by rewrite Hq in Hl). 
  pose proof (eq_trans Hp Hq) as Hpq. unfold addr_path in Hpq. unfold page_entry, l1_indices. injection Hpq as -> -> -> ->. cbn [removelast List.last] in Ht, He. rewrite Ht. cbn. by rewrite He.
Qed.

Lemma dst_flags_facts f : plain_flags (dst_flags f) /\ is_u64 (dst_flags f) /\ has (dst_flags f) PRESENT = true /\ has (dst_flags f) USER_ACCESSIBLE = true.
Proof. unfold dst_flags. destruct (has f WRITABLE), (has f NO_EXECUTE); repeat split; vm_compute; done. Qed.

Lemma copied_kept s s' al al' page n :
  copied_to s al page n -> pt_inv t2 s al -> steady s s' al al' ->
  (forall a, canonical_u64 a -> a / 4096 = page_of page.1 / 4096 -> translate s' a = translate s a) -> copied_to s' al' page n.
Proof.
  intros [(Hn & Hn0 & Hnt) Hs Hb] Hi St T. split.
  - split; [by apply (sd_held _ _ _ _ St)|]. split; [done|]. by apply (steady_not s s' al al').
  - intros a Hc Ha. rewrite T by done. by apply Hs.
  - intros k Hk. rewrite (frame_steady s s' al al') by done. by apply Hb.
Qed.

(** A page not yet handled, with the others of the list elsewhere. *)
Lemma fresh_page d q e : d ++ [(q, e)] `prefix_of` pages -> (q, e) ∈ pages /\ ~ among d (page_of q).
Proof.
  intros [rest Hall]. assert (forall x, x ∈ d ++ [(q, e)] -> x ∈ pages) as Hin0 by (intros x Hx; rewrite Hall; apply elem_of_app; by left).
  assert ((q, e) ∈ pages) as Hq by (apply Hin0, elem_of_app; right; by left). split; [done|].
  intros (q' & e' & Hin & Hpg). assert ((q', e') ∈ pages) as Hq' by (apply Hin0, elem_of_app; by left).
  destruct (page_low q e Hq) as (_ & P & _ & C & _). destruct (page_low q' e' Hq') as (_ & P' & _ & C' & _).
  assert (q = q') as <- by (rewrite <-P, <-P'; by apply addr_path_inj).
  pose proof (leaves_nodup 3 (ram s0) t1 256 [] ltac:(lia)) as Hn. fold (user_pages (ram s0) t1) in Hn. fold pages in Hn. clearbody pages. rewrite Hall, fmap_app, fmap_app in Hn.
  apply NoDup_app in Hn as (Hn & _). apply NoDup_app in Hn as (_ & Hn & _). apply (Hn q); [|by left]. apply list_elem_of_fmap. by exists (q, e').
Qed.

Lemma load_bytes m a n : mem_wf m -> Forall is_byte (load m a n).
Proof. intros H. unfold load. apply list.Forall_fmap, Forall_true. intros i. apply H. Qed.

Lemma copy_page_eq src dst s : src < 2 ^ 52 -> dst < 2 ^ 52 -> copy_page off src dst s = Some (tt, mkPM (frames s) (store (ram s) dst (load (ram s) src 4096))).
Proof. intros H1 H2. unfold copy_page. do 2 rewrite (st_bind_eq _ _ _ tt s) by (by apply UserTable.as_table_ok). done. Qed.

(** The page is mapped and filled, or an error leaves the second address space without it. *)
Lemma clone_page_at s al q e :
  clonable -> (q, e) ∈ pages -> pt_inv t2 s al -> steady s0 s al0 al -> SegmentProps.vacant t2 s (page_of q) ->
  exists r s' al', clone_page off t2 (page_of q) e s = Some (r, s') /\ pt_inv t2 s' al' /\ steady s s' al al' /\
    if r is Ok _ then exists n, n ∉ al /\ copied_to s' al' (q, e) n /\
      (forall a, canonical_u64 a -> a / 4096 <> page_of q / 4096 -> translate s' a = translate s a) /\
      (forall a, canonical_u64 a -> a / 4096 <> page_of q / 4096 -> SegmentProps.vacant t2 s a -> SegmentProps.vacant t2 s' a)
    else True.
Proof.
  intros Hcl Hq Hi St Hv. destruct (page_low q e Hq) as (_ & _ & Ha & Hc & _). destruct (cl_pages Hcl (page_of q) e (listed_page q e Hq)) as (_ & Hsrc & Hsnt).
  destruct (dst_flags_facts (entry_flags e)) as (F1 & F2 & F3 & F4). unfold clone_page. rewrite (st_bind_eq _ _ s tt s) by (unfold virt; by rewrite (proj2 Hc)).
  destruct (allocate_one t2 s al Hi) as [E|(n & s1 & E & Hn & V1 & S1 & Hnt1 & D1)].
  { exists (Err (KMemory Memory_OutOfMemory)), s, al. rewrite (try_bind_err _ _ _ _ _ E). split; [done|]. split; [done|]. split; [apply steady_refl|done]. }
  rewrite (try_bind_ok _ _ _ _ _ E). pose proof (allocated_steady s s1 al n Hi Hn S1 D1) as St1.
  destruct (held_frame t2 s1 (n :: al) n V1 ltac:(left)) as [Hna Hnr].
  assert (forall a, SegmentProps.vacant t2 s a -> SegmentProps.vacant t2 s1 a) as Hv1 by (intros a; apply SegmentProps.vacant_same; apply S1).
  destruct (map_to_vacant off t2 Hoff Hoff' s1 (n :: al) (page_of q) n (dst_flags (entry_flags e)) V1 Hc Ha Hna ltac:(lia) (Hv1 _ Hv) F1 F2 F3 F4)
    as (r & s2 & al2 & E2 & Hr & V2 & G2 & Hv2 & T2).
  pose proof (steady_trans s s1 s2 al (n :: al) al2 V1 St1 (grown_steady _ _ _ _ G2)) as St2.
  unfold with_allocator. destruct (pi_alloc _ _ _ V1) as (fa & fl & -> & _). rewrite (st_bind_eq _ _ _ _ _ E2).
  destruct r as [[]|[| |g]]; [|by exists (Err (KMemory Memory_InvalidAddress)), s2, al2..|by destruct (Hr g)].
  assert (n ∈ al2) as Hn2 by (apply (gr_held _ _ _ _ _ G2); left).
  assert (not_table t2 s2 n) as Hnt2 by (apply (steady_not s1 s2 (n :: al) al2); [by apply grown_steady|left|done]).
  destruct (held_frame t2 s0 al0 (entry_addr e) (cl_inv Hcl) Hsrc) as [_ Hsr].
  rewrite (st_bind_eq _ _ _ _ _ (copy_page_eq (entry_addr e) n s2 ltac:(lia) ltac:(lia))). set (bs := load (ram s2) (entry_addr e) 4096).
  assert (Z.of_nat (length bs) = 4096) as Hlb by (unfold bs; by rewrite load_length).
  destruct (filled_steady s s2 al al2 n bs Hi V2 St2 Hn2 Hn Hnt2 Hlb (load_bytes _ _ _ (pi_mem _ _ _ V2))) as (V3 & St3 & S3).
  set (s3 := mkPM (frames s2) (store (ram s2) n bs)) in *. exists (Ok tt), s3, al2. do 3 (split; [done|]). exists n. split; [done|].
  assert (forall a, canonical_u64 a -> translate s3 a = if decide (a / 4096 = page_of q / 4096) then Some (n + a mod 4096, dst_flags (entry_flags e)) else translate s a) as T3.
  { intros a Hca. rewrite (same_tables_translate off t2 Hoff Hoff' s2 s3 al2 al2) by done. rewrite T2 by done.
    destruct (decide _); [done|]. by apply (same_tables_translate off t2 Hoff Hoff' s s1 al (n :: al)). }
  split; [|split].
  - split; cbn [fst snd].
    + split; [done|]. split; [intros H; by apply Hn, (sd_held _ _ _ _ St)|]. by apply (same_tables_not t2 s2).
    + intros a Hca Hp. rewrite T3 by done. by rewrite decide_True.
    + intros k Hk. replace (n + k) with (n + Z.of_nat (Z.to_nat k)) by lia. unfold s3. cbn [ram]. rewrite (store_in _ _ _ _ (ram s2 (entry_addr e + k))).
      * apply (frame_steady s0 s2 al0 al2); [apply Hcl|by apply (steady_trans s0 s s2 al0 al)|done..].
      * unfold bs. rewrite load_lookup by lia. by rewrite Z2Nat.id by lia.
  - intros a Hca Hp. rewrite T3 by done. by rewrite decide_False.
  - intros a Hca Hp Hva. apply (SegmentProps.vacant_same t2 s2); [apply S3|apply S3|]. apply Hv2; [done|done|]. by apply Hv1.
Qed.

Lemma Forall2_elem_impl {A B} (P Q : A -> B -> Prop) l k : Forall2 P l k -> (forall x y, x ∈ l -> P x y -> Q x y) -> Forall2 Q l k.
Proof.
  induction 1 as [|x y l k Hxy _ IH]; intros H; [by constructor|]. constructor; [apply H; [left|done]|]. apply IH. intros. apply H; [by right|done].
Qed.

Lemma not_among_snoc d q e a : ~ among (d ++ [(q, e)]) a -> a / 4096 <> page_of q / 4096 /\ ~ among d a.
Proof.
  intros Hno. split; [intros H; apply Hno; exists q, e; split; [apply elem_of_app; right; by left|done]|].
  intros (q' & e' & Hin & H). apply Hno. exists q', e'. split; [apply elem_of_app; by left|done].
Qed.

Lemma clone_page_step d q e s :
  clonable -> d ++ [(q, e)] `prefix_of` pages -> cloned_so_far d s ->
  outcome cloned_so_far only_second (d ++ [(q, e)]) (clone_page off t2 (page_of q) e) s.
Proof.
  intros Hcl Hp (al & fs & [Hi St Hf Hpg Hrest Hvac]). destruct (fresh_page d q e Hp) as [Hq Hna]. destruct (page_low q e Hq) as (_ & _ & _ & Hc & _).
  destruct (clone_page_at s al q e Hcl Hq Hi St) as (r & s' & al' & E & V & St' & R); [apply Hvac; [done|done|apply (cl_pages Hcl (page_of q) e (listed_page q e Hq))]|].
  pose proof (steady_trans s0 s s' al0 al al' Hi St St') as St0'. exists r, s'. split; [exact E|]. destruct r as [[]|err]; [|by exists al'].
  destruct R as (n & Hn & Hcp & T & Hv). exists al', (fs ++ [n]). split; try done.
  - apply NoDup_app. split; [done|]. split; [|apply NoDup_singleton]. intros f Hin ->%list_elem_of_singleton.
    apply list_elem_of_lookup in Hin as [i Hfi]. destruct (Forall2_lookup_r _ _ _ _ _ Hpg Hfi) as (pg & _ & [(Hin & _) _ _]). done.
  - apply Forall2_app; [|constructor; [done|by constructor]]. apply (Forall2_elem_impl _ _ _ _ Hpg). intros [q' e'] f Hin Hcf. apply (copied_kept s s' al al'); try done.
    intros a Ha Hpa. apply T; [done|]. intros Heq. apply Hna. exists q', e'. split; [done|]. cbn in Hpa. congruence.
  - intros a Ha [H1 H2]%not_among_snoc. rewrite T by done. by apply Hrest.
  - intros a Ha [H1 H2]%not_among_snoc Hva. apply Hv; [done|done|]. by apply Hvac.
Qed.

Lemma cloned_reads d s p x i :
  clonable -> cloned_so_far d s -> table_path p -> (forall i r, p = i :: r -> i < 256) -> table_at 4 (ram s0) t1 p = Some x -> idx i ->
  x < 2 ^ 52 /\ read_entry (ram s) x i = read_entry (ram s0) x i.
Proof.
  intros Hcl (al & fs & [_ St _ _ _ _]) Hp Hlow Hx Hi. destruct (cl_tables Hcl p x Hp Hlow Hx) as [Hin Hnt]. split.
  - destruct (held_frame t2 s0 al0 x (cl_inv Hcl) Hin). lia.
  - apply read_entry_ext; [done|]. intros z Hz. apply (sd_data _ _ _ _ St), (frame_data s0 al0 x); [apply Hcl|done|done|]. done.
Qed.

(** The loops over the whole address space. *)
Lemma clone_all : clonable -> outcome cloned_so_far only_second pages (clone_level 3 off t2 t1 256 []) s0.
Proof.
  intros Hcl. apply (clone_level_outcome s0 pages cloned_so_far only_second) with (d := []); try done.
  - intros d q e s Hp Hd. by apply clone_page_step.
  - intros d s p x i Hd Hp Hlow Hx Hi. by apply (cloned_reads d s p).
  - exists al0, []. split; try done; [apply Hcl|apply steady_refl|constructor].
Qed.

(** The frame that shows a page number. *)
Definition frame_at (s : PMem) (page : Z) : Z := default 0 (fst <$> translate s (4096 * page)).

Lemma cloned_frame s al fs a e :
  cloned pages s al fs -> user_page a e ->
  copied_to s al (addr_path a, e) (frame_at s (a / 4096)) /\ frame_at s (a / 4096) ∈ fs /\ canonical_u64 a /\ a / 4096 = page_of (addr_path a) / 4096 /\
  exists i, pages !! i = Some (addr_path a, e) /\ fs !! i = Some (frame_at s (a / 4096)).
Proof.
  intros Hc Hu. pose proof (user_page_listed a e Hu) as Hin. destruct Hu as ((H0 & H1) & _). destruct (page_low _ _ Hin) as (_ & Hp & Ha & Hcp & _).
  assert (canonical_u64 a) as Hca by (apply SegmentProps.low_canonical; lia). pose proof (proj1 (addr_path_inj _ _ Hcp Hca) Hp) as Hpg.
  apply list_elem_of_lookup in Hin as [i Hi]. destruct (Forall2_lookup_l _ _ _ _ _ (cd_pages _ _ _ _ Hc) Hi) as (n & Hn & Hcn).
  assert (frame_at s (a / 4096) = n) as ->.
  { unfold frame_at. rewrite (cp_shown _ _ _ _ Hcn (4096 * (a / 4096))).
    - cbn. rewrite (Z.mul_comm 4096), Z_mod_mult. lia.
    - apply SegmentProps.low_canonical. pose proof (Z.mul_div_le a 4096 ltac:(lia)). pose proof (Z.div_pos a 4096 ltac:(lia) ltac:(lia)). lia.
    - rewrite (Z.mul_comm 4096), Z.div_mul by lia. done. }
  split; [done|]. split; [by apply (list_elem_of_lookup_2 _ i)|]. split; [done|]. split; [done|]. by exists i.
Qed.

End copy.
End two.

(** ** A page at 4 MiB, and an empty second table *)

Definition fork_demo : PMem :=
  mkPM (Some (Frame.mkAllocator [Frame.mkRegion 1048576 262144 Frame.Usable] 262 0 0))
    (write_entry (write_entry (write_entry (write_entry (store (fun _ => 0) 1064960 [42; 43]) 1048576 0 1052679) 1052672 0 1056775) 1056768 2 1060871) 1060864 0 1064967).
Definition fork_demo_held : list Z := [1048576; 1052672; 1056768; 1060864; 1064960; 1069056].

(** The entries that are not zero. *)
Definition demo_entry (x j : Z) : Z :=
  if (x =? 1060864) && (j =? 0) then 1064967 else if (x =? 1056768) && (j =? 2) then 1060871
  else if (x =? 1052672) && (j =? 0) then 1056775 else if (x =? 1048576) && (j =? 0) then 1052679 else 0.

Lemma write_entry_case m x i e y j : is_u64 e -> x mod 4096 = 0 -> y mod 4096 = 0 -> idx i -> idx j ->
  read_entry (write_entry m x i e) y j = if (y =? x) && (j =? i) then e else read_entry m y j.
Proof.
  intros He Hx Hy Hi Hj. destruct (Z.eqb_spec y x) as [->|Hn]; [destruct (Z.eqb_spec j i) as [->|Hn]|]; cbn [andb];
    [by apply read_write_entry|apply read_write_entry_other; by auto|apply read_write_entry_other; by auto].
Qed.

Lemma fork_demo_entries x j : x ∈ fork_demo_held -> x <> 1064960 -> idx j -> read_entry (ram fork_demo) x j = demo_entry x j.
Proof.
  intros Hx Hn Hj. assert (x mod 4096 = 0 /\ (x + 4096 <= 1064960 \/ 1069056 <= x)) as [Ha Hr].
  { unfold fork_demo_held in Hx. repeat (apply elem_of_cons in Hx as [->|Hx]; [split; [done|lia]|]). by apply not_elem_of_nil in Hx. }
  unfold fork_demo. cbn [ram]. rewrite !write_entry_case; try done; try (unfold idx; lia); try (split; [lia|done]).
  unfold demo_entry. do 4 (destruct (_ && _); [done|]). transitivity (read_entry (fun _ => 0) x j); [|done].
  apply read_entry_ext; [done|]. intros z Hz. apply store_out. cbn. lia.
Qed.

Lemma demo_descend lvl x j y : x ∈ fork_demo_held -> x <> 1064960 -> idx j -> descend lvl (read_entry (ram fork_demo) x j) = Some y ->
  x = 1048576 /\ j = 0 /\ y = 1052672 \/ x = 1052672 /\ j = 0 /\ y = 1056768 \/ x = 1056768 /\ j = 2 /\ y = 1060864 \/ x = 1060864 /\ j = 0 /\ y = 1064960.
Proof.
  intros Hx Hn Hj. rewrite fork_demo_entries by done. unfold demo_entry. intros Hd. pose proof (descend_present _ _ _ Hd) as [Hp ->]. revert Hp.
  destruct ((x =? 1060864) && (j =? 0)) eqn:E1; [apply andb_prop in E1 as [->%Z.eqb_eq ->%Z.eqb_eq]; intros _; vm_compute (entry_addr _); by do 3 right|].
  destruct ((x =? 1056768) && (j =? 2)) eqn:E2; [apply andb_prop in E2 as [->%Z.eqb_eq ->%Z.eqb_eq]; intros _; vm_compute (entry_addr _); by do 2 right; left|].
  destruct ((x =? 1052672) && (j =? 0)) eqn:E3; [apply andb_prop in E3 as [->%Z.eqb_eq ->%Z.eqb_eq]; intros _; vm_compute (entry_addr _); by right; left|].
  destruct ((x =? 1048576) && (j =? 0)) eqn:E4; [apply andb_prop in E4 as [->%Z.eqb_eq ->%Z.eqb_eq]; intros _; vm_compute (entry_addr _); by left|done].
Qed.

Lemma demo_first p x : table_path p -> table_at 4 (ram fork_demo) 1048576 p = Some x ->
  p = [] /\ x = 1048576 \/ p = [0] /\ x = 1052672 \/ p = [0; 0] /\ x = 1056768 \/ p = [0; 0; 2] /\ x = 1060864.
Proof.
  intros [Hl Hp]. destruct p as [|i p]; cbn [table_at]; [intros [= <-]; by left|]. apply list.Forall_cons in Hp as [Hi Hp].
  destruct (descend _ _) as [y|] eqn:E; [|done]. apply demo_descend in E; [|apply (bool_decide_unpack _); by vm_compute|done|done].
  destruct E as [(_ & -> & ->)|[(? & _)|[(? & _)|(? & _)]]]; [|done..]. cbn [mbind option_bind pred]. clear Hi.
  destruct p as [|i p]; cbn [table_at]; [intros [= <-]; by right; left|]. apply list.Forall_cons in Hp as [Hi Hp].
  destruct (descend _ _) as [y|] eqn:E; [|done]. apply demo_descend in E; [|apply (bool_decide_unpack _); by vm_compute|done|done].
  destruct E as [(? & _)|[(_ & -> & ->)|[(? & _)|(? & _)]]]; [done| |done..]. cbn [mbind option_bind pred]. clear Hi.
  destruct p as [|i p]; cbn [table_at]; [intros [= <-]; by right; right; left|]. apply list.Forall_cons in Hp as [Hi Hp].
  destruct (descend _ _) as [y|] eqn:E; [|done]. apply demo_descend in E; [|apply (bool_decide_unpack _); by vm_compute|done|done].
  destruct E as [(? & _)|[(? & _)|[(_ & -> & ->)|(? & _)]]]; [done|done| |done]. cbn [mbind option_bind pred].
  destruct p as [|i' p]; [intros [= <-]; by right; right; right|]. cbn in Hl. lia.
Qed.

Lemma demo_second p x : table_path p -> table_at 4 (ram fork_demo) 1069056 p = Some x -> p = [] /\ x = 1069056.
Proof.
  intros [_ Hp]. destruct p as [|i p]; [by intros [= <-]|]. apply list.Forall_cons in Hp as [Hi _]. rewrite table_at_zero; [done| |done].
  intros j Hj. rewrite fork_demo_entries; [|apply (bool_decide_unpack _); by vm_compute|done|done]. reflexivity.
Qed.

Lemma fork_demo_clonable : clonable 1048576 1069056 fork_demo fork_demo_held.
Proof.
  assert (forall f, f <> 1069056 -> not_table 1069056 fork_demo f) as Hnt by (intros f Hf q Hq Hx; apply demo_second in Hx as [_ ->]; done).
  split.
  - split.
    + eexists _, []. split; [reflexivity|]. split; [|repeat constructor; cbn; lia]. split; cbn; try done; try lia.
      * apply (bool_decide_unpack _). by vm_compute.
      * repeat apply list.Forall_cons_2; try apply list.Forall_nil_2; repeat split; vm_compute; done.
    + unfold fork_demo, write_entry, write_u64. cbn [ram]. repeat apply mem_wf_store; try apply to_le_bytes_byte; [intros z; unfold is_byte; lia|repeat constructor; lia].
    + intros p q x Hp Hq H1 H2. apply demo_second in H1 as [-> _]; [|done]. by apply demo_second in H2 as [-> _].
    + intros p x Hp H. apply demo_second in H as [_ ->]; [|done]. apply (bool_decide_unpack _). by vm_compute.
  - intros p x Hp _ Hx. apply demo_first in Hx as [[_ ->]|[[_ ->]|[[_ ->]|[_ ->]]]]; [..|done]; (split; [apply (bool_decide_unpack _); by vm_compute|by apply Hnt]).
  - intros a e (Ha & l1 & He & Hs). split; [|].
    + intros p i r x Hp Hx. destruct (SegmentProps.path_parts a p i r Hp) as (_ & Hi & Htp). apply demo_second in Hx as [-> ->]; [|done]. left.
      rewrite fork_demo_entries; [reflexivity|apply (bool_decide_unpack _); by vm_compute|done|done].
    + apply page_entry_table in He as [L1 He]. apply demo_first in L1; [|apply l1_table_path]. destruct L1 as [[? _]|[[? _]|[[? _]|[_ ->]]]]; [done..|].
      assert (e = 1064967) as ->.
      { rewrite fork_demo_entries in He; [|apply (bool_decide_unpack _); by vm_compute|done|apply index_range]. unfold demo_entry in He. cbn in He.
        destruct (_ =? 0); [done|]. rewrite He in Hs. done. }
      split; [apply (bool_decide_unpack _); by vm_compute|by apply Hnt].
Qed.

Lemma fork_demo_runs : fst <$> clone_level 3 0 1069056 1048576 256 [] fork_demo = Some (Ok tt).
Proof. vm_cast_no_check (eq_refl (Some (@Ok unit Kernel tt))). Qed.

End ForkProps.
