(* ===== verification/ForkCall.v ===== *)
(** What the system call [fork] guarantees: the child, its descriptors and its thread
    appear together, or the tables are as they were. *)

From Stdlib Require Import ZArith Lia.
From stdpp Require Import base list option numbers gmap sets.
From S2P Require Import Prelude State Types UserMem Bytes Mem Frame Paging PageTree PageTables Segment UserTable Mapper FdTable FdSyscalls.
From S2P Require Import Slots Table Thread KStack Scheduler Ipc IpcSyscalls Signal Process Futex Kernel SigSyscalls SignalProps ExecStack Exec ExecProps MemCalls Execve Fork ForkProps.
Import Mem Result Paging PageTree PageTables Segment Mapper Kernel Exec ExecProps MemCalls Execve Fork.

Local Open Scope Z_scope.
Local Open Scope kernel_scope.

Module ForkCall.

Section fork.
Context {M : Type} `{!UserMemory M} {MP : Mapper}.
Context (pool_base thread_exit_handler fork_child_trampoline : Z) (unmap_guard_page : Z -> bool).
Context (phys_offset : option Z) (kernel_l4 : Z).
Implicit Types s : ES M.
Implicit Types x : XS M.

(** The tables of processes, threads and descriptors are as before. *)
Definition nothing_left s s' : Prop := unchanged (xs s) (xs s') /\ Fs.tables (fds s') = Fs.tables (fds s).

(** The child: what it has of its parent, and what it starts with. *)
Record is_child (parent : Process.Process) (pid parent_pid child_pt : Z) (c : Process.Process) : Prop := {
  ch_id : Process.id c = pid;
  ch_parent : Process.parent_id c = Some parent_pid;
  ch_privilege : Process.privilege c = Process.privilege parent;
  ch_priority : Process.priority c = Process.priority parent;
  ch_heap : Process.heap_start c = Process.heap_start parent /\ Process.heap_end c = Process.heap_end parent;
  ch_stack : Process.stack_bottom c = Process.stack_bottom parent /\ Process.stack_top c = Process.stack_top parent;
  ch_table : Process.page_table c = Some child_pt;
  ch_state : Process.state c = Process.PRunning;
}.

Lemma make_child_facts parent_pid parent child_pt next c next' :
  make_child parent_pid parent child_pt next = (c, next') -> is_child parent next parent_pid child_pt c.
Proof. unfold make_child, Process.new, Process.ProcessId_new. intros [= <- _]. by split. Qed.

(** Its thread: ready, in user mode where the parent made the call. *)
Record is_fork_thread (t : Thread.Thread) (pid tid : Z) (c : Thread.Thread) : Prop := {
  ft_id : Thread.id c = tid;
  ft_process : Thread.process_id c = pid;
  ft_state : Thread.state c = Thread.Ready;
  ft_rip : Thread.user_entry c = Thread.syscall_user_rip t;
  ft_rsp : Thread.user_stack c = Thread.syscall_user_rsp t;
  ft_rflags : Thread.fork_user_rflags c = Thread.syscall_user_rflags t;
  ft_fs : Thread.fs_base c = Thread.fs_base t;
}.

(** Descriptors of the child that never came to be are gone. *)
Lemma dropped_tables parent pid w w1 w2 r1 r2 :
  Fs.tables w !! pid = None -> Fs.fork_tables parent pid w = Some (r1, w1) -> Fs.drop_process pid w1 = Some (r2, w2) -> Fs.tables w2 = Fs.tables w.
Proof.
  intros Hn. unfold Fs.fork_tables. destruct (Fs.tables w !! parent) as [t|].
  - destruct (FdTable.clone_for_fork t (Fs.heap w)) as [[t' h']|]; [|done]. intros [= _ <-]. unfold Fs.drop_process. cbn [Fs.tables Fs.heap]. rewrite lookup_insert_eq.
    destruct (FdTable.close_all _) as [[? [? ?]]|]; [|done]. intros [= _ <-]. cbn. by apply delete_insert_id.
  - intros [= _ <-]. unfold Fs.drop_process. rewrite Hn. by intros [= _ <-].
Qed.

Lemma destroy_child_same t s r s' : destroy_child phys_offset t s = Some (r, s') -> same_kernel (xs s) (xs s') /\ fds s' = fds s.
Proof. intros H. apply on_xs_Some in H as (H & Hf & _). by apply destroy_same in H. Qed.

Lemma remove_child_spec pid s r s' :
  remove_child pid s = Some (r, s') ->
  kst (xs s') = set_procs (Process.remove pid (procs (kst (xs s)))).2 (kst (xs s)) /\ manager (xs s') = manager (xs s) /\
  exists q, Fs.drop_process pid (fds s) = Some (q, fds s').
Proof.
  unfold remove_child. intros H. run H. apply on_xs_Some in E as (E & Hf & _). unfold remove_process, smodify in E. injection E as _ E.
  run H. unfold on_fds in E0. destruct (Fs.drop_process pid (fds s1)) as [[q w]|] eqn:Ed; [|done]. injection E0 as <- <-. injection H as _ <-. cbn.
  rewrite <-E, <-Hf. split; [done|]. split; [done|]. eauto.
Qed.

Lemma push_child_spec pid rip rsp rflags fs kstack x r x' :
  push_child thread_exit_handler fork_child_trampoline pid rip rsp rflags fs kstack x = Some (r, x') ->
  manager x' = manager x /\ current_thread_id (kst x') = current_thread_id (kst x) /\ procs (kst x') = procs (kst x) /\
  if r then exists c m, Thread.new_fork_child thread_exit_handler fork_child_trampoline pid rip rsp rflags fs kstack FORK_STACK_SIZE (kmem x) (next_tid x) = (c, m, next_tid x') /\
    Thread.push c (threads_of (kst x)) = (Some (next_tid x), threads_of (kst x'))
  else threads_of (kst x') = threads_of (kst x).
Proof.
  unfold push_child. cbn [Thread.new_fork_child Thread.ThreadId_new]. match goal with |- context [Thread.push ?t _] => set (c := t) end.
  destruct (Thread.push c _) as [o q] eqn:Ep. intros [= <- <-]. do 3 (split; [done|]). unfold Thread.push in Ep. destruct o as [tid|].
  - rewrite bool_decide_true by eauto. exists c, (write_u64 (kmem x) (Thread.stack_top kstack FORK_STACK_SIZE - 8) thread_exit_handler). split; [done|].
    unfold Thread.push. cbn. destruct (_ <=? _)%nat; [done|]. destruct (first_free _); [|done]. by injection Ep as <- <-.
  - rewrite bool_decide_false by (by intros [? ?]). cbn. destruct (_ <=? _)%nat; [by injection Ep|]. destruct (first_free _); [done|by injection Ep].
Qed.

(** Taking the child back after it was entered. *)
Lemma child_undone parent_pid child tb child_pt s s1 s3 s' r0 r1 r2 r3 :
  (forall q, q ∈ Process.iter (procs (kst (xs s))) -> Process.id q <> Process.id child) -> Fs.tables (fds s) !! Process.id child = None ->
  Fs.fork_tables parent_pid (Process.id child) (fds s) = Some (r0, fds s1) -> Process.add child (procs (kst (xs s))) = (Some r1, tb) ->
  procs (kst (xs s1)) = tb -> threads_of (kst (xs s1)) = threads_of (kst (xs s)) -> current_thread_id (kst (xs s1)) = current_thread_id (kst (xs s)) ->
  manager (xs s1) = manager (xs s) -> remove_child (Process.id child) s1 = Some (r2, s3) -> destroy_child phys_offset child_pt s3 = Some (r3, s') -> nothing_left s s'.
Proof.
  intros Hf Hn Eft Eadd Hp Ht Hc Hm Er Ed. apply remove_child_spec in Er as (K & Hm3 & q & Edp). apply destroy_child_same in Ed as [(K' & M' & _) F'].
  pose proof (remove_added child _ _ _ Hf Eadd) as Hr. rewrite <-Hp in Hr. split.
  - unfold unchanged. rewrite K', M', Hm3, K. change (threads_of (set_procs ?a ?b)) with (threads_of b). change (current_thread_id (set_procs ?a ?b)) with (current_thread_id b). by cbn; rewrite Hr, Ht, Hc, Hm.
  - rewrite F'. by apply (dropped_tables parent_pid (Process.id child) (fds s) (fds s1) (fds s3) r0 q).
Qed.

(** The child was made: a process, a ready thread and a table of descriptors. *)
Record child_started (parent_pid : Z) (parent : Process.Process) (t : Thread.Thread) (child_pt : Z) s s' : Prop := {
  cs_process : exists c, is_child parent (next_pid (xs s)) parent_pid child_pt c /\
    Process.add c (procs (kst (xs s))) = (Some (next_pid (xs s)), procs (kst (xs s')));
  cs_thread : exists c, is_fork_thread t (next_pid (xs s)) (next_tid (xs s)) c /\
    Thread.push c (threads_of (kst (xs s))) = (Some (next_tid (xs s)), threads_of (kst (xs s')));
  cs_fds : exists r, Fs.fork_tables parent_pid (next_pid (xs s)) (fds s) = Some (r, fds s');
  cs_current : current_thread_id (kst (xs s')) = current_thread_id (kst (xs s)) /\ manager (xs s') = manager (xs s);
}.

Notation context_of t := (Thread.syscall_user_rip t, Thread.syscall_user_rsp t, Thread.syscall_user_rflags t, Thread.fs_base t).

Lemma start_child_outcome parent_pid parent t child_pt s r s' :
  (forall q, q ∈ Process.iter (procs (kst (xs s))) -> Process.id q <> next_pid (xs s)) -> Fs.tables (fds s) !! next_pid (xs s) = None ->
  start_child pool_base thread_exit_handler fork_child_trampoline unmap_guard_page phys_offset parent_pid parent child_pt (context_of t) s = Some (r, s') ->
  (r = ENOSYS \/ r = ENOMEM) /\ nothing_left s s' \/ r = next_pid (xs s) /\ child_started parent_pid parent t child_pt s s'.
Proof.
  intros Hf Hn. unfold start_child. destruct (_ || _).
  { intros H. run H. injection H as <- <-. apply destroy_child_same in E as [Hs Hfd]. left. split; [by left|]. split; [by apply same_unchanged|by rewrite Hfd]. }
  destruct (make_child parent_pid parent child_pt (next_pid (xs s))) as [c next] eqn:Ec. apply make_child_facts in Ec as Hc. pose proof (ch_id _ _ _ _ _ Hc) as Hid.
  rewrite <-Hid in Hf, Hn. intros H. run H. unfold on_fds in E. cbn [fds] in E.
  destruct (Fs.fork_tables _ _ _) as [[r0 w]|] eqn:Eft; [|done]. injection E as <- <-. run H. apply on_xs_Some in E as (E & F1 & _). cbn [xs fds] in *.
  unfold add_process in E. cbn [kst set_next_pid] in E. destruct (Process.add c _) as [o tb] eqn:Ea. injection E as <- E.
  destruct o as [rid|]; [rewrite bool_decide_true in H by eauto|rewrite bool_decide_false in H by (by intros [? ?])]; cbn [negb] in H.
  2:{ run H. unfold on_fds in E0. destruct (Fs.drop_process _ _) as [[r1 w1]|] eqn:Edp; [|done]. injection E0 as <- <-. run H. injection H as <- <-.
      apply destroy_child_same in E0 as [(K & M' & _) F']. left. split; [by right|]. split.
      - assert (tb = procs (kst (xs s))) as -> by (unfold Process.add in Ea; repeat case_match; by injection Ea).
        unfold unchanged. rewrite K, M'. cbn [xs]. by rewrite <-E.
      - rewrite F'. cbn [fds]. rewrite F1 in Edp. by apply (dropped_tables parent_pid (Process.id c) (fds s) w w1 r0 r1). }
  assert (rid = Process.id c) as -> by (unfold Process.add in Ea; repeat case_match; by injection Ea).
  run H. apply on_xs_Some in E0 as (E0 & F2 & _). unfold allocate_stack in E0. rewrite <-E in E0. destruct (KStack.allocate_kernel_stack _ _ _ _) as [ok pl] eqn:Ek.
  injection E0 as <- E0. rewrite F1 in F2.
  destruct ok as [kstack|].
  2:{ run H. run H. injection H as <- <-. left. split; [by right|]. apply (child_undone parent_pid c tb child_pt s s0 s2 s3 r0 (Process.id c) a a0); try done; try (by rewrite <-E0); by rewrite F2. }
  run H. apply on_xs_Some in E1 as (E1 & F3 & _). apply push_child_spec in E1 as (P1 & P2 & P3 & P4). rewrite <-E0 in P1, P2, P3, P4. rewrite F2 in F3. destruct a; cbn [negb] in H.
  - injection H as <- <-. right. split; [done|]. destruct P4 as (ct & m & Hct & Hpush). cbn in Hct, Hpush. split.
    + exists c. split; [done|]. by rewrite P3, Ea, Hid.
    + exists ct. split; [|done]. injection Hct as <- _ _. by split.
    + exists r0. by rewrite F3, <-Hid.
    + by rewrite P2, P1.
  - run H. run H. injection H as <- <-. left. split; [by right|]. apply (child_undone parent_pid c tb child_pt s s2 s3 s4 r0 (Process.id c) a a0); try done; by rewrite F3.
Qed.

Lemma clone_same pt x r x' : on_pages (clone_user_page_table phys_offset kernel_l4 pt) x = Some (r, x') -> same_kernel x x'.
Proof. unfold on_pages, on_lm. destruct (on_pm _ _) as [[? ?]|]; [|done]. by intros [= _ <-]. Qed.

(** C29. [fork] makes a complete child or nothing.  When process numbers are fresh, a
    call that returns either answers [ENOSYS] or [ENOMEM], and the tables of processes,
    threads and descriptors and the running thread are what they were; or it answers the
    number of a new process that is exactly added to the table, with the privilege, the
    priority, the heap and the stack of the caller's process and an address space that
    [clone_user_page_table] made of the caller's, together with exactly one new thread,
    ready to continue in user mode at the instruction, the stack, the flags and the
    thread-local storage of the caller, and the descriptors that [fork_tables] copies. *)
Theorem fork_all_or_nothing s r s' :
  (forall q, q ∈ Process.iter (procs (kst (xs s))) -> Process.id q <> next_pid (xs s)) -> Fs.tables (fds s) !! next_pid (xs s) = None ->
  fork pool_base thread_exit_handler fork_child_trampoline unmap_guard_page phys_offset kernel_l4 s = Some (r, s') ->
  (r = ENOSYS \/ r = ENOMEM) /\ nothing_left s s' \/
  r = next_pid (xs s) /\ exists tid t parent pt child_pt x1,
    current_thread_id (kst (xs s)) = Some tid /\ Thread.get tid (threads_of (kst (xs s))) = Some t /\
    Process.get (Thread.process_id t) (procs (kst (xs s))) = Some parent /\ Process.page_table parent = Some pt /\
    on_pages (clone_user_page_table phys_offset kernel_l4 pt) (xs s) = Some (Ok child_pt, x1) /\
    child_started (Thread.process_id t) parent t child_pt s s'.
Proof.
  intros Hf Hn. unfold fork.
  assert (forall o, Some (ENOSYS, s) = Some (r, s') -> (r = ENOSYS \/ r = ENOMEM) /\ nothing_left s s' \/ o) as Hnone.
  { intros o [= <- <-]. left. split; [by left|]. by repeat split. }
  destruct (current_thread_id _) as [tid|] eqn:Et; [|by apply Hnone]. destruct (Thread.get tid _) as [t|] eqn:Eg; [|by apply Hnone].
  destruct (Process.get _ _) as [parent|] eqn:Ep; [|by apply Hnone]. destruct (Process.page_table parent) as [pt|] eqn:Ept; [|by apply Hnone].
  intros H. run H. apply on_xs_Some in E as (E & Fd & _). pose proof (clone_same _ _ _ _ E) as Hs. pose proof Hs as (K & Hm & Hp & Htid).
  destruct a as [child_pt|e]; [|injection H as <- <-; left; split; [by right|]; split; [by apply same_unchanged|by rewrite Fd]].
  apply start_child_outcome in H; [|by rewrite K, Hp|by rewrite Fd, Hp]. destruct H as [[Hr [Hu Ht]]|[-> [H1 H2 H3 H4]]].
  - left. split; [done|]. split; [by apply (unchanged_from _ (xs s1))|by rewrite Ht, Fd].
  - right. split; [done|]. exists tid, t, parent, pt, child_pt, (xs s1). rewrite K, ?Hp, ?Htid, ?Fd, ?Hm in *. do 5 (split; [done|]). by split.
Qed.
End fork.

(** Process 10 calls [fork] from 4096, with the kernel's table as its own. *)
Definition fork_caller : Thread.Thread := Thread.set_state Thread.Running (Thread.new_fork_child 0 0 10 4096 8192 514 77 0 16384 (fun _ => 0) 1).1.1.
Definition fork_es : ES (Z -> Z) :=
  let k := on_ks (fun _ => Scheduler.mkK (Thread.push fork_caller Thread.Queue_new).2 (Some 1) (Scheduler.enable Scheduler.new)) SignalProps.demo_ks in
  mkES (mkXS (set_procs (Process.with_process_mut 10 (fun p => (tt, Process.set_page_table 1048576 p)) (procs k)).2 k) (mkLM UserTable.kernel_demo None) 0 0 20 5 (fun _ => 0))
    (Fs.boot 10) 1048576.
Notation demo_fork := (fork 0 0 0 (fun _ => true) (Some 0) 1048576 fork_es).

Lemma demo_fork_runs : fst <$> demo_fork = Some 20.
Proof. vm_cast_no_check (eq_refl (Some 20)). Qed.

Lemma fork_fresh q : q ∈ Process.iter (procs (kst (xs fork_es))) -> Process.id q <> next_pid (xs fork_es).
Proof.
  assert (forallb (fun q => negb (Process.id q =? 20)) (Process.iter (procs (kst (xs fork_es)))) = true) as H by (vm_compute; reflexivity).
  rewrite forallb_forall in H. intros Hq%list_elem_of_In%H. change (next_pid (xs fork_es)) with 20. by destruct (Z.eqb_spec (Process.id q) 20).
Qed.

Lemma fork_all_or_nothing_witness :
  exists s' c tb, demo_fork = Some (20, s') /\ Process.add c (procs (kst (xs fork_es))) = (Some 20, tb) /\ procs (kst (xs s')) = tb /\
    Process.parent_id c = Some 10 /\ Process.privilege c = Process.User.
Proof.
  pose proof demo_fork_runs as Hr. destruct demo_fork as [[r s']|] eqn:E; [|discriminate Hr]. injection Hr as ->.
  pose proof (fork_all_or_nothing 0 0 0 (fun _ => true) (Some 0) 1048576 fork_es 20 s' fork_fresh ltac:(vm_compute; reflexivity) E) as H.
  destruct H as [[[H|H] _]|(_ & tid & t & parent & pt & cpt & x1 & Ht & Hg & Hp & _ & _ & [(c & Hc & Ha) _ _ _])]; [discriminate H|discriminate H|].
  injection Ht as <-. assert (Some t = Some fork_caller) as [= ->] by (rewrite <-Hg; vm_compute; reflexivity).
  exists s', c, (procs (kst (xs s'))). split; [reflexivity|]. split; [exact Ha|]. split; [reflexivity|]. split; [exact (ch_parent _ _ _ _ _ Hc)|].
  rewrite (ch_privilege _ _ _ _ _ Hc). assert (Process.privilege <$> Some parent = Some Process.User) as [= H] by (rewrite <-Hp; vm_compute; reflexivity). exact H.
Defined.
End ForkCall.
