(* ===== verification/NetDriver.v ===== *)
(** The network driver, [src/drivers/net/src] as its Cargo file builds it
    ([main_refactored.rs], [pci.rs], [util.rs], [virtio.rs], [net_common.rs]).

    A driver reaches the hardware through processor ports (the class [Ports] of
    [PortIo]), gets memory from the kernel (the class [PageCalls], the calls of
    [PhysCalls] as a driver sees them) and shares memory with the network card.  [mm] is
    that memory, by the driver's addresses.  [None] as an outcome is a panic.  The crate
    is built in release mode, so sums wrap around; lines that only print are left out. *)

From Stdlib Require Import ZArith Lia.
From stdpp Require Import base list option numbers sorting.
From S2P Require Import Prelude State Types UserMem Bytes Mem PortIo.
Import Mem Bytes.

Local Open Scope Z_scope.
Local Open Scope kernel_scope.

(** The calls on physical pages: the answer is an address or a negative error, and
    [alloc_shared_pages] also fills the caller's array with physical addresses. *)
Class PageCalls (K : Type) := {
  k_alloc : Z -> K -> Z * list Z * K;
  k_map : list Z -> K -> Z * K;
  k_unmap : Z -> Z -> bool -> K -> Z * K;
  k_mmio : Z -> Z -> K -> Z * K;
}.

Module NetDriver.

(** ** Constants of the cards and the protocols *)

Definition PCI_CFG_ADDR_PORT : Z := 3320.
Definition PCI_CFG_DATA_PORT : Z := 3324.
Definition CLASS_NETWORK : Z := 2.
Definition VIRTIO_PIO_DEVICE_FEATURES : Z := 0.
Definition VIRTIO_PIO_GUEST_FEATURES : Z := 4.
Definition VIRTIO_PIO_QUEUE_ADDR_PFN : Z := 8.
Definition VIRTIO_PIO_QUEUE_SIZE : Z := 12.
Definition VIRTIO_PIO_QUEUE_SELECT : Z := 14.
Definition VIRTIO_PIO_QUEUE_NOTIFY : Z := 16.
Definition VIRTIO_PIO_DEVICE_STATUS : Z := 18.
Definition VIRTIO_PIO_ISR_STATUS : Z := 19.
Definition VIRTIO_PIO_DEVICE_CONFIG : Z := 20.
Definition VIRTIO_QUEUE_RX : Z := 0.
Definition VIRTIO_QUEUE_TX : Z := 1.
Definition PAGE_SIZE : Z := 4096.
Definition RX_BUFFER_LEN : Z := 2048.
Definition RX_BUFFER_COUNT : Z := 32.
Definition ETH_TYPE_ARP : Z := 2054.
Definition ETH_TYPE_IPV4 : Z := 2048.
Definition ARP_OP_REQUEST : Z := 1.
Definition ARP_OP_REPLY : Z := 2.
Definition IP_PROTO_ICMP : Z := 1.
Definition ICMP_ECHO_REQUEST : Z := 8.
Definition ICMP_ECHO_REPLY : Z := 0.
Definition ICMP_ECHO_ID : Z := 4919.
Definition ICMP_ECHO_SEQ : Z := 1.
Definition GATEWAY_IP : bytes := [10; 0; 2; 2].
Definition LOCAL_IP : bytes := [10; 0; 2; 15].
Definition VRING_DESC_F_WRITE : Z := 2.
Definition VIRTIO_NET_HDR_LEN : Z := 10.
Definition RX_POLL_BUDGET : nat := 64.
Definition TX_POLL_BUDGET : nat := 64.

Record PciBdf := mkBdf { bus : Z; device : Z; function : Z }.
Inductive NetKind := VirtioNet | E1000 | Unknown.
Record NetDevice := mkDevice { bdf : PciBdf; vendor_id : Z; device_id : Z; kind : NetKind; bar0 : Z }.
Record SharedBuf := mkBuf { buf_virt : Z; buf_phys : Z; buf_len : Z }.
Record VirtQueue := mkQueue {
  index : Z; size : Z; base : Z; phys : Z; avail_ring_off : Z; used_ring_off : Z; next_avail_idx : Z; last_used_idx : Z
}.
Record VirtioNetRuntime := mkRt {
  rt_base : Z; mac : bytes; rxq : VirtQueue; txq : VirtQueue; rx_bufs : list SharedBuf; tx_buf : SharedBuf; tx_inflight : bool; arp_sent : bool;
  gateway_mac : option bytes; ping_sent : bool; ping_reply_seen : bool; ping_pending : bool; ticks : Z; listeners : list Z
}.
Record VringUsedElem := mkUsed { used_id : Z; used_len : Z }.

(** ** Words, sizes and sums *)

Definition align_up (value align : Z) : Z := if align =? 0 then value else Z.land (wrapping_add64 value (align - 1)) (Z.lnot (align - 1)).

Definition compute_virtqueue_bytes (queue_size : Z) : Z :=
  let desc_bytes := saturating_mul64 16 queue_size in
  let avail_bytes := saturating_add64 6 (saturating_mul64 2 queue_size) in
  let used_bytes := saturating_add64 6 (saturating_mul64 8 queue_size) in
  let used_off := align_up (saturating_add64 desc_bytes avail_bytes) PAGE_SIZE in
  saturating_add64 used_off used_bytes.

Definition is_syscall_error (value : Z) : bool := (-4095 <=? as_i64 value) && (as_i64 value <=? -1).

(** [u16::to_be_bytes] and [u16::from_be_bytes] *)
Definition be16 (value : Z) : bytes := [Z.shiftr value 8 mod 256; value mod 256].
Definition from_be16 (b : bytes) : Z := b !!! 0%nat * 256 + b !!! 1%nat.

Definition write_be16 (dst : bytes) (off : nat) (value : Z) : bytes := put dst off (be16 value).

(** The sum of the big-endian words, with the last byte of an odd length as a high byte. *)
Fixpoint sum_words (sum : Z) (data : bytes) : Z :=
  match data with
  | a :: b :: data => sum_words ((sum + (a * 256 + b)) mod 2 ^ 32) data
  | [a] => (sum + Z.shiftl a 8) mod 2 ^ 32
  | [] => sum
  end.

(** The carries are added in: a 32-bit sum needs two rounds. *)
Fixpoint fold_carries (n : nat) (sum : Z) : Z :=
  match n with
  | O => sum
  | S n => if Z.shiftr sum 16 =? 0 then sum else fold_carries n (Z.land sum 65535 + Z.shiftr sum 16)
  end.

Definition checksum16 (data : bytes) : Z := 65535 - fold_carries 3 (sum_words 0 data) mod 2 ^ 16.

Section driver.
Context {K : Type} `{!PageCalls K} {D : Type} `{!Ports D}.

(** The kernel, the devices, and the memory of the driver. *)
Record World := mkWorld { kern : K; nic : D; mm : mem }.
Notation Drv := (ST World).
Implicit Types rt : VirtioNetRuntime.
Implicit Types q : VirtQueue.

Definition inp (w port : Z) : Drv Z := fun s => let '(v, d) := port_read w (port mod 65536) (nic s) in Some (v, mkWorld (kern s) d (mm s)).
Definition outp (w port v : Z) : Drv unit := fun s => Some (tt, mkWorld (kern s) (port_write w (port mod 65536) v (nic s)) (mm s)).
Definition peek {A} (f : mem -> A) : Drv A := fun s => Some (f (mm s), s).
Definition poke (a : Z) (bs : bytes) : Drv unit := fun s => Some (tt, mkWorld (kern s) (nic s) (store (mm s) a bs)).
Definition call {A} (f : K -> A * K) : Drv A := fun s => let '(a, k) := f (kern s) in Some (a, mkWorld k (nic s) (mm s)).

(** ** PCI configuration space *)

Definition pci_config_address (b : PciBdf) (offset : Z) : Z :=
  Z.lor (Z.lor (Z.lor (Z.lor 2147483648 (Z.shiftl (bus b) 16)) (Z.shiftl (device b) 11)) (Z.shiftl (function b) 8)) (Z.land offset 252).

Definition pci_read_u32 (b : PciBdf) (offset : Z) : Drv Z :=
  outp 4 PCI_CFG_ADDR_PORT (pci_config_address b offset) ≫= fun _ => inp 4 PCI_CFG_DATA_PORT.

Definition pci_shift (offset : Z) : Z := Z.land offset 2 * 8.

Definition pci_read_u16 (b : PciBdf) (offset : Z) : Drv Z :=
  reg ← pci_read_u32 b (Z.land offset 252); mret (Z.land (Z.shiftr reg (pci_shift offset)) 65535).

Definition pci_write_u16 (b : PciBdf) (offset value : Z) : Drv unit :=
  let aligned := Z.land offset 252 in
  reg ← pci_read_u32 b aligned;
  let shift := pci_shift offset in
  let reg := Z.ldiff reg (Z.shiftl 65535 shift) in
  let reg := Z.lor reg (Z.shiftl value shift) in
  outp 4 PCI_CFG_ADDR_PORT (pci_config_address b aligned) ≫= fun _ => outp 4 PCI_CFG_DATA_PORT reg.

Definition pci_function_exists (b : PciBdf) : Drv bool := v ← pci_read_u16 b 0; mret (negb (v =? 65535)).

Definition classify_net_device (vendor device : Z) : NetKind :=
  if (vendor =? 6900) && ((device =? 4096) || (device =? 4161)) then VirtioNet
  else if (vendor =? 32902) && ((device =? 4110) || (device =? 4111) || (device =? 4307)) then E1000
  else Unknown.

Definition enable_device_command_bits (b : PciBdf) : Drv unit :=
  command ← pci_read_u16 b 4; pci_write_u16 b 4 (Z.lor command (Z.lor (Z.lor 1 2) 4)).

(** One function of a device. *)
Definition probe_function (b : PciBdf) : Drv (list NetDevice) :=
  found ← pci_function_exists b;
  if negb found then mret []
  else
    class_reg ← pci_read_u32 b 8;
    if negb (Z.land (Z.shiftr class_reg 24) 255 =? CLASS_NETWORK) then mret []
    else
      vendor_device ← pci_read_u32 b 0;
      bar ← pci_read_u32 b 16;
      let vendor := Z.land vendor_device 65535 in
      let dev := Z.land (Z.shiftr vendor_device 16) 65535 in
      mret [mkDevice b vendor dev (classify_net_device vendor dev) bar].

(** The results of a loop, one after the other. *)
Fixpoint collect {A B} (l : list A) (f : A -> Drv (list B)) : Drv (list B) :=
  match l with
  | [] => mret []
  | x :: l => found ← f x; rest ← collect l f; mret (found ++ rest)
  end.

Definition upto (n : nat) : list Z := Z.of_nat <$> seq 0 n.

Definition probe_device (b d : Z) : Drv (list NetDevice) :=
  found ← pci_function_exists (mkBdf b d 0);
  if negb found then mret []
  else
    header ← pci_read_u32 (mkBdf b d 0) 12;
    let header_type := Z.land (Z.shiftr header 16) 255 in
    let function_count := if negb (Z.land header_type 128 =? 0) then 8%nat else 1%nat in
    collect (upto function_count) (fun f => probe_function (mkBdf b d f)).

Definition find_network_devices : Drv (list NetDevice) := collect (upto 256) (fun b => collect (upto 32) (probe_device b)).

Definition try_map_mmio_bar0 (dev : NetDevice) : Drv unit :=
  if negb (Z.land (bar0 dev) 1 =? 0) then mret tt
  else
    let mmio_base := Z.land (bar0 dev) 4294967280 in
    if mmio_base =? 0 then mret tt else call (k_mmio mmio_base 4096) ≫= fun _ => mret tt.

Definition virtio_pio_base (bar : Z) : option Z :=
  if Z.land bar 1 =? 0 then None
  else
    let b := Z.land bar 4294967292 in
    if (b =? 0) || (65535 <? b) then None else Some b.
(** ** Memory from the kernel *)

Definition alloc_shared_buf (len : Z) : Drv (option SharedBuf) :=
  let page_count := align_up len PAGE_SIZE / PAGE_SIZE in
  r ← call (k_alloc page_count);
  let '(virt, phys_addrs) := r in
  if is_syscall_error virt then mret None
  else match phys_addrs with [] => mret None | p :: _ => mret (Some (mkBuf virt p len)) end.

(** [Vec::dedup] *)
Fixpoint dedup (l : list Z) : list Z :=
  match l with
  | x :: (y :: _) as l' => if x =? y then dedup l' else x :: dedup l'
  | _ => l
  end.

(** The pages after the first follow each other; an index out of range panics. *)
Fixpoint run_from (sorted : list Z) (start : nat) (p : Z) (steps : list nat) : option bool :=
  match steps with
  | [] => Some true
  | k :: steps =>
      x ← sorted !! (start + k)%nat;
      if x =? wrapping_add64 p (Z.of_nat k * PAGE_SIZE) then run_from sorted start p steps else Some false
  end.

Definition selected (p : Z) (n : nat) : list Z := (fun k => wrapping_add64 p (k * PAGE_SIZE)) <$> upto n.

(** Every page of the pool is unmapped, and freed unless it is kept. *)
Fixpoint release (pool : list (Z * Z)) (keep : list Z) : Drv unit :=
  match pool with
  | [] => mret tt
  | (virt, p) :: pool => call (k_unmap virt 1 (negb (bool_decide (p ∈ keep)))) ≫= fun _ => release pool keep
  end.

Fixpoint try_starts (n : nat) (pool : list (Z * Z)) (sorted : list Z) (starts : list nat) : Drv (option (Z * Z)) :=
  match starts with
  | [] => mret None
  | i :: starts =>
      match sorted !! i with
      | None => undefined
      | Some start_phys =>
          match run_from sorted i start_phys (seq 1 (n - 1)) with
          | None => undefined
          | Some false => try_starts n pool sorted starts
          | Some true =>
              queue_virt ← call (k_map (selected start_phys n));
              if is_syscall_error queue_virt then try_starts n pool sorted starts
              else release pool (selected start_phys n) ≫= fun _ => mret (Some (start_phys, queue_virt))
          end
      end
  end.

(** Pages one at a time, [probes] of them at most, until [n] in a row are there. *)
Fixpoint probe_pages (probes n : nat) (pool : list (Z * Z)) : Drv (option (Z * Z)) :=
  match probes with
  | O => release pool [] ≫= fun _ => mret None
  | S probes =>
      r ← call (k_alloc 1);
      let '(virt, phys_buf) := r in
      if is_syscall_error virt then release pool [] ≫= fun _ => mret None
      else
        let pool := pool ++ [(virt, phys_buf !!! 0%nat)] in
        if (length pool <? n)%nat then probe_pages probes n pool
        else
          let phys_sorted := dedup (merge_sort (≤)%Z pool.*2) in
          r ← try_starts n pool phys_sorted (seq 0 (S (length phys_sorted - n)));
          match r with Some x => mret (Some x) | None => probe_pages probes n pool end
  end.

Definition alloc_phys_contiguous (len : Z) : Drv (option (Z * Z)) := probe_pages 64 (Z.to_nat (align_up len PAGE_SIZE / PAGE_SIZE)) [].

(** ** Queues shared with the card *)

Definition desc_ptr q (idx : Z) : Z := base q + idx * 16.
Definition avail_idx_ptr q : Z := base q + (avail_ring_off q + 2).
Definition avail_ring_entry_ptr q (slot : Z) : Z := base q + (avail_ring_off q + 4 + slot * 2).
Definition used_idx q (m : mem) : Z := from_le_bytes (load m (base q + (used_ring_off q + 2)) 2).
Definition used_elem q (slot : Z) (m : mem) : VringUsedElem :=
  let a := base q + (used_ring_off q + 4 + slot * 8) in mkUsed (from_le_bytes (load m a 4)) (from_le_bytes (load m (a + 4) 4)).

(** The bytes of a [VringDesc]. *)
Definition desc_bytes (addr len flags next : Z) : bytes := to_le_bytes 8 addr ++ to_le_bytes 4 len ++ to_le_bytes 2 flags ++ to_le_bytes 2 next.

Definition set_next_avail q (v : Z) : VirtQueue := mkQueue (index q) (size q) (base q) (phys q) (avail_ring_off q) (used_ring_off q) v (last_used_idx q).
Definition set_last_used q (v : Z) : VirtQueue := mkQueue (index q) (size q) (base q) (phys q) (avail_ring_off q) (used_ring_off q) (next_avail_idx q) v.
Definition incr16 (v : Z) : Z := (v + 1) mod 65536.

Definition setup_virtio_legacy_queue (pio queue_index : Z) : Drv (option VirtQueue) :=
  outp 2 (pio + VIRTIO_PIO_QUEUE_SELECT) queue_index ≫= fun _ =>
  queue_size ← inp 2 (pio + VIRTIO_PIO_QUEUE_SIZE);
  if queue_size =? 0 then mret None
  else
    let len := compute_virtqueue_bytes queue_size in
    r ← alloc_phys_contiguous len;
    match r with
    | None => mret None
    | Some (p, virt) =>
        poke virt (replicate (Z.to_nat (align_up len PAGE_SIZE)) 0) ≫= fun _ =>
        let pfn := Z.shiftr p 12 mod 2 ^ 32 in
        outp 4 (pio + VIRTIO_PIO_QUEUE_ADDR_PFN) pfn ≫= fun _ =>
        programmed ← inp 4 (pio + VIRTIO_PIO_QUEUE_ADDR_PFN);
        if negb (programmed =? pfn) then mret None
        else
          let avail_off := queue_size * 16 in
          mret (Some (mkQueue queue_index queue_size virt p avail_off (align_up (avail_off + 6 + queue_size * 2) PAGE_SIZE) 0 0))
    end.

(** A queue of size zero is a division by zero. *)
Definition enqueue_desc_to_avail q (desc_id : Z) : Drv VirtQueue :=
  if size q =? 0 then undefined
  else
    poke (avail_ring_entry_ptr q (next_avail_idx q mod size q)) (to_le_bytes 2 desc_id) ≫= fun _ =>
    let q := set_next_avail q (incr16 (next_avail_idx q)) in
    poke (avail_idx_ptr q) (to_le_bytes 2 (next_avail_idx q)) ≫= fun _ => mret q.

Definition set_rxq v rt : VirtioNetRuntime :=
  mkRt (rt_base rt) (mac rt) v (txq rt) (rx_bufs rt) (tx_buf rt) (tx_inflight rt) (arp_sent rt) (gateway_mac rt) (ping_sent rt) (ping_reply_seen rt) (ping_pending rt) (ticks rt) (listeners rt).
Definition set_txq v rt : VirtioNetRuntime :=
  mkRt (rt_base rt) (mac rt) (rxq rt) v (rx_bufs rt) (tx_buf rt) (tx_inflight rt) (arp_sent rt) (gateway_mac rt) (ping_sent rt) (ping_reply_seen rt) (ping_pending rt) (ticks rt) (listeners rt).
Definition set_rx_bufs v rt : VirtioNetRuntime :=
  mkRt (rt_base rt) (mac rt) (rxq rt) (txq rt) v (tx_buf rt) (tx_inflight rt) (arp_sent rt) (gateway_mac rt) (ping_sent rt) (ping_reply_seen rt) (ping_pending rt) (ticks rt) (listeners rt).
Definition set_tx_inflight v rt : VirtioNetRuntime :=
  mkRt (rt_base rt) (mac rt) (rxq rt) (txq rt) (rx_bufs rt) (tx_buf rt) v (arp_sent rt) (gateway_mac rt) (ping_sent rt) (ping_reply_seen rt) (ping_pending rt) (ticks rt) (listeners rt).
Definition set_arp_sent v rt : VirtioNetRuntime :=
  mkRt (rt_base rt) (mac rt) (rxq rt) (txq rt) (rx_bufs rt) (tx_buf rt) (tx_inflight rt) v (gateway_mac rt) (ping_sent rt) (ping_reply_seen rt) (ping_pending rt) (ticks rt) (listeners rt).
Definition set_gateway_mac v rt : VirtioNetRuntime :=
  mkRt (rt_base rt) (mac rt) (rxq rt) (txq rt) (rx_bufs rt) (tx_buf rt) (tx_inflight rt) (arp_sent rt) v (ping_sent rt) (ping_reply_seen rt) (ping_pending rt) (ticks rt) (listeners rt).
Definition set_ping_sent v rt : VirtioNetRuntime :=
  mkRt (rt_base rt) (mac rt) (rxq rt) (txq rt) (rx_bufs rt) (tx_buf rt) (tx_inflight rt) (arp_sent rt) (gateway_mac rt) v (ping_reply_seen rt) (ping_pending rt) (ticks rt) (listeners rt).
Definition set_ping_reply_seen v rt : VirtioNetRuntime :=
  mkRt (rt_base rt) (mac rt) (rxq rt) (txq rt) (rx_bufs rt) (tx_buf rt) (tx_inflight rt) (arp_sent rt) (gateway_mac rt) (ping_sent rt) v (ping_pending rt) (ticks rt) (listeners rt).
Definition set_ping_pending v rt : VirtioNetRuntime :=
  mkRt (rt_base rt) (mac rt) (rxq rt) (txq rt) (rx_bufs rt) (tx_buf rt) (tx_inflight rt) (arp_sent rt) (gateway_mac rt) (ping_sent rt) (ping_reply_seen rt) v (ticks rt) (listeners rt).
Definition set_ticks v rt : VirtioNetRuntime :=
  mkRt (rt_base rt) (mac rt) (rxq rt) (txq rt) (rx_bufs rt) (tx_buf rt) (tx_inflight rt) (arp_sent rt) (gateway_mac rt) (ping_sent rt) (ping_reply_seen rt) (ping_pending rt) v (listeners rt).

Fixpoint populate_from (ids : list Z) rt : Drv (bool * VirtioNetRuntime) :=
  match ids with
  | [] => mret (true, rt)
  | desc_id :: ids =>
      b ← alloc_shared_buf RX_BUFFER_LEN;
      match b with
      | None => mret (false, rt)
      | Some buf =>
          let rt := set_rx_bufs (rx_bufs rt ++ [buf]) rt in
          poke (desc_ptr (rxq rt) desc_id) (desc_bytes (buf_phys buf) (buf_len buf) VRING_DESC_F_WRITE 0) ≫= fun _ =>
          q ← enqueue_desc_to_avail (rxq rt) desc_id;
          populate_from ids (set_rxq q rt)
      end
  end.

Definition populate_rx_ring rt : Drv (bool * VirtioNetRuntime) :=
  r ← populate_from (upto (Z.to_nat (Z.min RX_BUFFER_COUNT (size (rxq rt))))) rt;
  let '(ok, rt) := r in
  if negb ok then mret (false, rt)
  else outp 2 (rt_base rt + VIRTIO_PIO_QUEUE_NOTIFY) VIRTIO_QUEUE_RX ≫= fun _ => mret (true, rt).

(** ** Sending *)

Definition queue_tx_frame rt (frame : bytes) : Drv (bool * VirtioNetRuntime) :=
  if tx_inflight rt then mret (false, rt)
  else
    let wire_frame_len := Z.max (blen frame) 60 in
    let needed := VIRTIO_NET_HDR_LEN + wire_frame_len in
    if buf_len (tx_buf rt) <? needed then mret (false, rt)
    else
      poke (buf_virt (tx_buf rt)) (put (replicate (Z.to_nat needed) 0) 10 frame) ≫= fun _ =>
      poke (desc_ptr (txq rt) 0) (desc_bytes (buf_phys (tx_buf rt)) needed 0 0) ≫= fun _ =>
      q ← enqueue_desc_to_avail (txq rt) 0;
      outp 2 (rt_base rt + VIRTIO_PIO_QUEUE_NOTIFY) VIRTIO_QUEUE_TX ≫= fun _ => mret (true, set_tx_inflight true (set_txq q rt)).

Definition arp_request (m : bytes) : bytes :=
  let f := replicate 42 0 in
  let f := put f 0 (replicate 6 255) in
  let f := put f 6 m in
  let f := write_be16 f 12 ETH_TYPE_ARP in
  let f := write_be16 f 14 1 in
  let f := write_be16 f 16 ETH_TYPE_IPV4 in
  let f := put f 18 [6] in
  let f := put f 19 [4] in
  let f := write_be16 f 20 ARP_OP_REQUEST in
  let f := put f 22 m in
  let f := put f 28 LOCAL_IP in
  let f := put f 32 (replicate 6 0) in
  put f 38 GATEWAY_IP.

Definition send_arp_request rt : Drv VirtioNetRuntime :=
  r ← queue_tx_frame rt (arp_request (mac rt));
  let '(ok, rt) := r in mret (if (ok : bool) then set_arp_sent true rt else rt).

(** "mochios-net" *)
Definition PAYLOAD : bytes := [109; 111; 99; 104; 105; 111; 115; 45; 110; 101; 116].

Definition ip_header : bytes :=
  let ip := replicate 20 0 in
  let ip := put ip 0 [69] in
  let ip := write_be16 ip 2 (20 + 8 + blen PAYLOAD) in
  let ip := write_be16 ip 4 4660 in
  let ip := put ip 8 [64] in
  let ip := put ip 9 [IP_PROTO_ICMP] in
  let ip := put ip 12 LOCAL_IP in
  let ip := put ip 16 GATEWAY_IP in
  write_be16 ip 10 (checksum16 ip).

Definition icmp_message : bytes :=
  let icmp := replicate (8 + length PAYLOAD) 0 in
  let icmp := put icmp 0 [ICMP_ECHO_REQUEST] in
  let icmp := write_be16 icmp 4 ICMP_ECHO_ID in
  let icmp := write_be16 icmp 6 ICMP_ECHO_SEQ in
  let icmp := put icmp 8 PAYLOAD in
  write_be16 icmp 2 (checksum16 icmp).

Definition icmp_echo (m dst_mac : bytes) : bytes :=
  let f := replicate 128 0 in
  let f := put f 0 dst_mac in
  let f := put f 6 m in
  let f := write_be16 f 12 ETH_TYPE_IPV4 in
  let f := put f 14 ip_header in
  let f := put f 34 icmp_message in
  take (14 + (20 + 8 + length PAYLOAD)) f.

Definition send_icmp_echo rt (dst_mac : bytes) : Drv VirtioNetRuntime :=
  r ← queue_tx_frame rt (icmp_echo (mac rt) dst_mac);
  let '(ok, rt) := r in mret (if (ok : bool) then set_ping_sent true rt else rt).

Definition try_send_pending_icmp rt (dst_mac : bytes) : Drv VirtioNetRuntime :=
  if tx_inflight rt then mret (set_ping_pending true rt)
  else rt ← send_icmp_echo rt dst_mac; mret (set_ping_pending (negb (tx_inflight rt)) rt).

(** ** Receiving *)

Definition slice (b : bytes) (off n : nat) : bytes := take n (drop off b).

Definition handle_arp rt (frame : bytes) : Drv VirtioNetRuntime :=
  if blen frame <? 42 then mret rt
  else
    let arp := slice frame 14 28 in
    let op := from_be16 (slice arp 6 2) in
    let sender_mac := slice arp 8 6 in
    let sender_ip := slice arp 14 4 in
    let target_ip := slice arp 24 4 in
    if (op =? ARP_OP_REPLY) && bool_decide (sender_ip = GATEWAY_IP) && bool_decide (target_ip = LOCAL_IP) then
      let rt := set_ping_pending true (set_gateway_mac (Some sender_mac) rt) in
      if tx_inflight rt then mret (set_ping_pending true rt)
      else
        rt ← send_icmp_echo rt sender_mac;
        mret (if tx_inflight rt then set_ping_pending false rt else rt)
    else mret rt.

Definition handle_ipv4 rt (frame : bytes) : VirtioNetRuntime :=
  if blen frame <? 14 + 20 then rt
  else
    let ip := drop 14 frame in
    let ip0 := ip !!! 0%nat in
    if negb (Z.shiftr ip0 4 =? 4) then rt
    else
      let ihl := Z.land ip0 15 * 4 in
      if (ihl <? 20) || (blen ip <? ihl + 8) then rt
      else if negb (ip !!! 9%nat =? IP_PROTO_ICMP) then rt
      else if negb (bool_decide (slice ip 12 4 = GATEWAY_IP)) || negb (bool_decide (slice ip 16 4 = LOCAL_IP)) then rt
      else
        let icmp := drop (Z.to_nat ihl) ip in
        if negb (icmp !!! 0%nat =? ICMP_ECHO_REPLY) then rt
        else if blen icmp <? 8 then rt
        else
          let id := from_be16 (slice icmp 4 2) in
          let seq := from_be16 (slice icmp 6 2) in
          if (id =? ICMP_ECHO_ID) && (seq =? ICMP_ECHO_SEQ) then set_ping_reply_seen true rt else rt.

Definition handle_rx_frame rt (frame : bytes) : Drv VirtioNetRuntime :=
  if blen frame <? 14 then mret rt
  else
    let eth_type := from_be16 (slice frame 12 2) in
    if eth_type =? ETH_TYPE_ARP then handle_arp rt frame
    else if eth_type =? ETH_TYPE_IPV4 then mret (handle_ipv4 rt frame)
    else mret rt.

(** [n]: what is left of the budget. *)
Fixpoint poll_tx_loop (n : nat) (used : Z) rt : Drv VirtioNetRuntime :=
  match n with
  | O => mret rt
  | S n =>
      if last_used_idx (txq rt) =? used then mret rt
      else if size (txq rt) =? 0 then undefined
      else poll_tx_loop n used (set_tx_inflight false (set_txq (set_last_used (txq rt) (incr16 (last_used_idx (txq rt)))) rt))
  end.

Definition poll_tx rt : Drv VirtioNetRuntime := used ← peek (used_idx (txq rt)); poll_tx_loop TX_POLL_BUDGET used rt.

(** One received frame: the handler, and the buffer goes back to the card. *)
Definition receive rt (elem : VringUsedElem) : Drv (bool * VirtioNetRuntime) :=
  match rx_bufs rt !! Z.to_nat (used_id elem) with
  | Some buf =>
      (if VIRTIO_NET_HDR_LEN <? used_len elem then
         frame ← peek (fun m => load m (buf_virt buf + VIRTIO_NET_HDR_LEN) (Z.to_nat (used_len elem - VIRTIO_NET_HDR_LEN)));
         handle_rx_frame rt frame
       else mret rt) ≫= fun rt =>
      q ← enqueue_desc_to_avail (rxq rt) (used_id elem mod 65536);
      mret (true, set_rxq q rt)
  | None => mret (false, rt)
  end.

Fixpoint poll_rx_loop (n : nat) (used : Z) (recycled : bool) rt : Drv (bool * VirtioNetRuntime) :=
  match n with
  | O => mret (recycled, rt)
  | S n =>
      if last_used_idx (rxq rt) =? used then mret (recycled, rt)
      else if size (rxq rt) =? 0 then undefined
      else
        elem ← peek (used_elem (rxq rt) (last_used_idx (rxq rt) mod size (rxq rt)));
        r ← receive rt elem;
        let '(back, rt) := r in
        poll_rx_loop n used (recycled || back) (set_rxq (set_last_used (rxq rt) (incr16 (last_used_idx (rxq rt)))) rt)
  end.

Definition poll_rx rt : Drv VirtioNetRuntime :=
  used ← peek (used_idx (rxq rt));
  r ← poll_rx_loop RX_POLL_BUDGET used false rt;
  let '(recycled, rt) := r in
  if (recycled : bool) then outp 2 (rt_base rt + VIRTIO_PIO_QUEUE_NOTIFY) VIRTIO_QUEUE_RX ≫= fun _ => mret rt else mret rt.

(** ** The loop *)

Definition drive_network rt : Drv VirtioNetRuntime :=
  if ping_reply_seen rt then mret rt
  else if negb (arp_sent rt) then send_arp_request rt
  else
    match gateway_mac rt with
    | Some gw_mac =>
        if tx_inflight rt then mret rt
        else if ping_pending rt then try_send_pending_icmp rt gw_mac
        else if negb (ping_sent rt) || (ticks rt mod 100 =? 0) then try_send_pending_icmp rt gw_mac
        else mret rt
    | None => if ticks rt mod 100 =? 0 then send_arp_request rt else mret rt
    end.

(** One round of [run_virtio_loop]. *)
Definition round rt : Drv VirtioNetRuntime :=
  rt ← poll_tx (set_ticks (wrapping_add64 (ticks rt) 1) rt);
  rt ← poll_rx rt;
  drive_network rt.

(** ** Start *)

Fixpoint read_mac (pio : Z) (l : list Z) : Drv bytes :=
  match l with
  | [] => mret []
  | i :: l => b ← inp 1 (pio + VIRTIO_PIO_DEVICE_CONFIG + i); rest ← read_mac pio l; mret (b :: rest)
  end.

Definition start_queues (pio : Z) (m : bytes) : Drv (option VirtioNetRuntime) :=
  r ← setup_virtio_legacy_queue pio VIRTIO_QUEUE_RX;
  match r with
  | None => mret None
  | Some rx =>
      r ← setup_virtio_legacy_queue pio VIRTIO_QUEUE_TX;
      match r with
      | None => mret None
      | Some tx =>
          r ← alloc_shared_buf PAGE_SIZE;
          match r with
          | None => mret None
          | Some b =>
              r ← populate_rx_ring (mkRt pio m rx tx [] b false false None false false false 0 []);
              let '(ok, rt) := r in mret (if (ok : bool) then Some rt else None)
          end
      end
  end.

Definition virtio_legacy_init_pio (dev : NetDevice) : Drv (option VirtioNetRuntime) :=
  match virtio_pio_base (bar0 dev) with
  | None => mret None
  | Some pio =>
      device_features ← inp 4 (pio + VIRTIO_PIO_DEVICE_FEATURES);
      let guest_features := Z.land device_features (Z.lor (Z.shiftl 1 5) (Z.shiftl 1 16)) in
      outp 1 (pio + VIRTIO_PIO_DEVICE_STATUS) 0 ≫= fun _ =>
      outp 1 (pio + VIRTIO_PIO_DEVICE_STATUS) (Z.lor 1 2) ≫= fun _ =>
      outp 4 (pio + VIRTIO_PIO_GUEST_FEATURES) guest_features ≫= fun _ =>
      outp 1 (pio + VIRTIO_PIO_DEVICE_STATUS) (Z.lor (Z.lor 1 2) 4) ≫= fun _ =>
      inp 1 (pio + VIRTIO_PIO_DEVICE_STATUS) ≫= fun _ =>
      m ← (if negb (Z.land guest_features (Z.shiftl 1 5) =? 0) then read_mac pio (upto 6) else mret (replicate 6 0));
      inp 1 (pio + VIRTIO_PIO_ISR_STATUS) ≫= fun _ =>
      start_queues pio m
  end.

(** The result is the state with which the card's loop starts, which does not end. *)
Definition init_device (dev : NetDevice) : Drv (option VirtioNetRuntime) :=
  enable_device_command_bits (bdf dev) ≫= fun _ =>
  match kind dev with
  | VirtioNet => r ← virtio_legacy_init_pio dev; try_map_mmio_bar0 dev ≫= fun _ => mret r
  | E1000 | Unknown => try_map_mmio_bar0 dev ≫= fun _ => mret None
  end.

Fixpoint init_devices (devices : list NetDevice) : Drv (option VirtioNetRuntime) :=
  match devices with
  | [] => mret None
  | dev :: devices => r ← init_device dev; match r with Some rt => mret (Some rt) | None => init_devices devices end
  end.

(** [None]: no card to serve, the driver sleeps for ever. *)
Definition main : Drv (option VirtioNetRuntime) := find_network_devices ≫= init_devices.
End driver.
End NetDriver.
