(* ===== verification/NetProps.v ===== *)
(** What the network driver guarantees: checksums that verify, rings that are never
    overrun, and a transmit buffer that the driver and the card never use at the same
    time, whatever the card does in between. *)

From Stdlib Require Import ZArith Lia.
From stdpp Require Import base list option numbers sorting relations.
From S2P Require Import Prelude State Types UserMem Bytes Mem PortIo NetDriver.
Import Mem Bytes NetDriver.

Local Open Scope Z_scope.
Local Open Scope kernel_scope.

Module NetProps.

(** ** Checksums *)

(** The sum of the words, without a limit. *)
Fixpoint total (data : bytes) : Z :=
  match data with
  | a :: b :: data => a * 256 + b + total data
  | [a] => a * 256
  | [] => 0
  end.

(** Induction over the words. *)
Lemma words_ind (P : bytes -> Prop) : P [] -> (forall a, P [a]) -> (forall a b data, P data -> P (a :: b :: data)) -> forall data, P data.
Proof.
  intros H0 H1 H2 data. enough (P data /\ forall a, P (a :: data)) as [H _] by exact H.
  induction data as [|b data [IH1 IH2]]; [by split|]. split; [apply IH2|]. intros a. by apply H2.
Qed.

Lemma total_bound data : Forall is_byte data -> 0 <= total data <= 65535 * ((blen data + 1) / 2).
Proof.
  unfold is_byte, blen. induction data as [|a|a b data IH] using words_ind; intros H; cbn [total length].
  - done.
  - apply list.Forall_cons in H as [Ha _]. change ((Z.of_nat 1 + 1) / 2) with 1. lia.
  - apply list.Forall_cons in H as [Ha H]. apply list.Forall_cons in H as [Hb H]. specialize (IH H).
    replace ((Z.of_nat (S (S (length data))) + 1) / 2) with ((Z.of_nat (length data) + 1) / 2 + 1); [lia|].
    replace (Z.of_nat (S (S (length data))) + 1) with (Z.of_nat (length data) + 1 + 1 * 2) by lia. by rewrite Z.div_add by lia.
Qed.

Lemma sum_words_total data s : Forall is_byte data -> 0 <= s -> s + total data < 2 ^ 32 -> sum_words s data = s + total data.
Proof.
  unfold is_byte. revert s. induction data as [|a|a b data IH] using words_ind; intros s H Hs Hb; cbn [total sum_words] in *.
  - lia.
  - apply list.Forall_cons in H as [Ha _]. rewrite Z.shiftl_mul_pow2 by lia. change (2 ^ 8) with 256. apply Z.mod_small. lia.
  - apply list.Forall_cons in H as [Ha H]. apply list.Forall_cons in H as [Hb' H]. pose proof (total_bound data H) as Ht. unfold blen in Ht.
    rewrite Z.mod_small by lia. rewrite IH; [lia|done|lia|lia].
Qed.

(** A round keeps the value modulo 65535, and zero apart from 65535. *)
Lemma fold_round s : 0 <= s -> let r := Z.land s 65535 + Z.shiftr s 16 in 0 <= r /\ (s - r) mod 65535 = 0 /\ (0 < s -> 0 < r) /\ (s < 2 ^ 32 -> r < 131071) /\ (s < 131071 -> r <= 65535).
Proof.
  intros Hs r. unfold r. assert (Z.land s 65535 = s mod 65536) as -> by (change 65535 with (Z.ones 16); by rewrite Z.land_ones by lia).
  rewrite Z.shiftr_div_pow2 by lia. change (2 ^ 16) with 65536.
  pose proof (Z.div_mod s 65536 ltac:(lia)) as E. pose proof (Z.mod_pos_bound s 65536 ltac:(lia)). pose proof (Z.div_pos s 65536 ltac:(lia) ltac:(lia)).
  split; [lia|]. split; [|split; [lia|split]].
  - replace (s - (s mod 65536 + s / 65536)) with (s / 65536 * 65535) by lia. apply Z_mod_mult.
  - intros H1. change (2 ^ 32) with (65536 * 65536) in H1. pose proof (Z.div_lt_upper_bound s 65536 65536 ltac:(lia) ltac:(lia)). lia.
  - intros H1. assert (s / 65536 <= 1) by (pose proof (Z.div_lt_upper_bound s 65536 2 ltac:(lia) ltac:(lia)); lia). lia.
Qed.

(** Two rounds are enough for a 32-bit sum. *)
Lemma fold_carries_spec s : 0 <= s < 2 ^ 32 ->
  let r := fold_carries 3 s in 0 <= r <= 65535 /\ (s - r) mod 65535 = 0 /\ (0 < s -> 0 < r) /\ forall n, (2 <= n)%nat -> fold_carries n s = r.
Proof.
  intros Hs r. assert (forall x, 0 <= x -> Z.shiftr x 16 = 0 <-> x <= 65535) as Hsh.
  { intros x Hx. rewrite Z.shiftr_div_pow2 by lia. change (2 ^ 16) with 65536. split; [intros H|intros H; apply Z.div_small; lia].
    pose proof (Z.div_mod x 65536 ltac:(lia)). pose proof (Z.mod_pos_bound x 65536 ltac:(lia)). lia. }
  assert (forall x n, 0 <= x <= 65535 -> fold_carries n x = x) as Hid.
  { intros x n Hx. destruct n; [done|]. cbn. by rewrite (proj2 (Z.eqb_eq _ _)) by (apply Hsh; lia). }
  destruct (fold_round s ltac:(lia)) as (A1 & A2 & A3 & A4 & _). set (x1 := Z.land s 65535 + Z.shiftr s 16) in *.
  destruct (fold_round x1 ltac:(lia)) as (B1 & B2 & B3 & _ & B5). set (x2 := Z.land x1 65535 + Z.shiftr x1 16) in *. specialize (A4 ltac:(lia)). specialize (B5 ltac:(lia)).
  assert (forall n, (2 <= n)%nat -> fold_carries n s = if decide (s <= 65535) then s else if decide (x1 <= 65535) then x1 else x2) as E.
  { intros [|[|n]] Hn; [lia|lia|]. cbn [fold_carries]. destruct (decide (s <= 65535)) as [H|H]; [by rewrite (proj2 (Z.eqb_eq _ _)) by (apply Hsh; lia)|].
    rewrite (proj2 (Z.eqb_neq _ _)) by (rewrite Hsh; lia). fold x1. destruct (decide (x1 <= 65535)) as [H'|H']; [by rewrite (proj2 (Z.eqb_eq _ _)) by (apply Hsh; lia)|].
    rewrite (proj2 (Z.eqb_neq _ _)) by (rewrite Hsh; lia). fold x2. apply Hid. lia. }
  unfold r. rewrite (E 3%nat) by lia. split; [|split; [|split; [|intros n Hn; by rewrite E]]].
  - destruct (decide _); [lia|]. destruct (decide _); lia.
  - destruct (decide _); [by rewrite Z.sub_diag|]. destruct (decide _); [done|].
    replace (s - x2) with ((s - x1) + (x1 - x2)) by lia. rewrite Z.add_mod, A2, B2 by lia. done.
  - destruct (decide _); [done|]. destruct (decide _); lia.
Qed.

(** The checksum of a message is the complement of the sum of its words. *)
Lemma checksum_spec data : Forall is_byte data -> blen data <= 131072 ->
  0 <= checksum16 data <= 65535 /\ (total data + checksum16 data) mod 65535 = 0 /\ (0 < total data -> checksum16 data < 65535).
Proof.
  intros Hb Hl. pose proof (total_bound data Hb) as Ht.
  assert ((blen data + 1) / 2 <= 65536) as Hd by (apply Z.lt_succ_r, Z.div_lt_upper_bound; lia).
  unfold checksum16. rewrite sum_words_total by (try done; lia). rewrite Z.add_0_l.
  destruct (fold_carries_spec (total data)) as (H1 & H2 & H3 & _); [lia|]. rewrite Z.mod_small by (change (2 ^ 16) with 65536; lia).
  split; [lia|]. split; [|lia]. replace (total data + (65535 - fold_carries 3 (total data))) with (total data - fold_carries 3 (total data) + 1 * 65535) by lia.
  by rewrite Z_mod_plus_full.
Qed.

(** The word at an even offset, replaced. *)
Lemma total_put k data a b : (2 * k + 2 <= length data)%nat ->
  total (put data (2 * k) [a; b]) = total data - from_be16 (take 2 (drop (2 * k) data)) + (a * 256 + b).
Proof.
  revert data. induction k as [|k IH]; intros data Hl.
  - destruct data as [|x [|y data]]; cbn in Hl; [lia..|]. unfold put, from_be16. cbn. rewrite drop_0. lia.
  - destruct data as [|x [|y data]]; cbn [length] in Hl; [lia..|]. replace (2 * S k)%nat with (S (S (2 * k))) by lia.
    change (put (x :: y :: data) (S (S (2 * k))) [a; b]) with (x :: y :: put data (2 * k) [a; b]).
    change (drop (S (S (2 * k))) (x :: y :: data)) with (drop (2 * k) data). cbn [total]. rewrite IH by lia. lia.
Qed.

(** A message that carries its checksum verifies.  For a message of at most 131072
    bytes with zeroes at an even offset, writing [checksum16] of the message there, in
    network order, gives a message whose own [checksum16] is zero, which is the test of a
    receiver; two rounds of carries are always enough. *)
Theorem checksum_verifies data k :
  Forall is_byte data -> blen data <= 131072 -> (2 * k + 2 <= length data)%nat -> take 2 (drop (2 * k) data) = [0; 0] ->
  checksum16 (write_be16 data (2 * k) (checksum16 data)) = 0.
Proof.
  intros Hb Hl Hk Hz. destruct (checksum_spec data Hb Hl) as (H1 & H2 & _). set (c := checksum16 data) in *.
  unfold write_be16, be16. rewrite Z.shiftr_div_pow2 by lia. change (2 ^ 8) with 256.
  assert (c / 256 mod 256 = c / 256) as -> by (apply Z.mod_small; split; [apply Z.div_pos; lia|apply Z.div_lt_upper_bound; lia]).
  set (data' := put data (2 * k) [c / 256; c mod 256]).
  assert (length data' = length data) as Hl' by (apply put_length; cbn; lia).
  assert (Forall is_byte data') as Hb'.
  { unfold data', put. apply Forall_app. split; [by apply Forall_take|]. apply Forall_app. split; [|by apply Forall_drop].
    apply list.Forall_cons_2; [split; [apply Z.div_pos; lia|apply Z.div_lt_upper_bound; lia]|]. apply list.Forall_singleton, Z.mod_pos_bound. lia. }
  assert (total data' = total data + c) as Ht.
  { unfold data'. rewrite total_put, Hz by done. change (from_be16 [0; 0]) with 0. pose proof (Z.div_mod c 256 ltac:(lia)). lia. }
  destruct (checksum_spec data' Hb') as (G1 & G2 & G3); [unfold blen in *; lia|]. rewrite Ht in G2, G3. pose proof (total_bound data Hb) as Hnn.
  assert (checksum16 data' mod 65535 = 0) as G4.
  { replace (checksum16 data') with (total data + c + checksum16 data' - (total data + c)) by lia. rewrite Zminus_mod, G2, H2. done. }
  assert (0 < total data + c) as Hpos.
  { destruct (decide (0 < total data)); [lia|]. assert (total data = 0) as E0 by lia. rewrite E0, Z.add_0_l in H2. destruct (decide (c = 0)) as [E|]; [|lia].
    exfalso. unfold c, checksum16 in E. rewrite sum_words_total, E0 in E by (try done; lia). vm_compute in E. done. }
  specialize (G3 Hpos). apply Z.mod_divide in G4 as [z Hz']; [|lia]. lia.
Qed.

(** The header of a packet. *)
Lemma checksum_verifies_witness : checksum16 (write_be16 (put ip_header 10 [0; 0]) (2 * 5) (checksum16 (put ip_header 10 [0; 0]))) = 0.
Proof.
  apply (checksum_verifies (put ip_header 10 [0; 0]) 5); [|vm_compute; congruence|vm_compute; lia|vm_compute; reflexivity].
  apply (bool_decide_unpack (Forall is_byte _)). vm_compute. exact I.
Defined.

(** ** Rings *)

Definition read16 (m : mem) (a : Z) : Z := from_le_bytes (load m a 2).
Definition avail_idx (q : VirtQueue) (m : mem) : Z := read16 m (avail_idx_ptr q).

(** How far one 16-bit index is ahead of another. *)
Definition dist (a b : Z) : Z := (a - b) mod 65536.

Lemma dist_range a b : 0 <= dist a b < 65536.
Proof. apply Z.mod_pos_bound. lia. Qed.

Lemma dist_trans a b c : dist a b + dist b c < 65536 -> dist a c = dist a b + dist b c.
Proof.
  intros H. unfold dist in *. replace (a - c) with ((a - b) + (b - c)) by lia. rewrite Z.add_mod by lia. apply Z.mod_small.
  pose proof (Z.mod_pos_bound (a - b) 65536 ltac:(lia)). pose proof (Z.mod_pos_bound (b - c) 65536 ltac:(lia)). lia.
Qed.

Lemma dist_sub a b c : dist b c <= dist a c -> dist a b = dist a c - dist b c.
Proof.
  intros H. unfold dist in *. replace (a - b) with ((a - c) - (b - c)) by lia. rewrite Zminus_mod. apply Z.mod_small.
  pose proof (Z.mod_pos_bound (a - c) 65536 ltac:(lia)). pose proof (Z.mod_pos_bound (b - c) 65536 ltac:(lia)). lia.
Qed.

Lemma dist_incr a b : dist a b < 65535 -> dist (incr16 a) b = dist a b + 1.
Proof.
  intros H. unfold incr16, dist in *. rewrite Zminus_mod_idemp_l. replace (a + 1 - b) with ((a - b) + 1) by lia. rewrite <-Zplus_mod_idemp_l.
  pose proof (Z.mod_pos_bound (a - b) 65536 ltac:(lia)). apply Z.mod_small. lia.
Qed.

Lemma dist_incr_r a b : 0 < dist a b -> dist a (incr16 b) = dist a b - 1.
Proof.
  intros H. unfold incr16, dist in *. rewrite Zminus_mod_idemp_r. replace (a - (b + 1)) with ((a - b) - 1) by lia. rewrite <-Zminus_mod_idemp_l.
  pose proof (Z.mod_pos_bound (a - b) 65536 ltac:(lia)). apply Z.mod_small. lia.
Qed.

Lemma dist_self a : dist a a = 0.
Proof. unfold dist. by rewrite Z.sub_diag. Qed.

Lemma dist_zero a b c : dist a b = 0 -> dist c a = dist c b /\ dist a c = dist b c.
Proof.
  unfold dist. intros H. split.
  - replace (c - b) with ((c - a) + (a - b)) by lia. rewrite Z.add_mod, H, Z.add_0_r, Z.mod_mod by lia. done.
  - replace (a - c) with ((a - b) + (b - c)) by lia. rewrite Z.add_mod, H, Z.add_0_l, Z.mod_mod by lia. done.
Qed.

Record queue_wf (q : VirtQueue) : Prop := {
  qw_size : 0 < size q <= 32768;
  qw_avail : avail_ring_off q = 16 * size q;
  qw_used : avail_ring_off q + 6 + 2 * size q <= used_ring_off q;
  qw_next : 0 <= next_avail_idx q < 65536;
  qw_last : 0 <= last_used_idx q < 65536;
}.

(** Where a queue ends. *)
Definition queue_len (q : VirtQueue) : Z := used_ring_off q + 6 + 8 * size q.

Definition apart (a n b k : Z) : Prop := a + n <= b \/ b + k <= a.

(** The two queues and the transmit buffer do not overlap. *)
Record layout (rt : VirtioNetRuntime) : Prop := {
  ly_queues : apart (base (rxq rt)) (queue_len (rxq rt)) (base (txq rt)) (queue_len (txq rt));
  ly_tx : apart (buf_virt (tx_buf rt)) (buf_len (tx_buf rt)) (base (txq rt)) (queue_len (txq rt));
  ly_rx : apart (buf_virt (tx_buf rt)) (buf_len (tx_buf rt)) (base (rxq rt)) (queue_len (rxq rt));
}.

(** The memory did not change between two addresses. *)
Definition kept (a n : Z) (m m' : mem) : Prop := forall z, a <= z < a + n -> m' z = m z.

Lemma kept_read16 a n m m' w : kept a n m m' -> a <= w -> w + 2 <= a + n -> read16 m' w = read16 m w.
Proof. intros H H1 H2. unfold read16. f_equal. apply load_ext. intros i Hi. apply H. lia. Qed.

Lemma kept_used q m m' : queue_wf q -> kept (base q + used_ring_off q) (6 + 8 * size q) m m' ->
  used_idx q m' = used_idx q m /\ forall slot, 0 <= slot < size q -> used_elem q slot m' = used_elem q slot m.
Proof.
  intros Hq H. split; [apply (kept_read16 _ _ m m' _ H); pose proof (qw_size q Hq); lia|].
  intros slot Hs. unfold used_elem. f_equal; f_equal; apply load_ext; intros i Hi; apply H; lia.
Qed.

Lemma mem_kept_trans a n m1 m2 m3 : kept a n m1 m2 -> kept a n m2 m3 -> kept a n m1 m3.
Proof. intros H1 H2 z Hz. by rewrite H2, H1. Qed.

Lemma kept_store a n m b bs : apart a n b (Z.of_nat (length bs)) -> kept a n m (store m b bs).
Proof. intros H z Hz. apply store_out. unfold apart in H. lia. Qed.

Lemma read16_store m a v : read16 (store m a (to_le_bytes 2 v)) a = v mod 65536.
Proof. unfold read16. rewrite <-(to_le_bytes_length 2 v) at 2. by rewrite load_store_same, from_to_le_bytes. Qed.

Section rings.
Context {K : Type} `{!PageCalls K} {D : Type} `{!Ports D}.
Implicit Types s : World (K := K) (D := D).
Implicit Types rt : VirtioNetRuntime.

(** A descriptor enters a ring: only the ring's slot and index are written. *)
Lemma desc_enqueue_spec q id s :
  queue_wf q ->
  exists s', enqueue_desc_to_avail q id s = Some (set_next_avail q (incr16 (next_avail_idx q)), s') /\ kern s' = kern s /\ nic s' = nic s /\
    avail_idx q (mm s') = incr16 (next_avail_idx q) /\ read16 (mm s') (avail_ring_entry_ptr q (next_avail_idx q mod size q)) = id mod 65536 /\
    forall a n, apart a n (base q + avail_ring_off q) (used_ring_off q - avail_ring_off q) -> kept a n (mm s) (mm s').
Proof.
  intros Hq. unfold enqueue_desc_to_avail. rewrite (proj2 (Z.eqb_neq (size q) 0)) by (pose proof (qw_size q Hq); lia).
  pose proof (Z.mod_pos_bound (next_avail_idx q) (size q) ltac:(pose proof (qw_size q Hq); lia)) as Hs. pose proof (qw_used q Hq) as Hu.
  set (slot := next_avail_idx q mod size q) in *. eexists. split; [reflexivity|]. cbn [kern nic mm]. split; [done|]. split; [done|]. split; [|split].
  - unfold avail_idx, avail_idx_ptr, set_next_avail. cbn. rewrite read16_store. unfold incr16. by rewrite Z.mod_mod by lia.
  - rewrite (kept_read16 (avail_ring_entry_ptr q slot) 2 (store (mm s) (avail_ring_entry_ptr q slot) (to_le_bytes 2 id))); [apply read16_store| |lia|lia].
    apply kept_store. rewrite to_le_bytes_length. unfold apart, avail_ring_entry_ptr, avail_idx_ptr, set_next_avail. cbn. lia.
  - intros a n Ha. unfold apart in Ha. eapply mem_kept_trans; apply kept_store; rewrite to_le_bytes_length; unfold apart, avail_ring_entry_ptr, avail_idx_ptr, set_next_avail; cbn; lia.
Qed.

(** The state of the rings between the steps of the driver: the card sees the driver's
    indices, it has at most one frame to send, exactly when [tx_inflight] says so, and
    every receive buffer is either with the card or on its way back. *)
Record ring_inv rt (m : mem) : Prop := {
  ri_tx : queue_wf (txq rt);
  ri_rx : queue_wf (rxq rt);
  ri_layout : layout rt;
  ri_tx_avail : avail_idx (txq rt) m = next_avail_idx (txq rt);
  ri_rx_avail : avail_idx (rxq rt) m = next_avail_idx (rxq rt);
  ri_tx_out : dist (next_avail_idx (txq rt)) (last_used_idx (txq rt)) = if tx_inflight rt then 1 else 0;
  ri_tx_used : dist (used_idx (txq rt) m) (last_used_idx (txq rt)) <= dist (next_avail_idx (txq rt)) (last_used_idx (txq rt));
  ri_rx_out : dist (next_avail_idx (rxq rt)) (last_used_idx (rxq rt)) = Z.of_nat (length (rx_bufs rt));
  ri_rx_fit : Z.of_nat (length (rx_bufs rt)) <= size (rxq rt);
  ri_rx_used : dist (used_idx (rxq rt) m) (last_used_idx (rxq rt)) <= Z.of_nat (length (rx_bufs rt));
  ri_u16 : 0 <= used_idx (txq rt) m < 65536 /\ 0 <= used_idx (rxq rt) m < 65536;
  ri_rx_ids : forall k, 0 <= k < dist (used_idx (rxq rt) m) (last_used_idx (rxq rt)) ->
    0 <= used_id (used_elem (rxq rt) ((last_used_idx (rxq rt) + k) mod 65536 mod size (rxq rt)) m) < Z.of_nat (length (rx_bufs rt));
}.

(** What the card sees after a frame was queued: the buffer with an empty header, the
    frame and padding, a descriptor for it, and that descriptor's number in the ring. *)
Record handed_over rt (frame : bytes) s s' : Prop := {
  ho_idle : dist (avail_idx (txq rt) (mm s)) (used_idx (txq rt) (mm s)) = 0;
  ho_buffer : load (mm s') (buf_virt (tx_buf rt)) (Z.to_nat (10 + Z.max (blen frame) 60)) =
    replicate 10 0 ++ frame ++ replicate (Z.to_nat (60 - blen frame)) 0;
  ho_desc : load (mm s') (desc_ptr (txq rt) 0) 16 = desc_bytes (buf_phys (tx_buf rt)) (10 + Z.max (blen frame) 60) 0 0;
  ho_slot : read16 (mm s') (avail_ring_entry_ptr (txq rt) (next_avail_idx (txq rt) mod size (txq rt))) = 0;
  ho_index : avail_idx (txq rt) (mm s') = incr16 (avail_idx (txq rt) (mm s));
  ho_notify : nic s' = port_write 2 ((rt_base rt + 16) mod 65536) 1 (nic s);
}.

Lemma tx_region (frame : bytes) :
  put (replicate (Z.to_nat (10 + Z.max (blen frame) 60)) 0) 10 frame = replicate 10 0 ++ frame ++ replicate (Z.to_nat (60 - blen frame)) 0.
Proof.
  unfold put, blen. rewrite take_replicate, drop_replicate. f_equal; [f_equal; lia|]. f_equal. f_equal. lia.
Qed.

(** Memory outside the queue that sends and its buffer. *)
Definition tx_only rt (m m' : mem) : Prop :=
  (forall a n, apart a n (base (txq rt)) (used_ring_off (txq rt)) -> apart a n (buf_virt (tx_buf rt)) (buf_len (tx_buf rt)) -> kept a n m m').

(** The invariant survives a change of the sending side that keeps its meaning. *)
Lemma ring_inv_tx rt rt' m m' :
  ring_inv rt m -> tx_only rt m m' -> rxq rt' = rxq rt -> rx_bufs rt' = rx_bufs rt -> tx_buf rt' = tx_buf rt ->
  queue_wf (txq rt') -> base (txq rt') = base (txq rt) -> size (txq rt') = size (txq rt) -> used_ring_off (txq rt') = used_ring_off (txq rt) ->
  0 <= used_idx (txq rt') m' < 65536 ->
  avail_idx (txq rt') m' = next_avail_idx (txq rt') -> dist (next_avail_idx (txq rt')) (last_used_idx (txq rt')) = (if tx_inflight rt' then 1 else 0) ->
  dist (used_idx (txq rt') m') (last_used_idx (txq rt')) <= dist (next_avail_idx (txq rt')) (last_used_idx (txq rt')) -> ring_inv rt' m'.
Proof.
  intros [I1 I2 [L1 L2 L3] I4 I5 I6 I7 I8 I9 I10 [_ I12] I11] Ht Er Eb Et Hw Hb Hs Hu Hr16 Ha Ho Hus.
  pose proof (qw_size _ I2) as S2. pose proof (qw_used _ I2) as U2. pose proof (qw_avail _ I2) as A2. pose proof (qw_size _ I1) as S1. unfold apart, queue_len in *.
  assert (kept (base (rxq rt)) (queue_len (rxq rt)) m m') as Hk by (apply Ht; unfold apart, queue_len; lia).
  destruct (kept_used (rxq rt) m m' I2) as [K1 K2]; [intros z Hz; apply Hk; unfold queue_len; lia|].
  split; rewrite ?Er, ?Eb; try done.
  - split; unfold apart, queue_len; rewrite ?Et, ?Er, ?Hb, ?Hs, ?Hu; done.
  - rewrite <-I5. apply (kept_read16 _ _ _ _ _ Hk); unfold avail_idx_ptr, queue_len; lia.
  - by rewrite K1.
  - by rewrite K1.
  - intros k Hki. rewrite K1 in Hki. rewrite K2 by (apply Z.mod_pos_bound; lia). by apply I11.
Qed.

Lemma tx_only_rx rt m m' : ring_inv rt m -> tx_only rt m m' -> used_idx (rxq rt) m' = used_idx (rxq rt) m.
Proof.
  intros HI Ht. destruct (ri_layout _ _ HI) as [L1 L2 L3]. pose proof (qw_size _ (ri_rx _ _ HI)). pose proof (qw_size _ (ri_tx _ _ HI)). pose proof (qw_used _ (ri_rx _ _ HI)). pose proof (qw_avail _ (ri_rx _ _ HI)).
  destruct (kept_used (rxq rt) m m' (ri_rx _ _ HI)) as [Ku _]; [|done]. apply Ht; unfold apart, queue_len in *; lia.
Qed.

Lemma queue_tx_spec rt frame s :
  ring_inv rt (mm s) ->
  exists ok rt' s', queue_tx_frame rt frame s = Some ((ok, rt'), s') /\ ring_inv rt' (mm s') /\ tx_only rt (mm s) (mm s') /\
    if (ok : bool) then rt' = set_tx_inflight true (set_txq (set_next_avail (txq rt) (incr16 (next_avail_idx (txq rt)))) rt) /\ tx_inflight rt = false /\ handed_over rt frame s s'
    else rt' = rt /\ s' = s /\ (tx_inflight rt = true \/ buf_len (tx_buf rt) < 10 + Z.max (blen frame) 60).
Proof.
  intros HI. unfold queue_tx_frame. destruct (tx_inflight rt) eqn:Ei; [exists false, rt, s; split; [done|]; split; [done|]; split; [by intros a n _ _ z _|]; by auto|].
  change VIRTIO_NET_HDR_LEN with 10. destruct (Z.ltb_spec (buf_len (tx_buf rt)) (10 + Z.max (blen frame) 60)) as [Hl|Hl]; [exists false, rt, s; split; [done|]; split; [done|]; split; [by intros a n _ _ z _|]; by auto|].
  set (needed := 10 + Z.max (blen frame) 60) in *. pose proof (ri_tx _ _ HI) as Hq. pose proof (qw_size _ Hq) as S1. pose proof (qw_used _ Hq) as U1. pose proof (qw_avail _ Hq) as A1.
  destruct (ri_layout _ _ HI) as [L1 L2 L3]. unfold apart, queue_len in L1, L2, L3.
  set (bs := put (replicate (Z.to_nat needed) 0) 10 frame). assert (bs = replicate 10 0 ++ frame ++ replicate (Z.to_nat (60 - blen frame)) 0) as Ebs by apply tx_region.
  assert (length bs = Z.to_nat needed) as Lbs by (rewrite Ebs, !length_app, !length_replicate; unfold needed, blen; lia).
  set (m1 := store (mm s) (buf_virt (tx_buf rt)) bs). set (m2 := store m1 (desc_ptr (txq rt) 0) (desc_bytes (buf_phys (tx_buf rt)) needed 0 0)).
  assert (length (desc_bytes (buf_phys (tx_buf rt)) needed 0 0) = 16%nat) as Ld by (unfold desc_bytes; by rewrite !length_app, !to_le_bytes_length).
  destruct (desc_enqueue_spec (txq rt) 0 (mkWorld (kern s) (nic s) m2) Hq) as (s3 & E3 & Hk3 & Hn3 & Ha3 & Hsl & Hf3). cbn [mm kern nic] in *.
  assert (forall a n, apart a n (base (txq rt)) (used_ring_off (txq rt)) -> kept a n m1 (mm s3)) as Hm1.
  { intros a n Ha. eapply mem_kept_trans; [|apply Hf3; unfold apart in *; lia]. apply kept_store. rewrite Ld. unfold apart, desc_ptr in *. lia. }
  assert (tx_only rt (mm s) (mm s3)) as Hto.
  { intros a n Ha1 Ha2. eapply mem_kept_trans; [apply kept_store|by apply Hm1]. unfold apart in *. lia. }
  exists true. eexists _, (mkWorld (kern s3) (port_write 2 ((rt_base rt + 16) mod 65536) 1 (nic s3)) (mm s3)). split.
  { erewrite (st_bind_eq _ _ s) by reflexivity. erewrite (st_bind_eq _ _ _ tt (mkWorld (kern s) (nic s) m2)) by reflexivity. rewrite (st_bind_eq _ _ _ _ _ E3). reflexivity. }
  cbn [mm nic]. destruct (kept_used (txq rt) (mm s) (mm s3) Hq) as [Ku _]; [apply Hto; unfold apart; lia|]. split; [|split; [done|split; [done|split; [done|split]]]].
  - apply (ring_inv_tx rt _ (mm s)); try done; cbn.
    + split; cbn; try apply Hq. apply Z.mod_pos_bound. lia.
    + change (used_idx (set_next_avail (txq rt) _)) with (used_idx (txq rt)). rewrite Ku. apply HI.
    + rewrite dist_incr; rewrite (ri_tx_out _ _ HI), Ei; lia.
    + pose proof (ri_tx_used _ _ HI) as Hus. rewrite (ri_tx_out _ _ HI), Ei in Hus. change (used_idx (set_next_avail (txq rt) _)) with (used_idx (txq rt)). rewrite Ku.
      rewrite dist_incr; rewrite (ri_tx_out _ _ HI), Ei; lia.
  - pose proof (ri_tx_used _ _ HI) as Hus. pose proof (ri_tx_out _ _ HI) as Ho. rewrite Ei in Ho. rewrite Ho in Hus. rewrite (ri_tx_avail _ _ HI).
    rewrite (dist_sub _ _ (last_used_idx (txq rt))); rewrite Ho; [|done]. pose proof (dist_range (used_idx (txq rt) (mm s)) (last_used_idx (txq rt))). lia.
  - fold needed. rewrite <-Ebs, <-Lbs. transitivity (load m1 (buf_virt (tx_buf rt)) (length bs)); [|apply load_store_same]. apply load_ext. intros i Hi.
    apply (Hm1 (buf_virt (tx_buf rt)) needed); [unfold apart; lia|lia].
  - fold needed. transitivity (load m2 (desc_ptr (txq rt) 0) 16); [|rewrite <-Ld at 1; apply load_store_same]. apply load_ext. intros i Hi.
    apply (Hf3 (desc_ptr (txq rt) 0) 16); [unfold apart, desc_ptr; lia|lia].
  - exact Hsl.
  - cbn [mm]. by rewrite Ha3, (ri_tx_avail _ _ HI).
  - cbn [nic]. by rewrite Hn3.
Qed.

(** Fields the rings do not depend on. *)
Lemma ring_inv_flags rt rt' m :
  rxq rt' = rxq rt -> txq rt' = txq rt -> rx_bufs rt' = rx_bufs rt -> tx_buf rt' = tx_buf rt -> tx_inflight rt' = tx_inflight rt -> ring_inv rt m -> ring_inv rt' m.
Proof. intros E1 E2 E3 E4 E5 [? ? [? ? ?] ? ? ? ? ? ? ? ? ?]. split; rewrite ?E1, ?E2, ?E3, ?E4, ?E5; try done. split; by rewrite ?E1, ?E2, ?E4. Qed.

(** A step that at most sends: the receiving side is untouched. *)
Definition sends rt s (op : ST World VirtioNetRuntime) : Prop :=
  exists rt' s', op s = Some (rt', s') /\ ring_inv rt' (mm s') /\ rxq rt' = rxq rt /\ rx_bufs rt' = rx_bufs rt /\ used_idx (rxq rt) (mm s') = used_idx (rxq rt) (mm s).

Lemma sends_nothing rt rt' s :
  ring_inv rt (mm s) -> rxq rt' = rxq rt -> txq rt' = txq rt -> rx_bufs rt' = rx_bufs rt -> tx_buf rt' = tx_buf rt -> tx_inflight rt' = tx_inflight rt -> sends rt s (mret rt').
Proof. intros. exists rt', s. split; [done|]. split; [by apply (ring_inv_flags rt)|]. done. Qed.

(** Changes the rings do not see. *)
Definition harmless (f : VirtioNetRuntime -> VirtioNetRuntime) : Prop :=
  forall rt, rxq (f rt) = rxq rt /\ txq (f rt) = txq rt /\ rx_bufs (f rt) = rx_bufs rt /\ tx_buf (f rt) = tx_buf rt /\ tx_inflight (f rt) = tx_inflight rt.

(** Sending a frame, and noting that it was sent. *)
Lemma sends_frame rt frame f s :
  harmless f -> ring_inv rt (mm s) -> sends rt s (r ← queue_tx_frame rt frame; let '(ok, rt) := r in mret (if (ok : bool) then f rt else rt)).
Proof.
  intros Hf HI. destruct (queue_tx_spec rt frame s HI) as (ok & rt' & s' & E & HI' & Ht & R). unfold sends. rewrite (st_bind_eq _ _ _ _ _ E).
  eexists _, s'. split; [reflexivity|]. pose proof (tx_only_rx rt _ _ HI Ht) as Hu. destruct ok.
  - destruct R as (-> & _ & _). destruct (Hf (set_tx_inflight true (set_txq (set_next_avail (txq rt) (incr16 (next_avail_idx (txq rt)))) rt))) as (F1 & F2 & F3 & F4 & F5).
    split; [by apply (ring_inv_flags _ _ _ F1 F2 F3 F4 F5)|]. by rewrite F1, F3.
  - destruct R as (-> & _ & _). done.
Qed.

(** A step and a harmless change of what it returns. *)
Lemma sends_then rt s op (g : VirtioNetRuntime -> VirtioNetRuntime) : harmless g -> sends rt s op -> sends rt s (rt ← op; mret (g rt)).
Proof.
  intros Hg (rt' & s' & E & HI & H1 & H2 & H3). unfold sends. rewrite (st_bind_eq _ _ _ _ _ E). eexists _, s'. split; [reflexivity|].
  destruct (Hg rt') as (F1 & F2 & F3 & F4 & F5). split; [by apply (ring_inv_flags _ _ _ F1 F2 F3 F4 F5)|]. by rewrite F1, F3.
Qed.

(** A step from a state that differs harmlessly. *)
Lemma sends_from rt f s op : harmless f -> sends (f rt) s op -> sends rt s op.
Proof. intros Hf (rt' & s' & E & HI & H1 & H2 & H3). destruct (Hf rt) as (F1 & _ & F3 & _). exists rt', s'. by rewrite <-F1, <-F3. Qed.

Lemma harmless_inv rt f m : harmless f -> ring_inv rt m -> ring_inv (f rt) m.
Proof. intros Hf. destruct (Hf rt) as (F1 & F2 & F3 & F4 & F5). by apply ring_inv_flags. Qed.

Lemma send_arp_sends rt s : ring_inv rt (mm s) -> sends rt s (send_arp_request rt).
Proof. by apply (sends_frame rt _ (set_arp_sent true)). Qed.

Lemma send_icmp_sends rt dst s : ring_inv rt (mm s) -> sends rt s (send_icmp_echo rt dst).
Proof. by apply (sends_frame rt _ (set_ping_sent true)). Qed.

Lemma try_send_sends rt dst s : ring_inv rt (mm s) -> sends rt s (try_send_pending_icmp rt dst).
Proof.
  intros HI. unfold try_send_pending_icmp. destruct (tx_inflight rt); [by apply sends_nothing|].
  apply (sends_then rt s _ (fun rt => set_ping_pending (negb (tx_inflight rt)) rt)); [done|by apply send_icmp_sends].
Qed.

Lemma handle_arp_sends rt frame s : ring_inv rt (mm s) -> sends rt s (handle_arp rt frame).
Proof.
  intros HI. unfold handle_arp. destruct (_ <? _); [by apply sends_nothing|]. destruct (_ && _); [|by apply sends_nothing].
  set (f := fun rt => set_ping_pending true (set_gateway_mac (Some (slice (slice frame 14 28) 8 6)) rt)). cbv zeta. change (set_ping_pending true (set_gateway_mac _ rt)) with (f rt).
  destruct (tx_inflight (f rt)) eqn:Ei; [by apply sends_nothing|]. apply (sends_from rt f); [done|].
  apply (sends_then (f rt) s _ (fun rt => if tx_inflight rt then set_ping_pending false rt else rt)); [intros rt0; unfold tx_inflight at 1; destruct rt0 as [? ? ? ? ? ? [] ? ? ? ? ? ? ?]; done|].
  apply send_icmp_sends. by apply harmless_inv.
Qed.

Lemma handle_ipv4_harmless frame : harmless (fun rt => handle_ipv4 rt frame).
Proof. intros rt. unfold handle_ipv4. by repeat case_match. Qed.

Lemma handle_rx_sends rt frame s : ring_inv rt (mm s) -> sends rt s (handle_rx_frame rt frame).
Proof.
  intros HI. unfold handle_rx_frame. destruct (_ <? _); [by apply sends_nothing|]. destruct (_ =? _); [by apply handle_arp_sends|].
  destruct (_ =? _); [|by apply sends_nothing]. destruct (handle_ipv4_harmless frame rt) as (F1 & F2 & F3 & F4 & F5). by apply sends_nothing.
Qed.

Lemma drive_sends rt s : ring_inv rt (mm s) -> sends rt s (drive_network rt).
Proof.
  intros HI. unfold drive_network. destruct (ping_reply_seen rt); [by apply sends_nothing|]. destruct (negb _); [by apply send_arp_sends|].
  destruct (gateway_mac rt) as [gw|]; [|destruct (_ =? _); [by apply send_arp_sends|by apply sends_nothing]].
  destruct (tx_inflight rt); [by apply sends_nothing|]. destruct (ping_pending rt); [by apply try_send_sends|].
  destruct (_ || _); [by apply try_send_sends|by apply sends_nothing].
Qed.

Lemma poll_tx_sends rt s : ring_inv rt (mm s) -> sends rt s (poll_tx rt).
Proof.
  intros HI. unfold poll_tx. set (u := used_idx (txq rt) (mm s)). unfold sends. rewrite (st_bind_eq _ _ s u s) by reflexivity.
  pose proof (qw_size _ (ri_tx _ _ HI)) as Hs. pose proof (ri_tx_used _ _ HI) as Hu. pose proof (ri_tx_out _ _ HI) as Ho. fold u in Hu.
  change TX_POLL_BUDGET with (S (S 62)). generalize 62%nat as n. intros n. cbn [poll_tx_loop]. destruct (Z.eqb_spec (last_used_idx (txq rt)) u) as [E|Hne]; [by exists rt, s|].
  rewrite (proj2 (Z.eqb_neq (size (txq rt)) 0)) by lia.
  assert (0 < dist u (last_used_idx (txq rt))) as Hd.
  { pose proof (dist_range u (last_used_idx (txq rt))). destruct (decide (dist u (last_used_idx (txq rt)) = 0)) as [E|]; [|lia]. exfalso. apply Hne.
    unfold dist in E. destruct (ri_u16 _ _ HI) as [Hr _]. fold u in Hr. pose proof (qw_last _ (ri_tx _ _ HI)). apply Z.mod_divide in E as [z Hz]; lia. }
  assert (tx_inflight rt = true) as Ei by (destruct (tx_inflight rt); [done|]; lia). rewrite Ei in Ho.
  assert (dist u (incr16 (last_used_idx (txq rt))) = 0) as Hz by (rewrite dist_incr_r; lia).
  assert (incr16 (last_used_idx (txq rt)) = u) as E1.
  { unfold dist in Hz. destruct (ri_u16 _ _ HI) as [Hr _]. fold u in Hr. pose proof (Z.mod_pos_bound (last_used_idx (txq rt) + 1) 65536 ltac:(lia)) as Hb. fold (incr16 (last_used_idx (txq rt))) in Hb.
    apply Z.mod_divide in Hz as [z Hz]; lia. }
  cbn [txq set_tx_inflight set_txq set_last_used last_used_idx]. rewrite (proj2 (Z.eqb_eq _ u) E1). eexists _, s. split; [reflexivity|]. split; [|done].
  apply (ring_inv_tx rt _ (mm s)); try done; cbn.
  - split; cbn; try apply (ri_tx _ _ HI). apply Z.mod_pos_bound. lia.
  - apply HI.
  - apply HI.
  - rewrite dist_incr_r; lia.
  - change (used_idx (set_last_used (txq rt) _)) with (used_idx (txq rt)). fold u. rewrite dist_incr_r by lia. rewrite dist_incr_r by lia. lia.
Qed.

(** The buffer of a received frame goes back: the ring is as full as before, and one
    element less is waiting. *)
Lemma recycle_inv rt id s :
  ring_inv rt (mm s) -> 0 < dist (used_idx (rxq rt) (mm s)) (last_used_idx (rxq rt)) ->
  exists q s', enqueue_desc_to_avail (rxq rt) id s = Some (q, s') /\ last_used_idx q = last_used_idx (rxq rt) /\
    let rt' := set_rxq (set_last_used q (incr16 (last_used_idx q))) rt in ring_inv rt' (mm s') /\ used_idx (rxq rt') (mm s') = used_idx (rxq rt) (mm s).
Proof.
  intros HI Hd. destruct (desc_enqueue_spec (rxq rt) id s (ri_rx _ _ HI)) as (s' & E & _ & _ & Ha & _ & Hf). destruct HI as [I1 I2 [L1 L2 L3] I4 I5 I6 I7 I8 I9 I10 [I12 I13] I11].
  pose proof (qw_size _ I2) as S2. pose proof (qw_used _ I2) as U2. pose proof (qw_avail _ I2) as A2. pose proof (qw_size _ I1) as S1. pose proof (qw_used _ I1) as U1. pose proof (qw_avail _ I1) as A1.
  unfold apart, queue_len in *. eexists _, s'. split; [exact E|]. split; [done|]. cbn zeta.
  assert (kept (base (txq rt)) (queue_len (txq rt)) (mm s) (mm s')) as Kt by (apply Hf; unfold queue_len; lia).
  destruct (kept_used (rxq rt) (mm s) (mm s') I2) as [R1 R2]; [apply Hf; lia|]. destruct (kept_used (txq rt) (mm s) (mm s') I1) as [T1 _]; [intros z Hz; apply Kt; unfold queue_len; lia|].
  set (u := used_idx (rxq rt) (mm s)) in *. set (l := last_used_idx (rxq rt)) in *. split; [|exact R1]. split; cbn [rxq txq rx_bufs tx_inflight set_rxq set_last_used set_next_avail size base avail_ring_off used_ring_off next_avail_idx last_used_idx]; try done.
  - split; cbn; try apply I2; apply Z.mod_pos_bound; lia.
  - rewrite <-I4. apply (kept_read16 _ _ _ _ _ Kt); unfold avail_idx_ptr, queue_len; lia.
  - by rewrite T1.
  - fold l. rewrite dist_incr_r; rewrite dist_incr by lia; [lia|]. lia.
  - change (used_idx (set_last_used _ _)) with (used_idx (rxq rt)). rewrite R1. fold l. rewrite dist_incr_r by done. lia.
  - change (used_idx (set_last_used _ _)) with (used_idx (rxq rt)). by rewrite T1, R1.
  - change (used_idx (set_last_used _ _)) with (used_idx (rxq rt)). rewrite R1. fold l. rewrite dist_incr_r by done. intros k Hk.
    change (used_elem (set_last_used _ _)) with (used_elem (rxq rt)). rewrite R2 by (apply Z.mod_pos_bound; lia).
    replace ((incr16 l + k) mod 65536) with ((l + (k + 1)) mod 65536) by (unfold incr16; rewrite Zplus_mod_idemp_l; f_equal; lia). apply I11. lia.
Qed.

Lemma receive_inv rt s :
  ring_inv rt (mm s) -> last_used_idx (rxq rt) <> used_idx (rxq rt) (mm s) ->
  exists rt' s', receive rt (used_elem (rxq rt) (last_used_idx (rxq rt) mod size (rxq rt)) (mm s)) s = Some ((true, rt'), s') /\
    let rt'' := set_rxq (set_last_used (rxq rt') (incr16 (last_used_idx (rxq rt')))) rt' in
    ring_inv rt'' (mm s') /\ used_idx (rxq rt'') (mm s') = used_idx (rxq rt) (mm s).
Proof.
  intros HI Hne. pose proof (qw_last _ (ri_rx _ _ HI)) as Hl. destruct (ri_u16 _ _ HI) as [_ Hu].
  assert (0 < dist (used_idx (rxq rt) (mm s)) (last_used_idx (rxq rt))) as Hd.
  { pose proof (dist_range (used_idx (rxq rt) (mm s)) (last_used_idx (rxq rt))). destruct (decide (dist (used_idx (rxq rt) (mm s)) (last_used_idx (rxq rt)) = 0)) as [E|]; [|lia].
    exfalso. apply Hne. unfold dist in E. apply Z.mod_divide in E as [z Hz]; lia. }
  pose proof (ri_rx_ids _ _ HI 0 ltac:(lia)) as Hid. rewrite Z.add_0_r, (Z.mod_small (last_used_idx (rxq rt))) in Hid by lia.
  set (elem := used_elem (rxq rt) (last_used_idx (rxq rt) mod size (rxq rt)) (mm s)) in *. unfold receive.
  destruct (lookup_lt_is_Some_2 (rx_bufs rt) (Z.to_nat (used_id elem))) as [buf Hb]; [lia|]. rewrite Hb.
  match goal with |- context [(?h ≫= _) s] => assert (sends rt s h) as (rt1 & s1 & E1 & HI1 & Q1 & B1 & W1) end.
  { destruct (_ <? _); [|by apply sends_nothing]. unfold sends. erewrite (st_bind_eq _ _ s) by reflexivity. by apply handle_rx_sends. }
  rewrite (st_bind_eq _ _ _ _ _ E1). destruct (recycle_inv rt1 (used_id elem mod 65536) s1 HI1) as (q & s' & E2 & Hql & HI2 & Hu2); [by rewrite Q1, W1|].
  rewrite (st_bind_eq _ _ _ _ _ E2). exists (set_rxq q rt1), s'. split; [done|]. cbn zeta. split; [exact HI2|]. etransitivity; [exact Hu2|]. by rewrite Q1.
Qed.

Lemma poll_rx_inv rt s : ring_inv rt (mm s) -> exists rt' s', poll_rx rt s = Some (rt', s') /\ ring_inv rt' (mm s').
Proof.
  intros HI. unfold poll_rx. set (u := used_idx (rxq rt) (mm s)). rewrite (st_bind_eq _ _ s u s) by reflexivity.
  assert (forall n rec rt s, ring_inv rt (mm s) -> used_idx (rxq rt) (mm s) = u -> exists b rt' s', poll_rx_loop n u rec rt s = Some ((b, rt'), s') /\ ring_inv rt' (mm s')) as H.
  { clearbody u. clear rt s HI. intros n. induction n as [|n IH]; intros rec rt s HI Hu; cbn [poll_rx_loop]; [by exists rec, rt, s|].
    destruct (Z.eqb_spec (last_used_idx (rxq rt)) u) as [E|Hne]; [by exists rec, rt, s|]. rewrite (proj2 (Z.eqb_neq (size (rxq rt)) 0)) by (pose proof (qw_size _ (ri_rx _ _ HI)); lia).
    erewrite (st_bind_eq _ _ s) by reflexivity. destruct (receive_inv rt s HI ltac:(congruence)) as (rt1 & s1 & E1 & HI1 & Hu1). rewrite (st_bind_eq _ _ _ _ _ E1).
    apply IH; [done|]. by rewrite Hu1. }
  destruct (H RX_POLL_BUDGET false rt s HI eq_refl) as (b & rt' & s' & E & HI'). rewrite (st_bind_eq _ _ _ _ _ E). destruct b; [|by exists rt', s'].
  eexists rt', _. split; [reflexivity|]. done.
Qed.

(** ** The first descriptors *)

(** Queues as [setup_virtio_legacy_queue] leaves them, in memory of their own. *)
Record fresh rt s : Prop := {
  fr_tx : queue_wf (txq rt) /\ next_avail_idx (txq rt) = 0 /\ last_used_idx (txq rt) = 0;
  fr_rx : queue_wf (rxq rt) /\ next_avail_idx (rxq rt) = 0 /\ last_used_idx (rxq rt) = 0;
  fr_layout : layout rt;
  fr_zero : avail_idx (txq rt) (mm s) = 0 /\ used_idx (txq rt) (mm s) = 0 /\ avail_idx (rxq rt) (mm s) = 0 /\ used_idx (rxq rt) (mm s) = 0;
  fr_state : tx_inflight rt = false /\ rx_bufs rt = [];
}.

Lemma fresh_inv rt s : fresh rt s -> ring_inv rt (mm s).
Proof.
  intros [(T1 & T2 & T3) (R1 & R2 & R3) L (Z1 & Z2 & Z3 & Z4) (S1 & S2)].
  split; try done; rewrite ?Z1, ?Z2, ?Z3, ?Z4, ?T2, ?T3, ?R2, ?R3, ?S1, ?S2; try done.
  - pose proof (qw_size _ R1). cbn. lia.
  - intros k Hk. change (dist 0 0) with 0 in Hk. lia.
Qed.

(** One buffer more for the card. *)
Lemma supply_inv rt buf s :
  ring_inv rt (mm s) -> used_idx (rxq rt) (mm s) = last_used_idx (rxq rt) -> Z.of_nat (length (rx_bufs rt)) < size (rxq rt) -> 
  let id := Z.of_nat (length (rx_bufs rt)) in
  exists q s', (poke (desc_ptr (rxq rt) id) (desc_bytes (buf_phys buf) (buf_len buf) VRING_DESC_F_WRITE 0) ≫= fun _ => enqueue_desc_to_avail (rxq rt) id) s = Some (q, s') /\
    let rt' := set_rxq q (set_rx_bufs (rx_bufs rt ++ [buf]) rt) in
    ring_inv rt' (mm s') /\ used_idx (rxq rt') (mm s') = last_used_idx (rxq rt') /\ size (rxq rt') = size (rxq rt).
Proof.
  intros HI Hu Hl id. set (m1 := store (mm s) (desc_ptr (rxq rt) id) (desc_bytes (buf_phys buf) (buf_len buf) VRING_DESC_F_WRITE 0)).
  destruct (desc_enqueue_spec (rxq rt) id (mkWorld (kern s) (nic s) m1) (ri_rx _ _ HI)) as (s' & E & _ & _ & Ha & _ & Hf). cbn [mm] in Hf. destruct HI as [I1 I2 [L1 L2 L3] I4 I5 I6 I7 I8 I9 I10 [I12 I13] I11].
  pose proof (qw_size _ I2) as S2. pose proof (qw_used _ I2) as U2. pose proof (qw_avail _ I2) as A2. pose proof (qw_size _ I1) as S1. pose proof (qw_used _ I1) as U1. pose proof (qw_avail _ I1) as A1.
  unfold apart, queue_len in *. eexists _, s'. split; [erewrite (st_bind_eq _ _ s) by reflexivity; exact E|]. cbn zeta.
  assert (forall a n, apart a n (base (rxq rt)) (used_ring_off (rxq rt)) -> kept a n (mm s) (mm s')) as Hk.
  { intros a n H. eapply mem_kept_trans; [|apply Hf; unfold apart in H; lia]. apply kept_store. unfold desc_bytes. rewrite !length_app, !to_le_bytes_length. unfold apart, desc_ptr, id in *. lia. }
  assert (kept (base (txq rt)) (queue_len (txq rt)) (mm s) (mm s')) as Kt by (apply Hk; unfold apart, queue_len; lia).
  destruct (kept_used (rxq rt) (mm s) (mm s') I2) as [R1 R2]; [apply Hk; unfold apart; lia|]. destruct (kept_used (txq rt) (mm s) (mm s') I1) as [T1 _]; [intros z Hz; apply Kt; unfold queue_len; lia|].
  assert (forall v, used_idx (set_next_avail (rxq rt) v) (mm s') = last_used_idx (rxq rt)) as Hul by (intros v; change (used_idx (set_next_avail _ _)) with (used_idx (rxq rt)); by rewrite R1).
  split; [|split; [apply Hul|done]]. split; cbn [rxq txq rx_bufs tx_inflight set_rxq set_rx_bufs set_next_avail size base avail_ring_off used_ring_off next_avail_idx last_used_idx]; try done; rewrite ?length_app; cbn [length]; try lia.
  - split; cbn; try apply I2; apply Z.mod_pos_bound; lia.
  - rewrite <-I4. apply (kept_read16 _ _ _ _ _ Kt); unfold avail_idx_ptr, queue_len; lia.
  - by rewrite T1.
  - rewrite dist_incr; rewrite I8; lia.
  - rewrite Hul, dist_self. lia.
  - rewrite T1, Hul. split; [done|apply I2].
  - rewrite Hul, dist_self. intros k Hk'. lia.
Qed.

Lemma populate_inv ids rt s ok rt' s' :
  ring_inv rt (mm s) -> used_idx (rxq rt) (mm s) = last_used_idx (rxq rt) ->
  (forall i, i < length ids -> ids !! i = Some (Z.of_nat (length (rx_bufs rt) + i)))%nat -> Z.of_nat (length (rx_bufs rt) + length ids) <= size (rxq rt) ->
  populate_from ids rt s = Some ((ok, rt'), s') -> ring_inv rt' (mm s').
Proof.
  revert rt s. induction ids as [|id ids IH]; intros rt s HI Hu Hids Hl; cbn [populate_from]; [by intros [= _ <- <-]|].
  intros (b & s1 & E1 & H)%st_bind_Some. assert (mm s1 = mm s) as Em.
  { unfold alloc_shared_buf in E1. apply st_bind_Some in E1 as ([v ps] & s2 & E2 & E1). unfold call in E2. destruct (k_alloc _ _) as [r k]. injection E2 as _ <-.
    destruct (is_syscall_error v); [by injection E1 as _ <-|]. destruct ps; by injection E1 as _ <-. }
  destruct b as [buf|]; [|injection H as _ <- <-; by rewrite Em].
  pose proof (Hids 0%nat ltac:(cbn; lia)) as H0. cbn in H0. injection H0 as ->. rewrite Nat.add_0_r in H. cbn [length] in Hl.
  destruct (supply_inv rt buf s1) as (q & s2 & E2 & HI2 & Hu2 & Hs2); [by rewrite Em|by rewrite Em|lia|].
  cbn zeta in H. change (rxq (set_rx_bufs _ rt)) with (rxq rt) in H.
  apply st_bind_Some in H as (u0 & s3 & E3 & H). apply st_bind_Some in H as (q' & s4 & E4 & H).
  rewrite (st_bind_eq _ _ _ _ _ E3) in E2. rewrite E4 in E2. injection E2 as -> ->.
  apply (IH _ s2) in H; [done|done|done| |].
  - intros i Hi. assert (ids !! i = Some (Z.of_nat (length (rx_bufs rt) + S i))) as -> by exact (Hids (S i) ltac:(cbn; lia)). cbn [rx_bufs set_rxq set_rx_bufs]. rewrite length_app. cbn [length]. do 2 f_equal. lia.
  - cbn [rx_bufs set_rxq set_rx_bufs] in *. rewrite Hs2, length_app. cbn [length]. lia.
Qed.

Lemma populate_rx_inv rt s rt' s' : fresh rt s -> populate_rx_ring rt s = Some ((true, rt'), s') -> ring_inv rt' (mm s').
Proof.
  intros Hf. unfold populate_rx_ring. intros ([ok rt1] & s1 & E & H)%st_bind_Some. destruct ok; cbn [negb] in H; [|done]. injection H as <- <-. cbn [mm].
  pose proof (fresh_inv rt s Hf) as HI. destruct Hf as [_ (R1 & R2 & R3) _ (_ & _ & _ & Z4) (_ & S2)]. apply (populate_inv _ _ _ _ _ _ HI) in E; [done|by rewrite Z4, R3| |].
  - intros i. unfold upto. rewrite length_fmap, length_seq, S2. intros Hi. by rewrite list_lookup_fmap, lookup_seq_lt.
  - rewrite S2. unfold upto. rewrite length_fmap, length_seq. cbn. pose proof (qw_size _ R1). lia.
Qed.

(** ** The card *)

(** What the card may do at any time: return descriptors that the driver has made
    available, in any number, and write into the buffers it holds; it does not touch the
    driver's side of the queues, and the elements it returns name receive buffers. *)
Record card rt (m m' : mem) : Prop := {
  cd_avail : avail_idx (txq rt) m' = avail_idx (txq rt) m /\ avail_idx (rxq rt) m' = avail_idx (rxq rt) m;
  cd_u16 : 0 <= used_idx (txq rt) m' < 65536 /\ 0 <= used_idx (rxq rt) m' < 65536;
  cd_tx : dist (used_idx (txq rt) m') (used_idx (txq rt) m) <= dist (avail_idx (txq rt) m) (used_idx (txq rt) m);
  cd_rx : dist (used_idx (rxq rt) m') (used_idx (rxq rt) m) <= dist (avail_idx (rxq rt) m) (used_idx (rxq rt) m);
  cd_ids : forall k, 0 <= k < dist (used_idx (rxq rt) m') (last_used_idx (rxq rt)) ->
    0 <= used_id (used_elem (rxq rt) ((last_used_idx (rxq rt) + k) mod 65536 mod size (rxq rt)) m') < Z.of_nat (length (rx_bufs rt));
}.

Lemma within_trans next last u u' : dist u last <= dist next last -> dist u' u <= dist next u -> dist u' last <= dist next last.
Proof.
  intros H1 H2. rewrite (dist_sub next u last) in H2 by done. pose proof (dist_range next last). rewrite (dist_trans u' u last); lia.
Qed.

Lemma card_inv rt m m' : ring_inv rt m -> card rt m m' -> ring_inv rt m'.
Proof.
  intros [I1 I2 L I4 I5 I6 I7 I8 I9 I10 I12 I11] [[C1 C2] C3 C4 C5 C6]. rewrite I4 in C4. rewrite I5 in C5. split; try done; try congruence.
  - by apply (within_trans _ _ (used_idx (txq rt) m)).
  - rewrite <-I8. apply (within_trans _ _ (used_idx (rxq rt) m)); [by rewrite I8|done].
Qed.

(** The steps of the driver's loop, in any order, with the card working in between. *)
Inductive step : VirtioNetRuntime * World -> VirtioNetRuntime * World -> Prop :=
  | step_tick rt s v : step (rt, s) (set_ticks v rt, s)
  | step_tx rt s rt' s' : poll_tx rt s = Some (rt', s') -> step (rt, s) (rt', s')
  | step_rx rt s rt' s' : poll_rx rt s = Some (rt', s') -> step (rt, s) (rt', s')
  | step_drive rt s rt' s' : drive_network rt s = Some (rt', s') -> step (rt, s) (rt', s')
  | step_card rt s d m' : card rt (mm s) m' -> step (rt, s) (rt, mkWorld (kern s) d m').

(** What follows the start of the rings. *)
Definition running rt s : Prop := exists rt0 s0 rt1 s1, fresh rt0 s0 /\ populate_rx_ring rt0 s0 = Some ((true, rt1), s1) /\ rtc step (rt1, s1) (rt, s).

Lemma step_inv x y : step x y -> ring_inv x.1 (mm x.2) -> ring_inv y.1 (mm y.2).
Proof.
  intros [rt s v|rt s rt' s' E|rt s rt' s' E|rt s rt' s' E|rt s d m' Hc] HI; cbn [fst snd mm] in *.
  - by apply (ring_inv_flags rt).
  - destruct (poll_tx_sends rt s HI) as (? & ? & E' & H & _). rewrite E' in E. by injection E as <- <-.
  - destruct (poll_rx_inv rt s HI) as (? & ? & E' & H). rewrite E' in E. by injection E as <- <-.
  - destruct (drive_sends rt s HI) as (? & ? & E' & H & _). rewrite E' in E. by injection E as <- <-.
  - by apply (card_inv rt (mm s)).
Qed.

Lemma running_inv rt s : running rt s -> ring_inv rt (mm s).
Proof.
  intros (rt0 & s0 & rt1 & s1 & Hf & Hp & Hr). apply (populate_rx_inv _ _ _ _ Hf) in Hp.
  assert (forall x y, rtc step x y -> ring_inv x.1 (mm x.2) -> ring_inv y.1 (mm y.2)) as H.
  { intros x y Hxy. induction Hxy as [|x y z Hs _ IH]; [done|]. intros H. apply IH. by apply (step_inv x). }
  by apply (H _ _ Hr).
Qed.

Lemma round_inv rt s : ring_inv rt (mm s) -> exists rt' s', round rt s = Some (rt', s') /\ ring_inv rt' (mm s').
Proof.
  intros HI. unfold round. destruct (poll_tx_sends (set_ticks (wrapping_add64 (ticks rt) 1) rt) s) as (rt1 & s1 & E1 & H1 & _); [by apply (ring_inv_flags rt)|].
  rewrite (st_bind_eq _ _ _ _ _ E1). destruct (poll_rx_inv rt1 s1 H1) as (rt2 & s2 & E2 & H2). rewrite (st_bind_eq _ _ _ _ _ E2).
  destruct (drive_sends rt2 s2 H2) as (rt3 & s3 & E3 & H3 & _). eauto.
Qed.

(** C30. The rings are never overrun, whatever the card does between the driver's steps.
    From the moment the receive ring is filled, in every state that polling, sending and
    the card can lead to, the card holds one frame to send exactly when [tx_inflight]
    says so and none otherwise, the receive ring holds exactly the driver's buffers, no
    more than the ring has slots, the card sees the driver's indices, and the next round
    of the loop returns, without a division by zero or an index out of range. *)
Theorem rings_never_overrun rt s :
  running rt s ->
  dist (avail_idx (txq rt) (mm s)) (last_used_idx (txq rt)) = (if tx_inflight rt then 1 else 0) /\
  dist (used_idx (txq rt) (mm s)) (last_used_idx (txq rt)) <= (if tx_inflight rt then 1 else 0) /\
  dist (avail_idx (rxq rt) (mm s)) (last_used_idx (rxq rt)) = Z.of_nat (length (rx_bufs rt)) /\
  dist (used_idx (rxq rt) (mm s)) (last_used_idx (rxq rt)) <= Z.of_nat (length (rx_bufs rt)) <= size (rxq rt) /\
  exists rt' s', round rt s = Some (rt', s') /\ ring_inv rt' (mm s').
Proof.
  intros HI%running_inv. rewrite (ri_tx_avail _ _ HI), (ri_rx_avail _ _ HI). pose proof (ri_tx_used _ _ HI) as H. rewrite (ri_tx_out _ _ HI) in H.
  split; [apply HI|]. split; [done|]. split; [apply HI|]. split; [split; apply HI|]. by apply round_inv.
Qed.

(** C31. The transmit buffer is written only while the card has nothing to send.  In every
    state the driver can be in, [queue_tx_frame] returns: it refuses a frame while one is
    in flight or when it is too long, and changes nothing; otherwise the card had
    returned everything it was given, and afterwards sees one more descriptor, which
    describes the buffer with an empty header, the frame, and zeroes up to 60 bytes. *)
Theorem transmit_only_when_idle rt frame s :
  running rt s ->
  exists ok rt' s', queue_tx_frame rt frame s = Some ((ok, rt'), s') /\
    if (ok : bool) then tx_inflight rt = false /\ tx_inflight rt' = true /\ handed_over rt frame s s'
    else rt' = rt /\ s' = s /\ (tx_inflight rt = true \/ buf_len (tx_buf rt) < 10 + Z.max (blen frame) 60).
Proof.
  intros HI%running_inv. destruct (queue_tx_spec rt frame s HI) as (ok & rt' & s' & E & _ & _ & R). exists ok, rt', s'. split; [exact E|].
  destruct ok; [|exact R]. destruct R as (-> & H1 & H2). done.
Qed.
End rings.

(** ** A card with queues of four descriptors *)

(** A kernel that hands out pages one after the other, and ports that read zero. *)
#[export] Instance counting_pages : PageCalls Z := {|
  k_alloc n k := ((k, (fun i => k + 4096 * i) <$> upto (Z.to_nat n)), k + 4096 * n);
  k_map ps k := (hd 0 ps, k);
  k_unmap _ _ _ k := (0, k);
  k_mmio a _ k := (a, k);
|}.

#[export] Instance silent_ports : Ports unit.
Proof. refine {| port_read _ _ d := (0, d); port_write _ _ _ d := d |}. intros w p d Hw. cbn. pose proof (Z.pow_pos_nonneg 2 (8 * w)). lia. Defined.

Definition demo_rt : VirtioNetRuntime :=
  mkRt 49152 [82; 84; 0; 18; 52; 86] (mkQueue 0 4 65536 65536 64 4096 0 0) (mkQueue 1 4 131072 131072 64 4096 0 0) []
    (mkBuf 196608 196608 4096) false false None false false false 0 [].
Definition demo_world : World := mkWorld (262144 : Z) tt (fun _ => 0).

Lemma demo_fresh_rings : fresh demo_rt demo_world.
Proof. repeat split; vm_compute; try congruence; auto; try (left; congruence); by right. Qed.

(** The state after the receive ring is filled. *)
Lemma demo_running : exists rt s, running rt s /\ tx_inflight rt = false /\ buf_len (tx_buf rt) = 4096 /\ length (rx_bufs rt) = 4%nat.
Proof.
  assert ((fun r => (r.1.1, tx_inflight r.1.2, buf_len (tx_buf r.1.2), length (rx_bufs r.1.2))) <$> populate_rx_ring demo_rt demo_world = Some (true, false, 4096, 4%nat)) as H
    by (vm_compute; reflexivity).
  destruct (populate_rx_ring demo_rt demo_world) as [[[ok rt] s]|] eqn:E; [|discriminate H]. injection H as -> H1 H2 H3.
  exists rt, s. split; [|exact (conj H1 (conj H2 H3))]. exists demo_rt, demo_world, rt, s. split; [apply demo_fresh_rings|]. split; [exact E|constructor].
Qed.

Lemma rings_never_overrun_witness :
  exists rt (s : World (K := Z) (D := unit)) rt' s', dist (avail_idx (rxq rt) (mm s)) (last_used_idx (rxq rt)) = 4 /\ round rt s = Some (rt', s').
Proof.
  destruct demo_running as (rt & s & Hr & _ & _ & Hl). destruct (rings_never_overrun rt s Hr) as (_ & _ & H & _ & rt' & s' & E & _).
  exists rt, s, rt', s'. rewrite H, Hl. split; [reflexivity|exact E].
Defined.

Lemma transmit_only_when_idle_witness :
  exists rt (s : World (K := Z) (D := unit)) rt' s', queue_tx_frame rt (arp_request [82; 84; 0; 18; 52; 86]) s = Some ((true, rt'), s') /\
    handed_over rt (arp_request [82; 84; 0; 18; 52; 86]) s s'.
Proof.
  destruct demo_running as (rt & s & Hr & Hi & Hb & _). destruct (transmit_only_when_idle rt (arp_request [82; 84; 0; 18; 52; 86]) s Hr) as (ok & rt' & s' & E & H).
  destruct ok; [|destruct H as (_ & _ & [H|H]); [congruence|rewrite Hb in H; vm_compute in H; discriminate H]].
  destruct H as (_ & _ & H). exists rt, s, rt', s'. split; [exact E|exact H].
Defined.
End NetProps.
