(* ===== verification/Hid.v ===== *)
(** Keyboards and mice on USB: [src/drivers/usb/src/hid.rs] and the calls of
    [src/user/input.rs] through which the driver feeds them to the kernel.

    A keyboard reports the keys that are down; the kernel takes the codes of a PS/2
    keyboard, one per change.  The theorem is that the codes, read the way a PS/2
    keyboard's are, always tell which keys the last report held. *)

From Stdlib Require Import ZArith Lia.
From stdpp Require Import base list option numbers gmap sets.
From S2P Require Import Prelude UserMem Bytes.
Import Bytes.

Local Open Scope Z_scope.

(** The two system calls that take input; zero is success. *)
Class InputCalls (E : Type) := {
  keyboard_inject : Z -> E -> Z * E;
  mouse_inject : Z -> E -> Z * E;
}.

Module Hid.

Definition SC_RELEASE : Z := 128.

Inductive HidReportKind := Keyboard | Mouse | Unknown.

Record MouseDecodeEntry := mkEntry { used : bool; slot : Z; ep : Z; prev_buttons : Z }.

Definition entry_new : MouseDecodeEntry := mkEntry false 0 0 0.

Record HidParserState := mkHid {
  prev_keys : bytes; prev_modifiers : Z; warned_kbd_inject : bool; warned_mouse_inject : bool; mouse_entries : list MouseDecodeEntry
}.

Definition hid_default : HidParserState := mkHid (replicate 6 0) 0 false false (replicate 8 entry_new).

(** The first position at which a test holds. *)
Fixpoint position {A} (f : A -> bool) (l : list A) : option nat :=
  match l with
  | [] => None
  | x :: l => if f x then Some 0%nat else S <$> position f l
  end.

Definition set_entries (l : list MouseDecodeEntry) (st : HidParserState) : HidParserState :=
  mkHid (prev_keys st) (prev_modifiers st) (warned_kbd_inject st) (warned_mouse_inject st) l.

(** The index of the entry of a mouse: its own, a free one, or the first. *)
Definition mouse_entry_mut (st : HidParserState) (sl e : Z) : nat * HidParserState :=
  match position (fun x => used x && (slot x =? sl) && (ep x =? e)) (mouse_entries st) with
  | Some idx => (idx, st)
  | None =>
      let idx := default 0%nat (position (fun x => negb (used x)) (mouse_entries st)) in
      (idx, set_entries (<[idx := mkEntry true sl e 0]> (mouse_entries st)) st)
  end.

Definition map_hid_usage_to_set1_scancode (usage : Z) : option Z :=
  match usage with
  | 4 => Some 30 | 5 => Some 48 | 6 => Some 46 | 7 => Some 32 | 8 => Some 18 | 9 => Some 33 | 10 => Some 34 | 11 => Some 35 | 12 => Some 23
  | 13 => Some 36 | 14 => Some 37 | 15 => Some 38 | 16 => Some 50 | 17 => Some 49 | 18 => Some 24 | 19 => Some 25 | 20 => Some 16 | 21 => Some 19
  | 22 => Some 31 | 23 => Some 20 | 24 => Some 22 | 25 => Some 47 | 26 => Some 17 | 27 => Some 45 | 28 => Some 21 | 29 => Some 44
  | 30 => Some 2 | 31 => Some 3 | 32 => Some 4 | 33 => Some 5 | 34 => Some 6 | 35 => Some 7 | 36 => Some 8 | 37 => Some 9 | 38 => Some 10 | 39 => Some 11
  | 40 => Some 28 | 41 => Some 1 | 42 => Some 14 | 43 => Some 15 | 44 => Some 57 | 45 => Some 12 | 46 => Some 13 | 47 => Some 26 | 48 => Some 27 | 49 => Some 43
  | 51 => Some 39 | 52 => Some 40 | 53 => Some 41 | 54 => Some 51 | 55 => Some 52 | 56 => Some 53
  | _ => None
  end.

Section driver.
Context {E : Type} `{!InputCalls E}.

Definition call_inject_scancode (scancode : Z) (e : E) : bool * E := let '(ret, e) := keyboard_inject scancode e in (ret =? 0, e).

(** [dx], [dy] and [wheel] as signed bytes. *)
Definition inject_mouse_packet (buttons dx dy wheel : Z) (e : E) : bool * E :=
  let status := Z.lor (Z.land buttons 7) 8 in
  let status := if dx <? 0 then Z.lor status (Z.shiftl 1 4) else status in
  let status := if dy <? 0 then Z.lor status (Z.shiftl 1 5) else status in
  let packet := Z.lor (Z.lor (Z.lor status (Z.shiftl (dx mod 256) 8)) (Z.shiftl (dy mod 256) 16)) (Z.shiftl (wheel mod 256) 24) in
  let '(ret, e) := mouse_inject packet e in (ret =? 0, e).

(** Operations of the parser: the parser's state and the kernel. *)
Definition HP : Type := HidParserState * E -> HidParserState * E.

Definition inject_scancode (scancode : Z) : HP := fun '(st, e) =>
  let '(ok, e) := call_inject_scancode scancode e in
  (if ok then st else mkHid (prev_keys st) (prev_modifiers st) true (warned_mouse_inject st) (mouse_entries st), e).

Definition modifier_pairs : list (Z * bool * Z) :=
  [(1, false, 29); (2, false, 42); (4, false, 56); (8, true, 91); (16, true, 29); (32, false, 54); (64, true, 56); (128, true, 92)].

(** One modifier key. *)
Definition modifier_transition (old_mod new_mod : Z) (pair : Z * bool * Z) : HP := fun x =>
  let '(mask, e0, sc) := pair in
  let was := negb (Z.land old_mod mask =? 0) in
  let now := negb (Z.land new_mod mask =? 0) in
  let prefix x := if e0 then inject_scancode 224 x else x in
  if negb was && now then inject_scancode sc (prefix x)
  else if was && negb now then inject_scancode (Z.lor sc SC_RELEASE) (prefix x)
  else x.

Definition set_modifiers (m : Z) (st : HidParserState) : HidParserState :=
  mkHid (prev_keys st) m (warned_kbd_inject st) (warned_mouse_inject st) (mouse_entries st).

Definition inject_modifier_transitions (new_mod : Z) : HP := fun x =>
  let old_mod := prev_modifiers x.1 in
  let '(st, e) := foldl (fun x p => modifier_transition old_mod new_mod p x) x modifier_pairs in (set_modifiers new_mod st, e).

(** Where the boot report starts: at the first byte, or behind a report number. *)
Definition report_offset (report : bytes) : option nat :=
  let fits offset := negb (length report <? offset + 8)%nat && (report !!! (offset + 1)%nat =? 0) in
  if fits 0%nat then Some 0%nat else if fits 1%nat then Some 1%nat else None.

(** The keys of one report that are missing in the other, as codes. *)
Definition inject_changes (release : bool) (keys others : bytes) : HP := fun x =>
  foldl (fun x usage =>
    if (usage =? 0) || bool_decide (usage ∈ others) then x
    else match map_hid_usage_to_set1_scancode usage with
         | Some scancode => inject_scancode (if release then Z.lor scancode SC_RELEASE else scancode) x
         | None => x
         end) x keys.

Definition parse_hid_keyboard_report (report : bytes) (strict : bool) (x : HidParserState * E) : bool * (HidParserState * E) :=
  match report_offset report with
  | None => (false, x)
  | Some offset =>
      let modifiers := report !!! offset in
      let keys := take 6 (drop (offset + 2) report) in
      if strict && existsb (fun usage => negb (usage =? 0) && negb (bool_decide (is_Some (map_hid_usage_to_set1_scancode usage)))) keys then (false, x)
      else
        let x := inject_modifier_transitions modifiers x in
        let prev := prev_keys x.1 in
        let x := inject_changes true prev keys x in
        let '(st, e) := inject_changes false keys prev x in
        (true, (mkHid keys (prev_modifiers st) (warned_kbd_inject st) (warned_mouse_inject st) (mouse_entries st), e))
  end.

(** [as i8] *)
Definition as_i8 (v : Z) : Z := if v <? 128 then v else v - 256.

Definition parse_hid_mouse_report (sl e : Z) (report : bytes) (x : HidParserState * E) : bool * (HidParserState * E) :=
  if (length report <? 3)%nat then (false, x)
  else
    let raw_buttons := report !!! 0%nat in
    if negb (Z.land raw_buttons 224 =? 0) then (false, x)
    else
      let buttons := Z.land raw_buttons 7 in
      let dx := as_i8 (report !!! 1%nat) in
      let dy := as_i8 (report !!! 2%nat) in
      let wheel := if (3 <? length report)%nat then as_i8 (report !!! 3%nat) else 0 in
      let '(st, k) := x in
      let '(idx, st) := mouse_entry_mut st sl e in
      let prev := default 0 (prev_buttons <$> mouse_entries st !! idx) in
      let has_change := negb (dx =? 0) || negb (dy =? 0) || negb (wheel =? 0) || negb (buttons =? prev) in
      let '(ok, k) := if has_change then inject_mouse_packet buttons dx dy wheel k else (true, k) in
      let '(idx, st) := mouse_entry_mut st sl e in
      let st := set_entries (alter (fun en => mkEntry (used en) (slot en) (ep en) buttons) idx (mouse_entries st)) st in
      (true, (mkHid (prev_keys st) (prev_modifiers st) (warned_kbd_inject st) (if ok then warned_mouse_inject st else true) (mouse_entries st), k)).

Definition parse_hid_report (sl e : Z) (report : bytes) (kind : HidReportKind) (x : HidParserState * E) : HidParserState * E :=
  match kind with
  | Keyboard => (parse_hid_keyboard_report report false x).2
  | Mouse => (parse_hid_mouse_report sl e report x).2
  | Unknown => (parse_hid_keyboard_report report true x).2
  end.
End driver.

(** ** Reading the codes *)

(** A reader of PS/2 codes: a prefix is waiting, and which keys are down. *)
Definition decode1 (s : bool * gset (bool * Z)) (c : Z) : bool * gset (bool * Z) :=
  if c =? 224 then (true, s.2) else (false, if c <? 128 then {[(s.1, c)]} ∪ s.2 else s.2 ∖ {[(s.1, c - 128)]}).
Definition decode (codes : list Z) : bool * gset (bool * Z) := foldl decode1 (false, ∅) codes.

(** The kernel takes every code of a privileged driver, in order. *)
Class KeyLog (E : Type) `{!InputCalls E} := {
  codes : E -> list Z;
  inject_logged c e : 0 <= c < 256 -> (keyboard_inject c e).1 = 0 /\ codes (keyboard_inject c e).2 = codes e ++ [c];
  mouse_apart p e : codes (mouse_inject p e).2 = codes e;
}.

(** The keys a report holds, as the codes of a PS/2 keyboard. *)
Definition down (modifiers : Z) (keys : bytes) (k : bool * Z) : Prop :=
  (exists mask, (mask, k.1, k.2) ∈ modifier_pairs /\ Z.land modifiers mask <> 0) \/
  (k.1 = false /\ exists u, u ∈ keys /\ u <> 0 /\ map_hid_usage_to_set1_scancode u = Some k.2).

Section tracking.
Context {E : Type} `{!InputCalls E, !KeyLog E}.
Implicit Types x : HidParserState * E.

Lemma inject_spec c x : 0 <= c < 256 -> exists e, inject_scancode c x = (x.1, e) /\ decode (codes e) = decode1 (decode (codes x.2)) c.
Proof.
  destruct x as [st e]. intros Hc. destruct (inject_logged c e Hc) as [H1 H2]. unfold inject_scancode, call_inject_scancode. destruct (keyboard_inject c e) as [r e']. cbn in H1, H2. subst r.
  exists e'. split; [done|]. rewrite H2. unfold decode. by rewrite foldl_app.
Qed.

(** The keys that are down, when no prefix is waiting. *)
Definition reads x (P : gset (bool * Z)) : Prop := decode (codes x.2) = (false, P).

Lemma inject_key (e0 now : bool) sc x P :
  reads x P -> 0 <= sc < 96 ->
  exists e, inject_scancode (if now then sc else Z.lor sc SC_RELEASE) (if e0 then inject_scancode 224 x else x) = (x.1, e) /\
    reads (x.1, e) (if now then {[(e0, sc)]} ∪ P else P ∖ {[(e0, sc)]}).
Proof.
  intros Hr Hs. assert (Z.lor sc SC_RELEASE = sc + 128) as Hl.
  { unfold SC_RELEASE. rewrite <-Z.lxor_lor, <-Z.add_nocarry_lxor; [done|..]; apply Z.bits_inj'; intros n Hn; rewrite Z.land_spec, Z.bits_0;
      (destruct (decide (n = 7)) as [->|H7]; [rewrite (Z.bits_above_log2 sc 7); [done|lia|]|]; [destruct (decide (sc = 0)) as [->|]; [cbn; lia|]; apply Z.log2_lt_pow2; lia|
       change 128 with (2 ^ 7); rewrite Z.pow2_bits_false by lia; by rewrite andb_false_r]). }
  assert (exists x1, (if e0 then inject_scancode 224 x else x) = x1 /\ x1.1 = x.1 /\ decode (codes x1.2) = (e0, P)) as (x1 & -> & Hx1 & Hd).
  { destruct e0; [|by exists x]. destruct (inject_spec 224 x ltac:(lia)) as (e & -> & He). exists (x.1, e). split; [done|]. split; [done|]. cbn. by rewrite He, Hr. }
  destruct (inject_spec (if now then sc else Z.lor sc SC_RELEASE) x1) as (e & -> & He); [destruct now; lia|]. exists e. rewrite Hx1. split; [done|]. unfold reads. cbn [snd]. rewrite He, Hd.
  unfold decode1. cbn [fst snd]. destruct now.
  - rewrite (proj2 (Z.eqb_neq sc 224)), (proj2 (Z.ltb_lt sc 128)) by lia. done.
  - rewrite Hl, (proj2 (Z.eqb_neq (sc + 128) 224)), (proj2 (Z.ltb_ge (sc + 128) 128)) by lia. by replace (sc + 128 - 128) with sc by lia.
Qed.

Definition is_down (m : Z) (p : Z * bool * Z) : Prop := Z.land m p.1.1 <> 0.
Notation code_of p := (p.1.2, p.2).

Lemma modifier_spec old new (p : Z * bool * Z) x P :
  reads x P -> 0 <= p.2 < 96 -> (code_of p ∈ P <-> is_down old p) ->
  exists e P', modifier_transition old new p x = (x.1, e) /\ reads (x.1, e) P' /\
    forall k, k ∈ P' <-> (k = code_of p /\ is_down new p) \/ (k <> code_of p /\ k ∈ P).
Proof.
  intros Hr Hs Hw. destruct p as [[mask e0] sc]. unfold modifier_transition, is_down in *. cbn [fst snd] in *.
  destruct (Z.eqb_spec (Z.land old mask) 0) as [Ho|Ho], (Z.eqb_spec (Z.land new mask) 0) as [Hn|Hn]; cbn [negb andb].
  1,4: destruct x as [st e]; exists e, P; split; [done|]; split; [done|]; intros k; destruct (decide (k = (e0, sc))) as [->|]; naive_solver.
  - destruct (inject_key e0 true sc x P Hr Hs) as (e & E1 & E2). exists e, ({[(e0, sc)]} ∪ P). split; [done|]. split; [done|]. intros k. destruct (decide (k = (e0, sc))) as [->|]; set_solver.
  - destruct (inject_key e0 false sc x P Hr Hs) as (e & E1 & E2). exists e, (P ∖ {[(e0, sc)]}). split; [done|]. split; [done|]. intros k. destruct (decide (k = (e0, sc))) as [->|]; set_solver.
Qed.

Lemma modifiers_fold old new (l : list (Z * bool * Z)) x P :
  reads x P -> Forall (fun p => 0 <= p.2 < 96) l -> NoDup ((fun p => code_of p) <$> l) -> (forall p, p ∈ l -> code_of p ∈ P <-> is_down old p) ->
  exists e P', foldl (fun x p => modifier_transition old new p x) x l = (x.1, e) /\ reads (x.1, e) P' /\
    forall k, k ∈ P' <-> (exists p, p ∈ l /\ k = code_of p /\ is_down new p) \/ (k ∉ (fun p => code_of p) <$> l) /\ k ∈ P.
Proof.
  revert x P. induction l as [|p l IH]; intros x P Hr Hs Hn Hw.
  { destruct x as [st e]. exists e, P. split; [done|]. split; [done|]. intros k. split; [intros H; right; split; [apply not_elem_of_nil|done]|].
    intros [(p & Hp & _)|[_ H]]; [by apply not_elem_of_nil in Hp|done]. }
  apply list.Forall_cons in Hs as [Hs0 Hs]. rewrite fmap_cons in Hn. apply NoDup_cons in Hn as [Hn0 Hn].
  destruct (modifier_spec old new p x P Hr Hs0 (Hw p ltac:(left))) as (e1 & P1 & E1 & R1 & H1). cbn [foldl]. rewrite E1.
  destruct (IH (x.1, e1) P1 R1 Hs Hn) as (e2 & P2 & E2 & R2 & H2).
  { intros q Hq. rewrite H1, <-(Hw q) by (by right). split; [intros [[Eq _]|[_ H]]; [exfalso; apply Hn0; rewrite <-Eq; apply list_elem_of_fmap; eauto|done]|].
    intros H. right. split; [|done]. intros Eq. apply Hn0. rewrite <-Eq. apply list_elem_of_fmap. eauto. }
  exists e2, P2. split; [exact E2|]. split; [exact R2|]. intros k. rewrite H2, H1, fmap_cons, not_elem_of_cons. split.
  - intros [(q & Hq & Hk & Hd)|(Hk & [[-> Hd]|[Hk' H]])]; [left; exists q; split; [by right|done]|left; exists p; split; [left|done]|by right].
  - intros [(q & [->|Hq]%elem_of_cons & Hk & Hd)|([Hk Hk'] & H)]; [right; split; [by rewrite Hk|by left]|left; by exists q|right; split; [done|by right]].
Qed.

Lemma pairs_facts : Forall (fun p : Z * bool * Z => 0 <= p.2 < 96) modifier_pairs /\ NoDup ((fun p => code_of p) <$> modifier_pairs).
Proof. split; [|apply (bool_decide_unpack _); by vm_compute]. repeat constructor; cbn; lia. Qed.

(** Keys and modifiers have different codes, and so do different keys. *)
Definition usages : list Z := Z.of_nat <$> seq 0 57.

Lemma usage_range u sc : map_hid_usage_to_set1_scancode u = Some sc -> u ∈ usages.
Proof.
  intros H. apply list_elem_of_fmap. exists (Z.to_nat u). assert (0 <= u <= 56) as Hu.
  { destruct (decide (0 <= u <= 56)) as [|Hn]; [done|]. exfalso. unfold map_hid_usage_to_set1_scancode in H. destruct u as [|q|q]; [lia| |done].
    do 6 (destruct q as [q|q|]; try discriminate H; try lia). }
  split; [lia|]. apply elem_of_seq. lia.
Qed.

Lemma usage_facts u sc : map_hid_usage_to_set1_scancode u = Some sc ->
  0 <= sc < 96 /\ ((false, sc) ∉ (fun p : Z * bool * Z => code_of p) <$> modifier_pairs) /\ forall u', map_hid_usage_to_set1_scancode u' = Some sc -> u' = u.
Proof.
  intros H. pose proof (usage_range u sc H) as Hu.
  assert (forallb (fun v => match map_hid_usage_to_set1_scancode v with None => true | Some c =>
    (0 <=? c) && (c <? 96) && bool_decide ((false, c) ∉ (fun p : Z * bool * Z => code_of p) <$> modifier_pairs) &&
    forallb (fun w => negb (bool_decide (map_hid_usage_to_set1_scancode w = Some c)) || (w =? v)) usages end) usages = true) as Hall by (vm_compute; reflexivity).
  rewrite forallb_forall in Hall. specialize (Hall u (proj1 (list_elem_of_In _ _) Hu)). rewrite H in Hall.
  apply andb_prop in Hall as [[[H1 H2]%andb_prop H3]%andb_prop H4]. apply bool_decide_eq_true in H3. split; [lia|]. split; [done|].
  intros u' H'. rewrite forallb_forall in H4. specialize (H4 u' (proj1 (list_elem_of_In _ _) (usage_range u' sc H'))). rewrite bool_decide_true in H4 by done. cbn in H4. by apply Z.eqb_eq in H4.
Qed.

(** The codes of the keys that one list has and the other has not. *)
Definition changed (keys others : bytes) (k : bool * Z) : Prop := k.1 = false /\ exists u, u ∈ keys /\ u <> 0 /\ u ∉ others /\ map_hid_usage_to_set1_scancode u = Some k.2.

Lemma changes_spec (release : bool) keys others x P :
  reads x P -> exists e P', inject_changes release keys others x = (x.1, e) /\ reads (x.1, e) P' /\
    forall k, k ∈ P' <-> if release then k ∈ P /\ ~ changed keys others k else k ∈ P \/ changed keys others k.
Proof.
  unfold inject_changes. revert x P. induction keys as [|u keys IH]; intros x P Hr.
  { destruct x as [st e]. exists e, P. split; [done|]. split; [done|]. intros k. destruct release; split.
    - intros H. split; [done|]. intros (_ & u & Hu & _). by apply not_elem_of_nil in Hu.
    - by intros [H _].
    - by left.
    - intros [H|(_ & u & Hu & _)]; [done|]. by apply not_elem_of_nil in Hu. }
  cbn [foldl]. set (x1 := if (u =? 0) || _ then x else _).
  assert (exists P1, x1.1 = x.1 /\ reads x1 P1 /\ forall k, k ∈ P1 <-> if release then k ∈ P /\ ~ changed [u] others k else k ∈ P \/ changed [u] others k) as (P1 & S1 & R1 & H1).
  { assert (forall v k, v = u -> changed [v] others k -> u <> 0 /\ u ∉ others /\ k.1 = false /\ map_hid_usage_to_set1_scancode u = Some k.2) as Hch.
    { intros v k -> (Hb & w & ->%list_elem_of_singleton & H1 & H2 & H3). done. }
    assert ((forall k, ~ changed [u] others k) -> forall k, k ∈ P <-> if release then k ∈ P /\ ~ changed [u] others k else k ∈ P \/ changed [u] others k) as Hno.
    { intros H k. specialize (H k). destruct release; tauto. }
    unfold x1. destruct (Z.eqb_spec u 0) as [Hu|Hu]; cbn [orb]; [exists P; split; [done|]; split; [done|]; apply Hno; intros k H; by destruct (Hch u k eq_refl H)|].
    case_bool_decide as Ho; [exists P; split; [done|]; split; [done|]; apply Hno; intros k H; by destruct (Hch u k eq_refl H) as (_ & ? & _)|].
    destruct (map_hid_usage_to_set1_scancode u) as [sc|] eqn:Em.
    - destruct (usage_facts u sc Em) as (Hs & _). destruct (inject_key false (negb release) sc x P Hr Hs) as (e & E1 & R).
      replace (if negb release then sc else Z.lor sc SC_RELEASE) with (if release then Z.lor sc SC_RELEASE else sc) in E1 by (by destruct release). rewrite E1.
      assert (forall k, changed [u] others k <-> k = (false, sc)) as Hk.
      { intros [b c]. split; [intros H; destruct (Hch u (b, c) eq_refl H) as (_ & _ & Hb & Hv); cbn in *; congruence|].
        intros [= -> ->]. split; [done|]. exists u. split; [by apply list_elem_of_singleton|done]. }
      eexists. split; [done|]. split; [exact R|]. intros k. specialize (Hk k). destruct release; cbn [negb]; rewrite ?elem_of_difference, ?elem_of_union, ?elem_of_singleton; tauto.
    - exists P. split; [done|]. split; [done|]. apply Hno. intros k H. destruct (Hch u k eq_refl H) as (_ & _ & _ & Hv). discriminate Hv. }
  assert (forall k, changed (u :: keys) others k <-> changed [u] others k \/ changed keys others k) as Hc.
  { intros k. unfold changed. split.
    - intros (Hb & v & [->|Hv]%elem_of_cons & H); [left; split; [done|]; exists u; split; [by apply list_elem_of_singleton|done]|right; split; [done|]; by exists v].
    - intros [(Hb & v & ->%list_elem_of_singleton & H)|(Hb & v & Hv & H)]; (split; [done|]); [exists u; split; [left|done]|exists v; split; [by right|done]]. }
  destruct (IH x1 P1 R1) as (e & P' & E' & R' & H'). exists e, P'. rewrite <-S1. split; [exact E'|]. split; [exact R'|]. intros k. specialize (H' k). specialize (H1 k). specialize (Hc k). destruct release; tauto.
Qed.

(** The codes so far tell which keys the last report held. *)
Definition tracked x (modifiers : Z) (keys : bytes) : Prop := exists P, reads x P /\ forall k, k ∈ P <-> down modifiers keys k.

Lemma code_pair (k : bool * Z) : k ∈ (fun p : Z * bool * Z => code_of p) <$> modifier_pairs <-> exists mask, (mask, k.1, k.2) ∈ modifier_pairs.
Proof.
  rewrite list_elem_of_fmap. split; [intros ([[m b] c] & -> & H); by exists m|]. intros [m H]. exists (m, k.1, k.2). split; [by destruct k|done].
Qed.

Lemma pair_unique mask mask' b c : (mask, b, c) ∈ modifier_pairs -> (mask', b, c) ∈ modifier_pairs -> mask = mask'.
Proof.
  intros [i Hi]%list_elem_of_lookup [j Hj]%list_elem_of_lookup. destruct pairs_facts as [_ Hn]. rewrite NoDup_alt in Hn.
  assert (i = j) as <- by (apply (Hn i j (b, c)); rewrite list_lookup_fmap; [by rewrite Hi|by rewrite Hj]). congruence.
Qed.

Lemma keys_no_modifier (keys : bytes) (k : bool * Z) : k ∈ (fun p : Z * bool * Z => code_of p) <$> modifier_pairs ->
  ~ (k.1 = false /\ exists u, u ∈ keys /\ u <> 0 /\ map_hid_usage_to_set1_scancode u = Some k.2).
Proof. intros Hk (Hb & u & _ & _ & Hm). destruct (usage_facts u _ Hm) as (_ & H & _). apply H. destruct k as [b c]. cbn in *. by subst b. Qed.

Lemma modifiers_tracked new x old keys :
  tracked x old keys -> prev_modifiers x.1 = old -> exists e, inject_modifier_transitions new x = (set_modifiers new x.1, e) /\ tracked (set_modifiers new x.1, e) new keys.
Proof.
  intros (P & Hr & HP) <-. destruct pairs_facts as [F1 F2]. destruct (modifiers_fold (prev_modifiers x.1) new modifier_pairs x P Hr F1 F2) as (e & P' & E' & R' & H').
  { intros [[m b] c] Hp. rewrite HP. unfold down, is_down. cbn [fst snd]. split; [|intros H; left; by exists m].
    intros [(m' & Hm & H)|H]; [by rewrite (pair_unique m m' b c)|]. exfalso. apply (keys_no_modifier keys (b, c)); [|done]. apply code_pair. by exists m. }
  exists e. unfold inject_modifier_transitions. rewrite E'. split; [done|]. exists P'. split; [exact R'|]. intros k. rewrite H', HP. unfold down, is_down. split.
  - intros [([[m b] c] & Hp & -> & H)|(Hk & [(m & Hm & _)|H])]; [left; by exists m|exfalso; apply Hk, code_pair; by exists m|by right].
  - intros [(m & Hm & H)|H]; [left; exists (m, k.1, k.2); by destruct k|]. right. split; [|by right]. intros Hk. by apply (keys_no_modifier keys k).
Qed.

(** After the keys that went up and those that went down. *)
Lemma keys_tracked modifiers prev keys k :
  (down modifiers prev k /\ ~ changed prev keys k) \/ changed keys prev k <-> down modifiers keys k.
Proof.
  unfold down, changed. split.
  - intros [[[H|(Hb & u & Hu & H0 & Hm)] Hn]|(Hb & u & Hu & H0 & _ & Hm)]; [by left| |right; split; [done|]; by exists u].
    right. split; [done|]. destruct (decide (u ∈ keys)) as [Hk|Hk]; [by exists u|]. exfalso. apply Hn. split; [done|]. by exists u.
  - intros [(m & Hm & H)|(Hb & u & Hu & H0 & Hm)].
    + left. split; [left; by exists m|]. intros (Hb & u & _ & _ & _ & Hu). apply (keys_no_modifier [u] k); [apply code_pair; by exists m|].
      split; [done|]. exists u. split; [by left|]. split; [|done]. intros ->. discriminate Hu.
    + destruct (decide (u ∈ prev)) as [Hp|Hp]; [|right; split; [done|]; by exists u]. left. split; [right; split; [done|]; by exists u|].
      intros (_ & v & _ & _ & Hv & Hmv). destruct (usage_facts u _ Hm) as (_ & _ & Hinj). by rewrite (Hinj v Hmv) in Hv.
Qed.

Lemma keyboard_tracked report strict x :
  tracked x (prev_modifiers x.1) (prev_keys x.1) ->
  let '(ok, y) := parse_hid_keyboard_report report strict x in
  tracked y (prev_modifiers y.1) (prev_keys y.1) /\
  if (ok : bool) then exists offset, report_offset report = Some offset /\ prev_modifiers y.1 = report !!! offset /\ prev_keys y.1 = take 6 (drop (offset + 2) report) else y = x.
Proof.
  intros Ht. unfold parse_hid_keyboard_report. destruct (report_offset report) as [off|]; [|done]. destruct (strict && _); [done|].
  destruct (modifiers_tracked (report !!! off) x _ _ Ht eq_refl) as (e1 & -> & P1 & R1 & H1). cbn [fst]. set (keys := take 6 (drop (off + 2) report)). set (st := set_modifiers (report !!! off) x.1) in *.
  change (prev_keys st) with (prev_keys x.1).
  destruct (changes_spec true (prev_keys x.1) keys (st, e1) P1 R1) as (e2 & P2 & -> & R2 & H2). cbn [fst].
  destruct (changes_spec false keys (prev_keys x.1) (st, e2) P2 R2) as (e3 & P3 & -> & R3 & H3). cbn [fst]. split; [|by exists off].
  exists P3. split; [exact R3|]. intros k. cbn [fst prev_keys prev_modifiers]. rewrite H3, H2, H1. change (prev_modifiers st) with (report !!! off). apply keys_tracked.
Qed.

Lemma mouse_tracked sl ep report x : tracked x (prev_modifiers x.1) (prev_keys x.1) ->
  let y := (parse_hid_mouse_report sl ep report x).2 in tracked y (prev_modifiers y.1) (prev_keys y.1).
Proof.
  intros (P & Hr & HP). destruct x as [st e]. unfold parse_hid_mouse_report. destruct (_ <? _)%nat; [by exists P|]. destruct (negb _); [by exists P|].
  assert (forall st : HidParserState, let st' := (mouse_entry_mut st sl ep).2 in prev_keys st' = prev_keys st /\ prev_modifiers st' = prev_modifiers st) as Hm.
  { intros st0. unfold mouse_entry_mut. by destruct (position _ _). }
  destruct (mouse_entry_mut st sl ep) as [idx st1] eqn:E1. pose proof (Hm st) as H1. rewrite E1 in H1. cbn in H1.
  match goal with |- context [let '(ok, k) := ?c in _] => assert (codes c.2 = codes e) as Hc; [|destruct c as [ok k]] end.
  { destruct (_ || _); [|done]. unfold inject_mouse_packet. match goal with |- context [mouse_inject ?p e] => pose proof (mouse_apart p e) as Hp; destruct (mouse_inject p e) end. done. }
  destruct (mouse_entry_mut st1 sl ep) as [idx2 st2] eqn:E2. pose proof (Hm st1) as H2. rewrite E2 in H2. cbn in H2, Hc |- *. destruct H1 as [H1 H1'], H2 as [H2 H2'].
  exists P. split; [unfold reads; cbn; by rewrite Hc|]. by rewrite H2, H2', H1, H1'.
Qed.

Lemma report_tracked sl ep report kind x : tracked x (prev_modifiers x.1) (prev_keys x.1) ->
  let y := parse_hid_report sl ep report kind x in tracked y (prev_modifiers y.1) (prev_keys y.1).
Proof.
  intros Ht. destruct kind; cbn [parse_hid_report]; [|by apply mouse_tracked|];
    [pose proof (keyboard_tracked report false x Ht) as H|pose proof (keyboard_tracked report true x Ht) as H]; destruct (parse_hid_keyboard_report _ _ _) as [ok y]; apply H.
Qed.

(** A run of reports of any kind. *)
Definition run (reports : list (Z * Z * bytes * HidReportKind)) x : HidParserState * E :=
  foldl (fun x '(sl, ep, report, kind) => parse_hid_report sl ep report kind x) x reports.

(** C32. The kernel always knows which keys are down.  After any reports of keyboards and
    mice, one more keyboard report is either refused without any effect, or afterwards
    the codes that were given to the kernel since the start, read as the codes of a PS/2
    keyboard, say exactly that the keys and modifiers of this report are down, and no
    others. *)
Theorem keyboard_state_tracked reports report strict e :
  codes e = [] ->
  let x := run reports (hid_default, e) in
  let '(ok, y) := parse_hid_keyboard_report report strict x in
  if (ok : bool) then
    exists offset P, report_offset report = Some offset /\ decode (codes y.2) = (false, P) /\
      forall k, k ∈ P <-> down (report !!! offset) (take 6 (drop (offset + 2) report)) k
  else y = x.
Proof.
  intros He x. assert (tracked x (prev_modifiers x.1) (prev_keys x.1)) as Ht.
  { unfold x, run. assert (tracked (hid_default, e) 0 (replicate 6 0)) as H0.
    { exists ∅. split; [unfold reads; cbn; by rewrite He|]. intros k. split; [set_solver|]. intros [(m & _ & H)|(_ & u & Hu & H & _)]; [by rewrite Z.land_0_l in H|].
      exfalso. by apply elem_of_replicate in Hu as [-> _]. }
    change (tracked (hid_default, e) (prev_modifiers hid_default) (prev_keys hid_default)) in H0. revert H0. generalize hid_default as st. generalize e as e1.
    induction reports as [|[[[sl ep] rep] kind] reports IH]; intros e1 st H0; cbn [foldl]; [done|].
    pose proof (report_tracked sl ep rep kind (st, e1) H0) as H. destruct (parse_hid_report sl ep rep kind (st, e1)) as [st2 e2]. by apply IH. }
  pose proof (keyboard_tracked report strict x Ht) as H. destruct (parse_hid_keyboard_report report strict x) as [ok y]. destruct H as [(P & Hr & HP) H].
  destruct ok; [|exact H]. destruct H as (off & Ho & Hm & Hk). exists off, P. rewrite Hm, Hk in HP. done.
Qed.
End tracking.

(** ** A kernel that keeps the codes *)

#[export] Instance code_list : InputCalls (list Z) := {| keyboard_inject c e := (0, e ++ [c]); mouse_inject _ e := (0, e) |}.
#[export] Instance code_list_log : KeyLog (list Z).
Proof. refine {| codes e := e |}; done. Defined.

(** Shift and "a", then "a" alone. *)
Lemma keyboard_state_tracked_witness :
  exists y P, parse_hid_keyboard_report [0; 0; 4; 0; 0; 0; 0; 0] false (run [(1, 3, [2; 0; 4; 0; 0; 0; 0; 0], Keyboard)] (hid_default, ([] : list Z))) = (true, y) /\
    decode (codes y.2) = (false, P) /\ ((false, 30) ∈ P <-> down 0 [4; 0; 0; 0; 0; 0] (false, 30)).
Proof.
  pose proof (keyboard_state_tracked [(1, 3, [2; 0; 4; 0; 0; 0; 0; 0], Keyboard)] [0; 0; 4; 0; 0; 0; 0; 0] false ([] : list Z) eq_refl) as H. cbv zeta in H.
  assert (exists y, parse_hid_keyboard_report [0; 0; 4; 0; 0; 0; 0; 0] false (run [(1, 3, [2; 0; 4; 0; 0; 0; 0; 0], Keyboard)] (hid_default, ([] : list Z))) = (true, y)) as [y Ey]
    by (eexists; vm_compute; reflexivity).
  rewrite Ey in H. destruct H as (off & P & Ho & Hd & HP). injection Ho as <-. exists y, P. split; [exact Ey|]. split; [exact Hd|]. exact (HP (false, 30)).
Defined.
End Hid.
