(* ===== verification/AtaBus.v ===== *)
(** An ATA bus with its two drives, as the ATA standard describes it to a host.

    Two programs of the repository talk to such a bus through processor ports: the disk
    service ([src/services/disk]) and the file-system module ([src/modules/fs]).  This
    file states what they rely on.  [Ata] is what the host may know of a bus: the command
    registers, what the selected drive is doing and the sectors; the class [AtaBuses] says
    how reads and writes of the ports move it.  How long a drive takes, and whether an
    operation succeeds, is left open ([work]). *)

From Stdlib Require Import ZArith Lia.
From stdpp Require Import base list option numbers.
From S2P Require Import Prelude State Types UserMem Bytes PortIo.
Import Bytes.

Local Open Scope Z_scope.

Module AtaBus.

(** ** The registers *)

Inductive Reg := Data | SectorCount | Low | Mid | High | Head | Status | Control.

(** [false] is the primary bus. *)
Definition port (bus : bool) (r : Reg) : Z :=
  let base := if bus then 368 else 496 in
  match r with
  | Data => base | SectorCount => base + 2 | Low => base + 3 | Mid => base + 4 | High => base + 5 | Head => base + 6 | Status => base + 7
  | Control => base + 518
  end.

(** ** What a bus is doing *)

(** The drive ([true] is the slave) and the sector a command is about. *)
Inductive Phase :=
| Idle
| Seeking (slave : bool) (lba : Z)
| Identifying (slave : bool)
| Sending (words : list Z)
| Preparing (slave : bool) (lba : Z)
| Taking (slave : bool) (lba : Z) (words : list Z)
| Storing (slave : bool) (lba : Z) (words : list Z)
| Flushing.

Definition busy (p : Phase) : bool :=
  match p with Seeking _ _ | Identifying _ | Preparing _ _ | Storing _ _ _ | Flushing => true | _ => false end.
Definition transfers (p : Phase) : bool := match p with Sending _ | Taking _ _ _ => true | _ => false end.

Record Ata := mkAta {
  count : Z; low : Z; mid : Z; high : Z; head : Z;
  phase : Phase;
  failed : bool;
  present : bool -> bool;
  identity : bool -> list Z;
  sector : bool -> Z -> list Z
}.
Implicit Types a : Ata.

Definition set_phase (p : Phase) (f : bool) a : Ata := mkAta (count a) (low a) (mid a) (high a) (head a) p f (present a) (identity a) (sector a).
Definition set_sector (slave : bool) (lba : Z) (words : list Z) a : Ata :=
  mkAta (count a) (low a) (mid a) (high a) (head a) (phase a) (failed a) (present a) (identity a)
    (fun s l => if bool_decide (s = slave /\ l = lba) then words else sector a s l).

Definition selected a : bool := Z.testbit (head a) 4.
Definition address a : Z := low a + 256 * mid a + 65536 * high a + 16777216 * (head a mod 16).

(** A sector is 256 words of 16 bits. *)
Definition is_word (w : Z) : Prop := 0 <= w < 65536.
Definition is_sector (words : list Z) : Prop := length words = 256%nat /\ Forall is_word words.

(** A write of a command register. *)
Definition set_reg (r : Reg) (v : Z) a : Ata :=
  match r with
  | SectorCount => mkAta v (low a) (mid a) (high a) (head a) (phase a) (failed a) (present a) (identity a) (sector a)
  | Low => mkAta (count a) v (mid a) (high a) (head a) (phase a) (failed a) (present a) (identity a) (sector a)
  | Mid => mkAta (count a) (low a) v (high a) (head a) (phase a) (failed a) (present a) (identity a) (sector a)
  | High => mkAta (count a) (low a) (mid a) v (head a) (phase a) (failed a) (present a) (identity a) (sector a)
  | Head => mkAta (count a) (low a) (mid a) (high a) v (phase a) (failed a) (present a) (identity a) (sector a)
  | _ => a
  end.
Definition is_setting (r : Reg) : bool := match r with SectorCount | Low | Mid | High | Head => true | _ => false end.

(** A command for the selected drive; a drive that is not there ignores it.  The
    commands are IDENTIFY, FLUSH CACHE and, for one sector, READ and WRITE SECTORS. *)
Definition start (cmd : Z) a : option Ata :=
  let go p := Some (if present a (selected a) then set_phase p false a else a) in
  if cmd =? 236 then go (Identifying (selected a))
  else if cmd =? 231 then go Flushing
  else if count a =? 1 then
    if cmd =? 32 then go (Seeking (selected a) (address a))
    else if cmd =? 48 then go (Preparing (selected a) (address a))
    else None
  else None.

(** A word to the host, and a word from it: 256 words are a sector. *)
Definition sent (words : list Z) a : Ata := set_phase (match words with [] => Idle | _ => Sending words end) (failed a) a.
Definition taken (slave : bool) (lba : Z) (words : list Z) a : Ata :=
  set_phase (if (length words <? 256)%nat then Taking slave lba words else Storing slave lba words) (failed a) a.

(** What a busy drive may come to: it finishes its work, or it fails, and then a sector
    that was being written may hold anything. *)
Inductive work a : Ata -> Prop :=
| work_found slave lba : phase a = Seeking slave lba -> work a (set_phase (Sending (sector a slave lba)) false a)
| work_identified slave : phase a = Identifying slave -> work a (set_phase (Sending (identity a slave)) false a)
| work_prepared slave lba : phase a = Preparing slave lba -> work a (set_phase (Taking slave lba []) false a)
| work_stored slave lba words : phase a = Storing slave lba words -> work a (set_phase Idle false (set_sector slave lba words a))
| work_flushed : phase a = Flushing -> work a (set_phase Idle false a)
| work_failed : busy (phase a) = true -> work a (set_phase Idle true a)
| work_lost slave lba words words' : phase a = Storing slave lba words -> is_sector words' -> work a (set_phase Idle true (set_sector slave lba words' a)).

(** What the status register says: bit 7 is BSY, and only when it is clear bit 3 (DRQ)
    and bit 0 (ERR) count.  Where there is no drive it is 0. *)
Definition shows a (v : Z) : Prop :=
  if present a (selected a) then
    Z.testbit v 7 = busy (phase a) /\ (busy (phase a) = false -> Z.testbit v 3 = transfers (phase a) /\ Z.testbit v 0 = failed a /\ Z.testbit v 5 = false)
  else v = 0.

(** [a'] is [a] or what its drive has come to. *)
Definition later a a' : Prop := a' = a \/ work a a'.
End AtaBus.
Import AtaBus.

(** The ports of the two buses. *)
Class AtaBuses (D : Type) `{!Ports D} := {
  ata : bool -> D -> Ata;
  bus_status bus d r : r = Status \/ r = Control ->
    let '(v, d') := port_read 1 (port bus r) d in later (ata bus d) (ata bus d') /\ shows (ata bus d') v;
  bus_data_in bus d w words : phase (ata bus d) = Sending (w :: words) -> is_word w ->
    let '(v, d') := port_read 2 (port bus Data) d in v = w /\ ata bus d' = sent words (ata bus d);
  bus_data_out bus d v slave lba words : phase (ata bus d) = Taking slave lba words ->
    ata bus (port_write 2 (port bus Data) v d) = taken slave lba (words ++ [v]) (ata bus d);
  bus_setting bus d r v : is_setting r = true -> phase (ata bus d) = Idle -> ata bus (port_write 1 (port bus r) v d) = set_reg r v (ata bus d);
  bus_command bus d v a' : phase (ata bus d) = Idle -> start v (ata bus d) = Some a' -> ata bus (port_write 1 (port bus Status) v d) = a';
  bus_other_read bus r w d : ata (negb bus) (port_read w (port bus r) d).2 = ata (negb bus) d;
  bus_other_write bus r w v d : ata (negb bus) (port_write w (port bus r) v d) = ata (negb bus) d;
}.

(** Two things the standard does not promise: a busy drive shows neither DRQ nor ERR, and
    it ignores commands. *)
Class TolerantBuses (D : Type) `{!Ports D} `{!AtaBuses D} := {
  busy_quiet bus d : busy (phase (ata bus (port_read 1 (port bus Status) d).2)) = true ->
    let v := (port_read 1 (port bus Status) d).1 in Z.testbit v 3 = false /\ Z.testbit v 0 = false;
  busy_ignores bus d v : busy (phase (ata bus d)) = true -> ata bus (port_write 1 (port bus Status) v d) = ata bus d;
}.

(** ** Drives that work

    Two buses whose drives finish whenever their status is read; a write fails where
    [broken] says so. *)
Module AtaSim.

Record Sim := mkSim { primary : Ata; secondary : Ata; broken : Z -> bool }.
Implicit Types m : Sim.

Definition sim_ata (bus : bool) m : Ata := if bus then secondary m else primary m.
Definition set_ata (bus : bool) a m : Sim := if bus then mkSim (primary m) a (broken m) else mkSim a (secondary m) (broken m).

Definition progress (bad : Z -> bool) a : Ata :=
  match phase a with
  | Seeking slave lba => set_phase (Sending (sector a slave lba)) false a
  | Identifying slave => set_phase (Sending (identity a slave)) false a
  | Preparing slave lba => set_phase (Taking slave lba []) false a
  | Storing slave lba words => if bad lba then set_phase Idle true a else set_phase Idle false (set_sector slave lba words a)
  | Flushing => set_phase Idle false a
  | _ => a
  end.

Definition status_of a : Z :=
  if present a (selected a) then
    if busy (phase a) then 128 else 64 + (if transfers (phase a) then 8 else 0) + (if failed a then 1 else 0)
  else 0.

(** The bus and register of a port. *)
Definition decode (p : Z) : option (bool * Reg) :=
  let regs := [Data; SectorCount; Low; Mid; High; Head; Status; Control] in
  List.find (fun '(bus, r) => port bus r =? p) (((fun r => (false, r)) <$> regs) ++ ((fun r => (true, r)) <$> regs)).

Lemma decode_port bus r : decode (port bus r) = Some (bus, r).
Proof. by destruct bus, r. Qed.

Definition sim_read (w p : Z) m : Z * Sim :=
  match decode p with
  | Some (bus, Status) | Some (bus, Control) => let a := progress (broken m) (sim_ata bus m) in (status_of a mod 2 ^ (8 * w), set_ata bus a m)
  | Some (bus, Data) =>
      let a := sim_ata bus m in
      match phase a with
      | Sending (x :: words) => (x mod 2 ^ (8 * w), set_ata bus (sent words a) m)
      | _ => (0, m)
      end
  | _ => (0, m)
  end.

Definition sim_write (w p v : Z) m : Sim :=
  match decode p with
  | Some (bus, Data) =>
      let a := sim_ata bus m in
      match phase a with Taking slave lba words => set_ata bus (taken slave lba (words ++ [v]) a) m | _ => m end
  | Some (bus, Status) =>
      let a := sim_ata bus m in
      match phase a with Idle => set_ata bus (default a (start v a)) m | _ => m end
  | Some (bus, r) => let a := sim_ata bus m in match phase a with Idle => set_ata bus (set_reg r v a) m | _ => m end
  | None => m
  end.

#[export] Program Instance sim_ports : Ports Sim := {| port_read := sim_read; port_write := sim_write |}.
Next Obligation.
  intros w p m Hw. assert (0 < 2 ^ (8 * w)) by (apply Z.pow_pos_nonneg; lia). unfold sim_read. destruct (decode p) as [[bus []]|]; cbn; try lia; try (apply Z.mod_pos_bound; lia).
  destruct (phase (sim_ata bus m)) as [| | |[|x words]| | | |]; cbn; try lia. apply Z.mod_pos_bound. lia.
Qed.

Lemma sim_same bus a m : sim_ata bus (set_ata bus a m) = a.
Proof. by destruct bus. Qed.
Lemma sim_other bus a m : sim_ata (negb bus) (set_ata bus a m) = sim_ata (negb bus) m.
Proof. by destruct bus. Qed.

Lemma progress_later bad a : later a (progress bad a).
Proof.
  unfold later, progress. destruct (phase a) eqn:P; try (by left); right; try (by econstructor). destruct (bad lba); [|by econstructor]. apply work_failed. by rewrite P.
Qed.

Lemma progress_awake bad a : busy (phase (progress bad a)) = false.
Proof. unfold progress. destruct (phase a) eqn:P; try done; [by rewrite P..|by destruct (bad lba)]. Qed.

Lemma status_of_range a : 0 <= status_of a < 256.
Proof. unfold status_of. destruct (present a (selected a)), (busy (phase a)), (transfers (phase a)), (failed a); lia. Qed.

Lemma status_shows a : shows a (status_of a).
Proof. unfold shows, status_of. destruct (present a (selected a)), (busy (phase a)), (transfers (phase a)), (failed a); done. Qed.

Lemma sim_status bus r m : r = Status \/ r = Control -> sim_read 1 (port bus r) m = (status_of (progress (broken m) (sim_ata bus m)), set_ata bus (progress (broken m) (sim_ata bus m)) m).
Proof.
  intros Hr. unfold sim_read. rewrite decode_port. pose proof (status_of_range (progress (broken m) (sim_ata bus m))) as H.
  destruct Hr as [-> | ->]; cbv zeta; by rewrite Z.mod_small by exact H.
Qed.

#[export] Program Instance sim_buses : AtaBuses Sim := {| ata := sim_ata |}.
Next Obligation.
  intros bus m r Hr. cbn [port_read sim_ports]. rewrite sim_status by done. rewrite sim_same. split; [apply progress_later|apply status_shows].
Qed.
Next Obligation.
  intros bus m w words P Hw. cbn [port_read sim_ports]. unfold sim_read. rewrite decode_port, P, sim_same. split; [|done]. by apply Z.mod_small.
Qed.
Next Obligation. intros bus m v slave lba words P. cbn [port_write sim_ports]. unfold sim_write. by rewrite decode_port, P, sim_same. Qed.
Next Obligation. intros bus m r v Hr P. cbn [port_write sim_ports]. unfold sim_write. rewrite decode_port. destruct r; try done; cbv zeta; by rewrite P, sim_same. Qed.
Next Obligation. intros bus m v a' P Hs. cbn [port_write sim_ports]. unfold sim_write. by rewrite decode_port, P, Hs, sim_same. Qed.
Next Obligation.
  intros bus r w m. cbn [port_read sim_ports]. unfold sim_read. rewrite decode_port. destruct r; cbn [snd]; try done; try apply sim_other.
  destruct (phase (sim_ata bus m)) as [| | |[|x words]| | | |]; cbn [snd]; try done. apply sim_other.
Qed.
Next Obligation.
  intros bus r w v m. cbn [port_write sim_ports]. unfold sim_write. rewrite decode_port. destruct r; cbv zeta; destruct (phase (sim_ata bus m)); try done; apply sim_other.
Qed.

#[export] Program Instance sim_tolerant : TolerantBuses Sim.
Next Obligation. intros bus m. cbn [port_read sim_ports ata sim_buses]. rewrite sim_status by by left. cbn [fst snd]. rewrite sim_same, progress_awake. done. Qed.
Next Obligation. intros bus m v H. cbn [port_write sim_ports ata sim_buses] in *. unfold sim_write. rewrite decode_port. cbv zeta. by destruct (phase (sim_ata bus m)). Qed.

(** A primary master whose sectors hold their own number, and nothing else. *)
Definition fresh_ata (there : bool) : Ata :=
  mkAta 0 0 0 0 0 Idle false (fun slave => there && negb slave) (fun _ => replicate 60 0 ++ [8] ++ replicate 195 0) (fun _ lba => replicate 256 (lba mod 65536)).
Definition fresh (bad : Z -> bool) : Sim := mkSim (fresh_ata true) (fresh_ata false) bad.
End AtaSim.
