(* ===== verification/DiskService.v ===== *)
(** The disk service, [src/services/disk/src/ata.rs] and [main.rs].

    The service drives up to four ATA drives through processor ports (the class [Ports])
    and answers requests that arrive as messages.  What it asks of the kernel is the class
    [ServiceCalls]; [ipc_recv] of [src/user/ipc.rs] is written out.  An outcome [None]
    would be a panic.  Lines that only print are left out. *)

From Stdlib Require Import ZArith Lia.
From stdpp Require Import base list option numbers strings.
From S2P Require Import Prelude State Types UserMem Bytes PortIo.
Import Bytes.

Local Open Scope Z_scope.
Local Open Scope kernel_scope.

(** The calls of a service: the answer of [IpcRecv] with the bytes it stored at the start
    of the buffer, [IpcSend], [GetThreadPrivilege], [FindProcessByName] and [Yield]. *)
Class ServiceCalls (K : Type) := {
  k_recv : nat -> K -> Z * bytes * K;
  k_send : Z -> bytes -> K -> Z * K;
  k_privilege : Z -> K -> Z * K;
  k_find : bytes -> K -> Z * K;
  k_yield : K -> K;
}.

Module DiskService.

Record AtaPorts := mkPorts {
  data : Z; error_features : Z; sector_count_port : Z; lba_low : Z; lba_mid : Z; lba_high : Z; drive_head : Z; status_command : Z; control : Z
}.
Definition PRIMARY : AtaPorts := mkPorts 496 497 498 499 500 501 502 503 1014.
Definition SECONDARY : AtaPorts := mkPorts 368 369 370 371 372 373 374 375 886.

Definition ERR : Z := 1.
Definition DRQ : Z := 8.
Definition BSY : Z := 128.

Definition READ_SECTORS : Z := 32.
Definition WRITE_SECTORS : Z := 48.
Definition IDENTIFY : Z := 236.
Definition FLUSH_CACHE : Z := 231.

Inductive DriveType := Master | Slave.
Inductive AtaError := Timeout | NotFound | IoError | NotReady | InvalidArgument.

Record AtaDrive := mkDrive { ports : AtaPorts; drive_type : DriveType; sectors : Z; initialized : bool }.
Implicit Types dr : AtaDrive.

Definition new (p : AtaPorts) (t : DriveType) : AtaDrive := mkDrive p t 0 false.
Definition sector_count dr : Z := sectors dr.
Definition is_initialized dr : bool := initialized dr.

(** ** The drives *)

Section drives.
Context {D : Type} `{!Ports D}.

Local Notation IO A := (ST D (result A AtaError)).

Definition inb (p : Z) : ST D Z := fun d => let '(v, d) := port_read 1 p d in Some (v, d).
Definition inw (p : Z) : ST D Z := fun d => let '(v, d) := port_read 2 p d in Some (v, d).
Definition outb (p v : Z) : ST D unit := fun d => Some (tt, port_write 1 p v d).
Definition outw (p v : Z) : ST D unit := fun d => Some (tt, port_write 2 p v d).

Definition drive_select (t : DriveType) : Z := match t with Master => 224 | Slave => 240 end.
Definition select_drive dr : ST D unit := outb (drive_head (ports dr)) (drive_select (drive_type dr)).

Definition write_lba28 dr (lba : Z) : ST D unit :=
  let low := Z.land lba 255 in
  let mid := Z.land (Z.shiftr lba 8) 255 in
  let high := Z.land (Z.shiftr lba 16) 255 in
  let lba_top := Z.lor (Z.land (Z.shiftr lba 24) 15) (drive_select (drive_type dr)) in
  outb (lba_low (ports dr)) low ≫= fun _ => outb (lba_mid (ports dr)) mid ≫= fun _ =>
  outb (lba_high (ports dr)) high ≫= fun _ => outb (drive_head (ports dr)) lba_top.

Definition write_sector_count dr (n : Z) : ST D unit := outb (sector_count_port (ports dr)) n.
Definition write_command dr (cmd : Z) : ST D unit := outb (status_command (ports dr)) cmd.
Definition read_status dr : ST D Z := inb (status_command (ports dr)).
Definition read_data dr : ST D Z := inw (data (ports dr)).
Definition write_data dr (v : Z) : ST D unit := outw (data (ports dr)) v.

Definition WAIT_TRIES : nat := Z.to_nat 1000000.

Fixpoint not_busy_loop dr (tries : nat) : IO unit :=
  match tries with
  | O => mret (Err Timeout)
  | S tries =>
      status ← read_status dr;
      if Z.land status BSY =? 0 then mret (Ok tt) else not_busy_loop dr tries
  end.
Definition wait_not_busy dr : IO unit := not_busy_loop dr WAIT_TRIES.

Fixpoint drq_loop dr (tries : nat) : IO unit :=
  match tries with
  | O => mret (Err Timeout)
  | S tries =>
      status ← read_status dr;
      if negb (Z.land status ERR =? 0) then mret (Err IoError)
      else if negb (Z.land status DRQ =? 0) then mret (Ok tt)
      else drq_loop dr tries
  end.
Definition wait_drq dr : IO unit := drq_loop dr WAIT_TRIES.

Definition wait_400ns dr : ST D unit := sfor (seq 0 4) (fun _ => read_status dr ≫= fun _ => mret tt).

(** [n] words of the data register. *)
Fixpoint read_words dr (n : nat) : ST D (list Z) :=
  match n with
  | O => mret []
  | S n => w ← read_data dr; ws ← read_words dr n; mret (w :: ws)
  end.

(** The size that IDENTIFY gives: words 60 and 61, or else words 100 to 103. *)
Definition identify_sectors (identify_data : list Z) : Z :=
  let word i := identify_data !!! i in
  let lba28_sectors := Z.lor (Z.shiftl (word 61%nat) 16) (word 60%nat) in
  if negb (lba28_sectors =? 0) then lba28_sectors
  else Z.lor (Z.lor (Z.lor (Z.shiftl (word 103%nat) 48) (Z.shiftl (word 102%nat) 32)) (Z.shiftl (word 101%nat) 16)) (word 100%nat).

(** The drive afterwards is the one it was unless the outcome is [Ok]. *)
Definition init dr : IO AtaDrive :=
  select_drive dr ≫= fun _ => wait_400ns dr ≫= fun _ =>
  write_command dr IDENTIFY ≫= fun _ =>
  status ← read_status dr;
  if status =? 0 then mret (Err NotFound)
  else
    _ ←? wait_not_busy dr;
    _ ←? drq_loop dr WAIT_TRIES;
    identify_data ← read_words dr 256;
    mret (Ok (mkDrive (ports dr) (drive_type dr) (identify_sectors identify_data) true)).

(** The tests both operations make before they touch the drive. *)
Definition refused dr (lba : Z) (buffer : bytes) : option AtaError :=
  if negb (is_initialized dr) then Some NotReady
  else if blen buffer <? 512 then Some InvalidArgument
  else if 2 ^ 28 <=? lba then Some InvalidArgument
  else None.

(** The start of both operations, up to the command. *)
Definition issue dr (lba cmd : Z) : ST D unit :=
  select_drive dr ≫= fun _ => wait_400ns dr ≫= fun _ =>
  write_lba28 dr lba ≫= fun _ => write_sector_count dr 1 ≫= fun _ => write_command dr cmd.

(** A sector as bytes: the processor stores words with the low byte first. *)
Definition words_to_bytes (ws : list Z) : bytes := ws ≫= to_le_bytes 2.
Fixpoint bytes_to_words (n : nat) (b : bytes) : list Z :=
  match n with
  | O => []
  | S n => from_le_bytes (take 2 b) :: bytes_to_words n (drop 2 b)
  end.

(** The buffer with the sector at its start. *)
Definition read_sector dr (lba : Z) (buffer : bytes) : IO bytes :=
  match refused dr lba buffer with
  | Some e => mret (Err e)
  | None =>
      issue dr lba READ_SECTORS ≫= fun _ =>
      _ ←? wait_not_busy dr;
      _ ←? wait_drq dr;
      ws ← read_words dr 256;
      mret (Ok (put buffer 0 (words_to_bytes ws)))
  end.

Definition write_sector dr (lba : Z) (buffer : bytes) : IO unit :=
  match refused dr lba buffer with
  | Some e => mret (Err e)
  | None =>
      issue dr lba WRITE_SECTORS ≫= fun _ =>
      _ ←? wait_drq dr;
      sfor (bytes_to_words 256 buffer) (write_data dr) ≫= fun _ =>
      write_command dr FLUSH_CACHE ≫= fun _ =>
      wait_not_busy dr
  end.
End drives.

(** ** Requests and answers *)

Definition MAX_DISKS : Z := 4.

Record DiskRequest := mkReq { op : Z; disk_id : Z; req_lba : Z; req_count : Z; req_data : bytes }.
Definition OP_READ : Z := 1.
Definition OP_WRITE : Z := 2.
Definition OP_INFO : Z := 3.
Definition OP_LIST : Z := 4.
Definition OP_NOTIFY_READY : Z := 255.

Record DiskResponse := mkResp { status : Z; len : Z; resp_data : bytes }.

(** The structures as they lie in memory. *)
Definition field (b : bytes) (off : nat) : Z := from_le_bytes (take 8 (drop off b)).
Definition request_of (b : bytes) : DiskRequest := mkReq (field b 0) (field b 8) (field b 16) (field b 24) (take 512 (drop 32 b)).
Definition response_bytes (r : DiskResponse) : bytes := to_le_bytes 8 (status r) ++ to_le_bytes 8 (len r) ++ resp_data r.

Definition zeros (n : nat) : bytes := replicate n 0.

(** ** The service *)

Section service.
Context {D : Type} `{!Ports D} {K : Type} `{!ServiceCalls K}.

Record Service := mkService { dev : D; krn : K; disks : list (option AtaDrive); service_initialized : bool; recv_buf : bytes }.
Implicit Types s : Service.

Definition set_dev (d : D) s : Service := mkService d (krn s) (disks s) (service_initialized s) (recv_buf s).
Definition set_krn (k : K) s : Service := mkService (dev s) k (disks s) (service_initialized s) (recv_buf s).
Definition set_recv_buf (b : bytes) s : Service := mkService (dev s) (krn s) (disks s) (service_initialized s) b.
Definition set_disk (i : nat) (dr : AtaDrive) s : Service := mkService (dev s) (krn s) (<[i := Some dr]> (disks s)) (service_initialized s) (recv_buf s).
Definition set_initialized s : Service := mkService (dev s) (krn s) (disks s) true (recv_buf s).

Definition SV := ST Service.

Definition drive_io {A} (m : ST D (result A AtaError)) : SV (result A AtaError) := fun s =>
  match m (dev s) with Some (r, d) => Some (r, set_dev d s) | None => None end.
Definition call {A} (f : K -> A * K) : SV A := fun s => let '(a, k) := f (krn s) in Some (a, set_krn k s).

(** [println!] apart, [ipc::ipc_send] is the call itself. *)
Definition ipc_send (dest : Z) (b : bytes) : SV Z := call (k_send dest b).

(** The sender and the length, both 0 when there is no message. *)
Definition ipc_recv : SV (Z * Z) := fun s =>
  let '(ret, b, k) := k_recv (length (recv_buf s)) (krn s) in
  let s := set_krn k (set_recv_buf (put (recv_buf s) 0 (take (length (recv_buf s)) b)) s) in
  Some (if as_i64 ret <? 0 then (0, 0) else (Z.shiftr ret 32, Z.land ret 4294967295), s).

Definition init_disk (i : nat) (p : AtaPorts) (t : DriveType) : SV unit :=
  r ← drive_io (init (new p t));
  match r with Ok dr => smodify (set_disk i dr) | Err _ => mret tt end.

Definition init_disks : SV unit :=
  init_disk 0 PRIMARY Master ≫= fun _ => init_disk 1 PRIMARY Slave ≫= fun _ =>
  init_disk 2 SECONDARY Master ≫= fun _ => init_disk 3 SECONDARY Slave ≫= fun _ =>
  smodify set_initialized.

(** [task::find_process_by_name] *)
Definition find_process_by_name (name : bytes) : SV (option Z) :=
  if (length name =? 0)%nat || (64 <? length name)%nat then mret None
  else ret ← call (k_find name); mret (if ret =? 0 then None else Some ret).

(** "core.service" *)
Definition CORE_SERVICE : bytes := [99; 111; 114; 101; 46; 115; 101; 114; 118; 105; 99; 101].

Definition notify_ready_to_core : SV unit :=
  pid ← find_process_by_name CORE_SERVICE;
  match pid with
  | None => mret tt
  | Some core_pid => ipc_send core_pid (to_le_bytes 8 OP_NOTIFY_READY) ≫= fun _ => mret tt
  end.

(** What a request for one disk does with it: EINVAL and ENXIO when it is not there. *)
Definition with_disk (id : Z) (f : AtaDrive -> SV DiskResponse) : SV DiskResponse := fun s =>
  if id <? MAX_DISKS then
    match disks s !! Z.to_nat id with
    | Some (Some dr) => f dr s
    | Some None => Some (mkResp (-6) 0 (zeros 512), s)
    | None => None
    end
  else Some (mkResp (-22) 0 (zeros 512), s).

Fixpoint list_disks (i : Z) (l : list (option AtaDrive)) (n : nat) (out : bytes) : nat * bytes :=
  match l with
  | [] => (n, out)
  | Some _ :: l => list_disks (i + 1) l (S n) (<[n := i]> out)
  | None :: l => list_disks (i + 1) l n out
  end.

(** The answer to a request, [None] for an operation that is not known. *)
Definition answer (req : DiskRequest) : SV (option DiskResponse) :=
  if op req =? OP_READ then
    Some <$> with_disk (disk_id req) (fun dr =>
      r ← drive_io (read_sector dr (req_lba req) (zeros 512));
      mret match r with Ok b => mkResp 0 512 b | Err _ => mkResp (-5) 0 (zeros 512) end)
  else if op req =? OP_WRITE then
    Some <$> with_disk (disk_id req) (fun dr =>
      r ← drive_io (write_sector dr (req_lba req) (req_data req));
      mret match r with Ok _ => mkResp 0 0 (zeros 512) | Err _ => mkResp (-5) 0 (zeros 512) end)
  else if op req =? OP_INFO then
    Some <$> with_disk (disk_id req) (fun dr => mret (mkResp 0 8 (put (zeros 512) 0 (to_le_bytes 8 (sector_count dr)))))
  else if op req =? OP_LIST then
    fun s => let '(n, out) := list_disks 0 (disks s) 0 (zeros 512) in Some (Some (mkResp 0 (Z.of_nat n) out), s)
  else mret None.

(** One round of the loop of [main]. *)
Definition serve : SV unit :=
  m ← ipc_recv;
  let '(sender, len) := m in
  if (sender =? 4294967295) || (len =? 4294967293) then smodify (fun s => set_krn (k_yield (krn s)) s)
  else if negb (sender =? 0) && (32 <=? len) then
    sender_privilege ← call (k_privilege sender);
    if 1 <? sender_privilege then ipc_send sender (response_bytes (mkResp (-1) 0 (zeros 512))) ≫= fun _ => mret tt
    else
      s ← sget;
      resp ← answer (request_of (recv_buf s));
      match resp with
      | Some resp => ipc_send sender (response_bytes resp) ≫= fun _ => mret tt
      | None => mret tt
      end
  else mret tt.

Definition start : SV unit := init_disks ≫= fun _ => notify_ready_to_core.
Definition service_new (d : D) (k : K) : Service := mkService d k (replicate 4 None) false (zeros 544).
End service.
Arguments Service : clear implicits.
End DiskService.
