(* ===== verification/DiskProps.v ===== *)
(** What the disk service does to the drives.

    Against any hardware that keeps to the classes of [AtaBus], whatever its speed and
    its failures: the drive operations deliver and store sectors, a request touches no
    sector but its own, and only privileged senders reach the drives. *)

From Stdlib Require Import ZArith Lia.
From stdpp Require Import base list option numbers.
From S2P Require Import Prelude State Types UserMem Bytes PortIo AtaBus DiskService.
Import Bytes AtaBus.

Local Open Scope Z_scope.

Module DiskProps.
Import DiskService.

(** ** Buses *)

Lemma idle_later a a' : busy (phase a) = false -> later a a' -> a' = a.
Proof. intros Hb [->|Hw]; [done|]. by destruct Hw as [? ? H|? H|? ? H|? ? ? H|H|H|? ? ? ? H]; rewrite H in Hb. Qed.

Lemma work_awake a a' : work a a' -> busy (phase a') = false.
Proof. by destruct 1. Qed.

Lemma work_present a a' : work a a' -> present a' = present a /\ selected a' = selected a /\ identity a' = identity a.
Proof. by destruct 1. Qed.

Lemma later_present a a' : later a a' -> present a' (selected a') = present a (selected a).
Proof. intros [->|Hw]; [done|]. by apply work_present in Hw as (-> & -> & _). Qed.

Lemma later_trans a b c : later a b -> later b c -> later a c.
Proof. intros [->|H1] H2; [done|]. apply idle_later in H2; [subst|by eapply work_awake]. by right. Qed.

(** The four bytes of an address and the drive's bits make the address again. *)
Lemma top_bits x slave : 0 <= x < 16 -> let h := Z.lor x (drive_select (if slave : bool then Slave else Master)) in h mod 16 = x /\ Z.testbit h 4 = slave.
Proof.
  intros Hx. assert (Forall (fun n => let h := Z.lor (Z.of_nat n) (drive_select (if slave then Slave else Master)) in h mod 16 = Z.of_nat n /\ Z.testbit h 4 = slave) (seq 0 16)) as H
    by (destruct slave; repeat constructor).
  rewrite Forall_forall in H. specialize (H (Z.to_nat x)). rewrite Z2Nat.id in H by lia. apply H, in_seq. lia.
Qed.

Lemma land_255 x : Z.land x 255 = x mod 256.
Proof. change 255 with (Z.ones 8). by rewrite Z.land_ones. Qed.

Lemma land_15 x : Z.land x 15 = x mod 16.
Proof. change 15 with (Z.ones 4). by rewrite Z.land_ones. Qed.

Lemma address_bytes lba : 0 <= lba < 2 ^ 28 ->
  Z.land lba 255 + 256 * Z.land (Z.shiftr lba 8) 255 + 65536 * Z.land (Z.shiftr lba 16) 255 + 16777216 * Z.land (Z.shiftr lba 24) 15 = lba.
Proof.
  intros H. rewrite !land_255, land_15. rewrite !Z.shiftr_div_pow2 by lia. change (2 ^ 28) with 268435456 in H.
  change (2 ^ 8) with 256. change (2 ^ 16) with 65536. change (2 ^ 24) with 16777216. Z.to_euclidean_division_equations. lia.
Qed.

(** A bit tested with its mask. *)
Lemma mask_bit v n : 0 <= n -> (Z.land v (2 ^ n) =? 0) = negb (Z.testbit v n).
Proof.
  intros Hn. destruct (Z.testbit v n) eqn:E; cbn [negb].
  - apply Z.eqb_neq. intros H. assert (Z.testbit (Z.land v (2 ^ n)) n = true) as H1 by (rewrite Z.land_spec, E, Z.pow2_bits_true; done).
    by rewrite H, Z.bits_0 in H1.
  - apply Z.eqb_eq. apply Z.bits_inj'. intros m Hm. rewrite Z.land_spec, Z.bits_0. destruct (decide (m = n)) as [->|]; [by rewrite E|].
    rewrite Z.pow2_bits_false by done. apply andb_false_r.
Qed.

Definition bus_ports (bus : bool) : AtaPorts := if bus then SECONDARY else PRIMARY.
Definition type_of (slave : bool) : DriveType := if slave then Slave else Master.

(** The same drives with the same sectors. *)
Definition same_disks a a' : Prop := present a' = present a /\ identity a' = identity a /\ sector a' = sector a.

(** All sectors but one are the same. *)
Definition same_but (slave : bool) (lba : Z) a a' : Prop :=
  present a' = present a /\ identity a' = identity a /\ (forall s l, (s, l) <> (slave, lba) -> sector a' s l = sector a s l).

Lemma set_sector_at slave lba ws a : sector (set_sector slave lba ws a) slave lba = ws.
Proof. cbn. by rewrite bool_decide_true. Qed.

Lemma set_sector_but slave lba ws a : same_but slave lba a (set_sector slave lba ws a).
Proof. split; [done|]. split; [done|]. intros s l Hn. cbn. rewrite bool_decide_false; [done|]. intros [-> ->]. done. Qed.

Lemma bytes_to_words_length n b : length (bytes_to_words n b) = n.
Proof. revert b. induction n; intros; cbn; auto. Qed.

Lemma word_bytes b0 b1 rest n : is_byte b0 -> is_byte b1 -> words_to_bytes (bytes_to_words (S n) (b0 :: b1 :: rest)) = b0 :: b1 :: words_to_bytes (bytes_to_words n rest).
Proof.
  intros H0 H1. assert (to_le_bytes 2 (from_le_bytes [b0; b1]) = [b0; b1]) as E.
  { unfold is_byte in *. set (w := from_le_bytes [b0; b1]). change (to_le_bytes 2 w) with [w mod 256; w / 256 mod 256].
    assert (w mod 256 = b0 /\ w / 256 mod 256 = b1) as [-> ->]; [|done]. change w with (b0 + 256 * (b1 + 256 * 0)). Z.to_euclidean_division_equations. lia. }
  cbn [bytes_to_words]. unfold words_to_bytes. rewrite bind_cons. change (take 2 (b0 :: b1 :: rest)) with [b0; b1]. by rewrite E.
Qed.

(** A sector goes to words and back. *)
Lemma words_roundtrip n b : Forall is_byte b -> (2 * n <= length b)%nat -> words_to_bytes (bytes_to_words n b) = take (2 * n) b.
Proof.
  revert b. induction n as [|n IH]; intros b Hb Hl; [done|]. destruct b as [|b0 [|b1 b]]; cbn [length] in Hl; [lia..|].
  inversion_clear Hb as [|? ? H0 Hb1]. inversion_clear Hb1 as [|? ? H1 Hb2]. rewrite word_bytes by done.
  replace (2 * S n)%nat with (S (S (2 * n))) by lia. cbn [take]. rewrite IH; [done|done|lia].
Qed.

Lemma words_to_bytes_length ws : length (words_to_bytes ws) = (2 * length ws)%nat.
Proof. unfold words_to_bytes. induction ws as [|w ws IH]; [done|]. rewrite bind_cons, length_app, IH, to_le_bytes_length. cbn [length]. lia. Qed.

Lemma put_all buf bs : length buf = length bs -> put buf 0 bs = bs.
Proof. intros H. unfold put. rewrite take_0, drop_ge by lia. by rewrite app_nil_r. Qed.

Lemma bytes_to_words_word n b : Forall is_byte b -> Forall is_word (bytes_to_words n b).
Proof.
  revert b. induction n as [|n IH]; intros b Hb; constructor; [|by apply IH, Forall_drop].
  pose proof (from_le_bytes_range (take 2 b) (Forall_take _ _ _ Hb)) as H. unfold is_word. assert (length (take 2 b) <= 2)%nat as Hl by (rewrite length_take; lia).
  assert (256 ^ Z.of_nat (length (take 2 b)) <= 256 ^ 2) by (apply Z.pow_le_mono_r; lia). lia.
Qed.

Lemma bytes_to_words_sector b : Forall is_byte b -> is_sector (bytes_to_words 256 b).
Proof. intros Hb. split; [apply bytes_to_words_length|by apply bytes_to_words_word]. Qed.

Definition whole a : Prop := forall slave lba, is_sector (sector a slave lba).

Lemma same_trans a b c : same_disks a b -> same_disks b c -> same_disks a c.
Proof. unfold same_disks. intuition congruence. Qed.

Lemma same_but_of slave lba a b : same_disks a b -> same_but slave lba a b.
Proof. intros (? & ? & H). split; [done|]. split; [done|]. intros. by rewrite H. Qed.

Lemma same_but_trans slave lba a b c : same_disks a b -> same_but slave lba b c -> same_but slave lba a c.
Proof. intros (P & I & H) (P' & I' & H'). split; [congruence|]. split; [congruence|]. intros s l Hn. rewrite H' by done. by rewrite H. Qed.

Lemma same_whole a b : same_disks a b -> whole a -> whole b.
Proof. intros (_ & _ & H) Hw s l. by rewrite H. Qed.

Lemma set_sector_whole slave lba ws a : is_sector ws -> whole a -> whole (set_sector slave lba ws a).
Proof. intros Hl Hw s l. cbn. case_bool_decide; [done|apply Hw]. Qed.

(** What a drive makes of the words it has taken. *)
Lemma storing_any a a' slave lba ws : phase a = Storing slave lba ws -> is_sector ws -> later a a' ->
  same_but slave lba a a' /\ (whole a -> whole a') /\ (busy (phase a') = false -> phase a' = Idle /\ (failed a' = false -> sector a' slave lba = ws)).
Proof.
  intros P Hlen [->|Hw]; [rewrite P; done|]. destruct Hw as [? ? Q|? Q|? ? Q|? ? ws' Q|Q|Q|? ? ? ws' Q Hl]; rewrite P in Q; try done; injection Q as <- <- <-.
  - split; [apply (set_sector_but slave lba ws a)|]. split; [by apply (set_sector_whole slave lba ws a)|]. intros _. split; [done|]. intros _. apply (set_sector_at slave lba ws a).
  - split; [apply (set_sector_but slave lba ws' a)|]. split; [by apply (set_sector_whole slave lba ws' a)|]. done.
Qed.

(** A drive that prepares for a write comes to take the words, or fails. *)
Lemma preparing_later a a' slave lba : phase a = Preparing slave lba -> later a a' ->
  same_disks a a' /\ (transfers (phase a') = true -> a' = set_phase (Taking slave lba []) false a) /\ (busy (phase a') = false -> failed a' = true -> phase a' = Idle).
Proof.
  intros P [->|Hw]; [by rewrite P|]. destruct Hw as [? ? Q|? Q|? ? Q|? ? ? Q|Q|Q|? ? ? ? Q]; rewrite P in Q; try done. injection Q as <- <-. done.
Qed.

Section buses.
Context {D : Type} `{!Ports D} `{!AtaBuses D}.
Implicit Types d : D.

(** Nothing happened to the other bus. *)
Definition other_same (bus : bool) d d' : Prop := ata (negb bus) d' = ata (negb bus) d.

(** The drive worked, or did not. *)
Definition moves (bus : bool) d d' : Prop := later (ata bus d) (ata bus d') /\ other_same bus d d'.

Lemma moves_trans bus d1 d2 d3 : moves bus d1 d2 -> moves bus d2 d3 -> moves bus d1 d3.
Proof. intros [H1 O1] [H2 O2]. split; [by eapply later_trans|]. unfold other_same in *. congruence. Qed.

(** Drive [dr] is the slave or the master of [bus]. *)
Definition is_drive (bus slave : bool) (dr : AtaDrive) : Prop := ports dr = bus_ports bus /\ drive_type dr = type_of slave.

Lemma status_spec bus dr d : ports dr = bus_ports bus ->
  exists v d', read_status dr d = Some (v, d') /\ port_read 1 (port bus Status) d = (v, d') /\
    moves bus d d' /\ shows (ata bus d') v.
Proof.
  intros Hp. pose proof (bus_status bus d Status ltac:(by left)) as H. pose proof (bus_other_read bus Status 1 d) as Ho.
  unfold read_status, inb. rewrite Hp. replace (status_command (bus_ports bus)) with (port bus Status) by by destruct bus.
  destruct (port_read 1 (port bus Status) d) as [v d']. exists v, d'. unfold moves. by destruct H.
Qed.

Lemma wait_400ns_spec bus dr d : ports dr = bus_ports bus -> busy (phase (ata bus d)) = false ->
  exists d', wait_400ns dr d = Some (tt, d') /\ ata bus d' = ata bus d /\ other_same bus d d'.
Proof.
  intros Hp Hb. unfold wait_400ns. destruct (sfor_inv (fun _ d1 => ata bus d1 = ata bus d /\ other_same bus d d1)
    (fun _ => read_status dr ≫= fun _ => mret tt) (seq 0 4) d) as (d' & -> & Ha & Ho); [done| |by exists d'].
  intros _ _ d1 [Ha Ho]. destruct (status_spec bus dr d1 Hp) as (v & d2 & E & _ & [Hl Ho2] & _).
  exists d2. rewrite (st_bind_eq _ _ _ _ _ E). split; [done|]. rewrite Ha in Hl. apply idle_later in Hl; [|done].
  split; [done|]. unfold other_same in *. congruence.
Qed.

Lemma shows_busy a v : present a (selected a) = true -> shows a v -> (Z.land v BSY =? 0) = negb (busy (phase a)).
Proof. unfold shows. intros -> [H _]. change BSY with (2 ^ 7). rewrite mask_bit by done. by rewrite H. Qed.

Lemma not_busy_spec bus dr tries d : ports dr = bus_ports bus -> present (ata bus d) (selected (ata bus d)) = true ->
  exists r d', not_busy_loop dr tries d = Some (r, d') /\ moves bus d d' /\
    (r = Ok tt /\ busy (phase (ata bus d')) = false \/ r = Err Timeout).
Proof.
  intros Hp. revert d. induction tries as [|tries IH]; intros d Hpr; cbn [not_busy_loop].
  { exists (Err Timeout), d. split; [done|]. split; [by split; [left|]|]. by right. }
  destruct (status_spec bus dr d Hp) as (v & d1 & E & _ & Hm & Hs). rewrite (st_bind_eq _ _ _ _ _ E).
  rewrite <- (later_present _ _ (proj1 Hm)) in Hpr. rewrite (shows_busy _ _ Hpr Hs). destruct (busy (phase (ata bus d1))) eqn:Eb; cbn [negb].
  - destruct (IH d1 Hpr) as (r & d' & -> & Hm' & Hr). exists r, d'. split; [done|]. split; [by eapply moves_trans|done].
  - exists (Ok tt), d1. split; [done|]. split; [done|]. by left.
Qed.

(** Status values that do not mislead [wait_drq]. *)
Definition clear_status (bus : bool) d0 : Prop :=
  forall d, later (ata bus d0) (ata bus d) ->
    let '(v, d') := port_read 1 (port bus Status) d in busy (phase (ata bus d')) = true -> Z.testbit v 3 = false /\ Z.testbit v 0 = false.

Lemma drq_spec bus dr tries d : ports dr = bus_ports bus -> present (ata bus d) (selected (ata bus d)) = true -> clear_status bus d ->
  exists r d', drq_loop dr tries d = Some (r, d') /\ moves bus d d' /\
    (r = Ok tt /\ transfers (phase (ata bus d')) = true \/ r = Err IoError /\ busy (phase (ata bus d')) = false /\ failed (ata bus d') = true \/ r = Err Timeout).
Proof.
  intros Hp. revert d. induction tries as [|tries IH]; intros d Hpr Hc; cbn [drq_loop].
  { exists (Err Timeout), d. split; [done|]. split; [by split; [left|]|]. auto. }
  destruct (status_spec bus dr d Hp) as (v & d1 & E & Er & Hm & Hs). rewrite (st_bind_eq _ _ _ _ _ E).
  assert (present (ata bus d1) (selected (ata bus d1)) = true) as Hpr1 by by rewrite (later_present _ _ (proj1 Hm)).
  assert (clear_status bus d1) as Hc1 by (intros d2 H2; apply Hc; by eapply later_trans; [apply Hm|]).
  destruct (IH d1 Hpr1 Hc1) as (r & d' & Ed & Hm' & Hr). apply (moves_trans _ _ _ _ Hm) in Hm'.
  pose proof (Hc d (or_introl eq_refl)) as Hq. rewrite Er in Hq. unfold shows in Hs. rewrite Hpr1 in Hs. destruct Hs as [_ Hs].
  change ERR with (2 ^ 0). change DRQ with (2 ^ 3). rewrite !mask_bit, !negb_involutive by done.
  destruct (busy (phase (ata bus d1))) eqn:Eb.
  - destruct Hq as [-> ->]; [done|]. cbn [negb]. rewrite Ed. by exists r, d'.
  - destruct Hs as (H3 & H0 & _); [done|]. rewrite H3, H0. destruct (failed (ata bus d1)) eqn:Ef.
    { exists (Err IoError), d1. do 2 (split; [done|]). auto 10. }
    destruct (transfers (phase (ata bus d1))) eqn:Et.
    { exists (Ok tt), d1. do 2 (split; [done|]). auto. }
    rewrite Ed. by exists r, d'.
Qed.

Lemma outb_setting bus p r v d : p = port bus r -> is_setting r = true -> phase (ata bus d) = Idle ->
  exists d', outb p v d = Some (tt, d') /\ ata bus d' = set_reg r v (ata bus d) /\ other_same bus d d'.
Proof. intros -> Hr Hi. eexists. split; [done|]. split; [by apply bus_setting|]. apply bus_other_write. Qed.

Lemma command_spec bus dr cmd a' d : ports dr = bus_ports bus -> phase (ata bus d) = Idle -> AtaBus.start cmd (ata bus d) = Some a' ->
  exists d', write_command dr cmd d = Some (tt, d') /\ ata bus d' = a' /\ other_same bus d d'.
Proof.
  intros Hp Hi Hs. unfold write_command, outb. rewrite Hp. replace (status_command (bus_ports bus)) with (port bus Status) by by destruct bus.
  eexists. split; [done|]. split; [by apply bus_command|apply bus_other_write].
Qed.

(** The drive selected, and the wait for its status. *)
Lemma select_spec bus slave dr d : is_drive bus slave dr -> phase (ata bus d) = Idle ->
  exists d', (forall {A} (k : unit -> ST D A), (select_drive dr ≫= fun _ => wait_400ns dr ≫= k) d = k tt d') /\ ata bus d' = set_reg Head (drive_select (drive_type dr)) (ata bus d) /\ other_same bus d d'.
Proof.
  intros [Hp Ht] Hi. unfold select_drive. destruct (outb_setting bus (drive_head (ports dr)) Head (drive_select (drive_type dr)) d) as (d1 & E1 & A1 & O1); [|done..|].
  { rewrite Hp. by destruct bus. }
  destruct (wait_400ns_spec bus dr d1 Hp) as (d2 & E2 & A2 & O2); [rewrite A1; cbn; by rewrite Hi|].
  exists d2. split; [intros A k; by rewrite (st_bind_eq _ _ _ _ _ E1), (st_bind_eq _ _ _ _ _ E2)|]. split; [congruence|]. unfold other_same in *. congruence.
Qed.

Lemma issue_spec bus slave dr lba cmd d : is_drive bus slave dr -> 0 <= lba < 2 ^ 28 -> phase (ata bus d) = Idle -> present (ata bus d) slave = true ->
  cmd = READ_SECTORS \/ cmd = WRITE_SECTORS ->
  exists d', issue dr lba cmd d = Some (tt, d') /\ same_disks (ata bus d) (ata bus d') /\ selected (ata bus d') = slave /\
    phase (ata bus d') = (if cmd =? READ_SECTORS then Seeking slave lba else Preparing slave lba) /\ other_same bus d d'.
Proof.
  intros Hd Hl Hi Hpr Hcmd. destruct (select_spec bus slave dr d Hd Hi) as (d1 & E1 & A1 & O1). destruct Hd as [Hp Ht].
  unfold issue. rewrite E1. unfold write_lba28, write_sector_count.
  destruct (outb_setting bus (lba_low (ports dr)) Low (Z.land lba 255) d1) as (d2 & E2 & A2 & O2); [rewrite Hp; by destruct bus|done|by rewrite A1|].
  destruct (outb_setting bus (lba_mid (ports dr)) Mid (Z.land (Z.shiftr lba 8) 255) d2) as (d3 & E3 & A3 & O3); [rewrite Hp; by destruct bus|done|by rewrite A2, A1|].
  destruct (outb_setting bus (lba_high (ports dr)) High (Z.land (Z.shiftr lba 16) 255) d3) as (d4 & E4 & A4 & O4); [rewrite Hp; by destruct bus|done|by rewrite A3, A2, A1|].
  set (top := Z.lor (Z.land (Z.shiftr lba 24) 15) (drive_select (drive_type dr))).
  destruct (outb_setting bus (drive_head (ports dr)) Head top d4) as (d5 & E5 & A5 & O5); [rewrite Hp; by destruct bus|done|by rewrite A4, A3, A2, A1|].
  destruct (outb_setting bus (sector_count_port (ports dr)) SectorCount 1 d5) as (d6 & E6 & A6 & O6); [rewrite Hp; by destruct bus|done|by rewrite A5, A4, A3, A2, A1|].
  destruct (top_bits (Z.land (Z.shiftr lba 24) 15) slave) as [Hmod Hbit].
  { rewrite land_15. apply Z.mod_pos_bound. lia. }
  assert (top = Z.lor (Z.land (Z.shiftr lba 24) 15) (drive_select (if slave then Slave else Master))) as Etop by (unfold top; by rewrite Ht).
  rewrite <- Etop in Hmod, Hbit. set (p := if cmd =? READ_SECTORS then Seeking slave lba else Preparing slave lba).
  assert (AtaBus.start cmd (ata bus d6) = Some (set_phase p false (ata bus d6))) as Hst.
  { assert (selected (ata bus d6) = slave) as Hsel by by rewrite A6, A5.
    assert (address (ata bus d6) = lba) as Had.
    { rewrite A6, A5, A4, A3, A2. unfold address. cbn [low mid high head set_reg]. rewrite Hmod. by apply address_bytes. }
    assert (present (ata bus d6) slave = true) as Hp6 by by rewrite A6, A5, A4, A3, A2, A1.
    assert (count (ata bus d6) = 1) as Hc by by rewrite A6.
    unfold AtaBus.start, p. rewrite Hsel, Had, Hp6, Hc. by destruct Hcmd as [-> | ->]. }
  destruct (command_spec bus dr cmd (set_phase p false (ata bus d6)) d6 Hp) as (d7 & E7 & A7 & O7); [by rewrite A6, A5, A4, A3, A2, A1|exact Hst|].
  exists d7. unfold mbind, ST_bind. rewrite E2, E3, E4, E5, E6, E7. split; [done|].
  rewrite A7. split; [unfold same_disks; cbn; by rewrite A6, A5, A4, A3, A2, A1|]. split; [unfold selected; cbn; by rewrite A6, A5|].
  split; [done|]. unfold other_same in *. congruence.
Qed.

(** ** Transfers *)

Lemma read_words_spec bus dr ws d : ports dr = bus_ports bus -> ws <> [] -> Forall is_word ws -> phase (ata bus d) = Sending ws ->
  exists d', read_words dr (length ws) d = Some (ws, d') /\ ata bus d' = set_phase Idle (failed (ata bus d)) (ata bus d) /\ other_same bus d d'.
Proof.
  intros Hp. revert d. induction ws as [|w ws IH]; intros d Hn Hwd Hs; [done|]. cbn [length read_words]. clear Hn. inversion_clear Hwd as [|? ? Hw1 Hw2].
  pose proof (bus_data_in bus d w ws Hs Hw1) as H. pose proof (bus_other_read bus Data 2 d) as Ho. unfold read_data, inw. rewrite Hp.
  replace (data (bus_ports bus)) with (port bus Data) by by destruct bus. unfold mbind, ST_bind, mret, ST_ret.
  destruct (port_read 2 (port bus Data) d) as [v d1]. destruct H as [-> A1]. cbn in Ho. destruct ws as [|w' ws].
  - exists d1. cbn [length read_words]. by split.
  - destruct (IH d1) as (d2 & -> & A2 & O2); [done|done|by rewrite A1|]. exists d2. split; [done|]. split; [by rewrite A2, A1|]. unfold other_same in *. congruence.
Qed.

Lemma write_words_spec bus dr ws d slave lba ws0 : ports dr = bus_ports bus -> ws <> [] -> (length ws0 + length ws = 256)%nat ->
  phase (ata bus d) = Taking slave lba ws0 ->
  exists d', sfor ws (write_data dr) d = Some (tt, d') /\ ata bus d' = set_phase (Storing slave lba (ws0 ++ ws)) (failed (ata bus d)) (ata bus d) /\ other_same bus d d'.
Proof.
  intros Hp. revert d ws0. induction ws as [|w ws IH]; intros d ws0 Hn Hlen Ht; [done|]. cbn [sfor]. clear Hn.
  assert (write_data dr w d = Some (tt, port_write 2 (port bus Data) w d)) as E1 by (unfold write_data; rewrite Hp; by destruct bus).
  rewrite (st_bind_eq _ _ _ _ _ E1). pose proof (bus_data_out bus d w slave lba ws0 Ht) as A1. pose proof (bus_other_write bus Data 2 w d) as O1.
  set (d1 := port_write 2 (port bus Data) w d) in *. cbn [length] in Hlen. unfold taken in A1. rewrite length_app in A1. cbn [length] in A1.
  destruct ws as [|w' ws].
  - exists d1. rewrite A1. destruct (Nat.ltb_spec (length ws0 + 1) 256); [cbn [length] in Hlen; lia|]. split; [done|]. split; [done|exact O1].
  - destruct (Nat.ltb_spec (length ws0 + 1) 256); [|cbn [length] in Hlen; lia].
    destruct (IH d1 (ws0 ++ [w])) as (d2 & -> & A2 & O2); [done|rewrite length_app; cbn [length] in *; lia|by rewrite A1|].
    exists d2. split; [done|]. split; [rewrite A2, A1; by rewrite <- app_assoc|]. unfold other_same in *. congruence.
Qed.

Lemma awake_clear bus d : busy (phase (ata bus d)) = false -> clear_status bus d.
Proof.
  intros Hb d1 Hl. apply idle_later in Hl; [|done]. pose proof (bus_status bus d1 Status ltac:(by left)) as H. destruct (port_read 1 (port bus Status) d1) as [v d2].
  destruct H as [H _]. rewrite Hl in H. apply idle_later in H; [|done]. rewrite H, Hb. done.
Qed.

Lemma tolerant_clear `{!TolerantBuses D} bus d : clear_status bus d.
Proof. intros d1 _. pose proof (busy_quiet bus d1) as H. by destruct (port_read 1 (port bus Status) d1). Qed.

(** ** The operations on a drive *)

(** A drive that [init] found, on a bus that does nothing. *)
Definition drive_ready (bus slave : bool) dr d : Prop :=
  is_drive bus slave dr /\ initialized dr = true /\ present (ata bus d) slave = true /\ phase (ata bus d) = Idle /\ whole (ata bus d).

Lemma refused_ready bus slave dr lba buf d : drive_ready bus slave dr d -> 512 <= blen buf -> refused dr lba buf = None <-> lba < 2 ^ 28.
Proof.
  intros (_ & Hin & _) Hb. unfold refused, is_initialized. rewrite Hin. cbn [negb]. destruct (Z.ltb_spec (blen buf) 512); [lia|]. destruct (Z.leb_spec (2 ^ 28) lba); split; try done; lia.
Qed.

(** A drive that will send [ws] or fail. *)
Definition pending a (ws : list Z) : Prop :=
  busy (phase a) = true /\ forall a', work a a' -> a' = set_phase (Sending ws) false a \/ a' = set_phase Idle true a.

Lemma seeking_pending a slave lba : phase a = Seeking slave lba -> pending a (sector a slave lba).
Proof. intros P. split; [by rewrite P|]. intros a' [? ? Q|? Q|? ? Q|? ? ? Q|Q|Q|? ? ? ? Q]; rewrite P in Q; try done; [|by right]. injection Q as <- <-. by left. Qed.

Lemma identifying_pending a slave : phase a = Identifying slave -> pending a (identity a slave).
Proof. intros P. split; [by rewrite P|]. intros a' [? ? Q|? Q|? ? Q|? ? ? Q|Q|Q|? ? ? ? Q]; rewrite P in Q; try done; [|by right]. injection Q as <-. by left. Qed.

Lemma pending_same a ws a' : pending a ws -> later a a' -> same_disks a a'.
Proof. intros [_ H] [->|Hw]; [done|]. by destruct (H a' Hw) as [-> | ->]. Qed.

(** The waits and the transfer of both [init] and [read_sector]. *)
Definition fetch dr : ST D (result (list Z) AtaError) :=
  try_bind (wait_not_busy dr) (fun _ => try_bind (drq_loop dr WAIT_TRIES) (fun _ => read_words dr 256 ≫= fun ws => mret (Ok ws))).

Lemma fetch_spec bus dr a ws d : ports dr = bus_ports bus -> pending a ws -> is_sector ws -> present a (selected a) = true -> later a (ata bus d) ->
  exists r d', fetch dr d = Some (r, d') /\ same_disks a (ata bus d') /\ other_same bus d d' /\
    (r = Ok ws /\ ata bus d' = set_phase Idle false a \/ r = Err IoError /\ ata bus d' = set_phase Idle true a \/ r = Err Timeout).
Proof.
  intros Hp Hpe [Hlen Hwd] Hpr L0. unfold fetch, wait_not_busy.
  destruct (not_busy_spec bus dr WAIT_TRIES d Hp) as (r1 & d1 & E1 & [L1 O1] & H1); [by rewrite (later_present _ _ L0)|].
  apply (later_trans _ _ _ L0) in L1. pose proof (pending_same _ _ _ Hpe L1) as S1. destruct H1 as [[-> B1]| ->].
  2:{ rewrite (try_bind_err _ _ _ _ _ E1). exists (Err Timeout), d1. do 3 (split; [done|]). auto. }
  rewrite (try_bind_ok _ _ _ _ _ E1). destruct Hpe as [Hb Hpe].
  destruct (drq_spec bus dr WAIT_TRIES d1 Hp) as (r2 & d2 & E2 & [L2 O2] & H2); [by rewrite (later_present _ _ L1)|by apply awake_clear|].
  apply idle_later in L2; [|done]. rewrite <- L2 in S1. assert (other_same bus d d2) as O by (unfold other_same in *; congruence).
  destruct L1 as [L1|L1]; [by rewrite L1, Hb in B1|]. apply Hpe in L1. rewrite <- L2 in L1.
  destruct H2 as [[-> T2]|[(-> & _ & F2)| ->]]; [rewrite (try_bind_ok _ _ _ _ _ E2)|rewrite (try_bind_err _ _ _ _ _ E2)..].
  - destruct L1 as [L1|L1]; [|by rewrite L1 in T2]. destruct (read_words_spec bus dr ws d2 Hp) as (d3 & E3 & A3 & O3).
    { by intros ->. }
    { done. }
    { by rewrite L1. }
    rewrite Hlen in E3. rewrite (st_bind_eq _ _ _ _ _ E3). exists (Ok ws), d3. rewrite A3, L1. do 2 (split; [done|]). split; [unfold other_same in *; congruence|]. by left.
  - destruct L1 as [L1|L1]; [by rewrite L1 in F2|]. exists (Err IoError), d2. do 3 (split; [done|]). auto.
  - exists (Err Timeout), d2. do 3 (split; [done|]). auto.
Qed.

(** [fetch] is what the code has. *)
Lemma fetch_bind {A} dr (k : list Z -> A) d :
  try_bind (wait_not_busy dr) (fun _ => try_bind (drq_loop dr WAIT_TRIES) (fun _ => read_words dr 256 ≫= fun ws => mret (Ok (k ws)))) d =
  try_bind (fetch dr) (fun ws => mret (Ok (k ws))) d.
Proof.
  unfold fetch, try_bind, mbind, ST_bind. destruct (wait_not_busy dr d) as [[[|] d1]|]; [|done..]. destruct (drq_loop dr WAIT_TRIES d1) as [[[|] d2]|]; [|done..].
  by destruct (read_words dr 256 d2) as [[? ?]|].
Qed.

(** Reading: the sector, or an error; the sectors stay as they are. *)
Lemma read_sector_spec bus slave dr lba buf d : drive_ready bus slave dr d -> 0 <= lba -> 512 <= blen buf ->
  exists r d', read_sector dr lba buf d = Some (r, d') /\ same_disks (ata bus d) (ata bus d') /\ other_same bus d d' /\
    match r with
    | Ok b => lba < 2 ^ 28 /\ b = put buf 0 (words_to_bytes (sector (ata bus d) slave lba)) /\ phase (ata bus d') = Idle
    | Err e => e = Timeout \/ phase (ata bus d') = Idle
    end.
Proof.
  intros Hr Hl Hb. pose proof (refused_ready bus slave dr lba buf d Hr Hb) as Href. pose proof Hr as (Hd & Hin & Hpr & Hi & Hw). unfold read_sector.
  destruct (refused dr lba buf) as [e|].
  { exists (Err e), d. do 3 (split; [done|]). by right. }
  assert (lba < 2 ^ 28) as Hl2 by by apply Href. clear Href.
  destruct (issue_spec bus slave dr lba READ_SECTORS d Hd ltac:(lia) Hi Hpr ltac:(by left)) as (d1 & E1 & S1 & Hs1 & P1 & O1).
  rewrite (st_bind_eq _ _ _ _ _ E1). pose proof S1 as (Spr & Sid & Sse). unfold wait_drq. rewrite fetch_bind.
  destruct (fetch_spec bus dr (ata bus d1) (sector (ata bus d) slave lba) d1) as (r & d2 & E2 & S2 & O2 & H2);
    [apply Hd|rewrite <- Sse; by apply seeking_pending|apply Hw|by rewrite Hs1, Spr|by left|].
  assert (same_disks (ata bus d) (ata bus d2)) as S by (unfold same_disks in *; intuition congruence). assert (other_same bus d d2) as O by (unfold other_same in *; congruence).
  destruct H2 as [[-> A2]|[[-> A2]| ->]]; [rewrite (try_bind_ok _ _ _ _ _ E2)|rewrite (try_bind_err _ _ _ _ _ E2)..]; eexists _, d2; do 3 (split; [done|]).
  - split; [done|]. split; [done|by rewrite A2].
  - right. by rewrite A2.
  - by left.
Qed.

(** Writing: the sector holds the bytes, unless the drive says that it failed; no other
    sector changes. *)
Lemma write_sector_spec `{!TolerantBuses D} bus slave dr lba buf d : drive_ready bus slave dr d -> 0 <= lba -> 512 <= blen buf -> Forall is_byte buf ->
  exists r d', write_sector dr lba buf d = Some (r, d') /\ same_but slave lba (ata bus d) (ata bus d') /\ other_same bus d d' /\ whole (ata bus d') /\
    match r with
    | Ok _ => lba < 2 ^ 28 /\ phase (ata bus d') = Idle /\ (failed (ata bus d') = false -> sector (ata bus d') slave lba = bytes_to_words 256 buf)
    | Err e => e = Timeout \/ phase (ata bus d') = Idle
    end.
Proof.
  intros Hr Hl Hb Hby. pose proof (refused_ready bus slave dr lba buf d Hr Hb) as Href. pose proof Hr as (Hd & Hin & Hpr & Hi & Hw). unfold write_sector.
  destruct (refused dr lba buf) as [e|].
  { exists (Err e), d. do 4 (split; [done|]). by right. }
  assert (lba < 2 ^ 28) as Hl2 by by apply Href. clear Href.
  destruct (issue_spec bus slave dr lba WRITE_SECTORS d Hd ltac:(lia) Hi Hpr ltac:(by right)) as (d1 & E1 & S1 & Hs1 & P1 & O1).
  rewrite (st_bind_eq _ _ _ _ _ E1). destruct Hd as [Hp _]. pose proof S1 as (Spr & Sid & Sse). unfold wait_drq.
  destruct (drq_spec bus dr WAIT_TRIES d1 Hp) as (r2 & d2 & E2 & [L2 O2] & H2); [by rewrite Hs1, Spr|apply tolerant_clear|].
  destruct (preparing_later _ _ slave lba P1 L2) as (S2 & T2 & F2). apply (same_trans _ _ _ S1) in S2. clear S1.
  assert (other_same bus d d2) as O by (unfold other_same in *; congruence). destruct H2 as [[-> H2]|H2].
  2:{ assert (exists e, r2 = Err e /\ (e = Timeout \/ phase (ata bus d2) = Idle)) as (e & -> & He) by (destruct H2 as [(-> & ? & ?)| ->]; eauto).
      rewrite (try_bind_err _ _ _ _ _ E2). exists (Err e), d2. split; [done|]. split; [by apply same_but_of|]. split; [done|]. split; [by eapply same_whole|done]. }
  rewrite (try_bind_ok _ _ _ _ _ E2). specialize (T2 H2).
  destruct (write_words_spec bus dr (bytes_to_words 256 buf) d2 slave lba [] Hp) as (d3 & E3 & A3 & O3);
    [done|by rewrite bytes_to_words_length|by rewrite T2|]. rewrite (st_bind_eq _ _ _ _ _ E3). cbn [app] in A3.
  assert (write_command dr FLUSH_CACHE d3 = Some (tt, port_write 1 (port bus Status) FLUSH_CACHE d3)) as E4 by (unfold write_command; rewrite Hp; by destruct bus).
  rewrite (st_bind_eq _ _ _ _ _ E4). assert (busy (phase (ata bus d3)) = true) as B3 by by rewrite A3.
  pose proof (busy_ignores bus d3 FLUSH_CACHE B3) as A4. pose proof (bus_other_write bus Status 1 FLUSH_CACHE d3) as O4. revert A4 O4.
  generalize (port_write 1 (port bus Status) FLUSH_CACHE d3) as d4. intros d4 A4 O4. unfold wait_not_busy.
  assert (same_disks (ata bus d) (ata bus d4)) as S4 by by rewrite A4, A3.
  destruct (not_busy_spec bus dr WAIT_TRIES d4 Hp) as (r5 & d5 & E5 & [L5 O5] & H5).
  { rewrite A4, A3, T2. by change (present (ata bus d1) (selected (ata bus d1)) = true); rewrite Hs1, Spr. }
  assert (other_same bus d d5) as O' by (unfold other_same in *; congruence). exists r5, d5. split; [done|].
  destruct (storing_any (ata bus d4) (ata bus d5) slave lba (bytes_to_words 256 buf)) as (B5 & W5 & G5); [by rewrite A4, A3|by apply bytes_to_words_sector|done|].
  split; [by eapply same_but_trans|]. split; [done|]. split; [apply W5; by eapply same_whole|].
  destruct H5 as [[-> H5]| ->]; [by destruct (G5 H5)|by left].
Qed.

(** Finding a drive. *)
Lemma init_spec bus slave d : phase (ata bus d) = Idle -> whole (ata bus d) -> is_sector (identity (ata bus d) slave) ->
  exists r d', init (new (bus_ports bus) (type_of slave)) d = Some (r, d') /\ same_disks (ata bus d) (ata bus d') /\ other_same bus d d' /\
    match r with
    | Ok dr => drive_ready bus slave dr d' /\ sectors dr = identify_sectors (identity (ata bus d) slave)
    | Err e => (present (ata bus d) slave = false <-> e = NotFound) /\ (e = Timeout \/ phase (ata bus d') = Idle)
    end.
Proof.
  intros Hi Hw Hid. set (dr := new (bus_ports bus) (type_of slave)). assert (is_drive bus slave dr) as Hd by done.
  destruct (select_spec bus slave dr d Hd Hi) as (d1 & E1 & A1 & O1). unfold init. rewrite E1.
  assert (selected (ata bus d1) = slave) as Hs1 by (rewrite A1; by destruct slave).
  set (a := set_phase (Identifying slave) false (ata bus d1)).
  destruct (command_spec bus dr IDENTIFY (if present (ata bus d) slave then a else ata bus d1) d1) as (d2 & E2 & A2 & O2); [done|by rewrite A1| |].
  { unfold AtaBus.start. cbn [Z.eqb Pos.eqb IDENTIFY]. rewrite Hs1. by replace (present (ata bus d1)) with (present (ata bus d)) by by rewrite A1. }
  rewrite (st_bind_eq _ _ _ _ _ E2). destruct (status_spec bus dr d2) as (v & d3 & E3 & _ & [L3 O3] & H3); [done|]. rewrite (st_bind_eq _ _ _ _ _ E3).
  assert (other_same bus d d3) as O by (unfold other_same in *; congruence). destruct (present (ata bus d) slave) eqn:Epr.
  - rewrite A2 in L3. assert (present a (selected a) = true) as Hpa by (change (present (ata bus d1) (selected (ata bus d1)) = true); by rewrite Hs1, A1).
    assert (pending a (identity (ata bus d) slave)) as Hpe.
    { replace (identity (ata bus d) slave) with (identity a slave) by (unfold a; cbn; by rewrite A1). by apply identifying_pending. }
    assert (v <> 0) as Hv.
    { intros ->. unfold shows in H3. rewrite (later_present _ _ L3), Hpa, !Z.bits_0 in H3. destruct H3 as [H7 H3]. destruct (H3 (eq_sym H7)) as (Ht & Hf & _).
      destruct L3 as [L3|L3]; [by rewrite L3 in H7|]. by apply Hpe in L3 as [L3|L3]; rewrite L3 in Ht, Hf. }
    destruct (Z.eqb_spec v 0) as [|_]; [done|]. rewrite fetch_bind. destruct (fetch_spec bus dr a _ d3 ltac:(done) Hpe Hid Hpa L3) as (r & d4 & E4 & S4 & O4 & H4).
    assert (same_disks (ata bus d) (ata bus d4)) as S by (eapply same_trans; [|exact S4]; unfold a; by rewrite A1).
    assert (other_same bus d d4) as O' by (unfold other_same in *; congruence).
    destruct H4 as [[-> A4]|[[-> A4]| ->]]; [rewrite (try_bind_ok _ _ _ _ _ E4)|rewrite (try_bind_err _ _ _ _ _ E4)..]; eexists _, d4; do 3 (split; [done|]).
    + split; [|done]. split; [done|]. split; [done|]. rewrite A4. split; [unfold a; cbn; by rewrite A1|]. split; [done|]. intros s l. unfold a. cbn. rewrite A1. apply Hw.
    + split; [done|]. right. by rewrite A4.
    + split; [done|]. by left.
  - assert (ata bus d3 = ata bus d1) as A3. { apply idle_later; [by rewrite A1; cbn; rewrite Hi|]. by rewrite <- A2. }
    unfold shows in H3. rewrite A3, Hs1 in H3. replace (present (ata bus d1)) with (present (ata bus d)) in H3 by by rewrite A1. rewrite Epr in H3. rewrite H3.
    eexists _, d3. split; [done|]. rewrite A3, A1. split; [done|]. split; [done|]. split; [done|]. by right.
Qed.
End buses.

(** ** The service *)

Definition disk_bus (i : nat) : bool := (2 <=? i)%nat.
Definition disk_slave (i : nat) : bool := Nat.odd i.

Section service.
Context {D : Type} `{!Ports D} `{!AtaBuses D} {K : Type} `{!ServiceCalls K}.
Implicit Types s : Service D K.

(** The bytes of a sector of disk [i]. *)
Definition contents s (i : nat) (lba : Z) : bytes := words_to_bytes (sector (ata (disk_bus i) (dev s)) (disk_slave i) lba).

(** The table holds drives that are there. *)
Definition table_ok s : Prop := length (disks s) = 4%nat /\
  forall i dr, disks s !! i = Some (Some dr) -> is_drive (disk_bus i) (disk_slave i) dr /\ initialized dr = true /\ present (ata (disk_bus i) (dev s)) (disk_slave i) = true.
Definition sectors_whole s : Prop := forall bus, whole (ata bus (dev s)).
Definition bus_idle s (bus : bool) : Prop := phase (ata bus (dev s)) = Idle.
Definition disk_faulted s (i : nat) : bool := failed (ata (disk_bus i) (dev s)).

Lemma bool_neq (b b' : bool) : b <> b' -> b = negb b'.
Proof. by destruct b, b'. Qed.

(** A drive operation of the service: what it does to its bus, and that the other bus is
    left alone. *)
Lemma contents_other s s' bus i lba : other_same bus (dev s) (dev s') -> disk_bus i <> bus -> contents s' i lba = contents s i lba.
Proof. intros Ho Hn. unfold contents. assert (disk_bus i = negb bus) as -> by by apply bool_neq. by rewrite Ho. Qed.

Lemma table_kept s d' bus : table_ok s -> present (ata bus d') = present (ata bus (dev s)) -> other_same bus (dev s) d' -> table_ok (set_dev d' s).
Proof.
  intros [Hl H] Hp Ho. split; [done|]. intros i dr Hi. destruct (H i dr Hi) as (H1 & H2 & H3). do 2 (split; [done|]). cbn [dev set_dev].
  destruct (decide (disk_bus i = bus)) as [<-|Hn]; [by rewrite Hp|]. assert (disk_bus i = negb bus) as E by by apply bool_neq. rewrite E, Ho, <- E. done.
Qed.

Lemma whole_kept s d' bus : sectors_whole s -> whole (ata bus d') -> other_same bus (dev s) d' -> sectors_whole (set_dev d' s).
Proof.
  intros H Hw Ho b. cbn [dev set_dev]. destruct (decide (b = bus)) as [->|Hn]; [done|]. assert (b = negb bus) as -> by by apply bool_neq. rewrite Ho. apply H.
Qed.

Lemma disk_of s i dr bus : table_ok s -> sectors_whole s -> disks s !! i = Some (Some dr) -> bus = disk_bus i -> bus_idle s bus -> drive_ready bus (disk_slave i) dr (dev s).
Proof. intros [_ Ht] Hw Hi -> Hb. destruct (Ht i dr Hi) as (? & ? & ?). do 4 (split; [done|]). apply Hw. Qed.

(** A disk that is not there. *)
Lemma with_disk_spec id (f : AtaDrive -> SV (D := D) (K := K) DiskResponse) s : table_ok s -> 0 <= id ->
  (exists dr, id < 4 /\ disks s !! Z.to_nat id = Some (Some dr) /\ with_disk id f s = f dr s) \/
  (exists e, (e = -6 \/ e = -22) /\ with_disk id f s = Some (mkResp e 0 (zeros 512), s)).
Proof.
  intros [Hl _] Hid. unfold with_disk, MAX_DISKS. destruct (Z.ltb_spec id 4); [|right; by exists (-22); eauto].
  destruct (lookup_lt_is_Some_2 (disks s) (Z.to_nat id)) as [[dr|] ->]; [lia|left; by exists dr|right; by exists (-6); eauto].
Qed.

Definition all_idle s : Prop := forall bus, bus_idle s bus.

(** What every request keeps. *)
Definition service_kept s s' : Prop := table_ok s' /\ sectors_whole s' /\ krn s' = krn s /\ disks s' = disks s.

Lemma idle_kept s d' bus : all_idle s -> phase (ata bus d') = Idle -> other_same bus (dev s) d' -> all_idle (set_dev d' s).
Proof.
  intros H Hi Ho b. unfold bus_idle. cbn [dev set_dev]. destruct (decide (b = bus)) as [->|Hn]; [done|]. apply bool_neq in Hn as ->. rewrite Ho. apply H.
Qed.

Lemma disk_index i j : (i < 4)%nat -> (j < 4)%nat -> disk_bus i = disk_bus j -> disk_slave i = disk_slave j -> i = j.
Proof. intros Hi Hj. do 4 (destruct i as [|i]; [do 4 (destruct j as [|j]; [done|]); lia|]). lia. Qed.

Lemma contents_read s bus d' : same_disks (ata bus (dev s)) (ata bus d') -> other_same bus (dev s) d' ->
  forall i l, contents (set_dev d' s) i l = contents s i l.
Proof.
  intros (_ & _ & Hs) Ho i l. destruct (decide (disk_bus i = bus)) as [<-|Hn]; [|by eapply contents_other]. unfold contents. cbn [dev set_dev]. by rewrite Hs.
Qed.

Lemma read_request s i dr lba : table_ok s -> sectors_whole s -> all_idle s -> disks s !! i = Some (Some dr) -> 0 <= lba ->
  exists r s', drive_io (read_sector dr lba (zeros 512)) s = Some (r, s') /\ service_kept s s' /\ (forall j l, contents s' j l = contents s j l) /\
    match r with Ok b => b = contents s i lba /\ all_idle s' | Err _ => True end.
Proof.
  intros Ht Hw Hi Hd Hl. pose proof (disk_of s i dr _ Ht Hw Hd eq_refl (Hi _)) as Hr.
  destruct (read_sector_spec _ _ dr lba (zeros 512) (dev s) Hr Hl) as (r & d' & E & S & O & H); [done|].
  exists r, (set_dev d' s). unfold drive_io. rewrite E. split; [done|]. destruct S as (Sp & Si & Ss). split.
  { split; [by eapply table_kept|]. split; [|done]. eapply whole_kept; [done| |done]. intros x y. rewrite Ss. apply Hw. }
  split; [intros j l; by eapply contents_read|]. destruct r as [b|]; [|done]. destruct H as (_ & -> & Hp). split; [|by eapply idle_kept].
  apply put_all. unfold zeros, contents. rewrite length_replicate, words_to_bytes_length. by destruct (Hw (disk_bus i) (disk_slave i) lba) as [-> _].
Qed.

Lemma write_request `{!TolerantBuses D} s i dr lba b : table_ok s -> sectors_whole s -> all_idle s -> disks s !! i = Some (Some dr) -> 0 <= lba ->
  length b = 512%nat -> Forall is_byte b -> (i < 4)%nat ->
  exists r s', drive_io (write_sector dr lba b) s = Some (r, s') /\ service_kept s s' /\
    (forall j l, (j < 4)%nat -> (j, l) <> (i, lba) -> contents s' j l = contents s j l) /\
    match r with Ok _ => all_idle s' /\ (disk_faulted s' i = false -> contents s' i lba = b) | Err _ => True end.
Proof.
  intros Ht Hw Hi Hd Hl Hlen Hb H4. pose proof (disk_of s i dr _ Ht Hw Hd eq_refl (Hi _)) as Hr.
  destruct (write_sector_spec _ _ dr lba b (dev s) Hr Hl) as (r & d' & E & (Sp & Si & Ss) & O & Hw' & H); [unfold blen; lia|done|].
  exists r, (set_dev d' s). unfold drive_io. rewrite E. split; [done|]. split.
  { split; [by eapply table_kept|]. split; [|done]. by eapply whole_kept. }
  split.
  - intros j l Hj Hn. destruct (decide (disk_bus j = disk_bus i)) as [Eb|Hn']; [|by eapply contents_other].
    unfold contents. cbn [dev set_dev]. rewrite Eb. rewrite Ss; [done|]. intros [= Esl ->]. apply Hn. f_equal. by apply disk_index.
  - destruct r as [u|]; [|done]. destruct H as (_ & Hp & Hf). split; [by eapply idle_kept|]. intros F. unfold contents. cbn [dev set_dev]. rewrite Hf by done.
    rewrite words_roundtrip by (done || lia). by rewrite take_ge by lia.
Qed.


(** ** Who reaches the drives *)

(** The message of this round, as [ipc_recv] gives it, and the kernel after it. *)
Definition received s : Z * Z * Service D K :=
  match ipc_recv s with Some ((sender, len), s1) => (sender, len, s1) | None => (0, 0, s) end.

(** A request to read or write a disk that is there. *)
Definition names_disk (req : DiskRequest) s : Prop :=
  (op req = OP_READ \/ op req = OP_WRITE) /\ disk_id req < MAX_DISKS /\ exists dr, disks s !! Z.to_nat (disk_id req) = Some (Some dr).

Lemma with_disk_dev req (f : AtaDrive -> SV (D := D) (K := K) DiskResponse) s r s' : op req = OP_READ \/ op req = OP_WRITE ->
  (Some <$> with_disk (disk_id req) f) s = Some (r, s') -> dev s' = dev s \/ names_disk req s.
Proof.
  intros Ho. unfold fmap, ST_fmap, with_disk. destruct (Z.ltb_spec (disk_id req) MAX_DISKS); [|intros [= <- <-]; by left].
  destruct (disks s !! Z.to_nat (disk_id req)) as [[dr|]|] eqn:Ed; [|intros [= <- <-]; by left|done]. intros _. right. split; [done|]. split; [done|by exists dr].
Qed.

Lemma answer_dev req s r s' : answer req s = Some (r, s') -> dev s' = dev s \/ names_disk req s.
Proof.
  unfold answer. destruct (Z.eqb_spec (op req) OP_READ); [apply with_disk_dev; by left|]. destruct (Z.eqb_spec (op req) OP_WRITE); [apply with_disk_dev; by right|].
  destruct (op req =? OP_INFO).
  - unfold fmap, ST_fmap, with_disk. destruct (disk_id req <? MAX_DISKS); [|intros [= <- <-]; by left]. destruct (disks s !! _) as [[dr|]|]; [..|done]; intros [= <- <-]; by left.
  - destruct (op req =? OP_LIST); [|intros [= <- <-]; by left]. destruct (list_disks _ _ _ _). intros [= <- <-]. by left.
Qed.

Lemma call_dev {A} (f : K -> A * K) s a s' : call f s = Some (a, s') -> dev s' = dev s /\ disks s' = disks s /\ recv_buf s' = recv_buf s /\ a = (f (krn s)).1.
Proof. unfold call. destruct (f (krn s)) as [a1 k]. intros [= <- <-]. done. Qed.

(** C34. Only privileged threads reach the drives.  A round of the service leaves every port
    alone unless a message of at least 32 bytes came from a thread whose privilege the
    kernel gives as Core or Service, and the message asks to read or write a disk that the
    service found. *)
Theorem disk_io_needs_privilege s s' :
  serve s = Some (tt, s') ->
  let '(sender, len, s1) := received s in
  dev s' = dev s \/ sender <> 0 /\ 32 <= len /\ (k_privilege sender (krn s1)).1 <= 1 /\ names_disk (request_of (recv_buf s1)) s.
Proof.
  unfold serve, received. intros H. apply st_bind_Some in H as ([sender len] & s1 & E1 & H). rewrite E1.
  assert (dev s1 = dev s /\ disks s1 = disks s) as [D1 K1].
  { unfold ipc_recv in E1. destruct (k_recv _ _) as [[ret b] k]. injection E1 as _ <-. done. }
  destruct ((sender =? 4294967295) || (len =? 4294967293)); [injection H as <-; by left|].
  destruct (Z.eqb_spec sender 0) as [|Hs]; [injection H as <-; by left|]. destruct (Z.leb_spec 32 len) as [Hl|]; [|injection H as <-; by left]. cbn [negb andb] in H.
  apply st_bind_Some in H as (pv & s2 & E2 & H). apply call_dev in E2 as (D2 & K2 & B2 & Hpv). destruct (Z.ltb_spec 1 pv) as [|Hp].
  { left. apply st_bind_Some in H as (? & s3 & E3 & H). apply call_dev in E3 as (D3 & _). injection H as <-. congruence. }
  apply st_bind_Some in H as (s2' & s3 & [= -> ->] & H). apply st_bind_Some in H as (resp & s4 & E4 & H). rename s3 into s2.
  assert (dev s' = dev s4) as D5.
  { destruct resp; [|by injection H as <-]. apply st_bind_Some in H as (? & s5 & E5 & H). apply call_dev in E5 as (D5 & _). by injection H as <-. }
  apply answer_dev in E4 as [D4|(Ho & Hid & dr & Hd)]; [left; congruence|]. right. split; [done|]. split; [done|]. split; [by rewrite <- Hpv|].
  rewrite B2 in Ho, Hid, Hd. split; [done|]. split; [done|]. exists dr. congruence.
Qed.
End service.

(** ** A kernel with a mailbox and a service with one disk *)

Import AtaSim.

Record Mail := mkMail { inbox : list (Z * bytes); outbox : list (Z * bytes) }.

(** Threads up to 10 are services. *)
#[export] Instance mail_calls : ServiceCalls Mail := {|
  k_recv n k := match inbox k with (frm, b) :: l => (Z.lor (Z.shiftl frm 32) (blen b), b, mkMail l (outbox k)) | [] => (U64_MODULUS - 11, [], k) end;
  k_send dest b k := (0, mkMail (inbox k) (outbox k ++ [(dest, b)]));
  k_privilege tid k := (if tid <=? 10 then 1 else 2, k);
  k_find _ k := (1, k);
  k_yield k := k
|}.

Definition demo (bad : Z -> bool) (l : list (Z * bytes)) : Service AtaSim.Sim Mail :=
  mkService (AtaSim.fresh bad) (mkMail l []) [Some (mkDrive PRIMARY Master 8 true); None; None; None] true (DiskService.zeros 544).
Definition ones : bytes := replicate 512 1.
Definition write_ones : DiskRequest := mkReq OP_WRITE 0 5 1 ones.

Lemma demo_table bad l : table_ok (demo bad l).
Proof. split; [done|]. intros i dr. do 4 (destruct i as [|i]; [cbn; intros [= <-]; done || done|]). done. Qed.

Lemma demo_whole bad l : sectors_whole (demo bad l).
Proof.
  intros bus slave lba. assert (is_sector (replicate 256 (lba mod 65536))) as H.
  { split; [by rewrite length_replicate|]. apply Forall_replicate. unfold is_word. apply Z.mod_pos_bound. lia. }
  by destruct bus.
Qed.

Lemma demo_idle bad l : all_idle (demo bad l).
Proof. by intros []. Qed.

Lemma ones_bytes : length ones = 512%nat /\ Forall is_byte ones.
Proof. split; [done|]. unfold ones. by apply Forall_replicate. Qed.

(** A successful answer and no fault. *)
Definition went_well (x : option (option DiskResponse * Service AtaSim.Sim Mail)) : bool :=
  match x with Some (Some r, s') => (status r =? 0) && negb (disk_faulted s' 0) | _ => false end.



(** The request of a user's thread, 11, to write a sector. *)
Definition request_bytes : bytes := to_le_bytes 8 OP_WRITE ++ to_le_bytes 8 0 ++ to_le_bytes 8 5 ++ to_le_bytes 8 1 ++ ones.
Definition outcome {A B} (x : option (A * B)) (d : B) : B := match x with Some (_, s) => s | None => d end.

Lemma disk_io_needs_privilege_witness :
  let s := demo (fun _ => false) [(11, request_bytes)] in
  let s' := outcome (serve s) s in
  serve s = Some (tt, s') /\ dev s' = dev s /\ outbox (krn s') = [(11, response_bytes (mkResp (-1) 0 (DiskService.zeros 512)))].
Proof.
  intros s s'. assert (match serve s with Some _ => true | None => false end = true) as Hs by (vm_compute; reflexivity).
  assert (serve s = Some (tt, s')) as E by (unfold s', outcome; destruct (serve s) as [[[] s1]|]; [reflexivity|discriminate]). split; [exact E|].
  pose proof (disk_io_needs_privilege s s' E) as H. assert (fst (received s) = (11, 544)) as Er by (vm_compute; reflexivity).
  destruct (received s) as [[sender len] s1]. injection Er as -> ->.
  split; [|vm_compute; reflexivity]. destruct H as [H|(_ & _ & Hp & _)]; [exact H|]. exfalso. by apply Hp.
Defined.
End DiskProps.
