(* ===== verification/ModuleAta.v ===== *)
(** How the file-system module reads a sector: the port input and output of
    [src/modules/fs/src/main.rs].

    [FsModule] takes from the hardware only what a command delivers.  Here is the code
    that gives the command, through the class [Ports]; against drives that keep to the
    class [AtaBuses] it delivers what [FsModule] assumes. *)

From Stdlib Require Import ZArith Lia.
From stdpp Require Import base list option numbers.
From S2P Require Import Prelude State Types UserMem Bytes PortIo FsModule AtaBus DiskService DiskProps.
Import Bytes AtaBus DiskProps.

Local Open Scope Z_scope.
Local Open Scope kernel_scope.

Module ModuleAta.

Definition ATA_DATA : Z := 496.
Definition ATA_SECTOR_COUNT : Z := 498.
Definition ATA_LBA_LOW : Z := 499.
Definition ATA_LBA_MID : Z := 500.
Definition ATA_LBA_HIGH : Z := 501.
Definition ATA_DRIVE_HEAD : Z := 502.
Definition ATA_STATUS_CMD : Z := 503.
Definition ATA_ALT_STATUS : Z := 1014.
Definition ATA_CMD_READ_SECTORS : Z := 32.
Definition ATA_STATUS_ERR : Z := 1.
Definition ATA_STATUS_DRQ : Z := 8.
Definition ATA_STATUS_DF : Z := 32.
Definition ATA_STATUS_BSY : Z := 128.

Section code.
Context {D : Type} `{!Ports D}.

Definition inb (p : Z) : ST D Z := fun d => let '(v, d) := port_read 1 p d in Some (v, d).
Definition inw (p : Z) : ST D Z := fun d => let '(v, d) := port_read 2 p d in Some (v, d).
Definition outb (p v : Z) : ST D unit := fun d => Some (tt, port_write 1 p v d).

Definition io_wait_400ns : ST D unit := sfor (seq 0 4) (fun _ => inb ATA_ALT_STATUS ≫= fun _ => mret tt).

Definition select_drive (drive lba : Z) : ST D unit :=
  let head := Z.lor (Z.lor 224 (Z.shiftl (Z.land drive 1) 4)) (Z.land (Z.shiftr lba 24) 15) in
  outb ATA_DRIVE_HEAD head ≫= fun _ => io_wait_400ns.

Fixpoint wait_not_busy (timeout : nat) : ST D bool :=
  match timeout with
  | O => mret false
  | S timeout => st ← inb ATA_STATUS_CMD; if Z.land st ATA_STATUS_BSY =? 0 then mret true else wait_not_busy timeout
  end.

Fixpoint wait_drq (timeout : nat) : ST D bool :=
  match timeout with
  | O => mret false
  | S timeout =>
      st ← inb ATA_STATUS_CMD;
      if negb (Z.land st ATA_STATUS_BSY =? 0) then wait_drq timeout
      else if negb (Z.land st (Z.lor ATA_STATUS_ERR ATA_STATUS_DF) =? 0) then mret false
      else if negb (Z.land st ATA_STATUS_DRQ =? 0) then mret true
      else wait_drq timeout
  end.

(** The bytes of [n] words. *)
Fixpoint read_words (n : nat) : ST D bytes :=
  match n with
  | O => mret []
  | S n => w ← inw ATA_DATA; out ← read_words n; mret (to_le_bytes 2 w ++ out)
  end.

Definition TIMEOUT : nat := Z.to_nat 200000.

(** [Some out] is [true] with the sector in [out]. *)
Definition read_sector_ata (drive lba : Z) : ST D (option bytes) :=
  ok ← wait_not_busy TIMEOUT;
  if negb (ok : bool) then mret None
  else
    select_drive drive lba ≫= fun _ =>
    outb ATA_SECTOR_COUNT 1 ≫= fun _ =>
    outb ATA_LBA_LOW (Z.land lba 255) ≫= fun _ =>
    outb ATA_LBA_MID (Z.land (Z.shiftr lba 8) 255) ≫= fun _ =>
    outb ATA_LBA_HIGH (Z.land (Z.shiftr lba 16) 255) ≫= fun _ =>
    outb ATA_STATUS_CMD ATA_CMD_READ_SECTORS ≫= fun _ =>
    ok ← wait_drq TIMEOUT;
    if negb (ok : bool) then mret None
    else out ← read_words 256; mret (Some out).
End code.

(** ** What the drive on the primary bus delivers *)

(** The sector a task file names. *)
Definition task_slave (t : FsModule.TaskFile) : bool := Z.testbit (FsModule.head t) 4.
Definition task_lba (t : FsModule.TaskFile) : Z :=
  FsModule.lba_low t + 256 * FsModule.lba_mid t + 65536 * FsModule.lba_high t + 16777216 * (FsModule.head t mod 16).

(** The device of [FsModule] that the sectors of a bus are, without DMA. *)
Definition device_of (a : Ata) : FsModule.Device :=
  FsModule.mkDevice
    (fun t => if present a (task_slave t) then Some (fun i => sector a (task_slave t) (task_lba t) !!! i) else None)
    (fun _ _ => None).

(** The words of a list one by one. *)
Lemma words_by_index ws n : length ws = n -> (seq 0 n ≫= fun i => to_le_bytes 2 (ws !!! i)) = DiskService.words_to_bytes ws.
Proof.
  intros <-. unfold DiskService.words_to_bytes. induction ws as [|w ws IH]; [done|]. cbn [length seq]. rewrite !bind_cons. f_equal. rewrite <- IH.
  rewrite <- fmap_S_seq. generalize (seq 0 (length ws)). intros l. induction l as [|i l IHl]; [done|]. rewrite fmap_cons, !bind_cons. f_equal. exact IHl.
Qed.

Section correct.
Context {D : Type} `{!Ports D} `{!AtaBuses D}.
Implicit Types d : D.

Lemma poll_spec r d : r = Status \/ r = Control ->
  exists v d', inb (port false r) d = Some (v, d') /\ later (ata false d) (ata false d') /\ shows (ata false d') v.
Proof. intros Hr. pose proof (bus_status false d r Hr) as H. unfold inb. destruct (port_read 1 (port false r) d) as [v d']. exists v, d'. done. Qed.

Lemma set_spec r v d : is_setting r = true -> phase (ata false d) = Idle ->
  exists d', outb (port false r) v d = Some (tt, d') /\ ata false d' = set_reg r v (ata false d).
Proof. intros Hr Hi. eexists. split; [done|]. by apply bus_setting. Qed.

(** The wait reads the alternate status four times. *)
Lemma io_wait_spec d : phase (ata false d) = Idle -> exists d', io_wait_400ns d = Some (tt, d') /\ ata false d' = ata false d.
Proof.
  intros Hi. unfold io_wait_400ns. destruct (sfor_inv (fun _ d1 => ata false d1 = ata false d) (fun _ => inb ATA_ALT_STATUS ≫= fun _ => mret tt) (seq 0 4) d)
    as (d' & -> & Ha); [done| |by exists d']. intros _ _ d1 Ha. destruct (poll_spec Control d1 ltac:(by right)) as (v & d2 & E & L & _).
  exists d2. rewrite (st_bind_eq _ _ _ _ _ E). split; [done|]. rewrite Ha in L. apply idle_later in L; [done|by rewrite Hi].
Qed.

(** On an idle bus the first wait passes at once, whatever drive is selected. *)
Lemma not_busy_idle n d : (0 < n)%nat -> phase (ata false d) = Idle -> exists d', wait_not_busy n d = Some (true, d') /\ ata false d' = ata false d.
Proof.
  intros Hn Hi. destruct n as [|n]; [lia|]. cbn [wait_not_busy]. destruct (poll_spec Status d ltac:(by left)) as (v & d1 & E & L & Hs). rewrite (st_bind_eq _ _ _ _ _ E).
  apply idle_later in L; [|by rewrite Hi]. exists d1. replace (Z.land v ATA_STATUS_BSY =? 0) with true; [done|].
  change ATA_STATUS_BSY with (2 ^ 7). rewrite mask_bit by done. unfold shows in Hs. rewrite L, Hi in Hs.
  destruct (present _ _); [by destruct Hs as [-> _]|by rewrite Hs, Z.bits_0].
Qed.

Lemma error_bits v : Z.testbit v 0 = false -> Z.testbit v 5 = false -> Z.land v (Z.lor ATA_STATUS_ERR ATA_STATUS_DF) = 0.
Proof.
  intros H0 H5. rewrite Z.land_lor_distr_r. change ATA_STATUS_ERR with (2 ^ 0). change ATA_STATUS_DF with (2 ^ 5).
  pose proof (mask_bit v 0 ltac:(lia)) as E0. pose proof (mask_bit v 5 ltac:(lia)) as E5. rewrite H0 in E0. rewrite H5 in E5. apply Z.eqb_eq in E0, E5. by rewrite E0, E5.
Qed.

(** The second wait, of a drive that will send [ws] or fail. *)
Lemma wait_drq_pending n a ws d : pending a ws -> present a (selected a) = true -> later a (ata false d) ->
  exists r d', wait_drq n d = Some (r, d') /\ later a (ata false d') /\ (r = true -> phase (ata false d') = Sending ws).
Proof.
  intros Hpe Hpr. revert d. induction n as [|n IH]; intros d L; cbn [wait_drq]; [by exists false, d|].
  destruct (poll_spec Status d ltac:(by left)) as (v & d1 & E & L1 & Hs). rewrite (st_bind_eq _ _ _ _ _ E). apply (later_trans _ _ _ L) in L1.
  unfold shows in Hs. rewrite (later_present _ _ L1), Hpr in Hs. destruct Hs as [H7 Hs]. change ATA_STATUS_BSY with (2 ^ 7). change ATA_STATUS_DRQ with (2 ^ 3).
  rewrite !mask_bit, !negb_involutive, H7 by done. destruct (busy (phase (ata false d1))) eqn:Eb; [by apply IH|].
  destruct Hs as (H3 & H0 & H5); [done|]. destruct L1 as [L1|L1]; [destruct Hpe as [Hb _]; by rewrite L1, Hb in Eb|]. pose proof L1 as L1'. apply Hpe in L1 as [L1|L1]; rewrite L1 in H3, H0.
  - rewrite error_bits by done. rewrite H3. exists true, d1. split; [done|]. split; [by right|]. by rewrite L1.
  - destruct (negb _); [|rewrite H3]; [exists false, d1; split; [done|]; split; [by right|done]|]. apply IH. by right.
Qed.

(** The second wait where no drive is selected. *)
Lemma wait_drq_absent n d : present (ata false d) (selected (ata false d)) = false -> phase (ata false d) = Idle ->
  exists d', wait_drq n d = Some (false, d') /\ ata false d' = ata false d.
Proof.
  revert d. induction n as [|n IH]; intros d Hp Hi; cbn [wait_drq]; [by exists d|].
  destruct (poll_spec Status d ltac:(by left)) as (v & d1 & E & L1 & Hs). rewrite (st_bind_eq _ _ _ _ _ E). apply idle_later in L1; [|by rewrite Hi].
  unfold shows in Hs. rewrite L1, Hp in Hs. rewrite Hs, !Z.land_0_l. cbn [Z.eqb negb]. destruct (IH d1) as (d' & -> & A); [by rewrite L1..|]. exists d'. split; [done|congruence].
Qed.

Lemma module_words ws d : ws <> [] -> Forall is_word ws -> phase (ata false d) = Sending ws ->
  exists d', read_words (length ws) d = Some (DiskService.words_to_bytes ws, d') /\ ata false d' = set_phase Idle (failed (ata false d)) (ata false d).
Proof.
  revert d. induction ws as [|w ws IH]; intros d Hn Hwd Hs; [done|]. cbn [length read_words]. clear Hn. inversion_clear Hwd as [|? ? Hw1 Hw2].
  pose proof (bus_data_in false d w ws Hs Hw1) as H. change (port false Data) with ATA_DATA in H. unfold inw, mbind, ST_bind, mret, ST_ret.
  destruct (port_read 2 ATA_DATA d) as [v d1]. destruct H as [-> A1]. destruct ws as [|w' ws].
  - exists d1. by split.
  - destruct (IH d1) as (d2 & -> & A2); [done|done|by rewrite A1|]. exists d2. split; [done|]. by rewrite A2, A1.
Qed.

(** The registers that the code sets are the task file of [FsModule]. *)
Lemma command_registers drive lba d : phase (ata false d) = Idle ->
  exists d', (forall {A} (k : ST D A), (select_drive drive lba ≫= fun _ => outb ATA_SECTOR_COUNT 1 ≫= fun _ => outb ATA_LBA_LOW (Z.land lba 255) ≫= fun _ =>
      outb ATA_LBA_MID (Z.land (Z.shiftr lba 8) 255) ≫= fun _ => outb ATA_LBA_HIGH (Z.land (Z.shiftr lba 16) 255) ≫= fun _ => k) d = k d') /\
    same_disks (ata false d) (ata false d') /\ phase (ata false d') = Idle /\ count (ata false d') = 1 /\
    selected (ata false d') = task_slave (FsModule.task_file drive lba) /\ address (ata false d') = task_lba (FsModule.task_file drive lba).
Proof.
  intros Hi. set (head := FsModule.head (FsModule.task_file drive lba)).
  destruct (set_spec Head head d) as (d1 & E1 & A1); [done..|]. destruct (io_wait_spec d1) as (d2 & E2 & A2); [by rewrite A1|].
  destruct (set_spec SectorCount 1 d2) as (d3 & E3 & A3); [done|by rewrite A2, A1|].
  destruct (set_spec Low (Z.land lba 255) d3) as (d4 & E4 & A4); [done|by rewrite A3, A2, A1|].
  destruct (set_spec Mid (Z.land (Z.shiftr lba 8) 255) d4) as (d5 & E5 & A5); [done|by rewrite A4, A3, A2, A1|].
  destruct (set_spec High (Z.land (Z.shiftr lba 16) 255) d5) as (d6 & E6 & A6); [done|by rewrite A5, A4, A3, A2, A1|].
  exists d6. split.
  { intros A k. unfold select_drive. change (outb ATA_DRIVE_HEAD _) with (outb (D := D) (port false Head) head). unfold mbind, ST_bind. rewrite E1, E2.
    change ATA_SECTOR_COUNT with (port false SectorCount). rewrite E3. change ATA_LBA_LOW with (port false Low). rewrite E4.
    change ATA_LBA_MID with (port false Mid). rewrite E5. change ATA_LBA_HIGH with (port false High). by rewrite E6. }
  rewrite A6, A5, A4, A3, A2, A1. by repeat split.
Qed.

(** C35. The module reads the sectors its file system assumes.  On an idle bus
    [read_sector_ata] always returns and changes no sector; when it returns a sector the
    bus is idle again, and the bytes are those [FsModule] takes a sector read to deliver,
    for the device whose sectors are those of the bus; when the drive is not there
    it returns nothing, as that device does. *)
Theorem module_sector_equiv drive lba d :
  phase (ata false d) = Idle -> whole (ata false d) ->
  exists r d', read_sector_ata drive lba d = Some (r, d') /\ same_disks (ata false d) (ata false d') /\
    match r with
    | Some out => FsModule.read_sector_ata (device_of (ata false d)) drive lba = Some out /\ phase (ata false d') = Idle
    | None => present (ata false d) (task_slave (FsModule.task_file drive lba)) = false -> FsModule.read_sector_ata (device_of (ata false d)) drive lba = None
    end.
Proof.
  intros Hi Hw. unfold read_sector_ata. destruct (not_busy_idle TIMEOUT d ltac:(unfold TIMEOUT; lia) Hi) as (d1 & E1 & A1). rewrite (st_bind_eq _ _ _ _ _ E1). cbn [negb].
  destruct (command_registers drive lba d1) as (d2 & E2 & S2 & P2 & C2 & Se2 & Ad2); [by rewrite A1|]. rewrite E2. clear E1 E2. rewrite A1 in S2. clear A1 d1.
  set (t := FsModule.task_file drive lba) in *. unfold FsModule.read_sector_ata. fold t. cbn [FsModule.pio_words device_of]. pose proof S2 as (Sp & _ & Ss).
  assert (exists d3, outb ATA_STATUS_CMD ATA_CMD_READ_SECTORS d2 = Some (tt, d3) /\
    ata false d3 = (if present (ata false d) (task_slave t) then set_phase (Seeking (task_slave t) (task_lba t)) false (ata false d2) else ata false d2)) as (d3 & E3 & A3).
  { eexists. split; [done|]. apply (bus_command false d2 32); [done|]. unfold start. by rewrite Se2, Ad2, C2, Sp. }
  rewrite (st_bind_eq _ _ _ _ _ E3). destruct (present (ata false d) (task_slave t)) eqn:Epr.
  - assert (pending (ata false d3) (sector (ata false d) (task_slave t) (task_lba t))) as Hpe.
    { replace (sector (ata false d)) with (sector (ata false d3)) by by rewrite A3. apply seeking_pending. by rewrite A3. }
    destruct (wait_drq_pending TIMEOUT _ _ d3 Hpe) as (r & d4 & E4 & L4 & H4); [|by left|].
    { rewrite A3. change (present (ata false d2) (selected (ata false d2)) = true). by rewrite Se2, Sp. }
    assert (same_disks (ata false d) (ata false d4)) as S4 by (eapply same_trans; [|by eapply pending_same]; by rewrite A3).
    rewrite (st_bind_eq _ _ _ _ _ E4). destruct r; cbn [negb]; [|by exists None, d4]. destruct (Hw (task_slave t) (task_lba t)) as [Hlen Hwd].
    destruct (module_words _ d4 ltac:(by intros Hn; rewrite Hn in Hlen) Hwd (H4 eq_refl)) as (d5 & E5 & A5). rewrite Hlen in E5. rewrite (st_bind_eq _ _ _ _ _ E5).
    eexists _, d5. split; [done|]. rewrite A5. split; [done|]. split; [|done]. f_equal. by apply words_by_index.
  - destruct (wait_drq_absent TIMEOUT d3) as (d4 & E4 & A4); [by rewrite A3, Se2, Sp|by rewrite A3|]. rewrite (st_bind_eq _ _ _ _ _ E4). cbn [negb].
    exists None, d4. split; [done|]. split; [by rewrite A4, A3|done].
Qed.
End correct.

Import AtaSim.

(** Sector 7 of the master. *)
Lemma module_sector_equiv_witness :
  exists out d', read_sector_ata 0 7 (fresh (fun _ => false)) = Some (Some out, d') /\
    FsModule.read_sector_ata (device_of (fresh_ata true)) 0 7 = Some out /\ phase (primary d') = Idle.
Proof.
  destruct (module_sector_equiv (AtaBuses0 := sim_buses) 0 7 (fresh (fun _ => false)) ltac:(reflexivity) (demo_whole (fun _ => false) [] false)) as (r & d' & E & _ & H).
  assert (match read_sector_ata 0 7 (fresh (fun _ => false)) with Some (Some _, _) => true | _ => false end = true) as Hg by (vm_compute; reflexivity).
  rewrite E in Hg. destruct r as [out|]; [|discriminate]. exists out, d'. split; [exact E|]. exact H.
Defined.
End ModuleAta.
