(* ===== verification/Kmod.v ===== *)
(** Kernel modules: their file format, written by [builders/modules.rs] and read by
    [src/core/kmod/mod.rs], and their loading into kernel memory.

    A module is a header with a name and dependencies, and an ELF image.  Loading places
    the segments at addresses of their own, relocates them and looks up the entry point.
    [km] is the memory as the kernel sees it at virtual addresses; what the page tables
    do below is the class [KernelPages].  An outcome [None] is a panic.  The kernel is
    built in release mode, so sums of offsets wrap around.  Log lines are left out. *)

From Stdlib Require Import ZArith Lia.
From stdpp Require Import base list option numbers sorting.
From S2P Require Import Prelude State Types UserMem Bytes Mem Paging Elf Ext2.
Import Bytes Mem Paging.

Local Open Scope Z_scope.
Local Open Scope kernel_scope.

(** The kernel's page table: whether the direct map is known, whether a page is mapped, a
    new frame for a page (with what the frame holds), changes of a page's flags, which
    fail when there is no frame allocator, and whether the kernel can write a page. *)
Class KernelPages (K : Type) := {
  kp_ready : K -> bool;
  kp_mapped : Z -> K -> bool;
  kp_map : Z -> K -> option bytes * K;
  kp_writable : Z -> K -> K;
  kp_final : Z -> bool -> bool -> K -> bool * K;
  kp_can_write : Z -> K -> bool;
}.

Module Kmod.

Definition CEXT_MAGIC : bytes := [77; 67; 69; 88].
Definition CEXT_FIXED_HEADER_SIZE : Z := 32.
Definition SHT_SYMTAB : Z := 2.
Definition SHT_DYNSYM : Z := 11.
Definition SHF_ALLOC : Z := 2.
Definition SHT_RELA : Z := 4.
Definition R_X86_64_RELATIVE : Z := 8.
Definition ET_DYN : Z := 3.
Definition MODULE_LOAD_BASE_START : Z := 105553116266496.
Definition MODULE_LOAD_GUARD : Z := 2097152.

Record CextHeader := mkHeader { module_version : Z; name_len : Z; dep_count : Z; header_size : Z; elf_size : Z }.
Record CextMeta := mkMeta { name : bytes; deps : list bytes; version : Z; elf : bytes }.

(** ** The file format *)

(** [offset + n] wraps, and a range whose end precedes its start is none. *)
Definition get_wrapped (b : bytes) (off n : Z) : option bytes := if off + n <? U64_MODULUS then get_range b off n else None.
Definition read_u16 (b : bytes) (off : Z) : option Z := from_le_bytes <$> get_wrapped b off 2.
Definition read_u32 (b : bytes) (off : Z) : option Z := from_le_bytes <$> get_wrapped b off 4.
Definition read_u64 (b : bytes) (off : Z) : option Z := from_le_bytes <$> get_wrapped b off 8.

Definition parse_header (b : bytes) : option CextHeader :=
  if blen b <? CEXT_FIXED_HEADER_SIZE then None
  else
    magic ← get_range b 0 4;
    if negb (bool_decide (magic = CEXT_MAGIC)) then None
    else
      abi ← read_u16 b 4;
      if negb (abi =? 1) then None
      else
        module_version ← read_u16 b 6;
        name_len ← read_u16 b 8;
        dep_count ← read_u16 b 10;
        header_size ← read_u32 b 12;
        elf_size ← read_u64 b 16;
        if header_size <? CEXT_FIXED_HEADER_SIZE then None
        else Some (mkHeader module_version name_len dep_count header_size elf_size).

(** [core::str::from_utf8(bytes.get(from..to)?).ok()?] *)
Definition get_str (b : bytes) (from to : Z) : option bytes :=
  s ← get_range b from (to - from);
  if utf8 s then Some s else None.

(** The dependencies from [cursor] on, and where they end. *)
Fixpoint parse_deps (b : bytes) (n : nat) (cursor : Z) : option (list bytes * Z) :=
  match n with
  | O => Some ([], cursor)
  | S n =>
      dep_len ← read_u16 b cursor;
      cursor ← checked_add64 cursor 2;
      dep_end ← checked_add64 cursor dep_len;
      dep ← get_str b cursor dep_end;
      '(deps, e) ← parse_deps b n dep_end;
      Some (dep :: deps, e)
  end.

Definition parse_cext (b : bytes) : option CextMeta :=
  header ← parse_header b;
  if blen b <? header_size header then None
  else
    name_end ← checked_add64 CEXT_FIXED_HEADER_SIZE (name_len header);
    name ← get_str b CEXT_FIXED_HEADER_SIZE name_end;
    '(deps, cursor) ← parse_deps b (Z.to_nat (dep_count header)) name_end;
    if negb (cursor =? header_size header) then None
    else
      let elf_start := header_size header in
      elf_end ← checked_add64 elf_start (elf_size header);
      if blen b <? elf_end then None
      else Some (mkMeta name deps (module_version header) (take (Z.to_nat (elf_size header)) (drop (Z.to_nat elf_start) b))).

(** The builder's side.  [None] is an error. *)
Fixpoint dep_metadata (deps : list bytes) : option bytes :=
  match deps with
  | [] => Some []
  | dep :: deps =>
      if 65535 <? blen dep then None
      else rest ← dep_metadata deps; Some (to_le_bytes 2 (blen dep) ++ dep ++ rest)
  end.

Definition build_cext (m : CextMeta) : option bytes :=
  if 65535 <? blen (name m) then None
  else
    rest ← dep_metadata (deps m);
    let metadata := name m ++ rest in
    if 2 ^ 32 <=? 32 + blen metadata then None
    else
      Some (CEXT_MAGIC ++ to_le_bytes 2 1 ++ to_le_bytes 2 (version m) ++ to_le_bytes 2 (blen (name m)) ++
        to_le_bytes 2 (Z.of_nat (length (deps m))) ++ to_le_bytes 4 (32 + blen metadata) ++ to_le_bytes 8 (blen (elf m)) ++ to_le_bytes 8 0 ++
        metadata ++ elf m).

(** ** Kernel memory *)

Section loading.
Context {K : Type} `{!KernelPages K}.

(** [next_base] is [NEXT_MODULE_LOAD_BASE]; the tables that modules registered are
    addresses, with their versions. *)
Record KM := mkKM { km : mem; kp : K; next_base : Z; disk_ops : option (Z * Z); fs_ops : option (Z * Z) }.
Implicit Types s : KM.

Definition set_km (m : mem) s : KM := mkKM m (kp s) (next_base s) (disk_ops s) (fs_ops s).
Definition set_kp (k : K) s : KM := mkKM (km s) k (next_base s) (disk_ops s) (fs_ops s).
Definition set_next (b : Z) s : KM := mkKM (km s) (kp s) b (disk_ops s) (fs_ops s).
Definition set_disk (o : Z * Z) s : KM := mkKM (km s) (kp s) (next_base s) (Some o) (fs_ops s).
Definition set_fs (o : Z * Z) s : KM := mkKM (km s) (kp s) (next_base s) (disk_ops s) (Some o).

(** An operation with [?]: [Err tt] is [None] or an error, which the callers do not tell
    apart. *)
Local Notation LD A := (ST KM (result A unit)).
Definition fails {A} : LD A := mret (Err tt).
Definition lift {A} (o : option A) : LD A := mret match o with Some a => Ok a | None => Err tt end.
Definition write (a : Z) (b : bytes) : ST KM unit := smodify (fun s => set_km (store (km s) a b) s).

(** A page that is there becomes writable; otherwise it gets a new frame. *)
Definition provide_page (page : Z) : LD unit := fun s =>
  if negb (canonical page) then None
  else if kp_mapped page (kp s) then Some (Ok tt, set_kp (kp_writable page (kp s)) s)
  else
    match kp_map page (kp s) with
    | (Some frame, k) => Some (Ok tt, set_km (store (km s) page (take 4096 frame)) (set_kp k s))
    | (None, k) => Some (Err tt, set_kp k s)
    end.

Definition final_flags (page : Z) (writable executable : bool) : LD unit := fun s =>
  let '(ok, k) := kp_final page writable executable (kp s) in Some (if (ok : bool) then Ok tt else Err tt, set_kp k s).

(** The bytes of the file and the zeroes of one page. *)
Definition fill_page (page vaddr file_end mem_end : Z) (src : bytes) : ST KM unit :=
  let page_end := page + 4096 in
  let copy_start := Z.max page vaddr in
  let copy_end := Z.min page_end file_end in
  (if copy_start <? copy_end then write copy_start (take (Z.to_nat (copy_end - copy_start)) (drop (Z.to_nat (copy_start - vaddr)) src)) else mret tt) ≫= fun _ =>
  if page <? mem_end then
    let zero_start := Z.max page file_end in
    let zero_end := Z.min page_end mem_end in
    if zero_start <? zero_end then write zero_start (replicate (Z.to_nat (zero_end - zero_start)) 0) else mret tt
  else mret tt.

Fixpoint segment_pages (pages : nat) (page vaddr file_end mem_end : Z) (src : bytes) (writable executable : bool) : LD unit :=
  match pages with
  | O => mret (Ok tt)
  | S pages =>
      _ ←? provide_page page;
      fill_page page vaddr file_end mem_end src ≫= fun _ =>
      _ ←? final_flags page writable executable;
      segment_pages pages (page + 4096) vaddr file_end mem_end src writable executable
  end.

Definition map_and_copy_segment (vaddr filesz memsz : Z) (src : bytes) (writable executable : bool) : LD unit := fun s =>
  if negb (kp_ready (kp s)) then fails s
  else if memsz =? 0 then (if filesz =? 0 then Some (Ok tt, s) else fails s)
  else if (memsz <? filesz) || (blen src <? filesz) then fails s
  else
    match checked_add64 vaddr filesz, checked_add64 vaddr memsz with
    | Some file_end, Some mem_end =>
        let start := page_down vaddr in
        match checked_add64 mem_end 4095 with
        | Some e =>
            let e := page_down e in
            segment_pages (Z.to_nat ((e - start) / 4096)) start vaddr file_end mem_end src writable executable s
        | None => fails s
        end
    | _, _ => fails s
    end.

(** ** Loading an image *)

Definition align_up_4k (v : Z) : option Z := page_down <$> checked_add64 v 4095.

(** The compare-and-exchange succeeds at once: modules are loaded by one processor. *)
Definition alloc_module_base (span : Z) : LD Z := fun s =>
  match align_up_4k span with
  | None => fails s
  | Some size =>
      match checked_add64 size MODULE_LOAD_GUARD with
      | None => fails s
      | Some step =>
          match checked_add64 (next_base s) step with
          | None => fails s
          | Some next => Some (Ok (next_base s), set_next next s)
          end
      end
  end.

(** [parse_phdr] compares the length of the file with [offset + 56], which wraps; the
    reads after that panic. *)
Definition parse_phdr (image : bytes) (off : Z) : LD Elf.Elf64Phdr :=
  if off + 56 <? U64_MODULUS then lift (Elf.parse_phdr image off) else undefined.

(** The program header number [i]. *)
Definition phdr_at (image : bytes) (eh : Elf.Elf64Ehdr) (i : Z) : LD Elf.Elf64Phdr :=
  o ←? lift (checked_mul64 i (Elf.e_phentsize eh));
  off ←? lift (checked_add64 (Elf.e_phoff eh) o);
  parse_phdr image off.

Definition skipped (ph : Elf.Elf64Phdr) : bool := negb (Elf.p_type ph =? Elf.PT_LOAD) || (Elf.p_memsz ph =? 0).

(** The lowest and highest address of the segments from header [i] on. *)
Fixpoint image_span (image : bytes) (eh : Elf.Elf64Ehdr) (n : nat) (i min_vaddr max_vaddr : Z) : LD (Z * Z) :=
  match n with
  | O => mret (Ok (min_vaddr, max_vaddr))
  | S n =>
      ph ←? phdr_at image eh i;
      if skipped ph then image_span image eh n (i + 1) min_vaddr max_vaddr
      else
        e ←? lift (checked_add64 (Elf.p_vaddr ph) (Elf.p_memsz ph));
        image_span image eh n (i + 1) (Z.min min_vaddr (Elf.p_vaddr ph)) (Z.max max_vaddr e)
  end.

Definition load_segment (image : bytes) (vaddr_bias : Z) (ph : Elf.Elf64Phdr) : LD unit :=
  let writable := negb (Z.land (Elf.p_flags ph) 2 =? 0) in
  let executable := negb (Z.land (Elf.p_flags ph) 1 =? 0) in
  if Elf.p_memsz ph <? Elf.p_filesz ph then fails
  else
    src_end ←? lift (checked_add64 (Elf.p_offset ph) (Elf.p_filesz ph));
    if blen image <? src_end then fails
    else
      let src := take (Z.to_nat (Elf.p_filesz ph)) (drop (Z.to_nat (Elf.p_offset ph)) image) in
      seg_vaddr ←? lift (checked_add64 (Elf.p_vaddr ph) vaddr_bias);
      map_and_copy_segment seg_vaddr (Elf.p_filesz ph) (Elf.p_memsz ph) src writable executable.

Fixpoint load_segments (image : bytes) (eh : Elf.Elf64Ehdr) (vaddr_bias : Z) (n : nat) (i : Z) : LD unit :=
  match n with
  | O => mret (Ok tt)
  | S n =>
      ph ←? phdr_at image eh i;
      if skipped ph then load_segments image eh vaddr_bias n (i + 1)
      else _ ←? load_segment image vaddr_bias ph; load_segments image eh vaddr_bias n (i + 1)
  end.

Record LoadedElf := mkLoaded { base : Z; min_vaddr : Z; max_vaddr : Z }.

Definition load_elf_image (image : bytes) (eh : Elf.Elf64Ehdr) : LD LoadedElf :=
  if (Elf.e_phoff eh =? 0) || (Elf.e_phentsize eh =? 0) || (Elf.e_phnum eh =? 0) then fails
  else
    let phnum := Z.to_nat (Elf.e_phnum eh) in
    mm ←? image_span image eh phnum 0 U64_MAX 0;
    let '(lo, hi) := mm in
    if (lo =? U64_MAX) || (hi <=? lo) then fails
    else
      let is_dyn := Elf.e_type eh =? ET_DYN in
      b ←? (if is_dyn then span ←? lift (checked_sub64 hi lo); alloc_module_base span else mret (Ok 0));
      vaddr_bias ←? (if is_dyn then lift (checked_sub64 b lo) else mret (Ok 0));
      _ ←? load_segments image eh vaddr_bias phnum 0;
      mret (Ok (mkLoaded b lo hi)).

(** ** Relocations *)

(** [write_unaligned] of a word: a fault, unless its pages can be written. *)
Definition write_word (dst value : Z) : ST KM unit := fun s =>
  if kp_can_write (page_down dst) (kp s) && kp_can_write (page_down (dst + 7)) (kp s) then write dst (to_le_bytes 8 value) s else None.

(** The relocation at [ent]. *)
Definition relocate (image : bytes) (l : LoadedElf) (ent : Z) : LD unit :=
  r_offset ←? lift (read_u64 image ent);
  r_info ←? lift (read_u64 image (ent + 8));
  raw ←? lift (read_u64 image (ent + 16));
  let r_addend := as_i64 raw in
  if negb (Z.land r_info 4294967295 =? R_X86_64_RELATIVE) then mret (Ok tt)
  else
    reloc_end ←? lift (checked_add64 r_offset 8);
    if (r_offset <? min_vaddr l) || (max_vaddr l <? reloc_end) then fails
    else
      delta ←? lift (checked_sub64 r_offset (min_vaddr l));
      dst ←? lift (checked_add64 (base l) delta);
      let value := base l + r_addend - min_vaddr l in
      if (value <? 0) || (U64_MAX <? value) then fails
      else write_word dst value ≫= fun _ => mret (Ok tt).

Fixpoint relocate_from (image : bytes) (l : LoadedElf) (n : nat) (ent entsize : Z) : LD unit :=
  match n with
  | O => mret (Ok tt)
  | S n => _ ←? relocate image l ent; relocate_from image l n (ent + entsize) entsize
  end.

(** The section whose header is at [sh_off]. *)
Definition relocate_section (image : bytes) (l : LoadedElf) (sh_off : Z) : LD unit :=
  sh_type ←? lift (read_u32 image (sh_off + 4));
  sh_flags ←? lift (read_u64 image (sh_off + 8));
  if negb (sh_type =? SHT_RELA) || (Z.land sh_flags SHF_ALLOC =? 0) then mret (Ok tt)
  else
    rela_off ←? lift (read_u64 image (sh_off + 24));
    rela_size ←? lift (read_u64 image (sh_off + 32));
    rela_entsize ←? lift (read_u64 image (sh_off + 56));
    if (rela_entsize =? 0) || (rela_entsize <? 24) || negb (rela_size mod rela_entsize =? 0) then fails
    else
      rela_end ←? lift (checked_add64 rela_off rela_size);
      if blen image <? rela_end then fails
      else relocate_from image l (Z.to_nat (rela_size / rela_entsize)) rela_off rela_entsize.

Fixpoint relocate_sections (image : bytes) (l : LoadedElf) (n : nat) (sh_off shentsz : Z) : LD unit :=
  match n with
  | O => mret (Ok tt)
  | S n => _ ←? relocate_section image l sh_off; relocate_sections image l n (sh_off + shentsz) shentsz
  end.

Definition apply_relocations (image : bytes) (eh : Elf.Elf64Ehdr) (l : LoadedElf) : LD unit :=
  let shoff := Elf.e_shoff eh in
  let shentsz := Elf.e_shentsize eh in
  let shnum := Elf.e_shnum eh in
  if (shoff =? 0) || (shentsz =? 0) || (shnum =? 0) then mret (Ok tt)
  else
    size ←? lift (checked_mul64 shentsz shnum);
    e ←? lift (checked_add64 shoff size);
    if blen image <? e then fails else relocate_sections image l (Z.to_nat shnum) shoff shentsz.

(** ** Symbols *)

(** A string up to the next zero byte. *)
Fixpoint c_string (b : bytes) : bytes :=
  match b with
  | [] => []
  | x :: b => if x =? 0 then [] else x :: c_string b
  end.

(** What a table of symbols says of a name: an error, nothing, or an address. *)
Fixpoint find_in_table (image : bytes) (symbol_name : bytes) (l : LoadedElf) (strtab_offset strtab_size : Z) (fuel : nat) (sym_off entsize : Z) :
    option (option (option Z)) :=
  match fuel with
  | O => Some None
  | S fuel =>
      let next := find_in_table image symbol_name l strtab_offset strtab_size fuel (wrapping_add64 sym_off entsize) entsize in
      st_name ← read_u32 image sym_off;
      st_value ← read_u64 image (wrapping_add64 sym_off 8);
      if strtab_size <=? st_name then next
      else
        let name_off := wrapping_add64 strtab_offset st_name in
        if blen image <=? name_off then next
        else
          let name_str := c_string (drop (Z.to_nat name_off) image) in
          if utf8 name_str && bool_decide (name_str = symbol_name) then
            Some (Some (if base l =? 0 then Some st_value else delta ← checked_sub64 st_value (min_vaddr l); checked_add64 (base l) delta))
          else next
  end.

(** A table has as many symbols as its size says; past the end of the file a read fails, so
    no more are looked at than the file has bytes. *)
Definition table_fuel (image : bytes) (nsyms : Z) : nat := Z.to_nat (Z.min nsyms (blen image + 1)).

Fixpoint find_in_sections (image : bytes) (symbol_name : bytes) (eh : Elf.Elf64Ehdr) (l : LoadedElf) (n : nat) (si : Z) : option Z :=
  match n with
  | O => None
  | S n =>
      let next := find_in_sections image symbol_name eh l n (si + 1) in
      let sh_off := wrapping_add64 (Elf.e_shoff eh) (si * Elf.e_shentsize eh) in
      sh_type ← read_u32 image (wrapping_add64 sh_off 4);
      if negb (sh_type =? SHT_SYMTAB) && negb (sh_type =? SHT_DYNSYM) then next
      else
        symtab_offset ← read_u64 image (wrapping_add64 sh_off 24);
        symtab_size ← read_u64 image (wrapping_add64 sh_off 32);
        sh_link ← read_u32 image (wrapping_add64 sh_off 40);
        symtab_entsize ← read_u64 image (wrapping_add64 sh_off 56);
        if (symtab_entsize <? 24) || (symtab_size =? 0) then next
        else if Elf.e_shnum eh <=? sh_link then next
        else
          let link_sh_off := wrapping_add64 (Elf.e_shoff eh) (sh_link * Elf.e_shentsize eh) in
          strtab_offset ← read_u64 image (wrapping_add64 link_sh_off 24);
          strtab_size ← read_u64 image (wrapping_add64 link_sh_off 32);
          found ← find_in_table image symbol_name l strtab_offset strtab_size (table_fuel image (symtab_size / symtab_entsize)) symtab_offset symtab_entsize;
          match found with Some r => r | None => next end
  end.

Definition find_symbol_runtime_addr (image : bytes) (eh : Elf.Elf64Ehdr) (symbol_name : bytes) (l : LoadedElf) : option Z :=
  if (Elf.e_shoff eh =? 0) || (Elf.e_shentsize eh =? 0) || (Elf.e_shnum eh =? 0) then None
  else find_in_sections image symbol_name eh l (Z.to_nat (Elf.e_shnum eh)) 0.

Definition load_elf_symbol (image : bytes) (symbol_name : bytes) : LD Z :=
  eh ←? lift (Elf.parse_elf_header image);
  loaded ←? load_elf_image image eh;
  _ ←? apply_relocations image eh loaded;
  lift (find_symbol_runtime_addr image eh symbol_name loaded).

(** ** All modules *)

(** [disk::register] and [fs::register] of a table of functions at [ops]. *)
Definition register_disk (ops ver : Z) : ST KM bool := fun s => if ops =? 0 then Some (false, s) else Some (true, set_disk (ops, ver) s).
Definition register_fs (ops ver : Z) : ST KM bool := fun s =>
  if ops =? 0 then Some (false, s)
  else if existsb (fun i => Mem.read_u64 (km s) (ops + 8 * i) =? 0) [0; 1; 2; 3] then Some (false, s)
  else Some (true, set_fs (ops, ver) s).

(** The names in the file and in the image: "disk", "fs" and "mochi_module_init"; the
    directory and the suffix: "/Modules", "/Modules/" and ".cext". *)
Definition DISK : bytes := [100; 105; 115; 107].
Definition FS : bytes := [102; 115].
Definition INIT : bytes := [109; 111; 99; 104; 105; 95; 109; 111; 100; 117; 108; 101; 95; 105; 110; 105; 116].
Definition MODULES : bytes := [47; 77; 111; 100; 117; 108; 101; 115].
Definition MODULES_SLASH : bytes := MODULES ++ [47].
Definition CEXT : bytes := [46; 99; 101; 120; 116].

Definition ends_with (suffix b : bytes) : bool := bool_decide (drop (length b - length suffix) b = suffix).

(** The order of [str]: byte by byte. *)
Fixpoint str_le (a b : bytes) : bool :=
  match a, b with
  | [], _ => true
  | _, [] => false
  | x :: a, y :: b => if x =? y then str_le a b else x <? y
  end.

Definition str_order (a b : bytes) : Prop := str_le a b = true.
#[export] Instance str_order_dec : RelDecision str_order.
Proof. intros a b. unfold str_order. apply _. Defined.

Definition module_paths (entries : list bytes) : list bytes :=
  merge_sort str_order ((fun n => MODULES_SLASH ++ n) <$> filter (fun n => ends_with CEXT n = true) entries).

(** The machine code of a module's entry point at an address: the table it returns. *)
Context (module_code : Z -> KM -> Z * KM).
Context (rootfs initfs : bytes).

Definition run_init (addr : Z) : ST KM Z := fun s => Some (module_code addr s).

Definition load_module (meta : CextMeta) : ST KM unit := fun s =>
  if bool_decide (DISK ∈ deps meta) && bool_decide (disk_ops s = None) then Some (tt, s)
  else if bool_decide (name meta = DISK) then
    (addr ← load_elf_symbol (elf meta) INIT;
     match addr with
     | Ok addr => ops ← run_init addr; register_disk ops (version meta) ≫= fun _ => mret tt
     | Err _ => mret tt
     end) s
  else if bool_decide (name meta = FS) then
    (addr ← load_elf_symbol (elf meta) INIT;
     match addr with
     | Ok addr => ops ← run_init addr; register_fs ops (version meta) ≫= fun _ => mret tt
     | Err _ => mret tt
     end) s
  else Some (tt, s).

(** A panic of the boot file system is a panic here. *)
Definition load_path (path : bytes) : ST KM unit := fun s =>
  match Ext2.read rootfs initfs path with
  | Ext2.Val b => match parse_cext b with Some meta => load_module meta s | None => Some (tt, s) end
  | Ext2.Stop => Some (tt, s)
  | _ => None
  end.

Definition load_modules : ST KM unit := fun s =>
  match Ext2.readdir_path rootfs initfs MODULES with
  | Ext2.Val entries => sfor (module_paths entries) load_path s
  | Ext2.Stop => Some (tt, s)
  | _ => None
  end.
End loading.
Arguments KM : clear implicits.
End Kmod.
