(* ===== verification/KmodProps.v ===== *)
(** What the module loader guarantees: the files that the builder writes are the ones
    the kernel reads, and a relocatable module changes no memory but the range it was
    given. *)

From Stdlib Require Import ZArith Lia.
From stdpp Require Import base list option numbers sorting.
From S2P Require Import Prelude State Types UserMem Bytes Mem Paging Elf Ext2 Kmod.
Import Bytes Mem Paging Kmod.

Local Open Scope Z_scope.

Module KmodProps.

(** ** The file format *)

Definition dep_bytes (ds : list bytes) : bytes := concat ((fun d => to_le_bytes 2 (blen d) ++ d) <$> ds).
Definition metadata (m : CextMeta) : bytes := name m ++ dep_bytes (deps m).
Definition header_fields (m : CextMeta) : list (nat * Z) :=
  [(2%nat, 1); (2%nat, version m); (2%nat, blen (name m)); (2%nat, Z.of_nat (length (deps m))); (4%nat, 32 + blen (metadata m)); (8%nat, blen (elf m))].

Definition dep_ok (d : bytes) : Prop := utf8 d = true /\ blen d < 65536.
Definition meta_wf (m : CextMeta) : Prop := utf8 (name m) = true /\ Forall dep_ok (deps m) /\ Forall Elf.fits (header_fields m).

(** The file of a module: eight bytes of the header are not used, and nothing is said of
    what follows the image. *)
Definition cext_bytes (m : CextMeta) (reserved tail : bytes) : bytes :=
  CEXT_MAGIC ++ Elf.enc (header_fields m) ++ reserved ++ metadata m ++ elf m ++ tail.

Lemma get_wrapped_get b off n : blen b < 2 ^ 63 -> get_wrapped b off n = get_range b off n.
Proof.
  intros Hb. unfold get_wrapped, U64_MODULUS. destruct (Z.ltb_spec (off + n) 18446744073709551616); [done|]. unfold get_range.
  destruct (Z.leb_spec (off + n) (blen b)); [lia|]. by rewrite andb_false_r.
Qed.

Lemma read_field b off : blen b < 2 ^ 63 -> read_u16 b off = Elf.field b off 2 /\ read_u32 b off = Elf.field b off 4 /\ read_u64 b off = Elf.field b off 8.
Proof. intros Hb. unfold read_u16, read_u32, read_u64, Elf.field. by rewrite !get_wrapped_get. Qed.

Lemma get_str_spec b from n s : get_str b from (from + n) = Some s <-> get_range b from n = Some s /\ utf8 s = true.
Proof.
  unfold get_str. replace (from + n - from) with n by lia. destruct (get_range b from n) as [s'|]; cbn; [|by split; [|intros [? _]]].
  destruct (utf8 s') eqn:E; (split; [intros [= <-]; done || (split; done)|intros [[= <-] ?]; congruence]) || (split; [done|intros [[= <-] ?]; congruence]).
Qed.

Lemma app_blen (a b : bytes) : blen (a ++ b) = blen a + blen b.
Proof. unfold blen. rewrite length_app. lia. Qed.

Lemma le2_blen v : blen (to_le_bytes 2 v) = 2.
Proof. unfold blen. by rewrite to_le_bytes_length. Qed.

(** The list of dependencies is read exactly. *)
Lemma parse_deps_spec b n c ds e : Forall is_byte b -> blen b < 2 ^ 63 -> 0 <= c <= blen b ->
  parse_deps b n c = Some (ds, e) <-> length ds = n /\ Forall dep_ok ds /\ e = c + blen (dep_bytes ds) /\ get_range b c (blen (dep_bytes ds)) = Some (dep_bytes ds).
Proof.
  intros Hd Hb. revert c ds e. induction n as [|n IH]; intros c ds e Hc; cbn [parse_deps].
  { assert (blen (dep_bytes []) = 0) as E0 by done. split.
    - intros [= <- <-]. rewrite E0. do 2 (split; [done|]). split; [lia|]. apply get_range_Some. split; [lia|]. split; [done|]. split; [lia|]. done.
    - intros (Hl & _ & -> & _). apply nil_length_inv in Hl as ->. rewrite E0. do 2 f_equal. lia. }
  rewrite (proj1 (read_field b c Hb)). split.
  - intros H. destruct (Elf.field b c 2) as [len|] eqn:El; [|done]. cbn [mbind option_bind] in H. apply (Elf.field_spec b c 2 len Hd) in El as [Hf Hr].
    pose proof Hr as (_ & _ & Hle & _)%get_range_Some. unfold Elf.fits in Hf. cbn [fst snd] in Hf. change (256 ^ Z.of_nat 2) with 65536 in Hf. change (Z.of_nat 2) with 2 in *.
    destruct (checked_add64 c 2) as [c2|] eqn:E2; [|done]. apply checked_add64_Some in E2 as [-> _]. cbn [mbind option_bind] in H.
    destruct (checked_add64 (c + 2) len) as [c3|] eqn:E3; [|done]. apply checked_add64_Some in E3 as [-> _]. cbn [mbind option_bind] in H.
    destruct (get_str b (c + 2) (c + 2 + len)) as [dep|] eqn:Es; [|done]. cbn [mbind option_bind] in H. apply get_str_spec in Es as [Hs Hu].
    pose proof Hs as (_ & _ & Hle2 & _)%get_range_Some. pose proof (get_range_length _ _ _ _ Hs) as Hlen.
    destruct (parse_deps b n (c + 2 + len)) as [[ds' e']|] eqn:Ep; [|done]. cbn [mbind option_bind] in H. injection H as <- <-.
    apply IH in Ep as (Hl & Hok & -> & Hg); [|lia]. subst len. split; [by rewrite <- Hl|]. split; [constructor; [split; [done|lia]|done]|].
    change (dep_bytes (dep :: ds')) with ((to_le_bytes 2 (blen dep) ++ dep) ++ dep_bytes ds'). rewrite !app_blen, le2_blen. split; [lia|]. apply Elf.get_range_app; [lia| |by rewrite Z.add_assoc]. by apply Elf.get_range_app.
  - intros (Hl & Hok & -> & Hg). destruct ds as [|dep ds]; [done|]. injection Hl as Hl. apply Forall_cons in Hok as [[Hu Hlt] Hok]. pose proof Hg as (_ & _ & Hle & _)%get_range_Some.
    change (dep_bytes (dep :: ds)) with ((to_le_bytes 2 (blen dep) ++ dep) ++ dep_bytes ds) in *. rewrite !app_blen in *.
    rewrite le2_blen in *.
    assert (0 <= blen dep /\ 0 <= blen (dep_bytes ds)) as [? ?] by (unfold blen; lia).
    apply Elf.get_range_split in Hg as [G1 G2]; [|lia..]. replace (Z.to_nat (2 + blen dep)) with (length (to_le_bytes 2 (blen dep) ++ dep)) in G1, G2 by (rewrite length_app, to_le_bytes_length; unfold blen; lia).
    rewrite take_app_length in G1. rewrite drop_app_length in G2. apply Elf.get_range_split in G1 as [G0 G1]; [|lia..].
    change (Z.to_nat 2) with (length (to_le_bytes 2 (blen dep))) in G0, G1. rewrite take_app_length in G0. rewrite drop_app_length in G1.
    rewrite (proj2 (Elf.field_spec b c 2 (blen dep) Hd) (conj (conj H Hlt) G0) : Elf.field b c 2 = Some (blen dep)). cbn [mbind option_bind].
    assert (checked_add64 c 2 = Some (c + 2)) as -> by (apply checked_add64_Some; split; [done|unfold U64_MODULUS; lia]). cbn [mbind option_bind].
    assert (checked_add64 (c + 2) (blen dep) = Some (c + 2 + blen dep)) as -> by (apply checked_add64_Some; split; [done|unfold U64_MODULUS; lia]). cbn [mbind option_bind].
    rewrite (proj2 (get_str_spec _ _ _ _) (conj G1 Hu)). cbn [mbind option_bind].
    rewrite (proj2 (IH (c + 2 + blen dep) ds (c + 2 + blen dep + blen (dep_bytes ds)) ltac:(lia))); [cbn [mbind option_bind]; do 2 f_equal; lia|].
    split; [done|]. split; [done|]. split; [done|]. by rewrite <- Z.add_assoc.
Qed.

Definition raw_fields (h : CextHeader) : list (nat * Z) :=
  [(2%nat, 1); (2%nat, module_version h); (2%nat, name_len h); (2%nat, dep_count h); (4%nat, header_size h); (8%nat, elf_size h)].

(** So is the header. *)
Lemma parse_header_spec b h : Forall is_byte b -> blen b < 2 ^ 63 ->
  parse_header b = Some h <->
  32 <= blen b /\ get_range b 0 4 = Some CEXT_MAGIC /\ Forall Elf.fits (raw_fields h) /\ get_range b 4 20 = Some (Elf.enc (raw_fields h)) /\ 32 <= header_size h.
Proof.
  intros Hd Hb. unfold parse_header, CEXT_FIXED_HEADER_SIZE. destruct (Z.ltb_spec (blen b) 32) as [|H32]; [split; [done|intros (? & _); lia]|].
  rewrite !(proj1 (read_field b _ Hb)), !(proj1 (proj2 (read_field b _ Hb))), !(proj2 (proj2 (read_field b _ Hb))). split.
  - intros H. Elf.parse_steps H. injection H as <-. apply negb_false_iff, bool_decide_eq_true in B as ->. apply negb_false_iff, Z.eqb_eq in B0 as ->. apply Z.ltb_ge in B1.
    destruct (proj1 (Elf.fields_spec b 4 (raw_fields (mkHeader z0 z1 z2 z3 z4)) Hd ltac:(lia))) as [Hf Hr]; [by repeat split|done].
  - intros (_ & Hm & Hf & Hr & Hs). pose proof (proj2 (Elf.fields_spec b 4 (raw_fields h) Hd ltac:(lia)) (conj Hf Hr)) as H. cbn [Elf.fields_at raw_fields] in H.
    destruct H as (F1 & F2 & F3 & F4 & F5 & F6 & _). rewrite Hm. cbn [mbind option_bind]. rewrite bool_decide_true by done. cbn [negb]. Elf.use_fields. cbn [Z.eqb Pos.eqb negb]. Elf.use_fields.
    rewrite (proj2 (Z.ltb_ge _ _)) by lia. by destruct h.
Qed.

Lemma get_range_at (pre mid post : bytes) off n : off = blen pre -> n = blen mid -> get_range (pre ++ mid ++ post) off n = Some mid.
Proof.
  intros -> ->. apply get_range_Some. rewrite !app_blen. unfold blen. rewrite !Nat2Z.id, drop_app_length, take_app_length. split; [lia|]. split; [lia|]. split; [lia|done].
Qed.

Lemma get_range_prefix b n r : get_range b 0 n = Some r -> b = r ++ drop (Z.to_nat n) b.
Proof. intros (_ & _ & _ & ->)%get_range_Some. by rewrite drop_0, take_drop. Qed.

Lemma enc_header_blen m : blen (Elf.enc (header_fields m)) = 20.
Proof. unfold blen, Elf.enc, header_fields. cbn [fmap list_fmap fst snd concat]. by rewrite !length_app, !to_le_bytes_length. Qed.

Lemma blen_nonneg (b : bytes) : 0 <= blen b.
Proof. unfold blen. lia. Qed.

(** What a parse has read. *)
Lemma parse_cext_reads b m : Forall is_byte b -> blen b < 2 ^ 63 ->
  parse_cext b = Some m <->
  32 <= blen b /\ get_range b 0 4 = Some CEXT_MAGIC /\ meta_wf m /\ get_range b 4 20 = Some (Elf.enc (header_fields m)) /\
  get_range b 32 (blen (name m)) = Some (name m) /\ get_range b (32 + blen (name m)) (blen (dep_bytes (deps m))) = Some (dep_bytes (deps m)) /\
  get_range b (32 + blen (metadata m)) (blen (elf m)) = Some (elf m).
Proof.
  intros Hd Hb. unfold parse_cext, CEXT_FIXED_HEADER_SIZE. split.
  - intros H. destruct (parse_header b) as [h|] eqn:Eh; [|done]. cbn [mbind option_bind] in H. apply parse_header_spec in Eh as (H32 & Hm & Hf & Hr & Hs); [|done..].
    destruct (Z.ltb_spec (blen b) (header_size h)); [done|]. pose proof Hf as Hf'. unfold raw_fields in Hf'. rewrite !list.Forall_cons in Hf'. destruct Hf' as (_ & _ & Fn & Fd & _ & Fe & _).
    unfold Elf.fits in Fn, Fd, Fe. cbn [fst snd] in Fn, Fd, Fe.
    destruct (checked_add64 32 (name_len h)) as [ne|] eqn:En; [|done]. apply checked_add64_Some in En as [-> _]. cbn [mbind option_bind] in H.
    destruct (get_str b 32 (32 + name_len h)) as [nm|] eqn:Es; [|done]. apply get_str_spec in Es as [Gn Un]. cbn [mbind option_bind] in H.
    pose proof (get_range_length _ _ _ _ Gn) as Ln. pose proof Gn as (_ & _ & Hle & _)%get_range_Some.
    destruct (parse_deps b (Z.to_nat (dep_count h)) (32 + name_len h)) as [[ds c]|] eqn:Ed; [|done]. cbn [mbind option_bind] in H. apply parse_deps_spec in Ed as (Ld & Od & -> & Gd); [|done|done|lia].
    destruct (Z.eqb_spec (32 + name_len h + blen (dep_bytes ds)) (header_size h)) as [Ehs|]; [|done]. cbn [negb] in H.
    destruct (checked_add64 (header_size h) (elf_size h)) as [ee|] eqn:Ee; [|done]. apply checked_add64_Some in Ee as [-> _]. cbn [mbind option_bind] in H.
    destruct (Z.ltb_spec (blen b) (header_size h + elf_size h)); [done|]. injection H as <-. set (el := take _ _).
    assert (get_range b (header_size h) (elf_size h) = Some el) as Ge by (apply get_range_Some; split; [lia|]; split; [lia|]; split; [lia|done]).
    pose proof (get_range_length _ _ _ _ Ge) as Le. set (m := mkMeta nm ds (module_version h) el).
    assert (32 + blen (metadata m) = header_size h) as Em by (unfold metadata; rewrite app_blen; unfold m; cbn [name deps]; lia).
    assert (raw_fields h = header_fields m) as Ef.
    { unfold raw_fields, header_fields. rewrite Em. unfold m. cbn [version name deps elf]. rewrite Ln, Le. do 3 f_equal. f_equal. f_equal. lia. }
    rewrite Ef in Hf, Hr. split; [done|]. split; [done|]. split; [done|]. split; [done|]. cbn [name deps elf m]. rewrite Em, Le, Ln. done.
  - intros (H32 & Hm & (Un & Od & Hf) & Hr & Gn & Gd & Ge). set (h := mkHeader (version m) (blen (name m)) (Z.of_nat (length (deps m))) (32 + blen (metadata m)) (blen (elf m))).
    pose proof (blen_nonneg (name m)). pose proof (blen_nonneg (dep_bytes (deps m))). pose proof (blen_nonneg (elf m)). pose proof Gn as (_ & _ & Hle & _)%get_range_Some.
    pose proof Ge as (_ & _ & Hle2 & Eel)%get_range_Some. assert (blen (metadata m) = blen (name m) + blen (dep_bytes (deps m))) as Em by (unfold metadata; apply app_blen).
    rewrite (proj2 (parse_header_spec b h Hd Hb)) by (split; [done|]; split; [done|]; split; [done|]; split; [done|]; cbn; lia). cbn [mbind option_bind header_size name_len dep_count elf_size module_version h].
    rewrite (proj2 (Z.ltb_ge _ _)) by lia. assert (checked_add64 32 (blen (name m)) = Some (32 + blen (name m))) as -> by (apply checked_add64_Some; split; [done|unfold U64_MODULUS; lia]).
    cbn [mbind option_bind]. rewrite (proj2 (get_str_spec _ _ _ _) (conj Gn Un)). cbn [mbind option_bind]. rewrite Nat2Z.id.
    rewrite (proj2 (parse_deps_spec b (length (deps m)) (32 + blen (name m)) (deps m) (32 + blen (metadata m)) Hd Hb ltac:(lia))) by (split; [done|]; split; [done|]; split; [lia|done]).
    cbn [mbind option_bind]. rewrite Z.eqb_refl. cbn [negb].
    assert (checked_add64 (32 + blen (metadata m)) (blen (elf m)) = Some (32 + blen (metadata m) + blen (elf m))) as -> by (apply checked_add64_Some; split; [done|unfold U64_MODULUS; lia]).
    cbn [mbind option_bind]. rewrite (proj2 (Z.ltb_ge _ _)) by lia. rewrite <- Eel. by destruct m.
Qed.

Lemma dep_metadata_spec ds r : dep_metadata ds = Some r -> r = dep_bytes ds /\ Forall (fun d => blen d < 65536) ds.
Proof.
  revert r. induction ds as [|d ds IH]; intros r; cbn [dep_metadata]; [by intros [= <-]|]. destruct (Z.ltb_spec 65535 (blen d)); [done|].
  destruct (dep_metadata ds) as [rest|]; [|done]. cbn [mbind option_bind]. intros [= <-]. destruct (IH rest eq_refl) as [-> ?]. split; [|constructor; [lia|done]].
  unfold dep_bytes. cbn [fmap list_fmap concat]. by rewrite <- app_assoc.
Qed.

(** A module as the builder's table describes it: strings, a 16-bit version, and not
    more dependencies than the header can count. *)
Definition module_entry (m : CextMeta) : Prop :=
  utf8 (name m) = true /\ Forall (fun d => utf8 d = true) (deps m) /\ 0 <= version m < 65536 /\ Z.of_nat (length (deps m)) < 65536.

Lemma build_wf m b : module_entry m -> build_cext m = Some b -> blen b < 2 ^ 63 -> meta_wf m /\ b = cext_bytes m (to_le_bytes 8 0) [].
Proof.
  intros (Un & Ud & Hv & Hn) H Hb. unfold build_cext in H. destruct (Z.ltb_spec 65535 (blen (name m))); [done|]. destruct (dep_metadata (deps m)) as [r|] eqn:Er; [|done].
  cbn [mbind option_bind] in H. apply dep_metadata_spec in Er as [-> Hl]. fold (metadata m) in H. destruct (Z.leb_spec (2 ^ 32) (32 + blen (metadata m))); [done|]. apply (inj Some) in H as <-.
  assert (blen (elf m) < 2 ^ 63) as He by (rewrite !app_blen in Hb; pose proof (blen_nonneg (metadata m)); unfold blen in *; lia).
  split; [|unfold cext_bytes, Elf.enc, header_fields; cbn [fmap list_fmap fst snd concat]; by rewrite !app_nil_r, <- !app_assoc]. split; [done|]. split.
  - apply Forall_and. done.
  - pose proof (blen_nonneg (name m)). pose proof (blen_nonneg (metadata m)). pose proof (blen_nonneg (elf m)). repeat constructor; cbn -[Z.pow blen]; try lia.
Qed.

(** C37. Module files are read exactly.  The kernel accepts a file as module [m] if and
    only if the file is the layout of [m] (magic number, version, counts, sizes, name,
    dependencies, image), with any eight reserved bytes and anything after the
    image; and what the builder writes for a module the kernel reads back as that
    module. *)
Theorem cext_files_exact (b : bytes) :
  Forall is_byte b -> blen b < 2 ^ 63 ->
  (forall m, parse_cext b = Some m <-> meta_wf m /\ exists reserved tail, length reserved = 8%nat /\ b = cext_bytes m reserved tail) /\
  (forall m, module_entry m -> build_cext m = Some b -> parse_cext b = Some m).
Proof.
  intros Hd Hb. assert (forall m, parse_cext b = Some m <-> meta_wf m /\ exists reserved tail, length reserved = 8%nat /\ b = cext_bytes m reserved tail) as Hp.
  { intros m. rewrite parse_cext_reads by done. split.
    - intros (H32 & Hm & Hw & Hr & Gn & Gd & Ge). split; [done|]. destruct (get_range_in b 24 8) as [res Gr]; [lia|lia|lia|].
      exists res. pose proof (get_range_length _ _ _ _ Gr) as Lr. assert (blen (metadata m) = blen (name m) + blen (dep_bytes (deps m))) as Em by (unfold metadata; apply app_blen).
      assert (get_range b 32 (blen (metadata m)) = Some (metadata m)) as Gm by (rewrite Em; apply Elf.get_range_app; [apply blen_nonneg|done|done]).
      pose proof (Elf.get_range_app b 0 4 20 _ _ ltac:(lia) Hm Hr) as G1. pose proof (Elf.get_range_app b 0 24 8 _ _ ltac:(lia) G1 Gr) as G2.
      pose proof (Elf.get_range_app b 0 32 _ _ _ ltac:(lia) G2 Gm) as G3. pose proof (Elf.get_range_app b 0 (32 + blen (metadata m)) _ _ _ ltac:(pose proof (blen_nonneg (metadata m)); lia) G3 Ge) as G4.
      apply get_range_prefix in G4. eexists. split; [unfold blen in Lr; lia|]. rewrite G4 at 1. unfold cext_bytes. by rewrite <- !app_assoc.
    - intros (Hw & res & tail & Lr & ->). assert (blen res = 8) as Lr' by (unfold blen; lia). pose proof (enc_header_blen m) as L20. pose proof (blen_nonneg (metadata m)). pose proof (blen_nonneg (elf m)). pose proof (blen_nonneg tail).
      unfold cext_bytes. split; [rewrite !app_blen, L20, Lr'; change (blen CEXT_MAGIC) with 4; lia|]. split; [by apply (get_range_at [])|]. split; [done|]. split; [by apply get_range_at|].
      unfold metadata. rewrite <- !app_assoc. split; [|split].
      + rewrite !(app_assoc CEXT_MAGIC), !(app_assoc _ res). apply get_range_at; [rewrite !app_blen, L20, Lr'; done|done].
      + rewrite !(app_assoc CEXT_MAGIC), !(app_assoc _ res), !(app_assoc _ (name m)). apply get_range_at; [rewrite !app_blen, L20, Lr'; change (blen CEXT_MAGIC) with 4; lia|done].
      + rewrite !(app_assoc CEXT_MAGIC), !(app_assoc _ res), !(app_assoc _ (name m)), !(app_assoc _ (dep_bytes (deps m))). apply get_range_at; [rewrite !app_blen, L20, Lr'; change (blen CEXT_MAGIC) with 4; lia|done]. }
  split; [done|]. intros m He Hbld. destruct (build_wf m b He Hbld Hb) as [Hw Eb]. apply Hp. split; [done|]. by exists (to_le_bytes 8 0), [].
Qed.

(** The file-system module, which needs the disk module. *)
Definition demo_meta : CextMeta := mkMeta FS [DISK] 3 [127; 69; 76; 70].
Definition demo_file : bytes := default [] (build_cext demo_meta).

Lemma demo_file_bytes : Forall is_byte demo_file.
Proof. unfold is_byte. repeat apply list.Forall_cons_2; try apply list.Forall_nil_2; vm_compute; done. Qed.

Lemma cext_files_exact_witness : parse_cext demo_file = Some demo_meta /\ parse_cext (77 :: demo_file) <> Some demo_meta.
Proof.
  split; [|vm_compute; discriminate]. destruct (cext_files_exact demo_file demo_file_bytes ltac:(vm_compute; reflexivity)) as [_ H].
  apply H; [|vm_compute; reflexivity]. split; [reflexivity|]. split; [repeat constructor|]. split; [cbn; lia|cbn; lia].
Defined.

(** ** Changes of memory *)

(** Memory differs only between two addresses. *)
Definition confined (lo hi : Z) (m m' : mem) : Prop := forall x, x < lo \/ hi <= x -> m' x = m x.

Lemma confined_refl lo hi m : confined lo hi m m.
Proof. done. Qed.

Lemma confined_trans lo hi m1 m2 m3 : confined lo hi m1 m2 -> confined lo hi m2 m3 -> confined lo hi m1 m3.
Proof. intros H1 H2 x Hx. by rewrite H2, H1. Qed.

Lemma confined_wider lo hi lo' hi' m m' : lo' <= lo -> hi <= hi' -> confined lo hi m m' -> confined lo' hi' m m'.
Proof. intros ? ? H x Hx. apply H. lia. Qed.

Lemma confined_store lo hi m a b : lo <= a -> a + blen b <= hi -> confined lo hi m (store m a b).
Proof. intros ? ? x Hx. apply store_out. unfold blen in *. lia. Qed.

Section loading.
Context {K : Type} `{!KernelPages K}.
Implicit Types s : KM K.

(** A step that changes memory in a range, and not the place of the next module. *)
Definition step_in (lo hi : Z) s s' : Prop := confined lo hi (km s) (km s') /\ next_base s' = next_base s.

Lemma step_refl lo hi s : step_in lo hi s s.
Proof. by split; [apply confined_refl|]. Qed.

Lemma step_trans lo hi s1 s2 s3 : step_in lo hi s1 s2 -> step_in lo hi s2 s3 -> step_in lo hi s1 s3.
Proof. intros [H1 N1] [H2 N2]. split; [by eapply confined_trans|congruence]. Qed.

Lemma step_wider lo hi lo' hi' s s' : lo' <= lo -> hi <= hi' -> step_in lo hi s s' -> step_in lo' hi' s s'.
Proof. intros ? ? [H N]. split; [|done]. by eapply confined_wider. Qed.

(** Every outcome of a computation is such a step. *)
Definition steps {A} (lo hi : Z) (m : ST (KM K) A) : Prop := forall s r s', m s = Some (r, s') -> step_in lo hi s s'.

Lemma steps_ret {A} lo hi (a : A) : steps lo hi (mret a).
Proof. intros s r s' [= <- <-]. apply step_refl. Qed.

Lemma steps_bind {A B} lo hi (m : ST (KM K) A) (f : A -> ST (KM K) B) : steps lo hi m -> (forall a, steps lo hi (f a)) -> steps lo hi (m ≫= f).
Proof. intros Hm Hf s r s' (a & s1 & E1 & E2)%st_bind_Some. eapply step_trans; [by eapply Hm|by eapply Hf]. Qed.

Lemma steps_try {A B} lo hi (m : ST (KM K) (result A unit)) (f : A -> ST (KM K) (result B unit)) :
  steps lo hi m -> (forall a, steps lo hi (f a)) -> steps lo hi (try_bind m f).
Proof. intros Hm Hf. apply steps_bind; [done|]. intros [a|e]; [done|apply steps_ret]. Qed.

Lemma steps_lift {A} lo hi (o : option A) : steps lo hi (lift o).
Proof. apply steps_ret. Qed.

Lemma steps_wider {A} lo hi lo' hi' (m : ST (KM K) A) : lo' <= lo -> hi <= hi' -> steps lo hi m -> steps lo' hi' m.
Proof. intros ? ? H s r s' E. eapply step_wider; [..|by eapply H]; done. Qed.

Lemma steps_write lo hi a b : lo <= a -> a + blen b <= hi -> steps lo hi (write a b).
Proof. intros ? ? s r s' [= <- <-]. split; [|done]. by apply confined_store. Qed.

(** ** Segments *)

Lemma provide_steps page : steps page (page + 4096) (provide_page page).
Proof.
  intros s r s'. unfold provide_page. destruct (negb _); [done|]. destruct (kp_mapped _ _); [intros [= <- <-]; by split|].
  destruct (kp_map page (kp s)) as [[frame|] k]; intros [= <- <-]; [|by split]. split; [|done]. apply confined_store; [lia|].
  unfold blen. rewrite length_take. lia.
Qed.

Lemma final_steps lo hi page w x : steps lo hi (final_flags page w x).
Proof. intros s r s'. unfold final_flags. destruct (kp_final _ _ _ _) as [ok k]. intros [= <- <-]. by split. Qed.

Lemma fill_steps page vaddr fe me src : steps page (page + 4096) (fill_page page vaddr fe me src).
Proof.
  unfold fill_page. apply steps_bind; [|intros _].
  - destruct (Z.ltb_spec (Z.max page vaddr) (Z.min (page + 4096) fe)); [|apply steps_ret]. apply steps_write; [lia|]. unfold blen. rewrite length_take. lia.
  - destruct (page <? me); [|apply steps_ret]. destruct (Z.ltb_spec (Z.max page fe) (Z.min (page + 4096) me)); [|apply steps_ret].
    apply steps_write; [lia|]. unfold blen. rewrite length_replicate. lia.
Qed.

Lemma pages_steps n page vaddr fe me src w x : steps page (page + 4096 * Z.of_nat n) (segment_pages n page vaddr fe me src w x).
Proof.
  revert page. induction n as [|n IH]; intros page; cbn [segment_pages]; [apply steps_ret|].
  apply steps_try; [eapply steps_wider, provide_steps; lia|intros _]. apply steps_bind; [eapply steps_wider, fill_steps; lia|intros _].
  apply steps_try; [apply final_steps|intros _]. eapply steps_wider, IH; lia.
Qed.

Lemma segment_steps vaddr filesz memsz src w x lo hi :
  lo mod 4096 = 0 -> hi mod 4096 = 0 -> 0 <= lo -> lo <= vaddr -> 0 <= memsz -> vaddr + memsz <= hi -> steps lo hi (map_and_copy_segment vaddr filesz memsz src w x).
Proof.
  intros Hlo Hhi H0 Hv Hz Hm s r s'. unfold map_and_copy_segment. destruct (negb _); [by apply steps_ret|].
  destruct (memsz =? 0); [destruct (filesz =? 0); by apply steps_ret|]. destruct (_ || _); [by apply steps_ret|].
  destruct (checked_add64 vaddr filesz) as [fe|]; [|by apply steps_ret]. destruct (checked_add64 vaddr memsz) as [me|] eqn:Em; [|by apply steps_ret].
  destruct (checked_add64 me 4095) as [e|] eqn:Ee; [|by apply steps_ret]. apply checked_add64_Some in Em as [-> _], Ee as [-> _].
  apply steps_wider with (lo := page_down vaddr) (hi := page_down vaddr + 4096 * Z.of_nat (Z.to_nat ((page_down (vaddr + memsz + 4095) - page_down vaddr) / 4096))).
  - rewrite !page_down_spec. Z.to_euclidean_division_equations. lia.
  - rewrite !page_down_spec. Z.to_euclidean_division_equations. lia.
  - apply pages_steps.
Qed.

(** ** Images *)

(** Reading a program header changes nothing and depends on nothing else. *)
Lemma phdr_pure image eh i s r s' : phdr_at image eh i s = Some (r, s') -> s' = s /\ forall s1, phdr_at image eh i s1 = Some (r, s1).
Proof.
  unfold phdr_at, try_bind, lift, mbind, ST_bind, mret, ST_ret. destruct (checked_mul64 _ _); [|intros [= <- <-]; done]. destruct (checked_add64 _ _); [|intros [= <- <-]; done].
  unfold parse_phdr. destruct (_ <? _); [|done]. by intros [= <- <-].
Qed.

(** The span covers every segment that is loaded. *)
Definition in_span (lo hi : Z) (ph : Elf.Elf64Phdr) : Prop := lo <= Elf.p_vaddr ph /\ Elf.p_vaddr ph + Elf.p_memsz ph <= hi.

Lemma span_covers image eh n i mn mx s lo hi s' : image_span image eh n i mn mx s = Some (Ok (lo, hi), s') ->
  s' = s /\ lo <= mn /\ mx <= hi /\
  forall j ph s1 s2, i <= j < i + Z.of_nat n -> phdr_at image eh j s1 = Some (Ok ph, s2) -> skipped ph = false -> in_span lo hi ph.
Proof.
  revert i mn mx s. induction n as [|n IH]; intros i mn mx s; cbn [image_span].
  { intros [= <- <- <-]. do 3 (split; [done|]). intros. lia. }
  intros (r & s1 & E1 & E2)%st_bind_Some. destruct r as [ph|]; [|done]. apply phdr_pure in E1 as [-> E1]. destruct (skipped ph) eqn:Es.
  - apply IH in E2 as (-> & ? & ? & H). do 3 (split; [done|]). intros j ph' s1 s2 Hj Ej Hs. destruct (decide (j = i)) as [->|]; [|by apply (H j ph' s1 s2); [lia|..]].
    rewrite E1 in Ej. injection Ej as <- _. congruence.
  - apply st_bind_Some in E2 as (r & s1 & Er & E2). unfold lift in Er. injection Er as <- <-. destruct (checked_add64 _ _) as [e|] eqn:Ee; [|done].
    apply checked_add64_Some in Ee as [-> _]. apply IH in E2 as (-> & ? & ? & H). split; [done|]. split; [lia|]. split; [lia|].
    intros j ph' s1 s2 Hj Ej Hs. destruct (decide (j = i)) as [->|]; [|by apply (H j ph' s1 s2); [lia|..]]. rewrite E1 in Ej. injection Ej as <- _. unfold in_span. lia.
Qed.

Lemma span_pure image eh n i mn mx s r s' : image_span image eh n i mn mx s = Some (r, s') -> s' = s.
Proof.
  revert i mn mx. induction n as [|n IH]; intros i mn mx; cbn [image_span]; [by intros [= _ <-]|].
  intros (x & s1 & E1 & E2)%st_bind_Some. apply phdr_pure in E1 as [-> _]. destruct x as [ph|]; [|by injection E2 as _ <-]. destruct (skipped ph); [by eapply IH|].
  apply st_bind_Some in E2 as (y & s1 & Ey & E2). unfold lift in Ey. injection Ey as <- <-. destruct (checked_add64 _ _); [by eapply IH|by injection E2 as _ <-].
Qed.

Lemma load_segment_steps image bias ph lo hi :
  lo mod 4096 = 0 -> hi mod 4096 = 0 -> 0 <= lo -> lo <= Elf.p_vaddr ph + bias -> 0 <= Elf.p_memsz ph -> Elf.p_vaddr ph + bias + Elf.p_memsz ph <= hi ->
  steps lo hi (load_segment image bias ph).
Proof.
  intros ? ? ? ? ? ?. unfold load_segment. destruct (_ <? _); [apply steps_ret|]. apply steps_try; [apply steps_lift|intros e]. destruct (_ <? _); [apply steps_ret|].
  intros s r s' (x & s1 & Ex & E)%st_bind_Some. unfold lift in Ex. injection Ex as <- <-. destruct (checked_add64 _ _) as [v|] eqn:Ev; [|injection E as <- <-; apply step_refl].
  apply checked_add64_Some in Ev as [-> _]. revert E. by apply segment_steps.
Qed.

Lemma load_segments_steps image eh bias n i lo hi blo bhi :
  lo mod 4096 = 0 -> hi mod 4096 = 0 -> 0 <= lo -> lo <= blo + bias -> bhi + bias <= hi ->
  (forall j ph s1 s2, i <= j < i + Z.of_nat n -> phdr_at image eh j s1 = Some (Ok ph, s2) -> 0 <= Elf.p_memsz ph /\ (skipped ph = false -> in_span blo bhi ph)) ->
  steps lo hi (load_segments image eh bias n i).
Proof.
  intros Hlo Hhi H0 Hb Ht. revert i. induction n as [|n IH]; intros i H; cbn [load_segments]; [apply steps_ret|].
  intros s r s' (x & s1 & E1 & E2)%st_bind_Some. pose proof E1 as E1'. apply phdr_pure in E1 as [-> _].
  assert (steps lo hi (load_segments image eh bias n (i + 1))) as Hn by (apply IH; intros j ph s1 s2 Hj Ej; apply (H j ph s1 s2); [lia|done]).
  destruct x as [ph|]; [|injection E2 as <- <-; apply step_refl]. destruct (skipped ph) eqn:Es; [by eapply Hn|].
  destruct (H i ph s s ltac:(lia) E1') as [Hm Hi]. destruct (Hi Es) as [? ?]. revert E2. apply steps_try; [|done]. apply load_segment_steps; (done || lia).
Qed.

(** ** Relocations *)

(** The addresses of a loaded module. *)
Definition module_end (l : LoadedElf) : Z := base l + (max_vaddr l - min_vaddr l).

Lemma write_word_steps lo hi dst v : lo <= dst -> dst + 8 <= hi -> steps lo hi (write_word dst v).
Proof. intros ? ? s r s'. unfold write_word. destruct (_ && _); [|done]. apply steps_write; [done|]. unfold blen. by rewrite to_le_bytes_length. Qed.

(** The result of a fallible value. *)
Lemma steps_lift_bind {A B} lo hi (o : option A) (f : A -> ST (KM K) (result B unit)) :
  (forall a, o = Some a -> steps lo hi (f a)) -> steps lo hi (try_bind (lift o) f).
Proof. intros H. destruct o as [a|]; [by apply H|apply steps_ret]. Qed.

Lemma relocate_steps image l ent : steps (base l) (module_end l) (relocate image l ent).
Proof.
  unfold relocate. do 3 (apply steps_lift_bind; intros ? _). destruct (negb _); [apply steps_ret|]. apply steps_lift_bind. intros e He. apply checked_add64_Some in He as [-> _].
  destruct (Z.ltb_spec a (min_vaddr l)); [apply steps_ret|]. destruct (Z.ltb_spec (max_vaddr l) (a + 8)); [apply steps_ret|]. cbn [orb].
  apply steps_lift_bind. intros delta Hd. apply checked_sub64_Some in Hd as [-> _]. apply steps_lift_bind. intros dst Hd. apply checked_add64_Some in Hd as [-> _].
  destruct (_ || _); [apply steps_ret|]. apply steps_bind; [|intros _; apply steps_ret]. apply write_word_steps; unfold module_end; lia.
Qed.

Lemma relocate_from_steps image l n ent sz : steps (base l) (module_end l) (relocate_from image l n ent sz).
Proof. revert ent. induction n as [|n IH]; intros ent; cbn [relocate_from]; [apply steps_ret|]. apply steps_try; [apply relocate_steps|intros _; apply IH]. Qed.

Lemma relocate_section_steps image l off : steps (base l) (module_end l) (relocate_section image l off).
Proof.
  unfold relocate_section. do 2 (apply steps_lift_bind; intros ? _). destruct (_ || _); [apply steps_ret|]. do 3 (apply steps_lift_bind; intros ? _).
  destruct (_ || _); [apply steps_ret|]. apply steps_lift_bind; intros ? _. destruct (_ <? _); [apply steps_ret|]. apply relocate_from_steps.
Qed.

Lemma apply_relocations_steps image eh l : steps (base l) (module_end l) (apply_relocations image eh l).
Proof.
  unfold apply_relocations. destruct (_ || _); [apply steps_ret|]. do 2 (apply steps_lift_bind; intros ? _). destruct (_ <? _); [apply steps_ret|].
  generalize (Elf.e_shoff eh) as off. induction (Z.to_nat (Elf.e_shnum eh)) as [|n IH]; intros off; cbn [relocate_sections]; [apply steps_ret|].
  apply steps_try; [apply relocate_section_steps|intros _; apply IH].
Qed.

(** ** A module as a whole *)

(** Where the next module goes is a page, and memory up to it is given out. *)
Definition base_ok s : Prop := 0 <= next_base s /\ next_base s mod 4096 = 0.

(** Between two states modules were placed from the old [next_base] on, and a guard is
    left before the new one. *)
Definition placed s s' : Prop :=
  next_base s <= next_base s' /\ base_ok s' /\ confined (next_base s) (Z.max (next_base s) (next_base s' - MODULE_LOAD_GUARD)) (km s) (km s').

Lemma placed_same s s' : base_ok s -> next_base s' = next_base s -> km s' = km s -> placed s s'.
Proof. intros H N M. unfold placed, base_ok in *. rewrite N, M. split; [lia|]. split; [done|]. done. Qed.

Lemma base_alloc_spec span s r s' : 0 <= span -> base_ok s -> alloc_module_base span s = Some (r, s') ->
  match r with
  | Ok b => b = next_base s /\ km s' = km s /\ next_base s' = b + page_down (span + 4095) + MODULE_LOAD_GUARD /\ base_ok s'
  | Err _ => s' = s
  end.
Proof.
  intros Hs [Hb Hm]. unfold alloc_module_base, align_up_4k. destruct (checked_add64 span 4095) as [e|] eqn:Ee; cbn [fmap option_fmap option_map]; [|by intros [= <- <-]].
  apply checked_add64_Some in Ee as [-> _]. destruct (checked_add64 (page_down _) _) as [st|] eqn:Es; [|by intros [= <- <-]]. apply checked_add64_Some in Es as [-> _].
  destruct (checked_add64 (next_base s) _) as [nx|] eqn:En; [|by intros [= <- <-]]. apply checked_add64_Some in En as [-> _]. intros [= <- <-].
  split; [done|]. split; [done|]. unfold base_ok, MODULE_LOAD_GUARD in *. cbn [next_base set_next]. split; [lia|]. rewrite page_down_spec. split; Z.to_euclidean_division_equations; lia.
Qed.

Lemma field_nonneg data off n v : Forall is_byte data -> Elf.field data off n = Some v -> 0 <= v.
Proof. intros Hd (r & Hr & ->)%fmap_Some. pose proof (from_le_bytes_range r (get_range_bytes _ _ _ _ Hd Hr)). lia. Qed.

Lemma phdr_memsz image eh i s ph s' : Forall is_byte image -> phdr_at image eh i s = Some (Ok ph, s') -> 0 <= Elf.p_memsz ph.
Proof.
  intros Hd. unfold phdr_at, try_bind, lift, mbind, ST_bind, mret, ST_ret. destruct (checked_mul64 _ _); [|done]. destruct (checked_add64 _ _) as [off|]; [|done].
  unfold parse_phdr. destruct (_ <? _); [|done]. unfold lift, mret, ST_ret. intros [= H _]. destruct (Elf.parse_phdr image off) as [p|] eqn:Ep; [|done]. injection H as ->.
  unfold Elf.parse_phdr in Ep. Elf.parse_steps Ep. injection Ep as <-. cbn [Elf.p_memsz]. by eapply field_nonneg.
Qed.

Lemma load_image_spec image eh s r s' : Forall is_byte image -> Elf.e_type eh = ET_DYN -> base_ok s -> load_elf_image image eh s = Some (r, s') ->
  placed s s' /\ match r with Ok l => base l = next_base s /\ module_end l <= next_base s' - MODULE_LOAD_GUARD | Err _ => True end.
Proof.
  intros Hd Ht Hb. unfold load_elf_image. destruct (_ || _); [intros [= <- <-]; split; [by apply placed_same|done]|].
  intros (x & s1 & E1 & E)%st_bind_Some. destruct x as [[lo hi]|]; cycle 1.
  { injection E as <- <-. split; [|done]. apply span_pure in E1 as ->. by apply placed_same. }
  apply span_covers in E1 as (-> & _ & _ & Hc). destruct (Z.eqb_spec lo U64_MAX); [injection E as <- <-; split; [by apply placed_same|done]|].
  destruct (Z.leb_spec hi lo); [injection E as <- <-; split; [by apply placed_same|done]|]. cbn [orb] in E. rewrite Ht in E. cbn [Z.eqb Pos.eqb ET_DYN] in E.
  apply st_bind_Some in E as (y & s2 & E2 & E). apply st_bind_Some in E2 as (z & s3 & Ez & E2). unfold lift in Ez. injection Ez as <- <-.
  unfold checked_sub64 in E2. destruct (lo <=? hi) eqn:El; [|apply Z.leb_gt in El; lia].
  apply base_alloc_spec in E2; [|lia|done]. destruct y as [b|]; cycle 1.
  { injection E as <- <-. subst s2. split; [by apply placed_same|done]. }
  destruct E2 as (-> & M2 & N2 & B2). apply st_bind_Some in E as (y & s3 & Ey & E). unfold lift in Ey. injection Ey as <- <-.
  set (top := next_base s + page_down (hi - lo + 4095)). assert (next_base s2 - MODULE_LOAD_GUARD = top) as Etop by (unfold top; lia).
  assert (next_base s + (hi - lo) <= top /\ top mod 4096 = 0) as [Hle Htop].
  { unfold top. destruct Hb as [? ?]. rewrite page_down_spec. split; Z.to_euclidean_division_equations; lia. }
  assert (forall s4, step_in (next_base s) top s2 s4 -> placed s s4 /\ top = next_base s4 - MODULE_LOAD_GUARD) as Hp.
  { intros s4 [Hk Hn]. unfold placed. rewrite Hn. split; [|lia]. split; [unfold MODULE_LOAD_GUARD in *; lia|]. split; [unfold base_ok in *; by rewrite Hn|].
    rewrite Etop, Z.max_r by lia. by rewrite <- M2. }
  destruct (checked_sub64 (next_base s) lo) as [bias|] eqn:Ebias; cycle 1.
  { injection E as <- <-. split; [apply Hp, step_refl|done]. }
  apply checked_sub64_Some in Ebias as [-> _]. apply st_bind_Some in E as (y & s4 & E4 & E).
  assert (step_in (next_base s) top s2 s4) as H4.
  { destruct Hb. revert E4. apply (load_segments_steps image eh _ _ 0 _ _ lo hi); [done|done|done|lia|lia|]. intros j ph t1 t2 Hj Ej. split; [by eapply phdr_memsz|]. intros Hs. by apply (Hc j ph t1 t2). }
  destruct (Hp s4 H4) as [? ?]. destruct y; injection E as <- <-; split; [done| |done|done]. unfold module_end. cbn [base max_vaddr min_vaddr]. split; [done|lia].
Qed.

(** C36. A relocatable module stays in its place.  Whatever the file holds, loading
    it (placing the segments, relocating them and finding the entry point) changes no byte
    of memory below the place where the next module was to go, and none from the
    guard of 2 MiB on that lies before the place where the next one will go now; so two
    modules never overlap. *)
Theorem module_load_confined image symbol s r s' :
  Forall is_byte image -> base_ok s -> (forall eh, Elf.parse_elf_header image = Some eh -> Elf.e_type eh = ET_DYN) ->
  load_elf_symbol image symbol s = Some (r, s') ->
  next_base s <= next_base s' /\ base_ok s' /\ forall x, km s' x <> km s x -> next_base s <= x < next_base s' - MODULE_LOAD_GUARD.
Proof.
  intros Hd Hb Ht H. assert (placed s s') as (H1 & H2 & H3).
  { unfold load_elf_symbol in H. apply st_bind_Some in H as (x & s1 & Ex & H). unfold lift in Ex. injection Ex as <- <-.
    destruct (Elf.parse_elf_header image) as [eh|]; [|injection H as <- <-; by apply placed_same]. specialize (Ht eh eq_refl).
    apply st_bind_Some in H as (x & s2 & Ex & H). apply load_image_spec in Ex as [Hp Hl]; [|done..]. destruct x as [l|]; [|by injection H as <- <-]. destruct Hl as [Hl1 Hl2].
    apply st_bind_Some in H as (x & s3 & Ex & H). apply apply_relocations_steps in Ex as [Hk Hn]. assert (s' = s3) as ->.
    { destruct x; [unfold lift in H|]; by injection H as _ <-. }
    destruct Hp as (P1 & P2 & P3). unfold placed, base_ok. rewrite Hn. split; [done|]. split; [done|]. eapply confined_trans; [exact P3|]. eapply confined_wider; [| |exact Hk]; lia. }
  split; [done|]. split; [done|]. intros x Hx. destruct (decide (next_base s <= x < next_base s' - MODULE_LOAD_GUARD)); [done|]. exfalso. apply Hx, H3. lia.
Qed.

End loading.

(** ** Symbols *)

Lemma read_u32_in b off v : read_u32 b off = Some v -> off + 4 <= blen b.
Proof. unfold read_u32, get_wrapped. destruct (_ <? _); [|done]. intros (r & (_ & _ & H & _)%get_range_Some & _)%fmap_Some. done. Qed.

(** Looking at [f] symbols is enough when the file ends before the next one. *)
Lemma table_rounds image symbol l stro strs entsize f n off :
  blen image < 2 ^ 63 -> 24 <= entsize -> 0 <= off -> Z.of_nat n * entsize < U64_MODULUS -> (1 <= f < n)%nat -> blen image < off + Z.of_nat f ->
  find_in_table image symbol l stro strs f off entsize = find_in_table image symbol l stro strs n off entsize.
Proof.
  intros Hb He. revert n off. induction f as [|f IH]; intros n off H0 Hn Hf Ho; [lia|]. destruct n as [|n]; [lia|]. cbn [find_in_table].
  destruct (read_u32 image off) as [nm|] eqn:Er; [|done]. apply read_u32_in in Er. cbn [mbind option_bind].
  assert (wrapping_add64 off entsize = off + entsize) as Ew by (unfold wrapping_add64, wrap64, U64_MODULUS in *; apply Z.mod_small; nia).
  rewrite Ew, <- (IH n (off + entsize)); [done|lia|lia|lia|lia].
Qed.

(** So the search looks at every symbol of the table, or fails where the code fails. *)
Lemma table_fuel_enough image symbol l stro strs off size entsize :
  blen image < 2 ^ 63 -> 24 <= entsize -> 0 <= off -> 0 <= size < U64_MODULUS ->
  find_in_table image symbol l stro strs (table_fuel image (size / entsize)) off entsize = find_in_table image symbol l stro strs (Z.to_nat (size / entsize)) off entsize.
Proof.
  intros Hb He Ho Hs. unfold table_fuel. destruct (Z.le_gt_cases (size / entsize) (blen image + 1)) as [|Hgt]; [by rewrite Z.min_l|]. rewrite Z.min_r by lia.
  pose proof (blen_nonneg image). pose proof (Z.mul_div_le size entsize ltac:(lia)). apply table_rounds; [done|done|done|lia|lia|lia].
Qed.

(** ** A module with one segment and one relocation *)

(** The pages that are mapped. *)
#[export] Instance page_list : KernelPages (list Z) := {|
  kp_ready _ := true;
  kp_mapped p k := bool_decide (p ∈ k);
  kp_map p k := (Some (replicate 4096 170), p :: k);
  kp_writable _ k := k;
  kp_final _ _ _ k := (true, k);
  kp_can_write p k := bool_decide (p ∈ k)
|}.

Definition demo_ehdr : Elf.Elf64Ehdr := Elf.mkEhdr (Elf.ELFMAG ++ [2; 1; 1; 0; 0; 0; 0; 0; 0; 0; 0; 0]) ET_DYN 62 1 0 64 148 0 64 56 1 64 1 0.
Definition demo_phdr : Elf.Elf64Phdr := Elf.mkPhdr 1 6 120 4096 4096 4 16 4096.
Definition demo_rela : bytes := to_le_bytes 8 4104 ++ to_le_bytes 8 R_X86_64_RELATIVE ++ to_le_bytes 8 4098.
Definition demo_section : bytes :=
  to_le_bytes 4 0 ++ to_le_bytes 4 SHT_RELA ++ to_le_bytes 8 SHF_ALLOC ++ to_le_bytes 8 0 ++ to_le_bytes 8 124 ++ to_le_bytes 8 24 ++ to_le_bytes 8 0 ++ to_le_bytes 8 8 ++ to_le_bytes 8 24.
Definition demo_image : bytes := Elf.ehdr_bytes demo_ehdr ++ Elf.phdr_bytes demo_phdr ++ [235; 254; 144; 144] ++ demo_rela ++ demo_section.
Definition demo_kernel : KM (list Z) := mkKM (fun _ => 0) [] MODULE_LOAD_BASE_START None None.

Lemma module_image_bytes : Forall is_byte demo_image.
Proof. unfold is_byte. repeat apply list.Forall_cons_2; try apply list.Forall_nil_2; vm_compute; done. Qed.

(** The first bytes of the segment and the relocated word are there; nothing lies below. *)
Lemma module_load_confined_witness :
  exists r s', load_elf_symbol demo_image INIT demo_kernel = Some (r, s') /\
    load (km s') MODULE_LOAD_BASE_START 4 = [235; 254; 144; 144] /\ Mem.read_u64 (km s') (MODULE_LOAD_BASE_START + 8) = MODULE_LOAD_BASE_START + 2 /\
    forall x, x < MODULE_LOAD_BASE_START -> km s' x = 0.
Proof.
  assert (match load_elf_symbol demo_image INIT demo_kernel with
    | Some (_, s') => load (km s') MODULE_LOAD_BASE_START 4 = [235; 254; 144; 144] /\ Mem.read_u64 (km s') (MODULE_LOAD_BASE_START + 8) = MODULE_LOAD_BASE_START + 2
    | None => False end) as Hv by (vm_compute; split; reflexivity).
  destruct (load_elf_symbol demo_image INIT demo_kernel) as [[r s']|] eqn:E; [|contradiction]. destruct Hv as [H1 H2].
  exists r, s'. split; [reflexivity|]. split; [exact H1|]. split; [exact H2|]. intros x Hx.
  destruct (module_load_confined demo_image INIT demo_kernel r s' module_image_bytes) as (_ & _ & H).
  - split; [vm_compute; discriminate|reflexivity].
  - assert (Elf.parse_elf_header demo_image = Some demo_ehdr) as -> by (vm_compute; reflexivity). intros eh [= <-]. reflexivity.
  - exact E.
  - destruct (decide (km s' x = 0)) as [|Hn]; [assumption|]. exfalso. specialize (H x Hn). change (next_base demo_kernel) with MODULE_LOAD_BASE_START in H. lia.
Defined.
End KmodProps.
