(* ===== verification/SpinLock.v ===== *)
(** The interrupt-safe spin lock, [src/core/interrupt/spinlock.rs].

    Processors run side by side and take interrupts whenever they are enabled.  A
    processor's stack holds the code it runs, on top, and the code that interrupts
    suspended below.  The operations of a lock are cut into the accesses that other
    processors and interrupts can see in between: reading the interrupt flag, clearing it,
    the compare-and-exchange, the store that releases, and setting the flag again.
    The accesses of all processors follow one another in some order.  Guards are dropped
    in the reverse of the order in which they were made, as Rust drops the variables
    of a scope. *)

From Stdlib Require Import ZArith Lia.
From stdpp Require Import base list option numbers relations.
From S2P Require Import Prelude.

Module SpinLock.

(** A [SpinLockGuard]: the lock, and [interrupt_enabled]. *)
Record SpinLockGuard := mkGuard { lock_of : nat; interrupt_enabled : bool }.

(** Where the running code is in [lock] ([once] is false), [try_lock] or [drop]. *)
Inductive Pc :=
| Running
| Asked (once : bool) (l : nat) (enabled : bool)
| Trying (once : bool) (l : nat) (enabled : bool)
| Releasing (enabled : bool).

(** A piece of code with the guards it holds, the latest first. *)
Record Code := mkCode { pc : Pc; guards : list SpinLockGuard }.

(** A processor: its interrupt flag and its stack. *)
Record Cpu := mkCpu { flag : bool; running : Code; suspended : list Code }.

(** The [locked] flags of the locks, and the processors. *)
Record Machine := mkMachine { locked : nat -> bool; cpus : list Cpu }.

Definition set_locked (l : nat) (b : bool) (f : nat -> bool) : nat -> bool := fun l' => if decide (l' = l) then b else f l'.

(** [SpinLock::new] makes every lock free. *)
Definition new : nat -> bool := fun _ => false.

(** ** The accesses *)

(** [are_enabled], at the start of [lock] and [try_lock]. *)
Definition ask (once : bool) (l : nat) (c : Cpu) : option Cpu :=
  match pc (running c) with
  | Running => Some (mkCpu (flag c) (mkCode (Asked once l (flag c)) (guards (running c))) (suspended c))
  | _ => None
  end.

(** [interrupts::disable] *)
Definition disable (c : Cpu) : option Cpu :=
  match pc (running c) with
  | Asked once l e => Some (mkCpu false (mkCode (Trying once l e) (guards (running c))) (suspended c))
  | _ => None
  end.

(** The compare-and-exchange: the lock is taken, or [lock] goes on trying (also when the
    exchange fails for no reason), or [try_lock] gives up and restores the flag. *)
Definition exchange (fails : bool) (f : nat -> bool) (c : Cpu) : option ((nat -> bool) * Cpu) :=
  match pc (running c) with
  | Trying once l e =>
      if negb (f l) && negb (fails && negb once) then Some (set_locked l true f, mkCpu (flag c) (mkCode Running (mkGuard l e :: guards (running c))) (suspended c))
      else if once then Some (f, mkCpu (e || flag c) (mkCode Running (guards (running c))) (suspended c))
      else Some (f, c)
  | _ => None
  end.

(** The two steps of [drop] of the latest guard. *)
Definition release (f : nat -> bool) (c : Cpu) : option ((nat -> bool) * Cpu) :=
  match pc (running c), guards (running c) with
  | Running, g :: gs => Some (set_locked (lock_of g) false f, mkCpu (flag c) (mkCode (Releasing (interrupt_enabled g)) gs) (suspended c))
  | _, _ => None
  end.
Definition restore (c : Cpu) : option Cpu :=
  match pc (running c) with
  | Releasing e => Some (mkCpu (e || flag c) (mkCode Running (guards (running c))) (suspended c))
  | _ => None
  end.

(** [force_unlock], which no code of the kernel calls. *)
Definition force_unlock (l : nat) (f : nat -> bool) : nat -> bool := set_locked l false f.

(** An interrupt clears the flag and runs a handler; the return sets it again. *)
Definition interrupt (c : Cpu) : option Cpu := if flag c then Some (mkCpu false (mkCode Running []) (running c :: suspended c)) else None.
Definition return_ (c : Cpu) : option Cpu :=
  match pc (running c), guards (running c), suspended c with
  | Running, [], code :: rest => Some (mkCpu true code rest)
  | _, _, _ => None
  end.

(** An access of processor [i]: of its own state, or of a lock too. *)
Inductive own_step (c : Cpu) : Cpu -> Prop :=
| own_ask once l c' : ask once l c = Some c' -> own_step c c'
| own_disable c' : disable c = Some c' -> own_step c c'
| own_restore c' : restore c = Some c' -> own_step c c'
| own_interrupt c' : interrupt c = Some c' -> own_step c c'
| own_return c' : return_ c = Some c' -> own_step c c'.

Inductive step (m : Machine) : Machine -> Prop :=
| step_own i c c' : cpus m !! i = Some c -> own_step c c' -> step m (mkMachine (locked m) (<[i := c']> (cpus m)))
| step_exchange i c fails f c' : cpus m !! i = Some c -> exchange fails (locked m) c = Some (f, c') -> step m (mkMachine f (<[i := c']> (cpus m)))
| step_release i c f c' : cpus m !! i = Some c -> release (locked m) c = Some (f, c') -> step m (mkMachine f (<[i := c']> (cpus m))).

(** Processors that hold no lock and take interrupts. *)
Definition boot (n : nat) : Machine := mkMachine new (replicate n (mkCpu true (mkCode Running []) [])).
Definition reachable (n : nat) (m : Machine) : Prop := rtc step (boot n) m.

(** ** One processor *)

(** All guards but the first have found interrupts disabled, and so does code that asks
    or releases while it holds one; while interrupts are enabled there is no guard. *)
Definition saved_ok (gs : list SpinLockGuard) : Prop := forall g gs1 gs2, gs = gs1 ++ g :: gs2 -> gs2 <> [] -> interrupt_enabled g = false.
Definition pc_ok (fl : bool) (c : Code) : Prop :=
  match pc c with
  | Running => True
  | Asked _ _ e => e = fl
  | Trying _ _ e | Releasing e => fl = false /\ (guards c <> [] -> e = false)
  end.
Definition cpu_ok (c : Cpu) : Prop :=
  pc_ok (flag c) (running c) /\ saved_ok (guards (running c)) /\ (flag c = true -> guards (running c) = []) /\
  Forall (fun code => guards code = [] /\ pc_ok true code) (suspended c).

Lemma saved_ok_cons g gs : saved_ok (g :: gs) <-> (gs <> [] -> interrupt_enabled g = false) /\ saved_ok gs.
Proof.
  split.
  - intros H. split; [by apply (H g [])|]. intros g' gs1 gs2 -> Hn. by apply (H g' (g :: gs1) gs2).
  - intros [H1 H2] g' [|g1 gs1] gs2 [= -> ->] Hn; [by apply H1|by eapply H2].
Qed.

(** The code under an interrupt, when it goes on, is where it was. *)
Lemma own_keeps c c' : cpu_ok c -> own_step c c' -> cpu_ok c'.
Proof.
  intros (Hp & Hs & Hf & Hr) Hst. unfold cpu_ok. destruct Hst as [once l ? E|? E|? E|? E|? E].
  - unfold ask in E. destruct (pc (running c)); try done. injection E as <-. done.
  - unfold disable in E. unfold pc_ok in Hp. destruct (pc (running c)); try done. injection E as <-. cbn. split; [|done]. split; [done|]. intros Hn. destruct (flag c); [|done]. by rewrite Hf in Hn.
  - unfold restore in E. unfold pc_ok in Hp. destruct (pc (running c)); try done. injection E as <-. destruct Hp as [Hfl Hg]. cbn. split; [done|]. split; [done|]. split; [|done].
    rewrite Hfl. intros He. destruct (guards (running c)); [done|]. destruct enabled; [|done]. by specialize (Hg ltac:(done)).
  - unfold interrupt in E. destruct (flag c) eqn:Ef; [|done]. injection E as <-. cbn. split; [done|]. split; [by intros ? [|] ? ?|]. split; [done|]. constructor; [by rewrite Hf|done].
  - unfold return_ in E. destruct (pc (running c)); try done. destruct (guards (running c)); [|done]. destruct (suspended c) as [|code rest]; [done|]. injection E as <-.
    apply Forall_cons in Hr as [[Hg Hc] Hr]. cbn. split; [done|]. rewrite Hg. split; [by intros ? [|] ? ?|]. done.
Qed.

Lemma exchange_keeps fails f c f' c' : cpu_ok c -> exchange fails f c = Some (f', c') -> cpu_ok c'.
Proof.
  intros (Hp & Hs & Hf & Hr) E. unfold exchange in E. unfold pc_ok in Hp. destruct (pc (running c)) as [| |once l e|] eqn:Ep; try done. destruct Hp as [Hfl Hg].
  destruct (negb (f l) && _); [injection E as <- <-|destruct once; injection E as <- <-]; unfold cpu_ok; cbn.
  - split; [done|]. split; [by apply saved_ok_cons|]. split; [by rewrite Hfl|done].
  - split; [done|]. split; [done|]. split; [|done]. rewrite Hfl. intros He. destruct (guards (running c)); [done|]. destruct e; [|done]. by specialize (Hg ltac:(done)).
  - unfold pc_ok. rewrite Ep. done.
Qed.

Lemma release_keeps f c f' c' : cpu_ok c -> release f c = Some (f', c') -> cpu_ok c'.
Proof.
  intros (Hp & Hs & Hf & Hr) E. unfold release in E. destruct (pc (running c)); try done. destruct (guards (running c)) as [|g gs]; [done|]. injection E as <- <-.
  apply saved_ok_cons in Hs as [H1 H2]. assert (flag c = false) as Hfl by (destruct (flag c); [by specialize (Hf eq_refl)|done]). unfold cpu_ok. cbn. rewrite Hfl. done.
Qed.

(** ** All processors *)

(** The locks of the guards of a processor, of all its code, and of all processors. *)
Definition own_locks (c : Cpu) : list nat := lock_of <$> (guards (running c) ++ (suspended c ≫= guards)).
Definition held (m : Machine) : list nat := cpus m ≫= own_locks.

Lemma own_locks_running c : cpu_ok c -> own_locks c = lock_of <$> guards (running c).
Proof.
  intros (_ & _ & _ & Hr). unfold own_locks. assert (suspended c ≫= guards = []) as ->; [|by rewrite app_nil_r].
  induction Hr as [|code rest [Hg _] _ IH]; [done|]. by rewrite bind_cons, Hg, IH.
Qed.

(** A processor in the middle of the list. *)
Lemma held_split cs i c c' : cs !! i = Some c ->
  exists l1 l2, (cs ≫= own_locks) ≡ₚ own_locks c ++ l1 ++ l2 /\ (<[i := c']> cs ≫= own_locks) ≡ₚ own_locks c' ++ l1 ++ l2.
Proof.
  intros H. exists (take i cs ≫= own_locks), (drop (S i) cs ≫= own_locks). pose proof (lookup_lt_Some _ _ _ H). split.
  - rewrite <- (take_drop_middle cs i c H) at 1. rewrite bind_app, bind_cons. solve_Permutation.
  - rewrite insert_take_drop by done. rewrite bind_app, bind_cons. solve_Permutation.
Qed.

Definition machine_ok (m : Machine) : Prop := Forall cpu_ok (cpus m) /\ NoDup (held m) /\ forall l, locked m l = true <-> l ∈ held m.

Lemma cpus_keep m i c c' : Forall cpu_ok (cpus m) -> cpus m !! i = Some c -> (cpu_ok c -> cpu_ok c') -> cpu_ok c /\ cpu_ok c' /\ Forall cpu_ok (<[i := c']> (cpus m)).
Proof. intros H Hi Hc. pose proof (Forall_lookup_1 _ _ _ _ H Hi). split; [done|]. split; [auto|]. apply Forall_insert; auto. Qed.

(** The guards after a step of one processor's own. *)
Lemma own_guards c c' : own_step c c' -> own_locks c' = own_locks c.
Proof.
  unfold own_locks. destruct 1 as [once l ? E|? E|? E|? E|? E].
  - unfold ask in E. destruct (pc (running c)); try done. by injection E as <-.
  - unfold disable in E. destruct (pc (running c)); try done. by injection E as <-.
  - unfold restore in E. destruct (pc (running c)); try done. by injection E as <-.
  - unfold interrupt in E. destruct (flag c); [|done]. injection E as <-. done.
  - unfold return_ in E. destruct (pc (running c)); try done. destruct (guards (running c)); [|done]. destruct (suspended c); [done|]. injection E as <-. done.
Qed.

Lemma step_keeps m m' : machine_ok m -> step m m' -> machine_ok m'.
Proof.
  intros (Hc & Hn & Hl) Hst. unfold machine_ok, held. destruct Hst as [i c c' Hi E|i c fails f c' Hi E|i c f c' Hi E]; cbn [cpus locked].
  - destruct (cpus_keep m i c c' Hc Hi) as (_ & _ & Hc'); [intros ?; by eapply own_keeps|]. split; [done|]. destruct (held_split (cpus m) i c c' Hi) as (l1 & l2 & P1 & P2).
    rewrite (own_guards c c' E), <- P1 in P2. split; [by rewrite P2|]. intros l. by rewrite P2.
  - destruct (cpus_keep m i c c' Hc Hi) as (H1 & H2 & Hc'); [intros ?; by eapply exchange_keeps|]. split; [done|]. destruct (held_split (cpus m) i c c' Hi) as (l1 & l2 & P1 & P2).
    unfold held in Hn, Hl. rewrite P1 in Hn. setoid_rewrite P1 in Hl. rewrite P2. setoid_rewrite P2. rewrite !own_locks_running in * by done.
    unfold exchange in E. destruct (pc (running c)) as [| |once l e|]; try done. destruct (locked m l) eqn:El; cbn [negb andb] in E.
    { destruct once; injection E as <- <-; done. }
    destruct (negb (fails && negb once)); [|destruct once; injection E as <- <-; done]. injection E as <- <-. cbn [running guards fmap list_fmap lock_of app].
    split; [apply NoDup_cons; split; [|done]; intros Hin; apply Hl in Hin; congruence|]. intros l'. rewrite elem_of_cons, <- Hl. unfold set_locked. destruct (decide (l' = l)); naive_solver.
  - destruct (cpus_keep m i c c' Hc Hi) as (H1 & H2 & Hc'); [intros ?; by eapply release_keeps|]. split; [done|]. destruct (held_split (cpus m) i c c' Hi) as (l1 & l2 & P1 & P2).
    unfold held in Hn, Hl. rewrite P1 in Hn. setoid_rewrite P1 in Hl. rewrite P2. setoid_rewrite P2. rewrite !own_locks_running in * by done.
    unfold release in E. destruct (pc (running c)); try done. destruct (guards (running c)) as [|g gs]; [done|]. injection E as <- <-. cbn [running guards fmap list_fmap lock_of app] in *.
    apply NoDup_cons in Hn as [Hnot Hn]. split; [done|]. intros l. unfold set_locked. specialize (Hl l). rewrite elem_of_cons in Hl. destruct (decide (l = lock_of g)) as [->|]; naive_solver.
Qed.

Lemma boot_ok n : machine_ok (boot n).
Proof.
  assert (held (boot n) = []) as Hh. { unfold held, boot. cbn [cpus]. induction n as [|n IH]; [done|]. cbn [replicate]. by rewrite bind_cons, IH. }
  split; [|rewrite Hh; split; [constructor|]; intros l; split; [done|by intros ?%not_elem_of_nil]]. cbn [cpus boot]. apply Forall_replicate. split; [done|]. split; [by intros ? [|] ? ?|]. done.
Qed.

Lemma lock_reachable_ok n m : reachable n m -> machine_ok m.
Proof. intros H. unfold reachable in H. pose proof (boot_ok n) as H0. revert H0. induction H as [|m1 m2 m3 Hs _ IH]; [done|]. intros H0. by apply IH, (step_keeps m1). Qed.


(** ** A run: processor 0 of two takes lock 7 *)

Definition idle : Cpu := mkCpu true (mkCode Running []) [].
Definition run1 : Machine := mkMachine new [mkCpu true (mkCode (Asked false 7 true) []) []; idle].
Definition run2 : Machine := mkMachine new [mkCpu false (mkCode (Trying false 7 true) []) []; idle].
Definition run3 : Machine := mkMachine (set_locked 7 true new) [mkCpu false (mkCode Running [mkGuard 7 true]) []; idle].

Lemma run_reachable : reachable 2 run3.
Proof.
  apply (rtc_l _ _ run1); [apply (step_own (boot 2) 0 idle (mkCpu true (mkCode (Asked false 7 true) []) [])); [reflexivity|apply (own_ask idle false 7); reflexivity]|].
  apply (rtc_l _ _ run2); [apply (step_own run1 0 (mkCpu true (mkCode (Asked false 7 true) []) []) (mkCpu false (mkCode (Trying false 7 true) []) [])); [reflexivity|apply own_disable; reflexivity]|].
  apply rtc_once. apply (step_exchange run2 0 (mkCpu false (mkCode (Trying false 7 true) []) []) false (set_locked 7 true new)); reflexivity.
Qed.


(** ** Guards dropped in another order *)

(** [drop] of guard number [k]. *)
Definition release_at (k : nat) (f : nat -> bool) (c : Cpu) : option ((nat -> bool) * Cpu) :=
  match pc (running c), guards (running c) !! k with
  | Running, Some g => Some (set_locked (lock_of g) false f, mkCpu (flag c) (mkCode (Releasing (interrupt_enabled g)) (delete k (guards (running c)))) (suspended c))
  | _, _ => None
  end.

(** Two locks are taken with interrupts enabled and the first is dropped first: interrupts
    are enabled while the second is held, and a handler that wants it waits for code that
    cannot run. *)
Lemma out_of_order_drop :
  let two := mkCpu false (mkCode Running [mkGuard 1 false; mkGuard 0 true]) [] in
  exists f c c' h, release_at 1 (set_locked 1 true (set_locked 0 true new)) two = Some (f, c) /\ restore c = Some c' /\
    flag c' = true /\ guards (running c') = [mkGuard 1 false] /\
    (c1 ← interrupt c'; c2 ← ask false 1 c1; disable c2) = Some h /\ exchange false f h = Some (f, h).
Proof. cbv zeta. do 4 eexists. split; [reflexivity|]. split; [reflexivity|]. split; [reflexivity|]. split; [reflexivity|]. split; reflexivity. Qed.
End SpinLock.
