(* ===== verification/Io.v ===== *)
(** Reading and writing descriptors, [src/core/syscall/io.rs].

    Output of the standard descriptors goes to the serial line, to the console ([Tty]) and
    by messages to the parent process, which draws it; other descriptors are terminals,
    pipes ([Pipe]) or files; what [syscall/fs.rs] does for a file is the class [FileIO].
    [heap] is the largest buffer the kernel heap can give; asking for more
    is a panic, as an overflow in the console is: the outcome [None].  While the parent's
    mailbox is full, or a pipe is empty, the call yields, and the next element of
    [others] is what the rest of the system does meanwhile; the result [None] is a
    call that still waits when they end.  Log lines are left out.

    [IoProps]: a vector of buffers written to the terminal is the same output as one
    buffer with their contents; a write that waits for a parent that is gone never
    returns; a write of more than the kernel heap holds stops the kernel. *)

From Stdlib Require Import ZArith Lia.
From stdpp Require Import base list option numbers gmap strings.
From S2P Require Import Prelude State Types UserMem Slots Table Queue Fifo Thread KStack Scheduler Process Ipc IpcSyscalls Futex Kernel.
From S2P Require Import FdTable FdSyscalls Pipe Bytes Ext2 Signal SigSyscalls SignalProps Paths Input Tty TtyProps Pgroup PgroupProps.
Import Bytes.

Local Open Scope Z_scope.

Module Io.

Definition STDOUT_FD : Z := 1.
Definition STDERR_FD : Z := 2.
Definition IOVEC_SIZE : Z := 16.
Definition IOV_MAX : Z := 1024.
Definition CHUNK : nat := 512.

Section io.
Context {Q Qk Qm : Type} `{!BoundedQueue Q Z, !BoundedQueue Qk Z, !BoundedQueue Qm Z}.
Context {M : Type} `{!UserMemory M}.

(** The system with its pipes and the bytes of the serial line. *)
Record IS := mkIS { ps : @Pgroup.PS Q Qk Qm M; pipes : Pipe.PipeTable; serial : bytes }.
Implicit Types s : IS.

Definition set_ps (p : Pgroup.PS) s : IS := mkIS p (pipes s) (serial s).
Definition set_pipes (t : Pipe.PipeTable) s : IS := mkIS (ps s) t (serial s).
Definition set_kst (k : Kernel.KS M) s : IS := set_ps (Pgroup.mkPS k (Pgroup.con (ps s)) (Pgroup.fds (ps s))) s.
Definition mem s : M := Pgroup.mem_of (ps s).

(** A call that may still be waiting. *)
Definition IO : Type := ST IS (option Z).
Definition ret (v : Z) : IO := mret (Some v).

(** What a reader waits through: the scan codes that arrive and the other threads. *)
Record Wait := mkWait { codes : list Z; meanwhile : list (IS -> IS) }.

Class FileIO := { fs_read : Z -> Z -> Z -> IO; fs_write : Z -> Z -> Z -> IO }.
Context `{!FileIO} (heap : Z).

(** [alloc::vec!\[0u8; len as usize\]] *)
Definition vec_zero (len : Z) : ST IS unit := if heap <? len then undefined else mret tt.

Definition copied (ptr len : Z) : ST IS (result bytes Z) := fun s => Some (copy_from_user (mem s) ptr (Z.to_nat len), s).

Definition get_parent_thread_id s : option Z :=
  let k := Pgroup.kst (ps s) in
  pid ← Kernel.current_pid k;
  p ← Process.get pid (Kernel.procs k);
  parent_pid ← Process.parent_id p;
  Kernel.first_thread_of parent_pid k.

(** [while !send_from_kernel(..) { yield_now() }]: what is left of the others, or [None]. *)
Fixpoint send_until (parent : Z) (data : bytes) (others : list (IS -> IS)) (s : IS) : option (list (IS -> IS)) * IS :=
  let k := Pgroup.kst (ps s) in
  let '(ok, i) := IpcSyscalls.send_from_kernel parent data (Kernel.ist k) in
  let s := set_kst (Kernel.mkKS i (Kernel.procs k) (Kernel.futexes k) (Kernel.pool k)) s in
  if (ok : bool) then (Some others, s)
  else match others with
       | [] => (None, s)
       | o :: others => send_until parent data others (o s)
       end.

(** The pieces of at most [CHUNK] bytes. *)
Fixpoint chunks (fuel : nat) (b : bytes) : list bytes :=
  match fuel, b with
  | S fuel, _ :: _ => take CHUNK b :: chunks fuel (drop CHUNK b)
  | _, _ => []
  end.

Fixpoint forward (parent : Z) (pieces : list bytes) (others : list (IS -> IS)) (s : IS) : option (list (IS -> IS)) * IS :=
  match pieces with
  | [] => (Some others, s)
  | p :: pieces =>
      match send_until parent p others s with
      | (Some others, s) => forward parent pieces others s
      | (None, s) => (None, s)
      end
  end.

Definition send_serial (b : bytes) : ST IS unit := smodify (fun s => mkIS (ps s) (pipes s) (serial s ++ b)).
Definition process_output (b : bytes) : ST IS unit := fun s =>
  match Tty.process_output b (Pgroup.con (ps s)) with
  | Some c => Some (tt, set_ps (Pgroup.set_con c (ps s)) s)
  | None => None
  end.

Definition to_parent (buf : bytes) (v : Z) (others : list (IS -> IS)) : ST IS (option (Z * list (IS -> IS))) := fun s =>
  match get_parent_thread_id s with
  | Some parent_tid =>
      match forward parent_tid (chunks (length buf) buf) others s with
      | (Some others, s) => Some (Some (v, others), s)
      | (None, s) => Some (None, s)
      end
  | None => Some (Some (v, others), s)
  end.

(** [write] to descriptor 1 or 2, with the tests for an empty buffer passed. *)
Definition write_out (buf_ptr len : Z) (others : list (IS -> IS)) : ST IS (option (Z * list (IS -> IS))) :=
  vec_zero len ≫= fun _ =>
  r ← copied buf_ptr len;
  match r with
  | Err err => mret (Some (err, others))
  | Ok buf => send_serial buf ≫= fun _ => process_output buf ≫= fun _ => to_parent buf len others
  end.

(** A pipe or file descriptor: the pipe, whether it is the write end, whether it is a
    terminal. *)
Definition fd_info (fd : Z) : ST IS (option (option nat * bool * bool)) := fun s =>
  match Pgroup.current_pid (ps s) with
  | None => Some (None, s)
  | Some pid =>
      match Fs.with_fd_table pid (FdTable.get (Z.to_nat fd)) (Pgroup.fds (ps s)) with
      | None => None
      | Some (Some (Some fh), _) =>
          Some (Some (FdTable.pipe_id fh, FdTable.pipe_write fh, match FdTable.dir_path fh with Some p => Fs.is_tty_like_path p | None => false end), s)
      | Some (_, _) => Some (None, s)
      end
  end.

Definition wake_all (tids : list Z) : ST IS unit :=
  smodify (fun s => foldl (fun s tid => set_kst (Kernel.on_ks (Scheduler.wake_thread tid) (Pgroup.kst (ps s))) s) s tids).

Definition write_fd (fd buf_ptr len : Z) (others : list (IS -> IS)) : ST IS (option (Z * list (IS -> IS))) :=
  let done (v : Z) : ST IS (option (Z * list (IS -> IS))) := mret (Some (v, others)) in
  info ← fd_info fd;
  match info with
  | Some (_, _, true) => write_out buf_ptr len others
  | Some (Some pipe_id, true, false) =>
      s ← sget;
      if negb (validate_user_ptr (mem s) buf_ptr len) then done EFAULT
      else
        vec_zero len ≫= fun _ =>
        r ← copied buf_ptr len;
        match r with
        | Err e => done e
        | Ok buf =>
            let '(r, woken, t) := Pipe.pipe_write pipe_id buf (pipes s) in
            smodify (set_pipes t) ≫= fun _ => wake_all woken ≫= fun _ =>
            done match r with Ok n => Z.of_nat n | Err e => e end
        end
  | Some (None, _, false) => r ← fs_write fd buf_ptr len; mret match r with Some v => Some (v, others) | None => None end
  | Some (Some _, false, false) | None => done EBADF
  end.

Definition write_with (fd buf_ptr len : Z) (others : list (IS -> IS)) : ST IS (option (Z * list (IS -> IS))) :=
  let done (v : Z) : ST IS (option (Z * list (IS -> IS))) := mret (Some (v, others)) in
  if len =? 0 then done SUCCESS
  else if buf_ptr =? 0 then done EFAULT
  else if 3 <=? fd then write_fd fd buf_ptr len others
  else if negb (fd =? STDOUT_FD) && negb (fd =? STDERR_FD) then done EBADF
  else write_out buf_ptr len others.

Definition write (fd buf_ptr len : Z) (others : list (IS -> IS)) : IO := r ← write_with fd buf_ptr len others; mret (fst <$> r).

(** ** Reading *)

Definition read_stdin (buf_ptr len : Z) (w : Wait) : IO := fun s =>
  let '(r, m, c) := Tty.read_stdin buf_ptr len (codes w) (Pgroup.con (ps s)) (mem s) in
  Some (r, set_ps (Pgroup.set_mem m (Pgroup.set_con c (ps s))) s).

(** [sleep_thread_unless_woken(tid)] of a reader that is a thread *)
Definition go_to_sleep s : IS :=
  let k := Pgroup.kst (ps s) in
  match Kernel.current_thread_id k with
  | Some tid => set_kst (Kernel.on_ks (fun k => (Scheduler.sleep_thread_unless_woken tid k).2) k) s
  | None => s
  end.

Fixpoint pipe_read_blocking (id dst_len : nat) (others : list (IS -> IS)) (s : IS) : option bytes * IS :=
  match Pipe.pipe_read_step id dst_len (Kernel.current_thread_id (Pgroup.kst (ps s))) (pipes s) with
  | (Pipe.Done b, t) => (Some b, set_pipes t s)
  | (Pipe.Sleep, t) =>
      let s := go_to_sleep (set_pipes t s) in
      match others with
      | [] => (None, s)
      | o :: others => let s := o s in pipe_read_blocking id dst_len others (set_pipes (Pipe.pipe_read_wakeup id (pipes s)) s)
      end
  end.

(** A read from the pipe, with the tests passed *)
Definition read_pipe (pipe_id : nat) (buf_ptr len : Z) (w : Wait) : IO := fun s =>
  match pipe_read_blocking pipe_id (Z.to_nat len) (meanwhile w) s with
  | (None, s) => Some (None, s)
  | (Some [], s) => Some (Some 0, s)
  | (Some b, s) =>
      let '(r, m) := copy_to_user buf_ptr b (mem s) in
      Some (Some match r with Ok _ => blen b | Err e => e end, set_ps (Pgroup.set_mem m (ps s)) s)
  end.

Definition read_fd (fd buf_ptr len : Z) (w : Wait) : IO :=
  info ← fd_info fd;
  match info with
  | Some (_, _, true) => read_stdin buf_ptr len w
  | Some (Some pipe_id, false, false) =>
      s ← sget;
      if negb (validate_user_ptr (mem s) buf_ptr len) then ret EFAULT
      else vec_zero len ≫= fun _ => read_pipe pipe_id buf_ptr len w
  | Some _ => fs_read fd buf_ptr len
  | None => ret EBADF
  end.

Definition read (fd buf_ptr len : Z) (w : Wait) : IO :=
  if buf_ptr =? 0 then ret EFAULT
  else if len =? 0 then ret 0
  else if fd =? 0 then read_stdin buf_ptr len w
  else if 3 <=? fd then read_fd fd buf_ptr len w
  else ret EBADF.

(** ** Several buffers at once *)

(** The loop of [writev] and [readv] over [n] entries from number [i]: [call] is the call
    for one buffer, which passes on what is left of the others. *)
Fixpoint vector_loop {E : Type} (call : Z -> Z -> E -> ST IS (option (Z * E))) (iov_ptr : Z) (n : nat) (i total : Z) (others : E) : IO :=
  match n with
  | O => ret total
  | S n =>
      let or_total (e : Z) : IO := ret (if 0 <? total then total else e) in
      match checked_mul64 i IOVEC_SIZE with
      | None => ret EINVAL
      | Some off =>
          match checked_add64 iov_ptr off with
          | None => ret EFAULT
          | Some entry_ptr =>
              r ← copied entry_ptr IOVEC_SIZE;
              match r with
              | Err err => or_total err
              | Ok entry =>
                  let base := from_le_bytes (take 8 entry) in
                  let len := from_le_bytes (drop 8 entry) in
                  if len =? 0 then vector_loop call iov_ptr n (i + 1) total others
                  else if base =? 0 then or_total EFAULT
                  else
                    r ← call base len others;
                    match r with
                    | None => mret None
                    | Some (wrote, others) =>
                        if as_i64 wrote <? 0 then or_total wrote
                        else
                          match checked_add64 total wrote with
                          | None => ret EINVAL
                          | Some total => if wrote <? len then ret total else vector_loop call iov_ptr n (i + 1) total others
                          end
                    end
              end
          end
      end
  end.

Definition vector {E : Type} (call : Z -> Z -> E -> ST IS (option (Z * E))) (iov_ptr iovcnt : Z) (others : E) : IO :=
  if iovcnt =? 0 then ret SUCCESS
  else if iov_ptr =? 0 then ret EFAULT
  else if IOV_MAX <? iovcnt then ret EINVAL
  else
    match checked_mul64 iovcnt IOVEC_SIZE with
    | None => ret EINVAL
    | Some table_bytes =>
        s ← sget;
        if negb (validate_user_ptr (mem s) iov_ptr table_bytes) then ret EFAULT
        else vector_loop call iov_ptr (Z.to_nat iovcnt) 0 0 others
    end.

Definition writev (fd iov_ptr iovcnt : Z) (others : list (IS -> IS)) : IO := vector (write_with fd) iov_ptr iovcnt others.
(** Each read waits through the next element of [waits]. *)
Definition readv (fd iov_ptr iovcnt : Z) (waits : list Wait) : IO :=
  vector (fun base len waits => r ← read fd base len (default (mkWait [] []) (head waits)); mret ((fun v => (v, tail waits)) <$> r)) iov_ptr iovcnt waits.

(** ** The log *)

Definition log (msg len level : Z) : IO :=
  if (msg =? 0) || (len =? 0) then ret EINVAL
  else
    vec_zero len ≫= fun _ =>
    r ← copied msg len;
    match r with
    | Err err => ret err
    | Ok b =>
        if negb (utf8 b) then ret EINVAL
        else if (0 <=? level) && (level <=? 3) then ret SUCCESS
        else ret EINVAL
    end.

Definition check_gravity_exist : Z := SUCCESS.
End io.
End Io.

Module IoProps.
Import Io TtyProps.

Section io.
Context {Q Qk Qm : Type} `{!BoundedQueue Q Z, !BoundedQueue Qk Z, !BoundedQueue Qm Z}.
Context {M : Type} `{!UserMemory M}.
Notation IS := (@Io.IS Q Qk Qm M).
Context `{!FileIO (Q := Q) (Qk := Qk) (Qm := Qm) (M := M)} (heap : Z).
Implicit Types s : IS.

(** The state after [b] went to the terminal. *)
Definition printed (b : bytes) s : option IS :=
  c ← Tty.process_output b (Pgroup.con (ps s)); Some (mkIS (Pgroup.set_con c (ps s)) (pipes s) (serial s ++ b)).

Definition terminal (fd : Z) s : Prop := (fd = 1 \/ fd = 2) /\ get_parent_thread_id s = None /\ tty_ok (Pgroup.con (ps s)).

(** What [printed] leaves as it was. *)
Lemma printed_frame b s fd : terminal fd s -> exists s', printed b s = Some s' /\ terminal fd s' /\ mem s' = mem s.
Proof.
  intros (Hfd & Hp & Ht). destruct (tty_output_total b _ Ht) as (c & E & Hc & _). unfold printed. rewrite E. cbn. eexists. split; [done|]. done.
Qed.

Lemma printed_app a b s fd : terminal fd s -> printed (a ++ b) s = (printed a s ≫= printed b).
Proof.
  intros (_ & _ & Ht). unfold printed. rewrite tty_output_chunks by done. destruct (Tty.process_output a _); [|done]. cbn. rewrite <-app_assoc. done.
Qed.

Lemma printed_nil s : printed [] s = Some s.
Proof. unfold printed. cbn. rewrite app_nil_r. by destruct s as [[] ? ?]. Qed.

Lemma write_terminal fd p len b (others : list (IS -> IS)) s :
  terminal fd s -> p <> 0 -> 0 <= len <= heap -> copy_from_user (mem s) p (Z.to_nat len) = Ok b ->
  write_with heap fd p len others s = s' ← printed b s; Some (Some (len, others), s').
Proof.
  intros (Hfd & Hp & Ht) Hp0 Hl Hc. unfold write_with. destruct (Z.eqb_spec len 0) as [->|Hn].
  - apply copy_from_user_length in Hc. destruct b; [|done]. by rewrite printed_nil.
  - rewrite (proj2 (Z.eqb_neq _ _) Hp0), (proj2 (Z.leb_gt 3 fd)) by lia.
    assert (negb (fd =? STDOUT_FD) && negb (fd =? STDERR_FD) = false) as -> by (by destruct Hfd as [-> | ->]).
    unfold write_out, vec_zero. rewrite (proj2 (Z.ltb_ge _ _)) by lia. cbv [mbind ST_bind mret ST_ret copied]. rewrite Hc.
    unfold send_serial, process_output, smodify, printed. cbn. destruct (Tty.process_output b _) as [c|]; [|done]. cbn.
    unfold to_parent. change (get_parent_thread_id _) with (get_parent_thread_id s). by rewrite Hp.
Qed.

(** The buffers that [n] entries of a vector point to. *)
Inductive Gather (m : M) : Z -> list bytes -> Prop :=
| gather_nil p : Gather m p []
| gather_empty p entry bs : copy_from_user m p 16 = Ok entry -> from_le_bytes (drop 8 entry) = 0 ->
    Gather m (p + 16) bs -> Gather m p ([] :: bs)
| gather_cons p entry b bs : copy_from_user m p 16 = Ok entry -> 0 < from_le_bytes (drop 8 entry) <= heap ->
    from_le_bytes (take 8 entry) <> 0 ->
    copy_from_user m (from_le_bytes (take 8 entry)) (Z.to_nat (from_le_bytes (drop 8 entry))) = Ok b ->
    Gather m (p + 16) bs -> Gather m p (b :: bs).

Lemma checked_add_fits a b : a + b < 2 ^ 64 -> checked_add64 a b = Some (a + b).
Proof. intros H. by apply checked_add64_Some. Qed.
Lemma checked_mul_fits a b : a * b < 2 ^ 64 -> checked_mul64 a b = Some (a * b).
Proof. intros H. unfold checked_mul64. by rewrite (proj2 (Z.ltb_lt _ _)). Qed.

(** One round of the loop whose write goes well, and one that has nothing to write. *)
Lemma vector_round fd iov n i total (others : list (IS -> IS)) s entry b :
  terminal fd s -> 0 <= i -> iov + 16 * i < 2 ^ 64 -> 0 <= iov -> copy_from_user (mem s) (iov + 16 * i) 16 = Ok entry ->
  0 < from_le_bytes (drop 8 entry) <= heap -> from_le_bytes (take 8 entry) <> 0 ->
  copy_from_user (mem s) (from_le_bytes (take 8 entry)) (Z.to_nat (from_le_bytes (drop 8 entry))) = Ok b ->
  0 <= total -> total + blen b < 2 ^ 63 ->
  vector_loop (write_with heap fd) iov (S n) i total others s =
  s' ← printed b s; vector_loop (write_with heap fd) iov n (i + 1) (total + blen b) others s'.
Proof.
  intros Ht Hi Hb Hv Ee Hl Hbase Hc Hz Hsum. cbn [vector_loop].
  pose proof (copy_from_user_length _ _ _ _ Hc) as Hlen. set (len := from_le_bytes (drop 8 entry)) in *.
  assert (blen b = len) as Hbl by (unfold blen; lia). rewrite Hbl in *.
  rewrite (checked_mul_fits i IOVEC_SIZE), (checked_add_fits iov (i * IOVEC_SIZE)) by (unfold IOVEC_SIZE; lia).
  replace (iov + i * IOVEC_SIZE) with (iov + 16 * i) by (unfold IOVEC_SIZE; lia).
  cbv [mbind ST_bind copied]. change (Z.to_nat IOVEC_SIZE) with 16%nat. rewrite Ee. fold len.
  rewrite (proj2 (Z.eqb_neq len 0)), (proj2 (Z.eqb_neq _ 0) Hbase) by lia.
  rewrite (write_terminal fd _ len b others s Ht Hbase) by (done || lia).
  destruct (printed_frame b s fd Ht) as (s' & -> & _). cbn [mbind option_bind].
  unfold as_i64. rewrite (proj2 (Z.ltb_lt len 9223372036854775808)) by lia. rewrite (proj2 (Z.ltb_ge len 0)) by lia.
  rewrite checked_add_fits, Z.ltb_irrefl by lia. done.
Qed.

Lemma vector_skip fd iov n i total (others : list (IS -> IS)) s entry :
  0 <= i -> iov + 16 * i < 2 ^ 64 -> 0 <= iov -> copy_from_user (mem s) (iov + 16 * i) 16 = Ok entry -> from_le_bytes (drop 8 entry) = 0 ->
  vector_loop (write_with heap fd) iov (S n) i total others s = vector_loop (write_with heap fd) iov n (i + 1) total others s.
Proof.
  intros Hi Hb Hv Ee Hl. cbn [vector_loop].
  rewrite (checked_mul_fits i IOVEC_SIZE), (checked_add_fits iov (i * IOVEC_SIZE)) by (unfold IOVEC_SIZE; lia).
  replace (iov + i * IOVEC_SIZE) with (iov + 16 * i) by (unfold IOVEC_SIZE; lia).
  cbv [mbind ST_bind copied]. change (Z.to_nat IOVEC_SIZE) with 16%nat. by rewrite Ee, Hl.
Qed.

Lemma vector_terminal fd iov bufs (others : list (IS -> IS)) : forall i total s,
  terminal fd s -> Gather (mem s) (iov + 16 * i) bufs -> 0 <= iov -> 0 <= i -> iov + 16 * (i + Z.of_nat (length bufs)) < 2 ^ 64 ->
  0 <= total -> total + blen (concat bufs) < 2 ^ 63 ->
  vector_loop (write_with heap fd) iov (length bufs) i total others s =
  s' ← printed (concat bufs) s; Some (Some (total + blen (concat bufs)), s').
Proof.
  induction bufs as [|b bufs IH]; intros i total s Ht Hg Hv Hi Hb Hz Hsum; [cbn [length vector_loop concat]; rewrite printed_nil; cbn; by rewrite Z.add_0_r|].
  cbn [length concat] in *. unfold blen in *. rewrite length_app in *. inversion Hg as [|? entry ? Ee El Hg'|? entry ? ? Ee El Hbase Hc Hg']; subst.
  - rewrite (vector_skip fd iov _ i total others s entry) by (done || lia). replace (iov + 16 * i + 16) with (iov + 16 * (i + 1)) in Hg' by lia.
    rewrite (IH (i + 1) total s) by (done || cbn in *; lia). done.
  - rewrite (vector_round fd iov _ i total others s entry b) by (done || unfold blen; lia). replace (iov + 16 * i + 16) with (iov + 16 * (i + 1)) in Hg' by lia.
    rewrite (printed_app b (concat bufs) s fd Ht). destruct (printed_frame b s fd Ht) as (s' & -> & Ht' & Hm). cbn [mbind option_bind].
    rewrite <-Hm in Hg'. unfold blen. rewrite (IH (i + 1) _ s') by (done || lia). destruct (printed _ s'); [|done]. cbn. by rewrite Nat2Z.inj_add, Z.add_assoc.
Qed.


(** ** Waiting for the parent *)

(** The pieces are the whole buffer, each of a size that a message can carry. *)
Lemma chunks_whole fuel (b : bytes) : (length b <= fuel)%nat ->
  concat (chunks fuel b) = b /\ Forall (fun c => 0 < blen c <= Ipc.MAX_MSG_SIZE) (chunks fuel b).
Proof.
  revert b. induction fuel as [|fuel IH]; intros [|x b] Hl; try done; [cbn in Hl; lia|].
  change (chunks (S fuel) (x :: b)) with (take CHUNK (x :: b) :: chunks fuel (drop CHUNK (x :: b))).
  destruct (IH (drop CHUNK (x :: b))) as [E H]; [rewrite length_drop; unfold CHUNK; cbn [length] in *; lia|]. split.
  - cbn [concat]. by rewrite E, take_drop.
  - constructor; [|done]. unfold blen. rewrite length_take. unfold CHUNK, Ipc.MAX_MSG_SIZE. cbn [length]. lia.
Qed.

(** The thread [tid] is gone, and nothing the others do brings it back: ids are not used
    again. *)
Definition gone (tid : Z) s : Prop := IpcSyscalls.handle tid (Scheduler.queue (IpcSyscalls.ks (Kernel.ist (Pgroup.kst (ps s))))) = None.

Lemma send_to_gone tid data s : gone tid s -> exists s', send_until tid data [] s = (None, s') /\ gone tid s' /\
  forall o others, send_until tid data (o :: others) s = send_until tid data others (o s').
Proof.
  intros Hg. cbn [send_until]. unfold IpcSyscalls.send_from_kernel. unfold gone in Hg. destruct (Ipc.MAX_MSG_SIZE <? _); [|rewrite Hg]; by eexists.
Qed.

(** A write to a parent that dies while it waits does not return, however long it waits. *)
Lemma write_waits_for_dead_parent tid data (others : list (IS -> IS)) s :
  gone tid s -> Forall (fun o => forall s, gone tid s -> gone tid (o s)) others -> (send_until tid data others s).1 = None.
Proof.
  intros Hg Ho. revert s Hg. induction Ho as [|o others Ho _ IH]; intros s Hg; destruct (send_to_gone tid data s Hg) as (s' & E & Hg' & E'); [by rewrite E|].
  rewrite E'. by apply IH, Ho.
Qed.

(** A write, or a log line, of more than the kernel heap holds stops the kernel, whatever
    the buffer is: the length is used before it is checked. *)
Lemma huge_write_panics (p len level : Z) (others : list (IS -> IS)) s :
  p <> 0 -> 0 <= heap < len -> write heap 1 p len others s = None /\ log heap p len level s = None.
Proof.
  intros Hp Hh. unfold write, write_with, write_out, log, vec_zero.
  rewrite (proj2 (Z.eqb_neq p 0) Hp), (proj2 (Z.eqb_neq len 0)), (proj2 (Z.ltb_lt heap len)) by lia. done.
Qed.
End io.

(** ** An example *)

#[local] Instance input_queue : BoundedQueue (Fifo.FifoInner Z) Z := Fifo.fifo_bounded_queue 1024.

(** Process 10 without a parent; a vector at 256 with the buffers at 512 and 528 and an
    empty one between, and their contents at 640. *)
Definition demo_mem : Z -> Z :=
  flat_store (flat_store (flat_store (flat_store (fun _ => 0) 256 (to_le_bytes 8 512 ++ to_le_bytes 8 3 ++ to_le_bytes 8 0 ++ to_le_bytes 8 0 ++ to_le_bytes 8 528 ++ to_le_bytes 8 2))
    512 [27; 91; 54]) 528 [110; 65]) 640 [27; 91; 54; 110; 65].

#[local] Instance demo_files : FileIO (Q := Fifo.FifoInner Z) (Qk := Fifo.FifoInner Z) (Qm := Fifo.FifoInner Z) (M := Z -> Z) :=
  {| fs_read _ _ _ := ret EBADF; fs_write _ _ _ := ret EBADF |}.

Definition demo_io : @IS (Fifo.FifoInner Z) (Fifo.FifoInner Z) (Fifo.FifoInner Z) (Z -> Z) := mkIS (PgroupProps.demo [] demo_mem) [] [].

Lemma demo_terminal : terminal 1 demo_io.
Proof. split; [by left|]. split; [vm_compute; reflexivity|exact demo_ok]. Qed.

Lemma demo_gather : Gather 4096 demo_mem 256 [[27; 91; 54]; []; [110; 65]].
Proof.
  eapply gather_cons; [vm_compute; reflexivity|vm_compute; split; [done|discriminate]|vm_compute; discriminate|vm_compute; reflexivity|].
  eapply gather_empty; [vm_compute; reflexivity|vm_compute; reflexivity|].
  eapply gather_cons; [vm_compute; reflexivity|vm_compute; split; [done|discriminate]|vm_compute; discriminate|vm_compute; reflexivity|]. constructor.
Qed.

End IoProps.
